(* ===== verification/_CoqProject ===== *)
-Q . S2P
Prelude.v
CSerde.v
Crc.v
BinHeap.v
EarliestQueue.v
DeadlineQueue.v
TimerQueue.v
SpscRing.v
MemoryPool.v
Tlv.v
Ltv.v
Modbus.v
World.v
TypeIdentity.v
Machine.v
MachineBuild.v
Mailbox.v
MachineInstance.v
MachineSelect.v
MachineRun.v
MachineInit.v
MachineWake.v
MachineExample.v
H2Frame.v
HpackTables.v
Hpack.v
HpackCodec.v
HpackWire.v
HpackTable.v
HpackHuffman.v
HpackSafe.v
HpackSync.v
HpackEncode.v
HpackRoundtrip.v
HpackExample.v
Sequence.v
HashMap.v
HashTable.v
HashMapSpec.v
HashSet.v
Vec.v
Deque.v
StlHeap.v
StlSort.v
RbTree.v
RbShape.v
RbInsert.v
RbDelete.v
RbOrder.v
RbChain.v
RbSpec.v
OrdMap.v
OrdMapSpec.v
OrdMapBuild.v
OrdMapIter.v
OrdSet.v
OrdExample.v
StlList.v
StlListSpec.v
StlListIter.v
RingBuffer.v
BucketQueue.v
BucketQueueSpec.v
BucketQueueRefine.v
Utf8.v
Utf8Spec.v
Utf8View.v
Levenshtein.v
LevSpec.v
LevMatch.v
