(* ===== verification/Prelude.v ===== *)
(** * A verification development for turbo-utils

    The repository is a collection of C libraries: containers ([cstl]) over
    run-time type descriptors ([cmeta]), wait-free and timed queues
    ([concurrency]), data-flow graphs and state machines ([cflow]), token
    based serialisation ([cserde]), protocol and text parsers ([parser]),
    memory pools and helpers ([utils]), and network code on top of them. This
    development translates the parts that keep state and decide something
    into executable definitions, one function of the source per definition
    and under its name, and proves what makes them correct.

    ** Parts, files and what they show

    - Prelude: machine integers, arrays ([aget], [aset], [alen], [slice]) and
      the tactics and lemmas every file shares. World: the state monad of
      code that allocates (answers of [malloc], allocated blocks, live
      objects; no result is undefined behaviour).
    - CSerde ([cserde/src/token.c], [reader.c], [writer.c]): token validity,
      the reader and writer automata around a provider and a sink, skipping
      of nested values. A reader hands out the provider's valid tokens and
      then one terminal status for ever; a writer forwards exactly what it
      accepts; skipping accepts exactly the well-nested values within the depth
      limit, for every provider, and returns when the provider comes to an end.
    - Crc: cyclic redundancy checks as linear maps on registers, shared by
      Tlv and Modbus: a single changed byte changes the check.
    - BinHeap: sift-up and sift-down on an array of keys, shared by
      DeadlineQueue and StlHeap. EarliestQueue: queues ordered by deadline
      and draining them, shared by DeadlineQueue and TimerQueue.
    - DeadlineQueue ([concurrency/src/deadline_queue.c]): the indexed heap
      with slots and generations refines a set of pending events; ids are
      never issued twice; draining is exact.
    - TimerQueue ([cflow/src/timer_queue.c], [cflow/time.h]): the timer array,
      scheduling, cancelling, draining, saturating deadlines.
    - SpscRing ([concurrency/src/spsc_ring.c]): every operation as a program
      of atomic loads and stores; an invariant over all interleavings of one
      producer and one consumer gives the first-in-first-out property.
    - MemoryPool ([utils/src/memory_pool.c]): exact allocation, blocks that
      never overlap.
    - Tlv, Ltv, Modbus ([parser/tlv_parser], [ltv_parser], [modbus_parser]):
      exact acceptance, round trips, detection of corruption, and stream
      parsers that refine a queue of unread bytes.
    - TypeIdentity ([cmeta/src/type_identity.c], [cmeta_type_equal] of
      [cmeta.c]): equality of descriptors decides equality of the types they
      spell.
    - Machine, MachineBuild ([cflow/src/machine.c]): the first holds the
      definitions, the meaning of a well-formed machine and the validation of
      rows; the second the breadth-first search, declaration use and
      building. Building accepts exactly the well-formed machines.
    - Mailbox ([cflow/src/event.c]): a bounded queue of typed events with
      two ends, saturating counters and one waiter. It refines a list of
      events, loses no wake-up in any interleaving, and accepts exactly the
      valid schemas.
    - MachineInstance, MachineSelect, MachineRun, MachineInit, MachineWake,
      MachineExample ([cflow/src/machine_instance.c]): a running machine with
      its mailbox, a worker and any number of callers. The first holds the
      data, every locked section as one step and the step relation of the
      whole; the second shows that selection finds the enabled transition of
      least priority number; the third gives the invariants of all
      interleavings: events are accounted for, the state moves along
      transitions only, after a cancellation or an error nothing is committed
      any more and no value gets ready (an emission already under way still
      ends), no thread is stuck. The fourth is creation and destruction. The
      fifth shows that an armed waker is called, or its calling is under way,
      as soon as the registration ends, in every interleaving and with two
      exact exceptions. The last runs concrete schedules, one of which loses a
      waiter.
    - H2Frame ([chttp/src/chttp_h2_frame.c]): frame headers, payloads and
      settings of HTTP/2, exact and read back as written.
    - HpackTables, Hpack, HpackCodec ([chttp/src/chttp_h2_hpack.c] and its two
      tables): header compression. The tables; the output buffer, integers,
      strings, the Huffman tree and the dynamic table; contexts and the
      encoding and decoding of blocks. HpackWire: what the writers append and
      that the readers read it. HpackTable: the dynamic table as a list of
      headers. HpackHuffman: the tree's paths are the codes, decoding is exact.
      HpackSafe: decoding any bytes is safe. HpackSync: representations as an
      abstract syntax and that the decoder carries them out. HpackEncode: that
      the encoder writes them. HpackRoundtrip: conversations of an encoder and
      a decoder. HpackExample: concrete blocks, and where the code departs from
      the format.
    - Sequence ([cstl/src/sequence_internal.h]): strides, aligned blocks,
      element life cycles, growth; the interface the containers use.
    - HashMap, HashTable, HashMapSpec, HashSet ([cstl/src/hash_map.c],
      [hash_set.c]): the operations; the invariant of an open-addressing
      table and the lemmas on probing; the refinement of a finite map; the
      set on top of the map.
    - Vec, Deque, StlHeap, StlSort ([cstl/src/vec.c], [deque.c], [heap.c],
      [sort.c]): refinement of lists, double-ended lists and multisets, and a
      stable sort.
    - RbTree ([cstl/src/rbtree.c]): the red-black tree on a heap of nodes with
      parent, child and neighbour pointers. RbShape: shapes of trees, where a
      shape is located in the heap, rotations. RbInsert, RbDelete: the repairs
      after insertion and deletion restore the red-black invariants. RbOrder:
      the chain of neighbours, searching and its logarithmic height. RbChain:
      linking and unlinking nodes. RbSpec: the tree refines the sorted list of
      its entries.
    - OrdMap, OrdMapSpec, OrdMapBuild, OrdMapIter, OrdSet ([cstl/src/map.c],
      [multimap.c], [set.c]): ordered maps with and without equal keys and the
      ordered set. The operations; refinement of sorted lists; construction
      from arrays, all or nothing; iterators as positions; the set on top of
      the map. OrdExample: concrete containers the theorems are applied to.
    - StlList, StlListSpec, StlListIter ([cstl/src/list.c]): the doubly linked
      list on a heap of nodes. The operations; refinement of sequences, with
      the nodes that stay in place when others come and go; construction from
      an array, all or nothing; iterators as positions.
    - RingBuffer ([utils/src/ring_buffer.c]): the single-threaded buffer with
      contiguous regions refines a queue of bytes. BucketQueue,
      BucketQueueSpec, BucketQueueRefine ([bucket_priority_queue.c]): a bucket
      over such a ring holds a list of words and grows by copying it; the
      queue refines four lists, taken from the highest down.
    - Utf8, Utf8Spec, Utf8View ([utils/src/salts_vstr.c], the part on code
      points): decoding one code point and the functions on views that walk
      over them, with the scan by sixteen bytes. Decoding inverts encoding and
      accepts nothing else, bytes split into encodings and a rest in one way
      only; every function answers from that split.
    - Levenshtein, LevSpec, LevMatch ([utils/src/levenshtein_automaton.c]):
      approximate search for bytes and for code points. Alignments and what
      the best part of a text is; that the rows of the table hold it and the
      scan reports it; automata with their memory.

    Containers call Sequence and run in World; the sets call the maps, the
    ordered maps the red-black tree; the heaps share BinHeap, the timed
    queues EarliestQueue, the two parsers with checksums Crc; a bucket queue
    runs in World over RingBuffer; an automaton keeps its pattern in a Vec and
    reads text with Utf8. A machine instance runs a built Machine and
    owns a Mailbox; its theorems use what MachineBuild and Mailbox show.

    ** How the code is read

    A value of an unsigned C type is a [Z] and conversions are written out
    ([u8], [u16], [u32], [u64]); a theorem that needs a range says so with
    [is_u64] and the like. Sizes are those of a 64-bit platform: [size_t] and
    pointers have eight bytes. A pointer argument is an [option], [None] being
    [NULL]; an array is a list read and written with [aget] and [aset], which
    have no result out of bounds; a result [None] of a definition in [option]
    or in the world monad is therefore undefined behaviour, and the theorems
    show that it does not occur. Memory that may hold no object is a list of
    optional slots, so use after destruction has no result either.

    ** Bounds and fuel

    Loops whose end is not structural take fuel. Doubling of capacities and
    bucket counts gets 65 rounds, one more than a 64-bit value can double,
    and running out has no result, so the theorems show it does not happen;
    the passes of the merge sort are bounded the same way. Heap loops and
    searches run as many rounds as the array has elements; the searches over
    a machine get one round per row and one more ([rounds]); probing a hash
    table runs over its capacity. Draining is stated with the number of calls
    it takes. The integers of header compression take six rounds, one more than
    a 32-bit value has groups of seven bits; decoding a block takes one round
    per byte and one more, since every field has at least a byte. Loops over
    the nodes of a red-black tree or of a linked list get one round per node
    and one more. Copying a bucket takes a round per byte at most, a batch a
    round per entry and, for its buckets, nine: a mask has eight bits. Loops
    over a view take one round per byte and one more.

    ** Assumptions

    - SpscRing: memory is sequentially consistent; what the acquire and
      release orders guarantee on weaker memory is not derived. Mailbox,
      MachineInstance: a lock gives mutual exclusion, so a locked section is
      one step; the executor of an instance is serial, so one worker runs at a
      time; guards and actions of a machine are functions that return.
    - [malloc] answers any sequence of blocks and failures; a theorem that
      promises success asks for usable blocks ([mallocs]) and copyable values.
    - Callbacks are functions: hash and equality obey [key_laws], comparison
      is a total preorder ([Comparison], [TotalCompare]), traits copy and move
      what they are given ([type_ok]). Keys of ordered containers are compared
      by a total preorder whose sign flips with its arguments ([KeyOrder]).
    - [calloc] of a tree node gives an address no live node has
      ([Allocator], with an instance that computes one).
    - The standard [qsort] is a class with the contract of the C standard
      ([QSort]); an instance shows that the contract can be met.
    - Deque: the element limit fits a signed 64-bit value.
    - BucketQueue: words lie in memory with the lowest byte first; the highest
      bit of a mask is the one the compiler's built-in finds
      ([highest_portable_ok]: the portable search finds the same).
    - Utf8: the mask of sixteen bytes that the portable vector library gives is
      a class with its documented meaning ([Simd], with an instance).

    ** Not modelled

    Of cflow: statecharts, graphs, executors, schedulers, actors, and the
    adapters that offer an instance as a source of a graph; of cstl: the
    B-trees and streams, and the adapters of maps and lists to ranges and
    collectors; of chttp: everything above frames and header compression; of
    utils: the other functions on strings, logging, compression and the
    thread-safe queues; the text parsers, cbind, the other network code,
    platform and native input/output, coroutines and threads. They are large
    or bound to the operating system; the next one in line is the HTTP/2
    protocol over the modelled frames. Vendored and generated code is left
    aside. The thread-local context and the printing of statistics of
    the tlv parser have no definitions. *)

From Stdlib Require Export ZArith Lia.
From Stdlib Require Export Permutation Sorted.
From stdpp Require Export base tactics option list numbers gmap.

#[export] Set Default Goal Selector "!".
Local Open Scope Z_scope.

(** ** Machine integers

    A value of an unsigned C type of width [w] is a [Z]; the conversions to
    the type are written out where the source has them, so that the place
    where a value can wrap is visible in the model. *)

Definition UINT8_MAX : Z := 255.
Definition UINT16_MAX : Z := 65535.
Definition UINT32_MAX : Z := 4294967295.
Definition UINT64_MAX : Z := 18446744073709551615.
Definition SIZE_MAX : Z := UINT64_MAX.
Definition INT64_MAX : Z := 9223372036854775807.

Definition u8 (x : Z) : Z := x mod 256.
Definition u16 (x : Z) : Z := x mod 65536.
Definition u32 (x : Z) : Z := x mod 4294967296.
Definition u64 (x : Z) : Z := x mod 18446744073709551616.

Definition is_u8 (x : Z) : Prop := 0 <= x <= UINT8_MAX.
Definition is_u16 (x : Z) : Prop := 0 <= x <= UINT16_MAX.
Definition is_u32 (x : Z) : Prop := 0 <= x <= UINT32_MAX.
Definition is_u64 (x : Z) : Prop := 0 <= x <= UINT64_MAX.

(** Pointers: [None] is the null pointer. *)
Definition is_null {A} (p : option A) : bool := match p with None => true | Some _ => false end.

(** A byte string: what a [uint8_t] array holds. *)
Definition bytes_ok (b : list Z) : Prop := Forall is_u8 b.

#[export] Instance is_u8_dec x : Decision (is_u8 x).
Proof. unfold is_u8. apply _. Defined.
#[export] Instance bytes_ok_dec b : Decision (bytes_ok b).
Proof. unfold bytes_ok. apply _. Defined.

Ltac unfold_words :=
  unfold u8, u16, u32, u64, is_u8, is_u16, is_u32, is_u64, SIZE_MAX,
    UINT8_MAX, UINT16_MAX, UINT32_MAX, UINT64_MAX, INT64_MAX in *.

(** [word_lia] is [lia] with the word-size constants visible and division and
    remainder by constants turned into equations. *)
Ltac word_lia := unfold_words; Z.to_euclidean_division_equations; lia.

Create HintDb word.
Create Rewrite HintDb buf.

Lemma u8_range x : is_u8 (u8 x).
Proof. unfold_words. pose proof (Z.mod_pos_bound x 256). lia. Qed.
Lemma u16_range x : is_u16 (u16 x).
Proof. unfold_words. pose proof (Z.mod_pos_bound x 65536). lia. Qed.
Lemma u32_range x : is_u32 (u32 x).
Proof. unfold_words. pose proof (Z.mod_pos_bound x 4294967296). lia. Qed.
#[export] Hint Resolve u8_range u16_range u32_range : word.

Lemma u8_id x : is_u8 x → u8 x = x.
Proof. intros. apply Z.mod_small. word_lia. Qed.
Lemma u16_id x : is_u16 x → u16 x = x.
Proof. intros. apply Z.mod_small. word_lia. Qed.
Lemma u32_id x : is_u32 x → u32 x = x.
Proof. intros. apply Z.mod_small. word_lia. Qed.
Lemma u64_id x : is_u64 x → u64 x = x.
Proof. intros. apply Z.mod_small. word_lia. Qed.

Lemma testbit_small lo n i :
  0 <= lo < 2 ^ n → n <= i → Z.testbit lo i = false.
Proof.
  intros Hlo Hi. destruct (decide (lo = 0)) as [->|]; [apply Z.bits_0|].
  apply Z.bits_above_log2; [lia|].
  enough (Z.log2 lo < n) by lia. apply Z.log2_lt_pow2; lia.
Qed.

Lemma land_fields_0 hi lo n :
  0 <= n → 0 <= lo < 2 ^ n → Z.land (hi * 2 ^ n) lo = 0.
Proof.
  intros Hn Hlo. apply Z.bits_inj'. intros i Hi. rewrite Z.land_spec, Z.bits_0.
  destruct (decide (i < n)) as [Hin|Hin].
  - by rewrite Z.mul_pow2_bits_low.
  - rewrite (testbit_small lo n i), andb_false_r; [done|lia|lia].
Qed.

(** A shift-and-or of non-overlapping fields is a sum: this is what every
    multi-byte read of the codecs is. *)
Lemma lor_shiftl_add hi lo n :
  0 <= n → 0 <= lo < 2 ^ n → Z.lor (Z.shiftl hi n) lo = hi * 2 ^ n + lo.
Proof.
  intros Hn Hlo. rewrite Z.shiftl_mul_pow2 by done.
  pose proof (land_fields_0 hi lo n Hn Hlo) as H0.
  rewrite <-Z.lxor_lor by done. symmetry. by apply Z.add_nocarry_lxor.
Qed.

Lemma lor_lo_shiftl_add hi lo n :
  0 <= n → 0 <= lo < 2 ^ n → Z.lor lo (Z.shiftl hi n) = hi * 2 ^ n + lo.
Proof. intros. rewrite Z.lor_comm. by apply lor_shiftl_add. Qed.

Lemma shiftr_div x n : 0 <= n → Z.shiftr x n = x / 2 ^ n.
Proof. apply Z.shiftr_div_pow2. Qed.

Lemma land_ones_mod x n : 0 <= n → Z.land x (2 ^ n - 1) = x mod 2 ^ n.
Proof.
  intros. rewrite <-Z.land_ones by done. by rewrite Z.ones_equiv, Z.sub_1_r.
Qed.

(** ** Byte buffers

    A C array of bytes is a [list Z]. A read or a write outside the array has
    no meaning in C: it is [None] here, so that a function that returns
    [Some _] for every input is free of out-of-bounds accesses. *)

Definition blen (b : list Z) : Z := Z.of_nat (length b).

Definition load (b : list Z) (i : Z) : option Z :=
  if bool_decide (0 <= i) then b !! Z.to_nat i else None.

(** [memcpy(dst, b + off, n)], the bytes that are read. *)
Definition slice (b : list Z) (off n : Z) : option (list Z) :=
  if bool_decide (0 <= off ∧ 0 <= n ∧ off + n <= blen b)
  then Some (take (Z.to_nat n) (drop (Z.to_nat off) b)) else None.

(** [memcpy(b + off, src, |src|)], the buffer after the write. *)
Definition blit (b : list Z) (off : Z) (src : list Z) : option (list Z) :=
  if bool_decide (0 <= off ∧ off + blen src <= blen b)
  then Some (take (Z.to_nat off) b ++ src ++
             drop (Z.to_nat off + length src) b) else None.

(** [b[i] = v]. *)
Definition store (b : list Z) (i v : Z) : option (list Z) := blit b i [v].

(** [memset(b + off, 0, n)]. *)
Definition zeros (n : Z) : list Z := replicate (Z.to_nat n) 0.

Lemma blen_nonneg b : 0 <= blen b.
Proof. unfold blen. lia. Qed.
Lemma blen_app b1 b2 : blen (b1 ++ b2) = blen b1 + blen b2.
Proof. unfold blen. rewrite length_app. lia. Qed.
Lemma blen_cons x b : blen (x :: b) = 1 + blen b.
Proof. unfold blen. simpl. lia. Qed.
Lemma blen_nil : blen [] = 0.
Proof. done. Qed.
#[export] Hint Rewrite blen_app blen_cons blen_nil : buf.

(** [blia]: arithmetic over buffer lengths. *)
Ltac blia := autorewrite with buf in *; unfold blen in *; word_lia.

Lemma load_Some b i v : load b i = Some v → 0 <= i < blen b ∧ b !! Z.to_nat i = Some v.
Proof.
  unfold load. intros H. case_bool_decide; [|done].
  apply lookup_lt_Some in H as Hl. unfold blen. split; [lia|done].
Qed.

Lemma load_in_bounds b i : 0 <= i < blen b → is_Some (load b i).
Proof.
  intros H. unfold load. rewrite bool_decide_true by lia.
  apply lookup_lt_is_Some. blia.
Qed.

Lemma load_byte b i v : bytes_ok b → load b i = Some v → is_u8 v.
Proof.
  intros Hb [_ Hv]%load_Some. by apply (Forall_lookup_1 _ _ _ _ Hb Hv).
Qed.

Lemma load_app_r b1 b2 i : 0 <= i → load (b1 ++ b2) (blen b1 + i) = load b2 i.
Proof.
  intros. unfold load. rewrite !bool_decide_true by (unfold blen; lia).
  rewrite lookup_app_r by (unfold blen; lia). f_equal. unfold blen. lia.
Qed.

Lemma load_app_l b1 b2 i : i < blen b1 → load (b1 ++ b2) i = load b1 i.
Proof.
  intros. unfold load. case_bool_decide; [|done].
  apply lookup_app_l. blia.
Qed.

Lemma slice_Some b off n s :
  slice b off n = Some s → 0 <= off ∧ 0 <= n ∧ off + n <= blen b ∧
  s = take (Z.to_nat n) (drop (Z.to_nat off) b).
Proof. unfold slice. case_bool_decide; intros; simplify_eq. tauto. Qed.

Lemma slice_blen b off n s : slice b off n = Some s → blen s = n.
Proof.
  intros (?&?&?&->)%slice_Some. unfold blen in *.
  rewrite length_take, length_drop. lia.
Qed.

Lemma slice_in_bounds b off n :
  0 <= off → 0 <= n → off + n <= blen b →
  slice b off n = Some (take (Z.to_nat n) (drop (Z.to_nat off) b)).
Proof. intros. unfold slice. by rewrite bool_decide_true. Qed.

Lemma slice_app b1 b2 b3 off n :
  off = blen b1 → n = blen b2 → slice (b1 ++ b2 ++ b3) off n = Some b2.
Proof.
  intros -> ->. rewrite slice_in_bounds; [|apply blen_nonneg..|].
  - f_equal. unfold blen. rewrite !Nat2Z.id, drop_app_length.
    by rewrite take_app_length.
  - rewrite !blen_app. pose proof (blen_nonneg b3). lia.
Qed.

Lemma slice_bytes b off n s : bytes_ok b → slice b off n = Some s → bytes_ok s.
Proof.
  intros Hb (?&?&?&->)%slice_Some. by apply Forall_take, Forall_drop.
Qed.

Lemma blit_Some b off s b' :
  blit b off s = Some b' → 0 <= off ∧ off + blen s <= blen b ∧
  b' = take (Z.to_nat off) b ++ s ++ drop (Z.to_nat off + length s) b.
Proof. unfold blit. case_bool_decide; intros; simplify_eq. tauto. Qed.

Lemma blit_blen b off s b' : blit b off s = Some b' → blen b' = blen b.
Proof.
  intros (?&?&->)%blit_Some. unfold blen in *.
  rewrite !length_app, length_take, length_drop. lia.
Qed.

Lemma blit_in_bounds b off s :
  0 <= off → off + blen s <= blen b →
  blit b off s = Some (take (Z.to_nat off) b ++ s ++ drop (Z.to_nat off + length s) b).
Proof. intros. unfold blit. by rewrite bool_decide_true. Qed.

Lemma blit_0 b s :
  blen s <= blen b → blit b 0 s = Some (s ++ drop (length s) b).
Proof. intros. by rewrite blit_in_bounds. Qed.

(** Two consecutive writes are one write of the concatenation: a sequence of
    [out[i] = ...; memcpy(out + k, ...)] collapses to one [blit]. *)
Lemma blit_blit b off s1 s2 :
  0 <= off → (b1 ← blit b off s1; blit b1 (off + blen s1) s2) = blit b off (s1 ++ s2).
Proof.
  intros Hoff. destruct (blit b off s1) as [b1|] eqn:E; simpl.
  - apply blit_blen in E as Hl. apply blit_Some in E as (_&H1&->).
    pose proof (blen_nonneg s1). unfold blit. rewrite Hl, blen_app.
    case_bool_decide; case_bool_decide; [|lia|lia|done].
    f_equal. unfold blen in *.
    replace (Z.to_nat (off + Z.of_nat (length s1)))
      with (Z.to_nat off + length s1)%nat by lia.
    rewrite take_app_ge, drop_app_ge by (rewrite length_take; lia).
    rewrite !length_take_le by lia.
    replace (Z.to_nat off + length s1 - Z.to_nat off)%nat with (length s1) by lia.
    rewrite take_app_length, drop_app_ge by lia.
    rewrite drop_drop, length_app, <-!app_assoc.
    do 4 f_equal. lia.
  - unfold blit in *. case_bool_decide; [done|].
    rewrite bool_decide_false; [done|].
    rewrite blen_app. pose proof (blen_nonneg s2). lia.
Qed.

Lemma blit_bytes b off s b' :
  bytes_ok b → bytes_ok s → blit b off s = Some b' → bytes_ok b'.
Proof.
  intros Hb Hs (?&?&->)%blit_Some. apply Forall_app_2; [by apply Forall_take|].
  apply Forall_app_2; [done|by apply Forall_drop].
Qed.

(** ** Facts about single bytes, by evaluation on all 256 of them *)

Lemma byte_forall (P : Z → bool) :
  forallb P (seqZ 0 256) = true → ∀ b, is_u8 b → P b = true.
Proof.
  intros HP b Hb. rewrite forallb_forall in HP. apply HP.
  apply list_elem_of_In, elem_of_seqZ. word_lia.
Qed.

(** [byte_cases b] proves a boolean fact about the byte [b] by evaluation. *)
Ltac byte_cases b Hb :=
  pattern b;
  match goal with |- ?P b =>
    let Q := constr:(fun z : Z => bool_decide (P z)) in
    apply (bool_decide_eq_true_1 (P b));
    apply (byte_forall Q); [vm_compute; reflexivity | exact Hb]
  end.

Lemma byte_land_7f b : is_u8 b → Z.land b 127 = b mod 128.
Proof. intros Hb. byte_cases b Hb. Qed.
Lemma byte_land_80 b : is_u8 b → Z.land b 128 = if b <? 128 then 0 else 128.
Proof. intros Hb. byte_cases b Hb. Qed.
Lemma byte_land_f0 b : is_u8 b → Z.land b 240 = b - b mod 16.
Proof. intros Hb. byte_cases b Hb. Qed.
Lemma byte_land_0f b : is_u8 b → Z.land b 15 = b mod 16.
Proof. intros Hb. byte_cases b Hb. Qed.
Lemma byte_land_70 b : is_u8 b → Z.land b 112 = b mod 128 - b mod 16.
Proof. intros Hb. byte_cases b Hb. Qed.

Lemma u8_lor_80 x : 0 <= x → u8 (Z.lor x 128) = x mod 128 + 128.
Proof.
  intros Hx. unfold u8.
  change 256 with (2 ^ 8). rewrite <-Z.land_ones by lia.
  rewrite Z.land_lor_distr_l, Z.land_ones by lia.
  change (Z.land 128 (Z.ones 8)) with 128. change (2 ^ 8) with 256.
  assert (Hb : is_u8 (x mod 256)) by apply u8_range.
  replace (x mod 128) with ((x mod 256) mod 128) by
    (rewrite Z.mod_mod_divide; [done|by exists 2]).
  revert Hb. generalize (x mod 256). intros b Hb. byte_cases b Hb.
Qed.

(** ** Slices, byte by byte *)

Lemma slice_nil b off : 0 <= off <= blen b → slice b off 0 = Some [].
Proof. intros. by rewrite slice_in_bounds by lia. Qed.

Lemma slice_cons b off n x l :
  0 <= n →
  slice b off (1 + n) = Some (x :: l) ↔ load b off = Some x ∧ slice b (off + 1) n = Some l.
Proof.
  intros Hn. unfold load. split.
  - intros (?&?&?&H)%slice_Some. rewrite bool_decide_true by done.
    replace (Z.to_nat (1 + n)) with (S (Z.to_nat n)) in H by lia.
    destruct (drop (Z.to_nat off) b) as [|y d] eqn:E; simplify_eq/=.
    assert (Hd : b !! Z.to_nat off = Some y).
    { rewrite <-(Nat.add_0_r (Z.to_nat off)), <-lookup_drop, E. done. }
    split; [done|]. rewrite slice_in_bounds by lia. do 2 f_equal.
    replace (Z.to_nat (off + 1)) with (Z.to_nat off + 1)%nat by lia.
    by rewrite <-drop_drop, E.
  - case_bool_decide; [|naive_solver].
    intros [Hx (?&?&?&->)%slice_Some]. rewrite slice_in_bounds by lia.
    rewrite (drop_S _ _ _ Hx).
    replace (Z.to_nat (1 + n)) with (S (Z.to_nat n)) by lia.
    by replace (Z.to_nat (off + 1)) with (S (Z.to_nat off)) by lia.
Qed.

Lemma slice_0_take b n s : slice b 0 n = Some s → b = s ++ drop (length s) b.
Proof.
  intros H. apply slice_blen in H as Hl. apply slice_Some in H as (?&?&?&->).
  rewrite length_take, drop_0. unfold blen in *.
  replace (Z.to_nat n `min` length b)%nat with (Z.to_nat n) by lia.
  by rewrite take_drop.
Qed.

Lemma slice_0_prefix s r : slice (s ++ r) 0 (blen s) = Some s.
Proof. by apply (slice_app [] s r). Qed.

Lemma slice_bounds b off n s : slice b off n = Some s → 0 <= off ∧ 0 <= n ∧ off + n <= blen b.
Proof. intros (?&?&?&_)%slice_Some. lia. Qed.

(** [msimpl]: run the option monad of the models up to the next read. *)
Ltac msimpl :=
  cbn [mbind option_bind mret option_ret default from_option id fst snd negb andb orb];
  cbv beta zeta.
Tactic Notation "msimpl" "in" hyp(H) :=
  cbn [mbind option_bind mret option_ret default from_option id fst snd negb andb orb] in H;
  cbv beta zeta in H.

Lemma slice_prefix b len q n :
  slice b 0 len = Some q → n <= len → slice q 0 n = slice b 0 n.
Proof.
  intros Hq Hn. apply slice_blen in Hq as Hl. apply slice_Some in Hq as (_&?&?&->).
  unfold slice. rewrite Hl.
  repeat case_bool_decide; try done; try lia.
  rewrite !drop_0, take_take. do 2 f_equal. lia.
Qed.

Lemma slice_all b : slice b 0 (blen b) = Some b.
Proof.
  rewrite slice_in_bounds; [|lia|apply blen_nonneg|lia].
  rewrite drop_0, take_ge; [done|unfold blen; lia].
Qed.

(** Splitting a buffer at a position. *)
Lemma slice_split b off n m s :
  0 <= n → 0 <= m → slice b off (n + m) = Some s →
  ∃ s1 s2, s = s1 ++ s2 ∧ slice b off n = Some s1 ∧ slice b (off + n) m = Some s2.
Proof.
  intros Hn Hm (?&?&?&->)%slice_Some.
  eexists _, _. rewrite !slice_in_bounds by lia. split_and!; [|done..].
  replace (Z.to_nat (n + m)) with (Z.to_nat n + Z.to_nat m)%nat by lia.
  replace (Z.to_nat (off + n)) with (Z.to_nat off + Z.to_nat n)%nat by lia.
  rewrite <-drop_drop. by rewrite <-take_take_drop.
Qed.

Lemma slice_join b off n m s1 s2 :
  slice b off n = Some s1 → slice b (off + n) m = Some s2 →
  slice b off (n + m) = Some (s1 ++ s2).
Proof.
  intros (?&?&?&->)%slice_Some (?&?&?&->)%slice_Some.
  rewrite slice_in_bounds by lia. f_equal.
  replace (Z.to_nat (n + m)) with (Z.to_nat n + Z.to_nat m)%nat by lia.
  replace (Z.to_nat (off + n)) with (Z.to_nat off + Z.to_nat n)%nat by lia.
  rewrite <-drop_drop. by rewrite <-take_take_drop.
Qed.

(** Reading back what was written, and what was not. *)
Lemma slice_blit_same b off s b' :
  blit b off s = Some b' → slice b' off (blen s) = Some s.
Proof.
  intros (?&?&->)%blit_Some. unfold blen in *.
  apply slice_app; unfold blen; [rewrite length_take|]; lia.
Qed.

Lemma slice_blit_before b off s b' o n :
  blit b off s = Some b' → o + n <= off → slice b' o n = slice b o n.
Proof.
  intros Hb Hle. apply blit_blen in Hb as Hl. apply blit_Some in Hb as (?&?&->).
  unfold slice. rewrite Hl. case_bool_decide; [|done]. f_equal.
  rewrite !drop_app_le, !take_app_le; rewrite ?length_drop, ?length_take;
    unfold blen in *; try lia.
  rewrite skipn_firstn_comm, take_take. f_equal. lia.
Qed.

Lemma slice_blit_after b off s b' o n :
  blit b off s = Some b' → off + blen s <= o → slice b' o n = slice b o n.
Proof.
  intros Hb Hle. apply blit_blen in Hb as Hl. apply blit_Some in Hb as (?&?&->).
  unfold slice. rewrite Hl. case_bool_decide; [|done]. f_equal. f_equal.
  rewrite app_assoc, drop_app_ge by (rewrite length_app, length_take; unfold blen in *; lia).
  rewrite drop_drop. f_equal. rewrite length_app, length_take. unfold blen in *. lia.
Qed.

(** [by_eval]: a closed decidable fact, by evaluation. *)
Ltac by_eval := refine (bool_decide_eq_true_1 _ _); vm_compute; reflexivity.

(** Reads from an explicit list of bytes. *)
Lemma load_cons x l i :
  load (x :: l) i = if i =? 0 then Some x else if i <? 0 then None else load l (i - 1).
Proof.
  unfold load. destruct (Z.eqb_spec i 0) as [->|]; [done|].
  destruct (Z.ltb_spec i 0); [by rewrite bool_decide_false by lia|].
  rewrite !bool_decide_true by lia.
  replace (Z.to_nat i) with (S (Z.to_nat (i - 1))) by lia. done.
Qed.

#[global] Arguments load : simpl never.
#[global] Arguments slice : simpl never.
#[global] Arguments blit : simpl never.
#[global] Arguments store : simpl never.
#[global] Arguments u8 : simpl never.
#[global] Arguments u16 : simpl never.
#[global] Arguments u32 : simpl never.
#[global] Arguments u64 : simpl never.

(** [load_cbn]: evaluate reads at constant offsets of an explicit list. *)
Ltac load_cbn := rewrite ?load_cons; simpl Z.eqb; simpl Z.ltb; simpl Z.sub; cbv iota.

(** A buffer of known minimal length, byte by byte. *)
Lemma bytes_uncons b :
  bytes_ok b → 0 < blen b → ∃ x l, b = x :: l ∧ is_u8 x ∧ bytes_ok l ∧ blen l = blen b - 1.
Proof.
  intros Hb Hl. destruct Hb as [|x l Hx Hb]; [unfold blen in Hl; simpl in Hl; lia|].
  exists x, l. rewrite blen_cons. split_and!; done || lia.
Qed.

Ltac uncons b Hb x :=
  let b' := fresh "tl" in
  let Hx := fresh "H" x in let Hb' := fresh "Htl" in let Hl := fresh "Hlen" in
  destruct (bytes_uncons b Hb) as (x & b' & -> & Hx & Hb' & Hl); [lia|].

Lemma be16_val a b : is_u8 a → is_u8 b → u16 (Z.lor (Z.shiftl a 8) b) = a * 256 + b.
Proof. intros. rewrite lor_shiftl_add by word_lia. apply u16_id. word_lia. Qed.
Lemma le16_val a b : is_u8 a → is_u8 b → u16 (Z.lor a (Z.shiftl b 8)) = b * 256 + a.
Proof. intros. rewrite Z.lor_comm. by apply be16_val. Qed.

Lemma be16_bytes v : is_u16 v → u8 (Z.shiftr v 8) * 256 + u8 v = v.
Proof. intros. rewrite shiftr_div by lia. change (2 ^ 8) with 256. word_lia. Qed.

(** A write at the end of the previous one, inside a longer computation. *)
Lemma blit_seq {A} b off off' s1 s2 (k : list Z → option A) :
  0 <= off → off' = off + blen s1 →
  (b1 ← blit b off s1; b2 ← blit b1 off' s2; k b2) = b2 ← blit b off (s1 ++ s2); k b2.
Proof.
  intros Hoff ->. rewrite <-blit_blit by done. by destruct (blit b off s1).
Qed.

Lemma blit_nil b off : 0 <= off <= blen b → blit b off [] = Some b.
Proof.
  intros. rewrite blit_in_bounds by (unfold blen in *; simpl; lia).
  simpl. by rewrite Nat.add_0_r, take_drop.
Qed.

(** [if (n > 0) memcpy(o + off, p, n)]. *)
Lemma blit_payload o off p :
  0 <= off <= blen o →
  (if 0 <? blen p then s ← slice p 0 (blen p); blit o off s else Some o) = blit o off p.
Proof.
  intros. destruct (Z.ltb_spec 0 (blen p)) as [Hp|Hp]; [by rewrite slice_all|].
  destruct p; [by rewrite blit_nil|]. unfold blen in Hp. simpl in Hp. lia.
Qed.

Lemma load_slice b len q i : slice b 0 len = Some q → i < len → load q i = load b i.
Proof.
  intros Hs Hi. apply slice_0_take in Hs as Hb. rewrite Hb at 1.
  rewrite load_app_l; [done|]. by rewrite (slice_blen _ _ _ _ Hs).
Qed.

Lemma load_blit_before b off s b' i :
  blit b off s = Some b' → i < off → load b' i = load b i.
Proof.
  intros Hb Hi. pose proof (blen_nonneg s). apply blit_Some in Hb as H'. destruct H' as (?&?&_).
  destruct (slice b 0 off) as [q|] eqn:Hq; [|by rewrite slice_in_bounds in Hq by lia].
  rewrite <-(load_slice b off q) by done. rewrite <-(load_slice b' off q); [done| |done].
  by rewrite (slice_blit_before _ _ _ _ _ _ Hb) by lia.
Qed.

(** [if (n > 0) memmove(b, b + from, n)]: the stream parsers drop the front of
    their buffer with it. *)
Definition compact (b : list Z) (from n : Z) : option (list Z) :=
  if 0 <? n then m ← slice b from n; blit b 0 m else Some b.

Lemma compact_spec b from n rest :
  slice b from n = Some rest →
  ∃ b', compact b from n = Some b' ∧ blen b' = blen b ∧ (bytes_ok b → bytes_ok b') ∧
        slice b' 0 n = Some rest ∧ (rest = [] → b' = b).
Proof.
  intros Hs. pose proof (slice_blen _ _ _ _ Hs) as Hl.
  pose proof (slice_bounds _ _ _ _ Hs) as (?&?&?).
  unfold compact. destruct (Z.ltb_spec 0 n) as [Hn|Hn].
  - rewrite Hs. msimpl.
    assert (Hb : blit b 0 rest = Some (rest ++ drop (length rest) b)) by (apply blit_0; lia).
    rewrite Hb. eexists. split; [done|]. split_and!.
    + by apply (blit_blen _ _ _ _ Hb).
    + intros Hok. eapply blit_bytes; [exact Hok| |exact Hb]. by eapply slice_bytes.
    + rewrite <-Hl. apply slice_0_prefix.
    + by intros ->.
  - exists b. split_and!; try done. replace n with 0 in * by lia.
    rewrite slice_nil in Hs |- * by lia. done.
Qed.

(** ** Arrays indexed by [Z]

    [aget] and [aset] are the reads and writes of a C array of any element
    type; [None] is an access outside it. *)

Definition alen {A} (l : list A) : Z := Z.of_nat (length l).

Definition aget {A} (l : list A) (i : Z) : option A :=
  if i <? 0 then None else l !! Z.to_nat i.

Definition aset {A} (l : list A) (i : Z) (x : A) : option (list A) :=
  if (0 <=? i) && (i <? alen l) then Some (<[Z.to_nat i := x]> l) else None.

Section Arrays.
Context {A : Type}.
Implicit Types (l : list A) (x y : A).

Lemma aget_Some l i x : aget l i = Some x → 0 <= i < alen l ∧ l !! Z.to_nat i = Some x.
Proof.
  unfold aget, alen. destruct (Z.ltb_spec i 0); [done|]. intros Hx. split; [|done].
  apply lookup_lt_Some in Hx. lia.
Qed.

Lemma aget_in_bounds l i : 0 <= i < alen l → is_Some (aget l i).
Proof.
  unfold aget, alen. intros Hi. destruct (Z.ltb_spec i 0); [lia|].
  apply lookup_lt_is_Some_2. lia.
Qed.

Lemma aget_None l i : aget l i = None ↔ ¬ 0 <= i < alen l.
Proof.
  split.
  - intros H Hi. apply aget_in_bounds in Hi as [x Hx]. congruence.
  - intros H. destruct (aget l i) eqn:E; [|done]. apply aget_Some in E. tauto.
Qed.

Lemma aset_in_bounds l i x : 0 <= i < alen l → aset l i x = Some (<[Z.to_nat i := x]> l).
Proof.
  intros Hi. unfold aset. by destruct (Z.leb_spec 0 i), (Z.ltb_spec i (alen l)); simpl; try lia.
Qed.

Lemma aset_Some l i x l' :
  aset l i x = Some l' → 0 <= i < alen l ∧ l' = <[Z.to_nat i := x]> l.
Proof.
  unfold aset. destruct (Z.leb_spec 0 i), (Z.ltb_spec i (alen l)); simpl; try done.
  intros [= <-]. by split; [lia|].
Qed.

Lemma aset_is_Some l i x : 0 <= i < alen l → is_Some (aset l i x).
Proof. intros Hi. rewrite aset_in_bounds by done. eauto. Qed.

Lemma aset_alen l i x l' : aset l i x = Some l' → alen l' = alen l.
Proof. intros [_ ->]%aset_Some. unfold alen. by rewrite length_insert. Qed.

Lemma aget_aset l i x l' k :
  aset l i x = Some l' → aget l' k = if k =? i then Some x else aget l k.
Proof.
  intros [Hi ->]%aset_Some. unfold aget. unfold alen in Hi.
  destruct (Z.eqb_spec k i) as [->|Hne].
  - destruct (Z.ltb_spec i 0); [lia|]. by rewrite list_lookup_insert_eq by lia.
  - destruct (Z.ltb_spec k 0); [done|]. by rewrite list_lookup_insert_ne by lia.
Qed.

Lemma alen_app l1 l2 : alen (l1 ++ l2) = alen l1 + alen l2.
Proof. unfold alen. rewrite length_app. lia. Qed.

Lemma alen_nonneg l : 0 <= alen l.
Proof. unfold alen. lia. Qed.

Lemma aget_middle l1 l2 x i : i = alen l1 → aget (l1 ++ x :: l2) i = Some x.
Proof.
  intros ->. unfold aget, alen. destruct (Z.ltb_spec (Z.of_nat (length l1)) 0); [lia|].
  by rewrite Nat2Z.id, lookup_app_r, Nat.sub_diag by lia.
Qed.

Lemma aset_middle l1 l2 x y i : i = alen l1 → aset (l1 ++ x :: l2) i y = Some (l1 ++ y :: l2).
Proof.
  intros ->. rewrite aset_in_bounds.
  - unfold alen. by rewrite Nat2Z.id, insert_app_r_alt, Nat.sub_diag by lia.
  - rewrite alen_app. unfold alen. simpl. lia.
Qed.

Lemma aget_head l x : aget (x :: l) 0 = Some x.
Proof. done. Qed.

Lemma aset_head l x y : aset (x :: l) 0 y = Some (y :: l).
Proof. by apply (aset_middle []). Qed.

Lemma aget_take l n i : 0 <= i < n → aget (take (Z.to_nat n) l) i = aget l i.
Proof.
  intros Hi. unfold aget. destruct (Z.ltb_spec i 0); [done|]. rewrite lookup_take_lt by lia. done.
Qed.
End Arrays.

(** ** Filters *)

Section Filters.
Context {A : Type} (P Q : A → Prop) `{∀ x, Decision (P x), ∀ x, Decision (Q x)}.

Implicit Types (l : list A).

Lemma filter_ext_in l : (∀ x, x ∈ l → (P x ↔ Q x)) → filter P l = filter Q l.
Proof.
  induction l as [|x l IH]; intros Hpq; [done|]. rewrite !filter_cons, IH by set_solver.
  assert (P x ↔ Q x) by set_solver. by repeat case_decide; try tauto.
Qed.

Lemma filter_none l : (∀ x, x ∈ l → ¬ P x) → filter P l = [].
Proof.
  induction l as [|x l IH]; intros Hp; [done|].
  rewrite filter_cons, decide_False by set_solver. apply IH. set_solver.
Qed.

Lemma filter_all l : (∀ x, x ∈ l → P x) → filter P l = l.
Proof.
  induction l as [|x l IH]; intros Hp; [done|].
  rewrite filter_cons, decide_True, IH by set_solver. done.
Qed.

(** One more element passes. *)
Lemma filter_add_one l r :
  NoDup l → r ∈ l → ¬ P r → Q r → (∀ x, x ∈ l → x ≠ r → (P x ↔ Q x)) →
  length (filter Q l) = S (length (filter P l)).
Proof.
  induction l as [|x l IH]; intros Hnd Hr HP HQ Hpq; [set_solver|].
  apply NoDup_cons in Hnd as [Hx Hnd]. rewrite !filter_cons.
  apply elem_of_cons in Hr as [->|Hr].
  - rewrite decide_True, decide_False by done. simpl. f_equal.
    rewrite filter_ext_in; [done|]. intros y Hy. apply Hpq; set_solver.
  - assert (x ≠ r) by (intros ->; done). assert (P x ↔ Q x) by (apply Hpq; set_solver).
    assert (length (filter Q l) = S (length (filter P l))) as E by (apply IH; set_solver).
    repeat case_decide; try tauto. simpl. by rewrite E.
Qed.
End Filters.

(** ** Moving elements inside an array *)

(** [memmove(&l[dst], &l[src], n * sizeof(l[0]))]. *)
Definition amove {A} (l : list A) (dst src n : Z) : option (list A) :=
  if (0 <=? dst) && (0 <=? src) && (0 <=? n) && (dst + n <=? alen l) && (src + n <=? alen l)
  then Some (take (Z.to_nat dst) l ++ take (Z.to_nat n) (drop (Z.to_nat src) l) ++
             drop (Z.to_nat (dst + n)) l)
  else None.

Lemma amove_in_bounds {A} (l : list A) dst src n :
  0 <= dst → 0 <= src → 0 <= n → dst + n <= alen l → src + n <= alen l →
  ∃ l', amove l dst src n = Some l' ∧ alen l' = alen l.
Proof.
  intros. unfold amove.
  rewrite !(proj2 (Z.leb_le _ _)) by lia. simpl. eexists. split; [done|].
  unfold alen in *. rewrite !length_app, !length_take, !length_drop. lia.
Qed.

(** Closing the gap at [i]. *)
Lemma amove_delete {A} (l l' : list A) n i :
  0 <= i < n → n <= alen l → amove l i (i + 1) (n - i - 1) = Some l' →
  take (Z.to_nat (n - 1)) l' = delete (Z.to_nat i) (take (Z.to_nat n) l).
Proof.
  intros Hi Hn. unfold amove. rewrite !(proj2 (Z.leb_le _ _)) by lia. simpl. intros [= <-].
  unfold alen in *. rewrite delete_take_drop.
  rewrite app_assoc, take_app_le by (rewrite length_app, !length_take, length_drop; lia).
  rewrite take_ge by (rewrite length_app, !length_take, length_drop; lia).
  rewrite take_take, Nat.min_l by lia. f_equal.
  rewrite skipn_firstn_comm. f_equal; [lia|f_equal; lia].
Qed.

(** Opening a gap behind [a], and closing the one that follows [a]. *)
Lemma amove_open {A} (a b : list A) y tl :
  ∃ g, amove (a ++ b ++ y :: tl) (alen a + 1) (alen a) (alen b) = Some (a ++ g :: b ++ tl).
Proof.
  unfold amove. rewrite !alen_app. unfold alen. cbn [length].
  rewrite !(proj2 (Z.leb_le _ _)) by lia. cbn [andb].
  rewrite Nat2Z.id. replace (Z.to_nat (Z.of_nat (length a) + 1)) with (length a + 1)%nat by lia.
  replace (Z.to_nat (Z.of_nat (length a) + 1 + Z.of_nat (length b))) with (length a + (length b + 1))%nat by lia.
  rewrite Nat2Z.id, take_app_add, drop_app_add, drop_app_length, take_app_length by done.
  rewrite drop_app_add by done. cbn [drop]. destruct b as [|x b].
  - exists y. by rewrite <-app_assoc.
  - exists x. by rewrite <-app_assoc.
Qed.

Lemma amove_close {A} (a b : list A) y tl :
  ∃ g, amove (a ++ y :: b ++ tl) (alen a) (alen a + 1) (alen b) = Some (a ++ b ++ g :: tl).
Proof.
  unfold amove. rewrite !alen_app. unfold alen. cbn [length]. rewrite length_app.
  rewrite !(proj2 (Z.leb_le _ _)) by lia. cbn [andb].
  rewrite !Nat2Z.id. replace (Z.to_nat (Z.of_nat (length a) + 1)) with (length a + 1)%nat by lia.
  replace (Z.to_nat (Z.of_nat (length a) + Z.of_nat (length b))) with (length a + length b)%nat by lia.
  rewrite take_app_length, !drop_app_add by done. cbn [drop]. rewrite drop_0, take_app_length.
  assert (y :: b ++ tl = (y :: b) ++ tl) as -> by done. rewrite drop_app_le by (simpl; lia).
  destruct (drop (length b) (y :: b)) as [|g l] eqn:E; apply (f_equal length) in E as El;
    rewrite length_drop in El; simpl length in El; [lia|].
  destruct l; [by exists g|simpl in El; lia].
Qed.

(** ** Alignment arithmetic *)

(** [(alignment & (alignment - 1)) == 0] picks the powers of two. *)
Lemma pow2_test a :
  0 < a <= SIZE_MAX → Z.land a (u64 (a - 1)) = 0 ↔ ∃ k, 0 <= k < 64 ∧ a = 2 ^ k.
Proof.
  intros Ha. rewrite u64_id by (unfold_words; lia). split.
  - intros Hland. exists (Z.log2 a). pose proof (Z.log2_spec a) as Hl. pose proof (Z.log2_nonneg a).
    assert (Z.log2 a < 64) by (apply Z.log2_lt_pow2; unfold_words; lia).
    split; [lia|]. destruct (decide (a = 2 ^ Z.log2 a)) as [|Hn]; [done|exfalso].
    assert (Z.log2 (a - 1) = Z.log2 a) as Hlog by (apply Z.log2_unique; lia).
    assert (Z.testbit (Z.land a (a - 1)) (Z.log2 a) = true) as Hbit.
    { rewrite Z.land_spec, Z.bit_log2 by lia. rewrite <-Hlog, Z.bit_log2; [done|].
      pose proof (Z.pow_pos_nonneg 2 (Z.log2 a)). lia. }
    by rewrite Hland, Z.bits_0 in Hbit.
  - intros (k & Hk & ->). replace (2 ^ k - 1) with (Z.ones k) by (rewrite Z.ones_equiv; lia).
    rewrite Z.land_ones, Z.mod_same by lia. done.
Qed.

(** Rounding up to a multiple of a power of two. *)
Lemma align_up x k :
  0 <= k < 64 → is_u64 x → x + (2 ^ k - 1) <= SIZE_MAX →
  ∃ q, Z.land (u64 (x + (2 ^ k - 1))) (u64 (Z.lnot (2 ^ k - 1))) = q * 2 ^ k ∧
    x <= q * 2 ^ k < x + 2 ^ k.
Proof.
  intros Hk Hx Hmax. pose proof (Z.pow_pos_nonneg 2 k) as Hpos.
  rewrite (u64_id (x + _)) by (unfold_words; lia).
  set (y := x + (2 ^ k - 1)). exists (y / 2 ^ k).
  assert (Z.land y (u64 (Z.lnot (2 ^ k - 1))) = y / 2 ^ k * 2 ^ k) as ->.
  { unfold u64. change 18446744073709551616 with (2 ^ 64). rewrite <-Z.land_ones by lia.
    rewrite (Z.land_comm (Z.lnot _)), Z.land_assoc.
    rewrite (Z.land_ones y 64), (Z.mod_small y) by (subst y; unfold_words; lia).
    rewrite <-Z.ldiff_land. replace (2 ^ k - 1) with (Z.ones k) by (rewrite Z.ones_equiv; lia).
    rewrite Z.ldiff_ones_r, Z.shiftl_mul_pow2, Z.shiftr_div_pow2 by lia. done. }
  split; [done|]. pose proof (Z.div_mod y (2 ^ k)). pose proof (Z.mod_pos_bound y (2 ^ k)).
  subst y. lia.
Qed.

(** The least multiple of [a] that is not below [x]. *)
Definition round_up (x a : Z) : Z := (x + a - 1) / a * a.

Lemma round_up_unique x a q : 0 < a → x <= q * a < x + a → round_up x a = q * a.
Proof.
  intros Ha Hq. unfold round_up. f_equal. symmetry. apply Z.div_unique_pos with (x + a - 1 - q * a); lia.
Qed.
