(* ===== verification/CSerde.v ===== *)
(** * CSerde: the canonical token protocol ([cserde/]) *)

From S2P Require Import Prelude.
Local Open Scope Z_scope.

(** ** Statuses and tokens *)

(** A C enum can hold any [int]; [CSERDE_STATUS_OTHER] is a value that is none
    of the enumerators. *)
Inductive cserde_status :=
  | CSERDE_OK
  | CSERDE_DONE
  | CSERDE_INVALID_ARGUMENT
  | CSERDE_INVALID_STATE
  | CSERDE_INVALID_TOKEN
  | CSERDE_UNEXPECTED_END
  | CSERDE_VALUE_OUT_OF_RANGE
  | CSERDE_LIMIT_EXCEEDED
  | CSERDE_UNSUPPORTED
  | CSERDE_SOURCE_ERROR
  | CSERDE_SINK_ERROR
  | CSERDE_CALLBACK_ERROR
  | CSERDE_STATUS_OTHER (n : Z).

#[export] Instance cserde_status_eq_dec : EqDecision cserde_status.
Proof. solve_decision. Defined.

Inductive cserde_view_lifetime :=
  | CSERDE_VIEW_TRANSIENT
  | CSERDE_VIEW_STABLE
  | CSERDE_VIEW_OTHER.

#[export] Instance cserde_view_lifetime_eq_dec : EqDecision cserde_view_lifetime.
Proof. solve_decision. Defined.

(** [data] is [None] for a [NULL] pointer. *)
Record cserde_slice := CserdeSlice {
  slice_data : option (list Z);
  slice_size : Z;
  slice_lifetime : cserde_view_lifetime
}.

Inductive cserde_token_kind :=
  | CSERDE_NULL
  | CSERDE_BOOL
  | CSERDE_SINT
  | CSERDE_UINT
  | CSERDE_FLOAT
  | CSERDE_STRING
  | CSERDE_BYTES
  | CSERDE_ARRAY_BEGIN
  | CSERDE_ARRAY_END
  | CSERDE_MAP_BEGIN
  | CSERDE_MAP_END
  | CSERDE_KIND_OTHER.

#[export] Instance cserde_token_kind_eq_dec : EqDecision cserde_token_kind.
Proof. solve_decision. Defined.

(** The union of [cserde_token], one field per member: the code only reads the
    member that [kind] selects. [tok_floating] holds the bits of the double. *)
Record cserde_token := CserdeToken {
  tok_kind : cserde_token_kind;
  tok_boolean : bool;
  tok_sint : Z;
  tok_uint : Z;
  tok_floating : Z;
  tok_slice : cserde_slice
}.

(** [cserde_token token = { 0 }]. *)
Definition cserde_token_zero : cserde_token :=
  CserdeToken CSERDE_NULL false 0 0 0 (CserdeSlice None 0 CSERDE_VIEW_TRANSIENT).

Definition cserde_token_kind_valid (k : cserde_token_kind) : bool :=
  match k with CSERDE_KIND_OTHER => false | _ => true end.

Definition cserde_view_lifetime_valid (l : cserde_view_lifetime) : bool :=
  bool_decide (l = CSERDE_VIEW_TRANSIENT) || bool_decide (l = CSERDE_VIEW_STABLE).

Definition cserde_token_valid (token : option cserde_token) : bool :=
  match token with
  | None => false
  | Some t =>
      if negb (cserde_token_kind_valid (tok_kind t)) then false else
      if negb (bool_decide (tok_kind t = CSERDE_STRING)) &&
         negb (bool_decide (tok_kind t = CSERDE_BYTES)) then true else
      if negb (cserde_view_lifetime_valid (slice_lifetime (tok_slice t))) then false else
      (slice_size (tok_slice t) =? 0) || negb (bool_decide (slice_data (tok_slice t) = None))
  end.

#[global] Arguments cserde_token_valid : simpl never.

(** ** Reader *)

Definition CSERDE_READER_OPS_ABI_VERSION : Z := 1.

Inductive cserde_reader_state :=
  | CSERDE_READER_ZERO
  | CSERDE_READER_READY
  | CSERDE_READER_DONE
  | CSERDE_READER_FAILED.

#[export] Instance cserde_reader_state_eq_dec : EqDecision cserde_reader_state.
Proof. solve_decision. Defined.

(** [C] is what the provider keeps behind [void *context]: a callback takes
    the pointed-to state ([None] for [NULL]) and returns it with its status
    and the token it stored. *)
Record cserde_reader_ops (C : Type) := CserdeReaderOps {
  rops_struct_size : Z;
  rops_abi_version : Z;
  rops_next : option (option C → option C * cserde_status * cserde_token)
}.
Arguments CserdeReaderOps {C}.
Arguments rops_struct_size {C}.
Arguments rops_abi_version {C}.
Arguments rops_next {C}.

Record cserde_reader (C : Type) := CserdeReader {
  rd_ops : option (cserde_reader_ops C);
  rd_context : option C;
  rd_state : cserde_reader_state;
  rd_status : cserde_status
}.
Arguments CserdeReader {C}.
Arguments rd_ops {C}.
Arguments rd_context {C}.
Arguments rd_state {C}.
Arguments rd_status {C}.

Section Reader.
Context {C : Type}.
Implicit Types (rd : cserde_reader C) (ops : cserde_reader_ops C).

(** [CSERDE_FIELD_END(cserde_reader_ops, next)] on a 64-bit target: a
    [size_t], a padded [uint32_t] and a pointer. *)
Definition cserde_reader_ops_end : Z := 24.

Definition cserde_reader_ops_valid (ops : option (cserde_reader_ops C)) : bool :=
  match ops with
  | None => false
  | Some ops =>
      (cserde_reader_ops_end <=? rops_struct_size ops) &&
      (rops_abi_version ops =? CSERDE_READER_OPS_ABI_VERSION) &&
      match rops_next ops with Some _ => true | None => false end
  end.

Definition cserde_reader_callback_status_valid (status : cserde_status) : bool :=
  match status with
  | CSERDE_OK | CSERDE_DONE | CSERDE_VALUE_OUT_OF_RANGE | CSERDE_LIMIT_EXCEEDED
  | CSERDE_UNSUPPORTED | CSERDE_SOURCE_ERROR => true
  | _ => false
  end.

Definition rd_set rd (ctx : option C) (st : cserde_reader_state) (status : cserde_status) :=
  CserdeReader (rd_ops rd) ctx st status.

Definition cserde_reader_fail rd (status : cserde_status) : cserde_status * cserde_reader C :=
  (status, rd_set rd (rd_context rd) CSERDE_READER_FAILED status).

(** The status and the reader after the call. *)
Definition cserde_reader_init (reader : option (cserde_reader C))
    (ops : option (cserde_reader_ops C)) (context : option C) :
    cserde_status * option (cserde_reader C) :=
  match reader, ops with
  | Some rd, Some _ =>
      if match rd_ops rd with Some _ => true | None => false end ||
         match rd_context rd with Some _ => true | None => false end ||
         negb (bool_decide (rd_state rd = CSERDE_READER_ZERO)) ||
         negb (bool_decide (rd_status rd = CSERDE_OK))
      then (CSERDE_INVALID_STATE, reader) else
      if negb (cserde_reader_ops_valid ops) then (CSERDE_INVALID_ARGUMENT, reader) else
      (CSERDE_OK, Some (CserdeReader ops context CSERDE_READER_READY CSERDE_OK))
  | _, _ => (CSERDE_INVALID_ARGUMENT, reader)
  end.

(** The call [reader->ops->next(reader->context, &token)]; a [NULL] table or
    entry has no meaning. *)
Definition rd_call_next rd : option (option C * cserde_status * cserde_token) :=
  ops ← rd_ops rd; next ← rops_next ops; Some (next (rd_context rd)).

(** [cserde_reader_next] on non-NULL arguments: status, reader, [*out]. *)
Definition reader_next rd (out : cserde_token) :
    option (cserde_status * cserde_reader C * cserde_token) :=
  match rd_state rd with
  | CSERDE_READER_DONE => Some (CSERDE_DONE, rd, out)
  | CSERDE_READER_FAILED => Some (rd_status rd, rd, out)
  | CSERDE_READER_ZERO => Some (CSERDE_INVALID_STATE, rd, out)
  | CSERDE_READER_READY =>
      '(ctx, status, token) ← rd_call_next rd;
      let rd := rd_set rd ctx (rd_state rd) (rd_status rd) in
      if negb (cserde_reader_callback_status_valid status) then
        let '(s, rd) := cserde_reader_fail rd CSERDE_CALLBACK_ERROR in Some (s, rd, out)
      else if bool_decide (status = CSERDE_OK) then
        if negb (cserde_token_valid (Some token)) then
          let '(s, rd) := cserde_reader_fail rd CSERDE_INVALID_TOKEN in Some (s, rd, out)
        else Some (CSERDE_OK, rd, token)
      else if bool_decide (status = CSERDE_DONE) then
        Some (CSERDE_DONE, rd_set rd ctx CSERDE_READER_DONE CSERDE_DONE, out)
      else let '(s, rd) := cserde_reader_fail rd status in Some (s, rd, out)
  end.

Definition cserde_reader_next (reader : option (cserde_reader C)) (out : option cserde_token) :
    option (cserde_status * option (cserde_reader C) * option cserde_token) :=
  match reader, out with
  | Some rd, Some o => '(s, rd, o) ← reader_next rd o; Some (s, Some rd, Some o)
  | _, _ => Some (CSERDE_INVALID_ARGUMENT, reader, out)
  end.

(** The token left in the caller's variable is only used after [CSERDE_OK]. *)
Definition cserde_reader_take_token rd :
    option (cserde_status * cserde_reader C * cserde_token) :=
  '(status, rd, token) ← reader_next rd cserde_token_zero;
  if negb (bool_decide (status = CSERDE_DONE)) then Some (status, rd, token) else
  let '(s, rd) := cserde_reader_fail rd CSERDE_UNEXPECTED_END in Some (s, rd, token).

(** [cserde_reader_skip_token] and its two [for (;;)] loops. [None] is
    "no result yet": out of fuel, or a NULL operation table. *)
Fixpoint cserde_reader_skip_token (fuel : nat) rd (token : cserde_token)
    (depth max_depth : Z) : option (cserde_status * cserde_reader C) :=
  match fuel with
  | O => None
  | S fuel =>
      match tok_kind token with
      | CSERDE_NULL | CSERDE_BOOL | CSERDE_SINT | CSERDE_UINT | CSERDE_FLOAT
      | CSERDE_STRING | CSERDE_BYTES => Some (CSERDE_OK, rd)
      | CSERDE_ARRAY_BEGIN =>
          if max_depth <=? depth then Some (cserde_reader_fail rd CSERDE_LIMIT_EXCEEDED)
          else skip_array_loop fuel rd depth max_depth
      | CSERDE_MAP_BEGIN =>
          if max_depth <=? depth then Some (cserde_reader_fail rd CSERDE_LIMIT_EXCEEDED)
          else skip_map_loop fuel rd depth max_depth
      | CSERDE_ARRAY_END | CSERDE_MAP_END | CSERDE_KIND_OTHER =>
          Some (cserde_reader_fail rd CSERDE_INVALID_TOKEN)
      end
  end
with skip_array_loop (fuel : nat) rd (depth max_depth : Z) :
    option (cserde_status * cserde_reader C) :=
  match fuel with
  | O => None
  | S fuel =>
      '(status, rd, child) ← cserde_reader_take_token rd;
      if negb (bool_decide (status = CSERDE_OK)) then Some (status, rd) else
      if bool_decide (tok_kind child = CSERDE_ARRAY_END) then Some (CSERDE_OK, rd) else
      if bool_decide (tok_kind child = CSERDE_MAP_END)
      then Some (cserde_reader_fail rd CSERDE_INVALID_TOKEN) else
      '(status, rd) ← cserde_reader_skip_token fuel rd child (depth + 1) max_depth;
      if negb (bool_decide (status = CSERDE_OK)) then Some (status, rd) else
      skip_array_loop fuel rd depth max_depth
  end
with skip_map_loop (fuel : nat) rd (depth max_depth : Z) :
    option (cserde_status * cserde_reader C) :=
  match fuel with
  | O => None
  | S fuel =>
      '(status, rd, child) ← cserde_reader_take_token rd;
      if negb (bool_decide (status = CSERDE_OK)) then Some (status, rd) else
      if bool_decide (tok_kind child = CSERDE_MAP_END) then Some (CSERDE_OK, rd) else
      if bool_decide (tok_kind child = CSERDE_ARRAY_END)
      then Some (cserde_reader_fail rd CSERDE_INVALID_TOKEN) else
      '(status, rd) ← cserde_reader_skip_token fuel rd child (depth + 1) max_depth;
      if negb (bool_decide (status = CSERDE_OK)) then Some (status, rd) else
      '(status, rd, child) ← cserde_reader_take_token rd;
      if negb (bool_decide (status = CSERDE_OK)) then Some (status, rd) else
      if bool_decide (tok_kind child = CSERDE_ARRAY_END) ||
         bool_decide (tok_kind child = CSERDE_MAP_END)
      then Some (cserde_reader_fail rd CSERDE_INVALID_TOKEN) else
      '(status, rd) ← cserde_reader_skip_token fuel rd child (depth + 1) max_depth;
      if negb (bool_decide (status = CSERDE_OK)) then Some (status, rd) else
      skip_map_loop fuel rd depth max_depth
  end.

Definition cserde_reader_skip_value (fuel : nat) (reader : option (cserde_reader C))
    (max_depth : Z) : option (cserde_status * option (cserde_reader C)) :=
  match reader with
  | None => Some (CSERDE_INVALID_ARGUMENT, None)
  | Some rd =>
      '(status, rd, token) ← cserde_reader_take_token rd;
      if negb (bool_decide (status = CSERDE_OK)) then Some (status, Some rd) else
      '(status, rd) ← cserde_reader_skip_token fuel rd token 0 max_depth;
      Some (status, Some rd)
  end.
End Reader.

(** ** The grammar of one value

    What a well-nested value is, independently of the code: the tokens that
    follow a first token [t] at nesting depth [d] when containers may nest
    down to [m]. *)

Definition scalar_kind (k : cserde_token_kind) : bool :=
  match k with
  | CSERDE_NULL | CSERDE_BOOL | CSERDE_SINT | CSERDE_UINT | CSERDE_FLOAT
  | CSERDE_STRING | CSERDE_BYTES => true
  | _ => false
  end.

Inductive value_rest (m : Z) : Z → cserde_token → list cserde_token → Prop :=
  | vr_scalar d t : scalar_kind (tok_kind t) = true → value_rest m d t []
  | vr_array d t body :
      tok_kind t = CSERDE_ARRAY_BEGIN → d < m → array_rest m d body → value_rest m d t body
  | vr_map d t body :
      tok_kind t = CSERDE_MAP_BEGIN → d < m → map_rest m d body → value_rest m d t body
with array_rest (m : Z) : Z → list cserde_token → Prop :=
  | ar_end d e : tok_kind e = CSERDE_ARRAY_END → array_rest m d [e]
  | ar_item d t body rest :
      value_rest m (d + 1) t body → array_rest m d rest → array_rest m d (t :: body ++ rest)
with map_rest (m : Z) : Z → list cserde_token → Prop :=
  | mr_end d e : tok_kind e = CSERDE_MAP_END → map_rest m d [e]
  | mr_pair d k kb v vb rest :
      value_rest m (d + 1) k kb → value_rest m (d + 1) v vb → map_rest m d rest →
      map_rest m d (k :: kb ++ v :: vb ++ rest).

Scheme value_rest_mut := Minimality for value_rest Sort Prop
  with array_rest_mut := Minimality for array_rest Sort Prop
  with map_rest_mut := Minimality for map_rest Sort Prop.
Combined Scheme value_mutind from value_rest_mut, array_rest_mut, map_rest_mut.

(** The complete token sequences of one value nested at most [m] deep. *)
Definition cserde_value (m : Z) (ts : list cserde_token) : Prop :=
  ∃ t body, ts = t :: body ∧ value_rest m 0 t body.

(** ** Providers

    A provider is any function from its state to its next state, a status and
    a token. It may answer for ever. *)

(** A reader that failed with status [s]. *)
Definition failed_with {C} (s : cserde_status) (rd : cserde_reader C) : Prop :=
  s ≠ CSERDE_OK ∧ rd_state rd = CSERDE_READER_FAILED ∧ rd_status rd = s.

Definition token_ok (t : cserde_token) : Prop := cserde_token_valid (Some t) = true.

Section Provider.
Context {C : Type} (ops : cserde_reader_ops C) (next : option C → option C * cserde_status * cserde_token).
Context (Hnext : rops_next ops = Some next).
Implicit Types (ctx : option C).

(** A reader of this provider that is ready. *)
Definition ready ctx : cserde_reader C := CserdeReader (Some ops) ctx CSERDE_READER_READY CSERDE_OK.

(** From [ctx] the provider gives the valid tokens [ts] and is then at
    [ctx']. *)
Inductive delivers : option C → list cserde_token → option C → Prop :=
  | delivers_nil ctx : delivers ctx [] ctx
  | delivers_cons ctx t ctx1 ts ctx2 :
      next ctx = (ctx1, CSERDE_OK, t) → token_ok t → delivers ctx1 ts ctx2 → delivers ctx (t :: ts) ctx2.

Lemma delivers_end ctx ctx' : delivers ctx [] ctx' → ctx' = ctx.
Proof using Type. by inversion 1. Qed.
Lemma delivers_app ctx ts ctx1 ts' ctx2 : delivers ctx ts ctx1 → delivers ctx1 ts' ctx2 → delivers ctx (ts ++ ts') ctx2.
Proof using Type. induction 1 as [|ctx t ctx1' ts ctx2' Hn Ht _ IH]; [done|]. intros H. econstructor; eauto. Qed.

Lemma delivers_split ctx ts ts' ctx2 : delivers ctx (ts ++ ts') ctx2 → ∃ ctx1, delivers ctx ts ctx1 ∧ delivers ctx1 ts' ctx2.
Proof using Type.
  revert ctx. induction ts as [|t ts IH]; intros ctx H; [exists ctx; by split; [constructor|]|].
  cbn in H. inversion_clear H as [|? ? ctx1 ? ? Hn Ht Hd]. destruct (IH _ Hd) as (c & ? & ?). exists c. split; [|done]. by econstructor.
Qed.

(** Taking a token: a valid one, or the reader fails. *)
Lemma take_token_ok ctx t ctx1 :
  next ctx = (ctx1, CSERDE_OK, t) → token_ok t → cserde_reader_take_token (ready ctx) = Some (CSERDE_OK, ready ctx1, t).
Proof using Hnext.
  intros Hn Hv. unfold cserde_reader_take_token, reader_next, rd_call_next. cbn. rewrite Hnext. cbn. rewrite Hn. cbn. by rewrite Hv.
Qed.

Lemma take_token_cases ctx :
  (∃ t ctx1, next ctx = (ctx1, CSERDE_OK, t) ∧ token_ok t ∧ cserde_reader_take_token (ready ctx) = Some (CSERDE_OK, ready ctx1, t)) ∨
  (∃ s rd t, cserde_reader_take_token (ready ctx) = Some (s, rd, t) ∧ failed_with s rd).
Proof using Hnext.
  destruct (next ctx) as [[ctx1 s] t] eqn:Hn. destruct (decide (s = CSERDE_OK ∧ token_ok t)) as [[-> Ht]|Hbad].
  { left. exists t, ctx1. split; [done|]. split; [done|]. by apply take_token_ok. }
  right. unfold cserde_reader_take_token, reader_next, rd_call_next. cbn. rewrite Hnext. cbn. rewrite Hn.
  destruct s; cbn; try (do 3 eexists; (split; [reflexivity|]); by split).
  destruct (cserde_token_valid (Some t)) eqn:Hv; [by exfalso; apply Hbad|]. do 3 eexists. split; [reflexivity|]. by split.
Qed.

(** ** Skipping *)

(** The result of a loop from [ctx]: tokens [P] are taken and the reader goes
    on, or it has failed; or there was no result within the fuel, which has
    taken at least [k] tokens. *)
Definition skip_post ctx (k : nat) (P : list cserde_token → Prop) (r : option (cserde_status * cserde_reader C)) : Prop :=
  (r = None ∧ ∃ ts ctx', delivers ctx ts ctx' ∧ (k <= length ts)%nat) ∨
  ∃ s rd, r = Some (s, rd) ∧
    ((s = CSERDE_OK ∧ ∃ ts ctx', delivers ctx ts ctx' ∧ rd = ready ctx' ∧ P ts) ∨ failed_with s rd).

Lemma skip_post_fail ctx k P s rd : failed_with s rd → skip_post ctx k P (Some (s, rd)).
Proof using Type. intros H. right. exists s, rd. split; [done|]. by right. Qed.
Lemma skip_post_fail' ctx k P s rd : s ≠ CSERDE_OK → skip_post ctx k P (Some (cserde_reader_fail rd s)).
Proof using Type. intros H. apply skip_post_fail. by split. Qed.
Lemma skip_post_ok ctx k (P : list cserde_token → Prop) : P [] → skip_post ctx k P (Some (CSERDE_OK, ready ctx)).
Proof using Type. intros Hp. right. do 2 eexists. split; [done|]. left. split; [done|]. exists [], ctx. split; [constructor|done]. Qed.
Lemma skip_post_none ctx P : skip_post ctx 0 P None.
Proof using Type. left. split; [done|]. exists [], ctx. split; [constructor|lia]. Qed.
Lemma skip_post_mono ctx k k' (P Q : list cserde_token → Prop) r : (k' <= k)%nat → (∀ ts, P ts → Q ts) → skip_post ctx k P r → skip_post ctx k' Q r.
Proof using Type.
  intros Hk HPQ [(-> & ts & ctx' & Hd & Hl)|(s & rd & -> & [(-> & ts & ctx' & Hd & -> & Hp)|Hf])]; [left|right|by apply skip_post_fail].
  - split; [done|]. exists ts, ctx'. split; [done|lia].
  - do 2 eexists. split; [done|]. left. split; [done|]. exists ts, ctx'. auto.
Qed.

(** What was taken comes first. *)
Lemma skip_post_after ctx ts ctx1 k P r : delivers ctx ts ctx1 → skip_post ctx1 k (λ ts', P (ts ++ ts')) r → skip_post ctx (length ts + k) P r.
Proof using Type.
  intros Hd [(-> & ts' & ctx' & Hd' & Hl)|(s & rd & -> & [(-> & ts' & ctx' & Hd' & -> & Hp)|Hf])]; [left|right|by apply skip_post_fail].
  - split; [done|]. exists (ts ++ ts'), ctx'. split; [by eapply delivers_app|]. rewrite length_app. lia.
  - do 2 eexists. split; [done|]. left. split; [done|]. exists (ts ++ ts'), ctx'. split; [by eapply delivers_app|done].
Qed.

(** Taking the next token, then going on. *)
Lemma skip_post_take ctx k P K :
  (∀ t ctx1, skip_post ctx1 (k - 1) (λ ts, P (t :: ts)) (K (ready ctx1) t)) →
  skip_post ctx k P
    ('(s, rd, t) ← cserde_reader_take_token (ready ctx);
     if negb (bool_decide (s = CSERDE_OK)) then Some (s, rd) else K rd t).
Proof using Hnext.
  intros HK. destruct (take_token_cases ctx) as [(t & ctx1 & Hn & Ht & ->)|(s & rd & t & -> & Hf)]; cbn.
  - apply (skip_post_mono _ (length [t] + (k - 1)) _ P P); [cbn; lia|done|]. apply (skip_post_after _ [t] ctx1); [|apply HK].
    econstructor; [done|done|constructor].
  - rewrite bool_decide_false by apply Hf. by apply skip_post_fail.
Qed.

(** Skipping one nested value, then going on. *)
Lemma skip_post_bind ctx k P Q r K :
  skip_post ctx k P r →
  (∀ ts ctx1, P ts → skip_post ctx1 (k - length ts) (λ ts', Q (ts ++ ts')) (K (ready ctx1))) →
  skip_post ctx k Q ('(s, rd) ← r; if negb (bool_decide (s = CSERDE_OK)) then Some (s, rd) else K rd).
Proof using Type.
  intros [(-> & ts & ctx' & Hd & Hl)|(s & rd & -> & [(-> & ts & ctx' & Hd & -> & Hp)|Hf])] HK; cbn.
  - left. split; [done|]. eauto.
  - apply (skip_post_mono _ (length ts + (k - length ts)) _ Q Q); [lia|done|]. apply (skip_post_after _ ts ctx'); [done|auto].
  - rewrite bool_decide_false by apply Hf. by apply skip_post_fail.
Qed.

(** The three mutually recursive loops. Each call takes a token at least every
    second round. *)
Lemma skip_loops_sound m fuel :
  (∀ ctx t d k, (2 * k <= fuel)%nat → skip_post ctx k (value_rest m d t) (cserde_reader_skip_token fuel (ready ctx) t d m)) ∧
  (∀ ctx d k, (2 * k <= S fuel)%nat → skip_post ctx k (array_rest m d) (skip_array_loop fuel (ready ctx) d m)) ∧
  (∀ ctx d k, (2 * k <= S fuel)%nat → skip_post ctx k (map_rest m d) (skip_map_loop fuel (ready ctx) d m)).
Proof using Hnext.
  induction fuel as [|fuel (IHv & IHa & IHm)].
  { split_and!; intros; (replace k with 0%nat by lia; apply skip_post_none). }
  split_and!.
  - intros ctx t d k Hf. cbn [cserde_reader_skip_token].
    destruct (tok_kind t) eqn:Hk; try (apply skip_post_ok, vr_scalar; by rewrite Hk); try (by apply skip_post_fail').
    + destruct (Z.leb_spec m d); [by apply skip_post_fail'|]. apply (skip_post_mono _ k k (array_rest m d)); [done|eauto using vr_array|by apply IHa].
    + destruct (Z.leb_spec m d); [by apply skip_post_fail'|]. apply (skip_post_mono _ k k (map_rest m d)); [done|eauto using vr_map|by apply IHm].
  - intros ctx d k Hf. cbn [skip_array_loop]. apply skip_post_take. intros t ctx1.
    case_bool_decide as Hend; [by apply skip_post_ok, ar_end|]. case_bool_decide; [by apply skip_post_fail'|].
    eapply skip_post_bind; [apply (IHv ctx1 t (d + 1)); lia|]. intros ts ctx2 Hts.
    apply (skip_post_mono _ (k - 1 - length ts) _ (array_rest m d)); [done|eauto using ar_item|apply IHa; lia].
  - intros ctx d k Hf. cbn [skip_map_loop]. apply skip_post_take. intros t ctx1.
    case_bool_decide as Hend; [by apply skip_post_ok, mr_end|]. case_bool_decide; [by apply skip_post_fail'|].
    eapply skip_post_bind; [apply (IHv ctx1 t (d + 1)); lia|]. intros kb ctx2 Hkb.
    apply skip_post_take. intros v ctx3. destruct (bool_decide _ || bool_decide _); [by apply skip_post_fail'|].
    eapply skip_post_bind; [apply (IHv ctx3 v (d + 1)); lia|]. intros vb ctx4 Hvb.
    apply (skip_post_mono _ (k - 1 - length kb - 1 - length vb) _ (map_rest m d)); [done|eauto using mr_pair|apply IHm; lia].
Qed.

Lemma value_rest_first m d t body :
  value_rest m d t body →
  bool_decide (tok_kind t = CSERDE_ARRAY_END) = false ∧
  bool_decide (tok_kind t = CSERDE_MAP_END) = false.
Proof using Type. by intros [? ? H|? ? ? H|? ? ? H]; destruct (tok_kind _). Qed.

(** A loop that takes [n] tokens and ends at [ctx]: without a result only if
    the fuel was too small. *)
Definition skip_done (fuel n : nat) ctx (r : option (cserde_status * cserde_reader C)) : Prop :=
  r = Some (CSERDE_OK, ready ctx) ∨ (r = None ∧ (fuel < 2 * n + 2)%nat).

Lemma skip_done_bind fuel n ctx r K fuel' n' ctx' :
  skip_done fuel n ctx r → skip_done fuel' n' ctx' (K (ready ctx)) → (fuel < 2 * n + 2 → fuel' < 2 * n' + 2)%nat →
  skip_done fuel' n' ctx' ('(s, rd) ← r; if negb (bool_decide (s = CSERDE_OK)) then Some (s, rd) else K rd).
Proof using Type. intros [->|[-> Hf]] HK Hlt; [done|]. right. split; [done|lia]. Qed.

(** Conversely the loops skip every well-nested value, whatever follows it. *)
Lemma skip_loops_complete m :
  (∀ d t body, value_rest m d t body → ∀ ctx ctx' fuel, delivers ctx body ctx' →
     skip_done fuel (length body) ctx' (cserde_reader_skip_token fuel (ready ctx) t d m)) ∧
  (∀ d body, array_rest m d body → ∀ ctx ctx' fuel, delivers ctx body ctx' →
     skip_done (S fuel) (length body) ctx' (skip_array_loop fuel (ready ctx) d m)) ∧
  (∀ d body, map_rest m d body → ∀ ctx ctx' fuel, delivers ctx body ctx' →
     skip_done (S fuel) (length body) ctx' (skip_map_loop fuel (ready ctx) d m)).
Proof using Hnext.
  apply value_mutind.
  - intros d t Hk ctx ctx' [|fuel] Hd; [right; split; [done|cbn; lia]|]. apply delivers_end in Hd as ->. left. cbn [cserde_reader_skip_token].
    by destruct (tok_kind t).
  - intros d t body Hk Hd _ IH ctx ctx' [|fuel] Hb; [right; split; [done|lia]|]. cbn [cserde_reader_skip_token].
    rewrite Hk. destruct (Z.leb_spec m d); [lia|]. by apply IH.
  - intros d t body Hk Hd _ IH ctx ctx' [|fuel] Hb; [right; split; [done|lia]|]. cbn [cserde_reader_skip_token].
    rewrite Hk. destruct (Z.leb_spec m d); [lia|]. by apply IH.
  - intros d e He ctx ctx' [|fuel] Hb; [right; split; [done|cbn; lia]|]. inversion_clear Hb as [|? ? ctx1 ? ? Hn Ht Hd]. apply delivers_end in Hd as ->.
    cbn [skip_array_loop]. rewrite (take_token_ok _ _ _ Hn Ht). cbn. rewrite He. by left.
  - intros d t body rest Hv IHv Hr IHr ctx ctx' [|fuel] Hb; [right; split; [done|cbn; lia]|]. inversion_clear Hb as [|? ? ctx1 ? ? Hn Ht Hd].
    apply delivers_split in Hd as (ctx2 & Hd1 & Hd2). cbn [skip_array_loop]. rewrite (take_token_ok _ _ _ Hn Ht). cbn [mbind option_bind].
    rewrite bool_decide_true by done. destruct (value_rest_first _ _ _ _ Hv) as [-> ->]. cbn [negb length]. rewrite length_app.
    eapply skip_done_bind; [by apply IHv| |lia]. destruct (IHr ctx2 ctx' fuel Hd2) as [->|[-> ?]]; [by left|right; split; [done|lia]].
  - intros d e He ctx ctx' [|fuel] Hb; [right; split; [done|cbn; lia]|]. inversion_clear Hb as [|? ? ctx1 ? ? Hn Ht Hd]. apply delivers_end in Hd as ->.
    cbn [skip_map_loop]. rewrite (take_token_ok _ _ _ Hn Ht). cbn. rewrite He. by left.
  - intros d k kb v vb rest Hk IHk Hv IHv Hr IHr ctx ctx' [|fuel] Hb; [right; split; [done|cbn; lia]|]. inversion_clear Hb as [|? ? ctx1 ? ? Hn Ht Hd].
    apply delivers_split in Hd as (ctx2 & Hd1 & Hd2). inversion_clear Hd2 as [|? ? ctx3 ? ? Hn2 Ht2 Hd3]. apply delivers_split in Hd3 as (ctx4 & Hd3 & Hd4).
    cbn [skip_map_loop]. rewrite (take_token_ok _ _ _ Hn Ht). cbn [mbind option_bind]. rewrite bool_decide_true by done.
    destruct (value_rest_first _ _ _ _ Hk) as [-> ->]. cbn [negb length]. rewrite length_app. cbn [length]. rewrite length_app.
    eapply (skip_done_bind _ _ _ _ _ _ _ _ (IHk ctx1 ctx2 fuel Hd1)); [|lia].
    rewrite (take_token_ok _ _ _ Hn2 Ht2). cbn [mbind option_bind]. rewrite bool_decide_true by done. destruct (value_rest_first _ _ _ _ Hv) as [-> ->]. cbn [negb orb].
    eapply skip_done_bind; [by apply IHv| |lia]. destruct (IHr ctx4 ctx' fuel Hd4) as [->|[-> ?]]; [by left|right; split; [done|lia]].
Qed.

(** The outcomes of skipping a value with a reader that is ready: *)
Record skips (m : Z) ctx : Prop := {
  (* a well-nested value is skipped, whatever comes after it *)
  sk_value ts ctx' fuel : delivers ctx ts ctx' → cserde_value m ts → (2 * length ts <= fuel)%nat →
    cserde_reader_skip_value fuel (Some (ready ctx)) m = Some (CSERDE_OK, Some (ready ctx'));
  (* an answer is right: a value was taken, or there is none and the reader failed *)
  sk_answer fuel s rd : cserde_reader_skip_value fuel (Some (ready ctx)) m = Some (s, rd) →
    (s = CSERDE_OK ∧ ∃ ts ctx', delivers ctx ts ctx' ∧ cserde_value m ts ∧ rd = Some (ready ctx')) ∨
    ((∃ rd', rd = Some rd' ∧ failed_with s rd') ∧ ∀ ts ctx', delivers ctx ts ctx' → ¬ cserde_value m ts);
  (* there is an answer, unless the provider goes on giving tokens *)
  sk_ends fuel n : (2 * n <= fuel)%nat → (∀ ts ctx', delivers ctx ts ctx' → (length ts <= n)%nat) →
    is_Some (cserde_reader_skip_value fuel (Some (ready ctx)) m)
}.

Lemma skip_value_ready m ctx : skips m ctx.
Proof using Hnext.
  assert (∀ ts ctx' fuel, delivers ctx ts ctx' → cserde_value m ts →
    cserde_reader_skip_value fuel (Some (ready ctx)) m = Some (CSERDE_OK, Some (ready ctx')) ∨
    cserde_reader_skip_value fuel (Some (ready ctx)) m = None ∧ (fuel < 2 * length ts)%nat) as Hval.
  { intros ts ctx' fuel Hd (t & body & -> & Hv). inversion_clear Hd as [|? ? ctx1 ? ? Hn Ht Hd']. unfold cserde_reader_skip_value.
    rewrite (take_token_ok _ _ _ Hn Ht). cbn. destruct (proj1 (skip_loops_complete m) _ _ _ Hv ctx1 ctx' fuel Hd') as [->|[-> ?]]; [by left|right; split; [done|lia]]. }
  split.
  - intros ts ctx' fuel Hd Hv Hf. destruct (Hval ts ctx' fuel Hd Hv) as [|[_ ?]]; [done|lia].
  - intros fuel s rd Hr. assert (∀ ts ctx', delivers ctx ts ctx' → cserde_value m ts → s = CSERDE_OK) as Hok.
    { intros ts ctx' Hd Hv. destruct (Hval ts ctx' fuel Hd Hv) as [E|[E _]]; rewrite E in Hr; by simplify_eq. }
    unfold cserde_reader_skip_value in Hr. destruct (take_token_cases ctx) as [(t & ctx1 & Hn & Ht & E)|(s' & rd' & t & E & Hf)]; rewrite E in Hr; cbn in Hr.
    + destruct (proj1 (skip_loops_sound m fuel) ctx1 t 0 0%nat ltac:(lia)) as [(En & _)|(s' & rd' & Es & Hp)]; [by rewrite En in Hr|]. rewrite Es in Hr. cbn in Hr. injection Hr as <- <-.
      destruct Hp as [(-> & ts & ctx' & Hd & -> & Hv)|Hf]; [left|right; split; [by eauto|]].
      * split; [done|]. exists (t :: ts), ctx'. split; [by econstructor|]. split; [by exists t, ts|done].
      * intros ts ctx' Hd Hv. destruct Hf as [Hf _]. by apply Hf, (Hok ts ctx').
    + rewrite bool_decide_false in Hr by apply Hf. cbn in Hr. injection Hr as <- <-. right. split; [by eauto|]. intros ts ctx' Hd Hv. destruct Hf as [Hf _]. by apply Hf, (Hok ts ctx').
  - intros fuel n Hf Hn. unfold cserde_reader_skip_value. destruct (take_token_cases ctx) as [(t & ctx1 & En & Ht & ->)|(s' & rd' & t & -> & Hx)]; cbn.
    + destruct (proj1 (skip_loops_sound m fuel) ctx1 t 0 n Hf) as [(_ & ts & ctx' & Hd & Hl)|(s' & rd' & -> & _)]; [|by eexists].
      assert (delivers ctx (t :: ts) ctx') as Hd' by (by econstructor). apply Hn in Hd'. cbn in Hd'. lia.
    + rewrite bool_decide_false by apply Hx. by eexists.
Qed.
End Provider.

(** C33. [cserde_reader_skip_value] decides the value grammar for every
    provider. With a ready reader it skips each well-nested value at most
    [max_depth] deep and exactly its tokens, whatever the provider answers
    afterwards; when it answers anything else, the reader has failed with the
    status that is returned and the provider's tokens start with no such value.
    It returns for every provider that stops giving valid tokens, after
    at most two rounds for each; with a provider that goes on for ever inside
    of a container it does not return. A reader that is done fails with
    [UNEXPECTED_END], one that has failed repeats its status, and one that was
    not initialised reports [INVALID_STATE] and stays as it is. *)
Theorem cserde_reader_skip_value_exact {C} (ops : cserde_reader_ops C) next m :
  rops_next ops = Some next →
  (∀ ctx, skips ops next m ctx) ∧
  ∀ (rd : cserde_reader C) fuel, match rd_state rd with
    | CSERDE_READER_READY => True
    | CSERDE_READER_ZERO => cserde_reader_skip_value fuel (Some rd) m = Some (CSERDE_INVALID_STATE, Some rd)
    | CSERDE_READER_DONE => ∃ rd', cserde_reader_skip_value fuel (Some rd) m = Some (CSERDE_UNEXPECTED_END, Some rd') ∧
        failed_with CSERDE_UNEXPECTED_END rd' ∧ rd_ops rd' = rd_ops rd ∧ rd_context rd' = rd_context rd
    | CSERDE_READER_FAILED => rd_status rd ≠ CSERDE_OK → rd_status rd ≠ CSERDE_DONE →
        cserde_reader_skip_value fuel (Some rd) m = Some (rd_status rd, Some rd)
    end.
Proof.
  intros Hnext. split; [intros ctx; by apply skip_value_ready|]. intros rd fuel. unfold cserde_reader_skip_value, cserde_reader_take_token, reader_next.
  destruct (rd_state rd) eqn:Hst; cbn; try done.
  - eexists. split; [done|]. done.
  - intros H1 H2. rewrite !bool_decide_false by done. cbn. by rewrite bool_decide_false.
Qed.

(** ** Two providers *)

Definition event : Type := cserde_status * cserde_token.
Definition ok_event (t : cserde_token) : event := (CSERDE_OK, t).

(** One that replays a list of answers and then reports [CSERDE_DONE], *)
Definition list_next (ctx : option (list event)) :
    option (list event) * cserde_status * cserde_token :=
  match ctx with
  | Some ((s, t) :: es) => (Some es, s, t)
  | _ => (ctx, CSERDE_DONE, cserde_token_zero)
  end.
Definition list_ops : cserde_reader_ops (list event) := CserdeReaderOps 24 1 (Some list_next).

Definition tok (k : cserde_token_kind) : cserde_token :=
  CserdeToken k false 0 0 0 (CserdeSlice None 0 CSERDE_VIEW_TRANSIENT).

(** and one that opens an array, fills it with [null] for ever and never
    closes it. *)
Definition endless_next (ctx : option bool) : option bool * cserde_status * cserde_token :=
  (Some true, CSERDE_OK, tok match ctx with Some true => CSERDE_NULL | _ => CSERDE_ARRAY_BEGIN end).
Definition endless_ops : cserde_reader_ops bool := CserdeReaderOps 24 1 (Some endless_next).

(** With the second one there is never an answer. *)
Example endless_never_returns fuel : cserde_reader_skip_value fuel (Some (ready endless_ops (Some false))) 5 = None.
Proof.
  assert (∀ fuel, skip_array_loop fuel (ready endless_ops (Some true)) 0 5 = None) as Hloop.
  { clear fuel. induction fuel as [|fuel IH]; [done|]. cbn [skip_array_loop].
    rewrite (take_token_ok endless_ops endless_next eq_refl (Some true) (tok CSERDE_NULL) (Some true)) by done. cbn. destruct fuel; [done|]. cbn [cserde_reader_skip_token]. exact IH. }
  unfold cserde_reader_skip_value. rewrite (take_token_ok endless_ops endless_next eq_refl (Some false) (tok CSERDE_ARRAY_BEGIN) (Some true)) by done.
  cbn [mbind option_bind]. destruct fuel as [|fuel]; [done|]. cbn [cserde_reader_skip_token]. cbn. by rewrite Hloop.
Qed.

Lemma cserde_reader_skip_value_exact_witness :
  let ts := map tok [CSERDE_MAP_BEGIN; CSERDE_STRING; CSERDE_ARRAY_BEGIN; CSERDE_ARRAY_END; CSERDE_MAP_END] in
  let rest := [ok_event (tok CSERDE_NULL)] in
  cserde_reader_skip_value 10 (Some (ready list_ops (Some (map ok_event ts ++ rest)))) 2 = Some (CSERDE_OK, Some (ready list_ops (Some rest))).
Proof.
  intros ts rest. destruct (cserde_reader_skip_value_exact list_ops list_next 2 eq_refl) as [Hs _].
  apply (sk_value _ _ _ _ (Hs (Some (map ok_event ts ++ rest))) ts (Some rest) 10); [| |by vm_compute; lia].
  - subst ts. repeat (econstructor; [reflexivity|reflexivity|]). constructor.
  - subst ts. do 2 eexists. split; [reflexivity|]. apply vr_map; [reflexivity|lia|].
    apply (mr_pair 2 0 (tok CSERDE_STRING) [] (tok CSERDE_ARRAY_BEGIN) [tok CSERDE_ARRAY_END] [tok CSERDE_MAP_END]).
    + by constructor.
    + apply vr_array; [reflexivity|lia|]. by constructor.
    + by constructor.
Defined.

(** ** Reader lifecycle *)

(** What the caller sees once the provider's answer is not a valid token. *)
Definition terminal_status (e : event) : cserde_status :=
  let '(s, _) := e in
  match s with
  | CSERDE_OK => CSERDE_INVALID_TOKEN
  | _ => if cserde_reader_callback_status_valid s then s else CSERDE_CALLBACK_ERROR
  end.

Definition good_event (e : event) : bool :=
  bool_decide (e.1 = CSERDE_OK) && cserde_token_valid (Some e.2).

(** [n] calls of [cserde_reader_next] with the same output variable. *)
Fixpoint reader_pull {C} (n : nat) (rd : cserde_reader C) (out : cserde_token) :
    option (list (cserde_status * cserde_token) * cserde_reader C) :=
  match n with
  | O => Some ([], rd)
  | S n =>
      '(s, rd, out) ← reader_next rd out;
      '(l, rd) ← reader_pull n rd out;
      Some ((s, out) :: l, rd)
  end.

(** A reader in a terminal state with status [s]. *)
Definition terminal {C} (s : cserde_status) (rd : cserde_reader C) : Prop :=
  (rd_state rd = CSERDE_READER_FAILED ∧ rd_status rd = s) ∨
  (rd_state rd = CSERDE_READER_DONE ∧ s = CSERDE_DONE).

Section Stream.
Context {C : Type} (ops : cserde_reader_ops C) (next : option C → option C * cserde_status * cserde_token).
Context (Hnext : rops_next ops = Some next).

Lemma reader_next_token ctx t ctx1 out :
  next ctx = (ctx1, CSERDE_OK, t) → token_ok t → reader_next (ready ops ctx) out = Some (CSERDE_OK, ready ops ctx1, t).
Proof using Hnext. intros Hn Hv. unfold reader_next, rd_call_next. cbn. rewrite Hnext. cbn. rewrite Hn. cbn. by rewrite Hv. Qed.

Lemma reader_next_terminal_event ctx ctx1 e out :
  next ctx = (ctx1, e.1, e.2) → good_event e = false →
  ∃ rd, reader_next (ready ops ctx) out = Some (terminal_status e, rd, out) ∧
    terminal (terminal_status e) rd ∧ rd_context rd = ctx1.
Proof using Hnext.
  destruct e as [s t]. unfold good_event, reader_next, rd_call_next. cbn. rewrite Hnext. cbn. intros -> Hg.
  destruct s; simpl in *; rewrite ?Hg; simpl; (eexists; split; [reflexivity|]);
    by (split; [|done]); ((by left) || (by right)).
Qed.

Lemma reader_pull_terminal n (rd : cserde_reader C) s out :
  terminal s rd → reader_pull n rd out = Some (replicate n (s, out), rd).
Proof using Type.
  intros Ht. induction n as [|n IH]; [done|]. simpl.
  unfold reader_next. destruct Ht as [[-> ->]|[-> ->]]; simpl; by rewrite IH.
Qed.

(** What a client of a reader sees over any number of calls: every valid
    token of the provider in order, then, from the first answer that is not
    one, the same terminal status on every further call, the output variable
    untouched and the provider never called again. *)
Theorem cserde_reader_stream ctx ts ctx1 e ctx2 n out :
  delivers next ctx ts ctx1 → next ctx1 = (ctx2, e.1, e.2) → good_event e = false → (0 < n)%nat →
  ∃ rd, reader_pull (length ts + n) (ready ops ctx) out
      = Some (map ok_event ts ++ replicate n (terminal_status e, default out (last ts)), rd) ∧
    terminal (terminal_status e) rd ∧ rd_context rd = ctx2.
Proof using Hnext.
  intros Hd He Hg Hn. revert out. induction Hd as [ctx|ctx t ctx' ts ctx3 Ht Hv Hd IH]; intros out.
  - destruct n as [|n]; [lia|]. simpl.
    destruct (reader_next_terminal_event ctx ctx2 e out He Hg) as (rd & -> & Hrd & Hctx). simpl.
    rewrite (reader_pull_terminal _ _ _ _ Hrd). simpl. eauto.
  - simpl. rewrite (reader_next_token _ _ _ _ Ht Hv). simpl.
    destruct (IH He t) as (rd & -> & Hrd). simpl. exists rd. split; [|done].
    rewrite last_cons. by destruct (last ts).
Qed.
End Stream.

Lemma cserde_reader_stream_witness :
  ∃ rd, reader_pull 4 (ready list_ops (Some (map ok_event [tok CSERDE_NULL; tok CSERDE_BOOL] ++
          [(CSERDE_INVALID_STATE, cserde_token_zero); ok_event (tok CSERDE_NULL)]))) cserde_token_zero
      = Some (map ok_event [tok CSERDE_NULL; tok CSERDE_BOOL] ++
          replicate 2 (CSERDE_CALLBACK_ERROR, tok CSERDE_BOOL), rd) ∧
    terminal CSERDE_CALLBACK_ERROR rd ∧ rd_context rd = Some [ok_event (tok CSERDE_NULL)].
Proof.
  apply (cserde_reader_stream list_ops list_next eq_refl _ [tok CSERDE_NULL; tok CSERDE_BOOL]
    (Some [(CSERDE_INVALID_STATE, cserde_token_zero); ok_event (tok CSERDE_NULL)])
    (CSERDE_INVALID_STATE, cserde_token_zero) _ 2 cserde_token_zero).
  - repeat (econstructor; [reflexivity|reflexivity|]). constructor.
  - reflexivity.
  - reflexivity.
  - lia.
Defined.

(** ** Writer *)

Definition CSERDE_WRITER_OPS_ABI_VERSION : Z := 1.

Inductive cserde_writer_state :=
  | CSERDE_WRITER_ZERO
  | CSERDE_WRITER_READY
  | CSERDE_WRITER_FINISHED
  | CSERDE_WRITER_FAILED.

#[export] Instance cserde_writer_state_eq_dec : EqDecision cserde_writer_state.
Proof. solve_decision. Defined.

Record cserde_writer_ops (C : Type) := CserdeWriterOps {
  wops_struct_size : Z;
  wops_abi_version : Z;
  wops_write : option (option C → cserde_token → option C * cserde_status);
  wops_finish : option (option C → option C * cserde_status)
}.
Arguments CserdeWriterOps {C}.
Arguments wops_struct_size {C}.
Arguments wops_abi_version {C}.
Arguments wops_write {C}.
Arguments wops_finish {C}.

Record cserde_writer (C : Type) := CserdeWriter {
  wr_ops : option (cserde_writer_ops C);
  wr_context : option C;
  wr_state : cserde_writer_state;
  wr_status : cserde_status
}.
Arguments CserdeWriter {C}.
Arguments wr_ops {C}.
Arguments wr_context {C}.
Arguments wr_state {C}.
Arguments wr_status {C}.

Section Writer.
Context {C : Type}.
Implicit Types (wr : cserde_writer C).

(** [CSERDE_FIELD_END(cserde_writer_ops, finish)] on a 64-bit target. *)
Definition cserde_writer_ops_end : Z := 32.

Definition cserde_writer_ops_valid (ops : option (cserde_writer_ops C)) : bool :=
  match ops with
  | None => false
  | Some ops =>
      (cserde_writer_ops_end <=? wops_struct_size ops) &&
      (wops_abi_version ops =? CSERDE_WRITER_OPS_ABI_VERSION) &&
      match wops_write ops with Some _ => true | None => false end &&
      match wops_finish ops with Some _ => true | None => false end
  end.

Definition cserde_writer_callback_status_valid (status : cserde_status) : bool :=
  match status with
  | CSERDE_OK | CSERDE_LIMIT_EXCEEDED | CSERDE_UNSUPPORTED | CSERDE_SINK_ERROR => true
  | _ => false
  end.

Definition wr_set wr (ctx : option C) (st : cserde_writer_state) (status : cserde_status) :=
  CserdeWriter (wr_ops wr) ctx st status.

Definition cserde_writer_fail wr (status : cserde_status) : cserde_status * cserde_writer C :=
  (status, wr_set wr (wr_context wr) CSERDE_WRITER_FAILED status).

Definition cserde_writer_init (writer : option (cserde_writer C))
    (ops : option (cserde_writer_ops C)) (context : option C) :
    cserde_status * option (cserde_writer C) :=
  match writer, ops with
  | Some wr, Some _ =>
      if match wr_ops wr with Some _ => true | None => false end ||
         match wr_context wr with Some _ => true | None => false end ||
         negb (bool_decide (wr_state wr = CSERDE_WRITER_ZERO)) ||
         negb (bool_decide (wr_status wr = CSERDE_OK))
      then (CSERDE_INVALID_STATE, writer) else
      if negb (cserde_writer_ops_valid ops) then (CSERDE_INVALID_ARGUMENT, writer) else
      (CSERDE_OK, Some (CserdeWriter ops context CSERDE_WRITER_READY CSERDE_OK))
  | _, _ => (CSERDE_INVALID_ARGUMENT, writer)
  end.

(** [cserde_writer_write] on non-NULL arguments; [None] when the operation
    table or its entry is [NULL]. *)
Definition writer_write wr (token : cserde_token) : option (cserde_status * cserde_writer C) :=
  match wr_state wr with
  | CSERDE_WRITER_FAILED => Some (wr_status wr, wr)
  | CSERDE_WRITER_ZERO | CSERDE_WRITER_FINISHED => Some (CSERDE_INVALID_STATE, wr)
  | CSERDE_WRITER_READY =>
      if negb (cserde_token_valid (Some token)) then Some (CSERDE_INVALID_TOKEN, wr) else
      ops ← wr_ops wr; write ← wops_write ops;
      let '(ctx, status) := write (wr_context wr) token in
      let wr := wr_set wr ctx (wr_state wr) (wr_status wr) in
      if negb (cserde_writer_callback_status_valid status)
      then Some (cserde_writer_fail wr CSERDE_CALLBACK_ERROR) else
      if bool_decide (status = CSERDE_OK) then Some (CSERDE_OK, wr) else
      Some (cserde_writer_fail wr status)
  end.

Definition cserde_writer_write (writer : option (cserde_writer C)) (token : option cserde_token) :
    option (cserde_status * option (cserde_writer C)) :=
  match writer, token with
  | Some wr, Some t => '(s, wr) ← writer_write wr t; Some (s, Some wr)
  | _, _ => Some (CSERDE_INVALID_ARGUMENT, writer)
  end.

Definition writer_finish wr : option (cserde_status * cserde_writer C) :=
  match wr_state wr with
  | CSERDE_WRITER_FAILED => Some (wr_status wr, wr)
  | CSERDE_WRITER_ZERO | CSERDE_WRITER_FINISHED => Some (CSERDE_INVALID_STATE, wr)
  | CSERDE_WRITER_READY =>
      ops ← wr_ops wr; finish ← wops_finish ops;
      let '(ctx, status) := finish (wr_context wr) in
      let wr := wr_set wr ctx (wr_state wr) (wr_status wr) in
      if negb (cserde_writer_callback_status_valid status)
      then Some (cserde_writer_fail wr CSERDE_CALLBACK_ERROR) else
      if negb (bool_decide (status = CSERDE_OK)) then Some (cserde_writer_fail wr status) else
      Some (CSERDE_OK, wr_set wr ctx CSERDE_WRITER_FINISHED CSERDE_OK)
  end.

Definition cserde_writer_finish (writer : option (cserde_writer C)) :
    option (cserde_status * option (cserde_writer C)) :=
  match writer with
  | None => Some (CSERDE_INVALID_ARGUMENT, None)
  | Some wr => '(s, wr) ← writer_finish wr; Some (s, Some wr)
  end.
End Writer.

(** ** A recording sink

    The sink keeps every call it receives and answers from a script (then
    [CSERDE_OK]): any behaviour of a sink over finitely many calls. *)

Inductive wr_request := WrWrite (t : cserde_token) | WrFinish.

Definition sink : Type := list wr_request * list cserde_status.

Definition sink_call (r : wr_request) (ctx : option sink) : option sink * cserde_status :=
  match ctx with
  | None => (None, CSERDE_OK)
  | Some (log, []) => (Some (log ++ [r], []), CSERDE_OK)
  | Some (log, s :: script) => (Some (log ++ [r], script), s)
  end.

Definition sink_ops : cserde_writer_ops sink :=
  CserdeWriterOps 32 1 (Some (λ ctx t, sink_call (WrWrite t) ctx)) (Some (sink_call WrFinish)).

Definition wr_serve (wr : cserde_writer sink) (r : wr_request) :
    option (cserde_status * cserde_writer sink) :=
  match r with WrWrite t => writer_write wr t | WrFinish => writer_finish wr end.

Fixpoint wr_run (wr : cserde_writer sink) (rs : list wr_request) :
    option (list cserde_status * cserde_writer sink) :=
  match rs with
  | [] => Some ([], wr)
  | r :: rs =>
      '(s, wr) ← wr_serve wr r;
      '(l, wr) ← wr_run wr rs;
      Some (s :: l, wr)
  end.

Definition writing (log : list wr_request) (script : list cserde_status) : cserde_writer sink :=
  CserdeWriter (Some sink_ops) (Some (log, script)) CSERDE_WRITER_READY CSERDE_OK.

Definition sink_log (wr : cserde_writer sink) : list wr_request :=
  match wr_context wr with Some (log, _) => log | None => [] end.

(** The requests that were answered [CSERDE_OK]. *)
Definition accepted (rs : list wr_request) (l : list cserde_status) : list wr_request :=
  (filter (λ p, p.2 = CSERDE_OK) (zip rs l)).*1.
#[global] Arguments accepted : simpl never.

(** How a writing session that started with the sink's record [log] ends,
    [acc] being the requests answered [CSERDE_OK]. *)
Definition writer_outcome (log acc : list wr_request) (wr : cserde_writer sink) : Prop :=
  match wr_state wr with
  | CSERDE_WRITER_READY => sink_log wr = log ++ acc ∧ WrFinish ∉ acc
  | CSERDE_WRITER_FINISHED =>
      sink_log wr = log ++ acc ∧ ∃ ws, acc = ws ++ [WrFinish] ∧ WrFinish ∉ ws
  | CSERDE_WRITER_FAILED =>
      wr_status wr ≠ CSERDE_OK ∧ WrFinish ∉ acc ∧ ∃ r, sink_log wr = log ++ acc ++ [r]
  | CSERDE_WRITER_ZERO => False
  end.

Definition request_ok (r : wr_request) : Prop :=
  match r with WrWrite t => token_ok t | WrFinish => True end.

(** The answer of every call once the writer is [FINISHED] or [FAILED]. *)
Definition wr_terminal (s : cserde_status) (wr : cserde_writer sink) : Prop :=
  s ≠ CSERDE_OK ∧
  ((wr_state wr = CSERDE_WRITER_FAILED ∧ wr_status wr = s) ∨
   (wr_state wr = CSERDE_WRITER_FINISHED ∧ s = CSERDE_INVALID_STATE)).

Lemma wr_run_terminal s wr rs :
  wr_terminal s wr → wr_run wr rs = Some (replicate (length rs) s, wr).
Proof.
  intros [Hs Ht]. induction rs as [|r rs IH]; [done|]. simpl.
  unfold wr_serve, writer_write, writer_finish.
  destruct Ht as [[-> ->]|[-> ->]]; destruct r; simpl; by rewrite IH.
Qed.

Lemma accepted_cons r rs s l :
  accepted (r :: rs) (s :: l) =
    (if bool_decide (s = CSERDE_OK) then [r] else []) ++ accepted rs l.
Proof. unfold accepted. simpl. rewrite filter_cons. simpl. by repeat case_decide. Qed.

Lemma accepted_refused rs s : s ≠ CSERDE_OK → accepted rs (replicate (length rs) s) = [].
Proof.
  intros Hs. induction rs as [|r rs IH]; [done|]. simpl.
  by rewrite accepted_cons, bool_decide_false, IH.
Qed.

(** One request on a [READY] writer: a token that is not valid is refused and
    changes nothing; otherwise the sink is called once. *)
Lemma wr_serve_ready log script r :
  (∃ t, r = WrWrite t ∧ ¬ token_ok t ∧
     wr_serve (writing log script) r = Some (CSERDE_INVALID_TOKEN, writing log script)) ∨
  (request_ok r ∧ ∃ t, r = WrWrite t ∧
     wr_serve (writing log script) r = Some (CSERDE_OK, writing (log ++ [r]) (tail script))) ∨
  (∃ wr, r = WrFinish ∧ wr_serve (writing log script) r = Some (CSERDE_OK, wr) ∧
     wr_terminal CSERDE_INVALID_STATE wr ∧ wr_state wr = CSERDE_WRITER_FINISHED ∧
     sink_log wr = log ++ [r]) ∨
  (∃ s wr, request_ok r ∧ wr_serve (writing log script) r = Some (s, wr) ∧
     wr_terminal s wr ∧ wr_state wr = CSERDE_WRITER_FAILED ∧ sink_log wr = log ++ [r]).
Proof.
  destruct r as [t|]; simpl.
  - unfold writer_write, token_ok. simpl.
    destruct (cserde_token_valid (Some t)) eqn:Hv; simpl; [right|left; exists t; by rewrite Hv].
    destruct script as [|[] script]; simpl;
      try (left; split; [done|]; by eauto); right; right; eexists _, _;
      (split_and!; [done|reflexivity|split; [done|by left]|done..]).
  - right. right. unfold writer_finish. simpl.
    destruct script as [|[] script]; simpl;
      try (left; eexists; split_and!; [done|reflexivity|split; [done|by right]|done..]);
      right; eexists _, _; (split_and!; [done|reflexivity|split; [done|by left]|done..]).
Qed.

(** The writer's contract over any sequence of requests and any behaviour
    of the sink: every call returns; the sink has received exactly the
    requests answered [CSERDE_OK], in order, plus the one whose failure made
    the writer [FAILED]; it never sees an invalid token; an accepted finish is
    the last thing it sees. *)
Theorem cserde_writer_contract log script rs :
  ∃ l wr, wr_run (writing log script) rs = Some (l, wr) ∧ length l = length rs ∧
    writer_outcome log (accepted rs l) wr ∧
    ∃ new, sink_log wr = log ++ new ∧ Forall request_ok new.
Proof.
  revert log script. induction rs as [|r rs IH]; intros log script.
  { exists [], (writing log script). split_and!; [done..| |].
    - split; [|set_solver]. by rewrite app_nil_r.
    - exists []. by rewrite app_nil_r. }
  cbn [wr_run].
  destruct (wr_serve_ready log script r) as
    [(t & -> & Ht & ->)|[(Hok & t & -> & ->)|[(wr & -> & -> & Ht & Hst & Hlog)
    |(s & wr & Hok & -> & Ht & Hst & Hlog)]]]; cbn.
  - destruct (IH log script) as (l & wr & -> & Hl & Hout). cbn.
    eexists _, _. split; [done|]. rewrite accepted_cons. simpl. by rewrite Hl.
  - destruct (IH (log ++ [WrWrite t]) (tail script)) as (l & wr & -> & Hl & Hout & new & Hnew & Hv).
    cbn. eexists _, _. split; [done|]. rewrite accepted_cons. simpl. rewrite Hl. split; [done|].
    split; [|exists (WrWrite t :: new); rewrite Hnew, <-app_assoc; by rewrite Forall_cons].
    unfold writer_outcome in *. destruct (wr_state wr); [done| | |].
    + destruct Hout as [-> Hf]. rewrite <-app_assoc. split; [done|set_solver].
    + destruct Hout as [-> (ws & -> & Hf)]. rewrite <-app_assoc. split; [done|].
      exists (WrWrite t :: ws). split; [done|set_solver].
    + destruct Hout as (Hs & Hf & r & ->). split_and!; [done|set_solver|].
      exists r. by rewrite <-app_assoc.
  - rewrite (wr_run_terminal _ _ _ Ht). cbn. eexists _, _. split; [done|].
    rewrite accepted_cons, accepted_refused by apply Ht. simpl. rewrite length_replicate.
    unfold writer_outcome. rewrite Hst, Hlog. split_and!; [done..| |].
    + exists []. split; [done|set_solver].
    + exists [WrFinish]. by rewrite Forall_singleton.
  - rewrite (wr_run_terminal _ _ _ Ht). cbn. eexists _, _. split; [done|].
    rewrite accepted_cons, bool_decide_false, accepted_refused by apply Ht.
    simpl. rewrite length_replicate.
    unfold writer_outcome. rewrite Hst, Hlog. split_and!; [done| |set_solver|by eauto|].
    + destruct Ht as [Hs [[_ ->]|[He _]]]; congruence.
    + exists [r]. by rewrite Forall_singleton.
Qed.
