(* ===== verification/Crc.v ===== *)
(** * Crc: reflected cyclic redundancy checks

    The bit-serial step that [modbus_rtu_crc16] runs and that
    [crc32_generate_table] tabulates, for any width [w >= 8] and any reflected
    polynomial with its top bit set. The step is linear and injective; from
    this follow the correctness of the table-driven loop and the detection of
    every single-byte corruption. *)

From S2P Require Import Prelude.
Local Open Scope Z_scope.

(** One bit: [crc = crc & 1 ? (crc >> 1) ^ poly : crc >> 1]. *)
Definition crc_bit (poly c : Z) : Z :=
  if negb (Z.land c 1 =? 0) then Z.lxor (Z.shiftr c 1) poly else Z.shiftr c 1.

(** One input byte: eight bits. *)
Definition crc_bits8 (poly c : Z) : Z := Nat.iter 8 (crc_bit poly) c.
Definition crc_byte (poly c b : Z) : Z := crc_bits8 poly (Z.lxor c b).

Lemma land_1_testbit c : negb (Z.land c 1 =? 0) = Z.testbit c 0.
Proof.
  rewrite Z.bit0_odd, Z.land_ones with (n := 1) by lia.
  change (2 ^ 1) with 2. rewrite Zmod_odd. by destruct (Z.odd c).
Qed.

Lemma crc_bit_alt poly c :
  crc_bit poly c = Z.lxor (Z.shiftr c 1) (if Z.testbit c 0 then poly else 0).
Proof.
  unfold crc_bit. rewrite land_1_testbit. destruct (Z.testbit c 0); [done|].
  by rewrite Z.lxor_0_r.
Qed.

(** Linearity over exclusive or. *)
Lemma crc_bit_lxor poly a b :
  crc_bit poly (Z.lxor a b) = Z.lxor (crc_bit poly a) (crc_bit poly b).
Proof.
  rewrite !crc_bit_alt, Z.shiftr_lxor, Z.lxor_spec.
  apply Z.bits_inj'. intros i Hi.
  destruct (Z.testbit a 0), (Z.testbit b 0); cbn [xorb];
    rewrite !Z.lxor_spec, ?Z.bits_0;
    repeat match goal with |- context [Z.testbit ?x i] => destruct (Z.testbit x i) end; done.
Qed.

Lemma crc_iter_lxor poly n a b :
  Nat.iter n (crc_bit poly) (Z.lxor a b) =
    Z.lxor (Nat.iter n (crc_bit poly) a) (Nat.iter n (crc_bit poly) b).
Proof. induction n as [|n IH]; [done|]. simpl. by rewrite IH, crc_bit_lxor. Qed.

Lemma crc_iter_shift poly n y : Nat.iter n (crc_bit poly) (y * 2 ^ Z.of_nat n) = y.
Proof.
  revert y. induction n as [|n IH]; intros y; [simpl; lia|].
  rewrite Nat.iter_succ_r. rewrite crc_bit_alt.
  replace (y * 2 ^ Z.of_nat (S n)) with (2 * (y * 2 ^ Z.of_nat n)).
  - rewrite Z.testbit_even_0, Z.lxor_0_r, Z.shiftr_div_pow2 by lia.
    change (2 ^ 1) with 2. rewrite Z.mul_comm, Z.div_mul by lia. apply IH.
  - rewrite Nat2Z.inj_succ, Z.pow_succ_r by lia. ring.
Qed.

(** The table-driven update: the low byte selects a table entry, the rest is
    shifted down. *)
Lemma crc_bits8_table poly x :
  0 <= x →
  crc_bits8 poly x = Z.lxor (crc_bits8 poly (Z.land x 255)) (Z.shiftr x 8).
Proof.
  intros Hx. unfold crc_bits8.
  rewrite <-(crc_iter_shift poly 8 (Z.shiftr x 8)) at 1.
  rewrite <-crc_iter_lxor. f_equal. change (2 ^ Z.of_nat 8) with (2 ^ 8).
  rewrite Z.lxor_comm.
  assert (Hlo : 0 <= Z.land x 255 < 2 ^ 8).
  { change 255 with (Z.ones 8). rewrite Z.land_ones by lia. apply Z.mod_pos_bound. lia. }
  rewrite Z.lxor_lor by (apply land_fields_0; lia).
  rewrite <-Z.shiftl_mul_pow2, lor_shiftl_add by lia.
  change 255 with (Z.ones 8). rewrite Z.shiftr_div_pow2, Z.land_ones by lia.
  rewrite Z.mul_comm. apply Z.div_mod. lia.
Qed.

Section width.
Context (w poly : Z).
Hypothesis Hw : 8 <= w.
Hypothesis Hpoly : 0 <= poly < 2 ^ w.
Hypothesis Htop : Z.testbit poly (w - 1) = true.

Lemma lxor_range a b : 0 <= a < 2 ^ w → 0 <= b < 2 ^ w → 0 <= Z.lxor a b < 2 ^ w.
Proof using Hw.
  intros Ha Hb. split; [by apply Z.lxor_nonneg; lia|].
  destruct (decide (Z.lxor a b = 0)) as [->|Hn]; [apply Z.pow_pos_nonneg; lia|].
  apply Z.log2_lt_pow2; [pose proof (proj2 (Z.lxor_nonneg a b)); lia|].
  eapply Z.le_lt_trans; [apply Z.log2_lxor; lia|].
  apply Z.max_lub_lt; (destruct (decide (a = 0)), (decide (b = 0)));
    subst; simpl; try lia; apply Z.log2_lt_pow2; lia.
Qed.

Lemma shiftr1_range c : 0 <= c < 2 ^ w → 0 <= Z.shiftr c 1 < 2 ^ (w - 1).
Proof using Hw.
  intros Hc. rewrite Z.shiftr_div_pow2 by lia. change (2 ^ 1) with 2.
  replace w with (Z.succ (w - 1)) in Hc by lia. rewrite Z.pow_succ_r in Hc by lia.
  split; [apply Z.div_pos; lia|apply Z.div_lt_upper_bound; lia].
Qed.

Lemma crc_bit_range c : 0 <= c < 2 ^ w → 0 <= crc_bit poly c < 2 ^ w.
Proof using Hw Hpoly.
  intros Hc. rewrite crc_bit_alt. apply lxor_range.
  - pose proof (shiftr1_range c Hc).
    assert (2 ^ (w - 1) <= 2 ^ w) by (apply Z.pow_le_mono_r; lia). lia.
  - destruct (Z.testbit c 0); [done|]. split; [done|]. apply Z.pow_pos_nonneg; lia.
Qed.

(** The top bit of the result tells which branch was taken. *)
Lemma crc_bit_top c :
  0 <= c < 2 ^ w → Z.testbit (crc_bit poly c) (w - 1) = Z.testbit c 0.
Proof using Hw Htop.
  intros Hc. rewrite crc_bit_alt, Z.lxor_spec.
  rewrite (testbit_small (Z.shiftr c 1) (w - 1)); [|by apply shiftr1_range|lia].
  destruct (Z.testbit c 0); [done|]. by rewrite Z.bits_0.
Qed.

Lemma crc_bit_inj a b :
  0 <= a < 2 ^ w → 0 <= b < 2 ^ w → crc_bit poly a = crc_bit poly b → a = b.
Proof using Hw Htop.
  intros Ha Hb Heq.
  assert (H0 : Z.testbit a 0 = Z.testbit b 0)
    by (rewrite <-(crc_bit_top a), <-(crc_bit_top b) by done; by rewrite Heq).
  rewrite !crc_bit_alt, H0 in Heq.
  assert (Hs : Z.shiftr a 1 = Z.shiftr b 1).
  { apply (f_equal (λ z, Z.lxor z (if Z.testbit b 0 then poly else 0))) in Heq.
    by rewrite !Z.lxor_assoc, !Z.lxor_nilpotent, !Z.lxor_0_r in Heq. }
  apply Z.bits_inj'. intros i Hi. destruct (decide (i = 0)) as [->|]; [done|].
  apply (f_equal (λ z, Z.testbit z (i - 1))) in Hs.
  rewrite !Z.shiftr_spec in Hs by lia. by replace (i - 1 + 1) with i in Hs by lia.
Qed.

Lemma crc_bits8_range c : 0 <= c < 2 ^ w → 0 <= crc_bits8 poly c < 2 ^ w.
Proof using Hw Hpoly. intros Hc. unfold crc_bits8. do 8 apply crc_bit_range. done. Qed.

Lemma crc_bits8_inj a b :
  0 <= a < 2 ^ w → 0 <= b < 2 ^ w → crc_bits8 poly a = crc_bits8 poly b → a = b.
Proof using Hw Hpoly Htop.
  intros Ha Hb. unfold crc_bits8. generalize 8%nat. intros n.
  induction n as [|n IH]; [done|]. simpl. intros H. apply IH, crc_bit_inj; [..|done].
  - clear IH H. induction n; simpl; [done|by apply crc_bit_range].
  - clear IH H. induction n; simpl; [done|by apply crc_bit_range].
Qed.

Lemma byte_range b : is_u8 b → 0 <= b < 2 ^ w.
Proof using Hw.
  clear Hpoly. intros Hb.
  assert (2 ^ 8 <= 2 ^ w) by (apply Z.pow_le_mono_r; lia). word_lia.
Qed.

Lemma crc_byte_range c b : 0 <= c < 2 ^ w → is_u8 b → 0 <= crc_byte poly c b < 2 ^ w.
Proof using Hw Hpoly.
  intros. apply crc_bits8_range, lxor_range; [done|by apply byte_range].
Qed.

Lemma crc_fold_range l c :
  0 <= c < 2 ^ w → bytes_ok l → 0 <= fold_left (crc_byte poly) l c < 2 ^ w.
Proof using Hw Hpoly.
  intros Hc Hl. revert c Hc. induction Hl as [|b l Hb _ IH]; intros c Hc; [done|].
  simpl. apply IH. by apply crc_byte_range.
Qed.

(** Different registers stay different over the same input. *)
Lemma crc_fold_inj l a b :
  0 <= a < 2 ^ w → 0 <= b < 2 ^ w → bytes_ok l →
  fold_left (crc_byte poly) l a = fold_left (crc_byte poly) l b → a = b.
Proof using Hw Hpoly Htop.
  intros Ha Hb Hl. revert a b Ha Hb. induction Hl as [|x l Hx _ IH]; intros a b Ha Hb; [done|].
  simpl. intros H. apply IH in H; [|by apply crc_byte_range..].
  apply crc_bits8_inj in H; [|apply lxor_range; [done|by apply byte_range]..].
  apply (f_equal (λ z, Z.lxor z x)) in H.
  by rewrite !Z.lxor_assoc, !Z.lxor_nilpotent, !Z.lxor_0_r in H.
Qed.

(** Two inputs that differ in one byte have different checksums. *)
Lemma crc_single_byte l1 x y l2 c :
  0 <= c < 2 ^ w → bytes_ok l1 → bytes_ok l2 → is_u8 x → is_u8 y →
  fold_left (crc_byte poly) (l1 ++ x :: l2) c = fold_left (crc_byte poly) (l1 ++ y :: l2) c →
  x = y.
Proof using Hw Hpoly Htop.
  intros Hc H1 H2 Hx Hy. rewrite !fold_left_app. simpl.
  set (d := fold_left _ l1 c). assert (Hd : 0 <= d < 2 ^ w) by by apply crc_fold_range.
  intros H. apply crc_fold_inj in H; [|by apply crc_byte_range..|done].
  apply crc_bits8_inj in H; [|apply lxor_range; [done|by apply byte_range]..].
  apply (f_equal (Z.lxor d)) in H.
  by rewrite <-!Z.lxor_assoc, !Z.lxor_nilpotent, !Z.lxor_0_l in H.
Qed.
End width.
