(* ===== verification/BinHeap.v ===== *)
(** * Binary heaps over an abstract store

    The sifting loops of [concurrency/src/deadline_queue.c] and
    [cstl/src/heap.c] are the same algorithm over different stores: one swaps
    slot numbers and keeps back pointers, the other moves whole elements. This
    file states what the algorithm needs of a store ([HeapStore]) and proves
    it once: from an array that is a heap except at one position, sifting
    gives a heap with the same contents, in bounds and within the given
    number of steps. *)

From S2P Require Import Prelude.
Local Open Scope Z_scope.

(** The comparison a heap is ordered by: the strict part of a total preorder. *)
Class HeapOrder {A : Type} (lt : A → A → bool) : Prop := {
  lt_asym a b : lt a b = true → lt b a = false;
  lt_negtrans a b c : lt b a = false → lt c b = false → lt c a = false
}.

(** What the loops call. [None] is an access outside the store. *)
Class HeapOps (S : Type) := {
  hless : S → Z → Z → option bool;
  hswap : S → Z → Z → option S
}.

(** Position [k] seen through an exchange of [i] and [j]. *)
Definition transp (i j k : Z) : Z := if k =? i then j else if k =? j then i else k.

(** A store whose positions [0 .. n-1] behave as an array of keys under
    comparison and exchange; [inv] is whatever else the store maintains. *)
Class HeapStore {S A : Type} `{!HeapOps S} (lt : A → A → bool) (inv : S → Prop)
    (n : Z) (get : S → Z → A) : Prop := {
  hless_ok s i j : inv s → 0 <= i < n → 0 <= j < n →
    hless s i j = Some (lt (get s i) (get s j));
  hswap_ok s i j : inv s → 0 <= i < n → 0 <= j < n → i ≠ j →
    ∃ s', hswap s i j = Some s' ∧ inv s' ∧
      ∀ k, 0 <= k < n → get s' k = get s (transp i j k)
}.

Definition parent (i : Z) : Z := (i - 1) / 2.

Section Loops.
Context {S : Type} `{!HeapOps S}.

Fixpoint sift_up (fuel : nat) (s : S) (index : Z) : option S :=
  match fuel with
  | O => None
  | Datatypes.S fuel =>
      if index =? 0 then Some s else
      b ← hless s index (parent index);
      if negb b then Some s else
      s ← hswap s index (parent index);
      sift_up fuel s (parent index)
  end.

(** The smallest of a position and its children below [n]. *)
Definition earliest_child (s : S) (n index : Z) : option Z :=
  let left := index * 2 + 1 in
  let right := left + 1 in
  e ← (if left <? n then b ← hless s left index; Some (if b : bool then left else index)
       else Some index);
  if right <? n then b ← hless s right e; Some (if b : bool then right else e) else Some e.

Fixpoint sift_down (fuel : nat) (s : S) (n index : Z) : option S :=
  match fuel with
  | O => None
  | Datatypes.S fuel =>
      e ← earliest_child s n index;
      if e =? index then Some s else
      s ← hswap s index e;
      sift_down fuel s n e
  end.
End Loops.

(** ** Heap shape of an array of keys *)

Section Shape.
Context {A : Type} (lt : A → A → bool) (n : Z) (g : Z → A).

Definition hle (a b : A) : Prop := lt b a = false.

(** The keys in array order. *)
Definition content : list A := map g (seqZ 0 n).

Definition heap_ok : Prop := ∀ j, 0 < j < n → hle (g (parent j)) (g j).

(** A heap but for the edges at [i]; what is above [i] still bounds what is below. *)
Definition hole_ok (i : Z) : Prop :=
  (∀ j, 0 < j < n → j ≠ i → parent j ≠ i → hle (g (parent j)) (g j)) ∧
  (∀ j, 0 < j < n → parent j = i → 0 < i → hle (g (parent i)) (g j)).

Definition up_ok (i : Z) : Prop :=
  hole_ok i ∧ ∀ j, 0 < j < n → parent j = i → hle (g i) (g j).

Definition down_ok (i : Z) : Prop :=
  hole_ok i ∧ (0 < i → hle (g (parent i)) (g i)).
End Shape.

Section Order.
Context {A : Type} {lt : A → A → bool} `{!HeapOrder lt}.

Lemma hle_trans a b c : hle lt a b → hle lt b c → hle lt a c.
Proof. apply lt_negtrans. Qed.
Lemma lt_hle a b : lt a b = true → hle lt a b.
Proof. apply lt_asym. Qed.
Lemma hle_refl a : hle lt a a.
Proof. unfold hle. destruct (lt a a) eqn:E; [|done]. by rewrite (lt_asym _ _ E) in E. Qed.
End Order.

Section Sift.
Context {S A : Type} `{!HeapOps S} {lt : A → A → bool} `{!HeapOrder lt}.
Context {inv : S → Prop} {n : Z} {get : S → Z → A} `{!HeapStore lt inv n get}.
Implicit Types (s : S).

Lemma transp_perm i j : 0 <= i < n → 0 <= j < n → map (transp i j) (seqZ 0 n) ≡ₚ seqZ 0 n.
Proof.
  intros Hi Hj. apply NoDup_Permutation.
  - apply NoDup_fmap_2_strong; [|apply NoDup_seqZ].
    intros x y _ _. unfold transp. repeat case Z.eqb_spec; lia.
  - apply NoDup_seqZ.
  - intros x. rewrite elem_of_seqZ, list_elem_of_fmap. split.
    + intros (y & -> & Hy%elem_of_seqZ). unfold transp. repeat case Z.eqb_spec; lia.
    + intros Hx. exists (transp i j x). rewrite elem_of_seqZ. unfold transp.
      repeat case Z.eqb_spec; lia.
Qed.

Lemma swap_content s s' i j :
  0 <= i < n → 0 <= j < n →
  (∀ k, 0 <= k < n → get s' k = get s (transp i j k)) → content n (get s') ≡ₚ content n (get s).
Proof.
  intros Hi Hj Hg. unfold content. rewrite <-(transp_perm i j) at 2 by done.
  rewrite map_map. apply reflexive_eq, map_ext_in. intros k Hk.
  apply Hg. apply list_elem_of_In, elem_of_seqZ in Hk. lia.
Qed.

Lemma up_step s s' i :
  up_ok lt n (get s) i → 0 < i < n → lt (get s i) (get s (parent i)) = true →
  (∀ k, 0 <= k < n → get s' k = get s (transp i (parent i) k)) → up_ok lt n (get s') (parent i).
Proof.
  intros [[H1 H2] H3] Hi Hlt Hg. pose proof (lt_hle _ _ Hlt) as Hle.
  assert (0 <= parent i < i) as Hp by (unfold parent; word_lia).
  split; [split|].
  - intros j Hj Hjp Hpj. rewrite !Hg by (unfold parent in *; word_lia).
    assert (j ≠ i) by congruence. unfold transp.
    rewrite (proj2 (Z.eqb_neq j i)), (proj2 (Z.eqb_neq j (parent i))),
      (proj2 (Z.eqb_neq (parent j) (parent i))) by done.
    case Z.eqb_spec; intros He; [|by apply H1].
    apply (H2 j); [done|done|lia].
  - intros j Hj Hjp Hpp.
    assert (0 <= parent (parent i) < parent i) as Hq by (unfold parent in *; word_lia).
    assert (parent i < j) by (unfold parent in *; word_lia).
    rewrite !Hg by lia. unfold transp.
    rewrite (proj2 (Z.eqb_neq (parent (parent i)) i)),
      (proj2 (Z.eqb_neq (parent (parent i)) (parent i))), (proj2 (Z.eqb_neq j (parent i))) by lia.
    case Z.eqb_spec; intros He; [apply H1; lia|].
    apply hle_trans with (get s (parent i)); [apply H1; lia|].
    rewrite <-Hjp. apply H1; lia.
  - intros j Hj Hjp.
    assert (parent i < j) by (unfold parent in *; word_lia).
    rewrite !Hg by lia. unfold transp.
    rewrite (proj2 (Z.eqb_neq (parent i) i)), Z.eqb_refl, (proj2 (Z.eqb_neq j (parent i))) by lia.
    case Z.eqb_spec; intros He; [done|].
    apply hle_trans with (get s (parent i)); [done|]. rewrite <-Hjp. apply H1; lia.
Qed.

Lemma up_done s i :
  up_ok lt n (get s) i → 0 <= i < n →
  (0 < i → hle lt (get s (parent i)) (get s i)) → heap_ok lt n (get s).
Proof.
  intros [[H1 H2] H3] Hi Hle j Hj.
  destruct (decide (j = i)) as [->|]; [apply Hle; lia|].
  destruct (decide (parent j = i)) as [<-|]; [by apply H3|by apply H1].
Qed.

Lemma sift_up_ok fuel s i :
  inv s → up_ok lt n (get s) i → 0 <= i < n → (Z.to_nat i < fuel)%nat →
  ∃ s', sift_up fuel s i = Some s' ∧ inv s' ∧ heap_ok lt n (get s') ∧ content n (get s') ≡ₚ content n (get s).
Proof.
  revert s i. induction fuel as [|fuel IH]; intros s i Hinv Hup Hi Hf; [lia|]. simpl.
  destruct (Z.eqb_spec i 0) as [->|Hi0].
  { exists s. split_and!; [done..| |done]. apply (up_done s 0); [done|lia|lia]. }
  assert (0 <= parent i < i) as Hp by (unfold parent; word_lia).
  rewrite hless_ok by (done || lia). simpl.
  destruct (lt (get s i) (get s (parent i))) eqn:Hlt; simpl.
  - destruct (hswap_ok s i (parent i)) as (s1 & -> & Hinv1 & Hg); [done|lia..|]. simpl.
    destruct (IH s1 (parent i)) as (s2 & -> & ? & ? & Hc); [done| |lia..|].
    { apply (up_step s); [done|lia|done..]. }
    exists s2. split_and!; [done..|]. rewrite Hc. apply (swap_content _ _ i (parent i)); [lia..|done].
  - exists s. split_and!; [done..| |done]. by apply (up_done s i).
Qed.

Lemma earliest_child_ok s i :
  inv s → 0 <= i < n →
  ∃ e, earliest_child s n i = Some e ∧ 0 <= e < n ∧ (e = i ∨ parent e = i ∧ i < e) ∧
    (e ≠ i → lt (get s e) (get s i) = true) ∧
    (∀ j, 0 < j < n → parent j = i → hle lt (get s e) (get s j)).
Proof.
  intros Hinv Hi. unfold earliest_child.
  assert (∀ j, 0 < j < n → parent j = i → j = i * 2 + 1 ∨ j = i * 2 + 1 + 1) as Hch
    by (unfold parent; intros; word_lia).
  assert (parent (i * 2 + 1) = i ∧ parent (i * 2 + 1 + 1) = i) as [Hpl Hpr]
    by (unfold parent; word_lia).
  destruct (Z.ltb_spec (i * 2 + 1) n); simpl.
  2:{ destruct (Z.ltb_spec (i * 2 + 1 + 1) n); [lia|]. exists i.
      split_and!; [done|lia..|by left|done|]. intros j Hj Hp. destruct (Hch j Hj Hp); lia. }
  rewrite hless_ok by (done || lia). simpl.
  destruct (lt (get s (i * 2 + 1)) (get s i)) eqn:Hl;
    (destruct (Z.ltb_spec (i * 2 + 1 + 1) n); [rewrite hless_ok by (done || lia); simpl|]).
  - destruct (lt (get s (i * 2 + 1 + 1)) (get s (i * 2 + 1))) eqn:Hr; eexists;
      (split_and!; [done|lia..|right; split; [done|lia]| |]).
    + intros _. destruct (lt (get s (i * 2 + 1 + 1)) (get s i)) eqn:E; [done|].
      by rewrite (lt_negtrans _ _ _ (lt_asym _ _ Hl) E) in Hr.
    + intros j Hj Hp. destruct (Hch j Hj Hp) as [->| ->]; [by apply lt_hle|apply hle_refl].
    + done.
    + intros j Hj Hp. destruct (Hch j Hj Hp) as [->| ->]; [apply hle_refl|done].
  - eexists. split_and!; [done|lia..|right; split; [done|lia]|done|].
    intros j Hj Hp. destruct (Hch j Hj Hp) as [->| ->]; [apply hle_refl|lia].
  - destruct (lt (get s (i * 2 + 1 + 1)) (get s i)) eqn:Hr; eexists.
    + split_and!; [done|lia..|right; split; [done|lia]|done|].
      intros j Hj Hp. destruct (Hch j Hj Hp) as [->| ->]; [|apply hle_refl].
      by apply hle_trans with (get s i); [apply lt_hle|].
    + split_and!; [done|lia..|by left|done|].
      intros j Hj Hp. by destruct (Hch j Hj Hp) as [->| ->].
  - eexists. split_and!; [done|lia..|by left|done|].
    intros j Hj Hp. destruct (Hch j Hj Hp) as [->| ->]; [done|lia].
Qed.

Lemma down_step s s' i e :
  down_ok lt n (get s) i → 0 <= i < n → 0 <= e < n → parent e = i → i < e →
  lt (get s e) (get s i) = true →
  (∀ j, 0 < j < n → parent j = i → hle lt (get s e) (get s j)) →
  (∀ k, 0 <= k < n → get s' k = get s (transp i e k)) → down_ok lt n (get s') e.
Proof.
  intros [[H1 H2] H3] Hi He Hpe Hie Hlt Hmin Hg.
  assert (transp i e i = e ∧ transp i e e = i ∧
          ∀ k, k ≠ i → k ≠ e → transp i e k = k) as (Hti & Hte & Htk).
  { unfold transp. split_and!; intros; repeat case Z.eqb_spec; lia. }
  assert (∀ j, 0 < j → 0 <= parent j < j) as Hpar by (unfold parent; intros; word_lia).
  split; [split|].
  - intros j Hj Hje Hpj. pose proof (Hpar j).
    rewrite !Hg by lia. destruct (decide (j = i)) as [->|].
    + rewrite Hti, Htk by lia. apply H2; lia.
    + rewrite (Htk j) by done. destruct (decide (parent j = i)) as [Hpi|].
      * rewrite Hpi, Hti. by apply Hmin.
      * rewrite Htk by done. by apply H1.
  - intros j Hj Hpj Hpos. pose proof (Hpar j). rewrite Hpe, !Hg, Hti, (Htk j) by lia.
    rewrite <-Hpj. apply H1; lia.
  - intros _. rewrite Hpe, !Hg, Hti, Hte by lia. by apply lt_hle.
Qed.

Lemma down_done s i :
  down_ok lt n (get s) i → (∀ j, 0 < j < n → parent j = i → hle lt (get s i) (get s j)) → heap_ok lt n (get s).
Proof.
  intros [[H1 H2] H3] Hmin j Hj.
  destruct (decide (j = i)) as [->|]; [apply H3; lia|].
  destruct (decide (parent j = i)) as [<-|]; [by apply Hmin|by apply H1].
Qed.

Lemma sift_down_ok fuel s i :
  inv s → down_ok lt n (get s) i → 0 <= i < n → (Z.to_nat (n - i) <= fuel)%nat →
  ∃ s', sift_down fuel s n i = Some s' ∧ inv s' ∧ heap_ok lt n (get s') ∧ content n (get s') ≡ₚ content n (get s).
Proof.
  revert s i. induction fuel as [|fuel IH]; intros s i Hinv Hd Hi Hf; [lia|]. simpl.
  destruct (earliest_child_ok s i) as (e & -> & He & Hpe & Hlt & Hmin); [done..|]. simpl.
  destruct (Z.eqb_spec e i) as [->|Hne].
  - exists s. split_and!; [done..| |done]. by apply (down_done s i).
  - destruct Hpe as [?|[Hpe Hie]]; [done|].
    destruct (hswap_ok s i e) as (s1 & -> & Hinv1 & Hg); [done..|lia|]. simpl.
    destruct (IH s1 e) as (s2 & -> & ? & ? & Hc); [done| |lia..|].
    { apply (down_step s s1 i e); auto. }
    exists s2. split_and!; [done..|]. rewrite Hc. by apply (swap_content _ _ i e).
Qed.

(** A key that replaced another one inside a heap goes up when it is smaller
    than its parent and down otherwise. *)
Lemma hole_up_or_down s i :
  hole_ok lt n (get s) i → 0 <= i < n →
  if bool_decide (i ≠ 0) && lt (get s i) (get s (parent i)) then up_ok lt n (get s) i else down_ok lt n (get s) i.
Proof.
  intros Hh Hi. case_bool_decide as H0; simpl; [|split; [done|lia]].
  destruct (lt (get s i) (get s (parent i))) eqn:Hlt; [|by split].
  split; [done|]. intros j Hj Hp. apply hle_trans with (get s (parent i)); [by apply lt_hle|].
  apply Hh; [done|done|lia].
Qed.

(** The root of a heap bounds every key. *)
Lemma heap_root s j : heap_ok lt n (get s) → 0 <= j < n → hle lt (get s 0) (get s j).
Proof.
  intros Hh Hj. assert (0 <= j) as H0 by lia. revert Hj. revert j H0.
  refine (Z_lt_induction _ _). intros j IH Hj.
  destruct (decide (j = 0)) as [->|]; [apply hle_refl|].
  assert (0 <= parent j < j) as Hp by (unfold parent; word_lia).
  apply hle_trans with (get s (parent j)); [apply IH; lia|apply Hh; lia].
Qed.
End Sift.

(** ** Changing one position *)

Section Replace.
Context {A : Type} {lt : A → A → bool} `{!HeapOrder lt}.

(** The last key replaces the one at [i] and the array shrinks. *)
Lemma replace_perm (g g' : Z → A) i n :
  0 <= i <= n → (∀ k, 0 <= k < n → g' k = if k =? i then g n else g k) →
  g i :: content n g' ≡ₚ content (n + 1) g.
Proof.
  intros Hi Hg. unfold content. rewrite <-(transp_perm (n := n + 1) i n) by lia.
  rewrite (seqZ_app 0 n 1), !map_app, map_map by lia. simpl.
  replace (transp i n (Z.of_nat 0 + (0 + n))) with i by (unfold transp; repeat case Z.eqb_spec; lia).
  rewrite Permutation_cons_append. apply reflexive_eq, (f_equal (.++ [g i])), map_ext_in. intros k Hk%list_elem_of_In%elem_of_seqZ. rewrite Hg by lia.
  unfold transp. repeat case Z.eqb_spec; intros; f_equal; lia.
Qed.

Lemma replace_hole (g g' : Z → A) i n :
  heap_ok lt (n + 1) g → 0 <= i <= n →
  (∀ k, 0 <= k < n → g' k = if k =? i then g n else g k) → hole_ok lt n g' i.
Proof.
  intros Hh Hi Hg.
  assert (∀ j, 0 < j → 0 <= parent j < j) as Hpar by (unfold parent; intros; word_lia).
  split.
  - intros j Hj Hji Hpi. pose proof (Hpar j).
    rewrite !Hg, (proj2 (Z.eqb_neq j i)), (proj2 (Z.eqb_neq (parent j) i)) by lia.
    apply Hh. lia.
  - intros j Hj Hpi Hpos. pose proof (Hpar j). pose proof (Hpar i).
    rewrite !Hg, (proj2 (Z.eqb_neq j i)), (proj2 (Z.eqb_neq (parent i) i)) by lia.
    apply hle_trans with (g i); [apply Hh; lia|]. rewrite <-Hpi. apply Hh. lia.
Qed.

Lemma heap_ok_ext (g g' : Z → A) n :
  (∀ k, 0 <= k < n → g' k = g k) → heap_ok lt n g → heap_ok lt n g'.
Proof.
  intros Hg Hh j Hj. assert (0 <= parent j < j) by (unfold parent; word_lia).
  rewrite !Hg by lia. by apply Hh.
Qed.

Lemma heap_ok_shrink (g : Z → A) n m : m <= n → heap_ok lt n g → heap_ok lt m g.
Proof. intros Hm Hh j Hj. apply Hh. lia. Qed.

(** A new key at the end of a heap only has to go up. *)
Lemma append_up (g g' : Z → A) n :
  0 <= n → heap_ok lt n g → (∀ k, 0 <= k < n → g' k = g k) → up_ok lt (n + 1) g' n.
Proof.
  intros Hn Hh Hg.
  assert (∀ j, 0 < j → 0 <= parent j < j) as Hpar by (unfold parent; intros; word_lia).
  split; [split|]; intros j Hj; pose proof (Hpar j); [|lia..].
  intros Hjn _. rewrite !Hg by lia. apply Hh. lia.
Qed.

Lemma content_ext (g g' : Z → A) n :
  (∀ k, 0 <= k < n → g' k = g k) → content n g' = content n g.
Proof.
  intros Hg. apply map_ext_in. intros k Hk%list_elem_of_In%elem_of_seqZ. apply Hg. lia.
Qed.

Lemma content_snoc (g : Z → A) n : 0 <= n → content (n + 1) g = content n g ++ [g n].
Proof.
  intros Hn. unfold content. rewrite (seqZ_app 0 n 1), map_app by lia. simpl.
  by replace (Z.of_nat 0 + (0 + n)) with n by lia.
Qed.
End Replace.
