(* ===== verification/EarliestQueue.v ===== *)
(** * Queues of deadlines: the interface

    [concurrency/src/deadline_queue.c] (a heap) and [cflow/src/timer_queue.c]
    (an array scanned for its minimum) promise their clients the same thing.
    [EarliestQueue] states it; a client that takes ready entries until none is
    left is proved against the interface only. *)

From S2P Require Import Prelude.
Local Open Scope Z_scope.

(** [Q] queues, [I] their entries, [O] what a client is handed. *)
Class EarliestOps (Q I O : Type) := {
  eq_take : Q → Z → option (option O * Q);
  eq_pending : Q → list I;
  eq_inv : Q → Prop;
  eq_deadline : I → Z;
  eq_order : I → Z;
  eq_out : I → O
}.

Section Key.
Context {Q I O : Type} `{!EarliestOps Q I O}.

(** Earlier deadline, or same deadline and scheduled no later. *)
Definition before_eq (x y : I) : Prop :=
  eq_deadline x < eq_deadline y ∨ (eq_deadline x = eq_deadline y ∧ eq_order x <= eq_order y).

Definition due (now : Z) (x : I) : Prop := eq_deadline x <= now.

#[global] Instance due_dec now x : Decision (due now x).
Proof. unfold due. apply _. Defined.

Lemma before_eq_trans x y z : before_eq x y → before_eq y z → before_eq x z.
Proof. unfold before_eq. lia. Qed.
End Key.

(** One call hands out the earliest entry when it is due and nothing
    otherwise, and never fails. *)
Class EarliestQueue (Q I O : Type) `{!EarliestOps Q I O} : Prop := {
  eq_take_ok q now : eq_inv q →
    ∃ r q', eq_take q now = Some (r, q') ∧ eq_inv q' ∧
      match r with
      | None => q' = q ∧ ∀ x, x ∈ eq_pending q → now < eq_deadline x
      | Some o => ∃ x, o = eq_out x ∧ x :: eq_pending q' ≡ₚ eq_pending q ∧
          due now x ∧ ∀ y, y ∈ eq_pending q → before_eq x y
      end
}.

(** The client: take until nothing is due. *)
Fixpoint drain {Q I O} `{!EarliestOps Q I O} (fuel : nat) (q : Q) (now : Z) :
    option (list O * Q) :=
  match fuel with
  | O => None
  | S fuel =>
      '(r, q) ← eq_take q now;
      match r with
      | None => Some ([], q)
      | Some o => '(l, q) ← drain fuel q now; Some (o :: l, q)
      end
  end.

Section Drain.
Context {Q I O : Type} `{EarliestQueue Q I O}.
Implicit Types (q : Q).

(** The due entries come out sorted by deadline, in schedule order among
    equal deadlines, each once; the others stay. *)
Definition drained (now : Z) q (l : list O) q' : Prop :=
  eq_inv q' ∧ ∃ xs : list I, l = map eq_out xs ∧ StronglySorted before_eq xs ∧
    xs ≡ₚ filter (due now) (eq_pending q) ∧
    eq_pending q' ≡ₚ filter (λ x, ¬ due now x) (eq_pending q).

Lemma drain_ok fuel q now :
  eq_inv q → (length (eq_pending q) < fuel)%nat →
  ∃ l q', drain fuel q now = Some (l, q') ∧ drained now q l q'.
Proof.
  revert q. induction fuel as [|fuel IH]; intros q Hinv Hf; [lia|]. simpl.
  destruct (eq_take_ok q now Hinv) as (r & q1 & -> & Hinv1 & Hr). simpl.
  destruct r as [o|].
  - destruct Hr as (x & -> & Hp & Hdue & Hmin).
    destruct (IH q1) as (l & q2 & -> & Hinv2 & xs & -> & Hsort & Hxs & Hrest); [done| |].
    { rewrite <-Hp in Hf. simpl in Hf. lia. }
    simpl. eexists _, _. split; [done|]. split; [done|]. exists (x :: xs). split_and!; [done|..].
    + constructor; [done|]. apply Forall_forall. intros y Hy. apply Hmin. rewrite <-Hp.
      rewrite Hxs in Hy. apply list_elem_of_filter in Hy as [_ Hy]. set_solver.
    + rewrite <-Hp, filter_cons, decide_True by done. by rewrite Hxs.
    + by rewrite <-Hp, filter_cons, decide_False by tauto.
  - destruct Hr as [-> Hnone]. eexists _, _. split; [done|]. split; [done|]. exists [].
    assert (∀ x, x ∈ eq_pending q → ¬ due now x) as Hnd.
    { intros x Hx. specialize (Hnone x Hx). unfold due. lia. }
    split_and!; [done|constructor|by rewrite filter_none|by rewrite filter_all].
Qed.
End Drain.
