(* ===== verification/DeadlineQueue.v ===== *)
(** * The deadline queue ([concurrency/src/deadline_queue.c])

    A fixed-capacity binary heap of slots with generation-checked ids. *)

From S2P Require Import Prelude BinHeap EarliestQueue.
Local Open Scope Z_scope.

(** The statuses of [platform/include/salts/error_codes.h] this module returns. *)
Inductive salts_code :=
  | SALTS_OK
  | SALTS_EALREADY
  | SALTS_EINVAL
  | SALTS_ENOBUFS
  | SALTS_ENOENT
  | SALTS_ENOMEM
  | SALTS_EPROTO
  | SALTS_ERANGE
  | SALTS_ETIMEDOUT.

#[export] Instance salts_code_eq_dec : EqDecision salts_code.
Proof. solve_decision. Defined.

Record salts_deadline_event := SaltsDeadlineEvent {
  ev_id : Z;
  ev_deadline_ms : Z;
  ev_token : Z
}.

#[export] Instance salts_deadline_event_eq_dec : EqDecision salts_deadline_event.
Proof. solve_decision. Defined.

(** An event cleared by [memset]. *)
Definition event_zero : salts_deadline_event := SaltsDeadlineEvent 0 0 0.

Definition SALTS_DEADLINE_INDEX_NONE : Z := UINT32_MAX.

Record salts_deadline_entry := SaltsDeadlineEntry {
  de_event : salts_deadline_event;
  de_order : Z;
  de_heap_index : Z;
  de_generation : Z;
  de_active : bool
}.

Record salts_deadline_queue_impl := SaltsDeadlineQueueImpl {
  dq_entries : list salts_deadline_entry;
  dq_heap : list Z;
  dq_free_slots : list Z;
  dq_size : Z;
  dq_free_count : Z;
  dq_capacity : Z;
  dq_next_order : Z
}.

(** The [impl] pointer of a queue, [None] when it is [NULL]. *)
Definition salts_deadline_queue : Type := option salts_deadline_queue_impl.

(** [queue] itself may be [NULL]. *)
Definition salts_deadline_get (queue : option salts_deadline_queue) :
    option salts_deadline_queue_impl :=
  match queue with Some (Some impl) => Some impl | _ => None end.

(** Field updates. *)
Definition with_heap s h :=
  SaltsDeadlineQueueImpl (dq_entries s) h (dq_free_slots s) (dq_size s) (dq_free_count s)
    (dq_capacity s) (dq_next_order s).
Definition with_entries s es :=
  SaltsDeadlineQueueImpl es (dq_heap s) (dq_free_slots s) (dq_size s) (dq_free_count s)
    (dq_capacity s) (dq_next_order s).
Definition with_size s n :=
  SaltsDeadlineQueueImpl (dq_entries s) (dq_heap s) (dq_free_slots s) n (dq_free_count s)
    (dq_capacity s) (dq_next_order s).
Definition with_free s fs n :=
  SaltsDeadlineQueueImpl (dq_entries s) (dq_heap s) fs (dq_size s) n (dq_capacity s)
    (dq_next_order s).
Definition with_order s o :=
  SaltsDeadlineQueueImpl (dq_entries s) (dq_heap s) (dq_free_slots s) (dq_size s)
    (dq_free_count s) (dq_capacity s) o.

Definition de_set_index (i : Z) (e : salts_deadline_entry) : salts_deadline_entry :=
  SaltsDeadlineEntry (de_event e) (de_order e) i (de_generation e) (de_active e).

(** [impl->entries[slot].heap_index = i]. *)
Definition set_heap_index (s : salts_deadline_queue_impl) (slot i : Z) :
    option salts_deadline_queue_impl :=
  e ← aget (dq_entries s) slot;
  es ← aset (dq_entries s) slot (de_set_index i e);
  Some (with_entries s es).

Definition salts_deadline_make_id (slot generation : Z) : Z :=
  Z.lor (u64 (Z.shiftl generation 32)) (u64 (slot + 1)).

(** [Some (slot, generation)] when the function returns true. *)
Definition salts_deadline_decode_id (id : Z) : option (Z * Z) :=
  let encoded_slot := u32 id in
  let generation := u32 (Z.shiftr id 32) in
  if (encoded_slot =? 0) || (generation =? 0) then None
  else Some (encoded_slot - 1, generation).

Definition salts_deadline_before (s : salts_deadline_queue_impl) (left_slot right_slot : Z) :
    option bool :=
  left ← aget (dq_entries s) left_slot;
  right ← aget (dq_entries s) right_slot;
  Some ((ev_deadline_ms (de_event left) <? ev_deadline_ms (de_event right)) ||
        ((ev_deadline_ms (de_event left) =? ev_deadline_ms (de_event right)) &&
         (de_order left <? de_order right))).

Definition salts_deadline_swap (s : salts_deadline_queue_impl) (left right : Z) :
    option salts_deadline_queue_impl :=
  temporary ← aget (dq_heap s) left;
  r ← aget (dq_heap s) right;
  h ← aset (dq_heap s) left r;
  h ← aset h right temporary;
  let s := with_heap s h in
  hl ← aget (dq_heap s) left;
  s ← set_heap_index s hl (u32 left);
  hr ← aget (dq_heap s) right;
  set_heap_index s hr (u32 right).

(** The comparison of two heap positions. *)
Definition before_at (s : salts_deadline_queue_impl) (i j : Z) : option bool :=
  a ← aget (dq_heap s) i; b ← aget (dq_heap s) j; salts_deadline_before s a b.

Fixpoint salts_deadline_sift_up_loop (fuel : nat) (s : salts_deadline_queue_impl) (index : Z) :
    option salts_deadline_queue_impl :=
  match fuel with
  | O => None
  | S fuel =>
      if index =? 0 then Some s else
      let parent := (index - 1) / 2 in
      b ← before_at s index parent;
      if negb b then Some s else
      s ← salts_deadline_swap s index parent;
      salts_deadline_sift_up_loop fuel s parent
  end.

(** [index] falls in every round. *)
Definition salts_deadline_sift_up (s : salts_deadline_queue_impl) (index : Z) :=
  salts_deadline_sift_up_loop (S (Z.to_nat index)) s index.

Fixpoint salts_deadline_sift_down_loop (fuel : nat) (s : salts_deadline_queue_impl) (index : Z) :
    option salts_deadline_queue_impl :=
  match fuel with
  | O => None
  | S fuel =>
      let left := index * 2 + 1 in
      let right := left + 1 in
      earliest ← (if left <? dq_size s
                  then b ← before_at s left index; Some (if b : bool then left else index)
                  else Some index);
      earliest ← (if right <? dq_size s
                  then b ← before_at s right earliest; Some (if b : bool then right else earliest)
                  else Some earliest);
      if earliest =? index then Some s else
      s ← salts_deadline_swap s index earliest;
      salts_deadline_sift_down_loop fuel s earliest
  end.

(** [index] grows in every round and stays below [size]. *)
Definition salts_deadline_sift_down (s : salts_deadline_queue_impl) (index : Z) :=
  salts_deadline_sift_down_loop (Z.to_nat (dq_size s)) s index.

Definition salts_deadline_release_slot (s : salts_deadline_queue_impl) (slot : Z) :
    option salts_deadline_queue_impl :=
  e ← aget (dq_entries s) slot;
  if de_generation e =? UINT32_MAX then
    es ← aset (dq_entries s) slot
           (SaltsDeadlineEntry event_zero 0 SALTS_DEADLINE_INDEX_NONE 0 false);
    Some (with_entries s es)
  else
    es ← aset (dq_entries s) slot
           (SaltsDeadlineEntry event_zero 0 SALTS_DEADLINE_INDEX_NONE (de_generation e + 1) false);
    fs ← aset (dq_free_slots s) (dq_free_count s) slot;
    Some (with_free (with_entries s es) fs (dq_free_count s + 1)).

(** The queue and [*out_event]. *)
Definition salts_deadline_remove (s : salts_deadline_queue_impl) (heap_index : Z) :
    option (salts_deadline_queue_impl * salts_deadline_event) :=
  removed_slot ← aget (dq_heap s) heap_index;
  e ← aget (dq_entries s) removed_slot;
  let out_event := de_event e in
  let s := with_size s (dq_size s - 1) in
  s ← (if heap_index =? dq_size s then Some s else
       last ← aget (dq_heap s) (dq_size s);
       h ← aset (dq_heap s) heap_index last;
       let s := with_heap s h in
       moved ← aget (dq_heap s) heap_index;
       s ← set_heap_index s moved (u32 heap_index);
       b ← (if heap_index =? 0 then Some false
            else before_at s heap_index ((heap_index - 1) / 2));
       if b : bool then salts_deadline_sift_up s heap_index
       else salts_deadline_sift_down s heap_index);
  h ← aset (dq_heap s) (dq_size s) SALTS_DEADLINE_INDEX_NONE;
  s ← salts_deadline_release_slot (with_heap s h) removed_slot;
  Some (s, out_event).

(** [sizeof(salts_deadline_entry)] on a 64-bit target. *)
Definition sizeof_entry : Z := 48.

(** [alloc] tells whether the four allocations succeed. Status and [*queue]. *)
Definition salts_deadline_queue_init (alloc : bool) (queue : option salts_deadline_queue)
    (capacity : Z) : salts_code * option salts_deadline_queue :=
  match queue with
  | None => (SALTS_EINVAL, queue)
  | Some q =>
      if capacity =? 0 then (SALTS_EINVAL, queue) else
      if match q with Some _ => true | None => false end then (SALTS_EALREADY, queue) else
      if (UINT32_MAX <? capacity) || (SIZE_MAX / sizeof_entry <? capacity) ||
         (SIZE_MAX / 4 <? capacity) then (SALTS_ERANGE, queue) else
      if negb alloc then (SALTS_ENOMEM, queue) else
      (SALTS_OK, Some (Some (SaltsDeadlineQueueImpl
        (replicate (Z.to_nat capacity)
           (SaltsDeadlineEntry event_zero 0 SALTS_DEADLINE_INDEX_NONE 1 false))
        (replicate (Z.to_nat capacity) SALTS_DEADLINE_INDEX_NONE)
        (map (λ index, u32 (capacity - index - 1)) (seqZ 0 capacity))
        0 capacity capacity 0)))
  end.

(** [salts_deadline_queue_schedule] with [out_id] not [NULL] and a queue:
    status, [*out_id] and the queue. *)
Definition deadline_schedule (s : salts_deadline_queue_impl) (deadline_ms token : Z) :
    option (salts_code * Z * salts_deadline_queue_impl) :=
  if dq_free_count s =? 0 then Some (SALTS_ENOBUFS, 0, s) else
  if dq_next_order s =? UINT64_MAX then Some (SALTS_ERANGE, 0, s) else
  slot ← aget (dq_free_slots s) (dq_free_count s - 1);
  let s := with_free s (dq_free_slots s) (dq_free_count s - 1) in
  e ← aget (dq_entries s) slot;
  if de_active e || (de_generation e =? 0) then Some (SALTS_EPROTO, 0, s) else
  let heap_index := dq_size s in
  let s := with_size s (dq_size s + 1) in
  let id := salts_deadline_make_id slot (de_generation e) in
  es ← aset (dq_entries s) slot
         (SaltsDeadlineEntry (SaltsDeadlineEvent id deadline_ms token) (dq_next_order s)
            (u32 heap_index) (de_generation e) true);
  let s := with_order (with_entries s es) (u64 (dq_next_order s + 1)) in
  h ← aset (dq_heap s) heap_index slot;
  s ← salts_deadline_sift_up (with_heap s h) heap_index;
  Some (SALTS_OK, id, s).

(** The variable [*out_id] is [None] for a [NULL] pointer. *)
Definition salts_deadline_queue_schedule (queue : option salts_deadline_queue)
    (deadline_ms token : Z) (out_id : option Z) :
    option (salts_code * option Z * option salts_deadline_queue) :=
  match out_id with
  | None => Some (SALTS_EINVAL, None, queue)
  | Some _ =>
      match salts_deadline_get queue with
      | None => Some (SALTS_EINVAL, Some 0, queue)
      | Some s =>
          '(code, id, s) ← deadline_schedule s deadline_ms token;
          Some (code, Some id, Some (Some s))
      end
  end.

Definition deadline_cancel (s : salts_deadline_queue_impl) (id : Z) :
    option (salts_code * salts_deadline_event * salts_deadline_queue_impl) :=
  match salts_deadline_decode_id id with
  | None => Some (SALTS_EINVAL, event_zero, s)
  | Some (slot, generation) =>
      if dq_capacity s <=? slot then Some (SALTS_ENOENT, event_zero, s) else
      e ← aget (dq_entries s) slot;
      if negb (de_active e) || negb (de_generation e =? generation)
      then Some (SALTS_ENOENT, event_zero, s) else
      '(s, ev) ← salts_deadline_remove s (de_heap_index e);
      Some (SALTS_OK, ev, s)
  end.

Definition deadline_peek (s : salts_deadline_queue_impl) :
    option (salts_code * salts_deadline_event) :=
  if dq_size s =? 0 then Some (SALTS_ETIMEDOUT, event_zero) else
  slot ← aget (dq_heap s) 0;
  e ← aget (dq_entries s) slot;
  Some (SALTS_OK, de_event e).

Definition deadline_take_ready (s : salts_deadline_queue_impl) (now_ms : Z) :
    option (salts_code * salts_deadline_event * salts_deadline_queue_impl) :=
  if dq_size s =? 0 then Some (SALTS_ETIMEDOUT, event_zero, s) else
  slot ← aget (dq_heap s) 0;
  e ← aget (dq_entries s) slot;
  if now_ms <? ev_deadline_ms (de_event e) then Some (SALTS_ETIMEDOUT, event_zero, s) else
  '(s, ev) ← salts_deadline_remove s 0;
  Some (SALTS_OK, ev, s).

(** The three public functions with their [NULL] checks; [out] is the
    caller's event variable. *)
Definition with_out (queue : option salts_deadline_queue) (out : option salts_deadline_event)
    (f : salts_deadline_queue_impl →
         option (salts_code * salts_deadline_event * salts_deadline_queue_impl)) :
    option (salts_code * option salts_deadline_event * option salts_deadline_queue) :=
  match out with
  | None => Some (SALTS_EINVAL, None, queue)
  | Some _ =>
      match salts_deadline_get queue with
      | None => Some (SALTS_EINVAL, Some event_zero, queue)
      | Some s => '(code, ev, s) ← f s; Some (code, Some ev, Some (Some s))
      end
  end.

Definition salts_deadline_queue_cancel queue (id : Z) out :=
  with_out queue out (λ s, deadline_cancel s id).
Definition salts_deadline_queue_peek queue out :=
  with_out queue out (λ s, '(code, ev) ← deadline_peek s; Some (code, ev, s)).
Definition salts_deadline_queue_take_ready queue (now_ms : Z) out :=
  with_out queue out (λ s, deadline_take_ready s now_ms).

Definition salts_deadline_queue_size (queue : option salts_deadline_queue) : Z :=
  match salts_deadline_get queue with Some s => dq_size s | None => 0 end.

Definition salts_deadline_queue_destroy (queue : option salts_deadline_queue) :
    salts_code * option salts_deadline_queue :=
  match queue with
  | None => (SALTS_EINVAL, None)
  | Some _ => (SALTS_OK, Some None)
  end.

(** ** What the queue holds *)

(** A pending event with its place in the order of schedules. *)
Definition item : Type := salts_deadline_event * Z.

Definition item_lt (a b : item) : bool :=
  (ev_deadline_ms a.1 <? ev_deadline_ms b.1) ||
  ((ev_deadline_ms a.1 =? ev_deadline_ms b.1) && (a.2 <? b.2)).

#[export] Instance item_order : HeapOrder item_lt.
Proof. unfold item_lt. split; intros; lia. Qed.

Definition item_of (e : salts_deadline_entry) : item := (de_event e, de_order e).

(** The item at a heap position. *)
Definition item_at (s : salts_deadline_queue_impl) (i : Z) : item :=
  match (slot ← aget (dq_heap s) i; aget (dq_entries s) slot) with
  | Some e => item_of e
  | None => (event_zero, 0)
  end.

(** The pending events, the abstract value of the queue (up to permutation). *)
Definition pending (s : salts_deadline_queue_impl) : list item :=
  map (item_at s) (seqZ 0 (dq_size s)).

(** ** Invariant

    [ex] is a slot that has left the heap and is not released yet: [Some]
    only inside [salts_deadline_remove]. *)

Record dq_core (ex : option Z) (s : salts_deadline_queue_impl) : Prop := {
  core_lens : alen (dq_entries s) = dq_capacity s ∧ alen (dq_heap s) = dq_capacity s ∧
    alen (dq_free_slots s) = dq_capacity s;
  core_cap : 0 < dq_capacity s <= UINT32_MAX;
  core_count : 0 <= dq_size s ∧ 0 <= dq_free_count s ∧
    dq_size s + dq_free_count s + match ex with Some _ => 1 | None => 0 end <= dq_capacity s;
  core_next : is_u64 (dq_next_order s);
  core_heap i : 0 <= i < dq_size s → ∃ slot e,
    aget (dq_heap s) i = Some slot ∧ aget (dq_entries s) slot = Some e ∧
    de_active e = true ∧ de_heap_index e = i ∧ Some slot ≠ ex;
  core_active slot e : aget (dq_entries s) slot = Some e → de_active e = true →
    ev_id (de_event e) = salts_deadline_make_id slot (de_generation e) ∧
    0 < de_generation e ∧ 0 <= de_order e < dq_next_order s ∧
    (Some slot ≠ ex →
      0 <= de_heap_index e < dq_size s ∧ aget (dq_heap s) (de_heap_index e) = Some slot);
  core_gen slot e : aget (dq_entries s) slot = Some e → is_u32 (de_generation e);
  core_free k : 0 <= k < dq_free_count s → ∃ slot e,
    aget (dq_free_slots s) k = Some slot ∧ aget (dq_entries s) slot = Some e ∧
    de_active e = false ∧ 0 < de_generation e;
  core_free_inj k k' slot : 0 <= k < dq_free_count s → 0 <= k' < dq_free_count s →
    aget (dq_free_slots s) k = Some slot → aget (dq_free_slots s) k' = Some slot → k = k';
  core_order_inj slot slot' e e' :
    aget (dq_entries s) slot = Some e → aget (dq_entries s) slot' = Some e' →
    de_active e = true → de_active e' = true → de_order e = de_order e' → slot = slot'
}.

(** All that a sift leaves alone. *)
Definition same_static (s s' : salts_deadline_queue_impl) : Prop :=
  dq_size s' = dq_size s ∧ dq_free_slots s' = dq_free_slots s ∧
  dq_free_count s' = dq_free_count s ∧ dq_capacity s' = dq_capacity s ∧
  dq_next_order s' = dq_next_order s ∧ alen (dq_heap s') = alen (dq_heap s) ∧
  alen (dq_entries s') = alen (dq_entries s) ∧
  ∀ slot, de_set_index 0 <$> aget (dq_entries s') slot = de_set_index 0 <$> aget (dq_entries s) slot.

Lemma same_static_refl s : same_static s s.
Proof. by split_and!. Qed.

Lemma same_static_trans s1 s2 s3 : same_static s1 s2 → same_static s2 s3 → same_static s1 s3.
Proof.
  intros (?&?&?&?&?&?&?&Ha) (?&?&?&?&?&?&?&Hb). split_and!; try congruence.
Qed.

(** The fields of an entry that survive a sift. *)
Lemma same_static_entry s s' slot e' :
  same_static s s' → aget (dq_entries s') slot = Some e' →
  ∃ e, aget (dq_entries s) slot = Some e ∧ de_event e' = de_event e ∧ de_order e' = de_order e ∧
    de_generation e' = de_generation e ∧ de_active e' = de_active e.
Proof.
  intros (_&_&_&_&_&_&_&H) He. specialize (H slot). rewrite He in H.
  destruct (aget (dq_entries s) slot) as [e|]; [|done]. simpl in H.
  exists e. split; [done|]. by injection H.
Qed.

Lemma same_static_sym s s' : same_static s s' → same_static s' s.
Proof. intros (?&?&?&?&?&?&?&H). split_and!; done. Qed.

(** The part of the invariant that does not speak of heap positions depends
    only on what a sift leaves alone. *)
Lemma core_move ex s s' :
  dq_core ex s → same_static s s' →
  (∀ i, 0 <= i < dq_size s → ∃ slot e,
    aget (dq_heap s') i = Some slot ∧ aget (dq_entries s') slot = Some e ∧
    de_active e = true ∧ de_heap_index e = i ∧ Some slot ≠ ex) →
  (∀ slot e, aget (dq_entries s') slot = Some e → de_active e = true → Some slot ≠ ex →
    0 <= de_heap_index e < dq_size s ∧ aget (dq_heap s') (de_heap_index e) = Some slot) →
  dq_core ex s'.
Proof.
  intros [? ? ? ? ? Ha Hg Hf Hfi Ho] Hs Hheap Hact.
  pose proof Hs as (Hsz&Hfs&Hfc&Hcap&Hno&Hlh&Hle&_).
  split; rewrite ?Hsz, ?Hfs, ?Hfc, ?Hcap, ?Hno, ?Hlh, ?Hle; try done.
  - intros slot e He Hae. destruct (same_static_entry _ _ _ _ Hs He) as (e0 & He0 & Hev & Hor & Hge & Hac).
    rewrite Hac in Hae. destruct (Ha _ _ He0 Hae) as (? & ? & ? & _).
    rewrite Hev, Hor, Hge. split_and!; try done; try lia;
      intros Hex; apply (Hact slot e); (done || congruence).
  - intros slot e He. destruct (same_static_entry _ _ _ _ Hs He) as (e0 & He0 & _ & _ & -> & _).
    by eapply Hg.
  - intros k Hk. destruct (Hf k Hk) as (slot & e & Hslot & He & Hae & Hge).
    apply same_static_sym in Hs.
    destruct (aget (dq_entries s') slot) as [e'|] eqn:He'.
    + destruct (same_static_entry _ _ _ _ (same_static_sym _ _ Hs) He')
        as (e0 & He0 & _ & _ & Hg0 & Hac). exists slot, e'. simplify_eq.
      split_and!; [done..| |]; [congruence|lia].
    + apply aget_None in He'. apply aget_Some in He as [? _]. lia.
  - intros slot slot' e e' He He' Hae Hae' Hoe.
    destruct (same_static_entry _ _ _ _ Hs He) as (e0 & He0 & _ & Ho0 & _ & Hac).
    destruct (same_static_entry _ _ _ _ Hs He') as (e1 & He1 & _ & Ho1 & _ & Hac').
    apply (Ho slot slot' e0 e1); congruence.
Qed.

(** ** The heap as a store *)

Lemma set_heap_index_ok s slot e i :
  aget (dq_entries s) slot = Some e →
  ∃ es, set_heap_index s slot i = Some (with_entries s es) ∧ alen es = alen (dq_entries s) ∧
    ∀ k, aget es k = if k =? slot then Some (de_set_index i e) else aget (dq_entries s) k.
Proof.
  intros He. unfold set_heap_index. rewrite He. simpl.
  destruct (aset_is_Some (dq_entries s) slot (de_set_index i e)) as [es Hes].
  { by apply aget_Some in He as [? _]. }
  rewrite Hes. simpl. exists es. split_and!; [done|by eapply aset_alen|].
  intros k. by apply aget_aset.
Qed.

Lemma swap_spec ex s i j :
  dq_core ex s → 0 <= i < dq_size s → 0 <= j < dq_size s → i ≠ j →
  ∃ s' a b ea eb, salts_deadline_swap s i j = Some s' ∧ same_static s s' ∧ a ≠ b ∧
    aget (dq_heap s) i = Some a ∧ aget (dq_heap s) j = Some b ∧
    aget (dq_entries s) a = Some ea ∧ aget (dq_entries s) b = Some eb ∧
    (de_active ea = true ∧ de_heap_index ea = i ∧ Some a ≠ ex) ∧
    (de_active eb = true ∧ de_heap_index eb = j ∧ Some b ≠ ex) ∧
    (∀ k, aget (dq_heap s') k =
       if k =? j then Some a else if k =? i then Some b else aget (dq_heap s) k) ∧
    (∀ k, aget (dq_entries s') k =
       if k =? a then Some (de_set_index j ea)
       else if k =? b then Some (de_set_index i eb) else aget (dq_entries s) k).
Proof.
  intros Hc Hi Hj Hne.
  destruct (core_heap _ _ Hc i Hi) as (a & ea & Ha & Hea & Haa & Hia & Hexa).
  destruct (core_heap _ _ Hc j Hj) as (b & eb & Hb & Heb & Hab & Hib & Hexb).
  assert (a ≠ b) as Hab' by (intros ->; simplify_eq; congruence).
  pose proof (core_lens _ _ Hc) as (Hl1 & Hl2 & _). pose proof (core_count _ _ Hc).
  pose proof (core_cap _ _ Hc).
  assert (u32 i = i ∧ u32 j = j) as [Hui Huj].
  { split; apply u32_id; unfold_words; destruct ex; lia. }
  unfold salts_deadline_swap. rewrite Ha, Hb, Hui, Huj. simpl.
  destruct (aset_is_Some (dq_heap s) i b) as [h1 Hh1]; [destruct ex; lia|]. rewrite Hh1. simpl.
  pose proof (aset_alen _ _ _ _ Hh1) as Hlh1.
  destruct (aset_is_Some h1 j a) as [h2 Hh2]; [destruct ex; lia|]. rewrite Hh2. simpl.
  pose proof (aset_alen _ _ _ _ Hh2) as Hlh2.
  assert (∀ k, aget h2 k = if k =? j then Some a else if k =? i then Some b else aget (dq_heap s) k)
    as Hh by (intros k; rewrite (aget_aset _ _ _ _ k Hh2), (aget_aset _ _ _ _ k Hh1); done).
  rewrite (Hh i), (proj2 (Z.eqb_neq i j)), Z.eqb_refl by done. simpl.
  destruct (set_heap_index_ok (with_heap s h2) b eb i) as (es1 & -> & Hle1 & Hes1); [done|]. simpl.
  rewrite (Hh j), Z.eqb_refl. simpl.
  destruct (set_heap_index_ok (with_entries (with_heap s h2) es1) a ea j) as (es2 & -> & Hle2 & Hes2).
  { simpl. rewrite Hes1, (proj2 (Z.eqb_neq a b)) by done. done. }
  simpl in *. eexists _, a, b, ea, eb. split_and!; try done; simpl; try congruence.
  - split_and!; simpl; try done; try congruence. intros slot. rewrite Hes2, Hes1.
    repeat case Z.eqb_spec; intros; subst; rewrite ?Hea, ?Heb; done.
  - intros k. by rewrite Hes2, Hes1.
Qed.

Lemma swap_core ex s i j :
  dq_core ex s → 0 <= i < dq_size s → 0 <= j < dq_size s → i ≠ j →
  ∃ s', salts_deadline_swap s i j = Some s' ∧ dq_core ex s' ∧ same_static s s' ∧
    ∀ k, 0 <= k < dq_size s → item_at s' k = item_at s (transp i j k).
Proof.
  intros Hc Hi Hj Hne.
  destruct (swap_spec ex s i j) as
    (s' & a & b & ea & eb & Hsw & Hst & Hab & Ha & Hb & Hea & Heb & (Haa & Hia & Hexa)
     & (Hbb & Hib & Hexb) & Hh & He); [done..|].
  assert (∀ k c, k ≠ i → k ≠ j → aget (dq_heap s) k = Some c → 0 <= k < dq_size s →
            (c =? a) = false ∧ (c =? b) = false) as Hother.
  { intros k c Hki Hkj Hkc Hk. destruct (core_heap _ _ Hc k Hk) as (c' & ec & ? & ? & _ & ? & _).
    rewrite !Z.eqb_neq. split; intros ->; simplify_eq. }
  exists s'. split; [done|]. split; [|split; [done|]].
  - apply (core_move ex s); [done|done| |].
    + intros k Hk. rewrite Hh. destruct (Z.eqb_spec k j) as [->|]; [|destruct (Z.eqb_spec k i) as [->|]].
      * exists a, (de_set_index j ea). by rewrite He, Z.eqb_refl.
      * exists b, (de_set_index i eb).
        by rewrite He, (proj2 (Z.eqb_neq b a)), Z.eqb_refl by done.
      * destruct (core_heap _ _ Hc k Hk) as (c & ec & Hc1 & Hec & Hac & Hic & Hexc).
        destruct (Hother k c) as [Hx Hy]; [done..|]. exists c, ec. by rewrite He, Hx, Hy.
    + intros slot e. rewrite He.
      destruct (Z.eqb_spec slot a) as [->|Hsa]; [|destruct (Z.eqb_spec slot b) as [->|Hsb]].
      * intros [= <-] _ _. simpl. by rewrite Hh, Z.eqb_refl.
      * intros [= <-] _ _. simpl. by rewrite Hh, (proj2 (Z.eqb_neq i j)), Z.eqb_refl by done.
      * intros Hes Hae Hexe. destruct (core_active _ _ Hc slot e) as (_ & _ & _ & Hx); [done..|].
        destruct Hx as [Hx1 Hx2]; [done|]. split; [done|]. rewrite Hh.
        destruct (Z.eqb_spec (de_heap_index e) j); [congruence|].
        destruct (Z.eqb_spec (de_heap_index e) i); [congruence|done].
  - intros k Hk. unfold item_at, transp. rewrite Hh.
    destruct (Z.eqb_spec k j) as [->|]; [|destruct (Z.eqb_spec k i) as [->|]]; simpl.
    + rewrite (proj2 (Z.eqb_neq j i)), Ha, He, Z.eqb_refl by done. simpl. by rewrite Hea.
    + rewrite Hb, He, (proj2 (Z.eqb_neq b a)), Z.eqb_refl by done. simpl. by rewrite Heb.
    + destruct (core_heap _ _ Hc k Hk) as (c & ec & Hkc & _). rewrite Hkc. simpl.
      destruct (Hother k c) as [Hx Hy]; [done..|]. by rewrite He, Hx, Hy.
Qed.

Lemma before_at_ok ex s i j :
  dq_core ex s → 0 <= i < dq_size s → 0 <= j < dq_size s →
  before_at s i j = Some (item_lt (item_at s i) (item_at s j)).
Proof.
  intros Hc Hi Hj. unfold before_at, salts_deadline_before, item_at.
  destruct (core_heap _ _ Hc i Hi) as (a & ea & -> & Hea & _).
  destruct (core_heap _ _ Hc j Hj) as (b & eb & -> & Heb & _). simpl.
  by rewrite Hea, Heb.
Qed.

#[export] Instance deadline_heap_ops : HeapOps salts_deadline_queue_impl :=
  {| hless := before_at; hswap := salts_deadline_swap |}.

(** The store during one sift of the queue [s0]. *)
Definition sifting (ex : option Z) (s0 s : salts_deadline_queue_impl) : Prop :=
  dq_core ex s ∧ same_static s0 s.

#[export] Instance deadline_heap_store ex s0 :
  HeapStore item_lt (sifting ex s0) (dq_size s0) item_at.
Proof.
  split.
  - intros s i j [Hc Hs] Hi Hj. destruct Hs as [Hs _]. eapply before_at_ok; [done|lia..].
  - intros s i j [Hc Hs] Hi Hj Hne. pose proof Hs as [Hsz _].
    destruct (swap_core ex s i j) as (s' & Hsw & Hc' & Hs' & Hg); [done|lia..|].
    exists s'. split; [done|]. split; [|intros k Hk; apply Hg; lia].
    split; [done|]. by eapply same_static_trans.
Qed.

Lemma sift_up_generic fuel s i : salts_deadline_sift_up_loop fuel s i = sift_up fuel s i.
Proof.
  revert s i. induction fuel as [|fuel IH]; intros s i; [done|]. simpl.
  destruct (i =? 0); [done|]. change ((i - 1) / 2) with (parent i).
  destruct (before_at s i (parent i)) as [[]|]; [|done..]. simpl.
  destruct (salts_deadline_swap s i (parent i)); [|done]. simpl. apply IH.
Qed.

Lemma sift_down_generic fuel ex s0 s i :
  sifting ex s0 s → 0 <= i < dq_size s0 →
  salts_deadline_sift_down_loop fuel s i = sift_down fuel s (dq_size s0) i.
Proof.
  revert s i. induction fuel as [|fuel IH]; intros s i Hs Hi; [done|].
  cbn [salts_deadline_sift_down_loop sift_down].
  pose proof (earliest_child_ok (lt := item_lt) s i Hs Hi) as (e & He & Hen & Hpe & _).
  pose proof Hs as [Hc [Hsz _]]. rewrite Hsz.
  rewrite He. unfold earliest_child in He.
  match type of He with (?m ≫= _) = _ => destruct m as [e1|] eqn:E1 end; [|done].
  simpl in He. unfold hless, deadline_heap_ops in E1, He. rewrite E1. simpl. rewrite He. simpl.
  destruct (Z.eqb_spec e i); [done|].
  destruct (swap_core ex s i e) as (s' & Hsw & Hc' & Hs' & _); [done|lia..|].
  rewrite Hsw. simpl. apply IH; [|lia]. split; [done|].
  by eapply same_static_trans; [apply Hs|].
Qed.

(** ** Invariant and operations *)

Definition dq_heap_ok (s : salts_deadline_queue_impl) : Prop :=
  heap_ok item_lt (dq_size s) (item_at s).

Definition dq_inv (s : salts_deadline_queue_impl) : Prop := dq_core None s ∧ dq_heap_ok s.

(** What both sifts give: the invariant, the same pending events and nothing
    but heap positions changed. *)
Definition sifted (ex : option Z) (s s' : salts_deadline_queue_impl) : Prop :=
  dq_core ex s' ∧ same_static s s' ∧ dq_heap_ok s' ∧ pending s' ≡ₚ pending s.

Lemma deadline_sift_up_ok ex s i :
  dq_core ex s → up_ok item_lt (dq_size s) (item_at s) i → 0 <= i < dq_size s →
  ∃ s', salts_deadline_sift_up s i = Some s' ∧ sifted ex s s'.
Proof.
  intros Hc Hup Hi. unfold salts_deadline_sift_up. rewrite sift_up_generic.
  destruct (sift_up_ok (inv := sifting ex s) (n := dq_size s) (get := item_at) (lt := item_lt)
              (S (Z.to_nat i)) s i) as (s' & Hs' & [Hc' Hst] & Hh & Hp);
    [split; [done|apply same_static_refl]|done|done|lia|].
  exists s'. split; [done|]. pose proof Hst as [Hsz _].
  split_and!; [done..| |]; unfold dq_heap_ok, pending; by rewrite Hsz.
Qed.

Lemma deadline_sift_down_ok ex s i :
  dq_core ex s → down_ok item_lt (dq_size s) (item_at s) i → 0 <= i < dq_size s →
  ∃ s', salts_deadline_sift_down s i = Some s' ∧ sifted ex s s'.
Proof.
  intros Hc Hup Hi. unfold salts_deadline_sift_down.
  assert (sifting ex s s) as Hs0 by (split; [done|apply same_static_refl]).
  rewrite (sift_down_generic _ ex s) by done.
  destruct (sift_down_ok (inv := sifting ex s) (n := dq_size s) (get := item_at) (lt := item_lt)
              (Z.to_nat (dq_size s)) s i) as (s' & Hs' & [Hc' Hst] & Hh & Hp); [done..|lia|].
  exists s'. split; [done|]. pose proof Hst as [Hsz _].
  split_and!; [done..| |]; unfold dq_heap_ok, pending; by rewrite Hsz.
Qed.

(** What removing the event of slot [r] does to the entries: the slot gets a
    new generation and is free again, or it is retired. *)
Definition released (r : Z) (s s' : salts_deadline_queue_impl) : Prop :=
  dq_capacity s' = dq_capacity s ∧ dq_next_order s' = dq_next_order s ∧
  ∀ slot e', aget (dq_entries s') slot = Some e' →
    ∃ e, aget (dq_entries s) slot = Some e ∧
      if slot =? r then de_active e' = false ∧ 0 < de_generation e ∧
        (de_generation e' = de_generation e + 1 ∧ dq_free_count s' = dq_free_count s + 1 ∨
         de_generation e' = 0 ∧ dq_free_count s' = dq_free_count s)
      else de_generation e' = de_generation e ∧ de_active e' = de_active e.

Definition cleared_entry (g : Z) : salts_deadline_entry :=
  SaltsDeadlineEntry event_zero 0 SALTS_DEADLINE_INDEX_NONE g false.

(** The slots on the free list of [s'] are inactive, usable and distinct. *)
Definition free_ok (s : salts_deadline_queue_impl) : Prop :=
  alen (dq_free_slots s) = dq_capacity s ∧
  0 <= dq_free_count s ∧ dq_size s + dq_free_count s <= dq_capacity s ∧
  (∀ k, 0 <= k < dq_free_count s → ∃ slot e, aget (dq_free_slots s) k = Some slot ∧
     aget (dq_entries s) slot = Some e ∧ de_active e = false ∧ 0 < de_generation e) ∧
  (∀ k k' slot, 0 <= k < dq_free_count s → 0 <= k' < dq_free_count s →
     aget (dq_free_slots s) k = Some slot → aget (dq_free_slots s) k' = Some slot → k = k').

(** Clearing the entry that left the heap restores the invariant, whatever is
    done with its slot. *)
Lemma clear_entry_ok s s' r e g :
  dq_core (Some r) s → aget (dq_entries s) r = Some e →
  (∀ k, aget (dq_entries s') k = if k =? r then Some (cleared_entry g) else aget (dq_entries s) k) →
  alen (dq_entries s') = alen (dq_entries s) → is_u32 g →
  0 < de_generation e →
  g = de_generation e + 1 ∧ dq_free_count s' = dq_free_count s + 1 ∨
    g = 0 ∧ dq_free_count s' = dq_free_count s →
  dq_heap s' = dq_heap s → dq_size s' = dq_size s → dq_capacity s' = dq_capacity s →
  dq_next_order s' = dq_next_order s → free_ok s' →
  dq_core None s' ∧ released r s s' ∧ dq_size s' = dq_size s ∧
  ∀ i, 0 <= i < dq_size s → item_at s' i = item_at s i.
Proof.
  intros Hc He Hget Hle Hg Hge Hg' Hs'h Hs'z Hs'c Hs'o (Hf1 & Hf2 & Hf3 & Hf4 & Hf5).
  pose proof (core_lens _ _ Hc) as (Hl1 & Hl2 & Hl3). pose proof (core_count _ _ Hc) as Hcnt.
  split; [|split; [|split; [done|]]].
  - split; rewrite ?Hs'h, ?Hs'z, ?Hs'c, ?Hs'o, ?Hle in *; try done.
    + apply Hc.
    + lia.
    + apply Hc.
    + intros i Hi. destruct (core_heap _ _ Hc i Hi) as (slot & e0 & H1 & H2 & H3 & H4 & H5).
      exists slot, e0. by rewrite Hget, (proj2 (Z.eqb_neq slot r)) by congruence.
    + intros slot e0. rewrite Hget. destruct (Z.eqb_spec slot r) as [->|Hne]; [by intros [= <-] ?|].
      intros H1 H2. destruct (core_active _ _ Hc slot e0 H1 H2) as (? & ? & ? & Hx).
      split_and!; try done; try lia; intros _; apply Hx; congruence.
    + intros slot e0. rewrite Hget.
      destruct (Z.eqb_spec slot r) as [->|Hne]; [by intros [= <-]|apply (core_gen _ _ Hc)].
    + intros slot slot' e0 e1. rewrite !Hget.
      destruct (Z.eqb_spec slot r) as [->|], (Z.eqb_spec slot' r) as [->|]; intros; simplify_eq; try done.
      by apply (core_order_inj _ _ Hc slot slot' e0 e1).
  - split_and!; [done..|]. intros slot e'. rewrite Hget.
    destruct (Z.eqb_spec slot r) as [->|]; [|by eauto].
    intros [= <-]. exists e. by split_and!.
  - intros i Hi. unfold item_at. rewrite Hs'h.
    destruct (core_heap _ _ Hc i Hi) as (slot & e0 & -> & H2 & _ & _ & H5). simpl.
    by rewrite Hget, (proj2 (Z.eqb_neq slot r)) by congruence.
Qed.

Lemma release_slot_ok s r e :
  dq_core (Some r) s → aget (dq_entries s) r = Some e → de_active e = true →
  ∃ s', salts_deadline_release_slot s r = Some s' ∧ dq_core None s' ∧ released r s s' ∧
    dq_size s' = dq_size s ∧ ∀ i, 0 <= i < dq_size s → item_at s' i = item_at s i.
Proof.
  intros Hc He Hae. unfold salts_deadline_release_slot. rewrite He. simpl.
  pose proof (core_lens _ _ Hc) as (Hl1 & Hl2 & Hl3). pose proof (core_count _ _ Hc) as Hcnt.
  pose proof (proj1 (aget_Some _ _ _ He)) as Hr.
  pose proof (core_gen _ _ Hc r e He) as Hgen.
  destruct (core_active _ _ Hc r e He Hae) as (_ & Hgpos & _).
  assert (∀ k slot, 0 <= k < dq_free_count s → aget (dq_free_slots s) k = Some slot → slot ≠ r) as Hnr.
  { intros k slot Hk Hsl ->. destruct (core_free _ _ Hc k Hk) as (? & ? & ? & ? & ? & ?). congruence. }
  fold (cleared_entry 0) (cleared_entry (de_generation e + 1)).
  destruct (aset_is_Some (dq_entries s) r (cleared_entry 0)) as [es0 Hes0]; [done|].
  destruct (aset_is_Some (dq_entries s) r (cleared_entry (de_generation e + 1))) as [es Hes]; [done|].
  rewrite Hes0, Hes. destruct (Z.eqb_spec (de_generation e) UINT32_MAX) as [Hmax|Hmax]; simpl.
  - pose proof (λ k, aget_aset _ _ _ _ k Hes0) as Hget.
    eexists. split; [done|]. apply (clear_entry_ok s _ r e 0); try done.
    + exact (aset_alen _ _ _ _ Hes0).
    + by right.
    + split_and!; simpl; [done|lia..| |apply Hc].
      intros k Hk. destruct (core_free _ _ Hc k Hk) as (slot & e0 & H1 & H2 & H3 & H4).
      exists slot, e0. by rewrite Hget, (proj2 (Z.eqb_neq slot r)) by eauto.
  - pose proof (λ k, aget_aset _ _ _ _ k Hes) as Hget.
    destruct (aset_is_Some (dq_free_slots s) (dq_free_count s) r) as [fs Hfs]; [lia|].
    rewrite Hfs. simpl. pose proof (λ k, aget_aset _ _ _ _ k Hfs) as Hfget.
    eexists. split; [done|]. apply (clear_entry_ok s _ r e (de_generation e + 1)); try done.
    + exact (aset_alen _ _ _ _ Hes).
    + unfold_words; lia.
    + by left.
    + split_and!; simpl; [rewrite (aset_alen _ _ _ _ Hfs); done|lia..| |].
      * intros k Hk. rewrite Hfget. destruct (Z.eqb_spec k (dq_free_count s)) as [->|].
        -- exists r. eexists. rewrite Hget, Z.eqb_refl. split_and!; [done..|]. simpl. lia.
        -- destruct (core_free _ _ Hc k) as (slot & e0 & H1 & H2 & H3 & H4); [lia|].
           exists slot, e0. rewrite Hget, (proj2 (Z.eqb_neq slot r)); [done|]. apply (Hnr k); [lia|done].
      * intros k k' slot Hk Hk'. rewrite !Hfget.
        destruct (Z.eqb_spec k (dq_free_count s)) as [->|],
          (Z.eqb_spec k' (dq_free_count s)) as [->|]; intros H1 H2; [done| | |].
        -- injection H1 as <-. by destruct (Hnr k' r); [lia|done|].
        -- injection H2 as <-. by destruct (Hnr k r); [lia|done|].
        -- apply (core_free_inj _ _ Hc k k' slot); (done || lia).
Qed.

(** The last slot takes position [i]; slot [r] is out of the heap. *)
Lemma remove_replace_ok s i r e :
  dq_inv s → 0 <= i < dq_size s - 1 →
  aget (dq_heap s) i = Some r → aget (dq_entries s) r = Some e →
  ∃ h l s', aget (dq_heap s) (dq_size s - 1) = Some l ∧ aset (dq_heap s) i l = Some h ∧
    aget h i = Some l ∧
    set_heap_index (with_heap (with_size s (dq_size s - 1)) h) l (u32 i) = Some s' ∧
    dq_core (Some r) s' ∧ dq_size s' = dq_size s - 1 ∧ dq_capacity s' = dq_capacity s ∧
    dq_next_order s' = dq_next_order s ∧ dq_free_count s' = dq_free_count s ∧
    (∀ slot, de_set_index 0 <$> aget (dq_entries s') slot = de_set_index 0 <$> aget (dq_entries s) slot) ∧
    ∀ k, 0 <= k < dq_size s - 1 →
      item_at s' k = if k =? i then item_at s (dq_size s - 1) else item_at s k.
Proof.
  intros [Hc Hh] Hi Hr He. pose proof (core_lens _ _ Hc) as (Hl1 & Hl2 & Hl3).
  pose proof (core_count _ _ Hc) as Hcnt. pose proof (core_cap _ _ Hc).
  destruct (core_heap _ _ Hc (dq_size s - 1)) as (l & el & Hl & Hel & Hal & Hil & _); [lia|].
  destruct (core_heap _ _ Hc i) as (r' & e' & Hr' & He' & Hae & Hie & _); [lia|].
  rewrite Hr in Hr'. injection Hr' as <-. rewrite He in He'. injection He' as <-.
  assert (l ≠ r) as Hlr by (intros ->; simplify_eq; lia).
  destruct (aset_is_Some (dq_heap s) i l) as [h Hset]; [lia|].
  pose proof (λ k, aget_aset _ _ _ _ k Hset) as Hhget. pose proof (aset_alen _ _ _ _ Hset) as Hlh.
  destruct (set_heap_index_ok (with_heap (with_size s (dq_size s - 1)) h) l el (u32 i))
    as (es & Hes & Hle & Hget); [done|]. simpl in *.
  rewrite (u32_id i) in * by (unfold_words; lia).
  exists h, l. eexists. split_and!; try done; [by rewrite Hhget, Z.eqb_refl| | |].
  - split; simpl; rewrite ?Hle; try done.
    + split_and!; congruence.
    + lia.
    + apply Hc.
    + intros k Hk. rewrite Hhget. destruct (Z.eqb_spec k i) as [->|Hki].
      * exists l, (de_set_index i el). rewrite Hget, Z.eqb_refl. split_and!; try done. congruence.
      * destruct (core_heap _ _ Hc k) as (c & ec & H1 & H2 & H3 & H4 & _); [lia|].
        exists c, ec. rewrite Hget, (proj2 (Z.eqb_neq c l)) by (intros ->; simplify_eq; lia).
        split_and!; try done. intros ?. simplify_eq.
    + intros slot e0. rewrite Hget. destruct (Z.eqb_spec slot l) as [->|].
      * intros [= <-] _. simpl. destruct (core_active _ _ Hc l el) as (? & ? & ? & _); [done..|].
        split_and!; try done; try lia. intros _. by rewrite Hhget, Z.eqb_refl.
      * intros H1 H2. destruct (core_active _ _ Hc slot e0) as (? & ? & ? & Hx); [done..|].
        destruct Hx as [Hx1 Hx2]; [done|]. split_and!; try done; try lia. intros Hex.
        assert (de_heap_index e0 ≠ dq_size s - 1) by (intros E; rewrite E in Hx2; congruence).
        split; [lia|]. rewrite Hhget, (proj2 (Z.eqb_neq (de_heap_index e0) i)); [done|]. congruence.
    + intros slot e0. rewrite Hget. destruct (Z.eqb_spec slot l) as [->|].
      * intros [= <-]. exact (core_gen _ _ Hc l el Hel).
      * apply (core_gen _ _ Hc).
    + intros k Hk. destruct (core_free _ _ Hc k Hk) as (slot & e0 & H1 & H2 & H3 & H4).
      exists slot, e0. rewrite Hget, (proj2 (Z.eqb_neq slot l)); [done|]. congruence.
    + apply (core_free_inj _ _ Hc).
    + intros slot slot' e0 e1. rewrite !Hget.
      repeat case Z.eqb_spec; intros; simplify_eq; try done; simpl in *;
        eapply (core_order_inj _ _ Hc); eauto.
  - intros slot. rewrite Hget. case Z.eqb_spec; intros; subst; [by rewrite Hel|done].
  - intros k Hk. unfold item_at. simpl. rewrite Hhget.
    destruct (Z.eqb_spec k i) as [->|Hki]; simpl.
    + rewrite Hl, Hget, Z.eqb_refl. simpl. by rewrite Hel.
    + destruct (core_heap _ _ Hc k) as (c & ec & H1 & H2 & _ & H4 & _); [lia|]. rewrite H1. simpl.
      by rewrite Hget, (proj2 (Z.eqb_neq c l)) by (intros ->; simplify_eq; lia).
Qed.

(** What [salts_deadline_remove] has when it comes to release slot [r]. *)
Record detached (r i : Z) (s s' : salts_deadline_queue_impl) : Prop := {
  det_core : dq_core (Some r) s';
  det_heap : dq_heap_ok s';
  det_size : dq_size s' = dq_size s - 1;
  det_pending : item_at s i :: pending s' ≡ₚ pending s;
  det_cap : dq_capacity s' = dq_capacity s;
  det_next : dq_next_order s' = dq_next_order s;
  det_free : dq_free_count s' = dq_free_count s;
  det_entries slot :
    de_set_index 0 <$> aget (dq_entries s') slot = de_set_index 0 <$> aget (dq_entries s) slot
}.

(** Removing the last position needs no repair. *)
Lemma detach_last s r e :
  dq_inv s → 0 < dq_size s →
  aget (dq_heap s) (dq_size s - 1) = Some r → aget (dq_entries s) r = Some e →
  detached r (dq_size s - 1) s (with_size s (dq_size s - 1)).
Proof.
  intros [Hc Hh] Hs Hr He. pose proof (core_count _ _ Hc) as Hcnt.
  assert (∀ slot e, aget (dq_entries s) slot = Some e → de_active e = true → slot ≠ r →
            de_heap_index e ≠ dq_size s - 1) as Hlast.
  { intros slot e0 H1 H2 Hne Hx. destruct (core_active _ _ Hc slot e0) as (_ & _ & _ & Hy); [done..|].
    destruct Hy as [_ Hy]; [done|]. rewrite Hx in Hy. congruence. }
  split; simpl; try done.
  - split; simpl; try apply Hc; [lia| |].
    + intros k Hk. destruct (core_heap _ _ Hc k) as (c & ec & H1 & H2 & H3 & H4 & _); [lia|].
      exists c, ec. split_and!; try done. intros [= ->].
      destruct (core_heap _ _ Hc (dq_size s - 1)) as (c' & ec' & ? & ? & _ & ? & _); [lia|].
      simplify_eq. lia.
    + intros slot e0 H1 H2. destruct (core_active _ _ Hc slot e0) as (? & ? & ? & Hx); [done..|].
      destruct Hx as [Hx1 Hx2]; [done|]. split_and!; try done; try lia. intros Hex.
      assert (slot ≠ r) as Hne by congruence. pose proof (Hlast slot e0 H1 H2 Hne). split; [lia|done].
  - unfold dq_heap_ok in *. simpl. apply (heap_ok_shrink _ (dq_size s)); [lia|done].
  - set (s1 := with_size s (dq_size s - 1)).
    pose proof (replace_perm (item_at s) (item_at s1) (dq_size s - 1) (dq_size s - 1)) as Hx.
    rewrite Z.sub_add in Hx. apply Hx; [lia|].
    intros k Hk. rewrite (proj2 (Z.eqb_neq k (dq_size s - 1))) by lia. done.
Qed.

(** Removing any other position moves the last slot there and sifts it. *)
Lemma detach_middle s i r e :
  dq_inv s → 0 <= i < dq_size s - 1 →
  aget (dq_heap s) i = Some r → aget (dq_entries s) r = Some e →
  ∃ s', (last ← aget (dq_heap s) (dq_size s - 1);
         h ← aset (dq_heap s) i last;
         let s := with_heap (with_size s (dq_size s - 1)) h in
         moved ← aget (dq_heap s) i;
         s ← set_heap_index s moved (u32 i);
         b ← (if i =? 0 then Some false else before_at s i ((i - 1) / 2));
         if b : bool then salts_deadline_sift_up s i else salts_deadline_sift_down s i) = Some s' ∧
    detached r i s s'.
Proof.
  intros Hinv Hi Hr He.
  destruct (remove_replace_ok s i r e Hinv Hi Hr He) as
    (h & l & s1 & Hl & Hset & Hhi & Hidx & Hc1 & Hsz1 & Hcap1 & Hno1 & Hfc1 & Hent1 & Hitem).
  destruct Hinv as [Hc Hh]. rewrite Hl. simpl. rewrite Hset. simpl. rewrite Hhi. simpl.
  rewrite Hidx. simpl.
  assert (∀ s2, sifted (Some r) s1 s2 → detached r i s s2) as Hfin.
  { intros s2 (Hc2 & (Hsz2 & _ & Hfc2 & Hcap2 & Hno2 & _ & _ & Hent2) & Hh2 & Hp2).
    split; try done; try congruence.
    rewrite Hp2. unfold pending. rewrite Hsz1.
      pose proof (replace_perm (item_at s) (item_at s1) i (dq_size s - 1)) as Hx.
      rewrite Z.sub_add in Hx. apply Hx; [lia|done]. }
  assert (hole_ok item_lt (dq_size s1) (item_at s1) i) as Hhole.
  { rewrite Hsz1. apply (replace_hole (item_at s)); [|lia|done].
    unfold dq_heap_ok in Hh. by replace (dq_size s - 1 + 1) with (dq_size s) by lia. }
  apply hole_up_or_down in Hhole; [|lia].
  change ((i - 1) / 2) with (parent i) in *.
  destruct (Z.eqb_spec i 0) as [->|Hi0]; simpl.
  - destruct (deadline_sift_down_ok (Some r) s1 0) as (s2 & -> & Hs2); [done| |lia|by eauto].
    by rewrite bool_decide_false in Hhole by congruence.
  - assert (0 <= parent i < i) by (unfold parent; word_lia).
    rewrite (before_at_ok (Some r)) by (done || lia). simpl. rewrite bool_decide_true in Hhole by done.
    simpl in Hhole. destruct (item_lt (item_at s1 i) (item_at s1 (parent i))).
    + destruct (deadline_sift_up_ok (Some r) s1 i) as (s2 & -> & Hs2); [done|done|lia|by eauto].
    + destruct (deadline_sift_down_ok (Some r) s1 i) as (s2 & -> & Hs2); [done|done|lia|by eauto].
Qed.

(** Positions above the heap are free to change. *)
Lemma core_tail ex s h v :
  dq_core ex s → aset (dq_heap s) (dq_size s) v = Some h →
  dq_core ex (with_heap s h) ∧
  ∀ k, 0 <= k < dq_size s → item_at (with_heap s h) k = item_at s k.
Proof.
  intros Hc Hset. pose proof (λ k, aget_aset _ _ _ _ k Hset) as Hget.
  assert (∀ k, 0 <= k < dq_size s → aget h k = aget (dq_heap s) k) as Hsame.
  { intros k Hk. by rewrite Hget, (proj2 (Z.eqb_neq k (dq_size s))) by lia. }
  split.
  - apply (core_move ex s); [done| | |].
    + split_and!; simpl; try done. by eapply aset_alen.
    + intros k Hk. simpl. rewrite Hsame by done. by apply (core_heap _ _ Hc).
    + intros slot e H1 H2 H3. simpl in *.
      destruct (core_active _ _ Hc slot e) as (_ & _ & _ & Hx); [done..|].
      destruct Hx as [Hx1 Hx2]; [done|]. split; [done|]. by rewrite Hsame.
  - intros k Hk. unfold item_at. simpl. by rewrite Hsame.
Qed.

Lemma remove_ok s i :
  dq_inv s → 0 <= i < dq_size s →
  ∃ s' r, aget (dq_heap s) i = Some r ∧
    salts_deadline_remove s i = Some (s', (item_at s i).1) ∧
    dq_inv s' ∧ item_at s i :: pending s' ≡ₚ pending s ∧ released r s s'.
Proof.
  intros Hinv Hi. pose proof Hinv as [Hc Hh].
  destruct (core_heap _ _ Hc i Hi) as (r & e & Hr & He & Hae & _).
  assert ((item_at s i).1 = de_event e) as Hev by (unfold item_at; rewrite Hr; simpl; by rewrite He).
  assert (∃ s2, detached r i s s2 ∧ salts_deadline_remove s i =
      (h ← aset (dq_heap s2) (dq_size s2) SALTS_DEADLINE_INDEX_NONE;
       s3 ← salts_deadline_release_slot (with_heap s2 h) r; Some (s3, de_event e)))
    as (s2 & Hd & Hrem).
  { unfold salts_deadline_remove. rewrite Hr. simpl. rewrite He. simpl.
    destruct (Z.eqb_spec i (dq_size s - 1)) as [->|Hne].
    - eexists. split; [|done]. apply (detach_last s r e); [done|lia|done..].
    - destruct (detach_middle s i r e) as (s2 & Hs2 & Hd); [done|lia|done..|].
      exists s2. split; [done|]. simpl in Hs2. by rewrite Hs2. }
  pose proof (det_core _ _ _ _ Hd) as Hc2. pose proof (det_size _ _ _ _ Hd) as Hsz2.
  pose proof (core_lens _ _ Hc2) as (_ & Hlen2 & _). pose proof (core_count _ _ Hc2) as Hcnt2.
  destruct (aset_is_Some (dq_heap s2) (dq_size s2) SALTS_DEADLINE_INDEX_NONE) as [h Hset]; [lia|].
  destruct (core_tail _ _ _ _ Hc2 Hset) as [Hc3 Hit3].
  assert (∃ e2, aget (dq_entries s2) r = Some e2 ∧ de_active e2 = true) as (e2 & He2 & Ha2).
  { pose proof (det_entries _ _ _ _ Hd r) as Hx. rewrite He in Hx.
    destruct (aget (dq_entries s2) r) as [e2|]; [|done]. simpl in Hx.
    exists e2. split; [done|]. injection Hx as _ _ _ Hx. congruence. }
  destruct (release_slot_ok (with_heap s2 h) r e2) as (s4 & Hrel & Hc4 & Hrl & Hsz4 & Hit4); [done..|].
  simpl in Hsz4, Hit4. exists s4, r. rewrite Hrem, Hset, Hev. simpl. rewrite Hrel. simpl.
  assert (∀ k, 0 <= k < dq_size s2 → item_at s4 k = item_at s2 k) as Hit.
  { intros k Hk. rewrite Hit4 by done. by apply Hit3. }
  split_and!; try done.
  - split; [done|]. unfold dq_heap_ok. rewrite Hsz4. eapply heap_ok_ext; [exact Hit|]. apply Hd.
  - rewrite <-(det_pending _ _ _ _ Hd). apply reflexive_eq. f_equal. unfold pending. rewrite Hsz4.
    by apply (content_ext (item_at s2)).
  - destruct Hrl as (Hr1 & Hr2 & Hr3). simpl in *. split_and!.
    + rewrite Hr1. apply Hd.
    + rewrite Hr2. apply Hd.
    + intros slot e' He'. destruct (Hr3 slot e' He') as (e1 & He1 & Hx).
      pose proof (det_entries _ _ _ _ Hd slot) as Hent. rewrite He1 in Hent.
      destruct (aget (dq_entries s) slot) as [e0|]; [|done]. injection Hent as _ _ Hg Ha.
      exists e0. rewrite <-Hg, <-Ha, <-(det_free _ _ _ _ Hd). done.
Qed.

(** Putting a free slot behind the last heap position. *)
Lemma schedule_place_ok s slot e d t :
  dq_inv s → dq_next_order s ≠ UINT64_MAX → 0 < dq_free_count s →
  aget (dq_free_slots s) (dq_free_count s - 1) = Some slot → aget (dq_entries s) slot = Some e →
  de_active e = false → 0 < de_generation e →
  let ev := SaltsDeadlineEvent (salts_deadline_make_id slot (de_generation e)) d t in
  let entry := SaltsDeadlineEntry ev (dq_next_order s) (u32 (dq_size s)) (de_generation e) true in
  ∃ es h, aset (dq_entries s) slot entry = Some es ∧ aset (dq_heap s) (dq_size s) slot = Some h ∧
    let s' := SaltsDeadlineQueueImpl es h (dq_free_slots s) (dq_size s + 1) (dq_free_count s - 1)
                (dq_capacity s) (u64 (dq_next_order s + 1)) in
    dq_core None s' ∧ item_at s' (dq_size s) = (ev, dq_next_order s) ∧
    ∀ k, 0 <= k < dq_size s → item_at s' k = item_at s k.
Proof.
  intros [Hc Hh] Hord Hfc Hslot He Hae Hge ev entry.
  pose proof (core_lens _ _ Hc) as (Hl1 & Hl2 & Hl3).
  pose proof (core_count _ _ Hc) as Hcnt. pose proof (core_cap _ _ Hc) as Hcap.
  pose proof (core_next _ _ Hc) as Hno.
  destruct (aset_is_Some (dq_entries s) slot entry) as [es Hes]; [by apply aget_Some in He as [? _]|].
  destruct (aset_is_Some (dq_heap s) (dq_size s) slot) as [h Hset]; [lia|].
  exists es, h. split; [done|]. split; [done|]. intros s'.
  pose proof (λ k, aget_aset _ _ _ _ k Hes) as Hget. pose proof (λ k, aget_aset _ _ _ _ k Hset) as Hhget.
  assert (u64 (dq_next_order s + 1) = dq_next_order s + 1) as Hno1 by (apply u64_id; unfold_words; lia).
  assert (u32 (dq_size s) = dq_size s) as Hsz by (apply u32_id; unfold_words; lia).
  assert (∀ c ec k, aget (dq_heap s) k = Some c → 0 <= k < dq_size s → aget (dq_entries s) c = Some ec →
            (c =? slot) = false) as Hother.
  { intros c ec k H1 H2 H3. apply Z.eqb_neq. intros ->.
    destruct (core_heap _ _ Hc k H2) as (c' & ec' & ? & ? & ? & _). simplify_eq. congruence. }
  split; [|split].
  - split; simpl; rewrite ?Hno1, ?(aset_alen _ _ _ _ Hes), ?(aset_alen _ _ _ _ Hset); try done.
    + lia.
    + unfold_words; lia.
    + intros k Hk. rewrite Hhget. destruct (Z.eqb_spec k (dq_size s)) as [->|].
      * exists slot, entry. rewrite Hget, Z.eqb_refl. done.
      * destruct (core_heap _ _ Hc k) as (c & ec & H1 & H2 & H3 & H4 & H5); [lia|].
        exists c, ec. rewrite Hget, (Hother c ec k) by (done || lia). done.
    + intros c ec. rewrite Hget. destruct (Z.eqb_spec c slot) as [->|].
      * intros [= <-] _. simpl. rewrite Hsz. unfold_words. split_and!; try done; try lia.
        intros _. rewrite Hhget, Z.eqb_refl. split; [lia|done].
      * intros H1 H2. destruct (core_active _ _ Hc c ec) as (? & ? & ? & Hx); [done..|].
        destruct Hx as [Hx1 Hx2]; [done|]. split_and!; try done; try lia. intros _. split; [lia|].
        by rewrite Hhget, (proj2 (Z.eqb_neq _ (dq_size s))) by lia.
    + intros c ec. rewrite Hget. destruct (Z.eqb_spec c slot) as [->|]; [|apply (core_gen _ _ Hc)].
      intros [= <-]. exact (core_gen _ _ Hc slot e He).
    + intros k Hk. destruct (core_free _ _ Hc k) as (c & ec & H1 & H2 & H3 & H4); [lia|].
      exists c, ec. rewrite Hget, (proj2 (Z.eqb_neq c slot)); [done|]. intros ->.
      assert (k = dq_free_count s - 1); [|lia].
      apply (core_free_inj _ _ Hc _ _ slot); (done || lia).
    + intros k k' c H1 H2. apply (core_free_inj _ _ Hc); lia.
    + intros c c' ec ec'. rewrite !Hget.
      destruct (Z.eqb_spec c slot) as [->|], (Z.eqb_spec c' slot) as [->|]; [done|..].
      * intros [= <-] H1 _ H2. simpl. destruct (core_active _ _ Hc c' ec') as (_ & _ & ? & _); [done..|]. lia.
      * intros H1 [= <-] H2 _. simpl. destruct (core_active _ _ Hc c ec) as (_ & _ & ? & _); [done..|]. lia.
      * apply (core_order_inj _ _ Hc).
  - unfold item_at. simpl. rewrite Hhget, Z.eqb_refl. simpl. by rewrite Hget, Z.eqb_refl.
  - intros k Hk. unfold item_at. simpl. rewrite Hhget, (proj2 (Z.eqb_neq k (dq_size s))) by lia.
    destruct (core_heap _ _ Hc k Hk) as (c & ec & H1 & H2 & _). rewrite H1. simpl.
    by rewrite Hget, (Hother c ec k).
Qed.

(** What scheduling in slot [r] does to the entries. *)
Definition claimed (r : Z) (s s' : salts_deadline_queue_impl) : Prop :=
  dq_capacity s' = dq_capacity s ∧ dq_next_order s' = dq_next_order s + 1 ∧
  dq_free_count s' = dq_free_count s - 1 ∧
  ∀ slot e', aget (dq_entries s') slot = Some e' →
    ∃ e, aget (dq_entries s) slot = Some e ∧ de_generation e' = de_generation e ∧
      (if slot =? r then de_active e = false ∧ de_active e' = true ∧ 0 < de_generation e
       else de_active e' = de_active e).

Lemma schedule_ok s d t :
  dq_inv s → dq_free_count s ≠ 0 → dq_next_order s ≠ UINT64_MAX →
  ∃ slot e s', let id := salts_deadline_make_id slot (de_generation e) in
    aget (dq_entries s) slot = Some e ∧ de_active e = false ∧ 0 < de_generation e ∧
    deadline_schedule s d t = Some (SALTS_OK, id, s') ∧ dq_inv s' ∧ claimed slot s s' ∧
    pending s' ≡ₚ (SaltsDeadlineEvent id d t, dq_next_order s) :: pending s.
Proof.
  intros Hinv Hfc Hord. pose proof Hinv as [Hc Hh]. pose proof (core_count _ _ Hc) as Hcnt.
  pose proof (core_next _ _ Hc) as Hno.
  destruct (core_free _ _ Hc (dq_free_count s - 1)) as (slot & e & Hslot & He & Hae & Hge); [lia|].
  destruct (schedule_place_ok s slot e d t) as (es & h & Hes & Hset & Hc1 & Hnew & Hold);
    [done|done|lia|done|done|done|done|].
  match type of Hc1 with dq_core None ?x => set (s1 := x) in * end.
  destruct (deadline_sift_up_ok None s1 (dq_size s)) as (s2 & Hsift & Hc2 & Hst & Hh2 & Hp2);
    [done|by apply (append_up (item_at s)); [lia|..]|simpl; lia|].
  exists slot, e, s2. split_and!; try done.
  - unfold deadline_schedule.
    rewrite (proj2 (Z.eqb_neq _ _) Hfc), (proj2 (Z.eqb_neq _ _) Hord), Hslot. simpl.
    rewrite He. simpl. rewrite Hae, (proj2 (Z.eqb_neq (de_generation e) 0)) by lia. simpl.
    rewrite Hes. simpl. rewrite Hset. simpl. unfold with_heap, with_order. simpl.
    fold s1. by rewrite Hsift.
  - pose proof Hst as (_ & _ & Hfc2 & Hcap2 & Hno2 & _). split; [done|]. split.
    { rewrite Hno2. simpl. apply u64_id. unfold_words. lia. }
    split; [by rewrite Hfc2|].
    intros c e' He'. destruct (same_static_entry _ _ _ _ Hst He') as (e1 & He1 & _ & _ & -> & ->).
    simpl in He1. rewrite (aget_aset _ _ _ _ c Hes) in He1.
    destruct (Z.eqb_spec c slot) as [->|]; [|by eauto].
    injection He1 as <-. exists e. simpl. by split_and!.
  - rewrite Hp2. unfold pending. simpl. etrans; [apply reflexive_eq, content_snoc; lia|].
    rewrite Hnew, <-Permutation_cons_append. apply reflexive_eq. f_equal. by apply content_ext.
Qed.

(** ** Ids *)

Lemma make_id_val slot g :
  0 <= slot < UINT32_MAX → is_u32 g → salts_deadline_make_id slot g = g * 2 ^ 32 + (slot + 1).
Proof.
  intros Hs Hg. unfold salts_deadline_make_id.
  rewrite Z.shiftl_mul_pow2, !u64_id by (unfold_words; lia).
  rewrite <-Z.shiftl_mul_pow2, lor_shiftl_add by (unfold_words; lia).
  rewrite Z.shiftl_mul_pow2 by lia. done.
Qed.

Lemma make_id_inj slot g slot' g' :
  0 <= slot < UINT32_MAX → is_u32 g → 0 <= slot' < UINT32_MAX → is_u32 g' →
  salts_deadline_make_id slot g = salts_deadline_make_id slot' g' → slot = slot' ∧ g = g'.
Proof. intros. rewrite !make_id_val in * by done. unfold_words. lia. Qed.

(** Decoding is the inverse of encoding, and fails on every other id. *)
Lemma decode_id_spec id slot g :
  is_u64 id →
  salts_deadline_decode_id id = Some (slot, g) ↔
  0 <= slot < UINT32_MAX ∧ 0 < g ∧ is_u32 g ∧ id = salts_deadline_make_id slot g.
Proof.
  intros Hid. unfold salts_deadline_decode_id. rewrite shiftr_div by lia.
  change (2 ^ 32) with 4294967296. split.
  - destruct (Z.eqb_spec (u32 id) 0); [done|].
    destruct (Z.eqb_spec (u32 (id / 4294967296)) 0); [done|]. simpl. intros [= <- <-].
    rewrite make_id_val by word_lia. word_lia.
  - intros (Hs & Hg & Hg' & ->). rewrite make_id_val by done.
    assert (u32 (g * 2 ^ 32 + (slot + 1)) = slot + 1) as -> by word_lia.
    assert (u32 ((g * 2 ^ 32 + (slot + 1)) / 4294967296) = g) as -> by word_lia.
    rewrite (proj2 (Z.eqb_neq (slot + 1) 0)), (proj2 (Z.eqb_neq g 0)) by lia. simpl.
    by replace (slot + 1 - 1) with slot by lia.
Qed.

(** An active entry is at its heap position, under its id. *)
Lemma active_item s slot e :
  dq_inv s → aget (dq_entries s) slot = Some e → de_active e = true →
  0 <= de_heap_index e < dq_size s ∧ item_at s (de_heap_index e) = item_of e ∧
  ev_id (de_event e) = salts_deadline_make_id slot (de_generation e).
Proof.
  intros [Hc _] He Ha. destruct (core_active _ _ Hc slot e He Ha) as (Hid & _ & _ & Hx).
  destruct Hx as [Hi Hh]; [done|]. split_and!; try done; try lia.
  unfold item_at. rewrite Hh. simpl. by rewrite He.
Qed.

Lemma slot_range s slot e : dq_inv s → aget (dq_entries s) slot = Some e → 0 <= slot < UINT32_MAX.
Proof.
  intros [Hc _] He. apply aget_Some in He as [? _]. pose proof (core_lens _ _ Hc).
  pose proof (core_cap _ _ Hc). lia.
Qed.

Definition ids (p : list item) : list Z := map (λ x, ev_id x.1) p.

Lemma pending_lookup s x :
  x ∈ pending s ↔ ∃ i, 0 <= i < dq_size s ∧ x = item_at s i.
Proof.
  unfold pending. rewrite list_elem_of_fmap. split.
  - intros (i & -> & Hi%elem_of_seqZ). exists i. split; [lia|done].
  - intros (i & Hi & ->). exists i. rewrite elem_of_seqZ. split; [done|lia].
Qed.

Lemma pending_entry s x :
  dq_inv s → x ∈ pending s → ∃ slot e, aget (dq_entries s) slot = Some e ∧ de_active e = true ∧
    x = item_of e ∧ ev_id x.1 = salts_deadline_make_id slot (de_generation e).
Proof.
  intros Hinv (i & Hi & ->)%pending_lookup. pose proof Hinv as [Hc _].
  destruct (core_heap _ _ Hc i Hi) as (slot & e & Hslot & He & Ha & Hidx & _).
  destruct (active_item s slot e) as (_ & Hit & Hid); [done..|]. rewrite Hidx in Hit.
  exists slot, e. rewrite Hit. done.
Qed.

Lemma pending_length s : dq_inv s → Z.of_nat (length (pending s)) = dq_size s.
Proof.
  intros [Hc _]. unfold pending. rewrite length_map, length_seqZ.
  pose proof (core_count _ _ Hc). lia.
Qed.

(** ** Retired slots *)

Definition gen_at (s : salts_deadline_queue_impl) (k : Z) : Z :=
  match aget (dq_entries s) k with Some e => de_generation e | None => 1 end.

(** How many slots have used up their generations. *)
Definition retired (s : salts_deadline_queue_impl) : Z :=
  Z.of_nat (length (filter (λ k, gen_at s k = 0) (seqZ 0 (dq_capacity s)))).

(** Every slot is pending, free or retired. *)
Definition balanced (s : salts_deadline_queue_impl) : Prop :=
  dq_size s + dq_free_count s + retired s = dq_capacity s.

Lemma retired_same s s' :
  dq_capacity s' = dq_capacity s →
  (∀ k, 0 <= k < dq_capacity s → (gen_at s' k = 0 ↔ gen_at s k = 0)) → retired s' = retired s.
Proof.
  intros Hcap Hg. unfold retired. rewrite Hcap. f_equal. f_equal. apply filter_ext_in.
  intros k Hk%elem_of_seqZ. apply Hg. lia.
Qed.

Lemma gen_at_entry s k e : aget (dq_entries s) k = Some e → gen_at s k = de_generation e.
Proof. unfold gen_at. by intros ->. Qed.

Lemma claimed_balanced r s s' :
  dq_inv s → dq_inv s' → claimed r s s' → dq_size s' = dq_size s + 1 → balanced s →
  balanced s' ∧ retired s' = retired s.
Proof.
  intros [Hc _] [Hc' _] (Hcap & _ & Hfc & He) Hsz Hb.
  assert (retired s' = retired s) as Hr.
  { apply retired_same; [done|]. intros k Hk. pose proof (core_lens _ _ Hc') as (Hl & _).
    destruct (aget_in_bounds (dq_entries s') k) as [e' He']; [lia|].
    destruct (He k e' He') as (e & He0 & Hg & _). by rewrite (gen_at_entry _ _ _ He'),
      (gen_at_entry _ _ _ He0), Hg. }
  split; [|done]. unfold balanced in *. lia.
Qed.

Lemma released_balanced r s s' :
  dq_inv s → dq_inv s' → released r s s' → 0 <= r < dq_capacity s → dq_size s' = dq_size s - 1 →
  balanced s → balanced s' ∧ retired s <= retired s' <= retired s + 1.
Proof.
  intros [Hc _] [Hc' _] (Hcap & _ & He) Hr Hsz Hb. pose proof (core_lens _ _ Hc') as (Hl & _).
  assert (∀ k, 0 <= k < dq_capacity s → k ≠ r → (gen_at s' k = 0 ↔ gen_at s k = 0)) as Hother.
  { intros k Hk Hkr. destruct (aget_in_bounds (dq_entries s') k) as [e' He']; [lia|].
    destruct (He k e' He') as (e & He0 & Hx). rewrite (proj2 (Z.eqb_neq k r)) in Hx by done.
    rewrite (gen_at_entry _ _ _ He'), (gen_at_entry _ _ _ He0). by rewrite (proj1 Hx). }
  destruct (aget_in_bounds (dq_entries s') r) as [e' He']; [lia|].
  destruct (He r e' He') as (e & He0 & Hx). rewrite Z.eqb_refl in Hx.
  destruct Hx as (_ & Hge & [[Hg Hfc]|[Hg Hfc]]).
  - assert (retired s' = retired s).
    { apply retired_same; [done|]. intros k Hk. destruct (decide (k = r)) as [->|]; [|by apply Hother].
      rewrite (gen_at_entry _ _ _ He'), (gen_at_entry _ _ _ He0). lia. }
    unfold balanced in *. lia.
  - assert (retired s' = retired s + 1).
    { unfold retired. rewrite Hcap. rewrite (filter_add_one (λ k, gen_at s k = 0) _ _ r).
      - lia.
      - apply NoDup_seqZ.
      - apply elem_of_seqZ. lia.
      - rewrite (gen_at_entry _ _ _ He0). lia.
      - by rewrite (gen_at_entry _ _ _ He').
      - intros k Hk%elem_of_seqZ Hkr. by rewrite Hother by (done || lia). }
    unfold balanced in *. lia.
Qed.

(** ** The abstract deadline queue

    Its state is the pending events with their order numbers, the next order
    number and the number of retired slots. *)

Record aqueue := AQueue { aq_pending : list item; aq_next : Z; aq_retired : Z }.

Inductive dq_op :=
  | DSchedule (deadline_ms token : Z)
  | DCancel (id : Z)
  | DPeek
  | DTakeReady (now_ms : Z).

Inductive dq_answer :=
  | AnsId (code : salts_code) (id : Z)
  | AnsEvent (code : salts_code) (ev : salts_deadline_event).

(** [x] is before every event of [p]: an earlier deadline, or the same one
    and scheduled first. *)
Definition earliest (x : item) (p : list item) : Prop :=
  x ∈ p ∧ ∀ y, y ∈ p → item_lt y x = false.

(** Taking [x] out; its slot may be retired. *)
Definition aq_removed (x : item) (q q' : aqueue) : Prop :=
  x :: aq_pending q' ≡ₚ aq_pending q ∧ aq_next q' = aq_next q ∧
  aq_retired q <= aq_retired q' <= aq_retired q + 1.

Inductive aq_step (cap : Z) (q : aqueue) : dq_op → dq_answer → aqueue → Prop :=
  | aq_full d t :
      Z.of_nat (length (aq_pending q)) + aq_retired q = cap →
      aq_step cap q (DSchedule d t) (AnsId SALTS_ENOBUFS 0) q
  | aq_exhausted d t :
      Z.of_nat (length (aq_pending q)) + aq_retired q < cap → aq_next q = UINT64_MAX →
      aq_step cap q (DSchedule d t) (AnsId SALTS_ERANGE 0) q
  | aq_schedule d t id q' :
      Z.of_nat (length (aq_pending q)) + aq_retired q < cap → aq_next q < UINT64_MAX →
      is_u64 id → id ≠ 0 → id ∉ ids (aq_pending q) →
      aq_pending q' ≡ₚ (SaltsDeadlineEvent id d t, aq_next q) :: aq_pending q →
      aq_next q' = aq_next q + 1 → aq_retired q' = aq_retired q →
      aq_step cap q (DSchedule d t) (AnsId SALTS_OK id) q'
  | aq_cancel_none id code :
      id ∉ ids (aq_pending q) → code = SALTS_EINVAL ∨ code = SALTS_ENOENT →
      aq_step cap q (DCancel id) (AnsEvent code event_zero) q
  | aq_cancel x q' :
      x ∈ aq_pending q → aq_removed x q q' →
      aq_step cap q (DCancel (ev_id x.1)) (AnsEvent SALTS_OK x.1) q'
  | aq_peek_empty :
      aq_pending q = [] → aq_step cap q DPeek (AnsEvent SALTS_ETIMEDOUT event_zero) q
  | aq_peek x : earliest x (aq_pending q) → aq_step cap q DPeek (AnsEvent SALTS_OK x.1) q
  | aq_take_none now :
      (∀ x, x ∈ aq_pending q → now < ev_deadline_ms x.1) →
      aq_step cap q (DTakeReady now) (AnsEvent SALTS_ETIMEDOUT event_zero) q
  | aq_take now x q' :
      earliest x (aq_pending q) → ev_deadline_ms x.1 <= now → aq_removed x q q' →
      aq_step cap q (DTakeReady now) (AnsEvent SALTS_OK x.1) q'.

Inductive aq_run (cap : Z) : aqueue → list dq_op → list dq_answer → aqueue → Prop :=
  | aq_nil q : aq_run cap q [] [] q
  | aq_cons q op ops a l q1 q2 :
      aq_step cap q op a q1 → aq_run cap q1 ops l q2 → aq_run cap q (op :: ops) (a :: l) q2.

(** ** The implementation, as a machine *)

Definition dq_exec (s : salts_deadline_queue_impl) (op : dq_op) :
    option (dq_answer * salts_deadline_queue_impl) :=
  match op with
  | DSchedule d t => '(code, id, s) ← deadline_schedule s d t; Some (AnsId code id, s)
  | DCancel id => '(code, ev, s) ← deadline_cancel s id; Some (AnsEvent code ev, s)
  | DPeek => '(code, ev) ← deadline_peek s; Some (AnsEvent code ev, s)
  | DTakeReady now => '(code, ev, s) ← deadline_take_ready s now; Some (AnsEvent code ev, s)
  end.

Fixpoint dq_run (s : salts_deadline_queue_impl) (ops : list dq_op) :
    option (list dq_answer * salts_deadline_queue_impl) :=
  match ops with
  | [] => Some ([], s)
  | op :: ops =>
      '(a, s) ← dq_exec s op;
      '(l, s) ← dq_run s ops;
      Some (a :: l, s)
  end.

Definition dq_abs (s : salts_deadline_queue_impl) : aqueue :=
  AQueue (pending s) (dq_next_order s) (retired s).

(** Deadlines, tokens and ids are [uint64_t]. *)
Definition op_ok (op : dq_op) : Prop :=
  match op with
  | DSchedule d t => is_u64 d ∧ is_u64 t
  | DCancel id => is_u64 id
  | DPeek => True
  | DTakeReady now => is_u64 now
  end.

(** How an operation touches the slots; what the id argument needs. *)
Definition slots_step (s : salts_deadline_queue_impl) (a : dq_answer)
    (s' : salts_deadline_queue_impl) : Prop :=
  (∃ slot e, aget (dq_entries s) slot = Some e ∧ claimed slot s s' ∧
     de_active e = false ∧ 0 < de_generation e ∧
     a = AnsId SALTS_OK (salts_deadline_make_id slot (de_generation e))) ∨
  ((∀ id, a ≠ AnsId SALTS_OK id) ∧ (s' = s ∨ ∃ r, released r s s')).

Definition dq_good (s : salts_deadline_queue_impl) : Prop := dq_inv s ∧ balanced s.

Lemma head_earliest s : dq_inv s → 0 < dq_size s → earliest (item_at s 0) (pending s).
Proof.
  intros Hinv Hs. split; [apply pending_lookup; exists 0; split; [lia|done]|].
  intros y (i & Hi & ->)%pending_lookup. apply (heap_root (lt := item_lt) (n := dq_size s) (get := item_at)).
  - apply Hinv.
  - lia.
Qed.

(** Removing heap position [i], at the abstract level. *)
Lemma remove_abs s i :
  dq_good s → 0 <= i < dq_size s →
  ∃ s' r, salts_deadline_remove s i = Some (s', (item_at s i).1) ∧ dq_good s' ∧
    aq_removed (item_at s i) (dq_abs s) (dq_abs s') ∧ released r s s' ∧
    dq_capacity s' = dq_capacity s.
Proof.
  intros [Hinv Hb] Hi. destruct (remove_ok s i Hinv Hi) as (s' & r & Hr & Hrem & Hinv' & Hp & Hrel).
  exists s', r.
  assert (dq_size s' = dq_size s - 1).
  { rewrite <-!pending_length by done. rewrite <-Hp. simpl. lia. }
  assert (0 <= r < dq_capacity s).
  { pose proof Hinv as [Hc _]. destruct (core_heap _ _ Hc i Hi) as (r' & e & Hr' & He & _).
    rewrite Hr in Hr'. injection Hr' as <-. apply aget_Some in He as [? _].
    pose proof (core_lens _ _ Hc). lia. }
  destruct (released_balanced r s s') as [Hb' Hret]; [done..|].
  split; [done|]. split; [done|]. split; [|split; [done|apply Hrel]].
  split; [done|]. split; [apply Hrel|done].
Qed.

Lemma schedule_step s d t :
  dq_good s →
  ∃ a s', dq_exec s (DSchedule d t) = Some (a, s') ∧ dq_good s' ∧ dq_capacity s' = dq_capacity s ∧
    aq_step (dq_capacity s) (dq_abs s) (DSchedule d t) a (dq_abs s') ∧ slots_step s a s'.
Proof.
  intros Hgood. pose proof Hgood as [Hinv Hb]. pose proof Hinv as [Hc _].
  pose proof (core_count _ _ Hc) as Hcnt. pose proof (core_next _ _ Hc) as Hno.
  pose proof (pending_length s Hinv) as Hlen. unfold balanced in Hb.
  cbn [dq_exec]. destruct (decide (dq_free_count s = 0)) as [Hfc|Hfc].
  { exists (AnsId SALTS_ENOBUFS 0), s. unfold deadline_schedule. rewrite Hfc. simpl.
    split_and!; try done; [apply aq_full; simpl; lia|right; split; [done|by left]]. }
  destruct (decide (dq_next_order s = UINT64_MAX)) as [Ho|Ho].
  { exists (AnsId SALTS_ERANGE 0), s. unfold deadline_schedule.
    rewrite (proj2 (Z.eqb_neq _ _) Hfc), Ho. simpl.
    split_and!; try done; [apply aq_exhausted; simpl; lia|right; split; [done|by left]]. }
  destruct (schedule_ok s d t) as (slot & e & s' & He & Hae & Hge & Hrun & Hinv' & Hcl & Hp); [done..|].
  set (id := salts_deadline_make_id slot (de_generation e)) in *.
  assert (is_u32 (de_generation e)) as Hgu by apply (core_gen _ _ Hc slot e He).
  pose proof (slot_range s slot e Hinv He) as Hslot.
  assert (dq_size s' = dq_size s + 1) as Hsz.
  { rewrite <-!pending_length by done. rewrite Hp. simpl. lia. }
  destruct (claimed_balanced slot s s') as [Hb' Hret]; [done..|].
  exists (AnsId SALTS_OK id), s'. rewrite Hrun. simpl. split_and!; try done; [apply Hcl| |].
  - unfold is_u64 in Hno. apply aq_schedule; simpl; try done; try lia; try apply Hcl.
    + unfold id. rewrite make_id_val by done. unfold_words. lia.
    + unfold id. rewrite make_id_val by done. unfold_words. lia.
    + unfold ids. rewrite list_elem_of_fmap. intros (x & Hx & Hin).
      destruct (pending_entry s x Hinv Hin) as (slot' & e' & He' & Ha' & _ & Hid).
      pose proof (slot_range s slot' e' Hinv He'). pose proof (core_gen _ _ Hc slot' e' He').
      rewrite Hid in Hx. apply make_id_inj in Hx as [-> _]; [congruence|done..].
  - left. by exists slot, e.
Qed.

Lemma cancel_step s id :
  dq_good s → is_u64 id →
  ∃ a s', dq_exec s (DCancel id) = Some (a, s') ∧ dq_good s' ∧ dq_capacity s' = dq_capacity s ∧
    aq_step (dq_capacity s) (dq_abs s) (DCancel id) a (dq_abs s') ∧ slots_step s a s'.
Proof.
  intros Hgood Hid. pose proof Hgood as [Hinv Hb]. pose proof Hinv as [Hc _].
  pose proof (core_lens _ _ Hc) as (Hl & _). pose proof (core_cap _ _ Hc) as Hcap.
  cbn [dq_exec]. unfold deadline_cancel.
  assert (∀ code, code = SALTS_EINVAL ∨ code = SALTS_ENOENT → id ∉ ids (pending s) →
    ∃ a s', Some (AnsEvent code event_zero, s) = Some (a, s') ∧ dq_good s' ∧
      dq_capacity s' = dq_capacity s ∧
      aq_step (dq_capacity s) (dq_abs s) (DCancel id) a (dq_abs s') ∧ slots_step s a s') as Hno.
  { intros code Hcode Hn. eexists _, _. split_and!; try done; [by apply aq_cancel_none|].
    right. split; [done|by left]. }
  assert (∀ x, x ∈ pending s → ev_id x.1 = id → ∃ slot e, aget (dq_entries s) slot = Some e ∧
      de_active e = true ∧ salts_deadline_decode_id id = Some (slot, de_generation e)) as Hdec.
  { intros x Hx <-. destruct (pending_entry s x Hinv Hx) as (slot & e & He & Ha & _ & Hxid).
    exists slot, e. split_and!; try done. apply decode_id_spec; [done|].
    pose proof (slot_range s slot e Hinv He). pose proof (core_gen _ _ Hc slot e He).
    destruct (core_active _ _ Hc slot e He Ha) as (_ & ? & _). split_and!; try done; lia. }
  assert (∀ slot g, salts_deadline_decode_id id = Some (slot, g) →
     (∀ e, aget (dq_entries s) slot = Some e → de_active e = true → de_generation e ≠ g) →
     id ∉ ids (pending s)) as Hnot.
  { intros slot g Hd Hx. unfold ids. rewrite list_elem_of_fmap. intros (x & Hxid & Hin).
    destruct (Hdec x Hin) as (slot' & e & He & Ha & Hd'); [done|].
    rewrite Hd in Hd'. injection Hd' as <- Hg. by eapply Hx. }
  destruct (salts_deadline_decode_id id) as [[slot g]|] eqn:Hd; simpl.
  2:{ apply Hno; [by left|]. unfold ids. rewrite list_elem_of_fmap. intros (x & Hxid & Hin).
      by destruct (Hdec x Hin) as (slot & e & _ & _ & ?). }
  destruct (Z.leb_spec (dq_capacity s) slot); simpl.
  { apply Hno; [by right|]. apply (Hnot slot g); [done|]. intros e [? _]%aget_Some. lia. }
  apply decode_id_spec in Hd as Hd'; [|done]. destruct Hd' as (Hslot & Hg & Hgu & Hidv).
  destruct (aget_in_bounds (dq_entries s) slot) as [e He]; [lia|]. rewrite He. simpl.
  destruct (de_active e) eqn:Ha; simpl.
  2:{ apply Hno; [by right|]. apply (Hnot slot g); [done|]. intros e' ? ?. congruence. }
  destruct (Z.eqb_spec (de_generation e) g) as [Hge|Hge]; simpl.
  2:{ apply Hno; [by right|]. apply (Hnot slot g); [done|]. intros e' ? ?. congruence. }
  destruct (active_item s slot e) as (Hi & Hit & Heid); [done..|].
  destruct (remove_abs s (de_heap_index e)) as (s' & r & -> & Hgood' & Hrem & Hrel & Hcap'); [done..|].
  simpl. rewrite Hit in *. eexists _, s'. split_and!; try done.
  - assert (id = ev_id (item_of e).1) as -> by (simpl; rewrite Heid, Hge; done).
    apply aq_cancel; [|done]. apply pending_lookup. exists (de_heap_index e). by rewrite Hit.
  - right. split; [done|]. right. by exists r.
Qed.

Lemma take_step s now :
  dq_good s →
  ∃ a s', dq_exec s (DTakeReady now) = Some (a, s') ∧ dq_good s' ∧ dq_capacity s' = dq_capacity s ∧
    aq_step (dq_capacity s) (dq_abs s) (DTakeReady now) a (dq_abs s') ∧ slots_step s a s'.
Proof.
  intros Hgood. pose proof Hgood as [Hinv Hb]. pose proof Hinv as [Hc _].
  pose proof (core_count _ _ Hc) as Hcnt. cbn [dq_exec]. unfold deadline_take_ready.
  destruct (Z.eqb_spec (dq_size s) 0) as [Hs|Hs]; simpl.
  { eexists _, s. split_and!; try done; [|right; split; [done|by left]].
    apply aq_take_none. intros x (i & Hi & _)%pending_lookup. lia. }
  destruct (head_earliest s) as [Hin Hmin]; [done|lia|].
  destruct (core_heap _ _ Hc 0) as (slot & e & Hslot & He & _); [lia|].
  assert (item_at s 0 = item_of e) as Hit by (unfold item_at; rewrite Hslot; simpl; by rewrite He).
  rewrite Hslot. simpl. rewrite He. simpl.
  destruct (Z.ltb_spec now (ev_deadline_ms (de_event e))) as [Hlt|Hge]; simpl.
  - eexists _, s. split_and!; try done; [|right; split; [done|by left]].
    apply aq_take_none. intros x Hx. specialize (Hmin x Hx). rewrite Hit in Hmin.
    unfold item_lt in Hmin. simpl in Hmin. lia.
  - destruct (remove_abs s 0) as (s' & r & -> & Hgood' & Hrem & Hrel & Hcap'); [done|lia|].
    simpl. eexists _, s'. split_and!; try done.
    + apply aq_take; [by split|by rewrite Hit|done].
    + right. split; [done|]. right. by exists r.
Qed.

Lemma peek_step s :
  dq_good s →
  ∃ a, dq_exec s DPeek = Some (a, s) ∧
    aq_step (dq_capacity s) (dq_abs s) DPeek a (dq_abs s) ∧ slots_step s a s.
Proof.
  intros Hgood. pose proof Hgood as [Hinv Hb]. pose proof Hinv as [Hc _].
  pose proof (core_count _ _ Hc) as Hcnt. cbn [dq_exec]. unfold deadline_peek.
  destruct (Z.eqb_spec (dq_size s) 0) as [Hs|Hs]; simpl.
  { eexists. split_and!; try done; [|right; split; [done|by left]]. apply aq_peek_empty. simpl.
    apply nil_length_inv. pose proof (pending_length s Hinv). lia. }
  destruct (core_heap _ _ Hc 0) as (slot & e & Hslot & He & _); [lia|].
  assert (item_at s 0 = item_of e) as Hit by (unfold item_at; rewrite Hslot; simpl; by rewrite He).
  rewrite Hslot. simpl. rewrite He. simpl.
  eexists. split_and!; try done; [|right; split; [done|by left]].
  change (de_event e) with (item_of e).1. rewrite <-Hit. apply aq_peek. apply head_earliest; [done|lia].
Qed.

(** One operation of the implementation is one step of the abstract queue. *)
Lemma dq_exec_step s op :
  dq_good s → op_ok op →
  ∃ a s', dq_exec s op = Some (a, s') ∧ dq_good s' ∧ dq_capacity s' = dq_capacity s ∧
    aq_step (dq_capacity s) (dq_abs s) op a (dq_abs s') ∧ slots_step s a s'.
Proof.
  intros Hg Hok. destruct op as [d t|id| |now].
  - by apply schedule_step.
  - by apply cancel_step.
  - destruct (peek_step s Hg) as (a & ? & ? & ?). by exists a, s.
  - by apply take_step.
Qed.

Lemma aget_replicate {A} n (x : A) k y : aget (replicate n x) k = Some y → y = x.
Proof. intros [_ H]%aget_Some. by apply lookup_replicate in H as [-> _]. Qed.

Lemma aget_map_seqZ {A} (f : Z → A) n k : 0 <= k < n → aget (map f (seqZ 0 n)) k = Some (f k).
Proof.
  intros Hk. unfold aget. destruct (Z.ltb_spec k 0); [lia|].
  rewrite list_lookup_fmap.
  assert (seqZ 0 n !! Z.to_nat k = Some k) as -> by (apply lookup_seqZ; lia). done.
Qed.

Lemma init_good cap :
  0 < cap <= UINT32_MAX →
  ∃ s, salts_deadline_queue_init true (Some None) cap = (SALTS_OK, Some (Some s)) ∧
    dq_good s ∧ dq_capacity s = cap ∧ dq_abs s = AQueue [] 0 0.
Proof.
  intros Hcap. unfold salts_deadline_queue_init.
  destruct (Z.eqb_spec cap 0); [lia|].
  assert ((UINT32_MAX <? cap) || (SIZE_MAX / sizeof_entry <? cap) || (SIZE_MAX / 4 <? cap) = false)
    as -> by (unfold sizeof_entry; word_lia).
  cbn [negb]. eexists. split; [done|].
  match goal with |- context [dq_good ?x] => set (s := x) end.
  assert (∀ k, 0 <= k < cap → aget (dq_free_slots s) k = Some (cap - k - 1)) as Hfree.
  { intros k Hk. simpl. rewrite aget_map_seqZ by done. rewrite u32_id; [done|]. unfold_words; lia. }
  assert (∀ k, 0 <= k < cap → ∃ e, aget (dq_entries s) k = Some e ∧ de_active e = false ∧
            de_generation e = 1) as Hent.
  { intros k Hk. simpl. destruct (aget_in_bounds (dq_entries s) k) as [e He].
    { simpl. unfold alen. rewrite length_replicate. lia. }
    exists e. split; [done|]. apply aget_replicate in He as ->. done. }
  assert (retired s = 0) as Hret.
  { unfold retired. rewrite (filter_ext_in _ (λ _, False)).
    - induction (seqZ 0 (dq_capacity s)) as [|x l IH]; [done|]. by rewrite filter_cons.
    - intros k Hk%elem_of_seqZ. simpl in Hk. destruct (Hent k) as (e & He & _ & Hg); [lia|].
      rewrite (gen_at_entry _ _ _ He). lia. }
  split_and!; [|done|].
  - split; [|unfold balanced; rewrite Hret; simpl; lia].
    split; [|intros j Hj; simpl in Hj; lia].
    split; simpl.
    + unfold alen. rewrite !length_replicate, length_map, length_seqZ. lia.
    + done.
    + lia.
    + unfold_words; lia.
    + lia.
    + intros slot e He. by apply aget_replicate in He as ->.
    + intros slot e He. apply aget_replicate in He as ->. simpl. unfold_words; lia.
    + intros k Hk. destruct (Hent (cap - k - 1)) as (e & He & Ha & Hg); [lia|].
      exists (cap - k - 1), e. split_and!; [by apply Hfree|done|done|lia].
    + intros k k' slot Hk Hk' H1 H2. pose proof (Hfree k Hk) as F1. pose proof (Hfree k' Hk') as F2.
      simpl in F1, F2. rewrite F1 in H1. rewrite F2 in H2. simplify_eq. lia.
    + intros slot slot' e e' He. by apply aget_replicate in He as ->.
  - unfold dq_abs. by rewrite Hret.
Qed.

Lemma dq_run_ok s ops :
  dq_good s → Forall op_ok ops →
  ∃ l s', dq_run s ops = Some (l, s') ∧ dq_good s' ∧
    aq_run (dq_capacity s) (dq_abs s) ops l (dq_abs s').
Proof.
  intros Hg Hops. revert s Hg. induction Hops as [|op ops Hop Hops IH]; intros s Hg.
  { exists [], s. split_and!; try done. constructor. }
  destruct (dq_exec_step s op) as (a & s1 & Hex & Hg1 & Hcap & Hst & _); [done..|].
  destruct (IH s1 Hg1) as (l & s2 & Hrun & Hg2 & Har).
  exists (a :: l), s2. simpl. rewrite Hex. simpl. rewrite Hrun. simpl.
  split_and!; try done. rewrite Hcap in Har. by econstructor.
Qed.

(** C25. The deadline queue refines the abstract one: from
    [salts_deadline_queue_init] on, every sequence of schedule, cancel, peek
    and take-ready calls runs without touching memory outside its arrays, the
    invariant (heap order, back pointers, disjoint free list, every slot
    pending, free or retired) holds at the end, and the answers are those of
    a set of pending events from which peek and take-ready pick the earliest
    deadline, first scheduled first. *)
Theorem deadline_queue_refines cap ops :
  0 < cap <= UINT32_MAX → Forall op_ok ops →
  ∃ s0 l s, salts_deadline_queue_init true (Some None) cap = (SALTS_OK, Some (Some s0)) ∧
    dq_run s0 ops = Some (l, s) ∧ dq_inv s ∧ balanced s ∧
    aq_run cap (AQueue [] 0 0) ops l (dq_abs s).
Proof.
  intros Hcap Hops. destruct (init_good cap Hcap) as (s0 & Hinit & Hg & Hc & Ha).
  destruct (dq_run_ok s0 ops Hg Hops) as (l & s & Hrun & [Hi Hb] & Har).
  exists s0, l, s. rewrite Hc, Ha in Har. done.
Qed.

Lemma deadline_queue_refines_witness :
  ∃ s0 l s, salts_deadline_queue_init true (Some None) 3 = (SALTS_OK, Some (Some s0)) ∧
    dq_run s0 [DSchedule 7 1; DSchedule 5 2; DTakeReady 6; DCancel 4294967299] = Some (l, s) ∧
    dq_inv s ∧ balanced s ∧
    aq_run 3 (AQueue [] 0 0) [DSchedule 7 1; DSchedule 5 2; DTakeReady 6; DCancel 4294967299]
      l (dq_abs s).
Proof.
  apply (deadline_queue_refines 3); [unfold_words; lia|].
  rewrite !Forall_cons, Forall_nil. unfold op_ok. unfold_words. lia.
Defined.

(** ** Ids are never issued twice *)

Definition issued (l : list dq_answer) : list Z :=
  omap (λ a, match a with AnsId SALTS_OK id => Some id | _ => None end) l.

(** [id] belongs to a generation of its slot that is current or past. *)
Definition used_id (s : salts_deadline_queue_impl) (id : Z) : Prop :=
  ∃ slot e g, aget (dq_entries s) slot = Some e ∧ id = salts_deadline_make_id slot g ∧
    is_u32 g ∧
    (g < de_generation e ∨ de_generation e = 0 ∨ (g = de_generation e ∧ de_active e = true)).

Lemma used_id_step s a s' id :
  dq_inv s → dq_inv s' → slots_step s a s' → used_id s id → used_id s' id.
Proof.
  intros Hinv Hinv' Hst (slot & e & g & He & -> & Hg & Hcase).
  assert (∃ e', dq_capacity s' = dq_capacity s → aget (dq_entries s') slot = Some e') as [e' He'].
  { destruct (aget (dq_entries s') slot) as [e'|] eqn:E; [by exists e'|]. exists e. intros Hcap.
    apply aget_None in E. apply aget_Some in He as [Hr _].
    pose proof (core_lens _ _ (proj1 Hinv)). pose proof (core_lens _ _ (proj1 Hinv')). lia. }
  destruct Hst as [(r & er & _ & (Hcap & _ & _ & Hx) & _ & _ & _)|[_ [->|(r & Hcap & _ & Hx)]]].
  - specialize (He' Hcap). destruct (Hx slot e' He') as (e0 & He0 & Hge & Hac).
    rewrite He in He0. injection He0 as <-.
    exists slot, e', g. split_and!; try done. rewrite Hge.
    destruct (Z.eqb_spec slot r); [|by rewrite Hac].
    destruct Hac as (H1 & H2 & H3). destruct Hcase as [?|[?|[? ?]]]; [lia|lia|congruence].
  - by exists slot, e, g.
  - specialize (He' Hcap). destruct (Hx slot e' He') as (e0 & He0 & Hac).
    rewrite He in He0. injection He0 as <-.
    exists slot, e', g. split_and!; try done.
    destruct (Z.eqb_spec slot r); [|by destruct Hac as [-> ->]].
    destruct Hac as (H1 & H2 & [[H3 _]|[H3 _]]); [lia|lia].
Qed.

Lemma issue_fresh s a s' id :
  dq_inv s → slots_step s a s' → used_id s id → a ≠ AnsId SALTS_OK id.
Proof.
  intros Hinv [(slot & e & He & _ & Ha & Hge & ->)|[Hn _]] Hu; [|by apply Hn].
  intros [= Hid]. destruct Hu as (slot' & e1 & g & He1 & -> & Hg & Hcase).
  pose proof (slot_range s slot e Hinv He). pose proof (slot_range s slot' e1 Hinv He1).
  pose proof (core_gen _ _ (proj1 Hinv) slot e He).
  apply make_id_inj in Hid as [<- Hge']; try done. rewrite He in He1. injection He1 as <-.
  destruct Hcase as [?|[?|[? ?]]]; [lia|lia|congruence].
Qed.

Lemma issue_used s id s' :
  dq_inv s → dq_inv s' → slots_step s (AnsId SALTS_OK id) s' → used_id s' id.
Proof.
  intros Hinv Hinv' [(slot & e & He & (Hcap & _ & _ & Hx) & _ & _ & [= ->])|[Hn _]]; [|by destruct (Hn id)].
  destruct (aget_in_bounds (dq_entries s') slot) as [e' He'].
  { apply aget_Some in He as [Hr _]. pose proof (core_lens _ _ (proj1 Hinv)).
    pose proof (core_lens _ _ (proj1 Hinv')). lia. }
  destruct (Hx slot e' He') as (e0 & He0 & Hge & Hac). rewrite He in He0. injection He0 as <-.
  rewrite Z.eqb_refl in Hac. exists slot, e', (de_generation e). rewrite Hge.
  split_and!; try done; [by apply (core_gen _ _ (proj1 Hinv) slot)|]. right. right. split; [done|apply Hac].
Qed.

Lemma issued_cons a l : issued (a :: l) = issued [a] ++ issued l.
Proof. by destruct a as [[]|]. Qed.

Lemma issued_one a : issued [a] = [] ∨ ∃ id, a = AnsId SALTS_OK id ∧ issued [a] = [id].
Proof. destruct a as [[] id|code ev]; eauto. Qed.

(** No id is ever issued twice in the life of a queue, across any number
    of cancellations and expiries and any reuse of slots: an id that was
    cancelled or has fired can only be refused. *)
Theorem deadline_ids_unique cap ops s0 l s :
  0 < cap <= UINT32_MAX → Forall op_ok ops →
  salts_deadline_queue_init true (Some None) cap = (SALTS_OK, Some (Some s0)) →
  dq_run s0 ops = Some (l, s) → NoDup (issued l).
Proof.
  intros Hcap Hops Hinit. destruct (init_good cap Hcap) as (s1 & Hinit' & Hg & _).
  rewrite Hinit in Hinit'. injection Hinit' as <-. clear Hinit.
  assert (∀ l s0 s, dq_good s0 → dq_run s0 ops = Some (l, s) →
    NoDup (issued l) ∧ ∀ id, used_id s0 id → id ∉ issued l) as Hmain.
  { clear Hcap Hg s0 l s. induction Hops as [|op ops Hop Hops IH]; intros l s0 s Hg.
    { intros [= <- <-]. split; [constructor|set_solver]. }
    destruct (dq_exec_step s0 op) as (a & s1 & Hex & Hg1 & _ & _ & Hst); [done..|].
    simpl. rewrite Hex. simpl. destruct (dq_run s1 ops) as [[l1 s2]|] eqn:Hrun; [|done].
    simpl. intros [= <- <-]. destruct (IH l1 s1 s2 Hg1 Hrun) as [Hnd Hfresh].
    pose proof Hg as [Hinv _]. pose proof Hg1 as [Hinv1 _].
    rewrite issued_cons.
    destruct (issued_one a) as [->|(id & -> & ->)]; simpl; [split; [done|]|split].
    - intros id Hu. eauto using used_id_step.
    - apply NoDup_cons. eauto using issue_used.
    - intros id' Hu. rewrite elem_of_cons. intros [->|Hin].
      + by destruct (issue_fresh _ _ _ _ Hinv Hst Hu).
      + by apply (Hfresh id' (used_id_step _ _ _ _ Hinv Hinv1 Hst Hu)). }
  intros Hrun. by eapply Hmain.
Qed.

Definition one_slot : salts_deadline_queue_impl :=
  SaltsDeadlineQueueImpl [SaltsDeadlineEntry event_zero 0 SALTS_DEADLINE_INDEX_NONE 1 false]
    [SALTS_DEADLINE_INDEX_NONE] [0] 0 1 1 0.

Lemma deadline_ids_unique_witness :
  salts_deadline_queue_init true (Some None) 1 = (SALTS_OK, Some (Some one_slot)) ∧
  ∃ l s, dq_run one_slot [DSchedule 7 1; DTakeReady 9; DSchedule 5 2] = Some (l, s) ∧
    issued l = [4294967297; 8589934593] ∧ NoDup (issued l).
Proof.
  split; [vm_compute; reflexivity|].
  destruct (dq_run one_slot [DSchedule 7 1; DTakeReady 9; DSchedule 5 2]) as [[l s]|] eqn:E;
    [|vm_compute in E; discriminate].
  exists l, s. split; [reflexivity|]. split.
  - assert (fst <$> dq_run one_slot [DSchedule 7 1; DTakeReady 9; DSchedule 5 2] = Some l) as E'
      by (rewrite E; reflexivity).
    vm_compute in E'. injection E' as <-. reflexivity.
  - apply (deadline_ids_unique 1 [DSchedule 7 1; DTakeReady 9; DSchedule 5 2] one_slot l s).
    + unfold_words; lia.
    + rewrite !Forall_cons, Forall_nil. unfold op_ok. unfold_words. lia.
    + vm_compute. reflexivity.
    + exact E.
Defined.

(** ** The interface of [EarliestQueue] *)

Definition deadline_take (s : salts_deadline_queue_impl) (now : Z) :
    option (option salts_deadline_event * salts_deadline_queue_impl) :=
  '(code, ev, s) ← deadline_take_ready s now;
  Some (if bool_decide (code = SALTS_OK) then Some ev else None, s).

#[export] Instance deadline_earliest_ops :
  EarliestOps salts_deadline_queue_impl item salts_deadline_event := {|
  eq_take := deadline_take;
  eq_pending := pending;
  eq_inv := dq_good;
  eq_deadline x := ev_deadline_ms x.1;
  eq_order x := x.2;
  eq_out x := x.1
|}.

#[export] Instance deadline_earliest :
  EarliestQueue salts_deadline_queue_impl item salts_deadline_event.
Proof.
  split. intros s now Hg. destruct (take_step s now Hg) as (a & s' & Hex & Hg' & _ & Hst & _).
  cbn [dq_exec] in Hex. unfold eq_take, deadline_earliest_ops, deadline_take.
  destruct (deadline_take_ready s now) as [[[code ev] s1]|] eqn:E; [|done]. simpl in Hex.
  injection Hex as <- <-. simpl. inversion Hst as [| | | | | | |now' Hn|now' x q' He Hd Hr]; subst.
  - eexists _, _. split; [done|]. split; [done|]. simpl. split; [|done].
    unfold deadline_take_ready in E. destruct (dq_size s =? 0); [by simplify_eq|].
    destruct (aget (dq_heap s) 0) as [slot|]; [|done]. simpl in E.
    destruct (aget (dq_entries s) slot) as [e|]; [|done]. simpl in E.
    destruct (now <? _); [by simplify_eq|].
    by destruct (salts_deadline_remove s 0) as [[? ?]|].
  - eexists _, _. split; [done|]. split; [done|]. simpl. destruct He as [Hin Hmin].
    exists x. split_and!; [done|apply Hr|done|]. intros y Hy. specialize (Hmin y Hy).
    unfold item_lt in Hmin. unfold before_eq. simpl. lia.
Qed.

(** Draining a deadline queue at time [now] (the loop of its clients) ends
    within one call per pending event plus one and hands out exactly the due
    events, sorted by deadline and in schedule order among equal deadlines;
    exactly the later ones stay. *)
Theorem deadline_drain_exact s now :
  dq_inv s → balanced s →
  ∃ l s', drain (S (Z.to_nat (dq_size s))) s now = Some (l, s') ∧ drained now s l s'.
Proof.
  intros Hinv Hb. apply drain_ok; [by split|]. simpl. pose proof (pending_length s Hinv). lia.
Qed.

Lemma deadline_drain_exact_witness :
  ∃ s, salts_deadline_queue_init true (Some None) 2 = (SALTS_OK, Some (Some s)) ∧
  ∃ l s', drain 1 s 5 = Some (l, s') ∧ drained 5 s l s'.
Proof.
  destruct (init_good 2) as (s & Hi & [Hinv Hb] & _); [unfold_words; lia|].
  exists s. split; [exact Hi|].
  assert (1%nat = S (Z.to_nat (dq_size s))) as ->.
  { assert (Some 0 = match (salts_deadline_queue_init true (Some None) 2).2 with
                     | Some (Some s) => Some (dq_size s) | _ => None end) as E by reflexivity.
    rewrite Hi in E. injection E as E. rewrite <-E. reflexivity. }
  exact (deadline_drain_exact s 5 Hinv Hb).
Defined.
