(* ===== verification/TimerQueue.v ===== *)
(** * CFlow time and timer queue ([cflow/include/cflow/time.h],
    [cflow/src/timer_queue.c])

    Saturating deadline arithmetic, and the array of pending timers that the
    schedulers scan for the earliest one. *)

From S2P Require Import Prelude EarliestQueue.
Local Open Scope Z_scope.

(** ** Time. [cflow_duration], [cflow_instant] and [cflow_deadline] are one
    [uint64_t] of nanoseconds each. *)

Definition cflow_u64_mul_sat (value scale : Z) : Z :=
  if negb (value =? 0) && (UINT64_MAX / value <? scale) then UINT64_MAX else u64 (value * scale).

Definition cflow_duration_from_us (us : Z) : Z := cflow_u64_mul_sat us 1000.
Definition cflow_duration_from_ms (ms : Z) : Z := cflow_u64_mul_sat ms 1000000.
Definition cflow_duration_from_s (seconds : Z) : Z := cflow_u64_mul_sat seconds 1000000000.

Definition cflow_deadline_after (now delay : Z) : Z :=
  if UINT64_MAX - now <? delay then UINT64_MAX else u64 (now + delay).

Definition cflow_instant_to_ms (value : Z) : Z := value / 1000000.

Definition cflow_deadline_remaining (deadline now : Z) : Z :=
  if now <? deadline then deadline - now else 0.

(** ** The queue *)

Inductive cflow_admission_status :=
  | CFLOW_ADMISSION_ACCEPTED
  | CFLOW_ADMISSION_INVALID_ARGUMENT
  | CFLOW_ADMISSION_FULL
  | CFLOW_ADMISSION_CLOSED
  | CFLOW_ADMISSION_ALLOCATION_FAILED.

#[export] Instance cflow_admission_status_eq_dec : EqDecision cflow_admission_status.
Proof. solve_decision. Defined.

(** Function and data pointers are addresses, 0 for [NULL]. *)
Record cflow_executor_task := CflowExecutorTask {
  et_run : Z;
  et_cancel : Z;
  et_finalize : Z;
  et_user : Z
}.

Record cflow_timer_task := CflowTimerTask {
  tt_id : Z;
  tt_deadline : Z;
  tt_order : Z;
  tt_fn : Z;
  tt_cancel : Z;
  tt_finalize : Z;
  tt_user : Z
}.

Definition cflow_timer_task_descriptor (task : option cflow_timer_task) : cflow_executor_task :=
  match task with
  | None => CflowExecutorTask 0 0 0 0
  | Some t => CflowExecutorTask (tt_fn t) (tt_cancel t) (tt_finalize t) (tt_user t)
  end.

Record cflow_timer_queue := CflowTimerQueue {
  tq_items : list cflow_timer_task;
  tq_count : Z;
  tq_capacity : Z;
  tq_next_id : Z;
  tq_next_order : Z
}.

Definition CFLOW_TIMER_DEFAULT_CAPACITY : Z := 4096.

(** [sizeof(cflow_timer_task)] on a 64-bit target. *)
Definition sizeof_timer_task : Z := 56.

Definition task_zero : cflow_timer_task := CflowTimerTask 0 0 0 0 0 0 0.
Definition queue_zero : cflow_timer_queue := CflowTimerQueue [] 0 0 0 0.

(** The test of the loop of [earliest_index]; [best] is an index in range. *)
Definition timer_before (candidate best : cflow_timer_task) : bool :=
  (tt_deadline candidate <? tt_deadline best) ||
  ((tt_deadline candidate =? tt_deadline best) && (tt_order candidate <? tt_order best)).

(** [n] rounds from [i]. *)
Fixpoint earliest_index_loop (n : nat) (q : cflow_timer_queue) (i best : Z) : option Z :=
  match n with
  | O => Some best
  | S n =>
      candidate ← aget (tq_items q) i;
      take ← (if best =? SIZE_MAX then Some true
              else b ← aget (tq_items q) best; Some (timer_before candidate b));
      earliest_index_loop n q (i + 1) (if take : bool then i else best)
  end.

Definition earliest_index (q : cflow_timer_queue) : option Z :=
  earliest_index_loop (Z.to_nat (tq_count q)) q 0 SIZE_MAX.

Definition tq_with (q : cflow_timer_queue) items count :=
  CflowTimerQueue items count (tq_capacity q) (tq_next_id q) (tq_next_order q).

Definition remove_at (q : cflow_timer_queue) (index : Z) : option cflow_timer_queue :=
  items ← (if index + 1 <? tq_count q
           then amove (tq_items q) index (index + 1) (tq_count q - index - 1)
           else Some (tq_items q));
  Some (tq_with q items (tq_count q - 1)).

(** The result and the queue; [alloc] tells whether [calloc] succeeds. *)
Definition cflow_timer_queue_init_with_capacity (alloc : bool) (queue : option cflow_timer_queue)
    (capacity : Z) : bool * option cflow_timer_queue :=
  match queue with
  | None => (false, None)
  | Some _ =>
      if (capacity =? 0) || (SIZE_MAX / sizeof_timer_task <? capacity)
      then (false, Some queue_zero) else
      if negb alloc then (false, Some queue_zero) else
      (true, Some (CflowTimerQueue (replicate (Z.to_nat capacity) task_zero) 0 capacity 1 0))
  end.

Definition cflow_timer_queue_init (alloc : bool) (queue : option cflow_timer_queue) :=
  cflow_timer_queue_init_with_capacity alloc queue CFLOW_TIMER_DEFAULT_CAPACITY.

Definition cflow_timer_queue_destroy (queue : option cflow_timer_queue) :
    option cflow_timer_queue :=
  match queue with None => None | Some _ => Some queue_zero end.

(** Status, task id and queue. *)
Definition cflow_timer_queue_try_schedule_task (queue : option cflow_timer_queue) (deadline : Z)
    (task : option cflow_executor_task) :
    option (cflow_admission_status * Z * option cflow_timer_queue) :=
  match queue, task with
  | Some q, Some t =>
      if et_run t =? 0 then Some (CFLOW_ADMISSION_INVALID_ARGUMENT, 0, queue) else
      if (tq_capacity q <=? tq_count q) || (tq_next_id q =? 0) || (tq_next_order q =? UINT64_MAX)
      then Some (CFLOW_ADMISSION_FULL, 0, queue) else
      let id := tq_next_id q in
      items ← aset (tq_items q) (tq_count q)
                (CflowTimerTask id deadline (tq_next_order q) (et_run t) (et_cancel t)
                   (et_finalize t) (et_user t));
      Some (CFLOW_ADMISSION_ACCEPTED, id,
        Some (CflowTimerQueue items (tq_count q + 1) (tq_capacity q) (u64 (tq_next_id q + 1))
                (u64 (tq_next_order q + 1))))
  | _, _ => Some (CFLOW_ADMISSION_INVALID_ARGUMENT, 0, queue)
  end.

Definition cflow_timer_queue_try_schedule (queue : option cflow_timer_queue) (deadline fn user : Z) :=
  cflow_timer_queue_try_schedule_task queue deadline (Some (CflowExecutorTask fn 0 0 user)).

Definition cflow_timer_queue_schedule (queue : option cflow_timer_queue) (deadline fn user : Z) :
    option (Z * option cflow_timer_queue) :=
  '(_, id, q) ← cflow_timer_queue_try_schedule queue deadline fn user; Some (id, q).

(** The loop of [cflow_timer_queue_take]: the index of the first match. *)
Fixpoint take_loop (n : nat) (q : cflow_timer_queue) (id i : Z) :
    option (option (Z * cflow_timer_task)) :=
  match n with
  | O => Some None
  | S n =>
      t ← aget (tq_items q) i;
      if tt_id t =? id then Some (Some (i, t)) else take_loop n q id (i + 1)
  end.

(** Results with [*out]: [None] for false. A NULL queue or output is
    [None]. *)
Definition cflow_timer_queue_take (queue : option cflow_timer_queue) (id : Z)
    (out : option cflow_timer_task) :
    option (option cflow_timer_task * option cflow_timer_queue) :=
  match queue, out with
  | Some q, Some _ =>
      if id =? 0 then Some (None, queue) else
      r ← take_loop (Z.to_nat (tq_count q)) q id 0;
      match r with
      | None => Some (None, queue)
      | Some (i, t) => q ← remove_at q i; Some (Some t, Some q)
      end
  | _, _ => Some (None, queue)
  end.

Definition cflow_timer_queue_cancel (queue : option cflow_timer_queue) (id : Z) :
    option (bool * option cflow_timer_queue) :=
  '(r, q) ← cflow_timer_queue_take queue id (Some task_zero);
  Some (match r with Some _ => true | None => false end, q).

Definition cflow_timer_queue_take_any (queue : option cflow_timer_queue)
    (out : option cflow_timer_task) :
    option (option cflow_timer_task * option cflow_timer_queue) :=
  match queue, out with
  | Some q, Some _ =>
      if tq_count q =? 0 then Some (None, queue) else
      t ← aget (tq_items q) (tq_count q - 1);
      Some (Some t, Some (tq_with q (tq_items q) (tq_count q - 1)))
  | _, _ => Some (None, queue)
  end.

Definition cflow_timer_queue_next_deadline (queue : option cflow_timer_queue) (out : option Z) :
    option (option Z) :=
  match queue, out with
  | Some q, Some _ =>
      if tq_count q =? 0 then Some None else
      index ← earliest_index q;
      if index =? SIZE_MAX then Some None else
      t ← aget (tq_items q) index;
      Some (Some (tt_deadline t))
  | _, _ => Some None
  end.

Definition cflow_timer_queue_take_ready (queue : option cflow_timer_queue) (now : Z)
    (out : option cflow_timer_task) :
    option (option cflow_timer_task * option cflow_timer_queue) :=
  match queue, out with
  | Some q, Some _ =>
      if tq_count q =? 0 then Some (None, queue) else
      index ← earliest_index q;
      if index =? SIZE_MAX then Some (None, queue) else
      t ← aget (tq_items q) index;
      if now <? tt_deadline t then Some (None, queue) else
      q ← remove_at q index;
      Some (Some t, Some q)
  | _, _ => Some (None, queue)
  end.

Definition cflow_timer_queue_pending (queue : option cflow_timer_queue) : Z :=
  match queue with Some q => tq_count q | None => 0 end.

(** ** Time arithmetic *)

(** A deadline computed from an instant and a delay saturates instead of
    wrapping: it never lies before [now], the time that remains until it is
    the delay unless the clock's end is reached, waiting that long reaches it,
    and a longer delay never gives an earlier deadline. *)
Theorem cflow_deadline_after_saturates now d d' :
  is_u64 now → is_u64 d → is_u64 d' → d <= d' →
  is_u64 (cflow_deadline_after now d) ∧ now <= cflow_deadline_after now d ∧
  cflow_deadline_remaining (cflow_deadline_after now d) now = Z.min d (UINT64_MAX - now) ∧
  cflow_deadline_after now (cflow_deadline_remaining (cflow_deadline_after now d) now)
    = cflow_deadline_after now d ∧
  cflow_deadline_after now d <= cflow_deadline_after now d'.
Proof.
  intros Hn Hd Hd' Hle. unfold cflow_deadline_after, cflow_deadline_remaining.
  assert (∀ x, is_u64 x → (if UINT64_MAX - now <? x then UINT64_MAX else u64 (now + x))
            = Z.min UINT64_MAX (now + x)) as E.
  { intros x Hx. destruct (Z.ltb_spec (UINT64_MAX - now) x); [lia|].
    rewrite u64_id; unfold_words; lia. }
  rewrite !E by (rewrite ?E by done; unfold_words; repeat case_match; lia).
  unfold_words. repeat case_match; lia.
Qed.

Lemma cflow_deadline_after_saturates_witness :
  cflow_deadline_remaining (cflow_deadline_after 100 UINT64_MAX) 100 = Z.min UINT64_MAX (UINT64_MAX - 100).
Proof.
  apply (cflow_deadline_after_saturates 100 UINT64_MAX UINT64_MAX); unfold_words; lia.
Defined.

Lemma mul_sat_min v k : is_u64 v → 0 <= k → cflow_u64_mul_sat v k = Z.min UINT64_MAX (v * k).
Proof.
  intros Hv Hk. unfold cflow_u64_mul_sat.
  destruct (Z.eqb_spec v 0) as [->|Hne]; simpl; [rewrite u64_id; unfold_words; lia|].
  destruct (Z.ltb_spec (UINT64_MAX / v) k) as [Hlt|Hge].
  - assert (UINT64_MAX < v * k); [|lia].
    pose proof (Z.mul_succ_div_gt UINT64_MAX v). unfold_words. nia.
  - assert (v * k <= UINT64_MAX).
    { pose proof (Z.mul_div_le UINT64_MAX v). unfold_words. nia. }
    rewrite u64_id; unfold_words; lia.
Qed.

(** Every unit conversion saturates at the largest duration: the result
    is the exact product, or [UINT64_MAX] when that does not fit. *)
Theorem cflow_duration_exact v :
  is_u64 v →
  cflow_duration_from_us v = Z.min UINT64_MAX (v * 1000) ∧
  cflow_duration_from_ms v = Z.min UINT64_MAX (v * 1000000) ∧
  cflow_duration_from_s v = Z.min UINT64_MAX (v * 1000000000) ∧
  (v * 1000000 <= UINT64_MAX → cflow_instant_to_ms (cflow_duration_from_ms v) = v).
Proof.
  intros Hv. unfold cflow_duration_from_us, cflow_duration_from_ms, cflow_duration_from_s.
  rewrite !mul_sat_min by (done || lia). split_and!; try done. intros Hle.
  rewrite Z.min_r by done. unfold cflow_instant_to_ms. by rewrite Z.div_mul.
Qed.

Lemma cflow_duration_exact_witness :
  cflow_duration_from_s 18446744074 = Z.min UINT64_MAX (18446744074 * 1000000000).
Proof. apply (cflow_duration_exact 18446744074). unfold_words. lia. Defined.

(** ** The queue *)

Definition live (q : cflow_timer_queue) : list cflow_timer_task :=
  take (Z.to_nat (tq_count q)) (tq_items q).

(** Ids and order numbers advance together, so that a live task is known by
    either; the last id is never wrapped around. *)
Record tq_inv (q : cflow_timer_queue) : Prop := {
  tqi_len : alen (tq_items q) = tq_capacity q;
  tqi_cap : 0 < tq_capacity q <= SIZE_MAX / sizeof_timer_task;
  tqi_count : 0 <= tq_count q <= tq_capacity q;
  tqi_next : is_u64 (tq_next_order q);
  tqi_next_id : tq_next_id q = u64 (tq_next_order q + 1);
  tqi_order t : t ∈ live q → tt_order t = tt_id t - 1 ∧ 1 <= tt_id t <= tq_next_order q;
  tqi_nodup : NoDup (map tt_id (live q))
}.

Lemma live_length q : tq_inv q → Z.of_nat (length (live q)) = tq_count q.
Proof.
  intros Hq. unfold live. rewrite length_take. pose proof (tqi_len _ Hq). pose proof (tqi_count _ Hq).
  unfold alen in *. lia.
Qed.

Lemma live_get q i t : tq_inv q → 0 <= i < tq_count q →
  aget (tq_items q) i = Some t ↔ live q !! Z.to_nat i = Some t.
Proof.
  intros Hq Hi. unfold live. rewrite lookup_take_lt by lia. unfold aget.
  by destruct (Z.ltb_spec i 0); [lia|].
Qed.

Lemma live_in_bounds q i : tq_inv q → 0 <= i < tq_count q → ∃ t, aget (tq_items q) i = Some t.
Proof.
  intros Hq Hi. apply aget_in_bounds. pose proof (tqi_len _ Hq). pose proof (tqi_count _ Hq). lia.
Qed.

Lemma index_not_none q i : tq_inv q → 0 <= i < tq_count q → (i =? SIZE_MAX) = false.
Proof.
  intros Hq Hi. apply Z.eqb_neq. pose proof (tqi_cap _ Hq). pose proof (tqi_count _ Hq).
  unfold sizeof_timer_task in *. word_lia.
Qed.

(** The scan: after the first [i] positions, [best] is the earliest of them. *)
Definition best_of (q : cflow_timer_queue) (i best : Z) : Prop :=
  (i = 0 ∧ best = SIZE_MAX) ∨
  (0 <= best < i ∧ ∃ b, aget (tq_items q) best = Some b ∧
     ∀ k t, 0 <= k < i → aget (tq_items q) k = Some t → timer_before t b = false).

Lemma earliest_loop_ok q n i best :
  tq_inv q → 0 <= i → i + Z.of_nat n = tq_count q → best_of q i best →
  ∃ r, earliest_index_loop n q i best = Some r ∧ best_of q (tq_count q) r.
Proof.
  intros Hq. revert i best. induction n as [|n IH]; intros i best Hi Hn Hb.
  { exists best. split; [done|]. by replace (tq_count q) with i by lia. }
  simpl. destruct (live_in_bounds q i) as [c Hc]; [done|lia|]. rewrite Hc. simpl.
  assert (∀ t, timer_before t t = false) as Hirr by (unfold timer_before; lia).
  destruct Hb as [[-> ->]|(Hbest & b & Hb & Hmin)].
  - rewrite Z.eqb_refl. simpl. apply IH; [lia..|]. right. split; [lia|]. exists c. split; [done|].
    intros k t Hk Ht. assert (k = 0) as -> by lia. simplify_eq. apply Hirr.
  - rewrite (index_not_none q best) by (done || lia). rewrite Hb. simpl.
    apply IH; [lia..|]. right. destruct (timer_before c b) eqn:Hcb.
    + split; [lia|]. exists c. split; [done|]. intros k t Hk Ht.
      destruct (decide (k = i)) as [->|]; [simplify_eq; apply Hirr|].
      assert (timer_before t b = false) by (apply (Hmin k); [lia|done]).
      unfold timer_before in *. lia.
    + split; [lia|]. exists b. split; [done|]. intros k t Hk Ht.
      destruct (decide (k = i)) as [->|]; [by simplify_eq|]. apply (Hmin k); [lia|done].
Qed.

(** The earliest live task, at its index. *)
Lemma earliest_index_ok q :
  tq_inv q → tq_count q ≠ 0 →
  ∃ i t, earliest_index q = Some i ∧ 0 <= i < tq_count q ∧ (i =? SIZE_MAX) = false ∧
    aget (tq_items q) i = Some t ∧ ∀ y, y ∈ live q → timer_before y t = false.
Proof.
  intros Hq Hne. pose proof (tqi_count _ Hq) as Hc.
  destruct (earliest_loop_ok q (Z.to_nat (tq_count q)) 0 SIZE_MAX) as (i & Hrun & Hb);
    [done|lia|lia|by left|].
  destruct Hb as [[? _]|(Hi & b & Hb & Hmin)]; [lia|].
  exists i, b. split_and!; try done; try lia; [by apply (index_not_none q)|].
  intros y [k Hk]%list_elem_of_lookup.
  assert (k < length (live q))%nat by (by eapply lookup_lt_Some).
  pose proof (live_length q Hq).
  apply (Hmin (Z.of_nat k)); [lia|]. apply live_get; [done|lia|]. by rewrite Nat2Z.id.
Qed.

(** Removing an index keeps the others, in their order. *)
Lemma remove_at_ok q i t :
  tq_inv q → 0 <= i < tq_count q → aget (tq_items q) i = Some t →
  ∃ q', remove_at q i = Some q' ∧ tq_inv q' ∧ live q' = delete (Z.to_nat i) (live q) ∧
    t :: live q' ≡ₚ live q ∧ tq_next_order q' = tq_next_order q ∧ tq_count q' = tq_count q - 1 ∧
    tq_capacity q' = tq_capacity q.
Proof.
  intros Hq Hi Ht. pose proof (tqi_len _ Hq). pose proof (tqi_count _ Hq).
  assert (∃ items, (if i + 1 <? tq_count q then amove (tq_items q) i (i + 1) (tq_count q - i - 1)
                    else Some (tq_items q)) = Some items ∧ alen items = alen (tq_items q) ∧
            take (Z.to_nat (tq_count q - 1)) items = delete (Z.to_nat i) (live q))
    as (items & Hit & Hlen & Hlive).
  { destruct (Z.ltb_spec (i + 1) (tq_count q)).
    - destruct (amove_in_bounds (tq_items q) i (i + 1) (tq_count q - i - 1)) as (l & Hl & Hll); [lia..|].
      exists l. split_and!; try done. apply (amove_delete (tq_items q)); [lia|lia|done].
    - exists (tq_items q). split_and!; try done. rewrite delete_take_drop. unfold live.
      rewrite take_take, Nat.min_l, drop_ge by (rewrite ?length_take; lia).
      rewrite app_nil_r. f_equal. lia. }
  unfold remove_at. rewrite Hit. simpl. eexists. split; [done|].
  assert (t :: live (tq_with q items (tq_count q - 1)) ≡ₚ live q) as Hperm.
  { unfold live at 1. simpl. rewrite Hlive. symmetry. apply delete_Permutation.
    by apply live_get. }
  split; [|done]. destruct Hq as [? ? ? ? ? Ho Hnd]. split; try done; simpl; try lia.
  - intros x Hx. apply Ho. rewrite <-Hperm. set_solver.
  - rewrite <-Hperm in Hnd. by apply NoDup_cons in Hnd as [_ ?].
Qed.

Lemma timer_init_inv cap q0 :
  0 < cap <= SIZE_MAX / sizeof_timer_task →
  ∃ q, cflow_timer_queue_init_with_capacity true (Some q0) cap = (true, Some q) ∧
    tq_inv q ∧ live q = [] ∧ tq_capacity q = cap.
Proof.
  intros Hcap. unfold cflow_timer_queue_init_with_capacity.
  destruct (Z.eqb_spec cap 0); [lia|].
  rewrite (proj2 (Z.ltb_ge _ cap)) by lia. simpl. eexists. split; [done|].
  split; [|by split]. split; simpl; try done.
  - unfold alen. rewrite length_replicate. lia.
  - lia.
  - unfold live. simpl. set_solver.
  - unfold live. simpl. constructor.
Qed.

(** Scheduling on every branch: a missing callback is refused, a full or
    exhausted queue is refused, both without any change; otherwise the task
    joins the live ones under a fresh non-zero id with the next order number
    and the invariant holds again. *)
Theorem timer_schedule_exact q deadline t :
  tq_inv q →
  ∃ st id q', cflow_timer_queue_try_schedule_task (Some q) deadline (Some t) = Some (st, id, Some q') ∧
    tq_inv q' ∧
    if et_run t =? 0 then st = CFLOW_ADMISSION_INVALID_ARGUMENT ∧ id = 0 ∧ q' = q
    else if bool_decide (Z.of_nat (length (live q)) < tq_capacity q ∧ tq_next_order q < UINT64_MAX)
    then st = CFLOW_ADMISSION_ACCEPTED ∧ is_u64 id ∧ id ≠ 0 ∧ id ∉ map tt_id (live q) ∧
      live q' = live q ++ [CflowTimerTask id deadline (tq_next_order q) (et_run t) (et_cancel t)
                             (et_finalize t) (et_user t)] ∧
      tq_next_order q' = tq_next_order q + 1
    else st = CFLOW_ADMISSION_FULL ∧ id = 0 ∧ q' = q.
Proof.
  intros Hq. unfold cflow_timer_queue_try_schedule_task.
  destruct (et_run t =? 0); [by eauto 10|].
  pose proof (live_length q Hq) as Hll. pose proof (tqi_count _ Hq) as Hc.
  pose proof (tqi_next _ Hq) as Hno. pose proof (tqi_next_id _ Hq) as Hid.
  pose proof (tqi_len _ Hq) as Hlen. pose proof (tqi_cap _ Hq) as Hcap.
  case_bool_decide as Hroom.
  2:{ assert ((tq_capacity q <=? tq_count q) || (tq_next_id q =? 0) || (tq_next_order q =? UINT64_MAX)
        = true) as ->; [|by eauto 10].
      unfold is_u64 in Hno. destruct (decide (tq_next_order q = UINT64_MAX)); lia. }
  rewrite u64_id in Hid by (unfold_words; lia).
  assert ((tq_capacity q <=? tq_count q) || (tq_next_id q =? 0) || (tq_next_order q =? UINT64_MAX)
    = false) as -> by (unfold is_u64 in Hno; lia).
  set (task := CflowTimerTask _ _ _ _ _ _ _).
  destruct (aset_is_Some (tq_items q) (tq_count q) task) as [items Hset]; [lia|].
  rewrite Hset. simpl.
  assert (take (Z.to_nat (tq_count q + 1)) items = live q ++ [task]) as Hlive.
  { apply aset_Some in Hset as [Hb ->]. unfold live.
    replace (Z.to_nat (tq_count q + 1)) with (S (Z.to_nat (tq_count q))) by lia.
    rewrite (take_S_r _ _ task) by (apply list_lookup_insert_eq; unfold alen in *; lia).
    by rewrite take_insert_ge by lia. }
  assert (tq_next_id q ∉ map tt_id (live q)) as Hfresh.
  { intros (x & Hx & Hin)%list_elem_of_fmap. pose proof (tqi_order _ Hq x Hin). lia. }
  eexists _, _, _. split; [done|]. split.
  - split; simpl; rewrite ?(aset_alen _ _ _ _ Hset); try done; try lia.
    + unfold is_u64 in *. rewrite u64_id; unfold_words; lia.
    + by rewrite Hid, (u64_id (tq_next_order q + 1)) by (unfold_words; lia).
    + unfold live. simpl. rewrite Hlive. intros x. rewrite elem_of_app, list_elem_of_singleton.
      rewrite u64_id by (unfold_words; lia).
      intros [Hx| ->]; [pose proof (tqi_order _ Hq x Hx); lia|simpl; unfold is_u64 in Hno; lia].
    + unfold live. simpl. rewrite Hlive, map_app. simpl. apply NoDup_app.
      split_and!; [apply Hq|set_solver|apply NoDup_singleton].
  - split_and!; try done; try (rewrite ?Hid; unfold_words; lia).
    simpl. apply u64_id. unfold_words. lia.
Qed.

Lemma timer_schedule_exact_witness :
  ∃ q, cflow_timer_queue_init_with_capacity true (Some queue_zero) 2 = (true, Some q) ∧
  ∃ st id q', cflow_timer_queue_try_schedule_task (Some q) 9 (Some (CflowExecutorTask 1 0 0 0))
    = Some (st, id, Some q') ∧ tq_inv q'.
Proof.
  destruct (timer_init_inv 2 queue_zero) as (q & Hi & Hq & _).
  { unfold sizeof_timer_task. word_lia. }
  exists q. split; [exact Hi|].
  destruct (timer_schedule_exact q 9 (CflowExecutorTask 1 0 0 0) Hq) as (st & id & q' & Hrun & Hq' & _).
  exists st, id, q'. split; assumption.
Defined.

Lemma take_loop_ok q id n i :
  tq_inv q → 0 <= i → i + Z.of_nat n = tq_count q →
  (∃ k t, take_loop n q id i = Some (Some (k, t)) ∧ 0 <= k < tq_count q ∧
     aget (tq_items q) k = Some t ∧ tt_id t = id) ∨
  (take_loop n q id i = Some None ∧
   ∀ k t, i <= k < tq_count q → aget (tq_items q) k = Some t → tt_id t ≠ id).
Proof.
  intros Hq. revert i. induction n as [|n IH]; intros i Hi Hn.
  { right. split; [done|]. lia. }
  simpl. destruct (live_in_bounds q i) as [t Ht]; [done|lia|]. rewrite Ht. simpl.
  destruct (Z.eqb_spec (tt_id t) id) as [He|Hne].
  { left. exists i, t. split_and!; (done || lia). }
  destruct (IH (i + 1)) as [?|[-> Hno]]; [lia|lia|by left|]. right. split; [done|].
  intros k t' Hk Hk'. destruct (decide (k = i)) as [->|]; [by simplify_eq|]. apply (Hno k); [lia|done].
Qed.

Lemma live_by_id q t t' :
  tq_inv q → t ∈ live q → t' ∈ live q → tt_id t = tt_id t' → t = t'.
Proof.
  intros Hq [i Hi]%list_elem_of_lookup [j Hj]%list_elem_of_lookup He.
  assert (i = j); [|congruence].
  eapply (NoDup_lookup (map tt_id (live q))); [apply Hq| |];
    rewrite list_lookup_fmap; [by rewrite Hi|by rewrite Hj, He].
Qed.

(** Cancelling by id: the task with that id is handed back and exactly it
    is gone, the others keeping their positions relative to each other; an id
    that is not live (also 0, and any id already taken) changes nothing. *)
Theorem timer_take_exact q id out :
  tq_inv q →
  (∃ t q', cflow_timer_queue_take (Some q) id (Some out) = Some (Some t, Some q') ∧
     tt_id t = id ∧ tq_inv q' ∧ live q' = filter (λ x, tt_id x ≠ id) (live q) ∧
     t :: live q' ≡ₚ live q ∧ tq_next_order q' = tq_next_order q ∧
     id ∉ map tt_id (live q')) ∨
  (cflow_timer_queue_take (Some q) id (Some out) = Some (None, Some q) ∧ id ∉ map tt_id (live q)).
Proof.
  intros Hq. unfold cflow_timer_queue_take.
  assert (∀ x, x ∈ live q ↔ ∃ k, 0 <= k < tq_count q ∧ aget (tq_items q) k = Some x) as Hlive.
  { intros x. rewrite list_elem_of_lookup. pose proof (live_length q Hq). split.
    - intros [k Hk]. pose proof (lookup_lt_Some _ _ _ Hk). exists (Z.of_nat k). split; [lia|].
      apply live_get; [done|lia|]. by rewrite Nat2Z.id.
    - intros (k & Hk & Hx). exists (Z.to_nat k). by apply live_get. }
  destruct (Z.eqb_spec id 0) as [->|Hid].
  { right. split; [done|]. intros (x & Hx & Hin)%list_elem_of_fmap.
    pose proof (tqi_order _ Hq x Hin). lia. }
  pose proof (tqi_count _ Hq).
  destruct (take_loop_ok q id (Z.to_nat (tq_count q)) 0) as [(k & t & -> & Hk & Ht & He)|[-> Hno]];
    [done|lia|lia| |]; simpl.
  - destruct (remove_at_ok q k t) as (q' & -> & Hq' & Hdel & Hperm & Hno & _); [done..|]. simpl.
    assert (t ∈ live q) as Hin by (apply Hlive; eauto).
    assert (∀ x, x ∈ live q' → tt_id x ≠ id) as Hgone.
    { intros x Hx Hxe. assert (x = t) as ->.
      { apply (live_by_id q); [done| |done|congruence]. rewrite <-Hperm. set_solver. }
      assert (NoDup (t :: live q')) as Hnd.
      { apply (NoDup_fmap_1 tt_id). rewrite Hperm. apply Hq. }
      apply NoDup_cons in Hnd as [Hnd _]. done. }
    left. exists t, q'. split_and!; try done.
    + rewrite Hdel in *. clear Hperm Hno. apply live_get in Ht; [|done..].
      rewrite delete_take_drop in *. rewrite <-(take_drop_middle _ _ _ Ht) at 3.
      rewrite filter_app, filter_cons, decide_False by tauto.
      rewrite !filter_all; [done| |]; intros x Hx; apply Hgone; set_solver.
    + intros (x & Hx & Hxin)%list_elem_of_fmap. by eapply Hgone.
  - right. split; [done|]. intros (x & Hx & (k & Hk & Hxk)%Hlive)%list_elem_of_fmap.
    by apply (Hno k x).
Qed.

Lemma timer_take_exact_witness :
  ∃ q, cflow_timer_queue_init_with_capacity true (Some queue_zero) 2 = (true, Some q) ∧
  ((∃ t q', cflow_timer_queue_take (Some q) 1 (Some task_zero) = Some (Some t, Some q')) ∨
   cflow_timer_queue_take (Some q) 1 (Some task_zero) = Some (None, Some q)).
Proof.
  destruct (timer_init_inv 2 queue_zero) as (q & Hi & Hq & _).
  { unfold sizeof_timer_task. word_lia. }
  exists q. split; [exact Hi|].
  destruct (timer_take_exact q 1 task_zero Hq) as [(t & q' & H & _)|[H _]]; eauto.
Defined.

(** ** The interface of [EarliestQueue] *)

Definition timer_take (q : cflow_timer_queue) (now : Z) :
    option (option cflow_timer_task * cflow_timer_queue) :=
  '(r, q') ← cflow_timer_queue_take_ready (Some q) now (Some task_zero);
  q' ← q'; Some (r, q').

#[export] Instance timer_earliest_ops :
  EarliestOps cflow_timer_queue cflow_timer_task cflow_timer_task := {|
  eq_take := timer_take;
  eq_pending := live;
  eq_inv := tq_inv;
  eq_deadline := tt_deadline;
  eq_order := tt_order;
  eq_out x := x
|}.

#[export] Instance timer_earliest :
  EarliestQueue cflow_timer_queue cflow_timer_task cflow_timer_task.
Proof.
  split. simpl. intros q now Hq. unfold timer_take, cflow_timer_queue_take_ready.
  destruct (Z.eqb_spec (tq_count q) 0) as [H0|Hne]; simpl.
  { eexists None, _. split_and!; try done. intros x Hx.
    pose proof (live_length q Hq). destruct (live q); [set_solver|simpl in *; lia]. }
  destruct (earliest_index_ok q) as (i & t & -> & Hi & Hsm & Ht & Hmin); [done..|]. simpl.
  rewrite Hsm, Ht. simpl. destruct (Z.ltb_spec now (tt_deadline t)); simpl.
  - eexists None, _. split_and!; try done. intros x Hx. specialize (Hmin x Hx).
    unfold timer_before in Hmin. lia.
  - destruct (remove_at_ok q i t) as (q' & -> & Hq' & _ & Hperm & _); [done..|]. simpl.
    eexists (Some t), _. split_and!; try done. exists t. split_and!; try done.
    intros y Hy. specialize (Hmin y Hy). unfold timer_before in Hmin. unfold before_eq. simpl. lia.
Qed.

(** Dispatching all ready timers ends within one call per live task plus
    one and hands out exactly the due tasks, by deadline and in schedule order
    among equal deadlines; exactly the later ones stay live. *)
Theorem timer_drain_exact q now :
  tq_inv q →
  ∃ l q', drain (S (Z.to_nat (tq_count q))) q now = Some (l, q') ∧ drained now q l q'.
Proof. intros Hq. apply drain_ok; [done|]. simpl. pose proof (live_length q Hq). lia. Qed.

Lemma timer_drain_exact_witness :
  ∃ q, cflow_timer_queue_init_with_capacity true (Some queue_zero) 2 = (true, Some q) ∧
  ∃ l q', drain (S (Z.to_nat (tq_count q))) q 5 = Some (l, q') ∧ drained 5 q l q'.
Proof.
  destruct (timer_init_inv 2 queue_zero) as (q & Hi & Hq & _).
  { unfold sizeof_timer_task. word_lia. }
  exists q. split; [exact Hi|]. exact (timer_drain_exact q 5 Hq).
Defined.

(** [cflow_timer_queue_next_deadline] is the wake-up time of the
    scheduler: it is the least live deadline, and taking at a time [now] hands
    out a task exactly when that deadline is not after [now]. *)
Theorem timer_next_deadline_wakes q now :
  tq_inv q →
  ∃ r, cflow_timer_queue_next_deadline (Some q) (Some 0) = Some r ∧
    match r with
    | None => live q = []
    | Some d => (∃ t, t ∈ live q ∧ tt_deadline t = d) ∧ (∀ t, t ∈ live q → d <= tt_deadline t)
    end ∧
    ∃ o q', cflow_timer_queue_take_ready (Some q) now (Some task_zero) = Some (o, Some q') ∧
      (is_Some o ↔ ∃ d, r = Some d ∧ d <= now).
Proof.
  intros Hq. unfold cflow_timer_queue_next_deadline, cflow_timer_queue_take_ready.
  destruct (Z.eqb_spec (tq_count q) 0) as [H0|Hne]; simpl.
  { exists None. split_and!; try done.
    - pose proof (live_length q Hq). apply nil_length_inv. lia.
    - exists None, q. split; [done|]. split; [by intros [? ?]|by intros (? & ? & _)]. }
  destruct (earliest_index_ok q) as (i & t & -> & Hi & Hsm & Ht & Hmin); [done..|]. simpl.
  rewrite Hsm, Ht. simpl. exists (Some (tt_deadline t)). split; [done|]. split; [split|].
  - exists t. split; [|done]. apply list_elem_of_lookup. exists (Z.to_nat i). by apply live_get.
  - intros y Hy. specialize (Hmin y Hy). unfold timer_before in Hmin. lia.
  - destruct (Z.ltb_spec now (tt_deadline t)); simpl.
    + exists None, q. split; [done|]. split; [by intros [? ?]|]. intros (d & [= <-] & ?). lia.
    + destruct (remove_at_ok q i t) as (q' & -> & _); [done..|]. simpl.
      exists (Some t), q'. split; [done|]. split; [eauto|by eauto].
Qed.

Lemma timer_next_deadline_wakes_witness :
  ∃ q r, cflow_timer_queue_init_with_capacity true (Some queue_zero) 2 = (true, Some q) ∧
  cflow_timer_queue_next_deadline (Some q) (Some 0) = Some r.
Proof.
  destruct (timer_init_inv 2 queue_zero) as (q & Hi & Hq & _).
  { unfold sizeof_timer_task. word_lia. }
  destruct (timer_next_deadline_wakes q 5 Hq) as (r & Hr & _). by exists q, r.
Defined.
