(* ===== verification/SpscRing.v ===== *)
(** * The single-producer single-consumer ring ([concurrency/src/spsc_ring.c])

    The functions are programs of atomic actions, interleaved in any order
    with those of the other thread. Atomic loads and stores are taken in one
    total order (sequential consistency); bytes of the storage are read and
    written one at a time, so that any overlap between the region the
    producer fills and the one the consumer reads would show. *)

From S2P Require Import Prelude.
Local Open Scope Z_scope.

(** ** Programs of atomic actions *)

(** The fields of [salts_spsc_ring] that change. [PendingWrapLen] is private
    to the producer. *)
Inductive ring_var := WritePos | ReadPos | WrapPos | WrapLen | PendingWrapLen.

(** What a store means for the two clients: nothing, the publication of
    bytes, or the release of bytes that were read. It has no effect on the
    ring itself. *)
Inductive mark := Silent | Sent (bs : list Z) | Received (bs : list Z).

Inductive prog (A : Type) :=
  | Ret (a : A)
  | Load (v : ring_var) (k : Z → prog A)
  | Store (v : ring_var) (x : Z) (m : mark) (k : prog A)
  | GetByte (i : Z) (k : Z → prog A)
  | PutByte (i b : Z) (k : prog A).
Arguments Ret {A}.
Arguments Load {A}.
Arguments Store {A}.
Arguments GetByte {A}.
Arguments PutByte {A}.

Fixpoint pbind {A B} (p : prog A) (f : A → prog B) : prog B :=
  match p with
  | Ret a => f a
  | Load v k => Load v (λ x, pbind (k x) f)
  | Store v x m k => Store v x m (pbind k f)
  | GetByte i k => GetByte i (λ b, pbind (k b) f)
  | PutByte i b k => PutByte i b (pbind k f)
  end.

Declare Scope ring_scope.
Notation "x <- p ; q" := (pbind p (λ x, q)) (at level 100, p at next level, right associativity) : ring_scope.
Notation "p ;; q" := (pbind p (λ _, q)) (at level 100, right associativity) : ring_scope.
Local Open Scope ring_scope.

Definition aload (v : ring_var) : prog Z := Load v Ret.
Definition astore (v : ring_var) (x : Z) : prog unit := Store v x Silent (Ret tt).
(** A store that hands bytes over to the other side. *)
Definition astore_mark (v : ring_var) (x : Z) (m : mark) : prog unit := Store v x m (Ret tt).

(** The ring as both threads share it; [rg_sent] and [rg_received] record
    what the two clients have handed over so far. *)
Record ring := Ring {
  rg_write : Z;
  rg_read : Z;
  rg_wrap_pos : Z;
  rg_wrap_len : Z;
  rg_pending : Z;
  rg_data : list Z;
  rg_sent : list Z;
  rg_received : list Z
}.

Definition rg_get (s : ring) (v : ring_var) : Z :=
  match v with
  | WritePos => rg_write s
  | ReadPos => rg_read s
  | WrapPos => rg_wrap_pos s
  | WrapLen => rg_wrap_len s
  | PendingWrapLen => rg_pending s
  end.

Definition rg_mark (s : ring) (m : mark) : ring :=
  match m with
  | Silent => s
  | Sent bs =>
      Ring (rg_write s) (rg_read s) (rg_wrap_pos s) (rg_wrap_len s) (rg_pending s) (rg_data s)
        (rg_sent s ++ bs) (rg_received s)
  | Received bs =>
      Ring (rg_write s) (rg_read s) (rg_wrap_pos s) (rg_wrap_len s) (rg_pending s) (rg_data s)
        (rg_sent s) (rg_received s ++ bs)
  end.

Definition rg_put (s : ring) (v : ring_var) (x : Z) : ring :=
  match v with
  | WritePos => Ring x (rg_read s) (rg_wrap_pos s) (rg_wrap_len s) (rg_pending s) (rg_data s)
      (rg_sent s) (rg_received s)
  | ReadPos => Ring (rg_write s) x (rg_wrap_pos s) (rg_wrap_len s) (rg_pending s) (rg_data s)
      (rg_sent s) (rg_received s)
  | WrapPos => Ring (rg_write s) (rg_read s) x (rg_wrap_len s) (rg_pending s) (rg_data s)
      (rg_sent s) (rg_received s)
  | WrapLen => Ring (rg_write s) (rg_read s) (rg_wrap_pos s) x (rg_pending s) (rg_data s)
      (rg_sent s) (rg_received s)
  | PendingWrapLen => Ring (rg_write s) (rg_read s) (rg_wrap_pos s) (rg_wrap_len s) x (rg_data s)
      (rg_sent s) (rg_received s)
  end.

Definition rg_with_data (s : ring) (d : list Z) : ring :=
  Ring (rg_write s) (rg_read s) (rg_wrap_pos s) (rg_wrap_len s) (rg_pending s) d
    (rg_sent s) (rg_received s).

(** One atomic action of a thread; [None] is an access outside the storage.
    A finished program takes no action. *)
Definition prog_step {A} (s : ring) (p : prog A) : option (ring * prog A) :=
  match p with
  | Ret a => Some (s, Ret a)
  | Load v k => Some (s, k (rg_get s v))
  | Store v x m k => Some (rg_mark (rg_put s v x) m, k)
  | GetByte i k => b ← aget (rg_data s) i; Some (s, k b)
  | PutByte i b k => d ← aset (rg_data s) i b; Some (rg_with_data s d, k)
  end.

(** ** The functions of the ring *)

Definition salts_spsc_ring_power_of_two (value : Z) : bool :=
  negb (value =? 0) && (Z.land value (value - 1) =? 0).

(** Storage of [size] bytes; [None] when the function returns false. *)
Definition salts_spsc_ring_init (storage : list Z) (size : Z) : option ring :=
  if negb (salts_spsc_ring_power_of_two size) then None else
  Some (Ring 0 0 0 0 0 storage [] []).

Section Ring.
(** [size] and [mask] are set by [salts_spsc_ring_init] and never change. *)
Context (size : Z).
Definition mask : Z := size - 1.

(** A pointer into the storage is its offset, [None] for [NULL]. *)
Definition salts_spsc_ring_write_acquire (required : Z) : prog (option Z) :=
  write <- aload WritePos;
  read <- aload ReadPos;
  let used := u64 (write - read) in
  let available := u64 (size - used - 1) in
  let offset := Z.land write mask in
  let linear := size - offset in
  if (size <=? required) || (available <? required) then Ret None else
  astore PendingWrapLen 0;;
  if linear <? required then
    wrap_len <- aload WrapLen;
    if negb (wrap_len =? 0) || (available <? u64 (required + linear)) then Ret None else
    astore PendingWrapLen linear;;
    Ret (Some 0)
  else Ret (Some offset).

(** [payload] is what the caller has put behind the acquired pointer. *)
Definition salts_spsc_ring_write_release (written : Z) (payload : list Z) : prog unit :=
  write <- aload WritePos;
  pending_wrap_len <- aload PendingWrapLen;
  if negb (pending_wrap_len =? 0) then
    astore WrapPos write;;
    astore WrapLen pending_wrap_len;;
    astore_mark WritePos (u64 (write + pending_wrap_len + written)) (Sent payload);;
    astore PendingWrapLen 0
  else astore_mark WritePos (u64 (write + written)) (Sent payload).

(** The tail of [salts_spsc_ring_read_acquire], from the computation of
    [data_available]. *)
Definition read_window (read write wrap_len wrap_pos : Z) : option (Z * Z) :=
  let data_available :=
    if negb (wrap_len =? 0) && (read <? wrap_pos) then wrap_pos - read else u64 (write - read) in
  if data_available =? 0 then None else
  let offset := Z.land read mask in
  let linear := size - offset in
  Some (offset, if data_available <? linear then data_available else linear).

(** The pointer and [*available], [None] for [NULL] and 0. *)
Definition salts_spsc_ring_read_acquire : prog (option (Z * Z)) :=
  read <- aload ReadPos;
  write <- aload WritePos;
  wrap_len <- aload WrapLen;
  wrap_pos <- aload WrapPos;
  if negb (wrap_len =? 0) && (read =? wrap_pos) then
    let next_read := u64 (read + wrap_len) in
    if write <? next_read then Ret None else
    astore ReadPos next_read;;
    astore WrapLen 0;;
    Ret (read_window next_read write wrap_len wrap_pos)
  else Ret (read_window read write wrap_len wrap_pos).

(** [taken] are the bytes the caller has read. *)
Definition salts_spsc_ring_read_release (read : Z) (taken : list Z) : prog unit :=
  position <- aload ReadPos;
  astore_mark ReadPos (u64 (position + read)) (Received taken).

Definition salts_spsc_ring_write_available : prog Z :=
  write <- aload WritePos;
  read <- aload ReadPos;
  Ret (u64 (size - u64 (write - read) - 1)).

Definition salts_spsc_ring_read_available : prog Z :=
  write <- aload WritePos;
  read <- aload ReadPos;
  wrap_len <- aload WrapLen;
  wrap_pos <- aload WrapPos;
  if negb (wrap_len =? 0) && (read =? wrap_pos) && (u64 (read + wrap_len) <=? write)
  then Ret (u64 (write - read - wrap_len)) else
  if negb (wrap_len =? 0) && (read <? wrap_pos) && (u64 (wrap_pos + wrap_len) <=? write)
  then Ret (u64 ((wrap_pos - read) + (write - wrap_pos - wrap_len))) else
  Ret (u64 (write - read)).

(** ** Clients

    A producer that sends each message of a list when there is room for it
    and drops it otherwise, and a consumer that polls [n] times and takes
    what it is offered up to [limit] bytes at a time. *)

Fixpoint put_bytes (off : Z) (bs : list Z) : prog unit :=
  match bs with
  | [] => Ret tt
  | b :: bs => PutByte off b (put_bytes (off + 1) bs)
  end.

Fixpoint get_bytes (off : Z) (n : nat) : prog (list Z) :=
  match n with
  | O => Ret []
  | S n => GetByte off (λ b, bs <- get_bytes (off + 1) n; Ret (b :: bs))
  end.

Fixpoint producer (msgs : list (list Z)) : prog unit :=
  match msgs with
  | [] => Ret tt
  | m :: msgs =>
      r <- salts_spsc_ring_write_acquire (alen m);
      match r with
      | None => producer msgs
      | Some off =>
          put_bytes off m;;
          salts_spsc_ring_write_release (alen m) m;;
          producer msgs
      end
  end.

Fixpoint consumer (n : nat) (limit : Z) : prog unit :=
  match n with
  | O => Ret tt
  | S n =>
      r <- salts_spsc_ring_read_acquire;
      match r with
      | None => consumer n limit
      | Some (off, available) =>
          let count := Z.min available limit in
          bs <- get_bytes off (Z.to_nat count);
          salts_spsc_ring_read_release count bs;;
          consumer n limit
      end
  end.
End Ring.

(** ** The two threads, interleaved *)

Inductive ring_step {A B} : ring * prog A * prog B → ring * prog A * prog B → Prop :=
  | step_producer s p c s' p' :
      prog_step s p = Some (s', p') → ring_step (s, p, c) (s', p', c)
  | step_consumer s p c s' c' :
      prog_step s c = Some (s', c') → ring_step (s, p, c) (s', p, c').

Inductive ring_steps {A B} : ring * prog A * prog B → ring * prog A * prog B → Prop :=
  | steps_refl x : ring_steps x x
  | steps_step x y z : ring_step x y → ring_steps y z → ring_steps x z.

(** ** Rely-guarantee reasoning

    [safe inv rely guar post p s]: run from [s] in an environment whose steps
    are in [rely], the program [p] makes only steps in [guar], never leaves
    the storage, keeps [inv], and ends in [post]. *)

Section RelyGuarantee.
Context (inv : ring → Prop) (rely guar : ring → ring → Prop).

Fixpoint safe {A} (post : A → ring → Prop) (p : prog A) (s0 : ring) : Prop :=
  ∀ s, rely s0 s → inv s →
  match p with
  | Ret a => post a s
  | Load v k => safe post (k (rg_get s v)) s
  | Store v x m k =>
      let s' := rg_mark (rg_put s v x) m in guar s s' ∧ inv s' ∧ safe post k s'
  | GetByte i k => ∃ b, aget (rg_data s) i = Some b ∧ safe post (k b) s
  | PutByte i b k =>
      ∃ d, aset (rg_data s) i b = Some d ∧
        let s' := rg_with_data s d in guar s s' ∧ inv s' ∧ safe post k s'
  end.

Context `{!PreOrder rely}.

(** The environment may move before the program does. *)
Lemma safe_rely {A} (post : A → ring → Prop) p s0 s :
  rely s0 s → safe post p s0 → safe post p s.
Proof. intros Hr. destruct p; simpl; intros H s1 Hr1; apply H; by etrans. Qed.

Lemma safe_bind {A B} (post : A → ring → Prop) (post' : B → ring → Prop) p f s0 :
  safe post p s0 → (∀ a s, inv s → post a s → safe post' (f a) s) → safe post' (pbind p f) s0.
Proof.
  intros Hp Hf. revert s0 Hp. induction p as [a|v k IH|v x m k IH|i k IH|i b k IH]; intros s0 Hp.
  - simpl in *. destruct (f a) eqn:E; intros s Hr Hi;
      (assert (safe post' (f a) s) as Hs by (by apply Hf; [|apply Hp])); rewrite E in Hs;
      apply Hs; done.
  - intros s Hr Hi. apply IH, Hp; done.
  - intros s Hr Hi. destruct (Hp s Hr Hi) as (Hg & Hi' & Hk). split_and!; try done. by apply IH.
  - intros s Hr Hi. destruct (Hp s Hr Hi) as (b & Hb & Hk). exists b. split; [done|]. by apply IH.
  - intros s Hr Hi. destruct (Hp s Hr Hi) as (d & Hd & Hg & Hi' & Hk). exists d.
    split; [done|]. split; [done|]. split; [done|]. exact (IH _ Hk).
Qed.

Lemma safe_post {A} (post post' : A → ring → Prop) p s0 :
  (∀ a s, post a s → post' a s) → safe post p s0 → safe post' p s0.
Proof.
  intros Hpost. revert s0. induction p as [a|v k IH|v x m k IH|i k IH|i b k IH]; intros s0 Hp s Hr Hi;
    specialize (Hp s Hr Hi).
  - by apply Hpost.
  - by apply IH.
  - destruct Hp as (Hg & Hi' & Hp). split_and!; try done. exact (IH _ Hp).
  - destruct Hp as (b & Hb & Hp). exists b. split; [done|]. exact (IH _ _ Hp).
  - destruct Hp as (d & Hd & Hg & Hi' & Hp). exists d. split; [done|]. split; [done|].
    split; [done|]. exact (IH _ Hp).
Qed.

(** One action of a safe program. *)
Lemma safe_step {A} (post : A → ring → Prop) p s :
  inv s → (guar s s) → safe post p s →
  ∃ s' p', prog_step s p = Some (s', p') ∧ inv s' ∧ guar s s' ∧ safe post p' s'.
Proof.
  intros Hi Hgr Hs. destruct p as [a|v k|v x m k|i k|i b k]; simpl in *.
  - by exists s, (Ret a).
  - exists s, (k (rg_get s v)). split_and!; try done. by apply Hs.
  - destruct (Hs s) as (Hg & Hi' & Hk); [done..|]. by eexists _, _.
  - destruct (Hs s) as (b & -> & Hk); [done..|]. by eexists _, _.
  - destruct (Hs s) as (d & -> & Hg & Hi' & Hk); [done..|]. by eexists _, _.
Qed.
End RelyGuarantee.

(** Two safe programs whose guarantees are each other's reliances run safely
    in every interleaving, and neither is ever stuck. *)
Lemma parallel_safe {A B} inv (g1 g2 : ring → ring → Prop) (q1 : A → ring → Prop) (q2 : B → ring → Prop)
    x y :
  PreOrder g1 → PreOrder g2 → ring_steps x y →
  let '(s, p, c) := x in let '(s', p', c') := y in
  inv s → safe inv g2 g1 q1 p s → safe inv g1 g2 q2 c s →
  inv s' ∧ (∃ r, prog_step s' p' = Some r) ∧ (∃ r, prog_step s' c' = Some r) ∧
  safe inv g2 g1 q1 p' s' ∧ safe inv g1 g2 q2 c' s'.
Proof.
  intros Hg1 Hg2 Hsteps.
  induction Hsteps as [[[s p] c]|[[s p] c] [[s1 p1] c1] [[s2 p2] c2] Hstep Hsteps IH];
    intros Hi Hp Hc.
  - destruct (safe_step inv g2 g1 q1 p s) as (? & ? & ? & _); [done..|].
    destruct (safe_step inv g1 g2 q2 c s) as (? & ? & ? & _); [done..|]. split_and!; eauto.
  - inversion Hstep as [s0 p0 c0 s' p' Hst|s0 p0 c0 s' c' Hst]; subst.
    + destruct (safe_step inv g2 g1 q1 p s) as (s3 & p3 & Hst' & Hi' & Hg & Hp'); [done..|].
      rewrite Hst in Hst'. injection Hst' as <- <-. apply IH; [done|done|].
      by eapply safe_rely.
    + destruct (safe_step inv g1 g2 q2 c s) as (s3 & c3 & Hst' & Hi' & Hg & Hc'); [done..|].
      rewrite Hst in Hst'. injection Hst' as <- <-. apply IH; [done| |done].
      by eapply safe_rely.
Qed.

(** ** Geometry of the ring *)

Lemma power_of_two_spec v :
  0 <= v → salts_spsc_ring_power_of_two v = true ↔ ∃ k, 0 <= k ∧ v = 2 ^ k.
Proof.
  intros Hv. unfold salts_spsc_ring_power_of_two. split.
  - intros H. assert (v ≠ 0 ∧ Z.land v (v - 1) = 0) as [Hne Hland] by lia. clear H.
    exists (Z.log2 v). pose proof (Z.log2_spec v) as Hl. pose proof (Z.log2_nonneg v) as Hk.
    split; [done|]. destruct (decide (v = 2 ^ Z.log2 v)) as [|Hn]; [done|exfalso].
    assert (Z.log2 (v - 1) = Z.log2 v) as Hlog by (apply Z.log2_unique; lia).
    assert (Z.testbit (Z.land v (v - 1)) (Z.log2 v) = true) as Hbit.
    { rewrite Z.land_spec, Z.bit_log2 by lia. rewrite <-Hlog, Z.bit_log2; [done|].
      pose proof (Z.pow_pos_nonneg 2 (Z.log2 v)). lia. }
    by rewrite Hland, Z.bits_0 in Hbit.
  - intros (k & Hk & ->). pose proof (Z.pow_pos_nonneg 2 k).
    rewrite (proj2 (Z.eqb_neq _ _)) by lia. simpl. apply Z.eqb_eq.
    replace (2 ^ k - 1) with (Z.ones k) by (rewrite Z.ones_equiv; lia).
    rewrite Z.land_ones, Z.mod_same by lia. done.
Qed.

Section Geometry.
Context (size : Z).
Implicit Types (s : ring) (d : list Z).

(** The byte at a stream position. *)
Definition byte_at d (p : Z) : Z := default 0 (aget d (p mod size)).

Definition chunk d (a b : Z) : list Z := map (byte_at d) (seqZ a (b - a)).

(** There is a gap before the end of the storage that is still ahead of the
    consumer. *)
Definition gap_ahead s : bool := negb (rg_wrap_len s =? 0) && (rg_read s <=? rg_wrap_pos s).

(** The bytes in the ring, oldest first: the abstract FIFO. *)
Definition contents s : list Z :=
  if gap_ahead s
  then chunk (rg_data s) (rg_read s) (rg_wrap_pos s) ++
       chunk (rg_data s) (rg_wrap_pos s + rg_wrap_len s) (rg_write s)
  else chunk (rg_data s) (rg_read s) (rg_write s).

Record ring_inv s : Prop := {
  ri_len : alen (rg_data s) = size;
  ri_pos : 0 <= rg_read s ∧ rg_read s <= rg_write s ∧ rg_write s <= SIZE_MAX;
  ri_used : rg_write s - rg_read s < size;
  ri_wrap : rg_wrap_len s = 0 ∨
    (0 < rg_wrap_len s ∧ 0 <= rg_wrap_pos s ∧ rg_wrap_pos s + rg_wrap_len s <= SIZE_MAX ∧
     ((rg_read s <= rg_wrap_pos s ∧
         (rg_write s = rg_wrap_pos s ∨ rg_wrap_pos s + rg_wrap_len s <= rg_write s)) ∨
      rg_wrap_pos s + rg_wrap_len s <= rg_read s));
  ri_fifo : rg_sent s = rg_received s ++ contents s
}.

(** What the producer may do to the ring. *)
Record producer_step s s' : Prop := {
  ps_read : rg_read s' = rg_read s;
  ps_received : rg_received s' = rg_received s;
  ps_write : rg_write s <= rg_write s';
  ps_wrap : rg_wrap_len s ≠ 0 → rg_wrap_len s' = rg_wrap_len s ∧ rg_wrap_pos s' = rg_wrap_pos s;
  ps_new : rg_wrap_len s = 0 → rg_wrap_len s' ≠ 0 → rg_write s <= rg_wrap_pos s';
  ps_bytes p : rg_read s <= p < rg_write s → byte_at (rg_data s') p = byte_at (rg_data s) p
}.

(** What the consumer may do. *)
Record consumer_step s s' : Prop := {
  cs_write : rg_write s' = rg_write s;
  cs_wrap_pos : rg_wrap_pos s' = rg_wrap_pos s;
  cs_pending : rg_pending s' = rg_pending s;
  cs_data : rg_data s' = rg_data s;
  cs_sent : rg_sent s' = rg_sent s;
  cs_read : rg_read s <= rg_read s';
  cs_wrap : rg_wrap_len s' = rg_wrap_len s ∨
    (rg_wrap_len s' = 0 ∧ rg_wrap_pos s + rg_wrap_len s <= rg_read s')
}.

#[local] Instance producer_step_pre : PreOrder producer_step.
Proof.
  split; [by split|]. intros s1 s2 s3 [? ? ? Hw Hn Hb] [? ? ? Hw' Hn' Hb'].
  split; try congruence; try lia.
  intros p Hp. rewrite Hb', Hb; [done|lia|lia].
Qed.

#[local] Instance consumer_step_pre : PreOrder consumer_step.
Proof.
  split; [split; (done || lia || by left)|]. intros s1 s2 s3 [? ? ? ? ? ? Hw] [? ? ? ? ? ? Hw'].
  split; try congruence; try lia.
Qed.

Lemma chunk_nil d a b : b <= a → chunk d a b = [].
Proof. intros Hab. unfold chunk. by rewrite seqZ_nil by lia. Qed.

Lemma chunk_app d a b c : a <= b <= c → chunk d a c = chunk d a b ++ chunk d b c.
Proof.
  intros Habc. unfold chunk. rewrite <-map_app. f_equal.
  replace (c - a) with ((b - a) + (c - b)) by lia. rewrite seqZ_app by lia.
  by replace (a + (b - a)) with b by lia.
Qed.

Lemma chunk_ext d d' a b :
  (∀ p, a <= p < b → byte_at d' p = byte_at d p) → chunk d' a b = chunk d a b.
Proof.
  intros Hd. apply map_ext_in. intros p Hp%list_elem_of_In%elem_of_seqZ. apply Hd. lia.
Qed.

Lemma chunk_length d a b : a <= b → alen (chunk d a b) = b - a.
Proof. intros Hab. unfold chunk, alen. rewrite length_map, length_seqZ. lia. Qed.

Lemma chunk_snoc d a b : a <= b → chunk d a (b + 1) = chunk d a b ++ [byte_at d b].
Proof.
  intros Hab. rewrite (chunk_app d a b (b + 1)) by lia. f_equal. unfold chunk.
  by replace (b + 1 - b) with 1 by lia.
Qed.

Lemma gap_ahead_true s :
  gap_ahead s = true ↔ rg_wrap_len s ≠ 0 ∧ rg_read s <= rg_wrap_pos s.
Proof. unfold gap_ahead. lia. Qed.

(** The contents only depend on the bytes between the two positions. *)
Lemma contents_bytes s d :
  ring_inv s →
  (∀ p, rg_read s <= p < rg_write s → byte_at d p = byte_at (rg_data s) p) →
  contents (rg_with_data s d) = contents s.
Proof.
  intros Hi Hd. pose proof (ri_wrap _ Hi) as Hw. pose proof (ri_pos _ Hi) as Hp.
  unfold contents. change (gap_ahead (rg_with_data s d)) with (gap_ahead s). simpl.
  destruct (gap_ahead s) eqn:E.
  - apply gap_ahead_true in E. f_equal; apply chunk_ext; intros p Hp'; apply Hd; lia.
  - apply chunk_ext. done.
Qed.
End Geometry.

(** ** The producer *)

Section Threads.
Context (size k : Z) (Hk : 0 <= k < 64) (Hsize : size = 2 ^ k).
Implicit Types (s : ring) (d : list Z).

#[local] Existing Instances producer_step_pre consumer_step_pre.

Lemma size_range : 0 < size <= 2 ^ 63.
Proof.
  subst. pose proof (Z.pow_pos_nonneg 2 k). split; [lia|]. apply Z.pow_le_mono_r; lia.
Qed.

Lemma land_mask x : 0 <= x → Z.land x (mask size) = x mod size.
Proof. intros Hx. unfold mask. rewrite Hsize. apply land_ones_mod. lia. Qed.

Lemma mod_range x : 0 <= x mod size < size.
Proof. pose proof size_range. apply Z.mod_pos_bound. lia. Qed.

(** Distinct positions less than [size] apart are distinct bytes. *)
Lemma mod_distinct p q : p < q < p + size → p mod size ≠ q mod size.
Proof.
  intros Hpq He. pose proof size_range. pose proof (Z.div_mod p size). pose proof (Z.div_mod q size).
  assert (q - p = size * (q / size - p / size)) as Hd by lia.
  assert (q / size - p / size <= 0 ∨ 1 <= q / size - p / size) as [?|?] by lia; nia.
Qed.

Local Abbreviation psafe := (safe (ring_inv size) consumer_step (producer_step size)).

(** The region the producer may fill for [m] bytes at offset [off]. *)
Definition granted (m off : Z) s : Prop :=
  let base := rg_write s + rg_pending s in
  0 <= rg_pending s ∧ off = base mod size ∧ off + m <= size ∧
  base + m - rg_read s < size ∧ base + m <= SIZE_MAX ∧
  (rg_pending s ≠ 0 → rg_wrap_len s = 0 ∧ off = 0).

Lemma granted_rely m off s s' : consumer_step s s' → granted m off s → granted m off s'.
Proof.
  intros [Hw Hwp Hpd _ _ Hr Hwl] (H1 & H2 & H3 & H4 & H5 & H6).
  unfold granted. rewrite Hw, Hpd. split_and!; try done; lia.
Qed.

(** [budget] positions are left before the position counters wrap, no
    publication is under way, and [l] is what has been sent so far. *)
Definition room (l : list Z) (budget : Z) s : Prop :=
  rg_write s + budget <= SIZE_MAX ∧
  (rg_wrap_len s = 0 ∨ rg_wrap_pos s + rg_wrap_len s <= rg_write s) ∧ rg_sent s = l.

Lemma room_rely l b s s' : consumer_step s s' → room l b s → room l b s'.
Proof.
  intros [Hw Hp _ _ Hs _ Hl] (H1 & H2 & H3). unfold room. rewrite Hw, Hp, Hs. split_and!; (done || lia).
Qed.

Lemma put_pending_ok s x :
  ring_inv size s →
  producer_step size s (rg_put s PendingWrapLen x) ∧ ring_inv size (rg_put s PendingWrapLen x).
Proof. intros [? ? ? ? ?]. by split; split. Qed.

Lemma write_acquire_safe l m budget s :
  0 <= m → size + m <= budget → room l budget s →
  psafe (λ r s, room l budget s ∧ match r with None => True | Some off => granted m off s end)
    (salts_spsc_ring_write_acquire size m) s.
Proof.
  intros Hm Hb Hroom. pose proof size_range as Hsz.
  intros s1 R1 I1. cbn. intros s2 R2 I2. cbn.
  assert (rg_write s1 = rg_write s2) as -> by (symmetry; apply R2).
  pose proof (ri_pos _ _ I2) as Hp2. pose proof (ri_used _ _ I2) as Hu2.
  assert (room l budget s2) as Hroom2 by (do 2 (eapply room_rely; [done|]); done).
  pose proof (proj1 Hroom2) as Hbud.
  assert (u64 (rg_write s2 - rg_read s2) = rg_write s2 - rg_read s2) as -> by
    (apply u64_id; unfold_words; lia).
  assert (u64 (size - (rg_write s2 - rg_read s2) - 1) = size - (rg_write s2 - rg_read s2) - 1) as -> by
    (apply u64_id; unfold_words; lia).
  rewrite land_mask by lia. pose proof (mod_range (rg_write s2)) as Hmod.
  set (off := rg_write s2 mod size) in *. set (avail := size - (rg_write s2 - rg_read s2) - 1).
  destruct ((size <=? m) || (avail <? m)) eqn:Hfit.
  { intros s3 R3 I3. split; [|done]. by eapply room_rely. }
  cbn. intros s3 R3 I3. destruct (put_pending_ok s3 0 I3) as [G3 I3']. split; [done|]. split; [done|].
  assert (room l budget (rg_put s3 PendingWrapLen 0)) as Hroom3 by exact (room_rely _ _ _ _ R3 Hroom2).
  assert (rg_write s3 = rg_write s2 ∧ rg_read s2 <= rg_read s3) as [Hw3 Hr3] by (split; apply R3).
  destruct (Z.ltb_spec (size - off) m) as [Hlin|Hlin].
  - cbn. intros s4 R4 I4. pose proof R4 as [Hw4 _ Hpd4 _ _ Hr4 _].
    simpl in Hw4, Hr4.
    assert (u64 (m + (size - off)) = m + (size - off)) as -> by (apply u64_id; unfold_words; lia).
    destruct (negb (rg_wrap_len s4 =? 0) || (avail <? m + (size - off))) eqn:Hfit2.
    { intros s5 R5 I5. split; [|done]. do 2 (eapply room_rely; [done|]). done. }
    cbn. intros s5 R5 I5. destruct (put_pending_ok s5 (size - off) I5) as [G5 I5'].
    split; [done|]. split; [done|]. intros s6 R6 I6. pose proof R5 as [Hw5 _ _ _ _ Hr5 Hwl5].
    split.
    { eapply room_rely; [exact R6|]. eapply (room_rely _ _ s4 s5); [done|]. by eapply room_rely. }
    eapply granted_rely; [done|]. unfold granted; simpl.
    assert ((rg_write s5 + (size - off)) mod size = 0) as Hz.
    { unfold off. rewrite Hw5, Hw4, Hw3.
      replace (rg_write s2 + (size - rg_write s2 mod size)) with (size * (rg_write s2 / size + 1))
        by (pose proof (Z.div_mod (rg_write s2) size); lia).
      rewrite Z.mul_comm. apply Z.mod_mul. lia. }
    rewrite Hz. split_and!; (done || lia).
  - intros s4 R4 I4. pose proof R4 as [Hw4 _ Hpd4 _ _ Hr4 _].
    split; [by eapply room_rely|].
    simpl in *. unfold granted. rewrite Hpd4, Hw4, Z.add_0_r, Hw3.
    split_and!; try done; lia.
Qed.

(** The first [i] bytes of a message are in place. *)
Definition filled (bs : list Z) s : Prop :=
  let base := rg_write s + rg_pending s in
  chunk size (rg_data s) base (base + alen bs) = bs.

Lemma filled_rely bs s s' : consumer_step s s' → filled bs s → filled bs s'.
Proof. intros [Hw _ Hpd Hd _ _ _]. unfold filled. by rewrite Hw, Hpd, Hd. Qed.

(** A byte beyond the write position is invisible to the consumer. *)
Lemma put_byte_ok s q b :
  ring_inv size s → rg_write s <= q → q - rg_read s < size →
  ∃ d, aset (rg_data s) (q mod size) b = Some d ∧
    producer_step size s (rg_with_data s d) ∧ ring_inv size (rg_with_data s d) ∧
    byte_at size d q = b ∧
    ∀ p, p < q < p + size → byte_at size d p = byte_at size (rg_data s) p.
Proof.
  intros Hi Hq Hfree. pose proof (mod_range q) as Hm. pose proof (ri_len _ _ Hi) as Hlen.
  destruct (aset_is_Some (rg_data s) (q mod size) b) as [d Hd]; [lia|].
  assert (∀ p, p < q < p + size → byte_at size d p = byte_at size (rg_data s) p) as Hother.
  { intros p Hp. unfold byte_at. rewrite (aget_aset _ _ _ _ _ Hd), (proj2 (Z.eqb_neq _ _)); [done|].
    by apply mod_distinct. }
  exists d. split; [done|].
  assert (∀ p, rg_read s <= p < rg_write s → byte_at size d p = byte_at size (rg_data s) p) as Hvis.
  { intros p Hp. apply Hother. lia. }
  split_and!; try done.
  - pose proof Hi as [? ? ? ? ?]. split; simpl; try done; [by rewrite (aset_alen _ _ _ _ Hd)|].
    rewrite contents_bytes by done. done.
  - unfold byte_at. by rewrite (aget_aset _ _ _ _ _ Hd), Z.eqb_refl.
Qed.

Lemma put_bytes_safe l m off done_bs bs budget s :
  alen done_bs + alen bs = m → granted m off s → filled done_bs s → room l budget s →
  psafe (λ _ s, room l budget s ∧ granted m off s ∧ filled (done_bs ++ bs) s)
    (put_bytes (off + alen done_bs) bs) s.
Proof.
  revert done_bs s. induction bs as [|b bs IH]; intros done_bs s Hlen Hg Hf Hroom.
  { intros s1 R1 I1. rewrite app_nil_r.
    split_and!; [by eapply room_rely|by eapply granted_rely|by eapply filled_rely]. }
  intros s1 R1 I1. apply (granted_rely _ _ _ _ R1) in Hg. apply (filled_rely _ _ _ R1) in Hf.
  apply (room_rely _ _ _ _ R1) in Hroom.
  pose proof Hg as (Hpd & Hoff & Hfit & Hfree & Hmax & Hwrap).
  assert (alen (b :: bs) = alen bs + 1) as Hal by (unfold alen; simpl; lia).
  assert (0 <= alen bs ∧ 0 <= alen done_bs) as [Hn1 Hn2] by (unfold alen; lia).
  set (base := rg_write s1 + rg_pending s1) in *.
  assert (off + alen done_bs = (base + alen done_bs) mod size) as Hslot.
  { pose proof (mod_range base). rewrite Hoff. symmetry.
    rewrite <-(Z.mod_small (base mod size + alen done_bs) size) by lia.
    pose proof size_range. rewrite Zplus_mod_idemp_l. done. }
  rewrite Hslot. destruct (put_byte_ok s1 (base + alen done_bs) b) as (d & Hd & Gp & Hi & Hnew & Hold);
    [done|lia|lia|].
  exists d. split; [done|]. split; [done|]. split; [done|].
  rewrite <-Hslot. replace (off + alen done_bs + 1) with (off + alen (done_bs ++ [b])).
  2:{ unfold alen. rewrite length_app. simpl. lia. }
  rewrite cons_middle, app_assoc. apply IH; try done.
  - unfold alen in *. rewrite length_app. simpl in *. lia.
  - unfold filled. simpl. fold base.
    replace (alen (done_bs ++ [b])) with (alen done_bs + 1) by (unfold alen; rewrite length_app; simpl; lia).
    rewrite Z.add_assoc, chunk_snoc, Hnew by lia. f_equal.
    unfold filled in Hf. fold base in Hf. rewrite <-Hf at 2. apply chunk_ext.
    intros p Hp. apply Hold. pose proof (mod_range base). lia.
Qed.

(** The three stores that publish. *)
Lemma publish_ok l s m :
  ring_inv size s → room l 0 s → rg_pending s = 0 → rg_write s + alen m - rg_read s < size →
  rg_write s + alen m <= SIZE_MAX → filled m s →
  let s' := rg_mark (rg_put s WritePos (rg_write s + alen m)) (Sent m) in
  producer_step size s s' ∧ ring_inv size s'.
Proof.
  intros Hi (_ & Hmid & _) Hpd Hfit Hmax Hf s'. pose proof Hi as [H1 H2 H3 H4 H5].
  assert (0 <= alen m) by (unfold alen; lia). unfold filled in Hf. rewrite Hpd, Z.add_0_r in Hf.
  split; [split; simpl; try done; lia|]. split; simpl; try done; try lia.
  rewrite H5, <-app_assoc. f_equal. unfold contents.
  change (gap_ahead s') with (gap_ahead s). simpl.
  destruct (gap_ahead s) eqn:E.
  - apply gap_ahead_true in E.
    rewrite (chunk_app _ _ (rg_wrap_pos s + rg_wrap_len s) (rg_write s) (rg_write s + alen m)) by lia.
    by rewrite Hf, app_assoc.
  - by rewrite (chunk_app _ _ (rg_read s) (rg_write s) (rg_write s + alen m)), Hf by lia.
Qed.

(** The gap is announced before it is passed. *)
Lemma announce_pos_ok s :
  ring_inv size s → rg_wrap_len s = 0 →
  let s' := rg_put s WrapPos (rg_write s) in producer_step size s s' ∧ ring_inv size s'.
Proof.
  intros Hi Hwl s'. pose proof Hi as [H1 H2 H3 H4 H5].
  split; [split; simpl; try done; lia|]. split; simpl; try done; [lia|].
  rewrite H5. f_equal. unfold contents, gap_ahead. simpl. by rewrite Hwl.
Qed.

Lemma announce_len_ok s pd :
  ring_inv size s → rg_wrap_len s = 0 → rg_wrap_pos s = rg_write s → 0 < pd →
  rg_write s + pd <= SIZE_MAX →
  let s' := rg_put s WrapLen pd in producer_step size s s' ∧ ring_inv size s'.
Proof.
  intros Hi Hwl Hwp Hpd Hmax s'. pose proof Hi as [H1 H2 H3 H4 H5].
  split; [split; simpl; try done; lia|]. split; simpl; try done; [lia|].
  rewrite H5. f_equal. unfold contents, gap_ahead. simpl. rewrite Hwl, Hwp.
  rewrite (proj2 (Z.eqb_neq pd 0)), (proj2 (Z.leb_le (rg_read s) (rg_write s))) by lia. simpl.
  rewrite (chunk_nil _ _ (rg_write s + pd)) by lia. by rewrite app_nil_r.
Qed.

Lemma publish_wrap_ok s m :
  ring_inv size s → rg_wrap_pos s = rg_write s → rg_wrap_len s = rg_pending s →
  0 < rg_pending s → rg_write s + rg_pending s + alen m - rg_read s < size →
  rg_write s + rg_pending s + alen m <= SIZE_MAX → filled m s →
  let s' := rg_mark (rg_put s WritePos (rg_write s + rg_pending s + alen m)) (Sent m) in
  producer_step size s s' ∧ ring_inv size s'.
Proof.
  intros Hi Hwp Hwl Hpd Hfit Hmax Hf s'. pose proof Hi as [H1 H2 H3 H4 H5].
  assert (0 <= alen m) by (unfold alen; lia). unfold filled in Hf.
  split; [split; simpl; try done; lia|]. split; simpl; try done; try lia.
  rewrite H5, <-app_assoc. f_equal. unfold contents.
  assert (gap_ahead s = true) as E by (apply gap_ahead_true; lia).
  change (gap_ahead s') with (gap_ahead s). rewrite E. simpl. rewrite Hwp, Hwl, Hf.
  rewrite (chunk_nil _ _ (rg_write s + rg_pending s)) by lia. by rewrite app_nil_r.
Qed.

(** What the producer knows while it publishes [m]. *)
Definition publishing (l m : list Z) budget s : Prop :=
  rg_sent s = l ∧
  0 <= alen m ∧ 0 <= rg_pending s ∧ rg_write s + rg_pending s + alen m - rg_read s < size ∧
  rg_write s + rg_pending s + alen m <= SIZE_MAX ∧ filled m s ∧
  rg_write s + (size + alen m + budget) <= SIZE_MAX.

Lemma publishing_rely l m b s s' :
  consumer_step s s' → publishing l m b s → publishing l m b s'.
Proof.
  intros R (H0 & H1 & H2 & H3 & H4 & Hf & Hb). apply (filled_rely _ _ _ R) in Hf.
  destruct R as [Ew Ep Epd _ Es Er _]. unfold publishing. rewrite Ew, Epd, Es. split_and!; (done || lia).
Qed.

Lemma write_release_safe l m off budget s :
  granted (alen m) off s → filled m s → room l (size + alen m + budget) s →
  psafe (λ _ s, room (l ++ m) budget s) (salts_spsc_ring_write_release (alen m) m) s.
Proof.
  intros Hg Hf Hroom. assert (publishing l m budget s) as Hpub.
  { destruct Hg as (? & ? & ? & ? & ? & ?). split_and!; try done; [apply Hroom|unfold alen; lia|apply Hroom]. }
  intros s1 R1 I1. cbn. intros s2 R2 I2. cbn.
  assert (consumer_step s s2) as R by (by etrans).
  assert (rg_write s1 = rg_write s2) as -> by (symmetry; apply R2).
  apply (publishing_rely _ _ _ _ _ R) in Hpub. apply (room_rely _ _ _ _ R) in Hroom.
  apply (granted_rely _ _ _ _ R) in Hg. destruct Hg as (_ & _ & _ & _ & _ & Hwl2).
  clear Hf s R R1 s1 I1 R2. pose proof (ri_pos _ _ I2) as Hpos2.
  destruct (Z.eqb_spec (rg_pending s2) 0) as [Hp0|Hp0]; cbn.
  - intros s3 R3 I3. apply (publishing_rely _ _ _ _ _ R3) in Hpub. apply (room_rely _ _ _ _ R3) in Hroom.
    destruct Hpub as (H0 & H1 & H2 & H3 & H4 & H5 & H6).
    assert (rg_write s2 = rg_write s3 ∧ rg_pending s3 = 0) as [E Ep]
      by (destruct R3; split; congruence).
    rewrite E in *. rewrite u64_id by (unfold_words; lia).
    destruct Hroom as (_ & Hmid & _). pose proof size_range.
    destruct (publish_ok l s3 m) as [Gp Hi]; try done; [split_and!; (done || lia)|lia|lia|].
    split; [done|]. split; [done|]. intros s4 R4 I4. eapply room_rely; [done|].
    split_and!; simpl; [lia|lia|by rewrite H0].
  - specialize (Hwl2 Hp0). destruct Hwl2 as [Hwl2 _].
    intros s3 R3 I3. apply (publishing_rely _ _ _ _ _ R3) in Hpub.
    assert (rg_write s2 = rg_write s3 ∧ rg_pending s2 = rg_pending s3 ∧ rg_wrap_len s3 = 0)
      as (E & Ep & Hwl3) by (destruct R3; split_and!; try congruence; lia).
    rewrite E, Ep in *. destruct (announce_pos_ok s3) as [G3 I3']; [done..|].
    split; [done|]. split; [done|]. cbn. intros s4 R4 I4.
    assert (publishing l m budget s4) as Hpub4 by (eapply publishing_rely; [exact R4|exact Hpub]).
    clear Hpub. rename Hpub4 into Hpub.
    assert (rg_write s4 = rg_write s3 ∧ rg_pending s4 = rg_pending s3 ∧ rg_wrap_len s4 = 0 ∧
            rg_wrap_pos s4 = rg_write s4) as (Ew4 & Ep4 & Hwl4 & Hwp4).
    { destruct R4; simpl in *; split_and!; try congruence; lia. }
    destruct (announce_len_ok s4 (rg_pending s3)) as [G4 I4'];
      [done|done|done|destruct Hpub as (? & ? & ? & ? & ? & ? & ?); lia..|].
    split; [done|]. split; [done|]. cbn. intros s5 R5 I5.
    assert (publishing l m budget s5) as Hpub5 by (eapply publishing_rely; [exact R5|exact Hpub]).
    clear Hpub. rename Hpub5 into Hpub.
    pose proof (ri_pos _ _ I5) as Hpos5.
    assert (rg_write s5 = rg_write s3 ∧ rg_pending s5 = rg_pending s3 ∧
            rg_wrap_len s5 = rg_pending s5 ∧ rg_wrap_pos s5 = rg_write s5) as (Ew5 & Ep5 & Hwl5 & Hwp5).
    { destruct Hpub as (_ & _ & ? & _ & _ & _ & _). destruct R5; simpl in *; split_and!; lia. }
    destruct Hpub as (H0 & H1 & H2 & H3 & H4 & H5 & H6).
    destruct (publish_wrap_ok s5 m) as [G5 I5']; try done; [lia|].
    rewrite <-Ew5, <-Ep5, u64_id by (unfold_words; lia).
    split; [done|]. split; [done|]. cbn. intros s6 R6 I6.
    destruct (put_pending_ok s6 0 I6) as [G6 I6']. split; [done|]. split; [done|].
    intros s7 R7 I7. eapply room_rely; [exact R7|]. change (room (l ++ m) budget s6).
    eapply room_rely; [exact R6|]. pose proof size_range. split_and!; simpl; [lia|lia|by rewrite H0].
Qed.

(** The positions a list of messages can use up. *)
Definition positions (msgs : list (list Z)) : Z := foldr (λ m b, size + alen m + b) 0 msgs.

(** The producer keeps its promises for any list of messages, and what it
    sends is some of them, whole and in order. *)
Lemma producer_safe msgs l s :
  room l (positions msgs) s →
  psafe (λ _ s, ∃ ms, ms `sublist_of` msgs ∧ rg_sent s = l ++ concat ms) (producer size msgs) s.
Proof.
  revert l s. induction msgs as [|m msgs IH]; intros l s Hroom.
  { intros s1 R1 I1. exists []. split; [constructor|]. rewrite app_nil_r.
    apply (room_rely _ _ _ _ R1) in Hroom. apply Hroom. }
  cbn [producer positions foldr] in *. fold (positions msgs) in *.
  assert (0 <= positions msgs) as Hrest.
  { clear -Hk Hsize. pose proof size_range. induction msgs as [|m msgs IH]; simpl; [done|].
    assert (0 <= alen m) by (unfold alen; lia). lia. }
  assert (0 <= alen m) by (unfold alen; lia). pose proof size_range.
  eapply (safe_bind (ring_inv size) consumer_step (producer_step size)).
  { by apply (write_acquire_safe l (alen m) (size + alen m + positions msgs)); [lia|lia|]. }
  intros [off|] s1 I1 [Hroom1 Hg].
  2:{ eapply safe_post; [|apply (IH l); destruct Hroom1 as (? & ? & ?); split_and!; (done || lia)].
      intros a s2 (ms & Hsub & Hs). exists ms. split; [by constructor|done]. }
  eapply (safe_bind (ring_inv size) consumer_step (producer_step size)).
  { pose proof (put_bytes_safe l (alen m) off [] m (size + alen m + positions msgs) s1) as Hput.
    change (alen []) with 0 in Hput. rewrite Z.add_0_r in Hput. apply Hput; try done.
    unfold filled. change (alen []) with 0. apply chunk_nil. lia. }
  intros [] s2 I2 (Hroom2 & Hg2 & Hf2).
  eapply (safe_bind (ring_inv size) consumer_step (producer_step size)).
  { by apply (write_release_safe l m off (positions msgs)). }
  intros [] s3 I3 Hroom3. eapply safe_post; [|by apply (IH (l ++ m))].
  intros a s4 (ms & Hsub & Hs). exists (m :: ms). split; [by constructor|].
  simpl. by rewrite Hs, <-app_assoc.
Qed.

(** ** The consumer *)

Local Abbreviation csafe := (safe (ring_inv size) (producer_step size) consumer_step).

(** No skipped gap is left to clear. *)
Definition cidle s : Prop := rg_wrap_len s = 0 ∨ rg_read s <= rg_wrap_pos s.

Lemma cidle_rely s s' : producer_step size s s' → ring_inv size s → cidle s → cidle s'.
Proof.
  intros [Er _ Hw Hwrap Hnew _] Hi Hc. pose proof (ri_pos _ _ Hi). unfold cidle in *. rewrite Er.
  destruct (decide (rg_wrap_len s = 0)) as [H0|H0]; [|specialize (Hwrap H0); lia].
  destruct (decide (rg_wrap_len s' = 0)); [by left|]. specialize (Hnew H0 ltac:(done)). lia.
Qed.

(** The next [n] positions hold unread bytes and no gap. *)
Definition readable (n : Z) s : Prop :=
  0 <= n ∧ rg_read s + n <= rg_write s ∧ (rg_wrap_len s ≠ 0 → rg_read s + n <= rg_wrap_pos s).

Lemma readable_rely n s s' : producer_step size s s' → readable n s → readable n s'.
Proof.
  intros [Er _ Hw Hwrap Hnew _] (H1 & H2 & H3). unfold readable. rewrite Er.
  destruct (decide (rg_wrap_len s = 0)) as [H0|H0].
  - split_and!; lia.
  - destruct (Hwrap H0) as [E1 E2]. rewrite E1, E2. split_and!; (done || lia).
Qed.

Lemma readable_cidle n s : readable n s → cidle s.
Proof. intros (H1 & H2 & H3). unfold cidle. lia. Qed.

(** Passing a gap that lies wholly before the write position. *)
Lemma skip_gap_ok s :
  ring_inv size s → rg_wrap_len s ≠ 0 → rg_read s = rg_wrap_pos s →
  rg_wrap_pos s + rg_wrap_len s <= rg_write s →
  let s' := rg_put s ReadPos (rg_read s + rg_wrap_len s) in
  consumer_step s s' ∧ ring_inv size s'.
Proof.
  intros Hi Hwl Heq Hle s'. pose proof Hi as [H1 H2 H3 H4 H5].
  split; [split; simpl; try done; lia|]. split; simpl; try done; try lia.
  rewrite H5. f_equal. unfold contents.
  assert (gap_ahead s = true) as -> by (apply gap_ahead_true; lia).
  assert (gap_ahead s' = false) as ->.
  { apply not_true_iff_false. rewrite gap_ahead_true. simpl. lia. }
  simpl. rewrite (chunk_nil _ _ (rg_read s)) by lia. simpl. by rewrite Heq.
Qed.

Lemma clear_gap_ok s :
  ring_inv size s → rg_wrap_pos s + rg_wrap_len s <= rg_read s → 0 <= rg_wrap_len s →
  let s' := rg_put s WrapLen 0 in consumer_step s s' ∧ ring_inv size s'.
Proof.
  intros Hi Hle Hpos s'. pose proof Hi as [H1 H2 H3 H4 H5].
  split; [split; simpl; try done; lia|]. split; simpl; try done; try lia.
  rewrite H5. f_equal. unfold contents.
  assert (gap_ahead s = false) as ->.
  { apply not_true_iff_false. rewrite gap_ahead_true. lia. }
  done.
Qed.

Lemma take_ok s n bs :
  ring_inv size s → readable n s → bs = chunk size (rg_data s) (rg_read s) (rg_read s + n) →
  let s' := rg_mark (rg_put s ReadPos (rg_read s + n)) (Received bs) in
  consumer_step s s' ∧ ring_inv size s' ∧ cidle s'.
Proof.
  intros Hi (Hn & Hw & Hwrap) -> s'. pose proof Hi as [H1 H2 H3 H4 H5].
  split; [split; simpl; try done; lia|]. split; [|unfold cidle; simpl; lia].
  split; simpl; try done; try lia.
  rewrite H5, <-app_assoc. f_equal. unfold contents.
  destruct (gap_ahead s) eqn:E.
  - apply gap_ahead_true in E. assert (gap_ahead s' = true) as -> by (apply gap_ahead_true; simpl; lia).
    simpl. rewrite (chunk_app _ _ (rg_read s) (rg_read s + n) (rg_wrap_pos s)), <-app_assoc by lia. done.
  - assert (gap_ahead s' = false) as ->.
    { apply not_true_iff_false in E. apply not_true_iff_false. rewrite gap_ahead_true in *. simpl. lia. }
    simpl. by rewrite (chunk_app _ _ (rg_read s) (rg_read s + n) (rg_write s)) by lia.
Qed.

(** What the client is offered. *)
Definition offered (r : option (Z * Z)) s : Prop :=
  match r with
  | None => cidle s
  | Some (off, n) => off = rg_read s mod size ∧ off + n <= size ∧ 0 < n ∧ readable n s
  end.

Lemma offered_rely r s s' :
  producer_step size s s' → ring_inv size s → offered r s → offered r s'.
Proof.
  intros R Hi. destruct r as [[off n]|]; simpl; [|by apply cidle_rely].
  intros (H1 & H2 & H3 & H4). rewrite (ps_read _ _ _ R). split_and!; try done.
  by eapply readable_rely.
Qed.

Lemma read_window_ok s n write wl wp :
  0 <= rg_read s → readable n s →
  (if negb (wl =? 0) && (rg_read s <? wp) then wp - rg_read s else u64 (write - rg_read s)) = n →
  offered (read_window size (rg_read s) write wl wp) s.
Proof.
  intros Hr Hn Heq. unfold read_window. rewrite Heq.
  destruct (Z.eqb_spec n 0) as [->|Hne]; [by eapply readable_cidle|].
  rewrite land_mask by done. pose proof (mod_range (rg_read s)).
  destruct Hn as (H1 & H2 & H3). simpl. case Z.ltb_spec; intros; split_and!; try done; try lia;
    split_and!; lia.
Qed.

Lemma read_acquire_safe s :
  ring_inv size s → cidle s → csafe offered (salts_spsc_ring_read_acquire size) s.
Proof.
  intros I0 Hc0. pose proof size_range as Hsz. intros s1 R1 I1.
  cbn. intros s2 R2 I2. cbn. intros s3 R3 I3. cbn. intros s4 R4 I4. cbn.
  assert (rg_read s1 = rg_read s4 ∧ rg_read s2 = rg_read s4 ∧ rg_write s2 <= rg_write s3) as (E1 & E2 & Hw3).
  { rewrite (ps_read _ _ _ R4), (ps_read _ _ _ R3), (ps_read _ _ _ R2).
    pose proof (ps_write _ _ _ R3). done. }
  assert (rg_write s2 <= rg_write s4) as Hw4 by (pose proof (ps_write _ _ _ R4); lia).
  assert (cidle s4) as Hc4.
  { eapply cidle_rely; [exact R4|done|]. eapply cidle_rely; [exact R3|done|].
    eapply cidle_rely; [exact R2|done|]. by apply (cidle_rely s). }
  rewrite E1. pose proof (ri_pos _ _ I4) as Hp4. pose proof (ri_pos _ _ I2) as Hp2. rewrite E2 in Hp2.
  assert (∀ n, 0 <= n → u64 (rg_write s2 - (rg_read s4 + n)) = rg_write s2 - (rg_read s4 + n) ∨
            rg_write s2 < rg_read s4 + n) as Hu.
  { intros n Hn. destruct (decide (rg_write s2 < rg_read s4 + n)); [by right|left].
    apply u64_id. unfold_words. lia. }
  destruct (Z.eqb_spec (rg_wrap_len s3) 0) as [H0|H0]; cbn.
  - intros s5 R5 I5. eapply offered_rely; [exact R5|done|].
    apply (read_window_ok s4 (rg_write s2 - rg_read s4)); [lia| |].
    + eapply readable_rely; [exact R4|]. unfold readable.
      rewrite <-(ps_read _ _ _ R4). lia.
    + rewrite H0. simpl. destruct (Hu 0) as [Hx|Hx]; [done| |lia]. by rewrite Z.add_0_r in Hx.
  - destruct (ps_wrap _ _ _ R4 H0) as [Ewl Ewp]. rewrite <-Ewl in *.
    pose proof (ri_wrap _ _ I4) as Hwrap4.
    destruct (Z.eqb_spec (rg_read s4) (rg_wrap_pos s4)) as [Heq|Hne]; cbn.
    + rewrite u64_id by (unfold_words; lia).
      destruct (Z.ltb_spec (rg_write s2) (rg_read s4 + rg_wrap_len s4)) as [Hlt|Hge].
      { intros s5 R5 I5. by apply (cidle_rely s4). }
      cbn. intros s5 R5 I5. destruct (ps_wrap _ _ _ R5 H0) as [Ewl5 Ewp5].
      pose proof (ps_read _ _ _ R5) as Er5. pose proof (ps_write _ _ _ R5) as Hw5.
      rewrite <-Er5, <-Ewl5. destruct (skip_gap_ok s5) as [G5 I5']; [done|lia..|].
      split; [done|]. split; [done|]. intros s6 R6 I6.
      destruct (ps_wrap _ _ _ R6) as [Ewl6 Ewp6]; [simpl; lia|].
      pose proof (ps_read _ _ _ R6) as Er6. pose proof (ps_write _ _ _ R6) as Hw6. simpl in *.
      destruct (clear_gap_ok s6) as [G6 I6']; [done|lia..|]. split; [done|]. split; [done|].
      intros s7 R7 I7. eapply offered_rely; [exact R7|done|].
      rewrite <-Er6. change (rg_read s6) with (rg_read (rg_put s6 WrapLen 0)).
      apply (read_window_ok (rg_put s6 WrapLen 0) (rg_write s2 - rg_read s6)); simpl; [lia| |].
      * unfold readable. simpl. lia.
      * rewrite (proj2 (Z.ltb_ge (rg_read s6) (rg_wrap_pos s4))), andb_false_r by lia.
        apply u64_id. unfold_words. lia.
    + intros s5 R5 I5. eapply offered_rely; [exact R5|done|].
      destruct Hc4 as [?|Hc4]; [lia|].
      apply (read_window_ok s4 (rg_wrap_pos s4 - rg_read s4)); [lia| |].
      * unfold readable. lia.
      * rewrite (proj2 (Z.eqb_neq (rg_wrap_len s4) 0)), (proj2 (Z.ltb_lt (rg_read s4) (rg_wrap_pos s4))) by lia.
        done.
Qed.

(** The next [alen l] bytes are [l]. *)
Definition pinned (l : list Z) s : Prop :=
  readable (alen l) s ∧ chunk size (rg_data s) (rg_read s) (rg_read s + alen l) = l.

Lemma pinned_rely l s s' : producer_step size s s' → pinned l s → pinned l s'.
Proof.
  intros R [Hr Hl]. split; [by eapply readable_rely|]. rewrite !(ps_read _ _ _ R).
  etrans; [|exact Hl]. apply chunk_ext. intros p Hp. apply (ps_bytes _ _ _ R).
  destruct Hr as (_ & Hr & _). lia.
Qed.

Lemma pinned_lookup l s i b :
  pinned l s → 0 <= i < alen l → aget (rg_data s) ((rg_read s + i) mod size) = Some b →
  l !! Z.to_nat i = Some b.
Proof.
  intros [_ Hl] Hi Hb. rewrite <-Hl. unfold chunk.
  rewrite list_lookup_fmap.
  assert (seqZ (rg_read s) (rg_read s + alen l - rg_read s) !! Z.to_nat i = Some (rg_read s + i)) as ->
    by (apply lookup_seqZ; lia).
  simpl. unfold byte_at. by rewrite Hb.
Qed.

Lemma get_bytes_safe l off i cnt s :
  off = rg_read s mod size → off + alen l <= size → pinned l s →
  0 <= i → i + Z.of_nat cnt = alen l →
  csafe (λ bs s, pinned l s ∧ bs = drop (Z.to_nat i) l) (get_bytes (off + i) cnt) s.
Proof.
  revert i s. induction cnt as [|cnt IH]; intros i s Hoff Hfit Hp Hi Hcnt.
  { intros s1 R1 I1. split; [by eapply pinned_rely|]. rewrite drop_ge; [done|]. unfold alen in *. lia. }
  intros s1 R1 I1. apply (pinned_rely _ _ _ R1) in Hp.
  rewrite <-(ps_read _ _ _ R1) in Hoff. clear R1 s.
  pose proof (mod_range (rg_read s1)) as Hm. pose proof (ri_len _ _ I1) as Hlen.
  assert (off + i = (rg_read s1 + i) mod size) as Hslot.
  { rewrite Hoff. symmetry. rewrite <-(Z.mod_small (rg_read s1 mod size + i) size) by lia.
    by rewrite Zplus_mod_idemp_l. }
  destruct (aget_in_bounds (rg_data s1) (off + i)) as [b Hb]; [lia|]. exists b. split; [done|].
  assert (l !! Z.to_nat i = Some b) as Hlb.
  { apply (pinned_lookup l s1); [done|lia|by rewrite <-Hslot]. }
  eapply (safe_bind (ring_inv size) (producer_step size) consumer_step).
  { rewrite <-Z.add_assoc. apply (IH (i + 1) s1); try done; lia. }
  intros bs s2 I2 [Hp2 ->]. intros s3 R3 I3. split; [by eapply pinned_rely|].
  rewrite (drop_S _ _ _ Hlb). do 2 f_equal. lia.
Qed.

Lemma read_release_safe l s :
  pinned l s → csafe (λ _ s, cidle s) (salts_spsc_ring_read_release (alen l) l) s.
Proof.
  intros Hp s1 R1 I1. cbn. intros s2 R2 I2.
  apply (pinned_rely _ _ _ R1) in Hp. apply (pinned_rely _ _ _ R2) in Hp.
  rewrite <-(ps_read _ _ _ R2). pose proof Hp as [(Hr1 & Hr2 & Hr3) Hl].
  pose proof (ri_pos _ _ I2). rewrite u64_id by (unfold_words; lia).
  destruct (take_ok s2 (alen l) l) as (G2 & I2' & Hc); [done|apply Hp|done|].
  split; [done|]. split; [done|]. intros s3 R3 I3. by eapply cidle_rely.
Qed.

Lemma consumer_safe n limit s :
  ring_inv size s → 0 <= limit → cidle s → csafe (λ _ s, cidle s) (consumer size n limit) s.
Proof.
  intros I0 Hlim. revert s I0. induction n as [|n IH]; intros s I0 Hc.
  { intros s1 R1 I1. by eapply cidle_rely. }
  cbn [consumer]. eapply (safe_bind (ring_inv size) (producer_step size) consumer_step).
  { by apply read_acquire_safe. }
  intros [[off avail]|] s1 I1 Hoff; [|by apply IH].
  destruct Hoff as (-> & Hfit & Hav & (Hr1 & Hr2 & Hr3)).
  set (count := Z.min avail limit).
  set (l := chunk size (rg_data s1) (rg_read s1) (rg_read s1 + count)).
  assert (alen l = count) as Hl by (subst l; rewrite chunk_length; lia).
  assert (pinned l s1) as Hp.
  { split; rewrite Hl; [unfold readable; split_and!; lia|done]. }
  eapply (safe_bind (ring_inv size) (producer_step size) consumer_step).
  { pose proof (get_bytes_safe l (rg_read s1 mod size) 0 (Z.to_nat count) s1) as Hget.
    rewrite Z.add_0_r in Hget. apply Hget; try done; lia. }
  intros bs s2 I2 [Hp2 ->]. change (drop (Z.to_nat 0) l) with l. rewrite <-Hl.
  eapply (safe_bind (ring_inv size) (producer_step size) consumer_step); [by apply read_release_safe|].
  intros [] s3 I3 Hc3. by apply IH.
Qed.
End Threads.

Lemma spsc_init_ok storage size s0 :
  salts_spsc_ring_init storage size = Some s0 → 0 <= size <= SIZE_MAX → alen storage = size →
  ∃ k, 0 <= k < 64 ∧ size = 2 ^ k ∧ ring_inv size s0 ∧ s0 = Ring 0 0 0 0 0 storage [] [].
Proof.
  unfold salts_spsc_ring_init. intros Hinit Hsz Hlen.
  destruct (salts_spsc_ring_power_of_two size) eqn:Hpow; [|done]. injection Hinit as <-.
  apply power_of_two_spec in Hpow as (k & Hk & Hsize); [|lia]. exists k.
  assert (k < 64).
  { destruct (decide (k < 64)); [done|exfalso].
    assert (2 ^ 64 <= 2 ^ k) by (apply Z.pow_le_mono_r; lia). unfold_words. lia. }
  pose proof (Z.pow_pos_nonneg 2 k). split_and!; try done; try lia.
  split; simpl; try done; try lia; unfold_words; lia.
Qed.

(** C30. First in, first out, in every interleaving: whatever the order in
    which the atomic actions of one producer and one consumer are taken, no
    byte outside the storage is touched, neither thread is ever stuck, and at
    every moment the bytes received so far followed by the bytes in the ring
    are exactly the bytes sent: nothing is lost, duplicated, reordered or
    overwritten, also around the gap left before the end of the storage. When
    the producer is done it has sent some of its messages, whole and in
    order. *)
Theorem spsc_fifo storage size s0 msgs n limit s p c :
  salts_spsc_ring_init storage size = Some s0 → 0 <= size <= SIZE_MAX → alen storage = size →
  positions size msgs <= SIZE_MAX → 0 <= limit →
  ring_steps (s0, producer size msgs, consumer size n limit) (s, p, c) →
  rg_sent s = rg_received s ++ contents size s ∧
  (∃ r, prog_step s p = Some r) ∧ (∃ r, prog_step s c = Some r) ∧
  (∀ a, p = Ret a → ∃ ms, ms `sublist_of` msgs ∧ rg_sent s = concat ms).
Proof.
  intros Hinit Hsz Hlen Hpos Hlim Hsteps.
  destruct (spsc_init_ok storage size s0) as (k & Hk & Hsize & Hi0 & Hs0); [done..|].
  pose proof (parallel_safe (ring_inv size) (producer_step size) consumer_step
    (λ _ s, ∃ ms, ms `sublist_of` msgs ∧ rg_sent s = [] ++ concat ms) (λ _ s, cidle s) _ _
    (producer_step_pre size) consumer_step_pre Hsteps Hi0) as Hpar.
  destruct Hpar as (Hi & Hp & Hc & Hsp & _).
  - apply (producer_safe size k Hk Hsize). subst s0. unfold room. simpl. split_and!; try done; lia.
  - apply (consumer_safe size k Hk Hsize); [done|done|]. subst s0. by left.
  - split; [apply Hi|]. split; [done|]. split; [done|]. intros a ->.
    apply (Hsp s); [|done]. apply consumer_step_pre.
Qed.

Lemma spsc_fifo_witness :
  ∃ s, rg_sent s = [1; 2] ∧ rg_sent s = rg_received s ++ contents 4 s.
Proof.
  exists (Ring 2 0 0 0 0 [1; 2; 0; 0] [1; 2] []). split; [reflexivity|].
  apply (spsc_fifo [0; 0; 0; 0] 4 (Ring 0 0 0 0 0 [0; 0; 0; 0] [] []) [[1; 2]] 1 4 _ (Ret tt)
           (consumer 4 1 4)).
  - reflexivity.
  - unfold_words; lia.
  - reflexivity.
  - vm_compute. discriminate.
  - lia.
  - do 8 (eapply steps_step; [apply step_producer; reflexivity|]). apply steps_refl.
Defined.

(** ** One thread at a time *)

(** A program run without interference. *)
Fixpoint prog_run {A} (s : ring) (p : prog A) : option (ring * A) :=
  match p with
  | Ret a => Some (s, a)
  | Load v k => prog_run s (k (rg_get s v))
  | Store v x m k => prog_run (rg_mark (rg_put s v x) m) k
  | GetByte i k => b ← aget (rg_data s) i; prog_run s (k b)
  | PutByte i b k => d ← aset (rg_data s) i b; prog_run (rg_with_data s d) k
  end.

(** The two counters, on a ring at rest: [read_available] counts exactly
    the bytes in the ring, the gap excluded, and a write of [m] bytes is
    granted exactly when it fits: behind the write position when the rest of
    the storage is long enough, and otherwise at its start when no earlier gap
    is pending and the rest of the storage can be given up. *)
Theorem spsc_available_exact size k s m :
  0 <= k < 64 → size = 2 ^ k → ring_inv size s → cidle s →
  (rg_wrap_len s = 0 ∨ rg_wrap_pos s + rg_wrap_len s <= rg_write s) → 0 <= m →
  size + m <= SIZE_MAX →
  prog_run s salts_spsc_ring_read_available = Some (s, alen (contents size s)) ∧
  ∃ free, prog_run s (salts_spsc_ring_write_available size) = Some (s, free) ∧
    free = size - 1 - (rg_write s - rg_read s) ∧ 0 <= free ∧
    ((∃ s' off, prog_run s (salts_spsc_ring_write_acquire size m) = Some (s', Some off)) ↔
      m <= free ∧
      (m <= size - rg_write s mod size ∨
       rg_wrap_len s = 0 ∧ m + (size - rg_write s mod size) <= free)).
Proof.
  intros Hk Hsize Hi Hc Hmid Hm Hmax. pose proof (size_range size k Hk Hsize) as Hsz.
  pose proof Hi as [H1 H2 H3 H4 H5]. unfold cidle in Hc.
  assert (u64 (rg_write s - rg_read s) = rg_write s - rg_read s) as Eu by (apply u64_id; unfold_words; lia).
  split.
  - cbn. unfold contents. destruct (gap_ahead s) eqn:E.
    + apply gap_ahead_true in E. rewrite (proj2 (Z.eqb_neq (rg_wrap_len s) 0)) by lia. cbn.
      unfold alen. rewrite length_app, Nat2Z.inj_add. fold (alen (chunk size (rg_data s) (rg_read s) (rg_wrap_pos s))).
      fold (alen (chunk size (rg_data s) (rg_wrap_pos s + rg_wrap_len s) (rg_write s))).
      rewrite !chunk_length by lia.
      rewrite !u64_id by (unfold_words; lia).
      destruct (Z.eqb_spec (rg_read s) (rg_wrap_pos s)); cbn.
      * rewrite (proj2 (Z.leb_le _ _)) by lia. cbn. f_equal. f_equal. lia.
      * rewrite (proj2 (Z.ltb_lt _ _)), (proj2 (Z.leb_le _ _)) by lia. cbn. f_equal. f_equal. lia.
    + apply not_true_iff_false in E. rewrite gap_ahead_true in E.
      rewrite (proj2 (Z.eqb_eq (rg_wrap_len s) 0)) by lia. cbn. rewrite chunk_length, Eu by lia. done.
  - assert (u64 (size - (rg_write s - rg_read s) - 1) = size - 1 - (rg_write s - rg_read s)) as Ef.
    { rewrite u64_id by (unfold_words; lia). lia. }
    eexists. split; [cbn; by rewrite Eu, Ef|]. split; [done|]. split; [lia|].
    cbn. rewrite Eu, Ef, (land_mask size k) by (done || lia).
    pose proof (mod_range size k Hk Hsize (rg_write s)) as Hmod.
    set (off := rg_write s mod size) in *.
    destruct (Z.leb_spec size m), (Z.ltb_spec (size - 1 - (rg_write s - rg_read s)) m); cbn;
      try (split; [by intros (? & ? & ?)|lia]).
    destruct (Z.ltb_spec (size - off) m); cbn; [|split; [intros _; lia|by eauto]].
    rewrite u64_id by (unfold_words; lia).
    destruct (Z.eqb_spec (rg_wrap_len s) 0); cbn; [|split; [by intros (? & ? & ?)|lia]].
    destruct (Z.ltb_spec (size - 1 - (rg_write s - rg_read s)) (m + (size - off))); cbn.
    + split; [by intros (? & ? & ?)|lia].
    + split; [intros _; lia|by eauto].
Qed.

Lemma spsc_available_exact_witness :
  let s := Ring 2 0 0 0 0 [1; 2; 0; 0] [1; 2] [] in
  prog_run s salts_spsc_ring_read_available = Some (s, alen (contents 4 s)).
Proof.
  intros s. apply (spsc_available_exact 4 2 s 1).
  - lia.
  - reflexivity.
  - split; simpl; try reflexivity; unfold_words; lia.
  - left. reflexivity.
  - left. reflexivity.
  - lia.
  - unfold_words. lia.
Defined.
