(* ===== verification/MemoryPool.v ===== *)
(** * The arena allocator ([utils/src/memory_pool.c])

    Bump allocation with explicit alignment and stack-style release. *)

From S2P Require Import Prelude.
Local Open Scope Z_scope.

(** [pool] is the address of the storage; its bytes are not read by the
    allocator. *)
Record MemoryPool := MkMemoryPool {
  mp_pool : Z;
  mp_size : Z;
  mp_used : Z;
  mp_peak_used : Z;
  mp_alloc_count : Z
}.

(** [alignof(max_align_t)] on a 64-bit target. *)
Definition MEMORY_POOL_DEFAULT_ALIGNMENT : Z := 16.

(** [base] is what [malloc] returns for the storage, [None] for [NULL]; [hdr]
    tells whether the descriptor could be allocated. *)
Definition pool_create (hdr : bool) (base : option Z) (size : Z) : option MemoryPool :=
  if negb hdr then None else b ← base; Some (MkMemoryPool b size 0 0 0).

(** The pointer, [None] for [NULL], and the pool. *)
Definition pool_alloc_aligned (pool : option MemoryPool) (size alignment : Z) :
    option Z * option MemoryPool :=
  match pool with
  | None => (None, pool)
  | Some p =>
      if size =? 0 then (None, pool) else
      if (alignment =? 0) || negb (Z.land alignment (u64 (alignment - 1)) =? 0) then (None, pool) else
      if mp_size p <? mp_used p then (None, pool) else
      if u64 (SIZE_MAX - (alignment - 1)) <? mp_used p then (None, pool) else
      let mask := u64 (alignment - 1) in
      let aligned_offset := Z.land (u64 (mp_used p + mask)) (u64 (Z.lnot mask)) in
      if mp_size p <? aligned_offset then (None, pool) else
      if u64 (mp_size p - aligned_offset) <? size then (None, pool) else
      let new_used := u64 (aligned_offset + size) in
      if new_used <? mp_used p then (None, pool) else
      (Some (mp_pool p + aligned_offset),
       Some (MkMemoryPool (mp_pool p) (mp_size p) new_used
               (if mp_peak_used p <? new_used then new_used else mp_peak_used p)
               (u64 (mp_alloc_count p + 1))))
  end.

#[global] Arguments pool_alloc_aligned : simpl never.

Definition pool_alloc (pool : option MemoryPool) (size : Z) : option Z * option MemoryPool :=
  match pool with
  | None => (None, pool)
  | Some _ =>
      if size =? 0 then (None, pool)
      else pool_alloc_aligned pool size MEMORY_POOL_DEFAULT_ALIGNMENT
  end.

Definition pool_set_used (p : MemoryPool) (u : Z) : MemoryPool :=
  MkMemoryPool (mp_pool p) (mp_size p) u (mp_peak_used p) (mp_alloc_count p).

Definition pool_reset (pool : option MemoryPool) : option MemoryPool :=
  match pool with None => None | Some p => Some (pool_set_used p 0) end.

Definition pool_get_used (pool : option MemoryPool) : Z :=
  match pool with None => 0 | Some p => mp_used p end.

Definition pool_get_available (pool : option MemoryPool) : Z :=
  match pool with None => 0 | Some p => u64 (mp_size p - mp_used p) end.

Definition pool_get_peak (pool : option MemoryPool) : Z :=
  match pool with None => 0 | Some p => mp_peak_used p end.

Definition pool_mark (pool : option MemoryPool) : Z :=
  match pool with None => 0 | Some p => mp_used p end.

Definition pool_rewind (pool : option MemoryPool) (mark : Z) : option MemoryPool :=
  match pool with
  | None => None
  | Some p => Some (if mark <=? mp_used p then pool_set_used p mark else p)
  end.

Record pool_inv (p : MemoryPool) : Prop := {
  pi_size : is_u64 (mp_size p);
  pi_used : 0 <= mp_used p <= mp_size p;
  pi_peak : mp_used p <= mp_peak_used p <= mp_size p
}.

Lemma pool_alloc_cases p size alignment :
  pool_inv p → is_u64 size → is_u64 alignment →
  let off := round_up (mp_used p) alignment in
  let granted := size ≠ 0 ∧ (∃ k, 0 <= k < 64 ∧ alignment = 2 ^ k) ∧ off + size <= mp_size p in
  (granted ∧ ∃ p', pool_alloc_aligned (Some p) size alignment = (Some (mp_pool p + off), Some p') ∧
     pool_inv p' ∧ mp_used p <= off ∧ (alignment | off) ∧ mp_used p' = off + size ∧
     mp_peak_used p' = Z.max (mp_peak_used p) (off + size) ∧ mp_size p' = mp_size p ∧
     mp_pool p' = mp_pool p) ∨
  (¬ granted ∧ pool_alloc_aligned (Some p) size alignment = (None, Some p)).
Proof.
  intros Hp Hs Ha off granted. destruct Hp as [Hsz Hu Hpk].
  unfold pool_alloc_aligned, granted.
  destruct (Z.eqb_spec size 0) as [->|Hs0]; [right; split; [tauto|done]|].
  destruct (Z.eqb_spec alignment 0) as [->|Ha0]; simpl.
  { right. split; [|done]. intros (_ & (k & Hk & Heq) & _). pose proof (Z.pow_pos_nonneg 2 k). lia. }
  destruct (Z.eqb_spec (Z.land alignment (u64 (alignment - 1))) 0) as [Hpow|Hpow]; simpl.
  2:{ right. split; [|done]. intros (_ & Hk & _). apply Hpow, pow2_test; [unfold_words; lia|done]. }
  apply pow2_test in Hpow as (k & Hk & ->); [|unfold_words; lia].
  assert (0 < 2 ^ k < 2 ^ 64) as [Hpos Hlt].
  { split; [apply Z.pow_pos_nonneg; lia|apply Z.pow_lt_mono_r; lia]. }
  rewrite (proj2 (Z.ltb_ge _ _)) by lia.
  rewrite !(u64_id (SIZE_MAX - _)), !(u64_id (2 ^ k - 1)) by (unfold_words; lia).
  destruct (Z.ltb_spec (SIZE_MAX - (2 ^ k - 1)) (mp_used p)) as [Hover|Hover].
  { right. split; [|done]. intros (_ & _ & Hfit).
    assert (mp_used p <= off ∧ (2 ^ k | off)) as [Hle [q Hq]].
    { pose proof (Z.div_mod (mp_used p + 2 ^ k - 1) (2 ^ k)).
      pose proof (Z.mod_pos_bound (mp_used p + 2 ^ k - 1) (2 ^ k)).
      split; [unfold off, round_up; lia|]. by exists ((mp_used p + 2 ^ k - 1) / 2 ^ k). }
    assert (2 ^ 64 = 2 ^ (64 - k) * 2 ^ k) as E by (rewrite <-Z.pow_add_r by lia; f_equal; lia).
    pose proof (Z.pow_pos_nonneg 2 (64 - k)). unfold_words. change (2 ^ 64) with 18446744073709551616 in *.
    assert (2 ^ (64 - k) - 1 < q) by nia. nia. }
  destruct (align_up (mp_used p) k) as (q & -> & Hq); [done|unfold_words; lia|lia|].
  pose proof (round_up_unique (mp_used p) (2 ^ k) q Hpos Hq) as Hoff. fold off in Hoff. rewrite <-Hoff in *.
  destruct (Z.ltb_spec (mp_size p) off) as [Hbig|Hbig]; [right; split; [unfold_words; lia|done]|].
  rewrite (u64_id (mp_size p - off)) by (unfold_words; lia).
  destruct (Z.ltb_spec (mp_size p - off) size) as [Hno|Hfit]; [right; split; [lia|done]|].
  rewrite !(u64_id (off + size)) by (unfold_words; lia).
  rewrite (proj2 (Z.ltb_ge (off + size) _)) by (unfold_words; lia).
  left. split; [split_and!; [done|by exists k|lia]|]. eexists. split; [done|].
  split_and!; simpl; try done; try lia.
  - split; simpl; [done|unfold_words; lia|]. case Z.ltb_spec; unfold_words; lia.
  - by exists q.
  - case Z.ltb_spec; lia.
Qed.

(** Allocation is exact: it succeeds precisely for a non-zero size and a
    power-of-two alignment when the block fits behind the next multiple of the
    alignment; the block then starts at that multiple, ends within the
    storage, and the pool grows to its end; otherwise nothing changes. The
    arithmetic never wraps, whatever the size requested. *)
Theorem pool_alloc_aligned_exact p size alignment :
  pool_inv p → is_u64 size → is_u64 alignment →
  let off := round_up (mp_used p) alignment in
  let granted := size ≠ 0 ∧ (∃ k, 0 <= k < 64 ∧ alignment = 2 ^ k) ∧ off + size <= mp_size p in
  (granted ∧ ∃ p', pool_alloc_aligned (Some p) size alignment = (Some (mp_pool p + off), Some p') ∧
     pool_inv p' ∧ mp_used p <= off ∧ (alignment | off) ∧ mp_used p' = off + size ∧
     mp_peak_used p' = Z.max (mp_peak_used p) (off + size) ∧ mp_size p' = mp_size p ∧
     mp_pool p' = mp_pool p) ∨
  (¬ granted ∧ pool_alloc_aligned (Some p) size alignment = (None, Some p)).
Proof. apply pool_alloc_cases. Qed.

Lemma pool_alloc_aligned_exact_witness :
  ∃ p', pool_alloc_aligned (Some (MkMemoryPool 4096 64 3 3 1)) 8 16 = (Some 4112, Some p') ∧ mp_used p' = 24.
Proof.
  destruct (pool_alloc_aligned_exact (MkMemoryPool 4096 64 3 3 1) 8 16) as [(_ & p' & E & _ & _ & _ & U & _)|(N & _)].
  - split; simpl; unfold_words; lia.
  - unfold_words; lia.
  - unfold_words; lia.
  - exists p'. split; [exact E|exact U].
  - exfalso. apply N. split; [lia|]. split; [exists 4; lia|]. vm_compute. discriminate.
Defined.

(** ** Sequences of operations *)

(** A live block: its offset and size. *)
Definition block : Type := Z * Z.

Inductive pool_op :=
  | PoolAlloc (size alignment : Z)
  | PoolRewind (mark : Z)
  | PoolReset.

(** The pool with the blocks handed out since, newest first; a rewind or a
    reset ends the life of what lies above the mark. *)
Definition pool_exec (st : MemoryPool * list block) (op : pool_op) : MemoryPool * list block :=
  let '(p, bs) := st in
  match op with
  | PoolAlloc size alignment =>
      match pool_alloc_aligned (Some p) size alignment with
      | (Some ptr, Some p') => (p', (ptr - mp_pool p, size) :: bs)
      | _ => st
      end
  | PoolRewind mark =>
      match pool_rewind (Some p) mark with
      | Some p' => (p', filter (λ b, b.1 + b.2 <= mp_used p') bs)
      | None => st
      end
  | PoolReset =>
      match pool_reset (Some p) with
      | Some p' => (p', filter (λ b, b.1 + b.2 <= mp_used p') bs)
      | None => st
      end
  end.

Definition disjoint (b c : block) : Prop := b.1 + b.2 <= c.1 ∨ c.1 + c.2 <= b.1.

(** Live blocks are inside the used part and do not overlap. *)
Record pool_state_inv (st : MemoryPool * list block) : Prop := {
  psi_pool : pool_inv st.1;
  psi_inside b : b ∈ st.2 → 0 <= b.1 ∧ 0 < b.2 ∧ b.1 + b.2 <= mp_used st.1;
  psi_disjoint : ForallOrdPairs disjoint st.2
}.

Definition pool_op_ok (op : pool_op) : Prop :=
  match op with
  | PoolAlloc size alignment => is_u64 size ∧ is_u64 alignment
  | PoolRewind mark => is_u64 mark
  | PoolReset => True
  end.

Lemma ordpairs_filter (P : block → Prop) `{∀ b, Decision (P b)} bs :
  ForallOrdPairs disjoint bs → ForallOrdPairs disjoint (filter P bs).
Proof.
  induction 1 as [|b bs Hb _ IH]; [constructor|]. rewrite filter_cons.
  case_decide; [|done]. constructor; [|done]. apply List.Forall_forall. intros c Hc.
  apply list_elem_of_In, list_elem_of_filter in Hc as [_ Hc].
  apply (proj1 (List.Forall_forall _ _) Hb). by apply list_elem_of_In.
Qed.

(** Releasing down to [u]. *)
Lemma pool_release_inv p bs u :
  pool_state_inv (p, bs) → 0 <= u <= mp_used p →
  pool_state_inv (pool_set_used p u, filter (λ b, b.1 + b.2 <= u) bs).
Proof.
  intros [[Hs Hu Hp] Hin Hd] Hle. simpl in *. split; simpl.
  - split; simpl; (done || lia).
  - intros b [Hb1 Hb2]%list_elem_of_filter. destruct (Hin b Hb2) as (? & ? & _). done.
  - by apply ordpairs_filter.
Qed.

Lemma pool_exec_inv st op : pool_op_ok op → pool_state_inv st → pool_state_inv (pool_exec st op).
Proof.
  intros Hop Hst. destruct st as [p bs]. destruct op as [size alignment|mark|]; simpl.
  - destruct Hop as [Hs Ha]. pose proof Hst as [Hp Hin Hd]. simpl in *.
    destruct (pool_alloc_cases p size alignment Hp Hs Ha)
      as [((Hne & _ & Hfit) & p' & -> & Hp' & Hle & _ & Hu & _ & Hsz & _)|[_ ->]]; [|done].
    set (off := round_up (mp_used p) alignment) in *.
    replace (mp_pool p + off - mp_pool p) with off by lia.
    pose proof (pi_used _ Hp). split; simpl; [done| |].
    + intros b [->|Hb]%elem_of_cons; simpl; [unfold_words; lia|].
      destruct (Hin b Hb) as (? & ? & ?). unfold_words; lia.
    + constructor; [|done]. apply List.Forall_forall. intros b Hb%list_elem_of_In.
      destruct (Hin b Hb) as (? & ? & ?). right. simpl. lia.
  - destruct (Z.leb_spec mark (mp_used p)).
    + apply pool_release_inv; [done|]. simpl in *. unfold is_u64, UINT64_MAX in *; lia.
    + rewrite filter_all; [done|]. intros b Hb. by apply (psi_inside _ Hst).
  - apply pool_release_inv; [done|]. pose proof (pi_used _ (psi_pool _ Hst)). simpl in *. lia.
Qed.

(** C40. Over any sequence of allocations, rewinds and resets, at any marks,
    live blocks lie inside the used part of the storage and no two of them
    overlap; the peak never falls below the bytes in use. *)
Theorem pool_blocks_disjoint base cap ops :
  is_u64 cap → Forall pool_op_ok ops →
  ∃ p0 p bs, pool_create true (Some base) cap = Some p0 ∧
    fold_left pool_exec ops (p0, []) = (p, bs) ∧ pool_inv p ∧
    (∀ b, b ∈ bs → 0 <= b.1 ∧ 0 < b.2 ∧ b.1 + b.2 <= mp_used p) ∧ ForallOrdPairs disjoint bs.
Proof.
  intros Hcap Hops. set (p0 := MkMemoryPool base cap 0 0 0).
  assert (pool_state_inv (p0, [])) as H0.
  { split; simpl; [|set_solver|constructor]. unfold is_u64 in *. split; simpl; (done || lia). }
  assert (pool_state_inv (fold_left pool_exec ops (p0, []))) as Hend.
  { revert H0. generalize (p0, [] : list block). induction Hops as [|op ops Hop _ IH]; intros st Hst; [done|].
    simpl. apply IH. by apply pool_exec_inv. }
  destruct (fold_left pool_exec ops (p0, [])) as [p bs] eqn:E. destruct Hend as [Hp Hin Hd].
  exists p0, p, bs. done.
Qed.

Lemma pool_blocks_disjoint_witness :
  ∃ p0 p bs, pool_create true (Some 4096) 64 = Some p0 ∧
    fold_left pool_exec [PoolAlloc 8 16; PoolAlloc 4 8; PoolRewind 8; PoolAlloc 16 16] (p0, []) = (p, bs) ∧
    pool_inv p ∧ (∀ b, b ∈ bs → 0 <= b.1 ∧ 0 < b.2 ∧ b.1 + b.2 <= mp_used p) ∧
    ForallOrdPairs disjoint bs.
Proof.
  apply (pool_blocks_disjoint 4096 64); [unfold_words; lia|].
  rewrite !Forall_cons, Forall_nil. unfold pool_op_ok. unfold_words. lia.
Defined.

(** The offset is aligned, the pointer is not: the header promises a pointer
    aligned to [alignment] and shows 32 for [__m256], but [malloc] only aligns
    the storage to [alignof(max_align_t)], and the code rounds the offset. *)
Theorem pool_overaligned_pointer :
  ∃ base p', base mod MEMORY_POOL_DEFAULT_ALIGNMENT = 0 ∧
    pool_alloc_aligned (pool_create true (Some base) 1024) 32 32 = (Some base, p') ∧
    base mod 32 ≠ 0.
Proof. exists 4112. eexists. split; [reflexivity|]. split; [vm_compute; reflexivity|]. vm_compute. done. Qed.

(** For alignments up to that of the storage the pointer is aligned too. *)
Lemma pool_pointer_aligned p size alignment k ptr p' :
  pool_inv p → is_u64 size → alignment = 2 ^ k → 0 <= k < 64 → (alignment | mp_pool p) →
  pool_alloc_aligned (Some p) size alignment = (Some ptr, p') → (alignment | ptr).
Proof.
  intros Hp Hs -> Hk Hbase Hrun.
  assert (is_u64 (2 ^ k)) as Ha.
  { pose proof (Z.pow_pos_nonneg 2 k). pose proof (Z.pow_lt_mono_r 2 k 64). unfold_words. lia. }
  destruct (pool_alloc_cases p size (2 ^ k) Hp Hs Ha) as [(_ & q & E & _ & _ & Hdiv & _)|[_ E]];
    rewrite E in Hrun; [|done].
  injection Hrun as <- <-. by apply Z.divide_add_r.
Qed.
