(* ===== verification/Tlv.v ===== *)
(** * The TLV frame parser ([parser/tlv_parser/])

    CRC-32, the frame codec, the streaming parser and the statistics. *)

From Stdlib Require Import String.
From S2P Require Import Prelude Crc MemoryPool.
Local Open Scope Z_scope.

(** ** CRC-32 ([crc32.c]) *)

Definition CRC32_POLYNOMIAL : Z := 3988292384. (* 0xEDB88320 *)

(** One round of the inner loop. *)
Definition crc32_round (c : Z) : Z :=
  if negb (Z.land c 1 =? 0) then Z.lxor CRC32_POLYNOMIAL (Z.shiftr c 1) else Z.shiftr c 1.

Definition crc32_generate_table : list Z :=
  map (λ i, Nat.iter 8 crc32_round i) (seqZ 0 256).

(** The loop of [crc32_compute]; [None] would be an access outside the table. *)
Fixpoint crc32_loop (table : list Z) (buf : list Z) (c : Z) : option Z :=
  match buf with
  | [] => Some c
  | u :: buf =>
      t ← aget table (Z.land (Z.lxor c u) 255);
      crc32_loop table buf (Z.lxor t (Z.shiftr c 8))
  end.

Definition crc32_compute (table : list Z) (buf : list Z) (len : Z) : option Z :=
  bytes ← slice buf 0 len;
  c ← crc32_loop table bytes UINT32_MAX;
  Some (Z.lxor c UINT32_MAX).

#[global] Arguments crc32_compute : simpl never.

(** ** Frames ([frame.h], [frame.c]) *)

Definition FRAME_HEAD : Z := 170.
Definition FRAME_TAIL : Z := 85.
Definition FRAME_VERSION : Z := 1.
Definition MAX_PAYLOAD_SIZE : Z := 10 * 1024 * 1024.

(** Where the payload pointer of a frame points: nowhere, at an offset of the
    input, into a pool, or at memory of its own. *)
Inductive payload_ptr :=
  | PayloadNull
  | PayloadInput (off : Z)
  | PayloadPool (ptr : Z) (bytes : list Z)
  | PayloadHeap (bytes : list Z).

(** [payload_pool] is whether a pool owns the payload. *)
Record frame_t := Frame {
  fr_head : Z;
  fr_msg_id : Z;
  fr_version : Z;
  fr_payload_type : Z;
  fr_payload_size : Z;
  fr_payload : payload_ptr;
  fr_crc32 : Z;
  fr_tail : Z;
  fr_payload_pool : bool;
  fr_payload_pool_offset : Z;
  fr_payload_owned : Z
}.

Inductive ParseError :=
  | PARSE_OK
  | PARSE_ERR_TRUNCATED
  | PARSE_ERR_INVALID_HEAD
  | PARSE_ERR_INVALID_TAIL
  | PARSE_ERR_CRC_MISMATCH
  | PARSE_ERR_INVALID_VERSION
  | PARSE_ERR_PAYLOAD_TOO_LARGE
  | PARSE_ERR_OUT_OF_MEMORY
  | PARSE_ERR_INVALID_PAYLOAD_TYPE
  | PARSE_ERR_BUFFER_OVERFLOW
  | PARSE_ERR_UNKNOWN.

#[export] Instance ParseError_eq_dec : EqDecision ParseError.
Proof. solve_decision. Defined.

(** [frame_free] on a frame whose pool, if it has one, is [pool]. *)
Definition frame_free (frame : frame_t) (pool : option MemoryPool) :
    frame_t * option MemoryPool :=
  let freed ptr pp :=
    Frame (fr_head frame) (fr_msg_id frame) (fr_version frame) (fr_payload_type frame) 0
      ptr (fr_crc32 frame) (fr_tail frame) pp (fr_payload_pool_offset frame) 0 in
  match fr_payload frame with
  | PayloadNull => (freed PayloadNull (fr_payload_pool frame), pool)
  | _ =>
      if fr_payload_pool frame
      then (freed PayloadNull false, pool_rewind pool (fr_payload_pool_offset frame))
      else (freed PayloadNull false, pool)
  end.

(** [htole32] and the four bytes it leaves in memory; [le32toh] of four bytes. *)
Definition le32_bytes (v : Z) : list Z :=
  [u8 v; u8 (Z.shiftr v 8); u8 (Z.shiftr v 16); u8 (Z.shiftr v 24)].

Definition le32toh (b : list Z) : Z :=
  match b with
  | [b0; b1; b2; b3] => b0 + b1 * 2 ^ 8 + b2 * 2 ^ 16 + b3 * 2 ^ 24
  | _ => 0
  end.

(** The number of bytes written and the buffer. *)
Definition frame_pack_header (frame : frame_t) (buf : list Z) (buf_len : Z) :
    option (Z * list Z) :=
  if buf_len <? 11 then Some (0, buf) else
  buf ← blit buf 0 [fr_head frame];
  buf ← blit buf 1 (le32_bytes (fr_msg_id frame));
  buf ← blit buf 5 [fr_version frame];
  buf ← blit buf 6 [fr_payload_type frame];
  buf ← blit buf 7 (le32_bytes (u32 (fr_payload_size frame)));
  Some (11, buf).

Definition frame_validate (frame : option frame_t) : ParseError :=
  match frame with
  | None => PARSE_ERR_INVALID_HEAD
  | Some f =>
      if negb (fr_head f =? FRAME_HEAD) then PARSE_ERR_INVALID_HEAD else
      if negb (fr_tail f =? FRAME_TAIL) then PARSE_ERR_INVALID_TAIL else
      if negb (fr_version f =? FRAME_VERSION) then PARSE_ERR_INVALID_VERSION else
      if MAX_PAYLOAD_SIZE <? fr_payload_size f then PARSE_ERR_PAYLOAD_TOO_LARGE else
      if 127 <? fr_payload_type f then PARSE_ERR_INVALID_PAYLOAD_TYPE else
      PARSE_OK
  end.

Definition frame_validate_header (head version : Z) : ParseError :=
  if negb (head =? FRAME_HEAD) then PARSE_ERR_INVALID_HEAD else
  if negb (version =? FRAME_VERSION) then PARSE_ERR_INVALID_VERSION else PARSE_OK.

Definition frame_validate_payload_size (size : Z) : ParseError :=
  if MAX_PAYLOAD_SIZE <? size then PARSE_ERR_PAYLOAD_TOO_LARGE else PARSE_OK.

Definition frame_validate_payload_type (type : Z) : ParseError :=
  if 127 <? type then PARSE_ERR_INVALID_PAYLOAD_TYPE else PARSE_OK.

Definition frame_calculate_size (frame : option frame_t) : Z :=
  match frame with None => 0 | Some f => u64 (16 + fr_payload_size f) end.

(** ** The frame parser ([frame_parser.c]) *)

Definition FRAME_HEADER_SIZE : Z := 11.
Definition FRAME_MIN_SIZE : Z := 16.
Definition FRAME_PARSE_FLAG_SKIP_CRC : Z := 1.

Inductive FrameParseResult :=
  | FRAME_PARSE_OK
  | FRAME_PARSE_NEED_MORE
  | FRAME_PARSE_INVALID_HEAD
  | FRAME_PARSE_INVALID_TAIL
  | FRAME_PARSE_INVALID_SIZE
  | FRAME_PARSE_CRC_MISMATCH.

#[export] Instance FrameParseResult_eq_dec : EqDecision FrameParseResult.
Proof. solve_decision. Defined.

(** The result and [*out_size] when it is stored. *)
Definition frame_peek_size (data : option (list Z)) (len : Z) (out_size : bool) :
    option (FrameParseResult * option Z) :=
  match data, out_size with
  | Some d, true =>
      if len <? FRAME_HEADER_SIZE then Some (FRAME_PARSE_NEED_MORE, None) else
      head ← load d 0;
      if negb (head =? FRAME_HEAD) then Some (FRAME_PARSE_INVALID_HEAD, None) else
      b ← slice d 7 4;
      let payload_size := le32toh b in
      if MAX_PAYLOAD_SIZE <? payload_size then Some (FRAME_PARSE_INVALID_SIZE, None) else
      Some (FRAME_PARSE_OK, Some payload_size)
  | _, _ => Some (FRAME_PARSE_INVALID_HEAD, None)
  end.

Definition frame_total_size (payload_size : Z) : Z := FRAME_MIN_SIZE + payload_size.

(** The table is generated before its first use and never changes. *)
Definition frame_parse (data : option (list Z)) (len : Z) (out : option frame_t) (flags : Z) :
    option (FrameParseResult * option frame_t) :=
  match data, out with
  | Some d, Some _ =>
      '(peek, size) ← frame_peek_size data len true;
      if negb (bool_decide (peek = FRAME_PARSE_OK)) then Some (peek, out) else
      payload_size ← size;
      let total := frame_total_size payload_size in
      if len <? total then Some (FRAME_PARSE_NEED_MORE, out) else
      tail ← load d (total - 1);
      if negb (tail =? FRAME_TAIL) then Some (FRAME_PARSE_INVALID_TAIL, out) else
      msg_id ← slice d 1 4;
      wire_crc ← slice d (11 + payload_size) 4;
      head ← load d 0;
      version ← load d 5;
      payload_type ← load d 6;
      let f := Frame head (le32toh msg_id) version payload_type payload_size
                 (if 0 <? payload_size then PayloadInput 11 else PayloadNull)
                 (le32toh wire_crc) tail false 0 0 in
      if Z.land flags FRAME_PARSE_FLAG_SKIP_CRC =? 0 then
        computed ← crc32_compute crc32_generate_table d (FRAME_HEADER_SIZE + payload_size);
        if negb (computed =? le32toh wire_crc) then Some (FRAME_PARSE_CRC_MISMATCH, Some f)
        else Some (FRAME_PARSE_OK, Some f)
      else Some (FRAME_PARSE_OK, Some f)
  | _, _ => Some (FRAME_PARSE_INVALID_HEAD, out)
  end.

(** [pool] is [None] for [NULL]; [heap] tells whether [malloc] succeeds.
    Result, frame and pool. *)
Definition frame_parse_copy (heap : bool) (data : option (list Z)) (len : Z) (out : option frame_t)
    (pool : option MemoryPool) : option (FrameParseResult * option frame_t * option MemoryPool) :=
  '(result, out) ← frame_parse data len out 0;
  if negb (bool_decide (result = FRAME_PARSE_OK)) then Some (result, out, pool) else
  f ← out; d ← data;
  let mk ptr pp off owned :=
    Frame (fr_head f) (fr_msg_id f) (fr_version f) (fr_payload_type f) (fr_payload_size f)
      ptr (fr_crc32 f) (fr_tail f) pp off owned in
  if 0 <? fr_payload_size f then
    let mark := pool_mark pool in
    let '(copy, pool) := pool_alloc pool (fr_payload_size f) in
    bytes ← slice d 11 (fr_payload_size f);
    match copy with
    | Some ptr => Some (FRAME_PARSE_OK, Some (mk (PayloadPool ptr bytes) true mark 0), pool)
    | None =>
        if negb heap then Some (FRAME_PARSE_INVALID_SIZE, out, pool)
        else Some (FRAME_PARSE_OK,
               Some (mk (PayloadHeap bytes) false (fr_payload_pool_offset f) 1), pool)
    end
  else Some (FRAME_PARSE_OK, out, pool).

Definition frame_parse_result_to_error (result : FrameParseResult) : ParseError :=
  match result with
  | FRAME_PARSE_OK => PARSE_OK
  | FRAME_PARSE_NEED_MORE => PARSE_ERR_TRUNCATED
  | FRAME_PARSE_INVALID_HEAD => PARSE_ERR_INVALID_HEAD
  | FRAME_PARSE_INVALID_TAIL => PARSE_ERR_INVALID_TAIL
  | FRAME_PARSE_INVALID_SIZE => PARSE_ERR_PAYLOAD_TOO_LARGE
  | FRAME_PARSE_CRC_MISMATCH => PARSE_ERR_CRC_MISMATCH
  end.

(** ** Errors and statistics ([parser_error.c], [parser_stats.c]) *)

Definition parse_error_string (err : ParseError) : string :=
  match err with
  | PARSE_OK => "Success"
  | PARSE_ERR_TRUNCATED => "Truncated frame"
  | PARSE_ERR_INVALID_HEAD => "Invalid frame header"
  | PARSE_ERR_INVALID_TAIL => "Invalid frame tail"
  | PARSE_ERR_CRC_MISMATCH => "CRC mismatch"
  | PARSE_ERR_INVALID_VERSION => "Invalid version"
  | PARSE_ERR_PAYLOAD_TOO_LARGE => "Payload too large"
  | PARSE_ERR_OUT_OF_MEMORY => "Out of memory"
  | PARSE_ERR_INVALID_PAYLOAD_TYPE => "Invalid payload type"
  | PARSE_ERR_BUFFER_OVERFLOW => "Buffer overflow"
  | PARSE_ERR_UNKNOWN => "Unknown error"
  end%string.

(** [message] is what the 128-byte field holds up to its terminator. *)
Record ParseErrorInfo := MkParseErrorInfo {
  pe_code : ParseError;
  pe_offset : Z;
  pe_message : string;
  pe_msg_id : Z
}.

Definition ParseErrorInfo_zero : ParseErrorInfo := MkParseErrorInfo PARSE_OK 0 EmptyString 0.

Definition parse_error_set (code : ParseError) (offset msg_id : Z) (message : option string) :
    ParseErrorInfo :=
  MkParseErrorInfo code offset
    (substring 0 127 (match message with Some m => m | None => parse_error_string code end)) msg_id.

Record ParserStats := MkParserStats {
  frames_parsed : Z;
  frames_failed : Z;
  bytes_processed : Z;
  parse_time_ns : Z;
  crc_errors : Z;
  truncated_frames : Z;
  invalid_frames : Z
}.

Definition parser_stats_init : ParserStats := MkParserStats 0 0 0 0 0 0 0.

Definition parser_stats_update (s : ParserStats) (parse_result : ParseError) (bytes elapsed_ns : Z) :
    ParserStats :=
  let time := u64 (parse_time_ns s + elapsed_ns) in
  match parse_result with
  | PARSE_OK =>
      MkParserStats (u64 (frames_parsed s + 1)) (frames_failed s) (u64 (bytes_processed s + bytes)) time
        (crc_errors s) (truncated_frames s) (invalid_frames s)
  | _ =>
      let bump b x := if b : bool then u64 (x + 1) else x in
      MkParserStats (frames_parsed s) (u64 (frames_failed s + 1)) (bytes_processed s) time
        (bump (bool_decide (parse_result = PARSE_ERR_CRC_MISMATCH)) (crc_errors s))
        (bump (bool_decide (parse_result = PARSE_ERR_TRUNCATED)) (truncated_frames s))
        (bump (bool_decide (parse_result = PARSE_ERR_INVALID_HEAD) ||
               bool_decide (parse_result = PARSE_ERR_INVALID_TAIL) ||
               bool_decide (parse_result = PARSE_ERR_INVALID_VERSION) ||
               bool_decide (parse_result = PARSE_ERR_INVALID_PAYLOAD_TYPE)) (invalid_frames s))
  end.

Definition parser_stats_avg_time (s : option ParserStats) : Z :=
  match s with
  | None => 0
  | Some s => if frames_parsed s =? 0 then 0 else parse_time_ns s / frames_parsed s
  end.

(** ** The stream parser ([stream_parser.c]) *)

Inductive StreamState := STREAM_NEED_MORE_DATA | STREAM_FRAME_COMPLETE | STREAM_ERROR.

#[export] Instance StreamState_eq_dec : EqDecision StreamState.
Proof. solve_decision. Defined.

Record StreamParser := MkStreamParser {
  sp_buffer : list Z;
  sp_buffer_size : Z;
  sp_buffered : Z;
  sp_expected : Z;
  sp_last_error : ParseErrorInfo
}.

(** [junk] is what [malloc] leaves in the buffer. *)
Definition stream_parser_create (buffer_size : Z) (junk : list Z) : StreamParser :=
  let buffer_size := if buffer_size <? FRAME_MIN_SIZE then 65536 else buffer_size in
  MkStreamParser junk buffer_size 0 0 ParseErrorInfo_zero.

Definition sp_fail (sp : StreamParser) (code : ParseError) (offset : Z) (message : string) :
    StreamParser :=
  MkStreamParser (sp_buffer sp) (sp_buffer_size sp) (sp_buffered sp) (sp_expected sp)
    (parse_error_set code offset 0 (Some message)).

Definition sp_set_expected (sp : StreamParser) (e : Z) : StreamParser :=
  MkStreamParser (sp_buffer sp) (sp_buffer_size sp) (sp_buffered sp) e (sp_last_error sp).

(** "Peek frame size if not yet known": [inl] is an early return. *)
Definition stream_parser_peek (sp : StreamParser) :
    option ((StreamState * StreamParser) + StreamParser) :=
  if negb (sp_expected sp =? 0) then Some (inr sp) else
  '(peek, size) ← frame_peek_size (Some (sp_buffer sp)) (sp_buffered sp) true;
  if bool_decide (peek = FRAME_PARSE_NEED_MORE) then Some (inl (STREAM_NEED_MORE_DATA, sp)) else
  if negb (bool_decide (peek = FRAME_PARSE_OK)) then
    Some (inl (STREAM_ERROR,
      sp_fail sp (frame_parse_result_to_error peek) 0 "Invalid frame header"))
  else
  payload_size ← size;
  let sp := sp_set_expected sp (frame_total_size payload_size) in
  if sp_buffer_size sp <? sp_expected sp then
    Some (inl (STREAM_ERROR,
      sp_fail sp PARSE_ERR_BUFFER_OVERFLOW 0 "Frame too large for buffer"))
  else Some (inr sp).

(** From "Parse complete frame" on; [pool] is that of the thread's context. *)
Definition stream_parser_finish (heap : bool) (sp : StreamParser) (out : option frame_t)
    (pool : option MemoryPool) :
    option (StreamState * StreamParser * option frame_t * option MemoryPool) :=
  '(result, out, pool) ← frame_parse_copy heap (Some (sp_buffer sp)) (sp_expected sp) out pool;
  if negb (bool_decide (result = FRAME_PARSE_OK)) then
    Some (STREAM_ERROR,
      sp_fail sp (frame_parse_result_to_error result) 0 "Frame parse failed", out, pool)
  else
  let remaining := sp_buffered sp - sp_expected sp in
  buf ← compact (sp_buffer sp) (sp_expected sp) remaining;
  Some (STREAM_FRAME_COMPLETE,
    MkStreamParser buf (sp_buffer_size sp) remaining 0 (sp_last_error sp), out, pool).

Definition stream_parser_feed (heap : bool) (sp : option StreamParser) (data : option (list Z))
    (len : Z) (out : option frame_t) (pool : option MemoryPool) :
    option (StreamState * option StreamParser * option frame_t * option MemoryPool) :=
  match sp, data, out with
  | Some s, Some d, Some _ =>
      if sp_buffer_size s <? u64 (sp_buffered s + len) then
        Some (STREAM_ERROR,
          Some (sp_fail s PARSE_ERR_BUFFER_OVERFLOW (sp_buffered s) "Stream buffer overflow"), out, pool)
      else
      chunk ← slice d 0 len;
      buf ← blit (sp_buffer s) (sp_buffered s) chunk;
      let s := MkStreamParser buf (sp_buffer_size s) (sp_buffered s + len) (sp_expected s)
                 (sp_last_error s) in
      r ← stream_parser_peek s;
      match r with
      | inl (st, s) => Some (st, Some s, out, pool)
      | inr s =>
          if sp_buffered s <? sp_expected s then Some (STREAM_NEED_MORE_DATA, Some s, out, pool) else
          '(st, s, out, pool) ← stream_parser_finish heap s out pool;
          Some (st, Some s, out, pool)
      end
  | _, _, _ => Some (STREAM_ERROR, sp, out, pool)
  end.

Definition stream_parser_reset (sp : option StreamParser) : option StreamParser :=
  match sp with
  | None => None
  | Some s => Some (MkStreamParser (sp_buffer s) (sp_buffer_size s) 0 0 ParseErrorInfo_zero)
  end.

(** ** CRC-32: the table and the loop *)

Lemma crc32_round_bit c : crc32_round c = crc_bit CRC32_POLYNOMIAL c.
Proof. unfold crc32_round, crc_bit. by rewrite Z.lxor_comm. Qed.

Lemma crc32_table_entry i :
  0 <= i < 256 → aget crc32_generate_table i = Some (crc_bits8 CRC32_POLYNOMIAL i).
Proof.
  intros Hi. unfold aget, crc32_generate_table. destruct (Z.ltb_spec i 0); [lia|].
  rewrite list_lookup_fmap.
  assert (seqZ 0 256 !! Z.to_nat i = Some i) as -> by (apply lookup_seqZ; lia).
  cbn [fmap option_fmap option_map]. f_equal. unfold crc_bits8. generalize 8%nat. intros n.
  induction n as [|n IH]; [done|]. simpl. by rewrite IH, crc32_round_bit.
Qed.

Lemma crc32_poly_ok : 0 <= CRC32_POLYNOMIAL < 2 ^ 32 ∧ Z.testbit CRC32_POLYNOMIAL (32 - 1) = true.
Proof. vm_compute. done. Qed.

(** The checksum, bit by bit: the reference. *)
Definition crc32 (bs : list Z) : Z :=
  Z.lxor (fold_left (crc_byte CRC32_POLYNOMIAL) bs UINT32_MAX) UINT32_MAX.

Lemma crc32_loop_ok bs c :
  bytes_ok bs → 0 <= c < 2 ^ 32 →
  crc32_loop crc32_generate_table bs c = Some (fold_left (crc_byte CRC32_POLYNOMIAL) bs c).
Proof.
  intros Hbs. revert c. induction Hbs as [|b bs Hb _ IH]; intros c Hc; [done|].
  cbn [crc32_loop fold_left].
  assert (0 <= Z.lxor c b < 2 ^ 32) as Hx.
  { apply lxor_range; [lia|done|]. by apply byte_range; [lia|]. }
  assert (0 <= Z.land (Z.lxor c b) 255 < 256) as Hi.
  { change 255 with (Z.ones 8). rewrite Z.land_ones by lia. apply Z.mod_pos_bound. lia. }
  rewrite crc32_table_entry by done. simpl.
  assert (Z.lxor (crc_bits8 CRC32_POLYNOMIAL (Z.land (Z.lxor c b) 255)) (Z.shiftr c 8) =
          crc_byte CRC32_POLYNOMIAL c b) as ->.
  { unfold crc_byte. rewrite (crc_bits8_table _ (Z.lxor c b)) by lia. f_equal.
    rewrite Z.shiftr_lxor. rewrite (Z.shiftr_div_pow2 b) by lia.
    rewrite (Z.div_small b) by word_lia. by rewrite Z.lxor_0_r. }
  apply IH. destruct crc32_poly_ok. by apply crc_byte_range.
Qed.

Lemma crc32_compute_ok buf len bs :
  slice buf 0 len = Some bs → bytes_ok bs →
  crc32_compute crc32_generate_table buf len = Some (crc32 bs).
Proof.
  intros Hs Hb. unfold crc32_compute. rewrite Hs. simpl. rewrite crc32_loop_ok; [done|done|].
  unfold_words. lia.
Qed.

Lemma crc32_range bs : bytes_ok bs → is_u32 (crc32 bs).
Proof.
  intros Hb. destruct crc32_poly_ok as [Hp Ht].
  assert (0 <= crc32 bs < 2 ^ 32); [|unfold_words; lia].
  apply lxor_range; [lia| |unfold_words; lia]. apply crc_fold_range; [lia|done|unfold_words; lia|done].
Qed.

(** The table-driven CRC-32 is the bit-serial one: for every input, the
    generated table and the byte loop give the checksum defined by eight
    conditional shifts per byte, in bounds of the table; "123456789" gives
    the standard check value. *)
Theorem crc32_table_equiv buf len bs :
  slice buf 0 len = Some bs → bytes_ok bs →
  crc32_compute crc32_generate_table buf len = Some (crc32 bs) ∧ is_u32 (crc32 bs) ∧
  crc32_compute crc32_generate_table [49; 50; 51; 52; 53; 54; 55; 56; 57] 9 = Some 3421780262.
Proof.
  intros Hs Hb. split; [by apply crc32_compute_ok|]. split; [by apply crc32_range|].
  vm_compute. reflexivity.
Qed.

Lemma crc32_table_equiv_witness :
  crc32_compute crc32_generate_table [1; 2; 3] 2 = Some (crc32 [1; 2]).
Proof. apply (crc32_table_equiv [1; 2; 3] 2 [1; 2]); [reflexivity|by_eval]. Defined.

(** ** Frames on the wire *)

Lemma le32_bytes_len v : blen (le32_bytes v) = 4.
Proof. done. Qed.

Lemma le32_bytes_ok v : bytes_ok (le32_bytes v).
Proof. unfold le32_bytes, bytes_ok. rewrite !Forall_cons, Forall_nil. split_and!; auto with word. Qed.

Lemma le32_roundtrip v : is_u32 v → le32toh (le32_bytes v) = v.
Proof.
  intros Hv. unfold le32toh, le32_bytes. rewrite !shiftr_div by lia.
  change (2 ^ 8) with 256. change (2 ^ 16) with 65536. change (2 ^ 24) with 16777216. word_lia.
Qed.

Lemma le32_inverse b : bytes_ok b → blen b = 4 → le32_bytes (le32toh b) = b ∧ is_u32 (le32toh b).
Proof.
  intros Hb Hl. destruct b as [|b0 [|b1 [|b2 [|b3 [|b4 b]]]]]; try (unfold blen in Hl; simpl in Hl; lia).
  unfold bytes_ok in Hb. rewrite !Forall_cons in Hb. destruct Hb as (H0 & H1 & H2 & H3 & _).
  unfold le32_bytes, le32toh. rewrite !shiftr_div by lia.
  change (2 ^ 8) with 256. change (2 ^ 16) with 65536. change (2 ^ 24) with 16777216.
  split; [|word_lia]. do 3 (f_equal; [word_lia|]). f_equal. word_lia.
Qed.

(** The header, the part the checksum covers, and the whole frame. *)
Definition frame_header (msg_id version ptype n : Z) : list Z :=
  FRAME_HEAD :: le32_bytes msg_id ++ [version; ptype] ++ le32_bytes n.

Definition frame_body (msg_id version ptype : Z) (p : list Z) : list Z :=
  frame_header msg_id version ptype (blen p) ++ p.

Definition frame_wire (msg_id version ptype : Z) (p : list Z) : list Z :=
  frame_body msg_id version ptype p ++
  le32_bytes (crc32 (frame_body msg_id version ptype p)) ++ [FRAME_TAIL].

(** The frame a zero-copy parse reports. *)
Definition frame_view (msg_id version ptype : Z) (p : list Z) (crc : Z) : frame_t :=
  Frame FRAME_HEAD msg_id version ptype (blen p)
    (if 0 <? blen p then PayloadInput 11 else PayloadNull) crc FRAME_TAIL false 0 0.

Definition frame_fields_ok (msg_id version ptype : Z) (p : list Z) : Prop :=
  is_u32 msg_id ∧ is_u8 version ∧ is_u8 ptype ∧ bytes_ok p ∧ blen p <= MAX_PAYLOAD_SIZE.

Lemma frame_header_len m v t n : blen (frame_header m v t n) = 11.
Proof. done. Qed.

Lemma frame_body_len m v t p : blen (frame_body m v t p) = 11 + blen p.
Proof. unfold frame_body. by rewrite blen_app, frame_header_len. Qed.

Lemma frame_wire_len m v t p : blen (frame_wire m v t p) = 16 + blen p.
Proof. unfold frame_wire. rewrite !blen_app, frame_body_len, le32_bytes_len. change (blen [FRAME_TAIL]) with 1. lia. Qed.

Lemma frame_header_bytes m v t n : is_u8 v → is_u8 t → bytes_ok (frame_header m v t n).
Proof.
  intros Hv Ht. unfold frame_header, bytes_ok. rewrite Forall_cons, !Forall_app.
  split; [unfold FRAME_HEAD; unfold_words; lia|]. split_and!; try apply le32_bytes_ok.
  by rewrite !Forall_cons, Forall_nil.
Qed.

(** Any eleven bytes that start with the marker are a header. *)
Lemma header_shape q :
  bytes_ok q → FRAME_HEADER_SIZE <= blen q →
  ∃ h m v t n tl, q = (h :: le32_bytes m ++ [v; t] ++ le32_bytes n) ++ tl ∧
    is_u8 h ∧ is_u32 m ∧ is_u8 v ∧ is_u8 t ∧ is_u32 n ∧ bytes_ok tl ∧ blen tl = blen q - 11.
Proof.
  unfold FRAME_HEADER_SIZE. intros Hq Hl.
  uncons q Hq h. uncons tl Htl m0. uncons tl0 Htl0 m1. uncons tl Htl1 m2. uncons tl0 Htl2 m3.
  uncons tl Htl3 v. uncons tl0 Htl4 t. uncons tl Htl5 s0. uncons tl0 Htl6 s1. uncons tl Htl7 s2.
  uncons tl0 Htl8 s3.
  destruct (le32_inverse [m0; m1; m2; m3]) as [Em Hm];
    [unfold bytes_ok; by rewrite !Forall_cons, Forall_nil|done|].
  destruct (le32_inverse [s0; s1; s2; s3]) as [En Hn];
    [unfold bytes_ok; by rewrite !Forall_cons, Forall_nil|done|].
  exists h, (le32toh [m0; m1; m2; m3]), v, t, (le32toh [s0; s1; s2; s3]), tl.
  rewrite Em, En. split_and!; try done. blia.
Qed.

(** The payload and trailer behind a header. *)
Lemma trailer_shape tl n :
  bytes_ok tl → 0 <= n → n + 5 <= blen tl →
  ∃ p crc tail rest, tl = p ++ le32_bytes crc ++ [tail] ++ rest ∧ blen p = n ∧ bytes_ok p ∧
    is_u32 crc ∧ is_u8 tail ∧ bytes_ok rest.
Proof.
  intros Htl Hn Hl.
  destruct (slice tl 0 (n + (4 + 1))) as [w|] eqn:Hw; [|rewrite slice_in_bounds in Hw by lia; done].
  pose proof (slice_0_take _ _ _ Hw) as Htl'. set (rest := drop (length w) tl) in *.
  assert (bytes_ok w ∧ bytes_ok rest) as [Hwb Hrb] by (unfold bytes_ok in *; by rewrite Htl', Forall_app in Htl).
  apply slice_split in Hw as (p & w2 & -> & Hp & Hw2); [|lia..].
  apply slice_split in Hw2 as (c & l & -> & Hc & Hl'); [|lia..].
  apply slice_blen in Hp, Hc, Hl'. unfold bytes_ok in Hwb. rewrite !Forall_app in Hwb.
  destruct Hwb as (Hpb & Hcb & Hlb). destruct (le32_inverse c Hcb Hc) as [Ec Hcu].
  destruct l as [|tail [|? ?]]; try (unfold blen in Hl'; simpl in Hl'; lia).
  exists p, (le32toh c), tail, rest. rewrite Ec. split_and!; try done.
  - by rewrite Htl', <-!app_assoc.
  - by apply Forall_cons in Hlb as [? _].
Qed.

Lemma header_reads h m v t n tl (q := (h :: le32_bytes m ++ [v; t] ++ le32_bytes n) ++ tl) :
  load q 0 = Some h ∧ slice q 1 4 = Some (le32_bytes m) ∧ load q 5 = Some v ∧ load q 6 = Some t ∧
  slice q 7 4 = Some (le32_bytes n).
Proof.
  split_and!; try done.
  - exact (slice_app [h] (le32_bytes m) ([v; t] ++ le32_bytes n ++ tl) 1 4 eq_refl eq_refl).
  - exact (slice_app (h :: le32_bytes m ++ [v; t]) (le32_bytes n) tl 7 4 eq_refl eq_refl).
Qed.

(** Reading a header decides between the early errors and the payload size. *)
Lemma frame_peek_eval h m v t n tl len :
  is_u32 n → FRAME_HEADER_SIZE <= len →
  frame_peek_size (Some ((h :: le32_bytes m ++ [v; t] ++ le32_bytes n) ++ tl)) len true =
    Some (if negb (h =? FRAME_HEAD) then (FRAME_PARSE_INVALID_HEAD, None)
          else if MAX_PAYLOAD_SIZE <? n then (FRAME_PARSE_INVALID_SIZE, None)
          else (FRAME_PARSE_OK, Some n)).
Proof.
  intros Hn Hl. unfold frame_peek_size. rewrite (proj2 (Z.ltb_ge _ _)) by lia.
  destruct (header_reads h m v t n tl) as (H0 & _ & _ & _ & H7). rewrite H0, H7. msimpl.
  rewrite le32_roundtrip by done. by destruct (h =? FRAME_HEAD), (MAX_PAYLOAD_SIZE <? n).
Qed.

(** A complete frame, on every branch. *)
Lemma frame_parse_eval h m v t p crc tail rest len old :
  is_u8 h → is_u32 m → is_u8 v → is_u8 t → is_u32 (blen p) → bytes_ok p → is_u32 crc →
  16 + blen p <= len →
  let hd := h :: le32_bytes m ++ [v; t] ++ le32_bytes (blen p) in
  let f := Frame h m v t (blen p) (if 0 <? blen p then PayloadInput 11 else PayloadNull) crc tail
             false 0 0 in
  frame_parse (Some (hd ++ p ++ le32_bytes crc ++ [tail] ++ rest)) len (Some old) 0 =
    Some (if negb (h =? FRAME_HEAD) then (FRAME_PARSE_INVALID_HEAD, Some old)
          else if MAX_PAYLOAD_SIZE <? blen p then (FRAME_PARSE_INVALID_SIZE, Some old)
          else if negb (tail =? FRAME_TAIL) then (FRAME_PARSE_INVALID_TAIL, Some old)
          else if negb (crc32 (hd ++ p) =? crc) then (FRAME_PARSE_CRC_MISMATCH, Some f)
          else (FRAME_PARSE_OK, Some f)).
Proof.
  intros Hh Hm Hv Ht Hn Hp Hcrc Hl hd f. unfold frame_parse.
  pose proof (blen_nonneg p) as Hp0.
  rewrite (frame_peek_eval h m v t (blen p)) by (done || (unfold FRAME_HEADER_SIZE; lia)).
  destruct (h =? FRAME_HEAD) eqn:Eh; msimpl; [|done].
  destruct (MAX_PAYLOAD_SIZE <? blen p) eqn:En; msimpl; [done|].
  unfold frame_total_size, FRAME_MIN_SIZE. rewrite (proj2 (Z.ltb_ge _ _)) by lia.
  destruct (header_reads h m v t (blen p) (p ++ le32_bytes crc ++ [tail] ++ rest))
    as (H0 & H1 & H5 & H6 & _). fold hd in H0, H1, H5, H6.
  assert (blen hd = 11) as Hhd by done.
  assert (slice (hd ++ p ++ le32_bytes crc ++ [tail] ++ rest) (11 + blen p) 4 = Some (le32_bytes crc)) as Hc.
  { rewrite (app_assoc hd p). apply slice_app; [|done]. rewrite blen_app, Hhd. done. }
  assert (load (hd ++ p ++ le32_bytes crc ++ [tail] ++ rest) (16 + blen p - 1) = Some tail) as Htl.
  { rewrite !app_assoc. rewrite <-(app_assoc _ [tail] rest).
    replace (16 + blen p - 1) with (blen ((hd ++ p) ++ le32_bytes crc) + 0)
      by (rewrite !blen_app, Hhd, le32_bytes_len; lia).
    by rewrite load_app_r. }
  rewrite Htl. msimpl. destruct (tail =? FRAME_TAIL) eqn:Et; msimpl; [|done].
  rewrite H1, Hc, H0, H5, H6. msimpl. change (Z.land 0 FRAME_PARSE_FLAG_SKIP_CRC =? 0) with true. cbv iota.
  rewrite (crc32_compute_ok _ _ (hd ++ p)).
  - msimpl. rewrite !le32_roundtrip by done. by destruct (crc32 (hd ++ p) =? crc).
  - rewrite (app_assoc hd p). unfold FRAME_HEADER_SIZE.
    replace (11 + blen p) with (blen (hd ++ p)) by (rewrite blen_app, Hhd; done). apply slice_0_prefix.
  - apply Forall_app. split; [|done]. unfold hd. rewrite Forall_cons, !Forall_app.
    split_and!; try done; try apply le32_bytes_ok. by rewrite !Forall_cons, Forall_nil.
Qed.

(** A header whose frame is not complete yet. *)
Lemma frame_parse_short h m v t n tl len old :
  is_u32 n → FRAME_HEADER_SIZE <= len → len < 16 + n →
  frame_parse (Some ((h :: le32_bytes m ++ [v; t] ++ le32_bytes n) ++ tl)) len (Some old) 0 =
    Some (if negb (h =? FRAME_HEAD) then (FRAME_PARSE_INVALID_HEAD, Some old)
          else if MAX_PAYLOAD_SIZE <? n then (FRAME_PARSE_INVALID_SIZE, Some old)
          else (FRAME_PARSE_NEED_MORE, Some old)).
Proof.
  intros Hn Hl Hs. unfold frame_parse. rewrite frame_peek_eval by done.
  destruct (h =? FRAME_HEAD); msimpl; [|done]. destruct (MAX_PAYLOAD_SIZE <? n); msimpl; [done|].
  unfold frame_total_size, FRAME_MIN_SIZE. by rewrite (proj2 (Z.ltb_lt _ _)) by lia.
Qed.

Lemma le32_inj v w : is_u32 v → is_u32 w → le32_bytes v = le32_bytes w → v = w.
Proof. intros Hv Hw E. rewrite <-(le32_roundtrip v), <-(le32_roundtrip w) by done. by rewrite E. Qed.

(** A wire prefix determines header, payload and rest. *)
Lemma frame_split h m v t p c r h' m' v' t' p' c' r' :
  is_u32 m → is_u32 m' → is_u32 (blen p) → is_u32 (blen p') → blen c = blen c' →
  (h :: le32_bytes m ++ [v; t] ++ le32_bytes (blen p)) ++ p ++ c ++ r =
  (h' :: le32_bytes m' ++ [v'; t'] ++ le32_bytes (blen p')) ++ p' ++ c' ++ r' →
  h = h' ∧ m = m' ∧ v = v' ∧ t = t' ∧ p = p' ∧ c = c' ∧ r = r'.
Proof.
  intros Hm Hm' Hp Hp' Hc E.
  destruct (header_reads h m v t (blen p) (p ++ c ++ r)) as (H0 & H1 & H5 & H6 & H7).
  destruct (header_reads h' m' v' t' (blen p') (p' ++ c' ++ r')) as (H0' & H1' & H5' & H6' & H7').
  rewrite E in *. rewrite H0' in H0. rewrite H1' in H1. rewrite H5' in H5. rewrite H6' in H6.
  rewrite H7' in H7. injection H0 as ->. injection H5 as ->. injection H6 as ->.
  assert (m = m') as -> by (apply le32_inj; congruence).
  assert (blen p = blen p') as Hlen by (apply le32_inj; congruence).
  rewrite Hlen in E. apply app_inv_head in E.
  apply app_inj_1 in E as [-> E]; [|unfold blen in Hlen; lia].
  apply app_inj_1 in E as [-> ->]; [|unfold blen in Hc; lia]. done.
Qed.

Lemma payload_u32 p : blen p <= MAX_PAYLOAD_SIZE → is_u32 (blen p).
Proof. pose proof (blen_nonneg p). unfold MAX_PAYLOAD_SIZE. unfold_words. lia. Qed.

(** A frame at the front of the input. *)
Definition frame_front (q : list Z) (m v t : Z) (p rest : list Z) : Prop :=
  frame_fields_ok m v t p ∧ q = frame_wire m v t p ++ rest.

(** The header promises a frame longer than the input. *)
Definition frame_incomplete (q : list Z) : Prop :=
  blen q < FRAME_HEADER_SIZE ∨
  ∃ m v t n tl, q = frame_header m v t n ++ tl ∧ is_u32 n ∧ n <= MAX_PAYLOAD_SIZE ∧ blen q < 16 + n.

Lemma frame_wire_front m v t p rest :
  frame_wire m v t p ++ rest =
    frame_header m v t (blen p) ++ p ++ le32_bytes (crc32 (frame_body m v t p)) ++ [FRAME_TAIL] ++ rest.
Proof. unfold frame_wire, frame_body. by rewrite <-!app_assoc. Qed.

(** A header is read in one way. *)
Lemma header_det h m v t n tl m' v' t' n' tl' :
  is_u32 n → is_u32 n' →
  (h :: le32_bytes m ++ [v; t] ++ le32_bytes n) ++ tl = frame_header m' v' t' n' ++ tl' →
  h = FRAME_HEAD ∧ n = n'.
Proof.
  intros Hn Hn' E.
  destruct (header_reads h m v t n tl) as (H0 & _ & _ & _ & H7). rewrite E in H0, H7.
  destruct (header_reads FRAME_HEAD m' v' t' n' tl') as (H0' & _ & _ & _ & H7').
  unfold frame_header in H0, H7. rewrite H0 in H0'. rewrite H7 in H7'.
  split; [congruence|]. apply le32_inj; congruence.
Qed.

(** What a parse of [q] may answer: the frame at the front, or an error and
    no frame there. *)
Definition parse_verdict (q : list Z) (res : option (FrameParseResult * option frame_t)) : Prop :=
  (∃ m v t p rest, frame_front q m v t p rest ∧
     res = Some (FRAME_PARSE_OK, Some (frame_view m v t p (crc32 (frame_body m v t p))))) ∨
  (∃ r f, res = Some (r, Some f) ∧ r ≠ FRAME_PARSE_OK ∧
     (r = FRAME_PARSE_NEED_MORE ↔ frame_incomplete q) ∧
     ∀ m v t p rest, ¬ frame_front q m v t p rest).

Lemma frame_parse_tiny q old :
  blen q < FRAME_HEADER_SIZE → parse_verdict q (frame_parse (Some q) (blen q) (Some old) 0).
Proof.
  intros Hs. right. exists FRAME_PARSE_NEED_MORE, old. unfold frame_parse, frame_peek_size.
  rewrite (proj2 (Z.ltb_lt _ _) Hs). msimpl. split_and!; try done.
  - split; [by left|done].
  - intros m v t p rest [_ ->]. rewrite blen_app, frame_wire_len in Hs. unfold FRAME_HEADER_SIZE in Hs.
    pose proof (blen_nonneg p). pose proof (blen_nonneg rest). lia.
Qed.

Lemma frame_parse_cut h m v t n tl old (q := (h :: le32_bytes m ++ [v; t] ++ le32_bytes n) ++ tl) :
  is_u32 n → blen tl < n + 5 → parse_verdict q (frame_parse (Some q) (blen q) (Some old) 0).
Proof.
  intros Hn Hshort. assert (blen q = 11 + blen tl) as Hlen by (subst q; rewrite blen_app; done).
  pose proof (blen_nonneg tl).
  right. subst q. rewrite (frame_parse_short h m v t n tl) by (done || (unfold FRAME_HEADER_SIZE; lia)).
  assert (∀ m' v' t' p rest, ¬ frame_front ((h :: le32_bytes m ++ [v; t] ++ le32_bytes n) ++ tl) m' v' t' p rest) as Hno.
  { intros m' v' t' p rest [(_ & _ & _ & _ & Hp) E]. pose proof E as E'. rewrite frame_wire_front in E'.
    apply header_det in E' as [_ ->]; [|done|by apply payload_u32].
    rewrite E, blen_app, frame_wire_len in Hlen. pose proof (blen_nonneg rest). lia. }
  assert (frame_incomplete ((h :: le32_bytes m ++ [v; t] ++ le32_bytes n) ++ tl) ↔
          h = FRAME_HEAD ∧ n <= MAX_PAYLOAD_SIZE) as Hinc.
  { split.
    - intros [?|(m' & v' & t' & n' & tl' & E & Hn' & Hmax & _)]; [unfold FRAME_HEADER_SIZE in *; lia|].
      by apply header_det in E as [? ->].
    - intros [-> Hmax]. right. exists m, v, t, n, tl. split_and!; try done. lia. }
  destruct (Z.eqb_spec h FRAME_HEAD) as [Eh|Eh]; msimpl.
  - destruct (Z.ltb_spec MAX_PAYLOAD_SIZE n) as [Hbig|Hok]; eexists _, _; split_and!; try done;
      rewrite Hinc; split; (done || lia).
  - eexists _, _. split_and!; try done. rewrite Hinc. split; [done|tauto].
Qed.

Lemma frame_parse_full h m v t p crc tail rest old
    (q := (h :: le32_bytes m ++ [v; t] ++ le32_bytes (blen p)) ++ p ++ le32_bytes crc ++ [tail] ++ rest) :
  is_u8 h → is_u32 m → is_u8 v → is_u8 t → is_u32 (blen p) → bytes_ok p → is_u32 crc →
  parse_verdict q (frame_parse (Some q) (blen q) (Some old) 0).
Proof.
  intros Hh Hm Hv Ht Hn Hp Hcrc.
  assert (blen q = 16 + blen p + blen rest) as Hlen.
  { subst q. rewrite !blen_app, le32_bytes_len. change (blen [tail]) with 1.
    change (blen (h :: le32_bytes m ++ [v; t] ++ le32_bytes (blen p))) with 11. lia. }
  pose proof (blen_nonneg p). pose proof (blen_nonneg rest).
  pose proof (frame_parse_eval h m v t p crc tail rest (blen q) old Hh Hm Hv Ht Hn Hp Hcrc
    ltac:(lia)) as Hev. cbv zeta in Hev. fold q in Hev. rewrite Hev. clear Hev.
  assert (¬ frame_incomplete q) as Hinc.
  { intros [?|(m' & v' & t' & n' & tl' & E & Hn' & _ & Hlt)]; [unfold FRAME_HEADER_SIZE in *; lia|].
    apply header_det in E as [_ <-]; [|done|done]. lia. }
  assert (∀ m' v' t' p' rest', frame_front q m' v' t' p' rest' →
    h = FRAME_HEAD ∧ blen p <= MAX_PAYLOAD_SIZE ∧ tail = FRAME_TAIL ∧
    crc32 ((h :: le32_bytes m ++ [v; t] ++ le32_bytes (blen p)) ++ p) = crc) as Hno.
  { intros m' v' t' p' rest' [(Hm' & Hv' & Ht' & Hpb & Hp') E]. rewrite frame_wire_front in E.
    assert (bytes_ok (frame_body m' v' t' p')) as Hbody
      by (apply Forall_app; split; [by apply frame_header_bytes|done]).
    apply frame_split in E as (-> & -> & -> & -> & -> & Ec & Et); try done; [|by apply payload_u32].
    apply le32_inj in Ec as ->; [|done|by apply crc32_range]. injection Et as -> ->. done. }
  assert (∀ r f, r ≠ FRAME_PARSE_OK → r ≠ FRAME_PARSE_NEED_MORE →
    ¬ (h = FRAME_HEAD ∧ blen p <= MAX_PAYLOAD_SIZE ∧ tail = FRAME_TAIL ∧
       crc32 ((h :: le32_bytes m ++ [v; t] ++ le32_bytes (blen p)) ++ p) = crc) →
    parse_verdict q (Some (r, Some f))) as Herr.
  { intros r f H1 H2 H3. right. exists r, f. split_and!; try done.
    intros m' v' t' p' rest' Hf. apply H3. eauto. }
  destruct (Z.eqb_spec h FRAME_HEAD) as [Eh|Eh]; cbn [negb]; [|apply Herr; [done|done|tauto]].
  destruct (Z.ltb_spec MAX_PAYLOAD_SIZE (blen p)) as [Hbig|Hok]; [apply Herr; [done|done|lia]|].
  destruct (Z.eqb_spec tail FRAME_TAIL) as [Et|Et]; cbn [negb]; [|apply Herr; [done|done|tauto]].
  destruct (Z.eqb_spec (crc32 ((h :: le32_bytes m ++ [v; t] ++ le32_bytes (blen p)) ++ p)) crc) as [Ec|Ec];
    cbn [negb]; [|apply Herr; [done|done|tauto]].
  left. exists m, v, t, p, rest. subst h tail. split.
  - split; [done|]. rewrite frame_wire_front. unfold frame_body, frame_header. by rewrite Ec.
  - unfold frame_view, frame_body, frame_header. by rewrite Ec.
Qed.

Lemma frame_parse_cases q old :
  bytes_ok q → parse_verdict q (frame_parse (Some q) (blen q) (Some old) 0).
Proof.
  intros Hq. destruct (decide (blen q < FRAME_HEADER_SIZE)) as [Hs|Hl]; [by apply frame_parse_tiny|].
  destruct (header_shape q) as (h & m & v & t & n & tl & -> & Hh & Hm & Hv & Ht & Hn & Htl & Hlen); [done|lia|].
  destruct (decide (blen tl < n + 5)) as [Hshort|Hlong]; [by apply frame_parse_cut|].
  destruct (trailer_shape tl n) as (p & crc & tail & rest & -> & <- & Hp & Hcrc & Htail & Hrest);
    [done|unfold_words; lia|lia|].
  by apply frame_parse_full.
Qed.

(** ** Packing and corruption *)

(** [frame_parse] stays inside the input and accepts exactly the inputs
    that start with a complete frame whose size, tail and checksum are right,
    reporting that frame's fields with the payload at offset 11; it asks for
    more exactly when the header is valid and the frame is longer than the
    input, and every other input is an error. *)
Theorem frame_parse_exact q old :
  bytes_ok q →
  (∃ m v t p rest, frame_front q m v t p rest ∧
     frame_parse (Some q) (blen q) (Some old) 0 =
       Some (FRAME_PARSE_OK, Some (frame_view m v t p (crc32 (frame_body m v t p))))) ∨
  (∃ r f, frame_parse (Some q) (blen q) (Some old) 0 = Some (r, Some f) ∧ r ≠ FRAME_PARSE_OK ∧
     (r = FRAME_PARSE_NEED_MORE ↔ frame_incomplete q) ∧
     ∀ m v t p rest, ¬ frame_front q m v t p rest).
Proof. apply frame_parse_cases. Qed.

Definition frame_zero : frame_t := Frame 0 0 0 0 0 PayloadNull 0 0 false 0 0.

Lemma frame_parse_exact_witness :
  ∃ r f, frame_parse (Some [170; 1; 2]) (blen [170; 1; 2]) (Some frame_zero) 0 = Some (r, Some f).
Proof.
  destruct (frame_parse_exact [170; 1; 2] frame_zero) as [(?&?&?&?&?&_&E)|(r&f&E&_)];
    [by_eval|rewrite E; by eexists _, _|by exists r, f].
Defined.

Lemma frame_wire_bytes m v t p : frame_fields_ok m v t p → bytes_ok (frame_wire m v t p).
Proof.
  intros (_ & Hv & Ht & Hp & _). unfold frame_wire, frame_body, bytes_ok. rewrite !Forall_app.
  split_and!; try done; try apply le32_bytes_ok; [by apply frame_header_bytes|].
  rewrite Forall_cons, Forall_nil. unfold FRAME_TAIL. unfold_words. lia.
Qed.

(** A frame is at the front of an input in at most one way. *)
Lemma frame_front_unique q m v t p r m' v' t' p' r' :
  frame_front q m v t p r → frame_front q m' v' t' p' r' →
  m = m' ∧ v = v' ∧ t = t' ∧ p = p' ∧ r = r'.
Proof.
  intros [(Hm & _ & _ & _ & Hp) ->] [(Hm' & _ & _ & _ & Hp') E]. rewrite !frame_wire_front in E.
  apply frame_split in E as (_ & -> & -> & -> & -> & _ & Er); try done; try by apply payload_u32.
  injection Er as ->. done.
Qed.

Lemma frame_pack_header_ok f buf :
  11 <= blen buf → is_u32 (fr_payload_size f) →
  frame_pack_header f buf (blen buf) =
    Some (11, (fr_head f :: le32_bytes (fr_msg_id f) ++ [fr_version f; fr_payload_type f] ++
               le32_bytes (fr_payload_size f)) ++ drop 11 buf).
Proof.
  intros Hl Hn. unfold frame_pack_header. rewrite (proj2 (Z.ltb_ge _ _)) by lia. rewrite u32_id by done.
  rewrite !blit_seq by done. rewrite blit_0; [done|]. done.
Qed.

(** Packing and parsing are inverse: the header [frame_pack_header] writes,
    followed by the payload, the checksum of both and the tail marker, is a
    frame that [frame_parse] accepts with the same fields, whatever follows it. *)
Theorem frame_roundtrip m v t p crc rest old buf :
  frame_fields_ok m v t p → blen buf = FRAME_HEADER_SIZE → bytes_ok rest →
  ∃ hdr, frame_pack_header (frame_view m v t p crc) buf FRAME_HEADER_SIZE = Some (11, hdr) ∧
    crc32_compute crc32_generate_table (hdr ++ p) (11 + blen p) = Some (crc32 (hdr ++ p)) ∧
    let wire := hdr ++ p ++ le32_bytes (crc32 (hdr ++ p)) ++ [FRAME_TAIL] in
    blen wire = frame_calculate_size (Some (frame_view m v t p crc)) ∧
    frame_parse (Some (wire ++ rest)) (blen (wire ++ rest)) (Some old) 0 =
      Some (FRAME_PARSE_OK, Some (frame_view m v t p (crc32 (hdr ++ p)))).
Proof.
  intros Hok Hbuf Hrest. destruct (Hok) as (Hm & Hv & Ht & Hp & Hmax).
  exists (frame_header m v t (blen p)). cbv zeta.
  assert (bytes_ok (frame_body m v t p)) as Hbody
    by (apply Forall_app; split; [by apply frame_header_bytes|done]).
  assert (frame_header m v t (blen p) ++ p ++ le32_bytes (crc32 (frame_header m v t (blen p) ++ p)) ++ [FRAME_TAIL]
          = frame_wire m v t p) as Hw by (unfold frame_wire, frame_body; by rewrite <-app_assoc).
  split_and!.
  - rewrite <-Hbuf at 1. rewrite frame_pack_header_ok;
      [|unfold FRAME_HEADER_SIZE in Hbuf; lia|by apply payload_u32].
    rewrite drop_ge by (unfold blen, FRAME_HEADER_SIZE in Hbuf; lia). by rewrite app_nil_r.
  - apply crc32_compute_ok; [|done]. rewrite <-(frame_body_len m v t p). apply slice_all.
  - rewrite Hw, frame_wire_len. simpl. rewrite u64_id; [done|].
    pose proof (blen_nonneg p). unfold MAX_PAYLOAD_SIZE in *. unfold_words. lia.
  - rewrite Hw.
    destruct (frame_parse_cases (frame_wire m v t p ++ rest) old)
      as [(m' & v' & t' & p' & r' & Hf & ->)|(r & f & _ & _ & _ & Hno)].
    + apply Forall_app. split; [by apply frame_wire_bytes|done].
    + assert (frame_front (frame_wire m v t p ++ rest) m v t p rest) as Hf' by done.
      by destruct (frame_front_unique _ _ _ _ _ _ _ _ _ _ _ Hf Hf') as (-> & -> & -> & -> & _).
    + by destruct (Hno m v t p rest).
Qed.

Lemma frame_roundtrip_witness :
  ∃ hdr, frame_pack_header (frame_view 7 1 3 [1; 2; 3] 0) (zeros 11) FRAME_HEADER_SIZE = Some (11, hdr).
Proof.
  destruct (frame_roundtrip 7 1 3 [1; 2; 3] 0 [9] frame_zero (zeros 11)) as (hdr & E & _);
    [|reflexivity|by_eval|by exists hdr].
  unfold frame_fields_ok, is_u32, is_u8, MAX_PAYLOAD_SIZE.
  split_and!; try (unfold_words; lia); [by_eval|vm_compute; discriminate].
Defined.

(** A frame with one byte of its fields or payload changed is never
    accepted as that frame: with the head marker and the size field intact the
    parser answers [FRAME_PARSE_CRC_MISMATCH]. *)
Theorem frame_detects_corruption m v t p m' v' t' p' l1 x y l2 old :
  frame_fields_ok m v t p → frame_fields_ok m' v' t' p' →
  frame_body m v t p = l1 ++ x :: l2 → frame_body m' v' t' p' = l1 ++ y :: l2 → x ≠ y →
  let wire := frame_body m' v' t' p' ++ le32_bytes (crc32 (frame_body m v t p)) ++ [FRAME_TAIL] in
  ∃ f, frame_parse (Some wire) (blen wire) (Some old) 0 = Some (FRAME_PARSE_CRC_MISMATCH, Some f).
Proof.
  intros Hok (Hm & Hv & Ht & Hp & Hmax) E E' Hxy wire.
  assert (bytes_ok (frame_body m v t p) ∧ bytes_ok (frame_body m' v' t' p')) as [Hb Hb'].
  { split; apply Forall_app; (split; [apply frame_header_bytes|]); by destruct Hok as (?&?&?&?&?). }
  pose proof (blen_nonneg p').
  subst wire. unfold frame_body at 1 3. unfold frame_header. rewrite <-!app_assoc.
  pose proof (frame_parse_eval FRAME_HEAD m' v' t' p' (crc32 (frame_body m v t p)) FRAME_TAIL []) as Hev.
  cbv zeta in Hev. rewrite app_nil_r in Hev. rewrite Hev; clear Hev; try done.
  - change (FRAME_HEAD =? FRAME_HEAD) with true. change (FRAME_TAIL =? FRAME_TAIL) with true.
    rewrite (proj2 (Z.ltb_ge _ _)) by done. cbn [negb].
    destruct (Z.eqb_spec (crc32 ((FRAME_HEAD :: le32_bytes m' ++ [v'; t'] ++ le32_bytes (blen p')) ++ p'))
                (crc32 (frame_body m v t p))) as [Heq|Hne]; cbn [negb]; [|by eexists].
    destruct Hxy. change (crc32 (frame_body m' v' t' p') = crc32 (frame_body m v t p)) in Heq.
    rewrite E, E' in Heq. rewrite E in Hb. rewrite E' in Hb'. unfold bytes_ok in Hb, Hb'.
    rewrite Forall_app, Forall_cons in Hb, Hb'. destruct Hb as (? & ? & ?), Hb' as (_ & ? & _).
    unfold crc32 in Heq. apply (f_equal (λ z, Z.lxor z UINT32_MAX)) in Heq.
    rewrite !Z.lxor_assoc, !Z.lxor_nilpotent, !Z.lxor_0_r in Heq.
    destruct crc32_poly_ok. symmetry.
    apply (crc_single_byte 32 CRC32_POLYNOMIAL ltac:(lia) ltac:(done) ltac:(done) l1 y x l2 UINT32_MAX) in Heq;
      [done|unfold_words; lia|done..].
  - by apply payload_u32.
  - by apply crc32_range.
  - rewrite !blen_app, le32_bytes_len, !blen_cons, !blen_app, !le32_bytes_len, !blen_cons, blen_nil. lia.
Qed.

Lemma frame_detects_corruption_witness :
  ∃ f, frame_parse (Some (frame_body 7 1 3 [1; 9] ++ le32_bytes (crc32 (frame_body 7 1 3 [1; 2])) ++ [FRAME_TAIL]))
    18 (Some frame_zero) 0 = Some (FRAME_PARSE_CRC_MISMATCH, Some f).
Proof.
  apply (frame_detects_corruption 7 1 3 [1; 2] 7 1 3 [1; 9] (take 12 (frame_body 7 1 3 [1; 2])) 2 9 []);
    try (unfold frame_fields_ok, is_u32, is_u8, MAX_PAYLOAD_SIZE;
         split_and!; try (unfold_words; lia); [by_eval|vm_compute; discriminate]);
    [reflexivity|reflexivity|lia].
Defined.

(** ** The stream parser against a queue of unread bytes *)

Lemma slice_within b len q off n :
  slice b 0 len = Some q → off + n <= len → slice q off n = slice b off n.
Proof.
  intros Hq Hn. apply slice_blen in Hq as Hl. apply slice_Some in Hq as (_ & ? & ? & ->).
  unfold slice. rewrite Hl. repeat case_bool_decide; try done; try lia.
  f_equal. rewrite drop_0, skipn_firstn_comm, take_take. f_equal. lia.
Qed.

(** The parser reads nothing behind the length it is given. *)
Lemma frame_peek_within b len q :
  slice b 0 len = Some q → frame_peek_size (Some b) len true = frame_peek_size (Some q) (blen q) true.
Proof.
  intros Hq. rewrite (slice_blen _ _ _ _ Hq). unfold frame_peek_size, FRAME_HEADER_SIZE.
  destruct (Z.ltb_spec len 11); [done|].
  by rewrite (load_slice b len q), (slice_within b len q) by (done || lia).
Qed.

Lemma frame_peek_size_bound q n :
  bytes_ok q → frame_peek_size (Some q) (blen q) true = Some (FRAME_PARSE_OK, Some n) → 0 <= n.
Proof.
  intros Hq. unfold frame_peek_size.
  destruct (Z.ltb_spec (blen q) FRAME_HEADER_SIZE) as [|Hl]; [done|].
  destruct (header_shape q Hq Hl) as (h & m & v & t & n' & tl & -> & _ & _ & _ & _ & Hn & _).
  destruct (header_reads h m v t n' tl) as (-> & _ & _ & _ & ->). msimpl.
  rewrite le32_roundtrip by done. destruct (negb _); [done|]. destruct (_ <? _); [done|].
  intros [= ->]. unfold_words. lia.
Qed.

Lemma frame_parse_within b len q old fl :
  slice b 0 len = Some q → bytes_ok q →
  frame_parse (Some b) len (Some old) fl = frame_parse (Some q) (blen q) (Some old) fl.
Proof.
  intros Hq Hb. unfold frame_parse. rewrite (frame_peek_within b len q Hq).
  destruct (frame_peek_size (Some q) (blen q) true) as [[[] [n|]]|] eqn:E; try done. msimpl.
  apply frame_peek_size_bound in E; [|done]. rewrite (slice_blen _ _ _ _ Hq).
  unfold frame_total_size, FRAME_MIN_SIZE. rewrite bool_decide_true by done. cbn [negb].
  destruct (Z.ltb_spec len (16 + n)); [done|].
  rewrite !(load_slice b len q), !(slice_within b len q) by (done || lia).
  unfold crc32_compute. by rewrite (slice_prefix b len q) by (done || (unfold FRAME_HEADER_SIZE; lia)).
Qed.

(** The payload bytes a copied frame owns. *)
Definition payload_bytes (p : payload_ptr) : option (list Z) :=
  match p with
  | PayloadNull => Some []
  | PayloadInput _ => None
  | PayloadPool _ b | PayloadHeap b => Some b
  end.

Definition frame_copied (f : frame_t) (m v t : Z) (p : list Z) : Prop :=
  fr_head f = FRAME_HEAD ∧ fr_msg_id f = m ∧ fr_version f = v ∧ fr_payload_type f = t ∧
  fr_payload_size f = blen p ∧ payload_bytes (fr_payload f) = Some p ∧
  fr_crc32 f = crc32 (frame_body m v t p) ∧ fr_tail f = FRAME_TAIL.

Lemma frame_copy_cases heap b len q old pool :
  slice b 0 len = Some q → bytes_ok q →
  ∃ r f pool', frame_parse_copy heap (Some b) len (Some old) pool = Some (r, Some f, pool') ∧
    (r = FRAME_PARSE_OK → ∃ m v t p rest, frame_front q m v t p rest ∧ frame_copied f m v t p) ∧
    (heap = true → ∀ m v t p rest, frame_front q m v t p rest → r = FRAME_PARSE_OK).
Proof.
  intros Hq Hb. unfold frame_parse_copy. rewrite (frame_parse_within b len q) by done.
  destruct (frame_parse_cases q old Hb) as [(m & v & t & p & rest & Hf & ->)|(r & f & -> & Hr & _ & Hno)];
    msimpl; last first.
  { rewrite bool_decide_false by done. cbn [negb]. eexists _, _, _. split_and!; try done.
    intros _ m v t p rest Hf. by apply Hno in Hf. }
  rewrite bool_decide_true by done. cbn [negb]. destruct (Hf) as [_ Eq]. simpl.
  assert (slice b 11 (blen p) = Some p) as Hpay.
  { rewrite <-(slice_within b len q) by
      (done || (apply slice_blen in Hq; rewrite <-Hq, Eq, blen_app, frame_wire_len;
                pose proof (blen_nonneg rest); lia)).
    rewrite Eq, frame_wire_front. by apply slice_app. }
  pose proof (blen_nonneg p). destruct (Z.ltb_spec 0 (blen p)) as [Hp|Hp].
  - destruct (pool_alloc pool (blen p)) as [[ptr|] pool']; rewrite Hpay; msimpl.
    + eexists _, _, _. split_and!; try done. intros _. by exists m, v, t, p, rest.
    + destruct heap; cbn [negb]; (eexists _, _, _; split_and!; try done);
        intros _; by exists m, v, t, p, rest.
  - destruct p; [|rewrite blen_cons in Hp; pose proof (blen_nonneg p); lia].
    eexists _, _, _. split_and!; try done. intros _. by exists m, v, t, [], rest.
Qed.

Definition sp_view (s : StreamParser) : list Z := default [] (slice (sp_buffer s) 0 (sp_buffered s)).

(** A known size is that of the frame at the front of the buffer. *)
Record sp_inv (s : StreamParser) : Prop := SpInv {
  sp_inv_len : blen (sp_buffer s) = sp_buffer_size s;
  sp_inv_max : sp_buffer_size s <= INT64_MAX;
  sp_inv_bytes : bytes_ok (sp_buffer s);
  sp_inv_fit : 0 <= sp_buffered s <= sp_buffer_size s;
  sp_inv_expected : sp_expected s ≠ 0 →
    ∃ n, frame_peek_size (Some (sp_view s)) (blen (sp_view s)) true = Some (FRAME_PARSE_OK, Some n) ∧
         sp_expected s = 16 + n
}.

Lemma sp_view_slice s : sp_inv s → slice (sp_buffer s) 0 (sp_buffered s) = Some (sp_view s).
Proof. intros [Hl _ _ Hf _]. unfold sp_view. by rewrite slice_in_bounds by lia. Qed.

Lemma sp_view_blen s : sp_inv s → blen (sp_view s) = sp_buffered s.
Proof. intros H. apply sp_view_slice, slice_blen in H. done. Qed.

Lemma sp_view_bytes s : sp_inv s → bytes_ok (sp_view s).
Proof. intros H. by eapply slice_bytes, sp_view_slice; [apply sp_inv_bytes|]. Qed.

Lemma sp_view_unique s q : slice (sp_buffer s) 0 (sp_buffered s) = Some q → sp_view s = q.
Proof. intros H. unfold sp_view. by rewrite H. Qed.

(** What the size peek says of the unread bytes. *)
Lemma frame_peek_OK q n :
  bytes_ok q → frame_peek_size (Some q) (blen q) true = Some (FRAME_PARSE_OK, Some n) ↔
  ∃ m v t tl, q = frame_header m v t n ++ tl ∧ is_u32 m ∧ is_u8 v ∧ is_u8 t ∧ is_u32 n ∧
    n <= MAX_PAYLOAD_SIZE.
Proof.
  intros Hq. split.
  - destruct (decide (blen q < FRAME_HEADER_SIZE)) as [Hs|Hl].
    { unfold frame_peek_size. by rewrite (proj2 (Z.ltb_lt _ _) Hs). }
    destruct (header_shape q Hq) as (h & m & v & t & n' & tl & -> & _ & Hm & Hv & Ht & Hn & _); [lia|].
    rewrite frame_peek_eval by (done || lia).
    destruct (Z.eqb_spec h FRAME_HEAD) as [->|]; cbn [negb]; [|done].
    destruct (Z.ltb_spec MAX_PAYLOAD_SIZE n'); [done|]. intros [= ->]. by exists m, v, t, tl.
  - intros (m & v & t & tl & -> & _ & _ & _ & Hn & Hmax). unfold frame_header.
    rewrite frame_peek_eval; [|done|].
    + change (FRAME_HEAD =? FRAME_HEAD) with true. by rewrite (proj2 (Z.ltb_ge _ _) Hmax).
    + rewrite blen_app. pose proof (blen_nonneg tl). unfold FRAME_HEADER_SIZE.
      change (blen (FRAME_HEAD :: le32_bytes m ++ [v; t] ++ le32_bytes n)) with 11. lia.
Qed.

Lemma frame_peek_app q r n :
  bytes_ok (q ++ r) → frame_peek_size (Some q) (blen q) true = Some (FRAME_PARSE_OK, Some n) →
  frame_peek_size (Some (q ++ r)) (blen (q ++ r)) true = Some (FRAME_PARSE_OK, Some n).
Proof.
  intros Hqr. rewrite !frame_peek_OK; [|done|by apply Forall_app in Hqr as [? _]].
  intros (m & v & t & tl & -> & ?). exists m, v, t, (tl ++ r). by rewrite app_assoc.
Qed.

Lemma frame_front_peek q m v t p rest :
  frame_front q m v t p rest → bytes_ok q →
  frame_peek_size (Some q) (blen q) true = Some (FRAME_PARSE_OK, Some (blen p)) ∧ 16 + blen p <= blen q.
Proof.
  intros [(Hm & Hv & Ht & Hp & Hmax) E] Hq. pose proof (blen_nonneg rest). split.
  - apply frame_peek_OK; [done|]. rewrite E, frame_wire_front. do 4 eexists. split; [done|].
    split_and!; try done. by apply payload_u32.
  - rewrite E, blen_app, frame_wire_len. lia.
Qed.

Lemma frame_peek_waits q n :
  bytes_ok q → frame_peek_size (Some q) (blen q) true = Some (FRAME_PARSE_OK, Some n) →
  blen q < 16 + n → frame_incomplete q.
Proof.
  intros Hq Hpk Hlt. apply frame_peek_OK in Hpk as (m & v & t & tl & E & _ & _ & _ & Hn & Hmax); [|done].
  right. by exists m, v, t, n, tl.
Qed.

Lemma stream_append_ok s chunk :
  sp_inv s → bytes_ok chunk → sp_buffered s + blen chunk <= sp_buffer_size s →
  ∃ b, blit (sp_buffer s) (sp_buffered s) chunk = Some b ∧
    let s' := MkStreamParser b (sp_buffer_size s) (sp_buffered s + blen chunk) (sp_expected s)
                (sp_last_error s) in
    sp_inv s' ∧ sp_view s' = sp_view s ++ chunk.
Proof.
  intros Hi Hc Hfit. pose proof (sp_view_slice s Hi) as Hv. pose proof (sp_view_blen s Hi) as Hvl.
  destruct (Hi) as [Hl Hm Hb Hf He]. pose proof (blen_nonneg chunk).
  destruct (blit (sp_buffer s) (sp_buffered s) chunk) as [b'|] eqn:Hbl;
    [|rewrite blit_in_bounds in Hbl by lia; done].
  exists b'. split; [done|]. pose proof (blit_blen _ _ _ _ Hbl). cbv zeta.
  assert (bytes_ok b') as Hb' by exact (blit_bytes _ _ _ _ Hb Hc Hbl).
  assert (slice b' 0 (sp_buffered s + blen chunk) = Some (sp_view s ++ chunk)) as Hview.
  { apply slice_join.
    - by rewrite (slice_blit_before _ _ _ _ _ _ Hbl) by lia.
    - by apply (slice_blit_same _ _ _ _ Hbl). }
  apply (sp_view_unique (MkStreamParser b' (sp_buffer_size s) (sp_buffered s + blen chunk)
    (sp_expected s) (sp_last_error s))) in Hview as Hq.
  split; [|done]. constructor; simpl; try done; try lia.
  intros (n & Hpk & Hx)%He. exists n. split; [|exact Hx]. rewrite Hq.
  apply frame_peek_app; [|done]. by eapply slice_bytes.
Qed.

Lemma frame_peek_cases q :
  bytes_ok q →
  (∃ r, frame_peek_size (Some q) (blen q) true = Some (r, None) ∧ r ≠ FRAME_PARSE_OK ∧
     (r = FRAME_PARSE_NEED_MORE → frame_incomplete q) ∧
     ∀ m v t p rest, ¬ frame_front q m v t p rest) ∨
  (∃ n, frame_peek_size (Some q) (blen q) true = Some (FRAME_PARSE_OK, Some n)).
Proof.
  intros Hq.
  assert (∀ r, frame_peek_size (Some q) (blen q) true = Some (r, None) →
    ∀ m v t p rest, ¬ frame_front q m v t p rest) as Hno.
  { intros r Hp ????? [Hx _]%frame_front_peek; [|done]. congruence. }
  destruct (decide (blen q < FRAME_HEADER_SIZE)) as [Hs|Hlong].
  { left. exists FRAME_PARSE_NEED_MORE.
    assert (frame_peek_size (Some q) (blen q) true = Some (FRAME_PARSE_NEED_MORE, None)) as Hpk
      by (unfold frame_peek_size; by rewrite (proj2 (Z.ltb_lt _ _) Hs)).
    split_and!; [done|done|by left|by eapply Hno]. }
  destruct (header_shape q) as (h & m & v & t & n & tl & E & _ & _ & _ & _ & Hn & _); [done|lia|].
  assert (Hpk := frame_peek_eval h m v t n tl (blen q) Hn). rewrite <-E in Hpk.
  specialize (Hpk ltac:(lia)).
  destruct (h =? FRAME_HEAD); cbn [negb] in Hpk; [destruct (MAX_PAYLOAD_SIZE <? n)|];
    [left; eexists; split_and!; [exact Hpk|done..|by eapply Hno]|right; eauto|
     left; eexists; split_and!; [exact Hpk|done..|by eapply Hno]].
Qed.

Lemma sp_fail_ok s code off msg :
  sp_inv s → sp_inv (sp_fail s code off msg) ∧ sp_view (sp_fail s code off msg) = sp_view s.
Proof. intros [Hl Hm Hb Hf He]. split; [by constructor|done]. Qed.

(** After the size peek: an early answer, or the size of the front frame. *)
Lemma stream_peek_ok s :
  sp_inv s →
  (∃ st s', stream_parser_peek s = Some (inl (st, s')) ∧ st ≠ STREAM_FRAME_COMPLETE ∧ sp_inv s' ∧
     sp_view s' = sp_view s ∧ sp_buffer_size s' = sp_buffer_size s ∧
     (st = STREAM_NEED_MORE_DATA → frame_incomplete (sp_view s)) ∧
     ∀ m v t p rest, ¬ frame_front (sp_view s) m v t p rest) ∨
  (∃ s', stream_parser_peek s = Some (inr s') ∧ sp_inv s' ∧ sp_view s' = sp_view s ∧
     sp_buffer_size s' = sp_buffer_size s ∧ sp_expected s' ≠ 0).
Proof.
  intros Hi. pose proof (sp_view_blen s Hi) as Hvl. pose proof (sp_view_bytes s Hi) as Hvb.
  destruct (Hi) as [Hl Hm Hb Hf He]. unfold stream_parser_peek.
  destruct (Z.eqb_spec (sp_expected s) 0) as [E0|E0]; cbn [negb]; [|right; by exists s].
  rewrite (frame_peek_within _ _ _ (sp_view_slice s Hi)).
  destruct (frame_peek_cases (sp_view s) Hvb) as [(r & -> & Hr & Hneed & Hno)|[n Hpk]].
  - left. msimpl. case_bool_decide as Hn; [exists STREAM_NEED_MORE_DATA, s; by auto 10|].
    rewrite bool_decide_false by done. cbn [negb]. do 2 eexists. split; [done|].
    split_and!; try done; by apply sp_fail_ok.
  - rewrite Hpk. msimpl. rewrite bool_decide_false, bool_decide_true by done. cbn [negb].
    pose proof (frame_peek_size_bound _ _ Hvb Hpk) as Hn.
    assert (sp_inv (sp_set_expected s (frame_total_size n))) as Hi'
      by (constructor; simpl; try done; intros _; by exists n).
    simpl. destruct (Z.ltb_spec (sp_buffer_size s) (frame_total_size n)) as [Hbig|Hok].
    + left. do 2 eexists. split; [done|]. split_and!; try done; [by apply sp_fail_ok|].
      intros m v t p rest [Hx Hle]%frame_front_peek; [|done].
      rewrite Hpk in Hx. injection Hx as ->. unfold frame_total_size, FRAME_MIN_SIZE in Hbig. lia.
    + right. eexists. split_and!; try done. simpl. unfold frame_total_size, FRAME_MIN_SIZE. lia.
Qed.

(** A complete front frame is copied out and removed. *)
Lemma stream_finish_ok heap s old pool :
  sp_inv s → sp_expected s ≠ 0 → sp_expected s <= sp_buffered s →
  ∃ st s' f pool', stream_parser_finish heap s (Some old) pool = Some (st, s', Some f, pool') ∧
    st ≠ STREAM_NEED_MORE_DATA ∧ sp_inv s' ∧ sp_buffer_size s' = sp_buffer_size s ∧
    (st = STREAM_FRAME_COMPLETE → ∃ m v t p,
       frame_front (sp_view s) m v t p (sp_view s') ∧ frame_copied f m v t p) ∧
    (st ≠ STREAM_FRAME_COMPLETE → sp_view s' = sp_view s) ∧
    (heap = true → ∀ m v t p rest, frame_front (sp_view s) m v t p rest → st = STREAM_FRAME_COMPLETE).
Proof.
  intros Hi He0 Hle. pose proof (sp_view_slice s Hi) as Hv. pose proof (sp_view_blen s Hi) as Hvl.
  pose proof (sp_view_bytes s Hi) as Hvb. destruct (Hi) as [Hl Hm Hb Hf He].
  destruct (He He0) as (n & Hpk & Hexp). pose proof (frame_peek_size_bound _ _ Hvb Hpk) as Hn.
  replace (sp_buffered s) with (sp_expected s + (sp_buffered s - sp_expected s)) in Hv by lia.
  apply slice_split in Hv as (w & rest & Heq & Hw & Hrest); [|lia..]. rewrite Z.add_0_l in Hrest.
  assert (bytes_ok w ∧ bytes_ok rest) as [Hwb Hrb] by (unfold bytes_ok in *; by rewrite Heq, Forall_app in Hvb).
  pose proof (slice_blen _ _ _ _ Hw) as Hwl.
  unfold stream_parser_finish.
  destruct (frame_copy_cases heap _ _ w old pool Hw Hwb) as (r & f & pool' & -> & Hok & Hcomplete). msimpl.
  assert (∀ m v t p r', frame_front (sp_view s) m v t p r' → frame_front w m v t p []) as Hfw.
  { intros m v t p r' Hfr. destruct (frame_front_peek _ _ _ _ _ _ Hfr Hvb) as [Hpk' _].
    rewrite Hpk in Hpk'. injection Hpk' as ->. destruct Hfr as [Hfo Hq]. split; [done|].
    rewrite Heq in Hq. rewrite app_nil_r. apply app_inj_1 in Hq as [-> _]; [done|].
    pose proof (frame_wire_len m v t p). unfold blen in *. lia. }
  case_bool_decide as Hr; cbn [negb]; last first.
  { do 4 eexists. split; [done|]. split_and!; try done.
    intros Hh m v t p r' Hfr. destruct Hr. eauto. }
  destruct (compact_spec _ _ _ _ Hrest) as (b' & -> & Hbl & Hbb & Hsl & _). msimpl.
  do 4 eexists. split; [done|]. split_and!; try done.
  - constructor; simpl; try done; [lia|by apply Hbb|lia].
  - intros _. destruct (Hok Hr) as (m & v & t & p & r' & Hfr & Hcp). exists m, v, t, p. split; [|done].
    assert (sp_view (MkStreamParser b' (sp_buffer_size s) (sp_buffered s - sp_expected s) 0 (sp_last_error s)) = rest)
      as -> by by apply sp_view_unique.
    pose proof (frame_front_peek _ _ _ _ _ _ Hfr Hwb) as [Hpw _].
    apply (frame_peek_app w rest) in Hpw; [|by rewrite <-Heq]. rewrite <-Heq, Hpk in Hpw.
    injection Hpw as ->. destruct Hfr as [Hfo Hwq]. split; [done|]. rewrite Heq. f_equal.
    assert (r' = []) as ->; [|by rewrite app_nil_r in Hwq].
    apply (f_equal blen) in Hwq. rewrite blen_app, frame_wire_len in Hwq.
    destruct r'; [done|]. rewrite blen_cons in Hwq. pose proof (blen_nonneg r'). lia.
Qed.

(** C34. Feeding the stream parser refines a queue of unread bytes: no access
    leaves the buffer; a chunk that does not fit is refused with the queue
    unchanged; a call completes a frame only when a valid frame is at the front
    of the queue, hands out that frame with a payload of its own and removes
    exactly its bytes; when memory for the payload can be had, such a frame is
    always delivered; it waits only while the header or the frame it promises
    is incomplete; every other answer keeps the queue. *)
Theorem stream_feed_refines heap s chunk old pool :
  sp_inv s → bytes_ok chunk → blen chunk <= INT64_MAX →
  ∃ st s' f pool',
    stream_parser_feed heap (Some s) (Some chunk) (blen chunk) (Some old) pool =
      Some (st, Some s', Some f, pool') ∧
    sp_inv s' ∧ sp_buffer_size s' = sp_buffer_size s ∧
    let q := sp_view s ++ chunk in
    if bool_decide (blen q <= sp_buffer_size s) then
      (st = STREAM_FRAME_COMPLETE →
         ∃ m v t p, frame_front q m v t p (sp_view s') ∧ frame_copied f m v t p) ∧
      (heap = true → ∀ m v t p rest, frame_front q m v t p rest → st = STREAM_FRAME_COMPLETE) ∧
      (st = STREAM_NEED_MORE_DATA → frame_incomplete q) ∧
      (st ≠ STREAM_FRAME_COMPLETE → sp_view s' = q)
    else st = STREAM_ERROR ∧ sp_view s' = sp_view s.
Proof.
  intros Hi Hc Hmax. pose proof (sp_view_blen s Hi) as Hvl. pose proof (sp_inv_fit s Hi).
  pose proof (sp_inv_max s Hi). pose proof (blen_nonneg chunk).
  unfold stream_parser_feed. rewrite u64_id by (unfold_words; lia). cbv zeta. rewrite blen_app, Hvl.
  destruct (Z.ltb_spec (sp_buffer_size s) (sp_buffered s + blen chunk)) as [Hbig|Hfit].
  { rewrite bool_decide_false by lia. do 4 eexists. split; [done|]. split_and!; try done. by apply sp_fail_ok. }
  rewrite bool_decide_true by lia. rewrite slice_all. msimpl.
  destruct (stream_append_ok s chunk Hi Hc Hfit) as (b & -> & Hi1 & Hv1). msimpl.
  set (s1 := MkStreamParser b _ _ _ _) in *. assert (sp_buffer_size s1 = sp_buffer_size s) as Hz1 by done.
  clearbody s1. rewrite <-Hv1, <-Hz1.
  destruct (stream_peek_ok s1 Hi1) as [(st & s2 & -> & Hst & Hi2 & Hv2 & Hz2 & Hneed & Hno)|
                                       (s2 & -> & Hi2 & Hv2 & Hz2 & He2)]; msimpl.
  { do 4 eexists. split; [done|]. split_and!; try done. intros _ ????? Hfr. by apply Hno in Hfr. }
  rewrite <-Hv2, <-Hz2. destruct (Z.ltb_spec (sp_buffered s2) (sp_expected s2)) as [Hlt|Hle].
  - destruct (sp_inv_expected s2 Hi2 He2) as (n & Hpk & Hexp). rewrite <-(sp_view_blen s2 Hi2) in Hlt.
    pose proof (sp_view_bytes s2 Hi2). do 4 eexists. split; [done|]. split_and!; try done.
    + intros _ m v t p rest [Hx Hle]%frame_front_peek; [|done]. rewrite Hpk in Hx. injection Hx as ->. lia.
    + intros _. apply (frame_peek_waits _ n); [done|done|lia].
  - destruct (stream_finish_ok heap s2 old pool Hi2 He2 Hle)
      as (st & s3 & f & pool' & -> & Hst & Hi3 & Hz3 & Hok & Hkeep & Hcomp). msimpl.
    do 4 eexists. split; [done|]. by split_and!.
Qed.

Lemma stream_create_inv n junk :
  blen junk = sp_buffer_size (stream_parser_create n junk) → bytes_ok junk → blen junk <= INT64_MAX →
  sp_inv (stream_parser_create n junk).
Proof.
  intros Hl Hb Hmax. constructor; simpl in *; try done.
  - lia.
  - pose proof (blen_nonneg junk). lia.
Qed.

Lemma stream_feed_refines_witness :
  ∃ st s' f pool', stream_parser_feed true (Some (stream_parser_create 20 (zeros 20)))
    (Some [170; 1; 2]) 3 (Some frame_zero) None = Some (st, Some s', Some f, pool').
Proof.
  destruct (stream_feed_refines true (stream_parser_create 20 (zeros 20)) [170; 1; 2] frame_zero None)
    as (st & s' & f & pool' & E & _).
  - apply stream_create_inv; [reflexivity|by_eval|vm_compute; discriminate].
  - by_eval.
  - vm_compute. discriminate.
  - exists st, s', f, pool'. exact E.
Defined.

(** ** Statistics *)

(** The counters account for every update: after any sequence of parse
    results, below the width of the counters, the parsed and failed frames add
    up to the number of results, the parsed ones are exactly the [PARSE_OK]s,
    and the error classes never exceed the failures. *)
Theorem parser_stats_account (rs : list (ParseError * Z * Z)) :
  Z.of_nat (length rs) <= INT64_MAX →
  let s := fold_left (λ s '(r, b, t), parser_stats_update s r b t) rs parser_stats_init in
  frames_parsed s + frames_failed s = Z.of_nat (length rs) ∧
  frames_parsed s = Z.of_nat (length (filter (λ x, x.1.1 = PARSE_OK) rs)) ∧
  0 <= crc_errors s ∧ 0 <= truncated_frames s ∧ 0 <= invalid_frames s ∧
  crc_errors s + truncated_frames s + invalid_frames s <= frames_failed s.
Proof.
  induction rs as [|[[r b] t] rs IH] using rev_ind; [done|]. cbv zeta.
  rewrite length_app, filter_app, length_app, fold_left_app. cbn [length fold_left]. intros Hlen.
  destruct IH as (IHn & IHok & Hc & Ht & Hi & Hle); [lia|].
  set (s := fold_left _ rs parser_stats_init) in *. clearbody s.
  rewrite IHok in *. rewrite filter_cons, filter_nil. cbn [fst snd].
  unfold parser_stats_update, INT64_MAX in *.
  destruct r; cbn [frames_parsed frames_failed crc_errors truncated_frames invalid_frames];
    repeat first [rewrite decide_True by done | rewrite decide_False by done
                 |rewrite bool_decide_true by done | rewrite bool_decide_false by done];
    cbn [orb length app]; rewrite ?IHok, !u64_id by (unfold_words; lia); lia.
Qed.

Lemma parser_stats_account_witness :
  frames_parsed (fold_left (λ s '(r, b, t), parser_stats_update s r b t)
    [(PARSE_OK, 16, 5); (PARSE_ERR_TRUNCATED, 3, 1)] parser_stats_init) = 1.
Proof.
  exact (proj1 (proj2 (parser_stats_account [(PARSE_OK, 16, 5); (PARSE_ERR_TRUNCATED, 3, 1)]
    ltac:(vm_compute; discriminate)))).
Defined.

(** ** A frame larger than the buffer *)

(** The size of an oversized frame is kept after the error, so the next feed
    asks for more data of a frame that can never be completed. *)
Example stream_oversize_then_need_more :
  ∃ s1 f1 p1 s2 f2 p2,
    stream_parser_feed true (Some (stream_parser_create 20 (zeros 20)))
      (Some (frame_header 1 1 1 100)) 11 (Some frame_zero) None = Some (STREAM_ERROR, Some s1, f1, p1) ∧
    stream_parser_feed true (Some s1) (Some [0]) 1 (Some frame_zero) None =
      Some (STREAM_NEED_MORE_DATA, Some s2, f2, p2).
Proof. by do 6 eexists. Qed.
