(* ===== verification/Ltv.v ===== *)
(** * Ltv: the length-type-value codec ([parser/ltv_parser]) *)

From S2P Require Import Prelude.
Local Open Scope Z_scope.

Definition LTV_MAX_VARINT_BYTES : Z := 5.
Definition LTV_MAX_PAYLOAD_SIZE : Z := 10 * 1024 * 1024.

Inductive LtvParseResult :=
  | LTV_PARSE_OK
  | LTV_PARSE_NEED_MORE
  | LTV_PARSE_INVALID_VARINT
  | LTV_PARSE_SIZE_OVERFLOW
  | LTV_PARSE_BUFFER_OVERFLOW.

#[export] Instance LtvParseResult_eq_dec : EqDecision LtvParseResult.
Proof. solve_decision. Defined.

(** [value] is the zero-copy view: the offset into the parsed buffer, or
    [None] for the [NULL] of an empty value. *)
Record ltv_message := LtvMessage {
  msg_length : Z;
  msg_type : Z;
  msg_value : option Z;
  msg_value_size : Z;
  msg_consumed : Z
}.

(** ** Varints *)

Definition ltv_varint_size (value : Z) : Z :=
  if value <? Z.shiftl 1 7 then 1
  else if value <? Z.shiftl 1 14 then 2
  else if value <? Z.shiftl 1 21 then 3
  else if value <? Z.shiftl 1 28 then 4
  else 5.

(** The loop of [ltv_decode_varint]: the return value and, when a canonical
    value was decoded, what is stored through [out]. The loop runs at most
    [LTV_MAX_VARINT_BYTES] times; [fuel] counts its condition tests. *)
Fixpoint ltv_decode_varint_loop (fuel : nat) (data : list Z)
    (len i shift result : Z) : option (Z * option Z) :=
  match fuel with
  | O => None
  | S fuel' =>
      if (i <? len) && (i <? LTV_MAX_VARINT_BYTES) then
        byte ← load data i;
        if (i =? LTV_MAX_VARINT_BYTES - 1) && negb (Z.land byte 240 =? 0)
        then Some (-1, None) else
        let result := Z.lor result (u32 (Z.shiftl (Z.land byte 127) shift)) in
        if Z.land byte 128 =? 0 then
          if negb (ltv_varint_size result =? i + 1) then Some (-1, None)
          else Some (i + 1, Some result)
        else ltv_decode_varint_loop fuel' data len (i + 1) (shift + 7) result
      else Some (if LTV_MAX_VARINT_BYTES <=? len then -1 else 0, None)
  end.

Definition ltv_decode_varint (data : option (list Z)) (len : Z)
    (out : option Z) : option (Z * option Z) :=
  match data, out with
  | Some data, Some old =>
      if len =? 0 then Some (0, Some old) else
      '(ret, res) ← ltv_decode_varint_loop 6 data len 0 0 0;
      Some (ret, Some (default old res))
  | _, _ => Some (0, out)
  end.

Fixpoint ltv_encode_varint_loop (fuel : nat) (value i : Z) (out : list Z) :
    option (Z * list Z) :=
  match fuel with
  | O => None
  | S fuel' =>
      if 128 <=? value then
        out ← store out i (u8 (Z.lor value 128));
        ltv_encode_varint_loop fuel' (Z.shiftr value 7) (i + 1) out
      else
        out ← store out i (u8 value);
        Some (i + 1, out)
  end.

(** [ltv_encode_varint]: the bytes written and the buffer after the call. *)
Definition ltv_encode_varint (value : Z) (out : option (list Z)) :
    option (Z * option (list Z)) :=
  match out with
  | None => Some (0, None)
  | Some out =>
      '(n, out) ← ltv_encode_varint_loop 5 value 0 out; Some (n, Some out)
  end.

(** ** Messages *)

Definition ltv_total_size (length header_size : Z) : Z := u64 (header_size + length).

(** [ltv_peek_size]: status, [*out_length], [*out_header]. *)
Definition ltv_peek_size (data : option (list Z)) (len : Z)
    (out_length out_header : option Z) :
    option (LtvParseResult * option Z * option Z) :=
  match data, out_length, out_header with
  | Some _, Some _, Some _ =>
      '(header_size, length) ← ltv_decode_varint data len (Some 0);
      let length := default 0 length in
      if header_size =? 0 then Some (LTV_PARSE_NEED_MORE, out_length, out_header)
      else if header_size <? 0 then Some (LTV_PARSE_INVALID_VARINT, out_length, out_header)
      else if length =? 0 then Some (LTV_PARSE_INVALID_VARINT, out_length, out_header)
      else if LTV_MAX_PAYLOAD_SIZE + 1 <? length
      then Some (LTV_PARSE_SIZE_OVERFLOW, out_length, out_header)
      else Some (LTV_PARSE_OK, Some length, Some header_size)
  | _, _, _ => Some (LTV_PARSE_INVALID_VARINT, out_length, out_header)
  end.

Definition ltv_parse (data : option (list Z)) (len : Z)
    (out : option ltv_message) : option (LtvParseResult * option ltv_message) :=
  match data, out with
  | Some buf, Some _ =>
      '(peek, length, header_size) ← ltv_peek_size data len (Some 0) (Some 0);
      let length := default 0 length in
      let header_size := default 0 header_size in
      if negb (bool_decide (peek = LTV_PARSE_OK)) then Some (peek, out) else
      let total := ltv_total_size length header_size in
      if len <? total then Some (LTV_PARSE_NEED_MORE, out) else
      ty ← load buf header_size;
      let value_size := length - 1 in
      Some (LTV_PARSE_OK,
        Some {| msg_length := length;
                msg_type := ty;
                msg_value := if 0 <? value_size then Some (header_size + 1) else None;
                msg_value_size := value_size;
                msg_consumed := total |})
  | _, _ => Some (LTV_PARSE_INVALID_VARINT, out)
  end.

Definition ltv_wire_size (value_size : Z) : Z :=
  if LTV_MAX_PAYLOAD_SIZE <? value_size then 0
  else let length := u32 (u32 value_size + 1) in
       ltv_varint_size length + length.

(** [value] is the [value_size] bytes at the pointer, [None] for [NULL]. *)
Definition ltv_build (type : Z) (value : option (list Z)) (value_size : Z)
    (out : option (list Z)) (out_len : Z) : option (Z * option (list Z)) :=
  let wire_size := ltv_wire_size value_size in
  match out with
  | None => Some (0, out)
  | Some o =>
      if (wire_size =? 0) || ((0 <? value_size) && bool_decide (value = None))
         || (out_len <? wire_size)
      then Some (0, out) else
      let length := u32 (u32 value_size + 1) in
      '(header_size, o) ← ltv_encode_varint_loop 5 length 0 o;
      o ← store o header_size type;
      o ← (match value with
           | Some v => if 0 <? value_size
                       then (s ← slice v 0 value_size; blit o (header_size + 1) s)
                       else Some o
           | None => Some o
           end);
      Some (wire_size, Some o)
  end.

(** ** Stream parser *)

Record ltv_stream_s := LtvStream {
  ls_buffer : list Z;
  ls_buffer_size : Z;
  ls_buffered : Z;
  ls_expected : Z;
  ls_header_size : Z;
  ls_pending_consume : Z
}.

(** [malloc] leaves the contents unspecified: they are an argument. *)
Definition ltv_stream_create (buffer_size : Z) (junk : list Z) : ltv_stream_s :=
  {| ls_buffer := junk;
     ls_buffer_size := if buffer_size =? 0 then 65536 else buffer_size;
     ls_buffered := 0; ls_expected := 0; ls_header_size := 0;
     ls_pending_consume := 0 |}.

Definition ltv_stream_consume_completed (s : ltv_stream_s) : option ltv_stream_s :=
  if ls_pending_consume s =? 0 then Some s else
  let remaining := ls_buffered s - ls_pending_consume s in
  buf ← compact (ls_buffer s) (ls_pending_consume s) remaining;
  Some {| ls_buffer := buf; ls_buffer_size := ls_buffer_size s;
          ls_buffered := remaining; ls_expected := ls_expected s;
          ls_header_size := ls_header_size s; ls_pending_consume := 0 |}.

(** "Append new data": [None] is the early return of a full buffer. *)
Definition ltv_stream_append (s : ltv_stream_s) (data : option (list Z)) (len : Z) :
    option (option ltv_stream_s) :=
  match data with
  | Some d =>
      if 0 <? len then
        if ls_buffer_size s - ls_buffered s <? len then Some None else
        chunk ← slice d 0 len;
        buf ← blit (ls_buffer s) (ls_buffered s) chunk;
        Some (Some {| ls_buffer := buf; ls_buffer_size := ls_buffer_size s;
                      ls_buffered := ls_buffered s + len;
                      ls_expected := ls_expected s;
                      ls_header_size := ls_header_size s;
                      ls_pending_consume := ls_pending_consume s |})
      else Some (Some s)
  | None => Some (Some s)
  end.

Definition ls_set_expected (s : ltv_stream_s) (e h : Z) : ltv_stream_s :=
  {| ls_buffer := ls_buffer s; ls_buffer_size := ls_buffer_size s;
     ls_buffered := ls_buffered s; ls_expected := e; ls_header_size := h;
     ls_pending_consume := ls_pending_consume s |}.

(** "Peek size if not yet known": [inl] is an early return. *)
Definition ltv_stream_peek (s : ltv_stream_s) :
    option (LtvParseResult * ltv_stream_s + ltv_stream_s) :=
  if ls_expected s =? 0 then
    '(peek, length, header_size) ←
       ltv_peek_size (Some (ls_buffer s)) (ls_buffered s) (Some 0) (Some 0);
    if negb (bool_decide (peek = LTV_PARSE_OK)) then Some (inl (peek, s)) else
    let s := ls_set_expected s
      (ltv_total_size (default 0 length) (default 0 header_size))
      (default 0 header_size) in
    if ls_buffer_size s <? ls_expected s
    then Some (inl (LTV_PARSE_BUFFER_OVERFLOW, s)) else Some (inr s)
  else Some (inr s).

Definition ltv_stream_feed (s : option ltv_stream_s) (data : option (list Z))
    (len : Z) (out : option ltv_message) :
    option (LtvParseResult * option ltv_stream_s * option ltv_message) :=
  match s, out with
  | Some st, Some _ =>
      if bool_decide (data = None) && (0 <? len)
      then Some (LTV_PARSE_INVALID_VARINT, s, out) else
      st ← ltv_stream_consume_completed st;
      appended ← ltv_stream_append st data len;
      match appended with
      | None => Some (LTV_PARSE_BUFFER_OVERFLOW, Some st, out)
      | Some st =>
          peeked ← ltv_stream_peek st;
          match peeked with
          | inl (r, st) => Some (r, Some st, out)
          | inr st =>
              if ls_buffered st <? ls_expected st
              then Some (LTV_PARSE_NEED_MORE, Some st, out) else
              '(result, out') ← ltv_parse (Some (ls_buffer st)) (ls_expected st) out;
              if negb (bool_decide (result = LTV_PARSE_OK))
              then Some (result, Some st, out') else
              Some (LTV_PARSE_OK,
                Some {| ls_buffer := ls_buffer st;
                        ls_buffer_size := ls_buffer_size st;
                        ls_buffered := ls_buffered st;
                        ls_expected := 0; ls_header_size := 0;
                        ls_pending_consume := ls_expected st |},
                out')
          end
      end
  | _, _ => Some (LTV_PARSE_INVALID_VARINT, s, out)
  end.

(** [ltv_stream_remaining]: the count and the unconsumed view. *)
Definition ltv_stream_remaining (s : option ltv_stream_s) : option (Z * list Z) :=
  match s with
  | None => Some (0, [])
  | Some st =>
      let offset := ls_pending_consume st in
      v ← slice (ls_buffer st) offset (ls_buffered st - offset);
      Some (ls_buffered st - offset, v)
  end.

Definition ltv_stream_reset (s : option ltv_stream_s) : option ltv_stream_s :=
  match s with
  | None => None
  | Some st =>
      Some {| ls_buffer := ls_buffer st; ls_buffer_size := ls_buffer_size st;
              ls_buffered := 0; ls_expected := 0; ls_header_size := 0;
              ls_pending_consume := 0 |}
  end.

(** ** The reference encoding: canonical unsigned LEB128 *)

Fixpoint leb128 (n : nat) (v : Z) : list Z :=
  match n with
  | O => []
  | S n => if v <? 128 then [v] else (v mod 128 + 128) :: leb128 n (v / 128)
  end.

Definition varint_bytes (v : Z) : list Z := leb128 5 v.

(** One message on the wire. *)
Definition ltv_wire (ty : Z) (payload : list Z) : list Z :=
  varint_bytes (blen payload + 1) ++ ty :: payload.

Example wire_300 : varint_bytes 300 = [172; 2].
Proof. reflexivity. Qed.
Example decode_300 : ltv_decode_varint (Some [172; 2; 9]) 3 (Some 7) = Some (2, Some 300).
Proof. reflexivity. Qed.
Example decode_overlong : ltv_decode_varint (Some [172; 0; 9]) 3 (Some 7) = Some (-1, Some 7).
Proof. reflexivity. Qed.

Lemma ltv_varint_size_eq v :
  ltv_varint_size v = if v <? 128 then 1 else if v <? 16384 then 2
    else if v <? 2097152 then 3 else if v <? 268435456 then 4 else 5.
Proof. reflexivity. Qed.

Lemma leb128_step n v :
  leb128 (S n) v = if v <? 128 then [v] else (v mod 128 + 128) :: leb128 n (v / 128).
Proof. reflexivity. Qed.

Lemma leb128_bytes n v : 0 <= v → bytes_ok (leb128 n v).
Proof.
  revert v. induction n as [|n IH]; intros v Hv; [by constructor|].
  rewrite leb128_step. destruct (Z.ltb_spec v 128).
  - repeat constructor; word_lia.
  - constructor; [word_lia|]. apply IH. word_lia.
Qed.

(** What the decoder does to one byte, in arithmetic. *)
Lemma decode_varint_loop_S fuel data len i result b :
  bytes_ok data → 0 <= i → i < len → i < 5 → load data i = Some b →
  0 <= result < 2 ^ (7 * i) →
  ltv_decode_varint_loop (S fuel) data len i (7 * i) result =
    if (i =? 4) && (16 <=? b) then Some (-1, None) else
    let r := result + (b mod 128) * 2 ^ (7 * i) in
    if b <? 128 then
      if ltv_varint_size r =? i + 1 then Some (i + 1, Some r) else Some (-1, None)
    else ltv_decode_varint_loop fuel data len (i + 1) (7 * (i + 1)) r.
Proof.
  intros Hd Hi Hlen H5 Hb Hr. simpl. pose proof (load_byte _ _ _ Hd Hb) as Hb8.
  rewrite (proj2 (Z.ltb_lt i len)), (proj2 (Z.ltb_lt i _)) by (done || lia).
  rewrite Hb. cbn [andb mbind option_bind].
  change (LTV_MAX_VARINT_BYTES - 1) with 4.
  rewrite byte_land_f0, byte_land_80, byte_land_7f by done.
  replace (negb (b - b mod 16 =? 0)) with (16 <=? b)
    by (destruct (Z.leb_spec 16 b), (Z.eqb_spec (b - b mod 16) 0); simpl; word_lia).
  destruct ((i =? 4) && (16 <=? b)) eqn:E4; [done|].
  assert (Hsmall : 0 <= b mod 128 * 2 ^ (7 * i) < 2 ^ 32).
  { apply andb_false_iff in E4. rewrite Z.eqb_neq, Z.leb_gt in E4.
    assert (i = 0 ∨ i = 1 ∨ i = 2 ∨ i = 3 ∨ i = 4) as Hc by lia.
    destruct Hc as [-> | [-> | [-> | [-> | ->]]]]; simpl; word_lia. }
  assert (Hu : u32 (Z.shiftl (b mod 128) (7 * i)) = Z.shiftl (b mod 128) (7 * i)).
  { apply u32_id. rewrite Z.shiftl_mul_pow2 by lia. unfold_words. lia. }
  rewrite Hu, lor_lo_shiftl_add by lia.
  rewrite (Z.add_comm _ result).
  replace ((if b <? 128 then 0 else 128) =? 0) with (b <? 128)
    by (destruct (Z.ltb_spec b 128); done).
  replace (7 * (i + 1)) with (7 * i + 7) by lia.
  destruct (b <? 128); [|done].
  by destruct (ltv_varint_size _ =? i + 1).
Qed.

Lemma varint_size_range v i :
  0 <= i <= 4 → (i = 0 ∨ 2 ^ (7 * i) <= v) → (i = 4 ∨ v < 2 ^ (7 * (i + 1))) →
  ltv_varint_size v = i + 1.
Proof.
  intros Hi Hlo Hhi. rewrite ltv_varint_size_eq.
  assert (i = 0 ∨ i = 1 ∨ i = 2 ∨ i = 3 ∨ i = 4) as Hc by lia.
  destruct Hc as [-> | [-> | [-> | [-> | ->]]]]; simpl in *;
    repeat case_match; lia.
Qed.

Lemma varint_size_lower v i :
  0 <= i <= 4 → i + 1 <= ltv_varint_size v → 0 < i → 2 ^ (7 * i) <= v.
Proof.
  intros Hi. rewrite ltv_varint_size_eq. intros Hs ?.
  assert (i = 1 ∨ i = 2 ∨ i = 3 ∨ i = 4) as Hc by lia.
  destruct Hc as [-> | [-> | [-> | ->]]]; simpl; repeat case_match; lia.
Qed.

Lemma pow7_succ i : 0 <= i → 2 ^ (7 * (i + 1)) = 128 * 2 ^ (7 * i).
Proof.
  intros. replace (7 * (i + 1)) with (7 + 7 * i) by lia. by rewrite Z.pow_add_r by lia.
Qed.

(** Bytes the decoder accepts are the canonical encoding of what it returns. *)
Lemma decode_loop_sound data len m i r n v :
  bytes_ok data → len <= blen data → 0 <= i → i + Z.of_nat m = 5 →
  0 <= r < 2 ^ (7 * i) →
  ltv_decode_varint_loop (S m) data len i (7 * i) r = Some (n, Some v) →
  ∃ w, v = r + w * 2 ^ (7 * i) ∧ 0 <= w < 2 ^ (32 - 7 * i) ∧ i < n <= len ∧
       n = ltv_varint_size v ∧ slice data i (n - i) = Some (leb128 m w).
Proof.
  intros Hd Hlen. revert i r. induction m as [|m IH]; intros i r Hi Hm Hr H.
  { cbn in H. rewrite (proj2 (Z.ltb_ge i LTV_MAX_VARINT_BYTES)), andb_false_r in H
      by (unfold LTV_MAX_VARINT_BYTES; lia). done. }
  destruct (decide (i < len)) as [Hil|Hil]; last first.
  { cbn [ltv_decode_varint_loop] in H.
    rewrite (proj2 (Z.ltb_ge i len)) in H by lia. done. }
  destruct (load_in_bounds data i) as [b Hb]; [lia|].
  pose proof (load_byte _ _ _ Hd Hb) as Hb8.
  rewrite (decode_varint_loop_S _ _ _ _ _ b) in H by (done || lia).
  assert (Hp : 0 < 2 ^ (7 * i)) by (apply Z.pow_pos_nonneg; lia).
  pose proof (pow7_succ i Hi) as Hps.
  destruct ((i =? 4) && (16 <=? b)) eqn:E4; [done|]. cbv zeta in H.
  destruct (Z.ltb_spec b 128).
  - destruct (Z.eqb_spec (ltv_varint_size (r + b mod 128 * 2 ^ (7 * i))) (i + 1)) as [Es|];
      [|done].
    rewrite Z.mod_small in * by word_lia.
    simplify_eq. exists b. split_and!; try lia; [word_lia| |].
    + apply andb_false_iff in E4. rewrite Z.eqb_neq, Z.leb_gt in E4.
      assert (i = 0 ∨ i = 1 ∨ i = 2 ∨ i = 3 ∨ i = 4) as Hc by lia.
      destruct Hc as [-> | [-> | [-> | [-> | ->]]]]; simpl; word_lia.
    + replace (i + 1 - i) with (1 + 0) by lia.
      rewrite leb128_step, (proj2 (Z.ltb_lt b 128)) by lia.
      apply slice_cons; [done|]. split; [done|]. apply slice_nil. lia.
  - apply IH in H as (w & -> & Hw & Hn & Hsz & Hsl); [|nia|lia|].
    + exists (b mod 128 + 128 * w).
      assert (Hw0 : 0 < w).
      { assert (2 ^ (7 * (i + 1)) <= r + b mod 128 * 2 ^ (7 * i) + w * 2 ^ (7 * (i + 1))).
        { apply varint_size_lower; lia. }
        assert (b mod 128 < 128) by word_lia. nia. }
      split_and!; try lia; [word_lia| |].
      * replace (32 - 7 * i) with (7 + (32 - 7 * (i + 1))) by lia.
        destruct (decide (0 <= 32 - 7 * (i + 1))).
        -- rewrite Z.pow_add_r by lia. word_lia.
        -- rewrite (Z.pow_neg_r 2 (32 - 7 * (i + 1))) in Hw by lia. lia.
      * rewrite leb128_step, (proj2 (Z.ltb_ge _ 128)) by word_lia.
        replace ((b mod 128 + 128 * w) / 128) with w by word_lia.
        replace ((b mod 128 + 128 * w) mod 128 + 128) with b by word_lia.
        replace (n - i) with (1 + (n - (i + 1))) by lia.
        by apply slice_cons; [lia|].
    + rewrite Hps. assert (0 <= b mod 128 < 128) by word_lia. nia.
Qed.

(** The canonical encoding is decoded back, whatever follows it. *)
Lemma decode_loop_complete data len m i r w :
  bytes_ok data → 0 <= i → i + Z.of_nat m = 5 → 0 <= r < 2 ^ (7 * i) →
  0 <= w < 2 ^ (32 - 7 * i) → (i = 0 ∨ 0 < w) →
  i + blen (leb128 m w) <= len →
  slice data i (blen (leb128 m w)) = Some (leb128 m w) →
  ltv_decode_varint_loop (S m) data len i (7 * i) r =
    Some (i + blen (leb128 m w), Some (r + w * 2 ^ (7 * i))).
Proof.
  intros Hd. revert i r w. induction m as [|m IH]; intros i r w Hi Hm Hr Hw Hw0 Hlen Hsl.
  { replace i with 5 in * by lia. simpl in Hw. lia. }
  pose proof (pow7_succ i Hi) as Hps.
  assert (Hp : 0 < 2 ^ (7 * i)) by (apply Z.pow_pos_nonneg; lia).
  rewrite leb128_step in *. destruct (Z.ltb_spec w 128) as [Hs|Hs].
  - change (blen [w]) with (1 + 0) in *. apply slice_cons in Hsl as [Hld _]; [|done].
    rewrite (decode_varint_loop_S _ _ _ _ _ w) by (done || lia).
    rewrite (proj2 (Z.ltb_lt w 128)), Z.mod_small by lia.
    assert ((i =? 4) && (16 <=? w) = false) as ->.
    { destruct (Z.eqb_spec i 4) as [->|]; [|done]. simpl in *. apply Z.leb_gt; lia. }
    cbv zeta. rewrite (varint_size_range _ i); [by rewrite Z.eqb_refl|lia| |right; nia].
    destruct Hw0 as [-> |]; [by left|right; nia].
  - rewrite blen_cons in *. apply slice_cons in Hsl as [Hld Hsl]; [|apply blen_nonneg].
    pose proof (blen_nonneg (leb128 m (w / 128))).
    rewrite (decode_varint_loop_S _ _ _ _ _ (w mod 128 + 128)) by (done || lia).
    assert ((i =? 4) && (16 <=? w mod 128 + 128) = false) as ->.
    { destruct (Z.eqb_spec i 4) as [->|]; [simpl in *; lia|done]. }
    rewrite (proj2 (Z.ltb_ge _ 128)) by word_lia. cbv zeta.
    replace ((w mod 128 + 128) mod 128) with (w mod 128) by word_lia.
    rewrite (IH _ _ (w / 128)); [|lia|lia| | |right; word_lia|lia|done].
    + f_equal. f_equal; [lia|]. f_equal. rewrite Hps.
      rewrite (Z.div_mod w 128) at 3 by lia. ring.
    + rewrite Hps. assert (0 <= w mod 128 < 128) by word_lia. nia.
    + split; [word_lia|]. replace (32 - 7 * i) with (7 + (32 - 7 * (i + 1))) in Hw by lia.
      destruct (decide (0 <= 32 - 7 * (i + 1))).
      * rewrite Z.pow_add_r in Hw by lia. word_lia.
      * assert (i = 4) as -> by lia. simpl in Hw. lia.
Qed.

Lemma varint_bytes_blen v : 0 <= v → blen (varint_bytes v) = ltv_varint_size v.
Proof.
  intros Hv. rewrite ltv_varint_size_eq. unfold varint_bytes.
  rewrite !leb128_step. change (leb128 0) with (λ _ : Z, @nil Z). cbv beta.
  repeat case_match; autorewrite with buf; word_lia.
Qed.

Lemma varint_bytes_pos v : 0 <= v → 1 <= blen (varint_bytes v) <= 5.
Proof.
  intros. rewrite varint_bytes_blen, ltv_varint_size_eq by done.
  repeat case_match; lia.
Qed.

(** The loop always terminates within its fuel and stays in bounds. *)
Lemma decode_loop_total data len m i r :
  bytes_ok data → len <= blen data → 0 <= i → i + Z.of_nat m = 5 →
  0 <= r < 2 ^ (7 * i) →
  ∃ n o, ltv_decode_varint_loop (S m) data len i (7 * i) r = Some (n, o) ∧
         (0 < n ↔ is_Some o).
Proof.
  intros Hd Hlen. revert i r. induction m as [|m IH]; intros i r Hi Hm Hr.
  { cbn. rewrite (proj2 (Z.ltb_ge i LTV_MAX_VARINT_BYTES)), andb_false_r
      by (unfold LTV_MAX_VARINT_BYTES; lia).
    eexists _, None. split; [done|]. rewrite is_Some_alt. case_match; lia. }
  destruct (decide (i < len)) as [Hil|Hil]; last first.
  { cbn [ltv_decode_varint_loop]. rewrite (proj2 (Z.ltb_ge i len)) by lia.
    eexists _, None. split; [done|]. rewrite is_Some_alt. case_match; lia. }
  destruct (load_in_bounds data i) as [b Hb]; [lia|].
  pose proof (load_byte _ _ _ Hd Hb) as Hb8.
  rewrite (decode_varint_loop_S _ _ _ _ _ b) by (done || lia).
  destruct ((i =? 4) && (16 <=? b)) eqn:E4.
  { eexists _, None. split; [done|]. rewrite is_Some_alt. lia. }
  cbv zeta. destruct (Z.ltb_spec b 128).
  - destruct (_ =? i + 1).
    + eexists _, (Some _). split; [done|]. split; [eauto|lia].
    + eexists _, None. split; [done|]. rewrite is_Some_alt. lia.
  - apply IH; [lia|lia|]. rewrite pow7_succ by done.
    assert (0 <= b mod 128 < 128) by word_lia.
    assert (Hp : 0 < 2 ^ (7 * i)) by (apply Z.pow_pos_nonneg; lia). nia.
Qed.

(** [ltv_decode_varint] on non-NULL arguments, in one step. *)
Lemma ltv_decode_varint_cases data len old :
  bytes_ok data → 0 <= len <= blen data →
  ∃ n o, ltv_decode_varint (Some data) len (Some old) = Some (n, Some (default old o)) ∧
         (0 < n ↔ is_Some o) ∧
         ∀ v h, (o = Some v ∧ n = h) ↔
           is_u32 v ∧ h = ltv_varint_size v ∧ h <= len ∧
           slice data 0 h = Some (varint_bytes v).
Proof.
  intros Hd Hlen. unfold ltv_decode_varint. destruct (Z.eqb_spec len 0) as [->|Hl0].
  { exists 0, None. split; [done|]. rewrite is_Some_alt. split; [lia|].
    intros v h. split; [naive_solver|]. intros (?&Hn&?&Hs).
    pose proof (varint_bytes_pos v). rewrite varint_bytes_blen in *; word_lia. }
  destruct (decode_loop_total data len 5 0 0) as (n & o & E & Hno); [done|lia..|].
  change (7 * 0) with 0 in E. rewrite E. exists n, o. split; [done|]. split; [done|].
  intros v h. split.
  - intros [-> <-]. apply (decode_loop_sound data len 5 0 0) in E
      as (w & -> & Hw & Hn & Hsz & Hs); [|done|lia..].
    replace (n - 0) with n in Hs by lia. rewrite Z.mul_0_r, Z.pow_0_r, Z.mul_1_r, Z.add_0_l in *.
    change (2 ^ (32 - 0)) with 4294967296 in Hw. split_and!; [word_lia|done|lia|done].
  - intros (Hv & -> & Hle & Hs).
    assert (Hb : blen (leb128 5 v) = ltv_varint_size v)
      by (apply varint_bytes_blen; word_lia).
    pose proof (decode_loop_complete data len 5 0 0 v) as C.
    rewrite Hb in C. change (7 * 0) with 0 in C.
    rewrite C in E; [|done|lia..|word_lia|by left|lia|done].
    rewrite Z.pow_0_r, Z.mul_1_r, Z.add_0_l in E. by simplify_eq.
Qed.

Lemma encode_loop_spec n v i out :
  0 <= i → (0 < n)%nat → 0 <= v < 2 ^ (7 * Z.of_nat n) →
  ltv_encode_varint_loop n v i out =
    o ← blit out i (leb128 n v); Some (i + blen (leb128 n v), o).
Proof.
  revert v i out. induction n as [|n IH]; intros v i out Hi Hn Hv; [lia|].
  rewrite leb128_step. cbn [ltv_encode_varint_loop].
  destruct (Z.ltb_spec v 128) as [Hs|Hs].
  - rewrite (proj2 (Z.leb_gt 128 v)), u8_id by word_lia. done.
  - rewrite (proj2 (Z.leb_le 128 v)), u8_lor_80 by lia.
    assert (0 < n)%nat by (destruct n; [simpl in Hv; lia|lia]).
    rewrite Z.shiftr_div_pow2 by lia. change (2 ^ 7) with 128.
    replace (7 * Z.of_nat (S n)) with (7 + 7 * Z.of_nat n) in Hv by lia.
    rewrite Z.pow_add_r in Hv by lia. change (2 ^ 7) with 128 in Hv.
    change ((v mod 128 + 128) :: leb128 n (v / 128))
      with ([v mod 128 + 128] ++ leb128 n (v / 128)).
    rewrite <-blit_blit by done. unfold store.
    destruct (blit out i [v mod 128 + 128]) as [o|]; [simpl|done].
    change (blen [v mod 128 + 128]) with 1.
    rewrite IH by (try lia; word_lia).
    destruct (blit o (i + 1) _); [simpl|done]. do 2 f_equal.
    rewrite blen_cons. lia.
Qed.

Lemma ltv_peek_cases data len a b :
  bytes_ok data → 0 <= len <= blen data →
  ∃ r l h, ltv_peek_size (Some data) len (Some a) (Some b) = Some (r, Some l, Some h) ∧
    ∀ v h', (r = LTV_PARSE_OK ∧ l = v ∧ h = h') ↔
      1 <= v <= LTV_MAX_PAYLOAD_SIZE + 1 ∧ h' = ltv_varint_size v ∧ h' <= len ∧
      slice data 0 h' = Some (varint_bytes v).
Proof.
  intros Hd Hlen. unfold ltv_peek_size.
  destruct (ltv_decode_varint_cases data len 0 Hd Hlen) as (n & o & E & Hno & Ho).
  rewrite E. msimpl.
  assert (Hiff : ∀ v h, 1 <= v <= LTV_MAX_PAYLOAD_SIZE + 1 →
    (h = ltv_varint_size v ∧ h <= len ∧ slice data 0 h = Some (varint_bytes v)) ↔
    (o = Some v ∧ n = h)).
  { intros v h Hv. rewrite Ho. unfold LTV_MAX_PAYLOAD_SIZE in Hv.
    assert (is_u32 v) by word_lia. tauto. }
  repeat case_match; (eexists _, _, _; split; [done|]); intros v h'; split;
    try (intros (Hr & <- & <-); done);
    try (intros [Hv Hs]; apply Hiff in Hs as [-> <-]; [|done]; simpl in *; exfalso;
         (assert (0 < n) by (apply Hno; eauto)); lia).
  - intros (_ & <- & <-). destruct o as [v|]; simpl in *; [|lia].
    destruct (proj1 (Ho v n)) as (? & ?); [done|].
    split; [word_lia|]. apply Hiff; [word_lia|done].
  - intros [Hv Hs]. apply Hiff in Hs as [-> <-]; done.
Qed.

(** ** The message codec against its wire format *)

(** The view a parser returns for the message [ty], [payload] at the start of
    a buffer. *)
Definition ltv_view (ty : Z) (payload : list Z) : ltv_message :=
  {| msg_length := blen payload + 1;
     msg_type := ty;
     msg_value := if 0 <? blen payload
                  then Some (blen (varint_bytes (blen payload + 1)) + 1) else None;
     msg_value_size := blen payload;
     msg_consumed := blen (ltv_wire ty payload) |}.

Lemma ltv_wire_blen ty p :
  blen (ltv_wire ty p) = blen (varint_bytes (blen p + 1)) + (blen p + 1).
Proof. unfold ltv_wire. autorewrite with buf. lia. Qed.

Lemma ltv_wire_total ty p :
  blen p <= LTV_MAX_PAYLOAD_SIZE →
  ltv_total_size (blen p + 1) (blen (varint_bytes (blen p + 1))) = blen (ltv_wire ty p).
Proof.
  intros Hp. unfold LTV_MAX_PAYLOAD_SIZE in *. pose proof (blen_nonneg p).
  pose proof (varint_bytes_pos (blen p + 1)).
  rewrite ltv_wire_blen. apply u64_id. unfold_words. lia.
Qed.

(** A buffer that starts with a length header starts with a message or with a
    proper prefix of one. *)
Lemma ltv_wire_split data len v :
  0 <= len <= blen data → 1 <= v →
  slice data 0 (ltv_varint_size v) = Some (varint_bytes v) →
  ltv_varint_size v + v <= len →
  ∃ ty p, blen p = v - 1 ∧ load data (ltv_varint_size v) = Some ty ∧
    slice data 0 (blen (ltv_wire ty p)) = Some (ltv_wire ty p).
Proof.
  intros Hlen Hv Hs Htot.
  pose proof (varint_bytes_blen v) as Hb. pose proof (varint_bytes_pos v).
  destruct (load_in_bounds data (ltv_varint_size v)) as [ty Hty]; [lia|].
  set (p := take (Z.to_nat (v - 1)) (drop (Z.to_nat (ltv_varint_size v + 1)) data)).
  assert (Hps : slice data (ltv_varint_size v + 1) (v - 1) = Some p)
    by (apply slice_in_bounds; lia).
  pose proof (slice_blen _ _ _ _ Hps) as Hpl.
  exists ty, p. split; [done|]. split; [done|].
  rewrite ltv_wire_blen. unfold ltv_wire. rewrite Hpl.
  replace (v - 1 + 1) with v by lia. rewrite Hb by lia.
  apply slice_0_take in Hs as Hd. set (d := drop _ data) in Hd.
  assert (Hld : slice data (ltv_varint_size v) (1 + (v - 1)) = Some (ty :: p))
    by (apply slice_cons; [lia|done]).
  apply slice_Some in Hld as (_&_&Hle&Heq).
  rewrite slice_in_bounds by lia. f_equal. rewrite drop_0.
  replace (Z.to_nat (ltv_varint_size v + v))
    with (length (varint_bytes v) + Z.to_nat (1 + (v - 1)))%nat
    by (unfold blen in *; lia).
  rewrite Hd at 1. rewrite take_app_add. f_equal.
  replace (Z.to_nat (ltv_varint_size v)) with (length (varint_bytes v)) in Heq
    by (unfold blen in *; lia).
  symmetry. exact Heq.
Qed.

Lemma ltv_wire_header data ty p :
  slice data 0 (blen (ltv_wire ty p)) = Some (ltv_wire ty p) →
  slice data 0 (ltv_varint_size (blen p + 1)) = Some (varint_bytes (blen p + 1)) ∧
  load data (ltv_varint_size (blen p + 1)) = Some ty ∧
  slice data (ltv_varint_size (blen p + 1) + 1) (blen p) = Some p.
Proof.
  intros Hs. pose proof (blen_nonneg p).
  rewrite <-(varint_bytes_blen (blen p + 1)) by lia.
  apply slice_0_take in Hs. set (rest := drop _ _) in Hs. clearbody rest. subst data.
  unfold ltv_wire. rewrite <-app_assoc. cbn [app].
  split; [apply slice_0_prefix|]. apply slice_cons; [lia|].
  change (ty :: p ++ rest) with ((ty :: p) ++ rest). apply slice_app; [done|].
  by rewrite blen_cons.
Qed.

(** What [ltv_parse] does, by cases on the front of the buffer. *)
Lemma ltv_parse_cases data len old :
  bytes_ok data → 0 <= len <= blen data →
  ∃ r m, ltv_parse (Some data) len (Some old) = Some (r, Some m) ∧
    (r ≠ LTV_PARSE_OK → m = old) ∧
    (∀ ty p, blen p <= LTV_MAX_PAYLOAD_SIZE → blen (ltv_wire ty p) <= len →
       slice data 0 (blen (ltv_wire ty p)) = Some (ltv_wire ty p) →
       r = LTV_PARSE_OK ∧ m = ltv_view ty p) ∧
    (r = LTV_PARSE_OK → ∃ ty p, blen p <= LTV_MAX_PAYLOAD_SIZE ∧
       blen (ltv_wire ty p) <= len ∧ m = ltv_view ty p ∧
       slice data 0 (blen (ltv_wire ty p)) = Some (ltv_wire ty p)).
Proof.
  intros Hd Hlen. unfold ltv_parse.
  destruct (ltv_peek_cases data len 0 0 Hd Hlen) as (r & l & h & E & Hiff).
  rewrite E. msimpl.
  assert (Hfwd : ∀ ty p, blen p <= LTV_MAX_PAYLOAD_SIZE → blen (ltv_wire ty p) <= len →
    slice data 0 (blen (ltv_wire ty p)) = Some (ltv_wire ty p) →
    r = LTV_PARSE_OK ∧ l = blen p + 1 ∧ h = ltv_varint_size (blen p + 1)).
  { intros ty p Hp Hl Hs. apply ltv_wire_header in Hs as (Hs & _). apply Hiff.
    pose proof (blen_nonneg p). pose proof (varint_bytes_blen (blen p + 1)).
    rewrite ltv_wire_blen in Hl. split_and!; try done; lia. }
  case_bool_decide as Hr; cbn [negb]; last first.
  { exists r, old. split; [done|]. split; [done|]. split; [|done].
    intros ty p Hp Hl Hs. destruct (Hfwd ty p Hp Hl Hs) as [-> _]. done. }
  subst r. destruct (proj1 (Hiff l h)) as (Hl & -> & Hh & Hs); [done|].
  assert (Htot : ltv_total_size l (ltv_varint_size l) = ltv_varint_size l + l).
  { pose proof (varint_bytes_pos l). pose proof (varint_bytes_blen l).
    unfold LTV_MAX_PAYLOAD_SIZE in *. apply u64_id. unfold_words. lia. }
  rewrite Htot. destruct (Z.ltb_spec len (ltv_varint_size l + l)) as [Hsh|Hge].
  { exists LTV_PARSE_NEED_MORE, old. split; [done|]. split; [done|]. split; [|done].
    intros ty p Hp Hle Hsl. destruct (Hfwd ty p Hp Hle Hsl) as (_ & -> & _).
    pose proof (blen_nonneg p).
    rewrite ltv_wire_blen, varint_bytes_blen in Hle by lia. lia. }
  destruct (ltv_wire_split data len l) as (ty & p & Hp & Hty & Hsl); [done|lia|done|done|].
  rewrite Hty. cbn [mbind option_bind].
  assert (Hview : ∀ ty' p', blen p' + 1 = l → ty' = ty →
    {| msg_length := l; msg_type := ty;
       msg_value := if 0 <? l - 1 then Some (ltv_varint_size l + 1) else None;
       msg_value_size := l - 1; msg_consumed := ltv_varint_size l + l |} = ltv_view ty' p').
  { intros ty' p' <- ->. unfold ltv_view. pose proof (blen_nonneg p').
    rewrite ltv_wire_blen, varint_bytes_blen by lia.
    by replace (blen p' + 1 - 1) with (blen p') by lia. }
  eexists LTV_PARSE_OK, _. split; [done|]. split; [done|]. split.
  - intros ty' p' Hp' Hl' Hs'. split; [done|].
    destruct (Hfwd ty' p' Hp' Hl' Hs') as (_ & -> & _).
    apply ltv_wire_header in Hs' as (_ & Hty' & _). apply Hview; [done|congruence].
  - intros _. exists ty, p. rewrite ltv_wire_blen, Hp. replace (l - 1 + 1) with l by lia.
    rewrite varint_bytes_blen by lia.
    split_and!; [lia|lia|apply Hview; [lia|done]|].
    rewrite ltv_wire_blen, Hp in Hsl. replace (l - 1 + 1) with l in Hsl by lia.
    by rewrite varint_bytes_blen in Hsl by lia.
Qed.

Lemma ltv_wire_size_eq ty p :
  blen p <= LTV_MAX_PAYLOAD_SIZE → ltv_wire_size (blen p) = blen (ltv_wire ty p).
Proof.
  intros Hp. pose proof (blen_nonneg p). unfold ltv_wire_size.
  rewrite (proj2 (Z.ltb_ge _ _)) by lia. unfold LTV_MAX_PAYLOAD_SIZE in Hp.
  rewrite (u32_id (blen p)), (u32_id (blen p + 1)) by (unfold_words; lia).
  by rewrite ltv_wire_blen, varint_bytes_blen by lia.
Qed.

(** [ltv_build] writes exactly the wire format or nothing at all. *)
Lemma ltv_build_spec ty p out out_len :
  out_len <= blen out →
  ltv_build ty (Some p) (blen p) (Some out) out_len =
    Some (if bool_decide (LTV_MAX_PAYLOAD_SIZE < blen p ∨ out_len < blen (ltv_wire ty p))
          then (0, Some out)
          else (blen (ltv_wire ty p), Some (ltv_wire ty p ++ drop (length (ltv_wire ty p)) out))).
Proof.
  intros Hout. unfold ltv_build. pose proof (blen_nonneg p).
  rewrite andb_false_r, orb_false_r.
  destruct (decide (LTV_MAX_PAYLOAD_SIZE < blen p)) as [Hbig|Hsm].
  { rewrite bool_decide_true by tauto. unfold ltv_wire_size.
    by rewrite (proj2 (Z.ltb_lt _ _) Hbig). }
  rewrite (ltv_wire_size_eq ty) by lia.
  pose proof (varint_bytes_pos (blen p + 1)) as Hpos.
  assert (Hw : 2 <= blen (ltv_wire ty p)) by (rewrite ltv_wire_blen; lia).
  rewrite (proj2 (Z.eqb_neq _ _)) by lia. cbn [orb].
  destruct (Z.ltb_spec out_len (blen (ltv_wire ty p))).
  { by rewrite bool_decide_true by tauto. }
  rewrite bool_decide_false by lia.
  unfold LTV_MAX_PAYLOAD_SIZE in Hsm.
  rewrite (u32_id (blen p)), (u32_id (blen p + 1)) by (unfold_words; lia).
  rewrite encode_loop_spec by (simpl; lia). fold (varint_bytes (blen p + 1)).
  rewrite (blit_0 out) by (rewrite ltv_wire_blen in *; lia). msimpl.
  set (o1 := varint_bytes _ ++ _).
  assert (Ho1 : blit out 0 (varint_bytes (blen p + 1)) = Some o1)
    by (apply blit_0; rewrite ltv_wire_blen in *; lia).
  unfold store.
  pose proof (blit_blit out 0 (varint_bytes (blen p + 1)) [ty]) as H1.
  rewrite Ho1 in H1. msimpl in H1. rewrite !Z.add_0_l in *. rewrite H1 by done.
  assert (Hfin : (o ← blit out 0 (varint_bytes (blen p + 1) ++ [ty]);
                  blit o (blen (varint_bytes (blen p + 1)) + 1) p) =
                 Some (ltv_wire ty p ++ drop (length (ltv_wire ty p)) out)).
  { replace (blen (varint_bytes (blen p + 1)) + 1)
      with (0 + blen (varint_bytes (blen p + 1) ++ [ty]))
      by (rewrite blen_app; change (blen [ty]) with 1; lia).
    rewrite blit_blit, <-app_assoc by done. apply blit_0. fold (ltv_wire ty p).
    change (varint_bytes (blen p + 1) ++ [ty] ++ p) with (ltv_wire ty p). lia. }
  destruct (blit out 0 (varint_bytes (blen p + 1) ++ [ty])) as [o2|]; [|done].
  msimpl. msimpl in Hfin. destruct (Z.ltb_spec 0 (blen p)) as [Hp0|Hp0].
  - rewrite slice_in_bounds by lia. msimpl. rewrite drop_0.
    rewrite take_ge by (unfold blen; lia). by rewrite Hfin.
  - destruct p as [|x p]; [|unfold blen in Hp0; simpl in Hp0; lia].
    rewrite <-Hfin. unfold blit.
    rewrite bool_decide_true; [cbn [length app]; by rewrite Nat.add_0_r, take_drop|].
    apply blit_Some in Hfin as (?&?&_). done.
Qed.

(** ** The stream parser against a queue of unread bytes *)

(** The bytes the stream holds that no returned message has covered. *)
Definition ls_view (s : ltv_stream_s) : list Z :=
  default [] (slice (ls_buffer s) (ls_pending_consume s)
                (ls_buffered s - ls_pending_consume s)).

Record ls_inv (s : ltv_stream_s) : Prop := LsInv {
  ls_inv_len : blen (ls_buffer s) = ls_buffer_size s;
  ls_inv_bytes : bytes_ok (ls_buffer s);
  ls_inv_pend : 0 <= ls_pending_consume s <= ls_buffered s;
  ls_inv_fit : ls_buffered s <= ls_buffer_size s;
  ls_inv_idle : ls_pending_consume s ≠ 0 → ls_expected s = 0;
  ls_inv_expected : ls_expected s ≠ 0 →
    ∃ v, 1 <= v <= LTV_MAX_PAYLOAD_SIZE + 1 ∧ ltv_varint_size v <= ls_buffered s ∧
         slice (ls_buffer s) 0 (ltv_varint_size v) = Some (varint_bytes v) ∧
         ls_expected s = ltv_varint_size v + v
}.

Lemma ls_view_slice s :
  ls_inv s →
  slice (ls_buffer s) (ls_pending_consume s) (ls_buffered s - ls_pending_consume s) =
    Some (ls_view s).
Proof.
  intros [Hl _ Hp Hf _ _]. unfold ls_view. by rewrite slice_in_bounds by lia.
Qed.

Lemma ls_view_blen s :
  ls_inv s → blen (ls_view s) = ls_buffered s - ls_pending_consume s.
Proof. intros H. apply ls_view_slice, slice_blen in H. done. Qed.

Lemma ls_view_unique s q :
  slice (ls_buffer s) (ls_pending_consume s) (ls_buffered s - ls_pending_consume s) = Some q →
  ls_view s = q.
Proof. intros H. unfold ls_view. by rewrite H. Qed.

Lemma ltv_stream_create_inv n junk :
  0 <= n → blen junk = (if n =? 0 then 65536 else n) → bytes_ok junk →
  ls_inv (ltv_stream_create n junk) ∧ ls_view (ltv_stream_create n junk) = [].
Proof.
  intros Hn Hj Hb. split.
  - constructor; simpl; try done. destruct (Z.eqb_spec n 0); lia.
  - unfold ls_view. simpl. rewrite slice_nil; [done|]. rewrite Hj. destruct (n =? 0); lia.
Qed.

Lemma ltv_consume_ok s :
  ls_inv s → ∃ s', ltv_stream_consume_completed s = Some s' ∧ ls_inv s' ∧
    ls_pending_consume s' = 0 ∧ ls_view s' = ls_view s ∧
    ls_buffer_size s' = ls_buffer_size s.
Proof.
  intros Hi. pose proof (ls_view_slice s Hi) as Hv. destruct (Hi) as [Hl Hb Hp Hf H0 He].
  unfold ltv_stream_consume_completed.
  destruct (Z.eqb_spec (ls_pending_consume s) 0) as [E|E]; [by exists s|].
  specialize (H0 E). destruct (compact_spec _ _ _ _ Hv) as (b' & -> & Hbl & Hbb & Hsl & _).
  msimpl. eexists. split; [done|]. split_and!; try done.
  - constructor; simpl; try done; [lia|by apply Hbb|lia|lia].
  - apply ls_view_unique. simpl. by rewrite Z.sub_0_r.
Qed.

Lemma ltv_append_ok s chunk :
  ls_inv s → ls_pending_consume s = 0 → bytes_ok chunk →
  (ls_buffer_size s < blen (ls_view s ++ chunk) ∧
   ltv_stream_append s (Some chunk) (blen chunk) = Some None) ∨
  (blen (ls_view s ++ chunk) <= ls_buffer_size s ∧
   ∃ s', ltv_stream_append s (Some chunk) (blen chunk) = Some (Some s') ∧ ls_inv s' ∧
     ls_pending_consume s' = 0 ∧ ls_view s' = ls_view s ++ chunk ∧
     ls_buffer_size s' = ls_buffer_size s).
Proof.
  intros Hi Hp0 Hc. pose proof (ls_view_slice s Hi) as Hv. pose proof (ls_view_blen s Hi) as Hvl.
  destruct (Hi) as [Hl Hb Hp Hf H0 He]. pose proof (blen_nonneg chunk).
  rewrite Hp0, Z.sub_0_r in *. unfold ltv_stream_append. rewrite blen_app, Hvl.
  destruct (Z.ltb_spec 0 (blen chunk)) as [Hc0|Hc0]; last first.
  { right. split; [lia|]. exists s. destruct chunk; [|unfold blen in Hc0; simpl in Hc0; lia].
    by rewrite app_nil_r. }
  destruct (Z.ltb_spec (ls_buffer_size s - ls_buffered s) (blen chunk)) as [Ho|Ho].
  { left. split; [lia|done]. }
  right. split; [lia|]. rewrite slice_all. msimpl.
  destruct (blit (ls_buffer s) (ls_buffered s) chunk) as [b'|] eqn:Hbl;
    [|unfold blit in Hbl; rewrite bool_decide_true in Hbl by lia; done].
  msimpl. eexists. split; [done|].
  pose proof (blit_blen _ _ _ _ Hbl) as Hbl'. split_and!; try done.
  - constructor; simpl; try done; try lia.
    + exact (blit_bytes _ _ _ _ Hb Hc Hbl).
    + intros (v & ? & ? & Hs & ?)%He. exists v.
      rewrite (slice_blit_before _ _ _ _ _ _ Hbl) by lia. split_and!; done || lia.
  - apply ls_view_unique. simpl. rewrite Hp0, Z.sub_0_r. apply slice_join.
    + by rewrite (slice_blit_before _ _ _ _ _ _ Hbl) by lia.
    + by apply (slice_blit_same _ _ _ _ Hbl).
Qed.

Lemma bytes_ok_app a b : bytes_ok (a ++ b) ↔ bytes_ok a ∧ bytes_ok b.
Proof. apply Forall_app. Qed.

Lemma ltv_wire_inj ty p r ty' p' r' :
  bytes_ok (ltv_wire ty p ++ r) → blen p <= LTV_MAX_PAYLOAD_SIZE →
  blen p' <= LTV_MAX_PAYLOAD_SIZE → ltv_wire ty p ++ r = ltv_wire ty' p' ++ r' →
  ty = ty' ∧ p = p' ∧ r = r'.
Proof.
  intros Hb Hp Hp' Heq.
  destruct (ltv_parse_cases (ltv_wire ty p ++ r) (blen (ltv_wire ty p ++ r)) (ltv_view 0 []))
    as (res & m & _ & _ & Hfwd & _); [done|pose proof (blen_nonneg (ltv_wire ty p ++ r)); lia|].
  destruct (Hfwd ty p) as [_ H1]; [done| |apply slice_0_prefix|].
  { rewrite blen_app. pose proof (blen_nonneg r). lia. }
  destruct (Hfwd ty' p') as [_ H2]; [done| |rewrite Heq; apply slice_0_prefix|].
  { rewrite Heq, blen_app. pose proof (blen_nonneg r'). lia. }
  rewrite H1 in H2. unfold ltv_view in H2. injection H2 as Hlen Hty _ _ _.
  assert (Hl : blen p = blen p') by lia. unfold ltv_wire in Heq.
  rewrite Hl, Hty, <-!app_assoc in Heq. apply app_inv_head in Heq. cbn [app] in Heq.
  injection Heq as Heq. apply app_inj_1 in Heq as [-> ->]; [done|]. unfold blen in Hl. lia.
Qed.

(** A complete message at the front of the unread bytes. *)
Definition ltv_front (q : list Z) (ty : Z) (p rest : list Z) : Prop :=
  blen p <= LTV_MAX_PAYLOAD_SIZE ∧ q = ltv_wire ty p ++ rest.

Lemma ltv_stream_peek_ok s :
  ls_inv s → ls_pending_consume s = 0 →
  (∃ r s', ltv_stream_peek s = Some (inl (r, s')) ∧ r ≠ LTV_PARSE_OK ∧ ls_inv s' ∧
     ls_view s' = ls_view s ∧ ls_buffer_size s' = ls_buffer_size s ∧
     ∀ ty p rest, ¬ ltv_front (ls_view s) ty p rest) ∨
  (∃ s', ltv_stream_peek s = Some (inr s') ∧ ls_inv s' ∧ ls_pending_consume s' = 0 ∧
     ls_view s' = ls_view s ∧ ls_buffer_size s' = ls_buffer_size s ∧ ls_expected s' ≠ 0).
Proof.
  intros Hi Hp0. pose proof (ls_view_slice s Hi) as Hv. pose proof (ls_view_blen s Hi) as Hvl.
  destruct (Hi) as [Hl Hb Hp Hf H0 He]. rewrite Hp0, Z.sub_0_r in Hv, Hvl.
  unfold ltv_stream_peek. destruct (Z.eqb_spec (ls_expected s) 0) as [E0|E0]; last first.
  { right. by exists s. }
  destruct (ltv_peek_cases (ls_buffer s) (ls_buffered s) 0 0) as (r & l & h & E & Hiff);
    [done|lia|]. rewrite E. msimpl.
  assert (Hfr : ∀ ty p rest, ltv_front (ls_view s) ty p rest →
    r = LTV_PARSE_OK ∧ l = blen p + 1 ∧ h = ltv_varint_size (blen p + 1) ∧
    ltv_varint_size (blen p + 1) + (blen p + 1) <= ls_buffered s).
  { intros ty p rest [Hmax Hq]. pose proof (blen_nonneg p). pose proof (blen_nonneg rest).
    assert (Hs : slice (ls_view s) 0 (blen (ltv_wire ty p)) = Some (ltv_wire ty p))
      by (rewrite Hq; apply slice_0_prefix).
    rewrite Hq, blen_app in Hvl. pose proof (ltv_wire_blen ty p) as Hwb.
    rewrite varint_bytes_blen in Hwb by lia.
    rewrite (slice_prefix _ _ _ _ Hv) in Hs by lia.
    apply ltv_wire_header in Hs as (Hs & _).
    destruct (proj2 (Hiff (blen p + 1) (ltv_varint_size (blen p + 1)))) as (?&?&?);
      split_and!; done || lia. }
  case_bool_decide as Hr; msimpl; last first.
  { left. exists r, s. split_and!; try done. intros ty p rest [-> _]%Hfr. done. }
  subst r. destruct (proj1 (Hiff l h)) as (Hlr & -> & Hh & Hs); [done|].
  assert (Htot : ltv_total_size l (ltv_varint_size l) = ltv_varint_size l + l).
  { pose proof (varint_bytes_pos l). pose proof (varint_bytes_blen l).
    unfold LTV_MAX_PAYLOAD_SIZE in *. apply u64_id. unfold_words. lia. }
  rewrite Htot. set (s' := ls_set_expected s _ _).
  assert (Hi' : ls_inv s') by (constructor; simpl; try done; intros; by exists l).
  simpl. destruct (Z.ltb_spec (ls_buffer_size s) (ltv_varint_size l + l)) as [Ho|Ho].
  - left. eexists _, s'. split_and!; try done. intros ty p rest (_ & -> & _ & ?)%Hfr. lia.
  - right. exists s'. split_and!; try done. simpl.
    pose proof (varint_bytes_pos l). rewrite varint_bytes_blen in *; lia.
Qed.

(** The last part of a feed: the message is complete. *)
Lemma ltv_stream_message s :
  ls_inv s → ls_pending_consume s = 0 → ls_expected s ≠ 0 →
  (ls_buffered s < ls_expected s ∧ ∀ ty p rest, ¬ ltv_front (ls_view s) ty p rest) ∨
  (ls_expected s <= ls_buffered s ∧ ∃ ty p rest, ltv_front (ls_view s) ty p rest ∧
     ls_expected s = blen (ltv_wire ty p) ∧
     ∀ old, ltv_parse (Some (ls_buffer s)) (ls_expected s) (Some old) =
              Some (LTV_PARSE_OK, Some (ltv_view ty p))).
Proof.
  intros Hi Hp0 He0. pose proof (ls_view_slice s Hi) as Hv. pose proof (ls_view_blen s Hi) as Hvl.
  destruct (Hi) as [Hl Hb Hp Hf H0 He]. rewrite Hp0, Z.sub_0_r in Hv, Hvl.
  destruct (He He0) as (v & Hvr & Hvs & Hs & Hexp).
  pose proof (varint_bytes_pos v) as Hvp. rewrite varint_bytes_blen in Hvp by lia.
  destruct (decide (ls_buffered s < ls_expected s)) as [Hlt|Hge].
  - left. split; [done|]. intros ty p rest [Hmax Hq].
    pose proof (blen_nonneg p). pose proof (blen_nonneg rest).
    rewrite Hq, blen_app in Hvl.
    assert (Hs' : slice (ls_buffer s) 0 (blen (ltv_wire ty p)) = Some (ltv_wire ty p)).
    { rewrite <-(slice_prefix _ _ _ _ Hv) by lia. rewrite Hq. apply slice_0_prefix. }
    apply ltv_wire_header in Hs' as (Hs' & _).
    destruct (ltv_peek_cases (ls_buffer s) (ls_buffered s) 0 0) as (r & l & h & _ & Hiff);
      [done|lia|].
    rewrite ltv_wire_blen, varint_bytes_blen in Hvl by lia.
    destruct (proj2 (Hiff v (ltv_varint_size v))) as (_ & -> & _); [done|].
    destruct (proj2 (Hiff (blen p + 1) (ltv_varint_size (blen p + 1)))) as (_ & -> & _);
      [split_and!; done || lia|]. lia.
  - right. split; [lia|].
    destruct (ltv_wire_split (ls_buffer s) (ls_buffered s) v) as (ty & p & Hpl & Hty & Hw);
      [lia..|done|lia|].
    assert (Hwl : blen (ltv_wire ty p) = ls_expected s).
    { rewrite ltv_wire_blen, Hpl, Hexp. replace (v - 1 + 1) with v by lia.
      rewrite varint_bytes_blen; lia. }
    exists ty, p, (drop (length (ltv_wire ty p)) (ls_view s)). split_and!.
    + split; [lia|]. apply (slice_0_take _ (blen (ltv_wire ty p))).
      by rewrite (slice_prefix _ _ _ _ Hv) by lia.
    + done.
    + intros old. destruct (ltv_parse_cases (ls_buffer s) (ls_expected s) old)
        as (r & m & -> & _ & Hfwd & _); [done|lia|].
      destruct (Hfwd ty p) as [-> ->]; [lia|lia|done|]. done.
Qed.

(** C35. Feeding a chunk refines appending it to the queue of unread bytes and
    taking one message off its front. The stream never reads or writes outside
    its buffer; a chunk that does not fit is refused and nothing is lost; a
    message is returned exactly when the unread bytes start with a complete
    one, its view designates the payload in the stream's own buffer, and what
    remains unread is what follows it; otherwise every byte is kept. *)
Theorem ltv_stream_feed_refines (s : ltv_stream_s) (chunk : list Z) (old : ltv_message) :
  ls_inv s → bytes_ok chunk →
  ∃ r s' m,
    ltv_stream_feed (Some s) (Some chunk) (blen chunk) (Some old) = Some (r, Some s', Some m) ∧
    ls_inv s' ∧ ls_buffer_size s' = ls_buffer_size s ∧
    (r ≠ LTV_PARSE_OK → m = old) ∧
    let q := ls_view s ++ chunk in
    if bool_decide (blen q <= ls_buffer_size s) then
      (∀ ty p rest, ltv_front q ty p rest →
         r = LTV_PARSE_OK ∧ m = ltv_view ty p ∧ ls_view s' = rest ∧
         slice (ls_buffer s') (blen (varint_bytes (blen p + 1)) + 1) (blen p) = Some p) ∧
      (r = LTV_PARSE_OK → ∃ ty p rest, ltv_front q ty p rest) ∧
      (r ≠ LTV_PARSE_OK → ls_view s' = q)
    else r = LTV_PARSE_BUFFER_OVERFLOW ∧ ls_view s' = ls_view s.
Proof.
  intros Hi Hc. unfold ltv_stream_feed. rewrite bool_decide_false by done. msimpl.
  destruct (ltv_consume_ok s Hi) as (s1 & -> & Hi1 & Hp1 & Hv1 & Hz1). msimpl.
  rewrite <-Hv1, <-Hz1.
  destruct (ltv_append_ok s1 chunk Hi1 Hp1 Hc)
    as [(Hbig & ->) | (Hfit & s2 & -> & Hi2 & Hp2 & Hv2 & Hz2)]; msimpl.
  { eexists _, s1, old. rewrite bool_decide_false by lia. split_and!; done. }
  rewrite bool_decide_true by done. rewrite <-Hv2, <-Hz2.
  destruct (ltv_stream_peek_ok s2 Hi2 Hp2)
    as [(r & s3 & -> & Hr & Hi3 & Hv3 & Hz3 & Hno) |
        (s3 & -> & Hi3 & Hp3 & Hv3 & Hz3 & He3)]; msimpl.
  { eexists r, s3, old. split_and!; try done. intros ty p rest Hfr. by destruct (Hno ty p rest). }
  rewrite <-Hv3, <-Hz3.
  destruct (ltv_stream_message s3 Hi3 Hp3 He3)
    as [(Hlt & Hno) | (Hge & ty & p & rest & Hfr & Hexp & Hparse)].
  { rewrite (proj2 (Z.ltb_lt _ _) Hlt). eexists _, s3, old. split_and!; try done.
    intros ty p rest Hfr. by destruct (Hno ty p rest). }
  rewrite (proj2 (Z.ltb_ge _ _) Hge), Hparse. msimpl. rewrite bool_decide_true by done. msimpl.
  eexists _, _, _. split; [done|]. destruct (Hi3) as [Hl Hb Hp Hf H0 He].
  pose proof (ls_view_slice s3 Hi3) as Hv. pose proof (ls_view_blen s3 Hi3) as Hvl.
  rewrite Hp3, Z.sub_0_r in Hv, Hvl. destruct (Hfr) as [Hmax Hq].
  assert (Hbv : bytes_ok (ls_view s3)) by (eapply slice_bytes; [exact Hb|exact Hv]).
  pose proof (blen_nonneg (ltv_wire ty p)).
  split; [constructor; simpl; try done; lia|]. split; [done|]. split; [done|].
  split; [|split; [|done]]; last by intros _; eauto.
  intros ty' p' rest' [Hmax' Hq']. rewrite Hq' in Hq, Hbv.
  apply ltv_wire_inj in Hq as (-> & -> & ->); [|done..].
  split_and!; [done|done| |].
  - apply ls_view_unique. simpl. rewrite Hq' in Hvl, Hv. rewrite blen_app in Hvl.
    replace (ls_buffered s3) with (ls_expected s3 + (ls_buffered s3 - ls_expected s3)) in Hv by lia.
    pose proof (blen_nonneg rest).
    apply slice_split in Hv as (w & t & Heq & Hs1 & Hs2); [|lia|lia].
    rewrite Z.add_0_l in Hs2. apply slice_blen in Hs1.
    apply app_inj_1 in Heq as [_ ->]; [done|]. unfold blen in *. lia.
  - simpl. rewrite varint_bytes_blen by (pose proof (blen_nonneg p); lia).
    apply (ltv_wire_header _ ty p). rewrite Hq' in Hv, Hvl. rewrite blen_app in Hvl.
    pose proof (blen_nonneg rest).
    rewrite <-(slice_prefix _ _ _ _ Hv) by lia. apply slice_0_prefix.
Qed.

(** A caller's loop: feed the chunks one by one and copy each returned message
    out of its zero-copy view; stop at the first error. *)
Definition ltv_payload (s : ltv_stream_s) (m : ltv_message) : option (list Z) :=
  match msg_value m with
  | Some off => slice (ls_buffer s) off (msg_value_size m)
  | None => Some []
  end.

Fixpoint ltv_stream_run (s : ltv_stream_s) (chunks : list (list Z)) :
    option (list (Z * list Z) * ltv_stream_s) :=
  match chunks with
  | [] => Some ([], s)
  | c :: chunks =>
      '(r, s', m) ← ltv_stream_feed (Some s) (Some c) (blen c) (Some (ltv_view 0 []));
      match r, s', m with
      | LTV_PARSE_OK, Some s', Some m =>
          p ← ltv_payload s' m;
          '(msgs, s'') ← ltv_stream_run s' chunks;
          Some ((msg_type m, p) :: msgs, s'')
      | LTV_PARSE_NEED_MORE, Some s', _ => ltv_stream_run s' chunks
      | _, _, _ => None
      end
  end.

Lemma ltv_payload_view s ty p :
  slice (ls_buffer s) (blen (varint_bytes (blen p + 1)) + 1) (blen p) = Some p →
  ltv_payload s (ltv_view ty p) = Some p.
Proof.
  intros Hs. unfold ltv_payload, ltv_view. simpl.
  destruct (Z.ltb_spec 0 (blen p)) as [H|H]; [done|].
  destruct p; [done|]. unfold blen in H. simpl in H. lia.
Qed.

(** However the byte stream is cut into chunks, the messages a caller
    reads, put back on the wire, followed by the bytes still unread, are the
    bytes that were fed: nothing is lost, reordered, duplicated or altered. *)
Theorem ltv_stream_conservation (s s' : ltv_stream_s) (chunks : list (list Z)) msgs :
  ls_inv s → Forall bytes_ok chunks → ltv_stream_run s chunks = Some (msgs, s') →
  ls_inv s' ∧
  ls_view s ++ concat chunks = concat (map (λ '(ty, p), ltv_wire ty p) msgs) ++ ls_view s'.
Proof.
  revert s msgs. induction chunks as [|c chunks IH]; intros s msgs Hi Hc Hrun; cbn [ltv_stream_run] in Hrun.
  { simplify_eq. simpl. by rewrite app_nil_r. }
  apply Forall_cons in Hc as [Hc Hcs].
  destruct (ltv_stream_feed_refines s c (ltv_view 0 []) Hi Hc)
    as (r & s1 & m & E & Hi1 & _ & _ & Hq). rewrite E in Hrun. msimpl in Hrun. cbv zeta in Hq.
  cbn [concat]. rewrite app_assoc.
  destruct r; try done; (case_bool_decide; [|by destruct Hq]).
  - destruct Hq as (Hfwd & (ty & p & rest & Hfr) & _); [done|].
    destruct (Hfwd ty p rest Hfr) as (_ & -> & Hv & Hs). destruct Hfr as [_ ->].
    rewrite (ltv_payload_view _ _ _ Hs) in Hrun. msimpl in Hrun.
    destruct (ltv_stream_run s1 chunks) as [[msgs1 s2]|] eqn:Er; msimpl in Hrun; [|done].
    simplify_eq. apply IH in Er as [Hi2 Er]; [|done..]. split; [done|].
    simpl. rewrite <-!app_assoc. f_equal. exact Er.
  - destruct Hq as (_ & _ & Hv). apply IH in Hrun as [Hi2 Er]; [|done..].
    split; [done|]. rewrite <-Er, Hv; done.
Qed.

(** [ltv_decode_varint] never reads past [len] bytes and returns a positive
    count [n] with the value [v] exactly when the first [n] bytes of the buffer
    are the canonical (shortest) LEB128 encoding of the 32-bit [v]; in every
    other case [*out] is left unchanged. *)
Theorem ltv_decode_varint_exact (data : list Z) (len old : Z) :
  bytes_ok data → 0 <= len <= blen data →
  ∃ n v, ltv_decode_varint (Some data) len (Some old) = Some (n, Some v) ∧
    (n <= 0 → v = old) ∧
    ∀ n' v', 0 < n' →
      (n = n' ∧ v = v') ↔
      is_u32 v' ∧ n' <= len ∧ slice data 0 n' = Some (varint_bytes v').
Proof.
  intros Hd Hlen.
  destruct (ltv_decode_varint_cases data len old Hd Hlen) as (n & o & E & Hno & Ho).
  exists n, (default old o). split; [done|]. split.
  { intros Hn. destruct o; [|done]. assert (0 < n) by (apply Hno; eauto). lia. }
  intros n' v' Hn'. split.
  - intros [<- <-]. destruct o as [v|]; [|destruct Hno as [Hno _]; by destruct (Hno Hn')].
    destruct (proj1 (Ho v n)) as (?&?&?&?); done.
  - intros (Hv & Hle & Hs).
    assert (n' = ltv_varint_size v') as ->.
    { rewrite <-varint_bytes_blen by word_lia. symmetry. by eapply slice_blen. }
    by destruct (proj2 (Ho v' (ltv_varint_size v'))) as [-> ->].
Qed.

Lemma ltv_decode_varint_exact_witness :
  bytes_ok [172; 2; 9] ∧ 0 <= 3 <= blen [172; 2; 9] ∧
  ∃ n v, ltv_decode_varint (Some [172; 2; 9]) 3 (Some 7) = Some (n, Some v).
Proof.
  assert (H1 : bytes_ok [172; 2; 9]) by (by_eval).
  assert (H2 : 0 <= 3 <= blen [172; 2; 9]) by (vm_compute; split; discriminate).
  split; [exact H1|]. split; [exact H2|].
  destruct (ltv_decode_varint_exact [172; 2; 9] 3 7 H1 H2) as (n & v & E & _).
  exists n, v. exact E.
Defined.

(** [ltv_parse] accepts exactly the buffers that start with a message of at
    most [LTV_MAX_PAYLOAD_SIZE] payload bytes; what it returns is the view of
    that message, and on any other status the output is untouched. *)
Theorem ltv_parse_exact (data : list Z) (old : ltv_message) :
  bytes_ok data →
  ∃ r m, ltv_parse (Some data) (blen data) (Some old) = Some (r, Some m) ∧
    (r ≠ LTV_PARSE_OK → m = old) ∧
    (r = LTV_PARSE_OK ↔ ∃ ty p rest, ltv_front data ty p rest) ∧
    ∀ ty p rest, ltv_front data ty p rest → m = ltv_view ty p.
Proof.
  intros Hd. pose proof (blen_nonneg data).
  destruct (ltv_parse_cases data (blen data) old) as (r & m & E & Hold & Hfwd & Hbwd);
    [done|lia|].
  assert (Hf : ∀ ty p rest, ltv_front data ty p rest → r = LTV_PARSE_OK ∧ m = ltv_view ty p).
  { intros ty p rest [Hp ->]. apply Hfwd; [done| |apply slice_0_prefix].
    rewrite blen_app. pose proof (blen_nonneg rest). lia. }
  exists r, m. split_and!; [done|done| |].
  - split; [|intros (ty & p & rest & ?%Hf); tauto].
    intros (ty & p & Hp & Hle & _ & Hs)%Hbwd.
    exists ty, p, (drop (length (ltv_wire ty p)) data). split; [done|]. by eapply slice_0_take.
  - intros ty p rest ?%Hf. tauto.
Qed.

Lemma ltv_parse_exact_witness :
  bytes_ok [3; 7; 1; 2; 99] ∧
  ∃ m, ltv_parse (Some [3; 7; 1; 2; 99]) 5 (Some (ltv_view 0 [])) = Some (LTV_PARSE_OK, Some m).
Proof.
  assert (H1 : bytes_ok [3; 7; 1; 2; 99]) by (by_eval).
  split; [exact H1|].
  destruct (ltv_parse_exact [3; 7; 1; 2; 99] (ltv_view 0 []) H1) as (r & m & E & _ & [_ Hr] & _).
  exists m. rewrite Hr in E; [exact E|].
  exists 7, [1; 2], [99]. split; [vm_compute; discriminate|reflexivity].
Defined.

(** What [ltv_build] writes is parsed back: a payload that fits the limits
    is written as one wire message and [ltv_parse] on the output returns a view
    of exactly that payload; otherwise nothing is written and 0 is returned. *)
Theorem ltv_build_roundtrip (ty : Z) (p out : list Z) (out_len : Z) (old : ltv_message) :
  is_u8 ty → bytes_ok p → bytes_ok out → out_len <= blen out →
  (LTV_MAX_PAYLOAD_SIZE < blen p ∨ out_len < blen (ltv_wire ty p) →
   ltv_build ty (Some p) (blen p) (Some out) out_len = Some (0, Some out)) ∧
  (blen p <= LTV_MAX_PAYLOAD_SIZE → blen (ltv_wire ty p) <= out_len →
   ∃ out', ltv_build ty (Some p) (blen p) (Some out) out_len =
             Some (blen (ltv_wire ty p), Some out') ∧ blen out' = blen out ∧
           ltv_parse (Some out') (blen out') (Some old) = Some (LTV_PARSE_OK, Some (ltv_view ty p)) ∧
           slice out' (blen (varint_bytes (blen p + 1)) + 1) (blen p) = Some p).
Proof.
  intros Hty Hp Hout Hlen. rewrite (ltv_build_spec _ _ _ _ Hlen). split.
  { intros H. by rewrite bool_decide_true by done. }
  intros Hmax Hfit. rewrite bool_decide_false by lia.
  set (out' := ltv_wire ty p ++ _). exists out'. split; [done|].
  assert (Hlo : blen out' = blen out).
  { eapply blit_blen. apply blit_0. lia. }
  assert (Hb : bytes_ok out').
  { apply bytes_ok_app. split; [|by apply Forall_drop]. apply bytes_ok_app.
    split; [apply leb128_bytes; pose proof (blen_nonneg p); lia|]. by constructor. }
  split; [done|].
  assert (Hs : slice out' 0 (blen (ltv_wire ty p)) = Some (ltv_wire ty p)) by apply slice_0_prefix.
  split.
  - destruct (ltv_parse_cases out' (blen out') old) as (r & m & E & _ & Hfwd & _);
      [done|pose proof (blen_nonneg out'); lia|].
    destruct (Hfwd ty p) as [-> ->]; [done|lia|done|done].
  - apply ltv_wire_header in Hs as (_ & _ & Hs).
    by rewrite varint_bytes_blen by (pose proof (blen_nonneg p); lia).
Qed.

Lemma ltv_build_roundtrip_witness :
  ∃ out', ltv_build 9 (Some [1; 2]) 2 (Some (zeros 6)) 6 = Some (4, Some out') ∧
    slice out' 2 2 = Some [1; 2].
Proof.
  destruct (ltv_build_roundtrip 9 [1; 2] (zeros 6) 6 (ltv_view 0 [])) as [_ H].
  - vm_compute; split; discriminate.
  - by_eval.
  - by_eval.
  - vm_compute; discriminate.
  - destruct H as (out' & E & _ & _ & Hs); [vm_compute; discriminate..|].
    exists out'. split; [exact E|exact Hs].
Defined.

Lemma ltv_stream_feed_refines_witness :
  ls_inv (ltv_stream_create 4 [0; 0; 0; 0]) ∧
  ∃ r s' m, ltv_stream_feed (Some (ltv_stream_create 4 [0; 0; 0; 0])) (Some [2; 7; 5; 1]) 4
              (Some (ltv_view 0 [])) = Some (r, Some s', Some m).
Proof.
  assert (Hi : ls_inv (ltv_stream_create 4 [0; 0; 0; 0])).
  { apply (ltv_stream_create_inv 4 [0; 0; 0; 0]); [lia|reflexivity|].
    by_eval. }
  split; [exact Hi|].
  destruct (ltv_stream_feed_refines _ [2; 7; 5; 1] (ltv_view 0 []) Hi) as (r & s' & m & E & _).
  - by_eval.
  - exists r, s', m. exact E.
Defined.

Lemma ltv_stream_conservation_witness :
  ∃ s', ltv_stream_run (ltv_stream_create 8 (zeros 8)) [[2]; [7; 5; 1]; [3]] =
          Some ([(7, [5]); (3, [])], s') ∧ ls_inv s'.
Proof.
  eexists. split; [vm_compute; reflexivity|].
  eapply (ltv_stream_conservation (ltv_stream_create 8 (zeros 8)) _ [[2]; [7; 5; 1]; [3]]).
  - apply (ltv_stream_create_inv 8); [lia|reflexivity|].
    by_eval.
  - repeat constructor; by_eval.
  - vm_compute; reflexivity.
Defined.

(** A message longer than the stream's buffer is refused once, and then asked
    for again: after [LTV_PARSE_BUFFER_OVERFLOW] the stream keeps the expected
    size it could not hold, and the next call reports [LTV_PARSE_NEED_MORE]. *)
Example ltv_stream_oversize_then_need_more :
  ∃ s1 m, ltv_stream_feed (Some (ltv_stream_create 4 (zeros 4))) (Some [10]) 1
            (Some (ltv_view 0 [])) = Some (LTV_PARSE_BUFFER_OVERFLOW, Some s1, m) ∧
  ∃ s2, ltv_stream_feed (Some s1) (Some [7]) 1 (Some (ltv_view 0 [])) =
          Some (LTV_PARSE_NEED_MORE, Some s2, m).
Proof. eexists _, _. split; [vm_compute; reflexivity|]. eexists. vm_compute. reflexivity. Qed.
