(* ===== verification/Modbus.v ===== *)
(** * Modbus: Modbus TCP and RTU application data units ([parser/modbus_parser]) *)

From S2P Require Import Prelude Crc.
Local Open Scope Z_scope.

Definition MODBUS_TCP_MBAP_SIZE : Z := 7.
Definition MODBUS_TCP_MIN_ADU_SIZE : Z := 8.
Definition MODBUS_TCP_MAX_ADU_SIZE : Z := 260.
Definition MODBUS_MAX_PDU_SIZE : Z := 253.
Definition MODBUS_RTU_MIN_ADU_SIZE : Z := 4.
Definition MODBUS_RTU_MAX_ADU_SIZE : Z := 256.

Inductive ModbusParseResult :=
  | MODBUS_PARSE_OK
  | MODBUS_PARSE_NEED_MORE
  | MODBUS_PARSE_INVALID_INPUT
  | MODBUS_PARSE_INVALID_PROTOCOL
  | MODBUS_PARSE_INVALID_LENGTH
  | MODBUS_PARSE_CRC_MISMATCH
  | MODBUS_PARSE_BUFFER_OVERFLOW.

#[export] Instance ModbusParseResult_eq_dec : EqDecision ModbusParseResult.
Proof. solve_decision. Defined.

(** [ModbusTransport] is a C enum: any [int] can be passed. *)
Definition MODBUS_TRANSPORT_TCP : Z := 0.
Definition MODBUS_TRANSPORT_RTU : Z := 1.

(** [pdu_data] is a pointer into the buffer that was parsed: its offset there,
    or [None] for [NULL]. *)
Record modbus_pdu_t := ModbusPdu {
  function_code : Z;
  pdu_data : option Z;
  data_size : Z
}.

Record modbus_tcp_adu_t := ModbusTcpAdu {
  transaction_id : Z;
  protocol_id : Z;
  tcp_length : Z;
  unit_id : Z;
  tcp_pdu : modbus_pdu_t;
  tcp_consumed : Z
}.

Record modbus_rtu_adu_t := ModbusRtuAdu {
  address : Z;
  rtu_pdu : modbus_pdu_t;
  rtu_crc : Z;
  rtu_consumed : Z
}.

(** The union of [modbus_adu_t]. *)
Inductive modbus_frame :=
  | frame_tcp (a : modbus_tcp_adu_t)
  | frame_rtu (a : modbus_rtu_adu_t).

Record modbus_adu_t := ModbusAdu { transport : Z; frame : modbus_frame }.

Definition read_be16 (p : list Z) (off : Z) : option Z :=
  p0 ← load p off;
  p1 ← load p (off + 1);
  Some (u16 (Z.lor (Z.shiftl p0 8) p1)).

Definition write_be16 (p : list Z) (off value : Z) : option (list Z) :=
  p ← store p off (u8 (Z.shiftr value 8));
  store p (off + 1) (u8 value).

Definition modbus_pdu_size_valid (data_size : Z) : bool :=
  data_size <=? MODBUS_MAX_PDU_SIZE - 1.

(** ** Modbus TCP *)

Definition modbus_tcp_peek_size (data : option (list Z)) (len : Z) (out_size : option Z) :
    option (ModbusParseResult * option Z) :=
  match data, out_size with
  | Some d, Some _ =>
      if len <? MODBUS_TCP_MBAP_SIZE then Some (MODBUS_PARSE_NEED_MORE, out_size) else
      protocol ← read_be16 d 2;
      if negb (protocol =? 0) then Some (MODBUS_PARSE_INVALID_PROTOCOL, out_size) else
      length ← read_be16 d 4;
      if (length <? 2) || (MODBUS_MAX_PDU_SIZE + 1 <? length)
      then Some (MODBUS_PARSE_INVALID_LENGTH, out_size) else
      Some (MODBUS_PARSE_OK, Some (6 + length))
  | _, _ => Some (MODBUS_PARSE_INVALID_INPUT, out_size)
  end.

Definition modbus_tcp_parse (data : option (list Z)) (len : Z)
    (out : option modbus_tcp_adu_t) : option (ModbusParseResult * option modbus_tcp_adu_t) :=
  match data, out with
  | Some d, Some _ =>
      '(peek, total) ← modbus_tcp_peek_size data len (Some 0);
      let total := default 0 total in
      if negb (bool_decide (peek = MODBUS_PARSE_OK)) then Some (peek, out) else
      if len <? total then Some (MODBUS_PARSE_NEED_MORE, out) else
      length ← read_be16 d 4;
      let pdu_size := length - 1 in
      tid ← read_be16 d 0;
      pid ← read_be16 d 2;
      uid ← load d 6;
      fc ← load d 7;
      let data_size := pdu_size - 1 in
      Some (MODBUS_PARSE_OK,
        Some {| transaction_id := tid; protocol_id := pid; tcp_length := length;
                unit_id := uid;
                tcp_pdu := {| function_code := fc;
                              pdu_data := if 0 <? data_size then Some 8 else None;
                              data_size := data_size |};
                tcp_consumed := total |})
  | _, _ => Some (MODBUS_PARSE_INVALID_INPUT, out)
  end.

Definition modbus_tcp_read := modbus_tcp_parse.

(** [pdu_data] here is the memory the caller's pointer designates. *)
Definition modbus_tcp_build (transaction_id unit_id function_code : Z)
    (pdu_data : option (list Z)) (pdu_data_size : Z)
    (out : option (list Z)) (out_len : Z) : option (Z * option (list Z)) :=
  match out with
  | None => Some (0, out)
  | Some o =>
      if negb (modbus_pdu_size_valid pdu_data_size) then Some (0, out) else
      if (0 <? pdu_data_size) && bool_decide (pdu_data = None) then Some (0, out) else
      let total := MODBUS_TCP_MIN_ADU_SIZE + pdu_data_size in
      if out_len <? total then Some (0, out) else
      o ← write_be16 o 0 transaction_id;
      o ← write_be16 o 2 0;
      o ← write_be16 o 4 (u16 (2 + pdu_data_size));
      o ← store o 6 unit_id;
      o ← store o 7 function_code;
      o ← (match pdu_data with
           | Some p => if 0 <? pdu_data_size
                       then (s ← slice p 0 pdu_data_size; blit o 8 s) else Some o
           | None => Some o
           end);
      Some (total, Some o)
  end.

(** [mem] is the memory into which [pdu.data] of a message points. *)
Definition pdu_bytes (mem : list Z) (p : modbus_pdu_t) : option (list Z) :=
  off ← pdu_data p; Some (drop (Z.to_nat off) mem).

Definition modbus_tcp_write (mem : list Z) (adu : option modbus_tcp_adu_t)
    (out : option (list Z)) (out_len : Z) : option (Z * option (list Z)) :=
  match adu with
  | None => Some (0, out)
  | Some a =>
      if negb (protocol_id a =? 0) then Some (0, out) else
      modbus_tcp_build (transaction_id a) (unit_id a) (function_code (tcp_pdu a))
        (pdu_bytes mem (tcp_pdu a)) (data_size (tcp_pdu a)) out out_len
  end.

(** ** Modbus RTU *)

(** The inner loop of [modbus_rtu_crc16]: eight bits of one input byte. *)
Fixpoint crc16_bits (n : nat) (crc : Z) : Z :=
  match n with
  | O => crc
  | S n => crc16_bits n
      (if negb (Z.land crc 1 =? 0) then u16 (Z.lxor (Z.shiftr crc 1) 40961)
       else Z.shiftr crc 1)
  end.

Definition modbus_rtu_crc16_loop (data : list Z) (crc : Z) : Z :=
  fold_left (λ crc b, crc16_bits 8 (Z.lxor crc b)) data crc.

Definition modbus_rtu_crc16 (data : option (list Z)) (len : Z) : option Z :=
  match data with
  | None => Some (if 0 <? len then 0 else 65535)
  | Some d => l ← slice d 0 len; Some (modbus_rtu_crc16_loop l 65535)
  end.

Definition modbus_rtu_parse (data : option (list Z)) (len : Z)
    (out : option modbus_rtu_adu_t) : option (ModbusParseResult * option modbus_rtu_adu_t) :=
  match data, out with
  | Some d, Some _ =>
      if len <? MODBUS_RTU_MIN_ADU_SIZE then Some (MODBUS_PARSE_NEED_MORE, out) else
      if MODBUS_RTU_MAX_ADU_SIZE <? len then Some (MODBUS_PARSE_INVALID_LENGTH, out) else
      expected ← modbus_rtu_crc16 data (len - 2);
      lo ← load d (len - 2);
      hi ← load d (len - 1);
      let wire_crc := u16 (Z.lor lo (Z.shiftl hi 8)) in
      if negb (expected =? wire_crc) then Some (MODBUS_PARSE_CRC_MISMATCH, out) else
      addr ← load d 0;
      fc ← load d 1;
      let data_size := len - 4 in
      Some (MODBUS_PARSE_OK,
        Some {| address := addr;
                rtu_pdu := {| function_code := fc;
                              pdu_data := if 0 <? data_size then Some 2 else None;
                              data_size := data_size |};
                rtu_crc := wire_crc;
                rtu_consumed := len |})
  | _, _ => Some (MODBUS_PARSE_INVALID_INPUT, out)
  end.

Definition modbus_rtu_read := modbus_rtu_parse.

Definition modbus_rtu_build (address function_code : Z) (pdu_data : option (list Z))
    (pdu_data_size : Z) (out : option (list Z)) (out_len : Z) :
    option (Z * option (list Z)) :=
  match out with
  | None => Some (0, out)
  | Some o =>
      if negb (modbus_pdu_size_valid pdu_data_size) then Some (0, out) else
      if (0 <? pdu_data_size) && bool_decide (pdu_data = None) then Some (0, out) else
      let total := MODBUS_RTU_MIN_ADU_SIZE + pdu_data_size in
      if out_len <? total then Some (0, out) else
      o ← store o 0 address;
      o ← store o 1 function_code;
      o ← (match pdu_data with
           | Some p => if 0 <? pdu_data_size
                       then (s ← slice p 0 pdu_data_size; blit o 2 s) else Some o
           | None => Some o
           end);
      crc ← modbus_rtu_crc16 (Some o) (total - 2);
      o ← store o (total - 2) (u8 crc);
      o ← store o (total - 1) (u8 (Z.shiftr crc 8));
      Some (total, Some o)
  end.

Definition modbus_rtu_write (mem : list Z) (adu : option modbus_rtu_adu_t)
    (out : option (list Z)) (out_len : Z) : option (Z * option (list Z)) :=
  match adu with
  | None => Some (0, out)
  | Some a =>
      modbus_rtu_build (address a) (function_code (rtu_pdu a))
        (pdu_bytes mem (rtu_pdu a)) (data_size (rtu_pdu a)) out out_len
  end.

(** ** Either transport *)

Definition frame_tcp_of (f : modbus_frame) : modbus_tcp_adu_t :=
  match f with
  | frame_tcp a => a
  | frame_rtu _ => ModbusTcpAdu 0 0 0 0 (ModbusPdu 0 None 0) 0
  end.
Definition frame_rtu_of (f : modbus_frame) : modbus_rtu_adu_t :=
  match f with
  | frame_rtu a => a
  | frame_tcp _ => ModbusRtuAdu 0 (ModbusPdu 0 None 0) 0 0
  end.

Definition modbus_read (tr : Z) (data : option (list Z)) (len : Z)
    (out : option modbus_adu_t) : option (ModbusParseResult * option modbus_adu_t) :=
  match out with
  | None => Some (MODBUS_PARSE_INVALID_INPUT, out)
  | Some o =>
      if tr =? MODBUS_TRANSPORT_TCP then
        '(result, a) ← modbus_tcp_read data len (Some (frame_tcp_of (frame o)));
        match result, a with
        | MODBUS_PARSE_OK, Some a =>
            Some (result, Some {| transport := MODBUS_TRANSPORT_TCP; frame := frame_tcp a |})
        | _, _ => Some (result, out)
        end
      else if tr =? MODBUS_TRANSPORT_RTU then
        '(result, a) ← modbus_rtu_read data len (Some (frame_rtu_of (frame o)));
        match result, a with
        | MODBUS_PARSE_OK, Some a =>
            Some (result, Some {| transport := MODBUS_TRANSPORT_RTU; frame := frame_rtu a |})
        | _, _ => Some (result, out)
        end
      else Some (MODBUS_PARSE_INVALID_INPUT, out)
  end.

(** A tag that does not match the stored union member has no meaning. *)
Definition modbus_write (mem : list Z) (adu : option modbus_adu_t)
    (out : option (list Z)) (out_len : Z) : option (Z * option (list Z)) :=
  match adu with
  | None => Some (0, out)
  | Some a =>
      if transport a =? MODBUS_TRANSPORT_TCP then
        match frame a with
        | frame_tcp t => modbus_tcp_write mem (Some t) out out_len
        | frame_rtu _ => None
        end
      else if transport a =? MODBUS_TRANSPORT_RTU then
        match frame a with
        | frame_rtu t => modbus_rtu_write mem (Some t) out out_len
        | frame_tcp _ => None
        end
      else Some (0, out)
  end.

(** ** Stream parser *)

Record modbus_stream_s := ModbusStream {
  ms_transport : Z;
  ms_buffer : list Z;
  ms_buffer_size : Z;
  ms_buffered : Z;
  ms_expected : Z
}.

(** [malloc] leaves the contents unspecified: they are an argument. *)
Definition modbus_stream_create (tr buffer_size : Z) (junk : list Z) : modbus_stream_s :=
  {| ms_transport := tr; ms_buffer := junk;
     ms_buffer_size := if buffer_size =? 0 then MODBUS_TCP_MAX_ADU_SIZE else buffer_size;
     ms_buffered := 0; ms_expected := 0 |}.

Definition ms_set (s : modbus_stream_s) (buf : list Z) (buffered expected : Z) :=
  {| ms_transport := ms_transport s; ms_buffer := buf; ms_buffer_size := ms_buffer_size s;
     ms_buffered := buffered; ms_expected := expected |}.

(** The copy into the buffer; [None] is the early return of a full buffer. *)
Definition modbus_stream_append (s : modbus_stream_s) (data : option (list Z)) (len : Z) :
    option (option modbus_stream_s) :=
  if ms_buffer_size s <? u64 (ms_buffered s + len) then Some None else
  match data with
  | Some d =>
      if 0 <? len then
        chunk ← slice d 0 len;
        buf ← blit (ms_buffer s) (ms_buffered s) chunk;
        Some (Some (ms_set s buf (ms_buffered s + len) (ms_expected s)))
      else Some (Some s)
  | None => Some (Some s)
  end.

Definition modbus_stream_feed_rtu (s : modbus_stream_s) (len : Z) (out : modbus_adu_t) :
    option (ModbusParseResult * modbus_stream_s * modbus_adu_t) :=
  if 0 <? len then Some (MODBUS_PARSE_NEED_MORE, s, out) else
  if ms_buffered s =? 0 then Some (MODBUS_PARSE_NEED_MORE, s, out) else
  '(result, a) ← modbus_rtu_parse (Some (ms_buffer s)) (ms_buffered s)
                   (Some (frame_rtu_of (frame out)));
  match result, a with
  | MODBUS_PARSE_OK, Some a =>
      Some (MODBUS_PARSE_OK, ms_set s (ms_buffer s) 0 0,
            {| transport := MODBUS_TRANSPORT_RTU; frame := frame_rtu a |})
  | _, _ => Some (result, s, out)
  end.

(** The size of the unit being received; [inl] is an early return. *)
Definition modbus_stream_peek (s : modbus_stream_s) :
    option (ModbusParseResult + modbus_stream_s) :=
  if ms_expected s =? 0 then
    '(peek, expected) ← modbus_tcp_peek_size (Some (ms_buffer s)) (ms_buffered s) (Some 0);
    let expected := default 0 expected in
    if negb (bool_decide (peek = MODBUS_PARSE_OK)) then Some (inl peek) else
    if ms_buffer_size s <? expected then Some (inl MODBUS_PARSE_BUFFER_OVERFLOW) else
    Some (inr (ms_set s (ms_buffer s) (ms_buffered s) expected))
  else Some (inr s).

Definition modbus_stream_feed_tcp (s : modbus_stream_s) (out : modbus_adu_t) :
    option (ModbusParseResult * modbus_stream_s * modbus_adu_t) :=
  peeked ← modbus_stream_peek s;
  match peeked with
  | inl r => Some (r, s, out)
  | inr s =>
      if ms_buffered s <? ms_expected s then Some (MODBUS_PARSE_NEED_MORE, s, out) else
      '(result, a) ← modbus_tcp_parse (Some (ms_buffer s)) (ms_expected s)
                       (Some (frame_tcp_of (frame out)));
      match result, a with
      | MODBUS_PARSE_OK, Some a =>
          let remaining := ms_buffered s - ms_expected s in
          buf ← compact (ms_buffer s) (ms_expected s) remaining;
          Some (MODBUS_PARSE_OK, ms_set s buf remaining 0,
                {| transport := MODBUS_TRANSPORT_TCP; frame := frame_tcp a |})
      | _, _ => Some (result, s, out)
      end
  end.

Definition modbus_stream_feed (s : option modbus_stream_s) (data : option (list Z))
    (len : Z) (out : option modbus_adu_t) :
    option (ModbusParseResult * option modbus_stream_s * option modbus_adu_t) :=
  match s, out with
  | Some st, Some o =>
      if (0 <? len) && bool_decide (data = None)
      then Some (MODBUS_PARSE_INVALID_INPUT, s, out) else
      appended ← modbus_stream_append st data len;
      match appended with
      | None => Some (MODBUS_PARSE_BUFFER_OVERFLOW, s, out)
      | Some st =>
          '(r, st, o) ← (if ms_transport st =? MODBUS_TRANSPORT_RTU
                         then modbus_stream_feed_rtu st len o
                         else modbus_stream_feed_tcp st o);
          Some (r, Some st, Some o)
      end
  | _, _ => Some (MODBUS_PARSE_INVALID_INPUT, s, out)
  end.

Definition modbus_stream_reset (s : option modbus_stream_s) : option modbus_stream_s :=
  match s with
  | Some st => Some (ms_set st (ms_buffer st) 0 0)
  | None => None
  end.

(** ** Wire formats *)

Definition modbus_tcp_wire (tid uid fc : Z) (p : list Z) : list Z :=
  [tid / 256; tid mod 256; 0; 0; (2 + blen p) / 256; (2 + blen p) mod 256; uid; fc] ++ p.

Definition modbus_tcp_view (tid uid fc : Z) (p : list Z) : modbus_tcp_adu_t :=
  {| transaction_id := tid; protocol_id := 0; tcp_length := 2 + blen p; unit_id := uid;
     tcp_pdu := {| function_code := fc;
                   pdu_data := if 0 <? blen p then Some 8 else None;
                   data_size := blen p |};
     tcp_consumed := 8 + blen p |}.

Lemma modbus_tcp_wire_blen tid uid fc p : blen (modbus_tcp_wire tid uid fc p) = 8 + blen p.
Proof. unfold modbus_tcp_wire. rewrite blen_app. done. Qed.

Lemma read_be16_val d off a b :
  load d off = Some a → load d (off + 1) = Some b → is_u8 a → is_u8 b →
  read_be16 d off = Some (a * 256 + b).
Proof.
  intros Ha Hb Ha8 Hb8. unfold read_be16. rewrite Ha, Hb. msimpl. by rewrite be16_val.
Qed.

(** A buffer long enough for the fixed part, byte by byte. *)
Lemma modbus_tcp_header d :
  bytes_ok d → 7 <= blen d →
  ∃ a0 a1 a2 a3 a4 a5 a6 tl, d = [a0; a1; a2; a3; a4; a5; a6] ++ tl ∧
    Forall is_u8 [a0; a1; a2; a3; a4; a5; a6] ∧ bytes_ok tl ∧
    read_be16 d 0 = Some (a0 * 256 + a1) ∧ read_be16 d 2 = Some (a2 * 256 + a3) ∧
    read_be16 d 4 = Some (a4 * 256 + a5) ∧ load d 6 = Some a6 ∧
    load d 7 = load tl 0 ∧ blen d = 7 + blen tl.
Proof.
  intros Hd Hl.
  uncons d Hd a0. uncons tl Htl a1. uncons tl0 Htl0 a2. uncons tl Htl1 a3.
  uncons tl0 Htl2 a4. uncons tl Htl3 a5. uncons tl0 Htl4 a6.
  exists a0, a1, a2, a3, a4, a5, a6, tl. autorewrite with buf in *. split_and!; try done.
  - by rewrite !Forall_cons, Forall_nil.
  - by apply read_be16_val.
  - by apply read_be16_val.
  - by apply read_be16_val.
  - lia.
Qed.

(** [d] starts with the application data unit [tid], [uid], [fc], [p]. *)
Definition modbus_tcp_at (d : list Z) (tid uid fc : Z) (p : list Z) : Prop :=
  is_u16 tid ∧ blen p <= MODBUS_MAX_PDU_SIZE - 1 ∧
  slice d 0 (blen (modbus_tcp_wire tid uid fc p)) = Some (modbus_tcp_wire tid uid fc p).

Lemma modbus_tcp_at_fields d tid uid fc p :
  modbus_tcp_at d tid uid fc p →
  ∃ rest, d = modbus_tcp_wire tid uid fc p ++ rest ∧
    read_be16 d 0 = Some tid ∧ read_be16 d 2 = Some 0 ∧ read_be16 d 4 = Some (2 + blen p) ∧
    load d 6 = Some uid ∧ load d 7 = Some fc ∧ slice d 8 (blen p) = Some p.
Proof.
  intros (Htid & Hp & Hs). apply slice_0_take in Hs. set (rest := drop _ d) in Hs.
  clearbody rest. subst d. exists rest. split; [done|].
  unfold MODBUS_MAX_PDU_SIZE in Hp. pose proof (blen_nonneg p).
  assert (Hv : ∀ v, is_u16 v → is_u8 (v / 256) ∧ is_u8 (v mod 256) ∧
    v / 256 * 256 + v mod 256 = v) by (intros; word_lia).
  destruct (Hv tid Htid) as (? & ? & Ht).
  destruct (Hv (2 + blen p)) as (? & ? & Hl); [word_lia|].
  split_and!; try done.
  - rewrite (read_be16_val _ _ (tid / 256) (tid mod 256)); congruence || done.
  - rewrite (read_be16_val _ _ ((2 + blen p) / 256) ((2 + blen p) mod 256)); congruence || done.
  - unfold modbus_tcp_wire. rewrite <-app_assoc. by apply slice_app.
Qed.

Lemma modbus_tcp_peek_cases d len old :
  bytes_ok d → 0 <= len <= blen d →
  ∃ r n, modbus_tcp_peek_size (Some d) len (Some old) = Some (r, Some n) ∧
    (r ≠ MODBUS_PARSE_OK → n = old) ∧
    ∀ l, (r = MODBUS_PARSE_OK ∧ n = 6 + l) ↔
      7 <= len ∧ read_be16 d 2 = Some 0 ∧ read_be16 d 4 = Some l ∧ 2 <= l <= 254.
Proof.
  intros Hd Hlen. unfold modbus_tcp_peek_size, MODBUS_TCP_MBAP_SIZE, MODBUS_MAX_PDU_SIZE.
  destruct (Z.ltb_spec len 7).
  { eexists _, _. split; [done|]. split; [done|]. intros l. split; [naive_solver|lia]. }
  destruct (modbus_tcp_header d Hd) as (a0&a1&a2&a3&a4&a5&a6&tl&_&_&_&_&H2&H4&_); [lia|].
  rewrite H2. msimpl. destruct (Z.eqb_spec (a2 * 256 + a3) 0) as [E|E]; cbn [negb].
  2:{ eexists _, _. split; [done|]. split; [done|]. intros l. split; naive_solver. }
  rewrite H4, E. msimpl.
  destruct (Z.ltb_spec (a4 * 256 + a5) 2), (Z.ltb_spec (253 + 1) (a4 * 256 + a5)); cbn [orb];
    (eexists _, _; split; [done|]; split; [done|]); intros l;
    (split; [intros [Hr Hn]; try done|intros (_ & _ & Hl & ?); simplify_eq; try lia]).
  - split_and!; try done; try lia. f_equal. lia.
  - done.
Qed.

(** What [modbus_tcp_parse] does, by cases on the front of the buffer. *)
Lemma modbus_tcp_parse_cases d len old :
  bytes_ok d → 0 <= len <= blen d →
  ∃ r m, modbus_tcp_parse (Some d) len (Some old) = Some (r, Some m) ∧
    (r ≠ MODBUS_PARSE_OK → m = old) ∧
    (∀ tid uid fc p, modbus_tcp_at d tid uid fc p → 8 + blen p <= len →
       r = MODBUS_PARSE_OK ∧ m = modbus_tcp_view tid uid fc p) ∧
    (r = MODBUS_PARSE_OK → ∃ tid uid fc p, modbus_tcp_at d tid uid fc p ∧
       8 + blen p <= len ∧ m = modbus_tcp_view tid uid fc p).
Proof.
  intros Hd Hlen. unfold modbus_tcp_parse.
  destruct (modbus_tcp_peek_cases d len 0 Hd Hlen) as (r & n & E & _ & Hiff).
  rewrite E. msimpl.
  assert (Hfwd : ∀ tid uid fc p, modbus_tcp_at d tid uid fc p → 8 + blen p <= len →
    r = MODBUS_PARSE_OK ∧ n = 6 + (2 + blen p)).
  { intros tid uid fc p Hat Hle. pose proof (blen_nonneg p).
    destruct (modbus_tcp_at_fields _ _ _ _ _ Hat) as (rest&_&_&H2&H4&_).
    destruct Hat as (_ & Hp & _). unfold MODBUS_MAX_PDU_SIZE in Hp.
    apply Hiff. split_and!; done || lia. }
  case_bool_decide as Hr; msimpl; last first.
  { exists r, old. split_and!; try done. intros ???? Hat Hle.
    by destruct (Hfwd _ _ _ _ Hat Hle) as [-> _]. }
  subst r. destruct (proj1 (Hiff (n - 6))) as (H7 & H2 & H4 & Hn); [split; [done|lia]|].
  destruct (Z.ltb_spec len n) as [Hsh|Hge].
  { exists MODBUS_PARSE_NEED_MORE, old. split_and!; try done. intros ???? Hat Hle.
    destruct (Hfwd _ _ _ _ Hat Hle) as [_ ->]. lia. }
  destruct (modbus_tcp_header d Hd) as
    (a0&a1&a2&a3&a4&a5&a6&tl&Hsplit&Ha&Htl&H0&H2'&H4'&H6&H7'&Hl); [lia|].
  rewrite H4, H0, H2, H6, H7'. msimpl.
  uncons tl Htl a7. change (load (a7 :: tl0) 0) with (Some a7). msimpl.
  rewrite H2 in H2'. rewrite H4 in H4'. simplify_eq.
  rewrite !Forall_cons in Ha. destruct Ha as (?&?&?&?&?&?&?&_).
  rewrite !blen_cons in *.
  set (p := take (Z.to_nat (n - 8)) tl0).
  assert (Hp : blen p = n - 8) by (unfold p, blen in *; rewrite length_take; lia).
  assert (Hat : modbus_tcp_at ([a0; a1; a2; a3; a4; a5; a6] ++ a7 :: tl0)
                  (a0 * 256 + a1) a6 a7 p).
  { split; [word_lia|]. rewrite modbus_tcp_wire_blen.
    split; [unfold MODBUS_MAX_PDU_SIZE; lia|].
    replace ([a0; a1; a2; a3; a4; a5; a6] ++ a7 :: tl0)
      with (modbus_tcp_wire (a0 * 256 + a1) a6 a7 p ++ drop (Z.to_nat (n - 8)) tl0).
    - rewrite <-modbus_tcp_wire_blen with (tid := a0 * 256 + a1) (uid := a6) (fc := a7).
      apply slice_0_prefix.
    - unfold modbus_tcp_wire. rewrite <-app_assoc. unfold p at 3. rewrite take_drop.
      rewrite Hp. replace (2 + (n - 8)) with (a4 * 256 + a5) by lia.
      simpl. repeat f_equal; word_lia. }
  assert (Hview : ∀ tid uid fc q,
    modbus_tcp_at ([a0; a1; a2; a3; a4; a5; a6] ++ a7 :: tl0) tid uid fc q → 8 + blen q <= len →
    {| transaction_id := a0 * 256 + a1; protocol_id := 0; tcp_length := n - 6; unit_id := a6;
       tcp_pdu := {| function_code := a7;
                     pdu_data := if 0 <? n - 6 - 1 - 1 then Some 8 else None;
                     data_size := n - 6 - 1 - 1 |};
       tcp_consumed := n |} = modbus_tcp_view tid uid fc q).
  { intros tid uid fc q Hat' Hle. destruct (Hfwd _ _ _ _ Hat' Hle) as [_ ->].
    apply modbus_tcp_at_fields in Hat' as (?&_&H0'&_&_&H6'&H7''&_).
    rewrite H0 in H0'. rewrite H6 in H6'. change (Some a7 = Some fc) in H7''.
    unfold modbus_tcp_view.
    simplify_eq. replace (6 + (2 + blen q) - 6 - 1 - 1) with (blen q) by lia.
    f_equal; [lia|lia]. }
  eexists MODBUS_PARSE_OK, _. split; [done|]. split; [done|]. split.
  - intros tid uid fc q Hat' Hle. split; [done|]. by apply Hview.
  - intros _. exists (a0 * 256 + a1), a6, a7, p. split; [done|]. split; [lia|].
    apply Hview; [done|lia].
Qed.

Lemma write_be16_blit p off v :
  0 <= off → write_be16 p off v = blit p off [u8 (Z.shiftr v 8); u8 v].
Proof. intros. unfold write_be16, store. by apply blit_blit. Qed.

Lemma write_be16_seq {A} b off off' s v (k : list Z → option A) :
  0 <= off → off' = off + blen s →
  (b1 ← blit b off s; b2 ← write_be16 b1 off' v; k b2) =
    b2 ← blit b off (s ++ [u8 (Z.shiftr v 8); u8 v]); k b2.
Proof.
  intros Hoff ->. rewrite <-(blit_seq b off (off + blen s)) by done.
  pose proof (blen_nonneg s).
  destruct (blit b off s); [msimpl; by rewrite write_be16_blit by lia|done].
Qed.

(** [modbus_tcp_build] writes exactly the wire format or nothing at all. *)
Lemma modbus_tcp_build_spec tid uid fc p out out_len :
  is_u16 tid → out_len <= blen out →
  modbus_tcp_build tid uid fc (Some p) (blen p) (Some out) out_len =
    Some (if bool_decide (MODBUS_MAX_PDU_SIZE - 1 < blen p ∨ out_len < 8 + blen p)
          then (0, Some out)
          else (8 + blen p, Some (modbus_tcp_wire tid uid fc p ++
                                  drop (length (modbus_tcp_wire tid uid fc p)) out))).
Proof.
  intros Htid Hout. unfold modbus_tcp_build, modbus_pdu_size_valid, MODBUS_TCP_MIN_ADU_SIZE.
  pose proof (blen_nonneg p). rewrite andb_false_r.
  destruct (Z.leb_spec (blen p) (MODBUS_MAX_PDU_SIZE - 1)) as [Hp|Hp]; cbn [negb];
    [|by rewrite bool_decide_true by tauto].
  cbv zeta. destruct (Z.ltb_spec out_len (8 + blen p)); [by rewrite bool_decide_true by tauto|].
  rewrite bool_decide_false by lia. unfold MODBUS_MAX_PDU_SIZE in Hp.
  rewrite u16_id by word_lia. rewrite write_be16_blit by lia.
  rewrite write_be16_seq, write_be16_seq by done. unfold store.
  rewrite blit_seq, blit_seq by done.
  set (hdr := ((_ ++ _) ++ _) ++ _).
  assert (Hh : hdr = [tid / 256; tid mod 256; 0; 0; (2 + blen p) / 256; (2 + blen p) mod 256;
                      uid; fc]).
  { unfold hdr. cbn [app]. rewrite !shiftr_div by lia. repeat f_equal; word_lia. }
  assert (Hb : (o ← blit out 0 hdr; blit o 8 p) =
    Some (modbus_tcp_wire tid uid fc p ++ drop (length (modbus_tcp_wire tid uid fc p)) out)).
  { change 8 with (0 + 8). replace 8 with (blen hdr) by (by rewrite Hh).
    rewrite blit_blit by done. rewrite Hh. apply blit_0.
    change (_ ++ p) with (modbus_tcp_wire tid uid fc p).
    rewrite modbus_tcp_wire_blen. lia. }
  destruct (blit out 0 hdr) as [o|] eqn:Eo; [|done]. msimpl. msimpl in Hb.
  apply blit_blen in Eo. rewrite blit_payload by lia. by rewrite Hb.
Qed.

(** ** RTU: the checksum and the codec *)

Lemma crc16_bits_crc_bit n c :
  0 <= c < 2 ^ 16 → crc16_bits n c = Nat.iter n (crc_bit 40961) c.
Proof.
  revert c. induction n as [|n IH]; intros c Hc; [done|].
  rewrite Nat.iter_succ_r. cbn [crc16_bits].
  assert (Hr : 0 <= crc_bit 40961 c < 2 ^ 16) by (apply (crc_bit_range 16); lia).
  unfold crc_bit in *. destruct (negb _); [|by apply IH].
  rewrite u16_id by word_lia. by apply IH.
Qed.

Lemma modbus_crc16_fold l c :
  0 <= c < 2 ^ 16 → bytes_ok l →
  modbus_rtu_crc16_loop l c = fold_left (crc_byte 40961) l c.
Proof.
  intros Hc Hl. unfold modbus_rtu_crc16_loop. revert c Hc.
  induction Hl as [|b l Hb _ IH]; intros c Hc; [done|]. cbn [fold_left].
  assert (0 <= Z.lxor c b < 2 ^ 16)
    by (apply (lxor_range 16); [lia|done|by apply (byte_range 16)]).
  rewrite crc16_bits_crc_bit by done. apply IH.
  apply (crc_byte_range 16); [lia|lia|done|done].
Qed.

Lemma modbus_crc16_range l : bytes_ok l → is_u16 (modbus_rtu_crc16_loop l 65535).
Proof.
  intros Hl. rewrite modbus_crc16_fold by done.
  pose proof (crc_fold_range 16 40961) as H. specialize (H ltac:(lia) ltac:(lia) l 65535).
  specialize (H ltac:(lia) Hl). word_lia.
Qed.

(** The bytes covered by the checksum, and the whole unit. *)
Definition modbus_rtu_body (addr fc : Z) (p : list Z) : list Z := addr :: fc :: p.

Definition crc16_trailer (crc : Z) : list Z := [crc mod 256; crc / 256].

Definition modbus_rtu_wire (addr fc : Z) (p : list Z) : list Z :=
  let body := modbus_rtu_body addr fc p in
  body ++ crc16_trailer (modbus_rtu_crc16_loop body 65535).

Definition modbus_rtu_view (addr fc : Z) (p : list Z) : modbus_rtu_adu_t :=
  {| address := addr;
     rtu_pdu := {| function_code := fc;
                   pdu_data := if 0 <? blen p then Some 2 else None;
                   data_size := blen p |};
     rtu_crc := modbus_rtu_crc16_loop (modbus_rtu_body addr fc p) 65535;
     rtu_consumed := 4 + blen p |}.

Example modbus_crc16_known : modbus_rtu_crc16_loop [1; 4; 2; 255; 255] 65535 = 32952.
Proof. vm_compute. reflexivity. Qed.

Lemma crc16_trailer_inj a b : crc16_trailer a = crc16_trailer b → a = b.
Proof. unfold crc16_trailer. intros H. injection H as H1 H2. word_lia. Qed.

(** A frame [body ++ [lo; hi]] is accepted exactly when its trailer is the
    checksum of its body. *)
Lemma modbus_rtu_parse_frame addr fc p lo hi old :
  bytes_ok (modbus_rtu_body addr fc p ++ [lo; hi]) → blen p <= MODBUS_MAX_PDU_SIZE - 1 →
  modbus_rtu_parse (Some (modbus_rtu_body addr fc p ++ [lo; hi])) (4 + blen p) (Some old) =
    Some (if bool_decide ([lo; hi] = crc16_trailer
                            (modbus_rtu_crc16_loop (modbus_rtu_body addr fc p) 65535))
          then (MODBUS_PARSE_OK, Some (modbus_rtu_view addr fc p))
          else (MODBUS_PARSE_CRC_MISMATCH, Some old)).
Proof.
  intros Hb Hp. unfold MODBUS_MAX_PDU_SIZE in Hp. pose proof (blen_nonneg p).
  unfold modbus_rtu_parse, MODBUS_RTU_MIN_ADU_SIZE, MODBUS_RTU_MAX_ADU_SIZE.
  rewrite (proj2 (Z.ltb_ge _ 4)), (proj2 (Z.ltb_ge 256 _)) by lia.
  unfold modbus_rtu_crc16. set (body := modbus_rtu_body addr fc p) in *.
  assert (Hbl : blen body = 2 + blen p) by (unfold body, modbus_rtu_body; rewrite !blen_cons; lia).
  replace (4 + blen p - 2) with (blen body) by lia.
  replace (4 + blen p - 1) with (blen body + 1) by lia.
  rewrite slice_0_prefix. msimpl.
  pose proof (load_app_r body [lo; hi] 0) as H0. rewrite Z.add_0_r in H0.
  rewrite H0, load_app_r by lia.
  change (load [lo; hi] 0) with (Some lo). change (load [lo; hi] 1) with (Some hi). msimpl.
  unfold bytes_ok in Hb. rewrite Forall_app, !Forall_cons in Hb.
  destruct Hb as (Hbody & Hlo & Hhi & _).
  pose proof (modbus_crc16_range body Hbody) as Hcr.
  rewrite le16_val by done. set (crc := modbus_rtu_crc16_loop body 65535) in *.
  destruct (Z.eqb_spec crc (hi * 256 + lo)) as [E|E]; cbn [negb].
  - rewrite bool_decide_true; [|unfold crc16_trailer; rewrite E; f_equal; [word_lia|f_equal; word_lia]].
    change (load (body ++ [lo; hi]) 0) with (Some addr).
    change (load (body ++ [lo; hi]) 1) with (Some fc). msimpl.
    rewrite <-E. replace (4 + blen p - 4) with (blen p) by lia. done.
  - rewrite bool_decide_false; [done|]. unfold crc16_trailer. intros [= -> ->].
    apply E. word_lia.
Qed.

Lemma modbus_rtu_body_blen addr fc p : blen (modbus_rtu_body addr fc p) = 2 + blen p.
Proof. unfold modbus_rtu_body. rewrite !blen_cons. lia. Qed.

Lemma modbus_rtu_wire_blen addr fc p : blen (modbus_rtu_wire addr fc p) = 4 + blen p.
Proof.
  unfold modbus_rtu_wire. rewrite blen_app, modbus_rtu_body_blen.
  change (blen (crc16_trailer _)) with 2. lia.
Qed.

(** [modbus_rtu_build] writes exactly the wire format or nothing at all. *)
Lemma modbus_rtu_build_spec addr fc p out out_len :
  is_u8 addr → is_u8 fc → bytes_ok p → out_len <= blen out →
  modbus_rtu_build addr fc (Some p) (blen p) (Some out) out_len =
    Some (if bool_decide (MODBUS_MAX_PDU_SIZE - 1 < blen p ∨ out_len < 4 + blen p)
          then (0, Some out)
          else (4 + blen p, Some (modbus_rtu_wire addr fc p ++
                                  drop (length (modbus_rtu_wire addr fc p)) out))).
Proof.
  intros Ha Hf Hpb Hout.
  unfold modbus_rtu_build, modbus_pdu_size_valid, MODBUS_RTU_MIN_ADU_SIZE.
  pose proof (blen_nonneg p). rewrite andb_false_r.
  destruct (Z.leb_spec (blen p) (MODBUS_MAX_PDU_SIZE - 1)) as [Hp|Hp]; cbn [negb];
    [|by rewrite bool_decide_true by tauto].
  cbv zeta. destruct (Z.ltb_spec out_len (4 + blen p)); [by rewrite bool_decide_true by tauto|].
  rewrite bool_decide_false by lia. unfold store. rewrite blit_seq by done. cbn [app].
  set (body := modbus_rtu_body addr fc p).
  assert (Hbody : bytes_ok body) by (unfold bytes_ok, body, modbus_rtu_body; by rewrite !Forall_cons).
  assert (Hbl : blen body = 2 + blen p) by apply modbus_rtu_body_blen.
  assert (Hb : (o ← blit out 0 [addr; fc]; blit o 2 p) = blit out 0 body)
    by (apply (blit_blit out 0 [addr; fc] p); done).
  pose proof (blit_0 out body) as Hbo.
  pose proof (modbus_crc16_range body Hbody) as Hcr.
  pose proof (blit_seq out 0 (blen body) body [u8 (modbus_rtu_crc16_loop body 65535)]
    (λ o, o ← blit o (blen body + 1) [u8 (Z.shiftr (modbus_rtu_crc16_loop body 65535) 8)];
          Some (4 + blen p, Some o))) as Hs.
  specialize (Hs ltac:(lia) ltac:(lia)). cbv beta in Hs.
  rewrite (blit_seq out 0 (blen body + 1)) in Hs
    by (rewrite ?blen_app; change (blen [u8 _]) with 1; lia).
  destruct (blit out 0 [addr; fc]) as [o|] eqn:Eo;
    [|rewrite blit_0 in Eo; [done|change (blen [addr; fc]) with 2; lia]].
  msimpl. msimpl in Hb. apply blit_blen in Eo. rewrite blit_payload, Hb, Hbo by lia.
  msimpl. unfold modbus_rtu_crc16. replace (4 + blen p - 2) with (blen body) by lia.
  replace (4 + blen p - 1) with (blen body + 1) by lia.
  rewrite slice_0_prefix. msimpl. rewrite Hbo in Hs by lia. msimpl in Hs.
  rewrite Hs, blit_0.
  - msimpl. unfold modbus_rtu_wire. fold body.
    set (crc := modbus_rtu_crc16_loop body 65535) in *.
    replace ((body ++ [u8 crc]) ++ [u8 (Z.shiftr crc 8)]) with (body ++ crc16_trailer crc);
      [done|].
    rewrite <-app_assoc. unfold crc16_trailer. cbn [app].
    rewrite shiftr_div by lia. repeat f_equal; word_lia.
  - rewrite !blen_app. change (blen [u8 _]) with 1. lia.
Qed.

(** ** The stream parser against a queue of unread bytes *)

Definition ms_view (s : modbus_stream_s) : list Z :=
  default [] (slice (ms_buffer s) 0 (ms_buffered s)).

Record ms_inv (s : modbus_stream_s) : Prop := MsInv {
  ms_inv_len : blen (ms_buffer s) = ms_buffer_size s;
  ms_inv_max : ms_buffer_size s <= INT64_MAX;
  ms_inv_bytes : bytes_ok (ms_buffer s);
  ms_inv_fit : 0 <= ms_buffered s <= ms_buffer_size s;
  ms_inv_expected : ms_expected s ≠ 0 →
    ∃ l, 7 <= ms_buffered s ∧ read_be16 (ms_buffer s) 2 = Some 0 ∧
         read_be16 (ms_buffer s) 4 = Some l ∧ 2 <= l <= 254 ∧ ms_expected s = 6 + l
}.

Lemma ms_view_slice s : ms_inv s → slice (ms_buffer s) 0 (ms_buffered s) = Some (ms_view s).
Proof. intros [Hl _ _ Hf _]. unfold ms_view. by rewrite slice_in_bounds by lia. Qed.

Lemma ms_view_blen s : ms_inv s → blen (ms_view s) = ms_buffered s.
Proof. intros H. apply ms_view_slice, slice_blen in H. done. Qed.

Lemma ms_view_unique s q : slice (ms_buffer s) 0 (ms_buffered s) = Some q → ms_view s = q.
Proof. intros H. unfold ms_view. by rewrite H. Qed.

Lemma read_be16_slice b len q i :
  slice b 0 len = Some q → i + 1 < len → read_be16 q i = read_be16 b i.
Proof. intros Hs Hi. unfold read_be16. by rewrite !(load_slice b len q) by (done || lia). Qed.

Lemma read_be16_blit b off s b' i :
  blit b off s = Some b' → i + 1 < off → read_be16 b' i = read_be16 b i.
Proof.
  intros Hb Hi. unfold read_be16. by rewrite !(load_blit_before _ _ _ _ _ Hb) by lia.
Qed.

Lemma modbus_append_ok s chunk :
  ms_inv s → bytes_ok chunk → blen chunk <= INT64_MAX →
  (ms_buffer_size s < blen (ms_view s ++ chunk) ∧
   modbus_stream_append s (Some chunk) (blen chunk) = Some None) ∨
  (blen (ms_view s ++ chunk) <= ms_buffer_size s ∧
   ∃ s', modbus_stream_append s (Some chunk) (blen chunk) = Some (Some s') ∧ ms_inv s' ∧
     ms_view s' = ms_view s ++ chunk ∧ ms_transport s' = ms_transport s ∧
     ms_buffer_size s' = ms_buffer_size s).
Proof.
  intros Hi Hc Hmax. pose proof (ms_view_slice s Hi) as Hv. pose proof (ms_view_blen s Hi) as Hvl.
  destruct (Hi) as [Hl Hm Hb Hf He]. pose proof (blen_nonneg chunk).
  unfold modbus_stream_append. rewrite u64_id by (unfold_words; lia). rewrite blen_app, Hvl.
  destruct (Z.ltb_spec (ms_buffer_size s) (ms_buffered s + blen chunk)); [by left|right].
  split; [done|]. destruct (Z.ltb_spec 0 (blen chunk)) as [Hc0|Hc0]; last first.
  { exists s. destruct chunk; [|unfold blen in Hc0; simpl in Hc0; lia]. by rewrite app_nil_r. }
  rewrite slice_all. msimpl.
  destruct (blit (ms_buffer s) (ms_buffered s) chunk) as [b'|] eqn:Hbl;
    [|rewrite blit_in_bounds in Hbl by lia; done].
  msimpl. eexists. split; [done|]. pose proof (blit_blen _ _ _ _ Hbl).
  split_and!; try done.
  - constructor; simpl; try done; try lia; [exact (blit_bytes _ _ _ _ Hb Hc Hbl)|].
    intros (l & ? & H2 & H4 & ? & ?)%He. exists l.
    rewrite !(read_be16_blit _ _ _ _ _ Hbl) by lia. split_and!; done || lia.
  - apply ms_view_unique. simpl. apply slice_join.
    + by rewrite (slice_blit_before _ _ _ _ _ _ Hbl) by lia.
    + by apply (slice_blit_same _ _ _ _ Hbl).
Qed.

(** A complete unit at the front of the unread bytes. *)
Definition modbus_front (q : list Z) (tid uid fc : Z) (p rest : list Z) : Prop :=
  is_u16 tid ∧ blen p <= MODBUS_MAX_PDU_SIZE - 1 ∧ q = modbus_tcp_wire tid uid fc p ++ rest.

Lemma modbus_front_at s tid uid fc p rest :
  ms_inv s → modbus_front (ms_view s) tid uid fc p rest →
  modbus_tcp_at (ms_buffer s) tid uid fc p ∧ 8 + blen p <= ms_buffered s.
Proof.
  intros Hi (Htid & Hp & Hq). pose proof (ms_view_slice s Hi) as Hv.
  pose proof (ms_view_blen s Hi) as Hl. rewrite Hq, blen_app, modbus_tcp_wire_blen in Hl.
  pose proof (blen_nonneg rest).
  split; [|lia]. split; [done|]. split; [done|].
  rewrite <-(slice_prefix _ _ _ _ Hv) by (rewrite modbus_tcp_wire_blen; lia).
  rewrite Hq. apply slice_0_prefix.
Qed.

Lemma modbus_at_front s tid uid fc p :
  ms_inv s → modbus_tcp_at (ms_buffer s) tid uid fc p → 8 + blen p <= ms_buffered s →
  ∃ rest, modbus_front (ms_view s) tid uid fc p rest.
Proof.
  intros Hi (Htid & Hp & Hs) Hle. pose proof (ms_view_slice s Hi) as Hv.
  rewrite <-(slice_prefix _ _ _ _ Hv) in Hs by (rewrite modbus_tcp_wire_blen; lia).
  eexists. split; [done|]. split; [done|]. by eapply slice_0_take.
Qed.

Lemma modbus_tcp_wire_inj tid uid fc p r tid' uid' fc' p' r' :
  is_u16 tid → is_u16 tid' → blen p <= 252 → blen p' <= 252 →
  modbus_tcp_wire tid uid fc p ++ r = modbus_tcp_wire tid' uid' fc' p' ++ r' →
  tid = tid' ∧ uid = uid' ∧ fc = fc' ∧ p = p' ∧ r = r'.
Proof.
  intros Ht Ht' Hp Hp' H. pose proof (blen_nonneg p). pose proof (blen_nonneg p').
  unfold modbus_tcp_wire in H. simpl in H. injection H as E1 E2 E3 E4 -> -> E5.
  assert (tid = tid') as -> by word_lia. assert (Hl : blen p = blen p') by word_lia.
  apply app_inj_1 in E5 as [-> ->]; [done|]. unfold blen in Hl. lia.
Qed.

Lemma modbus_stream_peek_ok s :
  ms_inv s →
  (∃ r, modbus_stream_peek s = Some (inl r) ∧ r ≠ MODBUS_PARSE_OK ∧
     ∀ tid uid fc p rest, ¬ modbus_front (ms_view s) tid uid fc p rest) ∨
  (∃ s', modbus_stream_peek s = Some (inr s') ∧ ms_inv s' ∧ ms_view s' = ms_view s ∧
     ms_buffer_size s' = ms_buffer_size s ∧ ms_transport s' = ms_transport s ∧
     ms_expected s' ≠ 0).
Proof.
  intros Hi. destruct (Hi) as [Hl Hm Hb Hf He]. unfold modbus_stream_peek.
  destruct (Z.eqb_spec (ms_expected s) 0) as [E0|E0]; [|right; by exists s].
  destruct (modbus_tcp_peek_cases (ms_buffer s) (ms_buffered s) 0 Hb) as (r & n & E & _ & Hiff);
    [lia|]. rewrite E. msimpl.
  assert (Hfr : ∀ tid uid fc p rest, modbus_front (ms_view s) tid uid fc p rest →
    r = MODBUS_PARSE_OK ∧ n = 6 + (2 + blen p) ∧ 8 + blen p <= ms_buffered s).
  { intros ????? [Hat Hle]%modbus_front_at; [|done]. pose proof (blen_nonneg p).
    destruct (modbus_tcp_at_fields _ _ _ _ _ Hat) as (?&_&_&H2&H4&_).
    destruct Hat as (_ & Hp & _). unfold MODBUS_MAX_PDU_SIZE in Hp.
    destruct (proj2 (Hiff (2 + blen p))) as [-> ->]; split_and!; done || lia. }
  case_bool_decide as Hr; msimpl; last first.
  { left. exists r. split_and!; try done. intros ????? [-> _]%Hfr. done. }
  subst r. destruct (Z.ltb_spec (ms_buffer_size s) n).
  { left. eexists. split_and!; try done. intros ????? (_ & -> & ?)%Hfr. lia. }
  destruct (proj1 (Hiff (n - 6))) as (H7 & H2 & H4 & Hn); [split; [done|lia]|].
  right. eexists. split; [done|]. split_and!; try done; [|simpl; lia].
  constructor; simpl; try done. intros _. exists (n - 6). split_and!; done || lia.
Qed.

Lemma modbus_stream_message s :
  ms_inv s → ms_expected s ≠ 0 →
  (ms_buffered s < ms_expected s ∧
   ∀ tid uid fc p rest, ¬ modbus_front (ms_view s) tid uid fc p rest) ∨
  (ms_expected s <= ms_buffered s ∧
   ∃ tid uid fc p rest, modbus_front (ms_view s) tid uid fc p rest ∧
     ms_expected s = 8 + blen p ∧
     ∀ old, modbus_tcp_parse (Some (ms_buffer s)) (ms_expected s) (Some old) =
              Some (MODBUS_PARSE_OK, Some (modbus_tcp_view tid uid fc p))).
Proof.
  intros Hi He0. destruct (Hi) as [Hl Hm Hb Hf He].
  destruct (He He0) as (l & H7 & H2 & H4 & Hl2 & Hexp).
  destruct (decide (ms_buffered s < ms_expected s)) as [Hlt|Hge].
  - left. split; [done|]. intros ????? [Hat Hle]%modbus_front_at; [|done].
    destruct (modbus_tcp_at_fields _ _ _ _ _ Hat) as (?&_&_&_&H4'&_).
    rewrite H4 in H4'. simplify_eq. lia.
  - right. split; [lia|].
    assert (Hparse : ∀ old, ∃ tid uid fc p, modbus_tcp_at (ms_buffer s) tid uid fc p ∧
      ms_expected s = 8 + blen p ∧
      modbus_tcp_parse (Some (ms_buffer s)) (ms_expected s) (Some old) =
        Some (MODBUS_PARSE_OK, Some (modbus_tcp_view tid uid fc p))).
    { intros old.
      destruct (modbus_tcp_parse_cases (ms_buffer s) (ms_expected s) old Hb)
        as (r & m & E & _ & _ & Hbwd); [lia|].
      assert (r = MODBUS_PARSE_OK) as ->.
      { clear Hbwd. revert E. unfold modbus_tcp_parse.
        destruct (modbus_tcp_peek_cases (ms_buffer s) (ms_expected s) 0 Hb)
          as (r' & n & E' & _ & Hiff); [lia|].
        rewrite E'. msimpl.
        destruct (proj2 (Hiff l)) as [-> ->]; [split_and!; done || lia|].
        rewrite bool_decide_true by done. msimpl.
        rewrite (proj2 (Z.ltb_ge _ _)) by lia. rewrite H4. msimpl.
        repeat match goal with
        | |- (?m ≫= _) = _ → _ => destruct m; msimpl; [|done]
        end. congruence. }
      destruct Hbwd as (tid & uid & fc & p & Hat & Hle & ->); [done|].
      exists tid, uid, fc, p. split; [done|]. split; [|done].
      destruct (modbus_tcp_at_fields _ _ _ _ _ Hat) as (?&_&_&_&H4'&_).
      rewrite H4 in H4'. simplify_eq. lia. }
    destruct (Hparse (modbus_tcp_view 0 0 0 [])) as (tid & uid & fc & p & Hat & Hx & _).
    destruct (modbus_at_front s tid uid fc p Hi Hat) as [rest Hfr]; [lia|].
    exists tid, uid, fc, p, rest. split; [done|]. split; [done|]. intros old.
    destruct (modbus_tcp_parse_cases (ms_buffer s) (ms_expected s) old Hb)
      as (r & m & -> & _ & Hfwd & _); [lia|].
    destruct (Hfwd _ _ _ _ Hat) as [-> ->]; [lia|done].
Qed.

(** Feeding a Modbus TCP stream refines appending to a queue of bytes and
    taking one unit off its front. *)
Theorem modbus_stream_feed_refines (s : modbus_stream_s) (chunk : list Z) (old : modbus_adu_t) :
  ms_inv s → ms_transport s ≠ MODBUS_TRANSPORT_RTU → bytes_ok chunk → blen chunk <= INT64_MAX →
  ∃ r s' m,
    modbus_stream_feed (Some s) (Some chunk) (blen chunk) (Some old) = Some (r, Some s', Some m) ∧
    ms_inv s' ∧ ms_transport s' = ms_transport s ∧ ms_buffer_size s' = ms_buffer_size s ∧
    (r ≠ MODBUS_PARSE_OK → m = old) ∧
    let q := ms_view s ++ chunk in
    if bool_decide (blen q <= ms_buffer_size s) then
      (∀ tid uid fc p rest, modbus_front q tid uid fc p rest →
         r = MODBUS_PARSE_OK ∧
         m = ModbusAdu MODBUS_TRANSPORT_TCP (frame_tcp (modbus_tcp_view tid uid fc p)) ∧
         ms_view s' = rest ∧
         (rest = [] → slice (ms_buffer s') 8 (blen p) = Some p)) ∧
      (r = MODBUS_PARSE_OK → ∃ tid uid fc p rest, modbus_front q tid uid fc p rest) ∧
      (r ≠ MODBUS_PARSE_OK → ms_view s' = q)
    else r = MODBUS_PARSE_BUFFER_OVERFLOW ∧ ms_view s' = ms_view s.
Proof.
  intros Hi Htr Hc Hmax. unfold modbus_stream_feed. rewrite bool_decide_false, andb_false_r by done.
  destruct (modbus_append_ok s chunk Hi Hc Hmax)
    as [(Hbig & ->) | (Hfit & s1 & -> & Hi1 & Hv1 & Ht1 & Hz1)]; msimpl.
  { eexists _, s, old. rewrite bool_decide_false by lia. split_and!; done. }
  rewrite bool_decide_true by done. rewrite <-Hv1, <-Hz1, <-Ht1.
  rewrite (proj2 (Z.eqb_neq _ _)) by congruence. unfold modbus_stream_feed_tcp.
  destruct (modbus_stream_peek_ok s1 Hi1)
    as [(r & -> & Hr & Hno) | (s2 & -> & Hi2 & Hv2 & Hz2 & Ht2 & He2)]; msimpl.
  { eexists r, s1, old. split_and!; try done. intros ????? Hfr. by apply Hno in Hfr. }
  rewrite <-Hv2, <-Hz2, <-Ht2.
  destruct (modbus_stream_message s2 Hi2 He2)
    as [(Hlt & Hno) | (Hge & tid & uid & fc & p & rest & Hfr & Hexp & Hparse)].
  { rewrite (proj2 (Z.ltb_lt _ _) Hlt). eexists _, s2, old. split_and!; try done.
    intros ????? Hfr. by apply Hno in Hfr. }
  rewrite (proj2 (Z.ltb_ge _ _) Hge), Hparse. msimpl.
  destruct (Hi2) as [Hl Hm Hb Hf _]. pose proof (ms_view_slice s2 Hi2) as Hv.
  pose proof (ms_view_blen s2 Hi2) as Hvl. destruct (Hfr) as (Htid & Hp & Hq).
  pose proof (blen_nonneg p). pose proof (blen_nonneg rest).
  rewrite Hq, blen_app, modbus_tcp_wire_blen in Hvl. rewrite Hq in Hv.
  assert (Hrest : slice (ms_buffer s2) (ms_expected s2) (ms_buffered s2 - ms_expected s2) = Some rest).
  { replace (ms_buffered s2) with (ms_expected s2 + (ms_buffered s2 - ms_expected s2)) in Hv by lia.
    apply slice_split in Hv as (w & t & Heq & Hs1 & Hs2); [|lia..].
    apply slice_blen in Hs1. rewrite Z.add_0_l in Hs2.
    apply app_inj_1 in Heq as [_ ->]; [done|].
    pose proof (modbus_tcp_wire_blen tid uid fc p). unfold blen in *. lia. }
  destruct (compact_spec _ _ _ _ Hrest) as (b' & -> & Hbl & Hbb & Hsl & Hsame). msimpl.
  eexists _, _, _. split; [done|].
  split; [constructor; simpl; try done; [lia|by apply Hbb|lia]|]. do 3 (split; [done|]).
  split; [|split; [intros _; by exists tid, uid, fc, p, rest|done]].
  intros tid' uid' fc' p' rest' (Htid' & Hp' & Hq').
  unfold MODBUS_MAX_PDU_SIZE in *. rewrite Hq in Hq'.
  apply modbus_tcp_wire_inj in Hq' as (<- & <- & <- & <- & <-); [|done || lia..].
  split_and!; [done|done|by apply ms_view_unique|].
  intros Hnil. simpl. rewrite (Hsame Hnil).
  destruct (modbus_front_at _ _ _ _ _ _ Hi2 Hfr) as [Hat _].
  by destruct (modbus_tcp_at_fields _ _ _ _ _ Hat) as (?&_&_&_&_&_&_&?).
Qed.

(** ** Properties *)

(** [modbus_tcp_parse] stays inside the buffer and accepts exactly the
    buffers that start with a Modbus TCP unit (protocol 0, length 2 to 254)
    that is completely received; it returns that unit's fields, and on every
    other status the output is untouched. *)
Theorem modbus_tcp_parse_exact (d : list Z) (old : modbus_tcp_adu_t) :
  bytes_ok d →
  ∃ r m, modbus_tcp_parse (Some d) (blen d) (Some old) = Some (r, Some m) ∧
    (r ≠ MODBUS_PARSE_OK → m = old) ∧
    (r = MODBUS_PARSE_OK ↔ ∃ tid uid fc p rest, modbus_front d tid uid fc p rest) ∧
    ∀ tid uid fc p rest, modbus_front d tid uid fc p rest → m = modbus_tcp_view tid uid fc p.
Proof.
  intros Hd. pose proof (blen_nonneg d).
  destruct (modbus_tcp_parse_cases d (blen d) old Hd) as (r & m & E & Hold & Hfwd & Hbwd); [lia|].
  assert (Hf : ∀ tid uid fc p rest, modbus_front d tid uid fc p rest →
    r = MODBUS_PARSE_OK ∧ m = modbus_tcp_view tid uid fc p).
  { intros tid uid fc p rest (Ht & Hp & ->). pose proof (blen_nonneg rest). apply Hfwd.
    - split; [done|]. split; [done|]. apply slice_0_prefix.
    - rewrite blen_app, modbus_tcp_wire_blen. lia. }
  exists r, m. split_and!; [done|done| |].
  - split; [|intros (?&?&?&?&?&?%Hf); tauto].
    intros (tid & uid & fc & p & (Ht & Hp & Hs) & Hle & _)%Hbwd.
    exists tid, uid, fc, p. eexists. split; [done|]. split; [done|]. by eapply slice_0_take.
  - intros ????? ?%Hf. tauto.
Qed.

Lemma modbus_tcp_parse_exact_witness :
  ∃ m, modbus_tcp_parse (Some [0; 7; 0; 0; 0; 3; 1; 6; 42; 99]) 10
         (Some (modbus_tcp_view 0 0 0 [])) = Some (MODBUS_PARSE_OK, Some m).
Proof.
  destruct (modbus_tcp_parse_exact [0; 7; 0; 0; 0; 3; 1; 6; 42; 99] (modbus_tcp_view 0 0 0 []))
    as (r & m & E & _ & [_ Hr] & _); [by_eval|].
  exists m. rewrite Hr in E; [exact E|].
  exists 7, 1, 6, [42], [99]. split; [vm_compute; split; discriminate|].
  split; [vm_compute; discriminate|reflexivity].
Defined.

(** A Modbus TCP unit that [modbus_tcp_build] writes is read back by
    [modbus_tcp_parse] with the same fields and payload; a payload over 252
    bytes or a short output buffer is refused and nothing is written. *)
Theorem modbus_tcp_roundtrip (tid uid fc : Z) (p out : list Z) (out_len : Z) (old : modbus_tcp_adu_t) :
  is_u16 tid → is_u8 uid → is_u8 fc → bytes_ok p → bytes_ok out → out_len <= blen out →
  (252 < blen p ∨ out_len < 8 + blen p →
   modbus_tcp_build tid uid fc (Some p) (blen p) (Some out) out_len = Some (0, Some out)) ∧
  (blen p <= 252 → 8 + blen p <= out_len →
   ∃ out', modbus_tcp_build tid uid fc (Some p) (blen p) (Some out) out_len =
             Some (8 + blen p, Some out') ∧
     modbus_tcp_parse (Some out') (8 + blen p) (Some old) =
       Some (MODBUS_PARSE_OK, Some (modbus_tcp_view tid uid fc p)) ∧
     slice out' 8 (blen p) = Some p).
Proof.
  intros Ht Hu Hfc Hp Hout Hlen. rewrite (modbus_tcp_build_spec _ _ _ _ _ _ Ht Hlen).
  pose proof (blen_nonneg p). change (MODBUS_MAX_PDU_SIZE - 1) with 252.
  split; [intros; by rewrite bool_decide_true|].
  intros Hmax Hfit. rewrite bool_decide_false by lia. eexists. split; [done|].
  set (out' := _ ++ _).
  assert (Hat : modbus_tcp_at out' tid uid fc p)
    by (split; [done|]; split; [done|]; apply slice_0_prefix).
  assert (Hb : bytes_ok out').
  { unfold bytes_ok, out', modbus_tcp_wire. rewrite !Forall_app, !Forall_cons, Forall_nil.
    split_and!; try done; try word_lia. by apply Forall_drop. }
  assert (blen out' = blen out)
    by (eapply blit_blen, blit_0; rewrite modbus_tcp_wire_blen; lia).
  split.
  - destruct (modbus_tcp_parse_cases out' (8 + blen p) old Hb) as (r & m & -> & _ & Hf & _); [lia|].
    by destruct (Hf _ _ _ _ Hat) as [-> ->].
  - by destruct (modbus_tcp_at_fields _ _ _ _ _ Hat) as (?&_&_&_&_&_&_&?).
Qed.

Lemma modbus_tcp_roundtrip_witness :
  ∃ out', modbus_tcp_build 7 1 6 (Some [42; 43]) 2 (Some (zeros 12)) 12 = Some (10, Some out') ∧
    slice out' 8 2 = Some [42; 43].
Proof.
  destruct (modbus_tcp_roundtrip 7 1 6 [42; 43] (zeros 12) 12 (modbus_tcp_view 0 0 0 []))
    as [_ H]; [vm_compute; split; discriminate..|by_eval|by_eval|vm_compute; discriminate|].
  destruct H as (out' & E & _ & Hs); [vm_compute; discriminate..|].
  exists out'. split; [exact E|exact Hs].
Defined.

(** A Modbus RTU frame that [modbus_rtu_build] writes, checksum included,
    is accepted by [modbus_rtu_parse] with the same fields and payload; a
    payload over 252 bytes or a short output buffer is refused and nothing is
    written. *)
Theorem modbus_rtu_roundtrip (addr fc : Z) (p out : list Z) (out_len : Z) (old : modbus_rtu_adu_t) :
  is_u8 addr → is_u8 fc → bytes_ok p → out_len <= blen out →
  (252 < blen p ∨ out_len < 4 + blen p →
   modbus_rtu_build addr fc (Some p) (blen p) (Some out) out_len = Some (0, Some out)) ∧
  (blen p <= 252 → 4 + blen p <= out_len →
   ∃ out' fr, modbus_rtu_build addr fc (Some p) (blen p) (Some out) out_len =
                Some (4 + blen p, Some out') ∧
     slice out' 0 (4 + blen p) = Some fr ∧
     modbus_rtu_parse (Some fr) (4 + blen p) (Some old) =
       Some (MODBUS_PARSE_OK, Some (modbus_rtu_view addr fc p)) ∧
     slice fr 2 (blen p) = Some p).
Proof.
  intros Ha Hf Hp Hlen. rewrite (modbus_rtu_build_spec _ _ _ _ _ Ha Hf Hp Hlen).
  pose proof (blen_nonneg p). change (MODBUS_MAX_PDU_SIZE - 1) with 252.
  split; [intros; by rewrite bool_decide_true|].
  intros Hmax Hfit. rewrite bool_decide_false by lia.
  eexists _, (modbus_rtu_wire addr fc p). split; [done|].
  rewrite <-modbus_rtu_wire_blen with (addr := addr) (fc := fc).
  split; [apply slice_0_prefix|]. rewrite modbus_rtu_wire_blen.
  set (body := modbus_rtu_body addr fc p).
  assert (Hb : bytes_ok body) by (unfold bytes_ok, body, modbus_rtu_body; by rewrite !Forall_cons).
  pose proof (modbus_crc16_range body Hb) as Hcr. split.
  - unfold modbus_rtu_wire, crc16_trailer. rewrite modbus_rtu_parse_frame; [|fold body|done].
    + by rewrite bool_decide_true.
    + unfold bytes_ok. rewrite Forall_app, !Forall_cons. split_and!; done || word_lia.
  - apply (slice_app [addr; fc] p); done.
Qed.

Lemma modbus_rtu_roundtrip_witness :
  ∃ out' fr, modbus_rtu_build 17 3 (Some [0; 107]) 2 (Some (zeros 8)) 8 = Some (6, Some out') ∧
    slice out' 0 6 = Some fr.
Proof.
  destruct (modbus_rtu_roundtrip 17 3 [0; 107] (zeros 8) 8 (modbus_rtu_view 0 0 []))
    as [_ H]; [vm_compute; split; discriminate..|by_eval|vm_compute; discriminate|].
  destruct H as (out' & fr & E & Hs & _); [vm_compute; discriminate..|].
  exists out', fr. split; [exact E|exact Hs].
Defined.

Lemma modbus_crc16_changed body i x b :
  bytes_ok body → is_u8 b → body !! i = Some x → x ≠ b →
  modbus_rtu_crc16_loop (<[i:=b]> body) 65535 ≠ modbus_rtu_crc16_loop body 65535.
Proof.
  intros Hb Hb8 Hi Hne Heq. apply Hne.
  pose proof (lookup_lt_Some _ _ _ Hi) as Hlt.
  assert (H1 : bytes_ok (take i body)) by by apply Forall_take.
  assert (H2 : bytes_ok (drop (S i) body)) by by apply Forall_drop.
  assert (Hx : is_u8 x) by by apply (Forall_lookup_1 _ _ _ _ Hb Hi).
  rewrite insert_take_drop in Heq by done.
  replace body with (take i body ++ x :: drop (S i) body) in Heq at 3
    by by apply take_drop_middle.
  assert (Hok : ∀ y, is_u8 y → bytes_ok (take i body ++ y :: drop (S i) body))
    by (intros; unfold bytes_ok; by rewrite Forall_app, Forall_cons).
  rewrite !modbus_crc16_fold in Heq by (lia || by apply Hok).
  symmetry in Heq. apply (crc_single_byte 16 40961) in Heq; try done; lia.
Qed.

Lemma crc16_trailer_changed crc k b :
  (k < 2)%nat → crc16_trailer crc !! k ≠ Some b →
  ∃ lo hi, <[k:=b]> (crc16_trailer crc) = [lo; hi] ∧ [lo; hi] ≠ crc16_trailer crc.
Proof.
  intros Hk Hne. unfold crc16_trailer in *.
  destruct k as [|[|k]]; [..|lia]; simpl in *; (eexists _, _; split; [done|]);
    intros [= E]; by rewrite E in Hne.
Qed.

(** C39. Every corruption of a single byte of a Modbus RTU frame, in the
    address, the function code, the payload or the checksum itself, is
    reported as [MODBUS_PARSE_CRC_MISMATCH] and leaves the output untouched. *)
Theorem modbus_rtu_detects_corruption (addr fc : Z) (p : list Z) (i : nat) (b : Z)
    (old : modbus_rtu_adu_t) :
  is_u8 addr → is_u8 fc → bytes_ok p → blen p <= 252 → is_u8 b →
  (i < length (modbus_rtu_wire addr fc p))%nat → modbus_rtu_wire addr fc p !! i ≠ Some b →
  modbus_rtu_parse (Some (<[i:=b]> (modbus_rtu_wire addr fc p))) (4 + blen p) (Some old) =
    Some (MODBUS_PARSE_CRC_MISMATCH, Some old).
Proof.
  intros Ha Hf Hp Hmax Hb Hi Hne. unfold modbus_rtu_wire in *.
  set (body := modbus_rtu_body addr fc p) in *. cbv zeta in *.
  assert (Hbody : bytes_ok body)
    by (unfold bytes_ok, body, modbus_rtu_body; by rewrite !Forall_cons).
  pose proof (modbus_crc16_range body Hbody) as Hcr.
  set (crc := modbus_rtu_crc16_loop body 65535) in *.
  assert (Htr : bytes_ok (crc16_trailer crc))
    by (unfold bytes_ok, crc16_trailer; rewrite !Forall_cons, Forall_nil; word_lia).
  destruct (decide (i < length body)%nat) as [Hlt|Hge].
  - rewrite insert_app_l by done. rewrite lookup_app_l in Hne by done.
    destruct (lookup_lt_is_Some_2 _ _ Hlt) as [x Hx].
    assert (Hch := modbus_crc16_changed body i x b Hbody Hb Hx ltac:(congruence)).
    assert (Hbody' : bytes_ok (<[i:=b]> body)) by by apply Forall_insert.
    assert (∃ addr' fc' p', <[i:=b]> body = modbus_rtu_body addr' fc' p' ∧ blen p' = blen p)
      as (addr' & fc' & p' & Hb' & Hl').
    { unfold body, modbus_rtu_body. destruct i as [|[|i]]; simpl;
        eexists _, _, _; split; try done. unfold blen. by rewrite length_insert. }
    rewrite Hb' in *. rewrite <-Hl'. unfold crc16_trailer at 1.
    rewrite modbus_rtu_parse_frame; [|by apply Forall_app_2|unfold MODBUS_MAX_PDU_SIZE; lia].
    rewrite bool_decide_false; [done|]. intros Heq%crc16_trailer_inj. apply Hch. symmetry. exact Heq.
  - rewrite length_app in Hi. change (length (crc16_trailer crc)) with 2%nat in Hi.
    rewrite insert_app_r_alt by lia. rewrite lookup_app_r in Hne by lia.
    destruct (crc16_trailer_changed crc (i - length body) b) as (lo & hi & Hlh & Hneq);
      [lia|done|].
    assert (Hok : bytes_ok (<[(i - length body)%nat:=b]> (crc16_trailer crc)))
      by by apply Forall_insert.
    rewrite Hlh in *.
    unfold body. rewrite modbus_rtu_parse_frame; [|by apply Forall_app_2|done].
    by rewrite bool_decide_false.
Qed.

Lemma modbus_rtu_detects_corruption_witness :
  modbus_rtu_parse (Some (<[3%nat:=9]> (modbus_rtu_wire 17 3 [0; 107]))) 6
    (Some (modbus_rtu_view 0 0 [])) =
    Some (MODBUS_PARSE_CRC_MISMATCH, Some (modbus_rtu_view 0 0 [])).
Proof.
  apply (modbus_rtu_detects_corruption 17 3 [0; 107] 3 9);
    [vm_compute; split; discriminate..|by_eval|vm_compute; discriminate|
     vm_compute; split; discriminate|vm_compute; lia|vm_compute; discriminate].
Defined.

Lemma modbus_stream_create_inv tr n junk :
  0 <= n <= INT64_MAX → bytes_ok junk →
  blen junk = (if n =? 0 then MODBUS_TCP_MAX_ADU_SIZE else n) →
  ms_inv (modbus_stream_create tr n junk).
Proof.
  intros Hn Hj Hl. unfold MODBUS_TCP_MAX_ADU_SIZE in *.
  constructor; simpl; try done; unfold MODBUS_TCP_MAX_ADU_SIZE;
    destruct (Z.eqb_spec n 0); word_lia.
Qed.

Lemma modbus_stream_feed_refines_witness :
  ∃ r s' m, modbus_stream_feed (Some (modbus_stream_create 0 16 (zeros 16)))
    (Some [0; 7; 0; 0; 0; 3; 1; 6; 42]) 9
    (Some (ModbusAdu 0 (frame_tcp (modbus_tcp_view 0 0 0 [])))) = Some (r, Some s', Some m).
Proof.
  destruct (modbus_stream_feed_refines (modbus_stream_create 0 16 (zeros 16))
    [0; 7; 0; 0; 0; 3; 1; 6; 42] (ModbusAdu 0 (frame_tcp (modbus_tcp_view 0 0 0 []))))
    as (r & s' & m & E & _).
  - apply modbus_stream_create_inv; [vm_compute; split; discriminate|by_eval|reflexivity].
  - discriminate.
  - by_eval.
  - vm_compute; discriminate.
  - exists r, s', m. exact E.
Defined.

(** The view that [modbus_stream_feed] returns is overwritten before the call
    returns when another unit is already buffered: two pipelined units are fed
    at once, the first is reported with its payload at offset 8, and the buffer
    holds the second unit's payload there. *)
Theorem modbus_stream_view_clobbered :
  let one := modbus_tcp_wire 1 1 6 [170; 187] in
  let two := modbus_tcp_wire 2 1 3 [204; 221] in
  ∃ s' pdu, modbus_stream_feed (Some (modbus_stream_create 0 0 (zeros 260)))
      (Some (one ++ two)) 20 (Some (ModbusAdu 0 (frame_tcp (modbus_tcp_view 0 0 0 [])))) =
    Some (MODBUS_PARSE_OK, Some s',
          Some (ModbusAdu 0 (frame_tcp (modbus_tcp_view 1 1 6 [170; 187])))) ∧
  pdu_data (tcp_pdu (modbus_tcp_view 1 1 6 [170; 187])) = Some 8 ∧
  slice (ms_buffer s') 8 2 = Some pdu ∧ pdu = [204; 221].
Proof. eexists _, _. split; [vm_compute; reflexivity|]. vm_compute. done. Qed.
