(* ===== verification/World.v ===== *)
(** * The world of allocating code

    A state monad over the answers of [malloc], the number of blocks that are
    allocated and the number of objects that are alive. Code that allocates
    and frees runs in it; a computation that would run into undefined
    behaviour has no result. *)

From S2P Require Import Prelude.
Local Open Scope Z_scope.

(** The answers the next calls of [malloc] give (none left: [NULL]), the
    number of blocks that are allocated and of objects that are alive. *)
Record world := MkWorld {
  w_malloc : list (option Z);
  w_blocks : Z;
  w_objects : Z
}.

(** Computations over the world; [None] is undefined behaviour. *)
Definition M (A : Type) : Type := world → option (A * world).

#[export] Instance M_ret : MRet M := λ A x w, Some (x, w).
#[export] Instance M_bind : MBind M := λ A B f m w,
  match m w with None => None | Some (x, w') => f x w' end.

Definition lift {A} (o : option A) : M A := λ w, match o with None => None | Some x => Some (x, w) end.

Definition malloc : M (option Z) := λ w,
  match w_malloc w with
  | [] => Some (None, w)
  | None :: l => Some (None, MkWorld l (w_blocks w) (w_objects w))
  | Some p :: l => Some (Some p, MkWorld l (w_blocks w + 1) (w_objects w))
  end.

Definition mfree : M unit := λ w, Some (tt, MkWorld (w_malloc w) (w_blocks w - 1) (w_objects w)).

(** [realloc]: the block moves, or stays where it was when there is no
    memory. *)
Definition realloc (block : option Z) : M (option Z) :=
  p ← malloc;
  if is_null p then mret None else
  _ ← (if is_null block then mret tt else mfree);
  mret p.

(** An object is constructed ([1]) or destroyed ([-1]). *)
Definition count_object (d : Z) : M unit := λ w,
  Some (tt, MkWorld (w_malloc w) (w_blocks w) (w_objects w + d)).

(** Running a sequence of steps. *)
Lemma run_bind {A B} (m : M A) (f : A → M B) w x w' : m w = Some (x, w') → (m ≫= f) w = f x w'.
Proof. intros H. unfold mbind, M_bind. by rewrite H. Qed.
Lemma run_ret {A} (x : A) w : mret (M := M) x w = Some (x, w).
Proof. done. Qed.
Lemma run_lift {A} (x : A) w : lift (Some x) w = Some (x, w).
Proof. done. Qed.
Lemma run_ret_bind {A B} (x : A) (f : A → M B) w : (mret x ≫= f) w = f x w.
Proof. done. Qed.
Lemma run_lift_bind {A B} (x : A) (f : A → M B) w : (lift (Some x) ≫= f) w = f x w.
Proof. done. Qed.
Lemma run_count_bind {B} d (f : unit → M B) w :
  (count_object d ≫= f) w = f tt (MkWorld (w_malloc w) (w_blocks w) (w_objects w + d)).
Proof. done. Qed.
Create Rewrite HintDb mrun.
#[export] Hint Rewrite @run_ret @run_lift @run_ret_bind @run_lift_bind @run_count_bind : mrun.

(** [wrun]: run the steps whose results are known; [wstep E]: run the step
    that the equation [E] describes. *)
Ltac wrun := repeat (autorewrite with mrun; cbn beta iota).
Ltac wstep E := erewrite (run_bind _ _ _ _ _ E); cbn beta iota.

(** The next [k] calls of [malloc] succeed. *)
Definition supply (k : nat) (w : world) : Prop :=
  (k <= length (w_malloc w))%nat ∧ Forall is_Some (take k (w_malloc w)).

Lemma supply_weaken k j w : (j <= k)%nat → supply k w → supply j w.
Proof.
  intros Hjk [Hl Hs]. split; [lia|]. replace (take j (w_malloc w)) with (take j (take k (w_malloc w))).
  - by apply Forall_take.
  - rewrite take_take. f_equal. lia.
Qed.
Lemma supply_malloc k w w' : w_malloc w = w_malloc w' → supply k w → supply k w'.
Proof. unfold supply. by intros ->. Qed.

(** One call of [malloc]. *)
Lemma malloc_ok w :
  ∃ r w', malloc w = Some (r, w') ∧ w_blocks w' = w_blocks w + (if is_null r then 0 else 1) ∧
    w_objects w' = w_objects w ∧ ∀ j, supply (1 + j) w → is_null r = false ∧ supply j w'.
Proof.
  unfold malloc, supply. destruct (w_malloc w) as [|[p|] m] eqn:Hm; cbn.
  - exists None, w. split; [done|]. split; [cbn; lia|]. split; [done|]. rewrite Hm. cbn. lia.
  - eexists _, _. split; [done|]. split; [done|]. split; [done|].
    cbn. intros j [Hj [_ Hs]%Forall_cons]. split; [done|]. split; [lia|done].
  - eexists None, _. split; [done|]. split; [cbn; lia|]. split; [done|].
    cbn. intros j [Hj [[] _]%Forall_cons]. done.
Qed.
