(* ===== verification/TypeIdentity.v ===== *)
(** * Type identities and type equality ([cmeta/src/type_identity.c],
    [cmeta/src/cmeta.c])

    A type descriptor carries a tree that says what the type is: an atom with
    a stable name, a pointer, a const, or a generic constructor applied to
    arguments. The tree is compared node by node, with a shortcut when two
    pointers are the same. Nodes therefore carry their address; [stored] says
    that an address determines the node it points to. The comparison decides
    equality of the names the trees spell. *)

From Stdlib Require Import String.
From stdpp Require Import strings.
From S2P Require Import Prelude.
Local Open Scope Z_scope.

(** ** Identities *)

Inductive cmeta_type_form :=
  | CMETA_TYPE_ATOM
  | CMETA_TYPE_POINTER
  | CMETA_TYPE_CONST
  | CMETA_TYPE_APPLY
  | CMETA_TYPE_FORM_OTHER (value : Z).

#[export] Instance cmeta_type_form_eq_dec : EqDecision cmeta_type_form.
Proof. solve_decision. Defined.

Inductive cmeta_generic_category :=
  | CMETA_GENERIC_VALUE
  | CMETA_GENERIC_CONTAINER
  | CMETA_GENERIC_HANDLE
  | CMETA_GENERIC_OTHER (value : Z).

(** [gd_addr] is where the descriptor lies; a null string is [None]. *)
Record cmeta_generic_desc := MkGenericDesc {
  gd_addr : Z;
  stable_id : option string;
  display_name : option string;
  min_arity : Z;
  max_arity : Z;
  category : cmeta_generic_category
}.

(** A node at [ti_addr]; null pointers are [None]. [ti_args] points to an
    array of [ti_arity] pointers. *)
Inductive cmeta_type_identity := MkIdentity {
  ti_addr : Z;
  ti_form : cmeta_type_form;
  ti_stable_atom_id : option string;
  ti_constructor : option cmeta_generic_desc;
  ti_base : option cmeta_type_identity;
  ti_args : option (list (option cmeta_type_identity));
  ti_arity : Z
}.

Definition cmeta_nonempty (s : option string) : bool :=
  match s with None => false | Some s => negb (String.eqb s "") end.

Definition cmeta_generic_category_valid (c : cmeta_generic_category) : bool :=
  match c with
  | CMETA_GENERIC_VALUE | CMETA_GENERIC_CONTAINER | CMETA_GENERIC_HANDLE => true
  | CMETA_GENERIC_OTHER _ => false
  end.

Definition cmeta_generic_desc_valid (desc : option cmeta_generic_desc) : bool :=
  match desc with
  | None => false
  | Some d =>
      cmeta_nonempty (stable_id d) && cmeta_nonempty (display_name d) &&
      (min_arity d <=? max_arity d) && cmeta_generic_category_valid (category d)
  end.

Definition cmeta_generic_accepts_arity (desc : option cmeta_generic_desc) (arity : Z) : bool :=
  match desc with
  | None => false
  | Some d => cmeta_generic_desc_valid desc && (min_arity d <=? arity) && (arity <=? max_arity d)
  end.

(** The loop over the first [n] arguments, each of which [ok] has to accept. *)
Definition args_all (ok : cmeta_type_identity → bool) :=
  fix go (n : nat) (l : list (option cmeta_type_identity)) {struct l} : bool :=
    match l, n with
    | _, O => true
    | Some x :: l, S n => ok x && go n l
    | _, S _ => false
    end.

(** The body of [cmeta_type_application_valid], which calls back. *)
Definition application_valid_with (ok : cmeta_type_identity → bool)
    (constructor : option cmeta_generic_desc) (args : option (list (option cmeta_type_identity)))
    (arity : Z) : bool :=
  if negb (cmeta_generic_accepts_arity constructor arity) then false else
  match args with
  | None => arity =? 0
  | Some l => args_all ok (Z.to_nat arity) l
  end.

Fixpoint identity_valid (i : cmeta_type_identity) : bool :=
  match ti_form i with
  | CMETA_TYPE_ATOM =>
      cmeta_nonempty (ti_stable_atom_id i) && is_null (ti_constructor i) && is_null (ti_base i) &&
      is_null (ti_args i) && (ti_arity i =? 0)
  | CMETA_TYPE_POINTER | CMETA_TYPE_CONST =>
      is_null (ti_stable_atom_id i) && is_null (ti_constructor i) &&
      match ti_base i with
      | None => false
      | Some b => is_null (ti_args i) && (ti_arity i =? 0) && identity_valid b
      end
  | CMETA_TYPE_APPLY =>
      is_null (ti_stable_atom_id i) && is_null (ti_base i) &&
      application_valid_with identity_valid (ti_constructor i) (ti_args i) (ti_arity i)
  | CMETA_TYPE_FORM_OTHER _ => false
  end.

Definition cmeta_type_identity_valid (identity : option cmeta_type_identity) : bool :=
  match identity with None => false | Some i => identity_valid i end.

Definition cmeta_type_application_valid (constructor : option cmeta_generic_desc)
    (args : option (list (option cmeta_type_identity))) (arity : Z) : bool :=
  application_valid_with (λ i, cmeta_type_identity_valid (Some i)) constructor args arity.

Definition cmeta_generic_desc_equal (a b : option cmeta_generic_desc) : bool :=
  match a, b with
  | Some a, Some b =>
      if gd_addr a =? gd_addr b then true else
      cmeta_nonempty (stable_id a) && cmeta_nonempty (stable_id b) &&
      match stable_id a, stable_id b with Some s, Some t => String.eqb s t | _, _ => false end
  | _, _ => false
  end.

(** The loop that compares the first [n] arguments; two null arguments are
    not equal. *)
Definition args_equal (eq : cmeta_type_identity → cmeta_type_identity → bool) :=
  fix go (n : nat) (l k : list (option cmeta_type_identity)) {struct l} : bool :=
    match l, k, n with
    | _, _, O => true
    | Some x :: l, Some y :: k, S n => eq x y && go n l k
    | _, _, S _ => false
    end.

Fixpoint identity_equal (a b : cmeta_type_identity) {struct a} : bool :=
  if ti_addr a =? ti_addr b then true else
  if negb (bool_decide (ti_form a = ti_form b)) then false else
  match ti_form a with
  | CMETA_TYPE_ATOM =>
      cmeta_nonempty (ti_stable_atom_id a) && cmeta_nonempty (ti_stable_atom_id b) &&
      match ti_stable_atom_id a, ti_stable_atom_id b with
      | Some s, Some t => String.eqb s t
      | _, _ => false
      end
  | CMETA_TYPE_POINTER | CMETA_TYPE_CONST =>
      match ti_base a, ti_base b with
      | Some x, Some y => identity_equal x y
      | _, _ => false
      end
  | CMETA_TYPE_APPLY =>
      if negb (cmeta_generic_desc_equal (ti_constructor a) (ti_constructor b)) ||
         negb (ti_arity a =? ti_arity b) then false else
      match ti_args a, ti_args b with
      | Some l, Some k => args_equal identity_equal (Z.to_nat (ti_arity a)) l k
      | _, _ => ti_arity a =? 0
      end
  | CMETA_TYPE_FORM_OTHER _ => false
  end.

Definition cmeta_type_identity_equal (a b : option cmeta_type_identity) : bool :=
  match a, b with Some a, Some b => identity_equal a b | _, _ => false end.

Definition cmeta_type_identity_is_application (identity : option cmeta_type_identity) : bool :=
  match identity with None => false | Some i => bool_decide (ti_form i = CMETA_TYPE_APPLY) end.

Definition cmeta_type_identity_constructor (identity : option cmeta_type_identity) :
    option cmeta_generic_desc :=
  if cmeta_type_identity_is_application identity then identity ≫= ti_constructor else None.

Definition cmeta_type_identity_arity (identity : option cmeta_type_identity) : Z :=
  match identity with
  | Some i => if cmeta_type_identity_is_application identity then ti_arity i else 0
  | None => 0
  end.

Definition cmeta_type_identity_argument (identity : option cmeta_type_identity) (index : Z) :
    option cmeta_type_identity :=
  match identity with
  | Some i =>
      if negb (cmeta_type_identity_is_application identity) || is_null (ti_args i) ||
         (ti_arity i <=? index) then None
      else l ← ti_args i; x ← aget l index; x
  | None => None
  end.

(** ** Descriptors *)

Inductive cmeta_type_kind :=
  | CMETA_T_VOID
  | CMETA_T_BOOL
  | CMETA_T_INTEGER
  | CMETA_T_FLOAT
  | CMETA_T_POINTER
  | CMETA_T_OBJECT.

#[export] Instance cmeta_type_kind_eq_dec : EqDecision cmeta_type_kind.
Proof. solve_decision. Defined.

(** The fields that identify a type, and the flags of the traits it points to
    ([None]: no traits). *)
Inductive cmeta_type_desc := MkTypeDesc {
  td_addr : Z;
  td_name : option string;
  td_size : Z;
  td_align : Z;
  td_kind : cmeta_type_kind;
  td_pointee : option cmeta_type_desc;
  td_identity : option cmeta_type_identity;
  td_flags : option Z
}.

Definition cmeta_type_identity_of (desc : option cmeta_type_desc) : option cmeta_type_identity :=
  desc ≫= td_identity.

Definition cmeta_type_desc_valid (desc : option cmeta_type_desc) : bool :=
  match desc with
  | None => false
  | Some d =>
      if negb (cmeta_nonempty (td_name d)) || (td_align d =? 0) then false else
      match td_identity d with
      | None => negb (bool_decide (td_kind d = CMETA_T_POINTER)) || negb (is_null (td_pointee d))
      | Some i =>
          if negb (cmeta_type_identity_valid (Some i)) then false else
          if bool_decide (td_kind d = CMETA_T_POINTER) then
            match td_pointee d with
            | None => false
            | Some p =>
                if is_null (td_identity p) then false else
                if negb (bool_decide (ti_form i = CMETA_TYPE_POINTER)) then false else
                cmeta_type_identity_equal (ti_base i) (td_identity p)
            end
          else negb (bool_decide (ti_form i = CMETA_TYPE_POINTER))
      end
  end.

Fixpoint type_equal (a b : cmeta_type_desc) {struct a} : bool :=
  if td_addr a =? td_addr b then cmeta_type_desc_valid (Some a) else
  if negb (cmeta_type_desc_valid (Some a)) || negb (cmeta_type_desc_valid (Some b)) then false else
  match td_identity a, td_identity b with
  | Some i, Some j => cmeta_type_identity_equal (Some i) (Some j)
  | None, None =>
      if negb (bool_decide (td_kind a = td_kind b)) || negb (td_size a =? td_size b) ||
         negb (td_align a =? td_align b) then false else
      if negb (bool_decide (td_name a = td_name b)) then false else
      if bool_decide (td_kind a = CMETA_T_POINTER) then
        match td_pointee a, td_pointee b with
        | Some p, Some q => type_equal p q
        | _, _ => false
        end
      else true
  | _, _ => false
  end.

Definition cmeta_type_equal (a b : option cmeta_type_desc) : bool :=
  match a, b with Some a, Some b => type_equal a b | _, _ => false end.

(** ** The names of types *)

Inductive type_name :=
  | NAtom (name : string)
  | NPointer (base : type_name)
  | NConst (base : type_name)
  | NApply (constructor : string) (args : list type_name)
  | NNone.

(** The names of the first [n] arguments. *)
Definition names_with (name : cmeta_type_identity → type_name) :=
  fix go (n : nat) (l : list (option cmeta_type_identity)) {struct l} : list type_name :=
    match l, n with
    | _, O => []
    | Some x :: l, S n => name x :: go n l
    | _, S _ => []
    end.

Fixpoint name_of (i : cmeta_type_identity) : type_name :=
  match ti_form i with
  | CMETA_TYPE_ATOM => NAtom (default EmptyString (ti_stable_atom_id i))
  | CMETA_TYPE_POINTER => match ti_base i with Some b => NPointer (name_of b) | None => NNone end
  | CMETA_TYPE_CONST => match ti_base i with Some b => NConst (name_of b) | None => NNone end
  | CMETA_TYPE_APPLY =>
      NApply (default EmptyString (ti_constructor i ≫= stable_id))
        match ti_args i with Some l => names_with name_of (Z.to_nat (ti_arity i)) l | None => [] end
  | CMETA_TYPE_FORM_OTHER _ => NNone
  end.

(** ** Memory *)

(** What lies at each address. *)
Record type_memory := MkTypeMemory {
  mem_identity : Z → option cmeta_type_identity;
  mem_generic : Z → option cmeta_generic_desc;
  mem_desc : Z → option cmeta_type_desc
}.

(** The node and everything it points to lie in memory. *)
Inductive stored (m : type_memory) : cmeta_type_identity → Prop :=
  | Stored i :
      mem_identity m (ti_addr i) = Some i →
      0 ≤ ti_arity i →
      (∀ c, ti_constructor i = Some c → mem_generic m (gd_addr c) = Some c) →
      (∀ b, ti_base i = Some b → stored m b) →
      (∀ l x, ti_args i = Some l → Some x ∈ l → stored m x) →
      stored m i.

(** Induction through the base and the arguments. *)
Lemma identity_nested_ind (P : cmeta_type_identity → Prop) :
  (∀ i, (∀ b, ti_base i = Some b → P b) → (∀ l x, ti_args i = Some l → Some x ∈ l → P x) → P i) →
  ∀ i, P i.
Proof.
  intros Hstep. fix IH 1. intros [a f s c base args n]. apply Hstep; cbn [ti_base ti_args].
  - destruct base as [b|]; [|discriminate]. intros ? [= <-]. apply IH.
  - destruct args as [l|]; [|discriminate]. intros ? x [= <-].
    induction l as [|o l IHl]; intros Hx; [inversion Hx|].
    destruct o as [y|]; destruct (proj1 (elem_of_cons _ _ _) Hx) as [E|E];
      [|apply (IHl E)|discriminate E|apply (IHl E)].
    replace x with y by congruence. apply IH.
Qed.

Lemma generic_equal_exact m c d :
  mem_generic m (gd_addr c) = Some c → mem_generic m (gd_addr d) = Some d →
  cmeta_generic_desc_valid (Some c) = true → cmeta_generic_desc_valid (Some d) = true →
  cmeta_generic_desc_equal (Some c) (Some d) = bool_decide (stable_id c = stable_id d).
Proof.
  intros Hc Hd Vc Vd. unfold cmeta_generic_desc_equal, cmeta_generic_desc_valid in *.
  destruct (Z.eqb_spec (gd_addr c) (gd_addr d)) as [E|_].
  { rewrite E, Hd in Hc. simplify_eq. by rewrite bool_decide_true. }
  rewrite !andb_true_iff in Vc, Vd. destruct_and!.
  destruct (stable_id c) as [s|], (stable_id d) as [t|]; try done. cbn in *.
  repeat match goal with H : negb _ = true |- _ => rewrite H end. cbn [andb].
  destruct (String.eqb_spec s t) as [->|Hne]; [by rewrite bool_decide_true|].
  rewrite bool_decide_false; [done|congruence].
Qed.

Lemma args_equal_exact (P : cmeta_type_identity → Prop) n l k :
  (∀ x, Some x ∈ l → ∀ y, P y → identity_valid x = true → identity_valid y = true →
     identity_equal x y = true ↔ name_of x = name_of y) →
  (∀ y, Some y ∈ k → P y) →
  args_all identity_valid n l = true → args_all identity_valid n k = true →
  args_equal identity_equal n l k = true ↔ names_with name_of n l = names_with name_of n k.
Proof.
  revert n k. induction l as [|o l IH]; intros [|n] k Hl Hk Vl Vk; try done.
  { by destruct k as [|[] ?]. }
  { by destruct o, k as [|[] ?]. }
  destruct o as [x|], k as [|[y|] k]; try done.
  cbn in *. apply andb_true_iff in Vl as [Vx Vl], Vk as [Vy Vk].
  rewrite andb_true_iff, (Hl x), (IH n k); try done; try (by left).
  - split; [intros [-> ->]; done|intros [= -> ->]; done].
  - intros z Hz. apply Hl. by right.
  - intros z Hz. apply Hk. by right.
  - apply Hk. by left.
Qed.

Lemma names_with_length n l : args_all identity_valid n l = true → length (names_with name_of n l) = n.
Proof.
  revert n. induction l as [|[x|] l IH]; intros [|n]; try done.
  cbn. intros [_ H]%andb_true_iff. by rewrite IH.
Qed.

(** The shapes of a valid identity. *)
Inductive valid_view : cmeta_type_identity → Prop :=
  | ViewAtom a s :
      s ≠ EmptyString → valid_view (MkIdentity a CMETA_TYPE_ATOM (Some s) None None None 0)
  | ViewPointer a b :
      identity_valid b = true → valid_view (MkIdentity a CMETA_TYPE_POINTER None None (Some b) None 0)
  | ViewConst a b :
      identity_valid b = true → valid_view (MkIdentity a CMETA_TYPE_CONST None None (Some b) None 0)
  | ViewApply a c s args n :
      cmeta_generic_desc_valid (Some c) = true → stable_id c = Some s →
      match args with Some l => args_all identity_valid (Z.to_nat n) l = true | None => n = 0 end →
      valid_view (MkIdentity a CMETA_TYPE_APPLY None (Some c) None args n).

Lemma valid_view_of i : identity_valid i = true → valid_view i.
Proof.
  destruct i as [a f s c base args n]. destruct f; cbn; rewrite ?andb_true_iff; intros H; destruct_and?.
  - destruct s as [s|], c, base, args; try done. replace n with 0 by lia. constructor. intros ->. done.
  - destruct s, c, base as [b|], args; try done; rewrite ?andb_true_iff in *; destruct_and?; try done.
    replace n with 0 by lia. by constructor.
  - destruct s, c, base as [b|], args; try done; rewrite ?andb_true_iff in *; destruct_and?; try done.
    replace n with 0 by lia. by constructor.
  - destruct s, base; try done. unfold application_valid_with, cmeta_generic_accepts_arity in *.
    destruct c as [c|]; [|done]. destruct (cmeta_generic_desc_valid (Some c)) eqn:Vc; [|done].
    pose proof Vc as Hs. unfold cmeta_generic_desc_valid, cmeta_nonempty in Hs.
    destruct (stable_id c) as [s|] eqn:Es; [|done]. apply (ViewApply a c s); try done.
    destruct (negb _) in H1; [done|]. destruct args; [done|lia].
  - done.
Qed.

(** Two identities that lie in one memory and are valid compare equal
    exactly when they spell the same name, however their nodes are shared. *)
Lemma identity_equal_exact m a : ∀ b,
  stored m a → stored m b → identity_valid a = true → identity_valid b = true →
  identity_equal a b = true ↔ name_of a = name_of b.
Proof.
  induction a as [a IHbase IHargs] using identity_nested_ind. intros b Ha Hb Va%valid_view_of Vb%valid_view_of.
  inversion_clear Ha as [? Ma Na Ca Ba Aa]. inversion_clear Hb as [? Mb Nb Cb Bb Ab].
  destruct (Z.eqb_spec (ti_addr a) (ti_addr b)) as [E|Hne].
  { rewrite E, Mb in Ma. injection Ma as ->. destruct a; cbn. by rewrite Z.eqb_refl. }
  destruct Va as [aa s Hs|aa x Vx|aa x Vx|aa c s args n Vc Es Vargs],
    Vb as [bb t Ht|bb y Vy|bb y Vy|bb d t args' n' Vd Et Vargs']; cbn -[cmeta_generic_desc_equal] in Hne |- *;
    rewrite (proj2 (Z.eqb_neq aa bb)) by done; cbn -[cmeta_generic_desc_equal]; try done;
    rewrite bool_decide_eq_true_2 by done; cbn -[cmeta_generic_desc_equal].
  - cbn in *. assert (String.eqb s "" = false ∧ String.eqb t "" = false) as [-> ->] by (by rewrite !String.eqb_neq).
    cbn. destruct (String.eqb_spec s t) as [->|Hst]; clear -Hst || clear; split; congruence.
  - rewrite (IHbase x eq_refl y (Ba x eq_refl) (Bb y eq_refl) Vx Vy). clear. split; congruence.
  - rewrite (IHbase x eq_refl y (Ba x eq_refl) (Bb y eq_refl) Vx Vy). clear. split; congruence.
  - rewrite (generic_equal_exact m) by (done || by auto). rewrite Es, Et. cbn.
    case_bool_decide as Hst; [|split; [done|congruence]]. injection Hst as ->. cbn.
    destruct (Z.eqb_spec n n') as [->|Hn]; cbn [negb].
    + destruct args as [l|], args' as [k|]; cbn in *; subst; cbn.
      * rewrite (args_equal_exact (stored m)); [clear; split; congruence| | |done|done].
        -- intros z Hz y Hy. apply (IHargs l z eq_refl Hz y); [by apply (Aa l)|done].
        -- intros z Hz. by apply (Ab k).
      * by destruct l as [|[] ?].
      * by destruct k as [|[] ?].
      * done.
    + split; [done|]. intros [= E]. exfalso.
      assert (length (match args with Some l => names_with name_of (Z.to_nat n) l | None => [] end) = Z.to_nat n).
      { destruct args as [l|]; [by apply names_with_length|by subst]. }
      assert (length (match args' with Some l => names_with name_of (Z.to_nat n') l | None => [] end) = Z.to_nat n').
      { destruct args' as [l|]; [by apply names_with_length|by subst]. }
      rewrite E in *. cbn in *. lia.
Qed.

(** ** The keys of descriptors *)

(** What a descriptor is compared by: the name of its identity, or its own
    fields and, for a pointer, the key of what it points to. *)
Inductive type_key :=
  | KIdentity (name : type_name)
  | KPlain (name : option string) (size align : Z) (kind : cmeta_type_kind) (pointee : option type_key).

Fixpoint key_of (d : cmeta_type_desc) : type_key :=
  match td_identity d with
  | Some i => KIdentity (name_of i)
  | None =>
      KPlain (td_name d) (td_size d) (td_align d) (td_kind d)
        (if bool_decide (td_kind d = CMETA_T_POINTER) then
           match td_pointee d with Some p => Some (key_of p) | None => None end
         else None)
  end.

(** The pairs of descriptors that are looked at are valid: the two, and if
    they are different pointers without identities what they point to, and so
    on. *)
Fixpoint looked_valid (a b : cmeta_type_desc) {struct a} : bool :=
  cmeta_type_desc_valid (Some a) && cmeta_type_desc_valid (Some b) &&
  ((td_addr a =? td_addr b) ||
   match td_identity a, td_pointee a, td_pointee b with
   | None, Some p, Some q => negb (bool_decide (td_kind a = CMETA_T_POINTER)) || looked_valid p q
   | _, _, _ => true
   end).

Inductive desc_stored (m : type_memory) : cmeta_type_desc → Prop :=
  | DescStored d :
      mem_desc m (td_addr d) = Some d →
      (∀ i, td_identity d = Some i → stored m i) →
      (∀ p, td_pointee d = Some p → desc_stored m p) →
      desc_stored m d.

Lemma desc_nested_ind (P : cmeta_type_desc → Prop) :
  (∀ d, (∀ p, td_pointee d = Some p → P p) → P d) → ∀ d, P d.
Proof.
  intros Hstep. fix IH 1. intros [a n s al k pt i]. apply Hstep; cbn [td_pointee].
  destruct pt as [p|]; [|discriminate]. intros ? [= <-]. apply IH.
Qed.

Lemma type_equal_unfold a b :
  type_equal a b =
  (if td_addr a =? td_addr b then cmeta_type_desc_valid (Some a) else
   if negb (cmeta_type_desc_valid (Some a)) || negb (cmeta_type_desc_valid (Some b)) then false else
   match td_identity a, td_identity b with
   | Some i, Some j => identity_equal i j
   | None, None =>
       if negb (bool_decide (td_kind a = td_kind b)) || negb (td_size a =? td_size b) ||
          negb (td_align a =? td_align b) then false else
       if negb (bool_decide (td_name a = td_name b)) then false else
       if bool_decide (td_kind a = CMETA_T_POINTER) then
         cmeta_type_equal (td_pointee a) (td_pointee b)
       else true
   | _, _ => false
   end).
Proof. by destruct a, b. Qed.

Lemma looked_valid_unfold a b :
  looked_valid a b = cmeta_type_desc_valid (Some a) && cmeta_type_desc_valid (Some b) &&
    ((td_addr a =? td_addr b) ||
     match td_identity a, td_pointee a, td_pointee b with
     | None, Some p, Some q => negb (bool_decide (td_kind a = CMETA_T_POINTER)) || looked_valid p q
     | _, _, _ => true
     end).
Proof. by destruct a. Qed.

Lemma key_of_unfold d :
  key_of d =
  match td_identity d with
  | Some i => KIdentity (name_of i)
  | None =>
      KPlain (td_name d) (td_size d) (td_align d) (td_kind d)
        (if bool_decide (td_kind d = CMETA_T_POINTER) then key_of <$> td_pointee d else None)
  end.
Proof. by destruct d as [? ? ? ? ? [] ?]. Qed.

Lemma desc_valid_identity d i :
  cmeta_type_desc_valid (Some d) = true → td_identity d = Some i → identity_valid i = true.
Proof.
  unfold cmeta_type_desc_valid. intros H Hi. rewrite Hi in H. cbn [cmeta_type_identity_valid] in H.
  destruct (_ || _) in H; [done|]. by destruct (identity_valid i).
Qed.

Lemma desc_valid_pointee d :
  cmeta_type_desc_valid (Some d) = true → td_identity d = None → td_kind d = CMETA_T_POINTER →
  is_Some (td_pointee d).
Proof.
  unfold cmeta_type_desc_valid. intros H Hi Hk. rewrite Hi, Hk in H.
  destruct (_ || _) in H; [done|]. cbn in H. by destruct (td_pointee d).
Qed.

(** Descriptors are equal exactly when those that are looked at are valid and
    the keys of the two agree. *)
Lemma type_equal_keys m a : ∀ b,
  desc_stored m a → desc_stored m b →
  type_equal a b = true ↔ looked_valid a b = true ∧ key_of a = key_of b.
Proof.
  induction a as [a IH] using desc_nested_ind. intros b Ha Hb.
  inversion_clear Ha as [? Ma Ia Pa]. inversion_clear Hb as [? Mb Ib Pb].
  rewrite type_equal_unfold, looked_valid_unfold.
  destruct (Z.eqb_spec (td_addr a) (td_addr b)) as [E|_].
  { rewrite E, Mb in Ma. injection Ma as ->. rewrite orb_true_l, andb_true_r, andb_diag. tauto. }
  destruct (cmeta_type_desc_valid (Some a)) eqn:Va; [|by cbn; split; [|intros [? _]]].
  destruct (cmeta_type_desc_valid (Some b)) eqn:Vb; [|by cbn; split; [|intros [? _]]].
  rewrite !key_of_unfold. cbn [negb orb andb].
  destruct (td_identity a) as [i|] eqn:Ei, (td_identity b) as [j|] eqn:Ej; try (split; [discriminate|intros [_ ?]; discriminate]).
  { rewrite (identity_equal_exact m); eauto using desc_valid_identity. split; [intros ->; done|intros [_ ?]; congruence]. }
  destruct (bool_decide_reflect (td_kind a = td_kind b)) as [Hk|]; cbn [negb orb]; [|split; [done|intros [_ ?]; congruence]].
  destruct (Z.eqb_spec (td_size a) (td_size b)) as [Hs|]; cbn [negb orb]; [|split; [done|intros [_ ?]; congruence]].
  destruct (Z.eqb_spec (td_align a) (td_align b)) as [Hl|]; cbn [negb orb]; [|split; [done|intros [_ ?]; congruence]].
  destruct (bool_decide_reflect (td_name a = td_name b)) as [Hn|]; cbn [negb]; [|split; [done|intros [_ ?]; congruence]].
  rewrite Hk, Hs, Hl, Hn. destruct (bool_decide_reflect (td_kind b = CMETA_T_POINTER)) as [Hp|Hp]; cbn [negb orb].
  - destruct (desc_valid_pointee a) as [p Ep]; [done..|congruence|].
    destruct (desc_valid_pointee b) as [q Eq]; [done..|]. rewrite Ep, Eq. cbn [fmap option_fmap option_map cmeta_type_equal].
    rewrite (IH p Ep q (Pa p Ep) (Pb q Eq)). split; [intros [? ->]; done|intros [? [=]]; done].
  - split; [|done]. intros _. split; [|done]. by destruct (td_pointee a), (td_pointee b).
Qed.

(** C37. [cmeta_type_equal] decides what it means for two descriptors of one
    program to denote one type. It answers true exactly when both pointers are
    given, the descriptors that are looked at are valid, and either both carry
    identities that spell the same name (the stable names of atoms and
    constructors, with pointers, consts and arguments; nothing else of the
    descriptors counts then) or both carry none and agree in name, size,
    alignment, kind and, for pointers, in the type pointed to. Looked at are
    the two descriptors and, behind pointers without identities, what they
    point to, as long as the addresses differ. Shared, copied and separately
    built nodes make no difference. *)
Theorem cmeta_type_equal_exact m oa ob :
  (∀ a, oa = Some a → desc_stored m a) → (∀ b, ob = Some b → desc_stored m b) →
  cmeta_type_equal oa ob = true ↔
  ∃ a b, oa = Some a ∧ ob = Some b ∧ looked_valid a b = true ∧ key_of a = key_of b.
Proof.
  intros Ha Hb. destruct oa as [a|], ob as [b|]; cbn [cmeta_type_equal]; try (split; [done|intros (? & ? & ? & ? & _); done]).
  rewrite (type_equal_keys m) by auto. split; [by eauto|intros (? & ? & [= <-] & [= <-] & ?); done].
Qed.

(** The descriptors of [int32_t *] and of [vec<int32_t>], the pointer built
    twice at different addresses and once more without an identity. *)
Module ExampleTypes.

Definition int_identity (at_ : Z) : cmeta_type_identity :=
  MkIdentity at_ CMETA_TYPE_ATOM (Some "int32"%string) None None None 0.

Definition pointer_identity (at_ base_at : Z) : cmeta_type_identity :=
  MkIdentity at_ CMETA_TYPE_POINTER None None (Some (int_identity base_at)) None 0.

Definition vec_constructor : cmeta_generic_desc :=
  MkGenericDesc 500 (Some "cstl.vec"%string) (Some "vec"%string) 1 1 CMETA_GENERIC_CONTAINER.

Definition vec_identity (at_ : Z) : cmeta_type_identity :=
  MkIdentity at_ CMETA_TYPE_APPLY None (Some vec_constructor) None (Some [Some (int_identity 1)]) 1.

Definition int_desc (at_ identity_at : Z) : cmeta_type_desc :=
  MkTypeDesc at_ (Some "int32_t"%string) 4 4 CMETA_T_INTEGER None (Some (int_identity identity_at)) (Some 255).

Definition pointer_desc (at_ identity_at pointee_at : Z) : cmeta_type_desc :=
  MkTypeDesc at_ (Some "int32_t *"%string) 8 8 CMETA_T_POINTER (Some (int_desc pointee_at 1))
    (Some (pointer_identity identity_at 1)) None.

Definition vec_desc : cmeta_type_desc :=
  MkTypeDesc 30 (Some "vec_int"%string) 64 8 CMETA_T_OBJECT None (Some (vec_identity 4)) None.

Definition memory : type_memory :=
  MkTypeMemory
    (λ p, if p =? 1 then Some (int_identity 1) else if p =? 2 then Some (pointer_identity 2 1)
          else if p =? 3 then Some (pointer_identity 3 1) else if p =? 4 then Some (vec_identity 4) else None)
    (λ p, if p =? 500 then Some vec_constructor else None)
    (λ p, if p =? 10 then Some (int_desc 10 1) else if p =? 20 then Some (pointer_desc 20 2 10)
          else if p =? 21 then Some (pointer_desc 21 3 10) else if p =? 30 then Some vec_desc else None).

Lemma int_stored : stored memory (int_identity 1).
Proof. constructor; cbn; [reflexivity|lia|discriminate..]. Qed.

Lemma pointer_stored at_ : at_ = 2 ∨ at_ = 3 → stored memory (pointer_identity at_ 1).
Proof.
  intros [-> | ->]; (constructor; cbn; [reflexivity|lia|discriminate| |discriminate]);
    intros ? [= <-]; apply int_stored.
Qed.

Lemma vec_stored : stored memory (vec_identity 4).
Proof.
  constructor; cbn; [reflexivity|lia|by intros ? [= <-]|discriminate|].
  intros l x [= <-] [[= ->]|[]%elem_of_nil]%elem_of_cons. apply int_stored.
Qed.

Lemma pointer_desc_stored at_ i :
  (at_, i) = (20, 2) ∨ (at_, i) = (21, 3) → desc_stored memory (pointer_desc at_ i 10).
Proof.
  intros H. constructor; cbn.
  - destruct H; simplify_eq; reflexivity.
  - intros ? [= <-]. apply pointer_stored. destruct H; simplify_eq; auto.
  - intros ? [= <-]. constructor; cbn; [reflexivity| |discriminate]. intros ? [= <-]. apply int_stored.
Qed.

Lemma vec_desc_stored : desc_stored memory vec_desc.
Proof. constructor; cbn; [reflexivity| |discriminate]. intros ? [= <-]. apply vec_stored. Qed.

End ExampleTypes.
Import ExampleTypes.

(** A descriptor without a name is not valid and not equal even to itself. *)
Definition nameless_desc : cmeta_type_desc := MkTypeDesc 40 None 4 4 CMETA_T_INTEGER None None None.
Definition with_nameless : type_memory :=
  MkTypeMemory (mem_identity memory) (mem_generic memory) (λ p, if p =? 40 then Some nameless_desc else mem_desc memory p).

Lemma cmeta_type_equal_exact_witness :
  cmeta_type_equal (Some (pointer_desc 20 2 10)) (Some (pointer_desc 21 3 10)) = true ∧
  cmeta_type_equal (Some (pointer_desc 20 2 10)) (Some vec_desc) ≠ true ∧
  cmeta_type_equal (Some nameless_desc) (Some nameless_desc) ≠ true.
Proof.
  split; [|split].
  - apply (cmeta_type_equal_exact memory); [intros ? [= <-]; apply pointer_desc_stored; auto..|].
    do 2 eexists. repeat split; reflexivity.
  - intros H. apply (cmeta_type_equal_exact memory) in H as (? & ? & [= <-] & [= <-] & _ & Hk); [discriminate Hk| |].
    + intros ? [= <-]. apply pointer_desc_stored; auto.
    + intros ? [= <-]. apply vec_desc_stored.
  - assert (desc_stored with_nameless nameless_desc) as Hs by (constructor; cbn; [reflexivity|discriminate..]).
    intros H. apply (cmeta_type_equal_exact with_nameless) in H as (? & ? & [= <-] & [= <-] & Hv & _); [discriminate Hv| |];
      intros ? [= <-]; exact Hs.
Defined.
