(* ===== verification/Machine.v ===== *)
(** * State machines: building and validating ([cflow/src/machine.c])

    [cflow_machine_build] copies the declaration arrays of a machine, sorts
    them, validates them and publishes the result. Rows are found again by
    binary search; reachability is a breadth-first search over the sorted
    transitions. The theorems say that exactly the well-formed declarations
    are accepted, that what is published is the sorted declaration, and that
    every refusal leaves the handle empty and frees what was allocated. *)

From Stdlib Require Import Sorted Permutation.
From stdpp Require Import sorting.
From S2P Require Import Prelude World TypeIdentity.
Local Open Scope Z_scope.

(** ** Effects and properties ([cmeta/include/cmeta/cmeta.h]) *)

Definition CMETA_EFFECT_PURE : Z := 0.
Definition CMETA_EFFECT_MAY_FAIL : Z := Z.shiftl 1 3.
Definition CMETA_EFFECT_MASK : Z :=
  Z.lor (Z.shiftl 1 0) (Z.lor (Z.shiftl 1 1) (Z.lor (Z.shiftl 1 2) (Z.lor (Z.shiftl 1 3) (Z.shiftl 1 4)))).

Definition cmeta_effects_are_pure (e : Z) : bool := e =? CMETA_EFFECT_PURE.
Definition cmeta_effects_valid (e : Z) : bool := Z.land e CMETA_EFFECT_MASK =? e.

Definition CMETA_PROP_DETERMINISTIC : Z := Z.shiftl 1 0.
Definition CMETA_PROP_TOTAL : Z := Z.shiftl 1 1.
Definition CMETA_PROP_IDEMPOTENT : Z := Z.shiftl 1 2.
Definition CMETA_PROP_NO_ALIAS : Z := Z.shiftl 1 3.
Definition CMETA_PROP_ASSOCIATIVE : Z := Z.shiftl 1 4.
Definition CMETA_PROP_MASK : Z :=
  Z.lor CMETA_PROP_DETERMINISTIC (Z.lor CMETA_PROP_TOTAL
    (Z.lor CMETA_PROP_IDEMPOTENT (Z.lor CMETA_PROP_NO_ALIAS CMETA_PROP_ASSOCIATIVE))).
Definition CMETA_PROP_STABLE : Z := Z.lor CMETA_PROP_DETERMINISTIC CMETA_PROP_TOTAL.

Definition cmeta_properties_valid (p : Z) : bool := Z.land p CMETA_PROP_MASK =? p.
Definition cmeta_properties_include (p required : Z) : bool := Z.land p required =? required.

(** ** Declarations *)

Definition CFLOW_MACHINE_MAX_STATES : Z := 65536.
Definition CFLOW_MACHINE_MAX_EVENTS : Z := 65536.
Definition CFLOW_MACHINE_MAX_GUARDS : Z := 65536.
Definition CFLOW_MACHINE_MAX_ACTIONS : Z := 65536.
Definition CFLOW_MACHINE_MAX_TRANSITIONS : Z := 1048576.

Inductive cflow_machine_state_kind :=
  | CFLOW_MACHINE_STATE_ACTIVE
  | CFLOW_MACHINE_STATE_DONE
  | CFLOW_MACHINE_STATE_ERROR
  | CFLOW_MACHINE_STATE_OTHER (value : Z).

Inductive cflow_machine_action_observation :=
  | CFLOW_MACHINE_ACTION_NONE
  | CFLOW_MACHINE_ACTION_VALUE
  | CFLOW_MACHINE_ACTION_EVENT
  | CFLOW_MACHINE_ACTION_OTHER (value : Z).

Inductive cflow_machine_status :=
  | CFLOW_MACHINE_OK
  | CFLOW_MACHINE_INVALID_ARGUMENT
  | CFLOW_MACHINE_LIMIT_EXCEEDED
  | CFLOW_MACHINE_ALLOCATION_FAILED
  | CFLOW_MACHINE_EMPTY
  | CFLOW_MACHINE_INVALID_ID
  | CFLOW_MACHINE_DUPLICATE_ID
  | CFLOW_MACHINE_INVALID_TYPE
  | CFLOW_MACHINE_UNKNOWN_STATE
  | CFLOW_MACHINE_UNKNOWN_EVENT
  | CFLOW_MACHINE_UNKNOWN_GUARD
  | CFLOW_MACHINE_UNKNOWN_ACTION
  | CFLOW_MACHINE_TYPE_MISMATCH
  | CFLOW_MACHINE_INVALID_CONTRACT
  | CFLOW_MACHINE_INVALID_OBSERVATION
  | CFLOW_MACHINE_TERMINAL_TRANSITION
  | CFLOW_MACHINE_AMBIGUOUS_TRANSITION
  | CFLOW_MACHINE_UNREACHABLE_STATE
  | CFLOW_MACHINE_UNUSED_DECLARATION.

#[export] Instance cflow_machine_status_eq_dec : EqDecision cflow_machine_status.
Proof. solve_decision. Defined.

Record cflow_machine_state := MkState {
  s_id : Z;
  s_value_type : option cmeta_type_desc;
  s_kind : cflow_machine_state_kind
}.

Record cflow_event_type := MkEvent {
  e_id : Z;
  e_payload_type : option cmeta_type_desc
}.

Record cflow_machine_guard := MkGuard {
  g_id : Z;
  g_state_type : option cmeta_type_desc;
  g_event_id : Z;
  g_event_type : option cmeta_type_desc;
  g_effects : Z;
  g_properties : Z
}.

Record cflow_machine_action := MkAction {
  a_id : Z;
  a_source_type : option cmeta_type_desc;
  a_event_id : Z;
  a_event_type : option cmeta_type_desc;
  a_target_type : option cmeta_type_desc;
  a_effects : Z;
  a_properties : Z;
  a_observation : cflow_machine_action_observation;
  a_output_type : option cmeta_type_desc;
  a_output_event_id : Z
}.

Record cflow_machine_transition := MkTransition {
  t_source : Z;
  t_event : Z;
  t_guard : Z;
  t_action : Z;
  t_target : Z;
  t_priority : Z
}.

(** The arrays of a definition; a null pointer is [None]. *)
Record cflow_machine_definition := MkDefinition {
  d_states : option (list cflow_machine_state);
  d_state_count : Z;
  d_initial_state : Z;
  d_events : option (list cflow_event_type);
  d_event_count : Z;
  d_guards : option (list cflow_machine_guard);
  d_guard_count : Z;
  d_actions : option (list cflow_machine_action);
  d_action_count : Z;
  d_transitions : option (list cflow_machine_transition);
  d_transition_count : Z
}.

Record cflow_machine_impl := MkImpl {
  i_states : option (list cflow_machine_state);
  i_state_count : Z;
  i_initial_state : Z;
  i_events : option (list cflow_event_type);
  i_event_count : Z;
  i_guards : option (list cflow_machine_guard);
  i_guard_count : Z;
  i_actions : option (list cflow_machine_action);
  i_action_count : Z;
  i_transitions : option (list cflow_machine_transition);
  i_transition_count : Z
}.

(** The handle: the [impl] field. *)
Definition cflow_machine : Type := option cflow_machine_impl.

(** Element [i] of the array a pointer points to. *)
Definition row_at {A} (rows : option (list A)) (i : Z) : option A := l ← rows; aget l i.

(** ** The sort of the C library

    [qsort] may order equal rows as it likes; it permutes its array and, for
    a comparison that is a total preorder, leaves it sorted. *)
Record comparison_ok {A} (cmp : A → A → Z) : Prop := {
  cmp_total x y : cmp x y <= 0 ∨ cmp y x <= 0;
  cmp_trans x y z : cmp x y <= 0 → cmp y z <= 0 → cmp x z <= 0
}.

Class QSort := {
  qsort {A : Type} : (A → A → Z) → list A → list A;
  qsort_perm {A : Type} (cmp : A → A → Z) l : qsort cmp l ≡ₚ l;
  qsort_sorted {A : Type} (cmp : A → A → Z) l :
    comparison_ok cmp → Sorted (λ x y, cmp x y <= 0) (qsort cmp l)
}.

(** A comparison by numbers, and the comparison of transitions. *)
Definition compare_id (a b : Z) : Z := if a <? b then -1 else if b <? a then 1 else 0.
Definition compare_state (a b : cflow_machine_state) : Z := compare_id (s_id a) (s_id b).
Definition compare_event (a b : cflow_event_type) : Z := compare_id (e_id a) (e_id b).
Definition compare_guard (a b : cflow_machine_guard) : Z := compare_id (g_id a) (g_id b).
Definition compare_action (a b : cflow_machine_action) : Z := compare_id (a_id a) (a_id b).

Definition compare_transition (a b : cflow_machine_transition) : Z :=
  if negb (t_source a =? t_source b) then (if t_source a <? t_source b then -1 else 1) else
  if negb (t_event a =? t_event b) then (if t_event a <? t_event b then -1 else 1) else
  if negb (t_priority a =? t_priority b) then (if t_priority a <? t_priority b then -1 else 1) else
  if negb (t_target a =? t_target b) then (if t_target a <? t_target b then -1 else 1) else
  0.

(** ** Searching *)

(** The loop of the [find] functions: the row with the identifier and its
    index, the difference of pointers. *)
Fixpoint find_by {A} (key : A → Z) (rows : option (list A)) (id : Z) (fuel : nat) (left right : Z) :
    option (option (Z * A)) :=
  match fuel with
  | O => None
  | S fuel =>
      if left <? right then
        let middle := left + (right - left) / 2 in
        row ← row_at rows middle;
        if key row =? id then Some (Some (middle, row)) else
        if key row <? id then find_by key rows id fuel (middle + 1) right
        else find_by key rows id fuel left middle
      else Some None
  end.

(** One round more than there are rows. *)
Definition rounds (count : Z) : nat := S (Z.to_nat count).

Definition find_state (impl : cflow_machine_impl) (id : Z) :=
  find_by s_id (i_states impl) id (rounds (i_state_count impl)) 0 (i_state_count impl).
Definition find_event (impl : cflow_machine_impl) (id : Z) :=
  find_by e_id (i_events impl) id (rounds (i_event_count impl)) 0 (i_event_count impl).
Definition find_guard (impl : cflow_machine_impl) (id : Z) :=
  find_by g_id (i_guards impl) id (rounds (i_guard_count impl)) 0 (i_guard_count impl).
Definition find_action (impl : cflow_machine_impl) (id : Z) :=
  find_by a_id (i_actions impl) id (rounds (i_action_count impl)) 0 (i_action_count impl).

#[global] Arguments find_state : simpl never.
#[global] Arguments find_event : simpl never.
#[global] Arguments find_guard : simpl never.
#[global] Arguments find_action : simpl never.

Fixpoint first_transition_loop (impl : cflow_machine_impl) (source : Z) (fuel : nat) (left right : Z) :
    option Z :=
  match fuel with
  | O => None
  | S fuel =>
      if left <? right then
        let middle := left + (right - left) / 2 in
        row ← row_at (i_transitions impl) middle;
        if t_source row <? source then first_transition_loop impl source fuel (middle + 1) right
        else first_transition_loop impl source fuel left middle
      else Some left
  end.

Definition first_transition_for_source (impl : cflow_machine_impl) (source : Z) : option Z :=
  first_transition_loop impl source (rounds (i_transition_count impl)) 0 (i_transition_count impl).

(** ** Validation *)

Definition valid_value_type (type : option cmeta_type_desc) : bool :=
  cmeta_type_desc_valid type && match type with Some t => negb (td_size t =? 0) | None => false end.

(** A loop over rows that stops at the first that is not [OK]; [check] also
    sees the row before. *)
Fixpoint each_row {A} (check : option A → A → option cflow_machine_status) (previous : option A)
    (rows : list A) : option cflow_machine_status :=
  match rows with
  | [] => Some CFLOW_MACHINE_OK
  | row :: rows =>
      status ← check previous row;
      if bool_decide (status = CFLOW_MACHINE_OK) then each_row check (Some row) rows else Some status
  end.

(** The first [count] rows of an array. *)
Definition rows_of {A} (rows : option (list A)) (count : Z) : option (list A) :=
  if count =? 0 then Some [] else
  l ← rows;
  if alen l <? count then None else Some (take (Z.to_nat count) l).

(** The loop over the first [count] rows of an array. *)
Definition for_rows {A} (rows : option (list A)) (count : Z)
    (check : option A → A → option cflow_machine_status) : option cflow_machine_status :=
  l ← rows_of rows count;
  each_row check None l.

Definition same_id {A} (key : A → Z) (previous : option A) (row : A) : bool :=
  match previous with Some p => key p =? key row | None => false end.

Definition check_state (previous : option cflow_machine_state) (state : cflow_machine_state) :
    option cflow_machine_status :=
  Some (
    if s_id state =? 0 then CFLOW_MACHINE_INVALID_ID else
    if same_id s_id previous state then CFLOW_MACHINE_DUPLICATE_ID else
    if negb (valid_value_type (s_value_type state)) then CFLOW_MACHINE_INVALID_TYPE else
    match s_kind state with
    | CFLOW_MACHINE_STATE_OTHER _ => CFLOW_MACHINE_INVALID_CONTRACT
    | _ => CFLOW_MACHINE_OK
    end).

Definition validate_state_domain (impl : cflow_machine_impl) : option cflow_machine_status :=
  status ← for_rows (i_states impl) (i_state_count impl) check_state;
  if negb (bool_decide (status = CFLOW_MACHINE_OK)) then Some status else
  found ← find_state impl (i_initial_state impl);
  Some (if is_null found then CFLOW_MACHINE_UNKNOWN_STATE else CFLOW_MACHINE_OK).

Definition check_event (previous : option cflow_event_type) (event : cflow_event_type) :
    option cflow_machine_status :=
  Some (
    if e_id event =? 0 then CFLOW_MACHINE_INVALID_ID else
    if same_id e_id previous event then CFLOW_MACHINE_DUPLICATE_ID else
    if negb (valid_value_type (e_payload_type event)) then CFLOW_MACHINE_INVALID_TYPE
    else CFLOW_MACHINE_OK).

Definition validate_event_domain (impl : cflow_machine_impl) : option cflow_machine_status :=
  for_rows (i_events impl) (i_event_count impl) check_event.

Definition check_guard (impl : cflow_machine_impl) (previous : option cflow_machine_guard)
    (guard : cflow_machine_guard) : option cflow_machine_status :=
  let required := Z.lor CMETA_PROP_STABLE CMETA_PROP_NO_ALIAS in
  if (g_id guard =? 0) || (g_event_id guard =? 0) then Some CFLOW_MACHINE_INVALID_ID else
  if same_id g_id previous guard then Some CFLOW_MACHINE_DUPLICATE_ID else
  if negb (valid_value_type (g_state_type guard)) || negb (valid_value_type (g_event_type guard)) then
    Some CFLOW_MACHINE_INVALID_TYPE else
  if negb (cmeta_effects_valid (g_effects guard)) || negb (cmeta_properties_valid (g_properties guard)) ||
     negb (cmeta_effects_are_pure (g_effects guard)) ||
     negb (cmeta_properties_include (g_properties guard) required) then
    Some CFLOW_MACHINE_INVALID_CONTRACT else
  event ← find_event impl (g_event_id guard);
  match event with
  | None => Some CFLOW_MACHINE_UNKNOWN_EVENT
  | Some (_, event) =>
      Some (if negb (cmeta_type_equal (e_payload_type event) (g_event_type guard))
            then CFLOW_MACHINE_TYPE_MISMATCH else CFLOW_MACHINE_OK)
  end.

Definition validate_guard_domain (impl : cflow_machine_impl) : option cflow_machine_status :=
  for_rows (i_guards impl) (i_guard_count impl) (check_guard impl).

Definition validate_action_observation (impl : cflow_machine_impl) (action : cflow_machine_action) :
    option cflow_machine_status :=
  match a_observation action with
  | CFLOW_MACHINE_ACTION_NONE =>
      Some (if is_null (a_output_type action) && (a_output_event_id action =? 0)
            then CFLOW_MACHINE_OK else CFLOW_MACHINE_INVALID_OBSERVATION)
  | CFLOW_MACHINE_ACTION_VALUE =>
      Some (if valid_value_type (a_output_type action) && (a_output_event_id action =? 0)
            then CFLOW_MACHINE_OK else CFLOW_MACHINE_INVALID_OBSERVATION)
  | CFLOW_MACHINE_ACTION_EVENT =>
      if negb (valid_value_type (a_output_type action)) || (a_output_event_id action =? 0) then
        Some CFLOW_MACHINE_INVALID_OBSERVATION else
      event ← find_event impl (a_output_event_id action);
      match event with
      | None => Some CFLOW_MACHINE_UNKNOWN_EVENT
      | Some (_, event) =>
          Some (if cmeta_type_equal (e_payload_type event) (a_output_type action)
                then CFLOW_MACHINE_OK else CFLOW_MACHINE_TYPE_MISMATCH)
      end
  | CFLOW_MACHINE_ACTION_OTHER _ => Some CFLOW_MACHINE_INVALID_OBSERVATION
  end.

Definition check_action (impl : cflow_machine_impl) (previous : option cflow_machine_action)
    (action : cflow_machine_action) : option cflow_machine_status :=
  let required := Z.lor CMETA_PROP_DETERMINISTIC CMETA_PROP_NO_ALIAS in
  if (a_id action =? 0) || (a_event_id action =? 0) then Some CFLOW_MACHINE_INVALID_ID else
  if same_id a_id previous action then Some CFLOW_MACHINE_DUPLICATE_ID else
  if negb (valid_value_type (a_source_type action)) || negb (valid_value_type (a_event_type action)) ||
     negb (valid_value_type (a_target_type action)) then
    Some CFLOW_MACHINE_INVALID_TYPE else
  if negb (cmeta_effects_valid (a_effects action)) || negb (cmeta_properties_valid (a_properties action)) ||
     negb (cmeta_properties_include (a_properties action) required) ||
     (negb (Z.land (a_properties action) CMETA_PROP_TOTAL =? 0) &&
      negb (Z.land (a_effects action) CMETA_EFFECT_MAY_FAIL =? 0)) then
    Some CFLOW_MACHINE_INVALID_CONTRACT else
  event ← find_event impl (a_event_id action);
  match event with
  | None => Some CFLOW_MACHINE_UNKNOWN_EVENT
  | Some (_, event) =>
      if negb (cmeta_type_equal (e_payload_type event) (a_event_type action))
      then Some CFLOW_MACHINE_TYPE_MISMATCH
      else validate_action_observation impl action
  end.

Definition validate_action_domain (impl : cflow_machine_impl) : option cflow_machine_status :=
  for_rows (i_actions impl) (i_action_count impl) (check_action impl).

Definition same_choice (p t : cflow_machine_transition) : bool :=
  (t_source p =? t_source t) && (t_event p =? t_event t) && (t_priority p =? t_priority t).

(** The reference of a transition to a row: none when it is zero. *)
Definition find_reference {A} (find : Z → option (option (Z * A))) (id : Z) :
    option (option (option A)) :=
  if id =? 0 then Some (Some None) else
  found ← find id;
  Some (match found with None => None | Some (_, row) => Some (Some row) end).

Definition check_transition (impl : cflow_machine_impl) (previous : option cflow_machine_transition)
    (transition : cflow_machine_transition) : option cflow_machine_status :=
  source ← find_state impl (t_source transition);
  target ← find_state impl (t_target transition);
  event ← find_event impl (t_event transition);
  match source, target with
  | Some (_, source), Some (_, target) =>
      match event with
      | None => Some CFLOW_MACHINE_UNKNOWN_EVENT
      | Some (_, event) =>
          guard ← find_reference (find_guard impl) (t_guard transition);
          match guard with
          | None => Some CFLOW_MACHINE_UNKNOWN_GUARD
          | Some guard =>
              action ← find_reference (find_action impl) (t_action transition);
              match action with
              | None => Some CFLOW_MACHINE_UNKNOWN_ACTION
              | Some action => Some (
                  match s_kind source with
                  | CFLOW_MACHINE_STATE_ACTIVE =>
                      if match guard with
                         | Some guard =>
                             negb (g_event_id guard =? t_event transition) ||
                             negb (cmeta_type_equal (g_state_type guard) (s_value_type source)) ||
                             negb (cmeta_type_equal (g_event_type guard) (e_payload_type event))
                         | None => false
                         end then CFLOW_MACHINE_TYPE_MISMATCH else
                      if match action with
                         | Some action =>
                             negb (a_event_id action =? t_event transition) ||
                             negb (cmeta_type_equal (a_source_type action) (s_value_type source)) ||
                             negb (cmeta_type_equal (a_event_type action) (e_payload_type event)) ||
                             negb (cmeta_type_equal (a_target_type action) (s_value_type target))
                         | None => negb (cmeta_type_equal (s_value_type source) (s_value_type target))
                         end then CFLOW_MACHINE_TYPE_MISMATCH else
                      if match previous with Some p => same_choice p transition | None => false end
                      then CFLOW_MACHINE_AMBIGUOUS_TRANSITION
                      else CFLOW_MACHINE_OK
                  | _ => CFLOW_MACHINE_TERMINAL_TRANSITION
                  end)
              end
          end
      end
  | _, _ => Some CFLOW_MACHINE_UNKNOWN_STATE
  end.

Definition validate_transitions (impl : cflow_machine_impl) : option cflow_machine_status :=
  for_rows (i_transitions impl) (i_transition_count impl) (check_transition impl).

(** [free] of a pointer that may be null. *)
Definition free_ptr {A} (p : option A) : M unit := match p with None => mret tt | Some _ => mfree end.

(** [calloc] and [malloc] of an array of [count] cells, [calloc] cleared. *)
Definition alloc_cells {A} (count : Z) (cell : A) : M (option (list A)) :=
  p ← malloc;
  mret (match p with None => None | Some _ => Some (replicate (Z.to_nat count) cell) end).

(** The flags, the queue, whose cells have no value until they are written,
    and its end. *)
Record search := MkSearch {
  sr_reachable : list bool;
  sr_queue : list (option Z);
  sr_tail : Z
}.

Definition mark (s : search) (index id : Z) : option search :=
  reachable ← aset (sr_reachable s) index true;
  queue ← aset (sr_queue s) (sr_tail s) (Some id);
  Some (MkSearch reachable queue (sr_tail s + 1)).

(** The inner loop: the transitions that leave [source]. *)
Fixpoint visit_targets (impl : cflow_machine_impl) (source : Z) (fuel : nat) (index : Z) (s : search) :
    option search :=
  match fuel with
  | O => None
  | S fuel =>
      if index <? i_transition_count impl then
        transition ← row_at (i_transitions impl) index;
        if t_source transition =? source then
          found ← find_state impl (t_target transition);
          '(target_index, target) ← found;
          flag ← aget (sr_reachable s) target_index;
          s ← (if (flag : bool) then Some s else mark s target_index (s_id target));
          visit_targets impl source fuel (index + 1) s
        else Some s
      else Some s
  end.

(** The outer loop: the queue from [head]. *)
Fixpoint visit_queue (impl : cflow_machine_impl) (fuel : nat) (head : Z) (s : search) : option search :=
  match fuel with
  | O => None
  | S fuel =>
      if head <? sr_tail s then
        cell ← aget (sr_queue s) head;
        source ← cell;
        index ← first_transition_for_source impl source;
        s ← visit_targets impl source (rounds (i_transition_count impl)) index s;
        visit_queue impl fuel (head + 1) s
      else Some s
  end.

(** Whether the first [count] flags are set. *)
Definition all_set (flags : list bool) (count : Z) : option bool :=
  if alen flags <? count then None else Some (forallb id (take (Z.to_nat count) flags)).

Definition checked_bytes (count width : Z) : option Z :=
  if negb (width =? 0) && (SIZE_MAX / width <? count) then None else Some (count * width).

Definition search_reachable (impl : cflow_machine_impl) (reachable : list bool) (queue : list (option Z)) :
    option bool :=
  found ← find_state impl (i_initial_state impl);
  '(index, initial) ← found;
  s ← mark (MkSearch reachable queue 0) index (s_id initial);
  s ← visit_queue impl (rounds (i_state_count impl)) 0 s;
  all_set (sr_reachable s) (i_state_count impl).

Definition validate_reachability (impl : cflow_machine_impl) : M cflow_machine_status :=
  match checked_bytes (i_state_count impl) 4 with
  | None => mret CFLOW_MACHINE_INVALID_ARGUMENT
  | Some _ =>
      reachable ← alloc_cells (i_state_count impl) false;
      queue ← alloc_cells (i_state_count impl) (None : option Z);
      match reachable, queue with
      | Some flags, Some cells =>
          all ← lift (search_reachable impl flags cells);
          free_ptr queue;; free_ptr reachable;;
          mret (if (all : bool) then CFLOW_MACHINE_OK else CFLOW_MACHINE_UNREACHABLE_STATE)
      | _, _ => free_ptr queue;; free_ptr reachable;; mret CFLOW_MACHINE_ALLOCATION_FAILED
      end
  end.

(** One reference: the flag of the row it names is set. *)
Definition use_reference {A} (find : Z → option (option (Z * A))) (id : Z) (used : option (list bool)) :
    option (option (list bool)) :=
  if id =? 0 then Some used else
  found ← find id;
  '(index, _) ← found;
  flags ← used;
  flags ← aset flags index true;
  Some (Some flags).

Fixpoint use_declarations (impl : cflow_machine_impl) (rows : list cflow_machine_transition)
    (guards_used actions_used : option (list bool)) :
    option (option (list bool) * option (list bool)) :=
  match rows with
  | [] => Some (guards_used, actions_used)
  | row :: rows =>
      guards_used ← use_reference (find_guard impl) (t_guard row) guards_used;
      actions_used ← use_reference (find_action impl) (t_action row) actions_used;
      use_declarations impl rows guards_used actions_used
  end.

(** The check of one set of flags: there is none when nothing is declared. *)
Definition used_all (used : option (list bool)) (count : Z) : option bool :=
  if count =? 0 then Some true else flags ← used; all_set flags count.

Definition declarations_used (impl : cflow_machine_impl) (guards_used actions_used : option (list bool)) :
    option bool :=
  rows ← rows_of (i_transitions impl) (i_transition_count impl);
  '(guards_used, actions_used) ← use_declarations impl rows guards_used actions_used;
  guards ← used_all guards_used (i_guard_count impl);
  if negb (guards : bool) then Some false else used_all actions_used (i_action_count impl).

Definition alloc_flags (count : Z) : M (option (list bool)) :=
  if count =? 0 then mret None else alloc_cells count false.

Definition validate_declaration_use (impl : cflow_machine_impl) : M cflow_machine_status :=
  guards_used ← alloc_flags (i_guard_count impl);
  if negb (i_guard_count impl =? 0) && is_null guards_used then mret CFLOW_MACHINE_ALLOCATION_FAILED else
  actions_used ← alloc_flags (i_action_count impl);
  if negb (i_action_count impl =? 0) && is_null actions_used then
    free_ptr guards_used;; mret CFLOW_MACHINE_ALLOCATION_FAILED
  else
    all ← lift (declarations_used impl guards_used actions_used);
    free_ptr actions_used;; free_ptr guards_used;;
    mret (if (all : bool) then CFLOW_MACHINE_OK else CFLOW_MACHINE_UNUSED_DECLARATION).

(** The steps of [validate_machine]: each runs when those before are [OK]. *)
Definition and_then (status : cflow_machine_status) (next : M cflow_machine_status) :
    M cflow_machine_status :=
  if bool_decide (status = CFLOW_MACHINE_OK) then next else mret status.

Definition validate_machine (impl : cflow_machine_impl) : M cflow_machine_status :=
  status ← lift (validate_state_domain impl);
  and_then status (
    status ← lift (validate_event_domain impl);
    and_then status (
      status ← lift (validate_guard_domain impl);
      and_then status (
        status ← lift (validate_action_domain impl);
        and_then status (
          status ← lift (validate_transitions impl);
          and_then status (
            status ← validate_reachability impl;
            and_then status (validate_declaration_use impl)))))).

(** ** Building *)

Definition machine_impl_destroy (impl : cflow_machine) : M unit :=
  match impl with
  | None => mret tt
  | Some i =>
      free_ptr (i_transitions i);; free_ptr (i_actions i);; free_ptr (i_guards i);;
      free_ptr (i_events i);; free_ptr (i_states i);; mfree
  end.

(** [copy_rows] of [count] rows. *)
Definition copy_rows {A} (rows : option (list A)) (count bytes : Z) : M (option (list A)) :=
  if bytes =? 0 then mret None else
  copy ← malloc;
  match copy with
  | None => mret None
  | Some _ => l ← lift (rows_of rows count); mret (Some l)
  end.

Definition missing {A} (count : Z) (rows : option A) : bool := negb (count =? 0) && is_null rows.

Section Build.
Context `{QSort}.

Definition sort_rows {A} (cmp : A → A → Z) (count : Z) (rows : option (list A)) : option (list A) :=
  if 1 <? count then qsort cmp <$> rows else rows.

Definition cflow_machine_build (out : option cflow_machine) (definition : option cflow_machine_definition) :
    M (cflow_machine_status * option cflow_machine) :=
  match out, definition with
  | Some None, Some d =>
      if d_state_count d =? 0 then mret (CFLOW_MACHINE_EMPTY, out) else
      if (CFLOW_MACHINE_MAX_STATES <? d_state_count d) || (CFLOW_MACHINE_MAX_EVENTS <? d_event_count d) ||
         (CFLOW_MACHINE_MAX_GUARDS <? d_guard_count d) || (CFLOW_MACHINE_MAX_ACTIONS <? d_action_count d) ||
         (CFLOW_MACHINE_MAX_TRANSITIONS <? d_transition_count d) then
        mret (CFLOW_MACHINE_LIMIT_EXCEEDED, out) else
      if is_null (d_states d) || missing (d_event_count d) (d_events d) ||
         missing (d_guard_count d) (d_guards d) || missing (d_action_count d) (d_actions d) ||
         missing (d_transition_count d) (d_transitions d) then
        mret (CFLOW_MACHINE_INVALID_ARGUMENT, out) else
      match checked_bytes (d_state_count d) 24, checked_bytes (d_event_count d) 16,
            checked_bytes (d_guard_count d) 40, checked_bytes (d_action_count d) 72,
            checked_bytes (d_transition_count d) 32 with
      | Some state_bytes, Some event_bytes, Some guard_bytes, Some action_bytes, Some transition_bytes =>
          impl ← malloc;
          match impl with
          | None => mret (CFLOW_MACHINE_ALLOCATION_FAILED, out)
          | Some _ =>
              states ← copy_rows (d_states d) (d_state_count d) state_bytes;
              events ← copy_rows (d_events d) (d_event_count d) event_bytes;
              guards ← copy_rows (d_guards d) (d_guard_count d) guard_bytes;
              actions ← copy_rows (d_actions d) (d_action_count d) action_bytes;
              transitions ← copy_rows (d_transitions d) (d_transition_count d) transition_bytes;
              if missing state_bytes states || missing event_bytes events || missing guard_bytes guards ||
                 missing action_bytes actions || missing transition_bytes transitions then
                machine_impl_destroy (Some (MkImpl states 0 0 events 0 guards 0 actions 0 transitions 0));;
                mret (CFLOW_MACHINE_ALLOCATION_FAILED, out)
              else
                let impl := MkImpl
                  (sort_rows compare_state (d_state_count d) states) (d_state_count d) (d_initial_state d)
                  (sort_rows compare_event (d_event_count d) events) (d_event_count d)
                  (sort_rows compare_guard (d_guard_count d) guards) (d_guard_count d)
                  (sort_rows compare_action (d_action_count d) actions) (d_action_count d)
                  (sort_rows compare_transition (d_transition_count d) transitions) (d_transition_count d) in
                status ← validate_machine impl;
                if negb (bool_decide (status = CFLOW_MACHINE_OK)) then
                  machine_impl_destroy (Some impl);; mret (status, out)
                else mret (CFLOW_MACHINE_OK, Some (Some impl))
          end
      | _, _, _, _, _ => mret (CFLOW_MACHINE_INVALID_ARGUMENT, out)
      end
  | _, _ => mret (CFLOW_MACHINE_INVALID_ARGUMENT, out)
  end.

End Build.

Definition cflow_machine_destroy (machine : option cflow_machine) : M (option cflow_machine) :=
  match machine with
  | None => mret None
  | Some impl => machine_impl_destroy impl;; mret (Some None)
  end.

(** ** Accessors *)

Definition machine_impl (machine : option cflow_machine) : option cflow_machine_impl := mjoin machine.

Definition cflow_machine_initial_state (machine : option cflow_machine) : Z :=
  match machine_impl machine with None => 0 | Some impl => i_initial_state impl end.

Definition count_fn (count : cflow_machine_impl → Z) (machine : option cflow_machine) : Z :=
  match machine_impl machine with None => 0 | Some impl => count impl end.

(** The row at an index: [Some None] is the null pointer. *)
Definition at_fn {A} (rows : cflow_machine_impl → option (list A)) (count : cflow_machine_impl → Z)
    (machine : option cflow_machine) (index : Z) : option (option A) :=
  match machine_impl machine with
  | None => Some None
  | Some impl =>
      if count impl <=? index then Some None else row ← row_at (rows impl) index; Some (Some row)
  end.

Definition cflow_machine_state_count := count_fn i_state_count.
Definition cflow_machine_event_count := count_fn i_event_count.
Definition cflow_machine_guard_count := count_fn i_guard_count.
Definition cflow_machine_action_count := count_fn i_action_count.
Definition cflow_machine_transition_count := count_fn i_transition_count.

Definition cflow_machine_state_at := at_fn i_states i_state_count.
Definition cflow_machine_event_at := at_fn i_events i_event_count.
Definition cflow_machine_guard_at := at_fn i_guards i_guard_count.
Definition cflow_machine_action_at := at_fn i_actions i_action_count.
Definition cflow_machine_transition_at := at_fn i_transitions i_transition_count.

(** ** Well-formed machines *)

Definition known_kind (k : cflow_machine_state_kind) : Prop :=
  k = CFLOW_MACHINE_STATE_ACTIVE ∨ k = CFLOW_MACHINE_STATE_DONE ∨ k = CFLOW_MACHINE_STATE_ERROR.

Definition state_ok (s : cflow_machine_state) : Prop :=
  s_id s ≠ 0 ∧ valid_value_type (s_value_type s) = true ∧ known_kind (s_kind s).

Definition event_ok (e : cflow_event_type) : Prop :=
  e_id e ≠ 0 ∧ valid_value_type (e_payload_type e) = true.

(** The event [id] is declared, with a payload of the given type. *)
Definition event_typed (E : list cflow_event_type) (id : Z) (type : option cmeta_type_desc) : Prop :=
  ∃ e, e ∈ E ∧ e_id e = id ∧ cmeta_type_equal (e_payload_type e) type = true.

(** A guard is pure, total, deterministic and keeps no reference. *)
Definition guard_ok (E : list cflow_event_type) (g : cflow_machine_guard) : Prop :=
  g_id g ≠ 0 ∧ g_event_id g ≠ 0 ∧
  valid_value_type (g_state_type g) = true ∧ valid_value_type (g_event_type g) = true ∧
  g_effects g = CMETA_EFFECT_PURE ∧ cmeta_properties_valid (g_properties g) = true ∧
  cmeta_properties_include (g_properties g) (Z.lor CMETA_PROP_STABLE CMETA_PROP_NO_ALIAS) = true ∧
  event_typed E (g_event_id g) (g_event_type g).

Definition observation_ok (E : list cflow_event_type) (a : cflow_machine_action) : Prop :=
  match a_observation a with
  | CFLOW_MACHINE_ACTION_NONE => a_output_type a = None ∧ a_output_event_id a = 0
  | CFLOW_MACHINE_ACTION_VALUE => valid_value_type (a_output_type a) = true ∧ a_output_event_id a = 0
  | CFLOW_MACHINE_ACTION_EVENT =>
      valid_value_type (a_output_type a) = true ∧ a_output_event_id a ≠ 0 ∧
      event_typed E (a_output_event_id a) (a_output_type a)
  | CFLOW_MACHINE_ACTION_OTHER _ => False
  end.

(** An action is deterministic and keeps no reference; one that is total does
    not fail. *)
Definition action_ok (E : list cflow_event_type) (a : cflow_machine_action) : Prop :=
  a_id a ≠ 0 ∧ a_event_id a ≠ 0 ∧
  valid_value_type (a_source_type a) = true ∧ valid_value_type (a_event_type a) = true ∧
  valid_value_type (a_target_type a) = true ∧
  cmeta_effects_valid (a_effects a) = true ∧ cmeta_properties_valid (a_properties a) = true ∧
  cmeta_properties_include (a_properties a) (Z.lor CMETA_PROP_DETERMINISTIC CMETA_PROP_NO_ALIAS) = true ∧
  (Z.land (a_properties a) CMETA_PROP_TOTAL = 0 ∨ Z.land (a_effects a) CMETA_EFFECT_MAY_FAIL = 0) ∧
  event_typed E (a_event_id a) (a_event_type a) ∧
  observation_ok E a.

(** The guard a transition names fits it. *)
Definition guard_fits (G : list cflow_machine_guard) (t : cflow_machine_transition)
    (source : cflow_machine_state) (event : cflow_event_type) : Prop :=
  t_guard t = 0 ∨
  ∃ g, g ∈ G ∧ g_id g = t_guard t ∧ g_event_id g = t_event t ∧
    cmeta_type_equal (g_state_type g) (s_value_type source) = true ∧
    cmeta_type_equal (g_event_type g) (e_payload_type event) = true.

(** The action a transition names fits it; without one the value is kept. *)
Definition action_fits (A : list cflow_machine_action) (t : cflow_machine_transition)
    (source target : cflow_machine_state) (event : cflow_event_type) : Prop :=
  (t_action t = 0 ∧ cmeta_type_equal (s_value_type source) (s_value_type target) = true) ∨
  (t_action t ≠ 0 ∧
   ∃ a, a ∈ A ∧ a_id a = t_action t ∧ a_event_id a = t_event t ∧
     cmeta_type_equal (a_source_type a) (s_value_type source) = true ∧
     cmeta_type_equal (a_event_type a) (e_payload_type event) = true ∧
     cmeta_type_equal (a_target_type a) (s_value_type target) = true).

Definition transition_ok (S : list cflow_machine_state) (E : list cflow_event_type)
    (G : list cflow_machine_guard) (A : list cflow_machine_action) (t : cflow_machine_transition) : Prop :=
  ∃ source target event,
    source ∈ S ∧ s_id source = t_source t ∧ s_kind source = CFLOW_MACHINE_STATE_ACTIVE ∧
    target ∈ S ∧ s_id target = t_target t ∧
    event ∈ E ∧ e_id event = t_event t ∧
    guard_fits G t source event ∧ action_fits A t source target event.

Definition choice (t : cflow_machine_transition) : Z * Z * Z := (t_source t, t_event t, t_priority t).

(** The states the transitions lead to. *)
Inductive reaches (T : list cflow_machine_transition) (initial : Z) : Z → Prop :=
  | reaches_initial : reaches T initial initial
  | reaches_step t : t ∈ T → reaches T initial (t_source t) → reaches T initial (t_target t).

(** Every declaration is sound on its own, identifiers are unique and choices
    unambiguous, references are known and agree in type, every state is
    reachable and every guard and action is used. *)
Record well_formed (S : list cflow_machine_state) (initial : Z) (E : list cflow_event_type)
    (G : list cflow_machine_guard) (A : list cflow_machine_action)
    (T : list cflow_machine_transition) : Prop := {
  wf_states : Forall state_ok S;
  wf_state_ids : NoDup (s_id <$> S);
  wf_initial : initial ∈ s_id <$> S;
  wf_events : Forall event_ok E;
  wf_event_ids : NoDup (e_id <$> E);
  wf_guards : Forall (guard_ok E) G;
  wf_guard_ids : NoDup (g_id <$> G);
  wf_actions : Forall (action_ok E) A;
  wf_action_ids : NoDup (a_id <$> A);
  wf_transitions : Forall (transition_ok S E G A) T;
  wf_choices : NoDup (choice <$> T);
  wf_reachable : ∀ s, s ∈ S → reaches T initial (s_id s);
  wf_guards_used : ∀ g, g ∈ G → ∃ t, t ∈ T ∧ t_guard t = g_id g;
  wf_actions_used : ∀ a, a ∈ A → ∃ t, t ∈ T ∧ t_action t = a_id a
}.

(** ** Sorted rows *)

Lemma Sorted_weaken {A} (R1 R2 : A → A → Prop) l :
  (∀ x y, R1 x y → R2 x y) → Sorted R1 l → Sorted R2 l.
Proof.
  intros HR. induction 1 as [|x l Hs IH Hx]; constructor; [done|]. destruct Hx; constructor. by apply HR.
Qed.

Section Keyed.
Context {A K : Type} (key : A → K) (le lt : A → A → Prop).
Context (Hlt : ∀ x y, le x y → key x ≠ key y → lt x y).
Context (Hne : ∀ x y, lt x y → key x ≠ key y).
Context (Htrans : ∀ x y z, lt x y → lt y z → lt x z).

Lemma distinct_strict l :
  Sorted le l → Sorted (λ x y, key x ≠ key y) l → StronglySorted lt l.
Proof.
  intros Hs Hd. apply Sorted_StronglySorted; [exact Htrans|].
  induction Hs as [|x l Hs IH Hx]; [constructor|]. apply Sorted_inv in Hd as [Hd Hdx].
  constructor; [by apply IH|]. destruct Hx as [|y l Hxy]; constructor.
  apply Hlt; [done|]. by inversion Hdx.
Qed.

Lemma strict_NoDup l : StronglySorted lt l → NoDup (key <$> l).
Proof.
  induction 1 as [|x l Hs IH Hx]; cbn; [constructor|]. constructor; [|done].
  intros (y & Hy & Hin)%list_elem_of_fmap. rewrite Forall_forall in Hx. by apply (Hne x y (Hx y Hin)).
Qed.

Lemma NoDup_adjacent l : NoDup (key <$> l) → Sorted (λ x y, key x ≠ key y) l.
Proof.
  induction l as [|x [|y l] IH]; cbn; [constructor|by repeat constructor|].
  intros [Hx Hd]%NoDup_cons. constructor; [by apply IH|]. constructor. intros E. apply Hx. rewrite E. by left.
Qed.

Lemma adjacent_distinct l :
  Sorted le l → Sorted (λ x y, key x ≠ key y) l ↔ NoDup (key <$> l).
Proof.
  intros Hs. split; [|apply NoDup_adjacent]. intros Hd. by apply strict_NoDup, distinct_strict.
Qed.
End Keyed.

Lemma compare_id_le a b : compare_id a b <= 0 ↔ a <= b.
Proof. unfold compare_id. repeat case_match; lia. Qed.

Lemma compare_id_ok {A} (key : A → Z) : comparison_ok (λ x y, compare_id (key x) (key y)).
Proof. split; intros *; rewrite !compare_id_le; lia. Qed.

(** The order of transitions: by source, event, priority and target. *)
Definition transition_le (a b : cflow_machine_transition) : Prop :=
  t_source a < t_source b ∨ (t_source a = t_source b ∧
  (t_event a < t_event b ∨ (t_event a = t_event b ∧
  (t_priority a < t_priority b ∨ (t_priority a = t_priority b ∧ t_target a <= t_target b))))).

Definition transition_lt (a b : cflow_machine_transition) : Prop :=
  t_source a < t_source b ∨ (t_source a = t_source b ∧
  (t_event a < t_event b ∨ (t_event a = t_event b ∧ t_priority a < t_priority b))).

Lemma compare_transition_le a b : compare_transition a b <= 0 ↔ transition_le a b.
Proof. unfold compare_transition, transition_le. repeat case_match; lia. Qed.

Lemma compare_transition_ok : comparison_ok compare_transition.
Proof. split; intros *; rewrite !compare_transition_le; unfold transition_le; lia. Qed.

Lemma transition_adjacent T :
  Sorted transition_le T → Sorted (λ x y, choice x ≠ choice y) T ↔ NoDup (choice <$> T).
Proof.
  apply (adjacent_distinct choice transition_le transition_lt); unfold choice, transition_le, transition_lt.
  - intros x y Hle Hne. destruct (decide (t_priority x = t_priority y)); [|lia].
    destruct (decide (t_source x = t_source y)); [|lia]. destruct (decide (t_event x = t_event y)); [|lia].
    destruct Hne. congruence.
  - intros x y Hlt [= ? ? ?]. lia.
  - lia.
Qed.

Lemma id_adjacent {A} (key : A → Z) l :
  Sorted (λ x y, key x <= key y) l → Sorted (λ x y, key x ≠ key y) l ↔ NoDup (key <$> l).
Proof. apply (adjacent_distinct key _ (λ x y, key x < key y)); lia. Qed.

(** ** Arrays *)

Lemma rows_of_alen {A} (rows : option (list A)) n l : 0 <= n → rows_of rows n = Some l → alen l = n.
Proof.
  unfold rows_of. intros Hn. destruct (Z.eqb_spec n 0) as [->|]; [by intros [= <-]|].
  destruct rows as [k|]; cbn; [|done]. destruct (Z.ltb_spec (alen k) n); [done|]. intros [= <-].
  unfold alen in *. rewrite length_take. lia.
Qed.

Lemma row_at_rows {A} (rows : option (list A)) n l i :
  rows_of rows n = Some l → 0 <= i < n → row_at rows i = aget l i.
Proof.
  unfold rows_of, row_at. intros H Hi. destruct (Z.eqb_spec n 0); [lia|].
  destruct rows as [k|]; cbn in *; [|done]. destruct (Z.ltb_spec (alen k) n); [done|].
  injection H as <-. by rewrite aget_take.
Qed.

Lemma aget_elem {A} (l : list A) i x : aget l i = Some x → x ∈ l.
Proof. intros [_ H]%aget_Some. by eapply list_elem_of_lookup_2. Qed.

Lemma elem_aget {A} (l : list A) x : x ∈ l → ∃ i, 0 <= i < alen l ∧ aget l i = Some x.
Proof.
  intros [k Hk]%list_elem_of_lookup. exists (Z.of_nat k).
  pose proof (lookup_lt_Some _ _ _ Hk). unfold alen, aget. split; [lia|].
  rewrite (proj2 (Z.ltb_ge _ _)) by lia. by rewrite Nat2Z.id.
Qed.

(** An order on rows, by position. *)
Lemma sorted_aget {A} (R : A → A → Prop) l i j x y :
  StronglySorted R l → aget l i = Some x → aget l j = Some y → i < j → R x y.
Proof.
  intros Hs [Hi Ei]%aget_Some [Hj Ej]%aget_Some Hij.
  assert (Z.to_nat i < Z.to_nat j)%nat as Hlt by lia. clear Hi Hj Hij.
  revert Ei Ej Hlt. generalize (Z.to_nat i) (Z.to_nat j). clear i j.
  induction Hs as [|z l Hs IH Hz]; intros [|i] [|j] Ei Ej Hlt; cbn in *; simplify_eq; try lia.
  - rewrite Forall_forall in Hz. apply Hz. by eapply list_elem_of_lookup_2.
  - apply (IH i j); [done..|lia].
Qed.

(** ** The searches *)

Section Find.
Context {A : Type} (key : A → Z) (rows : option (list A)) (n : Z) (l : list A).
Context (Hn : 0 <= n) (Hrows : rows_of rows n = Some l).
Context (Hsorted : StronglySorted (λ x y, key x <= key y) l).

Definition found_ok (id : Z) (r : option (Z * A)) : Prop :=
  match r with
  | None => id ∉ key <$> l
  | Some (i, x) => aget l i = Some x ∧ key x = id
  end.

Lemma find_by_ok id fuel : ∀ left right,
  0 <= left <= right → right <= n → right - left < Z.of_nat fuel →
  (∀ i x, aget l i = Some x → i < left → key x < id) →
  (∀ i x, aget l i = Some x → right <= i → id < key x) →
  ∃ r, find_by key rows id fuel left right = Some r ∧ found_ok id r.
Proof.
  pose proof (rows_of_alen _ _ _ Hn Hrows) as Hlen.
  induction fuel as [|fuel IH]; intros left right Hlr Hr Hf Hlow Hhigh; [lia|]. cbn [find_by].
  destruct (Z.ltb_spec left right) as [Hlt|Hge].
  - set (m := left + (right - left) / 2).
    assert (left <= m < right) as Hm by (subst m; Z.to_euclidean_division_equations; lia).
    rewrite (row_at_rows _ _ _ m Hrows) by lia.
    destruct (aget_in_bounds l m) as [x Hx]; [lia|]. rewrite Hx. cbn.
    destruct (Z.eqb_spec (key x) id) as [E|Hne].
    { by exists (Some (m, x)). }
    destruct (Z.ltb_spec (key x) id).
    + apply IH; try lia; [|done]. intros i y Hy Hi. destruct (decide (i = m)) as [->|]; [by simplify_eq|].
      assert (key y <= key x) by (apply (sorted_aget _ _ i m y x Hsorted Hy Hx); lia). lia.
    + apply IH; try lia; [done|]. intros i y Hy Hi. destruct (decide (i = m)) as [->|]; [simplify_eq; lia|].
      assert (key x <= key y) by (apply (sorted_aget _ _ m i x y Hsorted Hx Hy); lia). lia.
  - exists None. split; [done|]. cbn. intros (x & -> & Hx)%list_elem_of_fmap.
    apply elem_aget in Hx as (i & Hi & Hx). destruct (Z.lt_ge_cases i left) as [Hil|Hil].
    + specialize (Hlow i x Hx Hil). lia.
    + specialize (Hhigh i x Hx). lia.
Qed.

Lemma find_rows_ok id : ∃ r, find_by key rows id (rounds n) 0 n = Some r ∧ found_ok id r.
Proof.
  pose proof (rows_of_alen _ _ _ Hn Hrows) as Hlen.
  apply find_by_ok; try lia; [unfold rounds; lia| |]; intros i x [? _]%aget_Some; lia.
Qed.
End Find.

(** With unique identifiers the row that is found is the only one. *)
Lemma key_unique {A} (key : A → Z) l x y :
  NoDup (key <$> l) → x ∈ l → y ∈ l → key x = key y → x = y.
Proof.
  intros Hd [i Hi]%list_elem_of_lookup [j Hj]%list_elem_of_lookup E.
  assert (i = j) as ->; [|by simplify_eq].
  eapply (NoDup_lookup _ i j (key x)); [done|..]; rewrite list_lookup_fmap; [by rewrite Hi|by rewrite Hj, E].
Qed.

Lemma id_le_trans {A} (key : A → Z) : Relations_1.Transitive (λ x y, key x <= key y).
Proof. intros x y z. lia. Qed.

(** ** Deciding checks *)

(** [decides x P]: the check has a result, and it is [OK] exactly when [P]. *)
Definition decides (x : option cflow_machine_status) (P : Prop) : Prop :=
  ∃ st, x = Some st ∧ (st = CFLOW_MACHINE_OK ↔ P).

Lemma decides_iff x P Q : (P ↔ Q) → decides x P → decides x Q.
Proof. intros H (st & -> & Hst). exists st. by rewrite Hst, H. Qed.

#[export] Instance decides_proper : Proper ((=) ==> iff ==> iff) decides.
Proof. intros x ? <- P Q H. split; apply decides_iff; by rewrite H. Qed.

Lemma decides_fail s (P : Prop) : s ≠ CFLOW_MACHINE_OK → ¬ P → decides (Some s) P.
Proof. intros Hs HP. by exists s. Qed.

Lemma decides_ok (P : Prop) : P → decides (Some CFLOW_MACHINE_OK) P.
Proof. intros HP. by exists CFLOW_MACHINE_OK. Qed.

(** A guard that refuses, then the rest. *)
Lemma decides_guard (b : bool) s x P Q :
  s ≠ CFLOW_MACHINE_OK → (b = false ↔ Q) → (Q → decides x P) →
  decides (if b then Some s else x) (Q ∧ P).
Proof.
  intros Hs Hb Hx. destruct b.
  - apply decides_fail; [done|]. intros [HQ _]. by apply Hb in HQ.
  - assert Q as HQ by by apply Hb. destruct (Hx HQ) as (st & -> & Hst). exists st. naive_solver.
Qed.

Lemma decides_last (b : bool) s P :
  s ≠ CFLOW_MACHINE_OK → (b = false ↔ P) → decides (Some (if b then s else CFLOW_MACHINE_OK)) P.
Proof. intros Hs Hb. exists (if b then s else CFLOW_MACHINE_OK). by destruct b; naive_solver. Qed.

(** One check after another. *)
Lemma decides_seq x P f Q :
  decides x P → (P → decides (f CFLOW_MACHINE_OK) Q) →
  decides (status ← x; if bool_decide (status = CFLOW_MACHINE_OK) then f status else Some status) (P ∧ Q).
Proof.
  intros (st & -> & Hst) Hf. cbn. case_bool_decide as E.
  - subst st. assert P as HP by by apply Hst. destruct (Hf HP) as (st & -> & Hst'). exists st. naive_solver.
  - exists st. naive_solver.
Qed.

(** The loop over rows: every row passes, and neighbours differ. *)
Lemma each_row_ok {A} (check : option A → A → option cflow_machine_status) (P : A → Prop)
    (D : A → A → Prop) l : ∀ p,
  (∀ q x, x ∈ l → decides (check q x) (P x ∧ ∀ y, q = Some y → D y x)) →
  decides (each_row check p l) (Forall P l ∧ Sorted D l ∧ ∀ y, p = Some y → HdRel D y l).
Proof.
  induction l as [|x l IH]; intros p Hcheck; cbn.
  { apply decides_ok. repeat split; constructor. }
  eapply decides_iff; [|eapply (decides_seq _ _ (λ _, each_row check (Some x) l)); [apply Hcheck; by left|]].
  2:{ intros _. apply IH. intros q y Hy. apply Hcheck. by right. }
  split.
  - intros [[Hx Hp] (Hl & Hs & Hh)]. split; [by constructor|]. split; [constructor; auto|].
    intros y Hy. constructor. by apply Hp.
  - intros (Hl & Hs & Hh). apply Forall_cons in Hl as [Hx Hl]. apply Sorted_inv in Hs as [Hs Hxs].
    split; [split; [done|]|].
    + intros y Hy. specialize (Hh y Hy). by inversion Hh.
    + split; [done|]. split; [done|]. by intros y [= <-].
Qed.

Lemma for_rows_ok {A} (rows : option (list A)) n l check (P : A → Prop) (D : A → A → Prop) :
  rows_of rows n = Some l →
  (∀ q x, x ∈ l → decides (check q x) (P x ∧ ∀ y, q = Some y → D y x)) →
  decides (for_rows rows n check) (Forall P l ∧ Sorted D l).
Proof.
  intros Hrows Hcheck. unfold for_rows. rewrite Hrows. cbn.
  eapply decides_iff; [|by apply each_row_ok]. cbn. naive_solver.
Qed.

Lemma same_id_ok {A} (key : A → Z) p x :
  same_id key p x = false ↔ ∀ y, p = Some y → key y ≠ key x.
Proof. destruct p as [y|]; cbn; [rewrite Z.eqb_neq|]; naive_solver. Qed.

(** A row is looked up and checked. *)
Lemma decides_found {B} (key : B → Z) (l : list B) (found : option (option (Z * B))) id s
    (f : B → option cflow_machine_status) (P : B → Prop) :
  (∃ r, found = Some r ∧ found_ok key l id r) → NoDup (key <$> l) → s ≠ CFLOW_MACHINE_OK →
  (∀ x, x ∈ l → key x = id → decides (f x) (P x)) →
  decides (r ← found; match r with None => Some s | Some (_, x) => f x end)
    (∃ x, x ∈ l ∧ key x = id ∧ P x).
Proof.
  intros (r & -> & Hr) Hdup Hs Hf. cbn. destruct r as [[i x]|]; cbn in Hr.
  - destruct Hr as [Hx%aget_elem Hid]. destruct (Hf x Hx Hid) as (st & -> & Hst). exists st. split; [done|].
    rewrite Hst. split; [by eauto|]. intros (y & Hy & Hyid & HP).
    by rewrite (key_unique key l x y) by congruence.
  - apply decides_fail; [done|]. intros (x & Hx & <- & _). apply Hr, list_elem_of_fmap. eauto.
Qed.

Lemma decides_bool (b : bool) s :
  s ≠ CFLOW_MACHINE_OK → decides (Some (if b then CFLOW_MACHINE_OK else s)) (b = true).
Proof. intros Hs. destruct b; by eexists. Qed.

(** ** What an implementation describes *)

Record describes (impl : cflow_machine_impl) (S : list cflow_machine_state) (E : list cflow_event_type)
    (G : list cflow_machine_guard) (A : list cflow_machine_action) (T : list cflow_machine_transition) :
    Prop := {
  ds_counts : 0 <= i_state_count impl ∧ 0 <= i_event_count impl ∧ 0 <= i_guard_count impl ∧
    0 <= i_action_count impl ∧ 0 <= i_transition_count impl;
  ds_states : rows_of (i_states impl) (i_state_count impl) = Some S;
  ds_events : rows_of (i_events impl) (i_event_count impl) = Some E;
  ds_guards : rows_of (i_guards impl) (i_guard_count impl) = Some G;
  ds_actions : rows_of (i_actions impl) (i_action_count impl) = Some A;
  ds_transitions : rows_of (i_transitions impl) (i_transition_count impl) = Some T;
  ds_states_sorted : Sorted (λ x y, s_id x <= s_id y) S;
  ds_events_sorted : Sorted (λ x y, e_id x <= e_id y) E;
  ds_guards_sorted : Sorted (λ x y, g_id x <= g_id y) G;
  ds_actions_sorted : Sorted (λ x y, a_id x <= a_id y) A;
  ds_transitions_sorted : Sorted transition_le T
}.

Section Validation.
Context (impl : cflow_machine_impl) (S : list cflow_machine_state) (E : list cflow_event_type)
  (G : list cflow_machine_guard) (A : list cflow_machine_action) (T : list cflow_machine_transition).
Context (Hd : describes impl S E G A T).

Lemma find_state_ok id : ∃ r, find_state impl id = Some r ∧ found_ok s_id S id r.
Proof.
  destruct Hd. apply find_rows_ok; [lia|done|]. apply Sorted_StronglySorted; [apply id_le_trans|done].
Qed.
Lemma find_event_ok id : ∃ r, find_event impl id = Some r ∧ found_ok e_id E id r.
Proof.
  destruct Hd. apply find_rows_ok; [lia|done|]. apply Sorted_StronglySorted; [apply id_le_trans|done].
Qed.
Lemma find_guard_ok id : ∃ r, find_guard impl id = Some r ∧ found_ok g_id G id r.
Proof.
  destruct Hd. apply find_rows_ok; [lia|done|]. apply Sorted_StronglySorted; [apply id_le_trans|done].
Qed.
Lemma find_action_ok id : ∃ r, find_action impl id = Some r ∧ found_ok a_id A id r.
Proof.
  destruct Hd. apply find_rows_ok; [lia|done|]. apply Sorted_StronglySorted; [apply id_le_trans|done].
Qed.


Lemma check_state_ok p x :
  decides (check_state p x) (state_ok x ∧ ∀ y, p = Some y → s_id y ≠ s_id x).
Proof.
  unfold check_state, state_ok.
  destruct (Z.eqb_spec (s_id x) 0); [apply decides_fail; naive_solver|].
  destruct (same_id s_id p x) eqn:Hp.
  { apply decides_fail; [done|]. intros [_ Hy]. apply same_id_ok in Hy. congruence. }
  assert (∀ y, p = Some y → s_id y ≠ s_id x) by by apply same_id_ok.
  destruct (valid_value_type _); cbn [negb]; [|apply decides_fail; naive_solver].
  unfold known_kind. destruct (s_kind x); (apply decides_ok || apply decides_fail); naive_solver.
Qed.

Lemma validate_states_ok :
  decides (validate_state_domain impl)
    ((Forall state_ok S ∧ NoDup (s_id <$> S)) ∧ i_initial_state impl ∈ s_id <$> S).
Proof.
  unfold validate_state_domain.
  pose proof (for_rows_ok _ _ _ check_state state_ok (λ x y, s_id x ≠ s_id y) (ds_states _ _ _ _ _ _ Hd)
    (λ q x _, check_state_ok q x)) as Hfor.
  rewrite (id_adjacent s_id) in Hfor by apply Hd. destruct Hfor as (st & -> & Hst). cbn.
  case_bool_decide as Hok; cbn [negb]; [|exists st; naive_solver].
  destruct (find_state_ok (i_initial_state impl)) as (r & -> & Hr). cbn. rewrite Hst in Hok.
  destruct r as [[i x]|]; cbn in *.
  - apply decides_ok. split; [done|]. destruct Hr as [Hx%aget_elem <-]. apply list_elem_of_fmap. eauto.
  - apply decides_fail; naive_solver.
Qed.

Lemma check_event_ok p x :
  decides (check_event p x) (event_ok x ∧ ∀ y, p = Some y → e_id y ≠ e_id x).
Proof.
  unfold check_event, event_ok.
  destruct (Z.eqb_spec (e_id x) 0); [apply decides_fail; naive_solver|].
  destruct (same_id e_id p x) eqn:Hp.
  { apply decides_fail; [done|]. intros [_ Hy]. apply same_id_ok in Hy. congruence. }
  assert (∀ y, p = Some y → e_id y ≠ e_id x) by by apply same_id_ok.
  destruct (valid_value_type _); cbn [negb]; (apply decides_ok || apply decides_fail); naive_solver.
Qed.

Lemma validate_events_ok :
  decides (validate_event_domain impl) (Forall event_ok E ∧ NoDup (e_id <$> E)).
Proof.
  eapply decides_iff; [|apply for_rows_ok; [apply Hd|intros q x _; apply check_event_ok]].
  by rewrite (id_adjacent e_id) by apply Hd.
Qed.

Context (Hevents : NoDup (e_id <$> E)).

Lemma check_guard_ok p x :
  decides (check_guard impl p x) (guard_ok E x ∧ ∀ y, p = Some y → g_id y ≠ g_id x).
Proof.
  unfold check_guard. eapply decides_iff; cycle 1.
  - apply decides_guard; [done|reflexivity|intros H1].
    apply decides_guard; [done|reflexivity|intros H2].
    apply decides_guard; [done|reflexivity|intros H3].
    apply decides_guard; [done|reflexivity|intros H4].
    eapply (decides_found e_id E _ _ _ _ (λ e, cmeta_type_equal (e_payload_type e) (g_event_type x) = true));
      [apply find_event_ok|done|done|]. intros e He Hid.
    apply decides_last; [done|apply negb_false_iff].
  - rewrite same_id_ok. unfold guard_ok, event_typed.
    rewrite !orb_false_iff, !negb_false_iff, !Z.eqb_neq. unfold cmeta_effects_are_pure.
    rewrite Z.eqb_eq. split; [naive_solver|].
    intros [(? & ? & ? & ? & Hpure & ? & ? & ?) ?]. rewrite Hpure. naive_solver.
Qed.

Lemma validate_guards_ok :
  decides (validate_guard_domain impl) (Forall (guard_ok E) G ∧ NoDup (g_id <$> G)).
Proof.
  eapply decides_iff; [|apply for_rows_ok; [apply Hd|intros q x _; apply check_guard_ok]].
  by rewrite (id_adjacent g_id) by apply Hd.
Qed.

Lemma observation_check_ok x : decides (validate_action_observation impl x) (observation_ok E x).
Proof.
  unfold validate_action_observation, observation_ok. destruct (a_observation x).
  - eapply decides_iff; [|by apply decides_bool]. rewrite andb_true_iff, Z.eqb_eq.
    by destruct (a_output_type x); naive_solver.
  - eapply decides_iff; [|by apply decides_bool]. by rewrite andb_true_iff, Z.eqb_eq.
  - eapply decides_iff; cycle 1.
    + apply decides_guard; [done|reflexivity|intros _].
      eapply (decides_found e_id E _ _ _ _ (λ e, cmeta_type_equal (e_payload_type e) (a_output_type x) = true));
        [apply find_event_ok|done|done|]. intros e He Hid. by apply decides_bool.
    + unfold event_typed. rewrite orb_false_iff, negb_false_iff, Z.eqb_neq. naive_solver.
  - apply decides_fail; [done|tauto].
Qed.

Lemma check_action_ok p x :
  decides (check_action impl p x) (action_ok E x ∧ ∀ y, p = Some y → a_id y ≠ a_id x).
Proof.
  unfold check_action. eapply decides_iff; cycle 1.
  - apply decides_guard; [done|reflexivity|intros H1].
    apply decides_guard; [done|reflexivity|intros H2].
    apply decides_guard; [done|reflexivity|intros H3].
    apply decides_guard; [done|reflexivity|intros H4].
    eapply (decides_found e_id E _ _ _ _
      (λ e, cmeta_type_equal (e_payload_type e) (a_event_type x) = true ∧ observation_ok E x));
      [apply find_event_ok|done|done|]. intros e He Hid.
    apply decides_guard; [done|apply negb_false_iff|intros H5]. apply observation_check_ok.
  - rewrite same_id_ok. unfold action_ok, event_typed.
    rewrite !orb_false_iff, !andb_false_iff, !negb_false_iff, !Z.eqb_neq, !Z.eqb_eq. naive_solver.
Qed.

Lemma validate_actions_ok :
  decides (validate_action_domain impl) (Forall (action_ok E) A ∧ NoDup (a_id <$> A)).
Proof.
  eapply decides_iff; [|apply for_rows_ok; [apply Hd|intros q x _; apply check_action_ok]].
  by rewrite (id_adjacent a_id) by apply Hd.
Qed.
Lemma reference_ok {B} (key : B → Z) (l : list B) find id :
  (∀ id, ∃ r, find id = Some r ∧ found_ok key l id r) →
  ∃ r, find_reference find id = Some r ∧
    match r with
    | None => id ≠ 0 ∧ id ∉ key <$> l
    | Some None => id = 0
    | Some (Some x) => id ≠ 0 ∧ x ∈ l ∧ key x = id
    end.
Proof.
  intros Hfind. unfold find_reference. destruct (Z.eqb_spec id 0); [by eexists|].
  destruct (Hfind id) as (r & -> & Hr). cbn. eexists. split; [done|].
  destruct r as [[i x]|]; [|done]. destruct Hr as [Hx%aget_elem Hid]. done.
Qed.

Context (Hstates : NoDup (s_id <$> S)) (Hguards : NoDup (g_id <$> G)) (Hactions : NoDup (a_id <$> A)).

(** With the states and the event found, what is left to check. *)
Lemma transition_ok_found t source target event :
  source ∈ S → s_id source = t_source t → target ∈ S → s_id target = t_target t →
  event ∈ E → e_id event = t_event t →
  transition_ok S E G A t ↔
  s_kind source = CFLOW_MACHINE_STATE_ACTIVE ∧ guard_fits G t source event ∧
  action_fits A t source target event.
Proof.
  intros Hs Hsid Ht Htid He Heid. split.
  - intros (s & tg & e & Hs' & Hsid' & Hk & Ht' & Htid' & He' & Heid' & Hg & Ha).
    rewrite (key_unique s_id S source s), (key_unique s_id S target tg), (key_unique e_id E event e); congruence || done.
  - intros (Hk & Hg & Ha). exists source, target, event. done.
Qed.

Definition guard_refused (guard : option cflow_machine_guard) t source event : bool :=
  match guard with
  | Some guard =>
      negb (g_event_id guard =? t_event t) ||
      negb (cmeta_type_equal (g_state_type guard) (s_value_type source)) ||
      negb (cmeta_type_equal (g_event_type guard) (e_payload_type event))
  | None => false
  end.

Definition action_refused (action : option cflow_machine_action) t source target event : bool :=
  match action with
  | Some action =>
      negb (a_event_id action =? t_event t) ||
      negb (cmeta_type_equal (a_source_type action) (s_value_type source)) ||
      negb (cmeta_type_equal (a_event_type action) (e_payload_type event)) ||
      negb (cmeta_type_equal (a_target_type action) (s_value_type target))
  | None => negb (cmeta_type_equal (s_value_type source) (s_value_type target))
  end.

Lemma guard_refused_ok guard t source event :
  match guard with None => t_guard t = 0 | Some g => t_guard t ≠ 0 ∧ g ∈ G ∧ g_id g = t_guard t end →
  guard_refused guard t source event = false ↔ guard_fits G t source event.
Proof.
  unfold guard_fits. destruct guard as [g|]; cbn; [|naive_solver]. intros (Hz & Hg & Hid).
  rewrite !orb_false_iff, !negb_false_iff, Z.eqb_eq. split; [naive_solver|].
  intros [?|(g' & Hg' & Hid' & ? & ?)]; [done|]. rewrite (key_unique g_id G g g') by congruence. naive_solver.
Qed.

Lemma action_refused_ok action t source target event :
  match action with None => t_action t = 0 | Some a => t_action t ≠ 0 ∧ a ∈ A ∧ a_id a = t_action t end →
  action_refused action t source target event = false ↔ action_fits A t source target event.
Proof.
  unfold action_fits. destruct action as [a|]; cbn; [|rewrite negb_false_iff; naive_solver].
  intros (Hz & Ha & Hid). rewrite !orb_false_iff, !negb_false_iff, Z.eqb_eq. split; [naive_solver|].
  intros [[? _]|(_ & a' & Ha' & Hid' & ? & ?)]; [done|]. rewrite (key_unique a_id A a a') by congruence. naive_solver.
Qed.

Lemma same_choice_ok p t :
  match p with Some p => same_choice p t | None => false end = false ↔
  ∀ y, p = Some y → choice y ≠ choice t.
Proof.
  destruct p as [p|]; [|naive_solver]. unfold same_choice, choice.
  rewrite !andb_false_iff, !Z.eqb_neq. split.
  - intros H y [= <-] [= ? ? ?]. naive_solver.
  - intros H. specialize (H p eq_refl). destruct (decide (t_source p = t_source t)); [|by auto].
    destruct (decide (t_event p = t_event t)); [|by auto]. right. congruence.
Qed.

Lemma check_transition_ok p t :
  decides (check_transition impl p t)
    (transition_ok S E G A t ∧ ∀ y, p = Some y → choice y ≠ choice t).
Proof.
  unfold check_transition.
  destruct (find_state_ok (t_source t)) as (r1 & -> & H1). cbn.
  destruct (find_state_ok (t_target t)) as (r2 & -> & H2). cbn.
  destruct (find_event_ok (t_event t)) as (r3 & -> & H3). cbn.
  destruct r1 as [[i source]|]; cbn in H1; cycle 1.
  { apply decides_fail; [done|]. intros [(s & ? & ? & Hs & Hid & _) _].
    apply H1. rewrite <- Hid. by apply list_elem_of_fmap_2. }
  destruct H1 as [Hs%aget_elem Hsid].
  destruct r2 as [[j target]|]; cbn in H2; cycle 1.
  { apply decides_fail; [done|]. intros [(? & s & ? & _ & _ & _ & Hs' & Hid & _) _].
    apply H2. rewrite <- Hid. by apply list_elem_of_fmap_2. }
  destruct H2 as [Ht%aget_elem Htid].
  destruct r3 as [[k event]|]; cbn in H3; cycle 1.
  { apply decides_fail; [done|]. intros [(? & ? & e & _ & _ & _ & _ & _ & He & Hid & _) _].
    apply H3. rewrite <- Hid. by apply list_elem_of_fmap_2. }
  destruct H3 as [He%aget_elem Heid]. rewrite (transition_ok_found t source target event) by done.
  destruct (reference_ok g_id G _ (t_guard t) find_guard_ok) as (rg & -> & Hg). cbn.
  destruct rg as [guard|]; cycle 1.
  { apply decides_fail; [done|]. intros [(_ & [?|(g & Hg' & Hgid & _)] & _) _]; [naive_solver|].
    apply Hg. rewrite <- Hgid. by apply list_elem_of_fmap_2. }
  destruct (reference_ok a_id A _ (t_action t) find_action_ok) as (ra & -> & Ha). cbn.
  destruct ra as [action|]; cycle 1.
  { apply decides_fail; [done|]. intros [(_ & _ & [?|(_ & a & Ha' & Haid & _)]) _]; [naive_solver|].
    apply Ha. rewrite <- Haid. by apply list_elem_of_fmap_2. }
  destruct (s_kind source); try (apply decides_fail; [done|naive_solver]).
  fold (guard_refused guard t source event). fold (action_refused action t source target event).
  assert (guard_refused guard t source event = false ↔ guard_fits G t source event) as HG.
  { apply guard_refused_ok. by destruct guard. }
  assert (action_refused action t source target event = false ↔ action_fits A t source target event) as HA.
  { apply action_refused_ok. by destruct action. }
  destruct (guard_refused _ _ _ _); [apply decides_fail; naive_solver|].
  destruct (action_refused _ _ _ _ _); [apply decides_fail; naive_solver|].
  apply (decides_iff _ (∀ y, p = Some y → choice y ≠ choice t)); [tauto|].
  apply decides_last; [done|apply same_choice_ok].
Qed.

Lemma validate_transitions_ok :
  decides (validate_transitions impl) (Forall (transition_ok S E G A) T ∧ NoDup (choice <$> T)).
Proof.
  rewrite <- transition_adjacent by apply Hd.
  apply for_rows_ok; [apply Hd|intros q x _; apply check_transition_ok].
Qed.
End Validation.
