(* ===== verification/MachineBuild.v ===== *)
(** * State machines: the search and the theorems ([cflow/src/machine.c])

    The breadth-first search decides reachability, the flags decide use, and
    [cflow_machine_build] accepts exactly the well-formed definitions. *)

From Stdlib Require Import String Sorted Permutation.
From stdpp Require Import sorting.
From S2P Require Import Prelude World TypeIdentity Machine.
Local Open Scope Z_scope.

(** ** The transitions of a source *)

Lemma first_transition_ok impl T source :
  0 <= i_transition_count impl → rows_of (i_transitions impl) (i_transition_count impl) = Some T →
  StronglySorted (λ x y, t_source x <= t_source y) T →
  ∃ i, first_transition_for_source impl source = Some i ∧ 0 <= i <= alen T ∧
    (∀ j t, aget T j = Some t → j < i → t_source t < source) ∧
    (∀ j t, aget T j = Some t → i <= j → source <= t_source t).
Proof.
  intros Hn Hrows Hs. pose proof (rows_of_alen _ _ _ Hn Hrows) as Hlen.
  unfold first_transition_for_source.
  assert (∀ fuel left right, 0 <= left <= right → right <= i_transition_count impl →
    right - left < Z.of_nat fuel →
    (∀ i x, aget T i = Some x → i < left → t_source x < source) →
    (∀ i x, aget T i = Some x → right <= i → source <= t_source x) →
    ∃ i, first_transition_loop impl source fuel left right = Some i ∧ 0 <= i <= alen T ∧
      (∀ j t, aget T j = Some t → j < i → t_source t < source) ∧
      (∀ j t, aget T j = Some t → i <= j → source <= t_source t)) as Hloop.
  { intros fuel. induction fuel as [|fuel IH]; intros left right Hlr Hr Hf Hlow Hhigh; [lia|].
    cbn [first_transition_loop]. destruct (Z.ltb_spec left right) as [Hlt|Hge].
    - set (m := left + (right - left) / 2).
      assert (left <= m < right) as Hm by (subst m; Z.to_euclidean_division_equations; lia).
      rewrite (row_at_rows _ _ _ m Hrows) by lia.
      destruct (aget_in_bounds T m) as [x Hx]; [lia|]. rewrite Hx. cbn.
      destruct (Z.ltb_spec (t_source x) source).
      + apply IH; try lia; [|done]. intros i y Hy Hi. destruct (decide (i = m)) as [->|]; [by simplify_eq|].
        assert (t_source y <= t_source x) by (apply (sorted_aget _ _ i m y x Hs Hy Hx); lia). lia.
      + apply IH; try lia; [done|]. intros i y Hy Hi. destruct (decide (i = m)) as [->|]; [by simplify_eq|].
        assert (t_source x <= t_source y) by (apply (sorted_aget _ _ m i x y Hs Hx Hy); lia). lia.
    - exists left. split; [done|]. split; [lia|]. split; [done|]. intros j t Ht Hj. apply (Hhigh j); [done|lia]. }
  apply Hloop; try lia; [unfold rounds; lia| |]; intros i x [? _]%aget_Some; lia.
Qed.

(** ** The search *)

Section Search.
Context (impl : cflow_machine_impl) (S : list cflow_machine_state) (E : list cflow_event_type)
  (G : list cflow_machine_guard) (A : list cflow_machine_action) (T : list cflow_machine_transition).
Context (Hd : describes impl S E G A T).
Context (Hstates : NoDup (s_id <$> S)).
Context (Htargets : ∀ t, t ∈ T → t_target t ∈ s_id <$> S).

Local Notation n := (i_state_count impl).

Lemma states_alen : alen S = n.
Proof. apply (rows_of_alen (i_states impl)); [|apply Hd]. pose proof (ds_counts _ _ _ _ _ _ Hd). lia. Qed.

Lemma transitions_alen : alen T = i_transition_count impl.
Proof. apply (rows_of_alen (i_transitions impl)); [|apply Hd]. pose proof (ds_counts _ _ _ _ _ _ Hd). lia. Qed.

(** The queue holds [Q] and the flags say what is in it. *)
Record search_ok (s : search) (Q : list Z) : Prop := {
  so_queue : sr_queue s = (Some <$> Q) ++ replicate (Z.to_nat (n - alen Q)) None;
  so_tail : sr_tail s = alen Q;
  so_flags : alen (sr_reachable s) = n;
  so_flag i x : aget S i = Some x → aget (sr_reachable s) i = Some (bool_decide (s_id x ∈ Q));
  so_nodup : NoDup Q;
  so_ids : Q ⊆ s_id <$> S
}.

(** The queue is never longer than there are states. *)
Lemma search_alen s Q : search_ok s Q → alen Q <= n.
Proof.
  intros [_ _ _ _ Hnd Hids]. rewrite <- states_alen. unfold alen.
  pose proof (submseteq_length Q (s_id <$> S) (NoDup_submseteq _ _ Hnd Hids)) as Hl.
  rewrite length_fmap in Hl. lia.
Qed.

Lemma search_room s Q id : search_ok s Q → id ∈ s_id <$> S → id ∉ Q → alen Q < n.
Proof.
  intros [_ _ _ _ Hnd Hids] Hid Hnew. rewrite <- states_alen. unfold alen.
  assert (NoDup (id :: Q)) as Hnd' by by constructor.
  assert (id :: Q ⊆ s_id <$> S) as Hids' by (intros x [->|Hx]%elem_of_cons; [done|by apply Hids]).
  pose proof (submseteq_length _ _ (NoDup_submseteq _ _ Hnd' Hids')) as Hl.
  rewrite length_fmap in Hl. cbn in Hl. lia.
Qed.

Lemma mark_ok s Q i x :
  search_ok s Q → aget S i = Some x → s_id x ∉ Q →
  ∃ s', mark s i (s_id x) = Some s' ∧ search_ok s' (Q ++ [s_id x]).
Proof.
  intros Hs Hx Hnew. pose proof (aget_elem _ _ _ Hx) as Hin.
  assert (s_id x ∈ s_id <$> S) as Hid by by apply list_elem_of_fmap_2.
  pose proof (search_room s Q (s_id x) Hs Hid Hnew) as Hroom. destruct Hs as [Hq Ht Hf Hflag Hnd Hids].
  destruct (aget_Some _ _ _ Hx) as [Hi _]. rewrite states_alen in Hi.
  unfold mark. destruct (aset_is_Some (sr_reachable s) i true) as [flags Hflags]; [lia|].
  rewrite Hflags. cbn. rewrite Ht, Hq.
  replace (Z.to_nat (n - alen Q)) with (Datatypes.S (Z.to_nat (n - alen (Q ++ [s_id x]))))
    by (unfold alen in *; rewrite length_app; cbn; lia).
  cbn [replicate]. rewrite aset_middle by (unfold alen; by rewrite length_fmap). cbn.
  eexists. split; [done|]. split; cbn.
  - by rewrite fmap_app, <- app_assoc.
  - unfold alen. rewrite length_app. cbn. lia.
  - by rewrite (aset_alen _ _ _ _ Hflags).
  - intros j y Hy. rewrite (aget_aset _ _ _ _ _ Hflags). case_match eqn:Hij.
    + apply Z.eqb_eq in Hij as ->. simplify_eq. rewrite bool_decide_true; [done|]. set_solver.
    + apply Z.eqb_neq in Hij. rewrite (Hflag j y Hy). f_equal. apply bool_decide_ext.
      rewrite elem_of_app, list_elem_of_singleton. split; [by left|]. intros [?|Heq]; [done|].
      assert (y = x) as -> by (apply (key_unique s_id S); eauto using aget_elem).
      exfalso. apply Hij. destruct (aget_Some _ _ _ Hx) as [? Lx], (aget_Some _ _ _ Hy) as [? Ly].
      assert (Z.to_nat j = Z.to_nat i); [|lia].
      apply (NoDup_lookup (s_id <$> S) _ _ (s_id x) Hstates); rewrite list_lookup_fmap; by rewrite ?Lx, ?Ly.
  - rewrite NoDup_app. split; [done|]. split; [|apply NoDup_singleton]. set_solver.
  - set_solver.
Qed.
Lemma by_source : StronglySorted (λ x y, t_source x <= t_source y) T.
Proof.
  apply Sorted_StronglySorted; [intros x y z; lia|].
  apply (Sorted_weaken transition_le); [|apply Hd]. unfold transition_le. lia.
Qed.

(** The inner loop queues the targets that are new. *)
Lemma visit_targets_ok source fuel : ∀ index s Q,
  search_ok s Q → 0 <= index <= alen T → alen T - index < Z.of_nat fuel →
  (∀ j t, aget T j = Some t → index <= j → source <= t_source t) →
  ∃ s' new, visit_targets impl source fuel index s = Some s' ∧ search_ok s' (Q ++ new) ∧
    (∀ x, x ∈ new → ∃ t, t ∈ T ∧ t_source t = source ∧ t_target t = x) ∧
    (∀ j t, aget T j = Some t → index <= j → t_source t = source → t_target t ∈ Q ++ new).
Proof.
  induction fuel as [|fuel IH]; intros index s Q Hs Hi Hf Hge; [lia|]. cbn [visit_targets].
  rewrite <- transitions_alen. destruct (Z.ltb_spec index (alen T)) as [Hlt|Hend]; cycle 1.
  { exists s, []. rewrite app_nil_r. split; [done|]. split; [done|]. split; [by intros x ?%elem_of_nil|].
    intros j t [? _]%aget_Some. lia. }
  rewrite (row_at_rows _ _ _ index (ds_transitions _ _ _ _ _ _ Hd)) by (rewrite <- transitions_alen; lia).
  destruct (aget_in_bounds T index) as [t Ht]; [lia|]. rewrite Ht. cbn [mbind option_bind].
  destruct (Z.eqb_spec (t_source t) source) as [Hsrc|Hsrc]; cycle 1.
  { exists s, []. rewrite app_nil_r. split; [done|]. split; [done|]. split; [by intros x ?%elem_of_nil|].
    intros j t' Ht' Hj Hsrc'. exfalso. specialize (Hge index t Ht ltac:(lia)).
    destruct (decide (j = index)) as [->|]; [congruence|].
    assert (t_source t <= t_source t') by (apply (sorted_aget _ _ index j t t' by_source Ht Ht'); lia). lia. }
  destruct (find_state_ok _ _ _ _ _ _ Hd (t_target t)) as (r & -> & Hr). cbn [mbind option_bind].
  pose proof (aget_elem _ _ _ Ht) as Hin.
  destruct r as [[k x]|]; cbn in Hr; [|destruct (Hr (Htargets t Hin))].
  destruct Hr as [Hx Hid]. cbn [mbind option_bind]. rewrite (so_flag _ _ Hs _ _ Hx). cbn [mbind option_bind].
  assert (∃ s1 add, (if bool_decide (s_id x ∈ Q) then Some s else mark s k (s_id x)) = Some s1 ∧
    search_ok s1 (Q ++ add) ∧ (∀ y, y ∈ add → y = t_target t) ∧ t_target t ∈ Q ++ add)
    as (s1 & add & -> & Hs1 & Hadd & Hdone).
  { case_bool_decide as Hold.
    - exists s, []. rewrite app_nil_r. split; [done|]. split; [done|]. rewrite <- Hid. split; [|done]. by intros y ?%elem_of_nil.
    - destruct (mark_ok s Q k x Hs Hx Hold) as (s1 & -> & Hs1). exists s1, [s_id x].
      split; [done|]. split; [done|]. rewrite <- Hid. set_solver. }
  cbn [mbind option_bind]. destruct (IH (index + 1) s1 (Q ++ add) Hs1) as (s2 & new & Hrun & Hs2 & Hnew & Hall); [lia|lia| |].
  { intros j t' Ht' Hj. apply (Hge j t' Ht'). lia. }
  exists s2, (add ++ new). rewrite Hrun, app_assoc. split; [done|]. split; [done|]. split.
  - intros y [Hy|Hy]%elem_of_app; [|by apply Hnew]. exists t. rewrite (Hadd y Hy). done.
  - intros j t' Ht' Hj Hsrc'. destruct (decide (j = index)) as [->|].
    + simplify_eq. apply elem_of_app. by left.
    + apply (Hall j t' Ht'); [lia|done].
Qed.

(** Everything that leaves the first [k] states of the queue is queued. *)
Definition closed_upto (k : Z) (Q : list Z) : Prop :=
  ∀ x t, x ∈ take (Z.to_nat k) Q → t ∈ T → t_source t = x → t_target t ∈ Q.

(** The outer loop runs until everything queued has been followed. *)
Lemma visit_queue_ok fuel : ∀ head s Q,
  search_ok s Q → 0 <= head <= alen Q → n - head < Z.of_nat fuel →
  Forall (reaches T (i_initial_state impl)) Q → closed_upto head Q →
  ∃ s' Q', visit_queue impl fuel head s = Some s' ∧ search_ok s' Q' ∧ Q ⊆ Q' ∧
    Forall (reaches T (i_initial_state impl)) Q' ∧ closed_upto (alen Q') Q'.
Proof.
  induction fuel as [|fuel IH]; intros head s Q Hs Hh Hf Hreach Hclosed.
  { pose proof (search_alen s Q Hs). lia. }
  cbn [visit_queue]. rewrite (so_tail _ _ Hs).
  destruct (Z.ltb_spec head (alen Q)) as [Hlt|Hend]; cycle 1.
  { exists s, Q. replace (alen Q) with head by lia. by auto. }
  destruct (aget_in_bounds Q head) as [x Hx]; [lia|].
  assert (aget (sr_queue s) head = Some (Some x)) as ->.
  { rewrite (so_queue _ _ Hs). apply aget_Some in Hx as [? Hx]. unfold aget.
    rewrite (proj2 (Z.ltb_ge _ _)), lookup_app_l by (rewrite ?length_fmap; unfold alen in *; lia).
    by rewrite list_lookup_fmap, Hx. }
  cbn [mbind option_bind]. destruct (first_transition_ok impl T x) as (index & -> & Hindex & Hlow & Hge);
    [pose proof (ds_counts _ _ _ _ _ _ Hd); lia|apply Hd|apply by_source|]. cbn [mbind option_bind].
  destruct (visit_targets_ok x (rounds (i_transition_count impl)) index s Q) as (s1 & new & Hrun & Hs1 & Hnew & Hall);
    [done|lia|unfold rounds; rewrite <- transitions_alen; lia|done|].
  rewrite Hrun. cbn [mbind option_bind].
  assert (Forall (reaches T (i_initial_state impl)) (Q ++ new)) as Hreach1.
  { apply Forall_app. split; [done|]. apply Forall_forall. intros y (t & Ht & Hsrc & <-)%Hnew.
    apply reaches_step; [done|]. rewrite Hsrc. rewrite Forall_forall in Hreach. apply Hreach. by eapply aget_elem. }
  destruct (IH (head + 1) s1 (Q ++ new)) as (s' & Q' & Hrun' & Hs' & Hsub & Hreach' & Hclosed'); try done.
  - unfold alen in *. rewrite length_app. lia.
  - lia.
  - intros y t Hy Ht Hsrc.
    assert (y = x ∨ y ∈ take (Z.to_nat head) Q) as [->|Hy'].
    { apply aget_Some in Hx as [? Hx]. replace (Z.to_nat (head + 1)) with (Datatypes.S (Z.to_nat head)) in Hy by lia.
      rewrite take_app_le in Hy by (unfold alen in *; lia).
      rewrite (take_S_r _ _ _ Hx) in Hy. set_solver. }
    + apply elem_aget in Ht as (j & Hj & Ht). apply (Hall j t Ht); [|done].
      destruct (Z.lt_ge_cases j index) as [Hj'|]; [|done]. specialize (Hlow j t Ht Hj'). lia.
    + apply elem_of_app. left. by apply (Hclosed y t).
  - exists s', Q'. split; [done|]. split; [done|]. split; [set_solver|]. done.
Qed.
Lemma all_set_ok flags : alen flags = n → ∃ b, all_set flags n = Some b ∧
  (b = true ↔ ∀ i, 0 <= i < n → aget flags i = Some true).
Proof.
  intros Hlen. unfold all_set. rewrite (proj2 (Z.ltb_ge _ _)) by lia.
  rewrite take_ge by (unfold alen in *; lia). eexists. split; [done|]. rewrite forallb_forall. split.
  - intros H i Hi. destruct (aget_in_bounds flags i) as [b Hb]; [lia|]. rewrite Hb. f_equal.
    apply (H b). apply list_elem_of_In. by eapply aget_elem.
  - intros H b Hb%list_elem_of_In. apply elem_aget in Hb as (i & Hi & Hb).
    rewrite H in Hb by lia. by simplify_eq.
Qed.

Lemma search_start : search_ok
  (MkSearch (replicate (Z.to_nat n) false) (replicate (Z.to_nat n) None) 0) [].
Proof.
  pose proof (ds_counts _ _ _ _ _ _ Hd) as Hc.
  split; cbn; [by rewrite Z.sub_0_r|done|unfold alen; rewrite length_replicate; lia| |constructor|set_solver].
  intros i x [Hi _]%aget_Some. rewrite states_alen in Hi. unfold aget.
  rewrite (proj2 (Z.ltb_ge _ _)) by lia. by apply lookup_replicate_2; lia.
Qed.

(** The search finds exactly the states that can be reached. *)
Lemma search_reachable_ok :
  i_initial_state impl ∈ s_id <$> S →
  ∃ b, search_reachable impl (replicate (Z.to_nat n) false) (replicate (Z.to_nat n) None) = Some b ∧
    (b = true ↔ ∀ s, s ∈ S → reaches T (i_initial_state impl) (s_id s)).
Proof.
  intros Hinit. unfold search_reachable.
  destruct (find_state_ok _ _ _ _ _ _ Hd (i_initial_state impl)) as (r & -> & Hr). cbn [mbind option_bind].
  destruct r as [[i x]|]; cbn in Hr; [|done]. destruct Hr as [Hx Hid]. cbn [mbind option_bind].
  destruct (mark_ok _ _ i x search_start Hx) as (s & -> & Hs); [apply not_elem_of_nil|].
  cbn [mbind option_bind app] in *. pose proof (search_alen _ _ Hs) as Hn1. cbn in Hn1.
  destruct (visit_queue_ok (rounds n) 0 s [s_id x] Hs) as (s' & Q & -> & Hs' & Hsub & Hreach & Hclosed).
  - unfold alen. cbn. lia.
  - unfold rounds. lia.
  - constructor; [rewrite Hid; constructor|constructor].
  - intros y t Hy. cbn in Hy. by apply elem_of_nil in Hy.
  - cbn [mbind option_bind]. destruct (all_set_ok _ (so_flags _ _ Hs')) as (b & -> & Hb).
    exists b. split; [done|]. rewrite Hb, <- states_alen. split.
    + intros Hall y Hy. apply elem_aget in Hy as (j & Hj & Hy). specialize (Hall j Hj).
      rewrite (so_flag _ _ Hs' _ _ Hy) in Hall. injection Hall as Hall%bool_decide_eq_true_1.
      rewrite Forall_forall in Hreach. by apply Hreach.
    + intros Hall j Hj. destruct (aget_in_bounds S j) as [y Hy]; [done|].
      rewrite (so_flag _ _ Hs' _ _ Hy). f_equal. apply bool_decide_true.
      assert (∀ z, reaches T (i_initial_state impl) z → z ∈ Q) as Hincl.
      { induction 1 as [|t Ht _ IH]; [rewrite <- Hid; apply Hsub; by left|].
        apply (Hclosed (t_source t) t); try done. unfold alen. by rewrite Nat2Z.id, take_ge. }
      apply Hincl, Hall. by eapply aget_elem.
Qed.
End Search.

(** ** Declarations in use *)

Section Use.
Context {B : Type} (key : B → Z) (l : list B) (find : Z → option (option (Z * B))).
Context (Hfind : ∀ id, ∃ r, find id = Some r ∧ found_ok key l id r) (Hkeys : NoDup (key <$> l)).

(** The flags of the rows that the references seen so far name; nothing is
    allocated when there are no rows. *)
Definition use_ok (used : option (list bool)) (seen : list Z) : Prop :=
  match used with
  | None => l = []
  | Some flags =>
      alen flags = alen l ∧
      ∀ i x, aget l i = Some x → aget flags i = Some (bool_decide (key x ∈ seen ∧ key x ≠ 0))
  end.

Lemma use_reference_ok used seen id :
  use_ok used seen → (id ≠ 0 → id ∈ key <$> l) →
  ∃ used', use_reference find id used = Some used' ∧ use_ok used' (seen ++ [id]).
Proof.
  intros Hused Hid. unfold use_reference. destruct (Z.eqb_spec id 0) as [->|Hz].
  { exists used. split; [done|]. destruct used as [flags|]; [|done]. destruct Hused as [Hlen Hflag].
    split; [done|]. intros i x Hx. rewrite (Hflag i x Hx). f_equal. apply bool_decide_ext.
    rewrite elem_of_app, list_elem_of_singleton. naive_solver. }
  destruct (Hfind id) as (r & -> & Hr). cbn [mbind option_bind].
  destruct r as [[i x]|]; cbn in Hr; [|by destruct (Hr (Hid Hz))]. destruct Hr as [Hx Hxid].
  cbn [mbind option_bind]. destruct (aget_Some _ _ _ Hx) as [Hi Lx].
  destruct used as [flags|]; cbn in Hused; [|rewrite Hused in Hi; unfold alen in Hi; cbn in Hi; lia].
  destruct Hused as [Hlen Hflag]. cbn [mbind option_bind].
  destruct (aset_is_Some flags i true) as [flags' Hset]; [lia|]. rewrite Hset. cbn [mbind option_bind].
  eexists. split; [done|]. split; [by rewrite (aset_alen _ _ _ _ Hset)|].
  intros j y Hy. rewrite (aget_aset _ _ _ _ _ Hset). destruct (Z.eqb_spec j i) as [->|Hij].
  - simplify_eq. rewrite bool_decide_true; [done|]. split; [|congruence]. rewrite elem_of_app. right. by left.
  - rewrite (Hflag j y Hy). f_equal. apply bool_decide_ext. rewrite elem_of_app, list_elem_of_singleton.
    split; [naive_solver|]. intros [[?|Heq] ?]; [done|]. exfalso. apply Hij.
    destruct (aget_Some _ _ _ Hy) as [? Ly]. assert (Z.to_nat j = Z.to_nat i); [|lia].
    apply (NoDup_lookup (key <$> l) _ _ (key x) Hkeys); rewrite list_lookup_fmap, ?Lx, ?Ly; cbn; congruence.
Qed.

Lemma used_all_ok used seen n :
  use_ok used seen → alen l = n → Forall (λ x, key x ≠ 0) l →
  ∃ b, used_all used n = Some b ∧ (b = true ↔ ∀ x, x ∈ l → key x ∈ seen).
Proof using Type.
  intros Hused Hn Hnz. unfold used_all. destruct (Z.eqb_spec n 0) as [Hz|Hz].
  { exists true. split; [done|]. split; [|done]. intros _ x Hx. destruct (elem_aget _ _ Hx) as (i & Hi & _). lia. }
  destruct used as [flags|]; cbn in Hused; [|rewrite Hused in Hn; unfold alen in Hn; cbn in Hn; lia]. destruct Hused as [Hlen Hflag].
  cbn [mbind option_bind]. unfold all_set. rewrite (proj2 (Z.ltb_ge _ _)) by lia.
  rewrite take_ge by (unfold alen in *; lia). eexists. split; [done|]. rewrite forallb_forall.
  rewrite Forall_forall in Hnz. split.
  - intros H x Hx. destruct (elem_aget _ _ Hx) as (i & Hi & Hxi). specialize (Hflag i x Hxi).
    assert (bool_decide (key x ∈ seen ∧ key x ≠ 0) = true) as Hb.
    { apply (H _). apply list_elem_of_In. by eapply aget_elem. }
    apply bool_decide_eq_true in Hb. tauto.
  - intros H b Hb%list_elem_of_In. apply elem_aget in Hb as (i & Hi & Hb).
    destruct (aget_in_bounds l i) as [x Hx]; [lia|]. rewrite (Hflag i x Hx) in Hb. injection Hb as <-.
    pose proof (aget_elem _ _ _ Hx). apply bool_decide_true. auto.
Qed.
End Use.

Section Used.
Context (impl : cflow_machine_impl) (S : list cflow_machine_state) (E : list cflow_event_type)
  (G : list cflow_machine_guard) (A : list cflow_machine_action) (T : list cflow_machine_transition).
Context (Hd : describes impl S E G A T).
Context (Hgids : NoDup (g_id <$> G)) (Haids : NoDup (a_id <$> A)).

Lemma use_declarations_ok rows : ∀ gu au gs acts,
  use_ok g_id G gu gs → use_ok a_id A au acts → Forall (transition_ok S E G A) rows →
  ∃ gu' au', use_declarations impl rows gu au = Some (gu', au') ∧
    use_ok g_id G gu' (gs ++ (t_guard <$> rows)) ∧ use_ok a_id A au' (acts ++ (t_action <$> rows)).
Proof.
  induction rows as [|t rows IH]; intros gu au gs acts Hg Ha Hok; cbn [use_declarations].
  { exists gu, au. by rewrite !app_nil_r. }
  apply Forall_cons in Hok as [(source & target & event & _ & _ & _ & _ & _ & _ & _ & Hgf & Haf) Hok].
  destruct (use_reference_ok g_id G _ (find_guard_ok _ _ _ _ _ _ Hd) Hgids gu gs (t_guard t) Hg) as (gu' & -> & Hg').
  { intros Hz. destruct Hgf as [?|(g & Hin & <- & _)]; [done|]. by apply list_elem_of_fmap_2. }
  cbn [mbind option_bind].
  destruct (use_reference_ok a_id A _ (find_action_ok _ _ _ _ _ _ Hd) Haids au acts (t_action t) Ha) as (au' & -> & Ha').
  { intros Hz. destruct Haf as [[? _]|(_ & a & Hin & <- & _)]; [done|]. by apply list_elem_of_fmap_2. }
  cbn [mbind option_bind].
  destruct (IH gu' au' _ _ Hg' Ha' Hok) as (gu2 & au2 & -> & Hg2 & Ha2). exists gu2, au2.
  rewrite !fmap_cons. by rewrite <- !app_assoc in Hg2, Ha2.
Qed.

Definition all_used : Prop :=
  (∀ g, g ∈ G → ∃ t, t ∈ T ∧ t_guard t = g_id g) ∧ (∀ a, a ∈ A → ∃ t, t ∈ T ∧ t_action t = a_id a).

Lemma declarations_used_ok gu au :
  use_ok g_id G gu [] → use_ok a_id A au [] → Forall (transition_ok S E G A) T →
  Forall (λ g, g_id g ≠ 0) G → Forall (λ a, a_id a ≠ 0) A →
  ∃ b, declarations_used impl gu au = Some b ∧ (b = true ↔ all_used).
Proof.
  intros Hg Ha Hok HGz HAz. unfold declarations_used. rewrite (ds_transitions _ _ _ _ _ _ Hd).
  cbn [mbind option_bind]. destruct (use_declarations_ok T gu au [] [] Hg Ha Hok) as (gu' & au' & -> & Hg' & Ha').
  cbn [mbind option_bind app] in *. pose proof (ds_counts _ _ _ _ _ _ Hd) as Hc.
  destruct (used_all_ok g_id G gu' (t_guard <$> T) (i_guard_count impl) Hg') as (b & -> & Hb);
    [apply (rows_of_alen (i_guards impl)); [lia|apply Hd]|done|].
  cbn [mbind option_bind]. unfold all_used.
  assert ((∀ g, g ∈ G → g_id g ∈ t_guard <$> T) ↔ ∀ g, g ∈ G → ∃ t, t ∈ T ∧ t_guard t = g_id g) as HG.
  { setoid_rewrite list_elem_of_fmap. naive_solver. }
  assert ((∀ a, a ∈ A → a_id a ∈ t_action <$> T) ↔ ∀ a, a ∈ A → ∃ t, t ∈ T ∧ t_action t = a_id a) as HA.
  { setoid_rewrite list_elem_of_fmap. naive_solver. }
  rewrite HG in Hb. destruct b; cbn [negb]; cycle 1.
  { exists false. split; [done|]. split; [done|]. intros [H _]. by apply Hb. }
  destruct (used_all_ok a_id A au' (t_action <$> T) (i_action_count impl) Ha') as (b & -> & Hb');
    [apply (rows_of_alen (i_actions impl)); [lia|apply Hd]|done|].
  exists b. split; [done|]. rewrite Hb', HA. tauto.
Qed.
End Used.

(** ** Checks that allocate *)

Definition same_memory (w w' : world) : Prop :=
  w_blocks w' = w_blocks w ∧ w_objects w' = w_objects w.

(** [decidesM x P k]: the check has a result and frees what it allocates;
    [OK] means [P]; it misses [P] only for want of memory, and needs at most
    [k] allocations. *)
Definition decidesM (x : M cflow_machine_status) (P : Prop) (k : nat) : Prop :=
  ∀ w, ∃ st w', x w = Some (st, w') ∧ same_memory w w' ∧
    (st = CFLOW_MACHINE_OK → P) ∧
    (st ≠ CFLOW_MACHINE_ALLOCATION_FAILED → P → st = CFLOW_MACHINE_OK) ∧
    (∀ j, supply (k + j) w → (P → st = CFLOW_MACHINE_OK) ∧ supply j w').

Lemma decidesM_lift x P : decides x P → decidesM (lift x) P 0.
Proof.
  intros (st & -> & Hst) w. exists st, w. split; [done|]. split; [done|]. split; [apply Hst|].
  split; [intros _; apply Hst|]. intros j Hj. split; [apply Hst|done].
Qed.

Lemma decidesM_iff x P Q k : (P ↔ Q) → decidesM x P k → decidesM x Q k.
Proof.
  intros HPQ Hx w. destruct (Hx w) as (st & w' & Hrun & Hm & Hok & Hmiss & Hsup). exists st, w'.
  split; [done|]. split; [done|]. split; [by intros ?%Hok%HPQ|]. split; [by intros ? ?%HPQ; apply Hmiss|].
  intros j [HP Hj]%Hsup. split; [|done]. by intros ?%HPQ%HP.
Qed.

Lemma decidesM_seq x P k y Q k' :
  decidesM x P k → (P → decidesM y Q k') →
  decidesM (st ← x; and_then st y) (P ∧ Q) (k + k').
Proof.
  intros Hx Hy w. destruct (Hx w) as (st & w1 & Hrun & Hm & Hok & Hmiss & Hsup).
  wstep Hrun. unfold and_then. case_bool_decide as Hst.
  - destruct (Hy (Hok Hst) w1) as (st2 & w2 & Hrun2 & Hm2 & Hok2 & Hmiss2 & Hsup2).
    exists st2, w2. split; [done|]. unfold same_memory in *. split; [naive_solver congruence|].
    split; [by auto|]. split; [naive_solver|]. intros j Hj. rewrite <- Nat.add_assoc in Hj.
    apply Hsup in Hj as [_ Hj]. apply Hsup2 in Hj as [HQ Hj]. naive_solver.
  - exists st, w1. split; [done|]. split; [done|]. split; [done|]. split; [naive_solver|].
    intros j Hj. apply (supply_weaken _ (k + j)) in Hj as Hj'; [|lia]. destruct (Hsup j Hj'). naive_solver.
Qed.

(** An allocation of cells: they are there, or the answer was [NULL]. *)
Lemma alloc_cells_ok {A} count (cell : A) w :
  ∃ r w', alloc_cells count cell w = Some (r, w') ∧
    (r = None ∨ r = Some (replicate (Z.to_nat count) cell)) ∧
    w_blocks w' = w_blocks w + (if is_null r then 0 else 1) ∧ w_objects w' = w_objects w ∧
    ∀ j, supply (S j) w → is_null r = false ∧ supply j w'.
Proof.
  unfold alloc_cells, malloc, mbind, M_bind, supply. destruct (w_malloc w) as [|[p|] l] eqn:Hw; cbn.
  - exists None, w. split; [done|]. split; [by left|]. split; [cbn; lia|]. split; [done|]. rewrite Hw. cbn. lia.
  - eexists _, _. split; [done|]. split; [by right|]. split; [done|]. split; [done|].
    cbn. intros j [Hj [_ Hs]%Forall_cons]. split; [done|]. split; [lia|done].
  - eexists None, _. split; [done|]. split; [by left|]. split; [cbn; lia|]. split; [done|].
    cbn. intros j [Hj [[] _]%Forall_cons]. done.
Qed.

Lemma free_ptr_run {A} (p : option A) w :
  free_ptr p w = Some (tt, MkWorld (w_malloc w) (w_blocks w - (if is_null p then 0 else 1)) (w_objects w)).
Proof. destruct p; cbn; [done|]. rewrite Z.sub_0_r. by destruct w. Qed.

(** The limits keep the sizes of the arrays in range. *)
Lemma checked_bytes_ok count width :
  count <= CFLOW_MACHINE_MAX_TRANSITIONS → 0 < width <= 72 →
  checked_bytes count width = Some (count * width).
Proof.
  unfold CFLOW_MACHINE_MAX_TRANSITIONS. intros Hc Hw. unfold checked_bytes.
  rewrite (proj2 (Z.ltb_ge (SIZE_MAX / width) count)); [by rewrite andb_false_r|].
  transitivity 1048576; [done|]. apply Z.div_le_lower_bound; [lia|].
  transitivity (72 * 1048576); [lia|]. done.
Qed.

Section Validate.
Context (impl : cflow_machine_impl) (S : list cflow_machine_state) (E : list cflow_event_type)
  (G : list cflow_machine_guard) (A : list cflow_machine_action) (T : list cflow_machine_transition).
Context (Hd : describes impl S E G A T).

Definition all_reached : Prop := ∀ s, s ∈ S → reaches T (i_initial_state impl) (s_id s).

Lemma validate_reachability_ok :
  NoDup (s_id <$> S) → Forall (transition_ok S E G A) T → i_initial_state impl ∈ s_id <$> S →
  i_state_count impl <= CFLOW_MACHINE_MAX_STATES →
  decidesM (validate_reachability impl) all_reached 2.
Proof.
  intros Hids Hok Hinit Hmax w. unfold validate_reachability.
  rewrite checked_bytes_ok; [|unfold CFLOW_MACHINE_MAX_STATES, CFLOW_MACHINE_MAX_TRANSITIONS in *; lia|lia].
  destruct (alloc_cells_ok (i_state_count impl) false w) as (r1 & w1 & Hrun1 & Hr1 & Hb1 & Ho1 & Hs1).
  destruct (alloc_cells_ok (i_state_count impl) (None : option Z) w1) as (r2 & w2 & Hrun2 & Hr2 & Hb2 & Ho2 & Hs2).
  wstep Hrun1. wstep Hrun2.
  assert (∀ j, supply (2 + j) w → is_null r1 = false ∧ is_null r2 = false ∧ supply j w2) as Hsup.
  { intros j [Hn1 [Hn2 Hj]%Hs2]%Hs1. done. }
  destruct r1 as [flags|], r2 as [cells|];
    (rewrite !(run_bind _ _ _ _ _ (free_ptr_run _ _)); rewrite run_ret) ||
    (destruct Hr1 as [?|[= ->]]; [done|]; destruct Hr2 as [?|[= ->]]; [done|];
     destruct (search_reachable_ok impl S E G A T Hd Hids) as (b & -> & Hb); [|done|];
     [intros t Ht; rewrite Forall_forall in Hok; destruct (Hok t Ht) as (? & target & ? & _ & _ & _ & Ht' & <- & _);
      by apply list_elem_of_fmap_2|];
     rewrite run_lift_bind, !(run_bind _ _ _ _ _ (free_ptr_run _ _)); rewrite run_ret).
  all: eexists _, _; (split; [reflexivity|]); (split; [unfold same_memory; cbn in *; lia|]).
  all: split; [|split]; [..|intros j Hj; apply Hsup in Hj as (? & ? & Hj); split].
  all: try done; try (by eapply supply_malloc, Hj).
  all: unfold all_reached; destruct b; naive_solver.
Qed.
(** The flags of a set of declarations: none are needed when it is empty. *)
Lemma alloc_flags_ok {B} (key : B → Z) (l : list B) count w :
  alen l = count →
  ∃ r w', alloc_flags count w = Some (r, w') ∧
    (negb (count =? 0) && is_null r = false → use_ok key l r []) ∧
    w_blocks w' = w_blocks w + (if is_null r then 0 else 1) ∧ w_objects w' = w_objects w ∧
    ∀ j, supply (1 + j) w → negb (count =? 0) && is_null r = false ∧ supply j w'.
Proof.
  intros Hlen. unfold alloc_flags. destruct (Z.eqb_spec count 0) as [Hz|Hz]; cbn [negb andb].
  { exists None, w. split; [done|]. split; [intros _; destruct l; [done|unfold alen in *; cbn in *; lia]|]. split; [cbn; lia|]. split; [done|].
    intros j Hj. split; [done|]. eapply supply_weaken; [|done]. lia. }
  destruct (alloc_cells_ok count false w) as (r & w' & Hrun & Hr & Hb & Ho & Hs).
  exists r, w'. split; [done|]. split; [|by auto]. destruct Hr as [->| ->]; [done|]. intros _. cbn.
  split; [unfold alen in *; rewrite length_replicate; lia|]. intros i x [Hi _]%aget_Some. unfold aget.
  by rewrite (proj2 (Z.ltb_ge _ _)), lookup_replicate_2 by lia.
Qed.

Lemma validate_use_ok :
  NoDup (g_id <$> G) → NoDup (a_id <$> A) → Forall (transition_ok S E G A) T →
  Forall (guard_ok E) G → Forall (action_ok E) A →
  decidesM (validate_declaration_use impl) (all_used G A T) 2.
Proof.
  intros Hg Ha Hok Hgok Haok w. unfold validate_declaration_use. pose proof (ds_counts _ _ _ _ _ _ Hd) as Hc.
  assert (alen G = i_guard_count impl) as Hlg by (apply (rows_of_alen (i_guards impl)); [lia|apply Hd]).
  assert (alen A = i_action_count impl) as Hla by (apply (rows_of_alen (i_actions impl)); [lia|apply Hd]).
  destruct (alloc_flags_ok g_id G _ w Hlg) as (gu & w1 & Hrun1 & Hu1 & Hb1 & Ho1 & Hs1).
  wstep Hrun1. destruct (negb (i_guard_count impl =? 0) && is_null gu) eqn:Hn1.
  { apply andb_true_iff in Hn1 as [_ Hn1]. rewrite Hn1 in Hb1. rewrite run_ret. eexists _, _.
    split; [reflexivity|]. split; [unfold same_memory; lia|]. split; [done|]. split; [done|].
    intros j [? _]%Hs1. done. }
  destruct (alloc_flags_ok a_id A _ w1 Hla) as (au & w2 & Hrun2 & Hu2 & Hb2 & Ho2 & Hs2).
  wstep Hrun2. destruct (negb (i_action_count impl =? 0) && is_null au) eqn:Hn2.
  { apply andb_true_iff in Hn2 as [_ Hn2]. rewrite Hn2 in Hb2.
    rewrite (run_bind _ _ _ _ _ (free_ptr_run _ _)), run_ret. eexists _, _.
    split; [reflexivity|]. split; [unfold same_memory; cbn; lia|]. split; [done|]. split; [done|].
    intros j [_ [? _]%Hs2]%Hs1. done. }
  destruct (declarations_used_ok impl S E G A T Hd Hg Ha gu au) as (b & -> & Hb); auto.
  { eapply Forall_impl; [exact Hgok|]. by intros g [? _]. }
  { eapply Forall_impl; [exact Haok|]. by intros a [? _]. }
  rewrite run_lift_bind, !(run_bind _ _ _ _ _ (free_ptr_run _ _)), run_ret.
  eexists _, _. split; [reflexivity|]. split; [unfold same_memory; cbn in *; lia|].
  split; [destruct b; naive_solver|]. split; [destruct b; naive_solver|].
  intros j [_ [_ Hj]%Hs2]%Hs1. split; [destruct b; naive_solver|]. by eapply supply_malloc, Hj.
Qed.

(** Validation decides well-formedness. *)
Lemma validate_machine_ok :
  i_state_count impl <= CFLOW_MACHINE_MAX_STATES →
  decidesM (validate_machine impl) (well_formed S (i_initial_state impl) E G A T) 4.
Proof.
  intros Hmax.
  set (P := ((Forall state_ok S ∧ NoDup (s_id <$> S)) ∧ i_initial_state impl ∈ s_id <$> S) ∧
     (Forall event_ok E ∧ NoDup (e_id <$> E)) ∧ (Forall (guard_ok E) G ∧ NoDup (g_id <$> G)) ∧
     (Forall (action_ok E) A ∧ NoDup (a_id <$> A)) ∧
     (Forall (transition_ok S E G A) T ∧ NoDup (choice <$> T)) ∧ all_reached ∧ all_used G A T).
  assert (decidesM (validate_machine impl) P (0 + (0 + (0 + (0 + (0 + (2 + 2))))))) as H.
  { apply decidesM_seq; [apply decidesM_lift, (validate_states_ok _ _ _ _ _ _ Hd)|intros [[_ HS] Hi]].
    apply decidesM_seq; [apply decidesM_lift, (validate_events_ok _ _ _ _ _ _ Hd)|intros [_ HE]].
    apply decidesM_seq; [by apply decidesM_lift, (validate_guards_ok _ _ _ _ _ _ Hd)|intros [HG1 HG]].
    apply decidesM_seq; [by apply decidesM_lift, (validate_actions_ok _ _ _ _ _ _ Hd)|intros [HA1 HA]].
    apply decidesM_seq; [by apply decidesM_lift, (validate_transitions_ok _ _ _ _ _ _ Hd)|intros [HT _]].
    apply decidesM_seq; [by apply validate_reachability_ok|intros _]. by apply validate_use_ok. }
  revert H. apply decidesM_iff.
  unfold P, all_used, all_reached. split; [intros; destruct_and!; by constructor|by intros []].
Qed.
End Validate.

(** ** Copying, sorting and destroying *)

(** Well-formedness does not depend on the order of the declarations. *)
Lemma well_formed_perm S S' i E E' G G' A A' T T' :
  S ≡ₚ S' → E ≡ₚ E' → G ≡ₚ G' → A ≡ₚ A' → T ≡ₚ T' →
  well_formed S i E G A T → well_formed S' i E' G' A' T'.
Proof.
  intros HS HE HG HA HT [? ? ? ? ? Hg ? Ha ? Ht ? Hr Hgu Hau].
  assert (∀ id ty, event_typed E id ty → event_typed E' id ty) as Hev.
  { intros id ty (e & He & ?). exists e. by rewrite <- HE. }
  split; try (by rewrite <- ?HS, <- ?HE, <- ?HG, <- ?HA, <- ?HT).
  - rewrite <- HG. eapply Forall_impl; [exact Hg|]. unfold guard_ok. naive_solver.
  - rewrite <- HA. eapply Forall_impl; [exact Ha|]. unfold action_ok, observation_ok.
    intros a. destruct (a_observation a); naive_solver.
  - rewrite <- HT. eapply Forall_impl; [exact Ht|].
    intros t (s & tg & e & ? & ? & ? & ? & ? & ? & ? & Hgf & Haf).
    exists s, tg, e. rewrite <- HS, <- HE. repeat (split; [done|]). split.
    + destruct Hgf as [?|(g & ? & ?)]; [by left|right]. exists g. by rewrite <- HG.
    + destruct Haf as [?|(? & a & ? & ?)]; [by left|right]. split; [done|]. exists a. by rewrite <- HA.
  - intros s. rewrite <- HS. intros Hs. specialize (Hr s Hs). revert Hr. generalize (s_id s). clear -HT.
    induction 1 as [|t Ht _ IH]; [constructor|]. apply reaches_step; [by rewrite <- HT|done].
  - intros g. rewrite <- HG. intros (t & ? & ?)%Hgu. exists t. by rewrite <- HT.
  - intros a. rewrite <- HA. intros (t & ? & ?)%Hau. exists t. by rewrite <- HT.
Qed.

(** What [copy_rows] leaves for the rows [l]. *)
Definition holds_rows {A} (r : option (list A)) (count : Z) (l : list A) : Prop :=
  (count = 0 ∧ r = None ∧ l = []) ∨ (0 < count ∧ r = Some l ∧ alen l = count).

Lemma copy_rows_ok {A} (rows : option (list A)) count width l w :
  0 <= count → 0 < width → rows_of rows count = Some l →
  ∃ r w', copy_rows rows count (count * width) w = Some (r, w') ∧
    (missing (count * width) r = false → holds_rows r count l) ∧
    w_blocks w' = w_blocks w + (if is_null r then 0 else 1) ∧ w_objects w' = w_objects w ∧
    ∀ j, supply (1 + j) w → missing (count * width) r = false ∧ supply j w'.
Proof.
  intros Hc Hw Hl. pose proof (rows_of_alen _ _ _ Hc Hl) as Hlen. unfold copy_rows, missing.
  destruct (Z.eqb_spec (count * width) 0) as [Hz|Hz]; cbn [negb andb].
  { assert (count = 0) as -> by nia. exists None, w. split; [done|]. split.
    - intros _. left. split; [done|]. split; [done|]. destruct l; [done|unfold alen in *; cbn in *; lia].
    - split; [cbn; lia|]. split; [done|]. intros j Hj. split; [done|]. eapply supply_weaken; [|done]. lia. }
  assert (0 < count) by nia. unfold malloc, mbind, M_bind, supply.
  destruct (w_malloc w) as [|[p|] m] eqn:Hm; cbn.
  - exists None, w. split; [done|]. split; [done|]. split; [cbn; lia|]. split; [done|]. rewrite Hm. cbn. lia.
  - rewrite Hl. cbn. eexists _, _. split; [done|]. split; [by right|]. split; [done|]. split; [done|].
    cbn. intros j [Hj [_ Hs]%Forall_cons]. split; [done|]. split; [lia|done].
  - eexists None, _. split; [done|]. split; [done|]. split; [cbn; lia|]. split; [done|].
    cbn. intros j [Hj [[] _]%Forall_cons]. done.
Qed.

Lemma machine_destroy_run i w :
  machine_impl_destroy (Some i) w =
  Some (tt, MkWorld (w_malloc w) (w_blocks w - (if is_null (i_transitions i) then 0 else 1) -
    (if is_null (i_actions i) then 0 else 1) - (if is_null (i_guards i) then 0 else 1) -
    (if is_null (i_events i) then 0 else 1) - (if is_null (i_states i) then 0 else 1) - 1) (w_objects w)).
Proof. unfold machine_impl_destroy. by rewrite !(run_bind _ _ _ _ _ (free_ptr_run _ _)). Qed.

Section Building.
Context `{QSort}.

Lemma sort_rows_ok {A} (cmp : A → A → Z) count r l :
  holds_rows r count l → comparison_ok cmp →
  ∃ l', rows_of (sort_rows cmp count r) count = Some l' ∧ l' ≡ₚ l ∧ Sorted (λ x y, cmp x y <= 0) l' ∧
    is_null (sort_rows cmp count r) = is_null r.
Proof.
  intros [(-> & -> & ->)|(Hc & -> & Hlen)] Hcmp.
  { exists []. repeat split; constructor. }
  assert (∃ l', sort_rows cmp count (Some l) = Some l' ∧ l' ≡ₚ l ∧ Sorted (λ x y, cmp x y <= 0) l')
    as (l' & Hl' & Hp & Hs).
  { unfold sort_rows. destruct (Z.ltb_spec 1 count).
    - exists (qsort cmp l). split; [done|]. split; [apply qsort_perm|by apply qsort_sorted].
    - exists l. split; [done|]. split; [done|]. unfold alen in Hlen.
      destruct l as [|x [|y l]]; [constructor|repeat constructor|cbn in Hlen; lia]. }
  exists l'. rewrite Hl'. split; [|done]. apply Permutation_length in Hp as Hn.
  unfold rows_of, alen in *. cbn. rewrite (proj2 (Z.eqb_neq _ _)) by lia.
  rewrite (proj2 (Z.ltb_ge _ _)) by lia. by rewrite take_ge by lia.
Qed.
(** A pointer and a count as callers pass them: the count is not negative,
    and what is not null has that many rows. *)
Definition array_ok {A} (rows : option (list A)) (count : Z) : Prop :=
  0 <= count ∧ ∀ l, rows = Some l → count <= alen l.

Definition arrays_ok (d : cflow_machine_definition) : Prop :=
  array_ok (d_states d) (d_state_count d) ∧ array_ok (d_events d) (d_event_count d) ∧
  array_ok (d_guards d) (d_guard_count d) ∧ array_ok (d_actions d) (d_action_count d) ∧
  array_ok (d_transitions d) (d_transition_count d).

Definition within_limits (d : cflow_machine_definition) : Prop :=
  0 < d_state_count d <= CFLOW_MACHINE_MAX_STATES ∧ d_event_count d <= CFLOW_MACHINE_MAX_EVENTS ∧
  d_guard_count d <= CFLOW_MACHINE_MAX_GUARDS ∧ d_action_count d <= CFLOW_MACHINE_MAX_ACTIONS ∧
  d_transition_count d <= CFLOW_MACHINE_MAX_TRANSITIONS.

(** The arrays of the definition hold these rows. *)
Definition declares (d : cflow_machine_definition) S E G A T : Prop :=
  rows_of (d_states d) (d_state_count d) = Some S ∧ rows_of (d_events d) (d_event_count d) = Some E ∧
  rows_of (d_guards d) (d_guard_count d) = Some G ∧ rows_of (d_actions d) (d_action_count d) = Some A ∧
  rows_of (d_transitions d) (d_transition_count d) = Some T.

Definition admissible (d : cflow_machine_definition) : Prop :=
  within_limits d ∧ ∃ S E G A T, declares d S E G A T ∧ well_formed S (d_initial_state d) E G A T.

(** The machine holds the rows of the definition, sorted. *)
Definition publishes (impl : cflow_machine_impl) (d : cflow_machine_definition) : Prop :=
  i_initial_state impl = d_initial_state d ∧
  ∃ S E G A T S' E' G' A' T', declares d S E G A T ∧ describes impl S' E' G' A' T' ∧
    S' ≡ₚ S ∧ E' ≡ₚ E ∧ G' ≡ₚ G ∧ A' ≡ₚ A ∧ T' ≡ₚ T.

(** What a call of [cflow_machine_build] on an empty handle does. *)
Definition build_ok (d : cflow_machine_definition) (w : world)
    (st : cflow_machine_status) (out : option cflow_machine) (w' : world) : Prop :=
  (st = CFLOW_MACHINE_OK → admissible d) ∧
  (admissible d → st = CFLOW_MACHINE_OK ∨ st = CFLOW_MACHINE_ALLOCATION_FAILED) ∧
  (admissible d → supply 10 w → st = CFLOW_MACHINE_OK) ∧
  (st = CFLOW_MACHINE_OK → ∃ impl w'', out = Some (Some impl) ∧ publishes impl d ∧
     cflow_machine_destroy out w' = Some (Some None, w'') ∧ same_memory w w'') ∧
  (st ≠ CFLOW_MACHINE_OK → out = Some None ∧ same_memory w w').

(** A refusal before anything is allocated. *)
Lemma build_refused d w st :
  st ≠ CFLOW_MACHINE_OK → ¬ admissible d → build_ok d w st (Some None) w.
Proof. intros Hst Had. unfold build_ok, same_memory. naive_solver. Qed.

Lemma missing_rows {A} (rows : option (list A)) count :
  array_ok rows count →
  (missing count rows = true ∧ ∀ l, rows_of rows count ≠ Some l) ∨
  (missing count rows = false ∧ ∃ l, rows_of rows count = Some l).
Proof.
  intros [Hc Hl]. unfold missing, rows_of. destruct (Z.eqb_spec count 0); cbn [negb andb]; [right; eauto|].
  destruct rows as [l|]; cbn; [right|left; naive_solver]. split; [done|].
  rewrite (proj2 (Z.ltb_ge _ _)) by (by apply Hl). eauto.
Qed.

(** The copied and sorted rows describe the definition. *)
Lemma sorted_describes d S E G A T states events guards actions transitions :
  holds_rows states (d_state_count d) S → holds_rows events (d_event_count d) E →
  holds_rows guards (d_guard_count d) G → holds_rows actions (d_action_count d) A →
  holds_rows transitions (d_transition_count d) T → arrays_ok d →
  ∃ S' E' G' A' T',
    describes (MkImpl
      (sort_rows compare_state (d_state_count d) states) (d_state_count d) (d_initial_state d)
      (sort_rows compare_event (d_event_count d) events) (d_event_count d)
      (sort_rows compare_guard (d_guard_count d) guards) (d_guard_count d)
      (sort_rows compare_action (d_action_count d) actions) (d_action_count d)
      (sort_rows compare_transition (d_transition_count d) transitions) (d_transition_count d))
      S' E' G' A' T' ∧ S' ≡ₚ S ∧ E' ≡ₚ E ∧ G' ≡ₚ G ∧ A' ≡ₚ A ∧ T' ≡ₚ T ∧
    is_null (sort_rows compare_state (d_state_count d) states) = is_null states ∧
    is_null (sort_rows compare_event (d_event_count d) events) = is_null events ∧
    is_null (sort_rows compare_guard (d_guard_count d) guards) = is_null guards ∧
    is_null (sort_rows compare_action (d_action_count d) actions) = is_null actions ∧
    is_null (sort_rows compare_transition (d_transition_count d) transitions) = is_null transitions.
Proof.
  intros HS HE HG HA HT ([? _] & [? _] & [? _] & [? _] & [? _]).
  destruct (sort_rows_ok compare_state _ _ _ HS (compare_id_ok s_id)) as (S' & RS & PS & SS & NS).
  destruct (sort_rows_ok compare_event _ _ _ HE (compare_id_ok e_id)) as (E' & RE & PE & SE & NE).
  destruct (sort_rows_ok compare_guard _ _ _ HG (compare_id_ok g_id)) as (G' & RG & PG & SG & NG).
  destruct (sort_rows_ok compare_action _ _ _ HA (compare_id_ok a_id)) as (A' & RA & PA & SA & NA).
  destruct (sort_rows_ok compare_transition _ _ _ HT compare_transition_ok) as (T' & RT & PT & ST & NT).
  exists S', E', G', A', T'. split; [|by auto 15].
  split; cbn; try done; try (eapply Sorted_weaken; [|done]); cbn; intros x y;
    first [apply compare_id_le|apply compare_transition_le].
Qed.
(** The part of [cflow_machine_build] after its arguments are checked. *)
Definition build_body (d : cflow_machine_definition) : M (cflow_machine_status * option cflow_machine) :=
  impl ← malloc;
  match impl with
  | None => mret (CFLOW_MACHINE_ALLOCATION_FAILED, Some None)
  | Some _ =>
      states ← copy_rows (d_states d) (d_state_count d) (d_state_count d * 24);
      events ← copy_rows (d_events d) (d_event_count d) (d_event_count d * 16);
      guards ← copy_rows (d_guards d) (d_guard_count d) (d_guard_count d * 40);
      actions ← copy_rows (d_actions d) (d_action_count d) (d_action_count d * 72);
      transitions ← copy_rows (d_transitions d) (d_transition_count d) (d_transition_count d * 32);
      if missing (d_state_count d * 24) states || missing (d_event_count d * 16) events ||
         missing (d_guard_count d * 40) guards || missing (d_action_count d * 72) actions ||
         missing (d_transition_count d * 32) transitions then
        machine_impl_destroy (Some (MkImpl states 0 0 events 0 guards 0 actions 0 transitions 0));;
        mret (CFLOW_MACHINE_ALLOCATION_FAILED, Some None)
      else
        let impl := MkImpl
          (sort_rows compare_state (d_state_count d) states) (d_state_count d) (d_initial_state d)
          (sort_rows compare_event (d_event_count d) events) (d_event_count d)
          (sort_rows compare_guard (d_guard_count d) guards) (d_guard_count d)
          (sort_rows compare_action (d_action_count d) actions) (d_action_count d)
          (sort_rows compare_transition (d_transition_count d) transitions) (d_transition_count d) in
        status ← validate_machine impl;
        if negb (bool_decide (status = CFLOW_MACHINE_OK)) then
          machine_impl_destroy (Some impl);; mret (status, Some None)
        else mret (CFLOW_MACHINE_OK, Some (Some impl))
  end.

Lemma build_body_ok d S E G A T w :
  arrays_ok d → within_limits d → declares d S E G A T →
  ∃ st out w', build_body d w = Some ((st, out), w') ∧ build_ok d w st out w'.
Proof.
  intros Harr Hlim Hdecl. pose proof Hdecl as (HS & HE & HG & HA & HT).
  pose proof Harr as ([HcS _] & [HcE _] & [HcG _] & [HcA _] & [HcT _]).
  assert (admissible d ↔ well_formed S (d_initial_state d) E G A T) as Had.
  { split; [|intros; split; [done|]; exists S, E, G, A, T; done].
    intros (_ & S' & E' & G' & A' & T' & (?&?&?&?&?) & Hwf). congruence. }
  unfold build_body. destruct (malloc_ok w) as (p & w0 & Hrun0 & Hb0 & Ho0 & Hs0). wstep Hrun0.
  destruct p as [p|]; cycle 1.
  { eexists _, _, _. split; [reflexivity|]. unfold build_ok, same_memory. cbn in Hb0.
    repeat split; try done; try lia; [by auto|]. intros _ [? _]%Hs0. done. }
  destruct (copy_rows_ok _ _ 24 _ w0 HcS eq_refl HS) as (states & w1 & Hrun1 & Hr1 & Hb1 & Ho1 & Hs1). wstep Hrun1.
  destruct (copy_rows_ok _ _ 16 _ w1 HcE eq_refl HE) as (events & w2 & Hrun2 & Hr2 & Hb2 & Ho2 & Hs2). wstep Hrun2.
  destruct (copy_rows_ok _ _ 40 _ w2 HcG eq_refl HG) as (guards & w3 & Hrun3 & Hr3 & Hb3 & Ho3 & Hs3). wstep Hrun3.
  destruct (copy_rows_ok _ _ 72 _ w3 HcA eq_refl HA) as (actions & w4 & Hrun4 & Hr4 & Hb4 & Ho4 & Hs4). wstep Hrun4.
  destruct (copy_rows_ok _ _ 32 _ w4 HcT eq_refl HT) as (transitions & w5 & Hrun5 & Hr5 & Hb5 & Ho5 & Hs5). wstep Hrun5.
  cbn in Hb0.
  assert (∀ j, supply (6 + j) w →
    missing (d_state_count d * 24) states || missing (d_event_count d * 16) events ||
    missing (d_guard_count d * 40) guards || missing (d_action_count d * 72) actions ||
    missing (d_transition_count d * 32) transitions = false ∧ supply j w5) as Hsup.
  { intros j [_ [-> [-> [-> [-> [-> Hj]%Hs5]%Hs4]%Hs3]%Hs2]%Hs1]%Hs0. done. }
  destruct (_ || _) eqn:Hmiss.
  { rewrite (run_bind _ _ _ _ _ (machine_destroy_run _ _)). cbn [i_states i_events i_guards i_actions i_transitions].
    eexists _, _, _. split; [reflexivity|]. unfold build_ok, same_memory. cbn [w_blocks w_objects].
    repeat split; try done; try lia; [by auto|]. intros _ [? _]%(Hsup 4%nat). done. }
  rewrite !orb_false_iff in Hmiss. destruct Hmiss as ((((M1 & M2) & M3) & M4) & M5).
  destruct (sorted_describes d S E G A T states events guards actions transitions)
    as (S' & E' & G' & A' & T' & Hd & PS & PE & PG & PA & PT & NS & NE & NG & NA & NT); auto.
  match type of Hd with describes ?i _ _ _ _ _ => set (impl := i) in * end.
  destruct (validate_machine_ok _ _ _ _ _ _ Hd (proj2 (proj1 Hlim)) w5) as (st & w6 & Hrun6 & Hm & Hok & Hmiss & Hsup6).
  assert (well_formed S' (i_initial_state impl) E' G' A' T' ↔ admissible d) as HP.
  { rewrite Had. split; apply well_formed_perm; done. }
  rewrite HP in Hok, Hmiss. wstep Hrun6. destruct Hm as [Hbm Hom].
  case_bool_decide as Hst; cbn [negb].
  - rewrite run_ret. eexists _, _, _. split; [reflexivity|]. unfold build_ok.
    split; [by auto|]. split; [by auto|]. split; [by auto|]. split; [|done].
    intros _. eexists _, _. split; [reflexivity|]. split.
    + split; [done|]. exists S, E, G, A, T, S', E', G', A', T'. done.
    + cbn [cflow_machine_destroy]. rewrite (run_bind _ _ _ _ _ (machine_destroy_run _ _)), run_ret. split; [reflexivity|].
      unfold same_memory, impl. cbn [i_states i_events i_guards i_actions i_transitions w_blocks w_objects].
      rewrite NS, NE, NG, NA, NT. lia.
  - rewrite (run_bind _ _ _ _ _ (machine_destroy_run _ _)), run_ret. eexists _, _, _. split; [reflexivity|].
    unfold build_ok. split; [done|]. split; [|split].
    + intros Hadm. destruct (decide (st = CFLOW_MACHINE_ALLOCATION_FAILED)); auto.
    + intros Hadm [_ Hj]%(Hsup 4%nat). destruct (Hsup6 0%nat Hj) as [Hwf _]. apply Hwf. by apply HP.
    + split; [done|]. intros _. split; [done|].
      unfold same_memory, impl. cbn [i_states i_events i_guards i_actions i_transitions w_blocks w_objects].
      rewrite NS, NE, NG, NA, NT. lia.
Qed.
Lemma build_runs_body d w :
  arrays_ok d →
  (∃ st, cflow_machine_build (Some None) (Some d) w = Some ((st, Some None), w) ∧
    st ≠ CFLOW_MACHINE_OK ∧ ¬ admissible d) ∨
  (within_limits d ∧ (∃ S E G A T, declares d S E G A T) ∧
   cflow_machine_build (Some None) (Some d) w = build_body d w).
Proof.
  intros Harr. unfold cflow_machine_build.
  destruct (Z.eqb_spec (d_state_count d) 0) as [Hz|Hz].
  { left. eexists. split; [reflexivity|]. split; [done|]. intros [[? _] _]. lia. }
  destruct (_ || _) eqn:Hlim.
  { left. eexists. split; [reflexivity|]. split; [done|]. intros [Hl _]. unfold within_limits in Hl. lia. }
  pose proof Harr as (HS & HE & HG & HA & HT).
  assert (within_limits d) as Hl.
  { destruct HS as [? _]. unfold within_limits. lia. }
  assert (is_null (d_states d) = missing (d_state_count d) (d_states d)) as ->.
  { unfold missing. by rewrite (proj2 (Z.eqb_neq _ _)) by done. }
  destruct (missing_rows _ _ HS) as [[-> N]|[-> [S' RS]]]; cbn [orb].
  { left. eexists. split; [reflexivity|]. split; [done|]. intros (_ & ? & ? & ? & ? & ? & (? & _) & _). naive_solver. }
  destruct (missing_rows _ _ HE) as [[-> N]|[-> [E' RE]]]; cbn [orb].
  { left. eexists. split; [reflexivity|]. split; [done|]. intros (_ & ? & ? & ? & ? & ? & (_ & ? & _) & _). naive_solver. }
  destruct (missing_rows _ _ HG) as [[-> N]|[-> [G' RG]]]; cbn [orb].
  { left. eexists. split; [reflexivity|]. split; [done|]. intros (_ & ? & ? & ? & ? & ? & (_ & _ & ? & _) & _). naive_solver. }
  destruct (missing_rows _ _ HA) as [[-> N]|[-> [A' RA]]]; cbn [orb].
  { left. eexists. split; [reflexivity|]. split; [done|]. intros (_ & ? & ? & ? & ? & ? & (_ & _ & _ & ? & _) & _). naive_solver. }
  destruct (missing_rows _ _ HT) as [[-> N]|[-> [T' RT]]]; cbn [orb].
  { left. eexists. split; [reflexivity|]. split; [done|]. intros (_ & ? & ? & ? & ? & ? & (_ & _ & _ & _ & ?) & _). naive_solver. }
  right. split; [done|]. split; [by exists S', E', G', A', T'|]. unfold within_limits in Hl.
  unfold CFLOW_MACHINE_MAX_STATES, CFLOW_MACHINE_MAX_EVENTS, CFLOW_MACHINE_MAX_GUARDS,
    CFLOW_MACHINE_MAX_ACTIONS in Hl.
  rewrite !checked_bytes_ok by (unfold CFLOW_MACHINE_MAX_TRANSITIONS in *; lia). done.
Qed.

End Building.

(** ** A sort that satisfies the interface *)

#[local] Instance cmp_le_dec {A} (cmp : A → A → Z) x y : Decision (cmp x y <= 0).
Proof. apply _. Defined.

#[local] Program Instance merge_qsort : QSort := {|
  qsort A cmp l := merge_sort (λ x y, cmp x y <= 0) l
|}.
Next Obligation. intros A cmp l. apply merge_sort_Permutation. Qed.
Next Obligation. intros A cmp l Hcmp. apply Sorted_merge_sort. intros x y. apply Hcmp. Qed.

Module ExampleMachine.
Import ExampleTypes.

Definition int : option cmeta_type_desc := Some (int_desc 10 1).

(** A job that is started, checked and finished, declared out of order. *)
Definition job : cflow_machine_definition := MkDefinition
  (Some [MkState 3 int CFLOW_MACHINE_STATE_DONE; MkState 1 int CFLOW_MACHINE_STATE_ACTIVE;
         MkState 2 int CFLOW_MACHINE_STATE_ACTIVE]) 3 1
  (Some [MkEvent 20 int; MkEvent 10 int]) 2
  (Some [MkGuard 5 int 20 int CMETA_EFFECT_PURE 11]) 1
  (Some [MkAction 7 int 10 int int 0 9 CFLOW_MACHINE_ACTION_NONE None 0]) 1
  (Some [MkTransition 2 20 5 0 3 0; MkTransition 1 10 0 7 2 0; MkTransition 2 20 0 0 1 1]) 3.

Definition memory (k : nat) : world := MkWorld (replicate k (Some 64)) 0 0.

(** With memory it is accepted; without, or with an unreachable state, not. *)
Example job_accepted :
  (λ r, fst (fst r)) <$> cflow_machine_build (Some None) (Some job) (memory 10) = Some CFLOW_MACHINE_OK.
Proof. vm_compute. reflexivity. Qed.

Example job_no_memory :
  (λ r, (fst (fst r), w_blocks (snd r))) <$> cflow_machine_build (Some None) (Some job) (memory 7) =
  Some (CFLOW_MACHINE_ALLOCATION_FAILED, 0).
Proof. vm_compute. reflexivity. Qed.

End ExampleMachine.
Import ExampleMachine.

