(* ===== verification/Mailbox.v ===== *)
(** * The event mailbox ([cflow/src/event.c], [cflow/include/cflow/event.h])

    A bounded first-in-first-out queue of typed events in a circular buffer
    of fixed-size payload cells, with a graceful and an abrupt end, counters
    that saturate, and one waiter that is woken when there is something to
    see. Every operation holds the mailbox's lock while it touches the state
    and calls the waker after it has released it, so an operation is one
    atomic step and the call of the waker a later one. *)

From stdpp Require Import strings.
From S2P Require Import Prelude World TypeIdentity Machine.
Local Open Scope Z_scope.

Inductive cflow_mailbox_status :=
  | CFLOW_MAILBOX_OK
  | CFLOW_MAILBOX_INVALID_ARGUMENT
  | CFLOW_MAILBOX_TYPE_MISMATCH
  | CFLOW_MAILBOX_FULL
  | CFLOW_MAILBOX_EMPTY
  | CFLOW_MAILBOX_CLOSED
  | CFLOW_MAILBOX_CANCELLED
  | CFLOW_MAILBOX_ALLOCATION_FAILED
  | CFLOW_MAILBOX_BUFFER_TOO_SMALL.

#[export] Instance cflow_mailbox_status_eq_dec : EqDecision cflow_mailbox_status.
Proof. solve_decision. Defined.

Inductive cflow_mailbox_terminal :=
  | CFLOW_MAILBOX_TERMINAL_OPEN
  | CFLOW_MAILBOX_TERMINAL_DRAINING
  | CFLOW_MAILBOX_TERMINAL_CANCELLED.

#[export] Instance cflow_mailbox_terminal_eq_dec : EqDecision cflow_mailbox_terminal.
Proof. solve_decision. Defined.

(** A function pointer and its argument; [None] is a null pointer. *)
Record cflow_waker := MkWaker {
  wk_wake : option Z;
  wk_user : Z
}.
Definition no_waker : cflow_waker := MkWaker None 0.

#[export] Instance cflow_waker_eq_dec : EqDecision cflow_waker.
Proof. solve_decision. Defined.

Record cflow_event_view := MkView {
  v_id : Z;
  v_payload_type : option cmeta_type_desc;
  v_payload : option (list Z)
}.

Record cflow_mailbox_impl := MkMailbox {
  mb_schema : list cflow_event_type;
  mb_slots : list Z;
  mb_payloads : list Z;
  mb_schema_count : Z;
  mb_capacity : Z;
  mb_payload_stride : Z;
  mb_max_payload_size : Z;
  mb_reserved_payload_bytes : Z;
  mb_head : Z;
  mb_count : Z;
  mb_peak_pending : Z;
  mb_accepted : Z;
  mb_received : Z;
  mb_rejected_full : Z;
  mb_rejected_closed : Z;
  mb_rejected_cancelled : Z;
  mb_cancelled : Z;
  mb_terminal : cflow_mailbox_terminal;
  mb_waiter : cflow_waker
}.

Record cflow_mailbox_stats := MkStats {
  st_schema_count : Z;
  st_capacity : Z;
  st_pending : Z;
  st_peak_pending : Z;
  st_payload_stride : Z;
  st_reserved_payload_bytes : Z;
  st_accepted : Z;
  st_received : Z;
  st_rejected_full : Z;
  st_rejected_closed : Z;
  st_rejected_cancelled : Z;
  st_cancelled : Z
}.

(** ** Counters and sizes *)

Definition cflow_counter_increment (counter : Z) : Z :=
  if counter =? UINT64_MAX then counter else counter + 1.

Definition cflow_counter_add_size (counter amount : Z) : Z :=
  if UINT64_MAX - counter <? amount then UINT64_MAX else counter + amount.

(** The wakers that are called. *)
Definition cflow_waker_invoke (waker : cflow_waker) : list cflow_waker :=
  if is_null (wk_wake waker) then [] else [waker].

Definition cflow_size_multiply (left right : Z) : option Z :=
  if (left =? 0) || (right =? 0) || (SIZE_MAX / right <? left) then None else Some (left * right).

(** The alignment of [max_align_t]. *)
Definition alignof_capture_storage : Z := 16.

Definition cflow_alignment_valid (alignment : Z) : bool :=
  negb (alignment =? 0) && (Z.land alignment (u64 (alignment - 1)) =? 0) &&
  (alignment <=? alignof_capture_storage).

Definition cflow_align_size (size alignment : Z) : option Z :=
  if (size =? 0) || negb (cflow_alignment_valid alignment) then None else
  let padding := alignment - 1 in
  if SIZE_MAX - padding <? size then None else
  Some (Z.land (u64 (size + padding)) (u64 (Z.lnot padding))).

Definition CMETA_TRAIT_TRIVIAL_COPY : Z := 64.
Definition CMETA_TRAIT_TRIVIAL_DESTROY : Z := 128.

(** [cmeta_type_require_traits] for flags that ask for no callback. *)
Definition require_flags (type : option cmeta_type_desc) (required : Z) : bool :=
  match type with
  | None => false
  | Some t => match td_flags t with None => false | Some flags => Z.land flags required =? required end
  end.

(** The size and the alignment of the payloads of a row that is accepted. *)
Definition measure_row (row : cflow_event_type) : option (Z * Z) :=
  match e_payload_type row with
  | None => None
  | Some type =>
      if (e_id row =? 0) || negb (cmeta_type_desc_valid (Some type)) || (td_size type =? 0) ||
         negb (cflow_alignment_valid (td_align type)) ||
         negb (require_flags (Some type) (Z.lor CMETA_TRAIT_TRIVIAL_COPY CMETA_TRAIT_TRIVIAL_DESTROY))
      then None else Some (td_size type, td_align type)
  end.

(** The loop over the rows; [seen] are those before. *)
Fixpoint measure_rows (seen rows : list cflow_event_type) (largest_size largest_alignment : Z) :
    option (Z * Z) :=
  match rows with
  | [] => Some (largest_size, largest_alignment)
  | row :: rows =>
      match measure_row row with
      | None => None
      | Some (size, alignment) =>
          if existsb (λ previous, e_id previous =? e_id row) seen then None else
          measure_rows (seen ++ [row]) rows
            (if largest_size <? size then size else largest_size)
            (if largest_alignment <? alignment then alignment else largest_alignment)
      end
  end.

(** [None]: the array is shorter than said; [Some None]: refused. *)
Definition cflow_schema_measure (schema : option (list cflow_event_type)) (schema_count : Z) :
    option (option (Z * Z)) :=
  match schema with
  | None => Some None
  | Some rows =>
      if schema_count =? 0 then Some None else
      if alen rows <? schema_count then None else
      Some (measure_rows [] (take (Z.to_nat schema_count) rows) 0 0)
  end.

Definition sizeof_event_type : Z := 16.
Definition sizeof_event_slot : Z := 8.
Definition sizeof_mailbox_impl : Z := 168.

(** The sizes of the three blocks, the stride of the payloads and the largest
    payload. *)
Definition mailbox_layout (schema : option (list cflow_event_type)) (schema_count capacity : Z) :
    option (option (Z * Z * Z * Z * Z)) :=
  match cflow_size_multiply schema_count sizeof_event_type, cflow_size_multiply capacity sizeof_event_slot with
  | Some schema_bytes, Some slot_bytes =>
      measured ← cflow_schema_measure schema schema_count;
      Some ('(max_size, max_alignment) ← measured;
            stride ← cflow_align_size max_size max_alignment;
            payload_bytes ← cflow_size_multiply capacity stride;
            Some (schema_bytes, slot_bytes, payload_bytes, stride, max_size))
  | _, _ => Some None
  end.

Definition cflow_mailbox_storage_requirements_internal (schema : option (list cflow_event_type))
    (schema_count capacity : Z) : option (option Z) :=
  layout ← mailbox_layout schema schema_count capacity;
  Some ('(schema_bytes, slot_bytes, payload_bytes, _, _) ← layout;
        if SIZE_MAX - schema_bytes <? sizeof_mailbox_impl then None else
        let total := sizeof_mailbox_impl + schema_bytes in
        if SIZE_MAX - total <? slot_bytes then None else
        let total := total + slot_bytes in
        if SIZE_MAX - total <? payload_bytes then None else Some (total + payload_bytes)).

(** ** Creation and destruction *)

(** Creating a mutex takes one block; [None] when there is none. *)
Definition salts_mutex_init : M (option Z) := malloc.

Definition cflow_mailbox_impl_free (lock payloads slots schema impl : option Z) : M unit :=
  _ ← free_ptr lock; _ ← free_ptr payloads; _ ← free_ptr slots; _ ← free_ptr schema; free_ptr impl.

(** [fresh]: what the block for the payloads holds when it is allocated. *)
Definition cflow_mailbox_init (fresh : Z → Z) (mailbox : option (option cflow_mailbox_impl))
    (schema : option (list cflow_event_type)) (schema_count capacity : Z) :
    M (cflow_mailbox_status * option (option cflow_mailbox_impl)) :=
  match mailbox with
  | Some None =>
      if is_null schema || (schema_count =? 0) || (capacity =? 0) then
        mret (CFLOW_MAILBOX_INVALID_ARGUMENT, mailbox) else
      layout ← lift (mailbox_layout schema schema_count capacity);
      match layout with
      | None => mret (CFLOW_MAILBOX_INVALID_ARGUMENT, mailbox)
      | Some (schema_bytes, slot_bytes, payload_bytes, stride, max_size) =>
          impl ← malloc;
          if is_null impl then mret (CFLOW_MAILBOX_ALLOCATION_FAILED, mailbox) else
          schema_block ← malloc;
          slots ← malloc;
          payloads ← malloc;
          lock ← salts_mutex_init;
          if is_null schema_block || is_null slots || is_null payloads || is_null lock then
            _ ← cflow_mailbox_impl_free lock payloads slots schema_block impl;
            mret (CFLOW_MAILBOX_ALLOCATION_FAILED, mailbox)
          else
            rows ← lift schema;
            mret (CFLOW_MAILBOX_OK, Some (Some (MkMailbox (take (Z.to_nat schema_count) rows)
              (replicate (Z.to_nat capacity) 0) (fresh <$> seqZ 0 payload_bytes)
              schema_count capacity stride max_size payload_bytes 0 0 0 0 0 0 0 0 0
              CFLOW_MAILBOX_TERMINAL_OPEN no_waker)))
      end
  | _ => mret (CFLOW_MAILBOX_INVALID_ARGUMENT, mailbox)
  end.

Definition cflow_mailbox_destroy (mailbox : option (option cflow_mailbox_impl)) :
    M (option (option cflow_mailbox_impl)) :=
  match mailbox with
  | None => mret None
  | Some None => mret (Some None)
  | Some (Some _) =>
      _ ← cflow_mailbox_impl_free (Some 0) (Some 0) (Some 0) (Some 0) (Some 0); mret (Some None)
  end.

(** ** The data path *)

Implicit Types (m : cflow_mailbox_impl).

(** The fields an operation changes. *)
Definition with_queue m (slots payloads : list Z) (head count peak : Z) : cflow_mailbox_impl :=
  MkMailbox (mb_schema m) slots payloads (mb_schema_count m) (mb_capacity m) (mb_payload_stride m)
    (mb_max_payload_size m) (mb_reserved_payload_bytes m) head count peak (mb_accepted m) (mb_received m)
    (mb_rejected_full m) (mb_rejected_closed m) (mb_rejected_cancelled m) (mb_cancelled m) (mb_terminal m)
    (mb_waiter m).

Definition with_flow m (accepted received cancelled : Z) : cflow_mailbox_impl :=
  MkMailbox (mb_schema m) (mb_slots m) (mb_payloads m) (mb_schema_count m) (mb_capacity m) (mb_payload_stride m)
    (mb_max_payload_size m) (mb_reserved_payload_bytes m) (mb_head m) (mb_count m) (mb_peak_pending m) accepted
    received (mb_rejected_full m) (mb_rejected_closed m) (mb_rejected_cancelled m) cancelled (mb_terminal m)
    (mb_waiter m).

Definition with_rejected m (full closed cancelled : Z) : cflow_mailbox_impl :=
  MkMailbox (mb_schema m) (mb_slots m) (mb_payloads m) (mb_schema_count m) (mb_capacity m) (mb_payload_stride m)
    (mb_max_payload_size m) (mb_reserved_payload_bytes m) (mb_head m) (mb_count m) (mb_peak_pending m)
    (mb_accepted m) (mb_received m) full closed cancelled (mb_cancelled m) (mb_terminal m) (mb_waiter m).

Definition with_control m (terminal : cflow_mailbox_terminal) (waiter : cflow_waker) : cflow_mailbox_impl :=
  MkMailbox (mb_schema m) (mb_slots m) (mb_payloads m) (mb_schema_count m) (mb_capacity m) (mb_payload_stride m)
    (mb_max_payload_size m) (mb_reserved_payload_bytes m) (mb_head m) (mb_count m) (mb_peak_pending m)
    (mb_accepted m) (mb_received m) (mb_rejected_full m) (mb_rejected_closed m) (mb_rejected_cancelled m)
    (mb_cancelled m) terminal waiter.

(** The first row with the identifier. *)
Fixpoint index_of (id index : Z) (rows : list cflow_event_type) : option Z :=
  match rows with
  | [] => None
  | row :: rows => if e_id row =? id then Some index else index_of id (index + 1) rows
  end.

Definition cflow_mailbox_type_index m (id : Z) : option (option Z) :=
  if id =? 0 then Some None else
  if alen (mb_schema m) <? mb_schema_count m then None else
  Some (index_of id 0 (take (Z.to_nat (mb_schema_count m)) (mb_schema m))).

(** The part under the lock: the status, the mailbox and the waker that is
    called afterwards. *)
Definition send_locked m (type_index : Z) (type : cmeta_type_desc) (payload : list Z) :
    option (cflow_mailbox_status * cflow_mailbox_impl * cflow_waker) :=
  match mb_terminal m with
  | CFLOW_MAILBOX_TERMINAL_CANCELLED =>
      Some (CFLOW_MAILBOX_CANCELLED, with_rejected m (mb_rejected_full m) (mb_rejected_closed m)
        (cflow_counter_increment (mb_rejected_cancelled m)), no_waker)
  | CFLOW_MAILBOX_TERMINAL_DRAINING =>
      Some (CFLOW_MAILBOX_CLOSED, with_rejected m (mb_rejected_full m)
        (cflow_counter_increment (mb_rejected_closed m)) (mb_rejected_cancelled m), no_waker)
  | CFLOW_MAILBOX_TERMINAL_OPEN =>
      if mb_count m =? mb_capacity m then
        Some (CFLOW_MAILBOX_FULL, with_rejected m (cflow_counter_increment (mb_rejected_full m))
          (mb_rejected_closed m) (mb_rejected_cancelled m), no_waker) else
      let tail := u64 (mb_head m + mb_count m) mod mb_capacity m in
      bytes ← slice payload 0 (td_size type);
      payloads ← blit (mb_payloads m) (tail * mb_payload_stride m) bytes;
      slots ← aset (mb_slots m) tail type_index;
      let count := mb_count m + 1 in
      let peak := if mb_peak_pending m <? count then count else mb_peak_pending m in
      let m1 := with_queue m slots payloads (mb_head m) count peak in
      let m2 := with_flow m1 (cflow_counter_increment (mb_accepted m)) (mb_received m) (mb_cancelled m) in
      Some (CFLOW_MAILBOX_OK, with_control m2 (mb_terminal m) no_waker, mb_waiter m)
  end.

Definition cflow_mailbox_try_send (mailbox : option cflow_mailbox_impl) (event : option cflow_event_view) :
    option (cflow_mailbox_status * option cflow_mailbox_impl * list cflow_waker) :=
  match mailbox, event with
  | Some m, Some event =>
      match v_payload_type event, v_payload event with
      | Some payload_type, Some payload =>
          found ← cflow_mailbox_type_index m (v_id event);
          match found with
          | None => Some (CFLOW_MAILBOX_INVALID_ARGUMENT, mailbox, [])
          | Some type_index =>
              row ← aget (mb_schema m) type_index;
              if negb (cmeta_type_equal (e_payload_type row) (Some payload_type)) then
                Some (CFLOW_MAILBOX_TYPE_MISMATCH, mailbox, []) else
              schema_type ← e_payload_type row;
              '(status, m, waker) ← send_locked m type_index schema_type payload;
              Some (status, Some m, cflow_waker_invoke waker)
          end
      | _, _ => Some (CFLOW_MAILBOX_INVALID_ARGUMENT, mailbox, [])
      end
  | _, _ => Some (CFLOW_MAILBOX_INVALID_ARGUMENT, mailbox, [])
  end.

(** What a receive publishes: identifier, descriptor and payload bytes. *)
Record received := MkReceived {
  rc_id : Z;
  rc_type : cmeta_type_desc;
  rc_payload : list Z
}.

(** [out]: the address of the destination, with its capacity. *)
Definition cflow_mailbox_try_receive (mailbox : option cflow_mailbox_impl) (ids types : bool)
    (out : option Z) (out_capacity : Z) :
    option (cflow_mailbox_status * option received * option cflow_mailbox_impl) :=
  match mailbox, ids, types, out with
  | Some m, true, true, Some address =>
      if mb_count m =? 0 then
        Some (match mb_terminal m with
              | CFLOW_MAILBOX_TERMINAL_CANCELLED => CFLOW_MAILBOX_CANCELLED
              | CFLOW_MAILBOX_TERMINAL_DRAINING => CFLOW_MAILBOX_CLOSED
              | CFLOW_MAILBOX_TERMINAL_OPEN => CFLOW_MAILBOX_EMPTY
              end, None, mailbox) else
      let head := mb_head m in
      type_index ← aget (mb_slots m) head;
      row ← aget (mb_schema m) type_index;
      type ← e_payload_type row;
      if out_capacity <? td_size type then Some (CFLOW_MAILBOX_BUFFER_TOO_SMALL, None, mailbox) else
      if negb (address mod td_align type =? 0) then Some (CFLOW_MAILBOX_INVALID_ARGUMENT, None, mailbox) else
      payload ← slice (mb_payloads m) (head * mb_payload_stride m) (td_size type);
      let m1 := with_queue m (mb_slots m) (mb_payloads m) (u64 (head + 1) mod mb_capacity m) (mb_count m - 1)
        (mb_peak_pending m) in
      Some (CFLOW_MAILBOX_OK, Some (MkReceived (e_id row) type payload),
        Some (with_flow m1 (mb_accepted m) (cflow_counter_increment (mb_received m)) (mb_cancelled m)))
  | _, _, _, _ => Some (CFLOW_MAILBOX_INVALID_ARGUMENT, None, mailbox)
  end.

Definition cflow_mailbox_get_stats (mailbox : option cflow_mailbox_impl) : option cflow_mailbox_stats :=
  m ← mailbox;
  Some (MkStats (mb_schema_count m) (mb_capacity m) (mb_count m) (mb_peak_pending m) (mb_payload_stride m)
    (mb_reserved_payload_bytes m) (mb_accepted m) (mb_received m) (mb_rejected_full m) (mb_rejected_closed m)
    (mb_rejected_cancelled m) (mb_cancelled m)).

(** ** The two ends *)

Definition cflow_mailbox_close (mailbox : option cflow_mailbox_impl) :
    cflow_mailbox_status * option cflow_mailbox_impl * list cflow_waker :=
  match mailbox with
  | None => (CFLOW_MAILBOX_INVALID_ARGUMENT, mailbox, [])
  | Some m =>
      match mb_terminal m with
      | CFLOW_MAILBOX_TERMINAL_CANCELLED => (CFLOW_MAILBOX_CANCELLED, mailbox, [])
      | CFLOW_MAILBOX_TERMINAL_DRAINING => (CFLOW_MAILBOX_CLOSED, mailbox, [])
      | CFLOW_MAILBOX_TERMINAL_OPEN =>
          (CFLOW_MAILBOX_OK, Some (with_control m CFLOW_MAILBOX_TERMINAL_DRAINING no_waker),
           cflow_waker_invoke (mb_waiter m))
      end
  end.

Definition cflow_mailbox_cancel_detach_internal (mailbox : option cflow_mailbox_impl) :
    cflow_mailbox_status * option cflow_mailbox_impl * cflow_waker :=
  match mailbox with
  | None => (CFLOW_MAILBOX_INVALID_ARGUMENT, mailbox, no_waker)
  | Some m =>
      match mb_terminal m with
      | CFLOW_MAILBOX_TERMINAL_CANCELLED => (CFLOW_MAILBOX_CANCELLED, mailbox, no_waker)
      | _ =>
          let m1 := with_flow m (mb_accepted m) (mb_received m) (cflow_counter_add_size (mb_cancelled m) (mb_count m)) in
          let m2 := with_queue m1 (mb_slots m) (mb_payloads m) 0 0 (mb_peak_pending m) in
          (CFLOW_MAILBOX_OK, Some (with_control m2 CFLOW_MAILBOX_TERMINAL_CANCELLED no_waker), mb_waiter m)
      end
  end.

Definition cflow_mailbox_cancel (mailbox : option cflow_mailbox_impl) :
    cflow_mailbox_status * option cflow_mailbox_impl * list cflow_waker :=
  let '(status, mailbox, waker) := cflow_mailbox_cancel_detach_internal mailbox in
  (status, mailbox, cflow_waker_invoke waker).

(** ** Waiting *)

Definition cflow_mailbox_wait_arm (state : option cflow_mailbox_impl) (waker : cflow_waker) :
    bool * option cflow_mailbox_impl * list cflow_waker :=
  match state with
  | None => (false, state, [])
  | Some m =>
      if is_null (wk_wake waker) then (false, state, []) else
      let ready := negb (mb_count m =? 0) ||
        negb (bool_decide (mb_terminal m = CFLOW_MAILBOX_TERMINAL_OPEN)) in
      if negb ready && negb (is_null (wk_wake (mb_waiter m))) then (false, state, []) else
      if ready then (true, state, cflow_waker_invoke waker)
      else (true, Some (with_control m (mb_terminal m) waker), [])
  end.

Definition cflow_mailbox_wait_cancel (state : option cflow_mailbox_impl) : option cflow_mailbox_impl :=
  match state with
  | None => None
  | Some m => Some (with_control m (mb_terminal m) no_waker)
  end.

Definition cflow_mailbox_payload_capacity (mailbox : option cflow_mailbox_impl) : Z :=
  match mailbox with None => 0 | Some m => mb_max_payload_size m end.

(** ** A queue of events *)

(** The counters count without bound here. *)
Record box := MkBox {
  bx_queue : list received;
  bx_terminal : cflow_mailbox_terminal;
  bx_waiter : cflow_waker;
  bx_peak : Z;
  bx_accepted : Z;
  bx_received : Z;
  bx_rejected_full : Z;
  bx_rejected_closed : Z;
  bx_rejected_cancelled : Z;
  bx_cancelled : Z
}.

Inductive box_op :=
  | BSend (event : cflow_event_view)
  | BReceive (address capacity : Z)
  | BClose
  | BCancel
  | BArm (waker : cflow_waker)
  | BUnarm.

(** The status, the event handed out, whether a waker was armed, and the
    wakers to call. *)
Record box_answer := MkAnswer {
  an_status : cflow_mailbox_status;
  an_event : option received;
  an_armed : bool;
  an_wakes : list cflow_waker
}.

Definition box_exec (op : box_op) m : option (box_answer * cflow_mailbox_impl) :=
  match op with
  | BSend event =>
      '(status, m, wakes) ← cflow_mailbox_try_send (Some m) (Some event);
      m ← m; Some (MkAnswer status None false wakes, m)
  | BReceive address capacity =>
      '(status, event, m) ← cflow_mailbox_try_receive (Some m) true true (Some address) capacity;
      m ← m; Some (MkAnswer status event false [], m)
  | BClose =>
      let '(status, m, wakes) := cflow_mailbox_close (Some m) in
      m ← m; Some (MkAnswer status None false wakes, m)
  | BCancel =>
      let '(status, m, wakes) := cflow_mailbox_cancel (Some m) in
      m ← m; Some (MkAnswer status None false wakes, m)
  | BArm waker =>
      let '(armed, m, wakes) := cflow_mailbox_wait_arm (Some m) waker in
      m ← m; Some (MkAnswer CFLOW_MAILBOX_OK None armed wakes, m)
  | BUnarm => m ← cflow_mailbox_wait_cancel (Some m); Some (MkAnswer CFLOW_MAILBOX_OK None false [], m)
  end.

Definition refuse (status : cflow_mailbox_status) : box_answer := MkAnswer status None false [].

Definition box_rejected (b : box) (full closed cancelled : Z) : box :=
  MkBox (bx_queue b) (bx_terminal b) (bx_waiter b) (bx_peak b) (bx_accepted b) (bx_received b)
    (bx_rejected_full b + full) (bx_rejected_closed b + closed) (bx_rejected_cancelled b + cancelled) (bx_cancelled b).

Definition box_enqueue (b : box) (e : received) : box :=
  MkBox (bx_queue b ++ [e]) (bx_terminal b) no_waker (Z.max (bx_peak b) (alen (bx_queue b) + 1))
    (bx_accepted b + 1) (bx_received b) (bx_rejected_full b) (bx_rejected_closed b) (bx_rejected_cancelled b)
    (bx_cancelled b).

Definition box_dequeue (b : box) (queue : list received) : box :=
  MkBox queue (bx_terminal b) (bx_waiter b) (bx_peak b) (bx_accepted b) (bx_received b + 1) (bx_rejected_full b)
    (bx_rejected_closed b) (bx_rejected_cancelled b) (bx_cancelled b).

Definition box_control (b : box) (queue : list received) (terminal : cflow_mailbox_terminal) (waiter : cflow_waker)
    (cancelled : Z) : box :=
  MkBox queue terminal waiter (bx_peak b) (bx_accepted b) (bx_received b) (bx_rejected_full b) (bx_rejected_closed b)
    (bx_rejected_cancelled b) (bx_cancelled b + cancelled).

Definition box_send (schema : list cflow_event_type) (capacity : Z) (b : box) (event : cflow_event_view) :
    box_answer * box :=
  match v_payload_type event, v_payload event,
        List.find (λ row, e_id row =? v_id event) schema ≫= e_payload_type with
  | Some type, Some payload, Some schema_type =>
      if negb (cmeta_type_equal (Some schema_type) (Some type)) then (refuse CFLOW_MAILBOX_TYPE_MISMATCH, b) else
      match bx_terminal b with
      | CFLOW_MAILBOX_TERMINAL_CANCELLED => (refuse CFLOW_MAILBOX_CANCELLED, box_rejected b 0 0 1)
      | CFLOW_MAILBOX_TERMINAL_DRAINING => (refuse CFLOW_MAILBOX_CLOSED, box_rejected b 0 1 0)
      | CFLOW_MAILBOX_TERMINAL_OPEN =>
          if alen (bx_queue b) =? capacity then (refuse CFLOW_MAILBOX_FULL, box_rejected b 1 0 0) else
          (MkAnswer CFLOW_MAILBOX_OK None false (cflow_waker_invoke (bx_waiter b)),
           box_enqueue b (MkReceived (v_id event) schema_type (take (Z.to_nat (td_size schema_type)) payload)))
      end
  | _, _, _ => (refuse CFLOW_MAILBOX_INVALID_ARGUMENT, b)
  end.

Definition box_receive (b : box) (address capacity : Z) : box_answer * box :=
  match bx_queue b with
  | [] =>
      (refuse match bx_terminal b with
              | CFLOW_MAILBOX_TERMINAL_CANCELLED => CFLOW_MAILBOX_CANCELLED
              | CFLOW_MAILBOX_TERMINAL_DRAINING => CFLOW_MAILBOX_CLOSED
              | CFLOW_MAILBOX_TERMINAL_OPEN => CFLOW_MAILBOX_EMPTY
              end, b)
  | e :: queue =>
      if capacity <? td_size (rc_type e) then (refuse CFLOW_MAILBOX_BUFFER_TOO_SMALL, b) else
      if negb (address mod td_align (rc_type e) =? 0) then (refuse CFLOW_MAILBOX_INVALID_ARGUMENT, b) else
      (MkAnswer CFLOW_MAILBOX_OK (Some e) false [], box_dequeue b queue)
  end.

(** There is something to see. *)
Definition box_ready (b : box) : bool :=
  negb (alen (bx_queue b) =? 0) || negb (bool_decide (bx_terminal b = CFLOW_MAILBOX_TERMINAL_OPEN)).

Definition box_step (schema : list cflow_event_type) (capacity : Z) (op : box_op) (b : box) : box_answer * box :=
  match op with
  | BSend event => box_send schema capacity b event
  | BReceive address room => box_receive b address room
  | BClose =>
      match bx_terminal b with
      | CFLOW_MAILBOX_TERMINAL_CANCELLED => (refuse CFLOW_MAILBOX_CANCELLED, b)
      | CFLOW_MAILBOX_TERMINAL_DRAINING => (refuse CFLOW_MAILBOX_CLOSED, b)
      | CFLOW_MAILBOX_TERMINAL_OPEN =>
          (MkAnswer CFLOW_MAILBOX_OK None false (cflow_waker_invoke (bx_waiter b)),
           box_control b (bx_queue b) CFLOW_MAILBOX_TERMINAL_DRAINING no_waker 0)
      end
  | BCancel =>
      match bx_terminal b with
      | CFLOW_MAILBOX_TERMINAL_CANCELLED => (refuse CFLOW_MAILBOX_CANCELLED, b)
      | _ =>
          (MkAnswer CFLOW_MAILBOX_OK None false (cflow_waker_invoke (bx_waiter b)),
           box_control b [] CFLOW_MAILBOX_TERMINAL_CANCELLED no_waker (alen (bx_queue b)))
      end
  | BArm waker =>
      if is_null (wk_wake waker) then (refuse CFLOW_MAILBOX_OK, b) else
      if box_ready b then (MkAnswer CFLOW_MAILBOX_OK None true [waker], b) else
      if negb (is_null (wk_wake (bx_waiter b))) then (refuse CFLOW_MAILBOX_OK, b) else
      (MkAnswer CFLOW_MAILBOX_OK None true [], box_control b (bx_queue b) (bx_terminal b) waker 0)
  | BUnarm => (refuse CFLOW_MAILBOX_OK, box_control b (bx_queue b) (bx_terminal b) no_waker 0)
  end.

(** What every such queue satisfies: the limit, the account of the events,
    and that nobody waits while there is something to see. *)
Record box_ok (capacity : Z) (b : box) : Prop := {
  bo_limit : alen (bx_queue b) <= bx_peak b <= capacity;
  bo_account : bx_accepted b = bx_received b + bx_cancelled b + alen (bx_queue b);
  bo_counts : 0 <= bx_received b ∧ 0 <= bx_cancelled b ∧ 0 <= bx_rejected_full b ∧ 0 <= bx_rejected_closed b ∧
    0 <= bx_rejected_cancelled b;
  bo_cancelled : bx_terminal b = CFLOW_MAILBOX_TERMINAL_CANCELLED → bx_queue b = [];
  bo_waiter : wk_wake (bx_waiter b) ≠ None → box_ready b = false
}.

(** ** The circular buffer as a queue *)

Definition saturated (x : Z) : Z := Z.min x UINT64_MAX.

Definition row_fits (stride : Z) (row : cflow_event_type) : Prop :=
  e_id row ≠ 0 ∧ ∃ type, e_payload_type row = Some type ∧ 0 < td_size type <= stride ∧ 0 < td_align type.

Definition cell_at m (i : Z) : Z := (mb_head m + i) mod mb_capacity m.

Definition event_at m (i : Z) : option received :=
  type_index ← aget (mb_slots m) (cell_at m i);
  row ← aget (mb_schema m) type_index;
  type ← e_payload_type row;
  payload ← slice (mb_payloads m) (cell_at m i * mb_payload_stride m) (td_size type);
  Some (MkReceived (e_id row) type payload).

Record config_ok m : Prop := {
  cf_rows : alen (mb_schema m) = mb_schema_count m;
  cf_fits : Forall (row_fits (mb_payload_stride m)) (mb_schema m);
  cf_ids : NoDup (e_id <$> mb_schema m);
  cf_capacity : 0 < mb_capacity m ∧ 8 * mb_capacity m <= SIZE_MAX;
  cf_slots : alen (mb_slots m) = mb_capacity m;
  cf_payloads : blen (mb_payloads m) = mb_capacity m * mb_payload_stride m
}.

(** A mailbox and the queue it stands for. *)
Record represents m (b : box) : Prop := {
  rp_config : config_ok m;
  rp_head : 0 <= mb_head m < mb_capacity m;
  rp_count : mb_count m = alen (bx_queue b);
  rp_events : ∀ i, 0 <= i < mb_count m → event_at m i = aget (bx_queue b) i;
  rp_terminal : mb_terminal m = bx_terminal b;
  rp_waiter : mb_waiter m = bx_waiter b;
  rp_peak : mb_peak_pending m = bx_peak b;
  rp_flow : mb_accepted m = saturated (bx_accepted b) ∧ mb_received m = saturated (bx_received b) ∧
    mb_cancelled m = saturated (bx_cancelled b);
  rp_rejected : mb_rejected_full m = saturated (bx_rejected_full b) ∧
    mb_rejected_closed m = saturated (bx_rejected_closed b) ∧
    mb_rejected_cancelled m = saturated (bx_rejected_cancelled b);
  rp_box : box_ok (mb_capacity m) b
}.

(** ** Searching the schema *)

Lemma index_of_spec id rows : ∀ index,
  match index_of id index rows with
  | Some i => ∃ k row, i = index + Z.of_nat k ∧ rows !! k = Some row ∧ e_id row = id ∧
      List.find (λ row, e_id row =? id) rows = Some row
  | None => List.find (λ row, e_id row =? id) rows = None
  end.
Proof.
  induction rows as [|row rows IH]; intros index; cbn; [done|].
  destruct (Z.eqb_spec (e_id row) id).
  - exists 0%nat, row. split_and!; try done. lia.
  - specialize (IH (index + 1)). destruct (index_of id (index + 1) rows); [|done].
    destruct IH as (k & r & -> & ? & ? & ?). exists (S k), r. split_and!; try done. lia.
Qed.

Lemma type_index_spec m id :
  config_ok m → ∃ r, cflow_mailbox_type_index m id = Some r ∧
  match r with
  | Some i => ∃ row, aget (mb_schema m) i = Some row ∧ e_id row = id ∧
      List.find (λ row, e_id row =? id) (mb_schema m) = Some row
  | None => List.find (λ row, e_id row =? id) (mb_schema m) = None
  end.
Proof.
  intros Hc. unfold cflow_mailbox_type_index. destruct (Z.eqb_spec id 0) as [->|].
  { eexists. split; [done|]. destruct (List.find _ _) as [row|] eqn:E; [|done].
    apply find_some in E as [Hin He%Z.eqb_eq]. apply list_elem_of_In in Hin.
    pose proof (proj1 (Forall_forall _ _) (cf_fits _ Hc) row Hin) as [Hz _]. congruence. }
  rewrite (proj2 (Z.ltb_ge _ _)) by (rewrite (cf_rows _ Hc); lia). eexists. split; [done|].
  rewrite take_ge by (rewrite <- (cf_rows _ Hc); unfold alen; lia).
  pose proof (index_of_spec id (mb_schema m) 0) as H. destruct (index_of id 0 (mb_schema m)) as [i|]; [|done].
  destruct H as (k & row & -> & Hk & He & Hf). exists row. split_and!; try done.
  unfold aget. rewrite (proj2 (Z.ltb_ge _ _)) by lia. by rewrite Z.add_0_l, Nat2Z.id.
Qed.

(** ** Cells of the buffer *)

Lemma cell_range m i : config_ok m → 0 <= cell_at m i < mb_capacity m.
Proof. intros Hc. apply Z.mod_pos_bound. apply Hc. Qed.

Lemma cell_inj m i j :
  config_ok m → 0 <= i < mb_capacity m → 0 <= j < mb_capacity m → cell_at m i = cell_at m j → i = j.
Proof.
  unfold cell_at. intros Hc Hi Hj E. destruct (cf_capacity _ Hc) as [Hp _].
  assert ((i - j) mod mb_capacity m = 0) as H0.
  { replace (i - j) with ((mb_head m + i) - (mb_head m + j)) by lia. rewrite Zminus_mod, E, Z.sub_diag.
    by rewrite Z.mod_0_l by lia. }
  apply Z.mod_divide in H0 as [q Hq]; [|lia]. assert (q = 0) by nia. subst q. lia.
Qed.

Lemma cell_wrap m i : 0 <= mb_head m < mb_capacity m → config_ok m → 0 <= i <= mb_capacity m →
  u64 (mb_head m + i) mod mb_capacity m = cell_at m i.
Proof.
  intros Hh Hc Hi. destruct (cf_capacity _ Hc). rewrite u64_id; [done|]. unfold is_u64. unfold SIZE_MAX in *. lia.
Qed.

(** Every row of the schema has a type that fits a cell. *)
Lemma row_type m i row : config_ok m → aget (mb_schema m) i = Some row →
  ∃ type, e_payload_type row = Some type ∧ 0 < td_size type <= mb_payload_stride m ∧ 0 < td_align type.
Proof.
  intros Hc [_ Hr]%aget_Some. apply list_elem_of_lookup_2 in Hr.
  by destruct (proj1 (Forall_forall _ _) (cf_fits _ Hc) row Hr) as [_ H].
Qed.

Lemma find_type m id row : config_ok m → List.find (λ row, e_id row =? id) (mb_schema m) = Some row →
  e_id row = id ∧ ∃ type, e_payload_type row = Some type ∧ 0 < td_size type <= mb_payload_stride m ∧ 0 < td_align type.
Proof.
  intros Hc [Hin He%Z.eqb_eq]%find_some. split; [done|]. apply list_elem_of_In in Hin.
  by destruct (proj1 (Forall_forall _ _) (cf_fits _ Hc) row Hin) as [_ H].
Qed.

(** Writing one cell leaves the events of the others as they are. *)
Lemma event_at_other m i j ti bytes slots payloads m' :
  config_ok m → cell_at m i ≠ cell_at m j → blen bytes <= mb_payload_stride m →
  aset (mb_slots m) (cell_at m j) ti = Some slots →
  blit (mb_payloads m) (cell_at m j * mb_payload_stride m) bytes = Some payloads →
  mb_slots m' = slots → mb_payloads m' = payloads → mb_schema m' = mb_schema m →
  mb_payload_stride m' = mb_payload_stride m → cell_at m' i = cell_at m i →
  event_at m' i = event_at m i.
Proof.
  intros Hc Hne Hb Hs Hp E1 E2 E3 E4 E5. unfold event_at. rewrite E1, E2, E3, E4, E5.
  rewrite (aget_aset _ _ _ _ _ Hs). rewrite (proj2 (Z.eqb_neq _ _)) by done.
  destruct (aget (mb_slots m) (cell_at m i)) as [t|]; [|done]. cbn [mbind option_bind].
  destruct (aget (mb_schema m) t) as [row|] eqn:Hr; [|done]. cbn [mbind option_bind].
  destruct (row_type m t row Hc Hr) as (type & -> & Hsz & _). cbn [mbind option_bind].
  assert (slice payloads (cell_at m i * mb_payload_stride m) (td_size type) =
    slice (mb_payloads m) (cell_at m i * mb_payload_stride m) (td_size type)) as ->; [|done].
  pose proof (cell_range m i Hc). pose proof (cell_range m j Hc).
  destruct (Z.lt_trichotomy (cell_at m i) (cell_at m j)) as [|[|]]; [|done|].
  - eapply slice_blit_before; [exact Hp|]. nia.
  - eapply slice_blit_after; [exact Hp|]. nia.
Qed.

(** ** Refinement *)

Definition same_config m m' : Prop :=
  mb_schema m' = mb_schema m ∧ mb_capacity m' = mb_capacity m ∧ mb_payload_stride m' = mb_payload_stride m ∧
  mb_max_payload_size m' = mb_max_payload_size m.

(** The payload that is sent has the bytes that are copied. *)
Definition op_readable (schema : list cflow_event_type) (op : box_op) : Prop :=
  match op with
  | BSend event => ∀ payload row type, v_payload event = Some payload →
      List.find (λ row, e_id row =? v_id event) schema = Some row → e_payload_type row = Some type →
      td_size type <= blen payload
  | _ => True
  end.

Lemma increment_saturated x : 0 <= x → cflow_counter_increment (saturated x) = saturated (x + 1).
Proof. intros. unfold cflow_counter_increment, saturated. destruct (Z.eqb_spec (Z.min x UINT64_MAX) UINT64_MAX); lia. Qed.

Lemma add_saturated x n : 0 <= n → 0 <= x → n <= UINT64_MAX →
  cflow_counter_add_size (saturated x) n = saturated (x + n).
Proof.
  intros. unfold cflow_counter_add_size, saturated. destruct (Z.ltb_spec (UINT64_MAX - Z.min x UINT64_MAX) n); lia.
Qed.

Lemma saturated_0 x : x + 0 = x.
Proof. lia. Qed.

(** A call that changes only counters of rejections. *)
Lemma represents_rejected m b f c x :
  represents m b → 0 <= f → 0 <= c → 0 <= x →
  represents (with_rejected m (saturated (bx_rejected_full b + f)) (saturated (bx_rejected_closed b + c))
    (saturated (bx_rejected_cancelled b + x))) (box_rejected b f c x).
Proof.
  intros [[] ? ? ? ? ? ? ? ? [? ? ? ? ?]] ? ? ?. split; try done; split; try done. cbn. lia.
Qed.

(** A call that changes only the waiter or the end. *)
Lemma represents_control m b terminal waiter :
  represents m b → (terminal = CFLOW_MAILBOX_TERMINAL_CANCELLED → bx_queue b = []) →
  (wk_wake waiter ≠ None → bx_queue b = [] ∧ terminal = CFLOW_MAILBOX_TERMINAL_OPEN) →
  represents (with_control m terminal waiter) (box_control b (bx_queue b) terminal waiter 0).
Proof.
  intros [[] ? ? ? ? ? ? ? ? [? ? ? ? ?]] Ht Hw. split; try done; cbn; rewrite ?saturated_0; try done; split; cbn; rewrite ?saturated_0; try done.
  intros [Hq ->]%Hw. unfold box_ready. cbn. by rewrite Hq.
Qed.

Lemma send_accepts m b type_index row type payload :
  represents m b → mb_terminal m = CFLOW_MAILBOX_TERMINAL_OPEN → mb_count m ≠ mb_capacity m →
  aget (mb_schema m) type_index = Some row → e_payload_type row = Some type → td_size type <= blen payload →
  ∃ m', send_locked m type_index type payload = Some (CFLOW_MAILBOX_OK, m', mb_waiter m) ∧ same_config m m' ∧
    represents m' (box_enqueue b (MkReceived (e_id row) type (take (Z.to_nat (td_size type)) payload))).
Proof.
  intros Hr Ht Hne Hrow Htype Hlen. pose proof (rp_config _ _ Hr) as Hc. pose proof (rp_box _ _ Hr) as Hb.
  destruct (row_type m type_index row Hc Hrow) as (t & Ht' & Hsz & _). rewrite Htype in Ht'. injection Ht' as <-.
  pose proof (rp_count _ _ Hr) as Hcnt. pose proof (alen_nonneg (bx_queue b)). pose proof (bo_limit _ _ Hb) as Hlim.
  unfold send_locked. rewrite Ht. rewrite (proj2 (Z.eqb_neq _ _)) by done.
  rewrite (cell_wrap m (mb_count m)) by first [apply Hr|apply Hc|lia].
  rewrite (slice_in_bounds payload 0 (td_size type)) by lia. cbn [mbind option_bind]. change (drop (Z.to_nat 0) payload) with payload.
  set (bytes := take (Z.to_nat (td_size type)) payload).
  assert (blen bytes = td_size type) as Hbl by (unfold bytes, blen in *; rewrite length_take; lia).
  pose proof (cell_range m (mb_count m) Hc) as Hcell.
  destruct (blit (mb_payloads m) (cell_at m (mb_count m) * mb_payload_stride m) bytes) as [payloads|] eqn:Hblit; cycle 1.
  { rewrite blit_in_bounds in Hblit; [done|nia|]. rewrite (cf_payloads _ Hc). nia. }
  destruct (aset_is_Some (mb_slots m) (cell_at m (mb_count m)) type_index) as [slots Hslots].
  { by rewrite (cf_slots _ Hc). }
  cbn [mbind option_bind]. rewrite Hslots. cbn [mbind option_bind]. eexists. split; [done|]. split; [done|].
  rewrite <-Hbl in Hsz. split; cbn; try apply Hr.
  - destruct Hc. split; cbn; try done; [by rewrite (aset_alen _ _ _ _ Hslots)|by rewrite (blit_blen _ _ _ _ Hblit)].
  - rewrite alen_app, Hcnt. done.
  - intros i Hi. destruct (Z.eq_dec i (mb_count m)) as [->|Hne'].
    + rewrite (aget_middle (bx_queue b) [] _ (mb_count m) Hcnt). unfold event_at.
      change (cell_at _ (mb_count m)) with (cell_at m (mb_count m)). cbn.
      rewrite (aget_aset _ _ _ _ _ Hslots), Z.eqb_refl. cbn [mbind option_bind]. rewrite Hrow. cbn [mbind option_bind].
      rewrite Htype. cbn [mbind option_bind]. by rewrite <-Hbl, (slice_blit_same _ _ _ _ Hblit).
    + rewrite (event_at_other m i (mb_count m) type_index bytes slots payloads) by first [done|lia|
        intros E; apply (cell_inj m) in E; [lia|done|lia|lia]].
      rewrite (rp_events _ _ Hr) by lia. unfold aget. rewrite (proj2 (Z.ltb_ge _ _)) by lia.
      rewrite lookup_app_l; [done|]. unfold alen in *. lia.
  - rewrite <-Ht. apply Hr.
  - done.
  - rewrite (rp_peak _ _ Hr), Hcnt. destruct (Z.ltb_spec (bx_peak b) (alen (bx_queue b) + 1)); lia.
  - destruct (rp_flow _ _ Hr) as (-> & -> & ->). rewrite increment_saturated; [done|].
    destruct Hb as [? Ha Hcs ? ?]. lia.
  - destruct Hb as [? Ha Hcs ? Hw]. split; cbn; rewrite ?alen_app; cbn; try done; try (change (alen [_]) with 1; lia).
    rewrite <-(rp_terminal _ _ Hr), Ht. done.
Qed.

Lemma event_cell m i e :
  event_at m i = Some e → ∃ ti row, aget (mb_slots m) (cell_at m i) = Some ti ∧ aget (mb_schema m) ti = Some row ∧
    e_payload_type row = Some (rc_type e) ∧ e_id row = rc_id e ∧
    slice (mb_payloads m) (cell_at m i * mb_payload_stride m) (td_size (rc_type e)) = Some (rc_payload e).
Proof.
  unfold event_at. intros H. destruct (aget (mb_slots m) (cell_at m i)) as [ti|]; [|done]. cbn [mbind option_bind] in H.
  destruct (aget (mb_schema m) ti) as [row|] eqn:Hrow; [|done]. cbn [mbind option_bind] in H.
  destruct (e_payload_type row) as [type|] eqn:Ht; [|done]. cbn [mbind option_bind] in H.
  destruct (slice _ _ _) as [bytes|] eqn:Hs; [|done]. cbn [mbind option_bind] in H. injection H as <-. eauto 10.
Qed.

(** Taking the oldest event moves the others up. *)
Lemma cell_shift m i : config_ok m → 0 <= mb_head m < mb_capacity m →
  (u64 (mb_head m + 1) mod mb_capacity m + i) mod mb_capacity m = cell_at m (i + 1).
Proof.
  intros Hc Hh. rewrite (cell_wrap m 1) by (first [done|destruct (cf_capacity _ Hc); lia]). unfold cell_at.
  rewrite Z.add_mod_idemp_l by (destruct (cf_capacity _ Hc); lia). f_equal. lia.
Qed.

Lemma represents_dequeue m b e queue :
  represents m b → bx_queue b = e :: queue →
  represents (with_flow (with_queue m (mb_slots m) (mb_payloads m) (u64 (mb_head m + 1) mod mb_capacity m) (mb_count m - 1)
    (mb_peak_pending m)) (mb_accepted m) (cflow_counter_increment (mb_received m)) (mb_cancelled m)) (box_dequeue b queue).
Proof.
  intros Hr Hq. pose proof (rp_config _ _ Hr) as Hc. pose proof (rp_box _ _ Hr) as Hb.
  destruct (cf_capacity _ Hc) as [Hcap _]. pose proof (rp_count _ _ Hr) as Hcnt. rewrite Hq in Hcnt. unfold alen in Hcnt.
  cbn [length] in Hcnt. split; cbn; try apply Hr.
  - by destruct Hc.
  - apply Z.mod_pos_bound. lia.
  - unfold alen. lia.
  - intros i Hi. unfold event_at, cell_at. cbn. rewrite cell_shift by (done || apply Hr).
    change (event_at m (i + 1) = aget queue i). rewrite (rp_events _ _ Hr) by lia. rewrite Hq. unfold aget.
    rewrite !(proj2 (Z.ltb_ge _ _)) by lia. by replace (Z.to_nat (i + 1)) with (S (Z.to_nat i)) by lia.
  - destruct (rp_flow _ _ Hr) as (-> & -> & ->). rewrite increment_saturated; [done|]. apply Hb.
  - destruct Hb as [Hl Ha Hcs Hca Hw]. rewrite Hq in Hl, Ha, Hca. unfold alen in *. cbn [length] in Hl, Ha.
    split; cbn; unfold alen; try lia.
    + intros H. by specialize (Hca H).
    + intros H. specialize (Hw H). unfold box_ready in Hw. rewrite Hq in Hw. done.
Qed.

Lemma send_refines m b event :
  represents m b → op_readable (mb_schema m) (BSend event) →
  ∃ ans m', box_exec (BSend event) m = Some (ans, m') ∧ same_config m m' ∧
    ans = (box_send (mb_schema m) (mb_capacity m) b event).1 ∧
    represents m' (box_send (mb_schema m) (mb_capacity m) b event).2.
Proof.
  intros Hr Hread. pose proof (rp_config _ _ Hr) as Hc. cbn [box_exec]. unfold cflow_mailbox_try_send, box_send.
  destruct (v_payload_type event) as [pt|]; [|by do 2 eexists].
  destruct (v_payload event) as [payload|] eqn:Hp; [|by do 2 eexists].
  destruct (type_index_spec m (v_id event) Hc) as (r & -> & Hfound). cbn [mbind option_bind].
  destruct r as [ti|]; [|rewrite Hfound; by do 2 eexists].
  destruct Hfound as (row & Hrow & Hid & Hf). rewrite Hrow. cbn [mbind option_bind].
  destruct (row_type m ti row Hc Hrow) as (type & Htype & Hsz & _). rewrite Hf. cbn [mbind option_bind]. rewrite Htype.
  destruct (cmeta_type_equal (Some type) (Some pt)); cbn [negb]; [|by do 2 eexists]. cbn [mbind option_bind].
  pose proof (Hread payload row type Hp Hf Htype) as Hlen.
  destruct (rp_box _ _ Hr) as [_ _ Hcs _ _]. pose proof (rp_terminal _ _ Hr) as Ht.
  destruct (bx_terminal b) eqn:Hbt.
  - rewrite <-(rp_count _ _ Hr). destruct (Z.eqb_spec (mb_count m) (mb_capacity m)) as [Hfull|Hne].
    + unfold send_locked. rewrite Ht, (proj2 (Z.eqb_eq _ _) Hfull). cbn [mbind option_bind].
      destruct (rp_rejected _ _ Hr) as (-> & -> & ->). rewrite increment_saturated by apply Hcs.
      do 2 eexists. split; [done|]. do 2 (split; [done|]). rewrite <-(Z.add_0_r (bx_rejected_closed b)), <-(Z.add_0_r (bx_rejected_cancelled b)) at 1.
      by apply represents_rejected.
    + destruct (send_accepts m b ti row type payload Hr Ht Hne Hrow Htype Hlen) as (m' & -> & Hsame & Hr').
      cbn [mbind option_bind]. do 2 eexists. split; [done|]. split; [done|]. rewrite <-Hid, (rp_waiter _ _ Hr). by split.
  - unfold send_locked. rewrite Ht. cbn [mbind option_bind]. destruct (rp_rejected _ _ Hr) as (-> & -> & ->).
    rewrite increment_saturated by apply Hcs. do 2 eexists. split; [done|]. do 2 (split; [done|]).
    rewrite <-(Z.add_0_r (bx_rejected_full b)), <-(Z.add_0_r (bx_rejected_cancelled b)) at 1. by apply represents_rejected.
  - unfold send_locked. rewrite Ht. cbn [mbind option_bind]. destruct (rp_rejected _ _ Hr) as (-> & -> & ->).
    rewrite increment_saturated by apply Hcs. do 2 eexists. split; [done|]. do 2 (split; [done|]).
    rewrite <-(Z.add_0_r (bx_rejected_full b)), <-(Z.add_0_r (bx_rejected_closed b)) at 1. by apply represents_rejected.
Qed.

Lemma receive_refines m b address capacity :
  represents m b →
  ∃ ans m', box_exec (BReceive address capacity) m = Some (ans, m') ∧ same_config m m' ∧
    ans = (box_receive b address capacity).1 ∧ represents m' (box_receive b address capacity).2.
Proof.
  intros Hr. pose proof (rp_config _ _ Hr) as Hc. cbn [box_exec]. unfold cflow_mailbox_try_receive, box_receive.
  pose proof (rp_count _ _ Hr) as Hcnt. destruct (bx_queue b) as [|e queue] eqn:Hq.
  { rewrite Hcnt. cbn. rewrite (rp_terminal _ _ Hr). by do 2 eexists. }
  unfold alen in Hcnt. cbn [length] in Hcnt. rewrite (proj2 (Z.eqb_neq _ _)) by lia.
  assert (event_at m 0 = Some e) as He by (rewrite (rp_events _ _ Hr), Hq by lia; done).
  apply event_cell in He as (ti & row & Hti & Hrow & Ht & Hid & Hs).
  assert (cell_at m 0 = mb_head m) as Ecell by (unfold cell_at; rewrite Z.add_0_r; apply Z.mod_small, Hr).
  rewrite Ecell in Hti, Hs. rewrite Hti. cbn [mbind option_bind]. rewrite Hrow. cbn [mbind option_bind]. rewrite Ht.
  cbn [mbind option_bind]. destruct (capacity <? _); [by do 2 eexists|]. destruct (negb _); [by do 2 eexists|].
  rewrite Hs. cbn [mbind option_bind]. do 2 eexists. split; [done|]. split; [done|]. split.
  - rewrite Hid. by destruct e.
  - by apply (represents_dequeue m b e queue).
Qed.

(** Cancelling discards what is pending. *)
Lemma represents_cancel m b :
  represents m b →
  represents (with_control (with_queue (with_flow m (mb_accepted m) (mb_received m)
      (cflow_counter_add_size (mb_cancelled m) (mb_count m))) (mb_slots m) (mb_payloads m) 0 0 (mb_peak_pending m))
      CFLOW_MAILBOX_TERMINAL_CANCELLED no_waker)
    (box_control b [] CFLOW_MAILBOX_TERMINAL_CANCELLED no_waker (alen (bx_queue b))).
Proof.
  intros Hr. destruct (cf_capacity _ (rp_config _ _ Hr)) as [Hcap Hmax]. pose proof (rp_count _ _ Hr) as Hcnt.
  pose proof (alen_nonneg (bx_queue b)) as Hn. destruct (rp_box _ _ Hr) as [Hl Ha Hcs Hca Hw].
  split; cbn; try apply Hr; try done.
  - by destruct (rp_config _ _ Hr).
  - lia.
  - destruct (rp_flow _ _ Hr) as (-> & -> & ->). rewrite Hcnt, add_saturated; [done|done|lia|].
    unfold SIZE_MAX in Hmax. lia.
  - split; cbn; try done; unfold alen in *; cbn [length]; lia.
Qed.

Lemma control_refines m b op :
  represents m b → match op with BClose | BCancel | BArm _ | BUnarm => True | _ => False end →
  ∃ ans m', box_exec op m = Some (ans, m') ∧ same_config m m' ∧
    ans = (box_step (mb_schema m) (mb_capacity m) op b).1 ∧
    represents m' (box_step (mb_schema m) (mb_capacity m) op b).2.
Proof.
  intros Hr Hop. pose proof (rp_terminal _ _ Hr) as Ht. pose proof (rp_box _ _ Hr) as Hb.
  pose proof (rp_count _ _ Hr) as Hcnt. destruct op as [| | | |waker|]; try done; cbn [box_exec box_step].
  - unfold cflow_mailbox_close. rewrite Ht. destruct (bx_terminal b) eqn:E; try by do 2 eexists.
    rewrite (rp_waiter _ _ Hr). do 2 eexists. split; [done|]. do 2 (split; [done|]). by apply represents_control.
  - unfold cflow_mailbox_cancel, cflow_mailbox_cancel_detach_internal. rewrite Ht.
    destruct (bx_terminal b) eqn:E; try by do 2 eexists.
    all: rewrite (rp_waiter _ _ Hr); do 2 eexists; split; [done|]; do 2 (split; [done|]); by apply represents_cancel.
  - unfold cflow_mailbox_wait_arm, box_ready. rewrite Hcnt, Ht, (rp_waiter _ _ Hr).
    destruct (wk_wake waker) as [f|] eqn:Hwk; [|by do 2 eexists]. cbn [is_null].
    destruct (negb (alen (bx_queue b) =? 0) || negb (bool_decide (bx_terminal b = CFLOW_MAILBOX_TERMINAL_OPEN))) eqn:Hready;
      cbn [negb andb].
    { do 2 eexists. split; [done|]. split; [done|]. split; [|done]. unfold cflow_waker_invoke. by rewrite Hwk. }
    destruct (wk_wake (bx_waiter b)); cbn [is_null negb]; [by do 2 eexists|].
    apply orb_false_iff in Hready as [Hq Ho]. apply negb_false_iff in Hq, Ho. apply Z.eqb_eq in Hq.
    apply bool_decide_eq_true in Ho. assert (bx_queue b = []) as Hq0 by (destruct (bx_queue b); [done|discriminate]).
    do 2 eexists. split; [done|]. do 2 (split; [done|]). by apply represents_control.
  - do 2 eexists. split; [done|]. do 2 (split; [done|]). rewrite Ht. apply represents_control; [done|apply Hb|done].
Qed.

Lemma exec_refines m b op :
  represents m b → op_readable (mb_schema m) op →
  ∃ ans m', box_exec op m = Some (ans, m') ∧ same_config m m' ∧
    ans = (box_step (mb_schema m) (mb_capacity m) op b).1 ∧
    represents m' (box_step (mb_schema m) (mb_capacity m) op b).2.
Proof.
  intros Hr Hop. destruct op; [by apply send_refines|by apply receive_refines|by apply control_refines..].
Qed.

(** Operations one after another, by whichever threads. *)
Fixpoint mailbox_run (ops : list box_op) m : option (list box_answer * cflow_mailbox_impl) :=
  match ops with
  | [] => Some ([], m)
  | op :: ops =>
      '(ans, m) ← box_exec op m;
      '(answers, m) ← mailbox_run ops m;
      Some (ans :: answers, m)
  end.

Fixpoint box_run (schema : list cflow_event_type) (capacity : Z) (ops : list box_op) (b : box) : list box_answer * box :=
  match ops with
  | [] => ([], b)
  | op :: ops =>
      let (ans, b) := box_step schema capacity op b in
      let (answers, b) := box_run schema capacity ops b in
      (ans :: answers, b)
  end.

(** C13. The mailbox is a bounded first-in-first-out queue of typed events.
    Over any sequence of operations it answers as the queue does, on every
    branch: unknown identifiers, other types, a full, closing or cancelled
    mailbox, buffers that are too small or misaligned; an event that is
    received carries the identifier, the type and the bytes it was sent with.
    Closing keeps what is pending, cancelling discards and counts it. The
    counters are exact until they saturate, and the events accepted are those
    received, discarded and pending. No access leaves the buffers. *)
Theorem mailbox_refines ops : ∀ m b,
  represents m b → Forall (op_readable (mb_schema m)) ops →
  ∃ m', mailbox_run ops m = Some ((box_run (mb_schema m) (mb_capacity m) ops b).1, m') ∧ same_config m m' ∧
    represents m' (box_run (mb_schema m) (mb_capacity m) ops b).2.
Proof.
  induction ops as [|op ops IH]; intros m b Hr Hops; [by eexists|].
  apply Forall_cons in Hops as [Hop Hops]. destruct (exec_refines m b op Hr Hop) as (ans & m1 & E & Hsame & Hans & Hr1).
  cbn [mailbox_run box_run]. rewrite E. cbn [mbind option_bind].
  destruct (box_step (mb_schema m) (mb_capacity m) op b) as [ans' b1]. cbn [fst snd] in Hans, Hr1. subst ans'.
  destruct Hsame as (Hs1 & Hs2 & Hs3 & Hs4). rewrite <-Hs1 in Hops.
  destruct (IH m1 b1 Hr1 Hops) as (m2 & E2 & (Hs1' & Hs2' & Hs3' & Hs4') & Hr2). rewrite E2. cbn [mbind option_bind].
  rewrite Hs1, Hs2 in *. destruct (box_run (mb_schema m) (mb_capacity m) ops b1) as [answers b2].
  exists m2. split; [done|]. split; [|done]. unfold same_config. split_and!; congruence.
Qed.

(** ** Waking *)

(** Threads operate on the mailbox; a waker that an operation has detached is
    called some time later. [armed] lists the wakers that were armed with
    success, [withdrawn] those that were armed when the wait was given up. *)
Record waiting := MkWaiting {
  wt_mailbox : cflow_mailbox_impl;
  wt_armed : list cflow_waker;
  wt_due : list cflow_waker;
  wt_called : list cflow_waker;
  wt_withdrawn : list cflow_waker
}.

Definition armed_by (op : box_op) (ans : box_answer) : list cflow_waker :=
  match op with BArm waker => if an_armed ans then [waker] else [] | _ => [] end.
Definition withdrawn_by (op : box_op) m : list cflow_waker :=
  match op with BUnarm => cflow_waker_invoke (mb_waiter m) | _ => [] end.

Inductive wait_step : waiting → waiting → Prop :=
  | wait_operate op ans m m' armed due called withdrawn :
      op_readable (mb_schema m) op → box_exec op m = Some (ans, m') →
      wait_step (MkWaiting m armed due called withdrawn)
        (MkWaiting m' (armed_by op ans ++ armed) (an_wakes ans ++ due) called (withdrawn_by op m ++ withdrawn))
  | wait_call m armed due1 waker due2 called withdrawn :
      wait_step (MkWaiting m armed (due1 ++ waker :: due2) called withdrawn)
        (MkWaiting m armed (due1 ++ due2) (waker :: called) withdrawn).

(** Each waker armed is called, about to be called, withdrawn, or still
    registered. *)
Definition ledger (s : waiting) : Prop :=
  wt_armed s ≡ₚ wt_called s ++ wt_due s ++ wt_withdrawn s ++ cflow_waker_invoke (mb_waiter (wt_mailbox s)).

(** One operation moves wakers between the places they can be in. *)
Lemma wakers_move schema capacity op b ans b' :
  box_step schema capacity op b = (ans, b') →
  armed_by op ans ++ cflow_waker_invoke (bx_waiter b) ≡ₚ
  an_wakes ans ++ (match op with BUnarm => cflow_waker_invoke (bx_waiter b) | _ => [] end) ++ cflow_waker_invoke (bx_waiter b').
Proof.
  destruct op as [event|address room| | |waker|]; cbn [box_step].
  - unfold box_send. intros H. repeat case_match; simplify_eq/=; try done. by rewrite app_nil_r.
  - unfold box_receive. intros H. repeat case_match; simplify_eq/=; done.
  - intros H. case_match; simplify_eq/=; try done. by rewrite app_nil_r.
  - intros H. case_match; simplify_eq/=; try done; by rewrite app_nil_r.
  - intros H. destruct (wk_wake waker) as [f|] eqn:Hw; cbn [is_null] in H; [|by simplify_eq/=].
    destruct (box_ready b); [by simplify_eq/=|]. destruct (wk_wake (bx_waiter b)) eqn:Hb; simplify_eq/=; [done|].
    unfold cflow_waker_invoke. by rewrite Hw, Hb.
  - intros [= <- <-]. cbn. by rewrite app_nil_r.
Qed.

Lemma wait_step_ledger s s' b :
  wait_step s s' → represents (wt_mailbox s) b → ledger s → ∃ b', represents (wt_mailbox s') b' ∧ ledger s'.
Proof.
  intros Hstep Hr Hl. destruct Hstep as [op ans m m' armed due called withdrawn Hop E|m armed due1 waker due2 called withdrawn].
  - cbn [wt_mailbox] in Hr. destruct (exec_refines m b op Hr Hop) as (ans' & m1 & E' & _ & Hans & Hr1).
    rewrite E in E'. injection E' as <- <-. destruct (box_step (mb_schema m) (mb_capacity m) op b) as [a b1] eqn:Hbox.
    cbn [fst snd] in Hans, Hr1. subst a. exists b1. split; [done|]. unfold ledger in *. cbn in *.
    apply wakers_move in Hbox. rewrite (rp_waiter _ _ Hr1). rewrite (rp_waiter _ _ Hr) in Hl.
    assert (withdrawn_by op m = match op with BUnarm => cflow_waker_invoke (bx_waiter b) | _ => [] end) as ->.
    { destruct op; cbn; try done. by rewrite (rp_waiter _ _ Hr). }
    rewrite Hl. clear -Hbox.
    set (W := match op with BUnarm => _ | _ => _ end) in *. clearbody W.
    transitivity (called ++ due ++ withdrawn ++ (armed_by op ans ++ cflow_waker_invoke (bx_waiter b))); [|rewrite Hbox]; solve_Permutation.
  - exists b. split; [done|]. unfold ledger in *. cbn in *. rewrite Hl. solve_Permutation.
Qed.

(** C36. No wake-up is lost. In every interleaving of operations on a mailbox
    with the calls of wakers they bring about, a waker that was armed is
    exactly once called, about to be called, withdrawn by its owner or still
    registered; while an event is pending or the mailbox has ended none is
    left registered, and no operation is ever blocked. *)
Theorem mailbox_no_lost_wakeup m b s :
  represents m b → mb_waiter m = no_waker → rtc wait_step (MkWaiting m [] [] [] []) s →
  ∃ b', represents (wt_mailbox s) b' ∧ ledger s ∧
    (box_ready b' = true → wt_armed s ≡ₚ wt_called s ++ wt_due s ++ wt_withdrawn s) ∧
    ∀ op, op_readable (mb_schema (wt_mailbox s)) op → ∃ ans m', box_exec op (wt_mailbox s) = Some (ans, m').
Proof.
  intros Hr Hw Hsteps.
  assert (∃ b', represents (wt_mailbox s) b' ∧ ledger s) as (b' & Hr' & Hl).
  { assert (ledger (MkWaiting m [] [] [] [])) as Hl by (unfold ledger; cbn; by rewrite Hw).
    remember (MkWaiting m [] [] [] []) as s0 eqn:Es. assert (represents (wt_mailbox s0) b) as Hr0 by by subst.
    clear Hr Hw Es m. revert b Hr0 Hl. induction Hsteps as [s|s1 s2 s3 Hstep _ IH]; intros b Hr Hl; [eauto|].
    destruct (wait_step_ledger _ _ _ Hstep Hr Hl) as (b' & ? & ?). eauto. }
  exists b'. split_and!; try done.
  - intros Hready. unfold ledger in Hl. rewrite Hl.
    destruct (wk_wake (mb_waiter (wt_mailbox s))) eqn:E; unfold cflow_waker_invoke; rewrite E; cbn; [|by rewrite app_nil_r].
    rewrite (rp_waiter _ _ Hr') in E. rewrite (bo_waiter _ _ (rp_box _ _ Hr')) in Hready; [done|]. by rewrite E.
  - intros op Hop. destruct (exec_refines _ _ op Hr' Hop) as (ans & m' & E & _). eauto.
Qed.

(** ** Creation *)

Definition payload_size (row : cflow_event_type) : Z := match e_payload_type row with Some t => td_size t | None => 0 end.
Definition payload_align (row : cflow_event_type) : Z := match e_payload_type row with Some t => td_align t | None => 0 end.
Definition largest (f : cflow_event_type → Z) (rows : list cflow_event_type) : Z := foldr (λ r n, Z.max (f r) n) 0 rows.

(** A row that may be declared: identifiers are not zero, payloads have a
    size, a supported alignment and can be copied and dropped as bytes. *)
Definition row_valid (row : cflow_event_type) : Prop :=
  e_id row ≠ 0 ∧ ∃ type, e_payload_type row = Some type ∧ cmeta_type_desc_valid (Some type) = true ∧
    td_size type ≠ 0 ∧ cflow_alignment_valid (td_align type) = true ∧
    require_flags (Some type) (Z.lor CMETA_TRAIT_TRIVIAL_COPY CMETA_TRAIT_TRIVIAL_DESTROY) = true.

Definition schema_valid (rows : list cflow_event_type) : Prop :=
  rows ≠ [] ∧ Forall row_valid rows ∧ NoDup (e_id <$> rows).

Definition schema_stride (rows : list cflow_event_type) : Z :=
  round_up (largest payload_size rows) (largest payload_align rows).

(** The blocks of a mailbox have sizes. *)
Definition schema_fits (rows : list cflow_event_type) (capacity : Z) : Prop :=
  capacity ≠ 0 ∧ 16 * alen rows <= SIZE_MAX ∧ 8 * capacity <= SIZE_MAX ∧
  largest payload_size rows + largest payload_align rows - 1 <= SIZE_MAX ∧ capacity * schema_stride rows <= SIZE_MAX.

Lemma measure_row_spec row :
  match measure_row row with
  | Some (s, a) => row_valid row ∧ s = payload_size row ∧ a = payload_align row
  | None => ¬ row_valid row
  end.
Proof.
  unfold measure_row, row_valid, payload_size, payload_align.
  destruct (e_payload_type row) as [t|]; [|by intros (_ & ? & [=] & _)].
  destruct (Z.eqb_spec (e_id row) 0); cbn [orb]; [by intros [? _]|].
  destruct (cmeta_type_desc_valid (Some t)) eqn:E1; cbn [negb orb]; [|intros (_ & ? & [= <-] & ? & _); congruence].
  destruct (Z.eqb_spec (td_size t) 0); cbn [orb]; [intros (_ & ? & [= <-] & _ & ? & _); congruence|].
  destruct (cflow_alignment_valid (td_align t)) eqn:E2; cbn [negb orb]; [|intros (_ & ? & [= <-] & _ & _ & ? & _); congruence].
  destruct (require_flags _ _) eqn:E3; cbn [negb]; [|intros (_ & ? & [= <-] & _ & _ & _ & ?); congruence].
  split_and!; try done. exists t. split_and!; done.
Qed.

Lemma largest_nonneg f rows : 0 <= largest f rows.
Proof. unfold largest. induction rows; cbn; lia. Qed.

Lemma measure_rows_spec rows : ∀ seen s a,
  NoDup (e_id <$> seen) → 0 <= s → 0 <= a →
  match measure_rows seen rows s a with
  | Some (s', a') => Forall row_valid rows ∧ NoDup (e_id <$> (seen ++ rows)) ∧
      s' = Z.max s (largest payload_size rows) ∧ a' = Z.max a (largest payload_align rows)
  | None => ¬ (Forall row_valid rows ∧ NoDup (e_id <$> (seen ++ rows)))
  end.
Proof.
  induction rows as [|row rows IH]; intros seen s a Hseen Hs Ha; cbn [measure_rows largest foldr].
  { rewrite app_nil_r. split_and!; [done|done|lia|lia]. }
  pose proof (measure_row_spec row) as Hrow. destruct (measure_row row) as [[size align]|]; cycle 1.
  { intros [H _]. apply Forall_cons in H as [H _]. done. }
  destruct Hrow as (Hv & -> & ->). destruct (existsb _ seen) eqn:Hex.
  { intros [_ Hnd]. apply existsb_exists in Hex as (p & Hin & He%Z.eqb_eq). apply list_elem_of_In in Hin.
    rewrite fmap_app in Hnd. apply NoDup_app in Hnd as (_ & Hdis & _). apply (Hdis (e_id p)).
    - by apply list_elem_of_fmap_2.
    - rewrite fmap_cons, He. constructor. }
  assert (e_id row ∉ e_id <$> seen) as Hnew.
  { intros (p & Hp & Hin)%list_elem_of_fmap. rewrite <-not_true_iff_false in Hex. apply Hex. apply existsb_exists.
    exists p. split; [by apply list_elem_of_In|]. apply Z.eqb_eq. congruence. }
  assert (NoDup (e_id <$> (seen ++ [row]))) as Hseen'.
  { rewrite fmap_app. apply NoDup_app. split_and!; [done| |apply NoDup_singleton]. intros x Hx Hx'.
    apply list_elem_of_singleton in Hx' as ->. done. }
  specialize (IH (seen ++ [row]) (if s <? payload_size row then payload_size row else s)
    (if a <? payload_align row then payload_align row else a) Hseen'
    ltac:(destruct (Z.ltb_spec s (payload_size row)); lia) ltac:(destruct (Z.ltb_spec a (payload_align row)); lia)).
  destruct (measure_rows _ rows _ _) as [[s' a']|]; rewrite <-app_assoc in IH; cbn [app] in IH.
  - destruct IH as (H1 & H2 & -> & ->). split_and!; [by constructor|done|..];
      change (foldr _ 0 rows) with (largest payload_size rows) || change (foldr _ 0 rows) with (largest payload_align rows).
    + destruct (Z.ltb_spec s (payload_size row)); lia.
    + destruct (Z.ltb_spec a (payload_align row)); lia.
  - intros [H1 H2]. apply IH. apply Forall_cons in H1 as [_ H1]. done.
Qed.

Lemma measure_schema rows count :
  0 <= count <= alen rows →
  ∃ r, cflow_schema_measure (Some rows) count = Some r ∧
  match r with
  | Some (s, a) => schema_valid (take (Z.to_nat count) rows) ∧
      s = largest payload_size (take (Z.to_nat count) rows) ∧ a = largest payload_align (take (Z.to_nat count) rows)
  | None => ¬ schema_valid (take (Z.to_nat count) rows)
  end.
Proof.
  intros Hc. unfold cflow_schema_measure, schema_valid. destruct (Z.eqb_spec count 0) as [->|].
  { eexists. split; [done|]. by intros [? _]. }
  rewrite (proj2 (Z.ltb_ge _ _)) by lia. eexists. split; [done|]. set (l := take (Z.to_nat count) rows).
  assert (l ≠ []) as Hl.
  { intros E. apply (f_equal length) in E. unfold l in E. rewrite length_take in E. unfold alen in Hc. cbn in E. lia. }
  pose proof (measure_rows_spec l [] 0 0 NoDup_nil_2 ltac:(lia) ltac:(lia)) as H.
  destruct (measure_rows [] l 0 0) as [[s a]|]; [|intros (_ & ? & ?); by apply H].
  destruct H as (H1 & H2 & -> & ->). split_and!; try done; rewrite Z.max_r; try done; apply largest_nonneg.
Qed.

Lemma size_multiply_spec x y :
  0 <= x → 0 <= y →
  match cflow_size_multiply x y with
  | Some p => p = x * y ∧ 0 < x ∧ 0 < y ∧ x * y <= SIZE_MAX
  | None => x = 0 ∨ y = 0 ∨ SIZE_MAX < x * y
  end.
Proof.
  intros. unfold cflow_size_multiply. destruct (Z.eqb_spec x 0); cbn [orb]; [by left|].
  destruct (Z.eqb_spec y 0); cbn [orb]; [by right; left|]. destruct (Z.ltb_spec (SIZE_MAX / y) x).
  - right. right. Z.to_euclidean_division_equations. nia.
  - split_and!; try lia. Z.to_euclidean_division_equations. nia.
Qed.

Definition row_u64 (row : cflow_event_type) : Prop := is_u64 (payload_size row) ∧ is_u64 (payload_align row).

Lemma largest_in f rows : rows ≠ [] → Forall (λ r, 0 <= f r) rows → ∃ r, r ∈ rows ∧ largest f rows = f r.
Proof.
  unfold largest. intros Hne Hf. induction Hf as [|r rows Hr Hf IH]; [done|]. cbn [foldr].
  destruct rows as [|r2 rows]; [exists r; split; [constructor|cbn; lia]|].
  destruct (IH ltac:(done)) as (x & Hx & E). destruct (Z.max_spec (f r) (foldr (λ r n, Z.max (f r) n) 0 (r2 :: rows))) as [[_ ->]|[_ ->]].
  - exists x. split; [by constructor|done].
  - exists r. split; [constructor|done].
Qed.

Lemma largest_ge f rows r : r ∈ rows → f r <= largest f rows.
Proof. unfold largest. induction 1; cbn [foldr]; lia. Qed.

(** Payloads have sizes, and the largest alignment is a power of two. *)
Lemma schema_measures rows :
  schema_valid rows → Forall row_u64 rows →
  0 < largest payload_size rows <= SIZE_MAX ∧ cflow_alignment_valid (largest payload_align rows) = true ∧
  ∃ k, 0 <= k < 64 ∧ largest payload_align rows = 2 ^ k.
Proof.
  intros (Hne & Hv & _) Hu.
  destruct (largest_in payload_size rows Hne) as (r1 & Hr1 & E1).
  { eapply Forall_impl; [exact Hu|]. intros r [[? ?] _]. done. }
  destruct (largest_in payload_align rows Hne) as (r2 & Hr2 & E2).
  { eapply Forall_impl; [exact Hu|]. intros r [_ [? ?]]. done. }
  rewrite Forall_forall in Hv, Hu. destruct (Hv r1 Hr1) as (_ & t1 & Ht1 & _ & Hs & _).
  destruct (Hv r2 Hr2) as (_ & t2 & Ht2 & _ & _ & Hal & _). destruct (Hu r1 Hr1) as [U1 _], (Hu r2 Hr2) as [_ U2].
  rewrite E1, E2. unfold payload_size, payload_align in *. rewrite Ht1, Ht2 in *. unfold is_u64 in *.
  split_and!; [lia|unfold SIZE_MAX; lia|done|]. unfold cflow_alignment_valid in Hal.
  apply andb_prop in Hal as [[Hz Hl]%andb_prop _]. apply negb_true_iff, Z.eqb_neq in Hz. apply Z.eqb_eq in Hl.
  apply pow2_test; [unfold SIZE_MAX; lia|done].
Qed.

Lemma align_size_spec size k :
  0 < size <= SIZE_MAX → 0 <= k < 64 → cflow_alignment_valid (2 ^ k) = true →
  cflow_align_size size (2 ^ k) =
  if SIZE_MAX <? size + 2 ^ k - 1 then None else Some (round_up size (2 ^ k)).
Proof.
  intros Hs Hk Hv. unfold cflow_align_size. rewrite (proj2 (Z.eqb_neq _ _)), Hv by lia. cbn [negb orb].
  assert ((SIZE_MAX - (2 ^ k - 1) <? size) = (SIZE_MAX <? size + 2 ^ k - 1)) as ->.
  { apply eq_true_iff_eq. rewrite !Z.ltb_lt. lia. }
  destruct (Z.ltb_spec SIZE_MAX (size + 2 ^ k - 1)); [done|]. f_equal.
  destruct (align_up size k Hk) as (q & -> & Hq); [unfold is_u64; unfold SIZE_MAX in *; lia|lia|].
  symmetry. apply round_up_unique; [|done]. apply Z.pow_pos_nonneg; lia.
Qed.

Lemma stride_bounds rows :
  schema_valid rows → Forall row_u64 rows →
  largest payload_size rows <= schema_stride rows.
Proof.
  intros Hv Hu. destruct (schema_measures rows Hv Hu) as (Hs & _ & k & Hk & Ha). unfold schema_stride, round_up. rewrite Ha.
  assert (0 < 2 ^ k) by (apply Z.pow_pos_nonneg; lia). Z.to_euclidean_division_equations. nia.
Qed.

Lemma layout_spec rows count capacity :
  let l := take (Z.to_nat count) rows in
  0 <= count <= alen rows → 0 <= capacity → Forall row_u64 l →
  ∃ r, mailbox_layout (Some rows) count capacity = Some r ∧
  match r with
  | Some (_, _, pb, stride, mx) => schema_valid l ∧ schema_fits l capacity ∧ stride = schema_stride l ∧
      pb = capacity * stride ∧ mx = largest payload_size l
  | None => ¬ (schema_valid l ∧ schema_fits l capacity)
  end.
Proof.
  intros l Hc Hcap Hu. unfold mailbox_layout, schema_fits.
  assert (alen l = count) as Hl by (unfold l, alen in *; rewrite length_take; lia).
  pose proof (size_multiply_spec count sizeof_event_type ltac:(lia) ltac:(done)) as H1.
  destruct (cflow_size_multiply count sizeof_event_type); cycle 1.
  { eexists. split; [done|]. intros ((Hne & _) & _ & Hf & _). unfold sizeof_event_type in H1.
    destruct H1 as [->|[?|?]]; [by destruct l|lia|lia]. }
  pose proof (size_multiply_spec capacity sizeof_event_slot Hcap ltac:(done)) as H2.
  destruct (cflow_size_multiply capacity sizeof_event_slot); cycle 1.
  { eexists. split; [done|]. intros (_ & ? & _ & ? & _). unfold sizeof_event_slot in H2. lia. }
  destruct (measure_schema rows count Hc) as (r & -> & Hr). cbn [mbind option_bind]. eexists. split; [done|].
  destruct r as [[s a]|]; [|by intros [? _]]. destruct Hr as (Hv & -> & ->). fold l in Hv |- *. cbn [mbind option_bind].
  destruct (schema_measures l Hv Hu) as (Hs & Hva & k & Hk & Ha). pose proof (stride_bounds l Hv Hu) as Hst.
  unfold schema_stride in *. rewrite Ha in *. rewrite align_size_spec by done.
  destruct (Z.ltb_spec SIZE_MAX (largest payload_size l + 2 ^ k - 1)); cbn [mbind option_bind].
  { intros (_ & _ & _ & _ & ? & _). lia. }
  pose proof (size_multiply_spec capacity (round_up (largest payload_size l) (2 ^ k)) Hcap ltac:(lia)) as H3.
  destruct (cflow_size_multiply capacity _); cbn [mbind option_bind].
  - destruct H1 as (_ & _ & _ & H1), H2 as (_ & ? & _ & H2), H3 as (-> & _ & _ & H3).
    unfold sizeof_event_slot, sizeof_event_type in *. split_and!; try done; lia.
  - intros (_ & ? & _ & _ & _ & ?). lia.
Qed.

(** The queue of a new mailbox. *)
Definition empty_box : box := MkBox [] CFLOW_MAILBOX_TERMINAL_OPEN no_waker 0 0 0 0 0 0 0.

Lemma fresh_represents fresh l capacity :
  schema_valid l → schema_fits l capacity → 0 <= capacity → Forall row_u64 l →
  represents (MkMailbox l (replicate (Z.to_nat capacity) 0) (fresh <$> seqZ 0 (capacity * schema_stride l)) (alen l) capacity
    (schema_stride l) (largest payload_size l) (capacity * schema_stride l) 0 0 0 0 0 0 0 0 0
    CFLOW_MAILBOX_TERMINAL_OPEN no_waker) empty_box.
Proof.
  intros Hv (Hc0 & _ & Hc8 & _ & _) Hcap Hu. pose proof (stride_bounds l Hv Hu) as Hst.
  destruct (schema_measures l Hv Hu) as (Hs & _). pose proof Hv as (_ & Hrows & Hids).
  split; cbn; try done; try lia.
  - split; cbn; try done; try lia.
    + rewrite Forall_forall in Hrows, Hu |- *. intros row Hin. destruct (Hrows row Hin) as (Hid & t & Ht & _ & Hsz & Hal & _).
      destruct (Hu row Hin) as [Us Ua]. pose proof (largest_ge payload_size l row Hin) as Hge.
      unfold payload_size, payload_align in *. rewrite Ht in *. split; [done|]. exists t. unfold is_u64 in *. split_and!; try done; try lia.
      unfold cflow_alignment_valid in Hal. destruct (Z.eqb_spec (td_align t) 0); [done|lia].
    + unfold alen. rewrite length_replicate. lia.
    + unfold blen. rewrite length_fmap, length_seqZ. nia.
Qed.

Lemma five_free w p1 p2 p3 p4 p5 :
  ∃ w', cflow_mailbox_impl_free p1 p2 p3 p4 p5 w = Some (tt, w') ∧ w_objects w' = w_objects w ∧
    w_blocks w' = w_blocks w - (if is_null p1 then 0 else 1) - (if is_null p2 then 0 else 1) -
      (if is_null p3 then 0 else 1) - (if is_null p4 then 0 else 1) - (if is_null p5 then 0 else 1).
Proof.
  unfold cflow_mailbox_impl_free. destruct p1, p2, p3, p4, p5; eexists; split; try reflexivity; cbn; lia.
Qed.

(** What creation does with the rows [l]. *)
Definition created (l : list cflow_event_type) (capacity : Z) (w : world) (st : cflow_mailbox_status)
    (h : option (option cflow_mailbox_impl)) (w' : world) : Prop :=
  w_objects w' = w_objects w ∧
  match st with
  | CFLOW_MAILBOX_OK => schema_valid l ∧ schema_fits l capacity ∧
      ∃ m, h = Some (Some m) ∧ represents m empty_box ∧ mb_schema m = l ∧ mb_capacity m = capacity ∧
        mb_payload_stride m = schema_stride l ∧ mb_max_payload_size m = largest payload_size l ∧
        w_blocks w' = w_blocks w + 5 ∧ (∀ k, supply (5 + k) w → supply k w') ∧
        ∀ w1, ∃ w2, cflow_mailbox_destroy h w1 = Some (Some None, w2) ∧ w_blocks w2 = w_blocks w1 - 5
  | CFLOW_MAILBOX_INVALID_ARGUMENT => ¬ (schema_valid l ∧ schema_fits l capacity) ∧ h = Some None ∧ w' = w
  | CFLOW_MAILBOX_ALLOCATION_FAILED => schema_valid l ∧ schema_fits l capacity ∧ h = Some None ∧
      w_blocks w' = w_blocks w ∧ ¬ supply 5 w
  | _ => False
  end.

Lemma init_created fresh rows count capacity w :
  0 <= count <= alen rows → 0 <= capacity → Forall row_u64 (take (Z.to_nat count) rows) →
  ∃ st h w', cflow_mailbox_init fresh (Some None) (Some rows) count capacity w = Some ((st, h), w') ∧
    created (take (Z.to_nat count) rows) capacity w st h w'.
Proof.
  intros Hc Hcap Hu. set (l := take (Z.to_nat count) rows) in *. unfold cflow_mailbox_init. cbn [is_null orb].
  assert (alen l = count) as Hl by (unfold l, alen in *; rewrite length_take; lia).
  assert (¬ (schema_valid l ∧ schema_fits l capacity) → created l capacity w CFLOW_MAILBOX_INVALID_ARGUMENT (Some None) w)
    as Hinv by by intros.
  destruct (Z.eqb_spec count 0) as [->|]; cbn [orb].
  { do 3 eexists. split; [done|]. apply Hinv. intros ((Hne & _) & _). apply Hne. reflexivity. }
  destruct (Z.eqb_spec capacity 0) as [->|].
  { do 3 eexists. split; [done|]. apply Hinv. by intros (_ & ? & _). }
  destruct (layout_spec rows count capacity Hc Hcap Hu) as (r & -> & Hr). fold l in Hr. wrun.
  destruct r as [[[[[sb lb] pb] stride] mx]|]; cycle 1.
  { do 3 eexists. split; [done|]. apply Hinv. done. }
  destruct Hr as (Hv & Hf & -> & -> & ->). clear Hinv.
  destruct (malloc_ok w) as (p1 & w1 & E1 & Hb1 & Ho1 & Hs1). wstep E1. destruct (is_null p1) eqn:N1.
  { do 3 eexists. split; [done|]. split; [done|]. split_and!; try done; [lia|]. intros Hs. by destruct (Hs1 4%nat Hs). }
  destruct (malloc_ok w1) as (p2 & w2 & E2 & Hb2 & Ho2 & Hs2). wstep E2.
  destruct (malloc_ok w2) as (p3 & w3 & E3 & Hb3 & Ho3 & Hs3). wstep E3.
  destruct (malloc_ok w3) as (p4 & w4 & E4 & Hb4 & Ho4 & Hs4). wstep E4. unfold salts_mutex_init.
  destruct (malloc_ok w4) as (p5 & w5 & E5 & Hb5 & Ho5 & Hs5). wstep E5.
  assert (supply 5 w → is_null p2 || is_null p3 || is_null p4 || is_null p5 = false) as Hsup.
  { intros [_ [-> [-> [-> [-> _]%(Hs5 0%nat)]%(Hs4 1%nat)]%(Hs3 2%nat)]%(Hs2 3%nat)]%(Hs1 4%nat). done. }
  destruct (is_null p2 || is_null p3 || is_null p4 || is_null p5) eqn:N.
  - destruct (five_free w5 p5 p4 p3 p2 p1) as (w6 & E6 & Ho6 & Hb6). wstep E6. do 3 eexists. split; [done|].
    split; [lia|]. rewrite N1 in Hb6. split_and!; try done; [lia|]. intros Hs%Hsup. done.
  - apply orb_false_iff in N as [[[N2 N3]%orb_false_iff N4]%orb_false_iff N5]. rewrite N2, N3, N4, N5 in *.
    wrun. do 3 eexists. split; [done|]. split; [lia|]. split_and!; try done. eexists. split; [done|].
    pose proof (fresh_represents fresh l capacity Hv Hf Hcap Hu) as Hrep. rewrite Hl in Hrep.
    split_and!; try done; [lia| |].
    { intros k Hs.
      eapply (Hs5 k), (Hs4 (1 + k)%nat), (Hs3 (2 + k)%nat), (Hs2 (3 + k)%nat), (Hs1 (4 + k)%nat).
      exact Hs. }
    intros w'. destruct (five_free w' (Some 0) (Some 0) (Some 0) (Some 0) (Some 0))
      as (w'' & E6 & _ & Hb6). unfold cflow_mailbox_destroy. wstep E6. eexists. split; [done|]. cbn in Hb6. lia.
Qed.

(** [cflow_mailbox_init] accepts exactly the schemas that are valid and
    fit: every row with a non-zero identifier of its own, a valid payload
    type with a size, a supported alignment and the traits of plain bytes,
    and blocks whose sizes do not overflow. An accepted mailbox is empty,
    open and owns five blocks that its destruction gives back; it is refused
    for want of memory only when one of five allocations fails, and then
    nothing stays allocated. *)
Theorem mailbox_init_exact fresh rows count capacity w :
  0 <= count <= alen rows → 0 <= capacity → Forall row_u64 (take (Z.to_nat count) rows) →
  ∃ st h w', cflow_mailbox_init fresh (Some None) (Some rows) count capacity w = Some ((st, h), w') ∧
    created (take (Z.to_nat count) rows) capacity w st h w'.
Proof. apply init_created. Qed.

(** ** An example: integers and bytes in a mailbox of two events *)

Module ExampleMailbox.

Definition byte_desc : cmeta_type_desc :=
  MkTypeDesc 40 (Some "uint8_t"%string) 1 1 CMETA_T_INTEGER None None (Some 255).
Definition rows : list cflow_event_type := [MkEvent 7 (Some (ExampleTypes.int_desc 10 1)); MkEvent 9 (Some byte_desc)].
Definition int_event (bytes : list Z) : cflow_event_view := MkView 7 (Some (ExampleTypes.int_desc 10 1)) (Some bytes).
Definition byte_event (byte : Z) : cflow_event_view := MkView 9 (Some byte_desc) (Some [byte]).
Definition mailbox : cflow_mailbox_impl :=
  MkMailbox rows [0; 0] (replicate 8 255) 2 2 4 4 8 0 0 0 0 0 0 0 0 0 CFLOW_MAILBOX_TERMINAL_OPEN no_waker.
Definition waker : cflow_waker := MkWaker (Some 1) 0.

Lemma rows_valid : schema_valid rows.
Proof.
  split; [done|]. split.
  - repeat constructor; try done; eexists; split_and!; try reflexivity; done.
  - apply (bool_decide_unpack _). by vm_compute.
Qed.

Lemma mailbox_represents : represents mailbox empty_box.
Proof.
  change mailbox with (MkMailbox rows (replicate (Z.to_nat 2) 0) ((λ _, 255) <$> seqZ 0 (2 * schema_stride rows)) (alen rows) 2
    (schema_stride rows) (largest payload_size rows) (2 * schema_stride rows) 0 0 0 0 0 0 0 0 0
    CFLOW_MAILBOX_TERMINAL_OPEN no_waker).
  apply fresh_represents; [apply rows_valid|by vm_compute|done|repeat constructor; by vm_compute].
Qed.

Definition ops : list box_op :=
  [BArm waker; BSend (int_event [1; 2; 3; 4]); BSend (byte_event 5); BSend (byte_event 6); BReceive 0 4; BClose;
   BSend (byte_event 7); BReceive 1 4; BReceive 1 4].

(** The waker is called once, the third event finds the mailbox full, the
    first two come out in order and then the mailbox is closed. *)
Example run_ops : an_status <$> (box_run rows 2 ops empty_box).1 =
  [CFLOW_MAILBOX_OK; CFLOW_MAILBOX_OK; CFLOW_MAILBOX_OK; CFLOW_MAILBOX_FULL; CFLOW_MAILBOX_OK; CFLOW_MAILBOX_OK;
   CFLOW_MAILBOX_CLOSED; CFLOW_MAILBOX_OK; CFLOW_MAILBOX_CLOSED].
Proof. vm_compute. reflexivity. Qed.

Lemma ops_readable : Forall (op_readable rows) ops.
Proof.
  repeat constructor; cbn; intros payload row type [= <-] [= <-] [= <-]; by vm_compute.
Qed.

(** A waker is armed, then an event arrives: the waker is due. *)
Definition armed_mailbox : cflow_mailbox_impl := with_control mailbox CFLOW_MAILBOX_TERMINAL_OPEN waker.
Definition sent_mailbox : cflow_mailbox_impl :=
  match box_exec (BSend (byte_event 5)) armed_mailbox with Some (_, m) => m | None => mailbox end.
Definition woken : waiting := MkWaiting sent_mailbox [waker] [waker] [] [].

Lemma woken_reached : rtc wait_step (MkWaiting mailbox [] [] [] []) woken.
Proof.
  apply rtc_l with (MkWaiting armed_mailbox [waker] [] [] []).
  - apply (wait_operate (BArm waker) (MkAnswer CFLOW_MAILBOX_OK None true []) mailbox armed_mailbox [] [] [] []); done.
  - apply rtc_once. apply (wait_operate (BSend (byte_event 5)) (MkAnswer CFLOW_MAILBOX_OK None false [waker]) armed_mailbox
      sent_mailbox [waker] [] [] []); [|by vm_compute].
    intros payload row type [= <-] [= <-] [= <-]. by vm_compute.
Qed.

End ExampleMailbox.

Lemma mailbox_refines_witness :
  ∃ m', mailbox_run ExampleMailbox.ops ExampleMailbox.mailbox =
      Some ((box_run ExampleMailbox.rows 2 ExampleMailbox.ops empty_box).1, m') ∧
    represents m' (box_run ExampleMailbox.rows 2 ExampleMailbox.ops empty_box).2.
Proof.
  destruct (mailbox_refines ExampleMailbox.ops ExampleMailbox.mailbox empty_box ExampleMailbox.mailbox_represents
    ExampleMailbox.ops_readable) as (m' & E & _ & H). exists m'. split; [exact E|exact H].
Defined.

Lemma mailbox_no_lost_wakeup_witness :
  ∃ b', represents ExampleMailbox.sent_mailbox b' ∧
    (box_ready b' = true → [ExampleMailbox.waker] ≡ₚ [] ++ [ExampleMailbox.waker] ++ []).
Proof.
  destruct (mailbox_no_lost_wakeup ExampleMailbox.mailbox empty_box ExampleMailbox.woken
    ExampleMailbox.mailbox_represents eq_refl ExampleMailbox.woken_reached) as (b' & H & _ & Hw & _).
  exists b'. split; [exact H|exact Hw].
Defined.

Lemma mailbox_init_exact_witness :
  ∃ st h w', cflow_mailbox_init (λ _, 255) (Some None) (Some ExampleMailbox.rows) 2 2
      (MkWorld (replicate 5 (Some 64)) 0 0) = Some ((st, h), w') ∧
    created ExampleMailbox.rows 2 (MkWorld (replicate 5 (Some 64)) 0 0) st h w'.
Proof.
  apply (mailbox_init_exact (λ _, 255) ExampleMailbox.rows 2 2); [by vm_compute|by vm_compute|].
  repeat constructor; by vm_compute.
Defined.
