(* ===== verification/MachineInstance.v ===== *)
(** * The run time of a state machine ([cflow/src/machine_instance.c])

    An instance takes events from its mailbox, selects a transition, runs its
    action and commits the new state. Workers run on a serial executor;
    senders, the consumer of the values, and the owner who closes or cancels
    the instance run beside it. Each stretch of code between two points where
    another thread can interfere (a locked section with the code up to the
    next one that touches only what the worker owns) is one [task]; a thread
    is the list of the tasks it still has to run. *)

From Stdlib Require Import String.
From S2P Require Import Prelude World TypeIdentity Machine Mailbox.
Local Open Scope Z_scope.

Definition CFLOW_MACHINE_INSTANCE_QUANTUM : Z := 64.

Inductive cflow_machine_ready_kind :=
  | CFLOW_MACHINE_READY_NONE
  | CFLOW_MACHINE_READY_VALUE
  | CFLOW_MACHINE_READY_VALUE_AND_DONE
  | CFLOW_MACHINE_READY_DONE
  | CFLOW_MACHINE_READY_ERROR.

Inductive cflow_machine_control_lifecycle :=
  | CFLOW_MACHINE_CONTROL_OPEN
  | CFLOW_MACHINE_CONTROL_CLOSE_REQUESTED
  | CFLOW_MACHINE_CONTROL_CANCEL_REQUESTED
  | CFLOW_MACHINE_CONTROL_TERMINAL.

Inductive cflow_machine_worker_phase :=
  | CFLOW_MACHINE_WORKER_IDLE
  | CFLOW_MACHINE_WORKER_SCHEDULED
  | CFLOW_MACHINE_WORKER_EXECUTING
  | CFLOW_MACHINE_WORKER_COMMITTING.

#[export] Instance ready_kind_eq_dec : EqDecision cflow_machine_ready_kind.
Proof. solve_decision. Defined.
#[export] Instance lifecycle_eq_dec : EqDecision cflow_machine_control_lifecycle.
Proof. solve_decision. Defined.
#[export] Instance worker_phase_eq_dec : EqDecision cflow_machine_worker_phase.
Proof. solve_decision. Defined.
#[export] Instance state_kind_eq_dec : EqDecision cflow_machine_state_kind.
Proof. solve_decision. Defined.
#[export] Instance observation_eq_dec : EqDecision cflow_machine_action_observation.
Proof. solve_decision. Defined.

(** What a guard reports: whether it ran, what it decided, and the message it
    wrote, if it wrote one. *)
Record guard_report := MkGuardReport {
  gr_ok : bool;
  gr_enabled : bool;
  gr_error : option (option string)
}.

(** What an action reports, with the buffers as it leaves them. *)
Record action_report := MkActionReport {
  ar_ok : bool;
  ar_target : list Z;
  ar_observation : list Z;
  ar_error : option (option string)
}.

(** Callbacks with their user data; they see the state, the event and, for
    actions, the buffers they write to. [None] is a null pointer. *)
Record cflow_machine_guard_binding := MkGuardBinding {
  gb_id : Z;
  gb_fn : option (list Z → list Z → guard_report)
}.

Record cflow_machine_action_binding := MkActionBinding {
  ab_id : Z;
  ab_fn : option (list Z → list Z → list Z → option (list Z) → action_report)
}.

(** What is fixed when an instance is created; the address is that of the
    buffer events are received in. *)
Record instance_config := MkConfig {
  cn_machine : cflow_machine_impl;
  cn_guards : list cflow_machine_guard_binding;
  cn_actions : list cflow_machine_action_binding;
  cn_output_type : cmeta_type_desc;
  cn_event_capacity : Z;
  cn_event_address : Z
}.

(** What only the worker touches; [state] and its value are written under the
    lock. *)
Record instance_data := MkData {
  da_state : cflow_machine_state;
  da_state_value : list Z;
  da_target_value : list Z;
  da_event_value : list Z;
  da_observation_value : list Z
}.

Record instance_counters := MkCounters {
  co_completed : Z;
  co_failed : Z;
  co_cancelled_in_flight : Z;
  co_emitted_values : Z;
  co_emitted_events : Z;
  co_in_flight : Z
}.

Record instance_control := MkControl {
  ct_error : option string;
  ct_error_owned : bool;
  ct_closed : bool;
  ct_cancelled : bool;
  ct_done : bool;
  ct_rerun : bool;
  ct_mailbox_armed : bool;
  ct_lifecycle : cflow_machine_control_lifecycle;
  ct_worker_phase : cflow_machine_worker_phase;
  ct_downstream_waiter : cflow_waker;
  ct_terminal_waiter : cflow_waker;
  ct_ready : cflow_machine_ready_kind
}.

Record cflow_machine_instance_impl := MkInstance {
  in_config : instance_config;
  in_mailbox : option cflow_mailbox_impl;
  in_data : instance_data;
  in_counters : instance_counters;
  in_control : instance_control
}.

Implicit Types (s : cflow_machine_instance_impl) (c : instance_control) (n : instance_counters).

Definition with_mailbox s (m : option cflow_mailbox_impl) := MkInstance (in_config s) m (in_data s) (in_counters s) (in_control s).
Definition with_data s (d : instance_data) := MkInstance (in_config s) (in_mailbox s) d (in_counters s) (in_control s).
Definition with_counters s n := MkInstance (in_config s) (in_mailbox s) (in_data s) n (in_control s).
Definition with_instance_control s c := MkInstance (in_config s) (in_mailbox s) (in_data s) (in_counters s) c.

Definition set_phase c (phase : cflow_machine_worker_phase) : instance_control :=
  MkControl (ct_error c) (ct_error_owned c) (ct_closed c) (ct_cancelled c) (ct_done c) (ct_rerun c) (ct_mailbox_armed c) (ct_lifecycle c)
    phase (ct_downstream_waiter c) (ct_terminal_waiter c) (ct_ready c).
Definition set_rerun c (rerun : bool) : instance_control :=
  MkControl (ct_error c) (ct_error_owned c) (ct_closed c) (ct_cancelled c) (ct_done c) rerun (ct_mailbox_armed c) (ct_lifecycle c)
    (ct_worker_phase c) (ct_downstream_waiter c) (ct_terminal_waiter c) (ct_ready c).
Definition set_armed c (armed : bool) : instance_control :=
  MkControl (ct_error c) (ct_error_owned c) (ct_closed c) (ct_cancelled c) (ct_done c) (ct_rerun c) armed (ct_lifecycle c)
    (ct_worker_phase c) (ct_downstream_waiter c) (ct_terminal_waiter c) (ct_ready c).
Definition set_ready c (ready : cflow_machine_ready_kind) : instance_control :=
  MkControl (ct_error c) (ct_error_owned c) (ct_closed c) (ct_cancelled c) (ct_done c) (ct_rerun c) (ct_mailbox_armed c) (ct_lifecycle c)
    (ct_worker_phase c) (ct_downstream_waiter c) (ct_terminal_waiter c) ready.
Definition set_waiters c (downstream terminal : cflow_waker) : instance_control :=
  MkControl (ct_error c) (ct_error_owned c) (ct_closed c) (ct_cancelled c) (ct_done c) (ct_rerun c) (ct_mailbox_armed c) (ct_lifecycle c)
    (ct_worker_phase c) downstream terminal (ct_ready c).
Definition set_error c (error : option string) (owned : bool) : instance_control :=
  MkControl error owned (ct_closed c) (ct_cancelled c) (ct_done c) (ct_rerun c) (ct_mailbox_armed c) (ct_lifecycle c)
    (ct_worker_phase c) (ct_downstream_waiter c) (ct_terminal_waiter c) (ct_ready c).
Definition set_stopping c (cancelled : bool) (lifecycle : cflow_machine_control_lifecycle) : instance_control :=
  MkControl (ct_error c) (ct_error_owned c) true cancelled (ct_done c) (ct_rerun c) false lifecycle
    (ct_worker_phase c) (ct_downstream_waiter c) (ct_terminal_waiter c) (ct_ready c).
(** The instance is over. *)
Definition set_over c (phase : cflow_machine_worker_phase) (ready : cflow_machine_ready_kind) : instance_control :=
  MkControl (ct_error c) (ct_error_owned c) (ct_closed c) (ct_cancelled c) true (ct_rerun c) (ct_mailbox_armed c)
    CFLOW_MACHINE_CONTROL_TERMINAL phase (ct_downstream_waiter c) (ct_terminal_waiter c) ready.

(** A counter that stops at its largest value. *)
Definition count_up (x : Z) : Z := if x =? UINT64_MAX then x else x + 1.
Definition count_down (x : Z) : Z := if x =? 0 then x else x - 1.

(** ** Selecting a transition and running its action *)

Definition find_guard_binding (cn : instance_config) (id : Z) : option (option (Z * cflow_machine_guard_binding)) :=
  find_by gb_id (Some (cn_guards cn)) id (rounds (alen (cn_guards cn))) 0 (alen (cn_guards cn)).
Definition find_action_binding (cn : instance_config) (id : Z) : option (option (Z * cflow_machine_action_binding)) :=
  find_by ab_id (Some (cn_actions cn)) id (rounds (alen (cn_actions cn))) 0 (alen (cn_actions cn)).
Definition find_action_declaration (cn : instance_config) (id : Z) : option (option (Z * cflow_machine_action)) :=
  find_action (cn_machine cn) id.

(** The message a callback leaves in the variable. *)
Definition written (report : option (option string)) (error : option string) : option string :=
  match report with Some e => e | None => error end.

(** The result of the call, the decision and the message. *)
Definition transition_enabled (cn : instance_config) (state_value event_value : list Z)
    (transition : cflow_machine_transition) (error : option string) : option (bool * bool * option string) :=
  if t_guard transition =? 0 then Some (true, true, error) else
  found ← find_guard_binding cn (t_guard transition);
  match found with
  | None => Some (false, false, Some "machine guard binding is missing"%string)
  | Some (_, binding) =>
      fn ← gb_fn binding;
      let r := fn state_value event_value in
      Some (gr_ok r, gr_enabled r, written (gr_error r) error)
  end.

(** The first row that is not before the state and the event. *)
Fixpoint lower_bound (impl : cflow_machine_impl) (source event : Z) (fuel : nat) (left right : Z) : option Z :=
  match fuel with
  | O => None
  | S fuel =>
      if left <? right then
        let middle := left + (right - left) / 2 in
        row ← row_at (i_transitions impl) middle;
        if (t_source row <? source) || ((t_source row =? source) && (t_event row <? event))
        then lower_bound impl source event fuel (middle + 1) right
        else lower_bound impl source event fuel left middle
      else Some left
  end.

(** The rows of the state and the event, until one is enabled. *)
Fixpoint select_loop (cn : instance_config) (source event : Z) (state_value event_value : list Z) (fuel : nat)
    (index : Z) (error : option string) : option (option (Z * cflow_machine_transition) * option string) :=
  match fuel with
  | O => None
  | S fuel =>
      let none := (None, match error with None => Some "no enabled transition"%string | Some e => Some e end) in
      if i_transition_count (cn_machine cn) <=? index then Some none else
      row ← row_at (i_transitions (cn_machine cn)) index;
      if negb (t_source row =? source) || negb (t_event row =? event) then Some none else
      '(ok, enabled, error) ← transition_enabled cn state_value event_value row error;
      if negb ok then Some (None, error) else
      if enabled : bool then Some (Some (index, row), error)
      else select_loop cn source event state_value event_value fuel (index + 1) error
  end.

Definition select_transition (cn : instance_config) (d : instance_data) (event_id : Z) :
    option (option (Z * cflow_machine_transition) * option string) :=
  let count := i_transition_count (cn_machine cn) in
  left ← lower_bound (cn_machine cn) (s_id (da_state d)) event_id (rounds count) 0 count;
  select_loop cn (s_id (da_state d)) event_id (da_state_value d) (da_event_value d) (rounds count) left None.

(** The size of the value of a state. *)
Definition value_size (st : cflow_machine_state) : option Z := td_size <$> s_value_type st.

(** The action that ran (none for a plain transition) or the message of the
    failure, and the buffers. *)
Definition run_action (cn : instance_config) (d : instance_data) (transition : cflow_machine_transition)
    (error : option string) : option ((option cflow_machine_action + option string) * instance_data) :=
  if t_action transition =? 0 then
    size ← value_size (da_state d);
    bytes ← slice (da_state_value d) 0 size;
    target ← blit (da_target_value d) 0 bytes;
    Some (inl None, MkData (da_state d) (da_state_value d) target (da_event_value d) (da_observation_value d))
  else
    declaration ← find_action_declaration cn (t_action transition);
    binding ← find_action_binding cn (t_action transition);
    match declaration, binding with
    | Some (_, action), Some (_, binding) =>
        let observed := negb (bool_decide (a_observation action = CFLOW_MACHINE_ACTION_NONE)) in
        fn ← ab_fn binding;
        let r := fn (da_state_value d) (da_event_value d) (da_target_value d)
          (if observed then Some (da_observation_value d) else None) in
        let d' := MkData (da_state d) (da_state_value d) (ar_target r) (da_event_value d)
          (if observed then ar_observation r else da_observation_value d) in
        if negb (ar_ok r) then
          Some (inr (if Z.land (a_effects action) CMETA_EFFECT_MAY_FAIL =? 0
                     then Some "machine action contract violation"%string
                     else match written (ar_error r) error with
                          | None => Some "machine action failed"%string
                          | e => e
                          end), d')
        else Some (inl (Some action), d')
    | _, _ => Some (inr (Some "machine action binding is missing"%string), d)
    end.

(** ** Locked sections *)

Definition runtime_alignment_valid (alignment : Z) : bool := cflow_alignment_valid alignment.

Definition runtime_type_supported (type : option cmeta_type_desc) : bool :=
  cmeta_type_desc_valid type &&
  match type with
  | Some t => negb (td_size t =? 0) && runtime_alignment_valid (td_align t)
  | None => false
  end && require_flags type (Z.lor CMETA_TRAIT_TRIVIAL_COPY CMETA_TRAIT_TRIVIAL_DESTROY).

Definition take_downstream_waiter_locked c : cflow_waker * instance_control :=
  (ct_downstream_waiter c, set_waiters c no_waker (ct_terminal_waiter c)).
Definition take_terminal_waiter_locked c : cflow_waker * instance_control :=
  (ct_terminal_waiter c, set_waiters c (ct_downstream_waiter c) no_waker).

(** Both waiters, for the sections that end the instance. *)
Definition take_waiters c : cflow_waker * cflow_waker * instance_control :=
  let (downstream, c) := take_downstream_waiter_locked c in
  let (terminal, c) := take_terminal_waiter_locked c in
  (downstream, terminal, c).

Definition publish_control_terminal_locked c : instance_control :=
  set_over c (ct_worker_phase c)
    match ct_ready c with
    | CFLOW_MACHINE_READY_VALUE => CFLOW_MACHINE_READY_VALUE_AND_DONE
    | CFLOW_MACHINE_READY_NONE => CFLOW_MACHINE_READY_DONE
    | ready => ready
    end.

Inductive cflow_machine_commit_decision :=
  | CFLOW_MACHINE_COMMIT_ALLOWED
  | CFLOW_MACHINE_COMMIT_CANCELLED
  | CFLOW_MACHINE_COMMIT_INVALID.

Definition begin_commit_locked c : cflow_machine_commit_decision * instance_control :=
  if bool_decide (ct_lifecycle c = CFLOW_MACHINE_CONTROL_CANCEL_REQUESTED) then (CFLOW_MACHINE_COMMIT_CANCELLED, c) else
  if negb (bool_decide (ct_worker_phase c = CFLOW_MACHINE_WORKER_EXECUTING)) ||
     (negb (bool_decide (ct_lifecycle c = CFLOW_MACHINE_CONTROL_OPEN)) &&
      negb (bool_decide (ct_lifecycle c = CFLOW_MACHINE_CONTROL_CLOSE_REQUESTED)))
  then (CFLOW_MACHINE_COMMIT_INVALID, c)
  else (CFLOW_MACHINE_COMMIT_ALLOWED, set_phase c CFLOW_MACHINE_WORKER_COMMITTING).

Definition settle_event n (cancelled : bool) : instance_counters :=
  MkCounters (co_completed n) (if cancelled then co_failed n else count_up (co_failed n))
    (if cancelled then count_up (co_cancelled_in_flight n) else co_cancelled_in_flight n)
    (co_emitted_values n) (co_emitted_events n) (count_down (co_in_flight n)).

(** [copied]: whether there was memory for a copy of the message. *)
Definition runtime_error_text (message : option string) (copied : bool) : string :=
  if copied then match message with Some e => if String.eqb e "" then "machine runtime error" else e
                 | None => "machine runtime error" end%string
  else "machine runtime could not preserve error text"%string.

(** The locked section of [fail_runtime]. *)
Definition fail_locked s (message : option string) (settle_current_event copied : bool) :
    cflow_machine_instance_impl * cflow_waker * cflow_waker :=
  let c := in_control s in
  let cancel_won := bool_decide (ct_lifecycle c = CFLOW_MACHINE_CONTROL_CANCEL_REQUESTED) in
  let c := if negb cancel_won && is_null (ct_error c) then set_error c (Some (runtime_error_text message copied)) copied else c in
  let n := if settle_current_event then settle_event (in_counters s) cancel_won else in_counters s in
  let c := set_over c CFLOW_MACHINE_WORKER_IDLE
    (if cancel_won then CFLOW_MACHINE_READY_DONE else CFLOW_MACHINE_READY_ERROR) in
  let '(downstream, terminal, c) := take_waiters c in
  (MkInstance (in_config s) (in_mailbox s) (in_data s) n c, downstream, terminal).

(** The locked section of [publish_done]. *)
Definition done_locked s (ready : cflow_machine_ready_kind) : cflow_machine_instance_impl * cflow_waker * cflow_waker :=
  let '(downstream, terminal, c) := take_waiters (set_over (in_control s) CFLOW_MACHINE_WORKER_IDLE ready) in
  (with_instance_control s c, downstream, terminal).

(** An event in flight is settled as cancelled. *)
Definition cancelled_locked s : cflow_machine_instance_impl * cflow_waker * cflow_waker :=
  let '(downstream, terminal, c) :=
    take_waiters (set_over (in_control s) CFLOW_MACHINE_WORKER_IDLE CFLOW_MACHINE_READY_DONE) in
  (MkInstance (in_config s) (in_mailbox s) (in_data s) (settle_event (in_counters s) true) c, downstream, terminal).

Definition settle_cancelled_in_flight s : option (cflow_machine_instance_impl * cflow_waker * cflow_waker) :=
  if bool_decide (ct_lifecycle (in_control s) = CFLOW_MACHINE_CONTROL_CANCEL_REQUESTED) then Some (cancelled_locked s)
  else None.

(** Whether the action of a transition observes a value, or an event. *)
Definition observes (action : option cflow_machine_action) (o : cflow_machine_action_observation) : bool :=
  match action with Some a => bool_decide (a_observation a = o) | None => false end.

(** The part of the commit after it was allowed: the instance, the wakers,
    and whether the instance was closing. *)
Definition commit_locked s (target : cflow_machine_state) (action : option cflow_machine_action) :
    option (cflow_machine_instance_impl * cflow_waker * cflow_waker * bool) :=
  let c := set_phase (in_control s) CFLOW_MACHINE_WORKER_COMMITTING in
  let d := in_data s in
  let n := in_counters s in
  let kind := s_kind target in
  size ← value_size target;
  bytes ← slice (da_target_value d) 0 size;
  state_value ← blit (da_state_value d) 0 bytes;
  let d := MkData target state_value (da_target_value d) (da_event_value d) (da_observation_value d) in
  let is_error := bool_decide (kind = CFLOW_MACHINE_STATE_ERROR) in
  let is_active := bool_decide (kind = CFLOW_MACHINE_STATE_ACTIVE) in
  let is_done := bool_decide (kind = CFLOW_MACHINE_STATE_DONE) in
  let emits_event := observes action CFLOW_MACHINE_ACTION_EVENT && negb (ct_closed c) in
  let emits_value := negb emits_event && observes action CFLOW_MACHINE_ACTION_VALUE in
  let n := MkCounters
    (if is_error then co_completed n else count_up (co_completed n))
    (if is_error then count_up (co_failed n) else co_failed n)
    (co_cancelled_in_flight n)
    (if emits_value then count_up (co_emitted_values n) else co_emitted_values n)
    (if emits_event then count_up (co_emitted_events n) else co_emitted_events n)
    (count_down (co_in_flight n)) in
  let finished c done ready :=
    MkControl (ct_error c) (ct_error_owned c) (ct_closed c) (ct_cancelled c) done (ct_rerun c) (ct_mailbox_armed c) (ct_lifecycle c)
      (ct_worker_phase c) (ct_downstream_waiter c) (ct_terminal_waiter c) ready in
  let '(waker, c) :=
    if emits_event then (no_waker, c) else
    if emits_value then
      let ready := if is_active then CFLOW_MACHINE_READY_VALUE
                   else if is_done then CFLOW_MACHINE_READY_VALUE_AND_DONE else CFLOW_MACHINE_READY_ERROR in
      take_downstream_waiter_locked (finished c (ct_done c || negb is_active) ready)
    else if is_done then take_downstream_waiter_locked (finished c true CFLOW_MACHINE_READY_DONE)
    else (no_waker, c) in
  let runtime_closed := bool_decide (ct_lifecycle c = CFLOW_MACHINE_CONTROL_CLOSE_REQUESTED) in
  let '(waker, c) :=
    if runtime_closed && is_active then
      take_downstream_waiter_locked (finished c true
        (if observes action CFLOW_MACHINE_ACTION_VALUE then CFLOW_MACHINE_READY_VALUE_AND_DONE else CFLOW_MACHINE_READY_DONE))
    else (waker, c) in
  let c := MkControl (ct_error c) (ct_error_owned c) (ct_closed c) (ct_cancelled c) (ct_done c) (ct_rerun c) (ct_mailbox_armed c)
    (if ct_done c || is_error then CFLOW_MACHINE_CONTROL_TERMINAL else ct_lifecycle c)
    CFLOW_MACHINE_WORKER_SCHEDULED (ct_downstream_waiter c) (ct_terminal_waiter c) (ct_ready c) in
  let '(terminal, c) := if ct_done c && negb is_error then take_terminal_waiter_locked c else (no_waker, c) in
  Some (MkInstance (in_config s) (in_mailbox s) d n c, waker, terminal, runtime_closed).

(** ** Tasks *)

(** The waker the worker arms its mailbox with: [machine_mailbox_wake]. *)
Definition mailbox_waker : cflow_waker := MkWaker (Some 1) 0.

(** A transition that was selected and its action, with the index of the
    iteration of the worker and the identifier of the event. *)
Inductive task :=
  (* other threads *)
  | KSend (event : cflow_event_view)
  | KMailboxWake
  | KSchedule
  | KPost
  | KPostFailed (message : string)
  | KFail (message : option string) (settle_current_event : bool)
  | KCancelMailbox
  | KDisarm
  | KWake (waker : cflow_waker)
  | KClose
  | KCancel
  | KResume
  | KWaitArm (waker : cflow_waker)
  | KWaitCancel
  | KBindTerminal (waker : cflow_waker)
  (* the worker *)
  | KWorker
  | KLoop (iteration : Z)
  | KReceive (iteration : Z)
  | KEmpty (iteration : Z)
  | KArm
  | KArmMailbox
  | KArmFailed
  | KDone
  | KAccept (iteration event_id : Z)
  | KSelect (iteration event_id : Z)
  | KSelected (iteration : Z) (selected : option (Z * cflow_machine_transition)) (error : option string)
  | KActed (iteration : Z) (transition : cflow_machine_transition)
      (outcome : option cflow_machine_action + option string)
  | KEmitCheck (iteration : Z) (target : cflow_machine_state) (action : cflow_machine_action)
  | KEmit (iteration : Z) (target : cflow_machine_state) (action : cflow_machine_action)
  | KCommit (iteration : Z) (target : cflow_machine_state) (action : option cflow_machine_action)
  | KEnd (iteration : Z).

(** What other code answers: the executor when a task is posted, [malloc]
    when a message is copied. *)
Inductive cflow_admission_status :=
  | CFLOW_ADMISSION_ACCEPTED
  | CFLOW_ADMISSION_INVALID_ARGUMENT
  | CFLOW_ADMISSION_FULL
  | CFLOW_ADMISSION_CLOSED
  | CFLOW_ADMISSION_ALLOCATION_FAILED.

#[export] Instance admission_eq_dec : EqDecision cflow_admission_status.
Proof. solve_decision. Defined.

Record answers := MkAnswers {
  an_admission : cflow_admission_status;
  an_copied : bool
}.

(** What [machine_resume] returns, with the value it hands out; the answer
    [CFLOW_STEP_WAIT] comes after scheduling and is left out. *)
Inductive cflow_step :=
  | CFLOW_STEP_VALUE (value : list Z)
  | CFLOW_STEP_VALUE_AND_DONE (value : list Z)
  | CFLOW_STEP_DONE
  | CFLOW_STEP_ERROR (message : option string).

(** What a task does besides: the wakers it calls, the step it returns,
    whether it posts a worker. *)
Record effect := MkEffect {
  ef_woken : list cflow_waker;
  ef_step : option cflow_step;
  ef_posted : bool
}.
Definition no_effect : effect := MkEffect [] None false.

(** The instance over, or waiting for a value to be taken. *)
Definition is_terminal c : bool := ct_done c || negb (is_null (ct_error c)).
Definition is_settled c : bool := is_terminal c || negb (bool_decide (ct_ready c = CFLOW_MACHINE_READY_NONE)).

(** The calls of a mailbox's waker. *)
Definition mailbox_wakes (wakers : list cflow_waker) : list task := (λ _, KMailboxWake) <$> wakers.

Definition fail_task s (message : option string) (settle_current_event : bool) (a : answers) :
    cflow_machine_instance_impl * list task :=
  let '(s, downstream, terminal) := fail_locked s message settle_current_event (an_copied a) in
  (s, [KCancelMailbox; KWake downstream; KWake terminal]).

(** The locked section of [schedule_machine_task]. *)
Definition schedule_locked c : instance_control * list task :=
  if is_settled c then (c, []) else
  match ct_worker_phase c with
  | CFLOW_MACHINE_WORKER_IDLE => (set_phase c CFLOW_MACHINE_WORKER_SCHEDULED, [KPost])
  | _ => (set_rerun c true, [])
  end.

(** The locked section of [cflow_machine_instance_close]. *)
Definition close_locked c : instance_control * list task :=
  let lifecycle := if bool_decide (ct_lifecycle c = CFLOW_MACHINE_CONTROL_OPEN)
    then CFLOW_MACHINE_CONTROL_CLOSE_REQUESTED else ct_lifecycle c in
  let armed := ct_mailbox_armed c in
  let c := set_stopping c (ct_cancelled c) lifecycle in
  let terminal := is_terminal c ||
    (negb (bool_decide (ct_worker_phase c = CFLOW_MACHINE_WORKER_EXECUTING)) &&
     negb (bool_decide (ct_worker_phase c = CFLOW_MACHINE_WORKER_COMMITTING))) in
  let c := if terminal && is_null (ct_error c) then publish_control_terminal_locked c else c in
  let '(downstream, term, c) := if terminal then take_waiters c else (no_waker, no_waker, c) in
  (c, (if armed then [KDisarm] else []) ++ [KCancelMailbox; KWake downstream; KWake term]).

(** The locked section of [request_cancel]. *)
Definition cancel_locked c : instance_control * list task :=
  if ct_done c || bool_decide (ct_lifecycle c = CFLOW_MACHINE_CONTROL_TERMINAL) then (c, []) else
  let armed := ct_mailbox_armed c in
  let c := set_stopping c true CFLOW_MACHINE_CONTROL_CANCEL_REQUESTED in
  let settle_now := negb (bool_decide (ct_worker_phase c = CFLOW_MACHINE_WORKER_EXECUTING)) &&
    negb (bool_decide (ct_worker_phase c = CFLOW_MACHINE_WORKER_COMMITTING)) in
  let '(downstream, term, c) := if settle_now then take_waiters (publish_control_terminal_locked c)
    else (no_waker, no_waker, c) in
  (c, (if armed then [KDisarm] else []) ++ [KCancelMailbox; KWake downstream; KWake term]).

(** The locked section of [machine_resume]: what it returns, unless it
    schedules a worker first. *)
Definition resume_locked s : option (instance_control * option cflow_step * list task) :=
  let c := in_control s in
  let value := slice (da_observation_value (in_data s)) 0 (td_size (cn_output_type (in_config s))) in
  match ct_ready c with
  | CFLOW_MACHINE_READY_VALUE =>
      bytes ← value; Some (set_ready c CFLOW_MACHINE_READY_NONE, Some (CFLOW_STEP_VALUE bytes), [])
  | CFLOW_MACHINE_READY_VALUE_AND_DONE => bytes ← value; Some (c, Some (CFLOW_STEP_VALUE_AND_DONE bytes), [])
  | ready =>
      Some (
        if bool_decide (ready = CFLOW_MACHINE_READY_ERROR) || negb (is_null (ct_error c))
        then (c, Some (CFLOW_STEP_ERROR (ct_error c)), []) else
        if bool_decide (ready = CFLOW_MACHINE_READY_DONE) || ct_done c then (c, Some CFLOW_STEP_DONE, [])
        else (c, None, [KSchedule]))
  end.

(** The locked section of [machine_wait_arm]. *)
Definition wait_arm_locked c (waker : cflow_waker) : instance_control * list task :=
  if is_null (wk_wake waker) then (c, []) else
  if is_settled c then (c, [KWake waker]) else
  if negb (is_null (wk_wake (ct_downstream_waiter c))) then (c, [])
  else (set_waiters c waker (ct_terminal_waiter c), []).

(** The locked section of [machine_source_bind_terminal]. *)
Definition bind_terminal_locked c (waker : cflow_waker) : instance_control * list task :=
  if is_terminal c then (set_waiters c (ct_downstream_waiter c) no_waker, [KWake waker])
  else (set_waiters c (ct_downstream_waiter c) waker, []).

(** The end of the worker's task: whether it posts itself again. *)
Definition end_locked c (iteration : Z) : instance_control * list task :=
  let c := if bool_decide (ct_worker_phase c = CFLOW_MACHINE_WORKER_SCHEDULED)
    then set_phase c CFLOW_MACHINE_WORKER_IDLE else c in
  let repost := negb (is_settled c) && (ct_rerun c || (iteration =? CFLOW_MACHINE_INSTANCE_QUANTUM)) in
  (c, if repost then [KSchedule] else []).

(** After the action: cancellation, failure, or the way to the commit. *)
Definition acted_tasks s (iteration : Z) (transition : cflow_machine_transition)
    (outcome : option cflow_machine_action + option string) : option (list task) :=
  match outcome with
  | inr error => Some [KFail error true; KEnd iteration]
  | inl action =>
      found ← find_state (cn_machine (in_config s)) (t_target transition);
      Some match found with
           | None => [KFail (Some "machine transition target is invalid"%string) true; KEnd iteration]
           | Some (_, target) =>
               match action with
               | Some a =>
                   if bool_decide (a_observation a = CFLOW_MACHINE_ACTION_EVENT)
                   then [KEmitCheck iteration target a] else [KCommit iteration target action]
               | None => [KCommit iteration target action]
               end
           end
  end.

(** The section of the commit. *)
Definition commit_task s (iteration : Z) (target : cflow_machine_state) (action : option cflow_machine_action) :
    option (cflow_machine_instance_impl * list task) :=
  match begin_commit_locked (in_control s) with
  | (CFLOW_MACHINE_COMMIT_CANCELLED, _) =>
      let '(s, downstream, terminal) := cancelled_locked s in
      Some (s, [KCancelMailbox; KWake downstream; KWake terminal; KEnd iteration])
  | (CFLOW_MACHINE_COMMIT_INVALID, _) =>
      Some (s, [KFail (Some "machine commit phase is invalid"%string) true; KEnd iteration])
  | (CFLOW_MACHINE_COMMIT_ALLOWED, _) =>
      '(s, waker, terminal, runtime_closed) ← commit_locked s target action;
      let is_active := bool_decide (s_kind target = CFLOW_MACHINE_STATE_ACTIVE) in
      Some (s,
        if bool_decide (s_kind target = CFLOW_MACHINE_STATE_ERROR) then
          [KFail (Some "entered error state"%string) false; KEnd iteration]
        else
          (if bool_decide (s_kind target = CFLOW_MACHINE_STATE_DONE) || runtime_closed then [KCancelMailbox] else []) ++
          [KWake waker; KWake terminal] ++
          [if is_active && negb runtime_closed && negb (observes action CFLOW_MACHINE_ACTION_VALUE)
           then KLoop (iteration + 1) else KEnd iteration])
  end.

(** After a receive. *)
Definition received_tasks s (iteration : Z) (status : cflow_mailbox_status) (event : option received) :
    option (instance_data * list task) :=
  let d := in_data s in
  match status, event with
  | CFLOW_MAILBOX_EMPTY, _ => Some (d, [KEmpty iteration])
  | CFLOW_MAILBOX_CLOSED, _ | CFLOW_MAILBOX_CANCELLED, _ => Some (d, [KDone; KEnd iteration])
  | CFLOW_MAILBOX_OK, Some e =>
      event_value ← blit (da_event_value d) 0 (rc_payload e);
      Some (MkData (da_state d) (da_state_value d) (da_target_value d) event_value (da_observation_value d),
        [KAccept iteration (rc_id e)])
  | _, _ => Some (d, [KFail (Some "machine mailbox receive failed"%string) false; KEnd iteration])
  end.

Definition emit_action_event s (action : cflow_machine_action) :
    option (cflow_mailbox_status * option cflow_mailbox_impl * list cflow_waker) :=
  cflow_mailbox_try_send (in_mailbox s)
    (Some (MkView (a_output_event_id action) (a_output_type action) (Some (da_observation_value (in_data s))))).

(** ** Steps *)

Definition stay s (tasks : list task) : option (cflow_machine_instance_impl * list task * effect) := Some (s, tasks, no_effect).
Definition to_control s (r : instance_control * list task) : option (cflow_machine_instance_impl * list task * effect) :=
  Some (with_instance_control s r.1, r.2, no_effect).

(** One task: the instance after it, the tasks that follow it in its thread,
    and what it does besides. *)
Definition exec_task (a : answers) (t : task) s : option (cflow_machine_instance_impl * list task * effect) :=
  let c := in_control s in
  match t with
  | KSend event =>
      '(_, m, wakes) ← cflow_mailbox_try_send (in_mailbox s) (Some event);
      stay (with_mailbox s m) (mailbox_wakes wakes)
  | KMailboxWake => to_control s (set_armed c false, [KSchedule])
  | KSchedule => to_control s (schedule_locked c)
  | KPost =>
      match an_admission a with
      | CFLOW_ADMISSION_ACCEPTED => Some (s, [], MkEffect [] None true)
      | CFLOW_ADMISSION_FULL => stay s [KPostFailed "machine SerialExecutor is full"%string]
      | _ => stay s [KPostFailed "machine SerialExecutor is closed"%string]
      end
  | KPostFailed message => to_control s (set_phase c CFLOW_MACHINE_WORKER_IDLE, [KFail (Some message) false])
  | KFail message settle => let (s, tasks) := fail_task s message settle a in stay s tasks
  | KCancelMailbox =>
      let '(_, m, wakes) := cflow_mailbox_cancel (in_mailbox s) in
      stay (with_mailbox s m) (mailbox_wakes wakes)
  | KDisarm => stay (with_mailbox s (cflow_mailbox_wait_cancel (in_mailbox s))) []
  | KWake waker => Some (s, [], MkEffect (cflow_waker_invoke waker) None false)
  | KClose => to_control s (close_locked c)
  | KCancel => to_control s (cancel_locked c)
  | KResume =>
      '(c, step, tasks) ← resume_locked s;
      Some (with_instance_control s c, tasks, MkEffect [] step false)
  | KWaitArm waker => to_control s (wait_arm_locked c waker)
  | KWaitCancel => to_control s (set_waiters c no_waker (ct_terminal_waiter c), [])
  | KBindTerminal waker => to_control s (bind_terminal_locked c waker)
  | KWorker => to_control s (set_rerun c false, [KLoop 0])
  | KLoop i =>
      if i =? CFLOW_MACHINE_INSTANCE_QUANTUM then stay s [KEnd i] else
      if is_settled c then stay s [KEnd i]
      else to_control s (set_phase c CFLOW_MACHINE_WORKER_EXECUTING, [KReceive i])
  | KReceive i =>
      '(status, event, m) ← cflow_mailbox_try_receive (in_mailbox s) true true (Some (cn_event_address (in_config s)))
        (cn_event_capacity (in_config s));
      '(d, tasks) ← received_tasks s i status event;
      stay (with_data (with_mailbox s m) d) tasks
  | KEmpty i =>
      let requested := negb (bool_decide (ct_lifecycle c = CFLOW_MACHINE_CONTROL_OPEN)) in
      to_control s (set_phase c CFLOW_MACHINE_WORKER_SCHEDULED, [if requested then KDone else KArm; KEnd i])
  | KArm => if is_terminal c then stay s [] else to_control s (set_armed c true, [KArmMailbox])
  | KArmMailbox =>
      let '(armed, m, wakes) := cflow_mailbox_wait_arm (in_mailbox s) mailbox_waker in
      stay (with_mailbox s m) (if armed then mailbox_wakes wakes else [KArmFailed])
  | KArmFailed =>
      to_control s (set_armed c false, [KFail (Some "machine mailbox waitable arm failed"%string) false])
  | KDone =>
      let '(s, downstream, terminal) := done_locked s CFLOW_MACHINE_READY_DONE in
      stay s [KCancelMailbox; KWake downstream; KWake terminal]
  | KAccept i id =>
      let n := in_counters s in
      stay (with_counters s (MkCounters (co_completed n) (co_failed n) (co_cancelled_in_flight n) (co_emitted_values n)
        (co_emitted_events n) (co_in_flight n + 1))) [KSelect i id]
  | KSelect i id =>
      match settle_cancelled_in_flight s with
      | Some (s, downstream, terminal) => stay s [KWake downstream; KWake terminal; KEnd i]
      | None =>
          '(selected, error) ← select_transition (in_config s) (in_data s) id;
          stay s [KSelected i selected error]
      end
  | KSelected i selected error =>
      match settle_cancelled_in_flight s with
      | Some (s, downstream, terminal) => stay s [KWake downstream; KWake terminal; KEnd i]
      | None =>
          match selected with
          | None => stay s [KFail error true; KEnd i]
          | Some (_, transition) =>
              '(outcome, d) ← run_action (in_config s) (in_data s) transition error;
              stay (with_data s d) [KActed i transition outcome]
          end
      end
  | KActed i transition outcome =>
      match settle_cancelled_in_flight s with
      | Some (s, downstream, terminal) => stay s [KWake downstream; KWake terminal; KEnd i]
      | None => tasks ← acted_tasks s i transition outcome; stay s tasks
      end
  | KEmitCheck i target action =>
      stay s [if ct_closed c then KCommit i target (Some action) else KEmit i target action]
  | KEmit i target action =>
      '(status, m, wakes) ← emit_action_event s action;
      stay (with_mailbox s m) (mailbox_wakes wakes ++
        match status with
        | CFLOW_MAILBOX_OK => [KCommit i target (Some action)]
        | CFLOW_MAILBOX_FULL => [KFail (Some "machine emitted Event mailbox is full"%string) true; KEnd i]
        | _ => [KFail (Some "machine emitted Event was rejected"%string) true; KEnd i]
        end)
  | KCommit i target action => '(s, tasks) ← commit_task s i target action; stay s tasks
  | KEnd i => to_control s (end_locked c i)
  end.

(** The tasks other threads begin with: the entry points of the instance. *)
Definition entry (t : task) : Prop :=
  match t with
  | KSend _ | KClose | KCancel | KResume | KWaitArm _ | KWaitCancel | KBindTerminal _ => True
  | _ => False
  end.

(** The whole: the instance, the threads of the callers, what the worker that
    runs has still to do, the number of those posted, the steps returned and
    who was woken. *)
Record system := MkSystem {
  sy_instance : cflow_machine_instance_impl;
  sy_callers : list (list task);
  sy_worker : list task;
  sy_posted : nat;
  sy_steps : list cflow_step;
  sy_woken : list cflow_waker
}.

Definition after (sy : system) s (e : effect) (callers : list (list task)) (worker : list task) : system :=
  MkSystem s callers worker ((if ef_posted e then 1 else 0) + sy_posted sy)
    (option_list (ef_step e) ++ sy_steps sy) (ef_woken e ++ sy_woken sy).

(** A payload has the bytes its declared type says. *)
Definition readable s (t : task) : Prop :=
  match t, in_mailbox s with
  | KSend event, Some m => op_readable (mb_schema m) (BSend event)
  | _, _ => True
  end.

Inductive system_step : system → system → Prop :=
  (* a thread calls the instance *)
  | step_enter sy t :
      entry t → readable (sy_instance sy) t →
      system_step sy (MkSystem (sy_instance sy) ([t] :: sy_callers sy) (sy_worker sy) (sy_posted sy) (sy_steps sy)
        (sy_woken sy))
  (* one of the calling threads goes on *)
  | step_caller sy a l1 t rest l2 s' tasks e :
      sy_callers sy = l1 ++ (t :: rest) :: l2 →
      exec_task a t (sy_instance sy) = Some (s', tasks, e) →
      system_step sy (after sy s' e (l1 ++ (tasks ++ rest) :: l2) (sy_worker sy))
  (* the serial executor starts a posted worker *)
  | step_start sy k :
      sy_worker sy = [] → sy_posted sy = S k →
      system_step sy (MkSystem (sy_instance sy) (sy_callers sy) [KWorker] k (sy_steps sy) (sy_woken sy))
  (* the worker goes on *)
  | step_worker sy a t rest s' tasks e :
      sy_worker sy = t :: rest →
      exec_task a t (sy_instance sy) = Some (s', tasks, e) →
      system_step sy (after sy s' e (sy_callers sy) (tasks ++ rest)).

(** ** Reading an instance *)

Record cflow_machine_instance_stats := MkInstanceStats {
  is_accepted : Z;
  is_completed : Z;
  is_failed : Z;
  is_cancelled_events : Z;
  is_emitted_values : Z;
  is_emitted_events : Z;
  is_pending : Z;
  is_in_flight : Z;
  is_current_state : Z;
  is_closed : bool;
  is_cancelled : bool;
  is_done : bool;
  is_errored : bool
}.

(** The statistics of the mailbox are read under its lock, [before], then the
    rest under the lock of the instance. *)
Definition cflow_machine_instance_get_stats (before s : cflow_machine_instance_impl) : option cflow_machine_instance_stats :=
  m ← match in_mailbox before with
      | None => Some (MkStats 0 0 0 0 0 0 0 0 0 0 0 0)
      | Some m => cflow_mailbox_get_stats (Some m)
      end;
  let n := in_counters s in
  let c := in_control s in
  Some (MkInstanceStats (st_accepted m) (co_completed n) (co_failed n) (u64 (st_cancelled m + co_cancelled_in_flight n))
    (co_emitted_values n) (co_emitted_events n) (st_pending m) (co_in_flight n) (s_id (da_state (in_data s)))
    (ct_closed c) (ct_cancelled c) (ct_done c) (negb (is_null (ct_error c)))).

(** The type and the bytes of the state, when the capacity is enough. *)
Definition cflow_machine_instance_copy_state s (out_value_capacity : Z) : option (option (cmeta_type_desc * list Z)) :=
  type ← s_value_type (da_state (in_data s));
  if out_value_capacity <? td_size type then Some None else
  bytes ← slice (da_state_value (in_data s)) 0 (td_size type);
  Some (Some (type, bytes)).

Definition cflow_machine_instance_current_state (instance : option cflow_machine_instance_impl) : Z :=
  match instance with None => 0 | Some s => s_id (da_state (in_data s)) end.

Definition cflow_machine_instance_error (instance : option cflow_machine_instance_impl) : option string :=
  match instance with None => None | Some s => ct_error (in_control s) end.

Inductive cflow_publisher_terminal := CFLOW_PUBLISHER_OPEN | CFLOW_PUBLISHER_DONE | CFLOW_PUBLISHER_ERROR.

Definition machine_source_poll_terminal (state : option cflow_machine_instance_impl) :
    cflow_publisher_terminal * option string :=
  match state with
  | None => (CFLOW_PUBLISHER_ERROR, Some "machine source is invalid"%string)
  | Some s =>
      let c := in_control s in
      match ct_error c with
      | Some e => (CFLOW_PUBLISHER_ERROR, Some e)
      | None => (if ct_done c then CFLOW_PUBLISHER_DONE else CFLOW_PUBLISHER_OPEN, None)
      end
  end.
