(* ===== verification/MachineSelect.v ===== *)
(** * Selecting a transition

    What an instance is created with ([setup_ok]), and that
    [MachineInstance.select_transition] picks the first enabled transition of
    the state and the event. *)

From S2P Require Import Prelude World TypeIdentity Machine Mailbox MachineInstance.
Local Open Scope Z_scope.

Implicit Types (s : cflow_machine_instance_impl) (c : instance_control) (n : instance_counters).

(** ** What an instance is created with *)

(** An action writes within its buffers. *)
Definition action_bounded (b : cflow_machine_action_binding) : Prop :=
  ∀ fn, ab_fn b = Some fn → ∀ state event target observation,
    blen (ar_target (fn state event target observation)) = blen target ∧
    ∀ o, observation = Some o → blen (ar_observation (fn state event target observation)) = blen o.

Record setup_ok (cn : instance_config) (S : list cflow_machine_state) (E : list cflow_event_type)
    (G : list cflow_machine_guard) (A : list cflow_machine_action) (T : list cflow_machine_transition)
    (state_capacity observation_capacity : Z) : Prop := {
  su_describes : describes (cn_machine cn) S E G A T;
  su_transitions : Forall (transition_ok S E G A) T;
  su_ids : NoDup (g_id <$> G) ∧ NoDup (a_id <$> A);
  su_guards : gb_id <$> cn_guards cn = g_id <$> G;
  su_actions : ab_id <$> cn_actions cn = a_id <$> A;
  su_bound : Forall (λ b, gb_fn b ≠ None) (cn_guards cn) ∧ Forall (λ b, ab_fn b ≠ None) (cn_actions cn);
  su_states : Forall (λ st, ∃ t, s_value_type st = Some t ∧ 0 < td_size t <= state_capacity) S;
  su_events : Forall (λ e, ∃ t, e_payload_type e = Some t ∧ 0 < td_size t <= cn_event_capacity cn) E;
  su_output : 0 < td_size (cn_output_type cn) <= observation_capacity;
  su_emitted : ∀ a e t, a ∈ A → a_observation a = CFLOW_MACHINE_ACTION_EVENT → e ∈ E → e_id e = a_output_event_id a →
    e_payload_type e = Some t → td_size t <= observation_capacity;
  su_callbacks : Forall action_bounded (cn_actions cn)
}.

Section Selection.
Context (cn : instance_config) (S : list cflow_machine_state) (E : list cflow_event_type)
  (G : list cflow_machine_guard) (A : list cflow_machine_action) (T : list cflow_machine_transition) (sc oc : Z).
Context (Hsu : setup_ok cn S E G A T sc oc).

Local Lemma Hdesc : describes (cn_machine cn) S E G A T.
Proof. apply Hsu. Qed.

Lemma transitions_strong : StronglySorted transition_le T.
Proof.
  apply Sorted_StronglySorted; [|apply Hdesc]. intros x y z. unfold transition_le. lia.
Qed.

(** A row of the state and the event, or before it. *)
Definition before_choice (source event : Z) (t : cflow_machine_transition) : Prop :=
  t_source t < source ∨ (t_source t = source ∧ t_event t < event).
Definition of_choice (source event : Z) (t : cflow_machine_transition) : Prop := t_source t = source ∧ t_event t = event.

Lemma lower_bound_ok source event fuel : ∀ left right,
  0 <= left <= right → right <= alen T → right - left < Z.of_nat fuel →
  (∀ i t, aget T i = Some t → i < left → before_choice source event t) →
  (∀ i t, aget T i = Some t → right <= i → ¬ before_choice source event t) →
  ∃ i, lower_bound (cn_machine cn) source event fuel left right = Some i ∧ 0 <= i <= alen T ∧
    (∀ j t, aget T j = Some t → j < i → before_choice source event t) ∧
    (∀ j t, aget T j = Some t → i <= j → ¬ before_choice source event t).
Proof.
  pose proof Hdesc as [Hcounts _ _ _ _ Hrows _ _ _ _ _].
  assert (alen T = i_transition_count (cn_machine cn)) as Hlen by (eapply rows_of_alen; [|exact Hrows]; lia).
  induction fuel as [|fuel IH]; intros left right Hlr Hr Hf Hlow Hhigh; [lia|]. cbn [lower_bound].
  destruct (Z.ltb_spec left right) as [Hlt|Hge].
  - set (m := left + (right - left) / 2).
    assert (left <= m < right) as Hm by (subst m; Z.to_euclidean_division_equations; lia).
    rewrite (row_at_rows _ _ _ m Hrows) by lia.
    destruct (aget_in_bounds T m) as [x Hx]; [lia|]. rewrite Hx. cbn [mbind option_bind].
    destruct ((t_source x <? source) || ((t_source x =? source) && (t_event x <? event))) eqn:Hb.
    + apply IH; try lia; [|done]. intros i y Hy Hi.
      assert (before_choice source event x) as Hbx.
      { unfold before_choice. apply orb_prop in Hb as [?%Z.ltb_lt|[?%Z.eqb_eq ?%Z.ltb_lt]%andb_prop]; auto. }
      destruct (decide (i = m)) as [->|]; [by simplify_eq|].
      pose proof (sorted_aget _ _ i m y x transitions_strong Hy Hx ltac:(lia)) as Hle.
      unfold before_choice, transition_le in *. lia.
    + apply IH; try lia; [done|]. intros i y Hy Hi.
      assert (¬ before_choice source event x) as Hbx.
      { unfold before_choice. apply orb_false_elim in Hb as [?%Z.ltb_ge Hb]. intros [?|[Hs He]]; [lia|].
        rewrite (proj2 (Z.eqb_eq _ _) Hs) in Hb. apply Z.ltb_ge in Hb. lia. }
      destruct (decide (i = m)) as [->|]; [by simplify_eq|].
      pose proof (sorted_aget _ _ m i x y transitions_strong Hx Hy ltac:(lia)) as Hle.
      unfold before_choice, transition_le in *. lia.
  - exists left. assert (left = right) by lia. subst right. split_and!; try done; lia.
Qed.

(** What the guard of a transition says: [None] when it fails. *)
Definition guard_says (d : instance_data) (t : cflow_machine_transition) : option bool :=
  if t_guard t =? 0 then Some true else
  b ← List.find (λ b, gb_id b =? t_guard t) (cn_guards cn);
  fn ← gb_fn b;
  let r := fn (da_state_value d) (da_event_value d) in
  if gr_ok r then Some (gr_enabled r) else None.

Lemma sorted_fmap {B} (key : B → Z) (l : list B) (ids : list Z) :
  key <$> l = ids → Sorted Z.le ids → StronglySorted (λ x y, key x <= key y) l.
Proof using Type.
  intros <- Hs. apply Sorted_StronglySorted; [apply id_le_trans|].
  induction l as [|x l IH]; [constructor|]. cbn in Hs. apply Sorted_inv in Hs as [Hs Hh]. constructor; [by apply IH|].
  destruct l; constructor. by inversion Hh.
Qed.

Lemma fmap_sorted {B} (key : B → Z) (l : list B) : Sorted (λ x y, key x <= key y) l → Sorted Z.le (key <$> l).
Proof using Type.
  induction 1 as [|x l _ IH Hx]; cbn; constructor; [done|]. destruct Hx; by constructor.
Qed.

(** The row that is found is the first with the identifier. *)
Lemma found_find {B} (key : B → Z) (l : list B) id r :
  found_ok key l id r → NoDup (key <$> l) → snd <$> r = List.find (λ b, key b =? id) l.
Proof using Type.
  intros Hr Hd. destruct (List.find _ l) as [b|] eqn:Ef.
  - apply find_some in Ef as [Hin%list_elem_of_In Hid%Z.eqb_eq]. destruct r as [[i x]|]; cbn in *.
    + destruct Hr as [Hx%aget_elem E1]. f_equal. apply (key_unique key l); [done..|congruence].
    + destruct Hr. apply list_elem_of_fmap. eauto.
  - destruct r as [[i x]|]; [|done]. cbn in Hr. destruct Hr as [Hx%aget_elem E1]. exfalso.
    pose proof (find_none _ _ Ef x (proj1 (list_elem_of_In _ _) Hx)) as Hn. apply Z.eqb_neq in Hn. done.
Qed.

Lemma rows_of_all {B} (l : list B) : rows_of (Some l) (alen l) = Some l.
Proof using Type.
  unfold rows_of. destruct (Z.eqb_spec (alen l) 0) as [E0|]; cbn.
  - destruct l; [done|]. unfold alen in E0. cbn in E0. lia.
  - rewrite Z.ltb_irrefl. unfold alen. by rewrite Nat2Z.id, take_ge.
Qed.

Lemma find_binding_ok {B} (key : B → Z) (l : list B) (ids : list Z) id :
  key <$> l = ids → Sorted Z.le ids → NoDup ids →
  ∃ r, find_by key (Some l) id (rounds (alen l)) 0 (alen l) = Some r ∧ snd <$> r = List.find (λ b, key b =? id) l.
Proof using Type.
  intros Hids Hs Hd. destruct (find_rows_ok key (Some l) (alen l) l (alen_nonneg l) (rows_of_all l)
    (sorted_fmap key l ids Hids Hs) id) as (r & Hr & Hf). exists r. split; [done|]. apply found_find; [done|by rewrite Hids].
Qed.

Lemma guard_binding_ok id :
  ∃ r, find_guard_binding cn id = Some r ∧ snd <$> r = List.find (λ b, gb_id b =? id) (cn_guards cn).
Proof.
  eapply find_binding_ok; [apply Hsu| |apply Hsu]. apply fmap_sorted, Hdesc.
Qed.

Lemma action_binding_ok id :
  ∃ r, find_action_binding cn id = Some r ∧ snd <$> r = List.find (λ b, ab_id b =? id) (cn_actions cn).
Proof.
  eapply find_binding_ok; [apply Hsu| |apply Hsu]. apply fmap_sorted, Hdesc.
Qed.

(** A declared identifier is bound. *)
Lemma bound_id {B} (key : B → Z) (l : list B) (ids : list Z) id :
  key <$> l = ids → id ∈ ids → ∃ b, b ∈ l ∧ List.find (λ b, key b =? id) l = Some b.
Proof using Type.
  intros <- (b & -> & Hb)%list_elem_of_fmap. destruct (List.find _ l) as [b'|] eqn:Ef.
  - exists b'. split; [|done]. apply find_some in Ef as [Hin _]. by apply list_elem_of_In.
  - pose proof (find_none _ _ Ef b (proj1 (list_elem_of_In _ _) Hb)) as Hn. apply Z.eqb_neq in Hn. done.
Qed.

Lemma enabled_ok d t error :
  t ∈ T → ∃ ok en err, transition_enabled cn (da_state_value d) (da_event_value d) t error = Some (ok, en, err) ∧
    guard_says d t = if ok then Some en else None.
Proof.
  intros Ht. unfold transition_enabled, guard_says. destruct (Z.eqb_spec (t_guard t) 0) as [|Hg]; [by do 3 eexists|].
  destruct (guard_binding_ok (t_guard t)) as (r & -> & Hr). cbn [mbind option_bind]. rewrite <-Hr.
  destruct r as [[i b]|]; cbn [fmap option_fmap option_map snd mbind option_bind] in *; [|by do 3 eexists].
  symmetry in Hr. apply find_some in Hr as [Hin%list_elem_of_In _].
  pose proof (proj1 (Forall_forall _ _) (proj1 (su_bound _ _ _ _ _ _ _ _ Hsu)) b Hin) as Hb.
  cbn beta in Hb. destruct (gb_fn b) as [fn|]; [by do 3 eexists|congruence].
Qed.

(** What selection finds from a row on. *)
Definition selects (d : instance_data) (source event from : Z) (r : option (Z * cflow_machine_transition)) : Prop :=
  match r with
  | Some (i, t) => from <= i ∧ aget T i = Some t ∧ of_choice source event t ∧ guard_says d t = Some true ∧
      ∀ j t', aget T j = Some t' → from <= j < i → guard_says d t' = Some false
  | None =>
      (∃ i t, from <= i ∧ aget T i = Some t ∧ of_choice source event t ∧ guard_says d t = None ∧
        ∀ j t', aget T j = Some t' → from <= j < i → guard_says d t' = Some false) ∨
      (∀ j t', aget T j = Some t' → from <= j → of_choice source event t' → guard_says d t' = Some false)
  end.

Lemma select_loop_ok d source event fuel : ∀ index error,
  0 <= index <= alen T → alen T - index < Z.of_nat fuel →
  (∀ j t, aget T j = Some t → index <= j → ¬ before_choice source event t) →
  ∃ r err, select_loop cn source event (da_state_value d) (da_event_value d) fuel index error = Some (r, err) ∧
    selects d source event index r.
Proof.
  pose proof Hdesc as [Hcounts _ _ _ _ Hrows _ _ _ _ _].
  assert (alen T = i_transition_count (cn_machine cn)) as Hlen by (eapply rows_of_alen; [|exact Hrows]; lia).
  induction fuel as [|fuel IH]; intros index error Hi Hf Hb; [lia|]. cbn [select_loop]. rewrite <-Hlen.
  destruct (Z.leb_spec (alen T) index).
  { do 2 eexists. split; [done|]. right. intros j t' [Hj _]%aget_Some ?. lia. }
  rewrite (row_at_rows _ _ _ index Hrows) by lia. destruct (aget_in_bounds T index) as [t Ht]; [lia|].
  rewrite Ht. cbn [mbind option_bind].
  destruct (negb (t_source t =? source) || negb (t_event t =? event)) eqn:Hch.
  { do 2 eexists. split; [done|]. right. intros j t' Hj Hij [E1 E2]. exfalso.
    apply orb_prop in Hch. rewrite !negb_true_iff, !Z.eqb_neq in Hch.
    destruct (decide (j = index)) as [->|]; [simplify_eq; by destruct Hch|].
    pose proof (sorted_aget _ _ index j t t' transitions_strong Ht Hj ltac:(lia)) as Hle.
    specialize (Hb index t Ht ltac:(lia)). unfold before_choice, transition_le in *. lia. }
  apply orb_false_elim in Hch as [E1%negb_false_iff%Z.eqb_eq E2%negb_false_iff%Z.eqb_eq].
  destruct (enabled_ok d t error (aget_elem _ _ _ Ht)) as (ok & en & err & -> & Hs). cbn [mbind option_bind].
  destruct ok; cbn [negb]; cycle 1.
  { do 2 eexists. split; [done|]. left. exists index, t. split_and!; try done; intros; lia. }
  destruct en.
  { do 2 eexists. split; [done|]. cbn. split_and!; try done; intros; lia. }
  destruct (IH (index + 1) err) as (r & err' & -> & Hsel); [lia|lia|intros j t' Hj ?; apply (Hb j t' Hj); lia|].
  do 2 eexists. split; [done|]. assert (∀ j t', aget T j = Some t' → j = index → guard_says d t' = Some false) as Hfirst.
  { intros j t' Hj ->. by simplify_eq. }
  destruct r as [[i t2]|]; cbn in Hsel |- *.
  - destruct Hsel as (? & ? & ? & ? & Hbefore). split_and!; try done; try lia. intros j t' Hj Hji.
    destruct (decide (j = index)); [eauto|]. apply (Hbefore j t' Hj). lia.
  - destruct Hsel as [(i & t2 & ? & ? & ? & ? & Hbefore)|Hall].
    + left. exists i, t2. split_and!; try done; try lia. intros j t' Hj Hji.
      destruct (decide (j = index)); [eauto|]. apply (Hbefore j t' Hj). lia.
    + right. intros j t' Hj Hij Hc. destruct (decide (j = index)); [eauto|]. apply (Hall j t' Hj); [lia|done].
Qed.

Lemma select_ok d event :
  ∃ r err from, select_transition cn d event = Some (r, err) ∧ selects d (s_id (da_state d)) event from r ∧
    (∀ j t, aget T j = Some t → j < from → before_choice (s_id (da_state d)) event t).
Proof.
  pose proof Hdesc as [Hcounts _ _ _ _ Hrows _ _ _ _ _].
  assert (alen T = i_transition_count (cn_machine cn)) as Hlen by (eapply rows_of_alen; [|exact Hrows]; lia).
  unfold select_transition. rewrite <-Hlen. pose proof (alen_nonneg T).
  destruct (lower_bound_ok (s_id (da_state d)) event (rounds (alen T)) 0 (alen T)) as (i & -> & Hi & Hlow & Hhigh);
    [lia|lia|unfold rounds; lia| |  |]; [intros j t [? _]%aget_Some ?; lia..|]. cbn [mbind option_bind].
  destruct (select_loop_ok d (s_id (da_state d)) event (rounds (alen T)) i None) as (r & err & -> & Hsel);
    [lia|unfold rounds; lia|done|]. exists r, err, i. done.
Qed.

(** Selection follows the declaration. In a machine that was built,
    [select_transition] always returns; it returns the row of the current
    state and the event whose guard holds and before which, in the order of
    priorities, every guard of that choice is false. It returns no row exactly
    when a guard fails before one holds, or when none holds. *)
Theorem machine_select_exact d event :
  ∃ r err, select_transition cn d event = Some (r, err) ∧
  match r with
  | Some (i, t) => aget T i = Some t ∧ of_choice (s_id (da_state d)) event t ∧ guard_says d t = Some true ∧
      ∀ t', t' ∈ T → of_choice (s_id (da_state d)) event t' → t_priority t' < t_priority t → guard_says d t' = Some false
  | None =>
      (∃ t, t ∈ T ∧ of_choice (s_id (da_state d)) event t ∧ guard_says d t = None ∧
        ∀ t', t' ∈ T → of_choice (s_id (da_state d)) event t' → t_priority t' < t_priority t → guard_says d t' = Some false) ∨
      (∀ t, t ∈ T → of_choice (s_id (da_state d)) event t → guard_says d t = Some false)
  end.
Proof.
  destruct (select_ok d event) as (r & err & from & E1 & Hsel & Hfrom). exists r, err. split; [done|].
  assert (∀ i t, aget T i = Some t → of_choice (s_id (da_state d)) event t →
    (∀ j t', aget T j = Some t' → from <= j < i → guard_says d t' = Some false) →
    ∀ t', t' ∈ T → of_choice (s_id (da_state d)) event t' → t_priority t' < t_priority t → guard_says d t' = Some false) as Hbelow.
  { intros i t Ht Hc Hb t' (j & Hj & Ht')%elem_aget Hc' Hp. apply (Hb j t' Ht'). split.
    - apply Z.nlt_ge. intros Hlt. specialize (Hfrom j t' Ht' Hlt). unfold before_choice, of_choice in *. lia.
    - apply Z.nle_gt. intros Hle. destruct (decide (i = j)) as [->|]; [simplify_eq; lia|].
      pose proof (sorted_aget _ _ i j t t' transitions_strong Ht Ht' ltac:(lia)). unfold transition_le, of_choice in *. lia. }
  destruct r as [[i t]|]; cbn in Hsel.
  - destruct Hsel as (? & Ht & Hc & Hg & Hb). split_and!; try done. by apply (Hbelow i t).
  - destruct Hsel as [(i & t & ? & Ht & Hc & Hg & Hb)|Hall].
    + left. exists t. split_and!; try done; [by eapply aget_elem|by apply (Hbelow i t)].
    + right. intros t (j & Hj & Ht)%elem_aget Hc. apply (Hall j t Ht); [|done]. apply Z.nlt_ge. intros Hlt.
      specialize (Hfrom j t Ht Hlt). unfold before_choice, of_choice in *. lia.
Qed.
End Selection.
