(* ===== verification/MachineRun.v ===== *)
(** * Running machines

    Invariants of [MachineInstance.system_step]: in every interleaving of
    callers and workers no task is undefined, every event that was taken is
    settled exactly once, at most one is in hand, and the state moves along
    the transitions of the machine. *)

From Stdlib Require Import String.
From S2P Require Import Prelude World TypeIdentity Machine Mailbox MachineInstance MachineSelect.
Local Open Scope Z_scope.

Implicit Types (s : cflow_machine_instance_impl) (c : instance_control) (n : instance_counters) (d : instance_data).

(** ** The weight of tasks *)

(** The task holds the event the worker has received. *)
Definition hand (t : task) : Z :=
  match t with
  | KAccept _ _ | KSelect _ _ | KSelected _ _ _ | KActed _ _ _ | KEmitCheck _ _ _ | KEmit _ _ _ | KCommit _ _ _
  | KFail _ true => 1
  | _ => 0
  end.
(** ... and it has been counted. *)
Definition flight (t : task) : Z := match t with KAccept _ _ => 0 | _ => hand t end.
(** The task may come to hold one. *)
Definition turn (t : task) : Z := match t with KWorker | KLoop _ | KReceive _ => 1 | _ => hand t end.

Definition work (f : task → Z) (l : list task) : Z := foldr (λ t x, f t + x) 0 l.

Lemma work_app f l1 l2 : work f (l1 ++ l2) = work f l1 + work f l2.
Proof. unfold work. induction l1; cbn [foldr app]; lia. Qed.

Lemma work_idle f l : Forall (λ t, f t = 0) l → work f l = 0.
Proof. unfold work. induction 1; cbn [foldr]; lia. Qed.

Lemma weight_order t : 0 <= flight t <= hand t ∧ hand t <= turn t <= 1.
Proof. destruct t; cbn; try lia. destruct settle_current_event; lia. Qed.

Lemma work_order l : 0 <= work flight l <= work hand l ∧ work hand l <= work turn l.
Proof. induction l as [|t l IH]; [done|]. pose proof (weight_order t). unfold work in *. cbn [foldr]. lia. Qed.

Lemma work_rest t l : work turn (t :: l) <= 1 → turn t = 1 → Forall (λ t, turn t = 0) l.
Proof.
  intros H1 H2. assert (work turn l <= 0) as H by (unfold work in *; cbn in H1; lia). clear H1 H2.
  induction l as [|x l IH]; constructor; unfold work in *; cbn [foldr] in H; pose proof (weight_order x);
    pose proof (work_order l); unfold work in *; [lia|apply IH; lia].
Qed.

Lemma mailbox_wakes_idle f l : f KMailboxWake = 0 → work f (mailbox_wakes l) = 0.
Proof. intros H. apply work_idle. unfold mailbox_wakes. apply Forall_fmap, Forall_true. intros x. exact H. Qed.

(** The events that have come to an end. *)
Definition settled n : Z := co_completed n + co_failed n + co_cancelled_in_flight n.

Record counters_ok n : Prop := {
  ok_completed : 0 <= co_completed n;
  ok_failed : 0 <= co_failed n;
  ok_cancelled : 0 <= co_cancelled_in_flight n
}.

(** The mailbox of an instance and its queue; a machine without events has
    none. *)
Definition mailbox_holds (E : list cflow_event_type) (m : option cflow_mailbox_impl) (b : box) : Prop :=
  match m with
  | Some m => represents m b ∧ mb_schema m = E
  | None => E = [] ∧ b = empty_box
  end.

Lemma holds_received E m b : mailbox_holds E m b → 0 <= bx_received b.
Proof. destruct m; [intros [[_ _ _ _ _ _ _ _ _ [_ _ H _ _]] _]; lia|by intros [_ ->]]. Qed.

Section Run.
Context (cn : instance_config) (S : list cflow_machine_state) (E : list cflow_event_type)
  (G : list cflow_machine_guard) (A : list cflow_machine_action) (T : list cflow_machine_transition) (sc oc : Z).
Context (Hsu : setup_ok cn S E G A T sc oc).

(** ** What the worker knows *)

Record data_ok d : Prop := {
  do_state : da_state d ∈ S;
  do_value : blen (da_state_value d) = sc;
  do_target : blen (da_target_value d) = sc;
  do_event : cn_event_capacity cn <= blen (da_event_value d);
  do_observation : blen (da_observation_value d) = oc
}.

(** A transition of the current state whose guard holds. *)
Definition chosen d (t : cflow_machine_transition) : Prop :=
  t ∈ T ∧ t_source t = s_id (da_state d) ∧ guard_says cn d t = Some true.

(** The buffers hold what the action of the transition made of the state and
    the event; a plain transition keeps the value. *)
Definition prepared d (t : cflow_machine_transition) (action : option cflow_machine_action) : Prop :=
  match action with
  | None => t_action t = 0 ∧ ∃ size, value_size (da_state d) = Some size ∧
      slice (da_target_value d) 0 size = slice (da_state_value d) 0 size
  | Some a => a ∈ A ∧ a_id a = t_action t ∧ ∃ b fn target observation, b ∈ cn_actions cn ∧ ab_id b = t_action t ∧
      ab_fn b = Some fn ∧ let r := fn (da_state_value d) (da_event_value d) target observation in
      ar_ok r = true ∧ da_target_value d = ar_target r ∧
      (a_observation a ≠ CFLOW_MACHINE_ACTION_NONE → da_observation_value d = ar_observation r)
  end.

(** The commit that is due. *)
Definition due_commit d (target : cflow_machine_state) (action : option cflow_machine_action) : Prop :=
  ∃ t, chosen d t ∧ prepared d t action ∧ target ∈ S ∧ s_id target = t_target t.

Definition task_ok d (t : task) : Prop :=
  match t with
  | KSend event => op_readable E (BSend event)
  | KSelected _ (Some (_, t)) _ => chosen d t
  | KActed _ t outcome => chosen d t ∧ match outcome with inl action => prepared d t action | inr _ => True end
  | KEmitCheck _ target a | KEmit _ target a => due_commit d target (Some a) ∧ a_observation a = CFLOW_MACHINE_ACTION_EVENT
  | KCommit _ target action => due_commit d target action
  | _ => True
  end.

Lemma task_ok_idle d d' t : turn t = 0 → task_ok d t → task_ok d' t.
Proof using Type. by destruct t. Qed.

Record inst_ok s (b : box) : Prop := {
  io_config : in_config s = cn;
  io_data : data_ok (in_data s);
  io_mailbox : mailbox_holds E (in_mailbox s) b;
  io_counters : counters_ok (in_counters s)
}.

(** The state moves along a transition that was chosen, to the value that was
    prepared. *)
Definition moves d d' : Prop :=
  ∃ action size, due_commit d (da_state d') action ∧ value_size (da_state d') = Some size ∧
    slice (da_state_value d') 0 size = slice (da_target_value d) 0 size.
Definition follows d d' : Prop :=
  (da_state d' = da_state d ∧ da_state_value d' = da_state_value d) ∨ moves d d'.

(** What a task guarantees. *)
Record task_done (t : task) s (b : box) s' (tasks : list task) (b' : box) : Prop := {
  td_inst : inst_ok s' b';
  td_tasks : Forall (task_ok (in_data s')) tasks;
  td_turn : work turn tasks <= turn t;
  td_flight : co_in_flight (in_counters s') - work flight tasks = co_in_flight (in_counters s) - flight t;
  td_received : bx_received b <= bx_received b';
  td_settled : settled (in_counters s) + hand t <= bx_received b → bx_received b <= UINT64_MAX →
    settled (in_counters s') + work hand tasks - bx_received b' = settled (in_counters s) + hand t - bx_received b;
  td_idle : turn t = 0 → in_data s' = in_data s;
  td_follows : follows (in_data s) (in_data s')
}.

Definition executes (a : answers) (t : task) s (b : box) : Prop :=
  ∃ s' tasks e b', exec_task a t s = Some (s', tasks, e) ∧ task_done t s b s' tasks b'.

Local Hint Unfold settled work : core.

(** A task that touches only the control fields. *)
Lemma control_done t s b c tasks :
  inst_ok s b → Forall (task_ok (in_data s)) tasks → work turn tasks <= turn t →
  work flight tasks = flight t → work hand tasks = hand t →
  task_done t s b (with_instance_control s c) tasks b.
Proof using Type.
  intros [? ? ? ?] Hok H1 H2 H3. split; cbn; try done; try lia. by left.
Qed.

(** A task that also touches the mailbox. *)
Lemma mailbox_done t s b m tasks b' :
  inst_ok s b → mailbox_holds E m b' → Forall (task_ok (in_data s)) tasks → work turn tasks <= turn t →
  work flight tasks = flight t → bx_received b <= bx_received b' →
  work hand tasks - hand t = bx_received b' - bx_received b →
  task_done t s b (with_mailbox s m) tasks b'.
Proof using Type.
  intros [? ? ? ?] Hm Hok H1 H2 H3 H4. split; cbn; try done; try lia. by left.
Qed.

(** ** Operations on the mailbox *)

Lemma send_holds m b event :
  mailbox_holds E m b → op_readable E (BSend event) →
  ∃ st m' wakes b', cflow_mailbox_try_send m (Some event) = Some (st, m', wakes) ∧ mailbox_holds E m' b' ∧
    bx_received b' = bx_received b.
Proof using Type.
  intros Hm Hr. destruct m as [m|]; [|do 3 eexists; exists b; by split_and!]. destruct Hm as [Hm He]. rewrite <-He in Hr.
  destruct (exec_refines m b (BSend event) Hm Hr) as (ans & m' & Hx & (Hs & _) & Ha & Hm'). cbn [box_exec] in Hx.
  destruct (cflow_mailbox_try_send (Some m) (Some event)) as [[[st [m2|]] wakes]|] eqn:Es; [|done..]. cbn [mbind option_bind] in Hx.
  injection Hx as <- ->. do 4 eexists. split; [done|]. split; [split; [exact Hm'|congruence]|]. cbn [box_step]. unfold box_send.
  repeat case_match; done.
Qed.

Lemma receive_holds m b address capacity :
  mailbox_holds E m b →
  ∃ st e m' b', cflow_mailbox_try_receive m true true (Some address) capacity = Some (st, e, m') ∧
    mailbox_holds E m' b' ∧
    match st, e with
    | CFLOW_MAILBOX_OK, Some e => bx_received b' = bx_received b + 1 ∧ blen (rc_payload e) <= capacity
    | CFLOW_MAILBOX_OK, None => False
    | _, _ => bx_received b' = bx_received b
    end.
Proof using Type.
  intros Hm. destruct m as [m|]; [|do 3 eexists; exists b; by split_and!]. destruct Hm as [Hm He].
  destruct (exec_refines m b (BReceive address capacity) Hm I) as (ans & m' & Hx & (Hs & _) & Ha & Hm'). cbn [box_exec] in Hx.
  destruct (cflow_mailbox_try_receive (Some m) true true (Some address) capacity) as [[[st e] [m2|]]|] eqn:Es; [|done..].
  cbn [mbind option_bind] in Hx. injection Hx as <- ->. do 4 eexists. split; [done|]. split; [split; [exact Hm'|congruence]|].
  cbn [box_step] in *. unfold box_receive in *. destruct (bx_queue b) as [|ev q] eqn:Eq.
  { injection Ha as -> ->. by destruct (bx_terminal b). }
  destruct (Z.ltb_spec capacity (td_size (rc_type ev))) as [|Hsize]; [by injection Ha as -> ->|].
  destruct (negb (address mod td_align (rc_type ev) =? 0)); injection Ha as -> ->; [done|]. split; [done|].
  pose proof (rp_count _ _ Hm) as Hc. pose proof (rp_events _ _ Hm 0) as H0. rewrite Eq in Hc, H0. unfold alen in Hc. cbn in Hc.
  specialize (H0 ltac:(lia)). cbn in H0. unfold event_at in H0.
  destruct (aget (mb_slots m) _); [|done]. cbn [mbind option_bind] in H0. destruct (aget (mb_schema m) _) as [row|]; [|done].
  cbn [mbind option_bind] in H0. destruct (e_payload_type row); [|done]. cbn [mbind option_bind] in H0.
  destruct (slice _ _ _) eqn:Esl in H0; [|done]. injection H0 as <-. cbn in *. apply slice_blen in Esl. lia.
Qed.

Lemma cancel_holds m b :
  mailbox_holds E m b →
  ∃ st m' wakes b', cflow_mailbox_cancel m = (st, m', wakes) ∧ mailbox_holds E m' b' ∧ bx_received b' = bx_received b.
Proof using Type.
  intros Hm. destruct m as [m|]; [|do 3 eexists; exists b; by split_and!]. destruct Hm as [Hm He].
  destruct (exec_refines m b BCancel Hm I) as (ans & m' & Hx & (Hs & _) & Ha & Hm'). cbn [box_exec] in Hx.
  destruct (cflow_mailbox_cancel (Some m)) as [[st [m2|]] wakes] eqn:Es; [|done]. cbn [mbind option_bind] in Hx.
  injection Hx as <- ->. do 4 eexists. split; [done|]. split; [split; [exact Hm'|congruence]|].
  cbn [box_step]. by destruct (bx_terminal b).
Qed.

Lemma arm_holds m b waker :
  mailbox_holds E m b →
  ∃ armed m' wakes b', cflow_mailbox_wait_arm m waker = (armed, m', wakes) ∧ mailbox_holds E m' b' ∧
    bx_received b' = bx_received b.
Proof using Type.
  intros Hm. destruct m as [m|]; [|do 3 eexists; exists b; by split_and!]. destruct Hm as [Hm He].
  destruct (exec_refines m b (BArm waker) Hm I) as (ans & m' & Hx & (Hs & _) & Ha & Hm'). cbn [box_exec] in Hx.
  destruct (cflow_mailbox_wait_arm (Some m) waker) as [[armed [m2|]] wakes] eqn:Es; [|done]. cbn [mbind option_bind] in Hx.
  injection Hx as <- ->. do 4 eexists. split; [done|]. split; [split; [exact Hm'|congruence]|].
  cbn [box_step]. repeat case_match; done.
Qed.

Lemma unarm_holds m b :
  mailbox_holds E m b → ∃ b', mailbox_holds E (cflow_mailbox_wait_cancel m) b' ∧ bx_received b' = bx_received b.
Proof using Type.
  intros Hm. destruct m as [m|]; [|exists b; by split]. destruct Hm as [Hm He].
  destruct (exec_refines m b BUnarm Hm I) as (ans & m' & Hx & (Hs & _) & Ha & Hm').
  injection Hx as <- <-. eexists. split; [split; [exact Hm'|done]|done].
Qed.

(** ** Settling events *)

Lemma count_up_ok x : 0 <= x → 0 <= count_up x ∧ (x < UINT64_MAX → count_up x = x + 1).
Proof using Type. intros. unfold count_up. destruct (Z.eqb_spec x UINT64_MAX); lia. Qed.

Lemma count_down_ok x : 1 <= x → count_down x = x - 1.
Proof using Type. intros. unfold count_down. destruct (Z.eqb_spec x 0); lia. Qed.

Lemma settle_ok n cancelled :
  counters_ok n → counters_ok (settle_event n cancelled) ∧
  (1 <= co_in_flight n → co_in_flight (settle_event n cancelled) = co_in_flight n - 1) ∧
  (settled n + 1 <= UINT64_MAX → settled (settle_event n cancelled) = settled n + 1).
Proof using Type.
  intros [H1 H2 H3]. pose proof (count_up_ok _ H2) as [? Hf]. pose proof (count_up_ok _ H3) as [? Hc].
  unfold settled, settle_event. split; [|split]; cbn; [|apply count_down_ok|].
  - split; cbn; try done; by destruct cancelled.
  - intros. destruct cancelled; [rewrite Hc by lia|rewrite Hf by lia]; lia.
Qed.

(** A task that ends the event it holds, and goes on with tasks that hold
    none. *)
Lemma settle_done t s b c cancelled tasks :
  inst_ok s b → 1 <= co_in_flight (in_counters s) → hand t = 1 → flight t = 1 →
  Forall (task_ok (in_data s)) tasks → work turn tasks = 0 →
  task_done t s b (MkInstance (in_config s) (in_mailbox s) (in_data s) (settle_event (in_counters s) cancelled) c) tasks b.
Proof using Type.
  intros [? ? ? Hn] Hfl Hh Hf Hok Ht. destruct (settle_ok (in_counters s) cancelled Hn) as (? & H1 & H2).
  pose proof (work_order tasks). pose proof (weight_order t).
  split; cbn [in_config in_data in_mailbox in_counters]; try done; try lia.
  by left.
Qed.

Lemma take_waiters_eq c : take_waiters c = (ct_downstream_waiter c, ct_terminal_waiter c, set_waiters c no_waker no_waker).
Proof using Type. done. Qed.

Lemma fail_executes a message settle s b :
  inst_ok s b → flight (KFail message settle) <= co_in_flight (in_counters s) → executes a (KFail message settle) s b.
Proof using Type.
  intros Hi Hfl. unfold executes. cbn [exec_task]. unfold fail_task, fail_locked. rewrite take_waiters_eq.
  do 3 eexists. exists b. split; [reflexivity|]. destruct settle.
  - apply settle_done; try done. by repeat constructor.
  - destruct Hi. split; cbn; try done; try lia; [by repeat constructor|by left].
Qed.

(** Settling a cancelled event, and the tasks it leaves. *)
Lemma cancelled_done t s b i tasks :
  inst_ok s b → 1 <= co_in_flight (in_counters s) → hand t = 1 → flight t = 1 →
  Forall (λ t, turn t = 0) tasks → Forall (task_ok (in_data s)) tasks →
  ∃ s' w1 w2, cancelled_locked s = (s', w1, w2) ∧
    task_done t s b s' (tasks ++ [KWake w1; KWake w2; KEnd i]) b.
Proof using Type.
  intros Hi Hfl Hh Hf Hz Hok. unfold cancelled_locked. rewrite take_waiters_eq. do 3 eexists. split; [reflexivity|].
  apply settle_done; try done; [apply Forall_app; split; [done|by repeat constructor]|].
  rewrite work_app, (work_idle turn tasks Hz). done.
Qed.

(** ** Selection and action *)

Lemma state_size st : st ∈ S → ∃ size, value_size st = Some size ∧ 0 < size <= sc.
Proof.
  intros Hs. pose proof (proj1 (Forall_forall _ _) (su_states _ _ _ _ _ _ _ _ Hsu) st Hs) as (t & Ht & Hsz).
  exists (td_size t). unfold value_size. rewrite Ht. done.
Qed.

Lemma select_chosen d event :
  ∃ r err, select_transition cn d event = Some (r, err) ∧ match r with Some (_, t) => chosen d t | None => True end.
Proof.
  destruct (select_ok cn S E G A T sc oc Hsu d event) as (r & err & from & E1 & Hs & _). exists r, err. split; [done|].
  destruct r as [[i t]|]; [|done]. destruct Hs as (_ & Ht & [Hc _] & Hg & _). split_and!; try done. by eapply aget_elem.
Qed.

(** The declaration and the binding of the action of a transition. *)
Lemma action_found d t :
  chosen d t → t_action t ≠ 0 →
  ∃ i j a b, find_action_declaration cn (t_action t) = Some (Some (i, a)) ∧
    find_action_binding cn (t_action t) = Some (Some (j, b)) ∧ a ∈ A ∧ a_id a = t_action t ∧ b ∈ cn_actions cn ∧
    ab_id b = t_action t.
Proof.
  intros [Ht _] Ha. pose proof (proj1 (Forall_forall _ _) (su_transitions _ _ _ _ _ _ _ _ Hsu) t Ht) as
    (source & target & event & _ & _ & _ & _ & _ & _ & _ & _ & Hfit).
  assert (t_action t ∈ a_id <$> A) as Hin.
  { unfold action_fits in Hfit. destruct Hfit as [[? _]|(_ & a & Hin & <- & _)]; [done|]. apply list_elem_of_fmap. eauto. }
  unfold find_action_declaration. destruct (find_action_ok _ _ _ _ _ _ (su_describes _ _ _ _ _ _ _ _ Hsu) (t_action t))
    as (r & -> & Hr). destruct r as [[i a]|]; [|cbn in Hr; done]. destruct Hr as [Hx%aget_elem Hid].
  destruct (action_binding_ok cn S E G A T sc oc Hsu (t_action t)) as (r & -> & Hb).
  destruct (bound_id ab_id (cn_actions cn) (a_id <$> A) (t_action t) (su_actions _ _ _ _ _ _ _ _ Hsu) Hin) as (b & Hbin & Hf).
  rewrite Hf in Hb. destruct r as [[j b']|]; [|done]. injection Hb as ->. apply find_some in Hf as [_ Hf%Z.eqb_eq].
  by exists i, j, a, b.
Qed.

Lemma run_action_ok d t error :
  data_ok d → chosen d t →
  ∃ outcome d', run_action cn d t error = Some (outcome, d') ∧ data_ok d' ∧ chosen d' t ∧
    da_state d' = da_state d ∧ da_state_value d' = da_state_value d ∧ da_event_value d' = da_event_value d ∧
    match outcome with inl action => prepared d' t action | inr _ => True end.
Proof.
  intros Hd Hc. pose proof Hd as [Hs Hv Ht He Ho]. unfold run_action. destruct (Z.eqb_spec (t_action t) 0) as [H0|H0].
  - destruct (state_size _ Hs) as (size & Hsz & Hr). rewrite Hsz. cbn [mbind option_bind].
    destruct (slice (da_state_value d) 0 size) as [bytes|] eqn:Eb; [|rewrite slice_in_bounds in Eb by lia; done].
    cbn [mbind option_bind]. pose proof (slice_blen _ _ _ _ Eb) as Hb.
    destruct (blit (da_target_value d) 0 bytes) as [target|] eqn:Et; [|rewrite blit_in_bounds in Et by lia; done].
    cbn [mbind option_bind]. do 2 eexists. split; [reflexivity|]. split_and!; try done.
    + split; cbn; try done. by rewrite (blit_blen _ _ _ _ Et).
    + split; [done|]. exists size. split; [done|]. cbn. rewrite Eb, <-Hb. by apply slice_blit_same in Et.
  - destruct (action_found d t Hc H0) as (i & j & a & b & -> & -> & Ha & Hia & Hb & Hib). cbn [mbind option_bind].
    pose proof (proj1 (Forall_forall _ _) (proj2 (su_bound _ _ _ _ _ _ _ _ Hsu)) b Hb) as Hbound.
    destruct (ab_fn b) as [fn|] eqn:Efn; [|cbn beta in Hbound; congruence]. cbn [mbind option_bind].
    destruct (proj1 (Forall_forall _ _) (su_callbacks _ _ _ _ _ _ _ _ Hsu) b Hb fn Efn (da_state_value d) (da_event_value d) (da_target_value d)
      (if negb (bool_decide (a_observation a = CFLOW_MACHINE_ACTION_NONE)) then Some (da_observation_value d) else None))
      as [Hlt Hlo]. set (r := fn _ _ _ _) in *.
    assert (data_ok (MkData (da_state d) (da_state_value d) (ar_target r) (da_event_value d)
      (if negb (bool_decide (a_observation a = CFLOW_MACHINE_ACTION_NONE)) then ar_observation r else da_observation_value d)))
      as Hd'.
    { split; cbn; try done; [lia|]. case_bool_decide; cbn in *; [done|]. rewrite (Hlo _ eq_refl). done. }
    destruct (ar_ok r) eqn:Er; cbn [negb]; do 2 eexists; (split; [reflexivity|]); split_and!; try done.
    split; [done|]. split; [done|]. exists b, fn, (da_target_value d), (if negb (bool_decide (a_observation a = CFLOW_MACHINE_ACTION_NONE))
      then Some (da_observation_value d) else None). cbn. split_and!; try done.
    intros Hne. subst r. by case_bool_decide.
Qed.

(** ** The commit *)

Lemma commit_locked_ok s target action :
  data_ok (in_data s) → target ∈ S →
  ∃ size value n c w1 w2 closed, value_size target = Some size ∧
    slice value 0 size = slice (da_target_value (in_data s)) 0 size ∧ blen value = sc ∧
    commit_locked s target action = Some (MkInstance (in_config s) (in_mailbox s) (MkData target value
      (da_target_value (in_data s)) (da_event_value (in_data s)) (da_observation_value (in_data s))) n c, w1, w2, closed) ∧
    co_in_flight n = count_down (co_in_flight (in_counters s)) ∧
    co_cancelled_in_flight n = co_cancelled_in_flight (in_counters s) ∧
    let is_error := bool_decide (s_kind target = CFLOW_MACHINE_STATE_ERROR) in
    co_completed n = (if is_error then co_completed (in_counters s) else count_up (co_completed (in_counters s))) ∧
    co_failed n = (if is_error then count_up (co_failed (in_counters s)) else co_failed (in_counters s)).
Proof.
  intros [Hs Hv Ht He Ho] Hin. destruct (state_size _ Hin) as (size & Hsz & Hr). unfold commit_locked. rewrite Hsz.
  cbn [mbind option_bind]. destruct (slice (da_target_value (in_data s)) 0 size) as [bytes|] eqn:Eb;
    [|rewrite slice_in_bounds in Eb by lia; done]. pose proof (slice_blen _ _ _ _ Eb) as Hb. cbn [mbind option_bind].
  destruct (blit (da_state_value (in_data s)) 0 bytes) as [value|] eqn:Ev; [|rewrite blit_in_bounds in Ev by lia; done].
  cbn [mbind option_bind]. set (r := if observes action _ && _ then _ else _). destruct r as [w c].
  set (r := if bool_decide (ct_lifecycle c = _) && _ then _ else _). destruct r as [w' c'].
  match goal with |- context [if ?x then take_terminal_waiter_locked ?k else _] => destruct (if x then take_terminal_waiter_locked k
    else (no_waker, k)) as [w2 c2] end.
  exists size, value. do 5 eexists. split; [done|]. split; [|split; [|split; [reflexivity|done]]].
  - rewrite Eb, <-Hb. by apply slice_blit_same in Ev.
  - by rewrite (blit_blen _ _ _ _ Ev).
Qed.

(** The counters of an allowed commit. *)
Lemma commit_counters n n' (is_error : bool) :
  counters_ok n → co_in_flight n' = count_down (co_in_flight n) → co_cancelled_in_flight n' = co_cancelled_in_flight n →
  co_completed n' = (if is_error then co_completed n else count_up (co_completed n)) →
  co_failed n' = (if is_error then count_up (co_failed n) else co_failed n) → 1 <= co_in_flight n →
  counters_ok n' ∧ co_in_flight n' = co_in_flight n - 1 ∧ (settled n + 1 <= UINT64_MAX → settled n' = settled n + 1).
Proof using Type.
  intros [H1 H2 H3] E1 E2 E3 E4 Hfl. pose proof (count_up_ok _ H1) as [? Hc]. pose proof (count_up_ok _ H2) as [? Hf].
  split_and!.
  - split; rewrite ?E2, ?E3, ?E4; try done; by destruct is_error.
  - rewrite E1. by apply count_down_ok.
  - intros. unfold settled in *. rewrite E2, E3, E4. destruct is_error; [rewrite Hf by lia|rewrite Hc by lia]; lia.
Qed.

(** What follows a commit holds no event. *)
Definition commit_tasks (i : Z) (w1 w2 : cflow_waker) (is_error is_done is_active closed emits : bool) : list task :=
  if is_error then [KFail (Some "entered error state"%string) false; KEnd i]
  else (if is_done || closed then [KCancelMailbox] else []) ++ [KWake w1; KWake w2] ++
    [if is_active && negb closed && negb emits then KLoop (i + 1) else KEnd i].

Lemma commit_tasks_ok d i w1 w2 e y x r v :
  Forall (task_ok d) (commit_tasks i w1 w2 e y x r v) ∧ work turn (commit_tasks i w1 w2 e y x r v) <= 1 ∧
  work hand (commit_tasks i w1 w2 e y x r v) = 0 ∧ work flight (commit_tasks i w1 w2 e y x r v) = 0.
Proof using Type. destruct e, y, x, r, v; cbn; split_and!; try lia; by repeat constructor. Qed.

Lemma commit_executes a i target action s b :
  inst_ok s b → due_commit (in_data s) target action → 1 <= co_in_flight (in_counters s) →
  executes a (KCommit i target action) s b.
Proof.
  intros Hi Hdue Hfl. unfold executes. cbn [exec_task]. unfold commit_task.
  destruct (begin_commit_locked (in_control s)) as [[] c].
  - destruct Hdue as (t & Hc & Hp & Hin & Hid). pose proof Hi as [Hcn Hd Hm Hn].
    destruct (commit_locked_ok s target action Hd Hin) as (size & value & n & c' & w1 & w2 & closed & Hsz & Hval & Hlen &
      -> & E1 & E2 & E3 & E4). cbn [mbind option_bind stay].
    destruct (commit_counters _ n _ Hn E1 E2 E3 E4 Hfl) as (Hn' & Hfl' & Hst).
    match goal with |- context [stay _ ?l] => change l with (commit_tasks i w1 w2
      (bool_decide (s_kind target = CFLOW_MACHINE_STATE_ERROR)) (bool_decide (s_kind target = CFLOW_MACHINE_STATE_DONE))
      (bool_decide (s_kind target = CFLOW_MACHINE_STATE_ACTIVE)) closed (observes action CFLOW_MACHINE_ACTION_VALUE)) end.
    set (l := commit_tasks _ _ _ _ _ _ _ _). do 3 eexists. exists b. split; [reflexivity|].
    destruct (commit_tasks_ok (MkData target value (da_target_value (in_data s)) (da_event_value (in_data s))
      (da_observation_value (in_data s))) i w1 w2 (bool_decide (s_kind target = CFLOW_MACHINE_STATE_ERROR))
      (bool_decide (s_kind target = CFLOW_MACHINE_STATE_DONE)) (bool_decide (s_kind target = CFLOW_MACHINE_STATE_ACTIVE)) closed
      (observes action CFLOW_MACHINE_ACTION_VALUE)) as (L1 & L2 & L3 & L4). fold l in L1, L2, L3, L4.
    split; cbn [in_config in_data in_mailbox in_counters turn hand flight]; try done; try lia.
    + split; try done. destruct Hd. split; try done.
    + right. exists action, size. split; [|done]. by exists t.
  - destruct (cancelled_done (KCommit i target action) s b i [KCancelMailbox] Hi Hfl eq_refl eq_refl)
      as (s' & w1 & w2 & -> & Hdone); [by repeat constructor..|]. cbn [mbind option_bind stay]. by do 4 eexists.
  - cbn [mbind option_bind stay]. do 3 eexists. exists b. split; [reflexivity|].
    replace s with (with_instance_control s (in_control s)) at 2 by by destruct s.
    apply control_done; try done. by repeat constructor.
Qed.

(** ** Every task *)

(** A task that changes nothing. *)
Lemma same_done t s b tasks :
  inst_ok s b → Forall (task_ok (in_data s)) tasks → work turn tasks <= turn t →
  work flight tasks = flight t → work hand tasks = hand t → task_done t s b s tasks b.
Proof using Type.
  intros. replace s with (with_instance_control s (in_control s)) at 2 by by destruct s. by apply control_done.
Qed.

(** The tasks between the receive and the commit give up when the instance is
    cancelled. *)
Lemma unless_cancelled a t s b i k :
  inst_ok s b → 1 <= co_in_flight (in_counters s) → hand t = 1 → flight t = 1 →
  exec_task a t s = match settle_cancelled_in_flight s with
    | Some (s, downstream, terminal) => stay s [KWake downstream; KWake terminal; KEnd i]
    | None => k
    end →
  (∃ s' tasks e b', k = Some (s', tasks, e) ∧ task_done t s b s' tasks b') →
  executes a t s b.
Proof using Type.
  intros Hi Hfl Hh Hf Hx Hk. unfold executes. rewrite Hx. unfold settle_cancelled_in_flight.
  destruct (bool_decide _); [|done].
  destruct (cancelled_done t s b i [] Hi Hfl Hh Hf) as (s' & w1 & w2 & -> & Hdone); [by repeat constructor..|].
  by do 4 eexists.
Qed.

Lemma wakes_tasks d l : Forall (task_ok d) (mailbox_wakes l).
Proof using Type. apply Forall_fmap, Forall_true. done. Qed.

Lemma receive_executes a i s b : inst_ok s b → executes a (KReceive i) s b.
Proof using Type.
  intros Hi. pose proof Hi as [Hcn Hd Hm Hn]. unfold executes. cbn [exec_task]. rewrite Hcn.
  destruct (receive_holds (in_mailbox s) b (cn_event_address cn) (cn_event_capacity cn) Hm) as (st & e & m' & b' & -> & Hm' & Hr).
  cbn [mbind option_bind]. unfold received_tasks.
  assert (∀ tasks, Forall (task_ok (in_data s)) tasks → work turn tasks <= 1 → work flight tasks = 0 →
    work hand tasks = bx_received b' - bx_received b → bx_received b <= bx_received b' →
    task_done (KReceive i) s b (with_data (with_mailbox s m') (in_data s)) tasks b') as Hsame.
  { intros. replace (with_data (with_mailbox s m') (in_data s)) with (with_mailbox s m') by done.
    apply mailbox_done; try done; cbn [hand]; lia. }
  destruct st; try (do 4 eexists; split; [reflexivity|]; apply Hsame; cbn in *; first [lia|by repeat constructor]).
  destruct e as [e|]; [|done]. destruct Hr as [Hr Hlen]. destruct Hd as [? ? ? Hev ?].
  destruct (blit (da_event_value (in_data s)) 0 (rc_payload e)) as [ev|] eqn:Eb; [|rewrite blit_in_bounds in Eb by lia; done].
  cbn [mbind option_bind]. do 3 eexists. exists b'. split; [reflexivity|]. split; cbn; try done; try lia.
  - split; try done. split; cbn; try done. by rewrite (blit_blen _ _ _ _ Eb).
  - by repeat constructor.
  - by left.
Qed.

Lemma emit_executes a i target action s b :
  inst_ok s b → task_ok (in_data s) (KEmit i target action) → executes a (KEmit i target action) s b.
Proof.
  intros Hi [Hdue Hobs]. pose proof Hi as [Hcn Hd Hm Hn]. unfold executes. cbn [exec_task]. unfold emit_action_event.
  destruct (send_holds (in_mailbox s) b (MkView (a_output_event_id action) (a_output_type action)
    (Some (da_observation_value (in_data s)))) Hm) as (st & m' & wakes & b' & -> & Hm' & Hr).
  { intros payload row type [= <-] [Hrow%list_elem_of_In Hid%Z.eqb_eq]%find_some Htype. cbn in Hid.
    rewrite (do_observation _ Hd). destruct Hdue as (t & _ & [Ha _] & _).
    by eapply (su_emitted _ _ _ _ _ _ _ _ Hsu action row type). }
  cbn [mbind option_bind]. do 3 eexists. exists b'. split; [reflexivity|].
  pose proof (mailbox_wakes_idle turn wakes eq_refl) as W1. pose proof (mailbox_wakes_idle flight wakes eq_refl) as W2.
  pose proof (mailbox_wakes_idle hand wakes eq_refl) as W3.
  apply mailbox_done; try done; rewrite ?work_app, ?W1, ?W2, ?W3; try (destruct st; cbn; lia).
  apply Forall_app. split; [apply wakes_tasks|]. destruct st; by repeat constructor.
Qed.

Lemma acted_executes a i t outcome s b :
  inst_ok s b → task_ok (in_data s) (KActed i t outcome) → 1 <= co_in_flight (in_counters s) →
  executes a (KActed i t outcome) s b.
Proof.
  intros Hi [Hc Hp] Hfl. pose proof Hi as [Hcn Hd Hm Hn]. eapply unless_cancelled; try done. unfold acted_tasks.
  destruct outcome as [action|err]; cycle 1.
  { do 3 eexists. exists b. split; [reflexivity|]. apply same_done; try done. by repeat constructor. }
  rewrite Hcn. destruct (find_state_ok _ _ _ _ _ _ (su_describes _ _ _ _ _ _ _ _ Hsu) (t_target t)) as (r & -> & Hr).
  cbn [mbind option_bind]. do 3 eexists. exists b. split; [reflexivity|].
  destruct r as [[j target]|]; cycle 1. { apply same_done; try done. by repeat constructor. }
  destruct Hr as [Hin%aget_elem Hid]. assert (due_commit (in_data s) target action) as Hdue by by exists t.
  destruct action as [act|]; [case_bool_decide|]; apply same_done; try done; by repeat constructor.
Qed.

Lemma select_executes a i id s b :
  inst_ok s b → 1 <= co_in_flight (in_counters s) → executes a (KSelect i id) s b.
Proof.
  intros Hi Hfl. eapply unless_cancelled; try done. rewrite (io_config _ _ Hi).
  destruct (select_chosen (in_data s) id) as (r & err & -> & Hr). cbn [mbind option_bind]. do 3 eexists. exists b.
  split; [reflexivity|]. apply same_done; try done. constructor; [by destruct r as [[]|]|constructor].
Qed.

Lemma selected_executes a i r error s b :
  inst_ok s b → task_ok (in_data s) (KSelected i r error) → 1 <= co_in_flight (in_counters s) →
  executes a (KSelected i r error) s b.
Proof.
  intros Hi Hc Hfl. pose proof Hi as [Hcn Hd Hm Hn]. eapply unless_cancelled; try done. destruct r as [[j t]|]; cycle 1.
  { do 3 eexists. exists b. split; [reflexivity|]. apply same_done; try done. by repeat constructor. }
  rewrite Hcn. destruct (run_action_ok (in_data s) t error Hd Hc) as (outcome & d' & -> & Hd' & Hc' & E1 & E2 & E3 & Hp).
  cbn [mbind option_bind]. do 3 eexists. exists b. split; [reflexivity|]. split; cbn; try done; try lia.
  - by constructor; [split|constructor].
  - by left.
Qed.

(** Tasks that only take a decision under the lock: what they leave to do
    holds no event. *)
Lemma schedule_tasks c : (schedule_locked c).2 = [] ∨ (schedule_locked c).2 = [KPost].
Proof using Type. unfold schedule_locked. repeat case_match; cbn; auto. Qed.

Lemma stop_tasks (armed : bool) w1 w2 d :
  let l := (if armed then [KDisarm] else []) ++ [KCancelMailbox; KWake w1; KWake w2] in
  Forall (task_ok d) l ∧ work turn l = 0.
Proof using Type. destruct armed; split; try done; by repeat constructor. Qed.

Lemma close_tasks c :
  ∃ armed w1 w2, (close_locked c).2 = (if armed : bool then [KDisarm] else []) ++ [KCancelMailbox; KWake w1; KWake w2].
Proof using Type. exists (ct_mailbox_armed c). unfold close_locked. repeat case_match; by do 2 eexists. Qed.

Lemma cancel_tasks c : (cancel_locked c).2 = [] ∨
  ∃ armed w1 w2, (cancel_locked c).2 = (if armed : bool then [KDisarm] else []) ++ [KCancelMailbox; KWake w1; KWake w2].
Proof using Type. unfold cancel_locked. case_match; [by left|right]. exists (ct_mailbox_armed c). repeat case_match; by do 2 eexists. Qed.

Lemma lock_executes a t s b r :
  inst_ok s b → exec_task a t s = to_control s r → Forall (task_ok (in_data s)) r.2 → work turn r.2 = 0 → hand t = 0 →
  executes a t s b.
Proof using Type.
  intros Hi Hx Hok Ht Hh. unfold executes. rewrite Hx. do 3 eexists. exists b. split; [reflexivity|].
  pose proof (work_order r.2). pose proof (weight_order t). apply control_done; try done; lia.
Qed.

Lemma resume_executes a s b : inst_ok s b → executes a KResume s b.
Proof.
  intros Hi. pose proof Hi as [Hcn Hd Hm Hn]. unfold executes. cbn [exec_task]. unfold resume_locked. rewrite Hcn.
  pose proof (su_output _ _ _ _ _ _ _ _ Hsu) as Ho.
  rewrite slice_in_bounds by (rewrite ?(do_observation _ Hd); lia).
  repeat case_match; simplify_eq; cbn [mbind option_bind]; do 3 eexists; exists b; (split; [reflexivity|]);
    apply control_done; try done; by repeat constructor.
Qed.

(** Tasks that leave the mailbox's waker to be called. *)
Lemma wakes_done t s b m wakes b' :
  inst_ok s b → mailbox_holds E m b' → bx_received b' = bx_received b → turn t = 0 →
  task_done t s b (with_mailbox s m) (mailbox_wakes wakes) b'.
Proof using Type.
  intros Hi Hm Hr Ht. pose proof (weight_order t).
  apply mailbox_done; rewrite ?mailbox_wakes_idle by done; try done; try lia. apply wakes_tasks.
Qed.

Lemma mailbox_executes a t s b :
  inst_ok s b → task_ok (in_data s) t →
  match t with KSend _ | KCancelMailbox | KDisarm | KArmMailbox => True | _ => False end → executes a t s b.
Proof using Type.
  intros Hi Hok Ht. pose proof (io_mailbox _ _ Hi) as Hm. destruct t; try done; unfold executes; cbn [exec_task].
  - destruct (send_holds _ _ _ Hm Hok) as (st & m' & wakes & b' & -> & Hm' & Hr). do 3 eexists. exists b'.
    split; [reflexivity|]. by apply wakes_done.
  - destruct (cancel_holds _ _ Hm) as (st & m' & wakes & b' & -> & Hm' & Hr). do 3 eexists. exists b'.
    split; [reflexivity|]. by apply wakes_done.
  - destruct (unarm_holds _ _ Hm) as (b' & Hm' & Hr). do 3 eexists. exists b'. split; [reflexivity|].
    by apply (wakes_done KDisarm s b _ []).
  - destruct (arm_holds _ _ mailbox_waker Hm) as (armed & m' & wakes & b' & -> & Hm' & Hr). do 3 eexists. exists b'.
    split; [reflexivity|]. destruct armed; [by apply wakes_done|].
    apply mailbox_done; try done; cbn; try lia. by repeat constructor.
Qed.

Lemma loop_executes a i s b : inst_ok s b → executes a (KLoop i) s b.
Proof using Type.
  intros Hi. unfold executes. cbn [exec_task].
  repeat case_match; do 3 eexists; exists b; (split; [reflexivity|]); [apply same_done|apply same_done|apply control_done];
    try done; by repeat constructor.
Qed.

Lemma exec_ok a t s b :
  inst_ok s b → task_ok (in_data s) t → flight t <= co_in_flight (in_counters s) → executes a t s b.
Proof.
  intros Hi Hok Hfl. destruct t; try (by apply mailbox_executes);
    try (by eapply lock_executes; first [done|by repeat constructor]).
  - eapply lock_executes; [done|reflexivity| |..]; try done; by destruct (schedule_tasks (in_control s)) as [-> | ->];
      repeat constructor.
  - unfold executes. cbn [exec_task]. destruct (an_admission a); do 3 eexists; exists b; (split; [reflexivity|]);
      apply same_done; try done; by repeat constructor.
  - by apply fail_executes.
  - do 3 eexists. exists b. split; [reflexivity|]. apply same_done; try done; constructor.
  - destruct (close_tasks (in_control s)) as (ar & w1 & w2 & E1). destruct (stop_tasks ar w1 w2 (in_data s)) as [H1 H2].
    eapply lock_executes; [done|reflexivity|rewrite E1; done..|done].
  - destruct (cancel_tasks (in_control s)) as [E1|(ar & w1 & w2 & E1)].
    { eapply lock_executes; [done|reflexivity|rewrite E1; by constructor..|done]. }
    destruct (stop_tasks ar w1 w2 (in_data s)) as [H1 H2]. eapply lock_executes; [done|reflexivity|rewrite E1; done..|done].
  - by apply resume_executes.
  - eapply lock_executes; [done|reflexivity| |..]; try done; unfold wait_arm_locked; repeat case_match; by repeat constructor.
  - eapply lock_executes; [done|reflexivity| |..]; try done; unfold bind_terminal_locked; case_match; by repeat constructor.
  - do 3 eexists. exists b. split; [reflexivity|]. apply control_done; try done. by repeat constructor.
  - by apply loop_executes.
  - by apply receive_executes.
  - eapply lock_executes; [done|reflexivity| |..]; try done; cbn [snd]; case_match; by repeat constructor.
  - unfold executes. cbn [exec_task]. case_match; do 3 eexists; exists b; (split; [reflexivity|]);
      [apply same_done|apply control_done]; try done; by repeat constructor.
  - do 3 eexists. exists b. split; [reflexivity|]. apply control_done; try done. by repeat constructor.
  - pose proof Hi as [? ? ? []]. do 3 eexists. exists b. split; [reflexivity|].
    split; cbn; try done; try (unfold settled; cbn; lia).
    { by repeat constructor. }
    by left.
  - by apply select_executes.
  - by apply selected_executes.
  - by apply acted_executes.
  - destruct Hok as [Hdue Hobs]. do 3 eexists. exists b. split; [reflexivity|].
    apply same_done; try done; destruct (ct_closed _); cbn; try lia; by repeat constructor.
  - by apply emit_executes.
  - by apply commit_executes.
  - eapply lock_executes; [done|reflexivity| |..]; try done; unfold end_locked; cbn [snd]; case_match; by repeat constructor.
Qed.

(** ** The system *)

Record system_ok (sy : system) (b : box) : Prop := {
  sk_instance : inst_ok (sy_instance sy) b;
  sk_callers : Forall (Forall (λ t, task_ok (in_data (sy_instance sy)) t ∧ turn t = 0)) (sy_callers sy);
  sk_worker : Forall (task_ok (in_data (sy_instance sy))) (sy_worker sy);
  sk_turn : work turn (sy_worker sy) <= 1;
  sk_flight : co_in_flight (in_counters (sy_instance sy)) = work flight (sy_worker sy);
  sk_settled : bx_received b <= UINT64_MAX →
    settled (in_counters (sy_instance sy)) + work hand (sy_worker sy) = bx_received b
}.

(** A new instance: nothing received, nothing settled, nothing under way. *)
Definition starts (sy : system) (b : box) : Prop :=
  inst_ok (sy_instance sy) b ∧ bx_received b = 0 ∧ settled (in_counters (sy_instance sy)) = 0 ∧
  co_in_flight (in_counters (sy_instance sy)) = 0 ∧ sy_callers sy = [] ∧ sy_worker sy = [].

Lemma starts_ok sy b : starts sy b → system_ok sy b.
Proof using Type.
  intros (Hi & Hr & Hs & Hf & Hc & Hw). split; rewrite ?Hc, ?Hw; try done; cbn; try lia; by constructor.
Qed.

Lemma idle_tasks d d' l : Forall (λ t, task_ok d t ∧ turn t = 0) l → Forall (λ t, task_ok d' t ∧ turn t = 0) l.
Proof using Type. intros H. eapply Forall_impl; [exact H|]. intros t [H1 H2]. split; [by eapply task_ok_idle|done]. Qed.

Lemma turn_zero l : work turn l <= 0 → Forall (λ t, turn t = 0) l.
Proof using Type.
  unfold work. induction l as [|t l IH]; cbn [foldr]; constructor; pose proof (weight_order t); pose proof (work_order l);
    unfold work in *; [lia|apply IH; lia].
Qed.

(** The tasks that wait do not depend on what a step changes. *)
Lemma rest_ok d d' t l :
  work turn (t :: l) <= 1 → (turn t = 0 → d' = d) → Forall (task_ok d) l → Forall (task_ok d') l.
Proof using Type.
  intros Ht Hd Hl. destruct (decide (turn t = 0)) as [E0|E0]; [by rewrite Hd|].
  pose proof (weight_order t). pose proof (work_rest t l Ht ltac:(lia)) as Hz. rewrite Forall_forall in *. intros x Hx.
  eapply task_ok_idle; eauto.
Qed.

Lemma caller_step sy b a l1 t rest l2 :
  system_ok sy b → sy_callers sy = l1 ++ (t :: rest) :: l2 →
  ∃ s' tasks e b', exec_task a t (sy_instance sy) = Some (s', tasks, e) ∧
    follows (in_data (sy_instance sy)) (in_data s') ∧
    system_ok (after sy s' e (l1 ++ (tasks ++ rest) :: l2) (sy_worker sy)) b'.
Proof.
  intros [Hi Hc Hw Ht Hf Hs] El. rewrite El in Hc. apply Forall_app in Hc as [Hc1 [Hc2 Hc3]%Forall_cons].
  apply Forall_cons in Hc2 as [[Hok Ht0] Hrest]. pose proof (weight_order t). pose proof (work_order (sy_worker sy)).
  destruct (exec_ok a t _ b Hi Hok) as (s' & tasks & e & b' & Hx & [Hi' Htk Htn Hfl Hrc Hst Hid Hfo]); [lia|].
  exists s', tasks, e, b'. split; [done|]. split; [done|]. rewrite Ht0 in Htn. specialize (Hid Ht0).
  pose proof (turn_zero tasks Htn) as Hz. pose proof (work_order tasks).
  split; cbn [after sy_instance sy_callers sy_worker]; rewrite ?Hid; try done; try lia.
  apply Forall_app. split; [done|]. constructor; [|done]. apply Forall_app. split; [|done]. rewrite Hid in Htk.
  rewrite Forall_forall in *. intros x Hx'. split; auto.
Qed.

Lemma worker_step sy b a t rest :
  system_ok sy b → sy_worker sy = t :: rest →
  ∃ s' tasks e b', exec_task a t (sy_instance sy) = Some (s', tasks, e) ∧
    follows (in_data (sy_instance sy)) (in_data s') ∧
    system_ok (after sy s' e (sy_callers sy) (tasks ++ rest)) b'.
Proof.
  intros [Hi Hc Hw Ht Hf Hs] El. rewrite El in Hw, Ht, Hf, Hs. apply Forall_cons in Hw as [Hok Hrest].
  pose proof (weight_order t). pose proof (work_order rest). pose proof (work_rest t rest) as Hwr.
  unfold work in *. cbn [foldr] in Ht, Hf, Hs. fold (work turn rest) (work flight rest) (work hand rest) in *.
  destruct (exec_ok a t _ b Hi Hok) as (s' & tasks & e & b' & Hx & [Hi' Htk Htn Hfl Hrc Hst Hid Hfo]); [lia|].
  exists s', tasks, e, b'. split; [done|]. split; [done|].
  split; cbn [after sy_instance sy_callers sy_worker]; rewrite ?work_app; try done; try lia.
  - eapply Forall_impl; [exact Hc|]. intros l. apply idle_tasks.
  - apply Forall_app. split; [done|]. eapply (rest_ok (in_data (sy_instance sy)) _ t); [|done|done]. unfold work. cbn [foldr].
    fold (work turn rest). lia.
Qed.

Lemma step_ok sy sy' b : system_ok sy b → system_step sy sy' → ∃ b', system_ok sy' b' ∧
  follows (in_data (sy_instance sy)) (in_data (sy_instance sy')).
Proof.
  intros Hok Hstep. destruct Hstep as [sy t He Hr|sy a l1 t rest l2 s' tasks e El Hx|sy k Hw Hp|sy a t rest s' tasks e El Hx].
  - exists b. split; [|by left]. destruct Hok as [Hi Hc Hw Ht Hf Hs]. split; try done. cbn. constructor; [|done].
    constructor; [|constructor]. split; [|by destruct t]. destruct t; try done. cbn in *.
    pose proof (io_mailbox _ _ Hi) as Hm. destruct (in_mailbox (sy_instance sy)); [by destruct Hm as [_ <-]|].
    destruct Hm as [-> _]. done.
  - destruct (caller_step sy b a l1 t rest l2 Hok El) as (s2 & t2 & e2 & b' & Hx2 & Hfo & Hok'). rewrite Hx in Hx2.
    injection Hx2 as <- <- <-. by exists b'.
  - exists b. split; [|by left]. destruct Hok as [Hi Hc Hwk Ht Hf Hs]. rewrite Hw in *.
    split; cbn in *; try done; by repeat constructor.
  - destruct (worker_step sy b a t rest Hok El) as (s2 & t2 & e2 & b' & Hx2 & Hfo & Hok'). rewrite Hx in Hx2.
    injection Hx2 as <- <- <-. by exists b'.
Qed.

Lemma reach_ok sy sy' b : system_ok sy b → rtc system_step sy sy' → ∃ b', system_ok sy' b'.
Proof.
  intros Hok Hr. revert b Hok. induction Hr as [|sy1 sy2 sy3 H12 _ IH]; intros b Hok; [by exists b|].
  destruct (step_ok _ _ _ Hok H12) as (b2 & Hok2 & _). by eapply IH.
Qed.

(** The account of the events of the mailbox and of the instance. *)
Lemma account_ok sy b :
  system_ok sy b → ∃ stats, cflow_machine_instance_get_stats (sy_instance sy) (sy_instance sy) = Some stats ∧
    0 <= is_in_flight stats <= work hand (sy_worker sy) ∧ work hand (sy_worker sy) <= 1 ∧
    (bx_accepted b <= UINT64_MAX →
     is_accepted stats = bx_accepted b ∧ is_pending stats = alen (bx_queue b) ∧
     is_accepted stats = is_completed stats + is_failed stats + is_cancelled_events stats + is_pending stats +
       work hand (sy_worker sy)).
Proof using Type.
  intros [[_ _ Hm [Hn1 Hn2 Hn3]] _ _ Ht Hf Hs]. pose proof (work_order (sy_worker sy)) as Hw.
  unfold cflow_machine_instance_get_stats. unfold settled in Hs. destruct (in_mailbox (sy_instance sy)) as [m|].
  - destruct Hm as [[_ _ Hc _ _ _ _ (Ha & Hr & Hx) _ [_ Hacc Hpos _ _]] _]. cbn [mbind option_bind cflow_mailbox_get_stats].
    eexists. split; [reflexivity|].
    cbn [is_in_flight is_accepted is_pending is_completed is_failed is_cancelled_events st_accepted st_pending st_cancelled].
    split; [lia|]. split; [lia|]. intros Hmax. pose proof (alen_nonneg (bx_queue b)).
    unfold saturated in *. specialize (Hs ltac:(lia)). rewrite u64_id by (unfold is_u64; lia). lia.
  - destruct Hm as [_ ->]. cbn in *. eexists. split; [reflexivity|].
    cbn [is_in_flight is_accepted is_pending is_completed is_failed is_cancelled_events st_accepted st_pending st_cancelled].
    split; [lia|]. split; [lia|]. intros _.
    assert (0 <= UINT64_MAX) as H0 by (vm_compute; discriminate). specialize (Hs H0).
    rewrite u64_id by (unfold is_u64; lia). unfold alen. cbn [length]. lia.
Qed.

(** C14. Every event is settled exactly once. Whatever the callers of an
    instance and its workers do and however they interleave, the events the
    mailbox accepted are those completed, failed or cancelled in flight,
    those the mailbox discarded, those pending and the one in the worker's
    hand: never more than one, and never one that is counted twice or lost
    (as long as the 64-bit counter of accepted events does not saturate). *)
Theorem instance_accounts sy0 b0 sy :
  starts sy0 b0 → rtc system_step sy0 sy →
  ∃ b stats, mailbox_holds E (in_mailbox (sy_instance sy)) b ∧
    cflow_machine_instance_get_stats (sy_instance sy) (sy_instance sy) = Some stats ∧
    0 <= is_in_flight stats <= work hand (sy_worker sy) ∧ work hand (sy_worker sy) <= 1 ∧
    (bx_accepted b <= UINT64_MAX →
     is_accepted stats = bx_accepted b ∧ is_pending stats = alen (bx_queue b) ∧
     is_accepted stats = is_completed stats + is_failed stats + is_cancelled_events stats + is_pending stats +
       work hand (sy_worker sy)).
Proof.
  intros Hst Hr. destruct (reach_ok _ _ _ (starts_ok _ _ Hst) Hr) as (b & Hok).
  destruct (account_ok sy b Hok) as (stats & H1 & H2 & H3 & H4). exists b, stats. split; [apply Hok|done].
Qed.

(** C18. No thread is ever stuck. In every reachable situation the next task
    of every caller and of the worker is defined, whatever the executor and
    the allocator answer: no access is out of bounds, no missing state,
    binding or callback is used, no loop runs out of its rounds. *)
Theorem instance_never_stuck sy0 b0 sy a :
  starts sy0 b0 → rtc system_step sy0 sy →
  (∀ t rest, sy_worker sy = t :: rest → is_Some (exec_task a t (sy_instance sy))) ∧
  (∀ t rest, t :: rest ∈ sy_callers sy → is_Some (exec_task a t (sy_instance sy))).
Proof.
  intros Hst Hr. destruct (reach_ok _ _ _ (starts_ok _ _ Hst) Hr) as (b & Hok). split.
  - intros t rest Hw. destruct (worker_step sy b a t rest Hok Hw) as (s' & tasks & e & b' & -> & _). done.
  - intros t rest (l1 & l2 & Hl)%list_elem_of_split.
    destruct (caller_step sy b a l1 t rest l2 Hok Hl) as (s' & tasks & e & b' & -> & _). done.
Qed.

(** C15. The state follows the machine. In every interleaving each step
    leaves the state and its value as they are, or moves along a transition
    of the machine that leaves the current state and whose guard holds for
    the state and the event; the new value is the one its action computed
    from them, or for a plain transition the old value. *)
Theorem instance_follows_machine sy0 b0 sy sy' :
  starts sy0 b0 → rtc system_step sy0 sy → system_step sy sy' →
  follows (in_data (sy_instance sy)) (in_data (sy_instance sy')).
Proof.
  intros Hst Hr Hstep. destruct (reach_ok _ _ _ (starts_ok _ _ Hst) Hr) as (b & Hok).
  by destruct (step_ok _ _ _ Hok Hstep) as (b' & _ & Hfo).
Qed.
End Run.

(** ** After cancellation *)

(** Cancelled or over. *)
Definition stopped c : Prop :=
  ct_lifecycle c = CFLOW_MACHINE_CONTROL_CANCEL_REQUESTED ∨ ct_lifecycle c = CFLOW_MACHINE_CONTROL_TERMINAL.

(** What callers see of a machine that is stopped. *)
Definition frozen s s' : Prop :=
  stopped (in_control s') ∧ da_state (in_data s') = da_state (in_data s) ∧
  da_state_value (in_data s') = da_state_value (in_data s) ∧
  co_completed (in_counters s') = co_completed (in_counters s) ∧
  co_emitted_values (in_counters s') = co_emitted_values (in_counters s) ∧
  co_emitted_events (in_counters s') = co_emitted_events (in_counters s).

(** A section that leaves data and counters alone. *)
Lemma control_frozen s c : stopped c → frozen s (with_instance_control s c).
Proof. by intros. Qed.

Lemma same_lifecycle c c' : stopped c → ct_lifecycle c' = ct_lifecycle c → stopped c'.
Proof. unfold stopped. intros Hs ->. exact Hs. Qed.

Lemma close_stopped c : stopped c → stopped (close_locked c).1.
Proof.
  intros Hs. unfold close_locked. rewrite bool_decide_eq_false_2 by (destruct Hs as [-> | ->]; discriminate).
  destruct (is_terminal _ || _); cbn [andb]; [destruct (is_null _); cbn; [by right|exact Hs]|exact Hs].
Qed.

Lemma cancel_stopped c : stopped c → stopped (cancel_locked c).1.
Proof.
  intros Hs. unfold cancel_locked. destruct (ct_done c || _); [exact Hs|]. destruct (negb _ && negb _); [by right|by left].
Qed.

Lemma settle_frozen s c cancelled :
  stopped c → frozen s (MkInstance (in_config s) (in_mailbox s) (in_data s) (settle_event (in_counters s) cancelled) c).
Proof. by intros. Qed.

Lemma begin_stopped c : stopped c → (begin_commit_locked c).1 ≠ CFLOW_MACHINE_COMMIT_ALLOWED.
Proof. intros Hs. unfold begin_commit_locked. destruct Hs as [-> | ->]; cbn; [done|]. by rewrite orb_true_r. Qed.

Lemma cancelled_frozen s : frozen s (cancelled_locked s).1.1.
Proof. unfold cancelled_locked. rewrite take_waiters_eq. apply settle_frozen. by right. Qed.

Lemma resume_lifecycle s c step tasks :
  resume_locked s = Some (c, step, tasks) → ct_lifecycle c = ct_lifecycle (in_control s).
Proof.
  unfold resume_locked. intros Hx. destruct (ct_ready (in_control s)); try apply bind_Some in Hx as (bytes & _ & Hx);
    repeat case_match; simplify_eq; reflexivity.
Qed.

(** What the worker does with an event it holds. *)
Lemma held_frozen s s' (k : option (cflow_machine_instance_impl * list task * effect)) i tasks e :
  match settle_cancelled_in_flight s with
  | Some (s, downstream, terminal) => stay s [KWake downstream; KWake terminal; KEnd i]
  | None => k
  end = Some (s', tasks, e) → (k = Some (s', tasks, e) → frozen s s') → frozen s s'.
Proof.
  unfold settle_cancelled_in_flight. intros Hx Hk. destruct (bool_decide _); [|by apply Hk].
  pose proof (cancelled_frozen s) as Hf. destruct (cancelled_locked s) as [[s2 w1] w2]. by injection Hx as <- _ _.
Qed.

Lemma commit_frozen s s' i target action tasks :
  commit_task s i target action = Some (s', tasks) → stopped (in_control s) → frozen s s'.
Proof.
  intros Hx Hs. unfold commit_task in Hx. pose proof (begin_stopped _ Hs) as Hb.
  destruct (begin_commit_locked (in_control s)) as [[] c]; [done| |by injection Hx as <- _].
  pose proof (cancelled_frozen s) as Hf. destruct (cancelled_locked s) as [[s2 w1] w2]. by injection Hx as <- _.
Qed.

Lemma run_action_keeps cn d t error outcome d' :
  run_action cn d t error = Some (outcome, d') → da_state d' = da_state d ∧ da_state_value d' = da_state_value d.
Proof.
  unfold run_action. intros Hx. destruct (t_action t =? 0).
  - apply bind_Some in Hx as (? & _ & Hx). apply bind_Some in Hx as (? & _ & Hx). apply bind_Some in Hx as (? & _ & Hx).
    by injection Hx as <- <-.
  - apply bind_Some in Hx as (? & _ & Hx). apply bind_Some in Hx as (? & _ & Hx).
    destruct x as [[? ?]|], x0 as [[? ?]|]; try by injection Hx as <- <-.
    apply bind_Some in Hx as (? & _ & Hx). destruct (negb (ar_ok _)); by injection Hx as <- <-.
Qed.

Lemma data_frozen s d :
  stopped (in_control s) → da_state d = da_state (in_data s) → da_state_value d = da_state_value (in_data s) →
  frozen s (with_data s d).
Proof. by intros. Qed.

Lemma exec_frozen a t s s' tasks e :
  exec_task a t s = Some (s', tasks, e) → stopped (in_control s) → frozen s s'.
Proof.
  intros Hx Hs. assert (∀ c, ct_lifecycle c = ct_lifecycle (in_control s) → frozen s (with_instance_control s c)) as Hctl.
  { intros c Hc. by apply control_frozen, (same_lifecycle (in_control s)). }
  destruct t; cbn [exec_task] in Hx; unfold to_control, stay in Hx; cbn [fst snd] in Hx;
    try (injection Hx as <- _ _; by apply Hctl).
  all: try (destruct (cflow_mailbox_cancel _) as [[] ?]; by injection Hx as <- _ _).
  all: try (destruct (cflow_mailbox_wait_arm _ _) as [[] ?]; by injection Hx as <- _ _).
  - apply bind_Some in Hx as ([[? ?] ?] & _ & Hx). by injection Hx as <- _ _.
  - injection Hx as <- _ _. apply Hctl. unfold schedule_locked. by repeat case_match.
  - destruct (an_admission a); by injection Hx as <- _ _.
  - unfold fail_task, fail_locked in Hx. rewrite take_waiters_eq in Hx. injection Hx as <- _ _.
    destruct settle_current_event; [apply settle_frozen|apply control_frozen]; by right.
  - injection Hx as <- _ _. by apply control_frozen, close_stopped.
  - injection Hx as <- _ _. by apply control_frozen, cancel_stopped.
  - apply bind_Some in Hx as ([[c step] l] & Hr & Hx). injection Hx as <- _ _. apply Hctl. by eapply resume_lifecycle.
  - injection Hx as <- _ _. apply Hctl. unfold wait_arm_locked. by repeat case_match.
  - injection Hx as <- _ _. apply Hctl. unfold bind_terminal_locked. by case_match.
  - repeat case_match; injection Hx as <- _ _; [done..|by apply Hctl].
  - apply bind_Some in Hx as ([[st ev] m] & _ & Hx). apply bind_Some in Hx as ([d l] & Hd & Hx). injection Hx as <- _ _.
    assert (da_state d = da_state (in_data s) ∧ da_state_value d = da_state_value (in_data s)) as [H1 H2]; [|done].
    unfold received_tasks in Hd. destruct st; try by injection Hd as <- _. destruct ev; [|by injection Hd as <- _].
    apply bind_Some in Hd as (? & _ & Hd). by injection Hd as <- _.
  - case_match; injection Hx as <- _ _; [done|by apply Hctl].
  - unfold done_locked in Hx. rewrite take_waiters_eq in Hx. injection Hx as <- _ _. apply control_frozen. by right.
  - eapply held_frozen; [exact Hx|]. intros Hk. apply bind_Some in Hk as ([? ?] & _ & Hk). by injection Hk as <- _ _.
  - eapply held_frozen; [exact Hx|]. intros Hk. destruct selected as [[? t]|]; [|by injection Hk as <- _ _].
    apply bind_Some in Hk as ([? d] & Hr & Hk). injection Hk as <- _ _. apply run_action_keeps in Hr as [? ?].
    by apply data_frozen.
  - eapply held_frozen; [exact Hx|]. intros Hk. apply bind_Some in Hk as (? & _ & Hk). by injection Hk as <- _ _.
  - apply bind_Some in Hx as ([[? ?] ?] & _ & Hx). by injection Hx as <- _ _.
  - apply bind_Some in Hx as ([? ?] & Hc & Hx). injection Hx as <- _ _. by eapply commit_frozen.
  - injection Hx as <- _ _. apply Hctl. unfold end_locked. cbn [fst]. by case_match.
Qed.

(** *** Values and events that are handed out *)

(** A value is there for the consumer. *)
Definition value_ready c : Prop := ct_ready c = CFLOW_MACHINE_READY_VALUE ∨ ct_ready c = CFLOW_MACHINE_READY_VALUE_AND_DONE.

(** No value becomes ready, and a closed instance stays closed. *)
Definition quiet c c' : Prop := (value_ready c' → value_ready c) ∧ (ct_closed c = true → ct_closed c' = true).

Lemma quiet_same c c' : ct_ready c' = ct_ready c → ct_closed c' = ct_closed c → quiet c c'.
Proof. unfold quiet, value_ready. by intros -> ->. Qed.
Lemma quiet_over c phase ready : ready = CFLOW_MACHINE_READY_DONE ∨ ready = CFLOW_MACHINE_READY_ERROR → quiet c (set_over c phase ready).
Proof. unfold quiet, value_ready. intros [-> | ->]; by split; [intros [?|?]|]. Qed.
Lemma quiet_publish c c' : ct_ready c' = ct_ready c → ct_closed c' = true → quiet c (publish_control_terminal_locked c').
Proof. unfold quiet, value_ready, publish_control_terminal_locked. cbn. intros -> ->. split; [|done]. destruct (ct_ready c); by intros [?|?]; auto. Qed.

Lemma close_quiet c : quiet c (close_locked c).1.
Proof.
  unfold close_locked. destruct (is_terminal _ || _); cbn [andb]; [destruct (is_null _)|]; cbn; try (by split).
  by apply quiet_publish.
Qed.
Lemma cancel_quiet c : quiet c (cancel_locked c).1.
Proof. unfold cancel_locked. destruct (ct_done c || _); [by split|]. destruct (negb _ && negb _); [by apply quiet_publish|by split]. Qed.
Lemma resume_quiet s c step tasks : resume_locked s = Some (c, step, tasks) → quiet (in_control s) c.
Proof.
  unfold resume_locked, quiet, value_ready. intros Hx. destruct (ct_ready (in_control s)) eqn:Hr; try apply bind_Some in Hx as (bytes & _ & Hx);
    repeat case_match; simplify_eq; cbn; rewrite ?Hr; (split; [by intros [?|?]; auto|done]).
Qed.
Lemma cancelled_quiet s : quiet (in_control s) (in_control (cancelled_locked s).1.1).
Proof. unfold cancelled_locked. rewrite take_waiters_eq. by apply (quiet_over _ CFLOW_MACHINE_WORKER_IDLE); left. Qed.

Lemma held_quiet s s' (k : option (cflow_machine_instance_impl * list task * effect)) i tasks e :
  match settle_cancelled_in_flight s with
  | Some (s, downstream, terminal) => stay s [KWake downstream; KWake terminal; KEnd i]
  | None => k
  end = Some (s', tasks, e) → (k = Some (s', tasks, e) → quiet (in_control s) (in_control s')) → quiet (in_control s) (in_control s').
Proof.
  unfold settle_cancelled_in_flight. intros Hx Hk. destruct (bool_decide _); [|by apply Hk].
  pose proof (cancelled_quiet s) as Hf. destruct (cancelled_locked s) as [[s2 w1] w2]. by injection Hx as <- _ _.
Qed.
Lemma commit_quiet s s' i target action tasks :
  commit_task s i target action = Some (s', tasks) → stopped (in_control s) → quiet (in_control s) (in_control s').
Proof.
  intros Hx Hs. unfold commit_task in Hx. pose proof (begin_stopped _ Hs) as Hb.
  destruct (begin_commit_locked (in_control s)) as [[] c]; [done| |injection Hx as <- _; by split].
  pose proof (cancelled_quiet s) as Hf. destruct (cancelled_locked s) as [[s2 w1] w2]. by injection Hx as <- _.
Qed.

Lemma exec_quiet a t s s' tasks e :
  exec_task a t s = Some (s', tasks, e) → stopped (in_control s) → quiet (in_control s) (in_control s').
Proof.
  intros Hx Hs. destruct t; cbn [exec_task] in Hx; unfold to_control, stay in Hx; cbn [fst snd] in Hx;
    try (injection Hx as <- _ _; by apply quiet_same).
  all: try (destruct (cflow_mailbox_cancel _) as [[] ?]; injection Hx as <- _ _; by split).
  all: try (destruct (cflow_mailbox_wait_arm _ _) as [[] ?]; injection Hx as <- _ _; by split).
  - apply bind_Some in Hx as ([[? ?] ?] & _ & Hx). injection Hx as <- _ _. by split.
  - injection Hx as <- _ _. apply quiet_same; unfold schedule_locked; by repeat case_match.
  - destruct (an_admission a); injection Hx as <- _ _; by split.
  - unfold fail_task, fail_locked in Hx. rewrite take_waiters_eq in Hx. injection Hx as <- _ _. cbn.
    destruct (bool_decide _); [|destruct (is_null _)]; cbn; split; try done; intros [?|?]; done.
  - injection Hx as <- _ _. apply close_quiet.
  - injection Hx as <- _ _. apply cancel_quiet.
  - apply bind_Some in Hx as ([[c step] l] & Hr & Hx). injection Hx as <- _ _. by eapply resume_quiet.
  - injection Hx as <- _ _. apply quiet_same; unfold wait_arm_locked; by repeat case_match.
  - injection Hx as <- _ _. apply quiet_same; unfold bind_terminal_locked; by case_match.
  - repeat case_match; injection Hx as <- _ _; by split.
  - apply bind_Some in Hx as ([[st ev] m] & _ & Hx). apply bind_Some in Hx as ([d l] & _ & Hx). injection Hx as <- _ _. by split.
  - case_match; injection Hx as <- _ _; by split.
  - unfold done_locked in Hx. rewrite take_waiters_eq in Hx. injection Hx as <- _ _. by apply (quiet_over _ CFLOW_MACHINE_WORKER_IDLE); left.
  - eapply held_quiet; [exact Hx|]. intros Hk. apply bind_Some in Hk as ([? ?] & _ & Hk). injection Hk as <- _ _. by split.
  - eapply held_quiet; [exact Hx|]. intros Hk. destruct selected as [[? t]|]; [|injection Hk as <- _ _; by split].
    apply bind_Some in Hk as ([? d] & _ & Hk). injection Hk as <- _ _. by split.
  - eapply held_quiet; [exact Hx|]. intros Hk. apply bind_Some in Hk as (? & _ & Hk). injection Hk as <- _ _. by split.
  - apply bind_Some in Hx as ([[? ?] ?] & _ & Hx). injection Hx as <- _ _. by split.
  - apply bind_Some in Hx as ([? ?] & Hc & Hx). injection Hx as <- _ _. by eapply commit_quiet.
  - injection Hx as <- _ _. apply quiet_same; unfold end_locked; cbn [fst]; by case_match.
Qed.

(** The tasks that put an event of the machine into the mailbox. *)
Definition emits (t : task) : nat := match t with KEmit _ _ _ => 1 | _ => 0 end.
Definition emitting (l : list task) : nat := sum_list_with emits l.
Definition sy_emitting (sy : system) : nat := (emitting (sy_worker sy) + sum_list_with emitting (sy_callers sy))%nat.

Lemma emitting_app l1 l2 : emitting (l1 ++ l2) = (emitting l1 + emitting l2)%nat.
Proof. apply sum_list_with_app. Qed.
Lemma emitting_cons t l : emitting (t :: l) = (emits t + emitting l)%nat.
Proof. done. Qed.
Lemma emitting_wakes l : emitting (mailbox_wakes l) = 0%nat.
Proof. by induction l. Qed.

(** A task of a closed instance is not followed by an emission. *)
Lemma exec_emits a t s s' tasks e : exec_task a t s = Some (s', tasks, e) → ct_closed (in_control s) = true → emitting tasks = 0%nat.
Proof.
  intros Hx Hc. destruct t; cbn [exec_task] in Hx; unfold to_control, stay in Hx; cbn [fst snd] in Hx; try (by injection Hx as _ <- _).
  - apply bind_Some in Hx as ([[? ?] ?] & _ & Hx). injection Hx as _ <- _. apply emitting_wakes.
  - injection Hx as _ <- _. unfold schedule_locked. by repeat case_match.
  - destruct (an_admission a); by injection Hx as _ <- _.
  - destruct (cflow_mailbox_cancel _) as [[] ?]. injection Hx as _ <- _. apply emitting_wakes.
  - injection Hx as _ <- _. unfold close_locked. repeat case_match; simplify_eq; by cbn.
  - injection Hx as _ <- _. unfold cancel_locked. repeat case_match; simplify_eq; by cbn.
  - apply bind_Some in Hx as ([[c step] l] & Hr & Hx). injection Hx as _ <- _. unfold resume_locked in Hr.
    destruct (ct_ready (in_control s)); try apply bind_Some in Hr as (bytes & _ & Hr); repeat case_match; by simplify_eq.
  - injection Hx as _ <- _. unfold wait_arm_locked. by repeat case_match.
  - injection Hx as _ <- _. unfold bind_terminal_locked. by case_match.
  - repeat case_match; by injection Hx as _ <- _.
  - apply bind_Some in Hx as ([[st ev] m] & _ & Hx). apply bind_Some in Hx as ([d l] & Hd & Hx). injection Hx as _ <- _.
    unfold received_tasks in Hd. destruct st; try by injection Hd as _ <-. destruct ev; [|by injection Hd as _ <-].
    apply bind_Some in Hd as (? & _ & Hd). by injection Hd as _ <-.
  - injection Hx as _ <- _. by case_match.
  - case_match; by injection Hx as _ <- _.
  - destruct (cflow_mailbox_wait_arm _ _) as [[[] ?] ?]; injection Hx as _ <- _; [apply emitting_wakes|done].
  - unfold settle_cancelled_in_flight in Hx. destruct (bool_decide _); [destruct (cancelled_locked s) as [[? ?] ?]; by injection Hx as _ <- _|].
    apply bind_Some in Hx as ([? ?] & _ & Hx). by injection Hx as _ <- _.
  - unfold settle_cancelled_in_flight in Hx. destruct (bool_decide _); [destruct (cancelled_locked s) as [[? ?] ?]; by injection Hx as _ <- _|].
    destruct selected as [[? t]|]; [|by injection Hx as _ <- _]. apply bind_Some in Hx as ([? d] & _ & Hx). by injection Hx as _ <- _.
  - unfold settle_cancelled_in_flight in Hx. destruct (bool_decide _); [destruct (cancelled_locked s) as [[? ?] ?]; by injection Hx as _ <- _|].
    apply bind_Some in Hx as (l & Hl & Hx). injection Hx as _ <- _. unfold acted_tasks in Hl. destruct outcome; [|by injection Hl as <-].
    apply bind_Some in Hl as (? & _ & Hl). repeat case_match; by simplify_eq.
  - rewrite Hc in Hx. by injection Hx as _ <- _.
  - apply bind_Some in Hx as ([[st ?] ?] & _ & Hx). injection Hx as _ <- _. rewrite emitting_app, emitting_wakes. by destruct st.
  - apply bind_Some in Hx as ([s2 l] & Hl & Hx). injection Hx as _ <- _. unfold commit_task in Hl. destruct (begin_commit_locked _) as [[] ?].
    + apply bind_Some in Hl as ([[[? ?] ?] ?] & _ & Hl). injection Hl as _ <-. repeat case_match; done.
    + destruct (cancelled_locked s) as [[? ?] ?]. by injection Hl as _ <-.
    + by injection Hl as _ <-.
  - injection Hx as _ <- _. unfold end_locked. cbn [snd]. by case_match.
Qed.

Lemma frozen_trans s1 s2 s3 : frozen s1 s2 → frozen s2 s3 → frozen s1 s3.
Proof. unfold frozen. intros (? & ? & ? & ? & ? & ?) (? & ? & ? & ? & ? & ?). split_and!; congruence. Qed.

(** What no thread changes after a stop. *)
Record still sy sy' : Prop := {
  sl_frozen : frozen (sy_instance sy) (sy_instance sy');
  sl_quiet : quiet (in_control (sy_instance sy)) (in_control (sy_instance sy'));
  sl_emits : ct_closed (in_control (sy_instance sy)) = true → (sy_emitting sy' <= sy_emitting sy)%nat
}.

Lemma still_trans sy1 sy2 sy3 : still sy1 sy2 → still sy2 sy3 → still sy1 sy3.
Proof.
  intros [F1 [V1 C1] E1] [F2 [V2 C2] E2]. split; [by eapply frozen_trans|split; auto|]. intros Hc. specialize (E1 Hc). specialize (E2 (C1 Hc)). lia.
Qed.

Lemma still_exec sy a t s' tasks e callers worker :
  exec_task a t (sy_instance sy) = Some (s', tasks, e) → stopped (in_control (sy_instance sy)) →
  (emitting worker + sum_list_with emitting callers <= sy_emitting sy + emitting tasks)%nat →
  still sy (after sy s' e callers worker).
Proof.
  intros Hx Hs Hle. split; [by eapply exec_frozen|by eapply exec_quiet|]. intros Hc. rewrite (exec_emits _ _ _ _ _ _ Hx Hc) in Hle. change (emitting worker + sum_list_with emitting callers <= sy_emitting sy)%nat. lia.
Qed.

Lemma still_step sy sy' : stopped (in_control (sy_instance sy)) → system_step sy sy' → still sy sy'.
Proof.
  intros Hs Hst. revert Hs. destruct Hst as [sy0 t He Hr|sy0 a l1 t rest l2 s' tasks e Hc Hx|sy0 k Hw Hp|sy0 a t rest s' tasks e Hw Hx]; intros Hs.
  - split; [by repeat split|by split|]. intros _. unfold sy_emitting. cbn. destruct t; cbn; try done; lia.
  - eapply still_exec; [exact Hx|done|]. unfold sy_emitting. rewrite Hc, !sum_list_with_app. cbn [sum_list_with]. rewrite emitting_app, emitting_cons. lia.
  - split; [by repeat split|by split|]. intros _. unfold sy_emitting. cbn. lia.
  - eapply still_exec; [exact Hx|done|]. unfold sy_emitting. rewrite Hw, emitting_app, emitting_cons. lia.
Qed.

