(* ===== verification/MachineInit.v ===== *)
(** * Creating a machine instance ([cflow/src/machine_instance.c])

    [cflow_machine_instance_init] copies and checks the bindings of guards
    and actions, measures the types, creates the mailbox and the buffers, and
    publishes the instance; [cflow_machine_instance_destroy] gives everything
    back. An instance that is accepted satisfies what running relies on. *)

From Stdlib Require Import String.
From stdpp Require Import sorting.
From S2P Require Import Prelude World TypeIdentity Machine MachineBuild Mailbox MachineInstance MachineSelect MachineRun.
Local Open Scope Z_scope.

Inductive cflow_machine_instance_status :=
  | CFLOW_MACHINE_INSTANCE_OK
  | CFLOW_MACHINE_INSTANCE_INVALID_ARGUMENT
  | CFLOW_MACHINE_INSTANCE_INVALID_EXECUTOR
  | CFLOW_MACHINE_INSTANCE_BINDING_MISMATCH
  | CFLOW_MACHINE_INSTANCE_UNSUPPORTED_TYPE
  | CFLOW_MACHINE_INSTANCE_TYPE_MISMATCH
  | CFLOW_MACHINE_INSTANCE_ALLOCATION_FAILED.

#[export] Instance instance_status_eq_dec : EqDecision cflow_machine_instance_status.
Proof. solve_decision. Defined.

(** An executor: whether its object, its table and the methods in it are
    there, and its capabilities. *)
Record cflow_executor := MkExecutor {
  ex_valid : bool;
  ex_capabilities : Z
}.

Definition CMETA_EXEC_CAP_MANUAL : Z := 1.
Definition CMETA_EXEC_CAP_SERIAL : Z := 2.

Definition cflow_executor_capabilities (executor : cflow_executor) : Z :=
  if ex_valid executor then ex_capabilities executor else 0.
Definition cflow_executor_has (executor : cflow_executor) (capability : Z) : bool :=
  Z.land (cflow_executor_capabilities executor) capability =? capability.

Record cflow_machine_instance_config := MkInstanceConfig {
  ic_machine : option cflow_machine;
  ic_initial_state : option (list Z);
  ic_output_type : option cmeta_type_desc;
  ic_guards : option (list cflow_machine_guard_binding);
  ic_guard_count : Z;
  ic_actions : option (list cflow_machine_action_binding);
  ic_action_count : Z;
  ic_mailbox_capacity : Z;
  ic_executor : option cflow_executor
}.

Implicit Types (cfg : cflow_machine_instance_config).

Definition compare_guard_binding (a b : cflow_machine_guard_binding) : Z := compare_id (gb_id a) (gb_id b).
Definition compare_action_binding (a b : cflow_machine_action_binding) : Z := compare_id (ab_id a) (ab_id b).

(** Everything an instance owns, some of it still null. *)
Definition instance_impl_free (mailbox : option cflow_mailbox_impl)
    (lock error observation event target state actions guards impl : option Z) : M unit :=
  _ ← match mailbox with None => mret (Some None) | Some m => cflow_mailbox_destroy (Some (Some m)) end;
  _ ← free_ptr lock; _ ← free_ptr error; _ ← free_ptr observation; _ ← free_ptr event; _ ← free_ptr target;
  _ ← free_ptr state; _ ← free_ptr actions; _ ← free_ptr guards; free_ptr impl.

(** The rows of the bindings against those of the declarations. *)
Fixpoint bindings_match {B D} (key : B → Z) (bound : B → bool) (id : D → Z) (rows : list B) (declared : list D) :
    option bool :=
  match rows, declared with
  | [], _ => Some true
  | b :: rows, d :: declared =>
      if negb (key b =? id d) || negb (bound b) then Some false else bindings_match key bound id rows declared
  | _ :: _, [] => None
  end.

Section Init.
Context `{QSort}.

(** One of the two halves of [copy_and_validate_bindings]: the block and the
    rows in it. *)
Definition copy_bindings {B D} (cmp : B → B → Z) (key : B → Z) (bound : B → bool) (id : D → Z) (rows : option (list B))
    (count : Z) (declared : list D) : M (cflow_machine_instance_status * option Z * list B) :=
  if count =? 0 then mret (CFLOW_MACHINE_INSTANCE_OK, None, []) else
  if SIZE_MAX / 24 <? count then mret (CFLOW_MACHINE_INSTANCE_INVALID_ARGUMENT, None, []) else
  block ← malloc;
  if is_null block then mret (CFLOW_MACHINE_INSTANCE_ALLOCATION_FAILED, None, []) else
  l ← lift (rows_of rows count);
  let l := qsort cmp l in
  ok ← lift (bindings_match key bound id l declared);
  mret (if ok : bool then CFLOW_MACHINE_INSTANCE_OK else CFLOW_MACHINE_INSTANCE_BINDING_MISMATCH, block, l).

Definition copy_and_validate_bindings cfg (machine : cflow_machine_impl) :
    M (cflow_machine_instance_status * (option Z * list cflow_machine_guard_binding) *
       (option Z * list cflow_machine_action_binding)) :=
  let guard_count := i_guard_count machine in
  let action_count := i_action_count machine in
  if negb (ic_guard_count cfg =? guard_count) || negb (ic_action_count cfg =? action_count) ||
     missing guard_count (ic_guards cfg) || missing action_count (ic_actions cfg)
  then mret (CFLOW_MACHINE_INSTANCE_BINDING_MISMATCH, (None, []), (None, [])) else
  declared ← lift (rows_of (i_guards machine) guard_count);
  '(status, guards_block, guards) ← copy_bindings compare_guard_binding gb_id (λ b, negb (is_null (gb_fn b))) g_id
    (ic_guards cfg) guard_count declared;
  if negb (bool_decide (status = CFLOW_MACHINE_INSTANCE_OK)) then mret (status, (guards_block, guards), (None, [])) else
  declared ← lift (rows_of (i_actions machine) action_count);
  '(status, actions_block, actions) ← copy_bindings compare_action_binding ab_id (λ b, negb (is_null (ab_fn b))) a_id
    (ic_actions cfg) action_count declared;
  mret (status, (guards_block, guards), (actions_block, actions)).

(** The loops of [measure_supported_types]. *)
Fixpoint measure_states (states : list cflow_machine_state) (capacity : Z) : option (cflow_machine_instance_status * Z) :=
  match states with
  | [] => Some (CFLOW_MACHINE_INSTANCE_OK, capacity)
  | state :: states =>
      if negb (runtime_type_supported (s_value_type state)) then Some (CFLOW_MACHINE_INSTANCE_UNSUPPORTED_TYPE, 0) else
      type ← s_value_type state;
      measure_states states (if capacity <? td_size type then td_size type else capacity)
  end.

Fixpoint measure_actions (output_type : cmeta_type_desc) (actions : list cflow_machine_action) (capacity : Z) :
    option (cflow_machine_instance_status * Z) :=
  match actions with
  | [] => Some (CFLOW_MACHINE_INSTANCE_OK, capacity)
  | action :: actions =>
      if bool_decide (a_observation action = CFLOW_MACHINE_ACTION_VALUE) &&
         negb (cmeta_type_equal (a_output_type action) (Some output_type))
      then Some (CFLOW_MACHINE_INSTANCE_TYPE_MISMATCH, 0) else
      if bool_decide (a_observation action = CFLOW_MACHINE_ACTION_NONE) then measure_actions output_type actions capacity else
      if negb (runtime_type_supported (a_output_type action)) then Some (CFLOW_MACHINE_INSTANCE_UNSUPPORTED_TYPE, 0) else
      type ← a_output_type action;
      measure_actions output_type actions (if capacity <? td_size type then td_size type else capacity)
  end.

(** The status and the capacities for states and observations. *)
Definition measure_supported_types (output_type : cmeta_type_desc) (machine : cflow_machine_impl) :
    option (cflow_machine_instance_status * Z * Z) :=
  if negb (runtime_type_supported (Some output_type)) then Some (CFLOW_MACHINE_INSTANCE_UNSUPPORTED_TYPE, 0, 0) else
  states ← rows_of (i_states machine) (i_state_count machine);
  '(status, state_capacity) ← measure_states states 0;
  if negb (bool_decide (status = CFLOW_MACHINE_INSTANCE_OK)) then Some (status, 0, 0) else
  actions ← rows_of (i_actions machine) (i_action_count machine);
  '(status, observation_capacity) ← measure_actions output_type actions (td_size output_type);
  Some (status, state_capacity, observation_capacity).

(** [fresh]: what allocated memory holds, per block and byte. *)
Definition initialize_mailbox (fresh : Z → Z → Z) (capacity : Z) (machine : cflow_machine_impl) :
    M (cflow_machine_instance_status * option cflow_mailbox_impl) :=
  let event_count := i_event_count machine in
  if event_count =? 0 then mret (CFLOW_MACHINE_INSTANCE_OK, None) else
  if SIZE_MAX / 16 <? event_count then mret (CFLOW_MACHINE_INSTANCE_INVALID_ARGUMENT, None) else
  block ← malloc;
  if is_null block then mret (CFLOW_MACHINE_INSTANCE_ALLOCATION_FAILED, None) else
  schema ← lift (rows_of (i_events machine) event_count);
  '(status, mailbox) ← cflow_mailbox_init (fresh 0) (Some None) (Some schema) event_count capacity;
  _ ← free_ptr block;
  mret match status with
       | CFLOW_MAILBOX_OK => (CFLOW_MACHINE_INSTANCE_OK, mjoin mailbox)
       | CFLOW_MAILBOX_ALLOCATION_FAILED => (CFLOW_MACHINE_INSTANCE_ALLOCATION_FAILED, None)
       | _ => (CFLOW_MACHINE_INSTANCE_UNSUPPORTED_TYPE, None)
       end.

(** The control fields of a new instance. *)
Definition initial_control (kind : cflow_machine_state_kind) (copied : bool) : instance_control :=
  let done := negb (bool_decide (kind = CFLOW_MACHINE_STATE_ACTIVE)) in
  let error := bool_decide (kind = CFLOW_MACHINE_STATE_ERROR) in
  MkControl (if error then Some (runtime_error_text (Some "initial error state"%string) copied) else None) (error && copied)
    false false done false false
    (if done then CFLOW_MACHINE_CONTROL_TERMINAL else CFLOW_MACHINE_CONTROL_OPEN) CFLOW_MACHINE_WORKER_IDLE no_waker no_waker
    (if bool_decide (kind = CFLOW_MACHINE_STATE_DONE) then CFLOW_MACHINE_READY_DONE
     else if error then CFLOW_MACHINE_READY_ERROR else CFLOW_MACHINE_READY_NONE).

(** The buffer of a block that was just allocated. *)
Definition buffer (fresh : Z → Z) (size : Z) : list Z := fresh <$> seqZ 0 size.

Definition cflow_machine_instance_init (fresh : Z → Z → Z) (instance : option (option cflow_machine_instance_impl))
    (config : option cflow_machine_instance_config) :
    M (cflow_machine_instance_status * option (option cflow_machine_instance_impl)) :=
  let refuse status := mret (status, instance) in
  match instance, config with
  | Some None, Some cfg =>
      match machine_impl (ic_machine cfg), ic_initial_state cfg, ic_output_type cfg, ic_executor cfg with
      | Some machine, Some initial_state, Some output_type, Some executor =>
          if ic_mailbox_capacity cfg =? 0 then refuse CFLOW_MACHINE_INSTANCE_INVALID_ARGUMENT else
          if negb (ex_valid executor) || negb (cflow_executor_has executor CMETA_EXEC_CAP_SERIAL) ||
             cflow_executor_has executor CMETA_EXEC_CAP_MANUAL
          then refuse CFLOW_MACHINE_INSTANCE_INVALID_EXECUTOR else
          found ← lift (find_state machine (i_initial_state machine));
          match found with
          | None => refuse CFLOW_MACHINE_INSTANCE_INVALID_ARGUMENT
          | Some (_, initial) =>
              impl ← malloc;
              if is_null impl then refuse CFLOW_MACHINE_INSTANCE_ALLOCATION_FAILED else
              '(status, (guards_block, guards), (actions_block, actions)) ← copy_and_validate_bindings cfg machine;
              if negb (bool_decide (status = CFLOW_MACHINE_INSTANCE_OK)) then
                _ ← instance_impl_free None None None None None None None actions_block guards_block impl; refuse status else
              '(status, state_capacity, observation_capacity) ← lift (measure_supported_types output_type machine);
              if negb (bool_decide (status = CFLOW_MACHINE_INSTANCE_OK)) then
                _ ← instance_impl_free None None None None None None None actions_block guards_block impl; refuse status else
              '(status, mailbox) ← initialize_mailbox fresh (ic_mailbox_capacity cfg) machine;
              if negb (bool_decide (status = CFLOW_MACHINE_INSTANCE_OK)) then
                _ ← instance_impl_free None None None None None None None actions_block guards_block impl; refuse status else
              let event_capacity := cflow_mailbox_payload_capacity mailbox in
              state_block ← malloc; target_block ← malloc; event_block ← malloc; observation_block ← malloc;
              lock ← salts_mutex_init;
              if is_null state_block || is_null target_block || is_null event_block || is_null observation_block || is_null lock
              then
                _ ← instance_impl_free mailbox lock None observation_block event_block target_block state_block actions_block
                  guards_block impl;
                refuse CFLOW_MACHINE_INSTANCE_ALLOCATION_FAILED
              else
                size ← lift (value_size initial);
                bytes ← lift (slice initial_state 0 size);
                state_value ← lift (blit (buffer (fresh 1) state_capacity) 0 bytes);
                copy ← (if bool_decide (s_kind initial = CFLOW_MACHINE_STATE_ERROR) then malloc else mret None);
                let control := initial_control (s_kind initial) (negb (is_null copy)) in
                mret (CFLOW_MACHINE_INSTANCE_OK, Some (Some (MkInstance
                  (MkConfig machine guards actions output_type event_capacity (default 0 event_block))
                  (if ct_done control then (cflow_mailbox_cancel mailbox).1.2 else mailbox)
                  (MkData initial state_value (buffer (fresh 2) state_capacity)
                    (buffer (fresh 3) (if event_capacity =? 0 then 1 else event_capacity))
                    (buffer (fresh 4) observation_capacity))
                  (MkCounters 0 0 0 0 0 0) control)))
          end
      | _, _, _, _ => refuse CFLOW_MACHINE_INSTANCE_INVALID_ARGUMENT
      end
  | _, _ => refuse CFLOW_MACHINE_INSTANCE_INVALID_ARGUMENT
  end.
End Init.

(** The blocks an instance owns are those it was created with and the copy of
    its error; the executor is idle. *)
Definition cflow_machine_instance_destroy (instance : option (option cflow_machine_instance_impl)) :
    M (option (option cflow_machine_instance_impl)) :=
  match instance with
  | None => mret None
  | Some None => mret (Some None)
  | Some (Some s) =>
      let held (present : bool) : option Z := if present then Some 0 else None in
      _ ← instance_impl_free (in_mailbox s) (Some 0) (held (ct_error_owned (in_control s))) (Some 0) (Some 0) (Some 0) (Some 0)
        (held (negb (alen (cn_actions (in_config s)) =? 0))) (held (negb (alen (cn_guards (in_config s)) =? 0))) (Some 0);
      mret (Some None)
  end.

(** ** What is accepted *)

Definition executor_ok (executor : cflow_executor) : Prop :=
  ex_valid executor = true ∧ cflow_executor_has executor CMETA_EXEC_CAP_SERIAL = true ∧
  cflow_executor_has executor CMETA_EXEC_CAP_MANUAL = false.

(** The rows bind the declared identifiers, each once and to a function. *)
Definition binds {B D} (key : B → Z) (bound : B → bool) (id : D → Z) (rows : option (list B)) (count : Z) (declared : list D) :
    Prop :=
  count = alen declared ∧ ∃ l, rows_of rows count = Some l ∧ key <$> l ≡ₚ id <$> declared ∧ Forall (λ b, bound b = true) l.

Definition observation_supported (output_type : cmeta_type_desc) (a : cflow_machine_action) : Prop :=
  match a_observation a with
  | CFLOW_MACHINE_ACTION_NONE => True
  | CFLOW_MACHINE_ACTION_VALUE =>
      cmeta_type_equal (a_output_type a) (Some output_type) = true ∧ runtime_type_supported (a_output_type a) = true
  | _ => runtime_type_supported (a_output_type a) = true
  end.

Definition types_supported (output_type : cmeta_type_desc) (S : list cflow_machine_state) (A : list cflow_machine_action) : Prop :=
  runtime_type_supported (Some output_type) = true ∧
  Forall (λ s, runtime_type_supported (s_value_type s) = true) S ∧ Forall (observation_supported output_type) A.

Definition events_supported (E : list cflow_event_type) (capacity : Z) : Prop :=
  E = [] ∨ (schema_valid E ∧ schema_fits E capacity).

Record acceptable cfg (S : list cflow_machine_state) (E : list cflow_event_type) (G : list cflow_machine_guard)
    (A : list cflow_machine_action) (output_type : cmeta_type_desc) (executor : cflow_executor) : Prop := {
  ac_capacity : ic_mailbox_capacity cfg ≠ 0;
  ac_executor : executor_ok executor;
  ac_guards : binds gb_id (λ b, negb (is_null (gb_fn b))) g_id (ic_guards cfg) (ic_guard_count cfg) G;
  ac_actions : binds ab_id (λ b, negb (is_null (ab_fn b))) a_id (ic_actions cfg) (ic_action_count cfg) A;
  ac_types : types_supported output_type S A;
  ac_events : events_supported E (ic_mailbox_capacity cfg)
}.

(** ** Bindings *)

Lemma bindings_match_ok {B D} (key : B → Z) bound (id : D → Z) rows : ∀ declared,
  alen rows = alen declared →
  ∃ ok, bindings_match key bound id rows declared = Some ok ∧
    (ok = true ↔ key <$> rows = id <$> declared ∧ Forall (λ b, bound b = true) rows).
Proof.
  induction rows as [|b rows IH]; intros [|d declared] Hlen; unfold alen in Hlen; cbn in Hlen; try lia.
  - exists true. split; [done|]. by split.
  - cbn [bindings_match]. destruct (IH declared) as (ok & Hok & Hiff); [unfold alen; lia|].
    destruct (Z.eqb_spec (key b) (id d)) as [Hk|Hk]; cbn [negb orb]; cycle 1.
    { exists false. split; [done|]. split; [done|]. intros [[= ? _] _]. done. }
    destruct (bound b) eqn:Hb; cbn [negb]; cycle 1.
    { exists false. split; [done|]. split; [done|]. intros [_ [? _]%Forall_cons]. congruence. }
    exists ok. split; [done|]. rewrite Hiff, Forall_cons, !fmap_cons, Hk. split; [intros [-> ?]; by repeat split|].
    intros [[= ->] [_ ?]]. by split.
Qed.

Section InitBindings.
Context `{QSort} {B D : Type} (key : B → Z) (bound : B → bool) (id : D → Z).

(** Sorted bindings of the declared identifiers are those identifiers. *)
Lemma sorted_bindings (l r : list B) (declared : list D) :
  Sorted (λ x y, key x <= key y) r → r ≡ₚ l → Sorted (λ x y, id x <= id y) declared →
  key <$> r = id <$> declared ↔ key <$> l ≡ₚ id <$> declared.
Proof using Type.
  intros Hr Hp Hd. rewrite <-Hp. split; [by intros ->|]. intros Hperm.
  apply (Sorted_unique Z.le); [by apply fmap_sorted..|done].
Qed.

Lemma copy_bindings_ok rows count (declared : list D) l w :
  0 <= count <= SIZE_MAX / 24 → alen declared = count → Sorted (λ x y, id x <= id y) declared →
  rows_of rows count = Some l →
  ∃ st p r w', copy_bindings (λ a b, compare_id (key a) (key b)) key bound id rows count declared w = Some ((st, p, r), w') ∧
    w_blocks w' = w_blocks w + (if is_null p then 0 else 1) ∧ w_objects w' = w_objects w ∧
    (∀ k, supply (1 + k) w → st ≠ CFLOW_MACHINE_INSTANCE_ALLOCATION_FAILED ∧ supply k w') ∧
    match st with
    | CFLOW_MACHINE_INSTANCE_OK => key <$> r = id <$> declared ∧ r ≡ₚ l ∧ Forall (λ b, bound b = true) l ∧
        is_null p = (alen r =? 0)
    | CFLOW_MACHINE_INSTANCE_BINDING_MISMATCH => ¬ (key <$> l ≡ₚ id <$> declared ∧ Forall (λ b, bound b = true) l)
    | CFLOW_MACHINE_INSTANCE_ALLOCATION_FAILED => True
    | _ => False
    end.
Proof using Type.
  intros Hc Hlen Hs Hl. pose proof (rows_of_alen _ _ _ (proj1 Hc) Hl) as Hll. unfold copy_bindings.
  destruct (Z.eqb_spec count 0) as [E0|E0].
  { do 4 eexists. split; [reflexivity|]. cbn [is_null]. split; [lia|]. split; [done|].
    split; [intros k Hk; split; [done|]; eapply supply_weaken; [|exact Hk]; lia|].
    destruct l; [|unfold alen in *; cbn in *; lia]. destruct declared; [|unfold alen in *; cbn in *; lia].
    by repeat split. }
  rewrite (proj2 (Z.ltb_ge _ _)) by lia. destruct (malloc_ok w) as (p & w1 & E1 & Hb & Ho & Hsup). wstep E1.
  destruct (is_null p) eqn:Np.
  { do 4 eexists. split; [reflexivity|]. cbn [is_null]. split; [lia|]. split; [done|]. split; [|done].
    intros k Hk. by destruct (Hsup k Hk). }
  rewrite Hl. wrun. set (r := qsort _ l). assert (r ≡ₚ l) as Hp by apply qsort_perm.
  assert (Sorted (λ x y, key x <= key y) r) as Hr.
  { eapply Sorted_weaken; [|apply qsort_sorted, compare_id_ok]. intros x y. apply compare_id_le. }
  assert (alen r = count) as Hlr by (unfold alen in *; by rewrite Hp).
  destruct (bindings_match_ok key bound id r declared) as (ok & -> & Hok); [lia|]. wrun. do 4 eexists. split; [reflexivity|].
  rewrite Np. split; [done|]. split; [done|]. split; [intros k Hk; split; [by destruct ok|by apply Hsup]|].
  assert (Forall (λ b, bound b = true) r ↔ Forall (λ b, bound b = true) l) as Hf by by rewrite Hp.
  rewrite (sorted_bindings l r declared Hr Hp Hs) in Hok. rewrite Hf in Hok. destruct ok.
  - destruct (proj1 Hok eq_refl) as [Hk Hbd]. apply (sorted_bindings l r declared Hr Hp Hs) in Hk. split_and!; try done.
    rewrite Hlr, (proj2 (Z.eqb_neq _ _)) by done. done.
  - intros Hno. discriminate (proj2 Hok Hno).
Qed.
End InitBindings.

(** ** Types *)

Lemma supported_sized type : runtime_type_supported type = true → ∃ t, type = Some t ∧ td_size t ≠ 0.
Proof.
  unfold runtime_type_supported. intros [[_ Hs]%andb_prop _]%andb_prop. destruct type as [t|]; [|done]. exists t. split; [done|].
  apply andb_prop in Hs as [Hs _]. by apply negb_true_iff, Z.eqb_neq in Hs.
Qed.

Lemma measure_states_ok states : ∀ capacity,
  ∃ st c, measure_states states capacity = Some (st, c) ∧
  match st with
  | CFLOW_MACHINE_INSTANCE_OK => Forall (λ s, runtime_type_supported (s_value_type s) = true) states ∧ capacity <= c ∧
      Forall (λ s, ∀ t, s_value_type s = Some t → td_size t <= c) states
  | CFLOW_MACHINE_INSTANCE_UNSUPPORTED_TYPE => ¬ Forall (λ s, runtime_type_supported (s_value_type s) = true) states
  | _ => False
  end.
Proof.
  induction states as [|s states IH]; intros capacity; cbn [measure_states].
  { do 2 eexists. split; [done|]. split; [constructor|]. split; [lia|constructor]. }
  destruct (runtime_type_supported (s_value_type s)) eqn:Hs; cbn [negb]; cycle 1.
  { do 2 eexists. split; [done|]. intros [? _]%Forall_cons. congruence. }
  destruct (supported_sized _ Hs) as (t & Ht & _). rewrite Ht. cbn [mbind option_bind].
  destruct (IH (if capacity <? td_size t then td_size t else capacity)) as (st & c & -> & Hst). exists st, c. split; [done|].
  destruct st; try done.
  - destruct Hst as (H1 & H2 & H3). assert (capacity <= c ∧ td_size t <= c) as [? ?] by (destruct (Z.ltb_spec capacity (td_size t)); lia).
    split; [by constructor|]. split; [done|]. constructor; [|done]. intros t' Ht'. congruence.
  - by intros [_ ?]%Forall_cons.
Qed.

Lemma measure_actions_ok output_type actions : ∀ capacity,
  ∃ st c, measure_actions output_type actions capacity = Some (st, c) ∧
  match st with
  | CFLOW_MACHINE_INSTANCE_OK => Forall (observation_supported output_type) actions ∧ capacity <= c ∧
      Forall (λ a, ∀ t, a_observation a ≠ CFLOW_MACHINE_ACTION_NONE → a_output_type a = Some t → td_size t <= c) actions
  | CFLOW_MACHINE_INSTANCE_UNSUPPORTED_TYPE | CFLOW_MACHINE_INSTANCE_TYPE_MISMATCH =>
      ¬ Forall (observation_supported output_type) actions
  | _ => False
  end.
Proof.
  induction actions as [|a actions IH]; intros capacity; cbn [measure_actions].
  { do 2 eexists. split; [done|]. split; [constructor|]. split; [lia|constructor]. }
  assert (a_observation a ≠ CFLOW_MACHINE_ACTION_NONE →
    (observation_supported output_type a ↔ runtime_type_supported (a_output_type a) = true) →
    ∃ st c, (if negb (runtime_type_supported (a_output_type a)) then Some (CFLOW_MACHINE_INSTANCE_UNSUPPORTED_TYPE, 0) else
      type ← a_output_type a; measure_actions output_type actions (if capacity <? td_size type then td_size type else capacity))
      = Some (st, c) ∧ match st with
      | CFLOW_MACHINE_INSTANCE_OK => Forall (observation_supported output_type) (a :: actions) ∧ capacity <= c ∧
          Forall (λ a, ∀ t, a_observation a ≠ CFLOW_MACHINE_ACTION_NONE → a_output_type a = Some t → td_size t <= c) (a :: actions)
      | CFLOW_MACHINE_INSTANCE_UNSUPPORTED_TYPE | CFLOW_MACHINE_INSTANCE_TYPE_MISMATCH =>
          ¬ Forall (observation_supported output_type) (a :: actions)
      | _ => False
      end) as Hgo.
  { intros Hne Hiff. destruct (runtime_type_supported (a_output_type a)) eqn:Hs; cbn [negb]; cycle 1.
    { do 2 eexists. split; [done|]. intros [Ha%Hiff _]%Forall_cons. congruence. }
    destruct (supported_sized _ Hs) as (t & Ht & _). rewrite Ht. cbn [mbind option_bind].
    destruct (IH (if capacity <? td_size t then td_size t else capacity)) as (st & c & -> & Hst). exists st, c. split; [done|].
    destruct st; try done; [|by intros [_ ?]%Forall_cons..].
    destruct Hst as (H1 & H2 & H3). assert (capacity <= c ∧ td_size t <= c) as [? ?] by (destruct (Z.ltb_spec capacity (td_size t)); lia).
    split; [constructor; [by apply Hiff|done]|]. split; [done|]. constructor; [|done]. intros t' _ Ht'. congruence. }
  unfold observation_supported in Hgo at 1. destruct (a_observation a) eqn:Ho.
  - cbn. destruct (IH capacity) as (st & c & -> & Hst). exists st, c. split; [done|]. destruct st; try done.
    + destruct Hst as (H1 & H2 & H3). split; [constructor; [unfold observation_supported; by rewrite Ho|done]|]. split; [done|].
      constructor; [|done]. intros t Hne. congruence.
    + by intros [_ ?]%Forall_cons.
    + by intros [_ ?]%Forall_cons.
  - cbn. destruct (cmeta_type_equal (a_output_type a) (Some output_type)) eqn:He; cbn [negb]; cycle 1.
    { do 2 eexists. split; [done|]. unfold observation_supported. intros [Ha _]%Forall_cons. rewrite Ho in Ha. destruct Ha. congruence. }
    apply Hgo; [done|]. split; [by intros [_ ?]|done].
  - cbn. by apply Hgo.
  - cbn. by apply Hgo.
Qed.

(** ** The mailbox *)


Section InitMachine.
Context `{QSort}.
Context (machine : cflow_machine_impl) (S : list cflow_machine_state) (E : list cflow_event_type)
  (G : list cflow_machine_guard) (A : list cflow_machine_action) (T : list cflow_machine_transition).
Context (Hd : describes machine S E G A T) (Hwf : well_formed S (i_initial_state machine) E G A T).
Context (Hsmall : i_guard_count machine <= CFLOW_MACHINE_MAX_GUARDS ∧ i_action_count machine <= CFLOW_MACHINE_MAX_ACTIONS ∧
  i_event_count machine <= CFLOW_MACHINE_MAX_EVENTS).

Lemma initialize_mailbox_ok fresh capacity w :
  0 <= capacity → Forall row_u64 E →
  ∃ st m w', initialize_mailbox fresh capacity machine w = Some ((st, m), w') ∧ w_objects w' = w_objects w ∧
    w_blocks w' = w_blocks w + (if is_null m then 0 else 5) ∧
    (∀ k, supply (6 + k) w → st ≠ CFLOW_MACHINE_INSTANCE_ALLOCATION_FAILED ∧ supply k w') ∧
    match st with
    | CFLOW_MACHINE_INSTANCE_OK => events_supported E capacity ∧ mailbox_holds E m empty_box ∧
        cflow_mailbox_payload_capacity m = largest payload_size E
    | CFLOW_MACHINE_INSTANCE_UNSUPPORTED_TYPE => ¬ events_supported E capacity ∧ m = None
    | CFLOW_MACHINE_INSTANCE_ALLOCATION_FAILED => m = None
    | _ => False
    end.
Proof.
  intros Hcap Hu. pose proof (ds_events _ _ _ _ _ _ Hd) as Hrows. pose proof (ds_counts _ _ _ _ _ _ Hd) as (_ & Hc & _).
  pose proof (rows_of_alen _ _ _ Hc Hrows) as Hlen. unfold initialize_mailbox.
  destruct (Z.eqb_spec (i_event_count machine) 0) as [E0|E0].
  { do 3 eexists. split; [reflexivity|]. assert (E = []) as -> by (destruct E; [done|unfold alen in *; cbn in *; lia]).
    split; [done|]. split; [cbn; lia|]. split; [intros k Hk; split; [done|]; eapply supply_weaken; [|exact Hk]; lia|].
    split; [by left|]. by split. }
  rewrite (proj2 (Z.ltb_ge _ _)) by (unfold CFLOW_MACHINE_MAX_EVENTS in *; assert (1048576 <= SIZE_MAX / 16) by (vm_compute; discriminate); lia).
  destruct (malloc_ok w) as (p & w1 & E1 & Hb & Ho & Hsup). wstep E1. destruct (is_null p) eqn:Np.
  { do 3 eexists. split; [reflexivity|]. split; [done|]. split; [cbn; lia|]. split; [|done]. intros k Hk. by destruct (Hsup (5 + k)%nat Hk). }
  rewrite Hrows. wrun. assert (take (Z.to_nat (i_event_count machine)) E = E) as Etk by (apply take_ge; unfold alen in *; lia).
  destruct (init_created (fresh 0) E (i_event_count machine) capacity w1) as (st & h & w2 & E2 & Ho2 & Hcr);
    [lia|done|by rewrite Etk|]. rewrite Etk in Hcr. wstep E2. destruct p as [p|]; [|done]. cbn [free_ptr].
  assert (E ≠ []) as Hne by (intros ->; unfold alen in *; cbn in *; lia).
  assert (∀ (st : cflow_machine_instance_status) (m : option cflow_mailbox_impl), (mfree ≫= λ _, mret (st, m)) w2 =
    Some ((st, m), MkWorld (w_malloc w2) (w_blocks w2 - 1) (w_objects w2))) as Hfree by done.
  unfold created in Hcr. cbn [is_null] in Hb. destruct st; try done; rewrite Hfree; do 3 eexists; (split; [reflexivity|]); cbn [w_objects w_blocks].
  - destruct Hcr as (Hv & Hf & m & -> & Hrep & Hsch & _ & _ & Hmax & Hb2 & Hsup2 & _). cbn [mjoin option_join is_null].
    split; [lia|]. split; [lia|]. split.
    { intros k Hk. split; [done|]. eapply supply_malloc; [|apply (Hsup2 k), (Hsup (5 + k)%nat), Hk]. done. }
    split; [by right|]. split; [by split|]. exact Hmax.
  - destruct Hcr as (Hno & -> & ->). split; [lia|]. split; [cbn; lia|]. split.
    { intros k Hk. split; [done|]. eapply supply_malloc; [|eapply supply_weaken; [|apply (Hsup (5 + k)%nat), Hk]]; [done|lia]. }
    split; [|done]. by intros [?|?].
  - destruct Hcr as (Hv & Hf & -> & Hb2 & Hno). split; [lia|]. split; [cbn; lia|]. split; [|done]. intros k Hk. exfalso. apply Hno.
    eapply supply_weaken; [|apply (Hsup (5 + k)%nat), Hk]. lia.
Qed.

Lemma copy_and_validate_ok cfg w :
  array_ok (ic_guards cfg) (ic_guard_count cfg) → array_ok (ic_actions cfg) (ic_action_count cfg) →
  ∃ st gp g ap a w', copy_and_validate_bindings cfg machine w = Some ((st, (gp, g), (ap, a)), w') ∧ w_objects w' = w_objects w ∧
    w_blocks w' = w_blocks w + (if is_null gp then 0 else 1) + (if is_null ap then 0 else 1) ∧
    (∀ k, supply (2 + k) w → st ≠ CFLOW_MACHINE_INSTANCE_ALLOCATION_FAILED ∧ supply k w') ∧
    match st with
    | CFLOW_MACHINE_INSTANCE_OK =>
        binds gb_id (λ b, negb (is_null (gb_fn b))) g_id (ic_guards cfg) (ic_guard_count cfg) G ∧
        binds ab_id (λ b, negb (is_null (ab_fn b))) a_id (ic_actions cfg) (ic_action_count cfg) A ∧
        gb_id <$> g = g_id <$> G ∧ ab_id <$> a = a_id <$> A ∧
        (∃ l, rows_of (ic_guards cfg) (ic_guard_count cfg) = Some l ∧ g ≡ₚ l) ∧
        (∃ l, rows_of (ic_actions cfg) (ic_action_count cfg) = Some l ∧ a ≡ₚ l) ∧
        is_null gp = (alen g =? 0) ∧ is_null ap = (alen a =? 0)
    | CFLOW_MACHINE_INSTANCE_BINDING_MISMATCH =>
        ¬ (binds gb_id (λ b, negb (is_null (gb_fn b))) g_id (ic_guards cfg) (ic_guard_count cfg) G ∧
           binds ab_id (λ b, negb (is_null (ab_fn b))) a_id (ic_actions cfg) (ic_action_count cfg) A)
    | CFLOW_MACHINE_INSTANCE_ALLOCATION_FAILED => True
    | _ => False
    end.
Proof.
  intros Hag Haa. pose proof Hd as [(_ & _ & Hcg & Hca & _) _ _ Hrg Hra _ _ _ Hsg Hsa _].
  pose proof (rows_of_alen _ _ _ Hcg Hrg) as Hlg. pose proof (rows_of_alen _ _ _ Hca Hra) as Hla.
  assert (65536 <= SIZE_MAX / 24) as Hmax by (vm_compute; discriminate).
  unfold CFLOW_MACHINE_MAX_GUARDS, CFLOW_MACHINE_MAX_ACTIONS in Hsmall. unfold copy_and_validate_bindings.
  match goal with |- context [if ?c then mret (CFLOW_MACHINE_INSTANCE_BINDING_MISMATCH, _, _) else _] => destruct c eqn:Hc end.
  { do 6 eexists. split; [reflexivity|]. split; [done|]. split; [cbn; lia|].
    split; [intros k Hk; split; [done|]; eapply supply_weaken; [|exact Hk]; lia|].
    intros [(Eg & lg & Hg & _) (Ea & la & Ha & _)]. rewrite Eg, Ea, Hlg, Hla, !Z.eqb_refl in Hc. cbn [negb orb] in Hc.
    rewrite Eg, Hlg in Hg. rewrite Ea, Hla in Ha. unfold missing, rows_of in *.
    destruct (i_guard_count machine =? 0), (i_action_count machine =? 0), (ic_guards cfg), (ic_actions cfg); done. }
  apply orb_false_elim in Hc as [[[Eg%negb_false_iff%Z.eqb_eq Ea%negb_false_iff%Z.eqb_eq]%orb_false_elim Mg]%orb_false_elim Ma].
  rewrite <-Eg in Mg. rewrite <-Ea in Ma.
  destruct (missing_rows _ _ Hag) as [[? _]|[_ (lg & Rg)]]; [congruence|].
  destruct (missing_rows _ _ Haa) as [[? _]|[_ (la & Ra)]]; [congruence|].
  rewrite Hrg. wrun. rewrite <-Eg in *. rewrite <-Ea in *.
  destruct (copy_bindings_ok gb_id (λ b, negb (is_null (gb_fn b))) g_id (ic_guards cfg) (ic_guard_count cfg) G lg w)
    as (st1 & gp & g & w1 & E1 & Hb1 & Ho1 & Hs1 & H1); [lia|done|done|done|]. unfold compare_guard_binding. wstep E1.
  case_bool_decide as Hst; cbn [negb]; cycle 1.
  { do 6 eexists. split; [reflexivity|]. split; [done|]. split; [cbn; lia|].
    split; [intros k Hk; destruct (Hs1 (1 + k)%nat Hk); split; [done|]; eapply supply_weaken; [|done]; lia|].
    destruct st1; try done. intros [(_ & l & Hl & Hp & Hf) _]. apply H1. rewrite Rg in Hl. by simplify_eq. }
  subst st1. destruct H1 as (Hk1 & Hp1 & Hf1 & Hn1). rewrite Hra. wrun.
  destruct (copy_bindings_ok ab_id (λ b, negb (is_null (ab_fn b))) a_id (ic_actions cfg) (ic_action_count cfg) A la w1)
    as (st2 & ap & a & w2 & E2 & Hb2 & Ho2 & Hs2 & H2); [lia|done|done|done|]. unfold compare_action_binding. wstep E2.
  do 6 eexists. split; [reflexivity|]. split; [lia|]. split; [lia|].
  split; [intros k Hk; apply Hs2, (Hs1 (1 + k)%nat), Hk|].
  assert (binds gb_id (λ b, negb (is_null (gb_fn b))) g_id (ic_guards cfg) (ic_guard_count cfg) G) as Hbg.
  { split; [done|]. exists lg. split_and!; try done. by rewrite <-Hp1, Hk1. }
  destruct st2; try done.
  - destruct H2 as (Hk2 & Hp2 & Hf2 & Hn2). split; [done|]. split.
    { split; [done|]. exists la. split_and!; try done. by rewrite <-Hp2, Hk2. }
    split_and!; try done; eauto.
  - intros [_ (_ & l & Hl & Hp & Hf)]. apply H2. rewrite Ra in Hl. by simplify_eq.
Qed.

(** ** Everything that was allocated is given back *)

Definition owned {X} (p : option X) : Z := if is_null p then 0 else 1.

Lemma free_step {X Y} (p : option X) (f : unit → M Y) w :
  (free_ptr p ≫= f) w = f tt (MkWorld (w_malloc w) (w_blocks w - owned p) (w_objects w)).
Proof using Type. unfold owned. destruct p; cbn; [done|]. rewrite Z.sub_0_r. by destruct w. Qed.

Lemma impl_free_ok mailbox lock error observation event target state actions guards impl w :
  ∃ w', instance_impl_free mailbox lock error observation event target state actions guards impl w = Some (tt, w') ∧
    w_objects w' = w_objects w ∧
    w_blocks w' = w_blocks w - (if is_null mailbox then 0 else 5) - owned lock - owned error - owned observation - owned event -
      owned target - owned state - owned actions - owned guards - owned impl.
Proof using Type.
  unfold instance_impl_free.
  assert (∃ r w1, match mailbox with None => mret (Some None) | Some m => cflow_mailbox_destroy (Some (Some m)) end w =
    Some (r, w1) ∧ w_objects w1 = w_objects w ∧ w_blocks w1 = w_blocks w - (if is_null mailbox then 0 else 5)) as (r & w1 & E1 & Ho & Hb).
  { destruct mailbox as [m|]; do 2 eexists; (split; [reflexivity|]); cbn; split; done || lia. }
  wstep E1. rewrite !free_step. destruct impl; cbn; eexists; (split; [reflexivity|]); cbn; split; done || lia.
Qed.

(** ** Accepted instances are ready to run *)

(** What a caller passes: pointers that are not null, arrays with as many
    rows as said, the bytes of an initial value, actions that stay within
    their buffers; sizes are not negative, and types that compare equal have
    one size. *)
Record given cfg (output_type : cmeta_type_desc) (executor : cflow_executor) (initial_state : list Z) : Prop := {
  gv_machine : machine_impl (ic_machine cfg) = Some machine;
  gv_output : ic_output_type cfg = Some output_type;
  gv_executor : ic_executor cfg = Some executor;
  gv_initial : ic_initial_state cfg = Some initial_state;
  gv_bytes : ∀ st size, st ∈ S → s_id st = i_initial_state machine → value_size st = Some size → size <= blen initial_state;
  gv_guards : array_ok (ic_guards cfg) (ic_guard_count cfg);
  gv_actions : array_ok (ic_actions cfg) (ic_action_count cfg);
  gv_bounded : ∀ l, rows_of (ic_actions cfg) (ic_action_count cfg) = Some l → Forall action_bounded l;
  gv_capacity : 0 <= ic_mailbox_capacity cfg;
  gv_events : Forall row_u64 E;
  gv_states : Forall (λ st, ∀ t, s_value_type st = Some t → 0 <= td_size t) S;
  gv_output_size : 0 <= td_size output_type;
  gv_sizes : ∀ a e t t', a ∈ A → e ∈ E → cmeta_type_equal (Some t) (Some t') = true → e_payload_type e = Some t →
    a_output_type a = Some t' → td_size t = td_size t'
}.

Section Accept.
Context cfg output_type executor initial_state (Hgv : given cfg output_type executor initial_state).

(** The event an action emits fits the buffer of observations. *)
Lemma emitted_fits oc :
  Forall (λ a, ∀ t, a_observation a ≠ CFLOW_MACHINE_ACTION_NONE → a_output_type a = Some t → td_size t <= oc) A →
  ∀ a e t, a ∈ A → a_observation a = CFLOW_MACHINE_ACTION_EVENT → e ∈ E → e_id e = a_output_event_id a →
    e_payload_type e = Some t → td_size t <= oc.
Proof.
  intros Hoc a e t Ha Hobs He Hid Ht.
  pose proof (proj1 (Forall_forall _ _) (wf_actions _ _ _ _ _ _ Hwf) a Ha) as (_ & _ & _ & _ & _ & _ & _ & _ & _ & _ & Hok).
  unfold observation_ok in Hok. rewrite Hobs in Hok. destruct Hok as (_ & _ & e' & He' & Hid' & Heq).
  assert (e' = e) as -> by (apply (key_unique e_id E); [apply Hwf|done|done|congruence]). rewrite Ht in Heq.
  destruct (a_output_type a) as [t'|] eqn:Ht'; [|done].
  rewrite (gv_sizes _ _ _ _ Hgv a e t t' Ha He Heq Ht Ht'). rewrite Forall_forall in Hoc. apply (Hoc a Ha); [congruence|done].
Qed.

Lemma accepted_setup g a m address sc oc :
  gb_id <$> g = g_id <$> G → ab_id <$> a = a_id <$> A →
  (∃ l, rows_of (ic_guards cfg) (ic_guard_count cfg) = Some l ∧ g ≡ₚ l) →
  (∃ l, rows_of (ic_actions cfg) (ic_action_count cfg) = Some l ∧ a ≡ₚ l) →
  binds gb_id (λ b, negb (is_null (gb_fn b))) g_id (ic_guards cfg) (ic_guard_count cfg) G →
  binds ab_id (λ b, negb (is_null (ab_fn b))) a_id (ic_actions cfg) (ic_action_count cfg) A →
  types_supported output_type S A → events_supported E (ic_mailbox_capacity cfg) →
  cflow_mailbox_payload_capacity m = largest payload_size E →
  Forall (λ s, ∀ t, s_value_type s = Some t → td_size t <= sc) S → td_size output_type <= oc →
  Forall (λ a, ∀ t, a_observation a ≠ CFLOW_MACHINE_ACTION_NONE → a_output_type a = Some t → td_size t <= oc) A →
  setup_ok (MkConfig machine g a output_type (cflow_mailbox_payload_capacity m) address) S E G A T sc oc.
Proof.
  intros Hg Ha (lg & Rg & Pg) (la & Ra & Pa) (_ & lg' & Rg' & _ & Fg) (_ & la' & Ra' & _ & Fa) (Hto & Hts & _) Hev Hmx Hsc Hoc Hobs.
  assert (lg' = lg) as -> by congruence. assert (la' = la) as -> by congruence.
  split; cbn [cn_machine cn_guards cn_actions cn_output_type cn_event_capacity]; try done.
  - apply Hwf.
  - split; apply Hwf.
  - rewrite Pg, Pa. split; eapply Forall_impl; [exact Fg| |exact Fa|]; cbn beta; intros b Hb Hn; by rewrite Hn in Hb.
  - rewrite Forall_forall in Hts, Hsc |- *. intros st Hst. destruct (supported_sized _ (Hts st Hst)) as (t & Ht & Hne).
    pose proof (proj1 (Forall_forall _ _) (gv_states _ _ _ _ Hgv) st Hst t Ht). exists t. split; [done|].
    pose proof (Hsc st Hst t Ht). lia.
  - rewrite Hmx. destruct Hev as [->|[(_ & Hv & _) _]]; [constructor|]. rewrite Forall_forall in Hv |- *. intros e He.
    destruct (Hv e He) as (_ & t & Ht & _ & Hsz & _). exists t. split; [done|].
    pose proof (proj1 (Forall_forall _ _) (gv_events _ _ _ _ Hgv) e He) as [Hu _]. pose proof (largest_ge payload_size E e He) as Hge.
    assert (payload_size e = td_size t) as Es by (unfold payload_size; by rewrite Ht). rewrite Es in Hu, Hge. unfold is_u64 in Hu. lia.
  - destruct (supported_sized _ Hto) as (t & [= <-] & Hne). pose proof (gv_output_size _ _ _ _ Hgv). lia.
  - by apply emitted_fits.
  - rewrite Pa. by apply (gv_bounded _ _ _ _ Hgv).
Qed.

(** The types a machine uses are measured. *)
Lemma measure_ok :
  ∃ st sc oc, measure_supported_types output_type machine = Some (st, sc, oc) ∧
  match st with
  | CFLOW_MACHINE_INSTANCE_OK => types_supported output_type S A ∧ 0 <= sc ∧ td_size output_type <= oc ∧
      Forall (λ s, ∀ t, s_value_type s = Some t → td_size t <= sc) S ∧
      Forall (λ a, ∀ t, a_observation a ≠ CFLOW_MACHINE_ACTION_NONE → a_output_type a = Some t → td_size t <= oc) A
  | CFLOW_MACHINE_INSTANCE_UNSUPPORTED_TYPE | CFLOW_MACHINE_INSTANCE_TYPE_MISMATCH => ¬ types_supported output_type S A
  | _ => False
  end.
Proof using Hd.
  pose proof Hd as [_ Hrs _ _ Hra _ _ _ _ _ _]. unfold measure_supported_types, types_supported.
  destruct (runtime_type_supported (Some output_type)); cbn [negb]; [|by do 3 eexists; split; [done|]; intros [? _]].
  rewrite Hrs. cbn [mbind option_bind]. destruct (measure_states_ok S 0) as (st & sc & -> & Hst). cbn [mbind option_bind].
  destruct st; try done; cbn [bool_decide negb]; [|by do 3 eexists; split; [done|]; intros (_ & ? & _)].
  rewrite bool_decide_true by done. cbn [negb]. rewrite Hra. cbn [mbind option_bind].
  destruct (measure_actions_ok output_type A (td_size output_type)) as (st & oc & -> & Ha). cbn [mbind option_bind].
  do 3 eexists. split; [done|]. destruct Hst as (H1 & H2 & H3). destruct st; try done; [|by intros (_ & _ & ?)..].
  destruct Ha as (H4 & H5 & H6). by split_and!.
Qed.

Lemma buffer_blen fresh n : 0 <= n → blen (buffer fresh n) = n.
Proof using Type. intros. unfold buffer, blen. rewrite length_fmap, length_seqZ. lia. Qed.

(** What creation does. *)
Definition initialised (w : world) (st : cflow_machine_instance_status) (h : option (option cflow_machine_instance_impl))
    (w' : world) : Prop :=
  (st = CFLOW_MACHINE_INSTANCE_OK → acceptable cfg S E G A output_type executor) ∧
  (acceptable cfg S E G A output_type executor → st = CFLOW_MACHINE_INSTANCE_OK ∨ st = CFLOW_MACHINE_INSTANCE_ALLOCATION_FAILED) ∧
  (acceptable cfg S E G A output_type executor → supply 14 w → st = CFLOW_MACHINE_INSTANCE_OK) ∧
  (st = CFLOW_MACHINE_INSTANCE_OK → ∃ s sc oc b size w'', h = Some (Some s) ∧ setup_ok (in_config s) S E G A T sc oc ∧
     starts (in_config s) S E sc oc (MkSystem s [] [] 0 [] []) b ∧
     s_id (da_state (in_data s)) = i_initial_state machine ∧ value_size (da_state (in_data s)) = Some size ∧
     slice (da_state_value (in_data s)) 0 size = slice initial_state 0 size ∧
     ct_done (in_control s) = negb (bool_decide (s_kind (da_state (in_data s)) = CFLOW_MACHINE_STATE_ACTIVE)) ∧
     cflow_machine_instance_destroy h w' = Some (Some None, w'') ∧ w_blocks w'' = w_blocks w) ∧
  (st ≠ CFLOW_MACHINE_INSTANCE_OK → h = Some None ∧ w_blocks w' = w_blocks w).

(** A refusal that is final. *)
Lemma refused w st w' :
  st ≠ CFLOW_MACHINE_INSTANCE_OK → st ≠ CFLOW_MACHINE_INSTANCE_ALLOCATION_FAILED →
  ¬ acceptable cfg S E G A output_type executor → w_blocks w' = w_blocks w → initialised w st (Some None) w'.
Proof using Type. intros. unfold initialised. split_and!; by intros. Qed.

(** A refusal for want of memory. *)
Lemma starved w w' :
  (acceptable cfg S E G A output_type executor → ¬ supply 14 w) → w_blocks w' = w_blocks w →
  initialised w CFLOW_MACHINE_INSTANCE_ALLOCATION_FAILED (Some None) w'.
Proof using Type. intros Hno Hb. unfold initialised. split_and!; try (by intros); [by right|]. intros Hac Hs. by destruct (Hno Hac). Qed.

(** The instance that is published, [blocks] being what it owns besides the
    copy of its error. *)
Lemma published fresh initial size bytes state_value g a m address sc oc copied :
  initial ∈ S → s_id initial = i_initial_state machine → value_size initial = Some size →
  slice initial_state 0 size = Some bytes → blit (buffer (fresh 1) sc) 0 bytes = Some state_value →
  0 <= sc → 0 <= oc → mailbox_holds E m empty_box → cflow_mailbox_payload_capacity m = largest payload_size E →
  0 <= largest payload_size E →
  let control := initial_control (s_kind initial) copied in
  let s := MkInstance (MkConfig machine g a output_type (cflow_mailbox_payload_capacity m) address)
    (if ct_done control then (cflow_mailbox_cancel m).1.2 else m)
    (MkData initial state_value (buffer (fresh 2) sc)
      (buffer (fresh 3) (if cflow_mailbox_payload_capacity m =? 0 then 1 else cflow_mailbox_payload_capacity m))
      (buffer (fresh 4) oc)) (MkCounters 0 0 0 0 0 0) control in
  (∃ b, starts (in_config s) S E sc oc (MkSystem s [] [] 0 [] []) b) ∧
  slice (da_state_value (in_data s)) 0 size = slice initial_state 0 size ∧
  ∀ w, ∃ w', cflow_machine_instance_destroy (Some (Some s)) w = Some (Some None, w') ∧
    w_blocks w' = w_blocks w - (if is_null m then 0 else 5) - 6 -
      (if bool_decide (s_kind initial = CFLOW_MACHINE_STATE_ERROR) && copied then 1 else 0) -
      (if alen a =? 0 then 0 else 1) - (if alen g =? 0 then 0 else 1).
Proof using Type.
  intros Hin Hid Hsz Hsl Hbl Hsc Hoc Hm Hcap Hpos control s. pose proof (blit_blen _ _ _ _ Hbl) as Hlen.
  rewrite buffer_blen in Hlen by done. pose proof (slice_blen _ _ _ _ Hsl) as Hbs.
  assert (∃ m' b, (if ct_done control then (cflow_mailbox_cancel m).1.2 else m) = m' ∧ mailbox_holds E m' b ∧ bx_received b = 0 ∧
    is_null m' = is_null m) as (m' & b & Em & Hm' & Hr & Hnull).
  { destruct (ct_done control); [|by exists m, empty_box].
    destruct (cancel_holds E m empty_box Hm) as (st & m' & wakes & b & Ec & Hm' & Hr). exists m', b. rewrite Ec. split_and!; try done.
    destruct m as [m|]; [|by cbn in Ec; simplify_eq]. destruct m'; [done|]. unfold cflow_mailbox_cancel, cflow_mailbox_cancel_detach_internal in Ec.
    destruct (mb_terminal m); simplify_eq. }
  split; [|split].
  - exists b. unfold starts, s. cbn [sy_instance sy_callers sy_worker in_config in_counters co_in_flight]. rewrite Em. split_and!; try done.
    split; cbn [in_config in_data in_mailbox in_counters]; try done.
    split; cbn [da_state da_state_value da_target_value da_event_value da_observation_value]; try done.
    + by rewrite buffer_blen.
    + cbn [cn_event_capacity]. rewrite Hcap. rewrite buffer_blen; destruct (Z.eqb_spec (largest payload_size E) 0); lia.
    + by rewrite buffer_blen.
  - cbn. rewrite Hsl, <-Hbs. by apply slice_blit_same in Hbl.
  - intros w. unfold cflow_machine_instance_destroy. set (held := λ present : bool, if present then Some 0 else None).
    edestruct (impl_free_ok (in_mailbox s)) as (w' & E1 & _ & Hb). wstep E1. eexists. split; [reflexivity|]. rewrite Hb.
    unfold s. cbn [in_mailbox in_config in_control cn_actions cn_guards]. rewrite Em, Hnull. unfold owned. cbn [is_null].
    assert (ct_error_owned control = bool_decide (s_kind initial = CFLOW_MACHINE_STATE_ERROR) && copied) as -> by done.
    destruct (alen a =? 0), (alen g =? 0), (bool_decide _ && copied); cbn; lia.
Qed.

(** Blocks that are freed before a refusal. *)
Lemma freed ap gp impl w w0 (st : cflow_machine_instance_status) :
  w_blocks w = w_blocks w0 + owned gp + owned ap + owned impl →
  ∃ w', (instance_impl_free None None None None None None None ap gp impl ≫=
      λ _, mret (st, Some (@None cflow_machine_instance_impl))) w = Some ((st, Some None), w') ∧ w_blocks w' = w_blocks w0.
Proof using Type.
  intros Hb. destruct (impl_free_ok None None None None None None None ap gp impl w) as (w' & E1 & _ & Hb'). wstep E1.
  eexists. split; [reflexivity|]. cbn in Hb'. lia.
Qed.

(** The state the machine starts in. *)
Lemma initial_found : ∃ i initial, find_state machine (i_initial_state machine) = Some (Some (i, initial)) ∧ initial ∈ S ∧
  s_id initial = i_initial_state machine.
Proof using Hd Hwf.
  destruct (find_state_ok _ _ _ _ _ _ Hd (i_initial_state machine)) as (r & Hr & Hf). destruct r as [[i initial]|].
  - destruct Hf as [Hin%aget_elem Hid]. eauto.
  - destruct Hf. apply Hwf.
Qed.

(** The four buffers and the lock: [w1] before, [w6] after. *)
Lemma buffers_ok w1 :
  ∃ p1 p2 p3 p4 p5 w6, (∀ (X : Type) (f : option Z → option Z → option Z → option Z → option Z → M X),
      (a ← malloc; b ← malloc; c ← malloc; d ← malloc; e ← salts_mutex_init; f a b c d e) w1 = f p1 p2 p3 p4 p5 w6) ∧
    w_blocks w6 = w_blocks w1 + owned p1 + owned p2 + owned p3 + owned p4 + owned p5 ∧
    (supply 5 w1 → is_null p1 || is_null p2 || is_null p3 || is_null p4 || is_null p5 = false).
Proof using Type.
  destruct (malloc_ok w1) as (p1 & w2 & E1 & Hb1 & _ & S1). destruct (malloc_ok w2) as (p2 & w3 & E2 & Hb2 & _ & S2).
  destruct (malloc_ok w3) as (p3 & w4 & E3 & Hb3 & _ & S3). destruct (malloc_ok w4) as (p4 & w5 & E4 & Hb4 & _ & S4).
  destruct (malloc_ok w5) as (p5 & w6 & E5 & Hb5 & _ & S5). exists p1, p2, p3, p4, p5, w6. split; [|split].
  - intros X f. wstep E1. wstep E2. wstep E3. wstep E4. unfold salts_mutex_init. by wstep E5.
  - unfold owned. lia.
  - by intros [-> [-> [-> [-> [-> _]%(S5 0%nat)]%(S4 1%nat)]%(S3 2%nat)]%(S2 3%nat)]%(S1 4%nat).
Qed.

Lemma init_exact fresh w :
  ∃ st h w', cflow_machine_instance_init fresh (Some None) (Some cfg) w = Some ((st, h), w') ∧ initialised w st h w'.
Proof.
  unfold cflow_machine_instance_init. rewrite (gv_machine _ _ _ _ Hgv), (gv_initial _ _ _ _ Hgv), (gv_output _ _ _ _ Hgv),
    (gv_executor _ _ _ _ Hgv).
  destruct (Z.eqb_spec (ic_mailbox_capacity cfg) 0) as [Hc0|Hc0].
  { do 3 eexists. split; [reflexivity|]. apply refused; try done. by intros []. }
  destruct (negb (ex_valid executor) || negb (cflow_executor_has executor CMETA_EXEC_CAP_SERIAL) ||
    cflow_executor_has executor CMETA_EXEC_CAP_MANUAL) eqn:Hex.
  { do 3 eexists. split; [reflexivity|]. apply refused; try done. intros [_ (H1 & H2 & H3) _ _ _ _]. by rewrite H1, H2, H3 in Hex. }
  apply orb_false_elim in Hex as [[He1%negb_false_iff He2%negb_false_iff]%orb_false_elim He3].
  destruct initial_found as (i & initial & -> & Hin & Hid). wrun.
  destruct (malloc_ok w) as (impl & w1 & E1 & Hb1 & _ & Hs1). wstep E1. destruct (is_null impl) eqn:Hni.
  { do 3 eexists. split; [reflexivity|]. apply starved; [|lia]. intros _ Hs. by destruct (Hs1 13%nat Hs). }
  assert (owned impl = 1) as Hoi by (unfold owned; by rewrite Hni).
  destruct (copy_and_validate_ok cfg w1 (gv_guards _ _ _ _ Hgv) (gv_actions _ _ _ _ Hgv))
    as (st2 & gp & g & ap & a & w2 & E2 & _ & Hb2 & Hs2 & H2). wstep E2.
  fold (owned gp) (owned ap) in Hb2.
  case_bool_decide as Hst2; cbn [negb]; cycle 1.
  { destruct (freed ap gp impl w2 w st2) as (w3 & E3 & Hb3); [lia|]. do 3 eexists. split; [exact E3|].
    destruct st2; try done; [apply refused; try done; intros []; by apply H2|].
    apply starved; [|done]. intros _ Hs. by destruct (Hs2 11%nat (proj2 (Hs1 13%nat Hs))). }
  subst st2. destruct H2 as (Bg & Ba & Kg & Ka & Pg & Pa & Ng & Na).
  destruct measure_ok as (st3 & sc & oc & -> & H3). wrun. case_bool_decide as Hst3; cbn [negb]; cycle 1.
  { destruct (freed ap gp impl w2 w st3) as (w3 & E3 & Hb3); [lia|]. do 3 eexists. split; [exact E3|].
    destruct st3; try done; (apply refused; try done; by intros []). }
  subst st3. destruct H3 as (Ht & Hsc & Hoc & Hsz & Hobs).
  destruct (initialize_mailbox_ok fresh (ic_mailbox_capacity cfg) w2 (gv_capacity _ _ _ _ Hgv) (gv_events _ _ _ _ Hgv))
    as (st4 & m & w4 & E4 & _ & Hb4 & Hs4 & H4). wstep E4. case_bool_decide as Hst4; cbn [negb]; cycle 1.
  { assert (m = None) as -> by (destruct st4; try done; apply H4). cbn [is_null] in Hb4.
    destruct (freed ap gp impl w4 w st4) as (w5 & E5 & Hb5); [lia|].
    do 3 eexists. split; [exact E5|]. destruct st4; try done; [apply refused; try done; intros []; by apply H4|].
    apply starved; [|done]. intros _ Hs. by destruct (Hs4 5%nat (proj2 (Hs2 11%nat (proj2 (Hs1 13%nat Hs))))). }
  subst st4. destruct H4 as (Hev & Hm & Hmx).
  assert (acceptable cfg S E G A output_type executor) as Hac by by split.
  destruct (buffers_ok w4) as (p1 & p2 & p3 & p4 & p5 & w6 & -> & Hb6 & Hs6).
  destruct (is_null p1 || is_null p2 || is_null p3 || is_null p4 || is_null p5) eqn:Hn.
  { destruct (impl_free_ok m p5 None p4 p3 p2 p1 ap gp impl w6) as (w7 & E7 & _ & Hb7). wstep E7. do 3 eexists.
    split; [reflexivity|]. apply starved; [|cbn in Hb7; lia]. intros _ Hs.
    discriminate (Hs6 (proj2 (Hs4 5%nat (proj2 (Hs2 11%nat (proj2 (Hs1 13%nat Hs))))))). }
  apply orb_false_elim in Hn as [[[[N1 N2]%orb_false_elim N3]%orb_false_elim N4]%orb_false_elim N5].
  assert (∃ size, value_size initial = Some size ∧ 0 < size <= sc) as (size & Hvs & Hr).
  { destruct (accepted_setup g a m 0 sc oc) as [_ _ _ _ _ _ Hss _ _ _ _]; try done.
    destruct (proj1 (Forall_forall _ _) Hss initial Hin) as (t & Ht' & ?). exists (td_size t). unfold value_size. by rewrite Ht'. }
  pose proof (gv_bytes _ _ _ _ Hgv initial size Hin Hid Hvs) as Hbytes. rewrite Hvs. wrun.
  destruct (slice initial_state 0 size) as [bytes|] eqn:Esl; [|rewrite slice_in_bounds in Esl by lia; done]. wrun.
  pose proof (slice_blen _ _ _ _ Esl) as Hbl.
  destruct (blit (buffer (fresh 1) sc) 0 bytes) as [value|] eqn:Ebl;
    [|rewrite blit_in_bounds in Ebl by (rewrite ?buffer_blen by lia; lia); done]. wrun.
  assert (∃ copy w7, (if bool_decide (s_kind initial = CFLOW_MACHINE_STATE_ERROR) then malloc else mret None) w6 = Some (copy, w7) ∧
    w_blocks w7 = w_blocks w6 + (if bool_decide (s_kind initial = CFLOW_MACHINE_STATE_ERROR) && negb (is_null copy) then 1 else 0))
    as (copy & w7 & E7 & Hb7).
  { destruct (bool_decide (s_kind initial = _)); cbn [andb].
    - destruct (malloc_ok w6) as (copy & w7 & E7 & Hb7 & _). exists copy, w7. split; [done|]. by destruct (is_null copy).
    - exists None, w6. split; [done|lia]. }
  wstep E7. do 3 eexists. split; [reflexivity|].
  pose proof (gv_output_size _ _ _ _ Hgv) as Hos.
  destruct (published fresh initial size bytes value g a m (default 0 p3) sc oc (negb (is_null copy))) as ((b & Hst) & Hval & Hdes);
    try done; [lia| |].
  { apply largest_nonneg. }
  unfold initialised. split_and!; try (by intros); [by left|]. intros _. destruct (Hdes w7) as (w8 & E8 & Hb8).
  eexists _, sc, oc, b, size, w8. split; [reflexivity|]. split; [by apply accepted_setup|]. split_and!; try done.
  rewrite Hb8. unfold owned in *. rewrite N1, N2, N3, N4, N5 in Hb6. rewrite Ng, Na in Hb2. lia.
Qed.
End Accept.
End InitMachine.

(** C17. Creating an instance. For every machine that was built and every
    configuration, [cflow_machine_instance_init] accepts exactly the
    configurations that are acceptable: a serial executor, bindings that name
    every declared guard and action once with a function, types and events
    that are supported; it fails for want of memory only when one of fourteen
    allocations fails. An accepted instance is in the initial state with a
    copy of the initial value, satisfies everything running relies on, and
    its destruction gives back every block; a refusal leaves the handle empty
    and nothing allocated. *)
Theorem machine_instance_init_exact `{QSort} machine S E G A T cfg output_type executor initial_state fresh w :
  describes machine S E G A T → well_formed S (i_initial_state machine) E G A T →
  i_guard_count machine <= CFLOW_MACHINE_MAX_GUARDS ∧ i_action_count machine <= CFLOW_MACHINE_MAX_ACTIONS ∧
    i_event_count machine <= CFLOW_MACHINE_MAX_EVENTS →
  given machine S E A cfg output_type executor initial_state →
  ∃ st h w', cflow_machine_instance_init fresh (Some None) (Some cfg) w = Some ((st, h), w') ∧
    initialised machine S E G A T cfg output_type executor initial_state w st h w'.
Proof. intros. by apply init_exact. Qed.
