(* ===== verification/MachineWake.v ===== *)
(** * Waiting consumers

    A consumer that arms its waker is registered with the instance. Every
    locked section that takes the waker away has to call it; this file shows
    which do, and exactly which commits do not. *)

From Stdlib Require Import String.
From S2P Require Import Prelude World TypeIdentity Machine Mailbox MachineInstance MachineSelect MachineRun.
Local Open Scope Z_scope.

Implicit Types (s : cflow_machine_instance_impl) (c : instance_control) (w : cflow_waker).

Lemma observes_one action : observes action CFLOW_MACHINE_ACTION_EVENT = true → observes action CFLOW_MACHINE_ACTION_VALUE = true → False.
Proof. destruct action as [a|]; [|done]. cbn. rewrite !bool_decide_eq_true. congruence. Qed.

(** What an allowed commit does to the part under the lock. *)
Lemma commit_control s target action s' w1 w2 closed : commit_locked s target action = Some (s', w1, w2, closed) →
  let is_active := bool_decide (s_kind target = CFLOW_MACHINE_STATE_ACTIVE) in
  let is_done := bool_decide (s_kind target = CFLOW_MACHINE_STATE_DONE) && negb (observes action CFLOW_MACHINE_ACTION_EVENT && negb (ct_closed (in_control s))) in
  let value := observes action CFLOW_MACHINE_ACTION_VALUE in
  let waiter := ct_downstream_waiter (in_control s) in
  closed = bool_decide (ct_lifecycle (in_control s) = CFLOW_MACHINE_CONTROL_CLOSE_REQUESTED) ∧
  ct_closed (in_control s') = ct_closed (in_control s) ∧
  ct_downstream_waiter (in_control s') = (if value || is_done || (closed && is_active) then no_waker else waiter) ∧
  w1 = (if closed && is_active then (if value then no_waker else waiter) else if value || is_done then waiter else no_waker) ∧
  (w2 = ct_terminal_waiter (in_control s) ∨ w2 = no_waker).
Proof.
  unfold commit_locked, take_downstream_waiter_locked, take_terminal_waiter_locked. intros Hx.
  apply bind_Some in Hx as (size & _ & Hx). apply bind_Some in Hx as (bytes & _ & Hx). apply bind_Some in Hx as (v & _ & Hx). cbv zeta.
  pose proof (observes_one action) as Hone.
  assert (bool_decide (s_kind target = CFLOW_MACHINE_STATE_ACTIVE) = true → bool_decide (s_kind target = CFLOW_MACHINE_STATE_DONE) = true → False) as Hkind
    by (rewrite !bool_decide_eq_true; congruence).
  destruct (observes action CFLOW_MACHINE_ACTION_EVENT), (observes action CFLOW_MACHINE_ACTION_VALUE); [by destruct Hone|..].
  all: destruct (bool_decide (s_kind target = CFLOW_MACHINE_STATE_ACTIVE)), (bool_decide (s_kind target = CFLOW_MACHINE_STATE_DONE)); [by destruct Hkind|..].
  all: destruct (bool_decide (s_kind target = CFLOW_MACHINE_STATE_ERROR)), (ct_closed (in_control s)) eqn:Hcl, (ct_done (in_control s)) eqn:Hd; cbn in Hx; rewrite ?Hcl, ?Hd in Hx; cbn in Hx;
    destruct (bool_decide (ct_lifecycle (in_control s) = CFLOW_MACHINE_CONTROL_CLOSE_REQUESTED)); cbn in Hx; rewrite ?Hd in Hx; cbn in Hx; injection Hx as <- <- <- <-; cbn; rewrite ?Hcl; auto 10.
Qed.

(** ** Calls of a waker *)

#[export] Instance commit_decision_eq_dec : EqDecision cflow_machine_commit_decision.
Proof. solve_decision. Defined.

(** Whether the waker is registered, how often a thread is about to call it,
    and how often it was called. *)
Definition registered w c : nat := if decide (ct_downstream_waiter c = w) then 1 else 0.
Definition calls w (t : task) : nat := match t with KWake w' => if decide (w' = w) then 1 else 0 | _ => 0 end.
Definition pending_calls w (l : list task) : nat := sum_list_with (calls w) l.
Definition called w (l : list cflow_waker) : nat := sum_list_with (λ w', if decide (w' = w) then 1 else 0)%nat l.
Definition owed w (sy : system) : nat :=
  (registered w (in_control (sy_instance sy)) + pending_calls w (sy_worker sy) + sum_list_with (pending_calls w) (sy_callers sy) + called w (sy_woken sy))%nat.

(** The commits that take the waker and call nobody: those of a transition that
    hands out a value and enters an error state, or stays active while the
    instance is being closed. *)
Definition loses (t : task) s : bool :=
  match t with
  | KCommit _ target action =>
      bool_decide ((begin_commit_locked (in_control s)).1 = CFLOW_MACHINE_COMMIT_ALLOWED) && observes action CFLOW_MACHINE_ACTION_VALUE &&
      (bool_decide (s_kind target = CFLOW_MACHINE_STATE_ERROR) ||
       (bool_decide (s_kind target = CFLOW_MACHINE_STATE_ACTIVE) && bool_decide (ct_lifecycle (in_control s) = CFLOW_MACHINE_CONTROL_CLOSE_REQUESTED)))
  | _ => false
  end.

(** The steps that take the waker of a registered consumer away: it withdraws,
    or it is lost. *)
Definition takes_away (t : task) s : bool := match t with KWaitCancel => true | _ => loses t s end.

(** ** One task *)

(** What a task that does not take the waker away leaves behind. *)
Definition keeps w (t : task) c c' (tasks : list task) (woken : list cflow_waker) : Prop :=
  (registered w c + calls w t <= registered w c' + pending_calls w tasks + called w woken)%nat.

Lemma keeps_same w t c c' tasks woken : calls w t = 0%nat → ct_downstream_waiter c' = ct_downstream_waiter c → keeps w t c c' tasks woken.
Proof. unfold keeps, registered. intros -> ->. lia. Qed.
Lemma keeps_taken w t c c' tasks woken : calls w t = 0%nat → KWake (ct_downstream_waiter c) ∈ tasks → keeps w t c c' tasks woken.
Proof.
  unfold keeps. intros -> Hin. assert (registered w c <= pending_calls w tasks)%nat; [|lia].
  apply list_elem_of_split in Hin as (l1 & l2 & ->). unfold pending_calls. rewrite sum_list_with_app. cbn. unfold registered. lia.
Qed.

Lemma close_keeps w c : keeps w KClose c (close_locked c).1 (close_locked c).2 [].
Proof.
  unfold close_locked. destruct (is_terminal _ || _); cbn [andb]; [|by apply keeps_same].
  apply keeps_taken; [done|]. apply elem_of_app. right. destruct (is_null _); cbn; right; left.
Qed.
Lemma cancel_keeps w c : keeps w KCancel c (cancel_locked c).1 (cancel_locked c).2 [].
Proof.
  unfold cancel_locked. destruct (ct_done c || _); [by apply keeps_same|]. destruct (negb _ && negb _); [|by apply keeps_same].
  apply keeps_taken; [done|]. apply elem_of_app. right. cbn. right. left.
Qed.
Lemma held_keeps w t s s' (k : option (cflow_machine_instance_impl * list task * effect)) i tasks e : calls w t = 0%nat →
  match settle_cancelled_in_flight s with
  | Some (s, downstream, terminal) => stay s [KWake downstream; KWake terminal; KEnd i]
  | None => k
  end = Some (s', tasks, e) →
  (k = Some (s', tasks, e) → keeps w t (in_control s) (in_control s') tasks (ef_woken e)) → keeps w t (in_control s) (in_control s') tasks (ef_woken e).
Proof.
  intros Ht Hx Hk. unfold settle_cancelled_in_flight, cancelled_locked in Hx. rewrite take_waiters_eq in Hx. destruct (bool_decide _); [|by apply Hk].
  injection Hx as <- <- <-. apply keeps_taken; [done|]. cbn. left.
Qed.

Lemma commit_keeps w s i target action s' tasks : commit_task s i target action = Some (s', tasks) → loses (KCommit i target action) s = false →
  keeps w (KCommit i target action) (in_control s) (in_control s') tasks [].
Proof.
  unfold commit_task, loses. intros Hx Hl. destruct (begin_commit_locked (in_control s)) as [[] c] eqn:Hb; cbn [fst] in Hl.
  - rewrite bool_decide_true in Hl by done. cbn [andb] in Hl. apply bind_Some in Hx as ([[[s2 w1] w2] closed] & Hc & Hx). injection Hx as <- <-.
    apply commit_control in Hc as (-> & _ & Hd & -> & _). cbv zeta in Hd.
    destruct (observes action CFLOW_MACHINE_ACTION_VALUE) eqn:Hv; cbn [andb orb] in Hl, Hd.
    + apply orb_false_elim in Hl as [-> Hl]. rewrite andb_comm in Hl. rewrite Hl. cbn [orb]. apply keeps_taken; [done|]. apply elem_of_app. right. cbn. left.
    + destruct (bool_decide (s_kind target = CFLOW_MACHINE_STATE_ERROR)) eqn:He.
      * apply keeps_same; [done|]. rewrite Hd. apply bool_decide_eq_true in He.
        rewrite (bool_decide_false (s_kind target = CFLOW_MACHINE_STATE_DONE)), (bool_decide_false (s_kind target = CFLOW_MACHINE_STATE_ACTIVE)) by congruence. by rewrite andb_false_r.
      * destruct (bool_decide (ct_lifecycle (in_control s) = _) && bool_decide (s_kind target = CFLOW_MACHINE_STATE_ACTIVE)) eqn:Ha; cbn [orb] in Hd |- *.
        -- apply keeps_taken; [done|]. apply elem_of_app. right. cbn. left.
        -- destruct (bool_decide (s_kind target = CFLOW_MACHINE_STATE_DONE) && _); cbn [orb] in Hd |- *; [apply keeps_taken; [done|]; apply elem_of_app; right; cbn; left|by apply keeps_same].
  - unfold cancelled_locked in Hx. rewrite take_waiters_eq in Hx. injection Hx as <- <-. apply keeps_taken; [done|]. cbn. right. left.
  - injection Hx as <- <-. by apply keeps_same.
Qed.

Lemma commit_loses w s i target action s' tasks : commit_task s i target action = Some (s', tasks) → loses (KCommit i target action) s = true →
  wk_wake w ≠ None → ct_terminal_waiter (in_control s) ≠ w → registered w (in_control s') = 0%nat ∧ pending_calls w tasks = 0%nat.
Proof.
  unfold commit_task, loses. intros Hx Hl Hw Hterm. apply andb_prop in Hl as [Hl Hk]. apply andb_prop in Hl as [Hb Hv]. apply bool_decide_eq_true in Hb.
  destruct (begin_commit_locked (in_control s)) as [d c]. cbn [fst] in Hb. subst d. apply bind_Some in Hx as ([[[s2 w1] w2] closed] & Hc & Hx). injection Hx as <- <-.
  apply commit_control in Hc as (-> & _ & Hd & -> & H2). cbv zeta in Hd. rewrite Hv in Hd |- *. cbn [orb] in Hd |- *.
  assert (no_waker ≠ w) as Hno by (by intros <-). assert (w2 ≠ w) as Hw2 by (by destruct H2 as [-> | ->]).
  split; [unfold registered; rewrite Hd; by rewrite decide_False|]. destruct (bool_decide (s_kind target = CFLOW_MACHINE_STATE_ERROR)); [done|].
  cbn [orb] in Hk. apply andb_prop in Hk as [-> ->]. cbn [andb negb]. destruct (bool_decide (s_kind target = CFLOW_MACHINE_STATE_DONE)); cbn; by rewrite !decide_False.
Qed.

(** Every task but those that take the waker away. *)
Lemma exec_keeps a t s s' tasks e w :
  exec_task a t s = Some (s', tasks, e) → wk_wake w ≠ None → takes_away t s = false → keeps w t (in_control s) (in_control s') tasks (ef_woken e).
Proof.
  intros Hx Hw Ht. destruct t; cbn [exec_task takes_away] in Hx, Ht; unfold to_control, stay in Hx; cbn [fst snd] in Hx; try discriminate Ht;
    try (injection Hx as <- <- <-; by apply keeps_same).
  all: try (destruct (cflow_mailbox_cancel _) as [[] ?]; injection Hx as <- <- <-; by apply keeps_same).
  all: try (destruct (cflow_mailbox_wait_arm _ _) as [[] ?]; injection Hx as <- <- <-; by apply keeps_same).
  - apply bind_Some in Hx as ([[? ?] ?] & _ & Hx). injection Hx as <- <- <-. by apply keeps_same.
  - injection Hx as <- <- <-. apply keeps_same; [done|]. unfold schedule_locked; by repeat case_match.
  - destruct (an_admission a); injection Hx as <- <- <-; by apply keeps_same.
  - unfold fail_task, fail_locked in Hx. rewrite take_waiters_eq in Hx. injection Hx as <- <- <-. apply keeps_taken; [done|]. cbn.
    destruct (negb _ && _); cbn; right; left.
  - injection Hx as <- <- <-. unfold keeps, called, cflow_waker_invoke. cbn. destruct (decide (waker = w)) as [->|]; [|lia].
    destruct (is_null (wk_wake w)) eqn:Hn; [by destruct (wk_wake w)|]. cbn. rewrite decide_True by done. lia.
  - injection Hx as <- <- <-. apply close_keeps.
  - injection Hx as <- <- <-. apply cancel_keeps.
  - apply bind_Some in Hx as ([[c step] l] & Hr & Hx). injection Hx as <- <- <-. apply keeps_same; [done|]. unfold resume_locked in Hr.
    destruct (ct_ready (in_control s)); try apply bind_Some in Hr as (bytes & _ & Hr); repeat case_match; by simplify_eq.
  - injection Hx as <- <- <-. unfold wait_arm_locked. destruct (is_null (wk_wake waker)) eqn:Hn; [by apply keeps_same|]. destruct (is_settled _); [by apply keeps_same|].
    destruct (is_null (wk_wake (ct_downstream_waiter (in_control s)))) eqn:Hd; [|by apply keeps_same]. unfold keeps, registered. cbn.
    rewrite (decide_False (P := ct_downstream_waiter (in_control s) = w)); [lia|]. intros <-. by destruct (wk_wake _).
  - injection Hx as <- <- <-. apply keeps_same; [done|]. unfold bind_terminal_locked; by case_match.
  - repeat case_match; injection Hx as <- <- <-; by apply keeps_same.
  - apply bind_Some in Hx as ([[st ev] m] & _ & Hx). apply bind_Some in Hx as ([d l] & _ & Hx). injection Hx as <- <- <-. by apply keeps_same.
  - case_match; injection Hx as <- <- <-; by apply keeps_same.
  - unfold done_locked in Hx. rewrite take_waiters_eq in Hx. injection Hx as <- <- <-. apply keeps_taken; [done|]. cbn. right. left.
  - eapply held_keeps; [done|exact Hx|]. intros Hk. apply bind_Some in Hk as ([? ?] & _ & Hk). injection Hk as <- <- <-. by apply keeps_same.
  - eapply held_keeps; [done|exact Hx|]. intros Hk. destruct selected as [[? t]|]; [|injection Hk as <- <- <-; by apply keeps_same].
    apply bind_Some in Hk as ([? d] & _ & Hk). injection Hk as <- <- <-. by apply keeps_same.
  - eapply held_keeps; [done|exact Hx|]. intros Hk. apply bind_Some in Hk as (? & _ & Hk). injection Hk as <- <- <-. by apply keeps_same.
  - apply bind_Some in Hx as ([[? ?] ?] & _ & Hx). injection Hx as <- <- <-. by apply keeps_same.
  - apply bind_Some in Hx as ([? ?] & Hc & Hx). injection Hx as <- <- <-. by eapply commit_keeps.
  - injection Hx as <- <- <-. apply keeps_same; [done|]. unfold end_locked; cbn [fst]; by case_match.
Qed.

(** ** Every interleaving *)

(** The step in which a thread runs the task [t]. *)
Inductive runs (t : task) (sy : system) : system → Prop :=
  | runs_caller a l1 rest l2 s' tasks e :
      sy_callers sy = l1 ++ (t :: rest) :: l2 → exec_task a t (sy_instance sy) = Some (s', tasks, e) →
      runs t sy (after sy s' e (l1 ++ (tasks ++ rest) :: l2) (sy_worker sy))
  | runs_worker a rest s' tasks e :
      sy_worker sy = t :: rest → exec_task a t (sy_instance sy) = Some (s', tasks, e) →
      runs t sy (after sy s' e (sy_callers sy) (tasks ++ rest)).

(** The consumer is registered and the step takes its waker away. *)
Definition withdrawn_or_lost w sy sy' : Prop :=
  ct_downstream_waiter (in_control (sy_instance sy)) = w ∧ ∃ t, runs t sy sy' ∧ takes_away t (sy_instance sy) = true.

Lemma called_app w l1 l2 : called w (l1 ++ l2) = (called w l1 + called w l2)%nat.
Proof. apply sum_list_with_app. Qed.

Lemma pending_app w l1 l2 : pending_calls w (l1 ++ l2) = (pending_calls w l1 + pending_calls w l2)%nat.
Proof. apply sum_list_with_app. Qed.
Lemma pending_cons w t l : pending_calls w (t :: l) = (calls w t + pending_calls w l)%nat.
Proof. done. Qed.

(** What a step owes, from what its task owes. *)
Lemma runs_owed t sy sy' w : runs t sy sy' → ∃ a s' tasks e, exec_task a t (sy_instance sy) = Some (s', tasks, e) ∧ sy_instance sy' = s' ∧ ∃ others,
  owed w sy = (others + registered w (in_control (sy_instance sy)) + calls w t)%nat ∧
  owed w sy' = (others + registered w (in_control s') + pending_calls w tasks + called w (ef_woken e))%nat.
Proof.
  intros [a l1 rest l2 s' tasks e Hc Hx|a rest s' tasks e Hw Hx]; exists a, s', tasks, e; (split; [done|]; split; [done|]); unfold owed; cbn [after sy_instance sy_worker sy_callers sy_woken].
  - exists (pending_calls w (sy_worker sy) + (sum_list_with (pending_calls w) l1 + (pending_calls w rest + sum_list_with (pending_calls w) l2)) + called w (sy_woken sy))%nat.
    rewrite Hc, !sum_list_with_app, called_app. cbn [sum_list_with]. rewrite pending_app, pending_cons. lia.
  - exists (pending_calls w rest + sum_list_with (pending_calls w) (sy_callers sy) + called w (sy_woken sy))%nat.
    rewrite Hw, called_app, pending_app, pending_cons. lia.
Qed.

Lemma step_owed sy sy' w : wk_wake w ≠ None → system_step sy sy' → (owed w sy <= owed w sy')%nat ∨ withdrawn_or_lost w sy sy'.
Proof.
  intros Hw Hst. assert ((owed w sy <= owed w sy')%nat ∨ ∃ t, runs t sy sy') as [H|[t Hr]].
  { destruct Hst as [sy t He Hr|sy a l1 t rest l2 s' tasks e Hc Hx|sy k Hw' Hp|sy a t rest s' tasks e Hw' Hx].
    - left. unfold owed. cbn. destruct t; cbn; try done; lia.
    - right. exists t. by econstructor.
    - left. unfold owed. cbn [sy_instance sy_worker sy_callers sy_woken]. rewrite Hw'. apply le_n.
    - right. exists t. by econstructor. }
  { by left. }
  destruct (runs_owed t sy sy' w Hr) as (a & s' & tasks & e & Hx & _ & others & E1 & E2).
  destruct (takes_away t (sy_instance sy)) eqn:Ht.
  - destruct (decide (ct_downstream_waiter (in_control (sy_instance sy)) = w)) as [Hd|Hd]; [right; split; [done|by exists t]|left].
    rewrite E1, E2. unfold registered at 1. rewrite decide_False by done. destruct t; cbn in Ht |- *; try discriminate Ht; lia.
  - left. pose proof (exec_keeps _ _ _ _ _ _ w Hx Hw Ht) as Hk. unfold keeps in Hk. lia.
Qed.

(** C19. A consumer that waits is called, with two exceptions. Whatever the
    threads do, what the instance owes a waker (its registration, the calls
    that threads are about to make, and the calls that were made) never
    becomes less, unless a step takes the waker of a registered consumer away:
    the consumer withdraws it, or the worker commits a transition that hands
    out a value and either enters an error state or stays active while the
    instance is being closed. In the latter two cases the waker is lost: it is
    not registered any more, and the step neither calls it nor leaves its call
    to anybody, so that one call less is owed (a waker that waits for the end of
    the instance as well is set apart: it is still called as such). *)
Theorem instance_waiter_exact w : wk_wake w ≠ None →
  (∀ sy sy', rtc (λ x y, system_step x y ∧ ¬ withdrawn_or_lost w x y) sy sy' → (owed w sy <= owed w sy')%nat) ∧
  (∀ t sy sy', runs t sy sy' → loses t (sy_instance sy) = true →
     ct_downstream_waiter (in_control (sy_instance sy)) = w → ct_terminal_waiter (in_control (sy_instance sy)) ≠ w →
     ct_downstream_waiter (in_control (sy_instance sy')) ≠ w ∧ owed w sy = S (owed w sy')).
Proof.
  intros Hw. split.
  - intros sy sy' Hr. induction Hr as [|sy1 sy2 sy3 [Hst Hno] _ IH]; [done|]. destruct (step_owed _ _ _ Hw Hst) as [H|H]; [lia|done].
  - intros t sy sy' Hr Hl Hd Hterm. destruct (runs_owed t sy sy' w Hr) as (a & s' & tasks & e & Hx & Hs' & others & E1 & E2). destruct t; try discriminate Hl.
    cbn [exec_task] in Hx. apply bind_Some in Hx as ([s2 l] & Hc & Hx). injection Hx as <- <- <-.
    destruct (commit_loses w _ _ _ _ _ _ Hc Hl Hw Hterm) as [H1 H2]. rewrite Hs', E1, E2, H1, H2. unfold registered in H1 |- *. rewrite (decide_True (P := _ = w)) by done.
    split; [by case_decide|]. cbn. lia.
Qed.
