(* ===== verification/MachineExample.v ===== *)
(** * An instance that runs

    A counter that hands out values until its guard holds, executable
    schedules of its threads, and a schedule in which a consumer that waits
    is never woken. *)

From Stdlib Require Import String.
From stdpp Require Import sorting.
From S2P Require Import Prelude World TypeIdentity Machine MachineBuild Mailbox MachineInstance MachineSelect MachineRun MachineInit MachineWake.
Local Open Scope Z_scope.

(** ** Schedules *)

(** Who goes on: a thread that calls, one of the callers, the executor, the
    worker. *)
Inductive turn_of := Enter (t : task) | Caller (k : nat) | Start | Work.

(** The payload of a send has the bytes its row asks for. *)
Definition readable_b (s : cflow_machine_instance_impl) (t : task) : bool :=
  match t, in_mailbox s with
  | KSend event, Some m =>
      match v_payload event, List.find (λ row, e_id row =? v_id event) (mb_schema m) with
      | Some payload, Some row =>
          match e_payload_type row with Some type => td_size type <=? blen payload | None => true end
      | _, _ => true
      end
  | _, _ => true
  end.

Definition entry_b (t : task) : bool :=
  match t with
  | KSend _ | KClose | KCancel | KResume | KWaitArm _ | KWaitCancel | KBindTerminal _ => true
  | _ => false
  end.

(** The executor accepts and there is memory. *)
Definition willing : answers := MkAnswers CFLOW_ADMISSION_ACCEPTED true.

Definition play (sy : system) (c : turn_of) : option system :=
  match c with
  | Enter t =>
      if entry_b t && readable_b (sy_instance sy) t
      then Some (MkSystem (sy_instance sy) ([t] :: sy_callers sy) (sy_worker sy) (sy_posted sy) (sy_steps sy) (sy_woken sy))
      else None
  | Caller k =>
      match sy_callers sy !! k with
      | Some (t :: rest) =>
          '(s', tasks, e) ← exec_task willing t (sy_instance sy);
          Some (after sy s' e (take k (sy_callers sy) ++ (tasks ++ rest) :: drop (S k) (sy_callers sy)) (sy_worker sy))
      | _ => None
      end
  | Start =>
      match sy_worker sy, sy_posted sy with
      | [], S k => Some (MkSystem (sy_instance sy) (sy_callers sy) [KWorker] k (sy_steps sy) (sy_woken sy))
      | _, _ => None
      end
  | Work =>
      match sy_worker sy with
      | t :: rest =>
          '(s', tasks, e) ← exec_task willing t (sy_instance sy); Some (after sy s' e (sy_callers sy) (tasks ++ rest))
      | [] => None
      end
  end.

Fixpoint plays (schedule : list turn_of) (sy : system) : option system :=
  match schedule with
  | [] => Some sy
  | c :: schedule => sy' ← play sy c; plays schedule sy'
  end.

Lemma readable_b_ok s t : readable_b s t = true → readable s t.
Proof.
  unfold readable_b, readable. destruct t; try done. destruct (in_mailbox s) as [m|]; [|done].
  intros Hb payload row type Hp Hf Ht. rewrite Hp, Hf, Ht in Hb. by apply Z.leb_le.
Qed.

Lemma play_step sy c sy' : play sy c = Some sy' → system_step sy sy'.
Proof.
  destruct c as [t|k| |]; cbn [play]; intros Hp.
  - destruct (entry_b t && _) eqn:Hb; [|done]. apply andb_prop in Hb as [He Hr]. injection Hp as <-.
    apply step_enter; [by destruct t|by apply readable_b_ok].
  - destruct (sy_callers sy !! k) as [[|t rest]|] eqn:Hk; [done| |done].
    apply bind_Some in Hp as ([[s' tasks] e] & Hx & [= <-]).
    eapply step_caller; [|exact Hx]. symmetry. by apply take_drop_middle.
  - destruct (sy_worker sy) eqn:Hw; [|done]. destruct (sy_posted sy) eqn:Hk; [done|]. injection Hp as <-. by apply step_start.
  - destruct (sy_worker sy) as [|t rest] eqn:Hw; [done|]. apply bind_Some in Hp as ([[s' tasks] e] & Hx & [= <-]).
    by eapply step_worker.
Qed.

Lemma plays_steps schedule : ∀ sy sy', plays schedule sy = Some sy' → rtc system_step sy sy'.
Proof.
  induction schedule as [|c schedule IH]; intros sy sy' Hp; cbn [plays] in Hp; [by injection Hp as <-|].
  apply bind_Some in Hp as (sy1 & H1 & Hp). eapply rtc_l; [by eapply play_step|by apply IH].
Qed.

(** ** A counter *)

Module ExampleInstance.
Import ExampleTypes.

Definition int_type : cmeta_type_desc := int_desc 10 1.
Definition states : list cflow_machine_state :=
  [MkState 1 (Some int_type) CFLOW_MACHINE_STATE_ACTIVE; MkState 2 (Some int_type) CFLOW_MACHINE_STATE_DONE].
Definition events : list cflow_event_type := [MkEvent 10 (Some int_type)].
Definition guards : list cflow_machine_guard := [MkGuard 5 (Some int_type) 10 (Some int_type) CMETA_EFFECT_PURE 11].
Definition actions : list cflow_machine_action :=
  [MkAction 7 (Some int_type) 10 (Some int_type) (Some int_type) 0 9 CFLOW_MACHINE_ACTION_VALUE (Some int_type) 0].
Definition transitions : list cflow_machine_transition := [MkTransition 1 10 5 0 2 0; MkTransition 1 10 0 7 1 1].

Definition machine : cflow_machine_impl :=
  MkImpl (Some states) 2 1 (Some events) 1 (Some guards) 1 (Some actions) 1 (Some transitions) 2.

(** The guard holds for an event of zeros; the action adds the event to the
    state, byte by byte, and hands the result out. *)
Definition is_zero : list Z → list Z → guard_report := λ _ event, MkGuardReport true (forallb (Z.eqb 0) event) None.
Definition add_bytes (state event target : list Z) : list Z :=
  (λ i, match state !! i, event !! i with Some x, Some y => (x + y) mod 256 | _, _ => 0 end) <$> seq 0 (length target).
Definition add : list Z → list Z → list Z → option (list Z) → action_report := λ state event target observation,
  MkActionReport true (add_bytes state event target)
    (match observation with Some o => add_bytes state event o | None => [] end) None.

Definition cfg : cflow_machine_instance_config :=
  MkInstanceConfig (Some (Some machine)) (Some [1; 0; 0; 0]) (Some int_type) (Some [MkGuardBinding 5 (Some is_zero)]) 1
    (Some [MkActionBinding 7 (Some add)]) 1 2 (Some (MkExecutor true CMETA_EXEC_CAP_SERIAL)).

Lemma describes_machine : describes machine states events guards actions transitions.
Proof. split; try (by vm_compute); repeat constructor; vm_compute; congruence. Qed.

Lemma machine_well_formed : well_formed states (i_initial_state machine) events guards actions transitions.
Proof.
  assert (event_typed events 10 (Some int_type)) as Hev.
  { exists (MkEvent 10 (Some int_type)). split; [constructor|]. split; by vm_compute. }
  assert (reaches transitions 1 1) as H1 by constructor.
  split.
  - constructor; [|constructor; [|constructor]]; (split; [done|]); (split; [by vm_compute|]); unfold known_kind; auto.
  - by_eval.
  - by_eval.
  - repeat constructor; by vm_compute.
  - by_eval.
  - constructor; [|constructor]. by repeat split.
  - by_eval.
  - constructor; [|constructor]. repeat split; try done. by left.
  - by_eval.
  - repeat constructor.
    + exists (MkState 1 (Some int_type) CFLOW_MACHINE_STATE_ACTIVE), (MkState 2 (Some int_type) CFLOW_MACHINE_STATE_DONE),
        (MkEvent 10 (Some int_type)). split_and!; try done; [constructor|repeat constructor|constructor| |left; by vm_compute].
      right. exists (MkGuard 5 (Some int_type) 10 (Some int_type) CMETA_EFFECT_PURE 11). split_and!; try done. constructor.
    + exists (MkState 1 (Some int_type) CFLOW_MACHINE_STATE_ACTIVE), (MkState 1 (Some int_type) CFLOW_MACHINE_STATE_ACTIVE),
        (MkEvent 10 (Some int_type)). split_and!; try done; [constructor|constructor|constructor|by left|right].
      split; [done|]. eexists. split_and!; [constructor|..]; done.
  - by_eval.
  - intros s [->|[->|[]%elem_of_nil]%elem_of_cons]%elem_of_cons; [exact H1|].
    apply (reaches_step transitions 1 (MkTransition 1 10 5 0 2 0)); [constructor|exact H1].
  - intros g [->|[]%elem_of_nil]%elem_of_cons. eexists. split; [constructor|done].
  - intros a [->|[]%elem_of_nil]%elem_of_cons. eexists. split; [constructor; constructor|done].
Qed.

Lemma cfg_given : given machine states events actions cfg int_type (MkExecutor true CMETA_EXEC_CAP_SERIAL) [1; 0; 0; 0].
Proof.
  split; try done.
  - intros st size [->|[->|[]%elem_of_nil]%elem_of_cons]%elem_of_cons _ [= <-]; by vm_compute.
  - split; [done|]. intros l [= <-]. by vm_compute.
  - split; [done|]. intros l [= <-]. by vm_compute.
  - intros l [= <-]. constructor; [|constructor]. intros fn [= <-] state event target observation.
    unfold blen. cbn. unfold add_bytes. rewrite length_fmap, length_seq. split; [done|]. intros o ->.
    by rewrite length_fmap, length_seq.
  - repeat constructor; by vm_compute.
  - constructor; [|constructor; [|constructor]]; intros t [= <-]; by vm_compute.
  - intros a e t t' [->|[]%elem_of_nil]%elem_of_cons [->|[]%elem_of_nil]%elem_of_cons _ [= <-] [= <-]. done.
Qed.

(** The sort of the example, and what it makes of the configuration. *)
#[export] Instance cmp_decision {X} (cmp : X → X → Z) x y : Decision (cmp x y <= 0).
Proof. apply _. Defined.

#[export] Program Instance example_qsort : QSort := {|
  qsort X cmp l := merge_sort (λ x y, cmp x y <= 0) l
|}.
Next Obligation. intros X cmp l. apply merge_sort_Permutation. Qed.
Next Obligation. intros X cmp l Hcmp. apply Sorted_merge_sort. intros x y. apply Hcmp. Qed.

Definition blocks (k : nat) : world := MkWorld (replicate k (Some 64)) 0 0.

Example accepted :
  (λ r, (fst (fst r), w_blocks (snd r))) <$> cflow_machine_instance_init (λ _ _, 0) (Some None) (Some cfg) (blocks 14) =
  Some (CFLOW_MACHINE_INSTANCE_OK, 13).
Proof. vm_compute. reflexivity. Qed.

Example out_of_memory :
  (λ r, (fst (fst r), w_blocks (snd r))) <$> cflow_machine_instance_init (λ _ _, 0) (Some None) (Some cfg) (blocks 12) =
  Some (CFLOW_MACHINE_INSTANCE_ALLOCATION_FAILED, 0).
Proof. vm_compute. reflexivity. Qed.

(** The instance as it is created, with the mailbox of two cells. *)
Definition config : instance_config :=
  MkConfig machine [MkGuardBinding 5 (Some is_zero)] [MkActionBinding 7 (Some add)] int_type 4 64.
Definition mailbox : cflow_mailbox_impl :=
  MkMailbox events [0; 0] (replicate 8 0) 1 2 4 4 8 0 0 0 0 0 0 0 0 0 CFLOW_MAILBOX_TERMINAL_OPEN no_waker.
Definition instance : cflow_machine_instance_impl :=
  MkInstance config (Some mailbox)
    (MkData (MkState 1 (Some int_type) CFLOW_MACHINE_STATE_ACTIVE) [1; 0; 0; 0] [0; 0; 0; 0] [0; 0; 0; 0] [0; 0; 0; 0])
    (MkCounters 0 0 0 0 0 0) (initial_control CFLOW_MACHINE_STATE_ACTIVE false).
Definition fresh_system : system := MkSystem instance [] [] 0 [] [].

Lemma created_instance :
  (λ r, snd (fst r)) <$> cflow_machine_instance_init (λ _ _, 0) (Some None) (Some cfg) (blocks 14) = Some (Some (Some instance)).
Proof. vm_compute. reflexivity. Qed.

Lemma instance_ready : ∃ sc oc b, setup_ok config states events guards actions transitions sc oc ∧
  starts config states events sc oc fresh_system b.
Proof.
  destruct (init_exact machine states events guards actions transitions describes_machine machine_well_formed ltac:(by vm_compute)
    cfg int_type (MkExecutor true CMETA_EXEC_CAP_SERIAL) [1; 0; 0; 0] cfg_given (λ _ _, 0) (blocks 14)) as (st & h & w' & Hi & Hr).
  pose proof accepted as Ha. pose proof created_instance as Hc. rewrite Hi in Ha, Hc. cbn in Ha, Hc. injection Ha as -> _.
  injection Hc as ->. destruct Hr as (_ & _ & _ & Hok & _).
  destruct (Hok eq_refl) as (s & sc & oc & b & size & w'' & [= <-] & Hsu & Hst & _). by exists sc, oc, b.
Qed.

(** An event that is added, and one that ends the machine. *)
Definition event (bytes : list Z) : task := KSend (MkView 10 (Some int_type) (Some bytes)).
Definition consumer : cflow_waker := MkWaker (Some 9) 0.

(** An event is sent, the consumer asks for a value and waits, the worker
    runs up to the commit, commits and ends; the consumer takes its value. *)
Definition up_to_commit : list turn_of :=
  [Enter (event [2; 0; 0; 0]); Caller 0; Enter KResume; Caller 0; Caller 0; Caller 0; Enter (KWaitArm consumer); Caller 0;
   Start; Work; Work; Work; Work; Work; Work; Work].
Definition one_value : list turn_of := up_to_commit ++ [Work; Work; Work; Work; Enter KResume; Caller 0].

Example one_value_runs :
  (λ sy, (sy_steps sy, sy_woken sy, da_state_value (in_data (sy_instance sy)), co_completed (in_counters (sy_instance sy)))) <$>
    plays one_value fresh_system = Some ([CFLOW_STEP_VALUE [3; 0; 0; 0]], [consumer], [3; 0; 0; 0], 1).
Proof. vm_compute. reflexivity. Qed.

(** The same, but the instance is closed while the action runs; then the worker
    commits and ends. *)
Definition before_loss : list turn_of := up_to_commit ++ [Enter KClose; Caller 0; Caller 0; Caller 0; Caller 0].
Definition after_loss : list turn_of := [Work; Work; Work; Work].

Definition played (schedule : list turn_of) : system := default fresh_system (plays schedule fresh_system).

Lemma played_reached schedule : is_Some (plays schedule fresh_system) → rtc system_step fresh_system (played schedule).
Proof. intros [sy Hsy]. unfold played. rewrite Hsy. by apply (plays_steps schedule). Qed.

End ExampleInstance.

Import ExampleInstance.

Lemma machine_select_exact_witness :
  ∃ r err, select_transition config (in_data instance) 10 = Some (r, err) ∧
    match r with Some (i, t) => t_target t = 2 | None => False end.
Proof.
  destruct instance_ready as (sc & oc & b & Hsu & _).
  destruct (machine_select_exact config states events guards actions transitions sc oc Hsu (in_data instance) 10)
    as (r & err & Hx & Hr). exists r, err. split; [exact Hx|]. vm_compute in Hx. injection Hx as <- _. reflexivity.
Defined.

(** After the consumer has taken the value: one event, completed. *)
Lemma one_value_reached : rtc system_step fresh_system (played one_value).
Proof. apply played_reached. eexists. vm_compute. reflexivity. Qed.

Lemma instance_accounts_witness :
  ∃ stats, cflow_machine_instance_get_stats (sy_instance (played one_value)) (sy_instance (played one_value)) = Some stats ∧
    is_completed stats = 1 ∧ 0 <= is_in_flight stats <= work hand (sy_worker (played one_value)).
Proof.
  destruct instance_ready as (sc & oc & b & Hsu & Hst).
  destruct (instance_accounts config states events guards actions transitions sc oc Hsu fresh_system b (played one_value) Hst
    one_value_reached) as (b' & stats & _ & Hs & Hf & _). exists stats. split; [exact Hs|]. split; [|exact Hf].
  vm_compute in Hs. injection Hs as <-. reflexivity.
Defined.

Lemma instance_never_stuck_witness :
  ∃ t rest, sy_worker (played up_to_commit) = t :: rest ∧ is_Some (exec_task willing t (sy_instance (played up_to_commit))).
Proof.
  destruct instance_ready as (sc & oc & b & Hsu & Hst). destruct (sy_worker (played up_to_commit)) as [|t rest] eqn:Hw.
  { vm_compute in Hw. discriminate Hw. }
  exists t, rest. split; [reflexivity|].
  destruct (instance_never_stuck config states events guards actions transitions sc oc Hsu fresh_system b (played up_to_commit) willing
    Hst (played_reached up_to_commit ltac:(eexists; vm_compute; reflexivity))) as [Hn _]. exact (Hn t rest Hw).
Defined.

(** The step of the commit. *)
Definition committed : system := default fresh_system (play (played up_to_commit) Work).

Lemma instance_follows_machine_witness :
  follows config states actions transitions (in_data (sy_instance (played up_to_commit))) (in_data (sy_instance committed)) ∧
  da_state_value (in_data (sy_instance committed)) = [3; 0; 0; 0].
Proof.
  destruct instance_ready as (sc & oc & b & Hsu & Hst). split; [|vm_compute; reflexivity].
  apply (instance_follows_machine config states events guards actions transitions sc oc Hsu fresh_system b (played up_to_commit)
    committed Hst).
  - apply played_reached. eexists. vm_compute. reflexivity.
  - apply (play_step _ Work). vm_compute. reflexivity.
Defined.

(** Cancelled while the action runs, then up to the end of the worker. *)
Definition cancelled_early : list turn_of := up_to_commit ++ [Enter KCancel; Caller 0].
Definition cancelled_end : list turn_of := [Work; Work; Work; Work; Work].


Lemma machine_instance_init_exact_witness :
  ∃ st h w', cflow_machine_instance_init (λ _ _, 0) (Some None) (Some cfg) (blocks 14) = Some ((st, h), w') ∧
    initialised machine states events guards actions transitions cfg int_type (MkExecutor true CMETA_EXEC_CAP_SERIAL) [1; 0; 0; 0]
      (blocks 14) st h w'.
Proof.
  apply (machine_instance_init_exact machine states events guards actions transitions cfg int_type
    (MkExecutor true CMETA_EXEC_CAP_SERIAL) [1; 0; 0; 0] (λ _ _, 0) (blocks 14)).
  - apply describes_machine.
  - apply machine_well_formed.
  - vm_compute. split; [|split]; discriminate.
  - apply cfg_given.
Defined.

(** The commit of a value while the instance is being closed. *)
Definition lost : system := default fresh_system (play (played before_loss) Work).
Definition settled_loss : system := default fresh_system (plays after_loss lost).

(** The consumer waits for ever: it is registered before the commit; after it
    every thread finishes, the value is ready and the instance is done, but the
    consumer was not called and is not registered any more. *)
Lemma loss_settles :
  rtc system_step lost settled_loss ∧ Forall (λ tasks, tasks = []) (sy_callers settled_loss) ∧ sy_worker settled_loss = [] ∧
  sy_posted settled_loss = 0%nat ∧ ct_ready (in_control (sy_instance settled_loss)) = CFLOW_MACHINE_READY_VALUE_AND_DONE ∧
  ct_done (in_control (sy_instance settled_loss)) = true ∧ sy_woken settled_loss = [] ∧ owed consumer settled_loss = 0%nat.
Proof.
  split; [apply (plays_steps after_loss); vm_compute; reflexivity|]. split; [vm_compute; by repeat constructor|]. by vm_compute.
Qed.

Lemma loss_runs : ∃ t, runs t (played before_loss) lost ∧ loses t (sy_instance (played before_loss)) = true.
Proof.
  destruct (sy_worker (played before_loss)) as [|t rest] eqn:Hw; [vm_compute in Hw; discriminate Hw|]. exists t.
  destruct (exec_task willing t (sy_instance (played before_loss))) as [[[s' tasks] e]|] eqn:Hx.
  - split; [|vm_compute in Hw; injection Hw as <- _; by vm_compute].
    assert (lost = after (played before_loss) s' e (sy_callers (played before_loss)) (tasks ++ rest)) as ->.
    { unfold lost. cbn [play]. rewrite Hw. cbn [mbind option_bind]. rewrite Hx. done. }
    by apply (runs_worker t _ willing rest).
  - vm_compute in Hw. injection Hw as <- _. vm_compute in Hx. discriminate Hx.
Qed.

Lemma instance_waiter_exact_witness :
  wk_wake consumer ≠ None ∧ rtc system_step fresh_system (played before_loss) ∧
  ct_downstream_waiter (in_control (sy_instance (played before_loss))) = consumer ∧
  ct_downstream_waiter (in_control (sy_instance lost)) ≠ consumer ∧ owed consumer (played before_loss) = S (owed consumer lost) ∧
  rtc system_step lost settled_loss ∧ sy_worker settled_loss = [] ∧ sy_posted settled_loss = 0%nat ∧ owed consumer settled_loss = 0%nat.
Proof.
  assert (wk_wake consumer ≠ None) as Hw by discriminate. split; [exact Hw|].
  split; [apply played_reached; eexists; vm_compute; reflexivity|]. split; [vm_compute; reflexivity|].
  destruct loss_runs as (t & Hr & Hl). destruct (instance_waiter_exact consumer Hw) as [_ Hlost].
  destruct (Hlost t _ _ Hr Hl) as [H1 H2]; [vm_compute; reflexivity|vm_compute; discriminate|].
  split; [exact H1|]. split; [exact H2|]. destruct loss_settles as (H3 & _ & H4 & H5 & _ & _ & _ & H6). auto.
Defined.
