(* ===== verification/H2Frame.v ===== *)
(** * Frames of HTTP/2 ([chttp/src/chttp_h2_frame.c])

    The nine bytes of a frame header, the payloads of the frames, with padding
    and priority, and the settings. A function answers with its status, the
    output buffer behind it and what it stored through its pointers; [None] is
    an access outside of a buffer. *)

From S2P Require Import Prelude.
Local Open Scope Z_scope.

Definition SALTS_OK : Z := 0.
Definition SALTS_EINVAL : Z := -4016.
Definition SALTS_EMSGSIZE : Z := -4022.
Definition SALTS_EPROTO : Z := -4042.

Definition CHTTP_H2_FRAME_HEADER_SIZE : Z := 9.
Definition CHTTP_H2_FLAG_PADDED : Z := 8.
Definition CHTTP_H2_FLAG_PRIORITY : Z := 32.

Record chttp_h2_frame_header := MkFrameHeader {
  fh_length : Z;
  fh_type : Z;
  fh_flags : Z;
  fh_stream_id : Z
}.

(** ** Words, the highest byte first *)

Definition chttp_h2_read_u24 (input : list Z) (off : Z) : option Z :=
  a ← load input off;
  b ← load input (off + 1);
  c ← load input (off + 2);
  Some (Z.lor (Z.lor (Z.shiftl a 16) (Z.shiftl b 8)) c).

Definition chttp_h2_read_u32 (input : list Z) (off : Z) : option Z :=
  a ← load input off;
  b ← load input (off + 1);
  c ← load input (off + 2);
  d ← load input (off + 3);
  Some (Z.lor (Z.lor (Z.lor (u32 (Z.shiftl a 24)) (Z.shiftl b 16)) (Z.shiftl c 8)) d).

Definition chttp_h2_write_u24 (output : list Z) (off value : Z) : option (list Z) :=
  output ← store output off (u8 (Z.shiftr value 16));
  output ← store output (off + 1) (u8 (Z.shiftr value 8));
  store output (off + 2) (u8 value).

Definition chttp_h2_write_u32 (output : list Z) (off value : Z) : option (list Z) :=
  output ← store output off (u8 (Z.shiftr value 24));
  output ← store output (off + 1) (u8 (Z.shiftr value 16));
  output ← store output (off + 2) (u8 (Z.shiftr value 8));
  store output (off + 3) (u8 value).

(** ** Encoders

    [output] is the buffer, [None] for a null pointer, of at least [capacity]
    bytes; [pointers] tells whether the other pointers are given. The answer is
    the status, the buffer and the size that is stored on success. *)

Definition answer : Type := Z * option (list Z) * option Z.
Definition refused (status : Z) (output : option (list Z)) : option answer := Some (status, output, None).
Definition written (output : list Z) (size : Z) : option answer := Some (SALTS_OK, Some output, Some size).

Definition high_bit (x : Z) : bool := negb (Z.land x 2147483648 =? 0).

Definition chttp_h2_frame_header_encode (output : option (list Z)) (capacity : Z) (pointers : bool)
    (length type flags stream_id : Z) : option answer :=
  match output with
  | Some out =>
      if negb pointers then refused SALTS_EINVAL output else
      if capacity <? CHTTP_H2_FRAME_HEADER_SIZE then refused SALTS_EMSGSIZE output else
      if (16777215 <? length) || high_bit stream_id then refused SALTS_EINVAL output else
      out ← chttp_h2_write_u24 out 0 length;
      out ← store out 3 type;
      out ← store out 4 flags;
      out ← chttp_h2_write_u32 out 5 stream_id;
      written out CHTTP_H2_FRAME_HEADER_SIZE
  | None => refused SALTS_EINVAL output
  end.

(** Settings one after the other from the [index]-th on. *)
Fixpoint settings_put (out : list Z) (settings : list (Z * Z)) (index : Z) : option (Z * list Z) :=
  match settings with
  | [] => Some (SALTS_OK, out)
  | (identifier, value) :: settings =>
      if UINT16_MAX <? identifier then Some (SALTS_EINVAL, out) else
      out ← store out (index * 6) (u8 (Z.shiftr identifier 8));
      out ← store out (index * 6 + 1) (u8 identifier);
      out ← chttp_h2_write_u32 out (index * 6 + 2) value;
      settings_put out settings (index + 1)
  end.

(** The identifiers and the values are the two components of [settings]. *)
Definition chttp_h2_frame_settings_encode (output : option (list Z)) (capacity : Z) (pointers : bool)
    (settings : list (Z * Z)) : option answer :=
  match output with
  | Some out =>
      if negb pointers then refused SALTS_EINVAL output else
      let count := alen settings in
      if SIZE_MAX / 6 <? count then refused SALTS_EMSGSIZE output else
      let required_size := count * 6 in
      if capacity <? required_size then refused SALTS_EMSGSIZE output else
      '(status, out) ← settings_put out settings 0;
      if negb (status =? SALTS_OK) then refused status (Some out) else written out required_size
  | None => refused SALTS_EINVAL output
  end.

Definition chttp_h2_frame_rst_encode (output : option (list Z)) (capacity : Z) (pointers : bool) (error_code : Z) : option answer :=
  match output with
  | Some out =>
      if negb pointers then refused SALTS_EINVAL output else
      if capacity <? 4 then refused SALTS_EMSGSIZE output else
      out ← chttp_h2_write_u32 out 0 error_code; written out 4
  | None => refused SALTS_EINVAL output
  end.

Definition chttp_h2_frame_goaway_encode (output : option (list Z)) (capacity : Z) (pointers : bool)
    (last_stream_id error_code : Z) : option answer :=
  match output with
  | Some out =>
      if negb pointers then refused SALTS_EINVAL output else
      if capacity <? 8 then refused SALTS_EMSGSIZE output else
      if high_bit last_stream_id then refused SALTS_EINVAL output else
      out ← chttp_h2_write_u32 out 0 last_stream_id;
      out ← chttp_h2_write_u32 out 4 error_code;
      written out 8
  | None => refused SALTS_EINVAL output
  end.

(** [opaque] is a buffer of at least eight bytes. *)
Definition chttp_h2_frame_ping_encode (output : option (list Z)) (capacity : Z) (pointers : bool) (opaque : list Z) : option answer :=
  match output with
  | Some out =>
      if negb pointers then refused SALTS_EINVAL output else
      if capacity <? 8 then refused SALTS_EMSGSIZE output else
      bytes ← slice opaque 0 8;
      out ← blit out 0 bytes; written out 8
  | None => refused SALTS_EINVAL output
  end.

Definition chttp_h2_frame_window_update_encode (output : option (list Z)) (capacity : Z) (pointers : bool) (increment : Z) : option answer :=
  match output with
  | Some out =>
      if negb pointers || (increment =? 0) || high_bit increment then refused SALTS_EINVAL output else
      if capacity <? 4 then refused SALTS_EMSGSIZE output else
      out ← chttp_h2_write_u32 out 0 increment; written out 4
  | None => refused SALTS_EINVAL output
  end.

Definition chttp_h2_frame_priority_encode (output : option (list Z)) (capacity : Z) (pointers : bool)
    (exclusive : bool) (dependency_stream_id weight : Z) : option answer :=
  match output with
  | Some out =>
      if negb pointers || (weight =? 0) || (256 <? weight) || high_bit dependency_stream_id then refused SALTS_EINVAL output else
      if capacity <? 5 then refused SALTS_EMSGSIZE output else
      let dependency := Z.lor dependency_stream_id (if exclusive then 2147483648 else 0) in
      out ← chttp_h2_write_u32 out 0 dependency;
      out ← store out 4 (u8 (weight - 1));
      written out 5
  | None => refused SALTS_EINVAL output
  end.

(** ** Parsers

    The status and what is stored on success. *)

Definition chttp_h2_frame_header_decode (input : option (list Z)) (input_size : Z) (pointers : bool) (max_frame_size : Z) :
    option (Z * option (chttp_h2_frame_header * Z)) :=
  match input with
  | Some input =>
      if negb pointers then Some (SALTS_EINVAL, None) else
      if input_size <? CHTTP_H2_FRAME_HEADER_SIZE then Some (SALTS_EMSGSIZE, None) else
      length ← chttp_h2_read_u24 input 0;
      if max_frame_size <? length then Some (SALTS_EMSGSIZE, None) else
      type ← load input 3;
      flags ← load input 4;
      stream_id ← chttp_h2_read_u32 input 5;
      Some (SALTS_OK, Some (MkFrameHeader length type flags (Z.land stream_id 2147483647), CHTTP_H2_FRAME_HEADER_SIZE))
  | None => Some (SALTS_EINVAL, None)
  end.

(** The data as an offset into the payload and a size. *)
Definition chttp_h2_frame_data_payload (payload : option (list Z)) (payload_size : Z) (pointers : bool) (flags : Z) :
    option (Z * option (Z * Z)) :=
  match payload with
  | Some payload =>
      if negb pointers then Some (SALTS_EINVAL, None) else
      if Z.land flags CHTTP_H2_FLAG_PADDED =? 0 then Some (SALTS_OK, Some (0, payload_size)) else
      if payload_size =? 0 then Some (SALTS_EPROTO, None) else
      padding_size ← load payload 0;
      if payload_size - 1 <? padding_size then Some (SALTS_EPROTO, None) else
      Some (SALTS_OK, Some (1, payload_size - 1 - padding_size))
  | None => Some (SALTS_EINVAL, None)
  end.

(** The block as an offset and a size, and the dependency and the weight if
    the frame has a priority. *)
Definition chttp_h2_frame_headers_payload (payload : option (list Z)) (payload_size : Z) (pointers : bool) (flags : Z) :
    option (Z * option (Z * Z * option (Z * Z))) :=
  match payload with
  | Some payload =>
      if negb pointers then Some (SALTS_EINVAL, None) else
      padding ← (if negb (Z.land flags CHTTP_H2_FLAG_PADDED =? 0) then
          if payload_size =? 0 then Some None else
          padding_size ← load payload 0;
          if payload_size - 1 <? padding_size then Some None else Some (Some (1, padding_size))
        else Some (Some (0, 0)));
      match padding with
      | None => Some (SALTS_EPROTO, None)
      | Some (offset, padding_size) =>
          if negb (Z.land flags CHTTP_H2_FLAG_PRIORITY =? 0) then
            if payload_size - offset - padding_size <? 5 then Some (SALTS_EPROTO, None) else
            dependency ← chttp_h2_read_u32 payload offset;
            weight ← load payload (offset + 4);
            Some (SALTS_OK, Some (offset + 5, payload_size - (offset + 5) - padding_size,
              Some (Z.land dependency 2147483647, weight + 1)))
          else Some (SALTS_OK, Some (offset, payload_size - offset - padding_size, None))
      end
  | None => Some (SALTS_EINVAL, None)
  end.

Fixpoint settings_get (payload : list Z) (n : nat) (index : Z) : option (list (Z * Z)) :=
  match n with
  | O => Some []
  | S n =>
      a ← load payload (index * 6);
      b ← load payload (index * 6 + 1);
      value ← chttp_h2_read_u32 payload (index * 6 + 2);
      settings ← settings_get payload n (index + 1);
      Some ((Z.lor (Z.shiftl a 8) b, value) :: settings)
  end.

Definition chttp_h2_frame_settings_parse (payload : option (list Z)) (payload_size : Z) (pointers : bool) (max_count : Z) :
    option (Z * option (list (Z * Z))) :=
  match payload with
  | Some payload =>
      if negb pointers then Some (SALTS_EINVAL, None) else
      if negb (payload_size mod 6 =? 0) then Some (SALTS_EPROTO, None) else
      let parsed_count := payload_size / 6 in
      if max_count <? parsed_count then Some (SALTS_EMSGSIZE, None) else
      settings ← settings_get payload (Z.to_nat parsed_count) 0;
      Some (SALTS_OK, Some settings)
  | None => Some (SALTS_EINVAL, None)
  end.

Definition chttp_h2_frame_goaway_parse (payload : option (list Z)) (payload_size : Z) (pointers : bool) : option (Z * option (Z * Z)) :=
  match payload with
  | Some payload =>
      if negb pointers then Some (SALTS_EINVAL, None) else
      if payload_size <? 8 then Some (SALTS_EMSGSIZE, None) else
      last ← chttp_h2_read_u32 payload 0;
      error_code ← chttp_h2_read_u32 payload 4;
      Some (SALTS_OK, Some (Z.land last 2147483647, error_code))
  | None => Some (SALTS_EINVAL, None)
  end.

(** ** Words and bytes *)

Definition be32 (v : Z) : list Z := [u8 (Z.shiftr v 24); u8 (Z.shiftr v 16); u8 (Z.shiftr v 8); u8 v].
Definition be24 (v : Z) : list Z := [u8 (Z.shiftr v 16); u8 (Z.shiftr v 8); u8 v].

Lemma be32_len v : blen (be32 v) = 4.
Proof. done. Qed.
Lemma be24_len v : blen (be24 v) = 3.
Proof. done. Qed.
#[local] Hint Rewrite be32_len be24_len : buf.

Lemma write_u32_blit out off v : 0 <= off → chttp_h2_write_u32 out off v = blit out off (be32 v).
Proof.
  intros Hoff. unfold chttp_h2_write_u32, store, be32.
  rewrite !(blit_seq _ off) by (rewrite ?blen_app, ?blen_cons, ?blen_nil; lia). cbn [app].
  replace (off + 3) with (off + blen [u8 (Z.shiftr v 24); u8 (Z.shiftr v 16); u8 (Z.shiftr v 8)])
    by (rewrite !blen_cons, blen_nil; lia). by rewrite blit_blit.
Qed.

Lemma write_u24_blit out off v : 0 <= off → chttp_h2_write_u24 out off v = blit out off (be24 v).
Proof.
  intros Hoff. unfold chttp_h2_write_u24, store, be24.
  rewrite !(blit_seq _ off) by (rewrite ?blen_app, ?blen_cons, ?blen_nil; lia). cbn [app].
  replace (off + 2) with (off + blen [u8 (Z.shiftr v 16); u8 (Z.shiftr v 8)]) by (rewrite !blen_cons, blen_nil; lia). by rewrite blit_blit.
Qed.

Lemma load_offset pre l i : 0 <= i → load (pre ++ l) (blen pre + i) = load l i.
Proof. apply load_app_r. Qed.

Lemma shiftl_glue hi lo n : 0 <= n → 0 <= lo < 256 → Z.lor (Z.shiftl hi (8 + n)) (Z.shiftl lo n) = Z.shiftl (hi * 256 + lo) n.
Proof.
  intros Hn Hlo. replace (hi * 256 + lo) with (Z.lor (Z.shiftl hi 8) lo) by (by rewrite lor_shiftl_add by lia).
  by rewrite Z.shiftl_lor, Z.shiftl_shiftl by lia.
Qed.

(** The value of four bytes. *)
Lemma read_u32_bytes a b c d pre post :
  is_u8 a → is_u8 b → is_u8 c → is_u8 d →
  chttp_h2_read_u32 (pre ++ [a; b; c; d] ++ post) (blen pre) = Some (((a * 256 + b) * 256 + c) * 256 + d).
Proof.
  intros Ha Hb Hc Hd. unfold chttp_h2_read_u32. rewrite <-(Z.add_0_r (blen pre)) at 1.
  rewrite !load_app_r by lia. change (load ([a; b; c; d] ++ post) 0) with (Some a). change (load ([a; b; c; d] ++ post) 1) with (Some b).
  change (load ([a; b; c; d] ++ post) 2) with (Some c). change (load ([a; b; c; d] ++ post) 3) with (Some d). msimpl. unfold is_u8, UINT8_MAX in *. f_equal.
  rewrite (u32_id (Z.shiftl a 24)) by (rewrite Z.shiftl_mul_pow2 by lia; unfold is_u32, UINT32_MAX; lia).
  change 24 with (8 + 16). rewrite (shiftl_glue a b 16) by lia.
  change 16 with (8 + 8). rewrite (shiftl_glue (a * 256 + b) c 8) by lia.
  by rewrite lor_shiftl_add by lia.
Qed.

Lemma read_u24_bytes a b c post :
  is_u8 a → is_u8 b → is_u8 c → chttp_h2_read_u24 ([a; b; c] ++ post) 0 = Some ((a * 256 + b) * 256 + c).
Proof.
  intros Ha Hb Hc. unfold chttp_h2_read_u24. change (load ([a; b; c] ++ post) 0) with (Some a).
  change (load ([a; b; c] ++ post) (0 + 1)) with (Some b). change (load ([a; b; c] ++ post) (0 + 2)) with (Some c). msimpl. unfold is_u8, UINT8_MAX in *. f_equal.
  change 16 with (8 + 8). rewrite (shiftl_glue a b 8) by lia. by rewrite lor_shiftl_add by lia.
Qed.

Lemma be32_value v : is_u32 v →
  ((u8 (Z.shiftr v 24) * 256 + u8 (Z.shiftr v 16)) * 256 + u8 (Z.shiftr v 8)) * 256 + u8 v = v.
Proof.
  intros Hv. rewrite !shiftr_div by lia. change (2 ^ 24) with 16777216. change (2 ^ 16) with 65536. change (2 ^ 8) with 256. word_lia.
Qed.
Lemma be24_value v : 0 <= v <= 16777215 → (u8 (Z.shiftr v 16) * 256 + u8 (Z.shiftr v 8)) * 256 + u8 v = v.
Proof. intros Hv. rewrite !shiftr_div by lia. change (2 ^ 16) with 65536. change (2 ^ 8) with 256. word_lia. Qed.

Lemma read_be32 v pre post bytes off :
  is_u32 v → bytes = pre ++ be32 v ++ post → off = blen pre → chttp_h2_read_u32 bytes off = Some v.
Proof. intros Hv -> ->. unfold be32. rewrite read_u32_bytes by apply u8_range. by rewrite be32_value. Qed.

Lemma high_bit_spec x : is_u32 x → high_bit x = (2147483648 <=? x).
Proof.
  intros Hx. unfold high_bit, is_u32, UINT32_MAX in *. replace (Z.land x 2147483648) with (2147483648 * (x / 2147483648)).
  - destruct (Z.leb_spec 2147483648 x).
    + replace (x / 2147483648) with 1 by word_lia. done.
    + replace (x / 2147483648) with 0 by word_lia. done.
  - change 2147483648 with (2 ^ 31) at 1 2. rewrite <-Z.shiftr_div_pow2, Z.mul_comm, <-Z.shiftl_mul_pow2 by lia. apply Z.bits_inj'. intros i Hi.
    rewrite Z.land_spec. change 2147483648 with (2 ^ 31). rewrite Z.pow2_bits_eqb by lia. destruct (decide (i < 31)).
    + rewrite Z.shiftl_spec_low by lia. destruct (Z.eqb_spec 31 i); [lia|]. by rewrite andb_false_r.
    + rewrite Z.shiftl_spec, Z.shiftr_spec by lia. replace (i - 31 + 31) with i by lia. destruct (Z.eqb_spec 31 i); [by rewrite andb_true_r|].
      rewrite andb_false_r. apply (testbit_small x 32); lia.
Qed.

Lemma low_31 x : 0 <= x < 2147483648 → Z.land x 2147483647 = x.
Proof. intros Hx. change 2147483647 with (2 ^ 31 - 1). rewrite land_ones_mod by lia. by apply Z.mod_small. Qed.

(** ** Frame headers *)

Definition header_bytes (length type flags stream_id : Z) : list Z := be24 length ++ [type; flags] ++ be32 stream_id.

(** Writing on behind what is written. *)
Lemma blit_step out done_ out1 more off :
  blit out 0 done_ = Some out1 → off = blen done_ → blen done_ + blen more <= blen out →
  ∃ out2, blit out1 off more = Some out2 ∧ blit out 0 (done_ ++ more) = Some out2.
Proof.
  intros E -> Hl. pose proof (blen_nonneg done_). assert (blit out1 (blen done_) more = blit out 0 (done_ ++ more)) as Heq.
  { rewrite <-blit_blit by lia. by rewrite E. }
  rewrite Heq. rewrite blit_in_bounds by (rewrite ?blen_app; lia). eauto.
Qed.

Lemma blit_front out l out' : blit out 0 l = Some out' → out' = l ++ drop (length l) out.
Proof. intros (_ & _ & ->)%blit_Some. done. Qed.

(** Frame headers. [chttp_h2_frame_header_encode] succeeds exactly when the
    buffer has nine bytes, the length fits in 24 bits and the stream id in 31
    bits; it then changes the first nine bytes only, and
    [chttp_h2_frame_header_decode] reads the same four fields back from them
    under every frame size limit that admits the length. A refusal leaves the
    buffer as it is. *)
Theorem h2_frame_header_exact out capacity len type flags stream_id :
  capacity <= blen out → 0 <= len → is_u8 type → is_u8 flags → is_u32 stream_id →
  ∃ status out' size,
    chttp_h2_frame_header_encode (Some out) capacity true len type flags stream_id = Some (status, Some out', size) ∧
    (status = SALTS_OK ↔ 9 <= capacity ∧ len <= 16777215 ∧ stream_id < 2147483648) ∧
    (status ≠ SALTS_OK → out' = out) ∧
    (status = SALTS_OK → size = Some 9 ∧ blen out' = blen out ∧ drop 9 out' = drop 9 out ∧
      ∀ n max, 9 <= n → len <= max →
        chttp_h2_frame_header_decode (Some out') n true max = Some (SALTS_OK, Some (MkFrameHeader len type flags stream_id, 9))).
Proof.
  intros Hcap Hlen Ht Hf Hs. unfold chttp_h2_frame_header_encode, CHTTP_H2_FRAME_HEADER_SIZE. cbn [negb]. rewrite high_bit_spec by done.
  destruct (Z.ltb_spec capacity 9) as [Hc|Hc].
  { eexists _, out, _. split; [reflexivity|]. split; [split; [done|lia]|]. done. }
  destruct (Z.ltb_spec 16777215 len) as [Hl|Hl]; cbn [orb].
  { eexists _, out, _. split; [reflexivity|]. split; [split; [done|lia]|]. done. }
  destruct (Z.leb_spec 2147483648 stream_id) as [Hi|Hi].
  { eexists _, out, _. split; [reflexivity|]. split; [split; [done|lia]|]. done. }
  destruct (blit_step out [] out (be24 len) 0) as (o1 & E1 & B1); [apply blit_nil; pose proof (blen_nonneg out); lia|done|autorewrite with buf; lia|].
  destruct (blit_step out _ o1 [type] 3 B1) as (o2 & E2 & B2); [done|autorewrite with buf; lia|].
  destruct (blit_step out _ o2 [flags] 4 B2) as (o3 & E3 & B3); [done|autorewrite with buf; lia|].
  destruct (blit_step out _ o3 (be32 stream_id) 5 B3) as (o4 & E4 & B4); [done|autorewrite with buf; lia|].
  rewrite write_u24_blit by lia. rewrite E1. cbn [mbind option_bind]. unfold store. rewrite E2. cbn [mbind option_bind]. rewrite E3.
  cbn [mbind option_bind]. rewrite write_u32_blit by lia. rewrite E4. cbn [mbind option_bind].
  eexists _, o4, _. split; [reflexivity|]. split; [split; [lia|done]|]. split; [done|]. intros _. split; [done|].
  split; [by rewrite (blit_blen _ _ _ _ B4)|]. apply blit_front in B4. split.
  { rewrite B4. rewrite drop_app_ge by (cbn; lia). cbn [Init.Nat.sub List.length app be24 be32]. rewrite drop_0. done. }
  intros n max Hn Hmax. unfold chttp_h2_frame_header_decode, CHTTP_H2_FRAME_HEADER_SIZE. cbn [negb]. destruct (Z.ltb_spec n 9); [lia|].
  set (rest := drop _ out) in B4. replace (chttp_h2_read_u24 o4 0) with (Some len).
  2: { rewrite B4. cbn [app]. unfold be24. symmetry. rewrite <-!app_assoc. rewrite read_u24_bytes by apply u8_range. by rewrite be24_value. }
  msimpl. destruct (Z.ltb_spec max len); [lia|].
  replace (load o4 3) with (Some type) by (by rewrite B4). replace (load o4 4) with (Some flags) by (by rewrite B4). msimpl.
  rewrite (read_be32 stream_id (be24 len ++ [type; flags]) rest o4 5); [|done|by rewrite B4, <-!app_assoc|done].
  msimpl. rewrite low_31 by (unfold is_u32 in Hs; lia). done.
Qed.

(** ** Payloads *)

(** The length of the padding if there is one, the fields in front of the
    block, the block, the padding. *)
Definition shaped (padded : bool) (lead payload block pad : list Z) : Prop :=
  payload = (if padded then [blen pad] else []) ++ lead ++ block ++ pad ∧ (padded = false → pad = []).

Definition head_size (padded : bool) : Z := if padded then 1 else 0.

(** Cutting off the padding. *)
Lemma cut_padding payload (padded : bool) :
  bytes_ok payload →
  (∃ body pad, payload = (if padded then [blen pad] else []) ++ body ++ pad ∧ (padded = false → pad = []) ∧ bytes_ok body ∧
     (padded = true → blen payload ≠ 0 ∧ load payload 0 = Some (blen pad)) ∧ blen payload = head_size padded + blen body + blen pad) ∨
  padded = true ∧ (blen payload = 0 ∨ ∃ p, load payload 0 = Some p ∧ blen payload - 1 < p) ∧
    ∀ body pad : list Z, payload ≠ blen pad :: body ++ pad.
Proof.
  intros Hb. destruct padded.
  2: { left. exists payload, []. rewrite app_nil_r, blen_nil. cbn. repeat split; try done. lia. }
  destruct Hb as [|p rest Hp Hr]; [right; split; [done|]; split; [by left|done]|].
  destruct (decide (p <= blen rest)) as [Hle|Hgt]; [left|right].
  - unfold is_u8 in Hp. exists (take (length rest - Z.to_nat p) rest), (drop (length rest - Z.to_nat p) rest).
    assert (blen (drop (length rest - Z.to_nat p) rest) = p) as Hl by (unfold blen in *; rewrite length_drop; lia).
    rewrite Hl, take_drop. split; [done|]. split; [done|]. split; [by apply Forall_take|]. rewrite blen_cons. pose proof (blen_nonneg rest).
    split; [intros _; split; [lia|done]|]. cbn. unfold blen in *. rewrite length_take. lia.
  - split; [done|]. split; [right; exists p; rewrite blen_cons; split; [done|lia]|].
    intros body pad [= Hpad Hrest]. rewrite Hrest, blen_app in Hgt. pose proof (blen_nonneg body). lia.
Qed.

Lemma data_payload_ok payload flags :
  bytes_ok payload →
  let padded := negb (Z.land flags CHTTP_H2_FLAG_PADDED =? 0) in
  ∃ status r, chttp_h2_frame_data_payload (Some payload) (blen payload) true flags = Some (status, r) ∧
    match r with
    | Some (off, size) => status = SALTS_OK ∧ ∃ data pad, shaped padded [] payload data pad ∧ off = head_size padded ∧ size = blen data
    | None => status = SALTS_EPROTO ∧ ∀ data pad, ¬ shaped padded [] payload data pad
    end.
Proof.
  intros Hb padded. unfold chttp_h2_frame_data_payload. cbn [negb]. unfold padded.
  destruct (cut_padding payload padded Hb) as [(body & pad & Hp & Hnp & _ & Hl & Hlen)|(Hpd & Hbad & Hno)]; unfold padded in *;
    destruct (Z.land flags CHTTP_H2_FLAG_PADDED =? 0); cbn [negb head_size] in *.
  - eexists _, (Some _). split; [reflexivity|]. split; [done|]. exists body, pad. rewrite (Hnp eq_refl) in *. rewrite app_nil_r, blen_nil in *.
    split; [split; [by rewrite Hp, app_nil_r|done]|]. split; [done|lia].
  - destruct (Hl eq_refl) as [Hne ->]. destruct (Z.eqb_spec (blen payload) 0); [done|]. msimpl. pose proof (blen_nonneg body).
    destruct (Z.ltb_spec (blen payload - 1) (blen pad)); [lia|]. eexists _, (Some _). split; [reflexivity|]. split; [done|].
    exists body, pad. split; [by split|]. split; [done|lia].
  - done.
  - destruct Hbad as [->|(p & Hp & Hgt)].
    + eexists _, None. split; [reflexivity|]. split; [done|]. intros data pad [Hs _]. by apply (Hno data pad).
    + exists SALTS_EPROTO, None. split; [|split; [done|intros data pad [Hs _]; by apply (Hno data pad)]].
      destruct (blen payload =? 0); [done|]. rewrite Hp. msimpl. destruct (Z.ltb_spec (blen payload - 1) p); [done|lia].
Qed.

(** Five bytes of priority. *)
Lemma priority_bytes body :
  bytes_ok body → 5 <= blen body → ∃ x weight rest, body = (be32 x ++ [weight]) ++ rest ∧ is_u32 x ∧ is_u8 weight.
Proof.
  intros Hb Hl. destruct (bytes_uncons body Hb) as (a & l1 & -> & Ha & H1 & L1); [lia|].
  destruct (bytes_uncons l1 H1) as (b & l2 & -> & Hb' & H2 & L2); [lia|]. destruct (bytes_uncons l2 H2) as (c & l3 & -> & Hc & H3 & L3); [lia|].
  destruct (bytes_uncons l3 H3) as (d & l4 & -> & Hd & H4 & L4); [lia|]. destruct (bytes_uncons l4 H4) as (e & rest & -> & He & H5 & L5); [lia|].
  unfold is_u8, UINT8_MAX in *. exists (((a * 256 + b) * 256 + c) * 256 + d), e, rest.
  split; [|split; [unfold is_u32, UINT32_MAX; lia|done]]. unfold be32. rewrite !shiftr_div by lia.
  change (2 ^ 24) with 16777216. change (2 ^ 16) with 65536. change (2 ^ 8) with 256. unfold u8. cbn [app].
  repeat f_equal; Z.to_euclidean_division_equations; lia.
Qed.

Lemma headers_payload_ok payload flags :
  bytes_ok payload →
  let padded := negb (Z.land flags CHTTP_H2_FLAG_PADDED =? 0) in
  let priority := negb (Z.land flags CHTTP_H2_FLAG_PRIORITY =? 0) in
  ∃ status r, chttp_h2_frame_headers_payload (Some payload) (blen payload) true flags = Some (status, r) ∧
    match r with
    | Some (off, size, prio) =>
        status = SALTS_OK ∧ ∃ lead block pad, shaped padded lead payload block pad ∧ off = head_size padded + blen lead ∧ size = blen block ∧
          match prio with
          | None => priority = false ∧ lead = []
          | Some (dependency, weight) => priority = true ∧ ∃ x, is_u32 x ∧ lead = be32 x ++ [weight - 1] ∧ dependency = x mod 2147483648
          end
    | None => status = SALTS_EPROTO ∧ ∀ lead block pad, shaped padded lead payload block pad → blen lead ≠ (if priority then 5 else 0)
    end.
Proof.
  intros Hb padded priority. unfold chttp_h2_frame_headers_payload. cbn [negb].
  destruct (cut_padding payload padded Hb) as [(body & pad & Hp & Hnp & Hbb & Hl & Hlen)|(Hpd & Hbad & Hno)]; fold padded; fold priority.
  - replace (if padded then _ else Some (Some (0, 0))) with (Some (Some (head_size padded, blen pad))).
    2: { destruct padded; [|by rewrite (Hnp eq_refl)]. destruct (Hl eq_refl) as [Hne ->]. destruct (Z.eqb_spec (blen payload) 0); [done|].
         msimpl. pose proof (blen_nonneg body). destruct (Z.ltb_spec (blen payload - 1) (blen pad)); [cbn in Hlen; lia|done]. }
    msimpl. destruct priority.
    + destruct (Z.ltb_spec (blen payload - head_size padded - blen pad) 5) as [Hlt|Hge].
      { eexists _, None. split; [reflexivity|]. split; [done|]. intros lead block pad' [Hs Hs'] H5.
        assert (blen pad' = blen pad) as Hpad.
        { destruct padded; [|by rewrite (Hnp eq_refl), (Hs' eq_refl)]. rewrite Hp in Hs. cbn in Hs. by injection Hs as -> _. }
        apply (f_equal blen) in Hs. rewrite !blen_app in Hs. pose proof (blen_nonneg block).
        destruct padded; cbn [head_size] in *; rewrite ?blen_cons, ?blen_nil in Hs; lia. }
      destruct (priority_bytes body Hbb) as (x & weight & rest & -> & Hx & Hw); [lia|].
      set (head := if padded then [blen pad] else []) in *.
      assert (blen head = head_size padded) as Hh by (unfold head; by destruct padded).
      rewrite (read_be32 x head ([weight] ++ rest ++ pad)); [|done|by rewrite Hp, <-!app_assoc|done]. msimpl.
      replace (load payload (head_size padded + 4)) with (Some weight).
      2: { rewrite Hp, <-Hh, <-!app_assoc. rewrite load_app_r by lia. done. }
      msimpl. eexists _, (Some _). split; [reflexivity|]. split; [done|]. exists (be32 x ++ [weight]), rest, pad.
      rewrite !blen_app, blen_cons, blen_nil, be32_len in *.
      split; [split; [by rewrite Hp, <-!app_assoc|done]|]. split; [lia|]. split; [lia|]. split; [done|]. exists x.
      replace (weight + 1 - 1) with weight by lia. split; [done|]. split; [done|].
      change 2147483647 with (2 ^ 31 - 1). rewrite land_ones_mod by lia. done.
    + eexists _, (Some _). split; [reflexivity|]. split; [done|]. exists [], body, pad. split; [by split|]. rewrite blen_nil.
      split; [lia|]. split; [lia|]. done.
  - exists SALTS_EPROTO, None. rewrite Hpd in *. split; [|split; [done|intros lead block pad [Hs _] _]].
    + destruct Hbad as [->|(p & Hp & Hgt)]; [done|]. destruct (blen payload =? 0); [done|]. rewrite Hp. msimpl.
      destruct (Z.ltb_spec (blen payload - 1) p); [done|lia].
    + apply (Hno (lead ++ block) pad). by rewrite Hs, <-app_assoc.
Qed.

(** C38. Payloads. The data of a DATA frame and the header block of a HEADERS
    frame are found exactly: for every payload the functions return, and when
    they accept, the payload is the length of the padding, the priority if the
    flag says so, the block that the result points to, and that much padding;
    they answer with a protocol error exactly when the payload is not of that
    shape. No byte outside of the payload is read. *)
Theorem h2_payload_exact payload flags :
  bytes_ok payload →
  let padded := negb (Z.land flags CHTTP_H2_FLAG_PADDED =? 0) in
  let priority := negb (Z.land flags CHTTP_H2_FLAG_PRIORITY =? 0) in
  (∃ status r, chttp_h2_frame_data_payload (Some payload) (blen payload) true flags = Some (status, r) ∧
     match r with
     | Some (off, size) => status = SALTS_OK ∧ ∃ data pad, shaped padded [] payload data pad ∧ off = head_size padded ∧ size = blen data
     | None => status = SALTS_EPROTO ∧ ∀ data pad, ¬ shaped padded [] payload data pad
     end) ∧
  (∃ status r, chttp_h2_frame_headers_payload (Some payload) (blen payload) true flags = Some (status, r) ∧
     match r with
     | Some (off, size, prio) =>
         status = SALTS_OK ∧ ∃ lead block pad, shaped padded lead payload block pad ∧ off = head_size padded + blen lead ∧ size = blen block ∧
           match prio with
           | None => priority = false ∧ lead = []
           | Some (dependency, weight) => priority = true ∧ ∃ x, is_u32 x ∧ lead = be32 x ++ [weight - 1] ∧ dependency = x mod 2147483648
           end
     | None => status = SALTS_EPROTO ∧ ∀ lead block pad, shaped padded lead payload block pad → blen lead ≠ (if priority then 5 else 0)
     end).
Proof. intros Hb padded priority. split; [by apply data_payload_ok|by apply headers_payload_ok]. Qed.

(** ** Settings and the end of a connection *)

Definition setting_bytes (s : Z * Z) : list Z := [u8 (Z.shiftr s.1 8); u8 s.1] ++ be32 s.2.
Definition settings_bytes (l : list (Z * Z)) : list Z := l ≫= setting_bytes.

Lemma settings_bytes_cons s l : settings_bytes (s :: l) = setting_bytes s ++ settings_bytes l.
Proof. done. Qed.
Lemma settings_bytes_len l : blen (settings_bytes l) = 6 * alen l.
Proof.
  unfold alen. induction l as [|s l IH]; [done|]. rewrite settings_bytes_cons, blen_app, IH. cbn [length].
  replace (blen (setting_bytes s)) with 6 by done. lia.
Qed.

Lemma settings_put_ok l out done_ o index :
  blit out 0 done_ = Some o → index * 6 = blen done_ → 0 <= index → blen done_ + 6 * alen l <= blen out →
  ∃ status o', settings_put o l index = Some (status, o') ∧ (status = SALTS_OK ↔ Forall (λ s, s.1 <= UINT16_MAX) l) ∧
    (status = SALTS_OK → blit out 0 (done_ ++ settings_bytes l) = Some o').
Proof.
  revert done_ o index. induction l as [|[i v] l IH]; intros done_ o index Hb Hi H0 Hl; cbn [settings_put].
  { exists SALTS_OK, o. cbn. rewrite app_nil_r. split; [done|]. split; [split; [intros _; constructor|done]|done]. }
  unfold alen in Hl. cbn [length] in Hl. destruct (Z.ltb_spec UINT16_MAX i) as [Hbig|Hle].
  { exists SALTS_EINVAL, o. split; [done|]. split; [|done]. split; [done|]. intros [Hf _]%Forall_cons. cbn in Hf. lia. }
  destruct (blit_step out done_ o [u8 (Z.shiftr i 8)] (index * 6) Hb) as (o1 & E1 & B1); [done|autorewrite with buf; lia|].
  destruct (blit_step out _ o1 [u8 i] (index * 6 + 1) B1) as (o2 & E2 & B2); [autorewrite with buf; lia|autorewrite with buf; lia|].
  destruct (blit_step out _ o2 (be32 v) (index * 6 + 2) B2) as (o3 & E3 & B3); [autorewrite with buf; lia|autorewrite with buf; lia|].
  unfold store. rewrite E1. msimpl. rewrite E2. msimpl. rewrite write_u32_blit, E3 by lia. msimpl. rewrite <-!app_assoc in B3.
  destruct (IH _ o3 (index + 1) B3) as (status & o' & E & Hs & Hb'); [autorewrite with buf; lia|lia|unfold alen; autorewrite with buf; lia|].
  exists status, o'. split; [done|]. rewrite Forall_cons. split; [rewrite Hs; cbn; tauto|]. intros Hok. rewrite settings_bytes_cons.
  specialize (Hb' Hok). rewrite <-!app_assoc in Hb'. exact Hb'.
Qed.

Lemma settings_get_ok l pre post bytes index :
  Forall (λ s, is_u16 s.1 ∧ is_u32 s.2) l → bytes = pre ++ settings_bytes l ++ post → index * 6 = blen pre → 0 <= index →
  settings_get bytes (length l) index = Some l.
Proof.
  revert pre index. induction l as [|[i v] l IH]; intros pre index Hf Hb Hi H0; cbn [settings_get length]; [done|].
  apply Forall_cons in Hf as [[Hu16 Hu32] Hf]. cbn in Hu16, Hu32. rewrite settings_bytes_cons in Hb. unfold setting_bytes in Hb. cbn [fst snd] in Hb.
  replace (load bytes (index * 6)) with (Some (u8 (Z.shiftr i 8))).
  2: { rewrite Hb, Hi, <-(Z.add_0_r (blen pre)), load_app_r by lia. done. }
  msimpl. replace (load bytes (index * 6 + 1)) with (Some (u8 i)) by (by rewrite Hb, Hi, load_app_r by lia). msimpl.
  rewrite (read_be32 v (pre ++ [u8 (Z.shiftr i 8); u8 i]) (settings_bytes l ++ post)); [|done|by rewrite Hb, <-!app_assoc|autorewrite with buf; lia].
  msimpl. rewrite (IH (pre ++ [u8 (Z.shiftr i 8); u8 i] ++ be32 v) (index + 1)); [|done|by rewrite Hb, <-!app_assoc|autorewrite with buf; lia|lia].
  msimpl. do 3 f_equal. pose proof (u8_range i) as Hr; unfold is_u8, UINT8_MAX in Hr; rewrite lor_shiftl_add by lia. by apply be16_bytes.
Qed.

(** Settings and GOAWAY round trip. [chttp_h2_frame_settings_encode]
    succeeds exactly when the buffer holds six bytes for each setting and every
    identifier has 16 bits, and [chttp_h2_frame_settings_parse] reads the same
    settings back, in order; what [chttp_h2_frame_goaway_encode] writes is read
    back by [chttp_h2_frame_goaway_parse]. *)
Theorem h2_control_roundtrip out capacity settings last code :
  capacity <= blen out → Forall (λ s, is_u32 s.1 ∧ is_u32 s.2) settings → alen settings <= SIZE_MAX / 6 → is_u32 last → is_u32 code →
  (∃ status out' size,
    chttp_h2_frame_settings_encode (Some out) capacity true settings = Some (status, Some out', size) ∧
    (status = SALTS_OK ↔ 6 * alen settings <= capacity ∧ Forall (λ s, s.1 <= UINT16_MAX) settings) ∧
    (status = SALTS_OK → size = Some (6 * alen settings) ∧ ∀ max, alen settings <= max →
      chttp_h2_frame_settings_parse (Some out') (6 * alen settings) true max = Some (SALTS_OK, Some settings))) ∧
  (∃ status out' size,
    chttp_h2_frame_goaway_encode (Some out) capacity true last code = Some (status, Some out', size) ∧
    (status = SALTS_OK ↔ 8 <= capacity ∧ last < 2147483648) ∧
    (status = SALTS_OK → size = Some 8 ∧ chttp_h2_frame_goaway_parse (Some out') 8 true = Some (SALTS_OK, Some (last, code)))).
Proof.
  intros Hcap Hf Hn Hlast Hcode. pose proof (blen_nonneg out) as Hnn. pose proof (alen_nonneg settings) as Hsn. split.
  - unfold chttp_h2_frame_settings_encode. cbn [negb]. destruct (Z.ltb_spec (SIZE_MAX / 6) (alen settings)); [lia|].
    destruct (Z.ltb_spec capacity (alen settings * 6)) as [Hs|Hs].
    { eexists _, out, _. split; [reflexivity|]. split; [split; [done|lia]|done]. }
    destruct (settings_put_ok settings out [] out 0) as (status & o & E & Hst & Hb); [by apply blit_nil; lia|done|lia|rewrite blen_nil; lia|].
    rewrite E. msimpl. destruct (Z.eqb_spec status SALTS_OK) as [->|Hne]; cbn [negb].
    2: { eexists status, o, _. split; [reflexivity|]. split; [|done]. split; [done|]. intros [_ ?]. by apply Hst. }
    eexists _, o, _. split; [reflexivity|]. split; [split; [|done]|].
    { intros _. split; [lia|by apply Hst]. }
    intros _. split; [f_equal; lia|]. intros max Hmax. unfold chttp_h2_frame_settings_parse. cbn [negb].
    replace ((6 * alen settings) mod 6) with 0 by word_lia. replace (6 * alen settings / 6) with (alen settings) by word_lia. cbn [Z.eqb negb].
    destruct (Z.ltb_spec max (alen settings)); [lia|]. replace (Z.to_nat (alen settings)) with (length settings) by (unfold alen; lia).
    pose proof (blit_front _ _ _ (Hb eq_refl)) as Ho. rewrite (settings_get_ok settings [] (drop (length (settings_bytes settings)) out) o 0);
      [done| |by rewrite Ho|done|lia].
    apply Forall_forall. intros s Hin. destruct (proj1 (Forall_forall _ _) Hf s Hin) as [[? _] ?].
    pose proof (proj1 (Forall_forall _ _) (proj1 Hst eq_refl) s Hin). done.
  - unfold chttp_h2_frame_goaway_encode. cbn [negb]. rewrite high_bit_spec by done. destruct (Z.ltb_spec capacity 8).
    { eexists _, out, _. split; [reflexivity|]. split; [split; [done|lia]|done]. }
    destruct (Z.leb_spec 2147483648 last).
    { eexists _, out, _. split; [reflexivity|]. split; [split; [done|lia]|done]. }
    destruct (blit_step out [] out (be32 last) 0) as (o1 & E1 & B1); [apply blit_nil; lia|done|autorewrite with buf; lia|].
    destruct (blit_step out _ o1 (be32 code) 4 B1) as (o2 & E2 & B2); [done|autorewrite with buf; lia|].
    rewrite write_u32_blit, E1 by lia. msimpl. rewrite write_u32_blit, E2 by lia. msimpl. eexists _, o2, _. split; [reflexivity|].
    split; [split; [lia|done]|]. intros _. split; [done|]. unfold chttp_h2_frame_goaway_parse. cbn [negb Z.ltb Z.compare].
    apply blit_front in B2. set (rest := drop _ out) in B2.
    rewrite (read_be32 last [] (be32 code ++ rest) o2 0), (read_be32 code (be32 last) rest o2 4); [|done|by rewrite B2|done|done|by rewrite B2|done].
    msimpl. rewrite low_31 by (unfold is_u32 in Hlast; lia). done.
Qed.

Lemma h2_frame_header_exact_witness :
  ∃ status out' size, chttp_h2_frame_header_encode (Some (zeros 10)) 10 true 300 1 4 7 = Some (status, Some out', size) ∧ status = SALTS_OK.
Proof.
  destruct (h2_frame_header_exact (zeros 10) 10 300 1 4 7 ltac:(by_eval) ltac:(lia) ltac:(by_eval) ltac:(by_eval) ltac:(by_eval))
    as (status & out' & size & E & Hs & _). exists status, out', size. split; [exact E|]. apply Hs. lia.
Defined.

Lemma h2_payload_exact_witness :
  ∃ status r, chttp_h2_frame_headers_payload (Some [2; 0; 0; 0; 3; 15; 130; 9; 9]) 9 true 40 = Some (status, r) ∧ r = Some (6, 1, Some (3, 16)).
Proof.
  destruct (h2_payload_exact [2; 0; 0; 0; 3; 15; 130; 9; 9] 40 ltac:(by_eval)) as [_ (status & r & E & _)].
  exists status, r. split; [exact E|]. vm_compute in E. injection E as _ <-. reflexivity.
Defined.

Lemma h2_control_roundtrip_witness :
  ∃ status out' size, chttp_h2_frame_settings_encode (Some (zeros 12)) 12 true [(1, 4096); (4, 65535)] = Some (status, Some out', size) ∧
    chttp_h2_frame_settings_parse (Some out') 12 true 8 = Some (SALTS_OK, Some [(1, 4096); (4, 65535)]).
Proof.
  destruct (h2_control_roundtrip (zeros 12) 12 [(1, 4096); (4, 65535)] 3 0 ltac:(by_eval) ltac:(by_eval) ltac:(by_eval) ltac:(by_eval)
    ltac:(by_eval)) as [(status & out' & size & E & Hs & Hp) _]. exists status, out', size. split; [exact E|].
  apply Hp; [apply Hs; split; by_eval|by_eval].
Defined.
