(* ===== verification/HpackTables.v ===== *)
(** * The constant tables of HPACK ([chttp/src/chttp_h2_hpack_static.inc],
    [chttp_h2_hpack_huffman_data.inc])

    The static header table and the Huffman codes as the sources list them,
    and the properties of the code that are facts about the table. *)

From Stdlib Require Import String Ascii.
From S2P Require Import Prelude.
Local Open Scope Z_scope.

(** The bytes of a string literal. *)
Definition bytes_of (s : string) : list Z := (λ a, Z.of_nat (nat_of_ascii a)) <$> list_ascii_of_string s.

(** Names and values; the sizes in the source are their lengths. *)
Definition s_hpack_static : list (list Z * list Z) := (λ '(n, v), (bytes_of n, bytes_of v)) <$> [
  (":authority", EmptyString);
  (":method", "GET");
  (":method", "POST");
  (":path", "/");
  (":path", "/index.html");
  (":scheme", "http");
  (":scheme", "https");
  (":status", "200");
  (":status", "204");
  (":status", "206");
  (":status", "304");
  (":status", "400");
  (":status", "404");
  (":status", "500");
  ("accept-charset", EmptyString);
  ("accept-encoding", "gzip, deflate");
  ("accept-language", EmptyString);
  ("accept-ranges", EmptyString);
  ("accept", EmptyString);
  ("access-control-allow-origin", EmptyString);
  ("age", EmptyString);
  ("allow", EmptyString);
  ("authorization", EmptyString);
  ("cache-control", EmptyString);
  ("content-disposition", EmptyString);
  ("content-encoding", EmptyString);
  ("content-language", EmptyString);
  ("content-length", EmptyString);
  ("content-location", EmptyString);
  ("content-range", EmptyString);
  ("content-type", EmptyString);
  ("cookie", EmptyString);
  ("date", EmptyString);
  ("etag", EmptyString);
  ("expect", EmptyString);
  ("expires", EmptyString);
  ("from", EmptyString);
  ("host", EmptyString);
  ("if-match", EmptyString);
  ("if-modified-since", EmptyString);
  ("if-none-match", EmptyString);
  ("if-range", EmptyString);
  ("if-unmodified-since", EmptyString);
  ("last-modified", EmptyString);
  ("link", EmptyString);
  ("location", EmptyString);
  ("max-forwards", EmptyString);
  ("proxy-authenticate", EmptyString);
  ("proxy-authorization", EmptyString);
  ("range", EmptyString);
  ("referer", EmptyString);
  ("refresh", EmptyString);
  ("retry-after", EmptyString);
  ("server", EmptyString);
  ("set-cookie", EmptyString);
  ("strict-transport-security", EmptyString);
  ("transfer-encoding", EmptyString);
  ("user-agent", EmptyString);
  ("vary", EmptyString);
  ("via", EmptyString);
  ("www-authenticate", EmptyString)]%string.

(** The number of bits and the code, in the high bits of a 32-bit word, of
    the symbols 0 to 255 and the end-of-string symbol. *)
Definition s_huff_sym : list (Z * Z) := [
  (13, 4290772992); (23, 4294946816); (28, 4294966816); (28, 4294966832); (28, 4294966848); (28, 4294966864);
  (28, 4294966880); (28, 4294966896); (28, 4294966912); (24, 4294961664); (30, 4294967280); (28, 4294966928);
  (28, 4294966944); (30, 4294967284); (28, 4294966960); (28, 4294966976); (28, 4294966992); (28, 4294967008);
  (28, 4294967024); (28, 4294967040); (28, 4294967056); (28, 4294967072); (30, 4294967288); (28, 4294967088);
  (28, 4294967104); (28, 4294967120); (28, 4294967136); (28, 4294967152); (28, 4294967168); (28, 4294967184);
  (28, 4294967200); (28, 4294967216); (6, 1342177280); (10, 4261412864); (10, 4265607168); (12, 4288675840);
  (13, 4291297280); (6, 1409286144); (8, 4160749568); (11, 4282384384); (10, 4269801472); (10, 4273995776);
  (8, 4177526784); (11, 4284481536); (8, 4194304000); (6, 1476395008); (6, 1543503872); (6, 1610612736);
  (5, 0); (5, 134217728); (5, 268435456); (6, 1677721600); (6, 1744830464); (6, 1811939328);
  (6, 1879048192); (6, 1946157056); (6, 2013265920); (6, 2080374784); (7, 3087007744); (8, 4211081216);
  (15, 4294443008); (6, 2147483648); (12, 4289724416); (10, 4278190080); (13, 4291821568); (6, 2214592512);
  (7, 3120562176); (7, 3154116608); (7, 3187671040); (7, 3221225472); (7, 3254779904); (7, 3288334336);
  (7, 3321888768); (7, 3355443200); (7, 3388997632); (7, 3422552064); (7, 3456106496); (7, 3489660928);
  (7, 3523215360); (7, 3556769792); (7, 3590324224); (7, 3623878656); (7, 3657433088); (7, 3690987520);
  (7, 3724541952); (7, 3758096384); (7, 3791650816); (7, 3825205248); (8, 4227858432); (7, 3858759680);
  (8, 4244635648); (13, 4292345856); (19, 4294836224); (13, 4292870144); (14, 4293918720); (6, 2281701376);
  (15, 4294574080); (5, 402653184); (6, 2348810240); (5, 536870912); (6, 2415919104); (5, 671088640);
  (6, 2483027968); (6, 2550136832); (6, 2617245696); (5, 805306368); (7, 3892314112); (7, 3925868544);
  (6, 2684354560); (6, 2751463424); (6, 2818572288); (5, 939524096); (6, 2885681152); (7, 3959422976);
  (6, 2952790016); (5, 1073741824); (5, 1207959552); (6, 3019898880); (7, 3992977408); (7, 4026531840);
  (7, 4060086272); (7, 4093640704); (7, 4127195136); (15, 4294705152); (11, 4286578688); (14, 4294180864);
  (13, 4293394432); (28, 4294967232); (20, 4294860800); (22, 4294920192); (20, 4294864896); (20, 4294868992);
  (22, 4294921216); (22, 4294922240); (22, 4294923264); (23, 4294947328); (22, 4294924288); (23, 4294947840);
  (23, 4294948352); (23, 4294948864); (23, 4294949376); (23, 4294949888); (24, 4294961920); (23, 4294950400);
  (24, 4294962176); (24, 4294962432); (22, 4294925312); (23, 4294950912); (24, 4294962688); (23, 4294951424);
  (23, 4294951936); (23, 4294952448); (23, 4294952960); (21, 4294893568); (22, 4294926336); (23, 4294953472);
  (22, 4294927360); (23, 4294953984); (23, 4294954496); (24, 4294962944); (22, 4294928384); (21, 4294895616);
  (20, 4294873088); (22, 4294929408); (22, 4294930432); (23, 4294955008); (23, 4294955520); (21, 4294897664);
  (23, 4294956032); (22, 4294931456); (22, 4294932480); (24, 4294963200); (21, 4294899712); (22, 4294933504);
  (23, 4294956544); (23, 4294957056); (21, 4294901760); (21, 4294903808); (22, 4294934528); (21, 4294905856);
  (23, 4294957568); (22, 4294935552); (23, 4294958080); (23, 4294958592); (20, 4294877184); (22, 4294936576);
  (22, 4294937600); (22, 4294938624); (23, 4294959104); (22, 4294939648); (22, 4294940672); (23, 4294959616);
  (26, 4294965248); (26, 4294965312); (20, 4294881280); (19, 4294844416); (22, 4294941696); (23, 4294960128);
  (22, 4294942720); (25, 4294964736); (26, 4294965376); (26, 4294965440); (26, 4294965504); (27, 4294966208);
  (27, 4294966240); (26, 4294965568); (24, 4294963456); (25, 4294964864); (19, 4294852608); (21, 4294907904);
  (26, 4294965632); (27, 4294966272); (27, 4294966304); (26, 4294965696); (27, 4294966336); (24, 4294963712);
  (21, 4294909952); (21, 4294912000); (26, 4294965760); (26, 4294965824); (28, 4294967248); (27, 4294966368);
  (27, 4294966400); (27, 4294966432); (20, 4294885376); (24, 4294963968); (20, 4294889472); (21, 4294914048);
  (22, 4294943744); (21, 4294916096); (21, 4294918144); (23, 4294960640); (22, 4294944768); (22, 4294945792);
  (25, 4294964992); (25, 4294965120); (24, 4294964224); (24, 4294964480); (26, 4294965888); (23, 4294961152);
  (26, 4294965952); (27, 4294966464); (26, 4294966016); (26, 4294966080); (27, 4294966496); (27, 4294966528);
  (27, 4294966560); (27, 4294966592); (27, 4294966624); (28, 4294967264); (27, 4294966656); (27, 4294966688);
  (27, 4294966720); (27, 4294966752); (27, 4294966784); (26, 4294966144); (30, 4294967292)].
