(* ===== verification/Hpack.v ===== *)
(** * Header compression of HTTP/2 ([chttp/src/chttp_h2_hpack.c])

    The growing output buffer, integers with a prefix, string literals, the
    Huffman decoding tree, the dynamic tables of an encoder and a decoder,
    and the encoding and decoding of header blocks. A function that returns
    [-1] on failure returns that number with the state it leaves. *)

From S2P Require Import Prelude World HpackTables.
Local Open Scope Z_scope.

(** ** The output buffer *)

(** [bu_data] holds [bu_capacity] bytes. *)
Record chttp_h2_hpack_buffer := MkBuffer {
  bu_data : list Z;
  bu_size : Z;
  bu_capacity : Z;
  bu_max_capacity : Z
}.

Implicit Types (b : chttp_h2_hpack_buffer).

Definition with_bytes b (data : list Z) (size : Z) : chttp_h2_hpack_buffer :=
  MkBuffer data size (bu_capacity b) (bu_max_capacity b).

(** [fresh]: what memory holds when it is allocated. *)
Section Buffer.
Context (fresh : Z → Z).

Definition chttp_h2_hpack_buffer_init (hint max_capacity : Z) : M (Z * option chttp_h2_hpack_buffer) :=
  if (max_capacity =? 0) || (max_capacity <? hint) then mret (-1, None) else
  let hint := if hint =? 0 then (if max_capacity <? 256 then max_capacity else 256) else hint in
  block ← malloc;
  if is_null block then mret (-1, None)
  else mret (0, Some (MkBuffer (fresh <$> seqZ 0 hint) 0 hint max_capacity)).

Definition chttp_h2_hpack_buffer_destroy (buffer : option chttp_h2_hpack_buffer) : M unit :=
  match buffer with None => mret tt | Some _ => mfree end.

(** The capacity after doubling; [Some None] when it cannot grow. *)
Fixpoint reserve_loop (fuel : nat) (max_capacity need cap : Z) : option (option Z) :=
  match fuel with
  | O => None
  | S fuel =>
      if cap <? need then
        let next := if max_capacity / 2 <? cap then max_capacity else cap * 2 in
        if next <=? cap then Some None else reserve_loop fuel max_capacity need next
      else Some (Some cap)
  end.

Definition chttp_h2_hpack_buffer_reserve b (extra : Z) : M (Z * chttp_h2_hpack_buffer) :=
  if (bu_capacity b <? bu_size b) || (bu_max_capacity b <? bu_capacity b) then mret (-1, b) else
  if extra <=? bu_capacity b - bu_size b then mret (0, b) else
  if bu_max_capacity b - bu_size b <? extra then mret (-1, b) else
  let need := bu_size b + extra in
  let cap := if bu_capacity b =? 0 then (if bu_max_capacity b <? 256 then bu_max_capacity b else 256) else bu_capacity b in
  grown ← lift (reserve_loop 66 (bu_max_capacity b) need cap);
  match grown with
  | None => mret (-1, b)
  | Some cap =>
      block ← realloc (Some 0);
      if is_null block then mret (-1, b)
      else mret (0, MkBuffer (bu_data b ++ (fresh <$> seqZ (bu_capacity b) (cap - bu_capacity b))) (bu_size b) cap
        (bu_max_capacity b))
  end.

(** [data[size++] = byte]. *)
Definition put_byte b (byte : Z) : option chttp_h2_hpack_buffer :=
  data ← store (bu_data b) (bu_size b) byte; Some (with_bytes b data (bu_size b + 1)).

(** [data[at] |= flag]. *)
Definition or_byte b (at_ flag : Z) : option chttp_h2_hpack_buffer :=
  byte ← load (bu_data b) at_;
  data ← store (bu_data b) at_ (Z.lor byte flag); Some (with_bytes b data (bu_size b)).

(** ** Integers *)

Fixpoint encoded_size_loop (fuel : nat) (remaining encoded_size : Z) : option Z :=
  match fuel with
  | O => None
  | S fuel =>
      if 128 <=? remaining then encoded_size_loop fuel (Z.shiftr remaining 7) (encoded_size + 1) else Some encoded_size
  end.

Fixpoint put_loop (fuel : nat) b (value : Z) : option chttp_h2_hpack_buffer :=
  match fuel with
  | O => None
  | S fuel =>
      if 128 <=? value then
        b ← put_byte b (Z.lor (Z.land value 127) 128); put_loop fuel b (Z.shiftr value 7)
      else put_byte b (u8 value)
  end.

Definition chttp_h2_hpack_integer_encode b (value prefix : Z) : M (Z * chttp_h2_hpack_buffer) :=
  if (prefix <? 1) || (8 <? prefix) then mret (-1, b) else
  let first := u8 (Z.shiftl 1 prefix - 1) in
  if value <? first then
    '(rc, b) ← chttp_h2_hpack_buffer_reserve b 1;
    if negb (rc =? 0) then mret (rc, b) else
    b ← lift (put_byte b (u8 value)); mret (0, b)
  else
    encoded_size ← lift (encoded_size_loop 6 (value - first) 2);
    '(rc, b) ← chttp_h2_hpack_buffer_reserve b encoded_size;
    if negb (rc =? 0) then mret (rc, b) else
    b ← lift (put_byte b first);
    b ← lift (put_loop 6 b (value - first)); mret (0, b).

(** The value and the position behind it; [Some None] is a refusal. *)
Fixpoint get_int_loop (fuel : nat) (in_ : list Z) (in_len pos shift value : Z) : option (option (Z * Z)) :=
  match fuel with
  | O => None
  | S fuel =>
      if (in_len <=? pos) || (28 <? shift) then Some None else
      byte ← load in_ pos;
      let value := u32 (value + u32 (Z.shiftl (Z.land byte 127) shift)) in
      if Z.land byte 128 =? 0 then Some (Some (value, pos + 1))
      else get_int_loop fuel in_ in_len (pos + 1) (shift + 7) value
  end.

Definition hpack_get_int (in_ : list Z) (in_len pos prefix : Z) : option (option (Z * Z)) :=
  if (prefix <? 1) || (8 <? prefix) then Some None else
  let first_mask := Z.shiftl 1 prefix - 1 in
  if in_len <=? pos then Some None else
  byte ← load in_ pos;
  let value := Z.land byte first_mask in
  if value <? first_mask then Some (Some (value, pos + 1))
  else get_int_loop 6 in_ in_len (pos + 1) 0 value.

(** ** String literals *)

(** The whole bytes among the [nbits] pending bits. *)
Fixpoint huff_flush (fuel : nat) (data : list Z) (bits nbits out_off : Z) : option (list Z * Z * Z) :=
  match fuel with
  | O => None
  | S fuel =>
      if 8 <=? nbits then
        data ← store data out_off (u8 (Z.shiftr bits (nbits - 8)));
        huff_flush fuel data bits (nbits - 8) (out_off + 1)
      else Some (data, nbits, out_off)
  end.

(** The codes of the bytes: the data, the pending bits, their number and the
    position behind what is written. *)
Fixpoint huff_put (s data : list Z) (bits nbits out_off : Z) : option (list Z * Z * Z * Z) :=
  match s with
  | [] => Some (data, bits, nbits, out_off)
  | c :: s =>
      '(nb, code) ← aget s_huff_sym c;
      let bits := u64 (Z.lor (Z.shiftl bits nb) (Z.shiftr code (32 - nb))) in
      '(data, nbits, out_off) ← huff_flush 6 data bits (nbits + nb) out_off;
      huff_put s data bits nbits out_off
  end.

(** With Huffman coding; no caller asks for it. *)
Definition hpack_put_huffman b (s : list Z) (len : Z) : M (Z * chttp_h2_hpack_buffer) :=
  if (SIZE_MAX - 8) / 4 <? len then mret (-1, b) else
  let max_enc := len * 4 + 8 in
  if SIZE_MAX - 8 <? max_enc then mret (-1, b) else
  '(rc, b) ← chttp_h2_hpack_buffer_reserve b (max_enc + 8);
  if negb (rc =? 0) then mret (-1, b) else
  bytes ← lift (slice s 0 len);
  '(data, bits, nbits, out_off) ← lift (huff_put bytes (bu_data b) 0 0 (bu_size b + 1));
  '(data, out_off) ← lift (if 0 <? nbits
    then data ← store data out_off (u8 (Z.lor (Z.shiftl bits (8 - nbits)) (Z.shiftl 1 (8 - nbits) - 1))); Some (data, out_off + 1)
    else Some (data, out_off));
  let enc_len := out_off - (bu_size b + 1) in
  '(rc, b) ← chttp_h2_hpack_integer_encode (with_bytes b data (bu_size b)) (u32 enc_len) 7;
  if negb (rc =? 0) then mret (rc, b) else
  b ← lift (or_byte b (bu_size b) 128);
  mret (0, with_bytes b (bu_data b) out_off).

Definition hpack_put_string b (s : list Z) (len : Z) (huffman : bool) : M (Z * chttp_h2_hpack_buffer) :=
  if 2147483647 <? len then mret (-1, b) else
  if huffman then hpack_put_huffman b s len else
  '(rc, b) ← chttp_h2_hpack_integer_encode b (u32 len) 7;
  if negb (rc =? 0) then mret (rc, b) else
  '(rc, b) ← chttp_h2_hpack_buffer_reserve b len;
  if negb (rc =? 0) then mret (rc, b) else
  bytes ← lift (slice s 0 len);
  data ← lift (blit (bu_data b) (bu_size b) bytes);
  mret (0, with_bytes b data (bu_size b + len)).
End Buffer.

(** ** The Huffman tree *)

Record hpack_huff_node_t := MkNode {
  no_zero : Z;
  no_one : Z;
  no_sym : Z
}.

Record hpack_huff_tree_t := MkTree {
  tr_nodes : list hpack_huff_node_t;
  tr_node_cap : Z
}.

Definition CHTTP_H2_HUFFMAN_MAX_NODES : Z := 8192.

(** A conversion to [int16_t]. *)
Definition i16 (x : Z) : Z := (x + 32768) mod 65536 - 32768.

Definition child_of (n : hpack_huff_node_t) (bit : Z) : Z := if bit =? 0 then no_zero n else no_one n.
Definition set_child (n : hpack_huff_node_t) (bit child : Z) : hpack_huff_node_t :=
  if bit =? 0 then MkNode child (no_one n) (no_sym n) else MkNode (no_zero n) child (no_sym n).
Definition empty_node : hpack_huff_node_t := MkNode (-1) (-1) (-1).

(** Room for one node more; [false] when there is none. *)
Definition tree_room (t : hpack_huff_tree_t) : M (bool * hpack_huff_tree_t) :=
  if tr_node_cap t <=? alen (tr_nodes t) then
    let ncap := if tr_node_cap t =? 0 then 16 else tr_node_cap t * 2 in
    let ncap := if CHTTP_H2_HUFFMAN_MAX_NODES / 2 <? tr_node_cap t then CHTTP_H2_HUFFMAN_MAX_NODES else ncap in
    if (ncap <=? tr_node_cap t) || (SIZE_MAX / 6 <? ncap) then mret (false, t) else
    nn ← realloc (Some 0);
    if is_null nn then mret (false, t) else mret (true, MkTree (tr_nodes t) ncap)
  else mret (true, t).

(** The bits of the code from [i] on, from the node on. *)
Fixpoint huff_tree_add_loop (fuel : nat) (t : hpack_huff_tree_t) (code nbits sym i node : Z) : M (Z * hpack_huff_tree_t) :=
  match fuel with
  | O => lift None
  | S fuel =>
      if i <? nbits then
        let bit := Z.land (Z.shiftr code (31 - i)) 1 in
        n ← lift (aget (tr_nodes t) node);
        if child_of n bit <? 0 then
          '(ok, t) ← tree_room t;
          if negb ok then mret (-1, t) else
          let idx := alen (tr_nodes t) in
          if tr_node_cap t <=? idx then lift None else
          nodes ← lift (aset (tr_nodes t ++ [empty_node]) node (set_child n bit (i16 idx)));
          huff_tree_add_loop fuel (MkTree nodes (tr_node_cap t)) code nbits sym (i + 1) (i16 idx)
        else huff_tree_add_loop fuel t code nbits sym (i + 1) (child_of n bit)
      else
        n ← lift (aget (tr_nodes t) node);
        nodes ← lift (aset (tr_nodes t) node (MkNode (no_zero n) (no_one n) (i16 sym)));
        mret (0, MkTree nodes (tr_node_cap t))
  end.

Definition huff_tree_add (t : hpack_huff_tree_t) (code nbits sym : Z) : M (Z * hpack_huff_tree_t) :=
  huff_tree_add_loop (S (Z.to_nat nbits)) t code nbits sym 0 0.

Fixpoint huff_tree_add_all (t : hpack_huff_tree_t) (rows : list (Z * Z)) (i : Z) : M (Z * hpack_huff_tree_t) :=
  match rows with
  | [] => mret (0, t)
  | (nbits, code) :: rows =>
      '(rc, t) ← huff_tree_add t code nbits i;
      if negb (rc =? 0) then mret (-1, t) else huff_tree_add_all t rows (i + 1)
  end.

(** For a tree that is still empty. *)
Definition huff_tree_build : M (Z * option hpack_huff_tree_t) :=
  block ← malloc;
  if is_null block then mret (-1, None) else
  '(rc, t) ← huff_tree_add_all (MkTree [empty_node] 16) s_huff_sym 0;
  mret (rc, Some t).

(** ** The dynamic table *)

Record hpack_entry_t := MkEntry {
  en_name : list Z;
  en_value : list Z;
  en_size : Z
}.

(** The entries in use, the newest first; their number is [count]. *)
Record hpack_dyn_table_t := MkTable {
  dt_entries : list hpack_entry_t;
  dt_capacity : Z;
  dt_max_entries : Z;
  dt_size : Z;
  dt_max_size : Z
}.

Implicit Types (t : hpack_dyn_table_t).

Definition dyn_entry_free (e : hpack_entry_t) : M unit := _ ← mfree; mfree.

Fixpoint dyn_entries_free (entries : list hpack_entry_t) : M unit :=
  match entries with [] => mret tt | e :: entries => _ ← dyn_entry_free e; dyn_entries_free entries end.

Definition dyn_table_destroy t : M unit :=
  _ ← dyn_entries_free (dt_entries t);
  if dt_capacity t =? 0 then mret tt else mfree.

Fixpoint dyn_table_evict_loop (fuel : nat) t : M hpack_dyn_table_t :=
  match fuel with
  | O => lift None
  | S fuel =>
      if (0 <? alen (dt_entries t)) && (dt_max_size t <? dt_size t) then
        let last := alen (dt_entries t) - 1 in
        e ← lift (aget (dt_entries t) last);
        _ ← dyn_entry_free e;
        dyn_table_evict_loop fuel (MkTable (take (Z.to_nat last) (dt_entries t)) (dt_capacity t) (dt_max_entries t)
          (u64 (dt_size t - en_size e)) (dt_max_size t))
      else mret t
  end.

Definition dyn_table_evict t : M hpack_dyn_table_t := dyn_table_evict_loop (S (length (dt_entries t))) t.

(** Room for one entry more; [false] when there is none. *)
Definition dyn_table_room t : M (bool * hpack_dyn_table_t) :=
  if dt_capacity t <=? alen (dt_entries t) then
    if dt_max_entries t <=? alen (dt_entries t) then mret (false, t) else
    let ncap := if dt_capacity t =? 0 then 8 else u64 (dt_capacity t * 2) in
    let ncap := if dt_max_entries t <? ncap then dt_max_entries t else ncap in
    if (ncap <=? dt_capacity t) || (SIZE_MAX / 40 <? ncap) then mret (false, t) else
    ne ← realloc (if dt_capacity t =? 0 then None else Some 0);
    if is_null ne then mret (false, t)
    else mret (true, MkTable (dt_entries t) ncap (dt_max_entries t) (dt_size t) (dt_max_size t))
  else mret (true, t).

Definition free_if (p : option Z) : M unit := if is_null p then mret tt else mfree.

Definition dyn_table_add t (name value : list Z) : M (Z * hpack_dyn_table_t) :=
  let name_len := blen name in
  let value_len := blen value in
  if (SIZE_MAX - value_len <? name_len) || (SIZE_MAX - 32 <? name_len + value_len) then mret (-1, t) else
  let esize := name_len + value_len + 32 in
  if dt_max_size t <? esize then mret (0, t) else
  '(ok, t) ← dyn_table_room t;
  if negb ok then mret (-1, t) else
  ncopy ← malloc;
  vcopy ← malloc;
  if is_null ncopy || is_null vcopy then _ ← free_if ncopy; _ ← free_if vcopy; mret (-1, t) else
  if dt_capacity t <=? alen (dt_entries t) then lift None else
  t ← dyn_table_evict (MkTable (MkEntry name value esize :: dt_entries t) (dt_capacity t) (dt_max_entries t)
    (u64 (dt_size t + esize)) (dt_max_size t));
  mret (0, t).

Definition bytes_eqb (a b : list Z) : bool := bool_decide (a = b).

(** The index of the first entry with the name and, unless only the name
    counts, the value; 0 when there is none. *)
Fixpoint dyn_table_find_loop (entries : list hpack_entry_t) (i : Z) (name value : list Z) (name_only : bool) : Z :=
  match entries with
  | [] => 0
  | e :: entries =>
      if bytes_eqb (en_name e) name && (name_only || bytes_eqb (en_value e) value) then u32 (62 + i)
      else dyn_table_find_loop entries (i + 1) name value name_only
  end.

Definition dyn_table_find t (name value : list Z) (name_only : bool) : Z :=
  dyn_table_find_loop (dt_entries t) 0 name value name_only.

Fixpoint static_find (rows : list (list Z * list Z)) (i : Z) (name value : list Z) (name_only : bool) : Z :=
  match rows with
  | [] => 0
  | (n, v) :: rows =>
      if bytes_eqb n name && (name_only || bytes_eqb v value) then i + 1
      else static_find rows (i + 1) name value name_only
  end.

Definition static_find_full (name value : list Z) : Z := static_find s_hpack_static 0 name value false.
Definition static_find_name (name : list Z) : Z := static_find s_hpack_static 0 name [] true.
