(* ===== verification/HpackCodec.v ===== *)
(** * Header blocks of HTTP/2 ([chttp/src/chttp_h2_hpack.c])

    The context with its two dynamic tables, the table size changes, the
    decoding of Huffman strings and of string literals, and the encoding and
    decoding of whole header blocks. *)

From S2P Require Import Prelude World HpackTables Hpack.
Local Open Scope Z_scope.

(** ** The context *)

Record chttp_h2_hpack_config := MkConfig {
  hc_max_dynamic_table_bytes : Z;
  hc_max_header_block_bytes : Z;
  hc_max_string_bytes : Z
}.

Record chttp_h2_hpack := MkHpack {
  hp_encoder : hpack_dyn_table_t;
  hp_decoder : hpack_dyn_table_t;
  hp_huff : list hpack_huff_node_t;
  hp_decoder_max_size : Z;
  hp_encoder_pending_min_size : Z;
  hp_encoder_pending_final_size : Z;
  hp_encoder_size_update_pending : bool;
  hp_max_dynamic_table_bytes : Z;
  hp_max_header_block_bytes : Z;
  hp_max_string_bytes : Z
}.

Implicit Types (h : chttp_h2_hpack) (t : hpack_dyn_table_t).

Definition set_encoder h t : chttp_h2_hpack :=
  MkHpack t (hp_decoder h) (hp_huff h) (hp_decoder_max_size h) (hp_encoder_pending_min_size h) (hp_encoder_pending_final_size h)
    (hp_encoder_size_update_pending h) (hp_max_dynamic_table_bytes h) (hp_max_header_block_bytes h) (hp_max_string_bytes h).
Definition set_decoder h t (decoder_max_size : Z) : chttp_h2_hpack :=
  MkHpack (hp_encoder h) t (hp_huff h) decoder_max_size (hp_encoder_pending_min_size h) (hp_encoder_pending_final_size h)
    (hp_encoder_size_update_pending h) (hp_max_dynamic_table_bytes h) (hp_max_header_block_bytes h) (hp_max_string_bytes h).
Definition set_pending h (min_size final_size : Z) (pending : bool) : chttp_h2_hpack :=
  MkHpack (hp_encoder h) (hp_decoder h) (hp_huff h) (hp_decoder_max_size h) min_size final_size pending
    (hp_max_dynamic_table_bytes h) (hp_max_header_block_bytes h) (hp_max_string_bytes h).

Definition with_max_size t (max_size : Z) : hpack_dyn_table_t :=
  MkTable (dt_entries t) (dt_capacity t) (dt_max_entries t) (dt_size t) max_size.

(** [None] for [NULL]; the nodes of the tree stay allocated when the tree
    cannot be built. *)
Definition chttp_h2_hpack_create (config : option chttp_h2_hpack_config) : M (option chttp_h2_hpack) :=
  p ← malloc;
  match config with
  | None => _ ← free_if p; mret None
  | Some c =>
      if (UINT32_MAX <? hc_max_dynamic_table_bytes c) || (hc_max_header_block_bytes c =? 0) || (hc_max_string_bytes c =? 0)
         || is_null p
      then _ ← free_if p; mret None else
      let max_size := hc_max_dynamic_table_bytes c in
      '(rc, tree) ← huff_tree_build;
      match tree with
      | Some tree =>
          if negb (rc =? 0) then _ ← mfree; mret None else
          let table := MkTable [] 0 (max_size / 32) 0 max_size in
          mret (Some (MkHpack table table (tr_nodes tree) max_size 0 0 false max_size (hc_max_header_block_bytes c)
            (hc_max_string_bytes c)))
      | None => _ ← mfree; mret None
      end
  end.

Definition chttp_h2_hpack_destroy (hpack : option chttp_h2_hpack) : M unit :=
  match hpack with
  | None => mret tt
  | Some h =>
      _ ← dyn_table_destroy (hp_encoder h);
      _ ← dyn_table_destroy (hp_decoder h);
      _ ← mfree;
      mfree
  end.

Definition chttp_h2_hpack_encoder_set_max_size h (max_size : Z) : M (Z * chttp_h2_hpack) :=
  if hp_max_dynamic_table_bytes h <? max_size then mret (-1, h) else
  let h :=
    if negb (max_size =? dt_max_size (hp_encoder h)) then
      let min_size :=
        if negb (hp_encoder_size_update_pending h) || (max_size <? hp_encoder_pending_min_size h) then max_size
        else hp_encoder_pending_min_size h in
      set_pending h min_size max_size true
    else h in
  t ← dyn_table_evict (with_max_size (hp_encoder h) max_size);
  mret (0, set_encoder h t).

Definition chttp_h2_hpack_decoder_set_max_size h (max_size : Z) : M (Z * chttp_h2_hpack) :=
  if hp_max_dynamic_table_bytes h <? max_size then mret (-1, h) else
  t ← dyn_table_evict (with_max_size (hp_decoder h) max_size);
  mret (0, set_decoder h t max_size).

Definition chttp_h2_hpack_decoder_table_size_update h (new_size : Z) : M (Z * chttp_h2_hpack) :=
  if hp_decoder_max_size h <? new_size then mret (-1, h) else
  t ← dyn_table_evict (with_max_size (hp_decoder h) new_size);
  mret (0, set_decoder h t (hp_decoder_max_size h)).

(** ** Huffman strings *)

(** The node, the bits since the last symbol (their number and the first
    eight of them, [None] while uninitialised), what is written and the
    capacity of the buffer. *)
Record huff_state := MkHuff {
  hs_node : Z;
  hs_pad_n : Z;
  hs_pad_bits : list (option Z);
  hs_out : list Z;
  hs_cap : Z
}.

(** Room for one byte more; [None] when the buffer cannot grow. *)
Definition huff_room (max_string_bytes : Z) (out : list Z) (cap : Z) : M (option Z) :=
  if cap <=? blen out then
    let next := if max_string_bytes / 2 <? cap then max_string_bytes else cap * 2 in
    if next <=? cap then mret None else
    nb ← realloc (Some 0);
    if is_null nb then mret None else mret (Some next)
  else mret (Some cap).

(** One bit; [None] for a refusal, after the buffer is freed. *)
Definition huff_bit (nodes : list hpack_huff_node_t) (max_string_bytes : Z) (s : huff_state) (b : Z) : M (option huff_state) :=
  if hs_node s =? -1 then _ ← mfree; mret None else
  n ← lift (aget nodes (hs_node s));
  let child := child_of n b in
  if child =? -1 then _ ← mfree; mret None else
  pad_bits ← lift (if hs_pad_n s <? 8 then aset (hs_pad_bits s) (hs_pad_n s) (Some b) else Some (hs_pad_bits s));
  c ← lift (aget nodes child);
  if 0 <=? no_sym c then
    if no_sym c =? 256 then _ ← mfree; mret None else
    room ← huff_room max_string_bytes (hs_out s) (hs_cap s);
    match room with
    | None => _ ← mfree; mret None
    | Some cap =>
        if cap <=? blen (hs_out s) then lift None else
        mret (Some (MkHuff 0 0 pad_bits (hs_out s ++ [u8 (no_sym c)]) cap))
    end
  else mret (Some (MkHuff child (hs_pad_n s + 1) pad_bits (hs_out s) (hs_cap s))).

(** The bits of a byte, the highest first. *)
Definition bits_of (byte : Z) : list Z := (λ bit, Z.land (Z.shiftr byte bit) 1) <$> [7; 6; 5; 4; 3; 2; 1; 0].

Fixpoint huff_bits (nodes : list hpack_huff_node_t) (max_string_bytes : Z) (s : huff_state) (bits : list Z) : M (option huff_state) :=
  match bits with
  | [] => mret (Some s)
  | b :: bits =>
      r ← huff_bit nodes max_string_bytes s b;
      match r with None => mret None | Some s => huff_bits nodes max_string_bytes s bits end
  end.

(** Whether the first [n] padding bits are ones. *)
Fixpoint pad_ones (pad_bits : list (option Z)) (n : nat) : option bool :=
  match n with
  | O => Some true
  | S n =>
      match pad_bits with
      | Some b :: pad_bits => if negb (b =? 1) then Some false else pad_ones pad_bits n
      | _ => None
      end
  end.

(** The bytes of the allocated string; [None] for a refusal. *)
Definition hpack_huff_decode h (in_ : list Z) : M (option (list Z)) :=
  let in_len := blen in_ in
  if (hp_max_string_bytes h <? in_len) || ((SIZE_MAX - 16) / 2 <? in_len) then mret None else
  let out_cap := in_len * 2 + 16 in
  let out_cap := if hp_max_string_bytes h <? out_cap then hp_max_string_bytes h else out_cap in
  if out_cap =? 0 then mret None else
  buf ← malloc;
  if is_null buf then mret None else
  r ← huff_bits (hp_huff h) (hp_max_string_bytes h) (MkHuff 0 0 (replicate 8 None) [] out_cap) (in_ ≫= bits_of);
  match r with
  | None => mret None
  | Some s =>
      if 7 <? hs_pad_n s then _ ← mfree; mret None else
      ones ← lift (pad_ones (hs_pad_bits s) (Z.to_nat (hs_pad_n s)));
      if negb ones then _ ← mfree; mret None else mret (Some (hs_out s))
  end.

(** The string, whether it is an allocated one, and the position behind it. *)
Definition hpack_get_string h (in_ : list Z) (in_len pos : Z) : M (option (list Z * bool * Z)) :=
  if in_len <=? pos then mret None else
  byte ← lift (load in_ pos);
  let huff := negb (Z.land byte 128 =? 0) in
  r ← lift (hpack_get_int in_ in_len pos 7);
  match r with
  | None => mret None
  | Some (len, p) =>
      if in_len - p <? len then mret None else
      if hp_max_string_bytes h <? len then mret None else
      bytes ← lift (slice in_ p len);
      if huff then
        buf ← hpack_huff_decode h bytes;
        match buf with None => mret None | Some buf => mret (Some (buf, true, p + len)) end
      else mret (Some (bytes, false, p + len))
  end.

(** Name and value of an entry of the static or the decoder's table. *)
Definition table_get h (index : Z) : option (option (list Z * list Z)) :=
  if index =? 0 then Some None else
  if index <=? 61 then Some <$> aget s_hpack_static (index - 1) else
  let d := u32 (index - 62) in
  if alen (dt_entries (hp_decoder h)) <=? d then Some None else
  e ← aget (dt_entries (hp_decoder h)) d;
  Some (Some (en_name e, en_value e)).

(** ** Encoding *)

(** The sizes are the lengths; [None] is a null pointer. *)
Record chttp_h2_hpack_header := MkHeader {
  hd_name : option (list Z);
  hd_value : option (list Z)
}.

Section Encode.
Context (fresh : Z → Z).

(** An integer whose first byte carries the flag. *)
Definition put_flagged (b : chttp_h2_hpack_buffer) (value prefix flag : Z) : M (Z * chttp_h2_hpack_buffer) :=
  let start := bu_size b in
  '(rc, b) ← chttp_h2_hpack_integer_encode fresh b value prefix;
  if negb (rc =? 0) then mret (-1, b) else
  b ← lift (or_byte b start flag); mret (0, b).

Definition hpack_put_table_size_update (b : chttp_h2_hpack_buffer) (size : Z) : M (Z * chttp_h2_hpack_buffer) :=
  put_flagged b (u32 size) 5 32.

(** The name, when no table has it, and the value of a literal. *)
Definition put_literal (b : chttp_h2_hpack_buffer) (name_idx : Z) (name value : list Z) : M (Z * chttp_h2_hpack_buffer) :=
  '(rc, b) ← (if name_idx =? 0 then hpack_put_string fresh b name (blen name) false else mret (0, b));
  if negb (rc =? 0) then mret (-1, b) else
  '(rc, b) ← hpack_put_string fresh b value (blen value) false;
  if negb (rc =? 0) then mret (-1, b) else mret (0, b).

(** The table size updates that are due. *)
Definition put_updates h (b : chttp_h2_hpack_buffer) : M (Z * chttp_h2_hpack * chttp_h2_hpack_buffer) :=
  if hp_encoder_size_update_pending h then
    '(rc, b) ← hpack_put_table_size_update b (hp_encoder_pending_min_size h);
    if negb (rc =? 0) then mret (-1, h, b) else
    '(rc, b) ← (if negb (hp_encoder_pending_final_size h =? hp_encoder_pending_min_size h)
      then hpack_put_table_size_update b (hp_encoder_pending_final_size h) else mret (0, b));
    if negb (rc =? 0) then mret (-1, h, b) else
    mret (0, set_pending h (hp_encoder_pending_min_size h) (hp_encoder_pending_final_size h) false, b)
  else mret (0, h, b).

(** One header of the loop of [chttp_h2_hpack_encode]. *)
Definition encode_header h (b : chttp_h2_hpack_buffer) (hd : chttp_h2_hpack_header) : M (Z * chttp_h2_hpack * chttp_h2_hpack_buffer) :=
  match hd_name hd, hd_value hd with
  | Some name, Some value =>
      if (hp_max_string_bytes h <? blen name) || (hp_max_string_bytes h <? blen value) then mret (-1, h, b) else
      let full := static_find_full name value in
      let full := if full =? 0 then dyn_table_find (hp_encoder h) name value false else full in
      if negb (full =? 0) then
        '(rc, b) ← put_flagged b full 7 128;
        if negb (rc =? 0) then mret (-1, h, b) else mret (0, h, b)
      else
      let name_idx := static_find_name name in
      let name_idx := if name_idx =? 0 then dyn_table_find (hp_encoder h) name [] true else name_idx in
      if dt_max_size (hp_encoder h) =? 0 then
        '(rc, b) ← chttp_h2_hpack_integer_encode fresh b name_idx 4;
        if negb (rc =? 0) then mret (-1, h, b) else
        '(rc, b) ← put_literal b name_idx name value;
        if negb (rc =? 0) then mret (-1, h, b) else mret (0, h, b)
      else
        '(rc, b) ← put_flagged b name_idx 6 64;
        if negb (rc =? 0) then mret (-1, h, b) else
        '(rc, b) ← put_literal b name_idx name value;
        if negb (rc =? 0) then mret (-1, h, b) else
        '(rc, t) ← dyn_table_add (hp_encoder h) name value;
        if negb (rc =? 0) then mret (-1, set_encoder h t, b) else mret (0, set_encoder h t, b)
  | _, _ => mret (-1, h, b)
  end.

Fixpoint encode_headers h (b : chttp_h2_hpack_buffer) (hdrs : list chttp_h2_hpack_header) : M (Z * chttp_h2_hpack * chttp_h2_hpack_buffer) :=
  match hdrs with
  | [] => mret (0, h, b)
  | hd :: hdrs =>
      '(rc, h, b) ← encode_header h b hd;
      if negb (rc =? 0) then mret (-1, h, b) else encode_headers h b hdrs
  end.

Definition chttp_h2_hpack_encode h (out : chttp_h2_hpack_buffer) (hdrs : list chttp_h2_hpack_header) :
    M (Z * chttp_h2_hpack * chttp_h2_hpack_buffer) :=
  if hp_max_header_block_bytes h <? bu_max_capacity out then mret (-1, h, out) else
  '(rc, h, out) ← put_updates h out;
  if negb (rc =? 0) then mret (-1, h, out) else encode_headers h out hdrs.
End Encode.

(** ** Decoding *)

(** [None] for an error. *)
Definition hpack_add_header_list_size (list_size name_size value_size max_size : Z) : option Z :=
  if max_size =? 0 then Some list_size else
  if (SIZE_MAX - value_size <? name_size) || (SIZE_MAX - 32 <? name_size + value_size) then None else
  let field_size := name_size + value_size + 32 in
  if (max_size <? list_size) || (max_size - list_size <? field_size) then None else Some (list_size + field_size).

(** The locals of [chttp_h2_hpack_decode], and the headers the callback was
    given. *)
Record decode_state := MkDecode {
  de_hpack : chttp_h2_hpack;
  de_pos : Z;
  de_list_bytes : Z;
  de_too_large : bool;
  de_calls : list (list Z * list Z)
}.

Section Decode.
(** The answer of the callback to the last of the calls, if there is a
    callback. *)
Context (cb : option (list (list Z * list Z) → Z)) (in_ : list Z) (in_len max_header_list_size : Z).

Implicit Types (d : decode_state).

Definition at_pos d (pos : Z) : decode_state :=
  MkDecode (de_hpack d) pos (de_list_bytes d) (de_too_large d) (de_calls d).
Definition with_hpack d h : decode_state :=
  MkDecode h (de_pos d) (de_list_bytes d) (de_too_large d) (de_calls d).

(** A header is counted and reported; [true] when the callback aborts. *)
Definition report d (name value : list Z) : bool * decode_state :=
  let '(list_bytes, too_large) :=
    if de_too_large d then (de_list_bytes d, true) else
    match hpack_add_header_list_size (de_list_bytes d) (blen name) (blen value) max_header_list_size with
    | Some n => (n, false)
    | None => (de_list_bytes d, true)
    end in
  match cb with
  | Some f =>
      if too_large then (false, MkDecode (de_hpack d) (de_pos d) list_bytes too_large (de_calls d)) else
      let calls := de_calls d ++ [(name, value)] in
      (negb (f calls =? 0), MkDecode (de_hpack d) (de_pos d) list_bytes too_large calls)
  | None => (false, MkDecode (de_hpack d) (de_pos d) list_bytes too_large (de_calls d))
  end.

(** The name and the value of a literal, whether they are allocated, and the
    position behind; [None] for an error, after an allocated name is freed. *)
Definition get_literal h (pos prefix : Z) : M (option (list Z * bool * list Z * bool * Z)) :=
  r ← lift (hpack_get_int in_ in_len pos prefix);
  match r with
  | None => mret None
  | Some (index, pos) =>
      n ← (if index =? 0 then hpack_get_string h in_ in_len pos
           else r ← lift (table_get h index); mret (match r with None => None | Some (name, _) => Some (name, false, pos) end));
      match n with
      | None => mret None
      | Some (name, n_owned, pos) =>
          v ← hpack_get_string h in_ in_len pos;
          match v with
          | None => _ ← (if n_owned : bool then mfree else mret tt); mret None
          | Some (value, v_owned, pos) => mret (Some (name, n_owned, value, v_owned, pos))
          end
      end
  end.

Definition free_owned (n_owned v_owned : bool) : M unit :=
  _ ← (if n_owned then mfree else mret tt);
  if v_owned then mfree else mret tt.

Definition decode_indexed d : M (Z * decode_state) :=
  r ← lift (hpack_get_int in_ in_len (de_pos d) 7);
  match r with
  | None => mret (-1, d)
  | Some (index, pos) =>
      e ← lift (table_get (de_hpack d) index);
      match e with
      | None => mret (-1, at_pos d pos)
      | Some (name, value) =>
          let '(aborted, d) := report (at_pos d pos) name value in
          mret (if aborted : bool then -3 else 0, d)
      end
  end.

Definition decode_literal d (prefix : Z) (indexing : bool) : M (Z * decode_state) :=
  l ← get_literal (de_hpack d) (de_pos d) prefix;
  match l with
  | None => mret (-1, d)
  | Some (name, n_owned, value, v_owned, pos) =>
      let '(aborted, d) := report (at_pos d pos) name value in
      if aborted : bool then _ ← free_owned n_owned v_owned; mret (-3, d) else
      if indexing then
        '(rc, t) ← dyn_table_add (hp_decoder (de_hpack d)) name value;
        let d := with_hpack d (set_decoder (de_hpack d) t (hp_decoder_max_size (de_hpack d))) in
        _ ← free_owned n_owned v_owned;
        mret (if negb (rc =? 0) then -1 else 0, d)
      else _ ← free_owned n_owned v_owned; mret (0, d)
  end.

Definition decode_size_update d : M (Z * decode_state) :=
  r ← lift (hpack_get_int in_ in_len (de_pos d) 5);
  match r with
  | None => mret (-1, d)
  | Some (new_size, pos) =>
      '(rc, h) ← chttp_h2_hpack_decoder_table_size_update (de_hpack d) new_size;
      mret (if negb (rc =? 0) then -1 else 0, with_hpack (at_pos d pos) h)
  end.

Definition decode_field d : M (Z * decode_state) :=
  b ← lift (load in_ (de_pos d));
  if negb (Z.land b 128 =? 0) then decode_indexed d else
  if negb (Z.land b 64 =? 0) then decode_literal d 6 true else
  if negb (Z.land b 32 =? 0) then decode_size_update d else decode_literal d 4 false.

Fixpoint decode_loop (fuel : nat) d : M (Z * decode_state) :=
  match fuel with
  | O => lift None
  | S fuel =>
      if de_pos d <? in_len then
        '(rc, d) ← decode_field d;
        if negb (rc =? 0) then mret (rc, d) else decode_loop fuel d
      else mret (if de_too_large d then -2 else 0, d)
  end.
End Decode.

(** The status, the bytes consumed if that is written, the context and the
    headers that were reported. *)
Definition chttp_h2_hpack_decode (cb : option (list (list Z * list Z) → Z)) h (in_ : list Z) (in_len max_header_list_size : Z) :
    M (Z * option Z * chttp_h2_hpack * list (list Z * list Z)) :=
  if hp_max_header_block_bytes h <? in_len then mret (-1, None, h, []) else
  '(rc, d) ← decode_loop cb in_ in_len max_header_list_size (S (Z.to_nat in_len)) (MkDecode h 0 0 false []);
  let consumed := if (rc =? 0) || (rc =? -2) then de_pos d else 0 in
  mret (rc, Some consumed, de_hpack d, de_calls d).
