(* ===== verification/HpackWire.v ===== *)
(** * The wire format of header compression

    What the output buffer holds after each of the writers, and that the
    readers read it back: integers with a prefix and string literals. *)

From S2P Require Import Prelude World HpackTables Hpack HpackCodec.
Local Open Scope Z_scope.

(** ** The output buffer *)

(** A block of the capacity's size, whose front is [bytes]. *)
Record holds (b : chttp_h2_hpack_buffer) (bytes : list Z) : Prop := {
  ho_bytes : slice (bu_data b) 0 (bu_size b) = Some bytes;
  ho_capacity : blen (bu_data b) = bu_capacity b;
  ho_max : bu_capacity b <= bu_max_capacity b;
  ho_word : is_u64 (bu_max_capacity b)
}.

Lemma holds_size b bytes : holds b bytes → blen bytes = bu_size b ∧ 0 <= bu_size b <= bu_capacity b.
Proof.
  intros [Hs Hc _ _]. split; [by apply (slice_blen _ _ _ _ Hs)|]. apply slice_bounds in Hs. lia.
Qed.

(** [m], which works on [b], appends [new], or fails with [-1]; it allocates
    at most [k] times, keeps the number of blocks, and fails only when [P]
    does not hold or memory or room runs out. *)
Definition appends (P : Prop) (k : nat) (new : list Z) (m : M (Z * chttp_h2_hpack_buffer)) (b : chttp_h2_hpack_buffer) : Prop :=
  ∀ w old, holds b old → ∃ rc b' w', m w = Some ((rc, b'), w') ∧
    bu_max_capacity b' = bu_max_capacity b ∧ w_blocks w' = w_blocks w ∧
    (rc = 0 ∧ P ∧ holds b' (old ++ new) ∨ rc = -1 ∧ ∃ kept, holds b' kept) ∧
    (∀ j, P → supply (k + j) w → bu_size b + blen new <= bu_max_capacity b → rc = 0 ∧ supply j w').

Lemma realloc_ok block w :
  ∃ r w', realloc block w = Some (r, w') ∧
    w_blocks w' = w_blocks w + (if is_null r then 0 else if is_null block then 1 else 0) ∧
    ∀ j, supply (1 + j) w → is_null r = false ∧ supply j w'.
Proof.
  destruct (malloc_ok w) as (r & w1 & Hm & Hb & _ & Hs). unfold realloc. wstep Hm.
  destruct (is_null r) eqn:Hr.
  - exists None, w1. wrun. split; [done|]. cbn. split; [lia|]. intros j Hj. destruct (Hs j Hj) as [? _]. done.
  - destruct (is_null block) eqn:Hbl.
    + exists r, w1. wrun. rewrite Hr. split; [done|]. split; [lia|]. intros j Hj. by apply Hs.
    + eexists r, _. split; [reflexivity|]. cbn. rewrite Hr. split; [lia|]. intros j Hj. split; [done|].
      apply (supply_malloc _ w1); [done|]. by apply Hs.
Qed.

(** Two writers one after the other. *)
Lemma appends_seq P1 P2 k1 k2 new1 new2 m f b (g : Z → Z) :
  g (-1) = -1 → appends P1 k1 new1 m b →
  (∀ b1, bu_max_capacity b1 = bu_max_capacity b → appends P2 k2 new2 (f b1) b1) →
  appends (P1 ∧ P2) (k1 + k2) (new1 ++ new2) (r ← m; let '(rc, b) := r in if negb (rc =? 0) then mret (g rc, b) else f b) b.
Proof.
  intros Hg Hm Hf w old Hold. destruct (Hm w old Hold) as (rc & b1 & w1 & E & Hmax & Hbl & Hrc & Hs). wstep E.
  rewrite blen_app. pose proof (blen_nonneg new2) as Hpos. pose proof (holds_size _ _ Hold) as [Hl Hs0].
  destruct Hrc as [(-> & HP1 & Hh)|[-> [kept Hh]]]; cbn [Z.eqb negb].
  - destruct (Hf b1 Hmax w1 _ Hh) as (rc & b2 & w2 & E2 & Hmax2 & Hbl2 & Hrc2 & Hs2). rewrite E2.
    exists rc, b2, w2. split; [done|]. split; [congruence|]. split; [congruence|]. split.
    { rewrite app_assoc. tauto. }
    intros j [_ HP2] Hj Hroom. destruct (Hs (k2 + j)%nat) as [_ Hj1]; [done|by rewrite Nat.add_assoc|lia|].
    apply Hs2; [done|done|]. pose proof (holds_size _ _ Hh) as [Hl1 _]. rewrite blen_app in Hl1. lia.
  - exists (-1), b1, w1. wrun. rewrite Hg. split; [done|]. split; [done|]. split; [done|]. split; [right; eauto|].
    intros j [HP1 _] Hj Hroom. destruct (Hs (k2 + j)%nat) as [? _]; [done|by rewrite Nat.add_assoc|lia|done].
Qed.

Lemma appends_nothing b : appends True 0 [] (mret (0, b)) b.
Proof.
  intros w old Hold. exists 0, b, w. wrun. rewrite app_nil_r. split; [done|]. split; [done|]. split; [done|].
  split; [left; done|]. intros j _ Hj _. done.
Qed.

Lemma appends_weaken (P Q : Prop) k1 k2 new m b :
  (k1 <= k2)%nat → (P ↔ Q) → appends P k1 new m b → appends Q k2 new m b.
Proof.
  intros Hk HPQ Hm w old Hold. destruct (Hm w old Hold) as (rc & b' & w' & E & Hmax & Hbl & Hrc & Hs).
  exists rc, b', w'. do 3 (split; [done|]). split; [tauto|]. intros j HQ Hj Hroom. apply Hs; [tauto| |done]. eapply supply_weaken; [|exact Hj]. lia.
Qed.

Lemma reserve_loop_ok fuel max need cap :
  0 < cap <= max → need <= max → max <= cap * 2 ^ Z.of_nat fuel →
  ∃ cap', reserve_loop (S fuel) max need cap = Some (Some cap') ∧ cap <= cap' <= max ∧ need <= cap'.
Proof.
  revert cap. induction fuel as [|fuel IH]; intros cap Hcap Hneed Hf; cbn [reserve_loop].
  - replace (2 ^ Z.of_nat 0) with 1 in Hf by done. destruct (Z.ltb_spec cap need); [lia|]. exists cap. split; [done|lia].
  - destruct (Z.ltb_spec cap need) as [Hlt|Hge]; [|exists cap; split; [done|lia]].
    set (next := if max / 2 <? cap then max else cap * 2).
    assert (cap < next <= max) as Hnext.
    { unfold next. destruct (Z.ltb_spec (max / 2) cap); [lia|]. pose proof (Z.mul_div_le max 2). lia. }
    destruct (Z.leb_spec next cap); [lia|].
    destruct (IH next) as (cap' & Hr & Hc & Hn); [lia|done| |].
    + rewrite Nat2Z.inj_succ, Z.pow_succ_r in Hf by lia. unfold next. destruct (Z.ltb_spec (max / 2) cap); [|lia].
      pose proof (Z.pow_pos_nonneg 2 (Z.of_nat fuel)). nia.
    + exists cap'. split; [exact Hr|lia].
Qed.

Section Writers.
Context (fresh : Z → Z).

(** [reserve] makes room and changes nothing else. *)
Lemma reserve_ok b extra w old :
  holds b old → 0 <= extra → 0 < bu_max_capacity b →
  ∃ rc b' w', chttp_h2_hpack_buffer_reserve fresh b extra w = Some ((rc, b'), w') ∧ holds b' old ∧
    bu_max_capacity b' = bu_max_capacity b ∧ bu_size b' = bu_size b ∧ w_blocks w' = w_blocks w ∧
    (rc = 0 ∧ bu_size b' + extra <= bu_capacity b' ∨ rc = -1) ∧
    (∀ j, supply (1 + j) w → bu_size b + extra <= bu_max_capacity b → rc = 0 ∧ supply j w').
Proof.
  intros Hold Hx Hm. pose proof (holds_size _ _ Hold) as [Hl Hsz]. pose proof Hold as [Hb Hc Hmx Hw].
  unfold chttp_h2_hpack_buffer_reserve.
  destruct (Z.ltb_spec (bu_capacity b) (bu_size b)); [lia|]. destruct (Z.ltb_spec (bu_max_capacity b) (bu_capacity b)); [lia|].
  cbn [orb]. destruct (Z.leb_spec extra (bu_capacity b - bu_size b)) as [Hfit|Hfit].
  { exists 0, b, w. wrun. split; [done|]. split; [done|]. split; [done|]. split; [done|]. split; [done|]. split; [left; lia|].
    intros j Hj _. split; [done|]. by apply (supply_weaken (1 + j)); [lia|]. }
  destruct (Z.ltb_spec (bu_max_capacity b - bu_size b) extra) as [Hbig|Hbig].
  { exists (-1), b, w. wrun. do 5 (split; [done|]). split; [by right|]. lia. }
  set (cap := if bu_capacity b =? 0 then _ else _).
  assert (0 < cap <= bu_max_capacity b ∧ bu_capacity b <= cap) as [Hcap Hcap'].
  { unfold cap. destruct (Z.eqb_spec (bu_capacity b) 0); [|lia]. destruct (Z.ltb_spec (bu_max_capacity b) 256); lia. }
  destruct (reserve_loop_ok 65 (bu_max_capacity b) (bu_size b + extra) cap) as (cap' & -> & Hle & Hn); [lia|lia| |].
  { unfold is_u64, UINT64_MAX in Hw. replace (2 ^ Z.of_nat 65) with 36893488147419103232 by done. lia. }
  wrun. destruct (realloc_ok (Some 0) w) as (r & w1 & Hr & Hbl & Hs). wstep Hr. destruct (is_null r) eqn:Hnull.
  { exists (-1), b, w1. wrun. do 4 (split; [done|]). split; [lia|]. split; [by right|].
    intros j Hj. destruct (Hs j Hj). done. }
  eexists 0, _, w1. wrun. split; [reflexivity|]. split; [|cbn [bu_max_capacity bu_size bu_capacity]].
  { split; cbn [bu_data bu_size bu_capacity bu_max_capacity]; [| |lia|done].
    - apply slice_0_take in Hb as Hd. rewrite Hd, <-app_assoc, <-Hl. apply slice_0_prefix.
    - rewrite blen_app, Hc. unfold blen. rewrite length_fmap, length_seqZ. lia. }
  split; [done|]. split; [done|]. split; [cbn in Hbl; lia|]. split; [left; lia|]. intros j Hj _. split; [done|]. by apply Hs.
Qed.

(** Writing into the room that is there. *)
Lemma blit_holds b old new :
  holds b old → bu_size b + blen new <= bu_capacity b →
  ∃ data, blit (bu_data b) (bu_size b) new = Some data ∧ holds (with_bytes b data (bu_size b + blen new)) (old ++ new).
Proof.
  intros Hold Hroom. pose proof (holds_size _ _ Hold) as [Hl Hsz]. destruct Hold as [Hb Hc Hmx Hw].
  destruct (blit (bu_data b) (bu_size b) new) as [data|] eqn:E; [|by rewrite blit_in_bounds in E by lia].
  exists data. split; [done|]. split; cbn; [|by rewrite (blit_blen _ _ _ _ E)|done|done].
  apply slice_join; [|by apply slice_blit_same in E]. rewrite (slice_blit_before _ _ _ _ _ _ E) by lia. done.
Qed.

Lemma put_byte_holds b old x :
  holds b old → bu_size b < bu_capacity b →
  ∃ b', put_byte b x = Some b' ∧ holds b' (old ++ [x]) ∧ bu_capacity b' = bu_capacity b ∧
    bu_max_capacity b' = bu_max_capacity b ∧ bu_size b' = bu_size b + 1.
Proof.
  intros Hold Hroom. destruct (blit_holds b old [x] Hold) as (data & E & Hh); [rewrite blen_cons, blen_nil; lia|].
  unfold put_byte, store. rewrite E. eexists. split; [reflexivity|]. rewrite blen_cons, blen_nil in Hh. done.
Qed.

(** ** Integers *)

(** Seven bits at a time, the lowest first. *)
Fixpoint varint (fuel : nat) (v : Z) : list Z :=
  match fuel with
  | O => []
  | S fuel => if 128 <=? v then Z.lor (Z.land v 127) 128 :: varint fuel (Z.shiftr v 7) else [v]
  end.

Definition first_mask (prefix : Z) : Z := 2 ^ prefix - 1.

(** The representation of an integer whose first byte carries the flag. *)
Definition int_bytes (value prefix flag : Z) : list Z :=
  if value <? first_mask prefix then [Z.lor value flag]
  else Z.lor (first_mask prefix) flag :: varint 6 (value - first_mask prefix).

Lemma shiftr7_bound fuel v : 128 <= v < 128 ^ Z.of_nat (S (S fuel)) → 0 <= Z.shiftr v 7 < 128 ^ Z.of_nat (S fuel).
Proof.
  intros Hv. rewrite Z.shiftr_div_pow2 by lia. change (2 ^ 7) with 128.
  rewrite (Nat2Z.inj_succ (S fuel)), Z.pow_succ_r in Hv by lia. split; [apply Z.div_pos; lia|]. apply Z.div_lt_upper_bound; lia.
Qed.

Lemma varint_S fuel v :
  varint (S fuel) v = if 128 <=? v then Z.lor (Z.land v 127) 128 :: varint fuel (Z.shiftr v 7) else [v].
Proof. done. Qed.

Lemma encoded_size_varint fuel v n :
  0 <= v < 128 ^ Z.of_nat (S fuel) → encoded_size_loop (S fuel) v n = Some (n - 1 + blen (varint (S fuel) v)).
Proof.
  revert v n. induction fuel as [|fuel IH]; intros v n Hv; rewrite varint_S;
    match goal with |- encoded_size_loop (S ?f) _ _ = _ => change (encoded_size_loop (S f) v n) with
      (if 128 <=? v then encoded_size_loop f (Z.shiftr v 7) (n + 1) else Some n) end; destruct (Z.leb_spec 128 v).
  - change (128 ^ Z.of_nat 1) with 128 in Hv. lia.
  - f_equal. rewrite blen_cons, blen_nil. lia.
  - rewrite IH by (apply shiftr7_bound; lia). f_equal. rewrite blen_cons. lia.
  - f_equal. rewrite blen_cons, blen_nil. lia.
Qed.

Lemma put_loop_holds fuel b old v :
  0 <= v < 128 ^ Z.of_nat (S fuel) → holds b old → bu_size b + blen (varint (S fuel) v) <= bu_capacity b →
  ∃ b', put_loop (S fuel) b v = Some b' ∧ holds b' (old ++ varint (S fuel) v) ∧ bu_max_capacity b' = bu_max_capacity b.
Proof.
  revert b old v. induction fuel as [|fuel IH]; intros b old v Hv Hold Hroom; rewrite varint_S in Hroom |- *;
    match goal with |- context [put_loop (S ?f) b v] => change (put_loop (S f) b v) with
      (if 128 <=? v then b ← put_byte b (Z.lor (Z.land v 127) 128); put_loop f b (Z.shiftr v 7) else put_byte b (u8 v)) end;
    destruct (Z.leb_spec 128 v); rewrite blen_cons in Hroom.
  - change (128 ^ Z.of_nat 1) with 128 in Hv. lia.
  - rewrite blen_nil in Hroom. rewrite u8_id by word_lia.
    destruct (put_byte_holds b old v Hold) as (b' & -> & Hh & _ & Hm & _); [lia|]. exists b'. done.
  - pose proof (blen_nonneg (varint (S fuel) (Z.shiftr v 7))) as Hp.
    destruct (put_byte_holds b old (Z.lor (Z.land v 127) 128) Hold) as (b' & -> & Hh & Hc & Hm & Hs); [lia|].
    cbn [mbind option_bind].
    destruct (IH b' _ (Z.shiftr v 7) (shiftr7_bound _ _ (conj H (proj2 Hv))) Hh) as (b2 & -> & Hh2 & Hm2); [lia|].
    exists b2. split; [done|]. rewrite <-app_assoc in Hh2. split; [exact Hh2|congruence].
  - rewrite blen_nil in Hroom. rewrite u8_id.
    + destruct (put_byte_holds b old v Hold) as (b' & -> & Hh & _ & Hm & _); [lia|]. exists b'. done.
    + word_lia.
Qed.

Lemma first_mask_bound p : 1 <= p <= 8 → 1 <= first_mask p <= 255 ∧ first_mask p = u8 (Z.shiftl 1 p - 1).
Proof.
  intros Hp. assert (p ∈ seqZ 1 8) as Hin by (apply elem_of_seqZ; lia).
  cut (Forall (λ p, 1 <= first_mask p <= 255 ∧ first_mask p = u8 (Z.shiftl 1 p - 1)) (seqZ 1 8)).
  - rewrite Forall_forall. eauto.
  - by_eval.
Qed.

Lemma integer_encode_appends b value p :
  1 <= p <= 8 → is_u32 value → 0 < bu_max_capacity b →
  appends True 1 (int_bytes value p 0) (chttp_h2_hpack_integer_encode fresh b value p) b.
Proof.
  intros Hp Hv Hpos w old Hold. destruct (first_mask_bound p Hp) as [Hfm Hfe]. unfold chttp_h2_hpack_integer_encode.
  destruct (Z.ltb_spec p 1); [lia|]. destruct (Z.ltb_spec 8 p); [lia|]. cbn [orb]. rewrite <-Hfe.
  unfold int_bytes. rewrite !Z.lor_0_r. destruct (Z.ltb_spec value (first_mask p)) as [Hlt|Hge].
  - destruct (reserve_ok b 1 w old Hold) as (rc & b1 & w1 & E & Hh & Hm & Hsz & Hbl & Hrc & Hs); [lia|done|]. wstep E.
    destruct Hrc as [[-> Hroom]| ->]; cbn [Z.eqb negb].
    + destruct (put_byte_holds b1 old (u8 value) Hh) as (b2 & E2 & Hh2 & _ & Hm2 & _); [lia|]. rewrite E2. wrun.
      rewrite u8_id in Hh2 by (unfold is_u32 in Hv; unfold is_u8, UINT8_MAX; lia).
      exists 0, b2, w1. split; [done|]. split; [congruence|]. split; [done|]. split; [by left|].
      intros j _ Hj Hfit. apply Hs; [done|]. rewrite blen_cons, blen_nil in Hfit. lia.
    + exists (-1), b1, w1. wrun. split; [done|]. split; [done|]. split; [done|]. split; [right; eauto|].
      intros j _ Hj Hfit. apply Hs; [done|]. rewrite blen_cons, blen_nil in Hfit. lia.
  - assert (0 <= value - first_mask p < 128 ^ Z.of_nat 6) as Hd.
    { replace (128 ^ Z.of_nat 6) with 4398046511104 by done. unfold is_u32, UINT32_MAX in Hv. lia. }
    rewrite (encoded_size_varint 5 _ _ Hd). wrun. set (rest := varint 6 _) in *. pose proof (blen_nonneg rest) as Hr.
    destruct (reserve_ok b (2 - 1 + blen rest) w old Hold) as (rc & b1 & w1 & E & Hh & Hm & Hsz & Hbl & Hrc & Hs); [lia|done|].
    wstep E. rewrite blen_cons. destruct Hrc as [[-> Hroom]| ->]; cbn [Z.eqb negb].
    + destruct (put_byte_holds b1 old (first_mask p) Hh) as (b2 & E2 & Hh2 & Hc2 & Hm2 & Hs2); [lia|]. rewrite E2. wrun.
      destruct (put_loop_holds 5 b2 _ _ Hd Hh2) as (b3 & E3 & Hh3 & Hm3); [fold rest; lia|]. rewrite E3. wrun.
      rewrite <-app_assoc in Hh3.
      exists 0, b3, w1. split; [done|]. split; [congruence|]. split; [done|]. split; [by left|].
      intros j _ Hj Hfit. apply Hs; [done|]. lia.
    + exists (-1), b1, w1. wrun. split; [done|]. split; [done|]. split; [done|]. split; [right; eauto|].
      intros j _ Hj Hfit. apply Hs; [done|]. lia.
Qed.

(** An integer with a flag on its first byte. *)
Lemma put_flagged_appends b value p flag :
  1 <= p <= 8 → is_u32 value → 0 < bu_max_capacity b →
  appends True 1 (int_bytes value p flag) (put_flagged fresh b value p flag) b.
Proof.
  intros Hp Hv Hpos w old Hold. unfold put_flagged.
  destruct (integer_encode_appends b value p Hp Hv Hpos w old Hold) as (rc & b1 & w1 & E & Hm & Hbl & Hrc & Hs). wstep E.
  assert (∃ x rest, int_bytes value p 0 = x :: rest ∧ int_bytes value p flag = Z.lor x flag :: rest) as (x & rest & Hi & Hf).
  { unfold int_bytes. rewrite !Z.lor_0_r. destruct (value <? first_mask p); eauto. }
  rewrite Hi in Hrc, Hs. rewrite Hf. rewrite blen_cons in Hs |- *.
  destruct Hrc as [(-> & _ & Hh)|[-> Hk]]; cbn [Z.eqb negb]; [|exists (-1), b1, w1; wrun; tauto].
  pose proof (holds_size _ _ Hh) as [Hl1 Hs1]. pose proof (holds_size _ _ Hold) as [Hl Hs0].
  destruct Hh as [Hb Hc Hmx Hw]. rewrite blen_app, blen_cons in Hl1. pose proof (blen_nonneg rest) as Hr.
  assert (load (bu_data b1) (bu_size b) = Some x) as Hx.
  { rewrite <-(load_slice _ _ _ _ Hb) by lia. rewrite <-Hl, <-(Z.add_0_r (blen old)), load_app_r by lia. by rewrite load_cons. }
  unfold or_byte. rewrite Hx. cbn [mbind option_bind].
  destruct (store (bu_data b1) (bu_size b) (Z.lor x flag)) as [data|] eqn:Es.
  2: { unfold store in Es. rewrite blit_in_bounds in Es; [done|lia|]. rewrite blen_cons, blen_nil. lia. }
  wrun. cbn [mbind option_bind]. wrun. eexists 0, _, w1. split; [reflexivity|]. cbn [bu_max_capacity with_bytes].
  split; [done|]. split; [done|]. split; [left; split; [done|]; split; [done|]|done].
  split; cbn [bu_data bu_size bu_capacity bu_max_capacity with_bytes]; [|by rewrite (blit_blen _ _ _ _ Es)|done|done].
  replace (bu_size b1) with (bu_size b + (1 + blen rest)) in Hb |- * by lia.
  pose proof (blit_Some _ _ _ _ Es) as (Hb0 & _ & _).
  apply slice_split in Hb as (s1 & s2 & Heq & H1 & H2); [|lia..].
  apply app_inj_1 in Heq as [<- <-]; [|apply slice_blen in H1; unfold blen in *; lia].
  apply slice_cons in H2 as [_ H2]; [|lia].
  apply slice_join; [by rewrite (slice_blit_before _ _ _ _ _ _ Es) by lia|].
  apply slice_cons; [lia|]. split.
  - apply (slice_cons data (bu_size b) 0 (Z.lor x flag) []); [lia|]. change (1 + 0) with (blen [Z.lor x flag]).
    by apply slice_blit_same in Es.
  - rewrite (slice_blit_after _ _ _ _ _ _ Es); [done|]. rewrite blen_cons, blen_nil. lia.
Qed.

(** ** String literals *)

Definition string_bytes (s : list Z) : list Z := int_bytes (blen s) 7 0 ++ s.

Lemma put_string_appends b s :
  0 < bu_max_capacity b →
  appends (blen s <= 2147483647) 2 (string_bytes s) (hpack_put_string fresh b s (blen s) false) b.
Proof.
  intros Hpos. unfold hpack_put_string. pose proof (blen_nonneg s) as Hnn.
  destruct (Z.ltb_spec 2147483647 (blen s)) as [Hbig|Hl].
  { intros w old Hold. exists (-1), b, w. wrun. do 3 (split; [done|]). split; [right; eauto|]. lia. }
  rewrite (u32_id (blen s)) by (unfold is_u32, UINT32_MAX; lia). apply (appends_weaken (True ∧ True) _ (1 + 1)); [done|tauto|].
  apply (appends_seq _ _ _ _ _ _ _ _ _ (λ rc, rc)); [done|apply integer_encode_appends; [lia| |done]; unfold is_u32, UINT32_MAX; lia|].
  intros b1 Hmx w old Hold.
  destruct (reserve_ok b1 (blen s) w old Hold) as (rc & b2 & w2 & E & Hh & Hm & Hsz & Hbl & Hrc & Hs); [done|lia|]. wstep E.
  destruct Hrc as [[-> Hroom]| ->]; cbn [Z.eqb negb].
  - rewrite slice_all. wrun. destruct (blit_holds b2 old s Hh) as (data & -> & Hh2); [lia|]. wrun.
    eexists 0, _, w2. split; [reflexivity|]. split; [done|]. split; [done|]. split; [by left|]. intros j _. apply Hs.
  - exists (-1), b2, w2. wrun. split; [done|]. split; [done|]. split; [done|]. split; [right; eauto|]. intros j _. apply Hs.
Qed.
End Writers.

(** ** Reading *)

Lemma byte_more v : 0 <= v → Z.lor (Z.land v 127) 128 = v mod 128 + 128.
Proof.
  intros Hv. change 127 with (2 ^ 7 - 1). rewrite land_ones_mod by lia. change (2 ^ 7) with 128.
  assert (is_u8 (v mod 128)) as Hb by (unfold is_u8, UINT8_MAX; pose proof (Z.mod_pos_bound v 128); lia).
  replace (v mod 128) with ((v mod 128) mod 128) by (apply Z.mod_small, Z.mod_pos_bound; lia).
  generalize dependent (v mod 128). intros x Hb. byte_cases x Hb.
Qed.

(** The seven bits of a byte, and whether another byte follows. *)
Lemma byte_parts x : 0 <= x < 128 →
  Z.land x 127 = x ∧ Z.land x 128 = 0 ∧ Z.land (x + 128) 127 = x ∧ Z.land (x + 128) 128 = 128.
Proof.
  intros Hx. rewrite !byte_land_7f, !byte_land_80 by (unfold is_u8, UINT8_MAX; lia).
  destruct (Z.ltb_spec x 128); [|lia]. destruct (Z.ltb_spec (x + 128) 128); [lia|].
  split; [apply Z.mod_small; lia|]. split; [done|]. split; [|done]. word_lia.
Qed.

Lemma get_int_loop_S fuel in_ in_len pos shift value :
  get_int_loop (S fuel) in_ in_len pos shift value =
    if (in_len <=? pos) || (28 <? shift) then Some None else
    byte ← load in_ pos;
    let value := u32 (value + u32 (Z.shiftl (Z.land byte 127) shift)) in
    if Z.land byte 128 =? 0 then Some (Some (value, pos + 1))
    else get_int_loop fuel in_ in_len (pos + 1) (shift + 7) value.
Proof. done. Qed.

Lemma load_mid pre x l : load (pre ++ x :: l) (blen pre) = Some x.
Proof. replace (blen pre) with (blen pre + 0) by lia. rewrite load_app_r by lia. by rewrite load_cons. Qed.

Lemma get_int_varint fuel i v acc pre post bytes :
  0 <= i → 7 * i <= 28 → 0 <= v < 128 ^ Z.of_nat (S fuel) → 0 <= acc → acc + v * 2 ^ (7 * i) <= UINT32_MAX →
  bytes = pre ++ varint (S fuel) v ++ post →
  get_int_loop (S fuel) bytes (blen bytes) (blen pre) (7 * i) acc
    = Some (Some (acc + v * 2 ^ (7 * i), blen pre + blen (varint (S fuel) v))).
Proof.
  revert i v acc pre bytes. induction fuel as [|fuel IH]; intros i v acc pre bytes Hi H28 Hv Ha Hmax ->; rewrite get_int_loop_S, varint_S.
  all: pose proof (Z.pow_pos_nonneg 2 (7 * i) ltac:(lia) ltac:(lia)) as Hpow.
  all: pose proof (blen_nonneg pre) as Hp; pose proof (blen_nonneg post) as Hq.
  all: destruct (Z.ltb_spec 28 (7 * i)); [lia|]; rewrite orb_false_r; destruct (Z.leb_spec 128 v) as [Hge|Hlt].
  1: change (128 ^ Z.of_nat 1) with 128 in Hv; lia.
  1, 3: destruct (byte_parts v) as (H1 & H2 & _); [lia|].
  1, 2: rewrite !blen_app, blen_cons, blen_nil; destruct (Z.leb_spec (blen pre + (1 + 0 + blen post)) (blen pre)); [lia|].
  1, 2: cbn [app]; rewrite load_mid; cbn [mbind option_bind];
    rewrite H1, H2, Z.shiftl_mul_pow2 by lia; cbn [Z.eqb]; rewrite (u32_id (v * _)), u32_id by (unfold is_u32; nia); do 3 f_equal; lia.
  pose proof (Z.mod_pos_bound v 128 ltac:(lia)) as Hm. pose proof (Z.div_mod v 128 ltac:(lia)) as Hdm.
  pose proof (shiftr7_bound _ _ (conj Hge (proj2 Hv))) as Hs. rewrite Z.shiftr_div_pow2 in Hs by lia. change (2 ^ 7) with 128 in Hs.
  rewrite byte_more by lia. destruct (byte_parts (v mod 128)) as (_ & _ & H1 & H2); [lia|].
  set (x := v mod 128 + 128) in *. set (rest := varint (S fuel) (Z.shiftr v 7)). pose proof (blen_nonneg rest) as Hr.
  rewrite !blen_app, blen_cons. destruct (Z.leb_spec (blen pre + (1 + blen rest + blen post)) (blen pre)); [lia|].
  cbn [app]. rewrite load_mid. cbn [mbind option_bind].
  rewrite H1, H2, Z.shiftl_mul_pow2 by lia. cbn [Z.eqb]. rewrite (u32_id (v mod 128 * _)), u32_id by (unfold is_u32; nia).
  assert (7 * (i + 1) <= 28) as H28'.
  { destruct (decide (i <= 3)); [lia|]. assert (2 ^ 28 <= 2 ^ (7 * i)) by (apply Z.pow_le_mono_r; lia).
    change (2 ^ 28) with 268435456 in *. unfold UINT32_MAX in Hmax. nia. }
  assert (2 ^ (7 * (i + 1)) = 128 * 2 ^ (7 * i)) as Hp1.
  { replace (7 * (i + 1)) with (7 + 7 * i) by lia. rewrite Z.pow_add_r by lia. done. }
  replace (blen pre + (1 + blen rest + blen post)) with (blen (pre ++ x :: rest ++ post))
    by (rewrite blen_app, blen_cons, blen_app; lia).
  replace (blen pre + 1) with (blen (pre ++ [x])) by (rewrite blen_app, blen_cons, blen_nil; lia).
  replace (7 * i + 7) with (7 * (i + 1)) by lia.
  rewrite (IH (i + 1) (Z.shiftr v 7) (acc + v mod 128 * 2 ^ (7 * i)) (pre ++ [x]) (pre ++ x :: rest ++ post)).
  - fold rest. rewrite Z.shiftr_div_pow2 by lia. change (2 ^ 7) with 128. rewrite Hp1, blen_app, blen_cons, blen_nil.
    do 3 f_equal; [nia|lia].
  - lia.
  - lia.
  - rewrite Z.shiftr_div_pow2 by lia. change (2 ^ 7) with 128. done.
  - nia.
  - rewrite Z.shiftr_div_pow2 by lia. change (2 ^ 7) with 128. rewrite Hp1. nia.
  - by rewrite <-app_assoc.
Qed.

(** [hpack_get_int] reads what [put_flagged] writes. *)
Lemma get_int_bytes v p flag pre post bytes :
  1 <= p <= 8 → is_u32 v → Z.land flag (first_mask p) = 0 → bytes = pre ++ int_bytes v p flag ++ post →
  hpack_get_int bytes (blen bytes) (blen pre) p = Some (Some (v, blen pre + blen (int_bytes v p flag))).
Proof.
  intros Hp Hv Hfl ->. destruct (first_mask_bound p Hp) as [Hm _]. unfold hpack_get_int.
  destruct (Z.ltb_spec p 1); [lia|]. destruct (Z.ltb_spec 8 p); [lia|]. cbn [orb].
  rewrite Z.shiftl_mul_pow2, Z.mul_1_l by lia. fold (first_mask p).
  assert (∀ x, 0 <= x <= first_mask p → Z.land (Z.lor x flag) (first_mask p) = x) as Hland.
  { intros x Hx. rewrite Z.land_lor_distr_l, Hfl, Z.lor_0_r. unfold first_mask in *. rewrite land_ones_mod by lia.
    apply Z.mod_small. lia. }
  pose proof (blen_nonneg pre) as Hl. pose proof (blen_nonneg post) as Hq. unfold int_bytes.
  unfold is_u32 in Hv. destruct (Z.ltb_spec v (first_mask p)) as [Hlt|Hge].
  - rewrite !blen_app, blen_cons, blen_nil. destruct (Z.leb_spec (blen pre + (1 + 0 + blen post)) (blen pre)); [lia|].
    cbn [app]. rewrite load_mid. cbn [mbind option_bind]. rewrite Hland by lia. destruct (Z.ltb_spec v (first_mask p)); [|lia].
    reflexivity.
  - set (rest := varint 6 (v - first_mask p)). pose proof (blen_nonneg rest) as Hr. set (x := Z.lor (first_mask p) flag).
    rewrite !blen_app, blen_cons. destruct (Z.leb_spec (blen pre + (1 + blen rest + blen post)) (blen pre)); [lia|].
    cbn [app]. rewrite load_mid. cbn [mbind option_bind]. assert (Z.land x (first_mask p) = first_mask p) as -> by (apply Hland; lia).
    rewrite Z.ltb_irrefl.
    replace (blen pre + (1 + blen rest + blen post)) with (blen (pre ++ x :: rest ++ post))
      by (rewrite blen_app, blen_cons, blen_app; lia).
    replace (blen pre + 1) with (blen (pre ++ [x])) by (rewrite blen_app, blen_cons, blen_nil; lia).
    pose proof (get_int_varint 5 0 (v - first_mask p) (first_mask p) (pre ++ [x]) post (pre ++ x :: rest ++ post)) as Hg.
    change (7 * 0) with 0 in Hg. rewrite Hg.
    + fold rest. rewrite blen_app, blen_cons, blen_nil. do 3 f_equal; lia.
    + lia.
    + lia.
    + unfold UINT32_MAX in Hv. change (128 ^ Z.of_nat 6) with 4398046511104. lia.
    + lia.
    + lia.
    + by rewrite <-app_assoc.
Qed.

(** [hpack_get_string] reads what [hpack_put_string] writes. *)
Lemma get_string_bytes h s pre post bytes w :
  blen s <= 2147483647 → blen s <= hp_max_string_bytes h → bytes = pre ++ string_bytes s ++ post →
  hpack_get_string h bytes (blen bytes) (blen pre) w = Some (Some (s, false, blen pre + blen (string_bytes s)), w).
Proof.
  intros Hl Hmax ->. pose proof (blen_nonneg s) as Hnn. unfold string_bytes. set (n := int_bytes (blen s) 7 0).
  assert (∃ x rest, n = x :: rest ∧ Z.land x 128 = 0) as (x & rest & Hn & Hx).
  { unfold n, int_bytes, first_mask. change (2 ^ 7 - 1) with 127. destruct (Z.ltb_spec (blen s) 127); eexists _, _; (split; [reflexivity|]).
    - rewrite Z.lor_0_r. apply byte_parts. lia.
    - done. }
  pose proof (blen_nonneg pre) as Hp. pose proof (blen_nonneg post) as Hq. unfold hpack_get_string.
  pose proof (blen_nonneg rest) as Hr.
  set (bytes := pre ++ (n ++ s) ++ post).
  assert (blen bytes = blen pre + (1 + blen rest + blen s + blen post)) as Hlen.
  { unfold bytes. rewrite !blen_app, Hn, blen_cons. lia. }
  destruct (Z.leb_spec (blen bytes) (blen pre)); [lia|].
  replace (load bytes (blen pre)) with (Some x) by (unfold bytes; rewrite Hn; cbn [app]; by rewrite load_mid). wrun.
  rewrite (get_int_bytes (blen s) 7 0 pre (s ++ post) bytes);
    [|lia|unfold is_u32, UINT32_MAX; lia|done|unfold bytes, n; by rewrite <-app_assoc]. wrun. fold n.
  rewrite blen_app. destruct (Z.ltb_spec (blen bytes - (blen pre + blen n)) (blen s)) as [Hlt|_].
  { rewrite Hn, blen_cons in Hlt. lia. }
  destruct (Z.ltb_spec (hp_max_string_bytes h) (blen s)); [lia|].
  replace (slice bytes (blen pre + blen n) (blen s)) with (Some s).
  - wrun. rewrite Hx. cbn [Z.eqb negb]. wrun. do 4 f_equal. lia.
  - symmetry. unfold bytes. rewrite <-app_assoc, app_assoc. apply slice_app; [by rewrite blen_app|done].
Qed.
