(* ===== verification/HpackTable.v ===== *)
(** * The dynamic table of header compression

    The table as the list of the headers it holds: eviction keeps the longest
    run of newest entries that fits, an insertion puts an entry in front of
    them. The sizes are kept right, every block is accounted for. *)

From S2P Require Import Prelude World HpackTables Hpack HpackCodec HpackWire.
Local Open Scope Z_scope.

(** ** The abstract table *)

Definition field : Type := list Z * list Z.

(** The size of a header in a table. *)
Definition field_size (f : field) : Z := blen f.1 + blen f.2 + 32.

Fixpoint fields_size (l : list field) : Z :=
  match l with [] => 0 | f :: l => field_size f + fields_size l end.

(** The longest run of newest headers that fits. *)
Fixpoint fit (max : Z) (l : list field) : list field :=
  match l with
  | [] => []
  | f :: l => if field_size f <=? max then f :: fit (max - field_size f) l else []
  end.

(** A header larger than the table leaves it as it is. *)
Definition insert_field (max : Z) (f : field) (l : list field) : list field :=
  if max <? field_size f then l else fit max (f :: l).

Lemma field_size_pos f : 32 <= field_size f.
Proof. unfold field_size. pose proof (blen_nonneg f.1). pose proof (blen_nonneg f.2). lia. Qed.

Lemma fields_size_bound l : 32 * alen l <= fields_size l.
Proof.
  unfold alen. induction l as [|f l IH]; cbn [fields_size length]; [lia|]. pose proof (field_size_pos f). lia.
Qed.

Lemma fields_size_app l1 l2 : fields_size (l1 ++ l2) = fields_size l1 + fields_size l2.
Proof. induction l1 as [|f l1 IH]; cbn [fields_size app]; lia. Qed.

Lemma fit_all max l : fields_size l <= max → fit max l = l.
Proof.
  revert max. induction l as [|f l IH]; intros max Hl; cbn [fit fields_size] in *; [done|].
  pose proof (fields_size_bound l). unfold alen in *. destruct (Z.leb_spec (field_size f) max); [|lia]. rewrite IH; [done|lia].
Qed.

Lemma fit_bound max l : 0 <= max → fields_size (fit max l) <= max.
Proof.
  revert max. induction l as [|f l IH]; intros max Hm; cbn [fit fields_size]; [lia|].
  destruct (Z.leb_spec (field_size f) max); cbn [fields_size]; [|lia]. specialize (IH (max - field_size f)). lia.
Qed.

Lemma fit_drop_last max l f : max < fields_size (l ++ [f]) → fit max (l ++ [f]) = fit max l.
Proof.
  revert max. induction l as [|g l IH]; intros max Hm; cbn [fit app fields_size] in *.
  - destruct (Z.leb_spec (field_size f) max); [lia|done].
  - destruct (Z.leb_spec (field_size g) max); [|done]. f_equal. apply IH. lia.
Qed.

Lemma fit_fit a b l : a <= b → fit a (fit b l) = fit a l.
Proof.
  revert a b. induction l as [|f l IH]; intros a b Hab; cbn [fit]; [done|].
  destruct (Z.leb_spec (field_size f) b); cbn [fit].
  - destruct (Z.leb_spec (field_size f) a); [|done]. f_equal. apply IH. lia.
  - destruct (Z.leb_spec (field_size f) a); [lia|done].
Qed.

Lemma fit_prefix max l : fit max l `prefix_of` l.
Proof.
  revert max. induction l as [|f l IH]; intros max; cbn [fit]; [done|].
  destruct (field_size f <=? max); [apply prefix_cons, IH|apply prefix_nil].
Qed.

(** ** The table of the code *)

Definition field_of (e : hpack_entry_t) : field := (en_name e, en_value e).

(** The headers of a table. *)
Definition fields_of (t : hpack_dyn_table_t) : list field := field_of <$> dt_entries t.

(** Everything but that the size respects its limit. *)
Record table_sized (t : hpack_dyn_table_t) : Prop := {
  ts_entries : Forall (λ e, en_size e = field_size (field_of e)) (dt_entries t);
  ts_size : dt_size t = fields_size (fields_of t);
  ts_word : is_u64 (dt_size t);
  ts_max : 0 <= dt_max_size t <= UINT32_MAX;
  ts_count : alen (dt_entries t) <= dt_capacity t;
  ts_capacity : dt_capacity t <= dt_max_entries t;
  ts_room : dt_max_entries t <= 134217728
}.

Definition table_ok (t : hpack_dyn_table_t) : Prop := table_sized t ∧ dt_size t <= dt_max_size t.

(** The blocks a table owns. *)
Definition table_blocks (t : hpack_dyn_table_t) : Z :=
  2 * alen (dt_entries t) + (if dt_capacity t =? 0 then 0 else 1).

Lemma fields_of_length t : length (fields_of t) = length (dt_entries t).
Proof. apply length_fmap. Qed.

(** Eviction. *)
Lemma evict_loop_ok fuel t w :
  (length (dt_entries t) < fuel)%nat → table_sized t →
  ∃ t' w', dyn_table_evict_loop fuel t w = Some (t', w') ∧ table_ok t' ∧ fields_of t' = fit (dt_max_size t) (fields_of t) ∧
    dt_max_size t' = dt_max_size t ∧ dt_max_entries t' = dt_max_entries t ∧ dt_capacity t' = dt_capacity t ∧
    w_malloc w' = w_malloc w ∧ w_blocks w' - table_blocks t' = w_blocks w - table_blocks t.
Proof.
  revert t w. induction fuel as [|fuel IH]; intros t w Hf Ht; [lia|]. pose proof Ht as [He Hs Hw Hm Hc Hcap Hr]. cbn [dyn_table_evict_loop].
  destruct (Z.ltb_spec (dt_max_size t) (dt_size t)) as [Hbig|Hfit].
  2: { rewrite andb_false_r. exists t, w. wrun. split; [done|]. split; [by split|]. rewrite fit_all by lia. repeat split; done. }
  destruct (dt_entries t) as [|e0 l0 _] eqn:Hl using rev_ind.
  { unfold fields_of in Hs. rewrite Hl in Hs. cbn in Hs. lia. }
  assert ((0 <? alen (l0 ++ [e0])) = true) as -> by (apply Z.ltb_lt; rewrite alen_app; unfold alen; cbn; lia). cbn [andb].
  rewrite length_app in Hf. cbn in Hf. apply Forall_app in He as [He0 [He1 _]%Forall_cons].
  assert (aget (l0 ++ [e0]) (alen (l0 ++ [e0]) - 1) = Some e0) as ->.
  { rewrite alen_app. unfold aget, alen. cbn [length]. destruct (Z.ltb_spec (Z.of_nat (length l0) + Z.of_nat 1 - 1) 0); [lia|].
    rewrite lookup_app_r by lia. replace (Z.to_nat _ - length l0)%nat with 0%nat by lia. done. }
  wrun. replace (take _ (l0 ++ [e0])) with l0.
  2: { rewrite alen_app. unfold alen. cbn [length]. rewrite take_app_le by lia. by rewrite take_ge by lia. }
  assert (fields_size (fields_of t) = fields_size (field_of <$> l0) + field_size (field_of e0)) as Hsum.
  { unfold fields_of. rewrite Hl, fmap_app, fields_size_app. cbn. lia. }
  pose proof (fields_size_bound (field_of <$> l0)) as Hb0. unfold alen in Hb0.
  pose proof (field_size_pos (field_of e0)) as Hp0. unfold is_u64 in Hw.
  unfold dyn_entry_free. destruct (IH (MkTable l0 (dt_capacity t) (dt_max_entries t) (u64 (dt_size t - en_size e0)) (dt_max_size t))
    (MkWorld (w_malloc w) (w_blocks w - 1 - 1) (w_objects w))) as (t' & w' & E & Hok & Hfd & Hms & Hme & Hcp & Hmm & Hbk).
  { cbn. lia. }
  { rewrite u64_id by (unfold is_u64; lia). split; cbn; [done| |unfold is_u64; lia|done| |done|done].
    - rewrite Hs, Hsum, He1. unfold fields_of. cbn. lia.
    - rewrite alen_app in Hc. unfold alen in *. cbn in Hc. lia. }
  exists t', w'. split; [exact E|]. split; [done|]. cbn in Hfd, Hms, Hme, Hcp, Hmm, Hbk. split.
  { rewrite Hfd. unfold fields_of. cbn [dt_entries]. rewrite Hl, fmap_app. cbn. rewrite fit_drop_last; [done|].
    unfold fields_of in Hs. rewrite Hl, fmap_app in Hs. cbn in Hs. lia. }
  do 4 (split; [done|]). unfold table_blocks in *. rewrite Hl. cbn [dt_entries dt_capacity] in *. rewrite alen_app.
  replace (alen [e0]) with 1 by done. lia.
Qed.

Lemma evict_ok t w :
  table_sized t →
  ∃ t' w', dyn_table_evict t w = Some (t', w') ∧ table_ok t' ∧ fields_of t' = fit (dt_max_size t) (fields_of t) ∧
    dt_max_size t' = dt_max_size t ∧ dt_max_entries t' = dt_max_entries t ∧ dt_capacity t' = dt_capacity t ∧
    w_malloc w' = w_malloc w ∧ w_blocks w' - table_blocks t' = w_blocks w - table_blocks t.
Proof. intros Ht. apply evict_loop_ok; [lia|done]. Qed.

(** A new limit for the size. *)
Lemma resize_ok t max_size w :
  table_ok t → 0 <= max_size <= UINT32_MAX →
  ∃ t' w', dyn_table_evict (with_max_size t max_size) w = Some (t', w') ∧ table_ok t' ∧
    fields_of t' = fit max_size (fields_of t) ∧ dt_max_size t' = max_size ∧ dt_max_entries t' = dt_max_entries t ∧
    dt_capacity t' = dt_capacity t ∧ w_malloc w' = w_malloc w ∧ w_blocks w' - table_blocks t' = w_blocks w - table_blocks t.
Proof. intros [[] _] Hm. apply (evict_ok (with_max_size t max_size)). by split. Qed.

(** Room for an entry. *)
Lemma table_room_ok t w :
  table_ok t →
  ∃ ok t' w', dyn_table_room t w = Some ((ok, t'), w') ∧ table_ok t' ∧ dt_entries t' = dt_entries t ∧
    dt_max_size t' = dt_max_size t ∧ dt_max_entries t' = dt_max_entries t ∧ dt_size t' = dt_size t ∧
    w_blocks w' - table_blocks t' = w_blocks w - table_blocks t ∧
    (ok = true → alen (dt_entries t) < dt_capacity t') ∧
    (∀ j, supply (1 + j) w → alen (dt_entries t) < dt_max_entries t → ok = true ∧ supply j w').
Proof.
  intros Ht. pose proof Ht as [[He Hs Hw Hm Hc Hcap Hr] Hle]. pose proof (alen_nonneg (dt_entries t)) as Hnn. unfold dyn_table_room.
  destruct (Z.leb_spec (dt_capacity t) (alen (dt_entries t))) as [Hfull|Hroom].
  2: { exists true, t, w. wrun. do 7 (split; [done|]). split; [done|]. intros j Hj _. split; [done|].
       by apply (supply_weaken (1 + j)); [lia|]. }
  destruct (Z.leb_spec (dt_max_entries t) (alen (dt_entries t))).
  { exists false, t, w. wrun. do 7 (split; [done|]). split; [done|]. lia. }
  set (ncap := if dt_max_entries t <? _ then _ else _).
  assert (dt_capacity t < ncap <= dt_max_entries t) as Hn.
  { unfold ncap. destruct (Z.eqb_spec (dt_capacity t) 0).
    - destruct (Z.ltb_spec (dt_max_entries t) 8); lia.
    - rewrite u64_id by (unfold is_u64, UINT64_MAX; lia). destruct (Z.ltb_spec (dt_max_entries t) (dt_capacity t * 2)); lia. }
  destruct (Z.leb_spec ncap (dt_capacity t)); [lia|].
  destruct (Z.ltb_spec (SIZE_MAX / 40) ncap) as [Hbig|_].
  { replace (SIZE_MAX / 40) with 461168601842738790 in Hbig by done. lia. }
  cbn [orb]. destruct (realloc_ok (if dt_capacity t =? 0 then None else Some 0) w) as (r & w1 & E & Hb & Hsup). wstep E.
  destruct (is_null r) eqn:Hnull.
  { exists false, t, w1. wrun. do 6 (split; [done|]). split; [lia|]. split; [done|]. intros j Hj _. destruct (Hsup j Hj). done. }
  exists true, (MkTable (dt_entries t) ncap (dt_max_entries t) (dt_size t) (dt_max_size t)), w1. wrun. split; [done|].
  split; [split; [split|]; cbn; done || lia|]. do 4 (split; [done|]). cbn [dt_entries dt_capacity]. split; [|split; [lia|]].
  - unfold table_blocks. cbn [dt_entries dt_capacity]. destruct (Z.eqb_spec ncap 0); [lia|].
    destruct (dt_capacity t =? 0); cbn in Hb; lia.
  - intros j Hj _. split; [done|]. by apply Hsup.
Qed.

Lemma free_if_ok p w :
  ∃ w', free_if p w = Some (tt, w') ∧ w_malloc w' = w_malloc w ∧ w_blocks w' = w_blocks w - (if is_null p then 0 else 1).
Proof.
  unfold free_if. destruct (is_null p); eexists; (split; [reflexivity|]); cbn; (split; [done|]); lia.
Qed.

(** An insertion. *)
Lemma table_add_ok t name value w :
  table_ok t →
  ∃ rc t' w', dyn_table_add t name value w = Some ((rc, t'), w') ∧ table_ok t' ∧
    dt_max_size t' = dt_max_size t ∧ dt_max_entries t' = dt_max_entries t ∧
    w_blocks w' - table_blocks t' = w_blocks w - table_blocks t ∧
    (rc = 0 ∧ fields_of t' = insert_field (dt_max_size t) (name, value) (fields_of t) ∧
       (field_size (name, value) <= dt_max_size t → alen (dt_entries t) < dt_max_entries t)
     ∨ rc = -1 ∧ fields_of t' = fields_of t) ∧
    (∀ j, supply (3 + j) w → field_size (name, value) <= SIZE_MAX →
       (field_size (name, value) <= dt_max_size t → alen (dt_entries t) < dt_max_entries t) → rc = 0 ∧ supply j w').
Proof.
  intros Ht. unfold dyn_table_add, insert_field. change (blen name + blen value + 32) with (field_size (name, value)).
  pose proof (field_size_pos (name, value)) as Hpos. set (size := field_size (name, value)) in *.
  assert (size = blen name + blen value + 32) as Hsize by done.
  destruct ((SIZE_MAX - blen value <? blen name) || (SIZE_MAX - 32 <? blen name + blen value)) eqn:Hover.
  { exists (-1), t, w. wrun. do 5 (split; [done|]). split; [by right|]. intros j _ Hs _.
    apply orb_true_iff in Hover as [Ho%Z.ltb_lt|Ho%Z.ltb_lt]; lia. }
  destruct (Z.ltb_spec (dt_max_size t) size) as [Hbig|Hfit].
  { exists 0, t, w. wrun. do 5 (split; [done|]). split; [left; split; [done|]; split; [done|lia]|].
    intros j Hj _ _. split; [done|]. by apply (supply_weaken (3 + j)); [lia|]. }
  destruct (table_room_ok t w Ht) as (ok & t1 & w1 & E & Ht1 & Hen & Hms & Hme & Hsz & Hbl & Hok & Hsup). wstep E.
  assert (fields_of t1 = fields_of t) as Hfs by (unfold fields_of; by rewrite Hen).
  destruct ok; cbn [negb].
  2: { exists (-1), t1, w1. wrun. do 5 (split; [done|]). split; [by right|]. intros j Hj _ Hcount.
       destruct (Hsup (2 + j)%nat); [done|by apply Hcount|done]. }
  specialize (Hok eq_refl).
  destruct (malloc_ok w1) as (r2 & w2 & E2 & Hb2 & _ & Hs2). wstep E2.
  destruct (malloc_ok w2) as (r3 & w3 & E3 & Hb3 & _ & Hs3). wstep E3.
  destruct (is_null r2 || is_null r3) eqn:Hnull.
  { destruct (free_if_ok r2 w3) as (w4 & E4 & _ & Hb4). wstep E4.
    destruct (free_if_ok r3 w4) as (w5 & E5 & _ & Hb5). wstep E5.
    exists (-1), t1, w5. wrun. do 4 (split; [done|]). split; [lia|]. split; [by right|].
    intros j Hj _ Hcount. destruct (Hsup (2 + j)%nat) as [_ H1]; [done|by apply Hcount|].
    destruct (Hs2 (1 + j)%nat H1) as [Hn2 H2]. destruct (Hs3 j H2) as [Hn3 _]. rewrite Hn2, Hn3 in Hnull. done. }
  rewrite Hen. destruct (Z.leb_spec (dt_capacity t1) (alen (dt_entries t))); [lia|].
  destruct Ht1 as [[He Hs Hw Hm Hc Hcap Hr] Hle]. pose proof (alen_nonneg (dt_entries t)) as Hnn.
  pose proof (fields_size_bound (fields_of t1)) as Hfb. unfold alen in Hfb. unfold UINT32_MAX in Hm.
  destruct (evict_ok (MkTable (MkEntry name value size :: dt_entries t) (dt_capacity t1) (dt_max_entries t1)
    (u64 (dt_size t1 + size)) (dt_max_size t1)) w3) as (t' & w' & E' & Hok' & Hf' & Hms' & Hme' & Hcp' & Hml' & Hbl').
  { rewrite u64_id by (unfold is_u64, UINT64_MAX; lia). split; cbn; [|..|done|done].
    - constructor; [done|]. by rewrite <-Hen.
    - rewrite Hs, Hfs. unfold fields_of. cbn. change (field_size (field_of _)) with size. lia.
    - unfold is_u64, UINT64_MAX. lia.
    - unfold UINT32_MAX. lia.
    - unfold alen in *. cbn. lia. }
  wstep E'. exists 0, t', w'. wrun. split; [done|]. split; [done|]. cbn in Hms', Hme'. split; [congruence|]. split; [congruence|].
  apply orb_false_iff in Hnull as [Hn2 Hn3]. rewrite Hn2 in Hb2. rewrite Hn3 in Hb3. split.
  { unfold table_blocks in Hbl, Hbl' |- *. cbn [dt_entries dt_capacity] in Hbl'. rewrite Hen in Hbl. unfold alen in *. cbn [length] in Hbl'. lia. }
  split.
  { left. split; [done|]. rewrite Hf'. cbn [dt_max_size]. rewrite Hms. split; [done|]. lia. }
  intros j Hj _ Hcount. split; [done|]. apply (supply_malloc _ w3); [done|].
  destruct (Hsup (2 + j)%nat) as [_ H1]; [done|by apply Hcount|]. apply Hs3. by apply Hs2.
Qed.
