(* ===== verification/HpackHuffman.v ===== *)
(** * Huffman strings

    The tree that [huff_tree_build] builds does not depend on the memory it
    gets; its paths are the codes of the table. A string is decoded exactly
    when it is the codes of its bytes, padded with at most seven ones. *)

From S2P Require Import Prelude World HpackTables Hpack HpackCodec HpackWire HpackTable.
Local Open Scope Z_scope.

(** ** Building the tree *)

(** Once [m] succeeds in one world with the result [a], it succeeds with it
    in every world whose memory suffices, and otherwise fails. *)
Definition agrees {A} (m : M (Z * A)) (a : A) (w2 w2' : world) : Prop :=
  ∀ w, ∃ rc a' w', m w = Some ((rc, a'), w') ∧ (rc = 0 ∧ a' = a ∨ rc = -1) ∧ w_blocks w' = w_blocks w ∧
    (∀ j, supply (length (w_malloc w2) + j) w → rc = 0 ∧ supply (length (w_malloc w2') + j) w').

Lemma tree_room_agrees t w2 t2 w2' :
  tree_room t w2 = Some ((true, t2), w2') →
  ∀ w, ∃ ok t' w', tree_room t w = Some ((ok, t'), w') ∧ (ok = true → t' = t2) ∧ w_blocks w' = w_blocks w ∧
    (∀ j, supply (length (w_malloc w2) + j) w → ok = true ∧ supply (length (w_malloc w2') + j) w').
Proof.
  unfold tree_room. destruct (tr_node_cap t <=? alen (tr_nodes t)).
  2: { intros [= <- <-] w. exists true, t, w. done. }
  set (ncap := if CHTTP_H2_HUFFMAN_MAX_NODES / 2 <? tr_node_cap t then _ else _).
  destruct ((ncap <=? tr_node_cap t) || (SIZE_MAX / 6 <? ncap)); [done|].
  intros H w. destruct (realloc_ok (Some 0) w) as (r & w1 & E & Hb & Hs). wstep E.
  assert (t2 = MkTree (tr_nodes t) ncap ∧ length (w_malloc w2) = S (length (w_malloc w2'))) as [-> Hl].
  { unfold realloc, malloc, mbind, M_bind in H. destruct (w_malloc w2) as [|[p|] m]; cbn in H; [done| |done].
    injection H as <- <-. done. }
  rewrite Hl. destruct (is_null r) eqn:Hn.
  - exists false, t, w1. wrun. split; [done|]. split; [done|]. split; [cbn in Hb; lia|].
    intros j Hj. destruct (Hs (length (w_malloc w2') + j)%nat) as [? _]; done.
  - exists true, (MkTree (tr_nodes t) ncap), w1. wrun. split; [done|]. split; [done|]. split; [cbn in Hb; lia|].
    intros j Hj. split; [done|]. by apply Hs.
Qed.

Lemma tree_add_loop_agrees fuel t code nbits sym i node t2 w2 w2' :
  huff_tree_add_loop fuel t code nbits sym i node w2 = Some ((0, t2), w2') →
  agrees (huff_tree_add_loop fuel t code nbits sym i node) t2 w2 w2'.
Proof.
  revert t i node w2. induction fuel as [|fuel IH]; intros t i node w2; cbn [huff_tree_add_loop]; [done|].
  destruct (i <? nbits).
  - set (bit := Z.land _ 1). intros H w. destruct (aget (tr_nodes t) node) as [n|]; [|discriminate H].
    rewrite run_lift_bind in H |- *. destruct (child_of n bit <? 0); [|by apply IH]. unfold mbind at 1, M_bind at 1 in H.
    destruct (tree_room t w2) as [[[ok t1] w1]|] eqn:Er; [|done]. destruct ok; cbn [negb] in H; [|done].
    destruct (tree_room_agrees _ _ _ _ Er w) as (ok & t' & w' & E & Ht & Hb & Hs). wstep E. destruct ok; cbn [negb].
    2: { exists (-1), t', w'. wrun. split; [done|]. split; [by right|]. split; [done|]. intros j Hj. by destruct (Hs j Hj). }
    rewrite (Ht eq_refl). destruct (tr_node_cap t1 <=? alen (tr_nodes t1)); [done|].
    destruct (aset _ node _) as [nodes|]; [|discriminate H]. rewrite run_lift_bind in H |- *.
    destruct (IH _ _ _ _ H w') as (rc & a' & w'' & E' & Hr & Hb' & Hs'). exists rc, a', w''. split; [exact E'|]. split; [done|].
    split; [congruence|]. intros j Hj. apply Hs'. by apply Hs.
  - intros H w. destruct (aget (tr_nodes t) node) as [n|]; [|discriminate H]. rewrite run_lift_bind in H |- *.
    destruct (aset _ node _) as [nodes|]; [|discriminate H]. rewrite run_lift_bind in H |- *. injection H as <- <-.
    eexists 0, _, w. split; [reflexivity|]. split; [by left|]. done.
Qed.

Lemma tree_add_all_agrees rows t i t2 w2 w2' :
  huff_tree_add_all t rows i w2 = Some ((0, t2), w2') → agrees (huff_tree_add_all t rows i) t2 w2 w2'.
Proof.
  revert t i w2. induction rows as [|[nbits code] rows IH]; intros t i w2; cbn [huff_tree_add_all].
  - intros [= <- <-] w. exists 0, t, w. wrun. split; [done|]. split; [by left|]. done.
  - unfold mbind at 1, M_bind at 1. destruct (huff_tree_add t code nbits i w2) as [[[rc t1] w1]|] eqn:Ea; [|done].
    destruct (Z.eqb_spec rc 0) as [->|]; cbn [negb]; [|done]. intros H w.
    destruct (tree_add_loop_agrees _ _ _ _ _ _ _ _ _ _ Ea w) as (rc & t' & w' & E & Hr & Hb & Hs).
    change (huff_tree_add t code nbits i w = Some ((rc, t'), w')) in E. wstep E. destruct Hr as [[-> ->]| ->]; cbn [Z.eqb negb].
    + destruct (IH _ _ _ H w') as (rc & a' & w'' & E' & Hr & Hb' & Hs'). exists rc, a', w''. split; [exact E'|]. split; [done|].
      split; [congruence|]. intros j Hj. apply Hs'. by apply Hs.
    + exists (-1), t', w'. wrun. split; [done|]. split; [by right|]. split; [done|]. intros j Hj. by destruct (Hs j Hj).
Qed.

(** The tree, evaluated. *)
Definition huff_tree : hpack_huff_tree_t :=
  match huff_tree_add_all (MkTree [empty_node] 16) s_huff_sym 0 (MkWorld (replicate 6 (Some 0)) 0 0) with
  | Some ((_, t), _) => t
  | None => MkTree [] 0
  end.

Lemma huff_tree_built :
  huff_tree_add_all (MkTree [empty_node] 16) s_huff_sym 0 (MkWorld (replicate 6 (Some 0)) 0 0)
    = Some ((0, huff_tree), MkWorld [] 0 0).
Proof. vm_compute. reflexivity. Qed.

(** [huff_tree_build] gives that tree whenever memory suffices. *)
Lemma huff_tree_build_ok w :
  ∃ rc t w', huff_tree_build w = Some ((rc, t), w') ∧ (rc = 0 ∧ t = Some huff_tree ∨ rc = -1) ∧
    w_blocks w' = w_blocks w + (if is_null t then 0 else 1) ∧
    (∀ j, supply (7 + j) w → rc = 0 ∧ supply j w').
Proof.
  unfold huff_tree_build. destruct (malloc_ok w) as (r & w1 & E & Hb & _ & Hs). wstep E. destruct (is_null r) eqn:Hn.
  { exists (-1), None, w1. wrun. split; [done|]. split; [by right|]. split; [done|]. intros j Hj.
    destruct (Hs (6 + j)%nat) as [? _]; done. }
  destruct (tree_add_all_agrees _ _ _ _ _ _ huff_tree_built w1) as (rc & t & w2 & E2 & Hr & Hb2 & Hs2). wstep E2.
  exists rc, (Some t), w2. wrun. split; [done|]. split; [destruct Hr as [[-> ->]|]; auto|]. split; [cbn; lia|].
  intros j Hj. apply (Hs2 j). by apply (Hs (6 + j)%nat).
Qed.

(** ** The codes *)

(** The bits of the code of a symbol, from the table. *)
Definition code_bits (sym : Z) : list Z :=
  match aget s_huff_sym sym with
  | Some (nbits, code) => (λ i, Z.land (Z.shiftr code (31 - i)) 1) <$> seqZ 0 nbits
  | None => []
  end.

(** The bits are the codes of [s], padded with at most seven ones. *)
Definition huffman (in_ s : list Z) : Prop :=
  bytes_ok s ∧ ∃ k, (k <= 7)%nat ∧ in_ ≫= bits_of = (s ≫= code_bits) ++ replicate k 1.

Definition nodes : list hpack_huff_node_t := Eval vm_compute in tr_nodes huff_tree.

Lemma nodes_tree : tr_nodes huff_tree = nodes.
Proof. vm_compute. reflexivity. Qed.

(** The path to every node: a child has its parent's path and one bit. *)
Definition set_path (n : nat) (b : Z) (path : list Z) (paths : list (list Z)) : list (list Z) :=
  let child := child_of (default empty_node (nodes !! n)) b in
  if child <? 0 then paths else <[Z.to_nat child := path ++ [b]]> paths.
Definition paths : list (list Z) := Eval vm_compute in
  foldl (λ paths n, let path := default [] (paths !! n) in set_path n 0 path (set_path n 1 path paths))
    (replicate (length nodes) []) (seq 0 (length nodes)).

Definition path_of (node : Z) : list Z := default [] (aget paths node).

(** What is checked of each node: its children and its symbol. *)
Definition child_fine (node : Z) (n : hpack_huff_node_t) (b : Z) : bool :=
  let child := child_of n b in
  (child =? -1) || match aget nodes child with Some _ => bool_decide (path_of child = path_of node ++ [b]) | None => false end.
Definition node_fine (node : Z) : bool :=
  match aget nodes node with
  | Some n =>
      child_fine node n 0 && child_fine node n 1 &&
      ((no_sym n <? 0) || (no_sym n <=? 256) && bool_decide (path_of node = code_bits (no_sym n)))
  | None => false
  end.

Lemma nodes_fine : forallb node_fine (seqZ 0 (alen nodes)) = true.
Proof. vm_compute. reflexivity. Qed.

(** From a node, the bits lead through nodes without a symbol to the symbol. *)
Fixpoint leads (node : Z) (bits : list Z) (sym : Z) : bool :=
  match bits with
  | [] => false
  | b :: bits =>
      match aget nodes node with
      | None => false
      | Some n =>
          let child := child_of n b in
          negb (child =? -1) &&
          match aget nodes child with
          | None => false
          | Some c => match bits with [] => no_sym c =? sym | _ => (no_sym c <? 0) && leads child bits sym end
          end
      end
  end.

Lemma codes_lead : forallb (λ sym, leads 0 (code_bits sym) sym && (5 <=? alen (code_bits sym))) (seqZ 0 257) = true.
Proof. vm_compute. reflexivity. Qed.

Lemma node_fine_at node n : aget nodes node = Some n → node_fine node = true.
Proof.
  intros Hn. apply aget_Some in Hn as [Hb _]. pose proof nodes_fine as Hf. rewrite forallb_forall in Hf. apply Hf.
  apply list_elem_of_In, elem_of_seqZ. lia.
Qed.

Lemma code_leads sym : 0 <= sym <= 256 → leads 0 (code_bits sym) sym = true ∧ (5 <= length (code_bits sym))%nat.
Proof.
  intros Hs. pose proof codes_lead as Hf. rewrite forallb_forall in Hf. specialize (Hf sym).
  rewrite andb_true_iff, Z.leb_le in Hf. unfold alen in Hf. destruct Hf as [H1 H2]; [|split; [done|lia]].
  apply list_elem_of_In, elem_of_seqZ. lia.
Qed.

Lemma child_step node n b :
  aget nodes node = Some n → b = 0 ∨ b = 1 → child_of n b ≠ -1 →
  ∃ c, aget nodes (child_of n b) = Some c ∧ path_of (child_of n b) = path_of node ++ [b] ∧
    (0 <= no_sym c → no_sym c <= 256 ∧ path_of (child_of n b) = code_bits (no_sym c)).
Proof.
  intros Hn Hb Hc. pose proof (node_fine_at _ _ Hn) as Hf. unfold node_fine in Hf. rewrite Hn in Hf.
  assert (child_fine node n b = true) as Hcf.
  { apply andb_true_iff in Hf as [[H0 H1]%andb_true_iff _]. by destruct Hb as [-> | ->]. }
  unfold child_fine in Hcf. apply orb_true_iff in Hcf as [Hcf%Z.eqb_eq|Hcf]; [done|].
  destruct (aget nodes (child_of n b)) as [c|] eqn:Ec; [|done]. apply bool_decide_eq_true in Hcf. exists c. split; [done|]. split; [done|].
  intros Hs. pose proof (node_fine_at _ _ Ec) as Hfc. unfold node_fine in Hfc. rewrite Ec in Hfc.
  apply andb_true_iff in Hfc as [_ Hfc]. apply orb_true_iff in Hfc as [Hfc%Z.ltb_lt|Hfc]; [lia|].
  by apply andb_true_iff in Hfc as [?%Z.leb_le ?%bool_decide_eq_true].
Qed.

(** ** Decoding *)

Section Decode.
Context (max_string in_len : Z) (Hmax : 0 < max_string) (Hlen : 0 <= in_len).

(** The capacity of the buffer. *)
Definition out_capacity : Z := if max_string <? in_len * 2 + 16 then max_string else in_len * 2 + 16.

(** After the bits [done_]: the codes of what is written, then the path to the
    node; the padding bits are that path. *)
Record state_at (s : huff_state) (done_ : list Z) : Prop := {
  st_node : is_Some (aget nodes (hs_node s));
  st_done : done_ = (hs_out s ≫= code_bits) ++ path_of (hs_node s);
  st_pad_n : hs_pad_n s = alen (path_of (hs_node s));
  st_pad_len : length (hs_pad_bits s) = 8%nat;
  st_pad : take (Z.to_nat (hs_pad_n s)) (hs_pad_bits s) = Some <$> take 8 (path_of (hs_node s));
  st_out : bytes_ok (hs_out s);
  st_cap : hs_cap s = out_capacity;
  st_room : blen (hs_out s) <= out_capacity
}.

Lemma codes_length s : bytes_ok s → (5 * length s <= length (s ≫= code_bits))%nat.
Proof.
  induction 1 as [|x s Hx _ IH]; [done|]. cbn [mbind list_bind length]. rewrite length_app.
  destruct (code_leads x) as [_ Hl]; [unfold is_u8, UINT8_MAX in Hx; lia|]. lia.
Qed.

(** The buffer never grows: it is as large as it may be, or large enough. *)
Lemma huff_room_full out w :
  blen out <= out_capacity → 5 * blen out <= 8 * in_len →
  huff_room max_string out out_capacity w =
    Some (if blen out <? out_capacity then Some out_capacity else None, w) ∧ ((blen out <? out_capacity) = false → max_string <= blen out).
Proof.
  intros Hle H5. unfold huff_room. destruct (Z.leb_spec out_capacity (blen out)) as [Hfull|Hroom].
  2: { destruct (Z.ltb_spec (blen out) out_capacity); [done|lia]. }
  destruct (Z.ltb_spec (blen out) out_capacity); [lia|]. unfold out_capacity in *.
  destruct (Z.ltb_spec max_string (in_len * 2 + 16)); [|lia].
  destruct (Z.ltb_spec (max_string / 2) max_string) as [_|Hd]; [|pose proof (Z.div_lt max_string 2); lia].
  rewrite Z.leb_refl. split; [done|]. lia.
Qed.

(** The node and the output behind one bit; [None] for a refusal. *)
Definition bit_result (s : huff_state) (b : Z) : option (Z * list Z) :=
  n ← aget nodes (hs_node s);
  if child_of n b =? -1 then None else
  c ← aget nodes (child_of n b);
  if 0 <=? no_sym c then
    if no_sym c =? 256 then None else if blen (hs_out s) <? out_capacity then Some (0, hs_out s ++ [no_sym c]) else None
  else Some (child_of n b, hs_out s).

Lemma pad_step (pad_bits : list (option Z)) path b :
  length pad_bits = 8%nat → take (length path) pad_bits = Some <$> take 8 path →
  ∃ pad_bits', (if alen path <? 8 then aset pad_bits (alen path) (Some b) else Some pad_bits) = Some pad_bits' ∧
    length pad_bits' = 8%nat ∧ take (length (path ++ [b])) pad_bits' = Some <$> take 8 (path ++ [b]).
Proof.
  intros Hl Ht. rewrite length_app. cbn [length]. unfold alen. destruct (Z.ltb_spec (Z.of_nat (length path)) 8) as [Hlt|Hge].
  - rewrite aset_in_bounds by (unfold alen; lia). rewrite Nat2Z.id. eexists. split; [done|]. rewrite length_insert. split; [done|].
    rewrite Nat.add_1_r. rewrite (take_S_r _ _ (Some b)) by (apply list_lookup_insert_eq; lia).
    rewrite take_insert_ge by lia. rewrite Ht, !take_ge by (rewrite ?length_app; cbn; lia). by rewrite fmap_app.
  - exists pad_bits. split; [done|]. split; [done|]. rewrite take_ge by lia. rewrite take_ge in Ht by lia.
    rewrite Ht. by rewrite take_app_le by lia.
Qed.

Lemma huff_bit_ok s b done_ w :
  state_at s done_ → b = 0 ∨ b = 1 → alen done_ < 8 * in_len →
  ∃ r w', huff_bit nodes max_string s b w = Some (r, w') ∧
    match r with
    | None => bit_result s b = None ∧ w_blocks w' = w_blocks w - 1
    | Some s' => bit_result s b = Some (hs_node s', hs_out s') ∧ w' = w ∧ state_at s' (done_ ++ [b])
    end.
Proof using Hmax Hlen.
  intros [[n Hn] Hd Hpn Hpl Hp Ho Hc Hr] Hb Hlt. unfold huff_bit, bit_result. rewrite Hn. cbn [mbind option_bind].
  assert (hs_node s ≠ -1) as Hn1 by (intros E; rewrite E in Hn; discriminate Hn).
  destruct (Z.eqb_spec (hs_node s) (-1)); [done|]. wrun.
  destruct (Z.eqb_spec (child_of n b) (-1)) as [Hc1|Hc1]; [eexists None, _; split; [reflexivity|]; done|].
  destruct (child_step _ _ _ Hn Hb Hc1) as (c & Ec & Hpath & Hsym). rewrite Ec. cbn [mbind option_bind].
  rewrite Hpn in Hp |- *. unfold alen in Hp. rewrite Nat2Z.id in Hp.
  destruct (pad_step (hs_pad_bits s) (path_of (hs_node s)) b Hpl Hp) as (pad' & -> & Hpl' & Hp'). wrun.
  assert (5 * blen (hs_out s) <= 8 * in_len) as H5.
  { pose proof (codes_length _ Ho) as Hcl. rewrite Hd in Hlt. unfold alen, blen in *. rewrite length_app in Hlt. lia. }
  destruct (Z.leb_spec 0 (no_sym c)) as [Hs|Hs].
  - destruct (Hsym Hs) as [Hs256 Hcode]. destruct (Z.eqb_spec (no_sym c) 256); [eexists None, _; split; [reflexivity|]; done|].
    rewrite Hc. destruct (huff_room_full (hs_out s) w Hr H5) as [E _]. wstep E.
    destruct (Z.ltb_spec (blen (hs_out s)) out_capacity) as [Hroom|]; [|eexists None, _; split; [reflexivity|]; done].
    destruct (Z.leb_spec out_capacity (blen (hs_out s))); [lia|].
    rewrite u8_id by (unfold is_u8, UINT8_MAX; lia).
    eexists (Some _), w. split; [reflexivity|]. split; [done|]. split; [done|].
    split; cbn [hs_node hs_out hs_pad_n hs_pad_bits hs_cap]; try done.
    + rewrite Hd, <-app_assoc, <-Hpath, Hcode, bind_app. cbn. by rewrite !app_nil_r.
    + apply Forall_app_2; [done|]. constructor; [unfold is_u8, UINT8_MAX; lia|constructor].
    + rewrite blen_app, blen_cons, blen_nil. lia.
  - eexists (Some _), w. split; [reflexivity|]. split; [done|]. split; [done|].
    split; cbn [hs_node hs_out hs_pad_n hs_pad_bits hs_cap]; try done.
    + by rewrite Hd, <-app_assoc, Hpath.
    + rewrite Hpath. unfold alen. rewrite length_app. cbn. lia.
    + rewrite Hpath, <-Hp'. f_equal. unfold alen. rewrite length_app. cbn. lia.
Qed.

Lemma huff_bits_ok bits s done_ w :
  state_at s done_ → Forall (λ b, b = 0 ∨ b = 1) bits → alen done_ + alen bits <= 8 * in_len →
  ∃ r w', huff_bits nodes max_string s bits w = Some (r, w') ∧
    match r with
    | None => w_blocks w' = w_blocks w - 1
    | Some s' => w' = w ∧ state_at s' (done_ ++ bits)
    end.
Proof using Hmax Hlen.
  revert s done_ w. induction bits as [|b bits IH]; intros s done_ w Hs Hb Hl; cbn [huff_bits].
  - exists (Some s), w. rewrite app_nil_r. done.
  - apply Forall_cons in Hb as [Hb Hbs]. unfold alen in Hl. cbn [length] in Hl.
    destruct (huff_bit_ok s b done_ w Hs Hb) as (r & w1 & E & Hr); [unfold alen; lia|]. wstep E. destruct r as [s1|].
    + destruct Hr as (_ & -> & Hs1). destruct (IH s1 (done_ ++ [b]) w Hs1 Hbs) as (r & w2 & E2 & Hr2).
      { unfold alen. rewrite length_app. cbn. lia. }
      exists r, w2. split; [exact E2|]. destruct r; [|done]. by rewrite <-app_assoc in Hr2.
    + exists None, w1. split; [done|]. apply Hr.
Qed.

(** Bits that lead towards a symbol are taken. *)
Lemma run_prefix bits more sym s done_ w :
  more ≠ [] → leads (hs_node s) (bits ++ more) sym = true → Forall (λ b, b = 0 ∨ b = 1) bits →
  state_at s done_ → alen done_ + alen bits <= 8 * in_len →
  ∃ s', huff_bits nodes max_string s bits w = Some (Some s', w) ∧ hs_out s' = hs_out s ∧ leads (hs_node s') more sym = true ∧
    state_at s' (done_ ++ bits).
Proof using Hmax Hlen.
  intros Hm. revert s done_. induction bits as [|b bits IH]; intros s done_ Hl Hb Hs Hlt; cbn [huff_bits].
  { exists s. rewrite app_nil_r. done. }
  apply Forall_cons in Hb as [Hb Hbs]. unfold alen in Hlt. cbn [length app leads] in *.
  destruct (huff_bit_ok s b done_ w Hs Hb) as (r & w1 & E & Hr); [unfold alen; lia|]. wstep E. unfold bit_result in Hr.
  destruct (aget nodes (hs_node s)) as [n|]; [|done]. cbn [mbind option_bind] in Hr.
  destruct (child_of n b =? -1); [done|]. cbn [negb andb] in Hl. destruct (aget nodes (child_of n b)) as [c|]; [|done].
  cbn [mbind option_bind] in Hr. destruct (bits ++ more) as [|y l] eqn:Hbm; [by apply app_eq_nil in Hbm as [_ ->]|].
  apply andb_true_iff in Hl as [Hneg%Z.ltb_lt Hl]. destruct (Z.leb_spec 0 (no_sym c)); [lia|].
  destruct r as [s1|]; [|by destruct Hr]. destruct Hr as ([= Hnode Hout] & -> & Hs1). rewrite Hnode in Hl.
  destruct (IH s1 (done_ ++ [b])) as (s' & E' & Ho & Hl' & Hs'); [done|done|done|unfold alen; rewrite length_app; cbn; lia|].
  exists s'. split; [done|]. split; [congruence|]. split; [done|]. by rewrite <-app_assoc in Hs'.
Qed.

(** The code of a byte, from the root. *)
Lemma code_bits_bits sym : Forall (λ b, b = 0 ∨ b = 1) (code_bits sym).
Proof.
  unfold code_bits. destruct (aget s_huff_sym sym) as [[nbits code]|]; [|constructor]. apply Forall_fmap, Forall_true.
  intros i. cbn. change 1 with (2 ^ 1 - 1) at 1 2. rewrite land_ones_mod by lia. pose proof (Z.mod_pos_bound (Z.shiftr code (31 - i)) (2 ^ 1)). lia.
Qed.

Lemma huff_bits_app l1 l2 s w s1 w1 :
  huff_bits nodes max_string s l1 w = Some (Some s1, w1) → huff_bits nodes max_string s (l1 ++ l2) w = huff_bits nodes max_string s1 l2 w1.
Proof using Type.
  revert s w. induction l1 as [|b l1 IH]; intros s w; cbn [huff_bits app]; [by intros [= <- <-]|].
  unfold mbind, M_bind. destruct (huff_bit nodes max_string s b w) as [[[s2|] w2]|]; [apply IH|done|done].
Qed.

Lemma run_code x s done_ w :
  is_u8 x → hs_node s = 0 → blen (hs_out s) < out_capacity → state_at s done_ → alen done_ + alen (code_bits x) <= 8 * in_len →
  ∃ s', huff_bits nodes max_string s (code_bits x) w = Some (Some s', w) ∧ hs_out s' = hs_out s ++ [x] ∧ hs_node s' = 0 ∧
    state_at s' (done_ ++ code_bits x).
Proof using Hmax Hlen.
  intros Hx Hn Hroom Hs Hlt. unfold is_u8, UINT8_MAX in Hx. destruct (code_leads x) as [Hl H5]; [lia|].
  pose proof (code_bits_bits x) as Hb. destruct (code_bits x) as [|b0 l0 _] eqn:Ec using rev_ind; [cbn in H5; lia|].
  apply Forall_app in Hb as [Hb0 [Hb1 _]%Forall_cons]. unfold alen in Hlt. rewrite length_app in Hlt. cbn in Hlt.
  destruct (run_prefix l0 [b0] x s done_ w) as (s1 & E1 & Ho & Hl1 & Hs1); [by intros ?|by rewrite Hn|done|done|unfold alen; lia|].
  rewrite (huff_bits_app _ _ _ _ _ _ E1). cbn [huff_bits].
  destruct (huff_bit_ok s1 b0 _ w Hs1 Hb1) as (r & w1 & E & Hr); [unfold alen; rewrite length_app; lia|]. wstep E.
  unfold bit_result in Hr. cbn [leads] in Hl1. destruct (aget nodes (hs_node s1)) as [n|]; [|done]. cbn [mbind option_bind] in Hr.
  destruct (child_of n b0 =? -1); [done|]. cbn [negb andb] in Hl1. destruct (aget nodes (child_of n b0)) as [c|]; [|done].
  apply Z.eqb_eq in Hl1. cbn [mbind option_bind] in Hr. rewrite Hl1, Ho in Hr. destruct (Z.leb_spec 0 x); [|lia].
  destruct (Z.eqb_spec x 256); [lia|]. destruct (Z.ltb_spec (blen (hs_out s)) out_capacity); [|lia].
  destruct r as [s2|]; [|by destruct Hr]. destruct Hr as ([= Hnode Hout] & -> & Hs2). exists s2. wrun. split; [done|].
  split; [done|]. split; [done|]. by rewrite <-app_assoc in Hs2.
Qed.

Lemma run_codes l s done_ w :
  bytes_ok l → hs_node s = 0 → blen (hs_out s) + blen l <= out_capacity → state_at s done_ →
  alen done_ + alen (l ≫= code_bits) <= 8 * in_len →
  ∃ s', huff_bits nodes max_string s (l ≫= code_bits) w = Some (Some s', w) ∧ hs_out s' = hs_out s ++ l ∧ hs_node s' = 0 ∧
    state_at s' (done_ ++ (l ≫= code_bits)).
Proof using Hmax Hlen.
  intros Hl. revert s done_. induction Hl as [|x l Hx _ IH]; intros s done_ Hn Hroom Hs Hlt.
  { exists s. cbn. rewrite !app_nil_r. done. }
  rewrite blen_cons in Hroom. pose proof (blen_nonneg l). change ((x :: l) ≫= code_bits) with (code_bits x ++ (l ≫= code_bits)) in *.
  unfold alen in Hlt. rewrite length_app in Hlt.
  destruct (run_code x s done_ w Hx Hn) as (s1 & E1 & Ho & Hn1 & Hs1); [lia|done|unfold alen; lia|].
  rewrite (huff_bits_app _ _ _ _ _ _ E1).
  destruct (IH s1 (done_ ++ code_bits x) Hn1) as (s2 & E2 & Ho2 & Hn2 & Hs2).
  - rewrite Ho, blen_app, blen_cons, blen_nil. lia.
  - done.
  - unfold alen. rewrite length_app. lia.
  - exists s2. split; [done|]. split; [by rewrite Ho2, Ho, <-app_assoc|]. split; [done|]. by rewrite app_assoc.
Qed.

(** The padding. *)
Lemma ones_lead k : (k <= 7)%nat → leads 0 (replicate k 1 ++ replicate (30 - k) 1) 256 = true.
Proof using Type.
  intros Hk. rewrite <-replicate_add. replace (k + (30 - k))%nat with 30%nat by lia. by vm_compute.
Qed.

Lemma run_padded l k s w :
  bytes_ok l → (k <= 7)%nat → hs_node s = 0 → blen (hs_out s) + blen l <= out_capacity → state_at s [] →
  alen ((l ≫= code_bits) ++ replicate k 1) <= 8 * in_len →
  ∃ s', huff_bits nodes max_string s ((l ≫= code_bits) ++ replicate k 1) w = Some (Some s', w) ∧ hs_out s' = hs_out s ++ l ∧
    state_at s' ((l ≫= code_bits) ++ replicate k 1).
Proof using Hmax Hlen.
  intros Hl Hk Hn Hroom Hs Hlt. rewrite alen_app in Hlt. pose proof (alen_nonneg (replicate k 1)).
  destruct (run_codes l s [] w Hl Hn Hroom Hs) as (s1 & E1 & Ho & Hn1 & Hs1); [unfold alen at 1; cbn; lia|].
  rewrite (huff_bits_app _ _ _ _ _ _ E1).
  destruct (run_prefix (replicate k 1) (replicate (30 - k) 1) 256 s1 (l ≫= code_bits) w) as (s2 & E2 & Ho2 & _ & Hs2).
  - destruct (30 - k)%nat eqn:E; [lia|done].
  - rewrite Hn1. by apply ones_lead.
  - apply Forall_replicate. by right.
  - done.
  - lia.
  - exists s2. split; [done|]. split; [congruence|done].
Qed.
End Decode.

Lemma pad_ones_take pad_bits bits n :
  n = length bits → take n pad_bits = Some <$> bits → pad_ones pad_bits n = Some (forallb (λ b, b =? 1) bits).
Proof.
  intros ->. revert pad_bits. induction bits as [|b bits IH]; intros pad_bits; [by destruct pad_bits|].
  destruct pad_bits as [|p pad_bits]; [done|]. cbn. intros [= -> H]. destruct (b =? 1); cbn; [by apply IH|done].
Qed.

Lemma bits_of_bits l : Forall (λ b, b = 0 ∨ b = 1) (l ≫= bits_of) ∧ length (l ≫= bits_of) = (8 * length l)%nat.
Proof.
  induction l as [|x l [IH1 IH2]]; [done|]. change ((x :: l) ≫= bits_of) with (bits_of x ++ (l ≫= bits_of)). split.
  - apply Forall_app_2; [|done]. unfold bits_of. apply Forall_fmap, Forall_true. intros i. cbn.
    change 1 with (2 ^ 1 - 1) at 1 2. rewrite land_ones_mod by lia. pose proof (Z.mod_pos_bound (Z.shiftr x i) (2 ^ 1)). lia.
  - rewrite length_app, IH2. cbn. lia.
Qed.

(** What [hpack_huff_decode] does with any bytes. *)
Lemma huff_decode_ok h in_ w :
  hp_huff h = nodes → 0 < hp_max_string_bytes h →
  ∃ r w', hpack_huff_decode h in_ w = Some (r, w') ∧ w_blocks w' = w_blocks w + (if is_null r then 0 else 1) ∧
    (∀ s, r = Some s → huffman in_ s ∧ blen s <= hp_max_string_bytes h) ∧
    (∀ s j, huffman in_ s → blen in_ <= hp_max_string_bytes h → blen s <= hp_max_string_bytes h → blen in_ * 2 + 16 <= SIZE_MAX →
       supply (1 + j) w → r = Some s ∧ supply j w').
Proof.
  intros Hn Hmax. unfold hpack_huff_decode. pose proof (blen_nonneg in_) as Hnn. rewrite Hn.
  destruct ((hp_max_string_bytes h <? blen in_) || ((SIZE_MAX - 16) / 2 <? blen in_)) eqn:Hbig.
  { exists None, w. wrun. split; [done|]. split; [cbn; lia|]. split; [done|]. intros s j _ H1 _ H2.
    apply orb_true_iff in Hbig as [H%Z.ltb_lt|H%Z.ltb_lt]; [lia|]. replace ((SIZE_MAX - 16) / 2) with 9223372036854775799 in H by done.
    unfold SIZE_MAX, UINT64_MAX in H2. lia. }
  apply orb_false_iff in Hbig as [Hb1%Z.ltb_ge _]. fold (out_capacity (hp_max_string_bytes h) (blen in_)).
  set (cap := out_capacity _ _). assert (0 < cap) as Hcap by (unfold cap, out_capacity; destruct (Z.ltb_spec (hp_max_string_bytes h) (blen in_ * 2 + 16)); lia).
  destruct (Z.eqb_spec cap 0); [lia|]. destruct (malloc_ok w) as (buf & w1 & E & Hbl & _ & Hs). wstep E. destruct (is_null buf) eqn:Hnull.
  { exists None, w1. wrun. split; [done|]. split; [done|]. split; [done|]. intros s j _ _ _ _ Hj. destruct (Hs j Hj). done. }
  set (s0 := MkHuff 0 0 (replicate 8 None) [] cap).
  assert (state_at (hp_max_string_bytes h) (blen in_) s0 []) as Hs0.
  { split; cbn; try done. - by apply Forall_nil.
    - apply Z.lt_le_incl, Hcap. }
  destruct (bits_of_bits in_) as [Hbits Hbl8].
  assert (alen (in_ ≫= bits_of) = 8 * blen in_) as Hlen by (unfold alen, blen; lia).
  destruct (huff_bits_ok _ _ Hmax Hnn (in_ ≫= bits_of) s0 [] w1 Hs0 Hbits) as (r & w2 & E2 & Hr); [unfold alen at 1; cbn; lia|].
  assert (∀ s, huffman in_ s → blen s <= hp_max_string_bytes h →
    ∃ s', r = Some s' ∧ hs_out s' = s ∧ ∃ k, (k <= 7)%nat ∧ path_of (hs_node s') = replicate k 1) as Hcomplete.
  { intros s [Hok (k & Hk & Hcode)] Hsl. rewrite Hcode in *.
    destruct (run_padded _ _ Hmax Hnn s k s0 w1 Hok Hk eq_refl) as (s' & E' & Ho & Hs'); [|done|lia|].
    - cbn [hs_out s0]. rewrite blen_nil. pose proof (codes_length s Hok) as H5. rewrite alen_app in Hlen. unfold alen in Hlen.
      fold cap. unfold cap, out_capacity. destruct (Z.ltb_spec (hp_max_string_bytes h) (blen in_ * 2 + 16)); [lia|].
      unfold blen in *. lia.
    - rewrite E2 in E'. injection E' as -> ->. exists s'. split; [done|]. split; [done|]. exists k. split; [done|].
      destruct Hs' as [_ Hd _ _ _ _ _ _]. rewrite Ho in Hd. cbn in Hd. by apply app_inv_head in Hd. }
  wstep E2. destruct r as [s'|].
  2: { exists None, w2. wrun. split; [done|]. split; [cbn; lia|]. split; [done|]. intros s j Hhs _ Hsl _ _.
       destruct (Hcomplete s Hhs Hsl) as (? & ? & _). done. }
  destruct Hr as [-> [_ Hd Hpn _ Hp Ho Hc Hroom]]. cbn [app] in Hd. rewrite Hpn in Hp |- *.
  destruct (Z.ltb_spec 7 (alen (path_of (hs_node s')))) as [H7|H7].
  { eexists None, _. split; [reflexivity|]. split; [cbn; lia|]. split; [done|]. intros s j Hhs _ Hsl _ _.
    destruct (Hcomplete s Hhs Hsl) as (? & [= <-] & _ & k & Hk & Hpk). rewrite Hpk in H7. unfold alen in H7. rewrite length_replicate in H7. lia. }
  unfold alen in Hp, H7 |- *. rewrite Nat2Z.id in Hp |- *. rewrite (take_ge (path_of (hs_node s'))) in Hp by lia.
  rewrite (pad_ones_take _ (path_of (hs_node s')) _ eq_refl Hp). wrun. destruct (forallb _ _) eqn:Hones; cbn [negb].
  - exists (Some (hs_out s')), w1. wrun. split; [done|]. split; [cbn; lia|]. split.
    + intros s [= <-]. split; [split; [done|]|].
      * exists (length (path_of (hs_node s'))). split; [lia|]. rewrite Hd. f_equal.
        clear -Hones. induction (path_of (hs_node s')) as [|b l IH]; cbn in *; [done|]. apply andb_true_iff in Hones as [->%Z.eqb_eq H].
        f_equal. by apply IH.
      * unfold out_capacity in Hroom. destruct (Z.ltb_spec (hp_max_string_bytes h) (blen in_ * 2 + 16)); lia.
    + intros s j Hhs _ Hsl _ Hj. destruct (Hcomplete s Hhs Hsl) as (? & [= <-] & <- & _). split; [done|]. by apply Hs.
  - eexists None, _. split; [reflexivity|]. split; [cbn; lia|]. split; [done|]. intros s j Hhs _ Hsl _ _.
    destruct (Hcomplete s Hhs Hsl) as (? & [= <-] & _ & k & Hk & Hpk). rewrite Hpk in Hones.
    assert (forallb (λ b, b =? 1) (replicate k 1) = true) as H1 by (clear; induction k; done). congruence.
Qed.

(** ** Contexts *)

#[local] Opaque huff_tree nodes.

(** What a new context is; the tree's nodes stay allocated when the tree
    cannot be built. *)
Lemma create_ok c w :
  ∃ h w', chttp_h2_hpack_create (Some c) w = Some (h, w') ∧
    (∀ h', h = Some h' → hc_max_dynamic_table_bytes c <= UINT32_MAX ∧ hc_max_string_bytes c ≠ 0 ∧ w_blocks w' = w_blocks w + 2 ∧
      let max := hc_max_dynamic_table_bytes c in
      let table := MkTable [] 0 (max / 32) 0 max in
      h' = MkHpack table table nodes max 0 0 false max (hc_max_header_block_bytes c) (hc_max_string_bytes c)) ∧
    (hc_max_dynamic_table_bytes c <= UINT32_MAX → hc_max_header_block_bytes c ≠ 0 → hc_max_string_bytes c ≠ 0 → supply 8 w → is_Some h).
Proof.
  unfold chttp_h2_hpack_create. destruct (malloc_ok w) as (r & w1 & Em & Hb1 & _ & Hs1). wstep Em.
  destruct (Z.ltb_spec UINT32_MAX (hc_max_dynamic_table_bytes c)) as [Hbig|Hmax]; cbn [orb].
  { destruct (free_if_ok r w1) as (w2 & E2 & _). wstep E2. eexists None, w2. split; [done|]. split; [done|]. lia. }
  destruct ((hc_max_header_block_bytes c =? 0) || (hc_max_string_bytes c =? 0) || is_null r) eqn:Hg.
  { destruct (free_if_ok r w1) as (w2 & E2 & _). wstep E2. eexists None, w2. split; [done|]. split; [done|]. intros _ Hh Hst Hsup.
    destruct (Hs1 7%nat Hsup) as [Hr _]. rewrite Hr in Hg. apply orb_true_iff in Hg as [Hg|]; [|done].
    apply orb_true_iff in Hg as [?%Z.eqb_eq|?%Z.eqb_eq]; done. }
  apply orb_false_iff in Hg as [[_ Hst%Z.eqb_neq]%orb_false_iff Hr]. rewrite Hr in Hb1.
  destruct (huff_tree_build_ok w1) as (rc & t & w2 & E2 & Hrc & Hb2 & Hs2). wstep E2. destruct Hrc as [[-> ->]| ->].
  - cbn [Z.eqb negb]. wrun. eexists (Some _), w2. split; [reflexivity|]. split; [|by eexists]. intros h' [= <-]. split; [done|]. split; [done|].
    rewrite nodes_tree. cbn in Hb2. split; [lia|done].
  - assert (∃ w3, match t with Some tree => if negb (-1 =? 0) then _ ← mfree; mret None else
      let table := MkTable [] 0 (hc_max_dynamic_table_bytes c / 32) 0 (hc_max_dynamic_table_bytes c) in
      mret (Some (MkHpack table table (tr_nodes tree) (hc_max_dynamic_table_bytes c) 0 0 false (hc_max_dynamic_table_bytes c)
        (hc_max_header_block_bytes c) (hc_max_string_bytes c)))
      | None => _ ← mfree; mret None end w2 = Some (None, w3)) as [w3 E3] by (destruct t; by eexists).
    exists None, w3. split; [exact E3|]. split; [done|]. intros _ _ _ Hsup. destruct (Hs1 7%nat Hsup) as [_ H7]. by destruct (Hs2 0%nat H7).
Qed.

(** C22. Huffman strings are decoded exactly. With the tree that
    [huff_tree_build] makes, [hpack_huff_decode] returns for every bytes; what
    it returns is a string whose codes, followed by at most seven ones, are the
    bits of the input; conversely every such input is decoded to its string,
    as long as both are within the limit and one block can be allocated. A
    refusal leaves nothing allocated, a string is one block. *)
Theorem hpack_huffman_exact wb t wb' h in_ w :
  huff_tree_build wb = Some ((0, Some t), wb') → hp_huff h = tr_nodes t → 0 < hp_max_string_bytes h →
  ∃ r w', hpack_huff_decode h in_ w = Some (r, w') ∧ w_blocks w' = w_blocks w + (if is_null r then 0 else 1) ∧
    (∀ s, r = Some s → huffman in_ s ∧ blen s <= hp_max_string_bytes h) ∧
    (∀ s, huffman in_ s → blen in_ <= hp_max_string_bytes h → blen s <= hp_max_string_bytes h → blen in_ * 2 + 16 <= SIZE_MAX →
       supply 1 w → r = Some s).
Proof.
  intros Hb Hh Hs. destruct (huff_tree_build_ok wb) as (rc & t' & w' & E & Hrc & _). rewrite Hb in E. injection E as <- <- <-.
  destruct Hrc as [[_ Ht]|Hne]; [|discriminate Hne]. apply (inj Some) in Ht. rewrite Ht, nodes_tree in Hh.
  destruct (huff_decode_ok h in_ w Hh Hs) as (r & w2 & E & Hbl & Hso & Hco). exists r, w2. do 3 (split; [done|]).
  intros s H1 H2 H3 H4 H5. by apply (Hco s 0%nat).
Qed.
