(* ===== verification/HpackSafe.v ===== *)
(** * Decoding bytes of any origin

    The decoder returns on every input: it reads no byte outside of the
    block, keeps the invariants of its table, leaks nothing, and reports at
    most as many headers as the limit of the header list admits. *)

From S2P Require Import Prelude World HpackTables Hpack HpackCodec HpackWire HpackTable HpackHuffman.
Local Open Scope Z_scope.

(** The decoder's side of a context. *)
Record decoder_ok (h : chttp_h2_hpack) : Prop := {
  dk_table : table_ok (hp_decoder h);
  dk_huff : hp_huff h = nodes;
  dk_string : 0 < hp_max_string_bytes h;
  dk_max : dt_max_size (hp_decoder h) <= hp_decoder_max_size h <= UINT32_MAX
}.

(** ** Reading *)

Lemma get_int_loop_total fuel in_ pos i value :
  bytes_ok in_ → 0 <= pos → 0 <= i → (6 <= i + Z.of_nat fuel) → 0 < Z.of_nat fuel →
  ∃ r, get_int_loop fuel in_ (blen in_) pos (7 * i) value = Some r ∧
    match r with Some (v, p) => is_u32 v ∧ pos < p <= blen in_ | None => True end.
Proof.
  intros Hb. revert pos i value. induction fuel as [|fuel IH]; intros pos i value Hp Hi Hf H0; [lia|]. rewrite get_int_loop_S.
  destruct (Z.leb_spec (blen in_) pos); [eexists; done|]. destruct (Z.ltb_spec 28 (7 * i)); [eexists; done|]. cbn [orb].
  destruct (load_in_bounds in_ pos) as [byte Hl]; [lia|]. rewrite Hl. cbn [mbind option_bind]. set (v := u32 _).
  destruct (Z.land byte 128 =? 0); [exists (Some (v, pos + 1)); split; [done|]; split; [apply u32_range|lia]|].
  replace (7 * i + 7) with (7 * (i + 1)) by lia. destruct (IH (pos + 1) (i + 1) v) as (r & E & Hr); [lia..|].
  exists r. split; [done|]. destruct r as [[v' p']|]; [|done]. destruct Hr as [? ?]. split; [done|lia].
Qed.

Lemma get_int_total in_ pos p :
  bytes_ok in_ → 0 <= pos → 1 <= p <= 8 →
  ∃ r, hpack_get_int in_ (blen in_) pos p = Some r ∧
    match r with Some (v, p) => is_u32 v ∧ pos < p <= blen in_ | None => True end.
Proof.
  intros Hb Hpos Hp. unfold hpack_get_int. destruct (Z.ltb_spec p 1); [lia|]. destruct (Z.ltb_spec 8 p); [lia|]. cbn [orb].
  destruct (Z.leb_spec (blen in_) pos); [eexists; done|]. destruct (load_in_bounds in_ pos) as [byte Hl]; [lia|].
  rewrite Hl. cbn [mbind option_bind]. destruct (first_mask_bound p Hp) as [Hm _].
  rewrite Z.shiftl_mul_pow2, Z.mul_1_l by lia. fold (first_mask p).
  assert (0 <= Z.land byte (first_mask p)) as Hnn by (apply Z.land_nonneg; right; lia).
  destruct (Z.ltb_spec (Z.land byte (first_mask p)) (first_mask p)).
  - eexists. split; [done|]. cbn. unfold is_u32, UINT32_MAX. split; lia.
  - destruct (get_int_loop_total 6 in_ (pos + 1) 0 (Z.land byte (first_mask p)) Hb) as (r & E & Hr); [lia..|].
    exists r. split; [done|]. destruct r as [[v' p']|]; [|done]. destruct Hr. split; [done|lia].
Qed.

Definition owned (b : bool) : Z := if b then 1 else 0.

Lemma get_string_total h in_ pos w :
  bytes_ok in_ → 0 <= pos → decoder_ok h →
  ∃ r w', hpack_get_string h in_ (blen in_) pos w = Some (r, w') ∧
    match r with
    | None => w_blocks w' = w_blocks w
    | Some (s, own, p) => w_blocks w' = w_blocks w + owned own ∧ pos < p <= blen in_ ∧ blen s <= hp_max_string_bytes h
    end.
Proof.
  intros Hb Hpos [_ Hh Hs _]. unfold hpack_get_string. destruct (Z.leb_spec (blen in_) pos); [exists None, w; done|].
  destruct (load_in_bounds in_ pos) as [byte Hl]; [lia|]. rewrite Hl. wrun.
  destruct (get_int_total in_ pos 7 Hb Hpos) as (r & E & Hr); [lia|]. rewrite E. wrun.
  destruct r as [[len p]|]; [|exists None, w; done]. destruct Hr as [Hlen Hp]. unfold is_u32 in Hlen.
  destruct (Z.ltb_spec (blen in_ - p) len); [exists None, w; done|]. destruct (Z.ltb_spec (hp_max_string_bytes h) len); [exists None, w; done|].
  destruct (slice in_ p len) as [bytes|] eqn:Hsl; [|by rewrite slice_in_bounds in Hsl by lia]. wrun.
  pose proof (slice_blen _ _ _ _ Hsl) as Hbl. destruct (negb (Z.land byte 128 =? 0)).
  - destruct (huff_decode_ok h bytes w Hh Hs) as (r & w1 & Ed & Hbk & Hso & _). wstep Ed. destruct r as [s|].
    + exists (Some (s, true, p + len)), w1. split; [done|]. destruct (Hso s eq_refl). cbn in Hbk |- *. split; [done|]. split; [lia|done].
    + exists None, w1. split; [done|]. cbn in Hbk. lia.
  - eexists (Some _), w. split; [reflexivity|]. cbn. split; [lia|]. split; [lia|]. lia.
Qed.

Lemma table_get_total h i : is_u32 i → ∃ r, table_get h i = Some r.
Proof.
  intros Hi. unfold is_u32 in Hi. unfold table_get. destruct (Z.eqb_spec i 0); [eauto|]. destruct (Z.leb_spec i 61).
  - destruct (aget_in_bounds s_hpack_static (i - 1)) as [f Hf].
    { replace (alen s_hpack_static) with 61 by by_eval. lia. }
    rewrite Hf. eauto.
  - rewrite u32_id by (unfold is_u32; lia). destruct (Z.leb_spec (alen (dt_entries (hp_decoder h))) (i - 62)); [eauto|].
    destruct (aget_in_bounds (dt_entries (hp_decoder h)) (i - 62)) as [f Hf]; [lia|]. rewrite Hf. cbn. eauto.
Qed.

(** ** Fields *)

Section Safe.
Context (cb : option (list field → Z)) (in_ : list Z) (limit : Z).
Context (Hin : bytes_ok in_).

(** Headers are counted before they are reported. *)
Definition counted (d : decode_state) : Prop :=
  limit = 0 ∨ 0 <= de_list_bytes d <= limit ∧ fields_size (de_calls d) <= de_list_bytes d.

(** What a field does to the decoder. *)
Record stepped (d : decode_state) (w : world) (rc : Z) (d' : decode_state) (w' : world) : Prop := {
  sp_ok : decoder_ok (de_hpack d');
  sp_frame : ∃ t, de_hpack d' = set_decoder (de_hpack d) t (hp_decoder_max_size (de_hpack d));
  sp_pos : rc = 0 → de_pos d < de_pos d' <= blen in_;
  sp_counted : counted d';
  sp_rc : rc = 0 ∨ rc = -1 ∨ rc = -3 ∧ ∃ f, cb = Some f ∧ f (de_calls d') ≠ 0;
  sp_blocks : w_blocks w' - table_blocks (hp_decoder (de_hpack d')) = w_blocks w - table_blocks (hp_decoder (de_hpack d))
}.

Lemma report_ok d name value :
  counted d → 0 <= limit →
  ∃ aborted d', report cb limit d name value = (aborted, d') ∧ de_hpack d' = de_hpack d ∧ de_pos d' = de_pos d ∧ counted d' ∧
    (aborted = true → ∃ f, cb = Some f ∧ f (de_calls d') ≠ 0).
Proof using Type.
  intros Hc Hlim. unfold report.
  assert (∃ n b, (if de_too_large d then (de_list_bytes d, true) else
    match hpack_add_header_list_size (de_list_bytes d) (blen name) (blen value) limit with
    | Some n => (n, false) | None => (de_list_bytes d, true) end) = (n, b) ∧
    (limit = 0 ∨ de_list_bytes d <= n <= limit ∧ (b = false → n = de_list_bytes d + field_size (name, value)))) as (n & b & -> & Hn).
  { destruct (de_too_large d); [eexists _, true; split; [done|]; destruct Hc; [by left|right; split; [lia|done]]|].
    unfold hpack_add_header_list_size. destruct (Z.eqb_spec limit 0); [eexists _, false; split; [done|]; by left|].
    destruct Hc as [?|[Hc1 Hc2]]; [done|]. pose proof (field_size_pos (name, value)) as Hfp.
    destruct (_ || _); [eexists _, true; split; [done|]; right; split; [lia|done]|].
    destruct (Z.ltb_spec limit (de_list_bytes d)); [lia|].
    destruct (Z.ltb_spec (limit - de_list_bytes d) (blen name + blen value + 32)); cbn [orb];
      [eexists _, true; split; [done|]; right; split; [lia|done]|].
    eexists _, false. split; [done|]. right. unfold field_size in *. cbn [fst snd] in *. split; [lia|]. intros _. lia. }
  destruct cb as [f|]; [destruct b|].
  - eexists _, _. split; [reflexivity|]. cbn. split; [done|]. split; [done|]. split; [|done]. unfold counted in *. cbn.
    destruct Hn as [?|[Hn _]]; [by left|]. destruct Hc as [?|[Hc1 Hc2]]; [by left|]. right. lia.
  - eexists _, _. split; [reflexivity|]. cbn. split; [done|]. split; [done|]. split.
    + unfold counted in *. cbn. destruct Hn as [?|[Hn1 Hn2]]; [by left|]. destruct Hc as [?|[Hc1 Hc2]]; [by left|]. right.
      rewrite fields_size_app. cbn. specialize (Hn2 eq_refl). lia.
    + intros Ha. exists f. split; [done|]. intros H0. rewrite H0 in Ha. done.
  - eexists _, _. split; [reflexivity|]. cbn. split; [done|]. split; [done|]. split; [|done]. unfold counted in *. cbn.
    destruct Hn as [?|[Hn _]]; [by left|]. destruct Hc as [?|[Hc1 Hc2]]; [by left|]. right. lia.
Qed.

Lemma set_decoder_same h : set_decoder h (hp_decoder h) (hp_decoder_max_size h) = h.
Proof using Type. by destruct h. Qed.

Lemma get_literal_total h pos p w :
  0 <= pos → 1 <= p <= 8 → decoder_ok h →
  ∃ r w', get_literal in_ (blen in_) h pos p w = Some (r, w') ∧
    match r with
    | None => w_blocks w' = w_blocks w
    | Some (name, n_owned, value, v_owned, q) => w_blocks w' = w_blocks w + owned n_owned + owned v_owned ∧ pos < q <= blen in_
    end.
Proof using Hin.
  intros Hpos Hp Hok. unfold get_literal. destruct (get_int_total in_ pos p Hin Hpos Hp) as (r & E & Hr). rewrite E. wrun.
  destruct r as [[index q]|]; [|exists None, w; done]. destruct Hr as [Hi Hq].
  assert (∃ n w1, (if index =? 0 then hpack_get_string h in_ (blen in_) q
      else r ← lift (table_get h index); mret (match r with None => None | Some (name, _) => Some (name, false, q) end)) w = Some (n, w1) ∧
    match n with
    | None => w_blocks w1 = w_blocks w
    | Some (_, own, q') => w_blocks w1 = w_blocks w + owned own ∧ q <= q' <= blen in_
    end) as (n & w1 & En & Hn).
  { destruct (index =? 0).
    - destruct (get_string_total h in_ q w Hin) as (n & w1 & En & Hn); [lia|done|]. exists n, w1. split; [done|].
      destruct n as [[[s own] q']|]; [|done]. destruct Hn as (? & ? & _). split; [done|lia].
    - destruct (table_get_total h index Hi) as (e & He). rewrite He. wrun. exists (match e with None => None | Some (name, _) => Some (name, false, q) end), w.
      split; [done|]. destruct e as [[name value]|]; cbn; [|done]. split; lia. }
  wstep En. destruct n as [[[name n_owned] q1]|]; [|exists None, w1; done]. destruct Hn as [Hb1 Hq1].
  destruct (get_string_total h in_ q1 w1 Hin) as (v & w2 & Ev & Hv); [lia|done|]. wstep Ev. destruct v as [[[value v_owned] q2]|].
  - eexists (Some _), w2. split; [reflexivity|]. cbn. destruct Hv as (Hb2 & Hq2 & _). split; lia.
  - destruct n_owned; eexists None, _; (split; [reflexivity|]); cbn in *; lia.
Qed.

(** A field that is refused leaves the decoder as it is. *)
Lemma stepped_refused d w d' w' :
  decoder_ok (de_hpack d) → counted d → de_hpack d' = de_hpack d → de_calls d' = de_calls d → de_list_bytes d' = de_list_bytes d →
  w_blocks w' = w_blocks w → stepped d w (-1) d' w'.
Proof using Type.
  intros Hok Hc Hh Hcl Hl Hb. split.
  - by rewrite Hh.
  - exists (hp_decoder (de_hpack d)). by rewrite set_decoder_same.
  - done.
  - unfold counted in *. by rewrite Hcl, Hl.
  - by right; left.
  - rewrite Hh, Hb. done.
Qed.

Lemma decode_indexed_total d w :
  decoder_ok (de_hpack d) → counted d → 0 <= limit → 0 <= de_pos d →
  ∃ rc d' w', decode_indexed cb in_ (blen in_) limit d w = Some ((rc, d'), w') ∧ stepped d w rc d' w'.
Proof using Hin.
  intros Hok Hc Hlim Hpos. unfold decode_indexed. destruct (get_int_total in_ (de_pos d) 7 Hin Hpos) as (r & E & Hr); [lia|]. rewrite E. wrun.
  destruct r as [[index pos]|]; [|eexists _, _, _; split; [reflexivity|]; by apply stepped_refused].
  destruct Hr as [Hi Hp]. destruct (table_get_total (de_hpack d) index Hi) as (e & He). rewrite He. wrun.
  destruct e as [[name value]|]; [|eexists _, _, _; split; [reflexivity|]; by apply stepped_refused].
  destruct (report_ok (at_pos d pos) name value Hc Hlim) as (ab & d' & -> & Hh & Hp' & Hc' & Ha). eexists _, d', w. split; [reflexivity|].
  cbn in Hh, Hp'. split; rewrite ?Hh; try done; [| |destruct ab; auto].
  - exists (hp_decoder (de_hpack d)). by rewrite set_decoder_same.
  - rewrite Hp'. lia.
Qed.

Lemma decode_literal_total d p indexing w :
  decoder_ok (de_hpack d) → counted d → 0 <= limit → 0 <= de_pos d → 1 <= p <= 8 →
  ∃ rc d' w', decode_literal cb in_ (blen in_) limit d p indexing w = Some ((rc, d'), w') ∧ stepped d w rc d' w'.
Proof using Hin.
  intros Hok Hc Hlim Hpos Hp. unfold decode_literal. destruct (get_literal_total (de_hpack d) (de_pos d) p w Hpos Hp Hok) as (l & w1 & E & Hl).
  wstep E. destruct l as [[[[[name n_owned] value] v_owned] pos]|]; [|eexists _, _, _; split; [reflexivity|]; by apply stepped_refused].
  destruct Hl as [Hb1 Hq]. destruct (report_ok (at_pos d pos) name value Hc Hlim) as (ab & d' & -> & Hh & Hp' & Hc' & Ha). cbn in Hh, Hp'.
  assert (∀ w, ∃ w', free_owned n_owned v_owned w = Some (tt, w') ∧ w_blocks w' = w_blocks w - owned n_owned - owned v_owned) as Hfree.
  { intros w0. unfold free_owned. destruct n_owned, v_owned; eexists; (split; [reflexivity|]); cbn; lia. }
  destruct ab.
  { destruct (Hfree w1) as (w2 & E2 & Hb2). wstep E2. eexists _, d', w2. split; [reflexivity|].
    split; rewrite ?Hh; try done; [|right; right; auto|lia]. exists (hp_decoder (de_hpack d)). by rewrite set_decoder_same. }
  destruct indexing.
  - rewrite Hh. destruct Hok as [Ht Hhf Hst Hmx].
    destruct (table_add_ok (hp_decoder (de_hpack d)) name value w1 Ht) as (rc & t & w2 & E2 & Ht2 & Hms & Hme & Hbl2 & Hrc & _). wstep E2.
    destruct (Hfree w2) as (w3 & E3 & Hb3). wstep E3. eexists _, _, w3. split; [reflexivity|].
    split; cbn [de_hpack with_hpack hp_decoder set_decoder de_pos de_calls].
    + split; cbn; try done. by rewrite Hms.
    + by exists t.
    + intros _. rewrite Hp'. lia.
    + exact Hc'.
    + destruct (rc =? 0); auto.
    + lia.
  - destruct (Hfree w1) as (w2 & E2 & Hb2). wstep E2. eexists _, d', w2. split; [reflexivity|].
    split; rewrite ?Hh; try done; [| |by left|lia].
    + exists (hp_decoder (de_hpack d)). by rewrite set_decoder_same.
    + rewrite Hp'. lia.
Qed.

Lemma decode_size_update_total d w :
  decoder_ok (de_hpack d) → counted d → 0 <= de_pos d →
  ∃ rc d' w', decode_size_update in_ (blen in_) d w = Some ((rc, d'), w') ∧ stepped d w rc d' w'.
Proof using Hin.
  intros Hok Hc Hpos. unfold decode_size_update. destruct (get_int_total in_ (de_pos d) 5 Hin Hpos) as (r & E & Hr); [lia|]. rewrite E. wrun.
  destruct r as [[size pos]|]; [|eexists _, _, _; split; [reflexivity|]; by apply stepped_refused].
  destruct Hr as [Hi Hp]. unfold chttp_h2_hpack_decoder_table_size_update.
  destruct (Z.ltb_spec (hp_decoder_max_size (de_hpack d)) size) as [Hbig|Hle].
  { wrun. eexists _, _, _. split; [reflexivity|]. by apply stepped_refused. }
  destruct Hok as [Ht Hhf Hst Hmx]. destruct (resize_ok (hp_decoder (de_hpack d)) size w Ht Hi) as (t & w1 & E1 & Ht1 & _ & Hms & _ & _ & _ & Hb1).
  match goal with |- context [(?m ≫= _) w] => assert (m w = Some ((0, set_decoder (de_hpack d) t (hp_decoder_max_size (de_hpack d))), w1))
    as E2 by (wstep E1; done) end. wstep E2. eexists _, _, w1. split; [reflexivity|].
  split; cbn [de_hpack with_hpack at_pos hp_decoder set_decoder de_pos de_calls]; try done.
  - split; cbn; try done. rewrite Hms. lia.
  - by exists t.
  - by left.
Qed.

Lemma decode_field_total d w :
  decoder_ok (de_hpack d) → counted d → 0 <= limit → 0 <= de_pos d < blen in_ →
  ∃ rc d' w', decode_field cb in_ (blen in_) limit d w = Some ((rc, d'), w') ∧ stepped d w rc d' w'.
Proof using Hin.
  intros Hok Hc Hlim Hpos. unfold decode_field. destruct (load_in_bounds in_ (de_pos d)) as [b Hb]; [lia|]. rewrite Hb. wrun.
  destruct (negb (Z.land b 128 =? 0)); [apply decode_indexed_total; done || lia|].
  destruct (negb (Z.land b 64 =? 0)); [apply decode_literal_total; done || lia|].
  destruct (negb (Z.land b 32 =? 0)); [apply decode_size_update_total; done || lia|apply decode_literal_total; done || lia].
Qed.

Lemma hpack_decode_loop_total fuel d w :
  decoder_ok (de_hpack d) → counted d → 0 <= limit → 0 <= de_pos d <= blen in_ → blen in_ - de_pos d < Z.of_nat fuel →
  ∃ rc d' w', decode_loop cb in_ (blen in_) limit fuel d w = Some ((rc, d'), w') ∧ decoder_ok (de_hpack d') ∧ counted d' ∧
    (∃ t, de_hpack d' = set_decoder (de_hpack d) t (hp_decoder_max_size (de_hpack d))) ∧
    (rc = 0 ∨ rc = -2 → de_pos d' = blen in_) ∧
    (rc = 0 ∨ rc = -1 ∨ rc = -2 ∨ rc = -3 ∧ ∃ f, cb = Some f ∧ f (de_calls d') ≠ 0) ∧
    w_blocks w' - table_blocks (hp_decoder (de_hpack d')) = w_blocks w - table_blocks (hp_decoder (de_hpack d)).
Proof using Hin.
  revert d w. induction fuel as [|fuel IH]; intros d w Hok Hc Hlim Hpos Hf; [lia|]. cbn [decode_loop].
  destruct (Z.ltb_spec (de_pos d) (blen in_)) as [Hlt|Hge].
  2: { eexists _, d, w. split; [reflexivity|]. split; [done|]. split; [done|].
       split; [exists (hp_decoder (de_hpack d)); by rewrite set_decoder_same|]. split; [lia|]. split; [destruct (de_too_large d); auto|lia]. }
  destruct (decode_field_total d w Hok Hc Hlim) as (rc & d1 & w1 & E & [Hok1 [t1 Hfr1] Hp1 Hc1 Hrc1 Hb1]); [lia|]. wstep E.
  destruct (Z.eqb_spec rc 0) as [->|Hne]; cbn [negb].
  - destruct (IH d1 w1 Hok1 Hc1 Hlim) as (rc & d2 & w2 & E2 & Hok2 & Hc2 & [t2 Hfr2] & Hp2 & Hrc2 & Hb2); [specialize (Hp1 eq_refl); lia..|].
    exists rc, d2, w2. split; [exact E2|]. do 2 (split; [done|]). split; [|split; [done|split; [done|lia]]].
    exists t2. rewrite Hfr2, Hfr1. done.
  - exists rc, d1, w1. split; [done|]. do 2 (split; [done|]). split; [by exists t1|]. split; [|split; [|done]].
    + intros [? | ->]; [done|]. destruct Hrc1 as [?|[?|[? _]]]; done.
    + destruct Hrc1 as [?|[?|[? ?]]]; auto.
Qed.
End Safe.

(** C21. Decoding is safe on every input. Whatever the bytes of a block, the
    callback and the allocator do, [chttp_h2_hpack_decode] returns: it reads
    inside of the block only and comes to its end. The status is one of the
    four the code knows, [-3] only after the callback refused a header; a block
    that is accepted, or whose header list is too large, is consumed whole; the
    reported headers keep within the limit of the header list; the table's
    invariant holds again, the rest of the context is untouched, and no block
    of memory but those of the table stays allocated. *)
Theorem hpack_decode_safe cb h in_ limit w :
  decoder_ok h → bytes_ok in_ → 0 <= limit →
  ∃ rc consumed h' calls w',
    chttp_h2_hpack_decode cb h in_ (blen in_) limit w = Some ((rc, consumed, h', calls), w') ∧
    decoder_ok h' ∧ (∃ t, h' = set_decoder h t (hp_decoder_max_size h)) ∧
    (rc = 0 ∨ rc = -1 ∨ rc = -2 ∨ rc = -3 ∧ ∃ f, cb = Some f ∧ f calls ≠ 0) ∧
    (rc = 0 ∨ rc = -2 → consumed = Some (blen in_)) ∧
    (limit = 0 ∨ fields_size calls <= limit) ∧
    w_blocks w' - table_blocks (hp_decoder h') = w_blocks w - table_blocks (hp_decoder h).
Proof.
  intros Hok Hin Hlim. unfold chttp_h2_hpack_decode. pose proof (blen_nonneg in_) as Hnn.
  destruct (Z.ltb_spec (hp_max_header_block_bytes h) (blen in_)).
  { eexists _, _, h, [], w. split; [reflexivity|]. split; [done|]. split; [exists (hp_decoder h); by rewrite set_decoder_same|].
    split; [auto|]. split; [lia|]. split; [right; cbn; lia|lia]. }
  destruct (hpack_decode_loop_total cb in_ limit Hin (S (Z.to_nat (blen in_))) (MkDecode h 0 0 false []) w)
    as (rc & d & w' & E & Hok' & Hc & Hfr & Hp & Hrc & Hb); cbn [de_hpack de_pos]; [done| |done|lia|lia|].
  { right. cbn. lia. }
  wstep E. eexists rc, _, (de_hpack d), (de_calls d), w'. split; [reflexivity|]. split; [done|]. split; [done|]. split; [done|]. split.
  - intros [-> | ->]; cbn; rewrite Hp; auto.
  - split; [|done]. destruct Hc as [?|[? ?]]; [by left|right; lia].
Qed.
