(* ===== verification/HpackSync.v ===== *)
(** * Encoder and decoder of header blocks

    The representations of header fields as an abstract syntax, what they do
    to a table, that the decoder carries them out, that the encoder writes
    them, and that a decoder which follows an encoder stays in step with it. *)

From S2P Require Import Prelude World HpackTables Hpack HpackCodec HpackWire HpackTable.
Local Open Scope Z_scope.

(** ** Representations *)

(** An index 0 of a literal stands for a name that is written out. *)
Inductive instr :=
  | Indexed (i : Z)
  | Literal (indexing : bool) (i : Z) (name value : list Z)
  | Resize (size : Z).

Definition instr_bytes (x : instr) : list Z :=
  match x with
  | Indexed i => int_bytes i 7 128
  | Literal indexing i name value =>
      (if indexing then int_bytes i 6 64 else int_bytes i 4 0) ++ (if i =? 0 then string_bytes name else []) ++ string_bytes value
  | Resize size => int_bytes size 5 32
  end.

Definition instrs_bytes (xs : list instr) : list Z := xs ≫= instr_bytes.

(** The entry of the static table and the headers behind it. *)
Definition entry_at (l : list field) (i : Z) : option field :=
  if i <=? 0 then None else if i <=? 61 then aget s_hpack_static (i - 1) else aget l (i - 62).

(** What a representation does to the headers and the limit of a table, and
    the header it stands for. *)
Definition apply_instr (l : list field) (max : Z) (x : instr) : option (list field * Z * list field) :=
  match x with
  | Indexed i => f ← entry_at l i; Some (l, max, [f])
  | Literal indexing i name value =>
      name ← (if i =? 0 then Some name else fst <$> entry_at l i);
      Some (if indexing : bool then insert_field max (name, value) l else l, max, [(name, value)])
  | Resize size => Some (fit size l, size, [])
  end.

Fixpoint apply_instrs (l : list field) (max : Z) (xs : list instr) : option (list field * Z * list field) :=
  match xs with
  | [] => Some (l, max, [])
  | x :: xs =>
      '(l, max, out) ← apply_instr l max x;
      '(l, max, outs) ← apply_instrs l max xs;
      Some (l, max, out ++ outs)
  end.

(** What a decoder with these limits takes: strings of the size, tables of
    the size. *)
Definition takes_within (max_string max_size : Z) (x : instr) : Prop :=
  match x with
  | Indexed i => is_u32 i
  | Literal indexing i name value =>
      is_u32 i ∧ blen name <= 2147483647 ∧ blen name <= max_string ∧ blen value <= 2147483647 ∧ blen value <= max_string
  | Resize size => is_u32 size ∧ size <= max_size
  end.

Definition takes (h : chttp_h2_hpack) (x : instr) : Prop := takes_within (hp_max_string_bytes h) (hp_decoder_max_size h) x.

(** The entries a representation inserts find room in a table of [n]. *)
Definition instr_room (n : Z) (l : list field) (max : Z) (x : instr) (out : list field) : Prop :=
  match x with
  | Literal true _ _ _ => ∀ f, f ∈ out → field_size f <= max → alen l < n
  | _ => True
  end.

Fixpoint instrs_room (n : Z) (l : list field) (max : Z) (xs : list instr) : Prop :=
  match xs with
  | [] => True
  | x :: xs => ∀ l' max' out, apply_instr l max x = Some (l', max', out) → instr_room n l max x out ∧ instrs_room n l' max' xs
  end.

(** The first byte tells the representation. *)
Lemma int_bytes_first v p flag :
  1 <= p <= 8 → 0 <= v → ∃ x rest, int_bytes v p flag = Z.lor x flag :: rest ∧ 0 <= x <= first_mask p.
Proof.
  intros Hp Hv. destruct (first_mask_bound p Hp) as [Hm _]. unfold int_bytes.
  destruct (Z.ltb_spec v (first_mask p)); eexists _, _; (split; [reflexivity|]); lia.
Qed.

Lemma small_forall (n : Z) (P : Z → Prop) : Forall P (seqZ 0 (n + 1)) → ∀ x, 0 <= x <= n → P x.
Proof. intros HP x Hx. apply (proj1 (Forall_forall _ _) HP), elem_of_seqZ. lia. Qed.

(** What the decoder tests of the first byte. *)
Definition kind_of (b : Z) : bool * bool * bool := (negb (Z.land b 128 =? 0), negb (Z.land b 64 =? 0), negb (Z.land b 32 =? 0)).

Lemma kind_indexed x : 0 <= x <= first_mask 7 → (kind_of (Z.lor x 128)).1.1 = true.
Proof. revert x. apply small_forall. by_eval. Qed.
Lemma kind_indexing x : 0 <= x <= first_mask 6 → (kind_of (Z.lor x 64)).1 = (false, true).
Proof. revert x. apply small_forall. by_eval. Qed.
Lemma kind_resize x : 0 <= x <= first_mask 5 → kind_of (Z.lor x 32) = (false, false, true).
Proof. revert x. apply small_forall. by_eval. Qed.
Lemma kind_literal x : 0 <= x <= first_mask 4 → kind_of (Z.lor x 0) = (false, false, false).
Proof. revert x. apply small_forall. by_eval. Qed.

(** ** Decoding *)

Section Decoding.
Context (bytes : list Z) (limit : Z).

(** A callback that never aborts. *)
Definition accept : option (list field → Z) := Some (λ _, 0).

(** How many bytes the counted headers take. *)
Definition within (d : decode_state) (fs : list field) : Prop :=
  limit = 0 ∨ 0 <= de_list_bytes d ∧ de_list_bytes d + fields_size fs <= limit ∧ limit <= SIZE_MAX.

Lemma report_accept d name value :
  de_too_large d = false → within d [(name, value)] →
  ∃ n, report accept limit d name value = (false, MkDecode (de_hpack d) (de_pos d) n false (de_calls d ++ [(name, value)])) ∧
    (limit = 0 ∨ n = de_list_bytes d + field_size (name, value)).
Proof.
  intros Hl Hw. unfold report, hpack_add_header_list_size, accept. rewrite Hl.
  destruct Hw as [->|(H0 & H1 & H2)]; [cbn; eauto|]. destruct (Z.eqb_spec limit 0); [cbn; eauto|].
  cbn [fields_size] in H1. unfold field_size in H1. cbn [fst snd] in H1. pose proof (blen_nonneg name). pose proof (blen_nonneg value).
  destruct (Z.ltb_spec (SIZE_MAX - blen value) (blen name)); [lia|].
  destruct (Z.ltb_spec (SIZE_MAX - 32) (blen name + blen value)); [lia|]. cbn [orb].
  destruct (Z.ltb_spec limit (de_list_bytes d)); [lia|].
  destruct (Z.ltb_spec (limit - de_list_bytes d) (blen name + blen value + 32)); [lia|]. cbn. eauto.
Qed.

Lemma table_get_at h i f :
  entry_at (fields_of (hp_decoder h)) i = Some f → is_u32 i → table_get h i = Some (Some f).
Proof.
  unfold entry_at, table_get. intros Hf Hi. destruct (Z.leb_spec i 0); [done|]. destruct (Z.eqb_spec i 0); [lia|].
  destruct (Z.leb_spec i 61); [by rewrite Hf|].
  rewrite u32_id by (unfold is_u32 in *; lia). unfold fields_of in Hf. pose proof Hf as [Hb Hlk]%aget_Some.
  unfold alen in Hb |- *. rewrite length_fmap in Hb. destruct (Z.leb_spec (Z.of_nat (length (dt_entries (hp_decoder h)))) (i - 62)); [lia|].
  apply list_lookup_fmap_Some in Hlk as (e & -> & He). unfold aget. destruct (Z.ltb_spec (i - 62) 0); [lia|]. by rewrite He.
Qed.

(** The name and the value of a literal. *)
Lemma get_literal_ok h p flag i name value name' pre post w :
  (p, flag) = (6, 64) ∨ (p, flag) = (4, 0) → takes h (Literal true i name value) →
  (if i =? 0 then Some name else fst <$> entry_at (fields_of (hp_decoder h)) i) = Some name' →
  let x := int_bytes i p flag ++ (if i =? 0 then string_bytes name else []) ++ string_bytes value in
  bytes = pre ++ x ++ post →
  get_literal bytes (blen bytes) h (blen pre) p w = Some (Some (name', false, value, false, blen pre + blen x), w).
Proof.
  intros Hp (Hi & Hn1 & Hn2 & Hv1 & Hv2) Hname x Hb. subst x. unfold get_literal.
  rewrite (get_int_bytes i p flag pre ((if i =? 0 then string_bytes name else []) ++ string_bytes value ++ post)).
  2: { destruct Hp; simplify_eq; lia. }
  2: { done. }
  2: { destruct Hp; simplify_eq; done. }
  2: { by rewrite Hb, <-!app_assoc. }
  wrun. set (n := int_bytes i p flag) in *. destruct (Z.eqb_spec i 0) as [->|Hi0].
  - injection Hname as <-. replace (blen pre + blen n) with (blen (pre ++ n)) by apply blen_app.
    wstep (get_string_bytes h name (pre ++ n) (string_bytes value ++ post) bytes w Hn1 Hn2 ltac:(by rewrite Hb, <-!app_assoc)).
    replace (blen (pre ++ n) + blen (string_bytes name)) with (blen (pre ++ n ++ string_bytes name)) by (rewrite !blen_app; lia).
    wstep (get_string_bytes h value (pre ++ n ++ string_bytes name) post bytes w Hv1 Hv2 ltac:(by rewrite Hb, <-!app_assoc)).
    wrun. do 4 f_equal. rewrite !blen_app. lia.
  - destruct (entry_at _ i) as [f|] eqn:He; [|done]. injection Hname as <-. rewrite (table_get_at h i f He Hi). destruct f as [fn fv].
    match goal with |- (?m ≫= _) w = _ => assert (m w = Some (Some (fn, false, blen pre + blen n), w)) as E by done end. wstep E.
    replace (blen pre + blen n) with (blen (pre ++ n)) by apply blen_app.
    wstep (get_string_bytes h value (pre ++ n) post bytes w Hv1 Hv2 ltac:(by rewrite Hb, <-!app_assoc)). cbn [fst].
    wrun. do 4 f_equal. rewrite !blen_app, blen_nil. lia.
Qed.

Lemma aget_fields_size l i f : aget l i = Some f → field_size f <= fields_size l.
Proof.
  intros [_ Hf]%aget_Some. apply list_elem_of_lookup_2, list_elem_of_split in Hf as (l1 & l2 & ->). rewrite fields_size_app. cbn.
  pose proof (fields_size_bound l1). pose proof (fields_size_bound l2). unfold alen in *. lia.
Qed.

Lemma entry_at_size l i f : entry_at l i = Some f → fields_size l <= UINT32_MAX → field_size f <= UINT32_MAX.
Proof.
  unfold entry_at. intros Hf Hl. destruct (i <=? 0); [done|]. destruct (i <=? 61).
  - apply aget_fields_size in Hf. etrans; [exact Hf|]. by_eval.
  - apply aget_fields_size in Hf. lia.
Qed.

(** Room for what a representation inserts. *)
Definition insert_room (t : hpack_dyn_table_t) (x : instr) (out : list field) : Prop :=
  instr_room (dt_max_entries t) (fields_of t) (dt_max_size t) x out.

(** What a representation leaves in the decoder. *)
Record carried (d d' : decode_state) (x : instr) (l : list field) (max : Z) (out : list field) : Prop := {
  ca_hpack : ∃ t, de_hpack d' = set_decoder (de_hpack d) t (hp_decoder_max_size (de_hpack d)) ∧ table_ok t ∧
    fields_of t = l ∧ dt_max_size t = max ∧ dt_max_entries t = dt_max_entries (hp_decoder (de_hpack d));
  ca_pos : de_pos d' = de_pos d + blen (instr_bytes x);
  ca_large : de_too_large d' = false;
  ca_calls : de_calls d' = de_calls d ++ out;
  ca_within : ∀ fs, within d (out ++ fs) → within d' fs
}.

Lemma within_app d fs gs : within d (fs ++ gs) → within d fs.
Proof.
  intros [?|(? & Hs & ?)]; [by left|]. right. rewrite fields_size_app in Hs. pose proof (fields_size_bound gs). unfold alen in *. lia.
Qed.

Lemma within_report d h pos n calls f fs :
  limit = 0 ∨ n = de_list_bytes d + field_size f → within d (f :: fs) → within (MkDecode h pos n false calls) fs.
Proof.
  intros [?| ->] [?|(? & Hs & ?)]; try (by left). right. cbn in *. pose proof (field_size_pos f). lia.
Qed.

(** The decoder carries out a representation. *)
Lemma decode_indexed_ok d i pre post f j w :
  bytes = pre ++ int_bytes i 7 128 ++ post → de_pos d = blen pre → de_too_large d = false →
  table_ok (hp_decoder (de_hpack d)) → is_u32 i → within d [f] →
  entry_at (fields_of (hp_decoder (de_hpack d))) i = Some f → supply j w →
  ∃ d' w', decode_indexed accept bytes (blen bytes) limit d w = Some ((0, d'), w') ∧
    carried d d' (Indexed i) (fields_of (hp_decoder (de_hpack d))) (dt_max_size (hp_decoder (de_hpack d))) [f] ∧ supply j w'.
Proof.
  intros Hb Hpos Hl Ht Hx Hw He Hsup. unfold decode_indexed. rewrite Hpos.
  rewrite (get_int_bytes i 7 128 pre post bytes ltac:(lia) Hx ltac:(done) Hb). wrun. rewrite (table_get_at _ i f He Hx). wrun.
  destruct f as [fn fv]. destruct (report_accept (at_pos d (blen pre + blen (int_bytes i 7 128))) fn fv Hl Hw) as (n & -> & Hn).
  wrun. eexists _, w. split; [reflexivity|]. split; [|done].
  split; cbn [de_hpack de_pos de_too_large de_calls at_pos].
  - exists (hp_decoder (de_hpack d)). destruct (de_hpack d). done.
  - by rewrite Hpos.
  - done.
  - done.
  - intros fs Hfs. by eapply within_report.
Qed.

Lemma decode_literal_ok d indexing i name value name' pre post j w :
  bytes = pre ++ instr_bytes (Literal indexing i name value) ++ post → de_pos d = blen pre → de_too_large d = false →
  table_ok (hp_decoder (de_hpack d)) → takes (de_hpack d) (Literal indexing i name value) → within d [(name', value)] →
  (if i =? 0 then Some name else fst <$> entry_at (fields_of (hp_decoder (de_hpack d))) i) = Some name' →
  insert_room (hp_decoder (de_hpack d)) (Literal indexing i name value) [(name', value)] → supply (3 + j) w →
  let max := dt_max_size (hp_decoder (de_hpack d)) in
  let l := fields_of (hp_decoder (de_hpack d)) in
  ∃ d' w', decode_literal accept bytes (blen bytes) limit d (if indexing then 6 else 4) indexing w = Some ((0, d'), w') ∧
    carried d d' (Literal indexing i name value) (if indexing then insert_field max (name', value) l else l) max [(name', value)] ∧
    supply j w'.
Proof.
  intros Hb Hpos Hl Ht Hx Hw Hname Hr Hsup max l. unfold decode_literal. rewrite Hpos.
  assert (get_literal bytes (blen bytes) (de_hpack d) (blen pre) (if indexing then 6 else 4) w =
    Some (Some (name', false, value, false, blen pre + blen (instr_bytes (Literal indexing i name value))), w)) as E.
  { destruct indexing; [apply (get_literal_ok _ 6 64 i name value name' pre post)|
      apply (get_literal_ok _ 4 0 i name value name' pre post)]; try done; [by left|by right]. }
  wstep E. set (len := blen (instr_bytes _)) in *.
  destruct (report_accept (at_pos d (blen pre + len)) name' value Hl Hw) as (n & -> & Hn). cbn [de_hpack at_pos].
  destruct indexing.
  - destruct (table_add_ok (hp_decoder (de_hpack d)) name' value w Ht) as (rc & t & w1 & E1 & Ht1 & Hms & Hme & _ & Hrc & Hsp).
    cbn [de_hpack]. wstep E1. destruct (Hsp j Hsup) as [-> Hs1].
    { destruct (Z.eqb_spec i 0).
      - injection Hname as <-. destruct Hx as (_ & Hx1 & _ & Hx2 & _). unfold field_size, SIZE_MAX, UINT64_MAX. cbn. lia.
      - destruct (entry_at _ i) as [f|] eqn:He; [|done]. injection Hname as <-.
        apply entry_at_size in He as Hf; [|destruct Ht as [[] ?]; lia]. destruct Hx as (_ & _ & _ & Hx2 & _).
        pose proof (blen_nonneg f.2). unfold field_size, SIZE_MAX, UINT64_MAX, UINT32_MAX in *. cbn [fst snd]. lia. }
    { intros Hsz. unfold alen. rewrite <-fields_of_length. apply (Hr (name', value)); [set_solver|done]. }
    destruct Hrc as [(_ & Hf & _)|[? _]]; [|done]. unfold free_owned. wrun. cbn [negb Z.eqb].
    eexists _, w1. split; [reflexivity|]. split; [|done].
    split; cbn [de_hpack de_pos de_too_large de_calls at_pos with_hpack].
    + exists t. done.
    + by rewrite Hpos.
    + done.
    + done.
    + intros fs Hfs. by eapply within_report.
  - unfold free_owned. wrun. eexists _, w. split; [reflexivity|]. split; [|by apply (supply_weaken (3 + j)); [lia|]].
    split; cbn [de_hpack de_pos de_too_large de_calls at_pos with_hpack].
    + exists (hp_decoder (de_hpack d)). destruct (de_hpack d). done.
    + by rewrite Hpos.
    + done.
    + done.
    + intros fs Hfs. by eapply within_report.
Qed.

Lemma decode_resize_ok d size pre post j w :
  bytes = pre ++ int_bytes size 5 32 ++ post → de_pos d = blen pre → de_too_large d = false →
  table_ok (hp_decoder (de_hpack d)) → takes (de_hpack d) (Resize size) → supply j w →
  ∃ d' w', decode_size_update bytes (blen bytes) d w = Some ((0, d'), w') ∧
    carried d d' (Resize size) (fit size (fields_of (hp_decoder (de_hpack d)))) size [] ∧ supply j w'.
Proof.
  intros Hb Hpos Hl Ht [Hx Hmax] Hsup. unfold decode_size_update. rewrite Hpos.
  rewrite (get_int_bytes size 5 32 pre post bytes ltac:(lia) Hx ltac:(done) Hb). wrun.
  unfold chttp_h2_hpack_decoder_table_size_update. destruct (Z.ltb_spec (hp_decoder_max_size (de_hpack d)) size); [lia|].
  destruct (resize_ok (hp_decoder (de_hpack d)) size w Ht) as (t & w1 & E & Ht1 & Hf & Hms & Hme & _ & Hml & _); [done|].
  match goal with |- context [(?m ≫= _) w] => assert (m w = Some ((0, set_decoder (de_hpack d) t (hp_decoder_max_size (de_hpack d))), w1))
    as E1 by (wstep E; done) end. wstep E1. wrun. cbn [negb Z.eqb].
  eexists _, w1. split; [reflexivity|]. split; [|by apply (supply_malloc _ w)].
  split; cbn [de_hpack de_pos de_too_large de_calls at_pos with_hpack].
  - exists t. done.
  - by rewrite Hpos.
  - done.
  - by rewrite app_nil_r.
  - intros fs Hfs. exact Hfs.
Qed.

Lemma decode_instr d x pre post l max out j w :
  bytes = pre ++ instr_bytes x ++ post → de_pos d = blen pre → de_too_large d = false →
  table_ok (hp_decoder (de_hpack d)) → takes (de_hpack d) x → within d out →
  apply_instr (fields_of (hp_decoder (de_hpack d))) (dt_max_size (hp_decoder (de_hpack d))) x = Some (l, max, out) →
  insert_room (hp_decoder (de_hpack d)) x out → supply (3 + j) w →
  ∃ d' w', decode_field accept bytes (blen bytes) limit d w = Some ((0, d'), w') ∧ carried d d' x l max out ∧ supply j w'.
Proof.
  intros Hb Hpos Hl Ht Hx Hw Ha Hr Hsup. unfold decode_field. rewrite Hpos.
  assert (∀ v p flag rest', bytes = pre ++ (int_bytes v p flag ++ rest') ++ post → 1 <= p <= 8 → is_u32 v →
    ∃ y, load bytes (blen pre) = Some (Z.lor y flag) ∧ 0 <= y <= first_mask p) as Hfirst.
  { intros v p flag rest' -> Hp Hv. destruct (int_bytes_first v p flag Hp) as (y & rest & -> & Hy); [unfold is_u32 in Hv; lia|].
    exists y. cbn [app]. by rewrite load_mid. }
  destruct x as [i|indexing i name value|size]; cbn [apply_instr] in Ha.
  - destruct (Hfirst i 7 128 []) as (y & -> & Hy); [by rewrite app_nil_r|lia|done|]. wrun.
    pose proof (kind_indexed y Hy) as Hk. cbn in Hk. rewrite Hk.
    destruct (entry_at _ i) as [f|] eqn:He; [|done]. injection Ha as <- <- <-.
    apply (decode_indexed_ok d i pre post f j w); try done. by apply (supply_weaken (3 + j)); [lia|].
  - destruct (if i =? 0 then _ else _) as [name'|] eqn:Hname; [|done]. injection Ha as <- <- <-. destruct Hx as [Hi Hx].
    pose proof (decode_literal_ok d indexing i name value name' pre post j w Hb Hpos Hl Ht (conj Hi Hx) Hw Hname Hr Hsup) as Hd.
    destruct indexing.
    + destruct (Hfirst i 6 64 _ Hb) as (y & -> & Hy); [lia|done|]. wrun.
      pose proof (kind_indexing y Hy) as Hk. cbn in Hk. injection Hk as -> ->. exact Hd.
    + destruct (Hfirst i 4 0 _ Hb) as (y & -> & Hy); [lia|done|]. wrun.
      pose proof (kind_literal y Hy) as Hk. injection Hk as -> -> ->. exact Hd.
  - injection Ha as <- <- <-. destruct (Hfirst size 5 32 []) as (y & -> & Hy); [by rewrite app_nil_r|lia|apply Hx|]. wrun.
    pose proof (kind_resize y Hy) as Hk. injection Hk as -> -> ->.
    apply (decode_resize_ok d size pre post j w); try done. by apply (supply_weaken (3 + j)); [lia|].
Qed.

Lemma instr_bytes_pos ms md x : takes_within ms md x → 1 <= blen (instr_bytes x).
Proof.
  intros Hx. assert (∀ v p flag l, 1 <= p <= 8 → is_u32 v → 1 <= blen (int_bytes v p flag ++ l)) as Hl.
  { intros v p flag l Hp Hv. destruct (int_bytes_first v p flag Hp) as (y & rest & -> & _); [unfold is_u32 in Hv; lia|].
    cbn [app]. rewrite blen_cons. pose proof (blen_nonneg (rest ++ l)). lia. }
  destruct x as [i|[] i name value|size]; cbn [instr_bytes].
  - rewrite <-(app_nil_r (int_bytes _ _ _)). by apply Hl.
  - apply Hl; [lia|apply Hx].
  - apply Hl; [lia|apply Hx].
  - rewrite <-(app_nil_r (int_bytes _ _ _)). apply Hl; [lia|apply Hx].
Qed.

(** A whole list of representations. *)
Lemma decode_instrs xs fuel d pre l max out j w :
  bytes = pre ++ instrs_bytes xs → de_pos d = blen pre → de_too_large d = false →
  table_ok (hp_decoder (de_hpack d)) → Forall (takes (de_hpack d)) xs → within d out →
  apply_instrs (fields_of (hp_decoder (de_hpack d))) (dt_max_size (hp_decoder (de_hpack d))) xs = Some (l, max, out) →
  instrs_room (dt_max_entries (hp_decoder (de_hpack d))) (fields_of (hp_decoder (de_hpack d)))
    (dt_max_size (hp_decoder (de_hpack d))) xs →
  (length xs < fuel)%nat → supply (3 * length xs + j) w →
  ∃ d' t w', decode_loop accept bytes (blen bytes) limit fuel d w = Some ((0, d'), w') ∧
    de_hpack d' = set_decoder (de_hpack d) t (hp_decoder_max_size (de_hpack d)) ∧ table_ok t ∧ fields_of t = l ∧ dt_max_size t = max ∧
    dt_max_entries t = dt_max_entries (hp_decoder (de_hpack d)) ∧
    de_pos d' = blen bytes ∧ de_calls d' = de_calls d ++ out ∧ supply j w'.
Proof.
  revert fuel d pre l max out w. induction xs as [|x xs IH]; intros fuel d pre l max out w Hb Hpos Hl Ht Hx Hw Ha Hr Hf Hsup.
  all: destruct fuel as [|fuel]; [cbn in Hf; lia|]; cbn [decode_loop]; rewrite Hpos.
  - cbn in Hb, Ha. rewrite app_nil_r in Hb. injection Ha as <- <- <-. rewrite Hb, Z.ltb_irrefl, Hl, <-Hb, app_nil_r.
    eexists d, (hp_decoder (de_hpack d)), w. wrun. split; [done|]. split; [by destruct (de_hpack d)|]. do 4 (split; [done|]).
    split; [by rewrite Hpos, Hb|done].
  - cbn [apply_instrs] in Ha. apply bind_Some in Ha as ([[l1 max1] out1] & Ha1 & Ha).
    apply bind_Some in Ha as ([[l2 max2] out2] & Ha2 & Ha). injection Ha as <- <- <-.
    apply Forall_cons in Hx as [Hx Hxs]. destruct (Hr _ _ _ Ha1) as [Hr1 Hr2].
    cbn [instrs_bytes mbind list_bind] in Hb. fold (instrs_bytes xs) in Hb.
    change (bytes = pre ++ instr_bytes x ++ instrs_bytes xs) in Hb.
    pose proof (instr_bytes_pos _ _ _ Hx) as Hpx. pose proof (blen_nonneg (instrs_bytes xs)) as Hpxs.
    destruct (Z.ltb_spec (blen pre) (blen bytes)) as [_|Hge]; [|rewrite Hb, !blen_app in Hge; lia].
    destruct (decode_instr d x pre (instrs_bytes xs) l1 max1 out1 (3 * length xs + j)%nat w Hb Hpos Hl Ht Hx (within_app _ _ _ Hw) Ha1 Hr1)
      as (d1 & w1 & E & [(t & Hh & Ht1 & Hf1 & Hm1 & Hn1) Hp1 Hl1 Hc1 Hw1] & Hs1).
    { eapply supply_weaken; [|exact Hsup]. cbn [length]. lia. }
    wstep E. cbn [negb Z.eqb].
    destruct (IH fuel d1 (pre ++ instr_bytes x) l2 max2 out2 w1) as (d2 & t2 & w2 & E2 & Hh2 & Ht2 & Hf2 & Hm2 & Hn2 & Hp2 & Hc2 & Hs2).
    + by rewrite Hb, <-app_assoc.
    + by rewrite Hp1, Hpos, blen_app.
    + done.
    + by rewrite Hh.
    + by rewrite Hh.
    + by apply Hw1.
    + rewrite Hh. cbn [hp_decoder set_decoder]. by rewrite Hf1, Hm1.
    + rewrite Hh. cbn [hp_decoder set_decoder]. by rewrite Hf1, Hm1, Hn1.
    + cbn [length] in Hf. lia.
    + done.
    + exists d2, t2, w2. split; [exact E2|]. rewrite Hh in Hh2, Hn2. cbn in Hh2, Hn2. split; [exact Hh2|]. do 3 (split; [done|]).
      split; [congruence|]. split; [done|]. split; [|done]. by rewrite Hc2, Hc1, <-app_assoc.
Qed.
End Decoding.
