(* ===== verification/HpackEncode.v ===== *)
(** * The encoder of header blocks

    Every header the encoder accepts is written as one representation that a
    decoder with the same table turns into that header, and both tables
    change alike; the table size changes that are due come first. *)

From S2P Require Import Prelude World HpackTables Hpack HpackCodec HpackWire HpackTable HpackSync.
Local Open Scope Z_scope.

(** ** Looking up *)

Lemma static_find_sound rows i name value name_only r :
  static_find rows i name value name_only = r → r ≠ 0 → 0 <= i →
  ∃ f, i < r ∧ aget rows (r - i - 1) = Some f ∧ f.1 = name ∧ (name_only = false → f.2 = value).
Proof.
  revert i. induction rows as [|[n v] rows IH]; intros i Hr Hne Hi; cbn [static_find] in Hr; [done|].
  destruct (bytes_eqb n name && (name_only || bytes_eqb v value)) eqn:Hm.
  - apply andb_true_iff in Hm as [Hn%bool_decide_eq_true Hv]. subst. exists (name, v). split; [lia|].
    replace (i + 1 - i - 1) with 0 by lia. split; [done|]. split; [done|]. intros ->. by apply bool_decide_eq_true in Hv.
  - destruct (IH (i + 1) Hr Hne) as (f & Hlt & Hf & Hfv); [lia|]. exists f. split; [lia|]. split; [|done].
    unfold aget in *. destruct (Z.ltb_spec (r - (i + 1) - 1) 0); [done|]. destruct (Z.ltb_spec (r - i - 1) 0); [lia|].
    replace (Z.to_nat (r - i - 1)) with (S (Z.to_nat (r - (i + 1) - 1))) by lia. done.
Qed.

Lemma dyn_find_sound entries i name value name_only r :
  dyn_table_find_loop entries i name value name_only = r → r ≠ 0 → 0 <= i → i + alen entries <= 134217728 →
  ∃ f, 62 + i <= r < 62 + i + alen entries ∧ aget (field_of <$> entries) (r - 62 - i) = Some f ∧ f.1 = name ∧ (name_only = false → f.2 = value).
Proof.
  revert i. unfold alen. induction entries as [|e entries IH]; intros i Hr Hne Hi Hb; cbn [dyn_table_find_loop length] in *; [done|].
  destruct (bytes_eqb (en_name e) name && (name_only || bytes_eqb (en_value e) value)) eqn:Hm.
  - apply andb_true_iff in Hm as [Hn%bool_decide_eq_true Hv]. rewrite u32_id in Hr by (unfold is_u32, UINT32_MAX; lia).
    exists (field_of e). split; [lia|]. replace (r - 62 - i) with 0 by lia. split; [done|]. split; [done|].
    intros ->. by apply bool_decide_eq_true in Hv.
  - destruct (IH (i + 1) Hr Hne) as (f & Hlt & Hf & Hfv); [lia|lia|]. exists f. split; [lia|]. split; [|done].
    unfold aget in *. destruct (Z.ltb_spec (r - 62 - (i + 1)) 0); [done|]. destruct (Z.ltb_spec (r - 62 - i) 0); [lia|].
    replace (Z.to_nat (r - 62 - i)) with (S (Z.to_nat (r - 62 - (i + 1)))) by lia. done.
Qed.

(** The index the encoder finds, in the static or in the dynamic table. *)
Definition find_index (t : hpack_dyn_table_t) (name value : list Z) (name_only : bool) : Z :=
  let i := static_find s_hpack_static 0 name value name_only in
  if i =? 0 then dyn_table_find t name value name_only else i.

Lemma find_index_sound t name value name_only :
  table_ok t → find_index t name value name_only ≠ 0 →
  ∃ f, entry_at (fields_of t) (find_index t name value name_only) = Some f ∧ f.1 = name ∧ (name_only = false → f.2 = value).
Proof.
  intros [[He Hs Hw Hm Hc Hcap Hr] _]. unfold find_index, entry_at.
  set (i := static_find _ _ _ _ _). destruct (Z.eqb_spec i 0) as [_|Hi].
  - intros Hne. destruct (dyn_find_sound _ _ _ _ _ _ eq_refl Hne) as (f & Hlt & Hf & Hfv); [lia|lia|].
    fold (dyn_table_find t name value name_only) in Hlt, Hf. exists f. split; [|done].
    destruct (Z.leb_spec (dyn_table_find t name value name_only) 0); [lia|].
    destruct (Z.leb_spec (dyn_table_find t name value name_only) 61); [lia|]. by rewrite Z.sub_0_r in Hf.
  - intros _. destruct (static_find_sound s_hpack_static 0 name value name_only i eq_refl Hi) as (f & Hlt & Hf & Hfv); [lia|].
    rewrite Z.sub_0_r in Hf. exists f. split; [|done]. destruct (Z.leb_spec i 0); [lia|].
    apply aget_Some in Hf as Hb. destruct Hb as [Hb _]. replace (alen s_hpack_static) with 61 in Hb by by_eval.
    destruct (Z.leb_spec i 61); [done|lia].
Qed.

Lemma find_index_word t name value name_only : table_ok t → is_u32 (find_index t name value name_only).
Proof.
  intros Ht. pose proof Ht as [[He Hs Hw Hm Hc Hcap Hr] _].
  destruct (decide (find_index t name value name_only = 0)) as [->|Hne]; [unfold is_u32, UINT32_MAX; lia|].
  destruct (find_index_sound t name value name_only Ht Hne) as (f & Hf & _). unfold entry_at in Hf.
  destruct (Z.leb_spec (find_index t name value name_only) 0); [done|].
  destruct (Z.leb_spec (find_index t name value name_only) 61); [unfold is_u32, UINT32_MAX; lia|].
  apply aget_Some in Hf as [Hb _]. unfold alen in *. rewrite fields_of_length in Hb. unfold is_u32, UINT32_MAX. lia.
Qed.

(** ** One header *)

Lemma int_bytes_len v p flag : blen (int_bytes v p flag) <= 7.
Proof.
  assert (∀ fuel v, (length (varint fuel v) <= fuel)%nat) as Hl.
  { induction fuel as [|fuel IH]; intros u; cbn [varint length]; [lia|]. destruct (128 <=? u); cbn [length]; [|lia].
    specialize (IH (Z.shiftr u 7)). lia. }
  unfold int_bytes. destruct (v <? first_mask p); unfold blen; cbn [length]; [lia|].
  specialize (Hl 6%nat (v - first_mask p)). lia.
Qed.

Section Encoding.
Context (fresh : Z → Z).
Implicit Types (b : chttp_h2_hpack_buffer) (h : chttp_h2_hpack).

(** The strings a literal writes are of a size the format takes. *)
Definition short_literal (i : Z) (name value : list Z) : Prop :=
  (i = 0 → blen name <= 2147483647) ∧ blen value <= 2147483647.

Lemma put_literal_appends b i name value :
  0 < bu_max_capacity b →
  appends (short_literal i name value) 4 ((if i =? 0 then string_bytes name else []) ++ string_bytes value)
    (put_literal fresh b i name value) b.
Proof.
  intros Hm. unfold put_literal, short_literal.
  replace (string_bytes value) with (string_bytes value ++ []) by apply app_nil_r.
  apply (appends_weaken ((i = 0 → blen name <= 2147483647) ∧ (blen value <= 2147483647 ∧ True)) _ (2 + (2 + 0))); [done|tauto|].
  apply (appends_seq _ _ _ _ _ _ _ _ _ (λ _, -1)); [done| |].
  - destruct (Z.eqb_spec i 0).
    + apply (appends_weaken (blen name <= 2147483647) _ 2); [done|tauto|]. by apply put_string_appends.
    + apply (appends_weaken True _ 0); [lia|tauto|]. apply appends_nothing.
  - intros b1 Hm1. apply (appends_seq _ _ _ _ _ _ _ _ _ (λ _, -1)); [done|apply put_string_appends; lia|].
    intros b2 _. apply appends_nothing.
Qed.

(** Only the encoder's table changes, within its limits. *)
Definition same_context (h h' : chttp_h2_hpack) : Prop :=
  ∃ t, h' = set_encoder h t ∧ table_ok t ∧ dt_max_size t = dt_max_size (hp_encoder h) ∧
    dt_max_entries t = dt_max_entries (hp_encoder h).

(** The representation of [out] for the encoder's table, and that table
    behind it. *)
Record writes (h h' : chttp_h2_hpack) (x : instr) (out : list field) : Prop := {
  wr_takes : ∀ max_size, takes_within (hp_max_string_bytes h) max_size x;
  wr_apply : apply_instr (fields_of (hp_encoder h)) (dt_max_size (hp_encoder h)) x
    = Some (fields_of (hp_encoder h'), dt_max_size (hp_encoder h'), out);
  wr_room : instr_room (dt_max_entries (hp_encoder h)) (fields_of (hp_encoder h)) (dt_max_size (hp_encoder h)) x out
}.

(** A header that a table and a buffer have room for. *)
Definition encodable (h : chttp_h2_hpack) (f : field) : Prop :=
  blen f.1 <= hp_max_string_bytes h ∧ blen f.2 <= hp_max_string_bytes h ∧ blen f.1 <= 2147483647 ∧ blen f.2 <= 2147483647.

Lemma same_context_refl h : table_ok (hp_encoder h) → same_context h h.
Proof. intros Ht. exists (hp_encoder h). by destruct h. Qed.

(** What coding the header [f] does: it appends a representation of it, or
    fails with [-1]; it fails only when [P] does not hold or memory or room
    runs out. *)
Record coded (P : Prop) h b (old : list Z) (f : field) (w : world) (rc : Z) h' b' (w' : world) : Prop := {
  co_context : same_context h h';
  co_max : bu_max_capacity b' = bu_max_capacity b;
  co_blocks : w_blocks w' - table_blocks (hp_encoder h') = w_blocks w - table_blocks (hp_encoder h);
  co_result : rc = 0 ∧ (∃ x, writes h h' x [f] ∧ holds b' (old ++ instr_bytes x) ∧ blen (instr_bytes x) <= field_size f)
    ∨ rc = -1 ∧ ∃ kept, holds b' kept;
  co_success : ∀ j, P → supply (8 + j) w → bu_size b + field_size f <= bu_max_capacity b → rc = 0 ∧ supply j w'
}.

Lemma encode_indexed_ok h b f i old w :
  table_ok (hp_encoder h) → holds b old → 0 < bu_max_capacity b → is_u32 i → entry_at (fields_of (hp_encoder h)) i = Some f →
  ∃ rc h' b' w', ('(rc, b) ← put_flagged fresh b i 7 128; if negb (rc =? 0) then mret (-1, h, b) else mret (0, h, b)) w
      = Some ((rc, h', b'), w') ∧ coded True h b old f w rc h' b' w'.
Proof.
  intros Ht Hold Hm Hi He. destruct (put_flagged_appends fresh b i 7 128 ltac:(lia) Hi Hm w old Hold)
    as (rc & b1 & w1 & E & Hmx & Hbl & Hrc & Hs). wstep E.
  pose proof (int_bytes_len i 7 128) as Hlen. pose proof (field_size_pos f) as Hf.
  exists rc, h, b1, w1. split; [destruct Hrc as [(-> & _)|[-> _]]; done|]. split; [by apply same_context_refl|done|lia| |].
  - destruct Hrc as [(-> & _ & Hh)|[-> Hk]]; [left|by right]. split; [done|]. exists (Indexed i).
    split; [split; [done| |done]; cbn [apply_instr]; by rewrite He|]. split; [done|]. cbn [instr_bytes]. lia.
  - intros j _ Hj Hroom. apply Hs; [done|by apply (supply_weaken (8 + j)); [lia|]|]. lia.
Qed.

Lemma literal_bytes_len ix i name value : blen (instr_bytes (Literal ix i name value)) <= field_size (name, value).
Proof.
  cbn [instr_bytes]. unfold string_bytes, field_size. cbn [fst snd]. pose proof (blen_nonneg name).
  pose proof (int_bytes_len i 6 64). pose proof (int_bytes_len i 4 0). pose proof (int_bytes_len (blen name) 7 0).
  pose proof (int_bytes_len (blen value) 7 0). destruct ix, (i =? 0); rewrite !blen_app, ?blen_nil; lia.
Qed.

(** The index, then the strings that are written out. *)
Lemma put_indexed_literal ix b i name value :
  is_u32 i → 0 < bu_max_capacity b →
  appends (short_literal i name value) 5 (instr_bytes (Literal ix i name value))
    (r ← (if ix then put_flagged fresh b i 6 64 else chttp_h2_hpack_integer_encode fresh b i 4);
     let '(rc, b) := r in if negb (rc =? 0) then mret (-1, b) else put_literal fresh b i name value) b.
Proof.
  intros Hi Hm. apply (appends_weaken (True ∧ short_literal i name value) _ (1 + 4)); [done|tauto|]. cbn [instr_bytes].
  apply (appends_seq _ _ _ _ _ _ _ _ _ (λ _, -1)); [done| |].
  - destruct ix; [apply put_flagged_appends|apply integer_encode_appends]; done || lia.
  - intros b1 Hm1. apply put_literal_appends. lia.
Qed.

(** Two writers whose failures are passed on, then [k]. *)
Lemma run_two h (m : M (Z * chttp_h2_hpack_buffer)) p (k : chttp_h2_hpack_buffer → M (Z * chttp_h2_hpack * chttp_h2_hpack_buffer)) w rc b w' :
  (r ← m; let '(rc, b) := r in if negb (rc =? 0) then mret (-1, b) else p b) w = Some ((rc, b), w') →
  ('(rc, b) ← m; if negb (rc =? 0) then mret (-1, h, b) else
   '(rc, b) ← p b; if negb (rc =? 0) then mret (-1, h, b) else k b) w = if negb (rc =? 0) then Some ((-1, h, b), w') else k b w'.
Proof.
  unfold mbind, M_bind, mret, M_ret. destruct (m w) as [[[rc1 b1] w1]|]; [|done]. destruct (rc1 =? 0) eqn:Hr1; cbn [negb].
  - intros ->. by destruct (rc =? 0).
  - intros [= <- <- <-]. done.
Qed.

(** A literal without indexing. *)
Lemma encode_plain_ok h b i name value old w :
  table_ok (hp_encoder h) → holds b old → 0 < bu_max_capacity b → is_u32 i →
  blen name <= hp_max_string_bytes h → blen value <= hp_max_string_bytes h →
  (i ≠ 0 → fst <$> entry_at (fields_of (hp_encoder h)) i = Some name) →
  ∃ rc h' b' w',
    ('(rc, b) ← chttp_h2_hpack_integer_encode fresh b i 4; if negb (rc =? 0) then mret (-1, h, b) else
     '(rc, b) ← put_literal fresh b i name value; if negb (rc =? 0) then mret (-1, h, b) else mret (0, h, b)) w
      = Some ((rc, h', b'), w') ∧ coded (short_literal i name value) h b old (name, value) w rc h' b' w'.
Proof.
  intros Ht Hold Hm Hi Hn Hv He.
  destruct (put_indexed_literal false b i name value Hi Hm w old Hold) as (rc & b1 & w1 & E & Hmx & Hbl & Hrc & Hs).
  rewrite (run_two h _ _ _ w rc b1 w1 E). pose proof (literal_bytes_len false i name value) as Hlen.
  exists rc, h, b1, w1. split; [destruct Hrc as [(-> & _)|[-> _]]; done|]. split; [by apply same_context_refl|done|lia| |].
  - destruct Hrc as [(-> & HP & Hh)|[-> Hk]]; [left|by right]. split; [done|].
    exists (Literal false i (if i =? 0 then name else []) value).
    assert (instr_bytes (Literal false i (if i =? 0 then name else []) value) = instr_bytes (Literal false i name value)) as ->
      by (cbn [instr_bytes]; by destruct (i =? 0)).
    split; [|done]. destruct HP as [HP1 HP2]. pose proof (blen_nonneg name). split; [|cbn [apply_instr]|done].
    + intros ms. split; [done|]. destruct (Z.eqb_spec i 0); rewrite ?blen_nil; [auto|lia].
    + destruct (Z.eqb_spec i 0); [done|]. by rewrite He.
  - intros j HP Hj Hroom. apply Hs; [done|by apply (supply_weaken (8 + j)); [lia|]|]. lia.
Qed.

(** A literal with indexing. *)
Lemma encode_indexing_ok h b i name value old w :
  table_ok (hp_encoder h) → holds b old → 0 < bu_max_capacity b → is_u32 i →
  blen name <= hp_max_string_bytes h → blen value <= hp_max_string_bytes h →
  (i ≠ 0 → fst <$> entry_at (fields_of (hp_encoder h)) i = Some name) →
  ∃ rc h' b' w',
    ('(rc, b) ← put_flagged fresh b i 6 64; if negb (rc =? 0) then mret (-1, h, b) else
     '(rc, b) ← put_literal fresh b i name value; if negb (rc =? 0) then mret (-1, h, b) else
     '(rc, t) ← dyn_table_add (hp_encoder h) name value;
     if negb (rc =? 0) then mret (-1, set_encoder h t, b) else mret (0, set_encoder h t, b)) w
      = Some ((rc, h', b'), w') ∧
    coded (short_literal i name value ∧ field_size (name, value) <= SIZE_MAX ∧
      instr_room (dt_max_entries (hp_encoder h)) (fields_of (hp_encoder h)) (dt_max_size (hp_encoder h)) (Literal true i name value)
        [(name, value)]) h b old (name, value) w rc h' b' w'.
Proof.
  intros Ht Hold Hm Hi Hn Hv He.
  destruct (put_indexed_literal true b i name value Hi Hm w old Hold) as (rc & b1 & w1 & E & Hmx & Hbl & Hrc & Hs).
  rewrite (run_two h _ _ (λ b, '(rc, t) ← dyn_table_add (hp_encoder h) name value;
     if negb (rc =? 0) then mret (-1, set_encoder h t, b) else mret (0, set_encoder h t, b)) w rc b1 w1 E).
  pose proof (literal_bytes_len true i name value) as Hlen. cbn [negb]. unfold instr_room, alen. rewrite fields_of_length.
  destruct Hrc as [(-> & HP & Hh)|[-> Hk]]; cbn [Z.eqb negb].
  2: { exists (-1), h, b1, w1. split; [done|]. split; [by apply same_context_refl|done|lia|by right|].
       intros j (HP & _ & Hroom) Hj Hfit. apply (Hs j); [done|by apply (supply_weaken (8 + j)); [lia|]|lia]. }
  destruct (table_add_ok (hp_encoder h) name value w1 Ht) as (rc & t & w2 & E2 & Ht2 & Hms & Hme & Hbl2 & Hrc & Hsp). wstep E2.
  exists rc, (set_encoder h t), b1, w2. split; [destruct Hrc as [(-> & _)|[-> _]]; done|].
  split; [by exists t|done|cbn [hp_encoder set_encoder]; lia| |].
  - destruct Hrc as [(-> & Hf & Hcount)|[-> Hk]]; [left|right; eauto]. split; [done|].
    assert (∀ f, f ∈ [(name, value)] → field_size f <= dt_max_size (hp_encoder h) →
      Z.of_nat (length (dt_entries (hp_encoder h))) < dt_max_entries (hp_encoder h)) as Hroom
      by (intros f ->%list_elem_of_singleton; exact Hcount).
    exists (Literal true i (if i =? 0 then name else []) value).
    assert (instr_bytes (Literal true i (if i =? 0 then name else []) value) = instr_bytes (Literal true i name value)) as ->
      by (cbn [instr_bytes]; by destruct (i =? 0)).
    split; [|done]. destruct HP as [HP1 HP2]. pose proof (blen_nonneg name).
    split; [|cbn [apply_instr]|unfold instr_room, alen; by rewrite fields_of_length].
    + intros ms. split; [done|]. destruct (Z.eqb_spec i 0); rewrite ?blen_nil; [auto|lia].
    + destruct (Z.eqb_spec i 0); [|rewrite He by done]; cbn; by rewrite Hf, Hms.
  - intros j (HP' & Hsz & Hroom) Hj Hfit. destruct (Hs (3 + j)%nat HP') as [_ Hj1]; [done|lia|].
    apply Hsp; [done|done|]. intros Hle. apply (Hroom (name, value)); [set_solver|done].
Qed.

Lemma coded_weaken (P Q : Prop) h b old f w rc h' b' w' :
  (Q → P) → coded P h b old f w rc h' b' w' → coded Q h b old f w rc h' b' w'.
Proof. intros HQ [Hc Hm Hb Hr Hs]. split; try done. intros j Hq. apply Hs. auto. Qed.

(** The table takes one entry more, if it takes the header at all. *)
Definition entry_room (t : hpack_dyn_table_t) (f : field) : Prop :=
  field_size f <= dt_max_size t → alen (dt_entries t) < dt_max_entries t.

Lemma encode_header_ok h b f old w :
  table_ok (hp_encoder h) → holds b old → 0 < bu_max_capacity b →
  ∃ rc h' b' w', encode_header fresh h b (MkHeader (Some f.1) (Some f.2)) w = Some ((rc, h', b'), w') ∧
    coded (encodable h f ∧ entry_room (hp_encoder h) f) h b old f w rc h' b' w'.
Proof.
  intros Ht Hold Hm. destruct f as [name value]. unfold encode_header, encodable. cbn [hd_name hd_value fst snd].
  destruct (Z.ltb_spec (hp_max_string_bytes h) (blen name)) as [Hbig|Hn].
  { exists (-1), h, b, w. split; [done|]. split; [by apply same_context_refl|done|lia|right; eauto|]. intros j [? _]. lia. }
  destruct (Z.ltb_spec (hp_max_string_bytes h) (blen value)) as [Hbig|Hv].
  { exists (-1), h, b, w. split; [done|]. split; [by apply same_context_refl|done|lia|right; eauto|]. intros j [? _]. lia. }
  cbn [orb]. fold (find_index (hp_encoder h) name value false).
  change (if static_find_full name value =? 0 then _ else _) with (find_index (hp_encoder h) name value false).
  pose proof (find_index_sound (hp_encoder h) name value false Ht) as Hfs.
  pose proof (find_index_word (hp_encoder h) name value false Ht) as Hfw.
  destruct (Z.eqb_spec (find_index (hp_encoder h) name value false) 0) as [_|Hne]; cbn [negb].
  2: { destruct (Hfs Hne) as ([n v] & Hf & Hf1 & Hf2). cbn in Hf1, Hf2. rewrite Hf1, (Hf2 eq_refl) in Hf.
       destruct (encode_indexed_ok h b (name, value) _ old w Ht Hold Hm Hfw Hf) as (rc & h' & b' & w' & E & Hc).
       exists rc, h', b', w'. split; [exact E|]. revert Hc. by apply coded_weaken. }
  change (if static_find_name name =? 0 then _ else _) with (find_index (hp_encoder h) name [] true).
  pose proof (find_index_sound (hp_encoder h) name [] true Ht) as Hns.
  pose proof (find_index_word (hp_encoder h) name [] true Ht) as Hnw. set (i := find_index (hp_encoder h) name [] true) in *.
  assert (i ≠ 0 → fst <$> entry_at (fields_of (hp_encoder h)) i = Some name) as He.
  { intros Hi. destruct (Hns Hi) as (f & -> & <- & _). done. }
  assert (encodable h (name, value) → short_literal i name value) as Hshort by (unfold encodable, short_literal; cbn; tauto).
  destruct (dt_max_size (hp_encoder h) =? 0).
  - destruct (encode_plain_ok h b i name value old w Ht Hold Hm Hnw Hn Hv He) as (rc & h' & b' & w' & E & Hc).
    exists rc, h', b', w'. split; [exact E|]. revert Hc. apply coded_weaken. intros [? _]. by apply Hshort.
  - destruct (encode_indexing_ok h b i name value old w Ht Hold Hm Hnw Hn Hv He) as (rc & h' & b' & w' & E & Hc).
    exists rc, h', b', w'. split; [exact E|]. revert Hc. apply coded_weaken. intros [Hen Hroom]. split; [by apply Hshort|].
    destruct Hen as (_ & _ & H1 & H2). cbn in H1, H2. split; [unfold field_size, SIZE_MAX, UINT64_MAX; cbn; lia|].
    intros f ->%list_elem_of_singleton. unfold alen. rewrite fields_of_length. exact Hroom.
Qed.

(** ** A list of headers *)

(** However the headers go, the table never runs out of entries: there are
    entries enough for all of them, or no header is empty and the size limit
    is reached before the limit of entries. *)
Definition roomy (t : hpack_dyn_table_t) (fs : list field) : Prop :=
  alen (dt_entries t) + alen fs <= dt_max_entries t ∨
  dt_max_size t < 33 * dt_max_entries t ∧ Forall (λ f, 33 <= field_size f) (fields_of t ++ fs).

Lemma fields_size_33 l : Forall (λ f, 33 <= field_size f) l → 33 * alen l <= fields_size l.
Proof. unfold alen. induction 1 as [|f l Hf _ IH]; cbn [fields_size length]; lia. Qed.

Lemma roomy_entry t f fs : table_ok t → roomy t (f :: fs) → entry_room t f.
Proof.
  intros [[_ Hs _ _ _ _ _] Hle] [Hn|[Hn Hf]] _.
  - unfold alen in *. cbn [length] in Hn. lia.
  - apply Forall_app in Hf as [Hf%fields_size_33 _]. unfold alen in *. rewrite fields_of_length in Hf. lia.
Qed.

Lemma insert_field_le max f l : (length (insert_field max f l) <= S (length l))%nat ∧ (∀ g, g ∈ insert_field max f l → g = f ∨ g ∈ l).
Proof.
  unfold insert_field. destruct (max <? field_size f); [split; [lia|auto]|]. pose proof (fit_prefix max (f :: l)) as [k Hk]. split.
  - apply (f_equal length) in Hk. rewrite length_app in Hk. cbn [length] in Hk. lia.
  - intros g Hg. assert (g ∈ f :: l) as Hin by (rewrite Hk; apply elem_of_app; by left). by apply elem_of_cons in Hin.
Qed.

Lemma apply_instr_one l max x l' max' f :
  apply_instr l max x = Some (l', max', [f]) → max' = max ∧ (l' = l ∨ l' = insert_field max f l).
Proof.
  destruct x as [i|ix i name value|size]; cbn [apply_instr]; intros H.
  - destruct (entry_at l i); [|done]. injection H as <- <- _. auto.
  - destruct (if i =? 0 then _ else _) as [n|]; [|done]. injection H as <- <- <-. destruct ix; auto.
  - done.
Qed.

Lemma roomy_step h h' x f fs :
  same_context h h' → writes h h' x [f] → roomy (hp_encoder h) (f :: fs) → roomy (hp_encoder h') fs.
Proof.
  intros (t & -> & _ & Hms & Hme) [_ Ha _] Hr. cbn [hp_encoder set_encoder] in *. apply apply_instr_one in Ha as [_ Hl].
  destruct (insert_field_le (dt_max_size (hp_encoder h)) f (fields_of (hp_encoder h))) as [Hlen Hin].
  assert ((length (dt_entries t) <= S (length (dt_entries (hp_encoder h))))%nat ∧ ∀ g, g ∈ fields_of t → g = f ∨ g ∈ fields_of (hp_encoder h)) as [Hlt Hgt].
  { rewrite <-!fields_of_length. destruct Hl as [-> | ->]; [split; [lia|auto]|done]. }
  unfold roomy. rewrite Hms, Hme. destruct Hr as [Hr|[Hr Hf]]; [left|right].
  - unfold alen in *. cbn [length] in Hr. lia.
  - split; [done|]. rewrite Forall_forall in Hf |- *. intros g [Hg|Hg]%elem_of_app; apply Hf; apply elem_of_app; [|right; by right].
    destruct (Hgt g Hg) as [-> |]; [right; by left|by left].
Qed.

(** What coding the headers does. *)
Record all_coded (P : Prop) (k n : nat) (size : Z) h b (old : list Z) (l : list field) (max : Z) (fs : list field) (w : world)
    (rc : Z) h' b' (w' : world) : Prop := {
  ac_max : bu_max_capacity b' = bu_max_capacity b;
  ac_blocks : w_blocks w' - table_blocks (hp_encoder h') = w_blocks w - table_blocks (hp_encoder h);
  ac_result : rc = 0 ∧ (∃ xs, holds b' (old ++ instrs_bytes xs) ∧
      (∀ md, dt_max_size (hp_encoder h) <= md → Forall (takes_within (hp_max_string_bytes h) md) xs) ∧
      apply_instrs l max xs = Some (fields_of (hp_encoder h'), dt_max_size (hp_encoder h'), fs) ∧
      instrs_room (dt_max_entries (hp_encoder h)) l max xs ∧ (length xs <= n)%nat ∧ blen (instrs_bytes xs) <= size)
    ∨ rc = -1 ∧ ∃ kept, holds b' kept;
  ac_success : ∀ j, P → supply (k + j) w → bu_size b + size <= bu_max_capacity b → rc = 0 ∧ supply j w'
}.

Definition header_of (f : field) : chttp_h2_hpack_header := MkHeader (Some f.1) (Some f.2).

Lemma encode_headers_ok fs h b old w :
  table_ok (hp_encoder h) → holds b old → 0 < bu_max_capacity b →
  ∃ rc h' b' w', encode_headers fresh h b (header_of <$> fs) w = Some ((rc, h', b'), w') ∧ same_context h h' ∧
    all_coded (Forall (encodable h) fs ∧ roomy (hp_encoder h) fs) (8 * length fs) (length fs) (fields_size fs) h b old
      (fields_of (hp_encoder h)) (dt_max_size (hp_encoder h)) fs w rc h' b' w'.
Proof.
  revert h b old w. induction fs as [|f fs IH]; intros h b old w Ht Hold Hm; cbn [fmap list_fmap encode_headers].
  - exists 0, h, b, w. split; [done|]. split; [by apply same_context_refl|]. split; [done|lia| |].
    + left. split; [done|]. exists []. cbn. rewrite app_nil_r. done.
    + intros j _ Hj _. done.
  - destruct (encode_header_ok h b f old w Ht Hold Hm) as (rc & h1 & b1 & w1 & E & [Hc1 Hm1 Hb1 Hr1 Hs1]). wstep E.
    destruct Hr1 as [[-> (x & Hx & Hh1 & Hlen1)]|[-> Hk]]; cbn [Z.eqb negb].
    2: { exists (-1), h1, b1, w1. split; [done|]. split; [done|]. split; [done|done|by right|].
         intros j [[Hen _]%Forall_cons Hrm] Hj Hfit. destruct (Hs1 (8 * length fs + j)%nat) as [? _]; [| | |done].
         - split; [done|by eapply roomy_entry].
         - eapply supply_weaken; [|exact Hj]. cbn [length]. lia.
         - cbn [fields_size] in Hfit. pose proof (fields_size_bound fs). unfold alen in *. lia. }
    pose proof Hc1 as (t1 & Hh1' & Ht1 & Hms1 & Hme1). pose proof (holds_size _ _ Hh1) as [Hsz1 _]. pose proof (holds_size _ _ Hold) as [Hsz _].
    rewrite blen_app in Hsz1.
    destruct (IH h1 b1 (old ++ instr_bytes x) w1) as (rc & h2 & b2 & w2 & E2 & Hc2 & [Hm2 Hb2 Hr2 Hs2]); [by rewrite Hh1'|exact Hh1|lia|].
    exists rc, h2, b2, w2. split; [exact E2|]. split.
    { destruct Hc2 as (t2 & -> & Ht2 & Hms2 & Hme2). rewrite Hh1' in Hms2, Hme2 |- *. exists t2. cbn in *.
      split; [done|]. split; [done|]. split; congruence. }
    split; [congruence|lia| |].
    + destruct Hr2 as [(-> & xs & Hh2 & Htk & Hap & Hrm & Hln & Hbx)|Hk]; [left|by right]. split; [done|]. exists (x :: xs).
      destruct Hx as [Hx1 Hx2 Hx3]. rewrite Hh1' in Htk. cbn [hp_encoder set_encoder hp_max_string_bytes] in Htk. rewrite Hms1 in Htk.
      split; [by rewrite <-app_assoc in Hh2|]. split; [intros md Hmd; constructor; auto|]. split.
      { cbn [apply_instrs]. rewrite Hx2. cbn [mbind option_bind]. rewrite Hap. done. }
      split; [|split; [cbn [length]; lia|]; change (instrs_bytes (x :: xs)) with (instr_bytes x ++ instrs_bytes xs); rewrite blen_app;
        cbn [fields_size]; lia]. intros l' max' out Ha. rewrite Hx2 in Ha. injection Ha as <- <- <-. split; [done|].
      rewrite Hh1' in Hrm |- *. cbn [hp_encoder set_encoder] in Hrm |- *. by rewrite Hme1 in Hrm.
    + intros j [[Hen Hens]%Forall_cons Hrm] Hj Hfit. cbn [fields_size] in Hfit. pose proof (fields_size_bound fs) as Hfb. unfold alen in Hfb.
      destruct (Hs1 (8 * length fs + j)%nat) as [_ Hj1].
      { split; [done|by eapply roomy_entry]. }
      { eapply supply_weaken; [|exact Hj]. cbn [length]. lia. }
      { lia. }
      apply Hs2; [|done|lia]. split; [|by eapply roomy_step]. rewrite Hh1'. exact Hens.
Qed.

(** ** A header block *)

(** The encoder's side of a context. *)
Definition encoder_ok h : Prop :=
  table_ok (hp_encoder h) ∧
  (hp_encoder_size_update_pending h = true →
    0 <= hp_encoder_pending_min_size h <= hp_encoder_pending_final_size h ∧
    dt_max_size (hp_encoder h) = hp_encoder_pending_final_size h).

(** A decoder that has read every block so far holds [l] and has the limit
    [max]: what the encoder holds, but for the changes of the limit it has not
    written yet. *)
Definition synced h (l : list field) (max : Z) : Prop :=
  if hp_encoder_size_update_pending h then fields_of (hp_encoder h) = fit (hp_encoder_pending_min_size h) l
  else fields_of (hp_encoder h) = l ∧ dt_max_size (hp_encoder h) = max.

Definition settled h : chttp_h2_hpack := set_pending h (hp_encoder_pending_min_size h) (hp_encoder_pending_final_size h) false.

Lemma put_updates_bytes h b :
  encoder_ok h → hp_encoder_size_update_pending h = true → 0 < bu_max_capacity b →
  appends True 2 (int_bytes (hp_encoder_pending_min_size h) 5 32 ++
      (if hp_encoder_pending_final_size h =? hp_encoder_pending_min_size h then [] else int_bytes (hp_encoder_pending_final_size h) 5 32))
    (r ← hpack_put_table_size_update fresh b (hp_encoder_pending_min_size h);
     let '(rc, b) := r in if negb (rc =? 0) then mret (-1, b) else
     if negb (hp_encoder_pending_final_size h =? hp_encoder_pending_min_size h)
     then hpack_put_table_size_update fresh b (hp_encoder_pending_final_size h) else mret (0, b)) b.
Proof.
  intros [[[_ _ _ Hmx _ _ _] _] Hp] Hpd Hm. destruct (Hp Hpd) as [Hmf Heq]. unfold hpack_put_table_size_update.
  rewrite !u32_id by (unfold is_u32; lia). apply (appends_weaken (True ∧ True) _ (1 + 1)); [done|tauto|].
  apply (appends_seq _ _ _ _ _ _ _ _ _ (λ _, -1)); [done|apply put_flagged_appends; [lia|unfold is_u32; lia|done]|].
  intros b1 Hm1. destruct (hp_encoder_pending_final_size h =? hp_encoder_pending_min_size h); cbn [negb].
  - apply (appends_weaken True _ 0); [lia|done|]. apply appends_nothing.
  - apply put_flagged_appends; [lia|unfold is_u32; lia|lia].
Qed.

Lemma put_updates_ok h b old w l max :
  encoder_ok h → synced h l max → holds b old → 0 < bu_max_capacity b →
  ∃ rc h' b' w', put_updates fresh h b w = Some ((rc, h', b'), w') ∧
    (rc = 0 ∧ hp_encoder_size_update_pending h' = false ∧ (h' = h ∨ h' = settled h) ∨ rc = -1 ∧ h' = h) ∧
    all_coded True 2 2 14 h b old l max [] w rc h' b' w'.
Proof.
  intros Hok Hsy Hold Hm. unfold put_updates, synced in *. destruct (hp_encoder_size_update_pending h) eqn:Hpd.
  2: { destruct Hsy as [Hl Hmx]. exists 0, h, b, w. split; [done|]. split; [left; auto|]. split; [done|lia| |].
       - left. split; [done|]. exists []. cbn. rewrite app_nil_r, Hl, Hmx. split; [done|]. split; [done|]. split; [done|]. split; [done|]. split; [lia|]. rewrite blen_nil. lia.
       - intros j _ Hj _. split; [done|]. by apply (supply_weaken (2 + j)); [lia|]. }
  destruct (put_updates_bytes h b Hok Hpd Hm w old Hold) as (rc & b1 & w1 & E & Hmx & Hbl & Hrc & Hs).
  rewrite (run_two h _ (λ b, if negb (hp_encoder_pending_final_size h =? hp_encoder_pending_min_size h)
     then hpack_put_table_size_update fresh b (hp_encoder_pending_final_size h) else mret (0, b))
    (λ b, mret (0, settled h, b)) w rc b1 w1 E).
  destruct Hok as [[[_ Hsz _ Hmax _ _ _] Hle] Hp]. destruct (Hp Hpd) as [Hmf Heq].
  set (pmin := hp_encoder_pending_min_size h) in *. set (pfinal := hp_encoder_pending_final_size h) in *.
  set (xs := Resize pmin :: if pfinal =? pmin then [] else [Resize pfinal]).
  assert (int_bytes pmin 5 32 ++ (if pfinal =? pmin then [] else int_bytes pfinal 5 32) = instrs_bytes xs) as Hxs.
  { unfold xs, instrs_bytes. destruct (pfinal =? pmin); cbn; by rewrite !app_nil_r. }
  rewrite Hxs in Hrc, Hs.
  assert (blen (instrs_bytes xs) <= 14) as Hlen.
  { rewrite <-Hxs, blen_app. pose proof (int_bytes_len pmin 5 32). pose proof (int_bytes_len pfinal 5 32).
    destruct (pfinal =? pmin); rewrite ?blen_nil; lia. }
  exists rc, (if rc =? 0 then settled h else h), b1, w1. destruct Hrc as [(-> & _ & Hh)|[-> Hk]]; cbn [Z.eqb negb].
  - split; [done|]. split; [left; auto|]. split; [done|cbn; lia| |].
    + left. split; [done|]. exists xs. split; [done|]. split; [|split; [|split; [|split; [|done]]]].
      * intros md Hmd. unfold xs. constructor; [cbn; unfold is_u32; lia|]. destruct (pfinal =? pmin); [constructor|].
        constructor; [cbn; unfold is_u32; lia|constructor].
      * cbn [settled set_pending hp_encoder]. unfold xs. rewrite Hsy, Heq. destruct (Z.eqb_spec pfinal pmin) as [->|Hne]; cbn; [done|].
        rewrite (fit_all pfinal (fit pmin l)); [done|]. pose proof (fit_bound pmin l). lia.
      * unfold xs. intros l1 m1 out1 _. split; [done|]. destruct (pfinal =? pmin); [done|]. cbn. auto.
      * unfold xs. destruct (pfinal =? pmin); cbn; lia.
    + intros j _ Hj Hfit. apply Hs; [done|done|lia].
  - split; [done|]. split; [by right|]. split; [done|lia|by right|]. intros j _ Hj Hfit. apply Hs; [done|done|lia].
Qed.

(** Representations one after the other. *)
Lemma apply_instrs_app l max xs ys l1 max1 out1 l2 max2 out2 :
  apply_instrs l max xs = Some (l1, max1, out1) → apply_instrs l1 max1 ys = Some (l2, max2, out2) →
  apply_instrs l max (xs ++ ys) = Some (l2, max2, out1 ++ out2).
Proof.
  revert l max out1. induction xs as [|x xs IH]; intros l max out1 Hx Hy; cbn [apply_instrs app] in *; [injection Hx as <- <- <-; exact Hy|].
  apply bind_Some in Hx as ([[l3 max3] out3] & -> & Hx). apply bind_Some in Hx as ([[l4 max4] out4] & Hx & Heq).
  injection Heq as -> -> <-. cbn [mbind option_bind]. rewrite (IH _ _ _ Hx Hy). cbn. by rewrite app_assoc.
Qed.

Lemma instrs_room_app n l max xs ys l1 max1 out1 :
  apply_instrs l max xs = Some (l1, max1, out1) → instrs_room n l max xs → instrs_room n l1 max1 ys → instrs_room n l max (xs ++ ys).
Proof.
  revert l max out1. induction xs as [|x xs IH]; intros l max out1 Hx Hr Hy; cbn [apply_instrs app instrs_room] in *;
    [by injection Hx as <- <- <-|].
  apply bind_Some in Hx as ([[l3 max3] out3] & Ha & Hx). apply bind_Some in Hx as ([[l4 max4] out4] & Hx & Heq). injection Heq as -> -> <-.
  intros l' max' out Ha'. rewrite Ha in Ha'. injection Ha' as <- <- <-. destruct (Hr _ _ _ Ha) as [Hr1 Hr2]. split; [done|]. by eapply IH.
Qed.

Lemma encode_ok fs h b old w l max :
  encoder_ok h → synced h l max → holds b old → 0 < bu_max_capacity b →
  ∃ rc h' b' w', chttp_h2_hpack_encode fresh h b (header_of <$> fs) w = Some ((rc, h', b'), w') ∧ encoder_ok h' ∧
    hp_decoder h' = hp_decoder h ∧ hp_max_string_bytes h' = hp_max_string_bytes h ∧
    dt_max_entries (hp_encoder h') = dt_max_entries (hp_encoder h) ∧ dt_max_size (hp_encoder h') = dt_max_size (hp_encoder h) ∧
    (rc = 0 → hp_encoder_size_update_pending h' = false) ∧
    all_coded (bu_max_capacity b <= hp_max_header_block_bytes h ∧ Forall (encodable h) fs ∧ roomy (hp_encoder h) fs)
      (8 * length fs + 2) (length fs + 2) (fields_size fs + 14) h b old l max fs w rc h' b' w'.
Proof.
  intros Hok Hsy Hold Hm. unfold chttp_h2_hpack_encode. pose proof (fields_size_bound fs) as Hfb. unfold alen in Hfb.
  destruct (Z.ltb_spec (hp_max_header_block_bytes h) (bu_max_capacity b)) as [Hbig|Hcap].
  { exists (-1), h, b, w. split; [done|]. do 6 (split; [done|]). split; [done|lia|right; eauto|]. intros j [? _]. lia. }
  destruct (put_updates_ok h b old w l max Hok Hsy Hold Hm) as (rc & h1 & b1 & w1 & E & Hh1 & [Hm1 Hb1 Hr1 Hs1]). wstep E.
  destruct Hh1 as [(-> & Hpd1 & Hh1)|[-> ->]]; cbn [Z.eqb negb].
  2: { exists (-1), h, b1, w1. split; [done|]. do 6 (split; [done|]). destruct Hr1 as [[? _]|Hk]; [done|]. split; [done|done|by right|].
       intros j _ Hj Hfit. destruct (Hs1 (8 * length fs + j)%nat) as [? _]; [done| |lia|done].
       eapply supply_weaken; [|exact Hj]. lia. }
  destruct Hr1 as [(_ & xs & Hx1 & Htk & Hap & Hrm & Hln & Hbx)|[? _]]; [|done].
  assert (hp_encoder h1 = hp_encoder h ∧ hp_decoder h1 = hp_decoder h ∧ hp_max_string_bytes h1 = hp_max_string_bytes h) as (He1 & Hd1 & Hst1)
    by (destruct Hh1 as [-> | ->]; done).
  rewrite He1 in Hap. pose proof (holds_size _ _ Hx1) as [Hsz1 _]. pose proof (holds_size _ _ Hold) as [Hsz _]. rewrite blen_app in Hsz1.
  destruct (encode_headers_ok fs h1 b1 (old ++ instrs_bytes xs) w1) as (rc & h2 & b2 & w2 & E2 & Hc2 & [Hm2 Hb2 Hr2 Hs2]).
  { rewrite He1. apply Hok. }
  { exact Hx1. }
  { lia. }
  destruct Hc2 as (t2 & -> & Ht2 & Hms2 & Hme2). rewrite He1 in Hb2, Hr2, Hs2, Hms2, Hme2. rewrite He1 in Hb1. rewrite Hst1 in Hr2.
  exists rc, (set_encoder h1 t2), b2, w2. split; [exact E2|]. cbn [hp_encoder hp_decoder hp_max_string_bytes set_encoder] in *.
  split; [split; [done|]; cbn; congruence|]. do 4 (split; [done|]).
  split; [by intros _|].
  split; [congruence|cbn; lia| |]; cbn [hp_encoder set_encoder].
  - destruct Hr2 as [(-> & ys & Hy & Htky & Hapy & Hrmy & Hlny & Hby)|Hk]; [left|by right]. split; [done|]. exists (xs ++ ys).
    assert (instrs_bytes (xs ++ ys) = instrs_bytes xs ++ instrs_bytes ys) as -> by apply bind_app.
    split; [by rewrite app_assoc|]. split; [intros md Hmd; apply Forall_app; auto|].
    split; [by apply (apply_instrs_app _ _ _ _ _ _ [] _ _ _ Hap)|]. split; [by eapply instrs_room_app|].
    split; [rewrite length_app; lia|rewrite blen_app; lia].
  - intros j (_ & Hen & Hry) Hj Hfit. destruct (Hs1 (8 * length fs + j)%nat) as [_ Hj1]; [done| |lia|].
    { eapply supply_weaken; [|exact Hj]. lia. }
    apply Hs2; [|done|lia]. split; [|done]. unfold encodable in *. by rewrite Hst1.
Qed.

End Encoding.

(** C23. The encoder writes the format. From an encoder in step with a table
    [l] of limit [max], [chttp_h2_hpack_encode] returns for every list of
    headers and whatever the allocator does. On success it has appended
    representations which, carried out on that table, give exactly the headers
    and the encoder's new table, pending limit changes first, in no more bytes
    than the headers take in a table and 14 for the changes. It succeeds
    whenever the strings, the buffer, the table's entries and memory suffice,
    and never leaks a block. *)
Theorem hpack_encode_exact fresh fs h b old w l max :
  encoder_ok h → synced h l max → holds b old → 0 < bu_max_capacity b →
  ∃ rc h' b' w',
    chttp_h2_hpack_encode fresh h b (header_of <$> fs) w = Some ((rc, h', b'), w') ∧ encoder_ok h' ∧ hp_decoder h' = hp_decoder h ∧
    w_blocks w' - table_blocks (hp_encoder h') = w_blocks w - table_blocks (hp_encoder h) ∧
    (rc = 0 ∧ (∃ xs, holds b' (old ++ instrs_bytes xs) ∧
       apply_instrs l max xs = Some (fields_of (hp_encoder h'), dt_max_size (hp_encoder h'), fs) ∧
       blen (instrs_bytes xs) <= fields_size fs + 14) ∨
     rc = -1 ∧ ∃ kept, holds b' kept) ∧
    (bu_max_capacity b <= hp_max_header_block_bytes h → Forall (encodable h) fs → roomy (hp_encoder h) fs →
     bu_size b + fields_size fs + 14 <= bu_max_capacity b → supply (8 * length fs + 2) w → rc = 0).
Proof.
  intros Hok Hsy Hold Hm. destruct (encode_ok fresh fs h b old w l max Hok Hsy Hold Hm)
    as (rc & h' & b' & w' & E & Hok' & Hd & _ & _ & _ & _ & [_ Hb Hr Hs]).
  exists rc, h', b', w'. split; [done|]. split; [done|]. split; [done|]. split; [done|]. split.
  - destruct Hr as [(-> & xs & Hx & _ & Ha & _ & _ & Hl)|Hk]; [left|by right]. split; [done|]. by exists xs.
  - intros H1 H2 H3 H4 H5. apply (Hs 0%nat); [done| |lia]. by rewrite Nat.add_0_r.
Qed.
