(* ===== verification/HpackRoundtrip.v ===== *)
(** * A conversation of encoder and decoder

    What is encoded at one end of a connection is decoded at the other end,
    block after block, while the encoder's table limit changes in between. *)

From S2P Require Import Prelude World HpackTables Hpack HpackCodec HpackWire HpackTable HpackHuffman HpackSafe HpackSync HpackEncode.
Local Open Scope Z_scope.

Implicit Types (e d h : chttp_h2_hpack).

(** The decoder's limits admit what the encoder sends. *)
Definition admits d e : Prop :=
  hp_max_string_bytes e <= hp_max_string_bytes d ∧ dt_max_size (hp_encoder e) <= hp_decoder_max_size d ∧
  dt_max_entries (hp_encoder e) <= dt_max_entries (hp_decoder d).

(** Encoder [e] and decoder [d] are in step. *)
Record linked e d : Prop := {
  li_encoder : encoder_ok e;
  li_decoder : table_ok (hp_decoder d);
  li_synced : synced e (fields_of (hp_decoder d)) (dt_max_size (hp_decoder d));
  li_admits : admits d e
}.

Lemma instrs_room_mono n m l max xs : n <= m → instrs_room n l max xs → instrs_room m l max xs.
Proof.
  intros Hnm. revert l max. induction xs as [|x xs IH]; intros l max Hr; cbn [instrs_room] in *; [done|].
  intros l' max' out Ha. destruct (Hr _ _ _ Ha) as [Hx Hxs]. split; [|auto]. unfold instr_room in *.
  destruct x as [|[]|]; try done. intros f Hf Hs. specialize (Hx f Hf Hs). lia.
Qed.

(** A block that was encoded is decoded to its headers, and the two stay in
    step. *)
Lemma linked_block fresh fs e d b w e' b' w' limit wd :
  linked e d → holds b [] → 0 < bu_max_capacity b →
  chttp_h2_hpack_encode fresh e b (header_of <$> fs) w = Some ((0, e', b'), w') →
  bu_size b' <= hp_max_header_block_bytes d → limit = 0 ∨ fields_size fs <= limit <= SIZE_MAX →
  supply (3 * (length fs + 2)) wd →
  ∃ bytes d' wd', holds b' bytes ∧
    chttp_h2_hpack_decode accept d bytes (blen bytes) limit wd = Some ((0, Some (blen bytes), d', fs), wd') ∧ linked e' d' ∧
    fields_of (hp_decoder d') = fields_of (hp_encoder e') ∧ dt_max_size (hp_decoder d') = dt_max_size (hp_encoder e').
Proof.
  intros [Hok Htd Hsy (Hst & Hsz & Hen)] Hold Hm Henc Hblk Hlim Hsup.
  destruct (encode_ok fresh fs e b [] w _ _ Hok Hsy Hold Hm) as (rc & e2 & b2 & w2 & E & Hok' & _ & Hst' & Hme' & Hms' & Hsy' & [_ _ Hr _]).
  rewrite Henc in E. injection E as <- <- <- <-. destruct Hr as [(_ & xs & Hh & Htk & Hap & Hrm & Hln & _)|[? _]]; [|done].
  cbn [app] in Hh. set (bytes := instrs_bytes xs) in *. pose proof (holds_size _ _ Hh) as [Hl _].
  assert (Forall (takes d) xs) as Htd'.
  { eapply Forall_impl; [exact (Htk _ Hsz)|]. intros x Hx. destruct x as [|ix i name value|]; cbn in *; [done| |done].
    destruct Hx as (? & ? & ? & ? & ?). split; [done|]. lia. }
  assert (length xs <= length bytes)%nat as Hpos.
  { unfold bytes, instrs_bytes. clear -Htd'. induction Htd' as [|x xs Hx _ IH]; [done|]. apply instr_bytes_pos in Hx.
    cbn [mbind list_bind length]. rewrite length_app. unfold blen in Hx. lia. }
  destruct (decode_instrs bytes limit xs (S (Z.to_nat (blen bytes))) (MkDecode d 0 0 false []) []
    (fields_of (hp_encoder e')) (dt_max_size (hp_encoder e')) fs 0 wd)
    as (d2 & t & wd' & E & Hd2 & Ht & Hf & Hmx & Hme & Hp & Hc & _).
  - done.
  - done.
  - done.
  - exact Htd.
  - exact Htd'.
  - unfold within. cbn [de_list_bytes]. destruct Hlim as [->|Hlim]; [by left|right]. lia.
  - exact Hap.
  - eapply instrs_room_mono; [exact Hen|exact Hrm].
  - unfold blen. lia.
  - eapply supply_weaken; [|exact Hsup]. lia.
  - exists bytes, (de_hpack d2), wd'. split; [done|]. split.
    { unfold chttp_h2_hpack_decode. destruct (Z.ltb_spec (hp_max_header_block_bytes d) (blen bytes)); [lia|]. wstep E. cbn [Z.eqb orb].
      wrun. by rewrite Hp, Hc. }
    rewrite Hd2. cbn [hp_decoder set_decoder de_hpack]. split; [|done]. split; cbn [hp_decoder set_decoder de_hpack].
    + done.
    + done.
    + unfold synced. rewrite Hf, Hmx, (Hsy' eq_refl). done.
    + unfold admits. cbn [hp_decoder set_decoder hp_max_string_bytes hp_decoder_max_size de_hpack] in *. rewrite Hst', Hms', Hme', Hme.
      done.
Qed.

(** A new limit of the encoder's table. *)
Lemma linked_resize e d size w rc e' w' :
  linked e d → is_u32 size → size <= hp_decoder_max_size d →
  chttp_h2_hpack_encoder_set_max_size e size w = Some ((rc, e'), w') → linked e' d.
Proof.
  intros [[Ht Hp] Htd Hsy (Hst & Hsz & Hen)] H0 Hle. unfold is_u32 in H0. unfold chttp_h2_hpack_encoder_set_max_size.
  destruct (Z.ltb_spec (hp_max_dynamic_table_bytes e) size) as [Hbig|Hin]; [intros [= <- <- <-]; by split|].
  destruct (resize_ok (hp_encoder e) size w Ht) as (t & w1 & E & Ht1 & Hf & Hms & Hme & _ & _ & _); [lia|].
  set (h1 := if negb (size =? dt_max_size (hp_encoder e)) then _ else _).
  assert (hp_encoder h1 = hp_encoder e) as He by (unfold h1; by destruct (size =? dt_max_size (hp_encoder e))).
  rewrite He. wstep E. intros [= <- <- <-].
  assert (hp_max_string_bytes h1 = hp_max_string_bytes e) as Hs1 by (unfold h1; by destruct (size =? dt_max_size (hp_encoder e))).
  pose proof Ht as [[_ Hsize _ _ _ _ _] Hfits].
  split; [split; [done|]|done| |split; [|split]]; cbn [set_encoder hp_encoder hp_encoder_size_update_pending
    hp_encoder_pending_min_size hp_encoder_pending_final_size hp_max_string_bytes]; [| |by rewrite Hs1|lia|by rewrite Hme].
  - rewrite Hms. unfold h1. destruct (Z.eqb_spec size (dt_max_size (hp_encoder e))) as [->|Hne]; cbn [negb]; [done|].
    cbn. intros _. split; [|done]. destruct (hp_encoder_size_update_pending e) eqn:Hpd; cbn [negb orb]; [|lia].
    destruct (Hp eq_refl) as [? _]. destruct (Z.ltb_spec size (hp_encoder_pending_min_size e)); lia.
  - unfold synced in *. cbn [set_encoder hp_encoder hp_encoder_size_update_pending hp_encoder_pending_min_size]. rewrite Hf, Hms. unfold h1.
    destruct (Z.eqb_spec size (dt_max_size (hp_encoder e))) as [->|Hne]; cbn [negb].
    + rewrite fit_all by lia. done.
    + cbn. destruct (hp_encoder_size_update_pending e) eqn:Hpd; cbn [negb orb].
      * rewrite Hsy. destruct (Hp eq_refl) as [? _]. destruct (Z.ltb_spec size (hp_encoder_pending_min_size e)).
        -- apply fit_fit. lia.
        -- apply fit_all. pose proof (fit_bound (hp_encoder_pending_min_size e) (fields_of (hp_decoder d))). lia.
      * by destruct Hsy as [-> _].
Qed.

(** What the two ends do: the encoder gets a new limit that the decoder has
    announced, or sends a block that the decoder reads while it has memory and
    admits the size of the block and of the list of headers. *)
Inductive talk : chttp_h2_hpack * chttp_h2_hpack → chttp_h2_hpack * chttp_h2_hpack → Prop :=
  | talk_resize e d size w rc e' w' :
      is_u32 size → size <= hp_decoder_max_size d →
      chttp_h2_hpack_encoder_set_max_size e size w = Some ((rc, e'), w') → talk (e, d) (e', d)
  | talk_block fresh fs e d b w e' b' w' bytes limit wd rc consumed d' calls wd' :
      holds b [] → 0 < bu_max_capacity b →
      chttp_h2_hpack_encode fresh e b (header_of <$> fs) w = Some ((0, e', b'), w') → holds b' bytes →
      bu_size b' <= hp_max_header_block_bytes d → limit = 0 ∨ fields_size fs <= limit <= SIZE_MAX →
      supply (3 * (length fs + 2)) wd →
      chttp_h2_hpack_decode accept d bytes (blen bytes) limit wd = Some ((rc, consumed, d', calls), wd') → talk (e, d) (e', d').

(** Two contexts as they are created, for tables of the same size. *)
Definition fresh_pair (e d : chttp_h2_hpack) : Prop :=
  ∃ ce cd w1 w1' w2 w2',
    chttp_h2_hpack_create (Some ce) w1 = Some (Some e, w1') ∧ chttp_h2_hpack_create (Some cd) w2 = Some (Some d, w2') ∧
    hc_max_dynamic_table_bytes ce = hc_max_dynamic_table_bytes cd ∧ 0 <= hc_max_dynamic_table_bytes cd ∧
    hc_max_string_bytes ce <= hc_max_string_bytes cd.

Lemma create_shape c w h w' :
  chttp_h2_hpack_create (Some c) w = Some (Some h, w') →
  hc_max_dynamic_table_bytes c <= UINT32_MAX ∧ let max := hc_max_dynamic_table_bytes c in
    let table := MkTable [] 0 (max / 32) 0 max in
    h = MkHpack table table nodes max 0 0 false max (hc_max_header_block_bytes c) (hc_max_string_bytes c).
Proof.
  intros H. destruct (create_ok c w) as (h2 & w2 & E & Hh & _). rewrite H in E. injection E as <- <-. by destruct (Hh h eq_refl) as (? & _ & _ & ?).
Qed.

Lemma empty_table_ok max : 0 <= max <= UINT32_MAX → table_ok (MkTable [] 0 (max / 32) 0 max).
Proof.
  intros Hm. unfold UINT32_MAX in Hm. split; [split|]; cbn; try done.
  - apply Z.div_pos; lia.
  - apply Z.div_le_upper_bound; lia.
  - lia.
Qed.

Lemma fresh_pair_linked e d : fresh_pair e d → linked e d.
Proof.
  intros (ce & cd & w1 & w1' & w2 & w2' & [Hm1 ->]%create_shape & [Hm2 ->]%create_shape & Heq & H0 & Hs).
  cbn zeta. split; [split; [|done]| |split; cbn; [done|done]|]; cbn.
  - apply empty_table_ok. lia.
  - apply empty_table_ok. lia.
  - split; cbn; [done|]. rewrite Heq. lia.
Qed.

Lemma talk_linked s s' : talk s s' → linked s.1 s.2 → linked s'.1 s'.2.
Proof.
  intros [e d size w rc e' w' Hw Hle E|fresh fs e d b w e' b' w' bytes limit wd rc consumed d' calls wd' Hb Hm E Hb' Hblk Hlim Hsup Ed] Hl; cbn in *.
  - by eapply linked_resize.
  - destruct (linked_block fresh fs e d b w e' b' w' limit wd Hl Hb Hm E Hblk Hlim Hsup) as (bytes' & d2 & wd2 & Hh & Ed2 & Hl2 & _).
    destruct Hb' as [Hb' _ _ _], Hh as [Hh _ _ _]. rewrite Hb' in Hh. injection Hh as <-. rewrite Ed in Ed2. by injection Ed2 as _ _ -> _ _.
Qed.

(** C20. Header compression round trip. An encoder and a decoder are created for
    tables of one size and then used in any order of table limit changes and
    blocks. At every point the next block of headers that the encoder writes
    without an error, if it fits the decoder's block size, the limit of the
    call and the memory of the decoder, is read by the decoder completely and
    without an error, the callback gets exactly those headers in their order,
    and the tables of the two stay in step. *)
Theorem hpack_conversation e0 d0 e d fresh fs b w e' b' w' limit wd :
  fresh_pair e0 d0 → rtc talk (e0, d0) (e, d) →
  holds b [] → 0 < bu_max_capacity b →
  chttp_h2_hpack_encode fresh e b (header_of <$> fs) w = Some ((0, e', b'), w') →
  bu_size b' <= hp_max_header_block_bytes d → limit = 0 ∨ fields_size fs <= limit <= SIZE_MAX →
  supply (3 * (length fs + 2)) wd →
  ∃ bytes d' wd', holds b' bytes ∧
    chttp_h2_hpack_decode accept d bytes (blen bytes) limit wd = Some ((0, Some (blen bytes), d', fs), wd') ∧
    fields_of (hp_decoder d') = fields_of (hp_encoder e') ∧ dt_max_size (hp_decoder d') = dt_max_size (hp_encoder e').
Proof.
  intros Hf Hr Hb Hm E Hblk Hlim Hsup.
  assert (linked e d) as Hl.
  { remember (e0, d0) as s0 eqn:H0. remember (e, d) as s eqn:H1.
    assert (linked s0.1 s0.2) as H by (rewrite H0; by apply fresh_pair_linked). clear H0.
    assert (linked s.1 s.2) as Hl by (induction Hr; eauto using talk_linked). by rewrite H1 in Hl. }
  destruct (linked_block fresh fs e d b w e' b' w' limit wd Hl Hb Hm E Hblk Hlim Hsup) as (bytes & d2 & wd2 & Hh & Ed2 & _ & Hs).
  exists bytes, d2, wd2. split; [done|]. split; [done|]. exact Hs.
Qed.
