(* ===== verification/HpackExample.v ===== *)
(** * Header compression at work

    Concrete contexts and blocks: the theorems about header compression at
    them, and four behaviours that differ from the document the code follows. *)

From S2P Require Import Prelude World HpackTables Hpack HpackCodec HpackWire HpackTable HpackHuffman HpackSafe HpackSync HpackEncode HpackRoundtrip.
Local Open Scope Z_scope.

Module ExampleHpack.

(** A table of 100 bytes, blocks of 1000 bytes, strings of 100 bytes. *)
Definition config : chttp_h2_hpack_config := MkConfig 100 1000 100.
Definition blocks (n : nat) : world := MkWorld (replicate n (Some 1)) 0 0.
Definition zero_memory : Z → Z := λ _, 0.

Definition empty_context : chttp_h2_hpack :=
  let table := MkTable [] 0 0 0 0 in MkHpack table table [] 0 0 0 false 0 0 0.
Definition context : chttp_h2_hpack := Eval vm_compute in
  match chttp_h2_hpack_create (Some config) (blocks 8) with Some (Some h, _) => h | _ => empty_context end.
Definition buffer : chttp_h2_hpack_buffer := Eval vm_compute in
  match chttp_h2_hpack_buffer_init zero_memory 0 1000 (blocks 1) with Some ((_, Some b), _) => b | _ => MkBuffer [] 0 0 0 end.

(** [:method: GET], a header twice, and one that shares its name. *)
Definition headers : list field :=
  [([58; 109; 101; 116; 104; 111; 100], [71; 69; 84]); ([120; 121], [1; 2; 3]); ([120; 121], [1; 2; 3]); ([120; 121], [4])].

Definition sent : Z * chttp_h2_hpack * chttp_h2_hpack_buffer := Eval vm_compute in
  match chttp_h2_hpack_encode zero_memory context buffer (header_of <$> headers) (blocks 50) with
  | Some (r, _) => r | None => (-1, context, buffer) end.
Definition sent_world : world := Eval vm_compute in
  match chttp_h2_hpack_encode zero_memory context buffer (header_of <$> headers) (blocks 50) with
  | Some (_, w) => w | None => blocks 0 end.

Lemma created : ∃ w', chttp_h2_hpack_create (Some config) (blocks 8) = Some (Some context, w').
Proof. eexists. vm_compute. reflexivity. Qed.

Lemma pair : fresh_pair context context.
Proof.
  destruct created as [w' E]. exists config, config, (blocks 8), w', (blocks 8), w'. split; [exact E|]. split; [exact E|].
  split; [done|]. by_eval.
Qed.

Lemma buffer_empty : holds buffer [].
Proof. split; by_eval. Qed.

Lemma supplied k n : (k <= n)%nat → supply k (blocks n).
Proof.
  intros Hk. split; cbn; [by rewrite length_replicate|]. apply Forall_take, Forall_replicate. by eexists.
Qed.

Lemma encoding : chttp_h2_hpack_encode zero_memory context buffer (header_of <$> headers) (blocks 50)
  = Some ((0, sent.1.2, sent.2), sent_world).
Proof. vm_compute. reflexivity. Qed.

End ExampleHpack.

Import ExampleHpack.

Lemma hpack_conversation_witness :
  ∃ bytes d' wd', holds sent.2 bytes ∧
    chttp_h2_hpack_decode accept context bytes (blen bytes) 0 (blocks 50) = Some ((0, Some (blen bytes), d', headers), wd').
Proof.
  destruct (hpack_conversation context context context context zero_memory headers buffer (blocks 50) sent.1.2 sent.2 sent_world 0 (blocks 50)
    pair (rtc_refl _ _) buffer_empty ltac:(by_eval) encoding ltac:(by_eval) ltac:(by left) (supplied (3 * (length headers + 2)) 50 ltac:(cbn; lia)))
    as (bytes & d' & wd' & Hb & Hd & _). exists bytes, d', wd'. split; [exact Hb|exact Hd].
Defined.

Lemma context_decoder_ok : decoder_ok context.
Proof. split; [|by vm_compute|done|by_eval]. apply (empty_table_ok 100). by_eval. Qed.

(** A Huffman string that ends too early. *)
Lemma hpack_decode_safe_witness :
  ∃ rc consumed h' calls w',
    chttp_h2_hpack_decode (Some (λ _, 1)) context [65; 138; 255; 255] 4 0 (blocks 9) = Some ((rc, consumed, h', calls), w') ∧ rc = -1.
Proof.
  destruct (hpack_decode_safe (Some (λ _, 1)) context [65; 138; 255; 255] 0 (blocks 9) context_decoder_ok ltac:(by_eval) ltac:(done))
    as (rc & consumed & h' & calls & w' & E & _). exists rc, consumed, h', calls, w'. split; [exact E|].
  vm_compute in E. injection E as <- _. reflexivity.
Defined.

(** The string [www.example.com]. *)
Definition example_com : list Z := [241; 227; 194; 229; 242; 58; 107; 160; 171; 144; 244; 255].

Lemma hpack_huffman_exact_witness :
  ∃ s w', hpack_huff_decode context example_com (blocks 1) = Some (Some s, w') ∧ huffman example_com s.
Proof.
  assert (∃ t wb', huff_tree_build (blocks 7) = Some ((0, Some t), wb') ∧ hp_huff context = tr_nodes t) as (t & wb' & Hb & Hh).
  { destruct (huff_tree_build_ok (blocks 7)) as (rc & t & wb' & E & Hrc & _ & Hs). destruct (Hs 0%nat (supplied 7 7 ltac:(lia))) as [-> _].
    destruct Hrc as [[_ ->]|Hne]; [|discriminate Hne]. exists huff_tree, wb'. split; [exact E|]. rewrite nodes_tree. reflexivity. }
  destruct (hpack_huffman_exact (blocks 7) t wb' context example_com (blocks 1) Hb Hh ltac:(done)) as (r & w' & E & _ & Hs & _).
  destruct r as [s|]; [|vm_compute in E; discriminate E]. exists s, w'. split; [exact E|]. apply (Hs s eq_refl).
Defined.

Lemma hpack_encode_exact_witness :
  ∃ rc h' b' w', chttp_h2_hpack_encode zero_memory context buffer (header_of <$> take 3 headers) (blocks 50) = Some ((rc, h', b'), w') ∧ rc = 0.
Proof.
  assert (encoder_ok context) as Hok by (split; [apply (empty_table_ok 100); by_eval|done]).
  destruct (hpack_encode_exact zero_memory (take 3 headers) context buffer [] (blocks 50) [] 100 Hok ltac:(done) buffer_empty ltac:(by_eval))
    as (rc & h' & b' & w' & E & _ & _ & _ & _ & Hs). exists rc, h', b', w'. split; [exact E|]. apply Hs.
  - by_eval.
  - repeat constructor; by_eval.
  - left. by_eval.
  - by_eval.
  - apply supplied. cbn. lia.
Defined.

(** ** Differences *)

(** A header larger than the table leaves the table as it is, where the
    section of the format that the comment names empties the table. *)
Lemma oversized_entry_keeps_table t name value w :
  dt_max_size t < field_size (name, value) → field_size (name, value) <= SIZE_MAX → dyn_table_add t name value w = Some ((0, t), w).
Proof.
  unfold dyn_table_add, field_size. cbn [fst snd]. intros Hbig Hw. pose proof (blen_nonneg name). pose proof (blen_nonneg value).
  destruct (Z.ltb_spec (SIZE_MAX - blen value) (blen name)); [lia|].
  destruct (Z.ltb_spec (SIZE_MAX - 32) (blen name + blen value)); [lia|]. cbn [orb].
  destruct (Z.ltb_spec (dt_max_size t) (blen name + blen value + 32)); [done|lia].
Qed.

(** An integer of 2^32 + 127 is read as 127, not refused as an overflow. *)
Lemma integer_wraps : hpack_get_int [127; 128; 128; 128; 128; 16] 6 0 7 = Some (Some (127, 6)).
Proof. vm_compute. reflexivity. Qed.

(** Three entries of 33 bytes in a table of 100 bytes: a fourth is not made
    room for, the block is refused. *)
Lemma full_table_refuses :
  ∃ h b w, chttp_h2_hpack_encode zero_memory context buffer (header_of <$> [([1], []); ([2], []); ([3], []); ([4], [])]) (blocks 50)
    = Some ((-1, h, b), w).
Proof. eexists _, _, _. vm_compute. reflexivity. Qed.

(** When memory runs out while the tree grows, its nodes stay allocated. *)
Lemma create_leaks : ∃ w, chttp_h2_hpack_create (Some config) (blocks 5) = Some (None, w) ∧ w_blocks w = 1.
Proof. eexists. split; [vm_compute; reflexivity|reflexivity]. Qed.

(** With Huffman coding the flag lands on the first byte of the string, not on
    its length: what is written is not read back. No caller asks for it. *)
Lemma huffman_flag_misplaced :
  ∃ b w, hpack_put_string zero_memory buffer [97] 1 true (blocks 1) = Some ((0, b), w) ∧ slice (bu_data b) 0 (bu_size b) = Some [1; 159] ∧
    code_bits 97 = [0; 0; 0; 1; 1].
Proof. eexists _, _. vm_compute. done. Qed.
