(* ===== verification/Sequence.v ===== *)
(** * Storage of the sequence containers ([cstl/src/sequence_internal.h])

    Type descriptors and their traits ([cmeta/include/cmeta/cmeta.h],
    [type_traits.h]), the world the containers run in (the answers of
    [malloc], the blocks and the objects that are alive), aligned allocation,
    element copy, move and destruction, and the growth routine that [vec.c],
    [heap.c] and [deque.c] repeat. *)

From S2P Require Import Prelude World.
Local Open Scope Z_scope.

Inductive stl_status :=
  | STL_OK
  | STL_INVALID_ARGUMENT
  | STL_OUT_OF_MEMORY
  | STL_CAPACITY_EXCEEDED
  | STL_EMPTY
  | STL_NOT_FOUND
  | STL_TYPE_MISMATCH
  | STL_TRAIT_MISSING.

#[export] Instance stl_status_eq_dec : EqDecision stl_status.
Proof. solve_decision. Defined.

(** ** Types and traits *)

Inductive cmeta_status :=
  | CMETA_OK
  | CMETA_INVALID_ARGUMENT
  | CMETA_TYPE_MISMATCH
  | CMETA_TRAIT_MISSING
  | CMETA_CAPACITY_EXCEEDED
  | CMETA_OUT_OF_MEMORY
  | CMETA_CALLBACK_ERROR.

#[export] Instance cmeta_status_eq_dec : EqDecision cmeta_status.
Proof. solve_decision. Defined.

Definition CMETA_TRAIT_EQUAL : Z := 1.
Definition CMETA_TRAIT_HASH : Z := 2.
Definition CMETA_TRAIT_COMPARE : Z := 4.
Definition CMETA_TRAIT_COPY : Z := 8.
Definition CMETA_TRAIT_MOVE : Z := 16.
Definition CMETA_TRAIT_DESTROY : Z := 32.
Definition CMETA_TRAIT_MASK : Z := 255.

(** The callbacks of a type whose values are [V]; [None] is a null pointer.
    [copy_construct] yields what it writes when it succeeds, [move_construct]
    what the destination holds. *)
Record cmeta_type_traits (V : Type) := MkTraits {
  tr_flags : Z;
  tr_equal : option (V → V → bool);
  tr_hash : option (V → Z);
  tr_compare : option (V → V → Z);
  tr_copy_construct : option (V → option V);
  tr_move_construct : option (V → V);
  tr_destroy : bool
}.
#[global] Arguments MkTraits {V} _ _ _ _ _ _ _.
#[global] Arguments tr_flags {V} _.
#[global] Arguments tr_equal {V} _.
#[global] Arguments tr_hash {V} _.
#[global] Arguments tr_compare {V} _.
#[global] Arguments tr_copy_construct {V} _.
#[global] Arguments tr_move_construct {V} _.
#[global] Arguments tr_destroy {V} _.

(** The fields the containers read. *)
Record cmeta_type_desc (V : Type) := MkType {
  ty_size : Z;
  ty_align : Z;
  ty_traits : option (cmeta_type_traits V)
}.
#[global] Arguments MkType {V} _ _ _.
#[global] Arguments ty_size {V} _.
#[global] Arguments ty_align {V} _.
#[global] Arguments ty_traits {V} _.

Definition cmeta_type_require_traits {V} (type : option (cmeta_type_desc V)) (required : Z) :
    cmeta_status :=
  let asks flag := negb (Z.land required flag =? 0) in
  match type with
  | None => CMETA_INVALID_ARGUMENT
  | Some t =>
      if negb (Z.land required CMETA_TRAIT_MASK =? required) then CMETA_INVALID_ARGUMENT else
      if required =? 0 then CMETA_OK else
      match ty_traits t with
      | None => CMETA_TRAIT_MISSING
      | Some traits =>
          if negb (Z.land (tr_flags traits) required =? required) then CMETA_TRAIT_MISSING else
          if asks CMETA_TRAIT_EQUAL && is_null (tr_equal traits) then CMETA_TRAIT_MISSING else
          if asks CMETA_TRAIT_HASH && is_null (tr_hash traits) then CMETA_TRAIT_MISSING else
          if asks CMETA_TRAIT_COMPARE && is_null (tr_compare traits) then CMETA_TRAIT_MISSING else
          if asks CMETA_TRAIT_COPY && is_null (tr_copy_construct traits) then CMETA_TRAIT_MISSING else
          if asks CMETA_TRAIT_MOVE && is_null (tr_move_construct traits) then CMETA_TRAIT_MISSING else
          if asks CMETA_TRAIT_DESTROY && negb (tr_destroy traits) then CMETA_TRAIT_MISSING else
          CMETA_OK
      end
  end.

(** ** Sizes *)

Definition sequence_alignment_valid (alignment : Z) : bool :=
  negb (alignment =? 0) && (Z.land alignment (u64 (alignment - 1)) =? 0).

Definition sequence_stride (elem_size elem_align : Z) : stl_status * option Z :=
  if (elem_size =? 0) || negb (sequence_alignment_valid elem_align) then (STL_INVALID_ARGUMENT, None) else
  let padding := elem_align - 1 in
  if SIZE_MAX - padding <? elem_size then (STL_CAPACITY_EXCEEDED, None) else
  (STL_OK, Some (Z.land (u64 (elem_size + padding)) (u64 (Z.lnot padding)))).

Definition sequence_bytes (count stride : Z) : stl_status * option Z :=
  if negb (count =? 0) && (SIZE_MAX / count <? stride) then (STL_CAPACITY_EXCEEDED, None) else
  (STL_OK, Some (u64 (count * stride))).

Definition sizeof_ptr : Z := 8.

(** The status and the data pointer ([None] is [NULL]). *)
Definition sequence_allocate (count stride alignment : Z) : M (stl_status * option Z) :=
  if negb (sequence_alignment_valid alignment) then mret (STL_INVALID_ARGUMENT, None) else
  match sequence_bytes count stride with
  | (STL_OK, Some bytes) =>
      if bytes =? 0 then mret (STL_OK, None) else
      if SIZE_MAX - sizeof_ptr <? alignment - 1 then mret (STL_CAPACITY_EXCEEDED, None) else
      let overhead := u64 (sizeof_ptr + alignment - 1) in
      if SIZE_MAX - overhead <? bytes then mret (STL_CAPACITY_EXCEEDED, None) else
      raw ← malloc;
      match raw with
      | None => mret (STL_OUT_OF_MEMORY, None)
      | Some raw =>
          let address := u64 (raw + sizeof_ptr) in
          if UINT64_MAX - (alignment - 1) <? address
          then _ ← mfree; mret (STL_CAPACITY_EXCEEDED, None)
          else mret (STL_OK, Some (Z.land (u64 (address + alignment - 1)) (u64 (Z.lnot (alignment - 1)))))
      end
  | _ => mret (STL_CAPACITY_EXCEEDED, None)
  end.

Definition sequence_deallocate (data : option Z) : M unit :=
  match data with None => mret tt | Some _ => mfree end.

(** ** Elements *)

Definition sequence_require_type {V} (type : option (cmeta_type_desc V)) (require_compare : bool) :
    stl_status :=
  let required := Z.lor (Z.lor CMETA_TRAIT_COPY CMETA_TRAIT_MOVE) CMETA_TRAIT_DESTROY in
  match type with
  | None => STL_INVALID_ARGUMENT
  | Some t =>
      if (ty_size t =? 0) || negb (sequence_alignment_valid (ty_align t)) then STL_INVALID_ARGUMENT else
      let required := if require_compare then Z.lor required CMETA_TRAIT_COMPARE else required in
      if bool_decide (cmeta_type_require_traits type required = CMETA_OK)
      then STL_OK else STL_TRAIT_MISSING
  end.

(** Memory for one element: [None] while it holds no value. *)
Abbreviation slot := option (only parsing).

Section Elements.
Context {V : Type}.
Implicit Types (type : option (cmeta_type_desc V)).

Definition trait_callback {A} type (f : cmeta_type_traits V → option A) : M A :=
  lift (t ← type; tr ← ty_traits t; f tr).

(** The new destination; a pointer that is [NULL] is [None]. *)
Definition sequence_copy type (destination source : option (slot V)) :
    M (stl_status * option (slot V)) :=
  match destination, source with
  | Some dst, Some src =>
      match type with
      | None => mret (STL_OK, Some src)
      | Some _ =>
          if negb (bool_decide (cmeta_type_require_traits type CMETA_TRAIT_COPY = CMETA_OK))
          then mret (STL_TRAIT_MISSING, destination) else
          copy_construct ← trait_callback type tr_copy_construct;
          v ← lift src;
          match copy_construct v with
          | Some c => _ ← count_object 1; mret (STL_OK, Some (Some c))
          | None => mret (STL_OUT_OF_MEMORY, destination)
          end
      end
  | _, _ => mret (STL_INVALID_ARGUMENT, destination)
  end.

(** The new destination and source. *)
Definition sequence_move_destroy type (destination source : option (slot V)) :
    M (stl_status * option (slot V) * option (slot V)) :=
  match destination, source with
  | Some dst, Some src =>
      match type with
      | None => mret (STL_OK, Some src, source)
      | Some _ =>
          if negb (bool_decide (cmeta_type_require_traits type
                     (Z.lor CMETA_TRAIT_MOVE CMETA_TRAIT_DESTROY) = CMETA_OK))
          then mret (STL_TRAIT_MISSING, destination, source) else
          move_construct ← trait_callback type tr_move_construct;
          v ← lift src;
          _ ← count_object 1;
          _ ← count_object (-1);
          mret (STL_OK, Some (Some (move_construct v)), Some None)
      end
  | _, _ => mret (STL_INVALID_ARGUMENT, destination, source)
  end.

(** The slot afterwards. *)
Definition sequence_destroy_value type (value : option (slot V)) :
    M (stl_status * option (slot V)) :=
  match value, type with
  | Some s, Some _ =>
      if negb (bool_decide (cmeta_type_require_traits type CMETA_TRAIT_DESTROY = CMETA_OK))
      then mret (STL_TRAIT_MISSING, value) else
      _ ← lift s;
      _ ← count_object (-1);
      mret (STL_OK, Some None)
  | _, _ => mret (STL_OK, value)
  end.
End Elements.

(** ** The container record and its growth *)

(** The fields of [vec_t], which [heap_t] and [deque_t] extend. [data] is the
    pointer and [slots] the memory it points to, one entry per capacity. *)
Record storage (V : Type) := MkStorage {
  st_data : option Z;
  st_slots : list (slot V);
  st_size : Z;
  st_capacity : Z;
  elem_size : Z;
  elem_stride : Z;
  elem_align : Z;
  element_limit : Z;
  element_type : option (cmeta_type_desc V);
  generation : Z;
  initialized : bool
}.
#[global] Arguments MkStorage {V} _ _ _ _ _ _ _ _ _ _ _.
#[global] Arguments st_data {V} _.
#[global] Arguments st_slots {V} _.
#[global] Arguments st_size {V} _.
#[global] Arguments st_capacity {V} _.
#[global] Arguments elem_size {V} _.
#[global] Arguments elem_stride {V} _.
#[global] Arguments elem_align {V} _.
#[global] Arguments element_limit {V} _.
#[global] Arguments element_type {V} _.
#[global] Arguments generation {V} _.
#[global] Arguments initialized {V} _.

Definition SEQUENCE_MIN_CAPACITY : Z := 8.

(** The doubling loop; [None] when [fuel] runs out. *)
Fixpoint next_capacity_loop (fuel : nat) (limit minimum capacity : Z) : option Z :=
  match fuel with
  | O => None
  | S fuel =>
      if minimum <=? capacity then Some capacity else
      if limit - capacity <? capacity then Some limit
      else next_capacity_loop fuel limit minimum (capacity * 2)
  end.

Section Storage.
Context {V : Type}.
Implicit Types (s : storage V).

(** [memset(s, 0, sizeof)] and the generation. *)
Definition storage_zero (gen : Z) : storage V :=
  MkStorage None [] 0 0 0 0 0 0 None gen false.

Definition set_slots s (l : list (slot V)) : storage V :=
  MkStorage (st_data s) l (st_size s) (st_capacity s) (elem_size s) (elem_stride s) (elem_align s)
    (element_limit s) (element_type s) (generation s) (initialized s).

Definition set_size s (n : Z) : storage V :=
  MkStorage (st_data s) (st_slots s) n (st_capacity s) (elem_size s) (elem_stride s) (elem_align s)
    (element_limit s) (element_type s) (generation s) (initialized s).

Definition set_block s (data : option Z) (l : list (slot V)) (capacity : Z) : storage V :=
  MkStorage data l (st_size s) capacity (elem_size s) (elem_stride s) (elem_align s)
    (element_limit s) (element_type s) (generation s) (initialized s).

(** [++s->generation]. *)
Definition bump s : storage V :=
  MkStorage (st_data s) (st_slots s) (st_size s) (st_capacity s) (elem_size s) (elem_stride s)
    (elem_align s) (element_limit s) (element_type s) (u64 (generation s + 1)) (initialized s).

Definition next_capacity s (minimum : Z) : option (stl_status * Z) :=
  if element_limit s <? minimum then Some (STL_CAPACITY_EXCEEDED, 0) else
  let capacity := if st_capacity s =? 0 then SEQUENCE_MIN_CAPACITY else st_capacity s in
  let capacity := if element_limit s <? capacity then element_limit s else capacity in
  c ← next_capacity_loop 65 (element_limit s) minimum capacity;
  Some (STL_OK, c).

(** Element [index] of [from] moves to the new block, for the last [n]
    indices below the size. *)
Fixpoint relocate (type : option (cmeta_type_desc V)) (n : nat) (index : Z)
    (data from : list (slot V)) : M (stl_status * list (slot V) * list (slot V)) :=
  match n with
  | O => mret (STL_OK, data, from)
  | S n =>
      dst ← lift (aget data index);
      src ← lift (aget from index);
      '(status, dst, src) ← sequence_move_destroy type (Some dst) (Some src);
      if negb (bool_decide (status = STL_OK)) then mret (status, data, from) else
      dst ← lift dst; src ← lift src;
      data ← lift (aset data index dst);
      from ← lift (aset from index src);
      relocate type n (index + 1) data from
  end.

(** The status, [changed] and the container. *)
Definition grow_to (valid : bool) s (minimum : Z) : M (stl_status * bool * storage V) :=
  if negb valid then mret (STL_INVALID_ARGUMENT, false, s) else
  if minimum <=? st_capacity s then mret (STL_OK, false, s) else
  '(status, capacity) ← lift (next_capacity s minimum);
  if negb (bool_decide (status = STL_OK)) then mret (status, false, s) else
  '(status, data) ← sequence_allocate capacity (elem_stride s) (elem_align s);
  if negb (bool_decide (status = STL_OK)) then mret (status, false, s) else
  let fresh := replicate (Z.to_nat capacity) None in
  match element_type s with
  | None =>
      (* memcpy of the first [size] elements *)
      slots ← lift (if bool_decide (0 <= st_size s <= alen (st_slots s) ∧ st_size s <= capacity)
                    then Some (take (Z.to_nat (st_size s)) (st_slots s) ++
                               drop (Z.to_nat (st_size s)) fresh) else None);
      _ ← sequence_deallocate (st_data s);
      mret (STL_OK, true, set_block s data slots capacity)
  | Some _ =>
      '(status, slots, from) ← relocate (element_type s) (Z.to_nat (st_size s)) 0 fresh (st_slots s);
      if negb (bool_decide (status = STL_OK))
      then _ ← sequence_deallocate data; mret (status, false, set_slots s from)
      else _ ← sequence_deallocate (st_data s);
           mret (STL_OK, true, set_block s data slots capacity)
  end.

(** The copy that is made before anything changes: its pointer and value. *)
Definition prepare_copy s (elem : option V) : M (stl_status * option Z * slot V) :=
  match elem with
  | None => mret (STL_INVALID_ARGUMENT, None, None)
  | Some v =>
      '(status, value) ← sequence_allocate 1 (elem_stride s) (elem_align s);
      if negb (bool_decide (status = STL_OK)) then mret (status, value, None) else
      '(status, copy) ← sequence_copy (element_type s) (if is_null value then None else Some None) (Some (Some v));
      if negb (bool_decide (status = STL_OK))
      then _ ← sequence_deallocate value; mret (status, None, None)
      else copy ← lift copy; mret (STL_OK, value, copy)
  end.

Definition discard_prepared s (value : option Z) (v : slot V) : M unit :=
  match value with
  | None => mret tt
  | Some _ =>
      _ ← sequence_destroy_value (element_type s) (Some v);
      sequence_deallocate value
  end.

(** [sequence_destroy_value] on the first [n] elements from [index]. *)
Fixpoint destroy_range (type : option (cmeta_type_desc V)) (n : nat) (index : Z)
    (l : list (slot V)) : M (stl_status * list (slot V)) :=
  match n with
  | O => mret (STL_OK, l)
  | S n =>
      x ← lift (aget l index);
      '(status, x) ← sequence_destroy_value type (Some x);
      if negb (bool_decide (status = STL_OK)) then mret (status, l) else
      x ← lift x;
      l ← lift (aset l index x);
      destroy_range type n (index + 1) l
  end.
End Storage.

(** ** Sizes and alignment *)

Lemma alignment_valid_pow2 a :
  is_u64 a → sequence_alignment_valid a = true ↔ ∃ k, 0 <= k < 64 ∧ a = 2 ^ k.
Proof.
  intros Ha. unfold sequence_alignment_valid. rewrite andb_true_iff, negb_true_iff, Z.eqb_neq, Z.eqb_eq.
  split.
  - intros [H0 H]. apply pow2_test; [unfold_words; lia|done].
  - intros (k & Hk & ->). pose proof (Z.pow_pos_nonneg 2 k). split; [lia|].
    apply pow2_test; [unfold_words; lia|by exists k].
Qed.

Lemma pow2_bounds k : 0 <= k < 64 → 1 <= 2 ^ k <= 2 ^ 63.
Proof. intros Hk. split; [pose proof (Z.pow_pos_nonneg 2 k); lia|apply Z.pow_le_mono_r; lia]. Qed.

(** [sequence_stride] rejects exactly the empty elements, the alignments
    that are no power of two and the sizes that overflow; otherwise the stride
    is the least multiple of the alignment that holds an element. *)
Theorem sequence_stride_exact elem_size elem_align :
  is_u64 elem_size → is_u64 elem_align →
  let pow2 := ∃ k, 0 <= k < 64 ∧ elem_align = 2 ^ k in
  (elem_size = 0 ∨ ¬ pow2 → sequence_stride elem_size elem_align = (STL_INVALID_ARGUMENT, None)) ∧
  (elem_size ≠ 0 → pow2 →
     if SIZE_MAX - (elem_align - 1) <? elem_size
     then sequence_stride elem_size elem_align = (STL_CAPACITY_EXCEEDED, None)
     else sequence_stride elem_size elem_align = (STL_OK, Some (round_up elem_size elem_align)) ∧
          elem_size <= round_up elem_size elem_align < elem_size + elem_align).
Proof.
  intros Hs Ha pow2. pose proof (alignment_valid_pow2 elem_align Ha) as Hv. fold pow2 in Hv.
  unfold sequence_stride. split.
  - intros [->|Hn]; [done|].
    destruct (sequence_alignment_valid elem_align); [by destruct Hn; apply Hv|]. by rewrite orb_true_r.
  - intros H0 Hp. rewrite (proj2 Hv Hp), (proj2 (Z.eqb_neq _ _) H0). cbn [negb orb].
    destruct Hp as (k & Hk & ->). pose proof (pow2_bounds k Hk).
    case Z.ltb_spec; intros Hover; [done|].
    destruct (align_up elem_size k) as (q & -> & Hq); [done|done|lia|].
    rewrite (round_up_unique _ _ q) by lia. split; [done|lia].
Qed.

Lemma sequence_stride_exact_witness : sequence_stride 12 8 = (STL_OK, Some 16).
Proof.
  destruct (sequence_stride_exact 12 8) as [_ H]; [by_eval|by_eval|].
  apply H; [lia|exists 3; lia].
Defined.

Lemma sequence_bytes_spec count stride :
  0 <= count <= SIZE_MAX → 0 <= stride <= SIZE_MAX →
  sequence_bytes count stride =
    if count * stride <=? SIZE_MAX then (STL_OK, Some (count * stride)) else (STL_CAPACITY_EXCEEDED, None).
Proof.
  intros Hc Hs. unfold sequence_bytes.
  destruct (Z.eqb_spec count 0) as [->|H0]; cbn [negb andb]; [done|].
  destruct (Z.ltb_spec (SIZE_MAX / count) stride) as [Hlt|Hge]; destruct (Z.leb_spec (count * stride) SIZE_MAX) as [Hle|Hgt];
    [|done| |].
  - exfalso. assert (stride <= SIZE_MAX / count); [|lia]. apply Z.div_le_lower_bound; lia.
  - rewrite u64_id; [done|]. unfold is_u64, SIZE_MAX in *. nia.
  - exfalso. pose proof (Z.mul_div_le SIZE_MAX count). nia.
Qed.

Definition overhead (alignment : Z) : Z := sizeof_ptr + alignment - 1.

(** [sequence_allocate] on every branch: a request whose size overflows is
    refused before [malloc] is called, an empty one needs no memory, a failed
    [malloc] is reported; otherwise the block has room for the back pointer in
    front of the data and the data, which is aligned, lies inside the block. *)
Theorem sequence_allocate_exact count stride k w (alignment := 2 ^ k) :
  is_u64 count → is_u64 stride → 0 <= k < 64 →
  (∀ raw l, w_malloc w = Some raw :: l →
     0 < raw ∧ raw + count * stride + overhead alignment <= UINT64_MAX) →
  let bytes := count * stride in
  if bytes =? 0 then sequence_allocate count stride alignment w = Some ((STL_OK, None), w)
  else if SIZE_MAX <? bytes + overhead alignment
  then sequence_allocate count stride alignment w = Some ((STL_CAPACITY_EXCEEDED, None), w)
  else ∃ st p w', sequence_allocate count stride alignment w = Some ((st, p), w') ∧
    w_malloc w' = tail (w_malloc w) ∧ w_objects w' = w_objects w ∧
    match w_malloc w with
    | Some raw :: _ => ∃ a, st = STL_OK ∧ p = Some a ∧ (alignment | a) ∧
        raw + sizeof_ptr <= a ∧ a + bytes <= raw + (bytes + overhead alignment) ∧
        w_blocks w' = w_blocks w + 1
    | _ => st = STL_OUT_OF_MEMORY ∧ p = None ∧ w_blocks w' = w_blocks w
    end.
Proof.
  intros Hc Hs Hk Hraw bytes. pose proof (pow2_bounds k Hk) as Hpow. change (2 ^ 63) with 9223372036854775808 in Hpow.
  assert (sequence_alignment_valid alignment = true) as Hv
    by (apply alignment_valid_pow2; [unfold alignment, is_u64; unfold_words; lia|by exists k]).
  assert (is_u64 (overhead alignment)) as Hov by (unfold overhead, sizeof_ptr, alignment; unfold_words; lia).
  unfold sequence_allocate. rewrite Hv, sequence_bytes_spec by done. cbn [negb].
  fold bytes. assert (0 <= bytes) by (unfold_words; nia).
  destruct (Z.eqb_spec bytes 0) as [->|Hb0]; [done|].
  destruct (Z.ltb_spec SIZE_MAX (bytes + overhead alignment)) as [Hbig|Hfit].
  - destruct (Z.leb_spec bytes SIZE_MAX); [|done].
    rewrite (proj2 (Z.eqb_neq _ _) Hb0).
    rewrite (proj2 (Z.ltb_ge _ _)) by (unfold sizeof_ptr, alignment; unfold_words; lia).
    fold (overhead alignment). rewrite u64_id by done. by rewrite (proj2 (Z.ltb_lt _ _)) by lia.
  - rewrite (proj2 (Z.leb_le _ _)) by (unfold is_u64 in Hov; lia). rewrite (proj2 (Z.eqb_neq _ _) Hb0).
    rewrite (proj2 (Z.ltb_ge _ _)) by (unfold sizeof_ptr, alignment; unfold_words; lia).
    fold (overhead alignment). rewrite u64_id by done. rewrite (proj2 (Z.ltb_ge _ _)) by lia.
    unfold mbind, M_bind, malloc. destruct (w_malloc w) as [|[raw|] l] eqn:Hw.
    + do 3 eexists. split; [done|]. by rewrite Hw.
    + destruct (Hraw raw l eq_refl) as [Hr1 Hr2]. fold bytes in Hr2.
      unfold overhead, sizeof_ptr in *. rewrite u64_id by (unfold_words; lia).
      rewrite (proj2 (Z.ltb_ge _ _)) by (unfold_words; lia).
      replace (raw + 8 + alignment - 1) with (raw + 8 + (alignment - 1)) by lia.
      destruct (align_up (raw + 8) k) as (q & Hq & Hq2); [done|unfold_words; lia|fold alignment; unfold_words; lia|].
      fold alignment in Hq, Hq2. rewrite Hq. do 3 eexists. split; [done|]. split_and!; try done.
      eexists. split_and!; try done; [by exists q|lia|lia].
    + by do 3 eexists.
Qed.

Lemma sequence_allocate_exact_witness :
  ∃ st p w', sequence_allocate 3 8 16 (MkWorld [Some 4097] 0 0) = Some ((st, p), w').
Proof.
  pose proof (sequence_allocate_exact 3 8 4 (MkWorld [Some 4097] 0 0)) as H.
  destruct H as (st & p & w' & E & _); [by_eval|by_eval|lia| |by exists st, p, w'].
  intros raw l [= <- <-]. unfold overhead, sizeof_ptr. unfold_words. lia.
Defined.

(** ** Element types *)

(** A byte container, or a type with the traits the containers require whose
    copies and moves preserve the value. *)
Definition type_ok {V} (type : option (cmeta_type_desc V)) : Prop :=
  match type with
  | None => True
  | Some t => ∃ tr copy move, ty_traits t = Some tr ∧
      Z.land (tr_flags tr) 56 = 56 ∧ tr_destroy tr = true ∧
      tr_copy_construct tr = Some copy ∧ tr_move_construct tr = Some move ∧
      (∀ v c, copy v = Some c → c = v) ∧ ∀ v, move v = v
  end.

(** Whether [copy_construct] succeeds on [v]. *)
Definition copyable {V} (type : option (cmeta_type_desc V)) (v : V) : Prop :=
  match type with
  | None => True
  | Some t => ∃ tr copy, ty_traits t = Some tr ∧ tr_copy_construct tr = Some copy ∧ is_Some (copy v)
  end.

(** Objects of a typed container are counted, bytes are not. *)
Definition owned {V} (type : option (cmeta_type_desc V)) : Z := if is_null type then 0 else 1.

Lemma land_submask f a b : Z.land f a = a → Z.land a b = b → Z.land f b = b.
Proof. intros Ha Hb. rewrite <-Hb at 1. rewrite Z.land_assoc, Ha. done. Qed.

Lemma type_ok_requires {V} (type : option (cmeta_type_desc V)) required :
  type_ok type → type ≠ None → required ∈ [8; 32; 48; 56] →
  cmeta_type_require_traits type required = CMETA_OK.
Proof.
  intros Hok Hne Hin. destruct type as [t|]; [|done].
  destruct Hok as (tr & copy & move & Htr & Hfl & Hd & Hc & Hm & _).
  unfold cmeta_type_require_traits. rewrite Htr, Hd, Hc, Hm.
  assert (Z.land (tr_flags tr) required = required) as ->.
  { apply (land_submask _ 56); [done|]. set_unfold in Hin. by destruct_or! Hin; subst. }
  rewrite Z.eqb_refl. set_unfold in Hin. by destruct_or! Hin; subst.
Qed.

Lemma require_type_ok {V} (type : option (cmeta_type_desc V)) b :
  sequence_require_type type b = STL_OK → ∃ t tr, type = Some t ∧ ty_traits t = Some tr ∧
    Z.land (tr_flags tr) 56 = 56 ∧ tr_destroy tr = true ∧
    is_Some (tr_copy_construct tr) ∧ is_Some (tr_move_construct tr) ∧
    (b = true → is_Some (tr_compare tr)).
Proof.
  unfold sequence_require_type. destruct type as [t|]; [|done].
  destruct (_ || _); [done|]. case_bool_decide as Hreq; [|done]. intros _.
  unfold cmeta_type_require_traits in Hreq. destruct (ty_traits t) as [tr|] eqn:Htr.
  - exists t, tr. split; [done|]. split; [done|].
    destruct b; simpl in Hreq; (destruct (Z.land (tr_flags tr) _ =? _) eqn:Ef; [|done]);
      apply Z.eqb_eq in Ef; simpl in Hreq;
      destruct (tr_compare tr), (tr_copy_construct tr), (tr_move_construct tr), (tr_destroy tr);
      try done; (split_and!; try done; by apply (land_submask _ _ 56 Ef)).
  - destruct b; done.
Qed.

(** ** Steps of a container in the world *)

Definition w_same (w w' : world) : Prop := w_blocks w' = w_blocks w ∧ w_objects w' = w_objects w.

(** The next [n] calls of [malloc] give usable blocks. *)
Definition mallocs (n : nat) (alignment : Z) (w : world) : Prop :=
  ∃ ps l, w_malloc w = map Some ps ++ l ∧ length ps = n ∧
    Forall (λ p, 0 <= p ∧ p + overhead alignment <= UINT64_MAX) ps.

Lemma mallocs_le n m alignment w : (m <= n)%nat → mallocs n alignment w → mallocs m alignment w.
Proof.
  intros Hm (ps & l & Hw & Hl & Hp). exists (take m ps), (map Some (drop m ps) ++ l). split_and!.
  - rewrite app_assoc, <-map_app, take_drop. done.
  - rewrite length_take. lia.
  - by apply Forall_take.
Qed.

Lemma allocate_cases count stride alignment w :
  0 < count <= SIZE_MAX → 0 < stride <= SIZE_MAX → is_u64 alignment →
  sequence_alignment_valid alignment = true →
  ∃ st p w', sequence_allocate count stride alignment w = Some ((st, p), w') ∧
    w_objects w' = w_objects w ∧
    (if bool_decide (st = STL_OK) then is_Some p ∧ w_blocks w' = w_blocks w + 1
     else p = None ∧ w_blocks w' = w_blocks w) ∧
    ∀ n, mallocs (S n) alignment w → count * stride + overhead alignment <= SIZE_MAX →
      st = STL_OK ∧ mallocs n alignment w'.
Proof.
  intros Hc Hs Ha Hv. unfold sequence_allocate. rewrite Hv, sequence_bytes_spec by lia. cbn [negb].
  assert (0 < alignment) by (unfold sequence_alignment_valid in Hv; unfold is_u64 in Ha;
    destruct (Z.eqb_spec alignment 0); [done|lia]).
  assert (∀ st, st ≠ STL_OK → (count * stride + overhead alignment <= SIZE_MAX → False) →
    ∃ st' p w', mret (M := M) (st, None) w = Some ((st', p : option Z), w') ∧ w_objects w' = w_objects w ∧
    (if bool_decide (st' = STL_OK) then is_Some p ∧ w_blocks w' = w_blocks w + 1
     else p = None ∧ w_blocks w' = w_blocks w) ∧
    ∀ n, mallocs (S n) alignment w → count * stride + overhead alignment <= SIZE_MAX →
      st' = STL_OK ∧ mallocs n alignment w') as Hfail.
  { intros st Hne Hno. exists st, None, w. rewrite bool_decide_false by done. split_and!; try done. }
  assert (0 < overhead alignment) by (unfold overhead, sizeof_ptr; lia).
  destruct (Z.leb_spec (count * stride) SIZE_MAX); [|apply Hfail; [done|lia]].
  assert (0 < count * stride) by nia. rewrite (proj2 (Z.eqb_neq _ _)) by lia.
  destruct (Z.ltb_spec (SIZE_MAX - sizeof_ptr) (alignment - 1));
    [apply Hfail; [done|unfold overhead; lia]|].
  fold (overhead alignment). rewrite u64_id by (unfold overhead, sizeof_ptr in *; unfold_words; lia).
  destruct (Z.ltb_spec (SIZE_MAX - overhead alignment) (count * stride)); [apply Hfail; [done|lia]|].
  unfold mbind, M_bind, malloc. clear Hfail. destruct (w_malloc w) as [|[raw|] l] eqn:Hw.
  - exists STL_OUT_OF_MEMORY, None, w. split_and!; try done.
    intros n (ps & l & Hps & Hlen & _). rewrite Hw in Hps. by destruct ps.
  - destruct (UINT64_MAX - (alignment - 1) <? u64 (raw + sizeof_ptr)) eqn:Hbig.
    + do 3 eexists. split; [done|]. split_and!; try done;
        [rewrite bool_decide_false by done; split; [done|simpl; lia]|].
      intros n (ps & l' & Hps & Hlen & Hps'). destruct ps as [|p ps]; [done|]. rewrite Hw in Hps.
      injection Hps as -> ->. apply Forall_cons in Hps' as [[? ?] _]. apply Z.ltb_lt in Hbig.
      unfold overhead, sizeof_ptr in *. rewrite u64_id in Hbig by (unfold_words; lia). lia.
    + do 3 eexists. split; [done|]. split_and!; try done.
      intros n (ps & l' & Hps & Hlen & Hps') _. destruct ps as [|p ps]; [done|]. rewrite Hw in Hps.
      injection Hps as -> ->. apply Forall_cons in Hps' as [_ Hps']. split; [done|].
      exists ps, l'. split_and!; try done. simpl in Hlen. lia.
  - do 3 eexists. split; [done|]. split_and!; try done.
    intros n (ps & l' & Hps & Hlen & _). rewrite Hw in Hps. destruct ps; [done|by simplify_eq].
Qed.

Lemma callback_run {V A} (type : option (cmeta_type_desc V)) (f : cmeta_type_traits V → option A) t tr x w :
  type = Some t → ty_traits t = Some tr → f tr = Some x → trait_callback type f w = Some (x, w).
Proof. intros -> Ht Hf. unfold trait_callback. cbn. rewrite Ht. cbn. by rewrite Hf. Qed.

Section ElementLemmas.
Context {V : Type} (type : option (cmeta_type_desc V)).
Hypothesis Hok : type_ok type.

Lemma copy_cases v w :
  ∃ st d w', sequence_copy type (Some None) (Some (Some v)) w = Some ((st, d), w') ∧
    w_malloc w' = w_malloc w ∧ w_blocks w' = w_blocks w ∧
    (if bool_decide (st = STL_OK) then d = Some (Some v) ∧ w_objects w' = w_objects w + owned type
     else d = Some None ∧ w_objects w' = w_objects w) ∧
    (copyable type v → st = STL_OK).
Proof.
  unfold sequence_copy. destruct type as [t|] eqn:Et.
  - rewrite type_ok_requires by (done || by_eval). rewrite bool_decide_true by done. cbn [negb].
    destruct Hok as (tr & copy & move & Htr & _ & _ & Hc & _ & Hcv & _). rewrite <-Et.
    wstep (callback_run type tr_copy_construct t tr copy w Et Htr Hc). wrun.
    destruct (copy v) as [c|] eqn:Ec.
    + apply Hcv in Ec as ->. do 3 eexists. split; [done|]. rewrite Et. by split_and!.
    + do 3 eexists. split; [done|]. split_and!; try done. rewrite Et.
      intros (tr' & copy' & E1 & E2 & [x E3]). simplify_eq.
  - do 3 eexists. split; [done|]. split_and!; try done. split; [done|]. unfold owned. simpl. lia.
Qed.

Lemma move_ok d v w :
  sequence_move_destroy type (Some d) (Some (Some v)) w =
    Some ((STL_OK, Some (Some v), Some (if is_null type then Some v else None)), w).
Proof.
  unfold sequence_move_destroy. destruct type as [t|] eqn:Et; [|done].
  rewrite type_ok_requires by (done || by_eval). rewrite bool_decide_true by done. cbn [negb].
  destruct Hok as (tr & copy & move & Htr & _ & _ & _ & Hm & _ & Hmv). rewrite <-Et at 1.
  wstep (callback_run type tr_move_construct t tr move w Et Htr Hm). wrun. rewrite Hmv.
  destruct w as [m b o]. cbn. by replace (o + 1 + -1) with o by lia.
Qed.

Lemma destroy_ok v w :
  ∃ w', sequence_destroy_value type (Some (Some v)) w =
    Some ((STL_OK, Some (if is_null type then Some v else None)), w') ∧
    w_malloc w' = w_malloc w ∧ w_blocks w' = w_blocks w ∧ w_objects w' = w_objects w - owned type.
Proof.
  unfold sequence_destroy_value. destruct type as [t|] eqn:Et.
  - rewrite type_ok_requires by (done || by_eval). rewrite bool_decide_true by done. cbn [negb].
    wrun. eexists. split; [done|]. done.
  - eexists. split; [done|]. split_and!; try done. unfold owned. simpl. lia.
Qed.
End ElementLemmas.

(** ** What a container keeps *)

Record storage_ok {V} (s : storage V) : Prop := {
  so_init : initialized s = true;
  so_elem : elem_size s ≠ 0;
  so_stride : 0 < elem_stride s <= SIZE_MAX;
  so_align : is_u64 (elem_align s) ∧ sequence_alignment_valid (elem_align s) = true;
  so_limit : element_limit s <= SIZE_MAX;
  so_type : type_ok (element_type s);
  so_slots : alen (st_slots s) = st_capacity s;
  so_size : 0 <= st_size s <= st_capacity s;
  so_capacity : st_capacity s <= element_limit s;
  so_data : st_data s = None ↔ st_capacity s = 0
}.

(** The elements [xs] are at the front; the memory behind them holds no
    objects. *)
Definition holds {V} (s : storage V) (xs : list V) : Prop :=
  st_size s = alen xs ∧ ∃ tl, st_slots s = map Some xs ++ tl ∧
    (element_type s ≠ None → Forall (λ x, x = None) tl).

(** Blocks a container owns. *)
Definition blocks_of {V} (s : storage V) : Z := if is_null (st_data s) then 0 else 1.

(** The largest block the limit allows can be asked for. *)
Definition roomy {V} (s : storage V) : Prop :=
  element_limit s * elem_stride s + overhead (elem_align s) <= SIZE_MAX.

(** The fields no operation on a live container changes. *)
Definition same_params {V} (s s' : storage V) : Prop :=
  elem_size s' = elem_size s ∧ elem_stride s' = elem_stride s ∧ elem_align s' = elem_align s ∧
  element_limit s' = element_limit s ∧ element_type s' = element_type s ∧ initialized s' = initialized s.

Lemma next_capacity_loop_ok fuel limit minimum c :
  0 < c <= limit → minimum <= limit → limit < c * 2 ^ Z.of_nat fuel →
  ∃ c', next_capacity_loop fuel limit minimum c = Some c' ∧ minimum <= c' <= limit ∧ c <= c'.
Proof.
  revert c. induction fuel as [|fuel IH]; intros c Hc Hm Hf.
  { change (2 ^ Z.of_nat 0) with 1 in Hf. lia. }
  cbn [next_capacity_loop]. destruct (Z.leb_spec minimum c); [exists c; split_and!; done || lia|].
  destruct (Z.ltb_spec (limit - c) c); [exists limit; split_and!; done || lia|].
  destruct (IH (c * 2)) as (c' & -> & ? & ?); [lia|lia| |exists c'; split_and!; done || lia].
  rewrite Nat2Z.inj_succ, Z.pow_succ_r in Hf by lia. lia.
Qed.

Lemma next_capacity_ok {V} (s : storage V) minimum :
  storage_ok s → 0 < minimum → st_capacity s < minimum →
  if element_limit s <? minimum then next_capacity s minimum = Some (STL_CAPACITY_EXCEEDED, 0)
  else ∃ c, next_capacity s minimum = Some (STL_OK, c) ∧ minimum <= c <= element_limit s.
Proof.
  intros Hs Hm Hc. destruct Hs as [_ _ _ _ Hl _ _ Hsz Hcap _]. unfold next_capacity.
  destruct (Z.ltb_spec (element_limit s) minimum); [done|].
  set (c0 := if st_capacity s =? 0 then _ else _).
  set (c1 := if element_limit s <? c0 then _ else c0).
  assert (0 < c1 <= element_limit s).
  { unfold c1, c0, SEQUENCE_MIN_CAPACITY. destruct (Z.eqb_spec (st_capacity s) 0); case Z.ltb_spec; lia. }
  destruct (next_capacity_loop_ok 65 (element_limit s) minimum c1) as (c & -> & ? & _); [lia|lia| |].
  { change (2 ^ Z.of_nat 65) with 36893488147419103232. unfold_words. lia. }
  exists c. split; [done|lia].
Qed.

Lemma relocate_ok {V} (type : option (cmeta_type_desc V)) pre ys nones tl r w i :
  type_ok type → type ≠ None → i = alen pre → length nones = length pre →
  relocate type (length ys) i (map Some pre ++ replicate (length ys + r) None)
    (nones ++ map Some ys ++ tl) w =
  Some ((STL_OK, map Some (pre ++ ys) ++ replicate r None,
         nones ++ replicate (length ys) None ++ tl), w).
Proof.
  intros Hok Hne Hi. revert pre nones i Hi.
  induction ys as [|y ys IH]; intros pre nones i Hi Hn; cbn [relocate length].
  { by rewrite app_nil_r. }
  assert (i = alen (map Some pre)) as Hi1 by (unfold alen in *; by rewrite length_map).
  assert (i = alen nones) as Hi2 by (unfold alen in *; lia).
  change (replicate (S (length ys) + r) None) with (None :: replicate (length ys + r) (@None V)).
  rewrite (aget_middle (map Some pre)) by done. simpl map. cbn [app].
  rewrite (aget_middle nones) by done. wrun.
  wstep (move_ok type Hok None y w). rewrite bool_decide_true by done. cbn [negb]. wrun.
  rewrite (aset_middle (map Some pre)), (aset_middle nones) by done. wrun.
  destruct type; [|done]. cbn [is_null].
  specialize (IH (pre ++ [y]) (nones ++ [None]) (i + 1)).
  rewrite map_app, <-!app_assoc in IH. cbn [map app] in IH. apply IH.
  - rewrite alen_app. unfold alen at 2. simpl. lia.
  - rewrite !length_app. simpl. lia.
Qed.

(** What growing may do: refuse and change nothing, or give room. *)
Record grown {V} (s : storage V) (xs : list V) (minimum : Z) (w : world)
    (st : stl_status) (s' : storage V) (w' : world) : Prop := {
  gr_ok : storage_ok s';
  gr_holds : holds s' xs;
  gr_params : same_params s s';
  gr_gen : generation s' = generation s;
  gr_objects : w_objects w' = w_objects w;
  gr_blocks : w_blocks w' - blocks_of s' = w_blocks w - blocks_of s;
  gr_fail : st ≠ STL_OK → s' = s ∧ w_blocks w' = w_blocks w;
  gr_room : st = STL_OK → minimum <= st_capacity s';
  gr_enough n : minimum <= element_limit s → roomy s → mallocs (S n) (elem_align s) w →
    st = STL_OK ∧ mallocs n (elem_align s) w'
}.

Lemma deallocate_run data w :
  ∃ w', sequence_deallocate data w = Some (tt, w') ∧ w_malloc w' = w_malloc w ∧
    w_objects w' = w_objects w ∧ w_blocks w' = w_blocks w - (if is_null data then 0 else 1).
Proof. destruct data; eexists; (split; [done|]); simpl; split_and!; done || lia. Qed.

Lemma mallocs_eq n a w w' : w_malloc w' = w_malloc w → mallocs n a w → mallocs n a w'.
Proof. unfold mallocs. by intros ->. Qed.

(** The new block holds the old elements and nothing else. *)
Lemma regrown {V} (s : storage V) xs minimum w w' data (slots : list (slot V)) capacity tl :
  storage_ok s → holds s xs → minimum <= capacity → 0 < capacity <= element_limit s → st_capacity s <= capacity →
  is_Some data → slots = map Some xs ++ tl → alen slots = capacity →
  (element_type s ≠ None → Forall (λ x, x = None) tl) →
  w_objects w' = w_objects w → w_blocks w' = w_blocks w + 1 - blocks_of s →
  (∀ n, minimum <= element_limit s → roomy s → mallocs (S n) (elem_align s) w → mallocs n (elem_align s) w') →
  grown s xs minimum w STL_OK (set_block s data slots capacity) w'.
Proof.
  intros Hs [Hsz _] Hmin Hc Hcap [p ->] Hsl Hlen Htl Hobj Hblk Hmal.
  destruct Hs as [? ? ? ? ? ? ? ? ? ?]. split; try done.
  - constructor; simpl; try done; [lia..|]. split; [done|lia].
  - split; [done|]. by exists tl.
  - unfold blocks_of at 1. simpl. lia.
  - auto.
Qed.

Lemma grow_cases {V} (s : storage V) xs minimum w :
  storage_ok s → holds s xs → 0 <= minimum →
  ∃ st ch s' w', grow_to true s minimum w = Some ((st, ch, s'), w') ∧ grown s xs minimum w st s' w'.
Proof.
  intros Hs Hh Hm. destruct (Hs) as [_ _ Hstr [Hal Halv] Hlim Hty Hsl Hsz Hcap Hdata].
  destruct (Hh) as (Hsize & tl & Hslots & Htl).
  assert (∀ st w', st ≠ STL_OK → w_objects w' = w_objects w → w_blocks w' = w_blocks w →
    (minimum <= element_limit s → roomy s → ∀ n, mallocs (S n) (elem_align s) w → False) →
    grown s xs minimum w st s w') as Hfail.
  { intros st w' Hne Ho Hb Hen. split; try done; [lia|]. intros n ? ? Hn.
    exfalso. by eapply Hen. }
  unfold grow_to. cbn [negb]. destruct (Z.leb_spec minimum (st_capacity s)) as [Hle|Hgt].
  { do 4 eexists. split; [done|]. split; try done. intros n _ _ Hn. split; [done|].
    eapply mallocs_le; [|done]. lia. }
  pose proof (next_capacity_ok s minimum Hs ltac:(lia) Hgt) as Hnext.
  destruct (Z.ltb_spec (element_limit s) minimum).
  { rewrite Hnext. wrun. do 4 eexists. split; [done|]. apply Hfail; try done. lia. }
  destruct Hnext as (c & -> & Hc). wrun. rewrite bool_decide_true by done. cbn [negb].
  destruct (allocate_cases c (elem_stride s) (elem_align s) w) as (st & p & w1 & E1 & Ho & Hb & Hen);
    [lia|done..|].
  wstep E1. case_bool_decide as Hst; cbn [negb]; last first.
  { destruct Hb as [-> Hb]. do 4 eexists. split; [done|]. apply Hfail; try done.
    intros _ Hr n Hn. destruct Hst. apply (Hen n); [done|]. unfold roomy in Hr. nia. }
  destruct Hb as [Hp Hb].
  assert (∀ n, minimum <= element_limit s → roomy s → mallocs (S n) (elem_align s) w →
    mallocs n (elem_align s) w1) as Hmal.
  { intros n _ Hr Hn. apply Hen; [done|]. unfold roomy in Hr. nia. }
  destruct (deallocate_run (st_data s) w1) as (w2 & E2 & Hm2 & Ho2 & Hb2).
  assert (alen xs <= c) as Hxc by lia.
  destruct (element_type s) as [t|] eqn:Et.
  - pose proof (relocate_ok (Some t) [] xs [] tl (Z.to_nat c - length xs) w1 0) as Hrel.
    cbn [map app length] in Hrel. rewrite Hslots, Hsize. unfold alen at 1. rewrite Nat2Z.id.
    replace (Z.to_nat c) with (length xs + (Z.to_nat c - length xs))%nat by (unfold alen in *; lia).
    wstep (Hrel Hty ltac:(done) eq_refl eq_refl). rewrite bool_decide_true by done. cbn [negb].
    wstep E2. do 4 eexists. split; [done|].
    eapply regrown; try done; try lia.
    + rewrite alen_app. unfold alen. rewrite length_map, length_replicate. unfold alen in *. lia.
    + intros _. apply Forall_replicate. done.
    + unfold blocks_of. lia.
    + intros n ? ? Hn. apply (mallocs_eq _ _ w1); auto.
  - rewrite bool_decide_true by lia. wrun. wstep E2.
    assert (take (Z.to_nat (st_size s)) (st_slots s) = map Some xs) as ->.
    { rewrite Hslots, Hsize. unfold alen. rewrite Nat2Z.id.
      rewrite <-(length_map Some xs), take_app_length. done. }
    do 4 eexists. split; [done|]. eapply regrown; try done; try lia.
    + rewrite alen_app. unfold alen in *. rewrite length_map, length_drop, length_replicate. lia.
    + unfold blocks_of. lia.
    + intros n ? ? Hn. apply (mallocs_eq _ _ w1); auto.
Qed.

Lemma prepare_cases {V} (s : storage V) v w :
  storage_ok s →
  ∃ st p c w', prepare_copy s (Some v) w = Some ((st, p, c), w') ∧
    (if bool_decide (st = STL_OK)
     then is_Some p ∧ c = Some v ∧ w_blocks w' = w_blocks w + 1 ∧
          w_objects w' = w_objects w + owned (element_type s)
     else p = None ∧ w_same w w') ∧
    ∀ n, mallocs (S n) (elem_align s) w → roomy s → 0 < element_limit s → copyable (element_type s) v →
      st = STL_OK ∧ mallocs n (elem_align s) w'.
Proof.
  intros Hs. destruct (Hs) as [_ _ Hstr [Hal Halv] Hlim Hty _ _ _ _]. unfold prepare_copy.
  destruct (allocate_cases 1 (elem_stride s) (elem_align s) w) as (st & p & w1 & E1 & Ho & Hb & Hen);
    [unfold_words; lia|done..|].
  wstep E1. case_bool_decide as Hst; cbn [negb]; last first.
  { destruct Hb as [-> Hb]. do 4 eexists. split; [done|]. rewrite bool_decide_false by done.
    split; [done|]. intros n Hn Hr Hlp _. destruct Hst. apply (Hen n); [done|]. unfold roomy in Hr. nia. }
  destruct Hb as [[a ->] Hb]. cbn [is_null].
  destruct (copy_cases (element_type s) Hty v w1) as (st2 & d & w2 & E2 & Hm2 & Hb2 & Hres & Hcp).
  wstep E2. case_bool_decide as Hst2; cbn [negb].
  - destruct Hres as [-> Ho2]. wrun. do 4 eexists. split; [done|]. rewrite bool_decide_true by done.
    split; [split_and!; [done|done|lia|lia]|]. intros n Hn Hr Hlp Hc. split; [done|].
    apply (mallocs_eq _ _ w1); [done|]. apply Hen; [done|]. unfold roomy in Hr. nia.
  - destruct Hres as [-> Ho2]. destruct (deallocate_run (Some a) w2) as (w3 & E3 & _ & Ho3 & Hb3).
    cbn [is_null] in Hb3. wstep E3. do 4 eexists. split; [done|]. rewrite bool_decide_false by done.
    split; [split; [done|]; split; lia|]. intros n Hn Hr Hlp Hc. by destruct Hst2; auto.
Qed.

Lemma discard_run {V} (s : storage V) p v w :
  storage_ok s → is_Some p →
  ∃ w', discard_prepared s p (Some v) w = Some (tt, w') ∧
    w_blocks w' = w_blocks w - 1 ∧ w_objects w' = w_objects w - owned (element_type s).
Proof.
  intros Hs [a ->]. unfold discard_prepared.
  destruct (destroy_ok (element_type s) (so_type s Hs) v w) as (w1 & E1 & _ & Hb & Ho). wstep E1.
  eexists. split; [done|]. simpl. lia.
Qed.

(** Destroying the elements from [i] on. *)
Lemma destroy_range_ok {V} (type : option (cmeta_type_desc V)) pre ys tl w :
  type_ok type →
  ∃ w', destroy_range type (length ys) (alen pre) (pre ++ map Some ys ++ tl) w =
    Some ((STL_OK, pre ++ (if is_null type then map Some ys else replicate (length ys) None) ++ tl), w') ∧
    w_malloc w' = w_malloc w ∧ w_blocks w' = w_blocks w ∧
    w_objects w' = w_objects w - owned type * alen ys.
Proof.
  intros Hok. revert pre w. induction ys as [|y ys IH]; intros pre w; cbn [destroy_range length].
  { exists w. split_and!; try done; [by destruct type|unfold alen; simpl; lia]. }
  cbn [map app]. rewrite aget_middle by done. wrun.
  destruct (destroy_ok type Hok y w) as (w1 & E1 & Hm1 & Hb1 & Ho1). wstep E1.
  rewrite bool_decide_true by done. cbn [negb]. wrun. rewrite aset_middle by done. wrun.
  destruct (IH (pre ++ [if is_null type then Some y else None]) w1) as (w2 & E2 & Hm2 & Hb2 & Ho2).
  rewrite alen_app, <-!app_assoc in E2. cbn [app] in E2. unfold alen at 2 in E2. simpl length in E2.
  exists w2. split_and!; try congruence.
  - etrans; [exact E2|]. by destruct type.
  - unfold alen in *. simpl length. lia.
Qed.

(** An allocation takes at most the next answer of [malloc]. *)
Lemma allocate_malloc count stride alignment w st p w' :
  sequence_allocate count stride alignment w = Some ((st, p), w') →
  w_malloc w' = w_malloc w ∨ w_malloc w' = tail (w_malloc w).
Proof.
  unfold sequence_allocate. intros H. repeat case_match; try (by simplify_eq/=; auto);
    unfold mbind, M_bind, malloc, mret, M_ret, mfree in H; repeat case_match; simplify_eq/=;
    (by left) || (right; congruence).
Qed.

Lemma mallocs_align n a b w : a <= b → mallocs n b w → mallocs n a w.
Proof.
  intros Hab (ps & l & Hw & Hl & HF). exists ps, l. split_and!; try done.
  eapply Forall_impl; [exact HF|]. unfold overhead. cbn. lia.
Qed.

Lemma mallocs_step n a w w' :
  w_malloc w' = w_malloc w ∨ w_malloc w' = tail (w_malloc w) → mallocs (S n) a w → mallocs n a w'.
Proof.
  intros [E|E] H; [apply (mallocs_eq _ _ w); [done|]; eapply mallocs_le; [|done]; lia|].
  destruct H as (ps & l & Hw & Hl & HF). destruct ps as [|p ps]; [done|]. apply Forall_cons in HF as [_ HF].
  exists ps, l. rewrite E, Hw. cbn in *. split_and!; try done. lia.
Qed.

(** The strides that creation accepts. *)
Lemma stride_range size align st o :
  is_u64 size → is_u64 align → sequence_stride size align = (st, o) →
  (st = STL_OK ∧ ∃ x, o = Some x ∧ 0 < x <= SIZE_MAX ∧ size ≠ 0 ∧ sequence_alignment_valid align = true) ∨
  (st ≠ STL_OK ∧ o = None).
Proof.
  intros Hs Ha. unfold sequence_stride.
  destruct (Z.eqb_spec size 0) as [->|Hz]; cbn [orb]; [intros [= <- <-]; by right|].
  destruct (sequence_alignment_valid align) eqn:Hv; cbn [negb]; [|intros [= <- <-]; by right].
  destruct (proj1 (alignment_valid_pow2 align Ha) Hv) as (k & Hk & ->).
  destruct (Z.ltb_spec (SIZE_MAX - (2 ^ k - 1)) size); [intros [= <- <-]; by right|].
  intros [= <- <-]. left. split; [done|]. eexists. split; [done|].
  destruct (align_up size k Hk Hs) as (q & Hq & Hle); [lia|]. rewrite Hq. split; [|done].
  unfold is_u64 in Hs. lia.
Qed.
