(* ===== verification/HashMap.v ===== *)
(** * The hash map ([cstl/src/hash_map.c])

    Open addressing with linear probing, tombstones and doubling. One block
    holds the states, the hashes, the keys and the values of all slots; the
    model keeps them slot by slot as [cell]s. Keys are compared and hashed by
    the traits of their type or, for byte maps, by the functions the caller
    gives. The theorem: whatever the hash function, the map behaves as a
    finite table of entries whose keys are pairwise different. *)

From S2P Require Import Prelude World Sequence.
Local Open Scope Z_scope.

Definition SALTS_HASH_EMPTY : Z := 0.
Definition SALTS_HASH_OCCUPIED : Z := 1.
Definition SALTS_HASH_TOMBSTONE : Z := 2.
Definition SALTS_HASH_MIN_BUCKETS : Z := 16.
Definition alignof_size_t : Z := 8.

(** One slot: its state, its hash, its key and its value. *)
Record cell (K V : Type) := MkCell {
  c_state : Z;
  c_hash : Z;
  c_key : slot K;
  c_value : slot V
}.
#[global] Arguments MkCell {K V} _ _ _ _.
#[global] Arguments c_state {K V} _.
#[global] Arguments c_hash {K V} _.
#[global] Arguments c_key {K V} _.
#[global] Arguments c_value {K V} _.

(** [hm_states] is the block; [hm_cells] its slots. *)
Record hash_map_t (K V : Type) := MkHashMap {
  hm_states : option Z;
  hm_cells : list (cell K V);
  hm_size : Z;
  hm_capacity : Z;
  hm_tombstones : Z;
  key_size : Z;
  key_stride : Z;
  key_align : Z;
  value_size : Z;
  value_stride : Z;
  value_align : Z;
  entry_limit : Z;
  key_type : option (cmeta_type_desc K);
  value_type : option (cmeta_type_desc V);
  hm_hash : option (K → Z);
  hm_equal : option (K → K → bool);
  hm_generation : Z;
  hm_initialized : bool
}.
#[global] Arguments MkHashMap {K V} _ _ _ _ _ _ _ _ _ _ _ _ _ _ _ _ _ _.
#[global] Arguments hm_states {K V} _.
#[global] Arguments hm_cells {K V} _.
#[global] Arguments hm_size {K V} _.
#[global] Arguments hm_capacity {K V} _.
#[global] Arguments hm_tombstones {K V} _.
#[global] Arguments key_size {K V} _.
#[global] Arguments key_stride {K V} _.
#[global] Arguments key_align {K V} _.
#[global] Arguments value_size {K V} _.
#[global] Arguments value_stride {K V} _.
#[global] Arguments value_align {K V} _.
#[global] Arguments entry_limit {K V} _.
#[global] Arguments key_type {K V} _.
#[global] Arguments value_type {K V} _.
#[global] Arguments hm_hash {K V} _.
#[global] Arguments hm_equal {K V} _.
#[global] Arguments hm_generation {K V} _.
#[global] Arguments hm_initialized {K V} _.

(** ** Sizes *)

Definition hash_add (left right : Z) : stl_status * option Z :=
  if SIZE_MAX - left <? right then (STL_CAPACITY_EXCEEDED, None) else (STL_OK, Some (left + right)).

Definition hash_mul (left right : Z) : stl_status * option Z :=
  if negb (left =? 0) && (SIZE_MAX / left <? right) then (STL_CAPACITY_EXCEEDED, None)
  else (STL_OK, Some (left * right)).

Definition hash_align (value alignment : Z) : stl_status * option Z :=
  if negb (sequence_alignment_valid alignment) then (STL_INVALID_ARGUMENT, None) else
  let padding := alignment - 1 in
  if SIZE_MAX - padding <? value then (STL_CAPACITY_EXCEEDED, None)
  else (STL_OK, Some (Z.land (u64 (value + padding)) (u64 (Z.lnot padding)))).

(** The doubling loop; [None] when [fuel] runs out. *)
Fixpoint buckets_loop (fuel : nat) (requested buckets : Z) : option (stl_status * Z) :=
  match fuel with
  | O => None
  | S fuel =>
      if buckets <? requested then
        if SIZE_MAX / 2 <? buckets then Some (STL_CAPACITY_EXCEEDED, buckets)
        else buckets_loop fuel requested (buckets * 2)
      else Some (STL_OK, buckets)
  end.

Definition hash_buckets_for_entries (entries : Z) : option (stl_status * Z) :=
  if entries =? 0 then Some (STL_OK, 0) else
  let quotient := entries / 7 in
  let remainder := entries mod 7 in
  if SIZE_MAX / 3 <? quotient then Some (STL_CAPACITY_EXCEEDED, 0) else
  let extra := quotient * 3 + (remainder * 3 + 6) / 7 in
  match hash_add entries extra with
  | (STL_OK, Some requested) =>
      let requested := if requested <? SALTS_HASH_MIN_BUCKETS then SALTS_HASH_MIN_BUCKETS else requested in
      buckets_loop 65 requested SALTS_HASH_MIN_BUCKETS
  | _ => Some (STL_CAPACITY_EXCEEDED, 0)
  end.

(** The steps of a size computation: each needs the one before. *)
Definition size_step (r : stl_status * option Z) (next : Z → stl_status * option Z) :
    stl_status * option Z :=
  match r with
  | (STL_OK, Some x) => next x
  | (st, _) => (st, None)
  end.

(** The failures that are reported as a lack of capacity, whatever they are. *)
Definition size_capped (r : stl_status * option Z) (next : Z → stl_status * option Z) :
    stl_status * option Z :=
  match r with
  | (STL_OK, Some x) => next x
  | _ => (STL_CAPACITY_EXCEEDED, None)
  end.

(** The bytes of a block of [capacity] slots. *)
Definition hash_map_bytes (capacity key_stride key_align value_stride value_align : Z) :
    stl_status * option Z :=
  size_step (hash_mul capacity 1) (λ states_bytes,
  size_step (hash_align states_bytes alignof_size_t) (λ hashes_offset,
  size_capped (hash_mul capacity 8) (λ hashes_bytes,
  size_capped (hash_add hashes_offset hashes_bytes) (λ total,
  size_step (hash_align total key_align) (λ keys_offset,
  size_capped (hash_mul capacity key_stride) (λ keys_bytes,
  size_capped (hash_add keys_offset keys_bytes) (λ total,
  size_step (hash_align total value_align) (λ values_offset,
  size_capped (hash_mul capacity value_stride) (λ values_bytes,
  size_capped (hash_add values_offset values_bytes) (λ total, (STL_OK, Some total))))))))))).

Definition hash_max_alignment (key_align value_align : Z) : Z :=
  let alignment := alignof_size_t in
  let alignment := if alignment <? key_align then key_align else alignment in
  if alignment <? value_align then value_align else alignment.

Section HashMap.
Context {K V : Type}.
Implicit Types (map : hash_map_t K V) (c : cell K V).

Definition hash_map_valid (map : option (hash_map_t K V)) : option (hash_map_t K V) :=
  m ← map;
  if hm_initialized m && negb (key_size m =? 0) && negb (value_size m =? 0) then Some m else None.

(** [memset(map, 0, sizeof)] and the generation. *)
Definition hash_zero (gen : Z) : hash_map_t K V :=
  MkHashMap None [] 0 0 0 0 0 0 0 0 0 0 None None None None gen false.

Definition with_cells map (cells : list (cell K V)) : hash_map_t K V :=
  MkHashMap (hm_states map) cells (hm_size map) (hm_capacity map) (hm_tombstones map) (key_size map)
    (key_stride map) (key_align map) (value_size map) (value_stride map) (value_align map) (entry_limit map)
    (key_type map) (value_type map) (hm_hash map) (hm_equal map) (hm_generation map) (hm_initialized map).

Definition with_counts map (size tombstones : Z) : hash_map_t K V :=
  MkHashMap (hm_states map) (hm_cells map) size (hm_capacity map) tombstones (key_size map)
    (key_stride map) (key_align map) (value_size map) (value_stride map) (value_align map) (entry_limit map)
    (key_type map) (value_type map) (hm_hash map) (hm_equal map) (hm_generation map) (hm_initialized map).

Definition with_block map (states : option Z) (cells : list (cell K V)) (size capacity tombstones : Z) :
    hash_map_t K V :=
  MkHashMap states cells size capacity tombstones (key_size map)
    (key_stride map) (key_align map) (value_size map) (value_stride map) (value_align map) (entry_limit map)
    (key_type map) (value_type map) (hm_hash map) (hm_equal map) (hm_generation map) (hm_initialized map).

(** [++map->generation]. *)
Definition hash_bump map : hash_map_t K V :=
  MkHashMap (hm_states map) (hm_cells map) (hm_size map) (hm_capacity map) (hm_tombstones map) (key_size map)
    (key_stride map) (key_align map) (value_size map) (value_stride map) (value_align map) (entry_limit map)
    (key_type map) (value_type map) (hm_hash map) (hm_equal map) (u64 (hm_generation map + 1))
    (hm_initialized map).

(** The status and the map with a fresh block. *)
Definition hash_map_allocate map (capacity : Z) : M (stl_status * hash_map_t K V) :=
  match hash_map_bytes capacity (key_stride map) (key_align map) (value_stride map) (value_align map) with
  | (STL_OK, Some total) =>
      '(status, storage) ← sequence_allocate 1 total (hash_max_alignment (key_align map) (value_align map));
      if negb (bool_decide (status = STL_OK)) then mret (status, map) else
      storage ← lift storage;
      let cells := replicate (Z.to_nat capacity) (MkCell SALTS_HASH_EMPTY 0 None None) in
      mret (STL_OK, with_block map (Some storage) cells (hm_size map) capacity (hm_tombstones map))
  | (status, _) => mret (status, map)
  end.
End HashMap.

(** ** Elements *)

Section HashElements.
Context {A : Type}.
Implicit Types (type : option (cmeta_type_desc A)).

(** The slot afterwards. *)
Definition hash_destroy_value type (value : slot A) : M (slot A) :=
  match type with
  | None => mret value
  | Some t =>
      traits ← lift (ty_traits t);
      if negb (tr_destroy traits) then lift None else
      _ ← lift value;
      _ ← count_object (-1);
      mret None
  end.

(** The status, the new block and what it holds. *)
Definition hash_prepare type (stride alignment : Z) (source : A) : M (stl_status * option (Z * A)) :=
  '(status, p) ← sequence_allocate 1 stride alignment;
  if negb (bool_decide (status = STL_OK)) then mret (status, None) else
  p ← lift p;
  match type with
  | None => mret (STL_OK, Some (p, source))
  | Some _ =>
      copy_construct ← trait_callback type tr_copy_construct;
      match copy_construct source with
      | Some x => _ ← count_object 1; mret (STL_OK, Some (p, x))
      | None => _ ← sequence_deallocate (Some p); mret (STL_OUT_OF_MEMORY, None)
      end
  end.

Definition hash_discard type (value : option (Z * A)) : M unit :=
  match value with
  | None => mret tt
  | Some (p, x) => _ ← hash_destroy_value type (Some x); sequence_deallocate (Some p)
  end.

(** What the destination holds; the source keeps an object. *)
Definition hash_move_construct type (source : slot A) : M (slot A) :=
  match type with
  | None => mret source
  | Some _ =>
      move_construct ← trait_callback type tr_move_construct;
      x ← lift source;
      _ ← count_object 1;
      mret (Some (move_construct x))
  end.

Definition hash_move_destroy type (source : slot A) : M (slot A * slot A) :=
  destination ← hash_move_construct type source;
  source ← hash_destroy_value type source;
  mret (destination, source).
End HashElements.

(** ** Searching *)

Section HashOperations.
Context {K V : Type}.
Implicit Types (map : hash_map_t K V) (c : cell K V).

(** The functions of the key type or of the caller; [None] is a call through
    a null pointer. *)
Definition map_hash_fn map : option (K → Z) :=
  match key_type map with
  | Some t => traits ← ty_traits t; tr_hash traits
  | None => hm_hash map
  end.
Definition map_equal_fn map : option (K → K → bool) :=
  match key_type map with
  | Some t => traits ← ty_traits t; tr_equal traits
  | None => hm_equal map
  end.

Definition hash_map_hash map (key : K) : option Z :=
  f ← map_hash_fn map;
  let hash := u64 (f key) in
  Some (if hash =? 0 then 1 else hash).

Definition hash_map_equal map (left right : K) : option bool :=
  f ← map_equal_fn map; Some (f left right).

(** Slot number [probe] of the probe sequence of [hash]. *)
Definition probe_slot map (hash probe : Z) : Z := Z.land (u64 (hash + probe)) (hm_capacity map - 1).

(** The last [n] probes: the slot of the key, or none. *)
Fixpoint find_loop map (key : K) (hash : Z) (n : nat) (probe : Z) : option (option Z) :=
  match n with
  | O => Some None
  | S n =>
      let slot := probe_slot map hash probe in
      c ← aget (hm_cells map) slot;
      if c_state c =? SALTS_HASH_EMPTY then Some None else
      if (c_state c =? SALTS_HASH_OCCUPIED) && (c_hash c =? hash) then
        k ← c_key c;
        same ← hash_map_equal map k key;
        if (same : bool) then Some (Some slot) else find_loop map key hash n (probe + 1)
      else find_loop map key hash n (probe + 1)
  end.

Definition hash_map_find_slot map (key : K) (hash : Z) : option (option Z) :=
  if hm_capacity map =? 0 then Some None
  else find_loop map key hash (Z.to_nat (hm_capacity map)) 0.

Fixpoint insert_loop map (hash : Z) (n : nat) (probe first_tombstone : Z) : option Z :=
  match n with
  | O => Some first_tombstone
  | S n =>
      let slot := probe_slot map hash probe in
      c ← aget (hm_cells map) slot;
      if c_state c =? SALTS_HASH_TOMBSTONE then
        insert_loop map hash n (probe + 1) (if first_tombstone =? SIZE_MAX then slot else first_tombstone)
      else if c_state c =? SALTS_HASH_EMPTY then
        Some (if first_tombstone =? SIZE_MAX then slot else first_tombstone)
      else insert_loop map hash n (probe + 1) first_tombstone
  end.

Definition hash_map_insert_slot map (hash : Z) : option Z :=
  insert_loop map hash (Z.to_nat (hm_capacity map)) 0 SIZE_MAX.

(** ** Rehashing *)

(** The new table; the source keeps its objects. *)
Definition hash_map_rehash_insert map (hash : Z) (key : slot K) (value : slot V) : M (hash_map_t K V) :=
  slot ← lift (hash_map_insert_slot map hash);
  key ← hash_move_construct (key_type map) key;
  value ← hash_move_construct (value_type map) value;
  cells ← lift (aset (hm_cells map) slot (MkCell SALTS_HASH_OCCUPIED hash key value));
  mret (with_counts (with_cells map cells) (hm_size map + 1) (hm_tombstones map)).

(** The loop over the old slots. *)
Fixpoint rehash_loop map (old : list (cell K V)) (next : hash_map_t K V) : M (hash_map_t K V) :=
  match old with
  | [] => mret next
  | c :: old =>
      if negb (c_state c =? SALTS_HASH_OCCUPIED) then rehash_loop map old next else
      next ← hash_map_rehash_insert next (c_hash c) (c_key c) (c_value c);
      _ ← hash_destroy_value (key_type map) (c_key c);
      _ ← hash_destroy_value (value_type map) (c_value c);
      rehash_loop map old next
  end.

Definition with_generation map (gen : Z) : hash_map_t K V :=
  MkHashMap (hm_states map) (hm_cells map) (hm_size map) (hm_capacity map) (hm_tombstones map) (key_size map)
    (key_stride map) (key_align map) (value_size map) (value_stride map) (value_align map) (entry_limit map)
    (key_type map) (value_type map) (hm_hash map) (hm_equal map) gen (hm_initialized map).

Definition hash_map_rehash map (capacity : Z) : M (stl_status * hash_map_t K V) :=
  '(status, next) ← hash_map_allocate (with_block map None [] 0 0 0) capacity;
  if negb (bool_decide (status = STL_OK)) then mret (status, map) else
  next ← rehash_loop map (hm_cells map) next;
  _ ← sequence_deallocate (hm_states map);
  mret (STL_OK, with_generation next (hm_generation map)).

(** Rehash for [buckets] when they are needed or tombstones outweigh the
    entries; the status, whether it was done, and the map. *)
Definition hash_map_adapt map (buckets : Z) : M (stl_status * bool * hash_map_t K V) :=
  if (hm_capacity map <? buckets) ||
     ((hm_size map <? hm_tombstones map) && negb (hm_capacity map =? 0)) then
    let buckets := if buckets <? hm_capacity map then hm_capacity map else buckets in
    '(status, map) ← hash_map_rehash map buckets;
    mret (status, true, map)
  else mret (STL_OK, false, map).

Definition hash_map_ensure_insert map : M (stl_status * hash_map_t K V) :=
  if hm_size map =? SIZE_MAX then mret (STL_CAPACITY_EXCEEDED, map) else
  let desired := hm_size map + 1 in
  '(status, buckets) ← lift (hash_buckets_for_entries desired);
  if negb (bool_decide (status = STL_OK)) then mret (status, map) else
  '(status, _, map) ← hash_map_adapt map buckets;
  mret (status, map).

(** ** Creation *)

Definition hash_map_initialize (map : option (hash_map_t K V)) (key_type : option (cmeta_type_desc K))
    (value_type : option (cmeta_type_desc V)) (key_size key_align value_size value_align entry_limit : Z)
    (hash : option (K → Z)) (equal : option (K → K → bool)) :
    stl_status * option (hash_map_t K V) :=
  match map with
  | None => (STL_INVALID_ARGUMENT, map)
  | Some m =>
      if hm_initialized m then (STL_INVALID_ARGUMENT, map) else
      match sequence_stride key_size key_align with
      | (STL_OK, Some key_stride) =>
          match sequence_stride value_size value_align with
          | (STL_OK, Some value_stride) =>
              (STL_OK, Some (MkHashMap None [] 0 0 0 key_size key_stride key_align value_size value_stride
                 value_align entry_limit key_type value_type hash equal (u64 (hm_generation m + 1)) true))
          | (status, _) => (status, map)
          end
      | (status, _) => (status, map)
      end
  end.

Definition hash_map_raw_init (map : option (hash_map_t K V)) (key_type : option (cmeta_type_desc K))
    (value_type : option (cmeta_type_desc V)) (entry_limit : Z) : stl_status * option (hash_map_t K V) :=
  let key_required := Z.lor (Z.lor (Z.lor (Z.lor CMETA_TRAIT_EQUAL CMETA_TRAIT_HASH) CMETA_TRAIT_COPY)
    CMETA_TRAIT_MOVE) CMETA_TRAIT_DESTROY in
  let value_required := Z.lor (Z.lor CMETA_TRAIT_COPY CMETA_TRAIT_MOVE) CMETA_TRAIT_DESTROY in
  match map with
  | None => (STL_INVALID_ARGUMENT, map)
  | Some m =>
      if hm_initialized m then (STL_INVALID_ARGUMENT, map) else
      match key_type, value_type with
      | Some kt, Some vt =>
          if (ty_size kt =? 0) || (ty_size vt =? 0) || negb (sequence_alignment_valid (ty_align kt)) ||
             negb (sequence_alignment_valid (ty_align vt)) then (STL_INVALID_ARGUMENT, map) else
          if negb (bool_decide (cmeta_type_require_traits key_type key_required = CMETA_OK)) ||
             negb (bool_decide (cmeta_type_require_traits value_type value_required = CMETA_OK)) then
            (STL_TRAIT_MISSING, map) else
          hash_map_initialize map key_type value_type (ty_size kt) (ty_align kt) (ty_size vt) (ty_align vt)
            entry_limit None None
      | _, _ => (STL_INVALID_ARGUMENT, map)
      end
  end.

Definition hash_map_init_bytes (map : option (hash_map_t K V))
    (key_size key_align value_size value_align entry_limit : Z)
    (hash : option (K → Z)) (equal : option (K → K → bool)) : stl_status * option (hash_map_t K V) :=
  match map with
  | None => (STL_INVALID_ARGUMENT, map)
  | Some m =>
      if hm_initialized m || is_null hash || is_null equal then (STL_INVALID_ARGUMENT, map) else
      hash_map_initialize map None None key_size key_align value_size value_align entry_limit hash equal
  end.

(** ** Operations *)

(** The objects of the occupied slots are destroyed. *)
Fixpoint destroy_cells map (cells : list (cell K V)) : M (list (cell K V)) :=
  match cells with
  | [] => mret []
  | c :: cells =>
      if negb (c_state c =? SALTS_HASH_OCCUPIED) then
        cells ← destroy_cells map cells; mret (c :: cells)
      else
        key ← hash_destroy_value (key_type map) (c_key c);
        value ← hash_destroy_value (value_type map) (c_value c);
        cells ← destroy_cells map cells;
        mret (MkCell (c_state c) (c_hash c) key value :: cells)
  end.

Definition hash_map_raw_destroy_storage (map : option (hash_map_t K V)) : M (option (hash_map_t K V)) :=
  match map with
  | None => mret None
  | Some m =>
      if hm_initialized m then
        _ ← destroy_cells m (hm_cells m);
        _ ← sequence_deallocate (hm_states m);
        mret (Some (hash_zero (u64 (hm_generation m + 1))))
      else mret (Some (hash_zero (hm_generation m)))
  end.

(** [memset] of the states. *)
Definition clear_state (c : cell K V) : cell K V := MkCell SALTS_HASH_EMPTY (c_hash c) (c_key c) (c_value c).

Definition hash_map_clear (map : option (hash_map_t K V)) : M (option (hash_map_t K V)) :=
  match hash_map_valid map with
  | None => mret map
  | Some m =>
      cells ← destroy_cells m (hm_cells m);
      let m := with_cells m cells in
      if negb (hm_size m =? 0) then
        mret (Some (hash_bump (with_counts (with_cells m (clear_state <$> cells)) 0 0)))
      else mret (Some m)
  end.

Definition hash_map_reserve (map : option (hash_map_t K V)) (min_entries : Z) :
    M (stl_status * option (hash_map_t K V)) :=
  match hash_map_valid map with
  | None => mret (STL_INVALID_ARGUMENT, map)
  | Some m =>
      if entry_limit m <? min_entries then mret (STL_CAPACITY_EXCEEDED, map) else
      '(status, buckets) ← lift (hash_buckets_for_entries min_entries);
      if negb (bool_decide (status = STL_OK)) then mret (status, map) else
      '(status, rehashed, m) ← hash_map_adapt m buckets;
      mret (status, Some (if rehashed && bool_decide (status = STL_OK) then hash_bump m else m))
  end.

(** An entry whose key is there: its value is replaced. *)
Definition put_existing (m : hash_map_t K V) (slot : Z) (value : V) : M (stl_status * hash_map_t K V) :=
  '(status, prepared) ← hash_prepare (value_type m) (value_stride m) (value_align m) value;
  if negb (bool_decide (status = STL_OK)) then mret (status, m) else
  '(p, x) ← lift prepared;
  c ← lift (aget (hm_cells m) slot);
  _ ← hash_destroy_value (value_type m) (c_value c);
  '(v, _) ← hash_move_destroy (value_type m) (Some x);
  cells ← lift (aset (hm_cells m) slot (MkCell (c_state c) (c_hash c) (c_key c) v));
  _ ← sequence_deallocate (Some p);
  mret (STL_OK, hash_bump (with_cells m cells)).

(** A new entry goes into its slot. *)
Definition put_new (m : hash_map_t K V) (hash : Z) (pk : Z * K) (pv : Z * V) : M (hash_map_t K V) :=
  slot ← lift (hash_map_insert_slot m hash);
  '(k, _) ← hash_move_destroy (key_type m) (Some (snd pk));
  '(v, _) ← hash_move_destroy (value_type m) (Some (snd pv));
  _ ← sequence_deallocate (Some (fst pk));
  _ ← sequence_deallocate (Some (fst pv));
  c ← lift (aget (hm_cells m) slot);
  cells ← lift (aset (hm_cells m) slot (MkCell SALTS_HASH_OCCUPIED hash k v));
  let tombstones := if c_state c =? SALTS_HASH_TOMBSTONE then hm_tombstones m - 1 else hm_tombstones m in
  mret (hash_bump (with_counts (with_cells m cells) (hm_size m + 1) tombstones)).

Definition hash_map_put (map : option (hash_map_t K V)) (key : option K) (value : option V) :
    M (stl_status * option (hash_map_t K V)) :=
  match hash_map_valid map, key, value with
  | Some m, Some key, Some value =>
      hash ← lift (hash_map_hash m key);
      found ← lift (hash_map_find_slot m key hash);
      match found with
      | Some slot => '(status, m) ← put_existing m slot value; mret (status, Some m)
      | None =>
          if entry_limit m <=? hm_size m then mret (STL_CAPACITY_EXCEEDED, map) else
          '(status, pk) ← hash_prepare (key_type m) (key_stride m) (key_align m) key;
          if negb (bool_decide (status = STL_OK)) then mret (status, map) else
          '(status, pv) ← hash_prepare (value_type m) (value_stride m) (value_align m) value;
          if negb (bool_decide (status = STL_OK)) then
            _ ← hash_discard (key_type m) pk; mret (status, map)
          else
            '(status, m) ← hash_map_ensure_insert m;
            if negb (bool_decide (status = STL_OK)) then
              _ ← hash_discard (key_type m) pk;
              _ ← hash_discard (value_type m) pv;
              mret (status, Some m)
            else
              pk ← lift pk; pv ← lift pv;
              m ← put_new m hash pk pv;
              mret (STL_OK, Some m)
      end
  | _, _, _ => mret (STL_INVALID_ARGUMENT, map)
  end.

(** The slot of the value, the pointer that is returned. *)
Definition hash_map_get (map : option (hash_map_t K V)) (key : option K) : option (option Z) :=
  match hash_map_valid map, key with
  | Some m, Some key =>
      hash ← hash_map_hash m key;
      hash_map_find_slot m key hash
  | _, _ => Some None
  end.

Definition hash_map_get_const (map : option (hash_map_t K V)) (key : option K) : option (option Z) :=
  hash_map_get map key.

Definition hash_map_contains (map : option (hash_map_t K V)) (key : option K) : option bool :=
  found ← hash_map_get_const map key; Some (negb (is_null found)).

(** [wanted]: whether the caller passes memory for the value. *)
Definition hash_map_remove (map : option (hash_map_t K V)) (key : option K) (wanted : bool) :
    M (stl_status * slot V * option (hash_map_t K V)) :=
  match hash_map_valid map, key with
  | Some m, Some key =>
      hash ← lift (hash_map_hash m key);
      found ← lift (hash_map_find_slot m key hash);
      match found with
      | None => mret (STL_NOT_FOUND, None, map)
      | Some slot =>
          c ← lift (aget (hm_cells m) slot);
          '(out, v) ← (if wanted then hash_move_destroy (value_type m) (c_value c)
                       else v ← hash_destroy_value (value_type m) (c_value c); mret (None, v));
          k ← hash_destroy_value (key_type m) (c_key c);
          cells ← lift (aset (hm_cells m) slot (MkCell SALTS_HASH_TOMBSTONE (c_hash c) k v));
          mret (STL_OK, out, Some (hash_bump (with_counts (with_cells m cells) (hm_size m - 1)
            (hm_tombstones m + 1))))
      end
  | _, _ => mret (STL_INVALID_ARGUMENT, None, map)
  end.

Definition hash_map_size (map : option (hash_map_t K V)) : Z :=
  match hash_map_valid map with Some m => hm_size m | None => 0 end.
Definition hash_map_capacity (map : option (hash_map_t K V)) : Z :=
  match hash_map_valid map with Some m => hm_capacity m | None => 0 end.
Definition hash_map_entry_limit (map : option (hash_map_t K V)) : Z :=
  match hash_map_valid map with Some m => entry_limit m | None => 0 end.
Definition hash_map_generation (map : option (hash_map_t K V)) : Z :=
  match map with Some m => hm_generation m | None => 0 end.
Definition hash_map_empty (map : option (hash_map_t K V)) : bool := hash_map_size map =? 0.

(** The slot whose key or value is returned; [Some None] is the null pointer. *)
Definition occupied_at (map : option (hash_map_t K V)) (slot : Z) : option (option Z) :=
  match hash_map_valid map with
  | Some m =>
      if hm_capacity m <=? slot then Some None else
      c ← aget (hm_cells m) slot;
      Some (if c_state c =? SALTS_HASH_OCCUPIED then Some slot else None)
  | None => Some None
  end.
Definition hash_map_key_at := occupied_at.
Definition hash_map_value_at := occupied_at.
Definition hash_map_value_at_const := hash_map_value_at.
(** ** Construction from arrays *)

(** Entries are put one by one; on a failure the table is destroyed. *)
Fixpoint put_all (temporary : option (hash_map_t K V)) (entries : list (K * V)) :
    M (stl_status * option (hash_map_t K V)) :=
  match entries with
  | [] => mret (STL_OK, temporary)
  | (k, v) :: entries =>
      '(status, temporary) ← hash_map_put temporary (Some k) (Some v);
      if negb (bool_decide (status = STL_OK)) then
        temporary ← hash_map_raw_destroy_storage temporary; mret (status, temporary)
      else put_all temporary entries
  end.

(** The part the two constructors share, after [temporary] is initialised. *)
Definition adopt_arrays (m : hash_map_t K V) (init : stl_status * option (hash_map_t K V))
    (entries : list (K * V)) : M (stl_status * option (hash_map_t K V)) :=
  let (status, temporary) := init in
  if negb (bool_decide (status = STL_OK)) then mret (status, Some m) else
  '(status, temporary) ← put_all temporary entries;
  if negb (bool_decide (status = STL_OK)) then mret (status, Some m) else
  temporary ← lift temporary;
  let gen := u64 (hm_generation m + 1) in
  _ ← (if hm_initialized m then hash_map_raw_destroy_storage (Some m) else mret (Some m));
  mret (STL_OK, Some (with_generation temporary gen)).

(** The first [count] entries of two arrays; null arrays have none. *)
Definition array_entries (keys : option (list K)) (values : option (list V)) (count : Z) :
    option (option (list (K * V))) :=
  if count =? 0 then Some (Some []) else
  match keys, values with
  | Some ks, Some vs =>
      if (alen ks <? count) || (alen vs <? count) then None
      else Some (Some (zip (take (Z.to_nat count) ks) (take (Z.to_nat count) vs)))
  | _, _ => Some None
  end.

Definition hash_map_raw_from_arrays (map : option (hash_map_t K V)) (keys : option (list K))
    (values : option (list V)) (count : Z) (key_type : option (cmeta_type_desc K))
    (value_type : option (cmeta_type_desc V)) (entry_limit : Z) : M (stl_status * option (hash_map_t K V)) :=
  match map with
  | None => mret (STL_INVALID_ARGUMENT, map)
  | Some m =>
      entries ← lift (array_entries keys values count);
      match entries with
      | None => mret (STL_INVALID_ARGUMENT, map)
      | Some entries =>
          adopt_arrays m (hash_map_raw_init (Some (hash_zero 0)) key_type value_type entry_limit) entries
      end
  end.

Definition hash_map_from_arrays_bytes (map : option (hash_map_t K V)) (keys : option (list K))
    (values : option (list V)) (count key_size key_align value_size value_align entry_limit : Z)
    (hash : option (K → Z)) (equal : option (K → K → bool)) : M (stl_status * option (hash_map_t K V)) :=
  match map with
  | None => mret (STL_INVALID_ARGUMENT, map)
  | Some m =>
      entries ← lift (array_entries keys values count);
      match entries with
      | None => mret (STL_INVALID_ARGUMENT, map)
      | Some entries =>
          adopt_arrays m (hash_map_init_bytes (Some (hash_zero 0)) key_size key_align value_size value_align
            entry_limit hash equal) entries
      end
  end.
End HashOperations.

(** ** The default hash of byte keys *)

Definition hash_bytes (key : list Z) : Z :=
  let hash := fold_left (λ h b, u64 (Z.lxor h b * 1099511628211)) key 1469598103934665603 in
  if hash =? 0 then 1 else hash.

Definition hash_key_equal (left right : list Z) : bool := bool_decide (left = right).
