(* ===== verification/HashTable.v ===== *)
(** * Open addressing ([cstl/src/hash_map.c]): the table invariant

    What the cells of a hash map satisfy: an occupied cell holds a key under
    its hash and is reached by probing without meeting an empty cell. Under
    it the searches of [hash_map.c] are exact, and storing into the slot they
    find keeps it. *)

From Stdlib Require Import Permutation.
From S2P Require Import Prelude World Sequence HashMap.
Local Open Scope Z_scope.

(** ** Keys *)

(** Equality of keys is an equivalence that the hash respects. *)
Record key_laws {K} (hash : K → Z) (equal : K → K → bool) : Prop := {
  kl_refl x : equal x x = true;
  kl_sym x y : equal x y = true → equal y x = true;
  kl_trans x y z : equal x y = true → equal y z = true → equal x z = true;
  kl_hash x y : equal x y = true → hash x = hash y
}.

Section Table.
Context {K V : Type} (hash : K → Z) (equal : K → K → bool) (laws : key_laws hash equal).
Implicit Types (c : cell K V) (cells : list (cell K V)) (L : list (K * V)).

Definition key_hash (k : K) : Z := if u64 (hash k) =? 0 then 1 else u64 (hash k).

Lemma equal_swap x y : equal x y = equal y x.
Proof.
  destruct (equal x y) eqn:Hxy, (equal y x) eqn:Hyx; try done.
  - apply (kl_sym _ _ laws) in Hxy. congruence.
  - apply (kl_sym _ _ laws) in Hyx. congruence.
Qed.

Lemma equal_cong x y z : equal x y = true → equal x z = equal y z.
Proof.
  intros Hxy. destruct (equal y z) eqn:Hyz.
  - by apply (kl_trans _ _ laws x y z).
  - destruct (equal x z) eqn:Hxz; [|done]. apply (kl_sym _ _ laws) in Hxy.
    by rewrite (kl_trans _ _ laws y x z) in Hyz.
Qed.

(** ** Tables of entries *)

(** No two entries have equal keys. *)
Fixpoint distinct L : Prop :=
  match L with
  | [] => True
  | e :: L => Forall (λ e', equal (fst e) (fst e') = false) L ∧ distinct L
  end.

Lemma distinct_perm L L' : L ≡ₚ L' → distinct L → distinct L'.
Proof.
  induction 1 as [|e L L' HL IH|e e' L|L L' L'' _ IH1 _ IH2]; cbn; [done| | |auto].
  - intros [He HD]. split; [by rewrite <- HL|auto].
  - intros [[He' He]%Forall_cons [H' HD]]. rewrite Forall_cons. rewrite (equal_swap (fst e) (fst e')). done.
Qed.

(** The table without the key, and with another value for it. *)
Definition without (k : K) L : list (K * V) := filter (λ e, equal (fst e) k = false) L.
Definition replaced (k : K) (v : V) L : list (K * V) :=
  (λ e, if equal (fst e) k then (fst e, v) else e) <$> L.
Definition lookup_key (k : K) L : option V :=
  snd <$> List.find (λ e, equal (fst e) k) L.

#[export] Instance without_perm k : Proper ((≡ₚ) ==> (≡ₚ)) (without k).
Proof. intros L L' HL. unfold without. by rewrite HL. Qed.
#[export] Instance replaced_perm k v : Proper ((≡ₚ) ==> (≡ₚ)) (replaced k v).
Proof. intros L L' HL. unfold replaced. by rewrite HL. Qed.

Lemma lookup_none k L :
  lookup_key k L = None ↔ Forall (λ e, equal (fst e) k = false) L.
Proof.
  unfold lookup_key. induction L as [|e L IH]; cbn; [done|].
  rewrite Forall_cons. destruct (equal (fst e) k) eqn:He; [naive_solver|]. rewrite IH. naive_solver.
Qed.

(** When an entry of the table has the key, it is the only one. *)
Lemma others_differ k k0 v0 L :
  equal k0 k = true → distinct ((k0, v0) :: L) → Forall (λ e, equal (fst e) k = false) L.
Proof.
  intros Hk [HL _]. eapply Forall_impl; [exact HL|]. cbn. intros e He.
  rewrite (equal_swap (fst e) k). rewrite <- (equal_cong _ _ (fst e) Hk). done.
Qed.

Lemma without_hit k k0 v0 L :
  equal k0 k = true → distinct ((k0, v0) :: L) → without k ((k0, v0) :: L) = L.
Proof.
  intros Hk HD. unfold without. rewrite filter_cons_False by (cbn; congruence).
  apply filter_all. intros e He. pose proof (others_differ _ _ _ _ Hk HD) as HF.
  rewrite Forall_forall in HF. by apply HF.
Qed.

Lemma replaced_hit k k0 v0 v L :
  equal k0 k = true → distinct ((k0, v0) :: L) → replaced k v ((k0, v0) :: L) = (k0, v) :: L.
Proof.
  intros Hk HD. unfold replaced. cbn. rewrite Hk. f_equal. pose proof (others_differ _ _ _ _ Hk HD) as HF.
  clear HD. induction HF as [|e L He HF IH]; cbn; [done|]. by rewrite He, IH.
Qed.

Lemma lookup_perm k L L' : L ≡ₚ L' → distinct L → lookup_key k L = lookup_key k L'.
Proof.
  intros HL HD. destruct (lookup_key k L') as [v|] eqn:E.
  - unfold lookup_key in *. destruct (List.find _ L') as [[k0 v0]|] eqn:Ef; [|done]. cbn in E. simplify_eq.
    apply find_some in Ef as [Hin Hk]. cbn in Hk. apply list_elem_of_In in Hin. rewrite <- HL in Hin.
    apply list_elem_of_split in Hin as (L1 & L2 & ->).
    assert (Forall (λ e, equal (fst e) k = false) (L1 ++ L2)) as HF.
    { apply (others_differ k k0 v); [done|]. eapply distinct_perm; [|exact HD]. by rewrite Permutation_middle. }
    apply Forall_app in HF as [HF _]. clear -HF Hk.
    induction HF as [|e L1 He HF IH]; cbn; [by rewrite Hk|]. by rewrite He.
  - apply lookup_none. apply lookup_none in E. by rewrite HL.
Qed.

(** ** Cells *)

Definition entry_of c : option (K * V) :=
  if c_state c =? SALTS_HASH_OCCUPIED then k ← c_key c; v ← c_value c; Some (k, v) else None.

Definition entries cells : list (K * V) := omap entry_of cells.

(** An occupied cell holds a key, its hash and a value; the others hold no
    object ([kt], [vt]: keys and values are objects). *)
Definition cell_ok (kt vt : bool) c : Prop :=
  (c_state c = SALTS_HASH_EMPTY ∨ c_state c = SALTS_HASH_OCCUPIED ∨ c_state c = SALTS_HASH_TOMBSTONE) ∧
  (if c_state c =? SALTS_HASH_OCCUPIED
   then ∃ k v, c_key c = Some k ∧ c_value c = Some v ∧ c_hash c = key_hash k
   else (kt = true → c_key c = None) ∧ (vt = true → c_value c = None)).

(** The [p]-th slot of the probe sequence of [h]. *)
Definition probe (n h p : Z) : Z := (h + p) mod n.

(** Slot [s] is met when probing for [h], before any empty cell. *)
Definition reached cells (h s : Z) : Prop :=
  ∃ p, 0 <= p < alen cells ∧ probe (alen cells) h p = s ∧
    ∀ q c, 0 <= q < p → aget cells (probe (alen cells) h q) = Some c → c_state c ≠ SALTS_HASH_EMPTY.

Record table_ok (kt vt : bool) cells : Prop := {
  tb_size : cells = [] ∨ ∃ k, 0 <= k < 64 ∧ alen cells = 2 ^ k;
  tb_cells : Forall (cell_ok kt vt) cells;
  tb_reached s c : aget cells s = Some c → c_state c = SALTS_HASH_OCCUPIED → reached cells (c_hash c) s;
  tb_distinct : distinct (entries cells)
}.

Lemma probe_slot_eq (m : hash_map_t K V) h p k :
  0 <= k < 64 → hm_capacity m = 2 ^ k → probe_slot m h p = probe (hm_capacity m) h p.
Proof.
  intros Hk Hc. unfold probe_slot, probe. rewrite Hc, land_ones_mod by lia.
  unfold u64. change 18446744073709551616 with (2 ^ 64).
  replace (2 ^ 64) with (2 ^ (64 - k) * 2 ^ k) by (rewrite <- Z.pow_add_r by lia; f_equal; lia).
  rewrite Z.mul_comm, Z.rem_mul_r by lia. rewrite Z.mul_comm, Z.mod_add by lia. by rewrite Z.mod_mod by lia.
Qed.

Lemma probe_range n h p : 0 < n → 0 <= probe n h p < n.
Proof. intros. unfold probe. apply Z.mod_pos_bound. lia. Qed.

(** Probing meets every slot. *)
Lemma probe_onto n h s : 0 <= s < n → ∃ p, 0 <= p < n ∧ probe n h p = s.
Proof.
  intros Hs. exists ((s - h) mod n). split; [apply Z.mod_pos_bound; lia|]. unfold probe.
  rewrite Z.add_mod_idemp_r by lia. replace (h + (s - h)) with s by lia. by apply Z.mod_small.
Qed.
(** ** The searches *)

Lemma key_hash_eq x y : equal x y = true → key_hash x = key_hash y.
Proof. intros H. unfold key_hash. by rewrite (kl_hash _ _ laws x y H). Qed.

Lemma entries_elem cells k v :
  (k, v) ∈ entries cells ↔
  ∃ s c, aget cells s = Some c ∧ c_state c = SALTS_HASH_OCCUPIED ∧ c_key c = Some k ∧ c_value c = Some v.
Proof.
  unfold entries. rewrite list_elem_of_omap. split.
  - intros (c & Hc & He). apply list_elem_of_lookup in Hc as [i Hi]. exists (Z.of_nat i), c.
    unfold aget. rewrite (proj2 (Z.ltb_ge _ _)), Nat2Z.id by lia. split; [done|].
    unfold entry_of in He. destruct (Z.eqb_spec (c_state c) SALTS_HASH_OCCUPIED); [|done].
    destruct (c_key c), (c_value c); cbn in He; simplify_eq. done.
  - intros (s & c & [_ Hc]%aget_Some & Hs & Hk & Hv). exists c. split; [by eapply list_elem_of_lookup_2|].
    unfold entry_of. rewrite Hs. cbn. by rewrite Hk, Hv.
Qed.

Section Searches.
Context (kt vt : bool) (m : hash_map_t K V).
Context (Hequal : map_equal_fn m = Some equal) (Hok : table_ok kt vt (hm_cells m)).
Context (Hcap : hm_capacity m = alen (hm_cells m)).

Lemma cell_at s : 0 <= s < hm_capacity m →
  ∃ c, aget (hm_cells m) s = Some c ∧ cell_ok kt vt c.
Proof.
  intros Hs. destruct (aget_in_bounds (hm_cells m) s) as [c Hc]; [lia|]. exists c. split; [done|].
  pose proof (tb_cells _ _ _ Hok) as HF. rewrite Forall_forall in HF. apply HF.
  apply aget_Some in Hc as [_ Hc]. by eapply list_elem_of_lookup_2.
Qed.

(** A slot that holds the key. *)
Definition hits (key : K) (s : Z) : Prop :=
  ∃ c k, aget (hm_cells m) s = Some c ∧ c_state c = SALTS_HASH_OCCUPIED ∧ c_key c = Some k ∧ equal k key = true.

Lemma find_loop_ok key n : ∀ p,
  hm_capacity m ≠ 0 → 0 <= p → p + Z.of_nat n = hm_capacity m →
  (∀ q c, 0 <= q < p → aget (hm_cells m) (probe (hm_capacity m) (key_hash key) q) = Some c →
     c_state c ≠ SALTS_HASH_EMPTY) →
  (∀ q, 0 <= q < p → ¬ hits key (probe (hm_capacity m) (key_hash key) q)) →
  ∃ r, find_loop m key (key_hash key) n p = Some r ∧
    match r with
    | Some s => hits key s
    | None => ∀ s, ¬ hits key s
    end.
Proof.
  intros p Hc0. destruct (tb_size _ _ _ Hok) as [Hnil|(k & Hk & Hpow)]; [rewrite Hnil in Hcap; done|].
  assert (∀ p, (∀ q c, 0 <= q < p → aget (hm_cells m) (probe (hm_capacity m) (key_hash key) q) = Some c →
       c_state c ≠ SALTS_HASH_EMPTY) → (∀ q, 0 <= q < p → ¬ hits key (probe (hm_capacity m) (key_hash key) q)) →
    (p = hm_capacity m ∨ ∃ c, aget (hm_cells m) (probe (hm_capacity m) (key_hash key) p) = Some c ∧
       c_state c = SALTS_HASH_EMPTY) → 0 <= p → ∀ s, ¬ hits key s) as Habsent.
  { clear p. intros p Hfull Hmiss Hend Hp s (c & k0 & Hc & Hst & Hkey & Heq).
    destruct (tb_reached _ _ _ Hok s c Hc Hst) as (q & Hq & Hs & Hbefore).
    pose proof (proj1 (Forall_forall _ _) (tb_cells _ _ _ Hok) c) as Hcell.
    destruct Hcell as [_ Hcell]; [by apply aget_Some in Hc as [_ Hc]; eapply list_elem_of_lookup_2|].
    rewrite Hst in Hcell. cbn in Hcell. destruct Hcell as (k1 & v1 & Hk1 & _ & Hh).
    rewrite Hk1 in Hkey. injection Hkey as <-.
    rewrite Hh, (key_hash_eq _ _ Heq), <- Hcap in Hs, Hbefore. rewrite <- Hcap in Hq.
    destruct (Z.lt_trichotomy q p) as [Hlt|[->|Hgt]].
    - apply (Hmiss q); [lia|]. rewrite Hs. by exists c, k1.
    - destruct Hend as [->|(c' & Hc' & He)]; [lia|]. rewrite Hs in Hc'. simplify_eq. by rewrite Hst in He.
    - destruct Hend as [->|(c' & Hc' & He)]; [lia|]. by apply (Hbefore p c'); [lia|..]. }
  revert p. induction n as [|n IH]; intros p Hp Hn Hfull Hmiss; cbn [find_loop].
  { exists None. split; [done|]. apply (Habsent p); auto. lia. }
  rewrite (probe_slot_eq m _ _ k) by (done || congruence).
  pose proof (probe_range (hm_capacity m) (key_hash key) p ltac:(lia)) as Hr.
  destruct (cell_at _ Hr) as (c & Hc & _ & Hcell). rewrite Hc. cbn [mbind option_bind].
  destruct (Z.eqb_spec (c_state c) SALTS_HASH_EMPTY) as [He|Hne].
  { exists None. split; [done|]. apply (Habsent p); eauto. }
  assert (∀ q c, 0 <= q < p + 1 → aget (hm_cells m) (probe (hm_capacity m) (key_hash key) q) = Some c →
    c_state c ≠ SALTS_HASH_EMPTY) as Hfull'.
  { intros q c' Hq. destruct (decide (q = p)) as [->|]; [intros; by simplify_eq|apply Hfull; lia]. }
  destruct (Z.eqb_spec (c_state c) SALTS_HASH_OCCUPIED) as [Hoc|Hoc]; cbn [andb]; cycle 1.
  { apply IH; [lia|lia|done|]. intros q Hq. destruct (decide (q = p)) as [->|]; [|apply Hmiss; lia].
    intros (c' & k' & Hc' & Hst & _). by simplify_eq. }
  destruct Hcell as (k0 & v0 & Hk0 & Hv0 & Hh0).
  destruct (Z.eqb_spec (c_hash c) (key_hash key)) as [Hh|Hh]; cycle 1.
  { apply IH; [lia|lia|done|]. intros q Hq. destruct (decide (q = p)) as [->|]; [|apply Hmiss; lia].
    intros (c' & k' & Hc' & Hst & Hk' & Heq). simplify_eq. apply key_hash_eq in Heq. congruence. }
  rewrite Hk0. cbn [mbind option_bind]. unfold hash_map_equal. rewrite Hequal. cbn [mbind option_bind].
  destruct (equal k0 key) eqn:Heq.
  - eexists. split; [done|]. by exists c, k0.
  - apply IH; [lia|lia|done|]. intros q Hq. destruct (decide (q = p)) as [->|]; [|apply Hmiss; lia].
    intros (c' & k' & Hc' & Hst & Hk' & Heq'). simplify_eq. congruence.
Qed.

(** The search finds the key exactly when it is there. *)
Lemma find_slot_ok key :
  ∃ r, hash_map_find_slot m key (key_hash key) = Some r ∧
    match r with
    | Some s => hits key s
    | None => ∀ s, ¬ hits key s
    end.
Proof.
  unfold hash_map_find_slot. destruct (Z.eqb_spec (hm_capacity m) 0) as [Hz|Hz].
  - exists None. split; [done|]. intros s (c & k & [Hs _]%aget_Some & _). lia.
  - pose proof (alen_nonneg (hm_cells m)). apply find_loop_ok; try done; try lia.
Qed.

(** A slot that is free to be stored into. *)
Definition free_slot (h s : Z) : Prop :=
  (∃ c, aget (hm_cells m) s = Some c ∧ c_state c ≠ SALTS_HASH_OCCUPIED) ∧ reached (hm_cells m) h s.

Lemma insert_loop_ok h n : ∀ p ft,
  hm_capacity m ≠ 0 → hm_capacity m < SIZE_MAX →
  (∃ s c, aget (hm_cells m) s = Some c ∧ c_state c ≠ SALTS_HASH_OCCUPIED) →
  0 <= p → p + Z.of_nat n = hm_capacity m →
  (∀ q c, 0 <= q < p → aget (hm_cells m) (probe (hm_capacity m) h q) = Some c →
     c_state c ≠ SALTS_HASH_EMPTY) →
  (if ft =? SIZE_MAX
   then ∀ q c, 0 <= q < p → aget (hm_cells m) (probe (hm_capacity m) h q) = Some c → c_state c = SALTS_HASH_OCCUPIED
   else free_slot h ft) →
  ∃ s, insert_loop m h n p ft = Some s ∧ free_slot h s.
Proof.
  intros p ft Hc0 Hmax (s0 & c0 & Hs0 & Hfree0).
  destruct (tb_size _ _ _ Hok) as [Hnil|(k & Hk & Hpow)]; [rewrite Hnil in Hcap; done|].
  revert p ft. induction n as [|n IH]; intros p ft Hp Hn Hfull Hft; cbn [insert_loop].
  { exists ft. split; [done|]. destruct (ft =? SIZE_MAX); [|done]. exfalso.
    destruct (aget_Some _ _ _ Hs0) as [Hr0 _]. rewrite <- Hcap in Hr0.
    destruct (probe_onto (hm_capacity m) h s0 Hr0) as (q & Hq & Hqs). apply Hfree0, (Hft q); [lia|by rewrite Hqs]. }
  rewrite (probe_slot_eq m _ _ k) by (done || congruence).
  pose proof (probe_range (hm_capacity m) h p ltac:(lia)) as Hr.
  destruct (cell_at _ Hr) as (c & Hc & Hstate & _). rewrite Hc. cbn [mbind option_bind].
  assert (c_state c ≠ SALTS_HASH_OCCUPIED → free_slot h (probe (hm_capacity m) h p)) as Hhere.
  { intros Hno. split; [by exists c|]. exists p. rewrite <- Hcap. split; [lia|]. split; [done|]. exact Hfull. }
  assert (c_state c ≠ SALTS_HASH_EMPTY → ∀ q c, 0 <= q < p + 1 →
    aget (hm_cells m) (probe (hm_capacity m) h q) = Some c → c_state c ≠ SALTS_HASH_EMPTY) as Hfull'.
  { intros Hne q c' Hq. destruct (decide (q = p)) as [->|]; [intros; by simplify_eq|apply Hfull; lia]. }
  assert (c_state c ≠ SALTS_HASH_OCCUPIED →
    free_slot h (if ft =? SIZE_MAX then probe (hm_capacity m) h p else ft)) as Hpick.
  { intros Hno. destruct (ft =? SIZE_MAX); [by apply Hhere|done]. }
  destruct (Z.eqb_spec (c_state c) SALTS_HASH_TOMBSTONE) as [Ht|Ht].
  - apply IH; [lia|lia|apply Hfull'; by rewrite Ht|].
    destruct (Z.eqb_spec ft SIZE_MAX) as [Hft0|Hft0].
    + rewrite (proj2 (Z.eqb_neq _ _)) by lia. apply Hhere. by rewrite Ht.
    + by rewrite (proj2 (Z.eqb_neq _ _)).
  - destruct (Z.eqb_spec (c_state c) SALTS_HASH_EMPTY) as [He|He].
    + eexists. split; [done|]. apply Hpick. by rewrite He.
    + apply IH; [lia|lia|by apply Hfull'|]. destruct (ft =? SIZE_MAX); [|done].
      intros q c' Hq. destruct (decide (q = p)) as [->|]; [|apply Hft; lia]. intros. simplify_eq. naive_solver.
Qed.

(** A table with more slots than entries has a free one. *)
Lemma free_exists cells :
  Forall (cell_ok kt vt) cells → alen (entries cells) < alen cells →
  ∃ s c, aget cells s = Some c ∧ c_state c ≠ SALTS_HASH_OCCUPIED.
Proof using Type.
  induction 1 as [|c cells Hc HF IH]; unfold entries, alen; cbn; [lia|]. intros Hlt.
  destruct (decide (c_state c = SALTS_HASH_OCCUPIED)) as [Ho|]; [|by exists 0, c].
  destruct Hc as [_ Hc]. rewrite Ho in Hc. cbn in Hc. destruct Hc as (k & v & Hk & Hv & _).
  assert (entry_of c = Some (k, v)) as He.
  { unfold entry_of. rewrite Ho. cbn. by rewrite Hk, Hv. }
  rewrite He in Hlt. cbn in Hlt. destruct IH as (s & d & Hd & Hs); [unfold entries, alen; lia|].
  exists (s + 1), d. split; [|done]. apply aget_Some in Hd as [? Hd]. unfold aget.
  rewrite (proj2 (Z.ltb_ge _ _)) by lia. by replace (Z.to_nat (s + 1)) with (S (Z.to_nat s)) by lia.
Qed.

Lemma insert_slot_ok h :
  hm_capacity m < SIZE_MAX → alen (entries (hm_cells m)) < hm_capacity m →
  ∃ s, hash_map_insert_slot m h = Some s ∧ free_slot h s.
Proof.
  intros Hmax Hlt. pose proof (alen_nonneg (entries (hm_cells m))). unfold hash_map_insert_slot.
  apply insert_loop_ok; try done; try lia.
  - apply free_exists; [apply Hok|lia].
  - rewrite Z.eqb_refl. intros q c Hq. lia.
Qed.
End Searches.

(** ** Changes *)

Lemma cells_split cells s c :
  aget cells s = Some c → ∃ l1 l2, cells = l1 ++ c :: l2 ∧ s = alen l1 ∧
    ∀ c', aset cells s c' = Some (l1 ++ c' :: l2).
Proof using Type.
  intros [Hs Hc]%aget_Some. exists (take (Z.to_nat s) cells), (drop (S (Z.to_nat s)) cells).
  assert (cells = take (Z.to_nat s) cells ++ c :: drop (S (Z.to_nat s)) cells) as E by by rewrite take_drop_middle.
  assert (s = alen (take (Z.to_nat s) cells)) as El.
  { unfold alen in *. rewrite length_take. lia. }
  split; [done|]. split; [done|]. intros c'. rewrite E at 1. by rewrite aset_middle.
Qed.

Lemma entries_middle l1 c l2 :
  entries (l1 ++ c :: l2) = entries l1 ++ option_list (entry_of c) ++ entries l2.
Proof using Type. unfold entries. rewrite omap_app. cbn. by destruct (entry_of c). Qed.

Lemma aget_other l1 c c' l2 s : s ≠ alen l1 → aget (l1 ++ c' :: l2) s = aget (l1 ++ c :: l2) s.
Proof using Type.
  intros Hs. unfold aget. destruct (Z.ltb_spec s 0); [done|]. unfold alen in Hs.
  destruct (decide (Z.to_nat s < length l1)%nat).
  - by rewrite !lookup_app_l by lia.
  - rewrite !lookup_app_r by lia. by destruct (Z.to_nat s - length l1)%nat eqn:E; [lia|].
Qed.

(** Probing still reaches what it reached when a cell is filled or marked. *)
Lemma reached_change l1 c c' l2 h s :
  c_state c' ≠ SALTS_HASH_EMPTY → reached (l1 ++ c :: l2) h s → reached (l1 ++ c' :: l2) h s.
Proof using Type.
  intros Hne (p & Hp & Hs & Hbefore).
  assert (alen (l1 ++ c' :: l2) = alen (l1 ++ c :: l2)) as El.
  { unfold alen. by rewrite !length_app. }
  exists p. rewrite El. split; [done|]. split; [done|]. intros q d Hq Hd.
  destruct (decide (probe (alen (l1 ++ c :: l2)) h q = alen l1)) as [E|].
  - rewrite E, aget_middle in Hd by done. by simplify_eq.
  - rewrite (aget_other l1 c) in Hd by done. by apply (Hbefore q).
Qed.

Lemma table_change kt vt l1 c c' l2 :
  table_ok kt vt (l1 ++ c :: l2) → c_state c' ≠ SALTS_HASH_EMPTY → cell_ok kt vt c' →
  (c_state c' = SALTS_HASH_OCCUPIED → reached (l1 ++ c :: l2) (c_hash c') (alen l1)) →
  distinct (entries (l1 ++ c' :: l2)) → table_ok kt vt (l1 ++ c' :: l2).
Proof using Type.
  intros [Hsize Hcells Hreach _] Hne Hc' Hr Hdist. split; [| | |done].
  - right. destruct Hsize as [Hnil|(k & Hk & Hlen)]; [by destruct l1|]. exists k. split; [done|].
    rewrite <- Hlen. unfold alen. by rewrite !length_app.
  - apply Forall_app in Hcells as [H1 [_ H2]%Forall_cons]. apply Forall_app. auto.
  - intros s d Hd Ho. apply (reached_change l1 c); [done|]. destruct (decide (s = alen l1)) as [->|].
    + rewrite aget_middle in Hd by done. simplify_eq. auto.
    + rewrite (aget_other l1 c) in Hd by done. by apply Hreach.
Qed.

(** Storing a new key into a free slot. *)
Lemma store_ok kt vt cells s c k v :
  table_ok kt vt cells → aget cells s = Some c → c_state c ≠ SALTS_HASH_OCCUPIED →
  reached cells (key_hash k) s → Forall (λ e, equal (fst e) k = false) (entries cells) →
  ∃ cells', aset cells s (MkCell SALTS_HASH_OCCUPIED (key_hash k) (Some k) (Some v)) = Some cells' ∧
    table_ok kt vt cells' ∧ entries cells' ≡ₚ (k, v) :: entries cells.
Proof.
  intros Hok Hc Hno Hr Hnew. destruct (cells_split _ _ _ Hc) as (l1 & l2 & -> & -> & Hset).
  rewrite Hset. eexists. split; [done|].
  assert (entry_of c = None) as Hnone.
  { unfold entry_of. by rewrite (proj2 (Z.eqb_neq _ _)). }
  assert (entries (l1 ++ MkCell SALTS_HASH_OCCUPIED (key_hash k) (Some k) (Some v) :: l2) ≡ₚ
    (k, v) :: entries (l1 ++ c :: l2)) as HP.
  { rewrite !entries_middle, Hnone. cbn. by rewrite Permutation_middle. }
  split; [|done]. apply (table_change kt vt l1 c); try done.
  - split; [naive_solver|]. cbn. eauto.
  - eapply distinct_perm; [symmetry; exact HP|]. split; [|apply Hok]. eapply Forall_impl; [exact Hnew|].
    cbn. intros e He. by rewrite equal_swap.
Qed.
Lemma entry_of_occupied c k v :
  c_state c = SALTS_HASH_OCCUPIED → c_key c = Some k → c_value c = Some v → entry_of c = Some (k, v).
Proof using Type. intros Hs Hk Hv. unfold entry_of. rewrite Hs. cbn. by rewrite Hk, Hv. Qed.

(** The value of an entry is replaced. *)
Lemma replace_ok kt vt cells s c k0 v0 key v :
  table_ok kt vt cells → aget cells s = Some c → c_state c = SALTS_HASH_OCCUPIED →
  c_key c = Some k0 → c_value c = Some v0 → equal k0 key = true →
  ∃ cells', aset cells s (MkCell (c_state c) (c_hash c) (c_key c) (Some v)) = Some cells' ∧
    table_ok kt vt cells' ∧ entries cells' ≡ₚ replaced key v (entries cells).
Proof.
  intros Hok Hc Hst Hk0 Hv0 Heq. pose proof (tb_reached _ _ _ Hok _ _ Hc Hst) as Hreach.
  pose proof (tb_distinct _ _ _ Hok) as Hdist.
  pose proof (proj1 (Forall_forall _ _) (tb_cells _ _ _ Hok) c) as Hcell.
  destruct (cells_split _ _ _ Hc) as (l1 & l2 & -> & -> & Hset). rewrite Hset. eexists. split; [done|].
  destruct Hcell as [_ Hcell]; [set_solver|]. rewrite Hst in Hcell. cbn in Hcell.
  assert (entries (l1 ++ c :: l2) ≡ₚ (k0, v0) :: entries l1 ++ entries l2) as HP0.
  { rewrite entries_middle, (entry_of_occupied c k0 v0) by done. cbn. by rewrite Permutation_middle. }
  assert (entries (l1 ++ MkCell (c_state c) (c_hash c) (c_key c) (Some v) :: l2) ≡ₚ
    (k0, v) :: entries l1 ++ entries l2) as HP.
  { rewrite entries_middle, (entry_of_occupied _ k0 v) by done. cbn. by rewrite Permutation_middle. }
  assert (distinct ((k0, v0) :: entries l1 ++ entries l2)) as HD by (by eapply distinct_perm).
  split; cycle 1.
  { rewrite HP, HP0. by rewrite (replaced_hit key k0 v0 v). }
  apply (table_change kt vt l1 c); try done.
  - cbn. by rewrite Hst.
  - split; [naive_solver|]. cbn. rewrite Hst. cbn. destruct Hcell as (k1 & v1 & ? & ? & ?). eauto.
  - eapply distinct_perm; [symmetry; exact HP|]. exact HD.
Qed.

(** An entry is removed: its cell becomes a tombstone. *)
Lemma table_remove_ok kt vt cells s c k0 v0 key k v :
  table_ok kt vt cells → aget cells s = Some c → c_state c = SALTS_HASH_OCCUPIED →
  c_key c = Some k0 → c_value c = Some v0 → equal k0 key = true →
  (kt = true → k = None) → (vt = true → v = None) →
  ∃ cells', aset cells s (MkCell SALTS_HASH_TOMBSTONE (c_hash c) k v) = Some cells' ∧
    table_ok kt vt cells' ∧ entries cells' ≡ₚ without key (entries cells) ∧
    entries cells ≡ₚ (k0, v0) :: entries cells'.
Proof.
  intros Hok Hc Hst Hk0 Hv0 Heq Hk Hv. pose proof (tb_distinct _ _ _ Hok) as Hdist.
  destruct (cells_split _ _ _ Hc) as (l1 & l2 & -> & -> & Hset). rewrite Hset. eexists. split; [done|].
  assert (entries (l1 ++ c :: l2) ≡ₚ (k0, v0) :: entries l1 ++ entries l2) as HP0.
  { rewrite entries_middle, (entry_of_occupied c k0 v0) by done. cbn. by rewrite Permutation_middle. }
  assert (entries (l1 ++ MkCell SALTS_HASH_TOMBSTONE (c_hash c) k v :: l2) = entries l1 ++ entries l2) as HP.
  { by rewrite entries_middle. }
  assert (distinct ((k0, v0) :: entries l1 ++ entries l2)) as HD by (by eapply distinct_perm).
  rewrite HP. split; [|split; [|done]].
  - apply (table_change kt vt l1 c); try done; [split; cbn; auto|]. rewrite HP. apply HD.
  - rewrite HP0. by rewrite without_hit.
Qed.

(** A table of empty cells. *)
Lemma empty_ok kt vt cells :
  cells = [] ∨ (∃ k, 0 <= k < 64 ∧ alen cells = 2 ^ k) →
  Forall (λ c, c_state c = SALTS_HASH_EMPTY ∧ (kt = true → c_key c = None) ∧ (vt = true → c_value c = None)) cells →
  table_ok kt vt cells ∧ entries cells = [].
Proof using Type.
  intros Hsize HF. assert (entries cells = []) as He.
  { clear Hsize. induction HF as [|c cells [Hc _] HF IH]; [done|]. unfold entries. cbn.
    unfold entry_of. rewrite Hc. cbn. exact IH. }
  split; [|done]. split; [done| | |by rewrite He].
  - eapply Forall_impl; [exact HF|]. intros c (Hc & Hk & Hv). split; [by left|]. rewrite Hc. cbn. done.
  - intros s c Hc Ho. rewrite Forall_forall in HF. destruct (HF c) as [Hc' _]; [|by rewrite Hc' in Ho].
    apply aget_Some in Hc as [_ Hc]. by eapply list_elem_of_lookup_2.
Qed.

(** Whether a key is there, in terms of the entries. *)
Lemma hits_lookup kt vt (m : hash_map_t K V) key s :
  table_ok kt vt (hm_cells m) → hits m key s →
  ∃ c k v, aget (hm_cells m) s = Some c ∧ c_state c = SALTS_HASH_OCCUPIED ∧ c_key c = Some k ∧
    c_value c = Some v ∧ equal k key = true ∧ lookup_key key (entries (hm_cells m)) = Some v.
Proof.
  intros Hok (c & k & Hc & Hst & Hk & Heq).
  pose proof (proj1 (Forall_forall _ _) (tb_cells _ _ _ Hok) c) as Hcell.
  destruct Hcell as [_ Hcell]; [apply aget_Some in Hc as [_ Hc]; by eapply list_elem_of_lookup_2|].
  rewrite Hst in Hcell. cbn in Hcell. destruct Hcell as (k1 & v & Hk1 & Hv & _).
  rewrite Hk in Hk1. injection Hk1 as <-. exists c, k, v. do 5 (split; [done|]).
  destruct (cells_split _ _ _ Hc) as (l1 & l2 & E & _ & _). rewrite E.
  rewrite (lookup_perm key _ ((k, v) :: entries l1 ++ entries l2)).
  - unfold lookup_key. cbn. by rewrite Heq.
  - rewrite entries_middle, (entry_of_occupied c k v) by done. cbn. by rewrite Permutation_middle.
  - rewrite <- E. apply Hok.
Qed.

Lemma no_hits_lookup (m : hash_map_t K V) key :
  (∀ s, ¬ hits m key s) → Forall (λ e, equal (fst e) key = false) (entries (hm_cells m)).
Proof using Type.
  intros Hno. apply Forall_forall. intros [k v] (s & c & Hc & Hst & Hk & _)%entries_elem. cbn.
  destruct (equal k key) eqn:He; [|done]. destruct (Hno s). by exists c, k.
Qed.
End Table.
