(* ===== verification/HashMapSpec.v ===== *)
(** * The hash map ([cstl/src/hash_map.c]): refinement

    The invariant of a live map, growth and rehashing, and the theorem that
    every operation refines the same operation on a finite table of entries. *)

From Stdlib Require Import Permutation.
From S2P Require Import Prelude World Sequence HashMap HashTable.
Local Open Scope Z_scope.

(** ** Sizes *)

Lemma hash_mul_spec a b :
  0 < a → 0 <= b →
  hash_mul a b = if a * b <=? SIZE_MAX then (STL_OK, Some (a * b)) else (STL_CAPACITY_EXCEEDED, None).
Proof.
  intros Ha Hb. unfold hash_mul. rewrite (proj2 (Z.eqb_neq _ _)) by lia. cbn [negb andb].
  destruct (Z.leb_spec (a * b) SIZE_MAX) as [Hle|Hgt].
  - rewrite (proj2 (Z.ltb_ge _ _)); [done|]. apply Z.div_le_lower_bound; lia.
  - rewrite (proj2 (Z.ltb_lt _ _)); [done|]. apply Z.div_lt_upper_bound; lia.
Qed.

Lemma hash_add_spec a b :
  hash_add a b = if a + b <=? SIZE_MAX then (STL_OK, Some (a + b)) else (STL_CAPACITY_EXCEEDED, None).
Proof.
  unfold hash_add. destruct (Z.leb_spec (a + b) SIZE_MAX).
  - by rewrite (proj2 (Z.ltb_ge _ _)) by lia.
  - by rewrite (proj2 (Z.ltb_lt _ _)) by lia.
Qed.

Lemma hash_align_spec v a :
  is_u64 v → is_u64 a → sequence_alignment_valid a = true →
  if v + (a - 1) <=? SIZE_MAX then ∃ r, hash_align v a = (STL_OK, Some r) ∧ v <= r < v + a
  else hash_align v a = (STL_CAPACITY_EXCEEDED, None).
Proof.
  intros Hv Ha Hval. unfold hash_align. rewrite Hval. cbn [negb].
  destruct (proj1 (alignment_valid_pow2 a Ha) Hval) as (k & Hk & ->). pose proof (pow2_bounds k Hk).
  destruct (Z.leb_spec (v + (2 ^ k - 1)) SIZE_MAX).
  - rewrite (proj2 (Z.ltb_ge _ _)) by lia. destruct (align_up v k Hk Hv) as (q & -> & Hq); [done|]. eauto.
  - by rewrite (proj2 (Z.ltb_lt _ _)) by lia.
Qed.

(** A size computation: it may exceed the capacity, does not when [room], and
    else has a result between [lo] and [hi]. *)
Definition sized (r : stl_status * option Z) (room : Prop) (lo hi : Z) : Prop :=
  (r = (STL_CAPACITY_EXCEEDED, None) ∧ ¬ room) ∨ ∃ x, r = (STL_OK, Some x) ∧ lo <= x <= hi.

Lemma sized_step r next room lo hi room' lo' hi' :
  sized r room lo hi → (room' → room) →
  (∀ x, lo <= x <= hi → sized (next x) room' lo' hi') →
  sized (size_step r next) room' lo' hi' ∧ sized (size_capped r next) room' lo' hi'.
Proof. intros [[-> Hn]|(x & -> & Hx)] Hr Hnext; [split; left; auto|]. split; by apply Hnext. Qed.

Lemma sized_mul a b (room : Prop) : 0 < a → 0 <= b → (room → a * b <= SIZE_MAX) →
  sized (hash_mul a b) room (a * b) (Z.min (a * b) SIZE_MAX).
Proof.
  intros Ha Hb Hr. rewrite hash_mul_spec by done. destruct (Z.leb_spec (a * b) SIZE_MAX).
  - right. eexists. split; [done|]. lia.
  - left. split; [done|]. intros HR%Hr. lia.
Qed.

Lemma sized_add a b (room : Prop) : (room → a + b <= SIZE_MAX) →
  sized (hash_add a b) room (a + b) (Z.min (a + b) SIZE_MAX).
Proof.
  intros Hr. rewrite hash_add_spec. destruct (Z.leb_spec (a + b) SIZE_MAX).
  - right. eexists. split; [done|]. lia.
  - left. split; [done|]. intros HR%Hr. lia.
Qed.

Lemma sized_align v a (room : Prop) : is_u64 v → is_u64 a → sequence_alignment_valid a = true →
  (room → v + (a - 1) <= SIZE_MAX) → sized (hash_align v a) room v (Z.min (v + (a - 1)) SIZE_MAX).
Proof.
  intros Hv Ha Hval Hr. pose proof (hash_align_spec v a Hv Ha Hval) as H.
  destruct (Z.leb_spec (v + (a - 1)) SIZE_MAX).
  - destruct H as (r & -> & ?). right. eexists. split; [done|]. lia.
  - left. split; [done|]. intros HR%Hr. lia.
Qed.

Section Bytes.
Context (c ks ka vs va : Z).
Context (Hc : 0 < c <= SIZE_MAX) (Hks : 0 < ks <= SIZE_MAX) (Hvs : 0 < vs <= SIZE_MAX).
Context (Hka : is_u64 ka) (Hva : is_u64 va).
Context (Hkv : sequence_alignment_valid ka = true) (Hvv : sequence_alignment_valid va = true).

(** An upper bound for the bytes of a block. *)
Definition block_bytes : Z := c * (9 + ks + vs) + 8 + ka + va.

Lemma hash_map_bytes_cases :
  sized (hash_map_bytes c ks ka vs va) (block_bytes <= SIZE_MAX) c (Z.min block_bytes SIZE_MAX).
Proof.
  assert (0 < ka ∧ 0 < va) as [Hka0 Hva0].
  { unfold sequence_alignment_valid, is_u64 in *. split; [destruct (Z.eqb_spec ka 0)|destruct (Z.eqb_spec va 0)]; done || lia. }
  unfold block_bytes, hash_map_bytes. assert (0 < c * ks ∧ 0 < c * vs) as [? ?] by nia.
  assert (c * (9 + ks + vs) = 9 * c + c * ks + c * vs) as -> by lia.
  assert (∀ x, 0 <= x <= SIZE_MAX → is_u64 x) as Hu by (unfold is_u64, SIZE_MAX; done).
  eapply sized_step; [apply (sized_mul c 1 (9 * c + c * ks + c * vs + 8 + ka + va <= SIZE_MAX)); lia|done|intros x1 H1].
  eapply sized_step; [apply (sized_align x1 alignof_size_t (9 * c + c * ks + c * vs + 8 + ka + va <= SIZE_MAX));
    [apply Hu; lia|done|done|unfold alignof_size_t; lia]|done|intros x2 H2]. unfold alignof_size_t in H2.
  eapply sized_step; [apply (sized_mul c 8 (9 * c + c * ks + c * vs + 8 + ka + va <= SIZE_MAX)); lia|done|intros x3 H3].
  eapply sized_step; [apply (sized_add x2 x3 (9 * c + c * ks + c * vs + 8 + ka + va <= SIZE_MAX)); lia|done|intros x4 H4].
  eapply sized_step; [apply (sized_align x4 ka (9 * c + c * ks + c * vs + 8 + ka + va <= SIZE_MAX));
    [apply Hu; lia|done|done|lia]|done|intros x5 H5].
  eapply sized_step; [apply (sized_mul c ks (9 * c + c * ks + c * vs + 8 + ka + va <= SIZE_MAX)); lia|done|intros x6 H6].
  eapply sized_step; [apply (sized_add x5 x6 (9 * c + c * ks + c * vs + 8 + ka + va <= SIZE_MAX)); lia|done|intros x7 H7].
  eapply sized_step; [apply (sized_align x7 va (9 * c + c * ks + c * vs + 8 + ka + va <= SIZE_MAX));
    [apply Hu; lia|done|done|lia]|done|intros x8 H8].
  eapply sized_step; [apply (sized_mul c vs (9 * c + c * ks + c * vs + 8 + ka + va <= SIZE_MAX)); lia|done|intros x9 H9].
  eapply sized_step; [apply (sized_add x8 x9 (9 * c + c * ks + c * vs + 8 + ka + va <= SIZE_MAX)); lia|done|intros x10 H10].
  right. exists x10. split; [done|]. lia.
Qed.
End Bytes.

(** ** The number of buckets *)

Lemma buckets_loop_ok requested fuel : ∀ k,
  4 <= k < 64 → requested <= SIZE_MAX → 64 - k < Z.of_nat fuel →
  ∃ st b, buckets_loop fuel requested (2 ^ k) = Some (st, b) ∧
    (st = STL_OK ∨ (st = STL_CAPACITY_EXCEEDED ∧ 2 ^ 63 < requested)) ∧
    (st = STL_OK → ∃ j, 4 <= j < 64 ∧ b = 2 ^ j ∧ requested <= b ∧ (b = 2 ^ k ∨ (2 ^ k < requested ∧ b < 2 * requested))).
Proof.
  induction fuel as [|fuel IH]; intros k Hk Hr Hf; [lia|]. cbn [buckets_loop].
  destruct (Z.ltb_spec (2 ^ k) requested) as [Hlt|Hge]; cycle 1.
  { do 2 eexists. split; [done|]. split; [by left|]. intros _. exists k. split_and!; try done; first [by left|lia]. }
  assert (k = 63 ∨ k < 63) as [->|Hk'] by lia.
  { rewrite (proj2 (Z.ltb_lt _ _)) by (by vm_compute). do 2 eexists. split; [done|]. split; [by right|done]. }
  rewrite (proj2 (Z.ltb_ge _ _)).
  2:{ transitivity (2 ^ 62); [apply Z.pow_le_mono_r; lia|by vm_compute]. }
  replace (2 ^ k * 2) with (2 ^ (k + 1)) by (rewrite Z.pow_add_r by lia; done).
  destruct (IH (k + 1)) as (st & b & -> & Hst & Hb); [lia|done|lia|]. exists st, b. split; [done|]. split; [done|].
  intros Hok. destruct (Hb Hok) as (j & Hj & -> & Hrb & Hb'). exists j. split; [done|]. split; [done|]. split; [done|].
  right. split; [done|]. destruct Hb' as [->|[_ ?]]; [|done]. rewrite Z.pow_add_r by lia. lia.
Qed.

Lemma buckets_ok e :
  0 <= e <= SIZE_MAX →
  ∃ st b, hash_buckets_for_entries e = Some (st, b) ∧
    (st = STL_OK ∨ (st = STL_CAPACITY_EXCEEDED ∧ SIZE_MAX < 4 * e + 16)) ∧
    (st = STL_OK → (e = 0 ∧ b = 0) ∨ (e < b ∧ ∃ j, 4 <= j < 64 ∧ b = 2 ^ j ∧ b <= 4 * e + 16)).
Proof.
  intros He. unfold hash_buckets_for_entries. destruct (Z.eqb_spec e 0) as [->|Hz].
  { do 2 eexists. split; [done|]. split; [by left|]. by left. }
  rewrite (proj2 (Z.ltb_ge (SIZE_MAX / 3) _)).
  2:{ transitivity (SIZE_MAX / 7); [apply Z.div_le_mono; lia|by vm_compute]. }
  rewrite hash_add_spec.
  set (extra := e / 7 * 3 + (e mod 7 * 3 + 6) / 7).
  assert (1 <= extra <= e) as Hx by (subst extra; Z.to_euclidean_division_equations; lia).
  destruct (Z.leb_spec (e + extra) SIZE_MAX) as [Hle|Hgt]; cycle 1.
  { do 2 eexists. split; [done|]. split; [right; split; [done|lia]|done]. }
  set (req := if e + extra <? SALTS_HASH_MIN_BUCKETS then SALTS_HASH_MIN_BUCKETS else e + extra).
  assert (e + extra <= req ∧ req <= SIZE_MAX ∧ (req = 16 ∨ req <= 2 * e)) as (Hq1 & Hq2 & Hq3).
  { subst req. unfold SALTS_HASH_MIN_BUCKETS. case Z.ltb_spec; [|lia]. intros. split_and!; [lia|by vm_compute|lia]. }
  destruct (buckets_loop_ok req 65 4) as (st & b & Hrun & Hst & Hb); [lia|done|lia|].
  change (2 ^ 4) with SALTS_HASH_MIN_BUCKETS in Hrun. exists st, b. split; [exact Hrun|]. split.
  - destruct Hst as [->|[-> Hbig]]; [by left|]. right. split; [done|]. change (2 ^ 63) with 9223372036854775808 in Hbig.
    unfold_words. lia.
  - intros Hok. right. destruct (Hb Hok) as (j & Hj & -> & Hrb & Hb'). split; [lia|]. exists j.
    split; [done|]. split; [done|]. change (2 ^ 4) with 16 in Hb'. lia.
Qed.

(** ** Elements *)

Section ElementSteps.
Context {A : Type} (type : option (cmeta_type_desc A)) (Hok : type_ok type).

(** What a slot holds after its object is gone: bytes stay. *)
Definition gone (x : A) : slot A := if is_null type then Some x else None.

Lemma hash_destroy_ok x w :
  hash_destroy_value type (Some x) w =
  Some (gone x, MkWorld (w_malloc w) (w_blocks w) (w_objects w - owned type)).
Proof.
  unfold hash_destroy_value, gone, owned. destruct type as [t|]; cbn.
  - destruct Hok as (tr & copy & move & Htr & _ & Hd & _). rewrite Htr. wrun. rewrite Hd. cbn [negb]. wrun.
    by replace (w_objects w + -1) with (w_objects w - 1) by lia.
  - rewrite Z.sub_0_r. by destruct w.
Qed.

Lemma hash_move_ok x w :
  hash_move_construct type (Some x) w =
  Some (Some x, MkWorld (w_malloc w) (w_blocks w) (w_objects w + owned type)).
Proof.
  unfold hash_move_construct, owned. destruct type as [t|] eqn:Et; cbn [is_null].
  - destruct Hok as (tr & copy & move & Htr & _ & _ & _ & Hm & _ & Hid). 
    wstep (callback_run (Some t) tr_move_construct t tr move w eq_refl Htr Hm). wrun. by rewrite Hid.
  - rewrite Z.add_0_r. by destruct w.
Qed.

Lemma hash_move_destroy_ok x w :
  hash_move_destroy type (Some x) w = Some ((Some x, gone x), w).
Proof.
  unfold hash_move_destroy. wstep (hash_move_ok x w). 
  wstep (hash_destroy_ok x (MkWorld (w_malloc w) (w_blocks w) (w_objects w + owned type))). wrun. cbn.
  destruct w as [l b o]. cbn. by replace (o + owned type - owned type) with o by lia.
Qed.

Lemma hash_prepare_ok stride alignment x w :
  0 < stride <= SIZE_MAX → is_u64 alignment → sequence_alignment_valid alignment = true →
  ∃ st r w', hash_prepare type stride alignment x w = Some ((st, r), w') ∧
    (st = STL_OK → (∃ p, r = Some (p, x)) ∧ w_blocks w' = w_blocks w + 1 ∧ w_objects w' = w_objects w + owned type) ∧
    (st ≠ STL_OK → r = None ∧ w_same w w') ∧
    ((w_malloc w' = w_malloc w ∨ w_malloc w' = tail (w_malloc w)) ∧
     (∀ n, mallocs (S n) alignment w → stride + overhead alignment <= SIZE_MAX → copyable type x → st = STL_OK)).
Proof.
  intros Hs Ha Hv. unfold hash_prepare.
  destruct (allocate_cases 1 stride alignment w) as (st & p & w1 & E1 & Ho & Hb & Hen);
    [unfold_words; lia|done..|].
  pose proof (allocate_malloc _ _ _ _ _ _ _ E1) as Hmal. wstep E1. case_bool_decide as Hst; cbn [negb]; cycle 1.
  { destruct Hb as [-> Hb]. do 3 eexists. split; [done|]. split; [done|]. split; [done|]. split; [done|].
    intros n Hn Hr _. apply (Hen n); [done|lia]. }
  destruct Hb as [[a ->] Hb]. wrun. destruct type as [t|] eqn:Et; cycle 1.
  { do 3 eexists. split; [done|]. split; [intros _; split; [eauto|]; unfold owned; cbn; lia|]. done. }
  destruct Hok as (tr & copy & move & Htr & _ & _ & Hc & _ & Hcv & _).
  wstep (callback_run (Some t) tr_copy_construct t tr copy w1 eq_refl Htr Hc).
  destruct (copy x) as [y|] eqn:Ey.
  - apply Hcv in Ey as ->. wrun. do 3 eexists. split; [done|]. cbn. split; [|done].
    intros _. split; [eauto|]. unfold owned. cbn. lia.
  - cbn [sequence_deallocate]. unfold mfree. unfold mbind at 1, M_bind at 1. wrun.
    do 3 eexists. split; [done|]. cbn. split; [done|]. split; [intros _; split; [done|]; split; cbn; lia|].
    split; [done|]. intros n _ _ (tr' & copy' & E2 & E3 & [z E4]). simplify_eq.
Qed.

Lemma hash_discard_ok p x w :
  hash_discard type (Some (p, x)) w =
  Some (tt, MkWorld (w_malloc w) (w_blocks w - 1) (w_objects w - owned type)).
Proof. unfold hash_discard. wstep (hash_destroy_ok x w). done. Qed.
End ElementSteps.

(** ** The invariant of a map *)

Section Map.
Context {K V : Type} (hash : K → Z) (equal : K → K → bool) (laws : key_laws hash equal).
Implicit Types (m : hash_map_t K V) (cells : list (cell K V)) (L : list (K * V)).

Definition typed {A} (type : option (cmeta_type_desc A)) : bool := negb (is_null type).

Local Abbreviation cells_ok m := (table_ok hash equal (typed (key_type m)) (typed (value_type m))).

Definition tomb (c : cell K V) : Z := if c_state c =? SALTS_HASH_TOMBSTONE then 1 else 0.
Definition tombs cells : Z := foldr (λ c n, tomb c + n) 0 cells.

Local Arguments entries : simpl never.
Local Arguments tombs : simpl never.

(** The fields set when the map is initialised. *)
Record params_ok m : Prop := {
  mo_init : hm_initialized m = true;
  mo_sizes : key_size m ≠ 0 ∧ value_size m ≠ 0;
  mo_kstride : 0 < key_stride m <= SIZE_MAX;
  mo_vstride : 0 < value_stride m <= SIZE_MAX;
  mo_kalign : is_u64 (key_align m) ∧ sequence_alignment_valid (key_align m) = true;
  mo_valign : is_u64 (value_align m) ∧ sequence_alignment_valid (value_align m) = true;
  mo_limit : 0 <= entry_limit m <= SIZE_MAX;
  mo_ktype : type_ok (key_type m);
  mo_vtype : type_ok (value_type m);
  mo_hash : map_hash_fn m = Some hash;
  mo_equal : map_equal_fn m = Some equal
}.

Record map_ok m : Prop := {
  mo_params : params_ok m;
  mo_table : cells_ok m (hm_cells m);
  mo_capacity : hm_capacity m = alen (hm_cells m);
  mo_bound : hm_capacity m <= 4 * entry_limit m + 16;
  mo_block : hm_states m = None ↔ hm_capacity m = 0;
  mo_size : hm_size m = alen (entries (hm_cells m));
  mo_within : hm_size m <= entry_limit m;
  mo_tombs : hm_tombstones m = tombs (hm_cells m)
}.

(** The fields no operation on a live map changes. *)
Definition same_shape m m' : Prop :=
  key_size m' = key_size m ∧ key_stride m' = key_stride m ∧ key_align m' = key_align m ∧
  value_size m' = value_size m ∧ value_stride m' = value_stride m ∧ value_align m' = value_align m ∧
  entry_limit m' = entry_limit m ∧ key_type m' = key_type m ∧ value_type m' = value_type m ∧
  hm_hash m' = hm_hash m ∧ hm_equal m' = hm_equal m ∧ hm_initialized m' = hm_initialized m.

Lemma shape_trans m1 m2 m3 : same_shape m1 m2 → same_shape m2 m3 → same_shape m1 m3.
Proof using Type. unfold same_shape. intros. destruct_and!. split_and!; congruence. Qed.

Definition map_blocks m : Z := if is_null (hm_states m) then 0 else 1.

Lemma tombs_nonneg cells : 0 <= tombs cells.
Proof using Type. induction cells as [|c cells IH]; [done|]. change (tombs (c :: cells)) with (tomb c + tombs cells). unfold tomb. case_match; lia. Qed.

Lemma tombs_change l1 c c' l2 :
  tombs (l1 ++ c' :: l2) = tombs (l1 ++ c :: l2) - tomb c + tomb c'.
Proof using Type. unfold tombs. induction l1 as [|d l1 IH]; cbn; lia. Qed.

Lemma aset_tombs cells s c c' cells' :
  aget cells s = Some c → aset cells s c' = Some cells' → tombs cells' = tombs cells - tomb c + tomb c'.
Proof using Type.
  intros Hc Hs. destruct (cells_split _ _ _ Hc) as (l1 & l2 & -> & -> & Hset). rewrite Hset in Hs.
  injection Hs as <-. apply tombs_change.
Qed.

Lemma capacity_max m : map_ok m → hm_capacity m < SIZE_MAX.
Proof using Type.
  intros [_ Ht Hc _ _ _ _ _]. destruct (tb_size _ _ _ _ _ Ht) as [Hn|(k & Hk & Hl)].
  - rewrite Hc, Hn. by vm_compute.
  - rewrite Hc, Hl. apply Z.le_lt_trans with (2 ^ 63); [apply Z.pow_le_mono_r; lia|by vm_compute].
Qed.

(** ** Rehashing *)

Definition with_table m cells (size : Z) : hash_map_t K V :=
  with_counts (with_cells m cells) size (hm_tombstones m).

Lemma rehash_insert_run nx h k v s cells' w :
  type_ok (key_type nx) → type_ok (value_type nx) → hash_map_insert_slot nx h = Some s →
  aset (hm_cells nx) s (MkCell SALTS_HASH_OCCUPIED h (Some k) (Some v)) = Some cells' →
  hash_map_rehash_insert nx h (Some k) (Some v) w =
  Some (with_table nx cells' (hm_size nx + 1),
    MkWorld (w_malloc w) (w_blocks w) (w_objects w + owned (key_type nx) + owned (value_type nx))).
Proof using Type.
  intros Hkt Hvt Hs Hset. unfold hash_map_rehash_insert. rewrite Hs. wrun.
  wstep (hash_move_ok (key_type nx) Hkt k w).
  wstep (hash_move_ok (value_type nx) Hvt v (MkWorld (w_malloc w) (w_blocks w) (w_objects w + owned (key_type nx)))).
  rewrite Hset. by wrun.
Qed.

(** The loop moves every entry into the new table. *)
Lemma rehash_loop_ok m old : ∀ nx w,
  type_ok (key_type m) → type_ok (value_type m) → key_type nx = key_type m → value_type nx = value_type m →
  map_equal_fn nx = Some equal →
  cells_ok m (hm_cells nx) → hm_capacity nx = alen (hm_cells nx) → hm_capacity nx < SIZE_MAX →
  hm_size nx = alen (entries (hm_cells nx)) →
  Forall (cell_ok hash (typed (key_type m)) (typed (value_type m))) old →
  distinct equal (entries (hm_cells nx) ++ entries old) →
  alen (entries (hm_cells nx)) + alen (entries old) < hm_capacity nx →
  tombs (hm_cells nx) = 0 →
  ∃ cells', rehash_loop m old nx w = Some (with_table nx cells' (hm_size nx + alen (entries old)), w) ∧
    cells_ok m cells' ∧ alen cells' = alen (hm_cells nx) ∧ tombs cells' = 0 ∧
    entries cells' ≡ₚ entries (hm_cells nx) ++ entries old.
Proof.
  induction old as [|c old IH]; intros nx w Hkt Hvt Ekt Evt Heq Hok Hcap Hmax Hsize Hold Hdist Hroom Htomb;
    cbn [rehash_loop].
  { exists (hm_cells nx). unfold entries at 1 3. cbn. rewrite app_nil_r, Z.add_0_r. split_and!; try done.
    destruct nx; done. }
  apply Forall_cons in Hold as [[_ Hc] Hold].
  destruct (Z.eqb_spec (c_state c) SALTS_HASH_OCCUPIED) as [Ho|Ho]; cbn [negb]; cycle 1.
  { assert (entries (c :: old) = entries old) as E.
    { unfold entries. cbn. unfold entry_of. by rewrite (proj2 (Z.eqb_neq _ _)). }
    rewrite E in *. by apply IH. }
  destruct Hc as (k & v & Hk & Hv & Hh).
  assert (entries (c :: old) = (k, v) :: entries old) as E.
  { unfold entries. cbn. by rewrite (entry_of_occupied c k v). }
  rewrite E in *. rewrite Hk, Hv, Hh. unfold alen at 2 in Hroom. cbn in Hroom.
  assert (equal k k = true) as _ by apply laws.
  assert (Forall (λ e, equal (fst e) k = false) (entries (hm_cells nx))) as Hnew.
  { assert (distinct equal ((k, v) :: entries (hm_cells nx) ++ entries old)) as [HF _].
    { eapply (distinct_perm hash equal laws); [|exact Hdist]. by rewrite Permutation_middle. }
    apply Forall_app in HF as [HF _]. eapply Forall_impl; [exact HF|]. cbn. intros e He.
    by rewrite (equal_swap hash equal laws). }
  pose proof (alen_nonneg (entries old)) as Hpos.
  destruct (insert_slot_ok hash equal _ _ nx Hok Hcap (key_hash hash k) Hmax) as (s & Hslot & (d & Hd & Hdo) & Hreach); [lia|].
  destruct (store_ok hash equal laws _ _ _ s d k v Hok Hd Hdo Hreach Hnew) as (cells1 & Hset & Hok1 & Hent1).
  wstep (rehash_insert_run nx (key_hash hash k) k v s cells1 w ltac:(by rewrite Ekt) ltac:(by rewrite Evt) Hslot Hset).
  wstep (hash_destroy_ok (key_type m) Hkt k (MkWorld (w_malloc w) (w_blocks w)
    (w_objects w + owned (key_type nx) + owned (value_type nx)))).
  wstep (hash_destroy_ok (value_type m) Hvt v (MkWorld (w_malloc w) (w_blocks w)
    (w_objects w + owned (key_type nx) + owned (value_type nx) - owned (key_type m)))). cbn [w_malloc w_blocks w_objects].
  rewrite Ekt, Evt.
  replace (MkWorld (w_malloc w) (w_blocks w) _) with w by (destruct w; cbn; f_equal; lia).
  assert (alen cells1 = alen (hm_cells nx)) as Hlen1 by exact (aset_alen _ _ _ _ Hset).
  pose proof (aset_tombs _ _ _ _ _ Hd Hset) as Ht1. unfold tomb at 2 in Ht1. cbn in Ht1.
  pose proof (tombs_nonneg cells1). assert (0 <= tomb d) by (unfold tomb; case_match; lia).
  apply Permutation_length in Hent1 as Hn1. cbn in Hn1.
  destruct (IH (with_table nx cells1 (hm_size nx + 1)) w) as (cells' & Hrun & Hok' & Hlen' & Ht' & Hent');
    try done; cbn; try lia.
  - unfold alen in *. lia.
  - eapply (distinct_perm hash equal laws); [|exact Hdist]. rewrite Hent1. cbn. by rewrite Permutation_middle.
  - unfold alen in *. lia.
  - exists cells'. split_and!; try done.
    + rewrite Hrun. cbn [with_table with_counts with_cells hm_size].
      by replace (hm_size nx + alen ((k, v) :: entries old)) with (hm_size nx + 1 + alen (entries old))
        by (unfold alen; cbn; lia).
    + cbn in Hlen'. lia.
    + cbn in Hent'. rewrite Hent', Hent1. cbn. by rewrite Permutation_middle.
Qed.
(** The alignment of the block, and the largest block the limit allows. *)
Definition map_align m : Z := hash_max_alignment (key_align m) (value_align m).
Definition map_roomy m : Prop :=
  block_bytes (4 * entry_limit m + 16) (key_stride m) (key_align m) (value_stride m) (value_align m) +
    overhead (map_align m) <= SIZE_MAX.

Lemma map_align_ok m :
  params_ok m → is_u64 (map_align m) ∧ sequence_alignment_valid (map_align m) = true ∧
    key_align m <= map_align m ∧ value_align m <= map_align m.
Proof using Type.
  intros H. destruct (mo_kalign _ H) as [Hk Hkv], (mo_valign _ H) as [Hv Hvv].
  unfold map_align, hash_max_alignment, alignof_size_t.
  destruct (Z.ltb_spec 8 (key_align m)).
  - destruct (Z.ltb_spec (key_align m) (value_align m)); split_and!; done || lia.
  - destruct (Z.ltb_spec 8 (value_align m)); split_and!; done || lia || by vm_compute.
Qed.

Definition fresh_cells (b : Z) : list (cell K V) :=
  replicate (Z.to_nat b) (MkCell SALTS_HASH_EMPTY 0 None None).

Lemma allocate_map_ok m b w :
  params_ok m → 0 < b <= SIZE_MAX →
  ∃ st m' w', hash_map_allocate m b w = Some ((st, m'), w') ∧ w_objects w' = w_objects w ∧
    (w_malloc w' = w_malloc w ∨ w_malloc w' = tail (w_malloc w)) ∧
    (st ≠ STL_OK → w_blocks w' = w_blocks w) ∧
    (st = STL_OK → w_blocks w' = w_blocks w + 1 ∧
       ∃ p, m' = with_block m (Some p) (fresh_cells b) (hm_size m) b (hm_tombstones m)) ∧
    (b <= 4 * entry_limit m + 16 → map_roomy m → ∀ n, mallocs (S n) (map_align m) w → st = STL_OK).
Proof using Type.
  intros H Hb. destruct (mo_kalign _ H) as [Hk Hkv], (mo_valign _ H) as [Hv Hvv].
  pose proof (mo_kstride _ H) as Hks. pose proof (mo_vstride _ H) as Hvs.
  assert (b <= 4 * entry_limit m + 16 → map_roomy m →
    block_bytes b (key_stride m) (key_align m) (value_stride m) (value_align m) + overhead (map_align m) <= SIZE_MAX)
    as Hroom.
  { unfold map_roomy, block_bytes. intros Hle Hr. nia. }
  assert (0 < overhead (map_align m)) as Hov.
  { destruct (map_align_ok m H) as (_ & _ & Hle & _). unfold overhead, sizeof_ptr. unfold_words. lia. }
  unfold hash_map_allocate.
  destruct (hash_map_bytes_cases b (key_stride m) (key_align m) (value_stride m) (value_align m)
    Hb Hks Hvs Hk Hv Hkv Hvv) as [[-> Hno]|(total & -> & Htot)].
  { do 3 eexists. split; [done|]. split_and!; try done; [by left|]. intros Hle Hr. specialize (Hroom Hle Hr). lia. }
  destruct (map_align_ok m H) as (Ha & Hav & _ & _).
  destruct (allocate_cases 1 total (map_align m) w) as (st & p & w1 & E1 & Ho & Hbl & Hen);
    [unfold_words; lia|lia|done|done|].
  pose proof (allocate_malloc _ _ _ _ _ _ _ E1) as Hm. fold (map_align m). wstep E1.
  case_bool_decide as Hst; cbn [negb].
  - destruct Hbl as [[a ->] Hbl]. wrun. do 3 eexists. split; [done|]. split_and!; try done. intros _. split; [done|].
    by exists a.
  - destruct Hbl as [-> Hbl]. do 3 eexists. split; [done|]. split_and!; try done.
    intros Hle Hr n Hn. apply (Hen n Hn). specialize (Hroom Hle Hr). lia.
Qed.

Lemma fresh_table kt vt j :
  0 <= j < 64 → table_ok hash equal kt vt (fresh_cells (2 ^ j)) ∧ entries (fresh_cells (2 ^ j)) = [] ∧
    alen (fresh_cells (2 ^ j)) = 2 ^ j ∧ tombs (fresh_cells (2 ^ j)) = 0.
Proof using Type.
  intros Hj. pose proof (Z.pow_pos_nonneg 2 j ltac:(lia) ltac:(lia)) as Hp. unfold fresh_cells.
  assert (alen (replicate (Z.to_nat (2 ^ j)) (MkCell SALTS_HASH_EMPTY 0 (@None K) (@None V))) = 2 ^ j) as Hl.
  { unfold alen. rewrite length_replicate. lia. }
  destruct (empty_ok hash equal kt vt (replicate (Z.to_nat (2 ^ j)) (MkCell SALTS_HASH_EMPTY 0 (@None K) (@None V))))
    as [Hok He]; [right; eauto| |].
  { apply Forall_replicate. done. }
  split_and!; try done. clear. induction (Z.to_nat (2 ^ j)) as [|n IH]; [done|]. exact IH.
Qed.

Lemma params_shape m m' : same_shape m m' → params_ok m → params_ok m'.
Proof using Type.
  intros (E1 & E2 & E3 & E4 & E5 & E6 & E7 & E8 & E9 & E10 & E11 & E12) [? ? ? ? ? ? ? ? ? Hh He].
  unfold map_hash_fn in Hh. unfold map_equal_fn in He.
  split; unfold map_hash_fn, map_equal_fn; rewrite ?E1, ?E2, ?E3, ?E4, ?E5, ?E6, ?E7, ?E8, ?E9, ?E10, ?E11, ?E12; done.
Qed.

Lemma rehash_ok m b j w :
  map_ok m → 0 <= j < 64 → b = 2 ^ j → hm_size m < b → b <= 4 * entry_limit m + 16 →
  ∃ st m' w', hash_map_rehash m b w = Some ((st, m'), w') ∧
    (w_malloc w' = w_malloc w ∨ w_malloc w' = tail (w_malloc w)) ∧ w_objects w' = w_objects w ∧
    w_blocks w' - map_blocks m' = w_blocks w - map_blocks m ∧
    (st ≠ STL_OK → m' = m) ∧
    (st = STL_OK → map_ok m' ∧ same_shape m m' ∧ hm_capacity m' = b ∧ hm_size m' = hm_size m ∧
       entries (hm_cells m') ≡ₚ entries (hm_cells m)) ∧
    (map_roomy m → ∀ n, mallocs (S n) (map_align m) w → st = STL_OK).
Proof.
  intros Hm Hj Hb Hsize Hbound. pose proof (mo_params _ Hm) as Hp. unfold hash_map_rehash.
  pose proof (pow2_bounds j ltac:(lia)) as Hpow. change (2 ^ 63) with 9223372036854775808 in Hpow.
  set (blank := with_block m None [] 0 0 0).
  assert (params_ok blank) as Hpb by (apply (params_shape m); [done|done]).
  destruct (allocate_map_ok blank b w Hpb) as (st & nx & w1 & E1 & Ho & Hmal & Hfail & Hok & Hen);
    [unfold_words; lia|].
  wstep E1. case_bool_decide as Hst; cbn [negb]; cycle 1.
  { do 3 eexists. split; [done|]. split_and!; try done; [rewrite Hfail by done; lia|]. intros Hr n Hn. by apply (Hen Hbound Hr n). }
  destruct (Hok Hst) as (Hbl & p & ->). clear Hok.
  destruct (fresh_table (typed (key_type m)) (typed (value_type m)) j ltac:(lia)) as (Hft & Hfe & Hfl & Hftb).
  rewrite <- Hb in Hft, Hfe, Hfl, Hftb.
  destruct (rehash_loop_ok m (hm_cells m) (with_block blank (Some p) (fresh_cells b) (hm_size blank) b (hm_tombstones blank)) w1)
    as (cells' & Hrun & Hok' & Hlen' & Ht' & Hent'); cbn; try apply Hm; try apply Hp; try done; try lia.
  - unfold_words. lia.
  - by rewrite Hfe.
  - rewrite Hfe. apply Hm.
  - rewrite Hfe. rewrite (mo_size _ Hm) in Hsize. unfold alen at 1. cbn. lia.
  - wstep Hrun. destruct (deallocate_run (hm_states m) w1) as (w2 & E2 & Hm2 & Ho2 & Hb2). wstep E2.
    cbn [with_block hm_cells] in Hlen', Hent'. rewrite Hfe in Hent'. cbn in Hent'.
    apply Permutation_length in Hent' as Hn'.
    do 3 eexists. split; [done|]. split; [by rewrite Hm2|]. split; [lia|]. split; [unfold map_blocks; cbn; lia|].
    split; [done|]. split; [|by auto]. intros _. split; [|split_and!; try done].
    + split; cbn; try done; try lia.
      * by apply (params_shape m).
      * split; [done|lia].
      * unfold alen in *. lia.
      * pose proof (mo_size _ Hm). pose proof (mo_within _ Hm). lia.
    + cbn. pose proof (mo_size _ Hm). unfold alen in *. lia.
Qed.
(** Entries and tombstones share the slots. *)
Lemma entries_tombs cells : alen (entries cells) + tombs cells <= alen cells.
Proof using Type.
  induction cells as [|c cells IH]; [done|]. change (tombs (c :: cells)) with (tomb c + tombs cells).
  unfold entries in *. cbn. unfold entry_of at 1, tomb. unfold alen in *.
  destruct (Z.eqb_spec (c_state c) SALTS_HASH_OCCUPIED) as [E|E].
  - rewrite E. cbn. destruct (c_key c), (c_value c); cbn; lia.
  - destruct (c_state c =? SALTS_HASH_TOMBSTONE); cbn; lia.
Qed.

(** The slots a map may be given. *)
Definition bucket_count m (b : Z) : Prop :=
  b = 0 ∨ ∃ j, 0 <= j < 64 ∧ b = 2 ^ j ∧ b <= 4 * entry_limit m + 16.

Lemma adapt_ok m b w :
  map_ok m → bucket_count m b →
  ∃ st r m' w', hash_map_adapt m b w = Some ((st, r, m'), w') ∧
    (w_malloc w' = w_malloc w ∨ w_malloc w' = tail (w_malloc w)) ∧ w_objects w' = w_objects w ∧
    w_blocks w' - map_blocks m' = w_blocks w - map_blocks m ∧
    (st ≠ STL_OK → m' = m) ∧
    (st = STL_OK → map_ok m' ∧ same_shape m m' ∧ b <= hm_capacity m' ∧ hm_size m' = hm_size m ∧
       entries (hm_cells m') ≡ₚ entries (hm_cells m)) ∧
    (map_roomy m → ∀ n, mallocs (S n) (map_align m) w → st = STL_OK).
Proof.
  intros Hm Hb. unfold hash_map_adapt. pose proof (entries_tombs (hm_cells m)) as Het.
  pose proof (tombs_nonneg (hm_cells m)) as Htn. pose proof (alen_nonneg (entries (hm_cells m))) as Hen.
  rewrite <- (mo_size _ Hm), <- (mo_tombs _ Hm), <- (mo_capacity _ Hm) in Het.
  rewrite <- (mo_tombs _ Hm) in Htn. rewrite <- (mo_size _ Hm) in Hen.
  destruct (_ || _) eqn:Hcond; cycle 1.
  { do 4 eexists. split; [done|]. split_and!; try done; [by left|]. intros _. split_and!; try done. lia. }
  set (b' := if b <? hm_capacity m then hm_capacity m else b).
  assert (b <= b' ∧ hm_size m < b') as [Hbb Hsz].
  { subst b'. destruct (Z.ltb_spec b (hm_capacity m)); lia. }
  assert (∃ j, 0 <= j < 64 ∧ b' = 2 ^ j ∧ b' <= 4 * entry_limit m + 16) as (j & Hj & Hpow & Hbound).
  { subst b'. destruct (Z.ltb_spec b (hm_capacity m)) as [Hlt|Hge]; [|destruct Hb as [->|?]; [lia|done]].
    destruct (tb_size _ _ _ _ _ (mo_table _ Hm)) as [Hnil|(k & Hk & Hlen)].
    - rewrite (mo_capacity _ Hm), Hnil in Hsz. change (alen (@nil (cell K V))) with 0 in Hsz. lia.
    - exists k. rewrite (mo_capacity _ Hm) at 1. pose proof (mo_bound _ Hm). done. }
  destruct (rehash_ok m b' j w Hm Hj Hpow Hsz Hbound) as (st & m' & w' & E & Hmal & Ho & Hbl & Hfail & Hok & Hen').
  wstep E. do 4 eexists. split; [done|]. split_and!; try done.
  intros Hst. destruct (Hok Hst) as (? & ? & Hcap & ? & ?). split_and!; try done. lia.
Qed.

Lemma ensure_ok m w :
  map_ok m → hm_size m < entry_limit m →
  ∃ st m' w', hash_map_ensure_insert m w = Some ((st, m'), w') ∧
    (w_malloc w' = w_malloc w ∨ w_malloc w' = tail (w_malloc w)) ∧ w_objects w' = w_objects w ∧
    w_blocks w' - map_blocks m' = w_blocks w - map_blocks m ∧
    (st ≠ STL_OK → m' = m) ∧
    (st = STL_OK → map_ok m' ∧ same_shape m m' ∧ hm_size m' < hm_capacity m' ∧ hm_size m' = hm_size m ∧
       entries (hm_cells m') ≡ₚ entries (hm_cells m)) ∧
    (map_roomy m → ∀ n, mallocs (S n) (map_align m) w → st = STL_OK).
Proof.
  intros Hm Hlt. pose proof (mo_limit _ (mo_params _ Hm)) as Hlim. unfold hash_map_ensure_insert.
  pose proof (alen_nonneg (entries (hm_cells m))) as Hpos. rewrite <- (mo_size _ Hm) in Hpos.
  rewrite (proj2 (Z.eqb_neq _ _)) by lia.
  destruct (buckets_ok (hm_size m + 1)) as (st & b & -> & Hst & Hb); [lia|]. wrun.
  case_bool_decide as Hok; cbn [negb]; cycle 1.
  { do 3 eexists. split; [done|]. split_and!; try done; [by left|]. intros Hr n _. destruct Hst as [?|[_ Hbig]]; [done|].
    exfalso. unfold map_roomy, block_bytes in Hr. destruct (mo_params _ Hm) as [_ _ Hk Hv [Hka _] [Hva _] _ _ _ _ _].
    destruct (map_align_ok m (mo_params _ Hm)) as (Ha & _). unfold overhead, sizeof_ptr in Hr. unfold is_u64 in *. nia. }
  destruct (Hb Hok) as [[? _]|(Hlb & j & Hj & Hpow & Hbound)]; [lia|].
  destruct (adapt_ok m b w Hm) as (st' & r & m' & w' & E & Hmal & Ho & Hbl & Hfail & Hgood & Hen).
  { right. exists j. split; [lia|]. split; [done|]. lia. }
  wstep E. do 3 eexists. split; [done|]. split_and!; try done.
  intros Hst'. destruct (Hgood Hst') as (? & ? & ? & ? & ?). split_and!; try done. lia.
Qed.
(** ** Operations on a table *)

Inductive hash_op :=
  | HPut (k : K) (v : V)
  | HRemove (k : K) (out : bool)
  | HReserve (n : Z)
  | HClear.

(** The call: its status, the value handed out, the map. *)
Definition hash_exec (op : hash_op) m : M (stl_status * option V * option (hash_map_t K V)) :=
  match op with
  | HPut k v => '(st, m) ← hash_map_put (Some m) (Some k) (Some v); mret (st, None, m)
  | HRemove k out => hash_map_remove (Some m) (Some k) out
  | HReserve n => '(st, m) ← hash_map_reserve (Some m) n; mret (st, None, m)
  | HClear => m ← hash_map_clear (Some m); mret (STL_OK, None, m)
  end.

(** The same on a table of entries. *)
Definition table_exec (limit : Z) (op : hash_op) L : stl_status * option V * list (K * V) :=
  match op with
  | HPut k v =>
      if negb (is_null (lookup_key equal k L)) then (STL_OK, None, replaced equal k v L) else
      if limit <=? alen L then (STL_CAPACITY_EXCEEDED, None, L) else (STL_OK, None, (k, v) :: L)
  | HRemove k out =>
      match lookup_key equal k L with
      | None => (STL_NOT_FOUND, None, L)
      | Some v => (STL_OK, if out then Some v else None, without equal k L)
      end
  | HReserve n => if limit <? n then (STL_CAPACITY_EXCEEDED, None, L) else (STL_OK, None, L)
  | HClear => (STL_OK, None, [])
  end.

Definition op_copies m (op : hash_op) : Prop :=
  match op with
  | HPut k v => copyable (key_type m) k ∧ copyable (value_type m) v
  | _ => True
  end.

Definition op_arguments (op : hash_op) : Prop := match op with HReserve n => is_u64 n | _ => True end.

(** Objects the map keeps per entry. *)
Definition per_entry m : Z := owned (key_type m) + owned (value_type m).

(** What a call does to the map and the world. *)
Record hash_post m (spec : stl_status * option V * list (K * V)) (cp : Prop) (w : world)
    (st : stl_status) (out : option V) m' (w' : world) : Prop := {
  hp_ok : map_ok m';
  hp_shape : same_shape m m';
  hp_step :
    (st = spec.1.1 ∧ out = spec.1.2 ∧ entries (hm_cells m') ≡ₚ spec.2) ∨
    (spec.1.1 = STL_OK ∧ st ≠ STL_OK ∧ out = None ∧ entries (hm_cells m') ≡ₚ entries (hm_cells m));
  hp_blocks : w_blocks w' - map_blocks m' = w_blocks w - map_blocks m;
  hp_objects :
    w_objects w' - per_entry m * hm_size m' - owned (value_type m) * (if is_null out then 0 else 1) =
    w_objects w - per_entry m * hm_size m;
  hp_enough : map_roomy m → mallocs 3 (map_align m) w → cp → st = spec.1.1
}.

Lemma valid_ok m : params_ok m → hash_map_valid (Some m) = Some m.
Proof using Type.
  intros Hp. unfold hash_map_valid. cbn. rewrite (mo_init _ Hp). destruct (mo_sizes _ Hp).
  by rewrite !(proj2 (Z.eqb_neq _ _)).
Qed.

Lemma hash_fn_ok m k : params_ok m → hash_map_hash m k = Some (key_hash hash k).
Proof using Type. intros Hp. unfold hash_map_hash. rewrite (mo_hash _ Hp). done. Qed.

(** A call that is refused without doing anything. *)
Lemma post_same m spec cp w st :
  map_ok m → spec = (st, None, entries (hm_cells m)) → hash_post m spec cp w st None m w.
Proof using Type. intros Hm ->. split; try done; [by left|]. cbn. lia. Qed.

(** A call that fails for want of memory. *)
Lemma map_post_failed m spec (cp : Prop) w st w' :
  map_ok m → spec.1.1 = STL_OK → st ≠ STL_OK → w_same w w' →
  (map_roomy m → mallocs 3 (map_align m) w → cp → False) → hash_post m spec cp w st None m w'.
Proof using Type.
  intros Hm Hs Hst [Hb Ho] Hen. split; try done.
  - by right.
  - lia.
  - cbn. lia.
  - intros Hr Hml Hcp. by destruct (Hen Hr Hml Hcp).
Qed.

Lemma map_ok_bump m : map_ok m → map_ok (hash_bump m).
Proof using Type. intros [Hp ? ? ? ? ? ? ?]. split; try done. by apply (params_shape m). Qed.

(** A map whose cells were changed in place. *)
Lemma map_ok_cells m cells size tombstones :
  map_ok m → cells_ok m cells → alen cells = alen (hm_cells m) → size = alen (entries cells) →
  size <= entry_limit m → tombstones = tombs cells →
  map_ok (hash_bump (with_counts (with_cells m cells) size tombstones)).
Proof using Type.
  intros [Hp ? Hc ? ? ? ? ?] Hok Hl Hs Hlim Ht. split; cbn; try done; [by apply (params_shape m)|congruence].
Qed.

Lemma clear_cells_ok m w :
  type_ok (key_type m) → type_ok (value_type m) → ∀ cells,
  Forall (cell_ok hash (typed (key_type m)) (typed (value_type m))) cells →
  ∃ cells' w', destroy_cells m cells w = Some (cells', w') ∧ alen cells' = alen cells ∧
    w_malloc w' = w_malloc w ∧ w_blocks w' = w_blocks w ∧
    w_objects w' = w_objects w - per_entry m * alen (entries cells) ∧
    Forall (λ c, (typed (key_type m) = true → c_key c = None) ∧ (typed (value_type m) = true → c_value c = None)) cells' ∧
    (entries cells = [] → cells' = cells).
Proof using Type.
  intros Hk Hv cells HF. revert w. induction HF as [|c cells [_ Hc] HF IH]; intros w; cbn [destroy_cells].
  { exists [], w. split_and!; try done. unfold entries, alen. cbn. lia. }
  destruct (Z.eqb_spec (c_state c) SALTS_HASH_OCCUPIED) as [Ho|Ho]; cbn [negb].
  - destruct Hc as (k & v & Ek & Ev & _). rewrite Ek, Ev.
    wstep (hash_destroy_ok (key_type m) Hk k w).
    rewrite (run_bind _ _ _ _ _ (hash_destroy_ok (value_type m) Hv v _)).
    destruct (IH (MkWorld (w_malloc w) (w_blocks w) (w_objects w - owned (key_type m) - owned (value_type m))))
      as (cells' & w' & E & Hl & Hm & Hb & Hob & HFc & _).
    cbn [w_malloc w_blocks w_objects] in *. wstep E. do 2 eexists. split; [done|].
    assert (entries (c :: cells) = (k, v) :: entries cells) as Ee.
    { unfold entries. cbn. by rewrite (entry_of_occupied c k v). }
    rewrite Ee. split_and!; try done.
    + unfold alen in *. cbn. lia.
    + rewrite Hob. unfold per_entry, alen. cbn. lia.
    + apply Forall_cons. split; [|done]. cbn. unfold gone, typed. by destruct (key_type m), (value_type m).
  - destruct (IH w) as (cells' & w' & E & Hl & Hm & Hb & Hob & HFc & Hsame). wstep E.
    assert (entries (c :: cells) = entries cells) as Ee.
    { unfold entries. cbn. unfold entry_of. by rewrite (proj2 (Z.eqb_neq _ _)). }
    do 2 eexists. split; [done|]. rewrite Ee. split_and!; try done.
    + unfold alen in *. cbn. lia.
    + apply Forall_cons. done.
    + intros He. by rewrite (Hsame He).
Qed.
Lemma map_find_ok m k :
  map_ok m →
  ∃ r, hash_map_find_slot m k (key_hash hash k) = Some r ∧
    match r with
    | None => lookup_key equal k (entries (hm_cells m)) = None
    | Some s => ∃ c k0 v0, aget (hm_cells m) s = Some c ∧ c_state c = SALTS_HASH_OCCUPIED ∧
        c_key c = Some k0 ∧ c_value c = Some v0 ∧ equal k0 k = true ∧
        lookup_key equal k (entries (hm_cells m)) = Some v0
    end.
Proof.
  intros Hm. destruct (find_slot_ok hash equal laws _ _ m (mo_equal _ (mo_params _ Hm)) (mo_table _ Hm)
    (mo_capacity _ Hm) k) as (r & -> & Hr).
  exists r. split; [done|]. destruct r as [s|].
  - by apply (hits_lookup hash equal laws _ _ m k s (mo_table _ Hm)).
  - apply lookup_none. by apply no_hits_lookup.
Qed.

Lemma clear_post m w :
  map_ok m →
  ∃ m' w', hash_map_clear (Some m) w = Some (Some m', w') ∧
    hash_post m (table_exec (entry_limit m) HClear (entries (hm_cells m))) True w STL_OK None m' w'.
Proof using Type.
  intros Hm. pose proof (mo_params _ Hm) as Hp. unfold hash_map_clear. rewrite (valid_ok m Hp).
  destruct (clear_cells_ok m w (mo_ktype _ Hp) (mo_vtype _ Hp) (hm_cells m) (tb_cells _ _ _ _ _ (mo_table _ Hm)))
    as (cells & w' & E & Hl & Hmal & Hb & Ho & HF & Hsame). wstep E.
  rewrite <- (mo_size _ Hm) in Ho. cbn [with_cells hm_size].
  destruct (Z.eqb_spec (hm_size m) 0) as [Hz|Hz]; cbn [negb].
  - assert (entries (hm_cells m) = []) as He.
    { pose proof (mo_size _ Hm) as Hs. rewrite Hz in Hs. unfold alen in Hs. destruct (entries (hm_cells m)); [done|cbn in Hs; lia]. }
    rewrite (Hsame He). replace (with_cells m (hm_cells m)) with m by (by destruct m).
    do 2 eexists. split; [done|]. split; try done.
    + left. cbn. by rewrite He.
    + lia.
    + cbn. lia.
  - destruct (empty_ok hash equal (typed (key_type m)) (typed (value_type m)) (clear_state <$> cells)) as [Hok He].
    { destruct (tb_size _ _ _ _ _ (mo_table _ Hm)) as [Hnil|(k & Hk & Hlen)].
      - left. rewrite Hnil in Hl. unfold alen in Hl. cbn in Hl. by destruct cells; [|cbn in Hl; lia].
      - right. exists k. split; [done|]. unfold alen in *. rewrite length_fmap. lia. }
    { rewrite Forall_fmap. eapply Forall_impl; [exact HF|]. done. }
    assert (tombs (clear_state <$> cells) = 0) as Ht.
    { clear. induction cells as [|c cells IH]; [done|]. exact IH. }
    do 2 eexists. split; [done|].
    split; try done.
    + change (with_counts (with_cells (with_cells m cells) (clear_state <$> cells)) 0 0)
        with (with_counts (with_cells m (clear_state <$> cells)) 0 0).
      apply map_ok_cells; try done.
      * unfold alen in *. rewrite length_fmap. lia.
      * by rewrite He.
      * pose proof (mo_limit _ Hp). lia.
    + left. cbn. by rewrite He.
    + unfold map_blocks. cbn. lia.
    + cbn. lia.
Qed.

Lemma reserve_post m n w :
  map_ok m → is_u64 n →
  ∃ st m' w', hash_map_reserve (Some m) n w = Some ((st, Some m'), w') ∧
    hash_post m (table_exec (entry_limit m) (HReserve n) (entries (hm_cells m))) True w st None m' w'.
Proof.
  intros Hm Hn. pose proof (mo_params _ Hm) as Hp. unfold hash_map_reserve. rewrite (valid_ok m Hp). cbn [table_exec].
  destruct (Z.ltb_spec (entry_limit m) n).
  { do 3 eexists. split; [done|]. by apply post_same. }
  pose proof (mo_limit _ Hp) as Hlim. unfold is_u64 in Hn.
  destruct (buckets_ok n) as (st & b & -> & Hst & Hb); [lia|]. wrun. case_bool_decide as Hok; cbn [negb]; cycle 1.
  { do 3 eexists. split; [done|]. apply map_post_failed; try done. intros Hr _ _. destruct Hst as [?|[_ Hbig]]; [done|].
    unfold map_roomy, block_bytes in Hr. destruct Hp as [_ _ Hk Hv [Hka _] [Hva _] _ _ _ _ _].
    destruct (map_align_ok m (mo_params _ Hm)) as (Ha & _). unfold overhead, sizeof_ptr in Hr. unfold is_u64 in *. nia. }
  destruct (adapt_ok m b w Hm) as (st' & r & m' & w' & E & Hmal & Ho & Hbl & Hfail & Hgood & Hen).
  { destruct (Hb Hok) as [[_ ->]|(_ & j & Hj & -> & Hle)]; [by left|right]. exists j. split; [lia|]. split; [done|]. lia. }
  wstep E. do 3 eexists. split; [done|].
  assert (hash_post m (STL_OK, None, entries (hm_cells m)) True w st' None m' w') as Hpost.
  { destruct (decide (st' = STL_OK)) as [Hst'|Hst'].
    - destruct (Hgood Hst') as (? & ? & ? & Hs & ?). split; try done; [by left|]. rewrite Hs. cbn. lia.
    - rewrite (Hfail Hst') in *. apply map_post_failed; try done; [by split; lia|]. intros Hr Hml _.
      by apply Hst', (Hen Hr 2%nat). }
  destruct (r && _); [|done]. destruct Hpost. split; try done. by apply map_ok_bump.
Qed.
Lemma remove_value_run {A} (type : option (cmeta_type_desc A)) (out : bool) x w :
  type_ok type →
  (if out then hash_move_destroy type (Some x)
   else v ← hash_destroy_value type (Some x); mret (None, v)) w =
  Some ((if out then Some x else None, gone type x),
    MkWorld (w_malloc w) (w_blocks w) (w_objects w - owned type * (if out then 0 else 1))).
Proof using Type.
  intros Hty. destruct out.
  - rewrite hash_move_destroy_ok by done. rewrite Z.mul_0_r, Z.sub_0_r. by destruct w.
  - wstep (hash_destroy_ok type Hty x w). wrun. by rewrite Z.mul_1_r.
Qed.

Lemma gone_typed {A} (type : option (cmeta_type_desc A)) x : typed type = true → gone type x = None.
Proof using Type. by destruct type. Qed.

Lemma remove_post m k out w :
  map_ok m →
  ∃ st o m' w', hash_map_remove (Some m) (Some k) out w = Some ((st, o, Some m'), w') ∧
    hash_post m (table_exec (entry_limit m) (HRemove k out) (entries (hm_cells m))) True w st o m' w'.
Proof.
  intros Hm. pose proof (mo_params _ Hm) as Hp. unfold hash_map_remove. rewrite (valid_ok m Hp), (hash_fn_ok m k Hp).
  wrun. destruct (map_find_ok m k Hm) as (r & -> & Hr). wrun. cbn [table_exec]. destruct r as [s|]; cycle 1.
  { rewrite Hr. do 4 eexists. split; [done|]. by apply post_same. }
  destruct Hr as (c & k0 & v0 & Hc & Hst & Ek & Ev & Heq & Hlook). rewrite Hlook, Hc. wrun. rewrite Ek, Ev.
  wstep (remove_value_run (value_type m) out v0 w (mo_vtype _ Hp)).
  wstep (hash_destroy_ok (key_type m) (mo_ktype _ Hp) k0 (MkWorld (w_malloc w) (w_blocks w)
    (w_objects w - owned (value_type m) * (if out then 0 else 1)))).
  destruct (table_remove_ok hash equal laws _ _ _ s c k0 v0 k (gone (key_type m) k0) (gone (value_type m) v0) (mo_table _ Hm) Hc
    Hst Ek Ev Heq (gone_typed _ _) (gone_typed _ _)) as (cells & Hset & Hok & Hent & Hold).
  rewrite Hset. wrun. do 4 eexists. split; [done|].
  apply Permutation_length in Hold as Hn. cbn in Hn. pose proof (mo_size _ Hm) as Hsz. pose proof (mo_within _ Hm).
  pose proof (aset_tombs _ _ _ _ _ Hc Hset) as Ht. unfold tomb in Ht. rewrite Hst in Ht. cbn in Ht.
  split; try done.
  - apply map_ok_cells; try done.
    + exact (aset_alen _ _ _ _ Hset).
    + unfold alen in *. lia.
    + lia.
    + rewrite (mo_tombs _ Hm). lia.
  - by left.
  - unfold per_entry. cbn. destruct out; cbn; lia.
Qed.

Lemma put_existing_post m k v s c k0 v0 w :
  map_ok m → aget (hm_cells m) s = Some c → c_state c = SALTS_HASH_OCCUPIED → c_key c = Some k0 →
  c_value c = Some v0 → equal k0 k = true →
  ∃ st m' w', put_existing m s v w = Some ((st, m'), w') ∧
    hash_post m (STL_OK, None, replaced equal k v (entries (hm_cells m)))
      (copyable (key_type m) k ∧ copyable (value_type m) v) w st None m' w'.
Proof.
  intros Hm Hc Hst Ek Ev Heq. pose proof (mo_params _ Hm) as Hp. unfold put_existing.
  destruct (mo_valign _ Hp) as [Ha Hav].
  destruct (hash_prepare_ok (value_type m) (mo_vtype _ Hp) (value_stride m) (value_align m) v w (mo_vstride _ Hp) Ha Hav)
    as (st & r & w1 & E & Hgood & Hbad & Hmal & Hen).
  wstep E. case_bool_decide as Hok; cbn [negb]; cycle 1.
  { destruct (Hbad Hok) as [_ Hs]. do 3 eexists. split; [done|]. apply map_post_failed; try done.
    intros Hr Hml [_ Hcp]. destruct (map_align_ok m Hp) as (Hau & _ & _ & Hle). apply Hok, (Hen 2%nat); [|..|done].
    - by apply (mallocs_align _ _ (map_align m)).
    - pose proof (mo_vstride _ Hp). pose proof (mo_kstride _ Hp). pose proof (mo_limit _ Hp).
      destruct (mo_kalign _ Hp) as [Hka _]. unfold map_roomy, block_bytes, overhead, is_u64 in *. nia. }
  destruct (Hgood Hok) as ((p & ->) & Hb1 & Ho1). wrun. rewrite Hc. wrun. rewrite Ev.
  wstep (hash_destroy_ok (value_type m) (mo_vtype _ Hp) v0 w1).
  wstep (hash_move_destroy_ok (value_type m) (mo_vtype _ Hp) v
    (MkWorld (w_malloc w1) (w_blocks w1) (w_objects w1 - owned (value_type m)))).
  destruct (replace_ok hash equal laws _ _ _ s c k0 v0 k v (mo_table _ Hm) Hc Hst Ek Ev Heq) as (cells & Hset & Hokc & Hent).
  rewrite Hset. wrun. cbn [sequence_deallocate]. unfold mfree. unfold mbind at 1, M_bind at 1. wrun.
  do 3 eexists. split; [done|]. apply Permutation_length in Hent as Hn. unfold replaced in Hn. rewrite length_fmap in Hn.
  pose proof (aset_tombs _ _ _ _ _ Hc Hset) as Ht. unfold tomb in Ht. cbn in Ht.
  assert (map_ok (hash_bump (with_counts (with_cells m cells) (hm_size m) (hm_tombstones m)))) as Hm'.
  { apply map_ok_cells; try done.
    - exact (aset_alen _ _ _ _ Hset).
    - rewrite (mo_size _ Hm). unfold alen. lia.
    - apply (mo_within _ Hm).
    - rewrite (mo_tombs _ Hm). lia. }
  split; try done.
  - by left.
  - unfold map_blocks. cbn. lia.
  - cbn. lia.
Qed.
(** The strides fit in memory when the map does. *)
Lemma roomy_strides m :
  params_ok m → map_roomy m →
  key_stride m + overhead (key_align m) <= SIZE_MAX ∧ value_stride m + overhead (value_align m) <= SIZE_MAX.
Proof using Type.
  intros Hp Hr. destruct (map_align_ok m Hp) as (_ & _ & Hk & Hv).
  pose proof (mo_vstride _ Hp). pose proof (mo_kstride _ Hp). pose proof (mo_limit _ Hp).
  destruct (mo_kalign _ Hp) as [Hka _], (mo_valign _ Hp) as [Hva _].
  unfold map_roomy, block_bytes, overhead, is_u64 in *. nia.
Qed.

Lemma put_new_ok m k v pk pv w :
  map_ok m → hm_size m < hm_capacity m → hm_size m < entry_limit m →
  lookup_key equal k (entries (hm_cells m)) = None →
  ∃ m', put_new m (key_hash hash k) (pk, k) (pv, v) w =
      Some (m', MkWorld (w_malloc w) (w_blocks w - 2) (w_objects w)) ∧
    map_ok m' ∧ same_shape m m' ∧ hm_states m' = hm_states m ∧ hm_size m' = hm_size m + 1 ∧
    entries (hm_cells m') ≡ₚ (k, v) :: entries (hm_cells m).
Proof.
  intros Hm Hcap Hlim Hnone. pose proof (mo_params _ Hm) as Hp. unfold put_new.
  destruct (insert_slot_ok hash equal _ _ m (mo_table _ Hm) (mo_capacity _ Hm) (key_hash hash k) (capacity_max m Hm))
    as (s & -> & (c & Hc & Hno) & Hreach); [by rewrite <- (mo_size _ Hm)|]. wrun. cbn [fst snd].
  wstep (hash_move_destroy_ok (key_type m) (mo_ktype _ Hp) k w).
  wstep (hash_move_destroy_ok (value_type m) (mo_vtype _ Hp) v w).
  cbn [sequence_deallocate]. unfold mfree. unfold mbind at 1, M_bind at 1. unfold mbind at 1, M_bind at 1. cbn beta iota.
  rewrite Hc. wrun.
  destruct (store_ok hash equal laws _ _ _ s c k v (mo_table _ Hm) Hc Hno Hreach) as (cells & Hset & Hok & Hent).
  { by apply lookup_none. }
  rewrite Hset. wrun. eexists. split; [cbn; by replace (w_blocks w - 1 - 1) with (w_blocks w - 2) by lia|].
  apply Permutation_length in Hent as Hn. cbn in Hn. pose proof (mo_size _ Hm).
  pose proof (aset_tombs _ _ _ _ _ Hc Hset) as Ht. unfold tomb in Ht. cbn in Ht.
  split_and!; try done. apply map_ok_cells; try done.
  - exact (aset_alen _ _ _ _ Hset).
  - unfold alen in *. lia.
  - lia.
  - rewrite (mo_tombs _ Hm). destruct (c_state c =? SALTS_HASH_TOMBSTONE); lia.
Qed.

Lemma put_post m k v w :
  map_ok m →
  ∃ st m' w', hash_map_put (Some m) (Some k) (Some v) w = Some ((st, Some m'), w') ∧
    hash_post m (table_exec (entry_limit m) (HPut k v) (entries (hm_cells m)))
      (copyable (key_type m) k ∧ copyable (value_type m) v) w st None m' w'.
Proof.
  intros Hm. pose proof (mo_params _ Hm) as Hp. unfold hash_map_put. rewrite (valid_ok m Hp), (hash_fn_ok m k Hp).
  wrun. destruct (map_find_ok m k Hm) as (r & -> & Hr). wrun. cbn [table_exec]. destruct r as [s|].
  { destruct Hr as (c & k0 & v0 & Hc & Hst & Ek & Ev & Heq & ->). cbn [is_null negb].
    destruct (put_existing_post m k v s c k0 v0 w Hm Hc Hst Ek Ev Heq) as (st & m' & w' & E & Hpost). wstep E. eauto 10. }
  rewrite Hr. cbn [is_null negb]. rewrite <- (mo_size _ Hm).
  destruct (Z.leb_spec (entry_limit m) (hm_size m)) as [Hfull|Hfit].
  { do 3 eexists. split; [done|]. by apply post_same. }
  destruct (mo_kalign _ Hp) as [Hka Hkv], (mo_valign _ Hp) as [Hva Hvv].
  destruct (map_align_ok m Hp) as (_ & _ & Hkle & Hvle).
  destruct (hash_prepare_ok (key_type m) (mo_ktype _ Hp) (key_stride m) (key_align m) k w (mo_kstride _ Hp) Hka Hkv)
    as (st1 & r1 & w1 & E1 & Hgood1 & Hbad1 & Hmal1 & Hen1).
  wstep E1. case_bool_decide as Hok1; cbn [negb]; cycle 1.
  { destruct (Hbad1 Hok1) as [_ Hs]. do 3 eexists. split; [done|]. apply map_post_failed; try done.
    intros Hrm Hml [Hck _]. apply Hok1, (Hen1 2%nat); [by apply (mallocs_align _ _ (map_align m))| |done].
    by apply roomy_strides. }
  destruct (Hgood1 Hok1) as ((pk & ->) & Hb1 & Ho1).
  destruct (hash_prepare_ok (value_type m) (mo_vtype _ Hp) (value_stride m) (value_align m) v w1 (mo_vstride _ Hp) Hva Hvv)
    as (st2 & r2 & w2 & E2 & Hgood2 & Hbad2 & Hmal2 & Hen2).
  wstep E2. case_bool_decide as Hok2; cbn [negb]; cycle 1.
  { destruct (Hbad2 Hok2) as [_ [Hb2 Ho2]]. wstep (hash_discard_ok (key_type m) (mo_ktype _ Hp) pk k w2).
    do 3 eexists. split; [done|]. apply map_post_failed; try done; [split; cbn; lia|].
    intros Hrm Hml [_ Hcv]. apply Hok2, (Hen2 1%nat); [|by apply roomy_strides|done].
    apply (mallocs_align _ _ (map_align m)); [done|]. by apply (mallocs_step _ _ w). }
  destruct (Hgood2 Hok2) as ((pv & ->) & Hb2 & Ho2).
  destruct (ensure_ok m w2 Hm Hfit) as (st3 & m3 & w3 & E3 & Hmal3 & Ho3 & Hb3 & Hfail3 & Hgood3 & Hen3).
  wstep E3. case_bool_decide as Hok3; cbn [negb]; cycle 1.
  { rewrite (Hfail3 Hok3) in *. wstep (hash_discard_ok (key_type m) (mo_ktype _ Hp) pk k w3).
    rewrite (run_bind _ _ _ _ _ (hash_discard_ok (value_type m) (mo_vtype _ Hp) pv v _)).
    do 3 eexists. split; [done|]. apply map_post_failed; try done; [split; cbn; lia|].
    intros Hrm Hml _. apply Hok3, (Hen3 Hrm 0%nat). apply (mallocs_step _ _ w1); [apply Hmal2|].
    by apply (mallocs_step _ _ w). }
  destruct (Hgood3 Hok3) as (Hm3 & Hsh & Hcap3 & Hsz3 & Hent3). wrun.
  pose proof Hsh as (_ & _ & _ & _ & _ & _ & Hlim3 & Hkt3 & Hvt3 & _).
  destruct (put_new_ok m3 k v pk pv w3 Hm3 Hcap3) as (m4 & E4 & Hm4 & Hsh4 & Hst4 & Hsz4 & Hent4); [lia| |].
  { rewrite (lookup_perm hash equal laws k _ _ Hent3); [done|]. apply (mo_table _ Hm3). }
  wstep E4. do 3 eexists. split; [done|]. split; try done.
  - by apply (shape_trans m m3).
  - left. split_and!; try done. cbn. by rewrite Hent4, Hent3.
  - unfold map_blocks in *. rewrite Hst4. cbn. lia.
  - unfold per_entry. cbn. rewrite Hsz4, Hsz3. lia.
Qed.

(** C24. Whatever the hash function, a hash map behaves as a finite table of
    entries whose keys are pairwise different: putting replaces the value of
    an equal key or adds an entry below the limit, removing hands the value
    out and takes the entry away, reserving and clearing do what they say.
    Probing, tombstones, rehashing and growth are invisible; a call that runs
    out of memory leaves the table as it was; blocks and live objects are
    accounted for; nothing is undefined. With memory and copyable values the
    table's answer is the one given. *)
Theorem hash_map_refines m op w :
  map_ok m → op_arguments op →
  ∃ st out m' w', hash_exec op m w = Some ((st, out, Some m'), w') ∧
    hash_post m (table_exec (entry_limit m) op (entries (hm_cells m))) (op_copies m op) w st out m' w'.
Proof.
  intros Hm Hop. destruct op; cbn [hash_exec op_copies].
  - destruct (put_post m k v w Hm) as (st & m' & w' & E & Hpost). wstep E. eauto 10.
  - by apply remove_post.
  - destruct (reserve_post m n w Hm Hop) as (st & m' & w' & E & Hpost). wstep E. eauto 10.
  - destruct (clear_post m w Hm) as (m' & w' & E & Hpost). wstep E. eauto 10.
Qed.

(** [hash_map_get] answers exactly the lookups of the table: it returns
    the slot whose key equals the one asked for, with the value stored under
    it, and the null pointer exactly when no entry has an equal key; the
    search always ends, also when no slot is empty. *)
Theorem hash_map_get_exact m k :
  map_ok m →
  ∃ r, hash_map_get (Some m) (Some k) = Some r ∧
    (c ← r; c ← aget (hm_cells m) c; c_value c) = lookup_key equal k (entries (hm_cells m)) ∧
    (r = None ↔ lookup_key equal k (entries (hm_cells m)) = None) ∧
    hash_map_contains (Some m) (Some k) = Some (negb (is_null (lookup_key equal k (entries (hm_cells m))))).
Proof.
  intros Hm. pose proof (mo_params _ Hm) as Hp. unfold hash_map_contains, hash_map_get_const, hash_map_get.
  rewrite (valid_ok m Hp), (hash_fn_ok m k Hp). cbn [mbind option_bind].
  destruct (map_find_ok m k Hm) as (r & -> & Hr). exists r. split; [done|]. destruct r as [s|]; cbn [mbind option_bind].
  - destruct Hr as (c & k0 & v0 & -> & _ & _ & Ev & _ & ->). done.
  - by rewrite Hr.
Qed.
(** ** Creation and destruction *)

(** The functions a map is initialised with. *)
Definition functions_ok (kt : option (cmeta_type_desc K)) (h : option (K → Z)) (e : option (K → K → bool)) : Prop :=
  match kt with
  | Some t => ∃ tr, ty_traits t = Some tr ∧ tr_hash tr = Some hash ∧ tr_equal tr = Some equal
  | None => h = Some hash ∧ e = Some equal
  end.

(** An initialised map is empty. *)
Lemma initialize_ok m kt vt ks ka vs va limit h e st m' :
  is_u64 ks → is_u64 ka → is_u64 vs → is_u64 va → is_u64 limit → type_ok kt → type_ok vt → functions_ok kt h e →
  hash_map_initialize (Some m) kt vt ks ka vs va limit h e = (st, Some m') →
  if bool_decide (st = STL_OK)
  then map_ok m' ∧ hm_cells m' = [] ∧ hm_size m' = 0 ∧ hm_states m' = None ∧ entry_limit m' = limit ∧
       key_type m' = kt ∧ value_type m' = vt
  else m' = m.
Proof using Type.
  intros Hks Hka Hvs Hva Hlim Hkt Hvt Hfn. unfold hash_map_initialize.
  destruct (hm_initialized m); [by intros [= <- <-]|].
  destruct (sequence_stride ks ka) as [st1 o1] eqn:E1.
  destruct (stride_range _ _ _ _ Hks Hka E1) as [[-> (x & -> & Hx & Hk0 & Hkv)]|[Hn ->]]; cycle 1.
  { destruct st1; try done; intros [= <- <-]; by rewrite bool_decide_false. }
  destruct (sequence_stride vs va) as [st2 o2] eqn:E2.
  destruct (stride_range _ _ _ _ Hvs Hva E2) as [[-> (y & -> & Hy & Hv0 & Hvv)]|[Hn ->]]; cycle 1.
  { destruct st2; try done; intros [= <- <-]; by rewrite bool_decide_false. }
  intros [= <- <-]. rewrite bool_decide_true by done. split_and!; try done. unfold is_u64 in Hlim.
  split; cbn; try done; try lia.
  - unfold functions_ok in Hfn. split; cbn; try done; unfold map_hash_fn, map_equal_fn; cbn; destruct kt as [t|].
    + destruct Hfn as (tr & -> & Hh & _). exact Hh.
    + apply Hfn.
    + destruct Hfn as (tr & -> & _ & He). exact He.
    + apply Hfn.
  - by apply empty_ok; [left|].
Qed.

Lemma destroy_storage_ok m w :
  map_ok m →
  ∃ w', hash_map_raw_destroy_storage (Some m) w = Some (Some (hash_zero (u64 (hm_generation m + 1))), w') ∧
    w_blocks w' = w_blocks w - map_blocks m ∧ w_objects w' = w_objects w - per_entry m * hm_size m.
Proof using Type.
  intros Hm. pose proof (mo_params _ Hm) as Hp. unfold hash_map_raw_destroy_storage. rewrite (mo_init _ Hp).
  destruct (clear_cells_ok m w (mo_ktype _ Hp) (mo_vtype _ Hp) (hm_cells m) (tb_cells _ _ _ _ _ (mo_table _ Hm)))
    as (cells & w1 & E & _ & _ & Hb & Ho & _). wstep E.
  destruct (deallocate_run (hm_states m) w1) as (w2 & E2 & _ & Ho2 & Hb2). wstep E2.
  eexists. split; [done|]. unfold map_blocks. rewrite (mo_size _ Hm). lia.
Qed.
(** ** Construction from arrays *)

(** Putting the entries one after another, as far as the limit allows. *)
Fixpoint table_put_all (limit : Z) (entries : list (K * V)) L : stl_status * list (K * V) :=
  match entries with
  | [] => (STL_OK, L)
  | (k, v) :: entries =>
      let '(st, _, L') := table_exec limit (HPut k v) L in
      if bool_decide (st = STL_OK) then table_put_all limit entries L' else (st, L)
  end.

Lemma table_exec_perm limit op L L' :
  L ≡ₚ L' → distinct equal L →
  (table_exec limit op L).1 = (table_exec limit op L').1 ∧
  (table_exec limit op L).2 ≡ₚ (table_exec limit op L').2.
Proof.
  intros HL HD. apply Permutation_length in HL as Hn. destruct op; cbn [table_exec]; unfold alen.
  - rewrite (lookup_perm hash equal laws k L L' HL HD), Hn. repeat case_match; cbn; split; try done; by rewrite HL.
  - rewrite (lookup_perm hash equal laws k L L' HL HD). case_match; cbn; split; try done. by rewrite HL.
  - case_match; done.
  - done.
Qed.

Lemma table_put_all_perm limit es : ∀ L L',
  L ≡ₚ L' → distinct equal L →
  (∀ L k v, distinct equal L → distinct equal (table_exec limit (HPut k v) L).2) →
  (table_put_all limit es L).1 = (table_put_all limit es L').1 ∧
  (table_put_all limit es L).2 ≡ₚ (table_put_all limit es L').2.
Proof.
  induction es as [|[k v] es IH]; intros L L' HL HD Hput; cbn [table_put_all]; [done|].
  destruct (table_exec_perm limit (HPut k v) L L' HL HD) as [E1 E2]. specialize (Hput L k v HD) as HD1.
  destruct (table_exec limit (HPut k v) L) as [[st o] L1], (table_exec limit (HPut k v) L') as [[st' o'] L1'].
  cbn in *. injection E1 as <- <-. case_bool_decide; [|done]. by apply IH.
Qed.

Lemma put_distinct limit L k v : distinct equal L → distinct equal (table_exec limit (HPut k v) L).2.
Proof.
  intros HD. cbn [table_exec]. destruct (lookup_key equal k L) as [v0|] eqn:E; cbn [is_null negb].
  - clear E. unfold replaced. cbn. induction L as [|e L IH]; [done|]. destruct HD as [HF HD]. cbn. split; [|by apply IH].
    rewrite Forall_fmap. eapply Forall_impl; [exact HF|]. intros e' He'. cbn. by repeat case_match.
  - apply lookup_none in E. case_match; [done|]. split; [|done]. eapply Forall_impl; [exact E|].
    cbn. intros e He. by rewrite (equal_swap hash equal laws).
Qed.

Lemma put_all_ok es : ∀ m w,
  map_ok m → 
  ∃ st m' w', put_all (Some m) es w = Some ((st, Some m'), w') ∧
    (st = STL_OK → map_ok m' ∧ same_shape m m' ∧ (table_put_all (entry_limit m) es (entries (hm_cells m))).1 = STL_OK ∧
       entries (hm_cells m') ≡ₚ (table_put_all (entry_limit m) es (entries (hm_cells m))).2 ∧
       w_blocks w' - map_blocks m' = w_blocks w - map_blocks m ∧
       w_objects w' - per_entry m * hm_size m' = w_objects w - per_entry m * hm_size m) ∧
    (st ≠ STL_OK → w_blocks w' = w_blocks w - map_blocks m ∧ w_objects w' = w_objects w - per_entry m * hm_size m).
Proof.
  induction es as [|[k v] es IH]; intros m w Hm; cbn [put_all].
  { do 3 eexists. split; [done|]. split; [|done]. intros _. by split_and!. }
  destruct (put_post m k v w Hm) as (st & m1 & w1 & E & [Hok Hsh Hstep Hb Ho _]). wstep E. cbn in Ho.
  pose proof Hsh as (_ & _ & _ & _ & _ & _ & Hlim & Hkt & Hvt & _).
  assert (per_entry m1 = per_entry m) as Hpe by (unfold per_entry; congruence).
  case_bool_decide as Hst; cbn [negb]; cycle 1.
  { destruct (destroy_storage_ok m1 w1 Hok) as (w2 & E2 & Hb2 & Ho2). wstep E2. do 3 eexists. split; [done|].
    split; [done|]. intros _. rewrite Hpe in Ho2. lia. }
  destruct (IH m1 w1 Hok) as (st2 & m2 & w2 & E2 & Hgood & Hbad). do 3 eexists. split; [exact E2|].
  rewrite Hpe, Hlim in *. split; [|intros Hne; specialize (Hbad Hne); lia]. intros Hst2.
  destruct (Hgood Hst2) as (Hm2 & Hsh2 & Hall & Hent & Hb2 & Ho2).
  destruct Hstep as [(Es & _ & Hent1)|(_ & Hne & _)]; [|done].
  destruct (table_exec (entry_limit m) (HPut k v) (entries (hm_cells m))) as [[st1 o1] L1] eqn:Ex.
  cbn [fst snd] in Es, Hent1. cbn [table_put_all]. rewrite Ex, <- Es, Hst, bool_decide_true by done.
  destruct (table_put_all_perm (entry_limit m) es (entries (hm_cells m1)) L1 Hent1) as [P1 P2];
    [apply (mo_table _ Hok)|intros; by apply put_distinct|].
  split_and!; try done; [by apply (shape_trans m m1)|congruence|by rewrite Hent|lia|lia].
Qed.
(** A handle that may be adopted: never initialised, or a live map. *)
Definition handle_ok m : Prop := hm_initialized m = false ∨ map_ok m.
Definition handle_blocks m : Z := if hm_initialized m then map_blocks m else 0.
Definition handle_objects m : Z := if hm_initialized m then per_entry m * hm_size m else 0.

(** What construction from the entries [es] does. *)
Definition adopted m (limit : Z) (es : list (K * V)) (w : world) (st : stl_status) m' (w' : world) : Prop :=
  if bool_decide (st = STL_OK) then
    map_ok m' ∧ entry_limit m' = limit ∧ (table_put_all limit es []).1 = STL_OK ∧
    entries (hm_cells m') ≡ₚ (table_put_all limit es []).2 ∧
    w_blocks w' - map_blocks m' = w_blocks w - handle_blocks m ∧
    w_objects w' - per_entry m' * hm_size m' = w_objects w - handle_objects m
  else m' = m ∧ w_same w w'.

Lemma adopt_ok m st0 t limit es w :
  handle_ok m →
  (st0 = STL_OK → map_ok t ∧ hm_cells t = [] ∧ hm_size t = 0 ∧ hm_states t = None ∧ entry_limit t = limit) →
  ∃ st m' w', adopt_arrays m (st0, Some t) es w = Some ((st, Some m'), w') ∧ adopted m limit es w st m' w'.
Proof.
  intros Hh Ht. unfold adopt_arrays. case_bool_decide as Hst0; cbn [negb]; cycle 1.
  { do 3 eexists. split; [done|]. unfold adopted. rewrite bool_decide_false by done. done. }
  destruct (Ht Hst0) as (Hok & Hcells & Hsize & Hstates & Hlim). clear Ht.
  destruct (put_all_ok es t w Hok) as (st & t' & w1 & E & Hgood & Hbad). wstep E.
  assert (map_blocks t = 0) as Hb0 by (unfold map_blocks; by rewrite Hstates).
  rewrite Hsize, Z.mul_0_r, Hb0 in *. case_bool_decide as Hst; cbn [negb]; cycle 1.
  { do 3 eexists. split; [done|]. unfold adopted. rewrite bool_decide_false by done. split; [done|].
    destruct (Hbad Hst). split; lia. }
  destruct (Hgood Hst) as (Hm' & Hsh & Hall & Hent & Hb & Ho). wrun. rewrite Hcells, Hlim in Hall, Hent.
  change (entries (@nil (cell K V))) with (@nil (K * V)) in Hall, Hent.
  pose proof Hsh as (_ & _ & _ & _ & _ & _ & Hlim' & Hkt & Hvt & _).
  assert (per_entry t' = per_entry t) as Hpe by (unfold per_entry; congruence).
  assert (map_ok (with_generation t' (u64 (hm_generation m + 1)))) as Hmg.
  { destruct Hm' as [Hp ? ? ? ? ? ? ?]. split; try done. by apply (params_shape t'). }
  destruct (hm_initialized m) eqn:Hinit.
  - destruct Hh as [?|Hm]; [congruence|]. destruct (destroy_storage_ok m w1 Hm) as (w2 & E2 & Hb2 & Ho2). wstep E2.
    do 3 eexists. split; [done|]. unfold adopted, handle_blocks, handle_objects. rewrite bool_decide_true, Hinit by done.
    split_and!; try done; [cbn; congruence|change (map_blocks (with_generation t' _)) with (map_blocks t'); lia|].
    change (per_entry (with_generation t' _)) with (per_entry t'). cbn. rewrite Hpe. lia.
  - wrun. do 3 eexists. split; [done|]. unfold adopted, handle_blocks, handle_objects. rewrite bool_decide_true, Hinit by done.
    split_and!; try done; [cbn; congruence|].
    change (per_entry (with_generation t' _)) with (per_entry t'). cbn. rewrite Hpe. lia.
Qed.

(** Building a map from two arrays is all or nothing: on success the
    handle holds the table that putting the entries one by one into an empty
    one gives, later values winning over earlier ones for equal keys, and
    what the handle held before is destroyed; on any failure the handle is as
    it was, and what had been built is returned to the last block and object. *)
Theorem hash_map_from_arrays_exact m ks vs count ksize kalign vsize valign limit w :
  handle_ok m → is_u64 ksize → is_u64 kalign → is_u64 vsize → is_u64 valign → is_u64 limit →
  0 <= count <= alen ks → count <= alen vs →
  ∃ st m' w', hash_map_from_arrays_bytes (Some m) (Some ks) (Some vs) count ksize kalign vsize valign limit
      (Some hash) (Some equal) w = Some ((st, Some m'), w') ∧
    adopted m limit (zip (take (Z.to_nat count) ks) (take (Z.to_nat count) vs)) w st m' w'.
Proof.
  intros Hh Hks Hka Hvs Hva Hlim Hck Hcv. unfold hash_map_from_arrays_bytes.
  assert (array_entries (Some ks) (Some vs) count =
    Some (Some (zip (take (Z.to_nat count) ks) (take (Z.to_nat count) vs)))) as ->.
  { unfold array_entries. destruct (Z.eqb_spec count 0) as [->|]; [done|].
    by rewrite !(proj2 (Z.ltb_ge _ _)) by lia. }
  wrun. unfold hash_map_init_bytes. cbn [hash_zero hm_initialized is_null orb].
  destruct (hash_map_initialize (Some (hash_zero 0)) None None ksize kalign vsize valign limit (Some hash) (Some equal))
    as [st0 [t|]] eqn:E; cycle 1.
  { exfalso. unfold hash_map_initialize in E. cbn in E. repeat case_match; done. }
  apply adopt_ok; [done|]. intros ->. pose proof (initialize_ok _ None None _ _ _ _ _ _ _ _ _ Hks Hka Hvs Hva Hlim I I
    (conj eq_refl eq_refl) E) as Hi. rewrite bool_decide_true in Hi by done. naive_solver.
Qed.
End Map.

(** ** An example: integers, with a hash that makes neighbours collide *)

Module ExampleMap.

Definition collide (k : Z) : Z := 64 * (k / 2).

Lemma collide_laws : key_laws collide Z.eqb.
Proof.
  split.
  - apply Z.eqb_refl.
  - intros x y. rewrite !Z.eqb_eq. done.
  - intros x y z. rewrite !Z.eqb_eq. congruence.
  - intros x y ->%Z.eqb_eq. done.
Qed.

Definition memory (n : nat) : world := MkWorld (replicate n (Some 4096)) 0 0.
Definition unused : hash_map_t Z Z := hash_zero 0.
Definition empty_map : hash_map_t Z Z :=
  MkHashMap None [] 0 0 0 8 8 8 8 8 8 100 None None (Some collide) (Some Z.eqb) 1 true.

Lemma empty_map_ok : map_ok collide Z.eqb empty_map.
Proof.
  assert (hash_map_initialize (Some unused) None None 8 8 8 8 100 (Some collide) (Some Z.eqb) = (STL_OK, Some empty_map)) as E
    by reflexivity.
  apply (initialize_ok collide Z.eqb) in E; try (by vm_compute).
  rewrite bool_decide_true in E by done. apply E.
Qed.

End ExampleMap.
Import ExampleMap.

Lemma hash_map_refines_witness :
  ∃ st out m' w', hash_exec (HPut 3 30) empty_map (memory 3) = Some ((st, out, Some m'), w') ∧
    hash_post collide Z.eqb empty_map (table_exec Z.eqb 100 (HPut 3 30) []) (op_copies empty_map (HPut 3 30))
      (memory 3) st out m' w'.
Proof. apply (hash_map_refines collide Z.eqb collide_laws empty_map (HPut 3 30) (memory 3)); [apply empty_map_ok|done]. Defined.

Lemma hash_map_get_exact_witness :
  ∃ r, hash_map_get (Some empty_map) (Some 3) = Some r ∧ (r = None ↔ lookup_key Z.eqb 3 ([] : list (Z * Z)) = None).
Proof.
  destruct (hash_map_get_exact collide Z.eqb collide_laws empty_map 3 empty_map_ok) as (r & Hr & _ & H & _).
  exists r. split; [exact Hr|exact H].
Defined.

Lemma hash_map_from_arrays_exact_witness :
  ∃ st m' w', hash_map_from_arrays_bytes (Some unused) (Some [2; 3; 2]) (Some [20; 30; 21]) 3 8 8 8 8 100
      (Some collide) (Some Z.eqb) (memory 20) = Some ((st, Some m'), w') ∧
    adopted collide Z.eqb unused 100 [(2, 20); (3, 30); (2, 21)] (memory 20) st m' w'.
Proof.
  apply (hash_map_from_arrays_exact collide Z.eqb collide_laws unused [2; 3; 2] [20; 30; 21] 3 8 8 8 8 100 (memory 20));
    try (by vm_compute). left. reflexivity.
Defined.
