(* ===== verification/HashSet.v ===== *)
(** * The hash set ([cstl/src/hash_set.c], [cstl/include/cstl/hash_set.h])

    A set is a hash map from its elements to a presence byte. The operations
    are those of [HashMap], called through; the theorems of [HashMapSpec]
    carry over to a finite set of elements. *)

From S2P Require Import Prelude World Sequence HashMap HashTable HashMapSpec.
Local Open Scope Z_scope.

(** The handle: the container descriptor it points to, the type of its
    elements, and the table. The presence values are bytes. *)
Record hash_set_t (K : Type) := MkHashSet {
  descriptor : option Z;
  element_type : option (cmeta_type_desc K);
  table : hash_map_t K Z
}.
#[global] Arguments MkHashSet {K} _ _ _.
#[global] Arguments descriptor {K} _.
#[global] Arguments element_type {K} _.
#[global] Arguments table {K} _.

(** [bool] as the traits of [cmeta.c] describe it. *)
Definition cmeta_traits_bool : cmeta_type_traits Z :=
  MkTraits CMETA_TRAIT_MASK (Some Z.eqb) (Some (λ v, v))
    (Some (λ l r, if l <? r then -1 else if r <? l then 1 else 0)) (Some Some) (Some (λ v, v)) true.

Definition cmeta_type_bool : cmeta_type_desc Z := MkType 1 1 (Some cmeta_traits_bool).

Section HashSet.
Context {K : Type}.
Implicit Types (set : option (hash_set_t K)) (s : hash_set_t K).

Definition with_map s (m : hash_map_t K Z) : hash_set_t K := MkHashSet (descriptor s) (element_type s) m.

(** The set whose table a call on the map leaves behind. *)
Definition store_map s (m : option (hash_map_t K Z)) : option (hash_set_t K) := with_map s <$> m.

Definition hash_set_raw_init set (key_type : option (cmeta_type_desc K)) (entry_limit : Z) :
    stl_status * option (hash_set_t K) :=
  match set with
  | None => (STL_INVALID_ARGUMENT, None)
  | Some s =>
      let (status, m) := hash_map_raw_init (Some (table s)) key_type (Some cmeta_type_bool) entry_limit in
      (status, store_map s m)
  end.

Definition hash_set_init_bytes set (key_size key_align entry_limit : Z)
    (hash : option (K → Z)) (equal : option (K → K → bool)) : stl_status * option (hash_set_t K) :=
  match set with
  | None => (STL_INVALID_ARGUMENT, None)
  | Some s =>
      let (status, m) := hash_map_init_bytes (Some (table s)) key_size key_align 1 1 entry_limit hash equal in
      (status, store_map s m)
  end.

Definition hash_set_raw_destroy_storage set : M (option (hash_set_t K)) :=
  match set with
  | None => mret None
  | Some s => m ← hash_map_raw_destroy_storage (Some (table s)); mret (store_map s m)
  end.

Definition hash_set_clear set : M (option (hash_set_t K)) :=
  match set with
  | None => mret None
  | Some s => m ← hash_map_clear (Some (table s)); mret (store_map s m)
  end.

Definition hash_set_reserve set (min_entries : Z) : M (stl_status * option (hash_set_t K)) :=
  match set with
  | None => mret (STL_INVALID_ARGUMENT, None)
  | Some s => '(status, m) ← hash_map_reserve (Some (table s)) min_entries; mret (status, store_map s m)
  end.

Definition hash_set_add set (key : option K) : M (stl_status * option (hash_set_t K)) :=
  match set with
  | None => mret (STL_INVALID_ARGUMENT, None)
  | Some s =>
      present ← lift (hash_map_contains (Some (table s)) key);
      if present : bool then mret (STL_OK, set) else
      '(status, m) ← hash_map_put (Some (table s)) key (Some 1);
      mret (status, store_map s m)
  end.

Definition hash_set_contains set (key : option K) : option bool :=
  match set with
  | None => Some false
  | Some s => hash_map_contains (Some (table s)) key
  end.

Definition hash_set_remove set (key : option K) : M (stl_status * option (hash_set_t K)) :=
  match set with
  | None => mret (STL_INVALID_ARGUMENT, None)
  | Some s => '(status, _, m) ← hash_map_remove (Some (table s)) key false; mret (status, store_map s m)
  end.

Definition hash_set_size set : Z := match set with None => 0 | Some s => hash_map_size (Some (table s)) end.
Definition hash_set_capacity set : Z := match set with None => 0 | Some s => hash_map_capacity (Some (table s)) end.
Definition hash_set_entry_limit set : Z := match set with None => 0 | Some s => hash_map_entry_limit (Some (table s)) end.
Definition hash_set_generation set : Z := match set with None => 0 | Some s => hash_map_generation (Some (table s)) end.
Definition hash_set_empty set : bool := hash_set_size set =? 0.
Definition hash_set_key_at set (slot : Z) : option (option Z) :=
  match set with None => Some None | Some s => hash_map_key_at (Some (table s)) slot end.

(** ** Construction from an array *)

Fixpoint add_all (temporary : option (hash_set_t K)) (keys : list K) : M (stl_status * option (hash_set_t K)) :=
  match keys with
  | [] => mret (STL_OK, temporary)
  | k :: keys =>
      '(status, temporary) ← hash_set_add temporary (Some k);
      if negb (bool_decide (status = STL_OK)) then
        temporary ← hash_set_raw_destroy_storage temporary; mret (status, temporary)
      else add_all temporary keys
  end.

(** The first [count] elements of an array; a null array has none. *)
Definition array_keys (keys : option (list K)) (count : Z) : option (option (list K)) :=
  if count =? 0 then Some (Some []) else
  match keys with
  | Some ks => if alen ks <? count then None else Some (Some (take (Z.to_nat count) ks))
  | None => Some None
  end.

(** The handle the table is built in. *)
Definition set_zero : hash_set_t K := MkHashSet None None (hash_zero 0).

Definition hash_set_from_common set (keys : option (list K)) (count : Z) (key_type : option (cmeta_type_desc K))
    (key_size key_align entry_limit : Z) (hash : option (K → Z)) (equal : option (K → K → bool)) :
    M (stl_status * option (hash_set_t K)) :=
  match set with
  | None => mret (STL_INVALID_ARGUMENT, set)
  | Some s =>
      if hm_initialized (table s) then mret (STL_INVALID_ARGUMENT, set) else
      ks ← lift (array_keys keys count);
      match ks with
      | None => mret (STL_INVALID_ARGUMENT, set)
      | Some ks =>
          let (status, temporary) :=
            if negb (is_null key_type) then hash_set_raw_init (Some set_zero) key_type entry_limit
            else hash_set_init_bytes (Some set_zero) key_size key_align entry_limit hash equal in
          if negb (bool_decide (status = STL_OK)) then mret (status, set) else
          '(status, temporary) ← add_all temporary ks;
          if negb (bool_decide (status = STL_OK)) then mret (status, set) else
          t ← lift temporary;
          mret (STL_OK, Some (with_map t (with_generation (table t) (u64 (hm_generation (table s) + 1)))))
      end
  end.

Definition hash_set_raw_from_array set (keys : option (list K)) (count : Z)
    (key_type : option (cmeta_type_desc K)) (entry_limit : Z) : M (stl_status * option (hash_set_t K)) :=
  match key_type with
  | None => mret (STL_INVALID_ARGUMENT, set)
  | Some kt => hash_set_from_common set keys count key_type (ty_size kt) (ty_align kt) entry_limit None None
  end.

Definition hash_set_from_array_bytes set (keys : option (list K)) (count key_size key_align entry_limit : Z)
    (hash : option (K → Z)) (equal : option (K → K → bool)) : M (stl_status * option (hash_set_t K)) :=
  hash_set_from_common set keys count None key_size key_align entry_limit hash equal.

(** ** The handle that is bound to an element type *)

Definition hash_set_init set (entry_limit : Z) : stl_status * option (hash_set_t K) :=
  match set with
  | Some s =>
      match element_type s with
      | None => (STL_INVALID_ARGUMENT, set)
      | Some type => hash_set_raw_init set (Some type) entry_limit
      end
  | None => (STL_INVALID_ARGUMENT, set)
  end.

Definition hash_set_from_array set (keys : option (list K)) (count entry_limit : Z) :
    M (stl_status * option (hash_set_t K)) :=
  match set with
  | Some s =>
      match element_type s with
      | None => mret (STL_INVALID_ARGUMENT, set)
      | Some type =>
          '(status, set) ← hash_set_raw_from_array set keys count (Some type) entry_limit;
          mret (status, (λ s, MkHashSet (descriptor s) (Some type) (table s)) <$> set)
      end
  | None => mret (STL_INVALID_ARGUMENT, set)
  end.

Definition hash_set_destroy set : M (option (hash_set_t K)) :=
  match set with
  | None => mret None
  | Some _ => hash_set_raw_destroy_storage set
  end.

End HashSet.

(** ** The set of elements *)

Section Spec.
Context {K : Type} (hash : K → Z) (equal : K → K → bool) (laws : key_laws hash equal).
Implicit Types (s : hash_set_t K) (ks : list K).

Definition member (k : K) ks : bool := existsb (λ x, equal x k) ks.

Inductive set_op :=
  | SAdd (k : K)
  | SRemove (k : K)
  | SReserve (n : Z)
  | SClear.

Definition set_exec (op : set_op) s : M (stl_status * option (hash_set_t K)) :=
  match op with
  | SAdd k => hash_set_add (Some s) (Some k)
  | SRemove k => hash_set_remove (Some s) (Some k)
  | SReserve n => hash_set_reserve (Some s) n
  | SClear => s ← hash_set_clear (Some s); mret (STL_OK, s)
  end.

(** The same on a list of different elements. *)
Definition keys_exec (limit : Z) (op : set_op) ks : stl_status * list K :=
  match op with
  | SAdd k =>
      if member k ks then (STL_OK, ks) else
      if limit <=? alen ks then (STL_CAPACITY_EXCEEDED, ks) else (STL_OK, k :: ks)
  | SRemove k =>
      if member k ks then (STL_OK, filter (λ x, equal x k = false) ks) else (STL_NOT_FOUND, ks)
  | SReserve n => (if limit <? n then STL_CAPACITY_EXCEEDED else STL_OK, ks)
  | SClear => (STL_OK, [])
  end.

Definition set_copies s (op : set_op) : Prop :=
  match op with SAdd k => copyable (key_type (table s)) k | _ => True end.
Definition set_arguments (op : set_op) : Prop := match op with SReserve n => is_u64 n | _ => True end.

Definition set_keys s : list K := (entries (hm_cells (table s))).*1.

(** A live set; a typed one keeps its presence values as [bool]s. *)
Record set_ok s : Prop := {
  so_map : map_ok hash equal (table s);
  so_value : value_type (table s) = None ∨ value_type (table s) = Some cmeta_type_bool
}.

(** What a call does to the set and the world. *)
Record set_post s (spec : stl_status * list K) (cp : Prop) (w : world) (st : stl_status) s' (w' : world) : Prop := {
  sp_ok : set_ok s';
  sp_type : descriptor s' = descriptor s ∧ element_type s' = element_type s;
  sp_shape : same_shape (table s) (table s');
  sp_step : (st = spec.1 ∧ set_keys s' ≡ₚ spec.2) ∨ (spec.1 = STL_OK ∧ st ≠ STL_OK ∧ set_keys s' ≡ₚ set_keys s);
  sp_contains k : hash_set_contains (Some s') (Some k) = Some (member k (set_keys s'));
  sp_size : hash_set_size (Some s') = alen (set_keys s');
  sp_blocks : w_blocks w' - map_blocks (table s') = w_blocks w - map_blocks (table s);
  sp_objects : w_objects w' - per_entry (table s) * alen (set_keys s') = w_objects w - per_entry (table s) * alen (set_keys s);
  sp_enough : map_roomy (table s) → mallocs 3 (map_align (table s)) w → cp → st = spec.1
}.

Lemma member_lookup k (L : list (K * Z)) : member k L.*1 = negb (is_null (lookup_key equal k L)).
Proof using Type.
  unfold member, lookup_key. induction L as [|[x v] L IH]; [done|]. cbn in *. by destruct (equal x k).
Qed.

Lemma keys_without k (L : list (K * Z)) : (without equal k L).*1 = filter (λ x, equal x k = false) L.*1.
Proof using Type.
  unfold without. induction L as [|[x v] L IH]; [done|]. rewrite fmap_cons. rewrite !filter_cons. cbn [fst].
  case_decide; cbn; by rewrite IH.
Qed.

Lemma alen_fst (L : list (K * Z)) : alen L.*1 = alen L.
Proof using Type. unfold alen. by rewrite length_fmap. Qed.

Lemma contains_keys s k : set_ok s → hash_map_contains (Some (table s)) (Some k) = Some (member k (set_keys s)).
Proof.
  intros [Hm _]. unfold set_keys. rewrite member_lookup. pose proof (mo_params _ _ _ Hm) as Hp.
  unfold hash_map_contains, hash_map_get_const, hash_map_get.
  rewrite (valid_ok hash equal _ Hp), (hash_fn_ok hash equal _ k Hp). cbn [mbind option_bind].
  destruct (map_find_ok hash equal laws (table s) k Hm) as (r & -> & Hr). cbn [mbind option_bind]. f_equal.
  destruct r as [i|]; [|by rewrite Hr].
  by destruct Hr as (c & k0 & v0 & _ & _ & _ & _ & _ & ->).
Qed.

Lemma size_keys s : set_ok s → hash_set_size (Some s) = alen (set_keys s).
Proof using Type.
  intros [Hm _]. unfold hash_set_size, hash_map_size, set_keys.
  rewrite (valid_ok hash equal _ (mo_params _ _ _ Hm)), (mo_size _ _ _ Hm). by rewrite alen_fst.
Qed.

Lemma bool_copyable s : set_ok s → copyable (value_type (table s)) 1.
Proof using Type. intros [_ [->| ->]]; [done|]. exists cmeta_traits_bool, Some. split_and!; [done..|by eexists]. Qed.

(** The table after a call on the map, seen as a set. *)
Lemma post_set s spec spec' (cp cp' : Prop) w st out m' w' :
  set_ok s → hash_post hash equal (table s) spec cp w st out m' w' → out = None →
  spec'.1 = spec.1.1 → spec'.2 ≡ₚ spec.2.*1 → (cp' → cp) →
  set_post s spec' cp' w st (with_map s m') w'.
Proof.
  intros [Hm Hv] [Hok Hsh Hstep Hb Ho Hen] -> E1 E2 Hcp. pose proof Hsh as (_ & _ & _ & _ & _ & _ & Hlim & _ & Hvt & _).
  assert (set_ok (with_map s m')) as Hset by (split; [done|cbn; by rewrite Hvt]).
  split; try done.
  - destruct Hstep as [(-> & _ & He)|(Hs & Hne & _ & He)].
    + left. split; [done|]. rewrite E2. unfold set_keys. cbn. by rewrite He.
    + right. split_and!; [congruence|done|]. unfold set_keys. cbn. by rewrite He.
  - intros k. by apply contains_keys.
  - by apply size_keys.
  - unfold set_keys. rewrite !alen_fst. cbn [with_map table] in *. rewrite <-(mo_size _ _ _ Hok), <-(mo_size _ _ _ Hm).
    cbn in Ho. lia.
  - intros. rewrite E1. auto.
Qed.

Lemma post_unchanged s spec cp w st :
  set_ok s → spec = (st, set_keys s) → set_post s spec cp w st s w.
Proof. intros Hs ->. split; try done; [by left|intros k; by apply contains_keys|by apply size_keys]. Qed.

Lemma add_post s k w :
  set_ok s → ∃ st s' w', hash_set_add (Some s) (Some k) w = Some ((st, Some s'), w') ∧
    set_post s (keys_exec (entry_limit (table s)) (SAdd k) (set_keys s)) (set_copies s (SAdd k)) w st s' w'.
Proof.
  intros Hs. unfold hash_set_add. rewrite (contains_keys s k Hs). wrun.
  destruct (member k (set_keys s)) eqn:Hk.
  { do 3 eexists. split; [done|]. apply post_unchanged; [done|]. cbn [keys_exec]. by rewrite Hk. }
  destruct (put_post hash equal laws (table s) k 1 w (so_map _ Hs)) as (st & m' & w' & E & Hpost). wstep E.
  do 3 eexists. split; [done|]. eapply post_set; [done|exact Hpost|done|..]; cbn [table_exec keys_exec].
  - rewrite Hk. unfold set_keys in *. rewrite member_lookup in Hk. rewrite Hk, alen_fst. by case_match.
  - rewrite Hk. unfold set_keys in *. rewrite member_lookup in Hk. rewrite Hk, alen_fst. by case_match.
  - intros Hc. split; [done|]. by apply bool_copyable.
Qed.

(** A hash set behaves as a finite set of elements below a limit: adding
    an element that is there changes nothing, adding a new one takes it in,
    removing takes exactly the equal element away, reserving keeps and
    clearing drops the elements; a call that runs out of memory leaves the
    set as it was. After each call [hash_set_contains] and [hash_set_size]
    answer from that set, and the memory is accounted for. *)
Theorem hash_set_refines s op w :
  set_ok s → set_arguments op →
  ∃ st s' w', set_exec op s w = Some ((st, Some s'), w') ∧
    set_post s (keys_exec (entry_limit (table s)) op (set_keys s)) (set_copies s op) w st s' w'.
Proof.
  intros Hs Hop. destruct op as [k|k|n|]; cbn [set_exec].
  - by apply add_post.
  - destruct (remove_post hash equal laws (table s) k false w (so_map _ Hs)) as (st & out & m' & w' & E & Hpost).
    cbn [hash_exec] in E. unfold hash_set_remove. wstep E. do 3 eexists. split; [done|].
    assert (out = None) as ->.
    { destruct (hp_step _ _ _ _ _ _ _ _ _ _ Hpost) as [(_ & -> & _)|(_ & _ & -> & _)]; [|done].
      cbn. by case_match. }
    eapply post_set; [done|exact Hpost|done|..|done]; cbn [table_exec keys_exec]; unfold set_keys;
      rewrite member_lookup; destruct (lookup_key equal k _) eqn:Hk; cbn; try done. by rewrite keys_without.
  - destruct (reserve_post hash equal laws (table s) n w (so_map _ Hs) Hop) as (st & m' & w' & E & Hpost).
    unfold hash_set_reserve. wstep E. do 3 eexists. split; [done|].
    eapply post_set; [done|exact Hpost|done|..|done]; cbn; by case_match.
  - destruct (clear_post hash equal (table s) w (so_map _ Hs)) as (m' & w' & E & Hpost).
    unfold hash_set_clear. erewrite run_bind; [|by wstep E]. do 3 eexists. split; [done|].
    eapply post_set; [done|exact Hpost|done|..|done]; done.
Qed.

(** ** Construction from an array *)

(** Adding the elements one after another, as far as the limit allows. *)
Fixpoint keys_add_all (limit : Z) (new ks : list K) : stl_status * list K :=
  match new with
  | [] => (STL_OK, ks)
  | k :: new =>
      let (st, ks') := keys_exec limit (SAdd k) ks in
      if bool_decide (st = STL_OK) then keys_add_all limit new ks' else (st, ks)
  end.

Lemma member_perm k ks ks' : ks ≡ₚ ks' → member k ks = member k ks'.
Proof using Type.
  unfold member. induction 1 as [|x l l' _ IH|x y l|l1 l2 l3 _ IH1 _ IH2]; cbn; [done|by rewrite IH| |congruence].
  by destruct (equal x k), (equal y k).
Qed.

Lemma keys_add_all_perm limit new : ∀ ks ks',
  ks ≡ₚ ks' → (keys_add_all limit new ks).1 = (keys_add_all limit new ks').1 ∧
    (keys_add_all limit new ks).2 ≡ₚ (keys_add_all limit new ks').2.
Proof using Type.
  induction new as [|k new IH]; intros ks ks' HP; cbn [keys_add_all keys_exec]; [done|].
  rewrite <-(member_perm k ks ks' HP). unfold alen. rewrite (Permutation_length HP).
  destruct (member k ks); [by apply IH|]. destruct (_ <=? _); [done|]. cbn. apply IH. by constructor.
Qed.

Lemma destroy_set_ok s w :
  set_ok s → ∃ s' w', hash_set_raw_destroy_storage (Some s) w = Some (Some s', w') ∧
    w_blocks w' = w_blocks w - map_blocks (table s) ∧
    w_objects w' = w_objects w - per_entry (table s) * alen (set_keys s).
Proof using Type.
  intros [Hm _]. unfold hash_set_raw_destroy_storage.
  destruct (destroy_storage_ok hash equal (table s) w Hm) as (w' & E & Hb & Ho). wstep E.
  do 2 eexists. split; [done|]. unfold set_keys. by rewrite alen_fst, <-(mo_size _ _ _ Hm).
Qed.

Lemma add_all_ok new : ∀ s w,
  set_ok s →
  ∃ st s' w', add_all (Some s) new w = Some ((st, Some s'), w') ∧
    (st = STL_OK → set_ok s' ∧ entry_limit (table s') = entry_limit (table s) ∧
       per_entry (table s') = per_entry (table s) ∧
       (keys_add_all (entry_limit (table s)) new (set_keys s)).1 = STL_OK ∧
       set_keys s' ≡ₚ (keys_add_all (entry_limit (table s)) new (set_keys s)).2 ∧ descriptor s' = descriptor s ∧
       w_blocks w' - map_blocks (table s') = w_blocks w - map_blocks (table s) ∧
       w_objects w' - per_entry (table s) * alen (set_keys s') =
         w_objects w - per_entry (table s) * alen (set_keys s)) ∧
    (st ≠ STL_OK → w_blocks w' = w_blocks w - map_blocks (table s) ∧
       w_objects w' = w_objects w - per_entry (table s) * alen (set_keys s)).
Proof.
  induction new as [|k new IH]; intros s w Hs; cbn [add_all].
  { do 3 eexists. split; [done|]. split; [|done]. intros _. by split_and!. }
  destruct (add_post s k w Hs) as (st & s1 & w1 & E & [Hok [Hd _] Hsh Hstep _ _ Hb Ho _]). wstep E.
  pose proof Hsh as (_ & _ & _ & _ & _ & _ & Hlim & Hkt & Hvt & _).
  assert (per_entry (table s1) = per_entry (table s)) as Hpe by (unfold per_entry; congruence).
  case_bool_decide as Hst; cbn [negb]; cycle 1.
  { destruct (destroy_set_ok s1 w1 Hok) as (s2 & w2 & E2 & Hb2 & Ho2). wstep E2. do 3 eexists. split; [done|].
    split; [done|]. intros _. rewrite Hpe in Ho2. lia. }
  destruct (IH s1 w1 Hok) as (st2 & s2 & w2 & E2 & Hgood & Hbad). do 3 eexists. split; [exact E2|].
  rewrite Hpe, Hlim in *. split; [|intros Hne; specialize (Hbad Hne); lia]. intros Hst2.
  destruct (Hgood Hst2) as (Hs2 & Hl2 & Hpe2 & Hall & Hkeys & Hd2 & Hb2 & Ho2).
  destruct Hstep as [[Es Hk1]|(_ & Hne & _)]; [|done]. cbn [keys_add_all].
  destruct (keys_exec (entry_limit (table s)) (SAdd k) (set_keys s)) as [st1 ks1]. cbn [fst snd] in Es, Hk1.
  rewrite <-Es, Hst, bool_decide_true by done.
  destruct (keys_add_all_perm (entry_limit (table s)) new (set_keys s1) ks1 Hk1) as [P1 P2].
  split_and!; try done; [congruence|by rewrite Hkeys|congruence|lia|lia].
Qed.

(** What construction from the elements [new] does. *)
Definition set_adopted s (limit : Z) (new : list K) (w : world) (st : stl_status) s' (w' : world) : Prop :=
  if bool_decide (st = STL_OK) then
    set_ok s' ∧ entry_limit (table s') = limit ∧ (keys_add_all limit new []).1 = STL_OK ∧
    set_keys s' ≡ₚ (keys_add_all limit new []).2 ∧
    w_blocks w' - map_blocks (table s') = w_blocks w ∧
    w_objects w' - per_entry (table s') * alen (set_keys s') = w_objects w
  else s' = s ∧ w_same w w'.

Definition bound_type (kt : cmeta_type_desc K) : Prop :=
  is_u64 (ty_size kt) ∧ is_u64 (ty_align kt) ∧ type_ok (Some kt) ∧ functions_ok hash equal (Some kt) None None.

(** A table that is initialised for a typed set is empty. *)
Lemma init_typed_ok kt limit st t :
  bound_type kt → is_u64 limit →
  hash_set_raw_init (Some set_zero) (Some kt) limit = (st, Some t) → st = STL_OK →
  set_ok t ∧ descriptor t = None ∧ set_keys t = [] ∧ map_blocks (table t) = 0 ∧ entry_limit (table t) = limit.
Proof using Type.
  intros (Hs & Ha & Hkt & Hfn) Hlim. unfold hash_set_raw_init, hash_map_raw_init.
  cbn [set_zero table]. change (hm_initialized (hash_zero 0)) with false. cbv iota.
  destruct (_ || _); [by intros [= <- <-]|]. destruct (_ || _); [by intros [= <- <-]|].
  destruct (hash_map_initialize _ _ _ _ _ _ _ _ _ _) as [st0 [m|]] eqn:E; [|by intros [= <- <-]].
  intros [= <- <-] ->. apply (initialize_ok hash equal) in E; try done.
  - rewrite bool_decide_true in E by done. destruct E as (Hm & Hc & _ & Hst & Hl & _ & Hv).
    split_and!; [split; [done|by right]|done| | |done].
    + unfold set_keys. cbn. by rewrite Hc.
    + unfold map_blocks. cbn. by rewrite Hst.
  - exists cmeta_traits_bool, Some, (λ v, v). split_and!; try done. congruence.
Qed.

Lemma array_keys_ok (ks : list K) count :
  0 <= count <= alen ks → array_keys (Some ks) count = Some (Some (take (Z.to_nat count) ks)).
Proof using Type.
  intros H. unfold array_keys. destruct (Z.eqb_spec count 0) as [->|]; [done|].
  by rewrite (proj2 (Z.ltb_ge _ _)) by lia.
Qed.

Lemma set_ok_generation s gen : set_ok s → set_ok (with_map s (with_generation (table s) gen)).
Proof using Type.
  intros [[Hp ? ? ? ? ? ? ?] Hv]. split; [|done]. split; try done. by apply (params_shape hash equal (table s)).
Qed.

Lemma raw_init_some (kt : cmeta_type_desc K) limit st :
  hash_set_raw_init (Some set_zero) (Some kt) limit ≠ (st, None).
Proof using Type.
  unfold hash_set_raw_init, hash_map_raw_init, hash_map_initialize. cbn [set_zero table].
  change (hm_initialized (hash_zero 0)) with false. cbv iota. destruct (_ || _); [done|]. destruct (_ || _); [done|].
  destruct (sequence_stride (ty_size kt) (ty_align kt)) as [[] [?|]]; try done.
Qed.

Lemma from_common_ok s kt ks count limit w :
  bound_type kt → is_u64 limit → 0 <= count <= alen ks →
  ∃ st s' w', hash_set_from_common (Some s) (Some ks) count (Some kt) (ty_size kt) (ty_align kt) limit None None w =
      Some ((st, Some s'), w') ∧
    (st = STL_OK → hm_initialized (table s) = false ∧ descriptor s' = None) ∧
    set_adopted s limit (take (Z.to_nat count) ks) w st s' w'.
Proof.
  intros Hkt Hlim Hcount. unfold hash_set_from_common.
  assert (∀ st w', st ≠ STL_OK → w_same w w' → set_adopted s limit (take (Z.to_nat count) ks) w st s w') as Hfail.
  { intros st w' Hst Hw. unfold set_adopted. by rewrite bool_decide_false. }
  destruct (hm_initialized (table s)) eqn:Hinit.
  { wrun. do 3 eexists. split; [done|]. by split; [|apply Hfail]. }
  rewrite (array_keys_ok ks count Hcount). wrun. cbn [is_null negb].
  destruct (hash_set_raw_init (Some set_zero) (Some kt) limit) as [st0 [t|]] eqn:E0; cycle 1.
  { by destruct (raw_init_some kt limit st0). }
  case_bool_decide as Hst0; cbn [negb]; cycle 1.
  { wrun. do 3 eexists. split; [done|]. by split; [|apply Hfail]. }
  destruct (init_typed_ok kt limit st0 t Hkt Hlim E0 Hst0) as (Ht & Hd0 & Hk0 & Hb0 & Hl0).
  destruct (add_all_ok (take (Z.to_nat count) ks) t w Ht) as (st & t' & w1 & E & Hgood & Hbad).
  rewrite Hk0, Hl0, Hb0 in *. unfold alen in Hgood at 2, Hbad. cbn [length] in Hgood, Hbad.
  wstep E. case_bool_decide as Hst; cbn [negb]; cycle 1.
  { do 3 eexists. split; [done|]. split; [done|]. apply Hfail; [done|]. specialize (Hbad Hst). split; lia. }
  destruct (Hgood Hst) as (Ht' & Hl' & Hpe & Hall & Hkeys & Hd & Hb & Ho). wrun. do 3 eexists. split; [done|].
  split; [intros _; split; [done|]; cbn; congruence|].
  unfold set_adopted. rewrite bool_decide_true by done. split_and!; try done.
  - by apply set_ok_generation.
  - unfold map_blocks in *. cbn. lia.
  - change (per_entry (table (with_map t' _))) with (per_entry (table t')). change (set_keys (with_map t' _)) with (set_keys t').
    rewrite Hpe. lia.
Qed.

(** Building a set from an array is all or nothing: on success the handle
    keeps its element type and holds the elements of the array, equal ones
    once; it is refused on a set that is already in use. On any failure the
    handle is as it was, and what had been built is given back. The container
    descriptor of the handle is lost on success, as the code does not save it
    over the assignment. *)
Theorem hash_set_from_array_exact s kt ks count limit w :
  element_type s = Some kt → bound_type kt → is_u64 limit → 0 <= count <= alen ks →
  ∃ st s' w', hash_set_from_array (Some s) (Some ks) count limit w = Some ((st, Some s'), w') ∧
    element_type s' = Some kt ∧ (st = STL_OK → hm_initialized (table s) = false ∧ descriptor s' = None) ∧
    set_adopted s limit (take (Z.to_nat count) ks) w st s' w'.
Proof.
  intros Hel Hkt Hlim Hcount. unfold hash_set_from_array, hash_set_raw_from_array. rewrite Hel.
  destruct (from_common_ok s kt ks count limit w Hkt Hlim Hcount) as (st & s' & w' & E & Hinit & Had). wstep E.
  do 3 eexists. split; [done|]. split_and!; [done|done|].
  unfold set_adopted in *. case_bool_decide as Hst.
  - destruct Had as ([Hm Hv] & ?). split; [by split|done].
  - destruct Had as [-> ?]. split; [|done]. destruct s; cbn in *; congruence.
Qed.
End Spec.

(** ** An example: a set of integers that collide *)

Module ExampleSet.

Definition int_traits : cmeta_type_traits Z :=
  MkTraits CMETA_TRAIT_MASK (Some Z.eqb) (Some ExampleMap.collide) None (Some Some) (Some (λ v, v)) true.
Definition int_type : cmeta_type_desc Z := MkType 4 4 (Some int_traits).
Definition int_set : hash_set_t Z := MkHashSet (Some 4096) (Some int_type) (hash_zero 0).
Definition empty_set_ : hash_set_t Z := MkHashSet None None
  (MkHashMap None [] 0 0 0 8 8 8 1 1 1 100 None None (Some ExampleMap.collide) (Some Z.eqb) 1 true).

Lemma empty_set_ok : set_ok ExampleMap.collide Z.eqb empty_set_.
Proof.
  split; [|by left].
  assert (hash_map_initialize (Some (hash_zero 0 : hash_map_t Z Z)) None None 8 8 1 1 100 (Some ExampleMap.collide) (Some Z.eqb) =
    (STL_OK, Some (table empty_set_))) as E by reflexivity.
  apply (initialize_ok ExampleMap.collide Z.eqb) in E; try (by vm_compute).
  rewrite bool_decide_true in E by done. apply E.
Qed.

Lemma int_type_bound : bound_type ExampleMap.collide Z.eqb int_type.
Proof.
  split_and!; [done|done| |by exists int_traits].
  exists int_traits, Some, (λ v, v). split_and!; try done. congruence.
Qed.

(** Two equal elements are kept once. *)
Example from_array_3 :
  (r ← hash_set_from_array (Some int_set) (Some [2; 3; 2]) 3 100 (ExampleMap.memory 20); set_keys <$> (snd (fst r))) =
  Some [2; 3].
Proof. vm_compute. reflexivity. Qed.

End ExampleSet.
Import ExampleSet.

Lemma hash_set_refines_witness :
  ∃ st s' w', hash_set_add (Some empty_set_) (Some 3) (ExampleMap.memory 3) = Some ((st, Some s'), w') ∧
    set_post ExampleMap.collide Z.eqb empty_set_ (STL_OK, [3]) True (ExampleMap.memory 3) st s' w'.
Proof. apply (hash_set_refines ExampleMap.collide Z.eqb ExampleMap.collide_laws empty_set_ (SAdd 3)); [apply empty_set_ok|done]. Defined.

Lemma hash_set_from_array_exact_witness :
  ∃ st s' w', hash_set_from_array (Some int_set) (Some [2; 3; 2]) 3 100 (ExampleMap.memory 20) = Some ((st, Some s'), w') ∧
    set_adopted ExampleMap.collide Z.eqb int_set 100 [2; 3; 2] (ExampleMap.memory 20) st s' w'.
Proof.
  destruct (hash_set_from_array_exact ExampleMap.collide Z.eqb ExampleMap.collide_laws int_set int_type [2; 3; 2] 3 100
    (ExampleMap.memory 20)) as (st & s' & w' & E & _ & _ & H); [reflexivity|exact int_type_bound|by vm_compute|by vm_compute|].
  exists st, s', w'. split; [exact E|exact H].
Defined.
