(* ===== verification/Vec.v ===== *)
(** * Vectors ([cstl/src/vec.c])

    Every operation of the vector over the storage of [Sequence], and its
    refinement of a list: each call either does what the list operation does
    or, when memory runs out, changes nothing; no block and no object leaks. *)

From S2P Require Import Prelude World Sequence.
Local Open Scope Z_scope.

Section Vec.
Context {V : Type}.

(** The fields of the struct are those of [storage]. *)
Definition vec_t : Type := storage V.
Implicit Types (vec : option vec_t) (v : vec_t) (elem : option V).

Definition vec_valid vec : bool :=
  match vec with None => false | Some v => initialized v && negb (elem_size v =? 0) end.

Definition vec_next_capacity v (minimum : Z) : option (stl_status * Z) := next_capacity v minimum.

Definition vec_grow_to v (minimum : Z) : M (stl_status * bool * vec_t) :=
  grow_to (vec_valid (Some v)) v minimum.

Definition vec_prepare_copy v elem : M (stl_status * option Z * slot V) := prepare_copy v elem.

Definition vec_discard_prepared v (value : option Z) (x : slot V) : M unit :=
  discard_prepared v value x.

Definition vec_initialize vec (type : option (cmeta_type_desc V)) (size align limit : Z) :
    stl_status * option vec_t :=
  match vec with
  | None => (STL_INVALID_ARGUMENT, vec)
  | Some v =>
      if initialized v then (STL_INVALID_ARGUMENT, vec) else
      match sequence_stride size align with
      | (STL_OK, Some stride) =>
          (STL_OK, Some (MkStorage None [] 0 0 size stride align limit type
                           (u64 (generation v + 1)) true))
      | (status, _) => (status, vec)
      end
  end.

Definition vec_init_bytes vec (size align limit : Z) : stl_status * option vec_t :=
  vec_initialize vec None size align limit.

Definition vec_raw_init vec (type : option (cmeta_type_desc V)) (limit : Z) :
    stl_status * option vec_t :=
  match vec, type with
  | None, _ => (STL_INVALID_ARGUMENT, vec)
  | Some v, _ =>
      if initialized v then (STL_INVALID_ARGUMENT, vec) else
      match sequence_require_type type false, type with
      | STL_OK, Some t => vec_initialize vec type (ty_size t) (ty_align t) limit
      | status, _ => (status, vec)
      end
  end.

Definition vec_clear vec : M (stl_status * option vec_t) :=
  match vec with
  | Some v =>
      if negb (vec_valid vec) then mret (STL_INVALID_ARGUMENT, vec) else
      '(status, slots) ← destroy_range (element_type v) (Z.to_nat (st_size v)) 0 (st_slots v);
      let v := set_slots v slots in
      if negb (bool_decide (status = STL_OK)) then mret (status, Some v) else
      mret (STL_OK, Some (if st_size v =? 0 then v else bump (set_size v 0)))
  | None => mret (STL_INVALID_ARGUMENT, vec)
  end.

Definition vec_raw_destroy_storage vec : M (option vec_t) :=
  match vec with
  | None => mret None
  | Some v =>
      if initialized v then
        '(_, vec) ← vec_clear vec;
        v ← lift vec;
        let gen := u64 (generation v + 1) in
        _ ← sequence_deallocate (st_data v);
        mret (Some (storage_zero gen))
      else mret (Some (storage_zero (generation v)))
  end.

Definition vec_push vec elem : M (stl_status * option vec_t) :=
  match vec, elem with
  | Some v, Some _ =>
      if negb (vec_valid vec) then mret (STL_INVALID_ARGUMENT, vec) else
      if element_limit v <=? st_size v then mret (STL_CAPACITY_EXCEEDED, vec) else
      '(status, prepared, x) ← vec_prepare_copy v elem;
      if negb (bool_decide (status = STL_OK)) then mret (status, vec) else
      '(status, _, v) ← vec_grow_to v (u64 (st_size v + 1));
      if negb (bool_decide (status = STL_OK))
      then _ ← vec_discard_prepared v prepared x; mret (status, Some v) else
      dst ← lift (aget (st_slots v) (st_size v));
      '(status, dst, _) ← sequence_move_destroy (element_type v) (Some dst) (Some x);
      _ ← sequence_deallocate prepared;
      if negb (bool_decide (status = STL_OK)) then mret (status, Some v) else
      dst ← lift dst;
      slots ← lift (aset (st_slots v) (st_size v) dst);
      mret (STL_OK, Some (bump (set_size (set_slots v slots) (u64 (st_size v + 1)))))
  | _, _ => mret (STL_INVALID_ARGUMENT, vec)
  end.

(** The loops of [vec_from_array_bytes] and [vec_raw_from_array]. *)
Fixpoint push_all (elements : list V) (v : option vec_t) : M (stl_status * option vec_t) :=
  match elements with
  | [] => mret (STL_OK, v)
  | x :: elements =>
      '(status, v) ← vec_push v (Some x);
      if negb (bool_decide (status = STL_OK))
      then v ← vec_raw_destroy_storage v; mret (status, v)
      else push_all elements v
  end.

(** From the checks on: [init] is the result of initialising the temporary. *)
Definition vec_from_array vec (elements : option (list V)) (count limit : Z)
    (init : stl_status * option vec_t) : M (stl_status * option vec_t) :=
  match vec with
  | None => mret (STL_INVALID_ARGUMENT, vec)
  | Some v =>
      if initialized v then mret (STL_INVALID_ARGUMENT, vec) else
      if (negb (count =? 0) && is_null elements) || (limit <? count) then
        mret (if limit <? count then STL_CAPACITY_EXCEEDED else STL_INVALID_ARGUMENT, vec)
      else
      let '(status, temporary) := init in
      if negb (bool_decide (status = STL_OK)) then mret (status, vec) else
      xs ← lift (if count =? 0 then Some [] else
                 l ← elements; if alen l <? count then None else Some (take (Z.to_nat count) l));
      '(status, temporary) ← push_all xs temporary;
      if negb (bool_decide (status = STL_OK)) then mret (status, vec) else
      t ← lift temporary;
      mret (STL_OK, Some (MkStorage (st_data t) (st_slots t) (st_size t) (st_capacity t) (elem_size t)
        (elem_stride t) (elem_align t) (element_limit t) (element_type t) (u64 (generation v + 1))
        (initialized t)))
  end.

Definition vec_from_array_bytes vec (elements : option (list V)) (count size align limit : Z) :
    M (stl_status * option vec_t) :=
  vec_from_array vec elements count limit (vec_init_bytes (Some (storage_zero 0)) size align limit).

Definition vec_raw_from_array vec (elements : option (list V)) (count : Z)
    (type : option (cmeta_type_desc V)) (limit : Z) : M (stl_status * option vec_t) :=
  vec_from_array vec elements count limit (vec_raw_init (Some (storage_zero 0)) type limit).

Definition vec_reserve vec (min_capacity : Z) : M (stl_status * option vec_t) :=
  match vec with
  | None => mret (STL_INVALID_ARGUMENT, vec)
  | Some v =>
      '(status, changed, v) ← vec_grow_to v min_capacity;
      mret (status, Some (if bool_decide (status = STL_OK) && (changed : bool) then bump v else v))
  end.

(** [out_elem ? sequence_move_destroy(...) : sequence_destroy_value(...)]:
    the status, what was moved out and the slot. *)
Definition take_out (type : option (cmeta_type_desc V)) (out : bool) (x : slot V) :
    M (stl_status * option V * slot V) :=
  if out then
    '(status, dst, src) ← sequence_move_destroy type (Some None) (Some x);
    dst ← lift dst; src ← lift src;
    mret (status, dst, src)
  else
    '(status, src) ← sequence_destroy_value type (Some x);
    src ← lift src;
    mret (status, None, src).

Definition vec_pop vec (out : bool) : M (stl_status * option V * option vec_t) :=
  match vec with
  | None => mret (STL_INVALID_ARGUMENT, None, vec)
  | Some v =>
      if negb (vec_valid vec) then mret (STL_INVALID_ARGUMENT, None, vec) else
      if st_size v =? 0 then mret (STL_EMPTY, None, vec) else
      let index := st_size v - 1 in
      x ← lift (aget (st_slots v) index);
      '(status, r, x) ← take_out (element_type v) out x;
      if negb (bool_decide (status = STL_OK)) then mret (status, None, vec) else
      slots ← lift (aset (st_slots v) index x);
      mret (STL_OK, r, Some (bump (set_size (set_slots v slots) index)))
  end.

(** [sequence_move_destroy] between two slots of the vector; the loops that
    shift ignore its status. *)
Definition slot_move_status (type : option (cmeta_type_desc V)) (l : list (slot V)) (dst src : Z) :
    M (stl_status * list (slot V)) :=
  d ← lift (aget l dst);
  x ← lift (aget l src);
  '(status, d, x) ← sequence_move_destroy type (Some d) (Some x);
  d ← lift d; x ← lift x;
  l ← lift (aset l dst d);
  l ← lift (aset l src x);
  mret (status, l).

Definition slot_move (type : option (cmeta_type_desc V)) (l : list (slot V)) (dst src : Z) :
    M (list (slot V)) :=
  '(_, l) ← slot_move_status type l dst src; mret l.

(** [for (cursor = size; cursor > index; --cursor)], [n] rounds. *)
Fixpoint shift_up (type : option (cmeta_type_desc V)) (n : nat) (cursor : Z) (l : list (slot V)) :
    M (list (slot V)) :=
  match n with
  | O => mret l
  | S n => l ← slot_move type l cursor (cursor - 1); shift_up type n (cursor - 1) l
  end.

(** [for (cursor = index; cursor + 1 < size; ++cursor)], [n] rounds. *)
Fixpoint shift_down (type : option (cmeta_type_desc V)) (n : nat) (cursor : Z) (l : list (slot V)) :
    M (list (slot V)) :=
  match n with
  | O => mret l
  | S n => l ← slot_move type l cursor (cursor + 1); shift_down type n (cursor + 1) l
  end.

Definition vec_insert vec (index : Z) elem : M (stl_status * option vec_t) :=
  match vec, elem with
  | Some v, Some _ =>
      if negb (vec_valid vec) || (st_size v <? index) then mret (STL_INVALID_ARGUMENT, vec) else
      if element_limit v <=? st_size v then mret (STL_CAPACITY_EXCEEDED, vec) else
      '(status, prepared, x) ← vec_prepare_copy v elem;
      if negb (bool_decide (status = STL_OK)) then mret (status, vec) else
      '(status, _, v) ← vec_grow_to v (u64 (st_size v + 1));
      if negb (bool_decide (status = STL_OK))
      then _ ← vec_discard_prepared v prepared x; mret (status, Some v) else
      slots ← (if is_null (element_type v)
               then lift (amove (st_slots v) (index + 1) index (st_size v - index))
               else shift_up (element_type v) (Z.to_nat (st_size v - index)) (st_size v) (st_slots v));
      dst ← lift (aget slots index);
      '(status, dst, _) ← sequence_move_destroy (element_type v) (Some dst) (Some x);
      _ ← sequence_deallocate prepared;
      if negb (bool_decide (status = STL_OK)) then mret (status, Some (set_slots v slots)) else
      dst ← lift dst;
      slots ← lift (aset slots index dst);
      mret (STL_OK, Some (bump (set_size (set_slots v slots) (u64 (st_size v + 1)))))
  | _, _ => mret (STL_INVALID_ARGUMENT, vec)
  end.

Definition vec_set vec (index : Z) elem : M (stl_status * option vec_t) :=
  match vec, elem with
  | Some v, Some _ =>
      if negb (vec_valid vec) || (st_size v <=? index) then mret (STL_INVALID_ARGUMENT, vec) else
      '(status, prepared, x) ← vec_prepare_copy v elem;
      if negb (bool_decide (status = STL_OK)) then mret (status, vec) else
      old ← lift (aget (st_slots v) index);
      '(status, old) ← sequence_destroy_value (element_type v) (Some old);
      old ← lift old;
      '(status, new) ← (if bool_decide (status = STL_OK) then
           '(status, new, _) ← sequence_move_destroy (element_type v) (Some old) (Some x);
           new ← lift new; mret (status, new)
         else mret (status, old));
      slots ← lift (aset (st_slots v) index new);
      _ ← sequence_deallocate prepared;
      let v := set_slots v slots in
      if negb (bool_decide (status = STL_OK)) then mret (status, Some v) else
      mret (STL_OK, Some (bump v))
  | _, _ => mret (STL_INVALID_ARGUMENT, vec)
  end.

Definition vec_erase vec (index : Z) (out : bool) : M (stl_status * option V * option vec_t) :=
  match vec with
  | None => mret (STL_INVALID_ARGUMENT, None, vec)
  | Some v =>
      if negb (vec_valid vec) || (st_size v <=? index) then mret (STL_INVALID_ARGUMENT, None, vec) else
      x ← lift (aget (st_slots v) index);
      '(status, r, x) ← take_out (element_type v) out x;
      if negb (bool_decide (status = STL_OK)) then mret (status, None, vec) else
      slots ← lift (aset (st_slots v) index x);
      slots ← (if is_null (element_type v)
               then lift (amove slots index (index + 1) (st_size v - index - 1))
               else shift_down (element_type v) (Z.to_nat (st_size v - index - 1)) index slots);
      mret (STL_OK, r, Some (bump (set_size (set_slots v slots) (st_size v - 1))))
  end.

Definition vec_swap_remove vec (index : Z) (out : bool) : M (stl_status * option V * option vec_t) :=
  match vec with
  | None => mret (STL_INVALID_ARGUMENT, None, vec)
  | Some v =>
      if negb (vec_valid vec) || (st_size v <=? index) then mret (STL_INVALID_ARGUMENT, None, vec) else
      let last := st_size v - 1 in
      x ← lift (aget (st_slots v) index);
      '(status, r, x) ← take_out (element_type v) out x;
      if negb (bool_decide (status = STL_OK)) then mret (status, None, vec) else
      slots ← lift (aset (st_slots v) index x);
      '(status, slots) ← (if index =? last then mret (STL_OK, slots) else slot_move_status (element_type v) slots index last);
      if negb (bool_decide (status = STL_OK)) then mret (status, r, Some (set_slots v slots)) else
      mret (STL_OK, r, Some (bump (set_size (set_slots v slots) last)))
  end.

(** [while (vec->size > new_size)], [n] rounds. *)
Fixpoint pop_back (n : nat) v : M (stl_status * vec_t) :=
  match n with
  | O => mret (STL_OK, v)
  | S n =>
      let v := set_size v (st_size v - 1) in
      x ← lift (aget (st_slots v) (st_size v));
      '(status, x) ← sequence_destroy_value (element_type v) (Some x);
      x ← lift x;
      slots ← lift (aset (st_slots v) (st_size v) x);
      let v := set_slots v slots in
      if negb (bool_decide (status = STL_OK)) then mret (status, v) else pop_back n v
  end.

(** [zero] is the element whose bytes are all 0. *)
Definition vec_resize (zero : V) vec (new_size : Z) : M (stl_status * option vec_t) :=
  match vec with
  | None => mret (STL_INVALID_ARGUMENT, vec)
  | Some v =>
      if negb (vec_valid vec) then mret (STL_INVALID_ARGUMENT, vec) else
      if element_limit v <? new_size then mret (STL_CAPACITY_EXCEEDED, vec) else
      let old_size := st_size v in
      if new_size =? old_size then mret (STL_OK, vec) else
      if new_size <? old_size then
        '(status, v) ← pop_back (Z.to_nat (old_size - new_size)) v;
        mret (status, Some (if bool_decide (status = STL_OK) then bump v else v))
      else
      if negb (is_null (element_type v)) then mret (STL_TRAIT_MISSING, vec) else
      '(status, _, v) ← vec_grow_to v new_size;
      if negb (bool_decide (status = STL_OK)) then mret (status, Some v) else
      slots ← lift (if bool_decide (new_size <= alen (st_slots v))
                    then Some (take (Z.to_nat old_size) (st_slots v) ++
                               replicate (Z.to_nat (new_size - old_size)) (Some zero) ++
                               drop (Z.to_nat new_size) (st_slots v)) else None);
      mret (STL_OK, Some (bump (set_size (set_slots v slots) new_size)))
  end.

(** What the client finds at the pointer, [None] for [NULL]. *)
Definition vec_at vec (index : Z) : option (slot V) :=
  match vec with
  | None => None
  | Some v => if vec_valid vec && (index <? st_size v) then aget (st_slots v) index else None
  end.

Definition vec_at_const vec (index : Z) : option (slot V) :=
  match vec with
  | None => None
  | Some v => if vec_valid vec && (index <? st_size v) then aget (st_slots v) index else None
  end.

Definition vec_data vec : option Z :=
  match vec with None => None | Some v => if vec_valid vec then st_data v else None end.

Definition vec_size vec : Z :=
  match vec with None => 0 | Some v => if vec_valid vec then st_size v else 0 end.

Definition vec_capacity vec : Z :=
  match vec with None => 0 | Some v => if vec_valid vec then st_capacity v else 0 end.

Definition vec_generation vec : Z :=
  match vec with None => 0 | Some v => generation v end.

Definition vec_empty vec : bool := vec_size vec =? 0.
End Vec.
#[global] Arguments vec_t : clear implicits.

(** ** Moving elements between slots *)

Definition when {V} (out : bool) (x : option V) : option V := if out then x else None.

Section Moves.
Context {V : Type} (type : option (cmeta_type_desc V)).

Lemma take_out_ok out x w :
  type_ok type →
  ∃ w', take_out type out (Some x) w =
    Some ((STL_OK, when out (Some x), if is_null type then Some x else None), w') ∧
    w_malloc w' = w_malloc w ∧ w_blocks w' = w_blocks w ∧
    w_objects w' = w_objects w - owned type * (if out then 0 else 1).
Proof.
  intros Hok. unfold take_out. destruct out.
  - wstep (move_ok type Hok None x w). wrun. exists w. split_and!; try done. lia.
  - destruct (destroy_ok type Hok x w) as (w' & E & Hm & Hb & Ho). wstep E. wrun.
    exists w'. split_and!; try done. lia.
Qed.

(** Between two slots, the destination first or last. *)
Lemma slot_move_status_up l1 d x l2 w i j :
  type_ok type → i = alen l1 → j = i + 1 →
  slot_move_status type (l1 ++ Some x :: d :: l2) j i w =
    Some ((STL_OK, l1 ++ (if is_null type then Some x else None) :: Some x :: l2), w).
Proof.
  intros Hok Hi Hj. unfold slot_move_status.
  assert (∀ z : slot V, j = alen (l1 ++ [z])) as Hj'
    by (intros z; rewrite alen_app; unfold alen in *; simpl; lia).
  assert (∀ (y z : slot V) t, l1 ++ z :: y :: t = (l1 ++ [z]) ++ y :: t) as Has
    by (intros; by rewrite <-app_assoc).
  rewrite (aget_middle l1) by done. rewrite Has, (aget_middle (l1 ++ [Some x])) by done. wrun.
  wstep (move_ok type Hok d x w). wrun. rewrite (aset_middle (l1 ++ [Some x])) by done. wrun.
  rewrite <-Has, (aset_middle l1) by done. by wrun.
Qed.
Lemma slot_move_up l1 d x l2 w i j :
  type_ok type → i = alen l1 → j = i + 1 →
  slot_move type (l1 ++ Some x :: d :: l2) j i w =
    Some (l1 ++ (if is_null type then Some x else None) :: Some x :: l2, w).
Proof. intros Hok Hi Hj. unfold slot_move. by wstep (slot_move_status_up l1 d x l2 w i j Hok Hi Hj). Qed.

Lemma slot_move_status_down l1 d l2 x l3 w i j :
  type_ok type → i = alen l1 → j = i + 1 + alen l2 →
  slot_move_status type (l1 ++ d :: l2 ++ Some x :: l3) i j w =
    Some ((STL_OK, l1 ++ Some x :: l2 ++ (if is_null type then Some x else None) :: l3), w).
Proof.
  intros Hok Hi Hj. unfold slot_move_status.
  assert (∀ z : slot V, j = alen (l1 ++ z :: l2)) as Hj'
    by (intros z; rewrite alen_app; unfold alen in *; simpl; lia).
  assert (∀ (y z : slot V) t, l1 ++ z :: l2 ++ y :: t = (l1 ++ z :: l2) ++ y :: t) as Has
    by (intros; by rewrite <-app_assoc).
  rewrite (aget_middle l1 _ _ i) by done. rewrite Has, (aget_middle (l1 ++ d :: l2) _ _ j) by done. wrun.
  wstep (move_ok type Hok d x w). wrun. rewrite <-Has, (aset_middle l1) by done. wrun.
  rewrite Has, (aset_middle (l1 ++ Some x :: l2)) by done. wrun. by rewrite <-Has.
Qed.
Lemma slot_move_down l1 d l2 x l3 w i j :
  type_ok type → i = alen l1 → j = i + 1 + alen l2 →
  slot_move type (l1 ++ d :: l2 ++ Some x :: l3) i j w =
    Some (l1 ++ Some x :: l2 ++ (if is_null type then Some x else None) :: l3, w).
Proof. intros Hok Hi Hj. unfold slot_move. by wstep (slot_move_status_down l1 d l2 x l3 w i j Hok Hi Hj). Qed.

Lemma shift_up_ok pre ys d tl w :
  type_ok type → type ≠ None → (ys = [] → d = None) →
  shift_up type (length ys) (alen pre + alen ys) (pre ++ map Some ys ++ d :: tl) w =
    Some (pre ++ None :: map Some ys ++ tl, w).
Proof.
  intros Hok Hne. revert d tl. induction ys as [|y ys IH] using rev_ind; intros d tl Hd.
  { simpl. by rewrite Hd. }
  rewrite length_app, Nat.add_1_r. cbn [shift_up].
  rewrite map_app, <-!app_assoc, (app_assoc pre). cbn [map app].
  assert (alen (ys ++ [y]) = alen ys + 1) as -> by (rewrite alen_app; done).
  assert (slot_move type ((pre ++ map Some ys) ++ Some y :: d :: tl) (alen pre + (alen ys + 1))
    (alen pre + (alen ys + 1) - 1) w = Some ((pre ++ map Some ys) ++ None :: Some y :: tl, w)) as Hmv.
  { rewrite slot_move_up; [by destruct type|done| |lia].
    rewrite alen_app. unfold alen. rewrite length_map. lia. }
  wstep Hmv. replace (alen pre + (alen ys + 1) - 1) with (alen pre + alen ys) by lia.
  rewrite <-app_assoc. by rewrite IH.
Qed.

Lemma shift_down_ok pre ys tl w :
  type_ok type → type ≠ None →
  shift_down type (length ys) (alen pre) (pre ++ None :: map Some ys ++ tl) w =
    Some (pre ++ map Some ys ++ None :: tl, w).
Proof.
  intros Hok Hne. revert pre. induction ys as [|y ys IH]; intros pre; [done|].
  cbn [shift_down length map app].
  assert (slot_move type (pre ++ None :: [] ++ Some y :: map Some ys ++ tl) (alen pre) (alen pre + 1) w =
    Some (pre ++ Some y :: None :: map Some ys ++ tl, w)) as Hmv.
  { rewrite slot_move_down; [by destruct type|done|done|]. unfold alen at 3. simpl. lia. }
  wstep Hmv. specialize (IH (pre ++ [Some y])). rewrite <-!app_assoc in IH. cbn [app] in IH.
  by rewrite alen_app in IH.
Qed.
End Moves.

(** ** The list a vector stands for *)

Inductive vec_op (V : Type) :=
  | VPush (x : V)
  | VPop (out : bool)
  | VInsert (index : Z) (x : V)
  | VSet (index : Z) (x : V)
  | VErase (index : Z) (out : bool)
  | VSwapRemove (index : Z) (out : bool)
  | VResize (n : Z)
  | VReserve (n : Z)
  | VClear.
#[global] Arguments VPush {V} _.
#[global] Arguments VPop {V} _.
#[global] Arguments VInsert {V} _ _.
#[global] Arguments VSet {V} _ _.
#[global] Arguments VErase {V} _ _.
#[global] Arguments VSwapRemove {V} _ _.
#[global] Arguments VResize {V} _.
#[global] Arguments VReserve {V} _.
#[global] Arguments VClear {V}.

Section Refinement.
Context {V : Type} (zero : V).
Implicit Types (v : vec_t V) (xs : list V) (op : vec_op V).

(** A call: the status, the element handed out and the vector. *)
Definition vec_exec op v : M (stl_status * option V * option (vec_t V)) :=
  let plain m := '(st, vec) ← m; mret (st, None, vec) in
  match op with
  | VPush x => plain (vec_push (Some v) (Some x))
  | VPop out => vec_pop (Some v) out
  | VInsert i x => plain (vec_insert (Some v) i (Some x))
  | VSet i x => plain (vec_set (Some v) i (Some x))
  | VErase i out => vec_erase (Some v) i out
  | VSwapRemove i out => vec_swap_remove (Some v) i out
  | VResize n => plain (vec_resize zero (Some v) n)
  | VReserve n => plain (vec_reserve (Some v) n)
  | VClear => plain (vec_clear (Some v))
  end.

(** The same call on a list of at most [limit] elements, with memory enough. *)
Definition list_exec (limit : Z) (typed : bool) op xs : stl_status * option V * list V :=
  let at_ i := xs !! Z.to_nat i in
  match op with
  | VPush x => if limit <=? alen xs then (STL_CAPACITY_EXCEEDED, None, xs) else (STL_OK, None, xs ++ [x])
  | VPop out =>
      if alen xs =? 0 then (STL_EMPTY, None, xs)
      else (STL_OK, when out (last xs), take (length xs - 1) xs)
  | VInsert i x =>
      if alen xs <? i then (STL_INVALID_ARGUMENT, None, xs) else
      if limit <=? alen xs then (STL_CAPACITY_EXCEEDED, None, xs)
      else (STL_OK, None, take (Z.to_nat i) xs ++ x :: drop (Z.to_nat i) xs)
  | VSet i x =>
      if alen xs <=? i then (STL_INVALID_ARGUMENT, None, xs) else (STL_OK, None, <[Z.to_nat i := x]> xs)
  | VErase i out =>
      if alen xs <=? i then (STL_INVALID_ARGUMENT, None, xs)
      else (STL_OK, when out (at_ i), take (Z.to_nat i) xs ++ drop (S (Z.to_nat i)) xs)
  | VSwapRemove i out =>
      if alen xs <=? i then (STL_INVALID_ARGUMENT, None, xs)
      else (STL_OK, when out (at_ i),
            take (length xs - 1) (match last xs with Some y => <[Z.to_nat i := y]> xs | None => xs end))
  | VResize n =>
      if limit <? n then (STL_CAPACITY_EXCEEDED, None, xs) else
      if n <=? alen xs then (STL_OK, None, take (Z.to_nat n) xs) else
      if typed then (STL_TRAIT_MISSING, None, xs)
      else (STL_OK, None, xs ++ replicate (Z.to_nat n - length xs) zero)
  | VReserve n => if limit <? n then (STL_CAPACITY_EXCEEDED, None, xs) else (STL_OK, None, xs)
  | VClear => (STL_OK, None, [])
  end.

(** Arguments of the C types. *)
Definition op_ok op : Prop :=
  match op with
  | VPush x => True
  | VInsert i x | VSet i x => is_u64 i
  | VErase i _ | VSwapRemove i _ => is_u64 i
  | VResize n | VReserve n => is_u64 n
  | VPop _ | VClear => True
  end.

(** The element, when there is one, can be copied. *)
Definition op_copyable (type : option (cmeta_type_desc V)) op : Prop :=
  match op with VPush x | VInsert _ x | VSet _ x => copyable type x | _ => True end.

(** The result of a call on [v] holding [xs] when [spec] is the list's. *)
Record vec_post v xs w (spec : stl_status * option V * list V) (cp : Prop)
    (st : stl_status) (out : option V) v' w' : Prop := {
  vp_ok : storage_ok v';
  vp_params : same_params v v';
  vp_blocks : w_blocks w' - blocks_of v' = w_blocks w - blocks_of v;
  vp_step : ∃ ys, holds v' ys ∧
    ((st, out, ys) = spec ∨ (spec.1.1 = STL_OK ∧ st ≠ STL_OK ∧ out = None ∧ ys = xs)) ∧
    w_objects w' - owned (element_type v) * (alen ys + (if is_null out then 0 else 1)) =
      w_objects w - owned (element_type v) * alen xs;
  vp_enough : roomy v → 0 < element_limit v → mallocs 2 (elem_align v) w → cp → st = spec.1.1
}.

Lemma vec_valid_ok v : storage_ok v → vec_valid (Some v) = true.
Proof.
  intros H. unfold vec_valid. rewrite (so_init v H). by rewrite (proj2 (Z.eqb_neq _ _) (so_elem v H)).
Qed.

Lemma holds_bump v xs : holds (bump v) xs ↔ holds v xs.
Proof. done. Qed.

Lemma ok_bump v : storage_ok v → storage_ok (bump v).
Proof. by intros [? ? ? ? ? ? ? ? ? ?]. Qed.

(** The storage after writing [slots] and a size. *)
Lemma ok_rewrite v slots n :
  storage_ok v → alen slots = alen (st_slots v) → 0 <= n <= st_capacity v →
  storage_ok (bump (set_size (set_slots v slots) n)).
Proof. intros [? ? ? ? ? ? ? ? ? ?] Hl Hn. split; simpl; try done. lia. Qed.

(** A call that is refused. *)
Lemma post_refused v xs w st op cp spec :
  storage_ok v → holds v xs → spec = (st, None, xs) → vec_post v xs w spec cp st None v w.
Proof.
  intros Hs Hh ->. split; try done. exists xs. split; [done|]. split; [by left|]. simpl. lia.
Qed.

(** A prepared copy and room for it, or a failure that changed nothing. *)
Lemma prologue v xs x w :
  storage_ok v → holds v xs → st_size v < element_limit v →
  ∃ st p c w1, vec_prepare_copy v (Some x) w = Some ((st, p, c), w1) ∧
    (st ≠ STL_OK → w_same w w1) ∧
    (st = STL_OK → c = Some x ∧ w_blocks w1 = w_blocks w + 1 ∧
       w_objects w1 = w_objects w + owned (element_type v) ∧ is_Some p ∧
       ∃ st2 ch v1 w2, vec_grow_to v (u64 (st_size v + 1)) w1 = Some ((st2, ch, v1), w2) ∧
         grown v xs (st_size v + 1) w1 st2 v1 w2) ∧
    (∀ n, mallocs (S n) (elem_align v) w → roomy v → copyable (element_type v) x →
       st = STL_OK ∧ mallocs n (elem_align v) w1).
Proof.
  intros Hs Hh Hlt. destruct (Hs) as [_ _ _ _ Hlim _ _ Hsz Hcap _].
  destruct (prepare_cases v x w Hs) as (st & p & c & w1 & E & Hres & Hen).
  exists st, p, c, w1. split; [done|]. split_and!.
  - intros Hne. rewrite bool_decide_false in Hres by done. tauto.
  - intros ->. rewrite bool_decide_true in Hres by done. destruct Hres as (Hp & -> & Hb & Ho).
    split_and!; try done. unfold vec_grow_to. rewrite vec_valid_ok by done.
    rewrite u64_id by (unfold_words; lia). apply grow_cases; [done|done|lia].
  - intros n Hn Hr Hc. apply Hen; try done. lia.
Qed.

(** A failure before anything was stored. *)
Lemma post_failed v xs w spec cp st v' w' :
  storage_ok v' → holds v' xs → same_params v v' → spec.1.1 = STL_OK → st ≠ STL_OK →
  w_blocks w' - blocks_of v' = w_blocks w - blocks_of v → w_objects w' = w_objects w →
  (roomy v → 0 < element_limit v → mallocs 2 (elem_align v) w → cp → False) →
  vec_post v xs w spec cp st None v' w'.
Proof.
  intros Hs Hh Hp Hspec Hne Hb Ho Hen. split; try done.
  - exists xs. split; [done|]. split; [by right|]. simpl. lia.
  - intros ? ? ? ?. by exfalso; apply Hen.
Qed.

(** Success: new slots and size on the grown vector. *)
Lemma post_stored v xs w spec cp v1 ys slots tl w' n (out : option V) :
  storage_ok v1 → same_params v v1 → spec = (STL_OK, out, ys) →
  w_blocks w' - blocks_of v1 = w_blocks w - blocks_of v →
  w_objects w' - owned (element_type v) * (alen ys + (if is_null out then 0 else 1)) =
    w_objects w - owned (element_type v) * alen xs →
  slots = map Some ys ++ tl → n = alen ys → alen slots = alen (st_slots v1) →
  (element_type v ≠ None → Forall (λ x, x = None) tl) →
  vec_post v xs w spec cp STL_OK out (bump (set_size (set_slots v1 slots) n)) w'.
Proof.
  intros Hs1 Hp -> Hb Ho Hsl Hn Hlen Htl. pose proof Hp as (_ & _ & _ & _ & Hty & _). split; try done.
  - apply ok_rewrite; [done|done|]. rewrite <-(so_slots _ Hs1), <-Hlen, Hsl, alen_app, Hn.
    unfold alen. rewrite length_map. lia.
  - exists ys. split; [|split; [by left|done]]. split; [done|]. exists tl. split; [done|].
    simpl. by rewrite Hty.
Qed.

(** The part of [vec_push] and [vec_insert] that fails. *)
Lemma post_unprepared v xs x w st p c w1 spec :
  storage_ok v → holds v xs → st_size v < element_limit v → spec.1.1 = STL_OK →
  vec_prepare_copy v (Some x) w = Some ((st, p, c), w1) → st ≠ STL_OK →
  vec_post v xs w spec (copyable (element_type v) x) st None v w1.
Proof.
  intros Hs Hh Hlt Hspec E Hst. destruct (prologue v xs x w Hs Hh Hlt) as (? & ? & ? & ? & E' & Hf & _ & Hen).
  rewrite E in E'. simplify_eq. destruct (Hf Hst) as [Hb Ho]. apply post_failed; try done; [lia|].
  intros Hr _ Hm Hc. by destruct (Hen 1%nat Hm Hr Hc).
Qed.

Lemma post_no_room v xs x w w1 st v1 w2 w3 spec p :
  storage_ok v → grown v xs (st_size v + 1) w1 st v1 w2 → st ≠ STL_OK → spec.1.1 = STL_OK →
  st_size v < element_limit v →
  w_blocks w1 = w_blocks w + 1 → w_objects w1 = w_objects w + owned (element_type v) → is_Some p →
  vec_discard_prepared v1 p (Some x) w2 = Some (tt, w3) →
  (∀ n, mallocs (S n) (elem_align v) w → roomy v → copyable (element_type v) x → mallocs n (elem_align v) w1) →
  vec_post v xs w spec (copyable (element_type v) x) st None v1 w3.
Proof.
  intros Hs [Hok Hh Hpar _ Hobj Hblk Hfail _ Hen] Hst Hspec Hlt Hb Ho Hp E Hm.
  destruct (Hfail Hst) as [-> Hb2]. destruct (discard_run v p x w2 Hs Hp) as (w4 & E' & Hb4 & Ho4).
  unfold vec_discard_prepared in E. rewrite E in E'. simplify_eq.
  apply post_failed; try done; [lia|lia|].
  intros Hr _ Hn Hc. apply Hst. apply (Hen 0%nat); [lia|done|]. by apply Hm.
Qed.

Lemma vec_push_post v xs x w :
  storage_ok v → holds v xs →
  let spec := list_exec (element_limit v) (negb (is_null (element_type v))) (VPush x) xs in
  ∃ st v' w', vec_push (Some v) (Some x) w = Some ((st, Some v'), w') ∧
    vec_post v xs w spec (copyable (element_type v) x) st None v' w'.
Proof.
  intros Hs Hh. destruct (Hs) as [_ _ _ _ Hlim Hty _ Hsz Hcap _]. destruct (Hh) as (Hsize & _).
  cbn [list_exec]. unfold vec_push. rewrite vec_valid_ok by done. cbn [negb].
  rewrite <-Hsize. destruct (Z.leb_spec (element_limit v) (st_size v)) as [Hfull|Hlt].
  { do 3 eexists. split; [done|]. by apply (post_refused _ _ _ _ (VPush x)). }
  destruct (prologue v xs x w Hs Hh Hlt) as (st & p & c & w1 & E1 & Hf & Hok & Hen). wstep E1.
  case_bool_decide as Hst; cbn [negb]; last first.
  { do 3 eexists. split; [done|]. by eapply post_unprepared. }
  destruct (Hok Hst) as (-> & Hb1 & Ho1 & Hp & st2 & ch & v1 & w2 & E2 & Hg). wstep E2.
  assert (storage_ok v1) as Hs1 by apply Hg.
  case_bool_decide as Hst2; cbn [negb]; last first.
  { destruct (discard_run v1 p x w2 Hs1 Hp) as (w3 & E3 & _). wstep E3. do 3 eexists. split; [done|].
    eapply post_no_room; try done. intros n ? ? ?. by apply Hen. }
  destruct (Hg) as [_ (Hsize1 & tl & Hslots & Htl) Hpar _ Hobj Hblk _ Hroom _].
  pose proof Hpar as (_ & _ & _ & _ & Hty1 & _). specialize (Hroom Hst2).
  destruct tl as [|y tl].
  { rewrite app_nil_r in Hslots. pose proof (so_slots _ Hs1). rewrite Hslots in *.
    unfold alen in *. rewrite length_map in *. lia. }
  assert (st_size v1 = alen (map Some xs)) as Hpos by (unfold alen in *; by rewrite length_map).
  rewrite Hslots, (aget_middle (map Some xs)) by done. wrun.
  rewrite Hty1. wstep (move_ok (element_type v) Hty y x w2).
  destruct Hp as [a ->]. unfold sequence_deallocate, mfree.
  unfold mbind at 1, M_bind at 1. cbn beta iota. rewrite bool_decide_true by done. cbn [negb]. wrun.
  rewrite (aset_middle (map Some xs)) by done. wrun. do 3 eexists. split; [done|].
  rewrite u64_id by (unfold_words; lia).
  eapply (post_stored v xs w _ _ v1 (xs ++ [x])) with (tl := tl); try done.
  - simpl. lia.
  - simpl. rewrite alen_app. change (alen [x]) with 1. lia.
  - by rewrite map_app, <-app_assoc.
  - rewrite alen_app. change (alen [x]) with 1. lia.
  - rewrite Hslots, !alen_app. done.
  - intros Hne. rewrite <-Hty1 in Hne. apply Htl in Hne. by apply Forall_cons in Hne as [_ ?].
Qed.

Lemma alen_map {A B} (f : A → B) (l : list A) : alen (map f l) = alen l.
Proof. unfold alen. by rewrite length_map. Qed.

(** The elements before, at and behind an index in range. *)
Lemma split_at {A} (l : list A) i :
  0 <= i < alen l → ∃ a x b, l = a ++ x :: b ∧ alen a = i ∧ l !! Z.to_nat i = Some x ∧
    a = take (Z.to_nat i) l ∧ b = drop (S (Z.to_nat i)) l.
Proof.
  unfold alen. intros Hi. destruct (lookup_lt_is_Some_2 l (Z.to_nat i)) as [x Hx]; [lia|].
  exists (take (Z.to_nat i) l), x, (drop (S (Z.to_nat i)) l). split_and!; try done.
  - by rewrite take_drop_middle.
  - rewrite length_take. lia.
Qed.

(** A call that needs no memory and succeeds. *)
Lemma post_done v xs w spec cp ys slots tl w' n (out : option V) :
  storage_ok v → spec = (STL_OK, out, ys) → w_blocks w' = w_blocks w →
  w_objects w' - owned (element_type v) * (alen ys + (if is_null out then 0 else 1)) =
    w_objects w - owned (element_type v) * alen xs →
  slots = map Some ys ++ tl → n = alen ys → alen slots = alen (st_slots v) →
  (element_type v ≠ None → Forall (λ x, x = None) tl) →
  vec_post v xs w spec cp STL_OK out (bump (set_size (set_slots v slots) n)) w'.
Proof. intros. eapply post_stored; try done. lia. Qed.

Lemma gap_tail v (tl : list (slot V)) x :
  (element_type v ≠ None → Forall (λ x, x = None) tl) → element_type v ≠ None →
  Forall (λ x, x = None) ((if is_null (element_type v) then Some x else None) :: tl).
Proof. intros Htl Hne. constructor; [by destruct (element_type v)|auto]. Qed.

Lemma vec_pop_post v xs out w :
  storage_ok v → holds v xs →
  ∃ st r v' w', vec_pop (Some v) out w = Some ((st, r, Some v'), w') ∧
    vec_post v xs w (list_exec (element_limit v) (negb (is_null (element_type v))) (VPop out) xs) True
      st r v' w'.
Proof.
  intros Hs Hh. destruct (Hs) as [_ _ _ _ Hlim Hty _ Hsz Hcap _]. destruct (Hh) as (Hsize & tl & Hsl & Htl).
  cbn [list_exec]. unfold vec_pop. rewrite vec_valid_ok by done. cbn [negb]. rewrite <-Hsize.
  destruct (Z.eqb_spec (st_size v) 0) as [H0|H0].
  { do 4 eexists. split; [done|]. by apply (post_refused _ _ _ _ (VPop out)). }
  destruct (exists_last (l := xs)) as (ys & y & ->); [intros ->; done|].
  rewrite map_app, <-app_assoc in Hsl. cbn [map app] in Hsl. rewrite alen_app in Hsize.
  change (alen [y]) with 1 in Hsize.
  assert (st_size v - 1 = alen (map Some ys)) as Hi by (rewrite alen_map; lia).
  rewrite Hsl, (aget_middle (map Some ys)) by done. wrun.
  destruct (take_out_ok (element_type v) out y w Hty) as (w' & E & _ & Hb & Ho). wstep E.
  rewrite bool_decide_true by done. cbn [negb]. rewrite (aset_middle (map Some ys)) by done. wrun.
  do 4 eexists. split; [done|].
  eapply (post_done v _ w _ _ ys) with (tl := _ :: tl); try done.
  - rewrite last_snoc, length_app. cbn [length]. replace (length ys + 1 - 1)%nat with (length ys) by lia.
    by rewrite take_app_length.
  - rewrite alen_app. change (alen [y]) with 1. destruct out; simpl; lia.
  - lia.
  - rewrite Hsl, !alen_app. done.
  - by apply gap_tail.
Qed.

Lemma vec_erase_post v xs i out w :
  storage_ok v → holds v xs → 0 <= i →
  ∃ st r v' w', vec_erase (Some v) i out w = Some ((st, r, Some v'), w') ∧
    vec_post v xs w (list_exec (element_limit v) (negb (is_null (element_type v))) (VErase i out) xs) True
      st r v' w'.
Proof.
  intros Hs Hh Hi0. destruct (Hs) as [_ _ _ _ Hlim Hty _ Hsz Hcap _]. destruct (Hh) as (Hsize & tl & Hsl & Htl).
  cbn [list_exec]. unfold vec_erase. rewrite vec_valid_ok by done. cbn [negb orb]. rewrite <-Hsize.
  destruct (Z.leb_spec (st_size v) i) as [H0|H0].
  { do 4 eexists. split; [done|]. by apply (post_refused _ _ _ _ (VErase i out)). }
  destruct (split_at xs i) as (a & x & b & Exs & Ha & -> & <- & <-); [lia|].
  rewrite Exs, map_app, <-app_assoc in Hsl. cbn [map app] in Hsl.
  rewrite Exs, alen_app in Hsize. change (alen (x :: b)) with (alen (x :: b)) in Hsize.
  assert (alen (x :: b) = alen b + 1) as Hxb by (unfold alen; simpl; lia).
  assert (i = alen (map Some a)) as Hi by (rewrite alen_map; lia).
  rewrite Hsl, (aget_middle (map Some a)) by done. wrun.
  destruct (take_out_ok (element_type v) out x w Hty) as (w' & E & _ & Hb & Ho). wstep E.
  rewrite bool_decide_true by done. cbn [negb]. rewrite (aset_middle (map Some a)) by done. wrun.
  assert (∃ g, (if is_null (element_type v)
       then lift (amove (map Some a ++ (if is_null (element_type v) then Some x else None) :: map Some b ++ tl)
                    i (i + 1) (st_size v - i - 1))
       else shift_down (element_type v) (Z.to_nat (st_size v - i - 1)) i
              (map Some a ++ (if is_null (element_type v) then Some x else None) :: map Some b ++ tl)) w' =
    Some (map Some a ++ map Some b ++ g :: tl, w') ∧ (element_type v ≠ None → g = None)) as (g & Eg & Hg).
  { destruct (is_null (element_type v)) eqn:Hnull.
    - destruct (amove_close (map Some a) (map Some b) (Some x) tl) as [g Eg].
      exists g. rewrite Hi. replace (st_size v - _ - 1) with (alen (map Some b)) by (rewrite !alen_map; lia).
      rewrite Eg. split; [done|]. intros Hne. by destruct (element_type v).
    - exists None. split; [|done]. rewrite Hi.
      replace (Z.to_nat (st_size v - alen (map Some a) - 1)) with (length b) by (rewrite !alen_map; unfold alen in *; lia).
      apply shift_down_ok; [done|]. by destruct (element_type v). }
  wstep Eg. wrun. do 4 eexists. split; [done|].
  eapply (post_done v _ w _ _ (a ++ b)) with (tl := g :: tl); try done.
  - rewrite Exs, !alen_app, Hxb. destruct out; simpl; lia.
  - by rewrite map_app, <-app_assoc.
  - rewrite alen_app. lia.
  - unfold alen. rewrite Hsl, !length_app. simpl. rewrite length_app. lia.
  - intros Hne. constructor; auto.
Qed.

Lemma vec_swap_remove_post v xs i out w :
  storage_ok v → holds v xs → 0 <= i →
  ∃ st r v' w', vec_swap_remove (Some v) i out w = Some ((st, r, Some v'), w') ∧
    vec_post v xs w (list_exec (element_limit v) (negb (is_null (element_type v))) (VSwapRemove i out) xs) True
      st r v' w'.
Proof.
  intros Hs Hh Hi0. destruct (Hs) as [_ _ _ _ Hlim Hty _ Hsz Hcap _]. destruct (Hh) as (Hsize & tl & Hsl & Htl).
  cbn [list_exec]. unfold vec_swap_remove. rewrite vec_valid_ok by done. cbn [negb orb]. rewrite <-Hsize.
  destruct (Z.leb_spec (st_size v) i) as [H0|H0].
  { do 4 eexists. split; [done|]. by apply (post_refused _ _ _ _ (VSwapRemove i out)). }
  destruct (exists_last (l := xs)) as (ys & y & ->); [intros ->; unfold alen in *; simpl in *; lia|].
  assert (alen (ys ++ [y]) = alen ys + 1) as Hlen by (rewrite alen_app; done).
  rewrite last_snoc, length_app. cbn [length]. replace (length ys + 1 - 1)%nat with (length ys) by lia.
  destruct (Z.eqb_spec i (st_size v - 1)) as [El|El].
  - assert (Z.to_nat i = length ys) as Ei by (unfold alen in *; lia).
    rewrite map_app, <-app_assoc in Hsl. cbn [map app] in Hsl.
    assert (i = alen (map Some ys)) as Hi by (rewrite alen_map; lia).
    rewrite Hsl, (aget_middle (map Some ys)) by done. wrun.
    destruct (take_out_ok (element_type v) out y w Hty) as (w' & E & _ & Hb & Ho). wstep E.
    rewrite bool_decide_true by done. cbn [negb]. rewrite (aset_middle (map Some ys)) by done. wrun.
    do 4 eexists. split; [done|].
    eapply (post_done v _ w _ _ ys) with (tl := _ :: tl); try done.
    + rewrite Ei, list_lookup_middle by done. rewrite insert_app_r_alt, Nat.sub_diag by done.
      by rewrite take_app_length.
    + rewrite Hlen. destruct out; simpl; lia.
    + lia.
    + rewrite Hsl, !alen_app. done.
    + by apply gap_tail.
  - destruct (split_at ys i) as (a & x & b & Eys & Ha & Hx & _); [lia|].
    rewrite Eys, map_app, map_app, <-!app_assoc in Hsl. cbn [map app] in Hsl.
    assert (i = alen (map Some a)) as Hi by (rewrite alen_map; lia).
    assert (st_size v - 1 = i + 1 + alen (map Some b)) as Hl.
    { rewrite alen_map, Hsize, Hlen, Eys, alen_app. unfold alen in *. simpl. lia. }
    rewrite Hsl, (aget_middle (map Some a)) by done. wrun.
    destruct (take_out_ok (element_type v) out x w Hty) as (w' & E & _ & Hb & Ho). wstep E.
    rewrite bool_decide_true by done. cbn [negb]. rewrite (aset_middle (map Some a)) by done. wrun.
    wstep (slot_move_status_down (element_type v) (map Some a) (if is_null (element_type v) then Some x else None)
      (map Some b) y tl w' i (st_size v - 1) Hty Hi Hl). wrun. do 4 eexists. split; [done|].
    eapply (post_done v _ w _ _ (a ++ y :: b)) with (tl := _ :: tl); try done.
    + rewrite lookup_app_l by (unfold alen in *; lia). rewrite Hx.
      rewrite insert_app_l, take_app_length' by (rewrite ?length_insert; unfold alen in *; lia).
      rewrite Eys, insert_app_r_alt by (unfold alen in *; lia).
      by replace (Z.to_nat i - length a)%nat with 0%nat by (unfold alen in *; lia).
    + rewrite Hlen, Eys, !alen_app. destruct out; unfold alen; simpl; lia.
    + by rewrite map_app, <-app_assoc.
    + rewrite alen_app, Hl, alen_map. unfold alen in *. simpl. lia.
    + unfold alen. rewrite Hsl, !length_app. simpl. by rewrite !length_app.
    + by apply gap_tail.
Qed.

Lemma vec_set_post v xs i x w :
  storage_ok v → holds v xs → 0 <= i →
  ∃ st v' w', vec_set (Some v) i (Some x) w = Some ((st, Some v'), w') ∧
    vec_post v xs w (list_exec (element_limit v) (negb (is_null (element_type v))) (VSet i x) xs)
      (copyable (element_type v) x) st None v' w'.
Proof.
  intros Hs Hh Hi0. destruct (Hs) as [_ _ _ _ Hlim Hty _ Hsz Hcap _]. destruct (Hh) as (Hsize & tl & Hsl & Htl).
  cbn [list_exec]. unfold vec_set. rewrite vec_valid_ok by done. cbn [negb orb]. rewrite <-Hsize.
  destruct (Z.leb_spec (st_size v) i) as [H0|H0].
  { do 3 eexists. split; [done|]. by apply (post_refused _ _ _ _ (VSet i x)). }
  destruct (prepare_cases v x w Hs) as (st & p & c & w1 & E1 & Hres & Hen). wstep E1.
  case_bool_decide as Hst; cbn [negb]; last first.
  { do 3 eexists. split; [done|]. destruct Hres as [_ [Hb Ho]]. apply post_failed; try done; [lia|].
    intros Hr Hl Hm Hc. by destruct (Hen 1%nat Hm Hr Hl Hc). }
  destruct Hres as ([a0 ->] & -> & Hb1 & Ho1).
  destruct (split_at xs i) as (a & y & b & Exs & Ha & Hy & _); [lia|].
  rewrite Exs, map_app, <-app_assoc in Hsl. cbn [map app] in Hsl.
  assert (i = alen (map Some a)) as Hi by (rewrite alen_map; lia).
  rewrite Hsl, (aget_middle (map Some a)) by done. wrun.
  destruct (destroy_ok (element_type v) Hty y w1) as (w2 & E2 & _ & Hb2 & Ho2). wstep E2. wrun.
  rewrite bool_decide_true by done.
  assert (((sequence_move_destroy (element_type v) (Some (if is_null (element_type v) then Some y else None))
             (Some (Some x))) ≫= (λ '(status, new, _), new ← lift new; mret (status, new))) w2 =
          Some ((STL_OK, Some x), w2)) as Emv
    by (wstep (move_ok (element_type v) Hty (if is_null (element_type v) then Some y else None) x w2); done).
  wstep Emv. rewrite (aset_middle (map Some a)) by done. wrun.
  unfold sequence_deallocate, mfree. unfold mbind at 1, M_bind at 1. cbn beta iota.
  rewrite bool_decide_true by done. cbn [negb]. wrun. do 3 eexists. split; [done|].
  assert (set_slots v (map Some a ++ Some x :: map Some b ++ tl) =
    set_size (set_slots v (map Some a ++ Some x :: map Some b ++ tl)) (st_size v)) as -> by by destruct v.
  eapply (post_stored v xs w _ _ v (a ++ x :: b)) with (tl := tl); try done.
  - rewrite Exs, insert_app_r_alt by (unfold alen in *; lia).
    by replace (Z.to_nat i - length a)%nat with 0%nat by (unfold alen in *; lia).
  - simpl. lia.
  - rewrite Exs, !alen_app. unfold alen. simpl. lia.
  - by rewrite map_app, <-app_assoc.
  - rewrite Hsize, Exs, !alen_app. done.
  - unfold alen. rewrite Hsl, !length_app. done.
Qed.

(** Making room at [i] in the grown vector. *)
Lemma open_gap v a b y tl w i n :
  type_ok (element_type v) → i = alen a → n = alen a + alen b →
  (element_type v ≠ None → y = None) →
  ∃ g, (if is_null (element_type v)
        then lift (amove (map Some a ++ map Some b ++ y :: tl) (i + 1) i (n - i))
        else shift_up (element_type v) (Z.to_nat (n - i)) n (map Some a ++ map Some b ++ y :: tl)) w =
    Some (map Some a ++ g :: map Some b ++ tl, w).
Proof.
  intros Hty -> -> Hy. replace (alen a + alen b - alen a) with (alen b) by lia.
  destruct (is_null (element_type v)) eqn:Hnull.
  - destruct (amove_open (map Some a) (map Some b) y tl) as [g Eg]. rewrite !alen_map in Eg.
    exists g. by rewrite Eg.
  - exists None. replace (Z.to_nat (alen b)) with (length b) by (unfold alen; lia).
    rewrite <-(alen_map Some a). apply shift_up_ok; [done| |].
    + by destruct (element_type v).
    + intros _. apply Hy. by destruct (element_type v).
Qed.

Lemma vec_insert_post v xs i x w :
  storage_ok v → holds v xs → 0 <= i →
  ∃ st v' w', vec_insert (Some v) i (Some x) w = Some ((st, Some v'), w') ∧
    vec_post v xs w (list_exec (element_limit v) (negb (is_null (element_type v))) (VInsert i x) xs)
      (copyable (element_type v) x) st None v' w'.
Proof.
  intros Hs Hh Hi0. destruct (Hs) as [_ _ _ _ Hlim Hty _ Hsz Hcap _]. destruct (Hh) as (Hsize & _).
  cbn [list_exec]. unfold vec_insert. rewrite vec_valid_ok by done. cbn [negb orb]. rewrite <-Hsize.
  destruct (Z.ltb_spec (st_size v) i) as [Hout|Hin].
  { do 3 eexists. split; [done|]. by apply (post_refused _ _ _ _ (VInsert i x)). }
  destruct (Z.leb_spec (element_limit v) (st_size v)) as [Hfull|Hlt].
  { do 3 eexists. split; [done|]. by apply (post_refused _ _ _ _ (VInsert i x)). }
  destruct (prologue v xs x w Hs Hh Hlt) as (st & p & c & w1 & E1 & Hf & Hok & Hen). wstep E1.
  case_bool_decide as Hst; cbn [negb]; last first.
  { do 3 eexists. split; [done|]. by eapply post_unprepared. }
  destruct (Hok Hst) as (-> & Hb1 & Ho1 & Hp & st2 & ch & v1 & w2 & E2 & Hg). wstep E2.
  assert (storage_ok v1) as Hs1 by apply Hg.
  case_bool_decide as Hst2; cbn [negb]; last first.
  { destruct (discard_run v1 p x w2 Hs1 Hp) as (w3 & E3 & _). wstep E3. do 3 eexists. split; [done|].
    eapply post_no_room; try done. intros n ? ? ?. by apply Hen. }
  destruct (Hg) as [_ (Hsize1 & tl & Hslots & Htl) Hpar _ Hobj Hblk _ Hroom _].
  pose proof Hpar as (_ & _ & _ & _ & Hty1 & _). specialize (Hroom Hst2).
  destruct tl as [|y tl].
  { rewrite app_nil_r in Hslots. pose proof (so_slots _ Hs1). rewrite Hslots, alen_map in *. lia. }
  set (a := take (Z.to_nat i) xs) in *. set (b := drop (Z.to_nat i) xs) in *.
  assert (xs = a ++ b) as Exs by (unfold a, b; by rewrite take_drop).
  assert (alen a = i) as Ha by (unfold a, alen in *; rewrite length_take; lia).
  assert (alen xs = alen a + alen b) as Hab by (by rewrite Exs, alen_app).
  rewrite Exs, map_app, <-app_assoc in Hslots.
  destruct (open_gap v1 a b y tl w2 i (st_size v1)) as [g Eg];
    [by rewrite Hty1|done|lia|intros Hne; by apply Htl, Forall_cons in Hne as [? _]|].
  rewrite Hslots. wstep Eg. rewrite (aget_middle (map Some a)) by (rewrite alen_map; lia). wrun.
  rewrite Hty1. wstep (move_ok (element_type v) Hty g x w2).
  destruct Hp as [p0 ->]. unfold sequence_deallocate, mfree.
  unfold mbind at 1, M_bind at 1. cbn beta iota. rewrite bool_decide_true by done. cbn [negb]. wrun.
  rewrite (aset_middle (map Some a)) by (rewrite alen_map; lia). wrun. do 3 eexists. split; [done|].
  assert (alen (a ++ x :: b) = st_size v1 + 1) as Hl by (rewrite alen_app; unfold alen in *; simpl; lia).
  rewrite u64_id by (unfold_words; lia).
  eapply (post_stored v xs w _ _ v1 (a ++ x :: b)) with (tl := tl); try done.
  - simpl. lia.
  - simpl. lia.
  - by rewrite map_app, <-app_assoc.
  - unfold alen. rewrite Hslots, !length_app. simpl. rewrite !length_app. simpl. lia.
  - intros Hne. rewrite <-Hty1 in Hne. apply Htl in Hne. by apply Forall_cons in Hne as [_ ?].
Qed.

Lemma vec_reserve_post v xs n w :
  storage_ok v → holds v xs → 0 <= n →
  ∃ st v' w', vec_reserve (Some v) n w = Some ((st, Some v'), w') ∧
    vec_post v xs w (list_exec (element_limit v) (negb (is_null (element_type v))) (VReserve n) xs)
      True st None v' w' ∧ (st = STL_OK → n <= st_capacity v').
Proof.
  intros Hs Hh Hn. unfold vec_reserve, vec_grow_to. rewrite vec_valid_ok by done.
  destruct (grow_cases v xs n w Hs Hh Hn) as (st & ch & v1 & w1 & E & Hg). wstep E. wrun.
  assert (∀ b : bool, st_capacity (if b then bump v1 else v1) = st_capacity v1 ∧
    blocks_of (if b then bump v1 else v1) = blocks_of v1 ∧
    (storage_ok v1 → storage_ok (if b then bump v1 else v1)) ∧
    (holds v1 xs → holds (if b then bump v1 else v1) xs) ∧
    (same_params v v1 → same_params v (if b then bump v1 else v1))) as Hb.
  { intros []; split_and!; try done. apply ok_bump. }
  set (vb := if bool_decide (st = STL_OK) && ch then bump v1 else v1). destruct (Hb (bool_decide (st = STL_OK) && ch)) as (H1 & H2 & H3 & H4 & H5).
  fold vb in H1, H2, H3, H4, H5. destruct Hg as [Gok Gh Gp _ Go Gb Gf Gr Ge].
  do 3 eexists. split; [done|]. cbn [list_exec]. split; [|rewrite H1; done].
  assert (element_limit v < n → st = STL_CAPACITY_EXCEEDED) as Hlim.
  { intros Hlim. clear -E Hlim Hs. unfold grow_to in E. cbn [negb] in E.
    pose proof (so_capacity v Hs). rewrite (proj2 (Z.leb_gt _ _)) in E by lia.
    unfold next_capacity in E. rewrite (proj2 (Z.ltb_lt _ _) Hlim) in E.
    rewrite run_lift_bind in E. cbn beta iota in E. rewrite bool_decide_false in E by done.
    cbn [negb] in E. unfold mret, M_ret in E. by simplify_eq. }
  split; [auto..| |].
  - lia.
  - exists xs. split; [auto|]. split; [|simpl; lia].
    destruct (Z.ltb_spec (element_limit v) n) as [Hl|Hl]; [left; by rewrite (Hlim Hl)|].
    destruct (decide (st = STL_OK)) as [->|Hne]; [by left|by right].
  - intros Hr Hl Hm _. destruct (Z.ltb_spec (element_limit v) n) as [Hb'|Hb']; [by rewrite (Hlim Hb')|].
    apply (Ge 1%nat); try done.
Qed.

Lemma vec_clear_post v xs w :
  storage_ok v → holds v xs →
  ∃ v' w', vec_clear (Some v) w = Some ((STL_OK, Some v'), w') ∧
    vec_post v xs w (STL_OK, None, []) True STL_OK None v' w'.
Proof.
  intros Hs Hh. destruct (Hs) as [_ _ _ _ Hlim Hty _ Hsz Hcap _]. destruct (Hh) as (Hsize & tl & Hsl & Htl).
  unfold vec_clear. rewrite vec_valid_ok by done. cbn [negb].
  destruct (destroy_range_ok (element_type v) [] xs tl w Hty) as (w' & E & _ & Hb & Ho). cbn [app] in E.
  rewrite Hsl, Hsize. unfold alen at 1. rewrite Nat2Z.id. wstep E.
  rewrite bool_decide_true by done. cbn [negb]. wrun. simpl st_size.
  set (slots := (if is_null (element_type v) then map Some xs else replicate (length xs) None) ++ tl) in *.
  assert (alen slots = alen (st_slots v)) as Hl.
  { unfold slots, alen. rewrite Hsl, !length_app. destruct (is_null (element_type v));
      rewrite ?length_replicate, !length_map; done. }
  assert (element_type v ≠ None → Forall (λ x, x = None) slots) as Hnone.
  { intros Hne. unfold slots. apply Forall_app. split; [|auto].
    destruct (element_type v); [|done]. by apply Forall_replicate. }
  destruct (Z.eqb_spec (st_size v) 0) as [H0|H0].
  - assert (xs = []) as -> by (destruct xs; [done|unfold alen in *; simpl in *; lia]).
    assert (slots = st_slots v) as -> by (unfold slots; rewrite Hsl; by destruct (is_null (element_type v))).
    assert (set_slots v (st_slots v) = v) as -> by by destruct v.
    do 2 eexists. split; [done|]. split; [done|done|lia| |done].
    exists []. split; [done|]. split; [by left|]. cbn [is_null]. unfold alen in *. simpl in *. lia.
  - do 2 eexists. split; [done|].
    eapply (post_done v xs w _ _ []) with (tl := slots); try done. simpl. unfold alen at 1. simpl. lia.
Qed.

Lemma pop_back_ok v pre ys tl w :
  type_ok (element_type v) → st_slots v = map Some (pre ++ ys) ++ tl → st_size v = alen (pre ++ ys) →
  (element_type v ≠ None → Forall (λ x, x = None) tl) →
  ∃ w' tl', pop_back (length ys) v w =
      Some ((STL_OK, set_size (set_slots v (map Some pre ++ tl')) (alen pre)), w') ∧
    alen (map Some pre ++ tl') = alen (st_slots v) ∧
    (element_type v ≠ None → Forall (λ x, x = None) tl') ∧
    w_malloc w' = w_malloc w ∧ w_blocks w' = w_blocks w ∧
    w_objects w' = w_objects w - owned (element_type v) * alen ys.
Proof.
  intros Hty. revert v tl w Hty. induction ys as [|y ys IH] using rev_ind; intros v tl w Hty Hsl Hsz Htl.
  { exists w, tl. rewrite app_nil_r in *. split_and!; try done.
    - rewrite <-Hsl, <-Hsz. by destruct v.
    - by rewrite Hsl.
    - unfold alen. simpl. lia. }
  rewrite length_app, Nat.add_1_r. cbn [pop_back]. cbn zeta.
  rewrite app_assoc, map_app, <-app_assoc in Hsl. cbn [map app] in Hsl.
  assert (st_size v - 1 = alen (map Some (pre ++ ys))) as Hi.
  { rewrite Hsz, app_assoc, alen_app, alen_map. change (alen [y]) with 1. lia. }
  simpl st_slots. simpl st_size. rewrite Hsl, (aget_middle (map Some (pre ++ ys))) by done. wrun.
  simpl element_type. destruct (destroy_ok (element_type v) Hty y w) as (w1 & E1 & Hm1 & Hb1 & Ho1).
  wstep E1. wrun. rewrite (aset_middle (map Some (pre ++ ys))) by done. wrun.
  rewrite bool_decide_true by done. cbn [negb].
  set (x := if is_null (element_type v) then Some y else None).
  set (v1 := set_slots _ _).
  destruct (IH v1 (x :: tl) w1) as (w2 & tl' & E2 & Hl & Htl' & Hm2 & Hb2 & Ho2); try done.
  { simpl. by rewrite alen_map in Hi. }
  { exact (gap_tail v tl y Htl). }
  exists w2, tl'. split_and!; try done; try congruence.
  - rewrite Hl. simpl. rewrite !alen_app. done.
  - rewrite alen_app. change (alen [y]) with 1.
    change (element_type v1) with (element_type v) in Ho2. lia.
Qed.

Lemma vec_resize_post v xs n w :
  storage_ok v → holds v xs → 0 <= n →
  ∃ st v' w', vec_resize zero (Some v) n w = Some ((st, Some v'), w') ∧
    vec_post v xs w (list_exec (element_limit v) (negb (is_null (element_type v))) (VResize n) xs)
      True st None v' w'.
Proof.
  intros Hs Hh Hn. destruct (Hs) as [_ _ _ _ Hlim Hty _ Hsz Hcap _]. destruct (Hh) as (Hsize & tl & Hsl & Htl).
  cbn [list_exec]. unfold vec_resize. rewrite vec_valid_ok by done. cbn [negb].
  destruct (Z.ltb_spec (element_limit v) n) as [Hbig|Hfit].
  { do 3 eexists. split; [done|]. by apply (post_refused _ _ _ _ (VResize n)). }
  rewrite <-Hsize. destruct (Z.eqb_spec n (st_size v)) as [->|Hne].
  { do 3 eexists. split; [done|]. rewrite Z.leb_refl. apply (post_refused _ _ _ _ (VResize 0)); try done.
    rewrite Hsize. unfold alen. by rewrite Nat2Z.id, firstn_all. }
  destruct (Z.ltb_spec n (st_size v)) as [Hless|Hmore].
  - rewrite (proj2 (Z.leb_le _ _)) by lia.
    destruct (pop_back_ok v (take (Z.to_nat n) xs) (drop (Z.to_nat n) xs) tl w)
      as (w' & tl' & E & Hl & Htl' & _ & Hb & Ho); rewrite ?take_drop; try done.
    rewrite length_drop in E.
    replace (Z.to_nat (st_size v - n)) with (length xs - Z.to_nat n)%nat by (unfold alen in *; lia).
    wstep E. rewrite bool_decide_true by done. wrun. do 3 eexists. split; [done|].
    eapply post_done; try done. unfold alen in *. cbn [is_null].
    rewrite length_drop in Ho. rewrite length_take. nia.
  - rewrite (proj2 (Z.leb_gt _ _)) by lia. destruct (element_type v) as [t|] eqn:Et; cbn [is_null negb].
    { do 3 eexists. split; [done|]. by apply (post_refused _ _ _ _ (VResize n)). }
    unfold vec_grow_to. rewrite vec_valid_ok by done.
    destruct (grow_cases v xs n w Hs Hh Hn) as (st & ch & v1 & w1 & E & Hg). wstep E.
    destruct Hg as [Gok (Gsz & tl1 & Gsl & _) Gp _ Go Gb Gf Gr Ge].
    case_bool_decide as Hst; cbn [negb]; last first.
    { do 3 eexists. split; [done|]. destruct (Gf Hst) as [-> Gb']. apply post_failed; try done.
      intros Hr _ Hm _. by destruct (Ge 1%nat Hfit Hr Hm). }
    specialize (Gr Hst). pose proof (so_slots _ Gok) as Gl. rewrite bool_decide_true by lia. wrun.
    do 3 eexists. split; [done|].
    eapply (post_stored v xs w _ _ v1 (xs ++ replicate (Z.to_nat n - length xs) zero))
      with (tl := drop (Z.to_nat n) (st_slots v1)); try done.
    + simpl. unfold owned. rewrite Et. simpl. lia.
    + rewrite Gsl, map_app, <-app_assoc. unfold alen in *.
      rewrite take_app_length' by (rewrite length_map; lia). f_equal.
      replace (Z.to_nat (n - st_size v)) with (Z.to_nat n - length xs)%nat by lia.
      assert (∀ k, map Some (replicate k zero) = replicate k (Some zero)) as -> by (intros k; induction k; simpl; congruence).
      done.
    + rewrite alen_app. unfold alen in *. rewrite length_replicate. lia.
    + unfold alen in *. rewrite !length_app, length_take, length_replicate, length_drop. lia.
Qed.

(** C1. Every operation of a vector refines the same operation on a list of
    bounded length, and never runs into undefined behaviour: the call gives the
    list's status, hands out the list's element and leaves the list's result;
    when the list operation succeeds but memory cannot be had, the call fails
    and the elements are unchanged. Blocks and live objects are accounted for
    exactly, and with memory available and copyable elements the list's status
    is the one returned. *)
Theorem vec_refines v xs op w :
  storage_ok v → holds v xs → op_ok op →
  let spec := list_exec (element_limit v) (negb (is_null (element_type v))) op xs in
  ∃ st out v' w', vec_exec op v w = Some ((st, out, Some v'), w') ∧
    vec_post v xs w spec (op_copyable (element_type v) op) st out v' w'.
Proof.
  intros Hs Hh Hop. destruct op; cbn [op_ok] in Hop; unfold is_u64 in Hop; cbn [vec_exec op_copyable]; cbv zeta.
  - destruct (vec_push_post v xs x w Hs Hh) as (st & v' & w' & E & Hp). wstep E. by do 4 eexists.
  - by apply vec_pop_post.
  - destruct (vec_insert_post v xs index x w Hs Hh) as (st & v' & w' & E & Hp); [lia|]. wstep E. by do 4 eexists.
  - destruct (vec_set_post v xs index x w Hs Hh) as (st & v' & w' & E & Hp); [lia|]. wstep E. by do 4 eexists.
  - apply vec_erase_post; [done|done|lia].
  - apply vec_swap_remove_post; [done|done|lia].
  - destruct (vec_resize_post v xs n w Hs Hh) as (st & v' & w' & E & Hp); [lia|]. wstep E. by do 4 eexists.
  - destruct (vec_reserve_post v xs n w Hs Hh) as (st & v' & w' & E & Hp & _); [lia|]. wstep E. by do 4 eexists.
  - destruct (vec_clear_post v xs w Hs Hh) as (v' & w' & E & Hp). wstep E. by do 4 eexists.
Qed.
End Refinement.

(** ** Creation and destruction *)

Section Lifecycle.
Context {V : Type}.
Implicit Types (v : vec_t V) (xs : list V).

(** An initialised empty vector. *)
Lemma vec_initialize_ok v type size align limit st v' :
  is_u64 size → is_u64 align → is_u64 limit → type_ok type →
  vec_initialize (Some v) type size align limit = (st, Some v') →
  if bool_decide (st = STL_OK) then
    storage_ok v' ∧ holds v' [] ∧ st_data v' = None ∧ element_limit v' = limit ∧ element_type v' = type
  else v' = v.
Proof.
  intros Hsz Hal Hlim Hty. unfold vec_initialize. destruct (initialized v); [by intros [= <- <-]|].
  destruct (sequence_stride size align) as [st0 o] eqn:E.
  unfold sequence_stride in E. destruct (Z.eqb_spec size 0) as [->|H0]; cbn [orb] in E; [by simplify_eq; intros [= <- <-]|].
  destruct (sequence_alignment_valid align) eqn:Hv; cbn [negb] in E; [|by simplify_eq; intros [= <- <-]].
  destruct (proj1 (alignment_valid_pow2 align Hal) Hv) as (k & Hk & ->). pose proof (pow2_bounds k Hk).
  destruct (Z.ltb_spec (SIZE_MAX - (2 ^ k - 1)) size); [by simplify_eq; intros [= <- <-]|].
  destruct (align_up size k) as (q & Hq & Hqb); [done|done|lia|]. rewrite Hq in E.
  simplify_eq. intros [= <- <-]. rewrite bool_decide_true by done.
  assert (q * 2 ^ k <= SIZE_MAX).
  { assert (SIZE_MAX = (2 ^ (64 - k)) * 2 ^ k - 1) as Hmax.
    { rewrite <-Z.pow_add_r by lia. replace (64 - k + k) with 64 by lia. done. }
    assert (q * 2 ^ k < 2 ^ (64 - k) * 2 ^ k + 0 ∨ 2 ^ (64 - k) <= q) as [|Hge]; [|lia|nia].
    destruct (Z.le_gt_cases (2 ^ (64 - k)) q); [by right|left; nia]. }
  split_and!; try done.
  - unfold is_u64 in Hlim, Hsz. split; simpl; try done; unfold SIZE_MAX in *; lia.
  - split; [done|]. by exists [].
Qed.

(** Destroying a vector returns its block and its objects. *)
Lemma vec_destroy_ok v xs w :
  storage_ok v → holds v xs →
  ∃ g w', vec_raw_destroy_storage (Some v) w = Some (Some (storage_zero g), w') ∧
    w_blocks w' = w_blocks w - blocks_of v ∧
    w_objects w' = w_objects w - owned (element_type v) * alen xs.
Proof.
  intros Hs Hh. unfold vec_raw_destroy_storage. rewrite (so_init v Hs).
  destruct (vec_clear_post v xs w Hs Hh) as (v' & w1 & E & Hp). wstep E. wrun.
  destruct Hp as [_ _ Hb (ys & _ & Hstep & Ho) _].
  destruct (deallocate_run (st_data v') w1) as (w2 & E2 & _ & Ho2 & Hb2). wstep E2. wrun.
  do 2 eexists. split; [done|].
  assert (ys = []) as -> by (destruct Hstep as [[= ->]|(_ & Hne & _)]; done).
  unfold blocks_of in *. cbn [is_null] in Ho. change (alen (@nil V)) with 0 in Ho. lia.
Qed.

(** Pushing all of [l], or giving everything back. *)
Lemma push_all_ok l v xs w :
  storage_ok v → holds v xs → alen (xs ++ l) <= element_limit v →
  ∃ st v' w', push_all l (Some v) w = Some ((st, Some v'), w') ∧
    if bool_decide (st = STL_OK) then
      storage_ok v' ∧ holds v' (xs ++ l) ∧ same_params v v' ∧
      w_blocks w' - blocks_of v' = w_blocks w - blocks_of v ∧
      w_objects w' - owned (element_type v) * alen (xs ++ l) = w_objects w - owned (element_type v) * alen xs
    else w_blocks w' = w_blocks w - blocks_of v ∧
      w_objects w' = w_objects w - owned (element_type v) * alen xs.
Proof.
  revert v xs w. induction l as [|x l IH]; intros v xs w Hs Hh Hl; cbn [push_all].
  { do 3 eexists. split; [done|]. rewrite app_nil_r. by rewrite bool_decide_true. }
  destruct (vec_push_post x v xs x w Hs Hh) as (st & v1 & w1 & E & Hp). wstep E.
  destruct Hp as [Hs1 Hpar Hb (ys & Hys & Hstep & Ho) _]. cbn [is_null] in Ho.
  pose proof Hpar as (_ & _ & _ & Hlim & Hty & _). cbn [list_exec] in Hstep.
  rewrite alen_app in Hl. assert (alen (x :: l) = alen l + 1) as Hxl by (unfold alen; simpl; lia).
  pose proof (alen_nonneg l). rewrite (proj2 (Z.leb_gt _ _)) in Hstep by lia.
  case_bool_decide as Hst; cbn [negb].
  - destruct Hstep as [[= Hst' ->]|(_ & Hne & _)]; [|done].
    destruct (IH v1 (xs ++ [x]) w1) as (st2 & v2 & w2 & E2 & Hres); [done|done| |].
    { rewrite !alen_app, Hlim. change (alen [x]) with 1. lia. }
    exists st2, v2, w2. split; [done|]. rewrite <-app_assoc in Hres. cbn [app] in Hres. rewrite Hty in Hres.
    case_bool_decide.
    + destruct Hres as (? & ? & Hp2 & ? & ?). split_and!; try done; [|lia|lia].
      unfold same_params in *. destruct_and!. split_and!; congruence.
    + lia.
  - destruct Hstep as [[= Hst' _]|(_ & _ & _ & ->)]; [done|].
    destruct (vec_destroy_ok v1 xs w1 Hs1 Hys) as (g & w2 & E2 & Hb2 & Ho2). wstep E2. wrun.
    do 3 eexists. split; [done|]. rewrite bool_decide_false by done. rewrite Hty in Ho2. lia.
Qed.

(** Building a vector from an array is all or nothing: on success it
    holds exactly the array's elements and owns one block and their copies;
    otherwise the vector is as it was and everything allocated on the way has
    been given back. Destroying the result returns its block and objects. *)
Theorem vec_from_array_exact v type limit l w :
  initialized v = false → type_ok (Some type) → is_u64 (ty_size type) → is_u64 (ty_align type) →
  is_u64 limit →
  ∃ st v' w', vec_raw_from_array (Some v) (Some l) (alen l) (Some type) limit w =
      Some ((st, Some v'), w') ∧
    (alen l > limit → st = STL_CAPACITY_EXCEEDED) ∧
    if bool_decide (st = STL_OK) then
      storage_ok v' ∧ holds v' l ∧ w_blocks w' = w_blocks w + blocks_of v' ∧
      w_objects w' = w_objects w + alen l ∧
      ∃ g w'', vec_raw_destroy_storage (Some v') w' = Some (Some (storage_zero g), w'') ∧ w_same w w''
    else v' = v ∧ w_same w w'.
Proof.
  intros Hi Hty Hsz Hal Hlim. unfold vec_raw_from_array, vec_from_array. rewrite Hi. cbn [is_null].
  rewrite andb_false_r. cbn [orb]. destruct (Z.ltb_spec limit (alen l)) as [Hbig|Hfit].
  { do 3 eexists. split; [done|]. split; [done|]. by rewrite bool_decide_false. }
  unfold vec_raw_init. cbn [initialized storage_zero].
  assert (∀ st : stl_status, st ≠ STL_OK → ∃ st' v' w', mret (M := M) (st, Some v) w = Some ((st', Some v'), w') ∧
    (alen l > limit → st' = STL_CAPACITY_EXCEEDED) ∧
    if bool_decide (st' = STL_OK) then
      storage_ok v' ∧ holds v' l ∧ w_blocks w' = w_blocks w + blocks_of v' ∧
      w_objects w' = w_objects w + alen l ∧
      ∃ g w'', vec_raw_destroy_storage (Some v') w' = Some (Some (storage_zero g), w'') ∧ w_same w w''
    else v' = v ∧ w_same w w') as Hfail.
  { intros st Hst. do 3 eexists. split; [done|]. split; [lia|]. by rewrite bool_decide_false. }
  destruct (sequence_require_type (Some type) false) eqn:Hreq;
    try (rewrite bool_decide_false by done; by apply Hfail).
  destruct (vec_initialize _ _ _ _ _) as [st [v0|]] eqn:Einit; last first.
  { unfold vec_initialize in Einit. cbn [initialized storage_zero] in Einit.
    destruct (sequence_stride _ _) as [[] [?|]]; done. }
  apply vec_initialize_ok in Einit; try done. case_bool_decide as Hst; cbn [negb]; [|by apply Hfail].
  destruct Einit as (Hs0 & Hh0 & Hd0 & Hl0 & Ht0).
  assert ((if alen l =? 0 then Some [] else l0 ← Some l; if alen l0 <? alen l then None
           else Some (take (Z.to_nat (alen l)) l0)) = Some l) as ->.
  { destruct (Z.eqb_spec (alen l) 0) as [H0|H0]; [destruct l; [done|unfold alen in H0; simpl in H0; lia]|].
    cbn [mbind option_bind]. rewrite Z.ltb_irrefl. unfold alen. by rewrite Nat2Z.id, firstn_all. }
  wrun. destruct (push_all_ok l v0 [] w Hs0 Hh0) as (st2 & v2 & w2 & E2 & Hres); [cbn [app]; lia|].
  wstep E2. unfold blocks_of in Hres at 2 3. rewrite Hd0, Ht0 in Hres. cbn [is_null app owned] in Hres.
  change (owned (Some type)) with 1 in Hres. change (alen (@nil V)) with 0 in Hres.
  case_bool_decide as Hst2; cbn [negb].
  - destruct Hres as (Hs2 & Hh2 & Hp2 & Hb2 & Ho2). wrun. do 3 eexists. split; [done|]. split; [lia|].
    rewrite bool_decide_true by done. set (v3 := MkStorage _ _ _ _ _ _ _ _ _ _ _).
    assert (storage_ok v3 ∧ holds v3 l ∧ blocks_of v3 = blocks_of v2 ∧ element_type v3 = Some type) as (Hs3 & Hh3 & Hb3 & Ht3).
    { destruct Hs2. split_and!; try done. unfold v3. simpl. destruct Hp2 as (_ & _ & _ & _ & -> & _). done. }
    split_and!; try done; [lia|lia|].
    destruct (vec_destroy_ok v3 l w2 Hs3 Hh3) as (g & w4 & E4 & Hb4 & Ho4). exists g, w4. split; [done|].
    rewrite Ht3 in Ho4. change (owned (Some type)) with 1 in Ho4. split; lia.
  - wrun. do 3 eexists. split; [done|]. split; [lia|]. rewrite bool_decide_false by done.
    split; [done|]. split; lia.
Qed.
End Lifecycle.

(** ** Instances *)

(** A type of 4-byte integers with every trait. *)
Definition int_traits : cmeta_type_traits Z :=
  MkTraits 63 (Some Z.eqb) (Some (λ z, z)) (Some (λ a b, a - b)) (Some Some) (Some (λ z, z)) true.
Definition int_type : cmeta_type_desc Z := MkType 4 4 (Some int_traits).

Lemma int_type_ok : type_ok (Some int_type).
Proof.
  exists int_traits, Some, (λ z, z). split_and!; try done. intros v c [= ->]. done.
Qed.

Definition vec_of_one : vec_t Z :=
  MkStorage (Some 4096) [Some 7; None; None; None; None; None; None; None] 1 8 4 4 4 100 (Some int_type) 2 true.

Lemma vec_of_one_ok : storage_ok vec_of_one ∧ holds vec_of_one [7].
Proof.
  split.
  - split; try done; try (simpl; unfold_words; lia). exact int_type_ok.
  - split; [done|]. exists [None; None; None; None; None; None; None]. split; [done|]. intros _. by_eval.
Qed.

Lemma vec_refines_witness :
  ∃ st out v' w', vec_exec 0 (VInsert 0 5) vec_of_one (MkWorld [Some 8192] 1 1) = Some ((st, out, Some v'), w').
Proof.
  destruct (vec_refines 0 vec_of_one [7] (VInsert 0 5) (MkWorld [Some 8192] 1 1)) as (st & out & v' & w' & E & _).
  - apply vec_of_one_ok.
  - apply vec_of_one_ok.
  - by_eval.
  - exists st, out, v', w'. exact E.
Defined.

Lemma vec_from_array_exact_witness :
  ∃ st v' w', vec_raw_from_array (Some (storage_zero 0)) (Some [1; 2]) 2 (Some int_type) 10
    (MkWorld [Some 4096; Some 8192; Some 4096] 0 0) = Some ((st, Some v'), w').
Proof.
  destruct (vec_from_array_exact (storage_zero 0) int_type 10 [1; 2] (MkWorld [Some 4096; Some 8192; Some 4096] 0 0))
    as (st & v' & w' & E & _).
  - reflexivity.
  - exact int_type_ok.
  - by_eval.
  - by_eval.
  - by_eval.
  - exists st, v', w'. exact E.
Defined.
