(* ===== verification/Deque.v ===== *)
(** * Double-ended queues ([cstl/src/deque.c])

    Every operation of the deque, whose elements lie in a circular buffer that
    starts at [head], and its refinement of a list that is used at both ends.
    The buffer turned so that the first element comes first is the storage of
    a vector, which the lemmas of [Sequence] and [Vec] describe. *)

From S2P Require Import Prelude World Sequence Vec.
Local Open Scope Z_scope.

(** The fields of [storage] and the index of the first element. *)
Record deque_t (V : Type) := MkDeque {
  dq_storage :> storage V;
  head : Z
}.
#[global] Arguments MkDeque {V} _ _.
#[global] Arguments dq_storage {V} _.
#[global] Arguments head {V} _.

Section Deque.
Context {V : Type}.
Implicit Types (deque : option (deque_t V)) (d : deque_t V) (elem : option V).

Definition deque_valid deque : bool :=
  match deque with None => false | Some d => initialized d && negb (elem_size d =? 0) end.

(** [(head + index) % capacity]; a capacity of 0 is undefined. *)
Definition deque_physical d (index : Z) : option Z :=
  if st_capacity d =? 0 then None else Some (u64 (head d + index) mod st_capacity d).

(** The memory at a physical index, and writing to it. *)
Definition deque_slot d (physical : Z) : option (slot V) := aget (st_slots d) physical.

Definition deque_at_slot d (index : Z) : option (slot V) :=
  physical ← deque_physical d index; deque_slot d physical.

Definition put_slot d (physical : Z) (x : slot V) : option (deque_t V) :=
  l ← aset (st_slots d) physical x; Some (MkDeque (set_slots d l) (head d)).

Definition put_at d (index : Z) (x : slot V) : option (deque_t V) :=
  physical ← deque_physical d index; put_slot d physical x.

Definition deque_next_capacity d (minimum : Z) : option (stl_status * Z) := next_capacity d minimum.

(** The loop of [deque_grow_to] that copies the bytes of [n] elements. *)
Fixpoint copy_elements (n : nat) (index : Z) (data : list (slot V)) d : option (list (slot V)) :=
  match n with
  | O => Some data
  | S n =>
      x ← deque_at_slot d index;
      data ← aset data index x;
      copy_elements n (index + 1) data d
  end.

(** The loop of [deque_grow_to] that moves [n] elements. *)
Fixpoint move_elements (n : nat) (index : Z) (data : list (slot V)) d :
    M (stl_status * list (slot V) * deque_t V) :=
  match n with
  | O => mret (STL_OK, data, d)
  | S n =>
      dst ← lift (aget data index);
      src ← lift (deque_at_slot d index);
      '(status, dst, src) ← sequence_move_destroy (element_type d) (Some dst) (Some src);
      if negb (bool_decide (status = STL_OK)) then mret (status, data, d) else
      dst ← lift dst; src ← lift src;
      data ← lift (aset data index dst);
      d ← lift (put_at d index src);
      move_elements n (index + 1) data d
  end.

(** The status, [changed] and the deque. *)
Definition deque_grow_to d (minimum : Z) : M (stl_status * bool * deque_t V) :=
  if negb (deque_valid (Some d)) then mret (STL_INVALID_ARGUMENT, false, d) else
  if minimum <=? st_capacity d then mret (STL_OK, false, d) else
  '(status, capacity) ← lift (deque_next_capacity d minimum);
  if negb (bool_decide (status = STL_OK)) then mret (status, false, d) else
  '(status, data) ← sequence_allocate capacity (elem_stride d) (elem_align d);
  if negb (bool_decide (status = STL_OK)) then mret (status, false, d) else
  let fresh := replicate (Z.to_nat capacity) None in
  let moved slots := MkDeque (set_block d data slots capacity) 0 in
  match element_type d with
  | None =>
      slots ← lift (copy_elements (Z.to_nat (st_size d)) 0 fresh d);
      _ ← sequence_deallocate (st_data d);
      mret (STL_OK, true, moved slots)
  | Some _ =>
      '(status, slots, d') ← move_elements (Z.to_nat (st_size d)) 0 fresh d;
      if negb (bool_decide (status = STL_OK))
      then _ ← sequence_deallocate data; mret (status, false, d')
      else _ ← sequence_deallocate (st_data d); mret (STL_OK, true, moved slots)
  end.

Definition deque_prepare_copy d elem : M (stl_status * option Z * slot V) := prepare_copy d elem.

Definition deque_discard_prepared d (value : option Z) (x : slot V) : M unit :=
  discard_prepared d value x.

Definition deque_initialize deque (type : option (cmeta_type_desc V)) (size align limit : Z) :
    stl_status * option (deque_t V) :=
  match deque with
  | None => (STL_INVALID_ARGUMENT, deque)
  | Some d =>
      if initialized d then (STL_INVALID_ARGUMENT, deque) else
      match sequence_stride size align with
      | (STL_OK, Some stride) =>
          (STL_OK, Some (MkDeque (MkStorage None [] 0 0 size stride align limit type
                                    (u64 (generation d + 1)) true) 0))
      | (status, _) => (status, deque)
      end
  end.

Definition deque_init_bytes deque (size align limit : Z) : stl_status * option (deque_t V) :=
  deque_initialize deque None size align limit.

Definition deque_raw_init deque (type : option (cmeta_type_desc V)) (limit : Z) :
    stl_status * option (deque_t V) :=
  match deque with
  | None => (STL_INVALID_ARGUMENT, deque)
  | Some d =>
      if initialized d then (STL_INVALID_ARGUMENT, deque) else
      match sequence_require_type type false, type with
      | STL_OK, Some t => deque_initialize deque type (ty_size t) (ty_align t) limit
      | status, _ => (status, deque)
      end
  end.

(** The loop of [deque_clear]. *)
Fixpoint destroy_elements (n : nat) (index : Z) d : M (stl_status * deque_t V) :=
  match n with
  | O => mret (STL_OK, d)
  | S n =>
      x ← lift (deque_at_slot d index);
      '(status, x) ← sequence_destroy_value (element_type d) (Some x);
      if negb (bool_decide (status = STL_OK)) then mret (status, d) else
      x ← lift x;
      d ← lift (put_at d index x);
      destroy_elements n (index + 1) d
  end.

Definition deque_clear deque : M (stl_status * option (deque_t V)) :=
  match deque with
  | None => mret (STL_INVALID_ARGUMENT, deque)
  | Some d =>
      if negb (deque_valid deque) then mret (STL_INVALID_ARGUMENT, deque) else
      '(status, d) ← destroy_elements (Z.to_nat (st_size d)) 0 d; let d : deque_t V := d in
      if negb (bool_decide (status = STL_OK)) then mret (status, Some d) else
      mret (STL_OK, Some (if st_size d =? 0 then d else MkDeque (bump (set_size d 0)) 0))
  end.

Definition deque_raw_destroy_storage deque : M (option (deque_t V)) :=
  match deque with
  | None => mret None
  | Some d =>
      if initialized d then
        '(_, deque) ← deque_clear deque;
        d ← lift deque; let d : deque_t V := d in
        let gen := u64 (generation d + 1) in
        _ ← sequence_deallocate (st_data d);
        mret (Some (MkDeque (storage_zero gen) 0))
      else mret (Some (MkDeque (storage_zero (generation d)) 0))
  end.

Definition deque_reserve deque (min_capacity : Z) : M (stl_status * option (deque_t V)) :=
  match deque with
  | None => mret (STL_INVALID_ARGUMENT, deque)
  | Some d =>
      '(status, changed, d) ← deque_grow_to d min_capacity; let d : deque_t V := d in
      mret (status, Some (if bool_decide (status = STL_OK) && (changed : bool)
                          then MkDeque (bump d) (head d) else d))
  end.

Definition deque_push_back deque elem : M (stl_status * option (deque_t V)) :=
  match deque, elem with
  | Some d, Some _ =>
      if negb (deque_valid deque) then mret (STL_INVALID_ARGUMENT, deque) else
      if element_limit d <=? st_size d then mret (STL_CAPACITY_EXCEEDED, deque) else
      '(status, prepared, x) ← deque_prepare_copy d elem;
      if negb (bool_decide (status = STL_OK)) then mret (status, deque) else
      '(status, _, d) ← deque_grow_to d (u64 (st_size d + 1)); let d : deque_t V := d in
      if negb (bool_decide (status = STL_OK))
      then _ ← deque_discard_prepared d prepared x; mret (status, Some d) else
      physical ← lift (deque_physical d (st_size d));
      dst ← lift (deque_slot d physical);
      '(status, dst, _) ← sequence_move_destroy (element_type d) (Some dst) (Some x);
      _ ← sequence_deallocate prepared;
      if negb (bool_decide (status = STL_OK)) then mret (status, Some d) else
      dst ← lift dst;
      d ← lift (put_slot d physical dst); let d : deque_t V := d in
      mret (STL_OK, Some (MkDeque (bump (set_size d (u64 (st_size d + 1)))) (head d)))
  | _, _ => mret (STL_INVALID_ARGUMENT, deque)
  end.

Definition deque_push_front deque elem : M (stl_status * option (deque_t V)) :=
  match deque, elem with
  | Some d, Some _ =>
      if negb (deque_valid deque) then mret (STL_INVALID_ARGUMENT, deque) else
      if element_limit d <=? st_size d then mret (STL_CAPACITY_EXCEEDED, deque) else
      '(status, prepared, x) ← deque_prepare_copy d elem;
      if negb (bool_decide (status = STL_OK)) then mret (status, deque) else
      '(status, _, d) ← deque_grow_to d (u64 (st_size d + 1)); let d : deque_t V := d in
      if negb (bool_decide (status = STL_OK))
      then _ ← deque_discard_prepared d prepared x; mret (status, Some d) else
      let head' := if head d =? 0 then u64 (st_capacity d - 1) else head d - 1 in
      dst ← lift (deque_slot d head');
      '(status, dst, _) ← sequence_move_destroy (element_type d) (Some dst) (Some x);
      _ ← sequence_deallocate prepared;
      if negb (bool_decide (status = STL_OK)) then mret (status, Some d) else
      dst ← lift dst;
      d ← lift (put_slot d head' dst); let d : deque_t V := d in
      mret (STL_OK, Some (MkDeque (bump (set_size d (u64 (st_size d + 1)))) head'))
  | _, _ => mret (STL_INVALID_ARGUMENT, deque)
  end.

(** [--size; if (!size) head = 0; ++generation]. *)
Definition deque_shrink d : deque_t V :=
  let size := st_size d - 1 in
  MkDeque (bump (set_size d size)) (if size =? 0 then 0 else head d).

Definition deque_pop_back deque (out : bool) : M (stl_status * option V * option (deque_t V)) :=
  match deque with
  | None => mret (STL_INVALID_ARGUMENT, None, deque)
  | Some d =>
      if negb (deque_valid deque) then mret (STL_INVALID_ARGUMENT, None, deque) else
      if st_size d =? 0 then mret (STL_EMPTY, None, deque) else
      physical ← lift (deque_physical d (st_size d - 1));
      x ← lift (deque_slot d physical);
      '(status, r, x) ← take_out (element_type d) out x;
      if negb (bool_decide (status = STL_OK)) then mret (status, None, deque) else
      d ← lift (put_slot d physical x); let d : deque_t V := d in
      mret (STL_OK, r, Some (deque_shrink d))
  end.

Definition deque_pop_front deque (out : bool) : M (stl_status * option V * option (deque_t V)) :=
  match deque with
  | None => mret (STL_INVALID_ARGUMENT, None, deque)
  | Some d =>
      if negb (deque_valid deque) then mret (STL_INVALID_ARGUMENT, None, deque) else
      if st_size d =? 0 then mret (STL_EMPTY, None, deque) else
      x ← lift (deque_slot d (head d));
      '(status, r, x) ← take_out (element_type d) out x;
      if negb (bool_decide (status = STL_OK)) then mret (status, None, deque) else
      d ← lift (put_slot d (head d) x); let d : deque_t V := d in
      head' ← lift (if st_capacity d =? 0 then None else Some (u64 (head d + 1) mod st_capacity d));
      mret (STL_OK, r, Some (deque_shrink (MkDeque d head')))
  end.

Definition deque_set deque (index : Z) elem : M (stl_status * option (deque_t V)) :=
  match deque, elem with
  | Some d, Some _ =>
      if negb (deque_valid deque) || (st_size d <=? index) then mret (STL_INVALID_ARGUMENT, deque) else
      '(status, prepared, x) ← deque_prepare_copy d elem;
      if negb (bool_decide (status = STL_OK)) then mret (status, deque) else
      physical ← lift (deque_physical d index);
      old ← lift (deque_slot d physical);
      '(status, old) ← sequence_destroy_value (element_type d) (Some old);
      old ← lift old;
      '(status, new) ← (if bool_decide (status = STL_OK) then
           '(status, new, _) ← sequence_move_destroy (element_type d) (Some old) (Some x);
           new ← lift new; mret (status, new)
         else mret (status, old));
      d ← lift (put_slot d physical new); let d : deque_t V := d in
      _ ← sequence_deallocate prepared;
      if negb (bool_decide (status = STL_OK)) then mret (status, Some d) else
      mret (STL_OK, Some (MkDeque (bump d) (head d)))
  | _, _ => mret (STL_INVALID_ARGUMENT, deque)
  end.

(** The loops of [deque_from_array_bytes] and [deque_raw_from_array]. *)
Fixpoint deque_push_all (elements : list V) deque : M (stl_status * option (deque_t V)) :=
  match elements with
  | [] => mret (STL_OK, deque)
  | x :: elements =>
      '(status, deque) ← deque_push_back deque (Some x);
      if negb (bool_decide (status = STL_OK))
      then deque ← deque_raw_destroy_storage deque; mret (status, deque)
      else deque_push_all elements deque
  end.

(** From the checks on: [init] is the result of initialising the temporary. *)
Definition deque_from_array deque (elements : option (list V)) (count limit : Z)
    (init : stl_status * option (deque_t V)) : M (stl_status * option (deque_t V)) :=
  match deque with
  | None => mret (STL_INVALID_ARGUMENT, deque)
  | Some d =>
      if initialized d then mret (STL_INVALID_ARGUMENT, deque) else
      if (negb (count =? 0) && is_null elements) || (limit <? count) then
        mret (if limit <? count then STL_CAPACITY_EXCEEDED else STL_INVALID_ARGUMENT, deque)
      else
      let '(status, temporary) := init in
      if negb (bool_decide (status = STL_OK)) then mret (status, deque) else
      xs ← lift (if count =? 0 then Some [] else
                 l ← elements; if alen l <? count then None else Some (take (Z.to_nat count) l));
      '(status, temporary) ← deque_push_all xs temporary;
      if negb (bool_decide (status = STL_OK)) then mret (status, deque) else
      t ← lift temporary; let t : deque_t V := t in
      mret (STL_OK, Some (MkDeque (MkStorage (st_data t) (st_slots t) (st_size t) (st_capacity t)
        (elem_size t) (elem_stride t) (elem_align t) (element_limit t) (element_type t)
        (u64 (generation d + 1)) (initialized t)) (head t)))
  end.

Definition deque_from_array_bytes deque (elements : option (list V)) (count size align limit : Z) :
    M (stl_status * option (deque_t V)) :=
  deque_from_array deque elements count limit
    (deque_init_bytes (Some (MkDeque (storage_zero 0) 0)) size align limit).

Definition deque_raw_from_array deque (elements : option (list V)) (count : Z)
    (type : option (cmeta_type_desc V)) (limit : Z) : M (stl_status * option (deque_t V)) :=
  deque_from_array deque elements count limit
    (deque_raw_init (Some (MkDeque (storage_zero 0) 0)) type limit).

(** What the client finds at the pointer, [None] for [NULL]. The const
    variants of the code differ in the type only. *)
Definition deque_front deque : option (slot V) :=
  match deque with
  | None => None
  | Some d => if deque_valid deque && negb (st_size d =? 0) then deque_slot d (head d) else None
  end.

Definition deque_back deque : option (slot V) :=
  match deque with
  | None => None
  | Some d =>
      if deque_valid deque && negb (st_size d =? 0) then deque_at_slot d (st_size d - 1) else None
  end.

Definition deque_at deque (index : Z) : option (slot V) :=
  match deque with
  | None => None
  | Some d => if deque_valid deque && (index <? st_size d) then deque_at_slot d index else None
  end.

Definition deque_size deque : Z :=
  match deque with None => 0 | Some d => if deque_valid deque then st_size d else 0 end.

Definition deque_capacity deque : Z :=
  match deque with None => 0 | Some d => if deque_valid deque then st_capacity d else 0 end.

Definition deque_generation deque : Z :=
  match deque with None => 0 | Some d => generation d end.

Definition deque_empty deque : bool := deque_size deque =? 0.
End Deque.

(** ** The buffer turned to start at [head] *)

Lemma rotate_small {A} (l : list A) h : (h < length l)%nat → rotate h l = drop h l ++ take h l.
Proof. intros Hh. unfold rotate. by rewrite Nat.mod_small. Qed.

Lemma rotate_zero {A} (l : list A) : rotate 0 l = l.
Proof. unfold rotate. destruct l as [|x l]; [done|]. rewrite Nat.mod_small by (simpl; lia). cbn [drop take]. apply app_nil_r. Qed.

(** Turning by one more. *)
Lemma rotate_step {A} (l : list A) h x r :
  (h < length l)%nat → rotate h l = x :: r → rotate ((h + 1) mod length l) l = r ++ [x].
Proof.
  intros Hh. rewrite rotate_small by done.
  destruct (lookup_lt_is_Some_2 l h Hh) as [y Hy]. rewrite (drop_S l y h Hy). intros [= -> <-].
  destruct (decide (h + 1 < length l)%nat) as [Hlt|Hge].
  - rewrite Nat.mod_small, rotate_small by lia. rewrite Nat.add_1_r, (take_S_r l h x Hy).
    by rewrite app_assoc.
  - replace (h + 1)%nat with (length l) by lia. rewrite Nat.Div0.mod_same, rotate_zero.
    rewrite (drop_ge l) by lia. cbn [app]. rewrite <-(take_S_r l h x Hy). by rewrite firstn_all2 by lia.
Qed.

(** Turning back by one. *)
Lemma rotate_back {A} (l : list A) h h' x r :
  (h' < length l)%nat → h = ((h' + 1) mod length l)%nat → rotate h l = r ++ [x] → rotate h' l = x :: r.
Proof.
  intros Hh' -> Hr. destruct (rotate h' l) as [|y r'] eqn:E.
  { apply (f_equal length) in E. rewrite length_rotate in E. simpl in E. lia. }
  rewrite (rotate_step l h' y r' Hh' E) in Hr. by apply app_inj_tail in Hr as [-> ->].
Qed.

Lemma alen_rotate {A} h (l : list A) : alen (rotate h l) = alen l.
Proof. unfold alen. by rewrite length_rotate. Qed.

Section Ring.
Context {V : Type}.
Implicit Types (d : deque_t V) (xs : list V).

(** The vector a deque is when its buffer is turned. *)
Definition linear d : storage V := set_slots d (rotate (Z.to_nat (head d)) (st_slots d)).

(** The head lies in the buffer, whose size is that of an object. *)
Record ring_ok d : Prop := {
  ro_slots : alen (st_slots d) = st_capacity d;
  ro_head : 0 <= head d;
  ro_inside : head d < st_capacity d ∨ head d = 0;
  ro_fits : st_capacity d <= INT64_MAX
}.

Lemma physical_ok d i :
  ring_ok d → 0 <= i < st_capacity d →
  ∃ p, deque_physical d i = Some p ∧ 0 <= p < st_capacity d ∧
    Z.to_nat p = rotate_nat_add (Z.to_nat (head d)) (Z.to_nat i) (length (st_slots d)).
Proof.
  intros [Hl H0 Hin Hf] Hi. unfold deque_physical. rewrite (proj2 (Z.eqb_neq _ _)) by lia.
  rewrite u64_id by (unfold INT64_MAX in Hf; unfold_words; lia).
  eexists. split; [done|]. split; [apply Z.mod_pos_bound; lia|].
  unfold rotate_nat_add. rewrite !Z2Nat.id by lia. unfold alen in Hl. by rewrite Hl.
Qed.

Lemma linear_get d i :
  ring_ok d → 0 <= i < st_capacity d → deque_at_slot d i = aget (st_slots (linear d)) i.
Proof.
  intros Hr Hi. destruct (physical_ok d i Hr Hi) as (p & Ep & Hp & Hn). unfold deque_at_slot. rewrite Ep. msimpl.
  unfold deque_slot, aget, linear. cbn [st_slots set_slots].
  rewrite (proj2 (Z.ltb_ge _ _)), (proj2 (Z.ltb_ge _ _)) by lia.
  pose proof (ro_slots d Hr). rewrite lookup_rotate_r by (unfold alen in *; lia). by rewrite Hn.
Qed.

(** Writing an element in the buffer and in the turned buffer. *)
Lemma linear_put d i x l' :
  ring_ok d → aset (st_slots (linear d)) i x = Some l' →
  ∃ d', put_at d i x = Some d' ∧ linear d' = set_slots (linear d) l' ∧ ring_ok d' ∧ head d' = head d ∧
    dq_storage d' = set_slots d (st_slots d').
Proof.
  intros Hr Hset. apply aset_Some in Hset as [Hi ->]. unfold linear in Hi. cbn [st_slots set_slots] in Hi.
  rewrite alen_rotate, (ro_slots d Hr) in Hi.
  destruct (physical_ok d i Hr Hi) as (p & Ep & Hp & Hn). unfold put_at. rewrite Ep. msimpl.
  unfold put_slot. rewrite aset_in_bounds by (by rewrite (ro_slots d Hr)). msimpl. eexists. split; [done|].
  pose proof (ro_slots d Hr) as Hl. split_and!.
  - unfold linear, set_slots. cbn. f_equal. rewrite Hn. rewrite rotate_insert_l; [done|unfold alen in *; lia].
  - destruct Hr as [? ? ? ?]. split; cbn; try done. unfold alen in *. by rewrite length_insert.
  - done.
  - done.
Qed.

Lemma linear_bound d a x b : ring_ok d → st_slots (linear d) = a ++ x :: b → 0 <= alen a < st_capacity d.
Proof.
  intros Hr Hl. rewrite <-(ro_slots d Hr), <-(alen_rotate (Z.to_nat (head d)) (st_slots d)).
  unfold linear in Hl. cbn [st_slots set_slots] in Hl. rewrite Hl, alen_app. unfold alen. simpl. lia.
Qed.

(** What [put_at] keeps of a deque. *)
Definition rewritten d d' : Prop := ring_ok d' ∧ head d' = head d ∧ dq_storage d' = set_slots d (st_slots d').

Lemma rewritten_trans d1 d2 d3 : rewritten d1 d2 → rewritten d2 d3 → rewritten d1 d3.
Proof.
  intros (_ & Hh & Hs) (Hr & Hh' & Hs'). split_and!; [done|congruence|]. rewrite Hs', Hs. done.
Qed.

(** The slot of the element at [i], and writing to it. *)
Lemma slot_view d a y b i :
  ring_ok d → st_slots (linear d) = a ++ y :: b → alen a = i →
  ∃ q, deque_physical d i = Some q ∧ deque_slot d q = Some y ∧
    ∀ z, ∃ d', put_slot d q z = Some d' ∧ linear d' = set_slots (linear d) (a ++ z :: b) ∧ rewritten d d'.
Proof.
  intros Hr Hl Hi. pose proof (linear_bound d a y b Hr Hl) as Hc. rewrite Hi in Hc.
  destruct (physical_ok d i Hr Hc) as (q & Eq & Hq & _). exists q. split; [done|].
  pose proof (linear_get d i Hr Hc) as Eget. unfold deque_at_slot in Eget.
  rewrite Eq, Hl, (aget_middle a) in Eget by done. split; [exact Eget|]. intros z.
  destruct (linear_put d i z (a ++ z :: b) Hr) as (d' & Ed & Hlin & Hr' & Hh & Hs).
  { rewrite Hl. by apply aset_middle. }
  unfold put_at in Ed. rewrite Eq in Ed. exists d'. split; [exact Ed|]. split; [done|]. done.
Qed.

(** Reading the elements in order out of the buffer. *)
Lemma copy_elements_ok d pre ys tl junk r i :
  ring_ok d → st_slots (linear d) = junk ++ map Some ys ++ tl → alen junk = i → length junk = length pre →
  copy_elements (length ys) i (map Some pre ++ replicate (length ys + r) None) d =
    Some (map Some (pre ++ ys) ++ replicate r None).
Proof.
  intros Hr. revert pre junk i. induction ys as [|y ys IH]; intros pre junk i Hl Hi Hn; cbn [copy_elements length].
  { by rewrite app_nil_r. }
  pose proof (linear_bound d _ (Some y) _ Hr Hl) as Hc.
  rewrite linear_get by (done || unfold alen in *; lia).
  rewrite Hl. cbn [map app]. rewrite (aget_middle junk) by done. msimpl.
  change (replicate (S (length ys) + r) None) with (None :: replicate (length ys + r) (@None V)).
  rewrite (aset_middle (map Some pre)) by (unfold alen in *; rewrite length_map; lia). msimpl.
  specialize (IH (pre ++ [y]) (junk ++ [Some y]) (i + 1)).
  rewrite map_app, <-!app_assoc in IH. cbn [map app] in IH. apply IH; [done| |].
  - rewrite alen_app. change (alen [Some y]) with 1. lia.
  - rewrite !length_app. simpl. lia.
Qed.

Lemma move_elements_ok d pre ys tl junk r i w :
  type_ok (element_type d) → element_type d ≠ None →
  ring_ok d → st_slots (linear d) = junk ++ map Some ys ++ tl → alen junk = i → length junk = length pre →
  ∃ d', move_elements (length ys) i (map Some pre ++ replicate (length ys + r) None) d w =
    Some ((STL_OK, map Some (pre ++ ys) ++ replicate r None, d'), w).
Proof.
  revert d pre junk i. induction ys as [|y ys IH]; intros d pre junk i Hty Hne Hr Hl Hi Hn;
    cbn [move_elements length].
  { exists d. by rewrite app_nil_r. }
  pose proof (linear_bound d _ (Some y) _ Hr Hl) as Hc.
  change (replicate (S (length ys) + r) None) with (None :: replicate (length ys + r) (@None V)).
  assert (i = alen (map Some pre)) as Hp by (unfold alen in *; rewrite length_map; lia).
  rewrite (aget_middle (map Some pre)), linear_get by (done || unfold alen in *; lia). wrun.
  rewrite Hl. cbn [map app]. rewrite (aget_middle junk) by done. wrun.
  wstep (move_ok (element_type d) Hty None y w). rewrite bool_decide_true by done. cbn [negb]. wrun.
  rewrite (aset_middle (map Some pre)) by done. wrun.
  destruct (linear_put d i (if is_null (element_type d) then Some y else None)
    (junk ++ (if is_null (element_type d) then Some y else None) :: map Some ys ++ tl) Hr)
    as (d' & Ed & Hlin & Hr' & Hh & Hs).
  { rewrite Hl. cbn [map app]. by apply aset_middle. }
  rewrite Ed. wrun.
  assert (element_type d' = element_type d) as Ht by (by rewrite Hs).
  destruct (IH d' (pre ++ [y]) (junk ++ [if is_null (element_type d) then Some y else None]) (i + 1))
    as [d'' E].
  - by rewrite Ht.
  - by rewrite Ht.
  - done.
  - rewrite Hlin. cbn [st_slots set_slots]. by rewrite <-app_assoc.
  - rewrite alen_app. unfold alen at 2. simpl. lia.
  - rewrite !length_app. simpl. lia.
  - exists d''. by rewrite map_app, <-!app_assoc in E.
Qed.

Lemma destroy_elements_ok d pre ys tl w :
  type_ok (element_type d) → ring_ok d → st_slots (linear d) = pre ++ map Some ys ++ tl →
  ∃ d' w', destroy_elements (length ys) (alen pre) d w = Some ((STL_OK, d'), w') ∧
    rewritten d d' ∧
    st_slots (linear d') = pre ++ (if is_null (element_type d) then map Some ys
                                    else replicate (length ys) None) ++ tl ∧
    w_blocks w' = w_blocks w ∧ w_objects w' = w_objects w - owned (element_type d) * alen ys.
Proof.
  revert d pre w. induction ys as [|y ys IH]; intros d pre w Hty Hr Hl; cbn [destroy_elements length].
  { exists d, w. split; [done|]. split_and!; try done.
    - by destruct d as [[]].
    - rewrite Hl. by destruct (is_null (element_type d)).
    - unfold alen. simpl. lia. }
  pose proof (linear_bound d _ (Some y) _ Hr Hl) as Hc.
  pose proof (alen_nonneg pre). rewrite linear_get by (done || lia). rewrite Hl. cbn [map app].
  rewrite (aget_middle pre) by done. wrun.
  destruct (destroy_ok (element_type d) Hty y w) as (w1 & E1 & Hm1 & Hb1 & Ho1). wstep E1.
  rewrite bool_decide_true by done. cbn [negb]. wrun.
  set (g := if is_null (element_type d) then Some y else None).
  destruct (linear_put d (alen pre) g (pre ++ g :: map Some ys ++ tl) Hr) as (d' & Ed & Hlin & Hr' & Hh & Hs).
  { rewrite Hl. cbn [map app]. by apply aset_middle. }
  rewrite Ed. wrun. assert (element_type d' = element_type d) as Ht by (by rewrite Hs).
  destruct (IH d' (pre ++ [g]) w1) as (d2 & w2 & E2 & Hrw & Hl2 & Hb2 & Ho2).
  - by rewrite Ht.
  - done.
  - rewrite Hlin. cbn [st_slots set_slots]. by rewrite <-app_assoc.
  - exists d2, w2. rewrite alen_app in E2. split; [exact E2|]. split_and!.
    + by eapply rewritten_trans.
    + rewrite Hl2, Ht, <-app_assoc. unfold g. by destruct (is_null (element_type d)).
    + lia.
    + rewrite Ht in Ho2. unfold alen in *. simpl length. lia.
Qed.

(** A deque that can be used. *)
Record deque_ok d : Prop := {
  do_storage : storage_ok (linear d);
  do_ring : ring_ok d;
  do_limit : element_limit d <= INT64_MAX
}.

Lemma deque_valid_ok d : deque_ok d → deque_valid (Some d) = true.
Proof. intros H. exact (vec_valid_ok _ (do_storage d H)). Qed.

(** Growing, seen in the turned buffer. *)
Record deque_grown d xs minimum w st d' w' : Prop := {
  dg_grown : grown (linear d) xs minimum w st (linear d') w';
  dg_ok : deque_ok d'
}.

Lemma deque_regrown d xs minimum w w1 w' data capacity :
  deque_ok d → holds (linear d) xs → minimum <= capacity → 0 < capacity <= element_limit d →
  st_capacity d <= capacity → is_Some data → w_objects w' = w_objects w →
  w_blocks w' = w_blocks w + 1 - blocks_of d → w_malloc w' = w_malloc w1 →
  (∀ n, mallocs (S n) (elem_align d) w → roomy d → mallocs n (elem_align d) w1) →
  deque_grown d xs minimum w STL_OK
    (MkDeque (set_block d data (map Some xs ++ replicate (Z.to_nat capacity - length xs) None) capacity) 0) w'.
Proof.
  intros Hd Hh Hmin Hc Hcap Hdata Ho Hb Hm Hmal. pose proof (do_storage d Hd) as Hs.
  assert (alen xs <= capacity) as Hxs.
  { destruct Hh as (Hsz & _). pose proof (so_size _ Hs). change (st_capacity (linear d)) with (st_capacity d) in *. lia. }
  assert (alen (map Some xs ++ replicate (Z.to_nat capacity - length xs) (@None V)) = capacity) as Hl.
  { unfold alen in *. rewrite length_app, length_map, length_replicate. lia. }
  assert (grown (linear d) xs minimum w STL_OK
    (linear (MkDeque (set_block d data (map Some xs ++ replicate (Z.to_nat capacity - length xs) None) capacity) 0)) w')
    as Hg.
  { unfold linear at 2. cbn [head dq_storage st_slots set_block]. rewrite rotate_zero.
    change (set_slots (set_block d data ?l capacity) _) with (set_block (linear d) data l capacity).
    eapply regrown; try done.
    - intros _. by apply Forall_replicate.
    - intros n _ Hr Hn. apply (mallocs_eq _ _ w1); [done|]. by apply Hmal. }
  split; [done|]. split; [apply Hg| |apply (do_limit d Hd)].
  split; cbn; try done; [lia|]. pose proof (do_limit d Hd). lia.
Qed.

Lemma deque_grow_cases d xs minimum w :
  deque_ok d → holds (linear d) xs → 0 <= minimum →
  ∃ st ch d' w', deque_grow_to d minimum w = Some ((st, ch, d'), w') ∧ deque_grown d xs minimum w st d' w'.
Proof.
  intros Hd Hh Hm. pose proof (do_storage d Hd) as Hs.
  destruct (Hs) as [_ _ Hstr [Hal Halv] Hlim Hty Hsl Hsz Hcap Hdata]. cbn in Hstr, Hal, Halv, Hlim, Hty, Hsz, Hcap.
  destruct (Hh) as (Hsize & tl & Hslots & Htl). cbn in Hsize.
  assert (∀ st w', st ≠ STL_OK → w_objects w' = w_objects w → w_blocks w' = w_blocks w →
    (minimum <= element_limit d → roomy d → ∀ n, mallocs (S n) (elem_align d) w → False) →
    deque_grown d xs minimum w st d w') as Hfail.
  { intros st w' Hne Ho Hb Hen. split; [|done]. split; try done; [lia|]. intros n ? ? Hn.
    exfalso. by eapply Hen. }
  unfold deque_grow_to. rewrite deque_valid_ok by done. cbn [negb].
  destruct (Z.leb_spec minimum (st_capacity d)) as [Hle|Hgt].
  { do 4 eexists. split; [done|]. split; [|done]. split; try done. intros n _ _ Hn. split; [done|].
    eapply mallocs_le; [|done]. lia. }
  pose proof (next_capacity_ok (linear d) minimum Hs ltac:(lia) Hgt) as Hnext.
  change (next_capacity (linear d) minimum) with (deque_next_capacity d minimum) in Hnext.
  change (element_limit (linear d)) with (element_limit d) in Hnext.
  destruct (Z.ltb_spec (element_limit d) minimum).
  { rewrite Hnext. wrun. do 4 eexists. split; [done|]. apply Hfail; try done. lia. }
  destruct Hnext as (c & -> & Hc). wrun. rewrite bool_decide_true by done. cbn [negb].
  destruct (allocate_cases c (elem_stride d) (elem_align d) w) as (st & p & w1 & E1 & Ho & Hb & Hen);
    [lia|done..|].
  wstep E1. case_bool_decide as Hst; cbn [negb]; last first.
  { destruct Hb as [-> Hb]. do 4 eexists. split; [done|]. apply Hfail; try done.
    intros _ Hr n Hn. destruct Hst. apply (Hen n); [done|]. unfold roomy in Hr. nia. }
  destruct Hb as [Hp Hb].
  assert (∀ n, mallocs (S n) (elem_align d) w → roomy d → mallocs n (elem_align d) w1) as Hmal.
  { intros n Hn Hr. apply Hen; [done|]. unfold roomy in Hr. nia. }
  destruct (deallocate_run (st_data d) w1) as (w2 & E2 & Hm2 & Ho2 & Hb2).
  assert (Z.to_nat c = length xs + (Z.to_nat c - length xs))%nat as Hn by (unfold alen in *; lia).
  assert (Z.to_nat (st_size d) = length xs) as -> by (unfold alen in *; lia).
  destruct (element_type d) as [t|] eqn:Et.
  - destruct (move_elements_ok d [] xs tl [] (Z.to_nat c - length xs) 0 w1) as [d' Emv]; try done.
    { by rewrite Et. } { by rewrite Et. } { apply Hd. }
    cbn [map app] in Emv. rewrite <-Hn in Emv. wstep Emv. rewrite bool_decide_true by done. cbn [negb].
    wstep E2. do 4 eexists. split; [done|].
    eapply deque_regrown; try done; try lia. unfold blocks_of. lia.
  - pose proof (copy_elements_ok d [] xs tl [] (Z.to_nat c - length xs) 0 (do_ring d Hd) Hslots eq_refl eq_refl) as Ecp.
    cbn [map app] in Ecp. rewrite <-Hn in Ecp. rewrite Ecp. wrun. wstep E2. do 4 eexists. split; [done|].
    eapply deque_regrown; try done; try lia. unfold blocks_of. lia.
Qed.
End Ring.

(** ** The list a deque stands for *)

Inductive deque_op (V : Type) :=
  | DPushBack (x : V)
  | DPushFront (x : V)
  | DPopBack (out : bool)
  | DPopFront (out : bool)
  | DSet (index : Z) (x : V)
  | DReserve (n : Z)
  | DClear.
#[global] Arguments DPushBack {V} _.
#[global] Arguments DPushFront {V} _.
#[global] Arguments DPopBack {V} _.
#[global] Arguments DPopFront {V} _.
#[global] Arguments DSet {V} _ _.
#[global] Arguments DReserve {V} _.
#[global] Arguments DClear {V}.

Section DequeRefinement.
Context {V : Type}.
Implicit Types (d : deque_t V) (xs : list V) (op : deque_op V).

(** A call: the status, the element handed out and the deque. *)
Definition deque_exec op d : M (stl_status * option V * option (deque_t V)) :=
  let plain m := '(st, deque) ← m; mret (st, None, deque) in
  match op with
  | DPushBack x => plain (deque_push_back (Some d) (Some x))
  | DPushFront x => plain (deque_push_front (Some d) (Some x))
  | DPopBack out => deque_pop_back (Some d) out
  | DPopFront out => deque_pop_front (Some d) out
  | DSet i x => plain (deque_set (Some d) i (Some x))
  | DReserve n => plain (deque_reserve (Some d) n)
  | DClear => plain (deque_clear (Some d))
  end.

(** The same call on a list of at most [limit] elements, with memory enough. *)
Definition ends_exec (limit : Z) op xs : stl_status * option V * list V :=
  match op with
  | DPushBack x => if limit <=? alen xs then (STL_CAPACITY_EXCEEDED, None, xs) else (STL_OK, None, xs ++ [x])
  | DPushFront x => if limit <=? alen xs then (STL_CAPACITY_EXCEEDED, None, xs) else (STL_OK, None, x :: xs)
  | DPopBack out =>
      if alen xs =? 0 then (STL_EMPTY, None, xs) else (STL_OK, when out (last xs), take (length xs - 1) xs)
  | DPopFront out =>
      match xs with [] => (STL_EMPTY, None, xs) | x :: xs => (STL_OK, when out (Some x), xs) end
  | DSet i x =>
      if alen xs <=? i then (STL_INVALID_ARGUMENT, None, xs) else (STL_OK, None, <[Z.to_nat i := x]> xs)
  | DReserve n => if limit <? n then (STL_CAPACITY_EXCEEDED, None, xs) else (STL_OK, None, xs)
  | DClear => (STL_OK, None, [])
  end.

Definition deque_op_ok op : Prop :=
  match op with DSet i _ => is_u64 i | DReserve n => is_u64 n | _ => True end.

Definition deque_op_copyable (type : option (cmeta_type_desc V)) op : Prop :=
  match op with DPushBack x | DPushFront x | DSet _ x => copyable type x | _ => True end.

(** The result of a call: that of a vector on the turned buffer. *)
Record deque_post d xs w (spec : stl_status * option V * list V) (cp : Prop) st out d' w' : Prop := {
  dp_ok : deque_ok d';
  dp_post : vec_post (linear d) xs w spec cp st out (linear d') w'
}.

Lemma ring_ok_same d d' :
  ring_ok d → alen (st_slots d') = alen (st_slots d) → st_capacity d' = st_capacity d → head d' = head d →
  ring_ok d'.
Proof. intros [? ? ? ?] Hl Hc Hh. split; rewrite ?Hc, ?Hh; try done. congruence. Qed.

(** A refused call. *)
Lemma deque_post_refused d xs w st cp spec :
  deque_ok d → holds (linear d) xs → spec = (st, None, xs) → deque_post d xs w spec cp st None d w.
Proof. intros Hd Hh E. split; [done|]. by apply (post_refused _ _ _ _ VClear); [apply Hd|..]. Qed.

(** Writing one slot of the turned buffer and storing a new size and head
    is a step of the vector. *)
Lemma deque_post_stored d xs w spec cp d1 ys slots tl w' n (out : option V) d2 :
  deque_ok d1 → same_params (linear d) (linear d1) → spec = (STL_OK, out, ys) →
  w_blocks w' - blocks_of d1 = w_blocks w - blocks_of d →
  w_objects w' - owned (element_type d) * (alen ys + (if is_null out then 0 else 1)) =
    w_objects w - owned (element_type d) * alen xs →
  slots = map Some ys ++ tl → n = alen ys →
  (element_type d ≠ None → Forall (λ x, x = None) tl) →
  linear d2 = bump (set_size (set_slots (linear d1) slots) n) → ring_ok d2 →
  deque_post d xs w spec cp STL_OK out d2 w'.
Proof.
  intros Hd1 Hp E Hb Ho Hsl Hn Htl Hlin Hr.
  assert (alen slots = alen (st_slots (linear d1))) as Hlen.
  { assert (st_slots (linear d2) = slots) as Hs by (by rewrite Hlin).
    assert (st_capacity (linear d2) = st_capacity (linear d1)) as Hc by (by rewrite Hlin).
    rewrite <-Hs. unfold linear. cbn [st_slots set_slots]. rewrite !alen_rotate.
    rewrite (ro_slots d2 Hr), (ro_slots d1 (do_ring d1 Hd1)). exact Hc. }
  assert (vec_post (linear d) xs w spec cp STL_OK out (linear d2) w') as Hv.
  { rewrite Hlin. eapply post_stored; try done. apply Hd1. }
  split; [|done]. split; [apply Hv|done|].
  assert (element_limit (linear d2) = element_limit (linear d1)) as Hl by (by rewrite Hlin).
  change (element_limit d2 = element_limit d1) in Hl. rewrite Hl. apply Hd1.
Qed.

(** An empty deque may start anywhere. *)
Lemma deque_post_reset d xs w spec cp st out d' w' :
  deque_post d xs w spec cp st out d' w' → st_size d' = 0 →
  deque_post d xs w spec cp st out (MkDeque d' 0) w'.
Proof.
  intros [[Hs Hr Hl] [_ Hp Hb (ys & (Hsz & tl & Hsl & Htl) & Hstep & Ho) Hen]] H0.
  change (st_size (linear d')) with (st_size d') in Hsz.
  assert (ys = []) as -> by (destruct ys; [done|unfold alen in Hsz; simpl in Hsz; lia]).
  cbn [map app] in Hsl. unfold linear in Hsl, Htl. cbn [st_slots set_slots element_type] in Hsl, Htl.
  assert (storage_ok (linear (MkDeque d' 0))) as Hs0.
  { destruct Hs. split; try done. unfold linear in *. cbn [st_slots set_slots dq_storage head] in *.
    rewrite alen_rotate in *. done. }
  split.
  - split; [done| |done]. destruct Hr. split; cbn; try done. by right.
  - split; try done. exists []. split; [|done]. split; [done|].
    exists (st_slots (linear (MkDeque d' 0))). split; [done|]. intros Hne. apply Htl in Hne.
    rewrite <-Hsl in Hne. unfold linear. cbn. rewrite rotate_zero.
    apply Forall_forall. intros x Hx. rewrite Forall_forall in Hne. apply Hne. by apply elem_of_rotate.
Qed.

(** Room for one more element in the grown deque [d1], a copy in hand. *)
Record push_ready d xs w d1 w2 : Prop := {
  pr_ok : deque_ok d1;
  pr_holds : holds (linear d1) xs;
  pr_params : same_params (linear d) (linear d1);
  pr_room : alen xs < st_capacity d1;
  pr_blocks : w_blocks w2 - 1 - blocks_of d1 = w_blocks w - blocks_of d;
  pr_objects : w_objects w2 = w_objects w + owned (element_type d)
}.

(** What [deque_push_back] and [deque_push_front] do first: copy the element
    and grow, or fail without a change. *)
Lemma deque_prologue d xs x w (cp := copyable (element_type d) x) :
  deque_ok d → holds (linear d) xs → st_size d < element_limit d →
  ∃ st p c w1, deque_prepare_copy d (Some x) w = Some ((st, p, c), w1) ∧
    if bool_decide (st = STL_OK) then
      c = Some x ∧ is_Some p ∧ ∃ st2 ch d1 w2, deque_grow_to d (u64 (st_size d + 1)) w1 = Some ((st2, ch, d1), w2) ∧
        if bool_decide (st2 = STL_OK) then push_ready d xs w d1 w2
        else ∃ w3, deque_discard_prepared d1 p (Some x) w2 = Some (tt, w3) ∧
          ∀ spec, spec.1.1 = STL_OK → deque_post d xs w spec cp st2 None d1 w3
    else ∀ spec, spec.1.1 = STL_OK → deque_post d xs w spec cp st None d w1.
Proof.
  intros Hd Hh Hlt. pose proof (do_storage d Hd) as Hs.
  pose proof (so_limit _ Hs) as Hlim. pose proof (so_size _ Hs) as Hsz. cbn in Hlim, Hsz.
  destruct (prepare_cases (linear d) x w Hs) as (st & p & c & w1 & E & Hres & Hen).
  exists st, p, c, w1. split; [exact E|]. case_bool_decide as Hst; last first.
  { intros spec Hspec. split; [done|].
    exact (post_unprepared (linear d) xs x w st p c w1 spec Hs Hh Hlt Hspec E Hst). }
  destruct Hres as (Hp & -> & Hb & Ho). split; [done|]. split; [done|].
  rewrite u64_id by (unfold_words; lia).
  destruct (deque_grow_cases d xs (st_size d + 1) w1 Hd Hh) as (st2 & ch & d1 & w2 & E2 & [Hg Hd1]); [lia|].
  do 4 eexists. split; [exact E2|]. case_bool_decide as Hst2.
  - destruct Hg as [_ Gh Gp _ Go Gb _ Gr _]. specialize (Gr Hst2). destruct Hh as (Hn & _).
    change (st_size (linear d)) with (st_size d) in Hn. change (st_capacity (linear d1)) with (st_capacity d1) in Gr.
    change (blocks_of (linear ?e)) with (blocks_of e) in *. change (element_type (linear d)) with (element_type d) in *.
    split; try done; lia.
  - destruct (discard_run (linear d1) p x w2 (do_storage d1 Hd1) Hp) as (w3 & E3 & _).
    exists w3. split; [exact E3|]. intros spec Hspec. split; [done|].
    eapply (post_no_room (linear d) xs x w w1 st2 (linear d1) w2 w3 spec p Hs Hg Hst2 Hspec Hlt Hb Ho Hp E3).
    intros n Hn Hr Hc. apply Hen; try done. cbn. lia.
Qed.

(** There is a slot behind the elements. *)
Lemma free_slot d xs :
  deque_ok d → holds (linear d) xs → alen xs < st_capacity d →
  ∃ y tl, st_slots (linear d) = map Some xs ++ y :: tl ∧
    (element_type d ≠ None → Forall (λ x, x = None) (y :: tl)).
Proof.
  intros Hd (_ & tl & Hsl & Htl) Hlt. destruct tl as [|y tl]; [|by exists y, tl].
  exfalso. pose proof (so_slots _ (do_storage d Hd)) as Hl. rewrite Hsl, app_nil_r, alen_map in Hl. cbn in Hl. lia.
Qed.

(** The block of the prepared copy is freed. *)
Lemma free_run a w :
  sequence_deallocate (Some a) w = Some (tt, MkWorld (w_malloc w) (w_blocks w - 1) (w_objects w)).
Proof. done. Qed.

Lemma place_ok d y x w :
  deque_ok d →
  sequence_move_destroy (element_type d) (Some y) (Some (Some x)) w =
    Some ((STL_OK, Some (Some x), Some (if is_null (element_type d) then Some x else None)), w).
Proof. intros Hd. exact (move_ok (element_type d) (so_type _ (do_storage d Hd)) y x w). Qed.

Lemma deque_push_back_post d xs x w :
  deque_ok d → holds (linear d) xs →
  ∃ st d' w', deque_push_back (Some d) (Some x) w = Some ((st, Some d'), w') ∧
    deque_post d xs w (ends_exec (element_limit d) (DPushBack x) xs) (copyable (element_type d) x) st None d' w'.
Proof.
  intros Hd Hh. destruct (Hh) as (Hsize & _). change (st_size (linear d)) with (st_size d) in Hsize.
  cbn [ends_exec]. unfold deque_push_back. rewrite deque_valid_ok by done. cbn [negb].
  rewrite <-Hsize. destruct (Z.leb_spec (element_limit d) (st_size d)) as [Hfull|Hlt].
  { do 3 eexists. split; [done|]. by apply deque_post_refused. }
  destruct (deque_prologue d xs x w Hd Hh Hlt) as (st & p & c & w1 & E1 & Hres). wstep E1.
  case_bool_decide as Hst; cbn [negb]; last first.
  { do 3 eexists. split; [done|]. by apply Hres. }
  destruct Hres as (-> & [a ->] & st2 & ch & d1 & w2 & E2 & Hres). wstep E2. cbv zeta.
  case_bool_decide as Hst2; cbn [negb]; last first.
  { destruct Hres as (w3 & E3 & Hpost). wstep E3. do 3 eexists. split; [done|]. by apply Hpost. }
  destruct Hres as [Hd1 Hh1 Hpar Hroom Hb Ho]. destruct (Hh1) as (Hsize1 & _).
  change (st_size (linear d1)) with (st_size d1) in Hsize1.
  pose proof Hpar as (_ & _ & _ & _ & Hty1 & _). change (element_type d1 = element_type d) in Hty1.
  destruct (free_slot d1 xs Hd1 Hh1 Hroom) as (y & tl & Hslots & Htl).
  destruct (slot_view d1 (map Some xs) y tl (st_size d1)) as (q & Eq & Eget & Hput);
    [apply Hd1|done|by rewrite alen_map|].
  rewrite Eq. wrun. rewrite Eget. wrun. wstep (place_ok d1 y x w2 Hd1).
  wstep (free_run a w2). rewrite bool_decide_true by done. cbn [negb]. wrun.
  destruct (Hput (Some x)) as (d2 & Ed & Hlin & Hr2 & Hh2 & Hs2). rewrite Ed. wrun. cbv zeta.
  assert (st_size d2 = st_size d1) as Hn2 by (by rewrite Hs2).
  pose proof (do_limit d1 Hd1) as Hlim. pose proof (so_capacity _ (do_storage d1 Hd1)) as Hcap. cbn in Hcap.
  pose proof (alen_nonneg xs).
  do 3 eexists. split; [done|]. rewrite Hn2, u64_id by (unfold INT64_MAX in Hlim; unfold_words; lia).
  eapply (deque_post_stored d xs w _ _ d1 (xs ++ [x]) (map Some xs ++ Some x :: tl) tl) with (n := st_size d1 + 1); try done.
  - simpl. rewrite alen_app. change (alen [x]) with 1. lia.
  - by rewrite map_app, <-app_assoc.
  - rewrite alen_app. change (alen [x]) with 1. lia.
  - intros Hne. rewrite <-Hty1 in Hne. apply Htl in Hne. by apply Forall_cons in Hne as [_ ?].
  - by rewrite <-Hlin.
  - by apply (ring_ok_same d2).
Qed.

(** The slot before the first one. *)
Lemma back_one d (h := if head d =? 0 then u64 (st_capacity d - 1) else head d - 1) :
  ring_ok d → 0 < st_capacity d →
  deque_physical d (st_capacity d - 1) = Some h ∧ 0 <= h < st_capacity d ∧
  Z.to_nat (head d) = ((Z.to_nat h + 1) mod length (st_slots d))%nat.
Proof.
  intros [Hl H0 Hin Hf] Hc. unfold INT64_MAX in Hf.
  assert (head d < st_capacity d) as Hlt by lia.
  assert (h = if decide (head d = 0) then st_capacity d - 1 else head d - 1) as Hh.
  { unfold h. case_decide as E; [rewrite E, Z.eqb_refl, u64_id; [done|unfold_words; lia]|].
    by rewrite (proj2 (Z.eqb_neq _ _)). }
  assert (0 <= h < st_capacity d) as Hb by (rewrite Hh; case_decide; lia). split_and!; try lia.
  - unfold deque_physical. rewrite (proj2 (Z.eqb_neq _ _)) by lia. rewrite u64_id by (unfold_words; lia).
    f_equal. rewrite Hh. case_decide as E; [rewrite Z.mod_small; lia|].
    symmetry. apply (Z.mod_unique_pos _ _ 1); lia.
  - unfold alen in Hl. rewrite Hh. case_decide as E.
    + replace (Z.to_nat (st_capacity d - 1) + 1)%nat with (length (st_slots d)) by lia.
      rewrite Nat.Div0.mod_same. lia.
    + rewrite Nat.mod_small; lia.
Qed.

Lemma deque_push_front_post d xs x w :
  deque_ok d → holds (linear d) xs →
  ∃ st d' w', deque_push_front (Some d) (Some x) w = Some ((st, Some d'), w') ∧
    deque_post d xs w (ends_exec (element_limit d) (DPushFront x) xs) (copyable (element_type d) x) st None d' w'.
Proof.
  intros Hd Hh. destruct (Hh) as (Hsize & _). change (st_size (linear d)) with (st_size d) in Hsize.
  cbn [ends_exec]. unfold deque_push_front. rewrite deque_valid_ok by done. cbn [negb].
  rewrite <-Hsize. destruct (Z.leb_spec (element_limit d) (st_size d)) as [Hfull|Hlt].
  { do 3 eexists. split; [done|]. by apply deque_post_refused. }
  destruct (deque_prologue d xs x w Hd Hh Hlt) as (st & p & c & w1 & E1 & Hres). wstep E1.
  case_bool_decide as Hst; cbn [negb]; last first.
  { do 3 eexists. split; [done|]. by apply Hres. }
  destruct Hres as (-> & [a ->] & st2 & ch & d1 & w2 & E2 & Hres). wstep E2. cbv zeta.
  case_bool_decide as Hst2; cbn [negb]; last first.
  { destruct Hres as (w3 & E3 & Hpost). wstep E3. do 3 eexists. split; [done|]. by apply Hpost. }
  destruct Hres as [Hd1 Hh1 Hpar Hroom Hb Ho]. destruct (Hh1) as (Hsize1 & _).
  change (st_size (linear d1)) with (st_size d1) in Hsize1.
  pose proof Hpar as (_ & _ & _ & _ & Hty1 & _). change (element_type d1 = element_type d) in Hty1.
  pose proof (alen_nonneg xs). pose proof (do_ring d1 Hd1) as Hr1.
  destruct (back_one d1 Hr1) as (Ephys & Hh' & Hback); [lia|].
  set (h := if head d1 =? 0 then u64 (st_capacity d1 - 1) else head d1 - 1) in *.
  destruct (free_slot d1 xs Hd1 Hh1 Hroom) as (y0 & tl0 & Hslots0 & Htl0).
  destruct (exists_last (l := y0 :: tl0)) as (tl & y & Etl); [done|]. rewrite Etl, app_assoc in Hslots0.
  assert (alen (map Some xs ++ tl) = st_capacity d1 - 1) as Hl.
  { pose proof (so_slots _ (do_storage d1 Hd1)) as Hl. rewrite Hslots0, alen_app in Hl.
    change (alen [y]) with 1 in Hl. cbn in Hl. lia. }
  destruct (slot_view d1 (map Some xs ++ tl) y [] (st_capacity d1 - 1)) as (q & Eq & Eget & Hput); [done..|].
  assert (q = h) as -> by congruence.
  rewrite Eget. wrun. wstep (place_ok d1 y x w2 Hd1). wstep (free_run a w2). rewrite bool_decide_true by done.
  cbn [negb]. wrun.
  destruct (Hput (Some x)) as (d2 & Ed & Hlin & Hr2 & Hh2 & Hs2). rewrite Ed. wrun. cbv zeta.
  assert (st_size d2 = st_size d1) as Hn2 by (by rewrite Hs2).
  assert (st_capacity d2 = st_capacity d1) as Hc2 by (by rewrite Hs2).
  pose proof (do_limit d1 Hd1) as Hlim. pose proof (so_capacity _ (do_storage d1 Hd1)) as Hcap. cbn in Hcap.
  assert (length (st_slots d2) = length (st_slots d1)) as Hl2.
  { pose proof (ro_slots _ Hr1). pose proof (ro_slots _ Hr2). unfold alen in *. lia. }
  assert (rotate (Z.to_nat h) (st_slots d2) = Some x :: map Some xs ++ tl) as Hrot.
  { apply (rotate_back _ (Z.to_nat (head d2))).
    - pose proof (ro_slots _ Hr2). unfold alen in *. lia.
    - by rewrite Hh2, Hl2.
    - apply (f_equal st_slots) in Hlin. exact Hlin. }
  do 3 eexists. split; [done|]. rewrite Hn2, u64_id by (unfold INT64_MAX in Hlim; unfold_words; lia).
  eapply (deque_post_stored d xs w _ _ d1 (x :: xs) (map Some (x :: xs) ++ tl) tl) with (n := st_size d1 + 1); try done.
  - simpl. unfold alen. simpl. lia.
  - unfold alen in *. simpl. lia.
  - intros Hne. rewrite <-Hty1 in Hne. apply Htl0 in Hne. rewrite Etl in Hne. by apply Forall_app in Hne as [? _].
  - unfold linear at 1. cbn [head dq_storage]. change (st_slots (bump (set_size d2 ?n))) with (st_slots d2).
    rewrite Hrot, Hs2. done.
  - destruct Hr2 as [? ? ? ?]. split; cbn; try done; lia.
Qed.

(** [deque_shrink] after the last or the first element was taken out. *)
Lemma deque_post_shrunk d xs ys w cp (out : option V) d2 slots tl w' :
  deque_ok d → alen xs = alen ys + 1 → st_size d2 = alen xs → ring_ok d2 →
  linear d2 = set_slots (linear d) slots →
  slots = map Some ys ++ tl → (element_type d ≠ None → Forall (λ x, x = None) tl) →
  w_blocks w' = w_blocks w →
  w_objects w' = w_objects w - (if is_null out then owned (element_type d) else 0) →
  deque_post d xs w (STL_OK, out, ys) cp STL_OK out (deque_shrink d2) w'.
Proof.
  intros Hd Hn Hsz Hr Hlin Hsl Htl Hb Ho. unfold deque_shrink.
  assert (deque_post d xs w (STL_OK, out, ys) cp STL_OK out (MkDeque (bump (set_size d2 (st_size d2 - 1))) (head d2)) w')
    as Hpost.
  { eapply (deque_post_stored d xs w _ _ d ys slots tl) with (n := st_size d2 - 1); try done; try lia.
    - destruct out; cbn [is_null] in *; nia.
    - by rewrite <-Hlin.
    - by apply (ring_ok_same d2). }
  destruct (Z.eqb_spec (st_size d2 - 1) 0) as [E|E]; [|done].
  exact (deque_post_reset _ _ _ _ _ _ _ _ _ Hpost E).
Qed.

Lemma deque_pop_back_post d xs out w :
  deque_ok d → holds (linear d) xs →
  ∃ st r d' w', deque_pop_back (Some d) out w = Some ((st, r, Some d'), w') ∧
    deque_post d xs w (ends_exec (element_limit d) (DPopBack out) xs) True st r d' w'.
Proof.
  intros Hd Hh. destruct (Hh) as (Hsize & tl & Hsl & Htl). change (st_size (linear d)) with (st_size d) in Hsize.
  cbn [ends_exec]. unfold deque_pop_back. rewrite deque_valid_ok by done. cbn [negb]. rewrite <-Hsize.
  destruct (Z.eqb_spec (st_size d) 0) as [H0|H0].
  { do 4 eexists. split; [done|]. by apply deque_post_refused. }
  destruct (exists_last (l := xs)) as (ys & y & ->); [intros ->; done|].
  rewrite map_app, <-app_assoc in Hsl. cbn [map app] in Hsl. rewrite alen_app in Hsize.
  change (alen [y]) with 1 in Hsize.
  destruct (slot_view d (map Some ys) (Some y) tl (st_size d - 1)) as (q & Eq & Eget & Hput);
    [apply Hd|done|rewrite alen_map; lia|].
  rewrite Eq. wrun. rewrite Eget. wrun.
  destruct (take_out_ok (element_type d) out y w (so_type _ (do_storage d Hd))) as (w' & E & _ & Hb & Ho). wstep E.
  rewrite bool_decide_true by done. cbn [negb].
  destruct (Hput (if is_null (element_type d) then Some y else None)) as (d2 & Ed & Hlin & Hr2 & Hh2 & Hs2).
  rewrite Ed. wrun. cbv zeta. do 4 eexists. split; [done|].
  rewrite last_snoc, length_app. cbn [length]. replace (length ys + 1 - 1)%nat with (length ys) by lia.
  rewrite take_app_length.
  eapply deque_post_shrunk with (tl := _ :: tl); try done.
  - rewrite alen_app. done.
  - rewrite Hs2. cbn [st_size set_slots]. rewrite alen_app. change (alen [y]) with 1. lia.
  - exact (gap_tail (linear d) tl y Htl).
  - rewrite Ho. destruct out; simpl; lia.
Qed.

Lemma deque_pop_front_post d xs out w :
  deque_ok d → holds (linear d) xs →
  ∃ st r d' w', deque_pop_front (Some d) out w = Some ((st, r, Some d'), w') ∧
    deque_post d xs w (ends_exec (element_limit d) (DPopFront out) xs) True st r d' w'.
Proof.
  intros Hd Hh. destruct (Hh) as (Hsize & tl & Hsl & Htl). change (st_size (linear d)) with (st_size d) in Hsize.
  cbn [ends_exec]. unfold deque_pop_front. rewrite deque_valid_ok by done. cbn [negb].
  destruct xs as [|y ys].
  { change (alen []) with 0 in Hsize. rewrite (proj2 (Z.eqb_eq _ _)) by done.
    do 4 eexists. split; [done|]. by apply deque_post_refused. }
  pose proof (alen_nonneg ys). assert (alen (y :: ys) = alen ys + 1) as Hys by (unfold alen; simpl; lia).
  rewrite (proj2 (Z.eqb_neq _ _)) by lia. pose proof (do_ring d Hd) as Hr.
  destruct (slot_view d [] (Some y) (map Some ys ++ tl) 0) as (q & Eq & Eget & Hput); [done..|].
  pose proof (linear_bound d [] (Some y) (map Some ys ++ tl) Hr Hsl) as Hcap.
  change (alen []) with 0 in Hcap. pose proof (ro_fits d Hr) as Hfits. unfold INT64_MAX in Hfits.
  pose proof (ro_head d Hr). pose proof (ro_inside d Hr) as Hin.
  assert (q = head d) as ->.
  { unfold deque_physical in Eq. rewrite (proj2 (Z.eqb_neq _ _)) in Eq by lia. injection Eq as <-.
    rewrite Z.add_0_r, u64_id by (unfold_words; lia). apply Z.mod_small. lia. }
  rewrite Eget. wrun.
  destruct (take_out_ok (element_type d) out y w (so_type _ (do_storage d Hd))) as (w' & E & _ & Hb & Ho). wstep E.
  rewrite bool_decide_true by done. cbn [negb].
  set (g := if is_null (element_type d) then Some y else None).
  destruct (Hput g) as (d2 & Ed & Hlin & Hr2 & Hh2 & Hs2). cbn [app] in Hlin. rewrite Ed. wrun. cbv zeta.
  assert (st_capacity d2 = st_capacity d) as Hc2 by (by rewrite Hs2). rewrite Hc2, Hh2.
  rewrite (proj2 (Z.eqb_neq _ _)) by lia. wrun. rewrite u64_id by (unfold_words; lia).
  set (h := (head d + 1) mod st_capacity d). assert (0 <= h < st_capacity d) as Hhb by (apply Z.mod_pos_bound; lia).
  assert (linear (MkDeque d2 h) = set_slots (linear d) (map Some ys ++ tl ++ [g])) as Hlin'.
  { unfold linear at 1. cbn [head dq_storage]. rewrite Hs2.
    pose proof (ro_slots _ Hr2) as Hl2. rewrite Hc2 in Hl2. unfold alen in Hl2.
    assert (Z.to_nat h = ((Z.to_nat (head d2) + 1) mod length (st_slots d2))%nat) as ->.
    { unfold h. rewrite Hh2. apply Nat2Z.inj. rewrite Nat2Z.inj_mod, Nat2Z.inj_add, !Z2Nat.id, Hl2 by lia. done. }
    rewrite (rotate_step _ _ g (map Some ys ++ tl)); [by rewrite <-app_assoc|rewrite Hh2; lia|].
    apply (f_equal st_slots) in Hlin. exact Hlin. }
  do 4 eexists. split; [done|]. eapply deque_post_shrunk with (tl := tl ++ [g]); try done.
  - cbn [dq_storage]. rewrite Hs2. cbn [st_size set_slots]. lia.
  - destruct Hr2. split; cbn; try done; lia.
  - intros Hne. apply Forall_app. split; [by apply Htl|]. apply Forall_singleton. unfold g. by destruct (element_type d).
  - rewrite Ho. destruct out; simpl; lia.
Qed.

Lemma deque_clear_post d xs w :
  deque_ok d → holds (linear d) xs →
  ∃ d' w', deque_clear (Some d) w = Some ((STL_OK, Some d'), w') ∧
    deque_post d xs w (STL_OK, None, []) True STL_OK None d' w'.
Proof.
  intros Hd Hh. destruct (Hh) as (Hsize & tl & Hsl & Htl). change (st_size (linear d)) with (st_size d) in Hsize.
  unfold deque_clear. rewrite deque_valid_ok by done. cbn [negb].
  destruct (destroy_elements_ok d [] xs tl w (so_type _ (do_storage d Hd)) (do_ring d Hd) Hsl)
    as (d2 & w' & E & (Hr2 & Hh2 & Hs2) & Hsl2 & Hb & Ho).
  assert (Z.to_nat (st_size d) = length xs) as -> by (unfold alen in *; lia).
  change (alen []) with 0 in E. wstep E. cbv zeta. rewrite bool_decide_true by done. cbn [negb]. wrun.
  assert (st_size d2 = st_size d) as Hn2 by (by rewrite Hs2). rewrite Hn2.
  set (slots := (if is_null (element_type d) then map Some xs else replicate (length xs) None) ++ tl) in *.
  assert (element_type d ≠ None → Forall (λ x, x = None) slots) as Hnone.
  { intros Hne. unfold slots. apply Forall_app. split; [|by apply Htl].
    destruct (element_type d); [|done]. by apply Forall_replicate. }
  assert (linear d2 = set_slots (linear d) slots) as Hlin.
  { change slots with ([] ++ slots). rewrite <-Hsl2. unfold linear. by rewrite Hs2. }
  destruct (Z.eqb_spec (st_size d) 0) as [H0|H0].
  - assert (xs = []) as -> by (destruct xs; [done|unfold alen in *; simpl in *; lia]).
    assert (slots = st_slots (linear d)) as Es by (unfold slots; rewrite Hsl; by destruct (is_null (element_type d))).
    assert (linear d2 = linear d) as Hl2 by (rewrite Hlin, Es; by destruct d as [[]]).
    do 2 eexists. split; [done|]. split.
    + split; [rewrite Hl2; apply Hd|done|]. rewrite Hs2. apply Hd.
    + rewrite Hl2. change (alen []) with 0 in Ho. split; [apply Hd|done|lia| |done].
      exists []. split; [done|]. split; [by left|]. cbn [is_null]. change (alen []) with 0. lia.
  - do 2 eexists. split; [done|].
    apply (deque_post_reset _ _ _ _ _ _ _ (MkDeque (bump (set_size d2 0)) (head d2))); [|done].
    eapply (deque_post_stored d xs w _ _ d [] slots slots) with (n := 0); try done; [lia| | |].
    + cbn [is_null]. change (alen []) with 0. lia.
    + by rewrite <-Hlin.
    + by apply (ring_ok_same d2).
Qed.

Lemma deque_reserve_post d xs n w :
  deque_ok d → holds (linear d) xs → 0 <= n →
  ∃ st d' w', deque_reserve (Some d) n w = Some ((st, Some d'), w') ∧
    deque_post d xs w (ends_exec (element_limit d) (DReserve n) xs) True st None d' w' ∧
    (st = STL_OK → n <= st_capacity d').
Proof.
  intros Hd Hh Hn. unfold deque_reserve.
  destruct (deque_grow_cases d xs n w Hd Hh Hn) as (st & ch & d1 & w1 & E & [[Gok Gh Gp _ Go Gb Gf Gr Ge] Hd1]).
  wstep E. cbv zeta. wrun.
  assert (element_limit d < n → st = STL_CAPACITY_EXCEEDED) as Hlim.
  { intros Hlim. clear -E Hlim Hd. unfold deque_grow_to in E. rewrite deque_valid_ok in E by done. cbn [negb] in E.
    pose proof (so_capacity _ (do_storage d Hd)) as Hc. cbn in Hc. rewrite (proj2 (Z.leb_gt _ _)) in E by lia.
    unfold deque_next_capacity, next_capacity in E. rewrite (proj2 (Z.ltb_lt _ _) Hlim) in E.
    rewrite run_lift_bind in E. cbn beta iota in E. rewrite bool_decide_false in E by done.
    cbn [negb] in E. unfold mret, M_ret in E. by simplify_eq. }
  assert (∀ d2 : deque_t V, linear d2 = linear d1 ∨ linear d2 = bump (linear d1) → deque_ok d2 →
    deque_post d xs w (ends_exec (element_limit d) (DReserve n) xs) True st None d2 w1) as Hpost.
  { intros d2 Hl2 Hd2. split; [done|]. cbn [ends_exec].
    assert (holds (linear d2) xs ∧ same_params (linear d) (linear d2) ∧ blocks_of (linear d2) = blocks_of (linear d1))
      as (Hh2 & Hp2 & Hb2) by (by destruct Hl2 as [->| ->]).
    split; [apply Hd2|done|lia| |].
    - exists xs. split; [done|]. split; [|simpl; lia].
      destruct (Z.ltb_spec (element_limit d) n) as [Hl|Hl]; [left; by rewrite (Hlim Hl)|].
      destruct (decide (st = STL_OK)) as [->|Hne]; [by left|by right].
    - intros Hr Hl Hm _. destruct (Z.ltb_spec (element_limit d) n) as [Hb'|Hb']; [by rewrite (Hlim Hb')|].
      by apply (Ge 1%nat). }
  do 3 eexists. split; [done|]. destruct (bool_decide (st = STL_OK) && ch).
  - split; [|done]. apply Hpost; [by right|]. destruct Hd1 as [H1 H2 H3].
    split; [by apply ok_bump in H1|by apply (ring_ok_same d1)|done].
  - split; [|done]. apply Hpost; [by left|done].
Qed.

Lemma deque_set_post d xs i x w :
  deque_ok d → holds (linear d) xs → 0 <= i →
  ∃ st d' w', deque_set (Some d) i (Some x) w = Some ((st, Some d'), w') ∧
    deque_post d xs w (ends_exec (element_limit d) (DSet i x) xs) (copyable (element_type d) x) st None d' w'.
Proof.
  intros Hd Hh Hi0. destruct (Hh) as (Hsize & tl & Hsl & Htl). change (st_size (linear d)) with (st_size d) in Hsize.
  cbn [ends_exec]. unfold deque_set. rewrite deque_valid_ok by done. cbn [negb orb]. rewrite <-Hsize.
  destruct (Z.leb_spec (st_size d) i) as [H0|H0].
  { do 3 eexists. split; [done|]. by apply deque_post_refused. }
  pose proof (do_storage d Hd) as Hs. pose proof (so_size _ Hs) as Hsz. pose proof (so_capacity _ Hs) as Hcap.
  cbn in Hsz, Hcap.
  destruct (prepare_cases (linear d) x w Hs) as (st & p & c & w1 & E & Hres & Hen).
  change (prepare_copy (linear d) (Some x)) with (deque_prepare_copy d (Some x)) in E. wstep E.
  case_bool_decide as Hst; cbn [negb]; last first.
  { destruct Hres as [-> [Hb Ho]]. do 3 eexists. split; [done|]. split; [done|]. apply post_failed; try done; [lia|].
    intros Hr _ Hm Hc. destruct (Hen 1%nat) as [? _]; try done. cbn. lia. }
  destruct Hres as ([a ->] & -> & Hb1 & Ho1). cbn in Ho1.
  destruct (split_at xs i) as (l & y & r & Exs & Hl & _ & Hlt & Hrt); [lia|].
  rewrite Exs, map_app, <-app_assoc in Hsl. cbn [map app] in Hsl.
  destruct (slot_view d (map Some l) (Some y) (map Some r ++ tl) i) as (q & Eq & Eget & Hput);
    [apply Hd|done|rewrite alen_map; done|].
  rewrite Eq. wrun. rewrite Eget. wrun.
  destruct (destroy_ok (element_type d) (so_type _ Hs) y w1) as (w2 & E2 & _ & Hb2 & Ho2). wstep E2. wrun.
  rewrite bool_decide_true by done. rewrite (run_bind _ _ w2 (STL_OK, Some x) w2); last first.
  { wstep (place_ok d (if is_null (element_type d) then Some y else None) x w2 Hd). done. }
  destruct (Hput (Some x)) as (d2 & Ed & Hlin & Hr2 & Hh2 & Hs2). rewrite Ed. wrun. cbv zeta.
  wstep (free_run a w2). rewrite bool_decide_true by done. cbn [negb]. wrun. do 3 eexists. split; [done|].
  assert (<[Z.to_nat i:=x]> xs = l ++ x :: r) as Eys.
  { rewrite Exs at 1. rewrite insert_app_r_alt by (unfold alen in *; lia).
    by replace (Z.to_nat i - length l)%nat with 0%nat by (unfold alen in *; lia). }
  assert (alen (l ++ x :: r) = alen xs) as Hly by (rewrite Exs, !alen_app; unfold alen; simpl; lia).
  eapply (deque_post_stored d xs w _ _ d (l ++ x :: r) (map Some l ++ Some x :: map Some r ++ tl) tl)
    with (n := st_size d); try done.
  - by rewrite Eys.
  - simpl. lia.
  - cbn [is_null w_objects]. rewrite Hly. cbn. lia.
  - by rewrite map_app, <-app_assoc.
  - lia.
  - by rewrite <-Hlin; unfold linear; rewrite Hs2.
  - by apply (ring_ok_same d2).
Qed.

(** What the readers of a deque show. *)
Lemma deque_shows d xs :
  deque_ok d → holds (linear d) xs →
  deque_size (Some d) = alen xs ∧ deque_empty (Some d) = bool_decide (xs = []) ∧
  deque_front (Some d) = Some <$> List.hd_error xs ∧ deque_back (Some d) = Some <$> last xs ∧
  ∀ i, 0 <= i → deque_at (Some d) i = Some <$> xs !! Z.to_nat i.
Proof.
  intros Hd Hh. destruct (Hh) as (Hsize & tl & Hsl & Htl). change (st_size (linear d)) with (st_size d) in Hsize.
  unfold deque_front, deque_back, deque_at, deque_empty, deque_size. rewrite deque_valid_ok by done. cbn [andb].
  pose proof (do_ring d Hd) as Hr.
  assert (∀ i x, 0 <= i → xs !! Z.to_nat i = Some x → deque_at_slot d i = Some (Some x)) as Hat.
  { intros i x Hi Hx. pose proof (lookup_lt_Some _ _ _ Hx).
    destruct (split_at xs i) as (a & y & b & Exs & Ha & Hy & _); [unfold alen; lia|].
    assert (y = x) as -> by congruence. rewrite Exs, map_app, <-app_assoc in Hsl. cbn [map app] in Hsl.
    destruct (slot_view d (map Some a) (Some x) (map Some b ++ tl) i) as (q & Eq & Eget & _);
      [done|done|by rewrite alen_map|]. unfold deque_at_slot. by rewrite Eq. }
  split_and!; [done|rewrite Hsize; by destruct xs|..].
  - destruct xs as [|x xs]; [rewrite Hsize; done|].
    destruct (slot_view d [] (Some x) (map Some xs ++ tl) 0) as (q & Eq & Eget & _); [done..|].
    pose proof (linear_bound d [] _ _ Hr Hsl) as Hc. change (alen []) with 0 in Hc.
    destruct Hr as [_ Hh0 Hin Hf]. unfold INT64_MAX in Hf.
    unfold deque_physical in Eq. rewrite (proj2 (Z.eqb_neq _ _)) in Eq by lia. injection Eq as Eq.
    rewrite Z.add_0_r, u64_id, Z.mod_small in Eq by (unfold_words; lia). subst q.
    rewrite (proj2 (Z.eqb_neq _ _)) by (rewrite Hsize; unfold alen; simpl; lia). exact Eget.
  - destruct (last xs) as [x|] eqn:Elast.
    + rewrite last_lookup in Elast. pose proof (lookup_lt_Some _ _ _ Elast).
      rewrite (proj2 (Z.eqb_neq _ _)) by (rewrite Hsize; unfold alen; lia). cbn [negb].
      apply Hat; [unfold alen in *; lia|]. replace (Z.to_nat (st_size d - 1)) with (pred (length xs)) by (unfold alen in *; lia). done.
    + apply last_None in Elast as ->. by rewrite Hsize.
  - intros i Hi. destruct (xs !! Z.to_nat i) as [x|] eqn:Ex.
    + pose proof (lookup_lt_Some _ _ _ Ex). rewrite (proj2 (Z.ltb_lt _ _)) by (unfold alen in *; lia). by apply Hat.
    + apply lookup_ge_None in Ex. rewrite (proj2 (Z.ltb_ge _ _)) by (unfold alen in *; lia). done.
Qed.

(** C2. Every operation of a deque refines the same operation on a list that is
    used at both ends, wherever the elements lie in the circular buffer and
    however often they have wrapped around it: same status, same element
    handed out, same elements left; a call that cannot have memory fails and
    leaves the elements as they were; blocks and objects are accounted for.
    The readers show that list: its size, its two ends and each index. *)
Theorem deque_refines d xs op w :
  deque_ok d → holds (linear d) xs → deque_op_ok op →
  (deque_size (Some d) = alen xs ∧ deque_empty (Some d) = bool_decide (xs = []) ∧
   deque_front (Some d) = Some <$> List.hd_error xs ∧ deque_back (Some d) = Some <$> last xs ∧
   ∀ i, 0 <= i → deque_at (Some d) i = Some <$> xs !! Z.to_nat i) ∧
  ∃ st out d' w', deque_exec op d w = Some ((st, out, Some d'), w') ∧
    deque_post d xs w (ends_exec (element_limit d) op xs) (deque_op_copyable (element_type d) op) st out d' w'.
Proof.
  intros Hd Hh Hop. split; [by apply deque_shows|].
  destruct op; cbn [deque_op_ok] in Hop; unfold is_u64 in Hop; cbn [deque_exec deque_op_copyable]; cbv zeta.
  - destruct (deque_push_back_post d xs x w Hd Hh) as (st & d' & w' & E & Hp). wstep E. by do 4 eexists.
  - destruct (deque_push_front_post d xs x w Hd Hh) as (st & d' & w' & E & Hp). wstep E. by do 4 eexists.
  - by apply deque_pop_back_post.
  - by apply deque_pop_front_post.
  - destruct (deque_set_post d xs index x w Hd Hh) as (st & d' & w' & E & Hp); [lia|]. wstep E. by do 4 eexists.
  - destruct (deque_reserve_post d xs n w Hd Hh) as (st & d' & w' & E & Hp & _); [lia|]. wstep E. by do 4 eexists.
  - destruct (deque_clear_post d xs w Hd Hh) as (d' & w' & E & Hp). wstep E. by do 4 eexists.
Qed.

(** ** Creation and destruction *)

Lemma deque_initialize_vec d type size align limit :
  deque_initialize (Some d) type size align limit =
  match vec_initialize (Some (dq_storage d)) type size align limit with
  | (STL_OK, Some v) => (STL_OK, Some (MkDeque v 0))
  | (status, _) => (status, Some d)
  end.
Proof.
  unfold deque_initialize, vec_initialize. destruct (initialized d); [done|].
  unfold sequence_stride. by repeat case_match; simplify_eq.
Qed.

Lemma deque_destroy_ok d xs w :
  deque_ok d → holds (linear d) xs →
  ∃ g w', deque_raw_destroy_storage (Some d) w = Some (Some (MkDeque (storage_zero g) 0), w') ∧
    w_blocks w' = w_blocks w - blocks_of d ∧
    w_objects w' = w_objects w - owned (element_type d) * alen xs.
Proof.
  intros Hd Hh. unfold deque_raw_destroy_storage. rewrite (so_init _ (do_storage d Hd) : initialized d = true).
  destruct (deque_clear_post d xs w Hd Hh) as (d' & w1 & E & [_ Hp]). wstep E. wrun. cbv zeta.
  destruct Hp as [_ _ Hb (ys & _ & Hstep & Ho) _].
  destruct (deallocate_run (st_data d') w1) as (w2 & E2 & _ & Ho2 & Hb2). wstep E2. wrun.
  do 2 eexists. split; [done|].
  assert (ys = []) as -> by (destruct Hstep as [[= ->]|(_ & Hne & _)]; done).
  unfold blocks_of in *. cbn [is_null] in Ho. change (alen (@nil V)) with 0 in Ho. cbn in *. lia.
Qed.

Lemma deque_push_all_ok l d xs w :
  deque_ok d → holds (linear d) xs → alen (xs ++ l) <= element_limit d →
  ∃ st d' w', deque_push_all l (Some d) w = Some ((st, Some d'), w') ∧
    if bool_decide (st = STL_OK) then
      deque_ok d' ∧ holds (linear d') (xs ++ l) ∧ element_type d' = element_type d ∧
      w_blocks w' - blocks_of d' = w_blocks w - blocks_of d ∧
      w_objects w' - owned (element_type d) * alen (xs ++ l) = w_objects w - owned (element_type d) * alen xs
    else w_blocks w' = w_blocks w - blocks_of d ∧
      w_objects w' = w_objects w - owned (element_type d) * alen xs.
Proof.
  revert d xs w. induction l as [|x l IH]; intros d xs w Hd Hh Hl; cbn [deque_push_all].
  { do 3 eexists. split; [done|]. rewrite app_nil_r. by rewrite bool_decide_true. }
  destruct (deque_push_back_post d xs x w Hd Hh) as (st & d1 & w1 & E & [Hd1 Hp]). wstep E.
  destruct Hp as [_ Hpar Hb (ys & Hys & Hstep & Ho) _]. cbn [is_null] in Ho.
  pose proof Hpar as (_ & _ & _ & Hlim & Hty & _). cbn in Hlim, Hty. cbn [ends_exec] in Hstep.
  change (blocks_of (linear ?e)) with (blocks_of e) in Hb. cbn in Ho.
  rewrite alen_app in Hl. assert (alen (x :: l) = alen l + 1) as Hxl by (unfold alen; simpl; lia).
  pose proof (alen_nonneg l). rewrite (proj2 (Z.leb_gt _ _)) in Hstep by lia.
  case_bool_decide as Hst; cbn [negb].
  - destruct Hstep as [[= Hst' ->]|(_ & Hne & _)]; [|done].
    destruct (IH d1 (xs ++ [x]) w1) as (st2 & d2 & w2 & E2 & Hres); [done|done| |].
    { rewrite !alen_app, Hlim. change (alen [x]) with 1. lia. }
    exists st2, d2, w2. split; [done|]. rewrite <-app_assoc in Hres. cbn [app] in Hres. rewrite Hty in Hres.
    case_bool_decide; [|lia]. destruct Hres as (? & ? & ? & ? & ?). split_and!; try done; lia.
  - destruct Hstep as [[= Hst' _]|(_ & _ & _ & ->)]; [done|].
    destruct (deque_destroy_ok d1 xs w1 Hd1 Hys) as (g & w2 & E2 & Hb2 & Ho2). wstep E2. wrun.
    do 3 eexists. split; [done|]. rewrite bool_decide_false by done. rewrite Hty in Ho2. lia.
Qed.

(** Building a deque from an array is all or nothing: on success it holds
    exactly the array's elements in order and owns one block and their copies,
    and destroying it gives everything back; otherwise the handle is as it was
    and nothing stays allocated. *)
Theorem deque_from_array_exact d type limit l w :
  initialized d = false → type_ok (Some type) → is_u64 (ty_size type) → is_u64 (ty_align type) →
  0 <= limit <= INT64_MAX →
  ∃ st d' w', deque_raw_from_array (Some d) (Some l) (alen l) (Some type) limit w =
      Some ((st, Some d'), w') ∧
    (alen l > limit → st = STL_CAPACITY_EXCEEDED) ∧
    if bool_decide (st = STL_OK) then
      deque_ok d' ∧ holds (linear d') l ∧ w_blocks w' = w_blocks w + blocks_of d' ∧
      w_objects w' = w_objects w + alen l ∧
      ∃ g w'', deque_raw_destroy_storage (Some d') w' = Some (Some (MkDeque (storage_zero g) 0), w'') ∧ w_same w w''
    else d' = d ∧ w_same w w'.
Proof.
  intros Hi Hty Hsz Hal Hlim. unfold deque_raw_from_array, deque_from_array. rewrite Hi. cbn [is_null].
  rewrite andb_false_r. cbn [orb]. destruct (Z.ltb_spec limit (alen l)) as [Hbig|Hfit].
  { do 3 eexists. split; [done|]. split; [done|]. by rewrite bool_decide_false. }
  unfold deque_raw_init. cbn [initialized storage_zero dq_storage]. rewrite deque_initialize_vec. cbn [dq_storage].
  destruct (sequence_require_type (Some type) false) eqn:Hreq;
    try (rewrite bool_decide_false by done; do 3 eexists; split; [done|]; split; [lia|]; by rewrite bool_decide_false).
  destruct (vec_initialize _ _ _ _ _) as [st [v0|]] eqn:Einit; last first.
  { unfold vec_initialize in Einit. cbn [initialized storage_zero] in Einit.
    destruct (sequence_stride _ _) as [[] [?|]]; done. }
  apply vec_initialize_ok in Einit as Hinit; try done; [|unfold INT64_MAX in Hlim; unfold_words; lia].
  case_bool_decide as Hst; last first.
  { destruct st; try done; cbn beta iota; rewrite bool_decide_false by done;
      (do 3 eexists; split; [done|]; split; [lia|]; by rewrite bool_decide_false). }
  subst st. cbn beta iota. rewrite bool_decide_true by done. cbn [negb].
  destruct Hinit as (Hs0 & Hh0 & Hd0 & Hl0 & Ht0). set (d0 := MkDeque v0 0).
  assert (linear d0 = v0) as Elin0.
  { unfold linear. cbn [d0 head dq_storage]. rewrite rotate_zero. by destruct v0. }
  assert (deque_ok d0 ∧ holds (linear d0) []) as [Hok0 Hhold0].
  { rewrite Elin0. split; [|done]. pose proof (so_size _ Hs0). pose proof (so_capacity _ Hs0).
    split; [by rewrite Elin0| |cbn; lia]. split; cbn; [apply Hs0|lia|by right|lia]. }
  assert ((if alen l =? 0 then Some [] else l0 ← Some l; if alen l0 <? alen l then None
           else Some (take (Z.to_nat (alen l)) l0)) = Some l) as ->.
  { destruct (Z.eqb_spec (alen l) 0) as [H0|H0]; [destruct l; [done|unfold alen in H0; simpl in H0; lia]|].
    cbn [mbind option_bind]. rewrite Z.ltb_irrefl. unfold alen. by rewrite Nat2Z.id, firstn_all. }
  wrun. destruct (deque_push_all_ok l d0 [] w Hok0 Hhold0) as (st2 & d2 & w2 & E2 & Hres); [cbn; lia|].
  wstep E2. cbn [app] in Hres. unfold blocks_of in Hres at 2 3. cbn [d0 dq_storage] in Hres.
  rewrite Hd0, Ht0 in Hres. cbn [is_null] in Hres.
  change (owned (Some type)) with 1 in Hres. change (alen (@nil V)) with 0 in Hres.
  case_bool_decide as Hst2; cbn [negb].
  - destruct Hres as (Hok2 & Hh2 & Ht2 & Hb2 & Ho2). wrun. cbv zeta. do 3 eexists. split; [done|]. split; [lia|].
    rewrite bool_decide_true by done. set (d3 := MkDeque (MkStorage _ _ _ _ _ _ _ _ _ _ _) _).
    assert (deque_ok d3) as Hok3.
    { destruct Hok2 as [Hs2 Hr2 Hl2]. split; [by destruct Hs2|by destruct Hr2|done]. }
    assert (element_type d3 = Some type) as Ht3 by exact Ht2.
    destruct (deque_destroy_ok d3 l w2 Hok3 Hh2) as (g & w4 & E4 & Hb4 & Ho4).
    rewrite Ht3 in Ho4. change (owned (Some type)) with 1 in Ho4.
    change (blocks_of d3) with (blocks_of d2) in *.
    split_and!; try done; [lia|lia|]. exists g, w4. split; [done|]. split; lia.
  - wrun. do 3 eexists. split; [done|]. split; [lia|]. rewrite bool_decide_false by done.
    split; [done|]. split; lia.
Qed.
End DequeRefinement.


(** ** Instances *)

(** Three elements that wrap around the end of a buffer of four. *)
Definition deque_of_three : deque_t Z :=
  MkDeque (MkStorage (Some 4096) [Some 9; None; Some 7; Some 8] 3 4 4 4 4 100 (Some int_type) 2 true) 2.

Lemma deque_of_three_ok : deque_ok deque_of_three ∧ holds (linear deque_of_three) [7; 8; 9].
Proof.
  split.
  - split; [|split; try done; by left|done].
    split; try done; try (simpl; unfold_words; lia). exact int_type_ok.
  - split; [done|]. exists [None]. split; [done|]. intros _. by_eval.
Qed.

Lemma deque_refines_witness :
  deque_front (Some deque_of_three) = Some (Some 7) ∧ deque_at (Some deque_of_three) 2 = Some (Some 9) ∧
  ∃ st out d' w', deque_exec (DPushFront 5) deque_of_three (MkWorld [Some 8192] 1 3) = Some ((st, out, Some d'), w').
Proof.
  destruct (deque_refines deque_of_three [7; 8; 9] (DPushFront 5) (MkWorld [Some 8192] 1 3))
    as [(_ & _ & Hf & _ & Hat) (st & out & d' & w' & E & _)].
  - apply deque_of_three_ok.
  - apply deque_of_three_ok.
  - by_eval.
  - split; [exact Hf|]. split; [exact (Hat 2 ltac:(lia))|]. exists st, out, d', w'. exact E.
Defined.

Lemma deque_from_array_exact_witness :
  ∃ st d' w', deque_raw_from_array (Some (MkDeque (storage_zero 0) 0)) (Some [1; 2]) 2 (Some int_type) 10
    (MkWorld [Some 4096; Some 8192; Some 4096] 0 0) = Some ((st, Some d'), w').
Proof.
  destruct (deque_from_array_exact (MkDeque (storage_zero 0) 0) int_type 10 [1; 2]
    (MkWorld [Some 4096; Some 8192; Some 4096] 0 0)) as (st & d' & w' & E & _).
  - reflexivity.
  - exact int_type_ok.
  - by_eval.
  - by_eval.
  - unfold INT64_MAX. lia.
  - exists st, d', w'. exact E.
Defined.
