(* ===== verification/StlHeap.v ===== *)
(** * Binary heaps ([cstl/src/heap.c])

    Every operation over the storage of [Sequence]; the sifting loops are
    instances of those of [BinHeap]. A heap refines a multiset whose least
    element is handed out, and popping until empty sorts. *)

From S2P Require Import Prelude BinHeap World Sequence Vec.
Local Open Scope Z_scope.

Section Heap.
Context {V : Type}.

(** [compare] is called with the context it was registered with. *)
Record heap_t := MkHeap { hp_store : storage V; hp_compare : option (V → V → Z) }.

Implicit Types (heap : option heap_t) (h : heap_t) (elem : option V).

Definition with_store h (s : storage V) : heap_t := MkHeap s (hp_compare h).

Definition heap_valid heap : bool :=
  match heap with
  | None => false
  | Some h => initialized (hp_store h) && negb (elem_size (hp_store h) =? 0) &&
              (negb (is_null (element_type (hp_store h))) || negb (is_null (hp_compare h)))
  end.

(** The value in a slot; reading one that holds none is undefined. *)
Definition heap_slot_const h (index : Z) : option V :=
  x ← aget (st_slots (hp_store h)) index; x.

Definition heap_compare_fn h : option (V → V → Z) :=
  match element_type (hp_store h) with
  | Some t => tr ← ty_traits t; tr_compare tr
  | None => hp_compare h
  end.

Definition heap_compare_values h (left right : Z) : option Z :=
  a ← heap_slot_const h left;
  b ← heap_slot_const h right;
  compare ← heap_compare_fn h;
  Some (compare a b).

Definition heap_less h (left right : Z) : option bool :=
  c ← heap_compare_values h left right; Some (c <? 0).

Definition heap_next_capacity h (minimum : Z) : option (stl_status * Z) :=
  next_capacity (hp_store h) minimum.

Definition heap_grow_to h (minimum : Z) : M (stl_status * bool * heap_t) :=
  '(status, changed, s) ← grow_to (heap_valid (Some h)) (hp_store h) minimum;
  mret (status, changed, with_store h s).

Definition heap_prepare_copy h elem : M (stl_status * option Z * slot V) :=
  prepare_copy (hp_store h) elem.

Definition heap_discard_prepared h (value : option Z) (x : slot V) : M unit :=
  discard_prepared (hp_store h) value x.

(** [scratch] holds no value before and after. *)
Definition heap_swap h (left right : Z) : M heap_t :=
  if left =? right then mret h else
  let type := element_type (hp_store h) in
  let slots := st_slots (hp_store h) in
  l ← lift (aget slots left);
  '(_, scratch, l) ← sequence_move_destroy type (Some None) (Some l);
  l ← lift l; slots ← lift (aset slots left l);
  r ← lift (aget slots right);
  '(_, l, r) ← sequence_move_destroy type (Some l) (Some r);
  l ← lift l; r ← lift r;
  slots ← lift (aset slots left l); slots ← lift (aset slots right r);
  '(_, r, _) ← sequence_move_destroy type (Some r) scratch;
  r ← lift r; slots ← lift (aset slots right r);
  mret (with_store h (set_slots (hp_store h) slots)).

Fixpoint heap_sift_up_loop (fuel : nat) h (index : Z) : M heap_t :=
  match fuel with
  | O => lift None
  | S fuel =>
      if index =? 0 then mret h else
      let parent := (index - 1) / 2 in
      less ← lift (heap_less h index parent);
      if negb less then mret h else
      h ← heap_swap h index parent;
      heap_sift_up_loop fuel h parent
  end.

(** The index only decreases. *)
Definition heap_sift_up h (index : Z) : M heap_t := heap_sift_up_loop (S (Z.to_nat index)) h index.

Fixpoint heap_sift_down_loop (fuel : nat) h (index : Z) : M heap_t :=
  match fuel with
  | O => lift None
  | S fuel =>
      if (SIZE_MAX - 1) / 2 <? index then mret h else
      let left := index * 2 + 1 in
      let right := left + 1 in
      let size := st_size (hp_store h) in
      best ← lift (if left <? size then b ← heap_less h left index;
                                        Some (if b : bool then left else index)
                   else Some index);
      best ← lift (if right <? size then b ← heap_less h right best;
                                         Some (if b : bool then right else best)
                   else Some best);
      if best =? index then mret h else
      h ← heap_swap h index best;
      heap_sift_down_loop fuel h best
  end.

(** The index increases below the size. *)
Definition heap_sift_down h (index : Z) : M heap_t :=
  heap_sift_down_loop (Z.to_nat (st_size (hp_store h) - index)) h index.

Definition heap_initialize heap (type : option (cmeta_type_desc V)) (size align limit : Z)
    (compare : option (V → V → Z)) : stl_status * option heap_t :=
  match heap with
  | None => (STL_INVALID_ARGUMENT, heap)
  | Some h =>
      if is_null type && is_null compare then (STL_INVALID_ARGUMENT, heap) else
      if initialized (hp_store h) then (STL_INVALID_ARGUMENT, heap) else
      match sequence_stride size align with
      | (STL_OK, Some stride) =>
          (STL_OK, Some (MkHeap (MkStorage None [] 0 0 size stride align limit type
                           (u64 (generation (hp_store h) + 1)) true) compare))
      | (status, _) => (status, heap)
      end
  end.

Definition heap_init_bytes heap (size align limit : Z) (compare : option (V → V → Z)) :
    stl_status * option heap_t :=
  heap_initialize heap None size align limit compare.

Definition heap_raw_init heap (type : option (cmeta_type_desc V)) (limit : Z) :
    stl_status * option heap_t :=
  match heap with
  | None => (STL_INVALID_ARGUMENT, heap)
  | Some h =>
      if initialized (hp_store h) then (STL_INVALID_ARGUMENT, heap) else
      match sequence_require_type type true, type with
      | STL_OK, Some t => heap_initialize heap type (ty_size t) (ty_align t) limit None
      | status, _ => (status, heap)
      end
  end.

Definition heap_clear heap : M (stl_status * option heap_t) :=
  match heap with
  | Some h =>
      if negb (heap_valid heap) then mret (STL_INVALID_ARGUMENT, heap) else
      let s := hp_store h in
      '(status, slots) ← destroy_range (element_type s) (Z.to_nat (st_size s)) 0 (st_slots s);
      let s := set_slots s slots in
      if negb (bool_decide (status = STL_OK)) then mret (status, Some (with_store h s)) else
      mret (STL_OK, Some (with_store h (if st_size s =? 0 then s else bump (set_size s 0))))
  | None => mret (STL_INVALID_ARGUMENT, heap)
  end.

Definition heap_raw_destroy_storage heap : M (option heap_t) :=
  match heap with
  | None => mret None
  | Some h =>
      if initialized (hp_store h) then
        '(_, heap) ← heap_clear heap;
        h ← lift heap;
        let gen := u64 (generation (hp_store h) + 1) in
        _ ← sequence_deallocate (st_data (hp_store h));
        mret (Some (MkHeap (storage_zero gen) None))
      else mret (Some (MkHeap (storage_zero (generation (hp_store h))) None))
  end.

Definition heap_reserve heap (min_capacity : Z) : M (stl_status * option heap_t) :=
  match heap with
  | None => mret (STL_INVALID_ARGUMENT, heap)
  | Some h =>
      '(status, changed, h) ← heap_grow_to h min_capacity;
      mret (status, Some (if bool_decide (status = STL_OK) && (changed : bool)
                          then with_store h (bump (hp_store h)) else h))
  end.

Definition heap_push heap elem : M (stl_status * option heap_t) :=
  match heap, elem with
  | Some h, Some _ =>
      if negb (heap_valid heap) then mret (STL_INVALID_ARGUMENT, heap) else
      if element_limit (hp_store h) <=? st_size (hp_store h) then mret (STL_CAPACITY_EXCEEDED, heap) else
      '(status, prepared, x) ← heap_prepare_copy h elem;
      if negb (bool_decide (status = STL_OK)) then mret (status, heap) else
      '(status, scratch) ← sequence_allocate 1 (elem_stride (hp_store h)) (elem_align (hp_store h));
      if negb (bool_decide (status = STL_OK))
      then _ ← heap_discard_prepared h prepared x; mret (status, heap) else
      '(status, _, h) ← heap_grow_to h (u64 (st_size (hp_store h) + 1));
      if negb (bool_decide (status = STL_OK))
      then _ ← sequence_deallocate scratch; _ ← heap_discard_prepared h prepared x;
           mret (status, Some h) else
      let s := hp_store h in
      dst ← lift (aget (st_slots s) (st_size s));
      '(status, dst, _) ← sequence_move_destroy (element_type s) (Some dst) (Some x);
      _ ← sequence_deallocate prepared;
      if negb (bool_decide (status = STL_OK))
      then _ ← sequence_deallocate scratch; mret (status, Some h) else
      dst ← lift dst;
      slots ← lift (aset (st_slots s) (st_size s) dst);
      let s := set_size (set_slots s slots) (u64 (st_size s + 1)) in
      h ← heap_sift_up (with_store h s) (st_size s - 1);
      _ ← sequence_deallocate scratch;
      mret (STL_OK, Some (with_store h (bump (hp_store h))))
  | _, _ => mret (STL_INVALID_ARGUMENT, heap)
  end.

Definition heap_pop heap (out : bool) : M (stl_status * option V * option heap_t) :=
  match heap with
  | None => mret (STL_INVALID_ARGUMENT, None, heap)
  | Some h =>
      if negb (heap_valid heap) then mret (STL_INVALID_ARGUMENT, None, heap) else
      let s := hp_store h in
      if st_size s =? 0 then mret (STL_EMPTY, None, heap) else
      '(status, scratch) ← (if 1 <? st_size s
                            then sequence_allocate 1 (elem_stride s) (elem_align s)
                            else mret (STL_OK, None));
      if negb (bool_decide (status = STL_OK)) then mret (status, None, heap) else
      x ← lift (aget (st_slots s) 0);
      '(status, r, x) ← take_out (element_type s) out x;
      if negb (bool_decide (status = STL_OK))
      then _ ← sequence_deallocate scratch; mret (status, None, heap) else
      slots ← lift (aset (st_slots s) 0 x);
      let last := st_size s - 1 in
      slots ← (if last =? 0 then mret slots else slot_move (element_type s) slots 0 last);
      let s := set_size (set_slots s slots) last in
      h ← (if last =? 0 then mret (with_store h s) else heap_sift_down (with_store h s) 0);
      _ ← sequence_deallocate scratch;
      mret (STL_OK, r, Some (with_store h (bump (hp_store h))))
  end.

Fixpoint heap_push_all (elements : list V) heap : M (stl_status * option heap_t) :=
  match elements with
  | [] => mret (STL_OK, heap)
  | x :: elements =>
      '(status, heap) ← heap_push heap (Some x);
      if negb (bool_decide (status = STL_OK))
      then heap ← heap_raw_destroy_storage heap; mret (status, heap)
      else heap_push_all elements heap
  end.

(** From the checks on: [init] is the result of initialising the temporary. *)
Definition heap_from_array heap (elements : option (list V)) (count limit : Z)
    (init : stl_status * option heap_t) : M (stl_status * option heap_t) :=
  match heap with
  | None => mret (STL_INVALID_ARGUMENT, heap)
  | Some h =>
      if initialized (hp_store h) then mret (STL_INVALID_ARGUMENT, heap) else
      if (negb (count =? 0) && is_null elements) || (limit <? count) then
        mret (if limit <? count then STL_CAPACITY_EXCEEDED else STL_INVALID_ARGUMENT, heap)
      else
      let '(status, temporary) := init in
      if negb (bool_decide (status = STL_OK)) then mret (status, heap) else
      xs ← lift (if count =? 0 then Some [] else
                 l ← elements; if alen l <? count then None else Some (take (Z.to_nat count) l));
      '(status, temporary) ← heap_push_all xs temporary;
      if negb (bool_decide (status = STL_OK)) then mret (status, heap) else
      t ← lift temporary;
      let s := hp_store t in
      mret (STL_OK, Some (with_store t (MkStorage (st_data s) (st_slots s) (st_size s) (st_capacity s)
        (elem_size s) (elem_stride s) (elem_align s) (element_limit s) (element_type s)
        (u64 (generation (hp_store h) + 1)) (initialized s))))
  end.

Definition heap_zero : heap_t := MkHeap (storage_zero 0) None.

Definition heap_from_array_bytes heap (elements : option (list V)) (count size align limit : Z)
    (compare : option (V → V → Z)) : M (stl_status * option heap_t) :=
  heap_from_array heap elements count limit (heap_init_bytes (Some heap_zero) size align limit compare).

Definition heap_raw_from_array heap (elements : option (list V)) (count : Z)
    (type : option (cmeta_type_desc V)) (limit : Z) : M (stl_status * option heap_t) :=
  heap_from_array heap elements count limit (heap_raw_init (Some heap_zero) type limit).

(** What the client finds at the pointer, [None] for [NULL]. *)
Definition heap_peek heap : option (slot V) :=
  match heap with
  | None => None
  | Some h => if heap_valid heap && negb (st_size (hp_store h) =? 0)
              then aget (st_slots (hp_store h)) 0 else None
  end.

Definition heap_size heap : Z :=
  match heap with None => 0 | Some h => if heap_valid heap then st_size (hp_store h) else 0 end.

Definition heap_capacity heap : Z :=
  match heap with None => 0 | Some h => if heap_valid heap then st_capacity (hp_store h) else 0 end.

Definition heap_generation heap : Z :=
  match heap with None => 0 | Some h => generation (hp_store h) end.

Definition heap_empty heap : bool := heap_size heap =? 0.
End Heap.
#[global] Arguments heap_t : clear implicits.

(** ** The loops as instances of the generic ones *)

Section Sifting.
Context {V : Type}.
Implicit Types (h : heap_t V) (xs : list V).

#[local] Instance stl_heap_ops : HeapOps (heap_t V * world) := {
  hless s i j := heap_less s.1 i j;
  hswap s i j := heap_swap s.1 i j s.2
}.

Lemma heap_swap_size h i j w h' w' :
  heap_swap h i j w = Some (h', w') → st_size (hp_store h') = st_size (hp_store h).
Proof.
  unfold heap_swap. destruct (i =? j); [by intros [= <- <-]|].
  unfold mbind, M_bind, lift, mret, M_ret.
  repeat match goal with |- context [match ?x with _ => _ end] => destruct x end; try done.
  by intros [= <- <-].
Qed.

Lemma heap_sift_up_generic fuel h i w : heap_sift_up_loop fuel h i w = sift_up fuel (h, w) i.
Proof.
  revert h i w. induction fuel as [|fuel IH]; intros h i w; [done|].
  cbn [heap_sift_up_loop sift_up]. fold (parent i). destruct (i =? 0); [done|].
  cbn [hless stl_heap_ops fst]. destruct (heap_less h i (parent i)) as [[]|]; [|done..].
  wrun. cbn [negb mbind option_bind hswap stl_heap_ops fst snd].
  unfold mbind at 1, M_bind at 1. destruct (heap_swap h i (parent i) w) as [[h' w']|]; [|done]. apply IH.
Qed.

Lemma heap_sift_down_generic fuel h i w :
  st_size (hp_store h) <= SIZE_MAX →
  heap_sift_down_loop fuel h i w = sift_down fuel (h, w) (st_size (hp_store h)) i.
Proof.
  intros Hn. remember (st_size (hp_store h)) as n eqn:En.
  revert h i w En. induction fuel as [|fuel IH]; intros h i w En; [done|].
  cbn [heap_sift_down_loop sift_down]. rewrite <-En.
  destruct (Z.ltb_spec ((SIZE_MAX - 1) / 2) i) as [Hbig|Hsmall].
  { assert (earliest_child (h, w) n i = Some i) as ->; [|cbn; by rewrite Z.eqb_refl].
    assert (n <= i * 2 + 1) by (unfold_words; Z.to_euclidean_division_equations; lia).
    unfold earliest_child. rewrite (proj2 (Z.ltb_ge _ _)) by lia. cbn.
    by rewrite (proj2 (Z.ltb_ge _ _)) by lia. }
  unfold earliest_child. cbn [hless stl_heap_ops fst].
  destruct (if i * 2 + 1 <? n then _ else _) as [e|]; [|done].
  cbn [mbind option_bind]. wrun.
  destruct (if i * 2 + 1 + 1 <? n then _ else _) as [e'|]; [|done]. wrun. cbn [mbind option_bind].
  destruct (e' =? i); [done|].
  unfold mbind at 1, M_bind at 1. cbn [hswap stl_heap_ops fst snd].
  destruct (heap_swap h i e' w) as [[h' w']|] eqn:Esw; [|done]. cbn [mbind option_bind].
  apply IH. apply heap_swap_size in Esw. congruence.
Qed.

(** The elements, in an order that calls no value the least. *)
Definition opt_less (cmp : V → V → Z) (a b : option V) : bool :=
  match a, b with
  | Some x, Some y => cmp x y <? 0
  | Some _, None => true
  | None, _ => false
  end.

Class Comparison (cmp : V → V → Z) : Prop := {
  cmp_asym a b : cmp a b < 0 → 0 <= cmp b a;
  cmp_negtrans a b c : 0 <= cmp b a → 0 <= cmp c b → 0 <= cmp c a
}.

#[global] Instance opt_less_order cmp : Comparison cmp → HeapOrder (opt_less cmp).
Proof.
  intros [Ha Hn]. split; unfold opt_less.
  - intros [a|] [b|]; try done. rewrite Z.ltb_lt, Z.ltb_ge. apply Ha.
  - intros [a|] [b|] [c|]; try done. rewrite !Z.ltb_ge. apply Hn.
Qed.

(** A heap on the elements [xs], everything else as in [h0]. *)
Definition on_elements h0 (tl : list (slot V)) xs : heap_t V :=
  with_store h0 (set_slots (hp_store h0) (map Some xs ++ tl)).

Definition slots_inv h0 tl (w0 : world) (n : Z) (s : heap_t V * world) : Prop :=
  ∃ xs, alen xs = n ∧ s = (on_elements h0 tl xs, w0).

Definition slot_get (s : heap_t V * world) (i : Z) : option V := heap_slot_const s.1 i.

Lemma slot_on_elements h0 tl xs i :
  0 <= i < alen xs → heap_slot_const (on_elements h0 tl xs) i = xs !! Z.to_nat i.
Proof.
  intros Hi. unfold heap_slot_const, on_elements, with_store, aget. cbn.
  destruct (Z.ltb_spec i 0); [lia|]. unfold alen in Hi.
  rewrite lookup_app_l by (rewrite length_map; lia). rewrite list_lookup_fmap.
  by destruct (xs !! Z.to_nat i).
Qed.

Lemma insert_front xs (tl : list (slot V)) i x :
  (i < length xs)%nat → <[i := Some x]> (map Some xs ++ tl) = map Some (<[i := x]> xs) ++ tl.
Proof.
  intros Hi. rewrite insert_app_l by (rewrite length_map; lia). f_equal.
  symmetry. apply (list_fmap_insert Some).
Qed.

Lemma heap_swap_run h0 tl xs i j x y w :
  type_ok (element_type (hp_store h0)) → i ≠ j → 0 <= i → 0 <= j →
  xs !! Z.to_nat i = Some x → xs !! Z.to_nat j = Some y →
  heap_swap (on_elements h0 tl xs) i j w =
    Some (on_elements h0 tl (<[Z.to_nat j := x]> (<[Z.to_nat i := y]> xs)), w).
Proof.
  intros Hty Hij Hi Hj Hx Hy. unfold heap_swap. rewrite (proj2 (Z.eqb_neq i j) Hij).
  assert (element_type (hp_store (on_elements h0 tl xs)) = element_type (hp_store h0)) as -> by done.
  cbv zeta.
  set (type := element_type (hp_store h0)) in *. set (L := st_slots (hp_store (on_elements h0 tl xs))).
  apply lookup_lt_Some in Hx as Hix. apply lookup_lt_Some in Hy as Hjy.
  assert (∀ k, (k < length xs)%nat → L !! k = Some <$> xs !! k) as HL.
  { intros k Hk. unfold L. cbn. rewrite lookup_app_l by (rewrite length_map; lia). apply list_lookup_fmap. }
  assert (0 <= i < alen L ∧ 0 <= j < alen L) as [HiL HjL].
  { unfold L. cbn. rewrite alen_app. unfold alen. rewrite length_map. lia. }
  assert (∀ K : list (slot V), alen K = alen L → ∀ k z, 0 <= k < alen L → aset K k z = Some (<[Z.to_nat k := z]> K)) as Hset
    by (intros K HK k z Hk; apply aset_in_bounds; lia).
  assert (∀ (K : list (slot V)) k z, alen (<[k := z]> K) = alen K) as Hins by (intros; unfold alen; by rewrite length_insert).
  assert (aget L i = Some (Some x)) as ->.
  { unfold aget. rewrite (proj2 (Z.ltb_ge _ _)) by done. by rewrite HL, Hx by lia. }
  wrun. wstep (move_ok type Hty None x w). wrun. rewrite Hset by done. wrun.
  assert (∀ z, aget (<[Z.to_nat i := z]> L) j = Some (Some y)) as ->.
  { intros z. unfold aget. rewrite (proj2 (Z.ltb_ge _ _)) by done.
    rewrite list_lookup_insert_ne by lia. by rewrite HL, Hy by lia. }
  wrun. wstep (move_ok type Hty (if is_null type then Some x else None) y w). wrun.
  rewrite Hset by (rewrite ?Hins; done). wrun. rewrite Hset by (rewrite ?Hins; done). wrun.
  wstep (move_ok type Hty (if is_null type then Some y else None) x w). wrun.
  rewrite Hset by (rewrite ?Hins; done). wrun. do 2 f_equal.
  unfold on_elements, with_store. cbn [hp_compare]. f_equal.
  assert (<[Z.to_nat j := Some x]> (<[Z.to_nat j := if is_null type then Some y else None]>
    (<[Z.to_nat i := Some y]> (<[Z.to_nat i := if is_null type then Some x else None]> L))) =
    map Some (<[Z.to_nat j := x]> (<[Z.to_nat i := y]> xs)) ++ tl) as Heq.
  { rewrite !list_insert_insert_eq. unfold L. cbn [st_slots hp_store on_elements with_store set_slots].
    rewrite !insert_front by (rewrite ?length_insert; lia). done. }
  exact (f_equal (λ l, set_slots (hp_store h0) l) Heq).
Qed.

Context (cmp : V → V → Z).

#[local] Instance slots_store h0 tl w0 n :
  type_ok (element_type (hp_store h0)) → heap_compare_fn h0 = Some cmp →
  HeapStore (opt_less cmp) (slots_inv h0 tl w0 n) n slot_get.
Proof.
  intros Hty Hcmp. split.
  - intros s i j (xs & Hn & ->) Hi Hj. cbn [hless stl_heap_ops fst]. unfold heap_less, heap_compare_values, slot_get.
    cbn [fst]. rewrite !slot_on_elements by lia.
    destruct (lookup_lt_is_Some_2 xs (Z.to_nat i)) as [x Hx]; [unfold alen in *; lia|].
    destruct (lookup_lt_is_Some_2 xs (Z.to_nat j)) as [y Hy]; [unfold alen in *; lia|].
    rewrite Hx, Hy. cbn [mbind option_bind].
    change (heap_compare_fn (on_elements h0 tl xs)) with (heap_compare_fn h0). by rewrite Hcmp.
  - intros s i j (xs & Hn & ->) Hi Hj Hij. cbn [hswap stl_heap_ops fst snd].
    destruct (lookup_lt_is_Some_2 xs (Z.to_nat i)) as [x Hx]; [unfold alen in *; lia|].
    destruct (lookup_lt_is_Some_2 xs (Z.to_nat j)) as [y Hy]; [unfold alen in *; lia|].
    rewrite (heap_swap_run h0 tl xs i j x y w0) by (done || lia).
    assert (alen (<[Z.to_nat j := x]> (<[Z.to_nat i := y]> xs)) = alen xs) as Hlen
      by (unfold alen; by rewrite !length_insert).
    eexists. split; [done|]. split; [eexists; split; [|done]; lia|].
    intros k Hk. unfold slot_get. cbn [fst]. rewrite !slot_on_elements
      by (unfold transp; repeat case Z.eqb_spec; lia).
    unfold transp. unfold alen in *. destruct (Z.eqb_spec k i) as [->|Hki]; [|destruct (Z.eqb_spec k j) as [->|Hkj]].
    + by rewrite list_lookup_insert_ne, list_lookup_insert_eq by (rewrite ?length_insert; lia).
    + by rewrite list_lookup_insert_eq by (rewrite length_insert; lia).
    + by rewrite !list_lookup_insert_ne by lia.
Qed.

Context `{!Comparison cmp}.

Definition heap_sorted xs : Prop := heap_ok (opt_less cmp) (alen xs) (λ i, xs !! Z.to_nat i).

Lemma content_list xs : content (alen xs) (λ i, xs !! Z.to_nat i) = map Some xs.
Proof.
  unfold content. apply list_eq. intros k. rewrite !list_lookup_fmap.
  destruct (xs !! k) as [x|] eqn:Hx.
  - apply lookup_lt_Some in Hx as Hk.
    assert (seqZ 0 (alen xs) !! k = Some (Z.of_nat k)) as -> by (apply lookup_seqZ; unfold alen; lia).
    cbn. by rewrite Nat2Z.id, Hx.
  - apply lookup_ge_None in Hx.
    assert (seqZ 0 (alen xs) !! k = None) as -> by (apply lookup_ge_None; rewrite length_seqZ; unfold alen; lia).
    done.
Qed.

Lemma content_slots h0 tl xs w :
  content (alen xs) (slot_get (on_elements h0 tl xs, w)) = map Some xs.
Proof.
  rewrite <-content_list. apply content_ext. intros k Hk. unfold slot_get. cbn [fst].
  by rewrite slot_on_elements.
Qed.

Lemma map_Some_perm xs ys : map Some xs ≡ₚ map Some ys → xs ≡ₚ ys.
Proof.
  intros H. assert (∀ l : list V, omap id (map Some l) = l) as Hid.
  { intros l. induction l as [|x l IH]; [done|].
    change (x :: omap id (map Some l) = x :: l). by rewrite IH. }
  rewrite <-(Hid xs), <-(Hid ys). by rewrite H.
Qed.

Lemma get_on_elements h0 tl xs w k :
  0 <= k < alen xs → slot_get (on_elements h0 tl xs, w) k = xs !! Z.to_nat k.
Proof. intros Hk. unfold slot_get. cbn [fst]. by apply slot_on_elements. Qed.

(** The loops on the elements: a heap of the same elements. *)
Lemma sift_up_run h0 tl xs w i :
  type_ok (element_type (hp_store h0)) → heap_compare_fn h0 = Some cmp → 0 <= i < alen xs →
  up_ok (opt_less cmp) (alen xs) (λ k, xs !! Z.to_nat k) i →
  ∃ ys, heap_sift_up (on_elements h0 tl xs) i w = Some (on_elements h0 tl ys, w) ∧
    heap_sorted ys ∧ ys ≡ₚ xs.
Proof.
  intros Hty Hcmp Hi Hup. unfold heap_sift_up. rewrite heap_sift_up_generic.
  pose proof (slots_store h0 tl w (alen xs) Hty Hcmp) as Hst.
  destruct (sift_up_ok (lt := opt_less cmp) (inv := slots_inv h0 tl w (alen xs)) (n := alen xs) (get := slot_get)
    (S (Z.to_nat i)) (on_elements h0 tl xs, w) i) as (s & -> & (ys & Hys & ->) & Hh & Hp); [by exists xs| |done|lia|].
  { destruct Hup as [[H1 H2] H3]. assert (∀ j, 0 < j → 0 <= parent j < j) as Hpar by (unfold parent; intros; word_lia).
    split; [split|].
    - intros j Hj ? ?. pose proof (Hpar j). rewrite !get_on_elements by lia. by apply H1.
    - intros j Hj ? ?. pose proof (Hpar i). rewrite !get_on_elements by lia. by apply H2.
    - intros j Hj ?. rewrite !get_on_elements by lia. by apply H3. }
  exists ys. split; [done|]. split.
  - unfold heap_sorted. rewrite Hys. eapply heap_ok_ext; [|exact Hh]. intros k Hk. symmetry.
    apply get_on_elements. lia.
  - apply map_Some_perm. rewrite content_slots in Hp. rewrite <-Hys, content_slots in Hp. done.
Qed.

Lemma sift_down_run h0 tl xs w :
  type_ok (element_type (hp_store h0)) → heap_compare_fn h0 = Some cmp → 0 < alen xs <= SIZE_MAX →
  st_size (hp_store h0) = alen xs →
  down_ok (opt_less cmp) (alen xs) (λ k, xs !! Z.to_nat k) 0 →
  ∃ ys, heap_sift_down (on_elements h0 tl xs) 0 w = Some (on_elements h0 tl ys, w) ∧
    heap_sorted ys ∧ ys ≡ₚ xs.
Proof.
  intros Hty Hcmp Hi Hsz Hdn. unfold heap_sift_down.
  assert (st_size (hp_store (on_elements h0 tl xs)) = alen xs) as Hsz' by exact Hsz.
  rewrite heap_sift_down_generic by lia. rewrite Hsz'.
  pose proof (slots_store h0 tl w (alen xs) Hty Hcmp) as Hst.
  destruct (sift_down_ok (lt := opt_less cmp) (inv := slots_inv h0 tl w (alen xs)) (n := alen xs) (get := slot_get)
    (Z.to_nat (alen xs - 0)) (on_elements h0 tl xs, w) 0) as (s & -> & (ys & Hys & ->) & Hh & Hp);
    [by exists xs| |lia|lia|].
  { destruct Hdn as [[H1 H2] H3]. assert (∀ j, 0 < j → 0 <= parent j < j) as Hpar by (unfold parent; intros; word_lia).
    split; [split|]; [|lia..].
    intros j Hj ? ?. pose proof (Hpar j). rewrite !get_on_elements by lia. by apply H1. }
  exists ys. split; [done|]. split.
  - unfold heap_sorted. rewrite Hys. eapply heap_ok_ext; [|exact Hh]. intros k Hk. symmetry.
    apply get_on_elements. lia.
  - apply map_Some_perm. rewrite content_slots in Hp. rewrite <-Hys, content_slots in Hp. done.
Qed.
End Sifting.

(** ** A heap against the multiset of its elements *)

Section Refinement.
Context {V : Type} (cmp : V → V → Z) `{!Comparison cmp}.
Implicit Types (h : heap_t V) (xs : list V).

Record heap_inv h xs : Prop := {
  hi_ok : storage_ok (hp_store h);
  hi_holds : holds (hp_store h) xs;
  hi_cmp : heap_compare_fn h = Some cmp;
  hi_sorted : heap_sorted cmp xs
}.

(** Blocks and objects: nothing is lost, [n] objects are handed out. *)
Record heap_balanced h xs w h' xs' w' (n : Z) : Prop := {
  hb_params : same_params (hp_store h) (hp_store h');
  hb_blocks : w_blocks w' - blocks_of (hp_store h') = w_blocks w - blocks_of (hp_store h);
  hb_objects : w_objects w' - owned (element_type (hp_store h)) * (alen xs' + n) =
               w_objects w - owned (element_type (hp_store h)) * alen xs
}.

Lemma heap_valid_ok h xs : heap_inv h xs → heap_valid (Some h) = true.
Proof.
  intros [Hs _ Hc _]. unfold heap_valid. rewrite (so_init _ Hs), (proj2 (Z.eqb_neq _ _) (so_elem _ Hs)).
  unfold heap_compare_fn in Hc. destruct (element_type (hp_store h)); [done|]. by rewrite Hc.
Qed.

Lemma lookup_snoc_lt xs x k : 0 <= k < alen xs → (xs ++ [x]) !! Z.to_nat k = xs !! Z.to_nat k.
Proof. intros Hk. apply lookup_app_l. unfold alen in Hk. lia. Qed.

(** The heap after the new element was sifted up. *)
Lemma push_sift h1 s1 tl xs x w :
  storage_ok s1 → heap_compare_fn h1 = Some cmp → element_type (hp_store h1) = element_type s1 →
  heap_sorted cmp xs →
  let s := set_size (set_slots s1 (map Some (xs ++ [x]) ++ tl)) (alen xs + 1) in
  ∃ ys, heap_sift_up (with_store h1 s) (alen xs) w =
      Some (with_store h1 (set_size (set_slots s1 (map Some ys ++ tl)) (alen xs + 1)), w) ∧
    heap_sorted cmp ys ∧ ys ≡ₚ x :: xs.
Proof.
  intros Hs Hc Hty Hsort s. pose proof (alen_nonneg xs).
  destruct (sift_up_run cmp (with_store h1 (set_size s1 (alen xs + 1))) tl (xs ++ [x]) w (alen xs))
    as (ys & E & Hy & Hp).
  - apply (so_type _ Hs).
  - unfold heap_compare_fn in *. cbn. rewrite <-Hty. done.
  - rewrite alen_app. change (alen [x]) with 1. lia.
  - rewrite alen_app. change (alen [x]) with 1.
    apply (append_up (λ k, xs !! Z.to_nat k)); [lia|done|]. intros k Hk. by apply lookup_snoc_lt.
  - exists ys. split; [exact E|]. split; [done|]. rewrite Hp. symmetry. apply Permutation_cons_append.
Qed.

Lemma heap_ok_after h1 s1 tl ys n :
  storage_ok s1 → heap_compare_fn h1 = Some cmp → element_type (hp_store h1) = element_type s1 →
  n = alen ys → alen (map Some ys ++ tl) = alen (st_slots s1) → 
  (element_type s1 ≠ None → Forall (λ x, x = None) tl) → heap_sorted cmp ys →
  heap_inv (with_store h1 (bump (set_size (set_slots s1 (map Some ys ++ tl)) n))) ys.
Proof.
  intros Hs Hc Hty Hn Hl Htl Hsort. split; [|split; [done|by exists tl]| |done].
  - apply ok_rewrite; [done|done|]. rewrite <-(so_slots _ Hs), <-Hl, alen_app, Hn.
    unfold alen. rewrite length_map. lia.
  - unfold heap_compare_fn in *. cbn. by rewrite <-Hty.
Qed.

Lemma heap_grow_cases h xs minimum w :
  heap_inv h xs → 0 <= minimum →
  ∃ st ch s' w', heap_grow_to h minimum w = Some ((st, ch, with_store h s'), w') ∧
    grown (hp_store h) xs minimum w st s' w'.
Proof.
  intros Hi Hm. unfold heap_grow_to. rewrite (heap_valid_ok h xs Hi).
  destruct (grow_cases (hp_store h) xs minimum w (hi_ok _ _ Hi) (hi_holds _ _ Hi) Hm) as (st & ch & s' & w' & E & Hg).
  wstep E. by do 4 eexists.
Qed.

(** What a push may do. *)
Definition push_post h xs x w (st : stl_status) h' w' : Prop :=
  ∃ ys, heap_inv h' ys ∧ heap_balanced h xs w h' ys w' 0 ∧
    (if bool_decide (st = STL_OK) then ys ≡ₚ x :: xs else ys = xs) ∧
    (element_limit (hp_store h) <= alen xs → st = STL_CAPACITY_EXCEEDED) ∧
    (alen xs < element_limit (hp_store h) → roomy (hp_store h) → mallocs 3 (elem_align (hp_store h)) w →
     copyable (element_type (hp_store h)) x → st = STL_OK).

Lemma push_failed h xs x w st w' :
  heap_inv h xs → st ≠ STL_OK → w_same w w' →
  alen xs < element_limit (hp_store h) →
  (roomy (hp_store h) → mallocs 3 (elem_align (hp_store h)) w → copyable (element_type (hp_store h)) x → False) →
  push_post h xs x w st h w'.
Proof.
  intros Hi Hst [Hb Ho] Hlt Hen. exists xs. rewrite bool_decide_false by done. split_and!; try done.
  - split; [done|lia|lia].
  - lia.
  - intros _ ? ? ?. by exfalso; auto.
Qed.

Lemma heap_push_run h xs x w :
  heap_inv h xs →
  ∃ st h' w', heap_push (Some h) (Some x) w = Some ((st, Some h'), w') ∧ push_post h xs x w st h' w'.
Proof.
  intros Hi. destruct (Hi) as [Hs Hh Hc Hsort]. destruct (Hs) as [_ _ Hstr [Hal Halv] Hlim Hty _ Hsz Hcap _].
  destruct (Hh) as (Hsize & _). unfold heap_push. rewrite (heap_valid_ok h xs Hi). cbn [negb].
  destruct (Z.leb_spec (element_limit (hp_store h)) (st_size (hp_store h))) as [Hfull|Hlt].
  { do 3 eexists. split; [done|]. exists xs. rewrite bool_decide_false by done. split_and!; try done.
    - split; [done|lia|lia].
    - lia. }
  destruct (prepare_cases (hp_store h) x w Hs) as (st & p & c & w1 & E1 & Hres & Hen). wstep E1.
  case_bool_decide as Hst; cbn [negb]; last first.
  { do 3 eexists. split; [done|]. destruct Hres as [_ Hw]. apply push_failed; try done; [lia|].
    intros Hr Hm Hcp. destruct (Hen 2%nat Hm Hr) as [? _]; done || lia. }
  destruct Hres as (Hp & -> & Hb1 & Ho1).
  destruct (allocate_cases 1 (elem_stride (hp_store h)) (elem_align (hp_store h)) w1)
    as (st2 & sc & w2 & E2 & Ho2 & Hb2 & Hen2); [unfold_words; lia|done..|].
  wstep E2. case_bool_decide as Hst2; cbn [negb]; last first.
  { destruct (discard_run (hp_store h) p x w2 Hs Hp) as (w3 & E3 & Hb3 & Ho3). destruct Hb2 as [-> Hb2].
    wstep E3. wrun. do 3 eexists. split; [done|]. apply push_failed; try done; [split; lia|lia|].
    intros Hr Hm Hcp. destruct (Hen 2%nat Hm Hr) as [_ Hm1]; [lia|done|].
    destruct Hst2. apply (Hen2 1%nat Hm1). unfold roomy in Hr. nia. }
  destruct Hb2 as [[sc' ->] Hb2].
  rewrite u64_id by (unfold_words; lia).
  destruct (heap_grow_cases h xs (st_size (hp_store h) + 1) w2 Hi) as (st3 & ch & s3 & w3 & E3 & Hg); [lia|].
  wstep E3. destruct Hg as [Hs3 (Hsize3 & tl & Hsl & Htl) Hpar _ Hobj Hblk Hfail Hroom Hen3].
  pose proof Hpar as (_ & _ & _ & _ & Hty3 & _).
  case_bool_decide as Hst3; cbn [negb]; last first.
  { destruct (Hfail Hst3) as [-> Hb3].
    destruct (deallocate_run (Some sc') w3) as (w4 & E4 & _ & Ho4 & Hb4). cbn [is_null] in Hb4. wstep E4.
    destruct (discard_run (hp_store h) p x w4 Hs Hp) as (w5 & E5 & Hb5 & Ho5).
    unfold heap_discard_prepared. cbn [hp_store with_store]. wstep E5. wrun.
    assert (with_store h (hp_store h) = h) as -> by by destruct h.
    do 3 eexists. split; [done|]. apply push_failed; try done; [split; lia|lia|].
    intros Hr Hm Hcp. destruct (Hen 2%nat Hm Hr) as [_ Hm1]; [lia|done|].
    destruct (Hen2 1%nat Hm1) as [_ Hm2]; [unfold roomy in Hr; nia|].
    destruct Hst3. apply (Hen3 0%nat); [lia|done|done]. }
  specialize (Hroom Hst3). cbn [hp_store with_store].
  destruct tl as [|y tl].
  { rewrite app_nil_r in Hsl. pose proof (so_slots _ Hs3). rewrite Hsl, alen_map in *. lia. }
  assert (st_size s3 = alen (map Some xs)) as Hpos by (rewrite alen_map; lia).
  rewrite Hsl, (aget_middle (map Some xs)) by done. wrun.
  rewrite Hty3. wstep (move_ok (element_type (hp_store h)) Hty y x w3).
  destruct (deallocate_run p w3) as (w4 & E4 & _ & Ho4 & Hb4). wstep E4.
  rewrite bool_decide_true by done. cbn [negb]. wrun. rewrite (aset_middle (map Some xs)) by done. wrun.
  rewrite u64_id by (unfold_words; lia). cbn [st_size set_size].
  replace (st_size s3 + 1 - 1) with (alen xs) by lia. rewrite Hsize3.
  destruct (push_sift h s3 tl xs x w4 Hs3 Hc (eq_sym Hty3) Hsort) as (ys & E5 & Hys & Hperm).
  rewrite map_app, <-app_assoc in E5. wstep E5.
  destruct (deallocate_run (Some sc') w4) as (w5 & E6 & _ & Ho6 & Hb6). wstep E6. wrun.
  destruct Hp as [p' ->]. cbn [is_null] in Hb4, Hb6.
  assert (alen ys = alen xs + 1) as Hlen.
  { apply Permutation_length in Hperm. unfold alen. rewrite Hperm. simpl. lia. }
  do 3 eexists. split; [done|]. exists ys. rewrite bool_decide_true by done. split_and!; try done; try lia.
  - apply (heap_ok_after h s3 tl ys); try done.
    + rewrite Hsl. unfold alen in *. rewrite !length_app, !length_map. simpl. lia.
    + intros Hne. by apply Htl, Forall_cons in Hne as [_ ?].
  - split; [done| |].
    + change (blocks_of (hp_store _)) with (blocks_of s3) at 1. lia.
    + lia.
Qed.

Definition least x xs : Prop := ∀ y, y ∈ xs → 0 <= cmp y x.

Lemma heap_root_least x xs : heap_sorted cmp (x :: xs) → least x (x :: xs).
Proof.
  intros Hh y [k Hk]%list_elem_of_lookup. apply lookup_lt_Some in Hk as Hl.
  pose proof (heap_root (S := unit) (lt := opt_less cmp) (get := λ _ i, (x :: xs) !! Z.to_nat i) tt (Z.of_nat k) Hh) as Hr.
  cbn beta in Hr. rewrite Nat2Z.id, Hk in Hr. apply Z.ltb_ge. apply Hr. unfold alen. lia.
Qed.

(** The heap after the last element replaced the root and went down. *)
Lemma pop_sift h1 s1 tl x mid y w :
  storage_ok s1 → heap_compare_fn h1 = Some cmp → element_type (hp_store h1) = element_type s1 →
  heap_sorted cmp (x :: mid ++ [y]) → alen mid + 1 <= SIZE_MAX →
  let s := set_size (set_slots s1 (map Some (y :: mid) ++ tl)) (alen mid + 1) in
  ∃ ys, heap_sift_down (with_store h1 s) 0 w =
      Some (with_store h1 (set_size (set_slots s1 (map Some ys ++ tl)) (alen mid + 1)), w) ∧
    heap_sorted cmp ys ∧ ys ≡ₚ y :: mid.
Proof.
  intros Hs Hc Hty Hsort Hmax s. pose proof (alen_nonneg mid).
  assert (alen (y :: mid) = alen mid + 1) as Hl by (unfold alen; simpl; lia).
  destruct (sift_down_run cmp (with_store h1 (set_size s1 (alen mid + 1))) tl (y :: mid) w) as (ys & E & Hy & Hp).
  - apply (so_type _ Hs).
  - unfold heap_compare_fn in *. cbn. rewrite <-Hty. done.
  - lia.
  - by rewrite Hl.
  - split; [|lia]. rewrite Hl.
    apply (replace_hole (λ k, (x :: mid ++ [y]) !! Z.to_nat k)).
    + unfold heap_sorted in Hsort. replace (alen mid + 1 + 1) with (alen (x :: mid ++ [y])); [done|].
      unfold alen. simpl. rewrite length_app. simpl. lia.
    + lia.
    + intros k Hk. destruct (Z.eqb_spec k 0) as [->|].
      * replace (Z.to_nat (alen mid + 1)) with (S (length mid)) by (unfold alen; lia).
        change ((x :: mid ++ [y]) !! S (length mid)) with ((mid ++ [y]) !! length mid).
        by rewrite lookup_app_r, Nat.sub_diag by lia.
      * destruct (Z.to_nat k) as [|k'] eqn:Ek; [lia|].
        change ((x :: mid ++ [y]) !! S k') with ((mid ++ [y]) !! k').
        by rewrite lookup_app_l by (unfold alen in *; lia).
  - exists ys. split; [exact E|]. done.
Qed.

Definition pop_post h xs (out : bool) w (st : stl_status) (r : option V) h' w' : Prop :=
  ∃ ys, heap_inv h' ys ∧ heap_balanced h xs w h' ys w' (if is_null r then 0 else 1) ∧
    (if bool_decide (st = STL_OK)
     then ∃ x, xs ≡ₚ x :: ys ∧ least x xs ∧ r = when out (Some x) else ys = xs ∧ r = None) ∧
    (xs = [] ↔ st = STL_EMPTY) ∧
    (xs ≠ [] → elem_stride (hp_store h) + overhead (elem_align (hp_store h)) <= SIZE_MAX →
     mallocs 1 (elem_align (hp_store h)) w → st = STL_OK).

(** A pop that fails changes nothing. *)
Lemma pop_failed h xs out w st w' :
  heap_inv h xs → xs ≠ [] → st ≠ STL_OK → st ≠ STL_EMPTY → w_same w w' →
  (elem_stride (hp_store h) + overhead (elem_align (hp_store h)) <= SIZE_MAX → mallocs 1 (elem_align (hp_store h)) w → False) →
  pop_post h xs out w st None h w'.
Proof.
  intros Hi Hne Hst Hst' [Hb Ho] Hen. exists xs. rewrite bool_decide_false by done. split_and!; try done.
  - split; [done|lia|simpl; lia].
  - intros _ ? ?. by exfalso; auto.
Qed.

(** The scratch memory of a pop: none for the last element. *)
Lemma pop_scratch h w :
  storage_ok (hp_store h) →
  ∃ st sc w1, (if 1 <? st_size (hp_store h)
      then sequence_allocate 1 (elem_stride (hp_store h)) (elem_align (hp_store h)) else mret (STL_OK, None)) w =
    Some ((st, sc), w1) ∧ w_objects w1 = w_objects w ∧ st ≠ STL_EMPTY ∧
    (w_blocks w1 = w_blocks w + (if is_null sc then 0 else 1)) ∧ (st ≠ STL_OK → sc = None) ∧
    (elem_stride (hp_store h) + overhead (elem_align (hp_store h)) <= SIZE_MAX →
     mallocs 1 (elem_align (hp_store h)) w → st = STL_OK).
Proof.
  intros [_ _ Hstr [Hal Halv] Hlim Hty Hcp Hsz Hcap _].
  destruct (1 <? st_size (hp_store h)).
  - destruct (allocate_cases 1 (elem_stride (hp_store h)) (elem_align (hp_store h)) w)
      as (st & sc & w1 & E & Ho & Hb & Hen); [unfold_words; lia|done..|]. exists st, sc, w1. split; [done|].
    split_and!; try done.
    + unfold sequence_allocate in E. intros ->. revert E. clear.
      unfold mbind, M_bind, malloc, mfree, mret, M_ret.
      repeat match goal with |- context [match ?x with _ => _ end] => destruct x end; try done; congruence.
    + case_bool_decide; destruct Hb as [Hp Hb]; [destruct Hp as [p ->]; simpl; lia|rewrite Hp; simpl; lia].
    + intros Hst. rewrite bool_decide_false in Hb by done. tauto.
    + intros Hf Hm. apply (Hen 0%nat Hm). lia.
  - exists STL_OK, None, w. split_and!; try done. simpl. lia.
Qed.

Lemma heap_pop_run h xs out w :
  heap_inv h xs →
  ∃ st r h' w', heap_pop (Some h) out w = Some ((st, r, Some h'), w') ∧ pop_post h xs out w st r h' w'.
Proof.
  intros Hi. destruct (Hi) as [Hs Hh Hc Hsort]. destruct (Hs) as [_ _ Hstr [Hal Halv] Hlim Hty Hcp Hsz Hcap _].
  destruct (Hh) as (Hsize & tl & Hsl & Htl). unfold heap_pop. rewrite (heap_valid_ok h xs Hi). cbn [negb].
  cbv zeta. destruct (Z.eqb_spec (st_size (hp_store h)) 0) as [H0|H0].
  { assert (xs = []) as -> by (destruct xs; [done|unfold alen in *; simpl in *; lia]).
    do 4 eexists. split; [done|]. exists []. split_and!; try done. }
  destruct xs as [|x xs]; [done|].
  destruct (pop_scratch h w Hs) as (st & sc & w1 & E1 & Ho1 & Hne & Hb1 & Hsc & Hen).
  wstep E1. case_bool_decide as Hst; cbn [negb]; last first.
  { do 4 eexists. split; [done|]. apply pop_failed; try done; [|auto]. rewrite (Hsc Hst) in Hb1. simpl in Hb1. split; lia. }
  pose proof (heap_root_least x xs Hsort) as Hleast.
  rewrite Hsl. cbn [map app]. rewrite aget_head. wrun.
  destruct (take_out_ok (element_type (hp_store h)) out x w1 Hty) as (w2 & E2 & _ & Hb2 & Ho2). wstep E2.
  rewrite bool_decide_true by done. cbn [negb]. rewrite aset_head. wrun.
  destruct (deallocate_run sc w2) as (w3 & E3 & _ & Ho3 & Hb3).
  destruct (Z.eqb_spec (st_size (hp_store h) - 1) 0) as [Hone|Hmany].
  - assert (xs = []) as -> by (destruct xs; [done|unfold alen in *; simpl in *; lia]).
    wrun. wstep E3. wrun. do 4 eexists. split; [done|]. exists []. rewrite bool_decide_true by done.
    split_and!; try done; [| |by exists x].
    + apply (heap_ok_after h (hp_store h) _ []); try done.
      * rewrite Hsl. unfold alen. done.
      * by apply gap_tail.
    + split; [done| |].
      * change (blocks_of (hp_store _)) with (blocks_of (hp_store h)) at 1. lia.
      * change (alen (@nil V)) with 0. change (alen [x]) with 1. destruct out; simpl; lia.
  - destruct (exists_last (l := xs)) as (mid & y & ->).
    { intros ->. unfold alen in Hsize. simpl in Hsize. lia. }
    assert (st_size (hp_store h) - 1 = alen mid + 1) as Hlast.
    { rewrite Hsize. unfold alen. simpl. rewrite length_app. simpl. lia. }
    rewrite map_app, <-app_assoc. cbn [map app].
    pose proof (slot_move_down (element_type (hp_store h)) [] (if is_null (element_type (hp_store h)) then Some x else None)
      (map Some mid) y tl w2 0 (st_size (hp_store h) - 1) Hty eq_refl) as Emv.
    cbn [app] in Emv. wstep (Emv ltac:(rewrite alen_map; lia)). rewrite Hlast.
    destruct (pop_sift h (hp_store h) ((if is_null (element_type (hp_store h)) then Some y else None) :: tl) x mid y w2 Hs Hc eq_refl Hsort)
      as (ys & E4 & Hys & Hperm); [unfold_words; lia|]. cbn [map app] in E4. wstep E4. wstep E3. wrun.
    assert (alen ys = alen mid + 1) as Hlen.
    { apply Permutation_length in Hperm. unfold alen. rewrite Hperm. simpl. lia. }
    do 4 eexists. split; [done|]. exists ys. rewrite bool_decide_true by done. split_and!; try done.
    + apply (heap_ok_after h (hp_store h)); try done.
      * rewrite Hsl. unfold alen in *. rewrite !length_app, !length_map. simpl. rewrite !length_app. simpl. lia.
      * by apply gap_tail.
    + split; [done| |].
      * change (blocks_of (hp_store _)) with (blocks_of (hp_store h)) at 1. lia.
      * rewrite Hlen. assert (alen (x :: mid ++ [y]) = alen mid + 2) as ->
          by (unfold alen; simpl; rewrite length_app; simpl; lia).
        destruct out; simpl; lia.
    + exists x. split_and!; try done. constructor. rewrite Hperm. symmetry. apply Permutation_cons_append.
Qed.

(** C32. A heap refines the multiset of its elements: a push adds a copy of
    the element or, at the limit or without memory, changes nothing; a pop
    hands out an element no other is less than and removes it, reports
    [STL_EMPTY] exactly on the empty heap, and changes nothing when it fails;
    the peek shows the element the next pop removes. Every call keeps the heap
    order, accounts for each block and object, and succeeds when memory can
    be had. *)
Theorem heap_refines h xs w :
  heap_inv h xs →
  (∀ x, ∃ st h' w', heap_push (Some h) (Some x) w = Some ((st, Some h'), w') ∧ push_post h xs x w st h' w') ∧
  (∀ out, ∃ st r h' w', heap_pop (Some h) out w = Some ((st, r, Some h'), w') ∧ pop_post h xs out w st r h' w') ∧
  match heap_peek (Some h) with
  | None => xs = []
  | Some x => ∃ y, x = Some y ∧ y ∈ xs ∧ least y xs
  end.
Proof.
  intros Hi. split; [intros x; by apply heap_push_run|]. split; [intros out; by apply heap_pop_run|].
  destruct (Hi) as [Hs (Hsize & tl & Hsl & _) _ Hsort]. unfold heap_peek. rewrite (heap_valid_ok h xs Hi). cbn [andb].
  destruct xs as [|x xs].
  - by rewrite Hsize.
  - rewrite (proj2 (Z.eqb_neq _ _)) by (rewrite Hsize; unfold alen; simpl; lia). cbn [negb].
    rewrite Hsl. cbn [map app]. rewrite aget_head. exists x. split_and!; [done|by left|by apply heap_root_least].
Qed.

(** ** Sorting by a heap *)

(** A client that pops until a call does not succeed. *)
Fixpoint heap_drain (fuel : nat) h : M (stl_status * list V * heap_t V) :=
  match fuel with
  | O => lift None
  | S fuel =>
      '(st, r, heap) ← heap_pop (Some h) true;
      h ← lift heap;
      match st, r with
      | STL_OK, Some x => '(st, l, h) ← heap_drain fuel h; mret (st, x :: l, h)
      | _, _ => mret (st, [], h)
      end
  end.

Lemma heap_drain_run fuel h xs w :
  heap_inv h xs → (length xs < fuel)%nat →
  ∃ st l h' w' ys, heap_drain fuel h w = Some ((st, l, h'), w') ∧ heap_inv h' ys ∧
    xs ≡ₚ l ++ ys ∧ StronglySorted (λ a b, 0 <= cmp b a) l ∧ (∀ a b, a ∈ l → b ∈ ys → 0 <= cmp b a) ∧
    (st = STL_EMPTY ↔ ys = []) ∧ st ≠ STL_OK.
Proof.
  revert h xs w. induction fuel as [|fuel IH]; intros h xs w Hi Hf; [lia|]. cbn [heap_drain].
  destruct (heap_pop_run h xs true w Hi) as (st & r & h1 & w1 & E & ys & Hi1 & _ & Hres & Hemp & _).
  wstep E. wrun. case_bool_decide as Hst.
  - destruct Hres as (x & Hperm & Hleast & ->). subst st. cbn [when].
    destruct (IH h1 ys w1 Hi1) as (st2 & l & h2 & w2 & zs & E2 & Hi2 & Hp2 & Hs2 & Hle & He & Hne).
    { apply Permutation_length in Hperm. simpl in Hperm. lia. }
    wstep E2. wrun. exists st2, (x :: l), h2, w2, zs. split; [done|]. split; [done|].
    assert (∀ b, b ∈ l ++ zs → 0 <= cmp b x) as Hx.
    { intros b Hb. apply Hleast. rewrite Hperm, Hp2. by right. }
    split_and!; try done.
    + cbn. by rewrite <-Hp2.
    + constructor; [done|]. apply Forall_forall. intros b Hb. apply Hx. set_solver.
    + intros a b [->|Ha]%elem_of_cons Hb; [apply Hx; set_solver|by apply Hle].
  - destruct Hres as [-> ->]. exists st, [], h1, w1, xs. split; [by destruct st|]. split; [done|].
    split; [done|]. split; [apply SSorted_nil|]. split; [set_solver|]. split; [symmetry; exact Hemp|done].
Qed.

(** Draining a heap sorts: the elements come out in order, each once; the
    loop ends after at most as many pops as there are elements plus one, and
    it ends with [STL_EMPTY] exactly when nothing is left. If memory runs out
    before, what came out is sorted, bounds what is left, and nothing is lost. *)
Theorem heap_drain_sorted h xs w :
  heap_inv h xs →
  ∃ st l h' w' ys, heap_drain (S (length xs)) h w = Some ((st, l, h'), w') ∧ heap_inv h' ys ∧
    xs ≡ₚ l ++ ys ∧ StronglySorted (λ a b, 0 <= cmp b a) l ∧ (∀ a b, a ∈ l → b ∈ ys → 0 <= cmp b a) ∧
    (st = STL_EMPTY ↔ ys = []) ∧ st ≠ STL_OK.
Proof. intros Hi. apply heap_drain_run; [done|lia]. Qed.
End Refinement.

(** ** Creation and destruction *)

Section Lifecycle.
Context {V : Type} (cmp : V → V → Z) `{!Comparison cmp}.
Implicit Types (h : heap_t V) (xs : list V).

(** [heap_clear] does to its storage what [vec_clear] does. *)
Lemma heap_clear_vec h xs w s w' :
  heap_inv cmp h xs → vec_clear (Some (hp_store h)) w = Some ((STL_OK, Some s), w') →
  heap_clear (Some h) w = Some ((STL_OK, Some (with_store h s)), w').
Proof.
  intros Hi. unfold heap_clear, vec_clear. rewrite (heap_valid_ok cmp h xs Hi).
  rewrite vec_valid_ok by apply Hi. cbn [negb]. unfold mbind, M_bind.
  destruct (destroy_range _ _ _ _ _) as [[[st slots] w1]|]; [|done]. cbv zeta.
  case_bool_decide; cbn [negb]; unfold mret, M_ret; [by intros [= <- <-]|].
  intros [= -> _ _]. done.
Qed.

Lemma heap_destroy_ok h xs w :
  heap_inv cmp h xs →
  ∃ g w', heap_raw_destroy_storage (Some h) w = Some (Some (MkHeap (storage_zero g) None), w') ∧
    w_blocks w' = w_blocks w - blocks_of (hp_store h) ∧
    w_objects w' = w_objects w - owned (element_type (hp_store h)) * alen xs.
Proof.
  intros Hi. pose proof (hi_ok _ _ _ Hi) as Hs. unfold heap_raw_destroy_storage. rewrite (so_init _ Hs).
  destruct (vec_clear_post (hp_store h) xs w Hs (hi_holds _ _ _ Hi)) as (s & w1 & E & Hp).
  wstep (heap_clear_vec h xs w s w1 Hi E). wrun. destruct Hp as [_ _ Hb (ys & _ & Hstep & Ho) _].
  destruct (deallocate_run (st_data (hp_store (with_store h s))) w1) as (w2 & E2 & _ & Ho2 & Hb2). wstep E2. wrun.
  do 2 eexists. split; [done|].
  assert (ys = []) as -> by (destruct Hstep as [[= ->]|(_ & Hne & _)]; done).
  unfold blocks_of in *. cbn [is_null] in Ho. cbn [hp_store with_store] in Hb2.
  change (alen (@nil V)) with 0 in Ho. lia.
Qed.

Lemma heap_push_all_ok l h xs w :
  heap_inv cmp h xs → alen xs + alen l <= element_limit (hp_store h) →
  ∃ st h' w', heap_push_all l (Some h) w = Some ((st, Some h'), w') ∧
    if bool_decide (st = STL_OK) then
      ∃ ys, heap_inv cmp h' ys ∧ ys ≡ₚ xs ++ l ∧ heap_balanced h xs w h' ys w' 0
    else w_blocks w' = w_blocks w - blocks_of (hp_store h) ∧
      w_objects w' = w_objects w - owned (element_type (hp_store h)) * alen xs.
Proof.
  revert h xs w. induction l as [|x l IH]; intros h xs w Hi Hl; cbn [heap_push_all].
  { do 3 eexists. split; [done|]. rewrite bool_decide_true by done. exists xs. rewrite app_nil_r.
    split_and!; try done. split; [done|lia|lia]. }
  destruct (heap_push_run cmp h xs x w Hi) as (st & h1 & w1 & E & ys & Hi1 & [Hpar Hb Ho] & Hres & _). wstep E.
  pose proof Hpar as (_ & _ & _ & Hlim & Hty & _).
  assert (alen (x :: l) = alen l + 1) as Hxl by (unfold alen; simpl; lia).
  case_bool_decide as Hst; cbn [negb].
  - assert (alen ys = alen xs + 1) as Hys by (apply Permutation_length in Hres; unfold alen; rewrite Hres; simpl; lia).
    destruct (IH h1 ys w1 Hi1) as (st2 & h2 & w2 & E2 & Hres2); [lia|]. exists st2, h2, w2. split; [done|].
    rewrite Hty in Hres2. case_bool_decide.
    + destruct Hres2 as (zs & Hi2 & Hz & [Hpar2 Hb2 Ho2]). exists zs. split; [done|]. split.
      * rewrite Hz, Hres. cbn. by rewrite Permutation_middle.
      * rewrite Hty in Ho2. split; [|lia|lia].
        unfold same_params in *. destruct_and!. split_and!; congruence.
    + lia.
  - subst ys. destruct (heap_destroy_ok h1 xs w1 Hi1) as (g & w2 & E2 & Hb2 & Ho2). wstep E2. wrun.
    do 3 eexists. split; [done|]. rewrite bool_decide_false by done. rewrite Hty in Ho2. lia.
Qed.

(** The heap a successful initialisation leaves. *)
Lemma heap_raw_init_ok type limit h0 st h :
  type_ok (Some type) → is_u64 (ty_size type) → is_u64 (ty_align type) → is_u64 limit →
  heap_compare_fn (MkHeap (MkStorage None [] 0 0 0 0 0 0 (Some type) 0 true) None) = Some cmp →
  initialized (hp_store h0) = false →
  heap_raw_init (Some h0) (Some type) limit = (st, Some h) →
  if bool_decide (st = STL_OK) then
    heap_inv cmp h [] ∧ st_data (hp_store h) = None ∧ element_limit (hp_store h) = limit ∧
    element_type (hp_store h) = Some type
  else h = h0.
Proof.
  intros Hty Hsz Hal Hlim Hcmp Hinit. unfold heap_raw_init. rewrite Hinit.
  destruct (sequence_require_type (Some type) true) eqn:Hreq; try by intros [= <- <-].
  unfold heap_initialize. cbn [is_null andb]. rewrite Hinit.
  pose proof (vec_initialize_ok (hp_store h0) (Some type) (ty_size type) (ty_align type) limit) as Hv.
  unfold vec_initialize in Hv. rewrite Hinit in Hv.
  destruct (sequence_stride (ty_size type) (ty_align type)) as [st0 [stride|]]; last first.
  { destruct st0; intros [= <- <-]; try done.
    by destruct (Hv STL_OK (hp_store h0) Hsz Hal Hlim Hty eq_refl) as ([? ? ? ? ? ? ? ? ? ?] & _); congruence. }
  destruct st0; intros [= <- <-]; try done. specialize (Hv STL_OK _ Hsz Hal Hlim Hty eq_refl). cbn in Hv.
  destruct Hv as (Hs & Hh & _). rewrite bool_decide_true by done. by split_and!.
Qed.

(** Building a heap from an array is all or nothing: on success it is a
    heap of exactly the array's elements that owns one block and their copies,
    and destroying it gives everything back; otherwise the handle is as it was
    and nothing stays allocated. *)
Theorem heap_from_array_exact h type limit l w :
  initialized (hp_store h) = false → type_ok (Some type) → is_u64 (ty_size type) → is_u64 (ty_align type) →
  is_u64 limit →
  heap_compare_fn (MkHeap (MkStorage None [] 0 0 0 0 0 0 (Some type) 0 true) None) = Some cmp →
  ∃ st h' w', heap_raw_from_array (Some h) (Some l) (alen l) (Some type) limit w =
      Some ((st, Some h'), w') ∧
    (alen l > limit → st = STL_CAPACITY_EXCEEDED) ∧
    if bool_decide (st = STL_OK) then
      ∃ ys, heap_inv cmp h' ys ∧ ys ≡ₚ l ∧ w_blocks w' = w_blocks w + blocks_of (hp_store h') ∧
        w_objects w' = w_objects w + alen l ∧
        ∃ g w'', heap_raw_destroy_storage (Some h') w' = Some (Some (MkHeap (storage_zero g) None), w'') ∧
          w_same w w''
    else h' = h ∧ w_same w w'.
Proof.
  intros Hi Hty Hsz Hal Hlim Hcmp. unfold heap_raw_from_array, heap_from_array. rewrite Hi. cbn [is_null].
  rewrite andb_false_r. cbn [orb]. destruct (Z.ltb_spec limit (alen l)) as [Hbig|Hfit].
  { do 3 eexists. split; [done|]. split; [done|]. by rewrite bool_decide_false. }
  destruct (heap_raw_init (Some heap_zero) (Some type) limit) as [st [h0|]] eqn:Einit; last first.
  { unfold heap_raw_init in Einit. cbn [heap_zero hp_store storage_zero initialized] in Einit.
    destruct (sequence_require_type (Some type) true); try done. unfold heap_initialize in Einit.
    cbn [is_null andb heap_zero hp_store storage_zero initialized] in Einit.
    by destruct (sequence_stride _ _) as [[] [?|]]. }
  apply heap_raw_init_ok in Einit; try done. case_bool_decide as Hst; cbn [negb]; last first.
  { do 3 eexists. split; [done|]. split; [lia|]. by rewrite bool_decide_false. }
  destruct Einit as (Hi0 & Hd0 & Hl0 & Ht0).
  assert ((if alen l =? 0 then Some [] else l0 ← Some l; if alen l0 <? alen l then None
           else Some (take (Z.to_nat (alen l)) l0)) = Some l) as ->.
  { destruct (Z.eqb_spec (alen l) 0) as [H0|H0]; [destruct l; [done|unfold alen in H0; simpl in H0; lia]|].
    cbn [mbind option_bind]. rewrite Z.ltb_irrefl. unfold alen. by rewrite Nat2Z.id, firstn_all. }
  wrun. destruct (heap_push_all_ok l h0 [] w Hi0) as (st2 & h2 & w2 & E2 & Hres).
  { change (alen (@nil V)) with 0. lia. }
  wstep E2. case_bool_decide as Hst2; cbn [negb].
  - destruct Hres as (ys & Hi2 & Hys & [Hpar Hb Ho]). wrun. do 3 eexists. split; [done|]. split; [lia|].
    rewrite bool_decide_true by done. exists ys. set (h3 := with_store h2 _).
    assert (heap_inv cmp h3 ys ∧ blocks_of (hp_store h3) = blocks_of (hp_store h2) ∧
      element_type (hp_store h3) = Some type) as (Hi3 & Hb3 & Ht3).
    { destruct Hi2 as [Hs2 Hh2 Hc2 Hsort2]. destruct Hs2. split_and!; try done.
      unfold h3. cbn. destruct Hpar as (_ & _ & _ & _ & -> & _). done. }
    assert (alen ys = alen l) as Hlen by (apply Permutation_length in Hys; unfold alen; by rewrite Hys).
    unfold blocks_of in Hb at 2. rewrite Hd0 in Hb. rewrite Ht0 in Ho. change (owned (Some type)) with 1 in Ho.
    change (alen (@nil V)) with 0 in Ho. cbn [is_null] in Hb.
    split_and!; try done; [lia|lia|].
    destruct (heap_destroy_ok h3 ys w2 Hi3) as (g & w4 & E4 & Hb4 & Ho4). exists g, w4. split; [done|].
    rewrite Ht3 in Ho4. change (owned (Some type)) with 1 in Ho4. split; lia.
  - wrun. do 3 eexists. split; [done|]. split; [lia|]. rewrite bool_decide_false by done.
    split; [done|]. unfold blocks_of in Hres. rewrite Hd0, Ht0 in Hres. cbn [is_null] in Hres.
    change (owned (Some type)) with 1 in Hres. change (alen (@nil V)) with 0 in Hres. split; lia.
Qed.
End Lifecycle.

(** ** Instances *)

#[export] Instance int_comparison : Comparison (λ a b : Z, a - b).
Proof. split; lia. Qed.

Definition heap_of_two : heap_t Z :=
  MkHeap (MkStorage (Some 4096) [Some 3; Some 7; None; None] 2 4 4 4 4 100 (Some int_type) 2 true) None.

Lemma heap_of_two_inv : heap_inv (λ a b, a - b) heap_of_two [3; 7].
Proof.
  split.
  - split; try done; try (simpl; unfold_words; lia). exact int_type_ok.
  - split; [done|]. exists [None; None]. split; [done|]. intros _. by_eval.
  - reflexivity.
  - intros j Hj. assert (j = 1) as -> by (unfold alen in Hj; simpl in Hj; lia). reflexivity.
Qed.

Lemma heap_refines_witness :
  ∃ st h' w', heap_push (Some heap_of_two) (Some 1) (MkWorld [Some 8192; Some 12288] 1 2) = Some ((st, Some h'), w').
Proof.
  destruct (heap_refines (λ a b, a - b) heap_of_two [3; 7] (MkWorld [Some 8192; Some 12288] 1 2) heap_of_two_inv)
    as [Hpush _].
  destruct (Hpush 1) as (st & h' & w' & E & _). exists st, h', w'. exact E.
Defined.

Lemma heap_drain_sorted_witness :
  ∃ st l h' w', heap_drain 3 heap_of_two (MkWorld [Some 8192] 1 2) = Some ((st, l, h'), w').
Proof.
  destruct (heap_drain_sorted (λ a b, a - b) heap_of_two [3; 7] (MkWorld [Some 8192] 1 2) heap_of_two_inv)
    as (st & l & h' & w' & ys & E & _).
  exists st, l, h', w'. exact E.
Defined.

Lemma heap_from_array_exact_witness :
  ∃ st h' w', heap_raw_from_array (Some heap_zero) (Some [2; 1]) 2 (Some int_type) 10
    (MkWorld [Some 4096; Some 8192; Some 12288] 0 0) = Some ((st, Some h'), w').
Proof.
  destruct (heap_from_array_exact (λ a b, a - b) heap_zero int_type 10 [2; 1]
    (MkWorld [Some 4096; Some 8192; Some 12288] 0 0)) as (st & h' & w' & E & _).
  - reflexivity.
  - exact int_type_ok.
  - by_eval.
  - by_eval.
  - by_eval.
  - reflexivity.
  - exists st, h', w'. exact E.
Defined.
