(* ===== verification/StlSort.v ===== *)
(** * Stable sorting ([cstl/src/sort.c])

    The bottom-up merge sort between the caller's array and a scratch copy:
    its result is sorted and stable, a failure leaves the array as it was, and
    no block or object is leaked. *)

From S2P Require Import Prelude World Sequence Vec.
Local Open Scope Z_scope.

Section Sort.
Context {V : Type}.
Implicit Types (type : option (cmeta_type_desc V)) (l source destination : list (slot V)).

(** [sort_destroy_range]: [n] objects from [index]. *)
Fixpoint sort_destroy_range type l (n : nat) (index : Z) : M (list (slot V)) :=
  match n with
  | O => mret l
  | S n =>
      x ← lift (aget l index);
      _ ← lift x;
      _ ← count_object (-1);
      l ← lift (aset l index None);
      sort_destroy_range type l n (index + 1)
  end.

(** [move_construct] into [destination[output]], then [destroy] of
    [source[selected]]. *)
Definition sort_move type source destination (selected output : Z) :
    M (list (slot V) * list (slot V)) :=
  move_construct ← trait_callback type tr_move_construct;
  x ← lift (aget source selected);
  v ← lift x;
  _ ← count_object 1;
  destination ← lift (aset destination output (Some (move_construct v)));
  _ ← count_object (-1);
  source ← lift (aset source selected None);
  mret (source, destination).

(** The first loop: while both runs have elements. *)
Fixpoint sort_merge_both (fuel : nat) type source destination (first middle second right output : Z) :
    M (Z * Z * Z * list (slot V) * list (slot V)) :=
  match fuel with
  | O => lift None
  | S fuel =>
      if (first <? middle) && (second <? right) then
        compare ← trait_callback type tr_compare;
        a ← lift (aget source first); a ← lift a;
        b ← lift (aget source second); b ← lift b;
        let left := compare a b <=? 0 in
        '(source, destination) ← sort_move type source destination (if left then first else second) output;
        if left then sort_merge_both fuel type source destination (first + 1) middle second right (output + 1)
        else sort_merge_both fuel type source destination first middle (second + 1) right (output + 1)
      else mret (first, second, output, source, destination)
  end.

(** The other two loops: the rest of one run, [n] elements. *)
Fixpoint sort_merge_rest (n : nat) type source destination (index output : Z) :
    M (Z * list (slot V) * list (slot V)) :=
  match n with
  | O => mret (output, source, destination)
  | S n =>
      '(source, destination) ← sort_move type source destination index output;
      sort_merge_rest n type source destination (index + 1) (output + 1)
  end.

Definition sort_merge type source destination (left middle right : Z) :
    M (list (slot V) * list (slot V)) :=
  '(first, second, output, source, destination) ←
     sort_merge_both (S (Z.to_nat (right - left))) type source destination left middle middle right left;
  '(output, source, destination) ←
     sort_merge_rest (Z.to_nat (middle - first)) type source destination first output;
  '(_, source, destination) ←
     sort_merge_rest (Z.to_nat (right - second)) type source destination second output;
  mret (source, destination).

(** [for (left = 0; left < count; left += width * 2)]. *)
Fixpoint sort_pass (fuel : nat) type source destination (width left count : Z) :
    M (list (slot V) * list (slot V)) :=
  match fuel with
  | O => lift None
  | S fuel =>
      if left <? count then
        let middle := if u64 (left + width) <? count then u64 (left + width) else count in
        let right := if u64 (middle + width) <? count then u64 (middle + width) else count in
        '(source, destination) ← sort_merge type source destination left middle right;
        sort_pass fuel type source destination width (u64 (left + u64 (width * 2))) count
      else mret (source, destination)
  end.

(** [for (width = 1; width < count;)]; [in_base] tells whether [source] is
    the caller's array. *)
Fixpoint sort_passes (fuel : nat) type (in_base : bool) source destination (width count : Z) :
    M (bool * list (slot V) * list (slot V)) :=
  match fuel with
  | O => lift None
  | S fuel =>
      if width <? count then
        '(source, destination) ← sort_pass (S (Z.to_nat count)) type source destination width 0 count;
        sort_passes fuel type (negb in_base) destination source
          (if count / 2 <? width then count else u64 (width * 2)) count
      else mret (in_base, source, destination)
  end.

(** The copies of the elements from [index] on: the scratch array and
    whether every copy succeeded. *)
Fixpoint sort_copy (n : nat) type base scratch (index : Z) : M (bool * Z * list (slot V)) :=
  match n with
  | O => mret (true, index, scratch)
  | S n =>
      copy_construct ← trait_callback type tr_copy_construct;
      x ← lift (aget base index); v ← lift x;
      match copy_construct v with
      | None => mret (false, index, scratch)
      | Some c =>
          _ ← count_object 1;
          scratch ← lift (aset scratch index (Some c));
          sort_copy n type base scratch (index + 1)
      end
  end.

Definition sort_required : Z :=
  Z.lor (Z.lor (Z.lor CMETA_TRAIT_COMPARE CMETA_TRAIT_COPY) CMETA_TRAIT_MOVE) CMETA_TRAIT_DESTROY.

(** [base] is the address and the elements, [None] for [NULL]. *)
Definition stable_sort (base : option (Z * list (slot V))) (count : Z) type (scratch_byte_limit : Z) :
    M (stl_status * option (Z * list (slot V))) :=
  match type with
  | None => mret (STL_INVALID_ARGUMENT, base)
  | Some t =>
      if (ty_size t =? 0) || negb (sequence_alignment_valid (ty_align t))
      then mret (STL_INVALID_ARGUMENT, base) else
      if negb (bool_decide (cmeta_type_require_traits type sort_required = CMETA_OK))
      then mret (STL_TRAIT_MISSING, base) else
      if count =? 0 then mret (STL_OK, base) else
      match base with
      | None => mret (STL_INVALID_ARGUMENT, base)
      | Some (address, elements) =>
          if negb (address mod ty_align t =? 0) then mret (STL_INVALID_ARGUMENT, base) else
          if count =? 1 then mret (STL_OK, base) else
          match sequence_stride (ty_size t) (ty_align t) with
          | (STL_OK, Some stride) =>
              match sequence_bytes count stride with
              | (STL_OK, Some bytes) =>
                  if scratch_byte_limit <? bytes then mret (STL_CAPACITY_EXCEEDED, base) else
                  '(status, scratch) ← sequence_allocate count stride (ty_align t);
                  if negb (bool_decide (status = STL_OK)) then mret (status, base) else
                  '(ok, copied, slots) ←
                     sort_copy (Z.to_nat count) type elements (replicate (Z.to_nat count) None) 0;
                  if negb ok then
                    _ ← sort_destroy_range type slots (Z.to_nat copied) 0;
                    _ ← sequence_deallocate scratch;
                    mret (STL_OUT_OF_MEMORY, base)
                  else
                  elements ← sort_destroy_range type elements (Z.to_nat count) 0;
                  '(in_base, source, destination) ← sort_passes 65 type false slots elements 1 count;
                  elements ← (if (in_base : bool) then mret source else
                              '(_, _, elements) ←
                                 sort_merge_rest (Z.to_nat count) type source destination 0 0;
                              mret elements);
                  _ ← sequence_deallocate scratch;
                  mret (STL_OK, Some (address, elements))
              | (status, _) => mret (status, base)
              end
          | (status, _) => mret (status, base)
          end
      end
  end.
End Sort.

(** ** Merging lists *)

(** The order the comparison callback must define. *)
Class TotalCompare {V} (cmp : V → V → Z) : Prop := {
  cmp_total a b : 0 < cmp a b → cmp b a <= 0;
  cmp_trans a b c : cmp a b <= 0 → cmp b c <= 0 → cmp a c <= 0
}.

Section Merge.
Context {V : Type} (cmp : V → V → Z) `{!TotalCompare cmp}.
Implicit Types (a b xs : list V).

Definition cle (x y : V) : Prop := cmp x y <= 0.
Definition eqv (k y : V) : Prop := cle k y ∧ cle y k.
#[global] Instance cle_dec x y : Decision (cle x y).
Proof. unfold cle. apply _. Defined.
#[global] Instance eqv_dec k y : Decision (eqv k y).
Proof. unfold eqv. apply _. Defined.

Fixpoint merge a : list V → list V :=
  fix merge_b b :=
    match a, b with
    | [], _ => b
    | _, [] => a
    | x :: a', y :: b' => if cmp x y <=? 0 then x :: merge a' b else y :: merge_b b'
    end.

Lemma merge_nil_l b : merge [] b = b.
Proof. by destruct b. Qed.
Lemma merge_nil_r a : merge a [] = a.
Proof. by destruct a. Qed.
Lemma merge_cons x a y b :
  merge (x :: a) (y :: b) = if cmp x y <=? 0 then x :: merge a (y :: b) else y :: merge (x :: a) b.
Proof. done. Qed.

Lemma merge_perm a b : merge a b ≡ₚ a ++ b.
Proof.
  revert b. induction a as [|x a IHa]; intros b; [by rewrite merge_nil_l|].
  induction b as [|y b IHb]; [by rewrite merge_nil_r, app_nil_r|]. rewrite merge_cons.
  destruct (cmp x y <=? 0).
  - by rewrite IHa.
  - rewrite IHb. cbn. rewrite <-Permutation_middle. constructor.
Qed.

Lemma merge_length a b : length (merge a b) = (length a + length b)%nat.
Proof. rewrite (Permutation_length (merge_perm a b)). apply length_app. Qed.

Lemma merge_sorted a b :
  StronglySorted cle a → StronglySorted cle b → StronglySorted cle (merge a b).
Proof.
  revert b. induction a as [|x a IHa]; intros b Ha Hb; [by rewrite merge_nil_l|].
  induction b as [|y b IHb]; [by rewrite merge_nil_r|]. rewrite merge_cons. pose proof Ha as Hxs.
  apply StronglySorted_inv in Ha as [Ha Hxa]. apply StronglySorted_inv in Hb as [Hb Hyb].
  rewrite Forall_forall in Hxa, Hyb.
  destruct (Z.leb_spec (cmp x y) 0) as [Hle|Hgt].
  - constructor; [by apply IHa; [|constructor; [|apply Forall_forall]]|].
    apply Forall_forall. intros z Hz. rewrite merge_perm in Hz.
    apply elem_of_app in Hz as [Hz|[->|Hz]%elem_of_cons]; [auto|done|].
    eapply cmp_trans; [exact Hle|]. by apply Hyb.
  - apply cmp_total in Hgt. constructor; [by apply IHb|].
    apply Forall_forall. intros z Hz. rewrite merge_perm in Hz.
    apply elem_of_app in Hz as [[->|Hz]%elem_of_cons|Hz]; [done| |auto].
    eapply cmp_trans; [exact Hgt|]. by apply Hxa.
Qed.

(** Equivalent elements keep their order, those of [a] first. *)
Lemma merge_stable k a b :
  StronglySorted cle a → filter (eqv k) (merge a b) = filter (eqv k) a ++ filter (eqv k) b.
Proof.
  revert b. induction a as [|x a IHa]; intros b Ha; [by rewrite merge_nil_l|].
  induction b as [|y b IHb]; [by rewrite merge_nil_r, app_nil_r|]. rewrite merge_cons.
  destruct (Z.leb_spec (cmp x y) 0) as [Hle|Hgt].
  - apply StronglySorted_inv in Ha as [Ha _]. rewrite !filter_cons, IHa by done.
    rewrite filter_cons. by case_decide.
  - rewrite filter_cons, IHb, (filter_cons _ y b). case_decide as Hk; [|done].
    rewrite (filter_none _ (x :: a)); [done|]. intros z Hz [Hkz Hzk].
    apply StronglySorted_inv in Ha as [_ Hxa]. rewrite Forall_forall in Hxa.
    assert (cle x z) as Hxz.
    { apply elem_of_cons in Hz as [->|Hz]; [|by apply Hxa].
      destruct (Z.le_gt_cases (cmp x x) 0) as [|H]; [done|]. by apply cmp_total. }
    destruct Hk as [Hky Hyk]. assert (cmp x y <= 0); [|lia].
    eapply cmp_trans; [exact Hxz|]. eapply cmp_trans; [exact Hzk|exact Hky].
Qed.

(** ** Runs and passes *)

(** Every run of [w] elements is sorted. *)
Inductive runs (w : nat) : list V → Prop :=
  | runs_last a : (length a <= w)%nat → StronglySorted cle a → runs w a
  | runs_cons a xs : length a = w → StronglySorted cle a → runs w xs → runs w (a ++ xs).

Lemma runs_split w xs : (0 < w)%nat → runs w xs → StronglySorted cle (take w xs) ∧ runs w (drop w xs).
Proof.
  intros Hw [a Hl Ha|a ys Hl Ha Hys].
  - rewrite take_ge, drop_ge by done. split; [done|]. apply runs_last; [simpl; lia|constructor].
  - rewrite take_app_length', drop_app_length' by done. done.
Qed.

Lemma runs_sorted w xs : (length xs <= w)%nat → (0 < w)%nat → runs w xs → StronglySorted cle xs.
Proof. intros Hl Hw Hr. destruct (runs_split w xs Hw Hr) as [Hs _]. by rewrite take_ge in Hs. Qed.

Lemma runs_one xs : runs 1 xs.
Proof.
  assert (∀ x, StronglySorted cle [x]) as H1 by (intros; by repeat constructor).
  induction xs as [|x xs IH]; [apply runs_last; [simpl; lia|constructor]|].
  by apply (runs_cons 1 [x] xs).
Qed.

(** One pass over the list: neighbouring runs are merged. *)
Fixpoint pass (fuel w : nat) xs : list V :=
  match fuel, xs with
  | S fuel, _ :: _ => merge (take w xs) (take w (drop w xs)) ++ pass fuel w (drop (2 * w) xs)
  | _, _ => []
  end.

Lemma pass_ok fuel w xs :
  (0 < w)%nat → (length xs <= fuel)%nat → runs w xs →
  runs (2 * w) (pass fuel w xs) ∧ pass fuel w xs ≡ₚ xs ∧
  ∀ k, filter (eqv k) (pass fuel w xs) = filter (eqv k) xs.
Proof.
  intros Hw. revert xs. induction fuel as [|fuel IH]; intros xs Hf Hr.
  { destruct xs; [|simpl in Hf; lia]. split_and!; try done. apply runs_last; [simpl; lia|constructor]. }
  destruct xs as [|x xs].
  { split_and!; try done. apply runs_last; [simpl; lia|constructor]. }
  cbn [pass]. set (l := x :: xs) in *. assert (0 < length l)%nat by (simpl; lia).
  destruct (runs_split w l Hw Hr) as [Hs1 Hr1]. destruct (runs_split w (drop w l) Hw Hr1) as [Hs2 Hr2].
  rewrite drop_drop in Hr2. replace (w + w)%nat with (2 * w)%nat in Hr2 by lia.
  destruct (IH (drop (2 * w) l)) as (IH1 & IH2 & IH3); [rewrite length_drop; lia|done|].
  assert (l = take w l ++ take w (drop w l) ++ drop (2 * w) l) as El.
  { replace (2 * w)%nat with (w + w)%nat by lia. by rewrite <-drop_drop, !take_drop. }
  pose proof (merge_sorted _ _ Hs1 Hs2) as Hm. split_and!.
  - destruct (decide (length l <= 2 * w)%nat) as [Hle|Hgt].
    + rewrite (drop_ge l (2 * w)) by done. destruct fuel; cbn [pass]; rewrite app_nil_r; (apply runs_last; [|done]);
        rewrite merge_length, !length_take, length_drop; lia.
    + apply runs_cons; [|done|done]. rewrite merge_length, !length_take, length_drop. lia.
  - rewrite merge_perm, IH2, <-app_assoc. by rewrite <-El.
  - intros k. rewrite filter_app, merge_stable, IH3, <-!filter_app, <-app_assoc by done. by rewrite <-El.
Qed.
End Merge.

(** ** The loops on the arrays *)

Section Arrays.
Context {V : Type} (cmp : V → V → Z) `{!TotalCompare cmp} (t : cmeta_type_desc V).

(** The traits the sort requires; copies and moves preserve the value. *)
Definition sort_type_ok : Prop :=
  type_ok (Some t) ∧ ∃ tr, ty_traits t = Some tr ∧ tr_compare tr = Some cmp.
Hypothesis Hok : sort_type_ok.

Lemma move_callback w : ∃ move, trait_callback (Some t) tr_move_construct w = Some (move, w) ∧ ∀ v, move v = v.
Proof using Hok.
  destruct Hok as [(tr & copy & move & Htr & _ & _ & _ & Hm & _ & Hid) _].
  exists move. split; [|done]. by eapply callback_run.
Qed.

Lemma compare_callback w : trait_callback (Some t) tr_compare w = Some (cmp, w).
Proof using Hok. destruct Hok as [_ (tr & Htr & Hc)]. by eapply callback_run. Qed.

Lemma sort_move_run l1 x l2 d1 y d2 i o w :
  i = alen l1 → o = alen d1 →
  sort_move (Some t) (l1 ++ Some x :: l2) (d1 ++ y :: d2) i o w =
    Some ((l1 ++ None :: l2, d1 ++ Some x :: d2), w).
Proof using Hok.
  intros Hi Ho. unfold sort_move. destruct (move_callback w) as (move & E & Hid). wstep E.
  rewrite aget_middle by done. wrun. rewrite aset_middle, Hid by done. wrun.
  rewrite aset_middle by done. wrun. destruct w as [m b o']. cbn. by replace (o' + 1 + -1) with o' by lia.
Qed.

Lemma merge_both_ok fuel a b P Q post D G w :
  (length a + length b < fuel)%nat → alen a + alen b <= alen G →
  let middle := alen P + alen a in
  let right := middle + alen Q + alen b in
  ∃ a' b' out P' Q' G',
    sort_merge_both fuel (Some t) (P ++ map Some a ++ Q ++ map Some b ++ post) (D ++ G)
      (alen P) middle (middle + alen Q) right (alen D) w =
    Some ((alen P', middle + alen Q', alen D + alen out,
           P' ++ map Some a' ++ Q' ++ map Some b' ++ post, D ++ map Some out ++ G'), w) ∧
    (a' = [] ∨ b' = []) ∧ merge cmp a b = out ++ a' ++ b' ∧ alen P' + alen a' = middle ∧
    middle + alen Q' + alen b' = right ∧ alen out + alen G' = alen G.
Proof using Hok.
  revert a b P Q D G. induction fuel as [|fuel IH]; intros a b P Q D G Hf HG middle right; [lia|].
  cbn [sort_merge_both].
  assert (∀ a0 b0, (a0 = [] ∨ b0 = []) → a = a0 → b = b0 → ∃ a' b' out P' Q' G',
    mret (M := M) (alen P, middle + alen Q, alen D, P ++ map Some a ++ Q ++ map Some b ++ post, D ++ G) w =
    Some ((alen P', middle + alen Q', alen D + alen out,
           P' ++ map Some a' ++ Q' ++ map Some b' ++ post, D ++ map Some out ++ G'), w) ∧
    (a' = [] ∨ b' = []) ∧ merge cmp a b = out ++ a' ++ b' ∧ alen P' + alen a' = middle ∧
    middle + alen Q' + alen b' = right ∧ alen out + alen G' = alen G) as Hdone.
  { intros a0 b0 Hnil -> ->. exists a0, b0, [], P, Q, G.
    split_and!; try done; [by rewrite Z.add_0_r|destruct Hnil as [->| ->]].
    - by rewrite merge_nil_l.
    - by rewrite merge_nil_r, app_nil_r. }
  destruct a as [|x a].
  { rewrite (proj2 (Z.ltb_ge (alen P) middle)) by (unfold middle; change (alen (@nil V)) with 0; lia).
    cbn [andb]. by apply (Hdone [] b); [left|..]. }
  destruct b as [|y b].
  { rewrite (proj2 (Z.ltb_ge (middle + alen Q) right)) by (unfold right; change (alen (@nil V)) with 0; lia).
    rewrite andb_false_r. by apply (Hdone (x :: a) []); [right|..]. }
  clear Hdone. assert (alen (x :: a) = alen a + 1 ∧ alen (y :: b) = alen b + 1) as [Ha Hb]
    by (unfold alen; simpl; lia).
  pose proof (alen_nonneg a). pose proof (alen_nonneg b).
  rewrite (proj2 (Z.ltb_lt (alen P) middle)) by (unfold middle; lia).
  rewrite (proj2 (Z.ltb_lt (middle + alen Q) right)) by (unfold right; lia). cbn [andb].
  wstep (compare_callback w). destruct G as [|g G]; [change (alen (@nil (slot V))) with 0 in HG; lia|].
  assert (alen (g :: G) = alen G + 1) as Hg by (unfold alen; simpl; lia).
  cbn [map app]. rewrite (aget_middle P _ _ (alen P)) by done. wrun.
  assert (P ++ Some x :: map Some a ++ Q ++ Some y :: map Some b ++ post =
    (P ++ Some x :: map Some a ++ Q) ++ Some y :: map Some b ++ post) as Es.
  { by rewrite <-!app_assoc; cbn; rewrite <-!app_assoc. }
  assert (middle + alen Q = alen (P ++ Some x :: map Some a ++ Q)) as Hsec.
  { unfold middle, alen. rewrite length_app. simpl. rewrite length_app, length_map. lia. }
  rewrite Es, (aget_middle (P ++ Some x :: map Some a ++ Q) _ _ (middle + alen Q)) by done. rewrite <-Es. wrun.
  rewrite merge_cons. destruct (cmp x y <=? 0).
  - wstep (sort_move_run P x (map Some a ++ Q ++ Some y :: map Some b ++ post) D g G (alen P) (alen D) w eq_refl eq_refl).
    specialize (IH a (y :: b) (P ++ [None]) Q (D ++ [Some x]) G).
    destruct IH as (a' & b' & out & P' & Q' & G' & E & Hnil & Hm & HP & HQ & HG'); [simpl in *; lia|lia|].
    rewrite <-!app_assoc in E. cbn [map app] in E. rewrite (alen_app P) in E, HP, HQ. rewrite (alen_app D) in E.
    change (alen [None]) with 1 in E, HP, HQ. change (alen [Some x]) with 1 in E.
    exists a', b', (x :: out), P', Q', G'. assert (alen (x :: out) = alen out + 1) as Ho by (unfold alen; simpl; lia).
    split_and!; try done; [|by rewrite Hm|lia|lia|lia].
    replace (alen P + 1 + alen a) with middle in E by (unfold middle; lia).
    replace (middle + alen Q + alen (y :: b)) with right in E by (unfold right; lia).
    replace (alen D + 1 + alen out) with (alen D + alen (x :: out)) in E by lia. exact E.
  - rewrite Es. wstep (sort_move_run (P ++ Some x :: map Some a ++ Q) y (map Some b ++ post) D g G
      (middle + alen Q) (alen D) w Hsec eq_refl).
    specialize (IH (x :: a) b P (Q ++ [None]) (D ++ [Some y]) G).
    destruct IH as (a' & b' & out & P' & Q' & G' & E & Hnil & Hm & HP & HQ & HG'); [simpl in *; lia|lia|].
    rewrite <-!app_assoc in E. cbn [map app] in E. rewrite (alen_app Q) in E, HQ. rewrite (alen_app D) in E.
    change (alen [None]) with 1 in E, HQ. change (alen [Some y]) with 1 in E.
    exists a', b', (y :: out), P', Q', G'. assert (alen (y :: out) = alen out + 1) as Ho by (unfold alen; simpl; lia).
    split_and!; try done; [|by rewrite Hm|lia|lia].
    rewrite <-app_assoc. cbn [app]. rewrite <-!app_assoc. fold middle in E.
    replace (middle + (alen Q + 1) + alen b) with right in E by (unfold right; lia).
    replace (middle + (alen Q + 1)) with (middle + alen Q + 1) in E by lia.
    replace (alen D + 1 + alen out) with (alen D + alen (y :: out)) in E by lia. exact E.
Qed.

Lemma merge_rest_ok a P post D G w :
  alen a <= alen G →
  ∃ R G', sort_merge_rest (length a) (Some t) (P ++ map Some a ++ post) (D ++ G) (alen P) (alen D) w =
    Some ((alen D + alen a, P ++ R ++ post, D ++ map Some a ++ G'), w) ∧
    alen R = alen a ∧ alen a + alen G' = alen G.
Proof using Hok.
  revert P D G. induction a as [|x a IH]; intros P D G HG; cbn [sort_merge_rest length].
  { exists [], G. split; [|done]. by rewrite Z.add_0_r. }
  assert (alen (x :: a) = alen a + 1) as Ha by (unfold alen; simpl; lia). pose proof (alen_nonneg a).
  destruct G as [|g G]; [change (alen (@nil (slot V))) with 0 in HG; lia|].
  assert (alen (g :: G) = alen G + 1) as Hg by (unfold alen; simpl; lia). cbn [map app].
  wstep (sort_move_run P x (map Some a ++ post) D g G (alen P) (alen D) w eq_refl eq_refl).
  destruct (IH (P ++ [None]) (D ++ [Some x]) G) as (R & G' & E & HR & HG'); [lia|].
  rewrite <-!app_assoc, (alen_app P), (alen_app D) in E. cbn [app] in E.
  exists (None :: R), G'. split_and!; [|unfold alen in *; simpl; lia|lia].
  change (alen [None]) with 1 in E. change (alen [Some x]) with 1 in E.
  replace (alen D + 1 + alen a) with (alen D + alen (x :: a)) in E by lia. exact E.
Qed.

(** Merging two neighbouring runs into the destination. *)
Lemma sort_merge_ok a b P post D G w :
  alen P = alen D → alen a + alen b <= alen G →
  let middle := alen P + alen a in
  ∃ R G', sort_merge (Some t) (P ++ map Some a ++ map Some b ++ post) (D ++ G)
      (alen P) middle (middle + alen b) w =
    Some ((R ++ post, D ++ map Some (merge cmp a b) ++ G'), w) ∧
    alen R = middle + alen b ∧ alen a + alen b + alen G' = alen G.
Proof using Hok.
  intros HPD HG middle. unfold sort_merge. pose proof (alen_nonneg a). pose proof (alen_nonneg b).
  destruct (merge_both_ok (S (length a + length b)) a b P [] post D G w) as
    (a' & b' & out & P' & Q' & G1 & E & Hnil & Hm & HP & HQ & HG1); [lia|lia|].
  change (alen (@nil (slot V))) with 0 in E, HQ. rewrite Z.add_0_r in E, HQ. cbn [app] in E. fold middle in E, HP, HQ.
  replace (Z.to_nat (middle + alen b - alen P)) with (length a + length b)%nat by (unfold middle, alen; lia).
  rewrite <-HPD in E. wstep E. clear E.
  assert (alen out + (alen a' + alen b') = alen a + alen b) as Hlen.
  { apply (f_equal length) in Hm. rewrite merge_length, !length_app in Hm. unfold alen. lia. }
  pose proof (alen_nonneg a'). pose proof (alen_nonneg b').
  destruct (merge_rest_ok a' P' (Q' ++ map Some b' ++ post) (D ++ map Some out) G1 w) as (R & G2 & E & HR & HG2); [lia|].
  rewrite (alen_app D), alen_map, <-!app_assoc, <-HPD in E.
  replace (Z.to_nat (middle - alen P')) with (length a') by (unfold alen in *; lia). wstep E. clear E.
  destruct (merge_rest_ok b' (P' ++ R ++ Q') post (D ++ map Some out ++ map Some a') G2 w) as (R2 & G3 & E & HR2 & HG3); [lia|].
  rewrite !alen_app, !alen_map, <-!app_assoc, <-HPD in E.
  replace (Z.to_nat (middle + alen b - (middle + alen Q'))) with (length b') by (unfold alen in *; lia).
  replace (alen P' + (alen R + alen Q')) with (middle + alen Q') in E by lia.
  replace (alen P + (alen out + alen a')) with (alen P + alen out + alen a') in E by lia.
  wstep E. clear E. wrun. exists (P' ++ R ++ Q' ++ R2), G3. split_and!.
  - rewrite Hm, !map_app, <-!app_assoc. done.
  - rewrite !alen_app. lia.
  - lia.
Qed.

Lemma sort_pass_ok fuel xs P D G w wd count :
  (length xs < fuel)%nat → alen P = alen D → alen G = alen xs → count = alen P + alen xs →
  0 < wd < count → count <= INT64_MAX → (alen P = 0 ∨ 2 * wd <= alen P) →
  ∃ src, sort_pass fuel (Some t) (P ++ map Some xs) (D ++ G) wd (alen P) count w =
    Some ((src, D ++ map Some (pass cmp fuel (Z.to_nat wd) xs)), w) ∧ alen src = count.
Proof using Hok.
  revert xs P D G. induction fuel as [|fuel IH]; intros xs P D G Hf HPD HG Hc Hw Hmax Hinv; [lia|].
  cbn [sort_pass]. pose proof (alen_nonneg P). pose proof (alen_nonneg xs).
  destruct xs as [|x xs].
  { change (alen (@nil V)) with 0 in *. rewrite (proj2 (Z.ltb_ge _ _)) by lia.
    assert (G = []) as -> by (destruct G; [done|unfold alen in HG; simpl in HG; lia]).
    cbn [map]. rewrite !app_nil_r. exists P. split; [done|lia]. }
  set (l := x :: xs) in *. assert (0 < alen l) by (unfold alen; simpl; lia).
  rewrite (proj2 (Z.ltb_lt _ _)) by lia.
  assert (pass cmp (S fuel) (Z.to_nat wd) l = merge cmp (take (Z.to_nat wd) l) (take (Z.to_nat wd) (drop (Z.to_nat wd) l)) ++
    pass cmp fuel (Z.to_nat wd) (drop (2 * Z.to_nat wd) l)) as -> by done.
  set (a := take (Z.to_nat wd) l). set (b := take (Z.to_nat wd) (drop (Z.to_nat wd) l)).
  set (rest := drop (2 * Z.to_nat wd) l).
  assert (l = a ++ b ++ rest) as El.
  { unfold a, b, rest. replace (2 * Z.to_nat wd)%nat with (Z.to_nat wd + Z.to_nat wd)%nat by lia.
    by rewrite <-drop_drop, !take_drop. }
  assert (alen a = Z.min wd (alen l) ∧ alen b = Z.min wd (alen l - alen a) ∧ alen rest = alen l - alen a - alen b)
    as (Ha & Hb & Hr).
  { unfold a, b, rest, alen. rewrite !length_take, !length_drop. lia. }
  unfold INT64_MAX in *. rewrite !(u64_id (alen P + wd)) by (unfold_words; lia).
  assert ((if alen P + wd <? count then alen P + wd else count) = alen P + alen a) as ->
    by (case Z.ltb_spec; lia).
  rewrite !(u64_id (alen P + alen a + wd)) by (unfold_words; lia).
  assert ((if alen P + alen a + wd <? count then alen P + alen a + wd else count) = alen P + alen a + alen b) as ->
    by (case Z.ltb_spec; lia).
  destruct (sort_merge_ok a b P (map Some rest) D G w HPD) as (R & G' & E & HR & HG'); [lia|].
  clearbody a b rest. clearbody l. rewrite El. rewrite !map_app. wstep E. clear E.
  rewrite (u64_id (wd * 2)) by (unfold_words; lia). rewrite u64_id by (unfold_words; lia).
  assert (alen (merge cmp a b) = alen a + alen b) as Hmg by (unfold alen; rewrite merge_length; lia).
  destruct (decide (rest = [])) as [Hnil|Hne].
  - assert (alen rest = 0) as Hr0 by (by rewrite Hnil).
    assert (G' = []) as -> by (destruct G'; [done|unfold alen in *; simpl in *; lia]).
    exists R. split; [|lia]. rewrite Hnil. cbn [map]. rewrite !app_nil_r.
    assert (pass cmp fuel (Z.to_nat wd) [] = []) as -> by (by destruct fuel).
    rewrite app_nil_r. destruct fuel; [exfalso; unfold alen in *; lia|]. cbn [sort_pass].
    by rewrite (proj2 (Z.ltb_ge _ _)) by lia.
  - assert (0 < alen rest) by (destruct rest; [done|unfold alen; simpl; lia]).
    destruct (IH rest R (D ++ map Some (merge cmp a b)) G') as (src & E & Hsrc); try lia.
    { unfold alen in *. lia. }
    { rewrite alen_app, alen_map. lia. }
    replace (alen P + wd * 2) with (alen R) by lia. rewrite <-!app_assoc in E. rewrite E.
    exists src. split; [|done]. done.
Qed.

(** The whole loop: sorted, a permutation, and stable. *)
Lemma sort_passes_ok fuel xs dst w in_base wd count :
  alen xs = count → alen dst = count → 1 < count <= INT64_MAX → 0 < wd <= count →
  count <= wd * 2 ^ Z.of_nat fuel → runs cmp (Z.to_nat wd) xs →
  ∃ in_base' ys dst', sort_passes (S fuel) (Some t) in_base (map Some xs) dst wd count w =
    Some ((in_base', map Some ys, dst'), w) ∧ alen dst' = count ∧
    StronglySorted (cle cmp) ys ∧ ys ≡ₚ xs ∧ ∀ k, filter (eqv cmp k) ys = filter (eqv cmp k) xs.
Proof using Hok TotalCompare0.
  revert xs dst in_base wd. induction fuel as [|fuel IH]; intros xs dst in_base wd Hl Hd Hc Hw Hf Hr;
    cbn [sort_passes]; (destruct (Z.ltb_spec wd count) as [Hlt|Hge]; last first;
      [exists in_base, xs, dst; split_and!; try done;
       apply (runs_sorted cmp (Z.to_nat wd)); [unfold alen in *; lia|lia|done]|]).
  { change (2 ^ Z.of_nat 0) with 1 in Hf. lia. }
  destruct (sort_pass_ok (S (Z.to_nat count)) xs [] [] dst w wd count) as (src & E & Hs); try done; try lia.
  { unfold alen in *. lia. }
  { by left. }
  cbn [app] in E. change (alen (@nil (slot V))) with 0 in E. wstep E.
  destruct (pass_ok cmp (S (Z.to_nat count)) (Z.to_nat wd) xs) as (Hr' & Hp & Hst);
    [lia|unfold alen in *; lia|done|].
  set (ys := pass cmp (S (Z.to_nat count)) (Z.to_nat wd) xs) in *.
  assert (alen ys = count) as Hly by (apply Permutation_length in Hp; unfold alen in *; lia).
  assert (2 * wd <= 2 * INT64_MAX) by lia. unfold INT64_MAX in *.
  destruct (IH ys src (negb in_base) (if count / 2 <? wd then count else u64 (wd * 2)))
    as (ib & zs & dst' & E2 & Hd' & Hso & Hpz & Hsz); try done.
  - destruct (Z.ltb_spec (count / 2) wd); [lia|]. rewrite u64_id by (unfold_words; lia).
    Z.to_euclidean_division_equations; lia.
  - destruct (Z.ltb_spec (count / 2) wd).
    + pose proof (Z.pow_pos_nonneg 2 (Z.of_nat fuel)). nia.
    + rewrite u64_id by (unfold_words; lia). rewrite Nat2Z.inj_succ, Z.pow_succ_r in Hf by lia. lia.
  - destruct (Z.ltb_spec (count / 2) wd).
    + apply runs_last; [unfold alen in *; lia|].
      apply (runs_sorted cmp (2 * Z.to_nat wd)); [|lia|done].
      unfold alen in *. Z.to_euclidean_division_equations; lia.
    + rewrite u64_id by (unfold_words; lia). by replace (Z.to_nat (wd * 2)) with (2 * Z.to_nat wd)%nat by lia.
  - exists ib, zs, dst'. split; [exact E2|]. split_and!; try done.
    + by rewrite Hpz.
    + intros k. by rewrite Hsz.
Qed.

Lemma copy_callback w : ∃ copy, trait_callback (Some t) tr_copy_construct w = Some (copy, w) ∧
  ∀ v c, copy v = Some c → c = v.
Proof using Hok.
  destruct Hok as [(tr & copy & move & Htr & _ & _ & Hc & _ & Hid & _) _].
  exists copy. split; [|done]. by eapply callback_run.
Qed.

Lemma destroy_run pre xs tl w :
  ∃ R, sort_destroy_range (Some t) (pre ++ map Some xs ++ tl) (length xs) (alen pre) w =
    Some (pre ++ R ++ tl, MkWorld (w_malloc w) (w_blocks w) (w_objects w - alen xs)) ∧ alen R = alen xs.
Proof using Hok.
  revert pre w. induction xs as [|x xs IH]; intros pre w; cbn [sort_destroy_range length].
  { exists []. split; [|done]. destruct w. cbn. by rewrite Z.sub_0_r. }
  cbn [map app]. rewrite aget_middle by done. wrun. rewrite aset_middle by done. wrun.
  destruct (IH (pre ++ [None]) (MkWorld (w_malloc w) (w_blocks w) (w_objects w + -1))) as (R & E & HR).
  rewrite alen_app, <-!app_assoc in E. cbn [app] in E. exists (None :: R).
  assert (alen (x :: xs) = alen xs + 1) as Hx by (unfold alen; simpl; lia).
  split; [|unfold alen in *; simpl; lia]. etrans; [exact E|]. cbn. do 3 f_equal. lia.
Qed.

(** The copy loop makes all copies or stops at the first that fails. *)
Lemma sort_copy_ok pre xs base tl G w :
  base = map Some pre ++ map Some xs ++ tl → alen G = alen xs →
  ∃ ok n done rest G', sort_copy (length xs) (Some t) base (map Some pre ++ G) (alen pre) w =
      Some ((ok, n, map Some (pre ++ done) ++ G'), MkWorld (w_malloc w) (w_blocks w) (w_objects w + alen done)) ∧
    xs = done ++ rest ∧ n = alen (pre ++ done) ∧ (ok = true → rest = [] ∧ G' = []) ∧
    ((∀ v, v ∈ xs → copyable (Some t) v) → ok = true).
Proof using Hok.
  revert pre G w. induction xs as [|x xs IH]; intros pre G w Hb HG; cbn [sort_copy length].
  { exists true, (alen pre), [], [], G. rewrite !app_nil_r.
    assert (G = []) as -> by (destruct G; [done|unfold alen in HG; simpl in HG; lia]).
    split_and!; try done. destruct w. cbn. by rewrite Z.add_0_r. }
  destruct (copy_callback w) as (copy & E & Hid). wstep E.
  destruct G as [|g G]; [unfold alen in HG; simpl in HG; lia|].
  assert (alen pre = alen (map Some pre)) as Hpre by by rewrite alen_map.
  assert (aget base (alen pre) = Some (Some x)) as Hg by (rewrite Hb; by apply aget_middle). rewrite Hg. wrun.
  destruct (copy x) as [c|] eqn:Ec.
  - apply Hid in Ec as ->. wrun. rewrite (aset_middle (map Some pre)) by done. wrun.
    destruct (IH (pre ++ [x]) G (MkWorld (w_malloc w) (w_blocks w) (w_objects w + 1)))
      as (ok & n & dn & rest & G' & E2 & Hxs & Hn & Hok1 & Hcp).
    { by rewrite Hb, map_app, <-!app_assoc. }
    { unfold alen in *. simpl in HG. lia. }
    rewrite (map_app _ pre), <-!app_assoc, (alen_app pre) in E2. cbn [map app] in E2.
    exists ok, n, (x :: dn), rest, G'. split_and!.
    + etrans; [exact E2|]. cbn. do 3 f_equal. unfold alen. simpl. lia.
    + by rewrite Hxs.
    + by rewrite Hn, <-app_assoc.
    + done.
    + intros Hall. apply Hcp. intros v Hv. apply Hall. by right.
  - exists false, (alen pre), [], (x :: xs), (g :: G). rewrite app_nil_r. split_and!; try done.
    + destruct w. cbn. by rewrite Z.add_0_r.
    + intros Hall. destruct (Hall x) as (tr & copy' & Htr & Hc' & [y Hy]); [by left|].
      pose proof (callback_run (Some t) tr_copy_construct t tr copy' w eq_refl Htr Hc') as E'.
      rewrite E in E'. simplify_eq.
Qed.

Lemma sort_traits : cmeta_type_require_traits (Some t) sort_required = CMETA_OK →
  ∃ tr, ty_traits t = Some tr.
Proof using. unfold cmeta_type_require_traits. cbn. destruct (ty_traits t); [eauto|done]. Qed.

(** The result of sorting [xs]: sorted, with equivalent elements in their
    original order. *)
Definition stably_sorted (xs ys : list V) : Prop :=
  StronglySorted (cle cmp) ys ∧ ys ≡ₚ xs ∧ ∀ k, filter (eqv cmp k) ys = filter (eqv cmp k) xs.

(** The body behind the checks, with the scratch block allocated. *)
Definition sort_body (address : Z) (elements : list (slot V)) (count : Z) (scratch : option Z) :
    M (stl_status * option (Z * list (slot V))) :=
  '(ok, copied, slots) ← sort_copy (Z.to_nat count) (Some t) elements (replicate (Z.to_nat count) None) 0;
  if negb ok then
    _ ← sort_destroy_range (Some t) slots (Z.to_nat copied) 0;
    _ ← sequence_deallocate scratch;
    mret (STL_OUT_OF_MEMORY, Some (address, elements))
  else
  elements ← sort_destroy_range (Some t) elements (Z.to_nat count) 0;
  '(in_base, source, destination) ← sort_passes 65 (Some t) false slots elements 1 count;
  elements ← (if (in_base : bool) then mret source else
              '(_, _, elements) ← sort_merge_rest (Z.to_nat count) (Some t) source destination 0 0;
              mret elements);
  _ ← sequence_deallocate scratch;
  mret (STL_OK, Some (address, elements)).

Lemma sort_body_ok address xs p w :
  1 < alen xs <= INT64_MAX →
  ∃ st l w', sort_body address (map Some xs) (alen xs) (Some p) w = Some ((st, Some (address, l)), w') ∧
    w_blocks w' = w_blocks w - 1 ∧ w_objects w' = w_objects w ∧
    (if bool_decide (st = STL_OK) then ∃ ys, l = map Some ys ∧ stably_sorted xs ys
     else st = STL_OUT_OF_MEMORY ∧ l = map Some xs) ∧
    ((∀ v, v ∈ xs → copyable (Some t) v) → st = STL_OK).
Proof using Hok TotalCompare0.
  intros Hc. unfold sort_body. assert (Z.to_nat (alen xs) = length xs) as Hn by (unfold alen; lia). rewrite Hn.
  destruct (sort_copy_ok [] xs (map Some xs) [] (replicate (length xs) None) w)
    as (ok & n & dn & rest & G & E & Hxs & Hnn & Hok1 & Hcp).
  { by rewrite app_nil_r. }
  { unfold alen. by rewrite length_replicate. }
  change (alen (@nil V)) with 0 in E. cbn [map app] in E, Hnn. wstep E. destruct ok; cbn [negb].
  - destruct (Hok1 eq_refl) as [-> ->]. rewrite app_nil_r in Hxs. subst dn.
    destruct (destroy_run [] xs [] (MkWorld (w_malloc w) (w_blocks w) (w_objects w + alen xs))) as (R & E2 & HR).
    change (alen (@nil (slot V))) with 0 in E2. cbn [app] in E2. rewrite !app_nil_r in E2. wstep E2.
    rewrite app_nil_r. destruct (sort_passes_ok 64 xs R (MkWorld (w_malloc w) (w_blocks w) (w_objects w + alen xs - alen xs))
      false 1 (alen xs)) as (ib & ys & dst & E3 & Hd & Hsorted); try done; try lia.
    { change (2 ^ Z.of_nat 64) with 18446744073709551616. unfold INT64_MAX in *. lia. }
    { apply runs_one. }
    cbn [w_malloc w_blocks w_objects] in *. wstep E3. destruct Hsorted as (Hs1 & Hs2 & Hs3).
    assert (alen ys = alen xs) as Hly by (apply Permutation_length in Hs2; unfold alen; lia).
    assert (∃ w', (if ib : bool then mret (map Some ys) else
      '(_, _, elements) ← sort_merge_rest (length xs) (Some t) (map Some ys) dst 0 0; mret elements)
      (MkWorld (w_malloc w) (w_blocks w) (w_objects w + alen xs - alen xs)) = Some (map Some ys, w') ∧
      w_blocks w' = w_blocks w ∧ w_objects w' = w_objects w) as (w4 & E4 & Hb4 & Ho4).
    { destruct ib.
      - eexists. split; [done|]. split; [done|cbn; lia].
      - destruct (merge_rest_ok ys [] [] [] dst (MkWorld (w_malloc w) (w_blocks w) (w_objects w + alen xs - alen xs)))
          as (R' & G' & E4 & _ & HG'); [lia|].
        change (alen (@nil (slot V))) with 0 in E4. cbn [app] in E4. rewrite !app_nil_r in E4.
        replace (length xs) with (length ys) by (unfold alen in Hly; lia). wstep E4. wrun.
        assert (G' = []) as -> by (destruct G'; [done|unfold alen in HG', Hd, Hly; simpl in HG'; lia]). rewrite app_nil_r.
        eexists. split; [done|]. split; [done|cbn; lia]. }
    wstep E4. cbn. do 3 eexists. split; [done|]. cbn. split_and!; try done; try lia. by exists ys.
  - assert (Z.to_nat n = length dn) as Hnl by (rewrite Hnn; unfold alen; lia). rewrite Hnl.
    destruct (destroy_run [] dn G (MkWorld (w_malloc w) (w_blocks w) (w_objects w + alen dn))) as (R & E2 & HR).
    change (alen (@nil (slot V))) with 0 in E2. cbn [app] in E2. wstep E2. cbn. do 3 eexists. split; [done|].
    cbn. split_and!; try done; try lia. intros Hall. by discriminate (Hcp Hall).
Qed.

Lemma short_sorted (ys : list V) : (length ys <= 1)%nat → stably_sorted ys ys.
Proof using Type. intros Hl. destruct ys as [|y [|? ?]]; try (simpl in Hl; lia); (split; [|done]); repeat constructor. Qed.
(** C31. [stable_sort] sorts in place and stably: it never runs into undefined
    behaviour; on success the array holds the same elements, sorted, with
    equivalent ones in their original order; on every error (limit, memory, a
    copy that fails) the array is as it was. The scratch block is returned and
    every copy destroyed in all cases, and with memory available, the limit
    large enough and the elements copyable it succeeds. *)
Theorem stable_sort_exact address xs limit w :
  is_u64 (ty_size t) → is_u64 (ty_align t) → alen xs <= INT64_MAX →
  ty_size t ≠ 0 → sequence_alignment_valid (ty_align t) = true → address mod ty_align t = 0 →
  cmeta_type_require_traits (Some t) sort_required = CMETA_OK →
  ∃ st l w', stable_sort (Some (address, map Some xs)) (alen xs) (Some t) limit w =
      Some ((st, Some (address, l)), w') ∧
    w_same w w' ∧
    (if bool_decide (st = STL_OK) then ∃ ys, l = map Some ys ∧ stably_sorted xs ys else l = map Some xs) ∧
    (alen xs * (ty_size t + ty_align t) + overhead (ty_align t) <= Z.min limit SIZE_MAX →
     mallocs 1 (ty_align t) w → (∀ v, v ∈ xs → copyable (Some t) v) → st = STL_OK).
Proof using Hok TotalCompare0.
  intros Hsz Hal Hc H0 Hv Hmod Hreq. unfold stable_sort.
  rewrite (proj2 (Z.eqb_neq _ _) H0), Hv, Hreq, Hmod. cbn [negb orb]. rewrite bool_decide_true by done. cbn [negb].
  pose proof (alen_nonneg xs).
  destruct (Z.eqb_spec (alen xs) 0) as [Hz|Hz].
  { do 3 eexists. split; [done|]. split; [done|]. rewrite bool_decide_true by done.
    split; [exists xs; split; [done|apply short_sorted; unfold alen in Hz; lia]|done]. }
  rewrite Z.eqb_refl. cbn [negb]. destruct (Z.eqb_spec (alen xs) 1) as [H1|H1].
  { do 3 eexists. split; [done|]. split; [done|]. rewrite bool_decide_true by done.
    split; [exists xs; split; [done|apply short_sorted; unfold alen in H1; lia]|done]. }
  assert (∀ st, st ≠ STL_OK → (alen xs * (ty_size t + ty_align t) + overhead (ty_align t) <= Z.min limit SIZE_MAX →
      mallocs 1 (ty_align t) w → False) → ∃ st' l w',
    mret (M := M) (st, Some (address, map Some xs)) w = Some ((st', Some (address, l)), w') ∧ w_same w w' ∧
    (if bool_decide (st' = STL_OK) then ∃ ys, l = map Some ys ∧ stably_sorted xs ys else l = map Some xs) ∧
    (alen xs * (ty_size t + ty_align t) + overhead (ty_align t) <= Z.min limit SIZE_MAX →
     mallocs 1 (ty_align t) w → (∀ v, v ∈ xs → copyable (Some t) v) → st' = STL_OK)) as Hfail.
  { intros st Hst Hno. do 3 eexists. split; [done|]. split; [done|]. rewrite bool_decide_false by done.
    split; [done|]. intros ? ? ?. by exfalso; auto. }
  destruct (proj1 (alignment_valid_pow2 _ Hal) Hv) as (k & Hk & Ek).
  pose proof (pow2_bounds k Hk) as Hpk. rewrite <-Ek in Hpk.
  assert (0 < overhead (ty_align t)) by (unfold overhead, sizeof_ptr; lia).
  unfold is_u64, INT64_MAX in *.
  unfold sequence_stride. rewrite (proj2 (Z.eqb_neq _ _) H0), Hv. cbn [negb orb].
  destruct (Z.ltb_spec (SIZE_MAX - (ty_align t - 1)) (ty_size t)); [apply Hfail; [done|nia]|].
  destruct (align_up (ty_size t) k) as (q & Hq & Hqb); [done|unfold_words; lia|rewrite <-Ek; lia|].
  rewrite <-Ek in Hq, Hqb. rewrite Hq. set (stride := q * ty_align t) in *.
  rewrite sequence_bytes_spec by (unfold_words; lia).
  destruct (Z.leb_spec (alen xs * stride) SIZE_MAX); [|apply Hfail; [done|nia]].
  destruct (Z.ltb_spec limit (alen xs * stride)); [apply Hfail; [done|nia]|].
  destruct (allocate_cases (alen xs) stride (ty_align t) w) as (st & p & w1 & E1 & Ho1 & Hb1 & Hen);
    [unfold_words; lia|lia|done|done|].
  wstep E1. case_bool_decide as Hst; cbn [negb]; last first.
  { destruct Hb1 as [-> Hb1]. do 3 eexists. split; [done|]. split; [done|]. rewrite bool_decide_false by done.
    split; [done|]. intros Hfit Hm _. destruct Hst. apply (Hen 0%nat Hm). nia. }
  destruct Hb1 as [[p' ->] Hb1].
  destruct (sort_body_ok address xs p' w1) as (st2 & l & w2 & E2 & Hb2 & Ho2 & Hres & Hcp); [unfold INT64_MAX; lia|].
  exists st2, l, w2. split; [exact E2|]. split; [split; lia|]. split; [|auto].
  case_bool_decide; [done|tauto].
Qed.
End Arrays.

#[export] Instance int_total : TotalCompare (λ a b : Z, a - b).
Proof. split; lia. Qed.

Lemma stable_sort_exact_witness :
  ∃ st l w', stable_sort (Some (64, map Some [3; 1; 2])) 3 (Some int_type) 100 (MkWorld [Some 4096] 0 3) =
    Some ((st, Some (64, l)), w').
Proof.
  destruct (stable_sort_exact (λ a b, a - b) int_type) with (address := 64) (xs := [3; 1; 2]) (limit := 100)
    (w := MkWorld [Some 4096] 0 3) as (st & l & w' & E & _).
  - split; [exact int_type_ok|]. by exists int_traits.
  - by_eval.
  - by_eval.
  - by_eval.
  - by_eval.
  - reflexivity.
  - reflexivity.
  - reflexivity.
  - exists st, l, w'. exact E.
Defined.
