(* ===== verification/RbTree.v ===== *)
(** * The red-black tree ([cstl/src/rbtree.c])

    The tree behind [map.c], [set.c] and [multimap.c]. A node is a block of
    the heap of nodes with pointers to its parent and children and to its
    neighbours in key order; a pointer is an address or [NULL], and reading or
    writing through a pointer that is null or that points to no node has no
    result. This file holds the data and the operations; the theorems are in
    RbShape, RbInsert, RbDelete and RbSpec. *)

From stdpp Require Import gmap.
From S2P Require Import Prelude World Sequence.
Local Open Scope Z_scope.

(** [calloc] gives a block that is not in use: the address it chooses depends
    on the nodes that are allocated. *)
Class Allocator := {
  next_block : gset Z → Z;
  next_block_fresh X : next_block X ∉ X
}.

#[export] Instance fresh_allocator : Allocator.
Proof. refine {| next_block := fresh |}. intros X. apply is_fresh. Defined.

(** A pointer to a node. *)
Abbreviation ptr := (option Z) (only parsing).

(** A pointer to an object of its own: the address and the memory there. *)
Abbreviation object A := (option (Z * slot A)) (only parsing).

(** ** Data *)

Record rbtree_node (K V : Type) := MkRbNode {
  n_parent : ptr;
  n_left : ptr;
  n_right : ptr;
  n_previous : ptr;
  n_next : ptr;
  n_key : object K;
  n_value : object V;
  n_red : bool
}.
#[global] Arguments MkRbNode {K V} _ _ _ _ _ _ _ _.
#[global] Arguments n_parent {K V} _.
#[global] Arguments n_left {K V} _.
#[global] Arguments n_right {K V} _.
#[global] Arguments n_previous {K V} _.
#[global] Arguments n_next {K V} _.
#[global] Arguments n_key {K V} _.
#[global] Arguments n_value {K V} _.
#[global] Arguments n_red {K V} _.

(** [rb_nodes] is the heap: the nodes that are allocated. *)
Record rbtree_t (K V : Type) := MkRbTree {
  rb_nodes : gmap Z (rbtree_node K V);
  rb_root : ptr;
  rb_head : ptr;
  rb_tail : ptr;
  rb_size : Z;
  rb_key_size : Z;
  rb_key_stride : Z;
  rb_key_align : Z;
  rb_value_size : Z;
  rb_value_stride : Z;
  rb_value_align : Z;
  rb_element_limit : Z;
  rb_key_type : option (cmeta_type_desc K);
  rb_value_type : option (cmeta_type_desc V);
  rb_compare : option (K → K → Z);
  rb_allow_duplicates : bool
}.
#[global] Arguments MkRbTree {K V} _ _ _ _ _ _ _ _ _ _ _ _ _ _ _ _.
#[global] Arguments rb_nodes {K V} _.
#[global] Arguments rb_root {K V} _.
#[global] Arguments rb_head {K V} _.
#[global] Arguments rb_tail {K V} _.
#[global] Arguments rb_size {K V} _.
#[global] Arguments rb_key_size {K V} _.
#[global] Arguments rb_key_stride {K V} _.
#[global] Arguments rb_key_align {K V} _.
#[global] Arguments rb_value_size {K V} _.
#[global] Arguments rb_value_stride {K V} _.
#[global] Arguments rb_value_align {K V} _.
#[global] Arguments rb_element_limit {K V} _.
#[global] Arguments rb_key_type {K V} _.
#[global] Arguments rb_value_type {K V} _.
#[global] Arguments rb_compare {K V} _.
#[global] Arguments rb_allow_duplicates {K V} _.

Inductive rbtree_put_result := RBTREE_INSERTED | RBTREE_REPLACED.

Section Nodes.
Context {K V : Type}.
Implicit Types (n : rbtree_node K V) (tree : rbtree_t K V) (p : ptr).

(** Assignments to one field. *)
Definition with_parent p n : rbtree_node K V :=
  MkRbNode p (n_left n) (n_right n) (n_previous n) (n_next n) (n_key n) (n_value n) (n_red n).
Definition with_left p n : rbtree_node K V :=
  MkRbNode (n_parent n) p (n_right n) (n_previous n) (n_next n) (n_key n) (n_value n) (n_red n).
Definition with_right p n : rbtree_node K V :=
  MkRbNode (n_parent n) (n_left n) p (n_previous n) (n_next n) (n_key n) (n_value n) (n_red n).
Definition with_previous p n : rbtree_node K V :=
  MkRbNode (n_parent n) (n_left n) (n_right n) p (n_next n) (n_key n) (n_value n) (n_red n).
Definition with_next p n : rbtree_node K V :=
  MkRbNode (n_parent n) (n_left n) (n_right n) (n_previous n) p (n_key n) (n_value n) (n_red n).
Definition with_value (v : object V) n : rbtree_node K V :=
  MkRbNode (n_parent n) (n_left n) (n_right n) (n_previous n) (n_next n) (n_key n) v (n_red n).
Definition with_red (b : bool) n : rbtree_node K V :=
  MkRbNode (n_parent n) (n_left n) (n_right n) (n_previous n) (n_next n) (n_key n) (n_value n) b.

Definition with_nodes tree (h : gmap Z (rbtree_node K V)) : rbtree_t K V :=
  MkRbTree h (rb_root tree) (rb_head tree) (rb_tail tree) (rb_size tree) (rb_key_size tree)
    (rb_key_stride tree) (rb_key_align tree) (rb_value_size tree) (rb_value_stride tree)
    (rb_value_align tree) (rb_element_limit tree) (rb_key_type tree) (rb_value_type tree)
    (rb_compare tree) (rb_allow_duplicates tree).
Definition with_root tree (root : ptr) : rbtree_t K V :=
  MkRbTree (rb_nodes tree) root (rb_head tree) (rb_tail tree) (rb_size tree) (rb_key_size tree)
    (rb_key_stride tree) (rb_key_align tree) (rb_value_size tree) (rb_value_stride tree)
    (rb_value_align tree) (rb_element_limit tree) (rb_key_type tree) (rb_value_type tree)
    (rb_compare tree) (rb_allow_duplicates tree).
Definition with_ends tree (head tail : ptr) : rbtree_t K V :=
  MkRbTree (rb_nodes tree) (rb_root tree) head tail (rb_size tree) (rb_key_size tree)
    (rb_key_stride tree) (rb_key_align tree) (rb_value_size tree) (rb_value_stride tree)
    (rb_value_align tree) (rb_element_limit tree) (rb_key_type tree) (rb_value_type tree)
    (rb_compare tree) (rb_allow_duplicates tree).
Definition with_size tree (size : Z) : rbtree_t K V :=
  MkRbTree (rb_nodes tree) (rb_root tree) (rb_head tree) (rb_tail tree) size (rb_key_size tree)
    (rb_key_stride tree) (rb_key_align tree) (rb_value_size tree) (rb_value_stride tree)
    (rb_value_align tree) (rb_element_limit tree) (rb_key_type tree) (rb_value_type tree)
    (rb_compare tree) (rb_allow_duplicates tree).

(** Reading and writing through a pointer. *)
Definition node_at tree p : option (rbtree_node K V) := a ← p; rb_nodes tree !! a.
Definition update tree p (f : rbtree_node K V → rbtree_node K V) : option (rbtree_t K V) :=
  a ← p; n ← rb_nodes tree !! a; Some (with_nodes tree (<[a := f n]> (rb_nodes tree))).
(** [if (p != NULL) ...] in front of a write. *)
Definition update_if tree p (f : rbtree_node K V → rbtree_node K V) : option (rbtree_t K V) :=
  if is_null p then Some tree else update tree p f.

(** The loops go from node to node: one step more than there are nodes. *)
Definition node_fuel tree : nat := S (size (rb_nodes tree)).

(** ** Objects *)

Definition rbtree_compare_fn tree : option (K → K → Z) :=
  match rb_key_type tree with
  | Some t => tr ← ty_traits t; tr_compare tr
  | None => rb_compare tree
  end.

Definition rbtree_compare_key tree (left right : K) : option Z :=
  f ← rbtree_compare_fn tree; Some (f left right).

(** The key a node points to. *)
Definition key_of n : option K := o ← n_key n; snd o.
End Nodes.

(** The status and the copy. *)
Definition rbtree_copy_object {A} (type : option (cmeta_type_desc A)) (stride alignment : Z)
    (source : option A) : M (stl_status * object A) :=
  match source with
  | None => mret (STL_INVALID_ARGUMENT, None)
  | Some v =>
      '(status, p) ← sequence_allocate 1 stride alignment;
      if negb (bool_decide (status = STL_OK)) then mret (status, None) else
      '(status, copy) ← sequence_copy type (if is_null p then None else Some None) (Some (Some v));
      if negb (bool_decide (status = STL_OK)) then
        _ ← sequence_deallocate p; mret (status, None)
      else
        p ← lift p; copy ← lift copy; mret (STL_OK, Some (p, copy))
  end.

Definition rbtree_destroy_object {A} (type : option (cmeta_type_desc A)) (o : object A) : M unit :=
  match o with
  | None => mret tt
  | Some (p, x) =>
      _ ← sequence_destroy_value type (Some x);
      sequence_deallocate (Some p)
  end.

Section Tree.
Context {K V : Type} {AL : Allocator}.
Implicit Types (n : rbtree_node K V) (tree : rbtree_t K V) (p : ptr).

(** The status, the address and the node. *)
Definition rbtree_node_create tree (key : option K) (value : option V) :
    M (stl_status * option (Z * rbtree_node K V)) :=
  block ← malloc;
  match block with
  | None => mret (STL_OUT_OF_MEMORY, None)
  | Some _ =>
      '(status, k) ← rbtree_copy_object (rb_key_type tree) (rb_key_stride tree) (rb_key_align tree) key;
      '(status, v) ← (if bool_decide (status = STL_OK) then
        rbtree_copy_object (rb_value_type tree) (rb_value_stride tree) (rb_value_align tree) value
        else mret (status, None));
      if negb (bool_decide (status = STL_OK)) then
        _ ← rbtree_destroy_object (rb_key_type tree) k;
        _ ← mfree;
        mret (status, None)
      else
        mret (STL_OK, Some (next_block (dom (rb_nodes tree)), MkRbNode None None None None None k v true))
  end.

(** ** Colours and rotations *)

Definition rbtree_is_red tree p : option bool :=
  match p with None => Some false | Some _ => n ← node_at tree p; Some (n_red n) end.

Definition rbtree_is_black tree p : option bool :=
  match p with None => Some true | Some _ => n ← node_at tree p; Some (negb (n_red n)) end.

Definition rbtree_rotate_left tree (node : ptr) : option (rbtree_t K V) :=
  n ← node_at tree node;
  let pivot := n_right n in
  pv ← node_at tree pivot;
  tree ← update tree node (with_right (n_left pv));
  tree ← update_if tree (n_left pv) (with_parent node);
  n ← node_at tree node;
  tree ← update tree pivot (with_parent (n_parent n));
  tree ← (if is_null (n_parent n) then Some (with_root tree pivot) else
    pa ← node_at tree (n_parent n);
    if bool_decide (node = n_left pa) then update tree (n_parent n) (with_left pivot)
    else update tree (n_parent n) (with_right pivot));
  tree ← update tree pivot (with_left node);
  update tree node (with_parent pivot).

Definition rbtree_rotate_right tree (node : ptr) : option (rbtree_t K V) :=
  n ← node_at tree node;
  let pivot := n_left n in
  pv ← node_at tree pivot;
  tree ← update tree node (with_left (n_right pv));
  tree ← update_if tree (n_right pv) (with_parent node);
  n ← node_at tree node;
  tree ← update tree pivot (with_parent (n_parent n));
  tree ← (if is_null (n_parent n) then Some (with_root tree pivot) else
    pa ← node_at tree (n_parent n);
    if bool_decide (node = n_right pa) then update tree (n_parent n) (with_right pivot)
    else update tree (n_parent n) (with_left pivot));
  tree ← update tree pivot (with_right node);
  update tree node (with_parent pivot).

(** ** Insertion *)

(** The two halves of the loop body; the tree and the next [node]. *)
Definition insert_fix_left tree (node parent grandparent : ptr) : option (rbtree_t K V * ptr) :=
  gp ← node_at tree grandparent;
  let uncle := n_right gp in
  uncle_red ← rbtree_is_red tree uncle;
  if (uncle_red : bool) then
    tree ← update tree parent (with_red false);
    tree ← update tree uncle (with_red false);
    tree ← update tree grandparent (with_red true);
    Some (tree, grandparent)
  else
    pa ← node_at tree parent;
    '(tree, node, parent, grandparent) ← (if bool_decide (node = n_right pa) then
      tree ← rbtree_rotate_left tree parent;
      n ← node_at tree parent;
      pa ← node_at tree (n_parent n);
      Some (tree, parent, n_parent n, n_parent pa)
      else Some (tree, node, parent, grandparent));
    tree ← update tree parent (with_red false);
    tree ← update tree grandparent (with_red true);
    tree ← rbtree_rotate_right tree grandparent;
    Some (tree, node).

Definition insert_fix_right tree (node parent grandparent : ptr) : option (rbtree_t K V * ptr) :=
  gp ← node_at tree grandparent;
  let uncle := n_left gp in
  uncle_red ← rbtree_is_red tree uncle;
  if (uncle_red : bool) then
    tree ← update tree parent (with_red false);
    tree ← update tree uncle (with_red false);
    tree ← update tree grandparent (with_red true);
    Some (tree, grandparent)
  else
    pa ← node_at tree parent;
    '(tree, node, parent, grandparent) ← (if bool_decide (node = n_left pa) then
      tree ← rbtree_rotate_right tree parent;
      n ← node_at tree parent;
      pa ← node_at tree (n_parent n);
      Some (tree, parent, n_parent n, n_parent pa)
      else Some (tree, node, parent, grandparent));
    tree ← update tree parent (with_red false);
    tree ← update tree grandparent (with_red true);
    tree ← rbtree_rotate_left tree grandparent;
    Some (tree, node).

Fixpoint insert_fix_loop (fuel : nat) tree (node : ptr) : option (rbtree_t K V) :=
  match fuel with
  | O => None
  | S fuel =>
      n ← node_at tree node;
      if is_null (n_parent n) then Some tree else
      pa ← node_at tree (n_parent n);
      if negb (n_red pa) then Some tree else
      gp ← node_at tree (n_parent pa);
      '(tree, node) ← (if bool_decide (n_parent n = n_left gp)
        then insert_fix_left tree node (n_parent n) (n_parent pa)
        else insert_fix_right tree node (n_parent n) (n_parent pa));
      insert_fix_loop fuel tree node
  end.

Definition rbtree_insert_fix tree (node : ptr) : option (rbtree_t K V) :=
  tree ← insert_fix_loop (node_fuel tree) tree node;
  update tree (rb_root tree) (with_red false).

(** ** Creation and destruction *)

(** [out]: whether the caller passes memory for the tree pointer. *)
Definition rbtree_create (out : bool) (key_type : option (cmeta_type_desc K))
    (value_type : option (cmeta_type_desc V)) (key_size key_align value_size value_align element_limit : Z)
    (compare : option (K → K → Z)) (allow_duplicates : bool) : M (stl_status * option (rbtree_t K V)) :=
  if negb out || (is_null value_type && (value_size =? 0)) || (is_null key_type && is_null compare)
  then mret (STL_INVALID_ARGUMENT, None) else
  match sequence_stride key_size key_align with
  | (STL_OK, Some key_stride) =>
      match sequence_stride value_size value_align with
      | (STL_OK, Some value_stride) =>
          block ← malloc;
          match block with
          | None => mret (STL_OUT_OF_MEMORY, None)
          | Some _ => mret (STL_OK, Some (MkRbTree ∅ None None None 0 key_size key_stride key_align
              value_size value_stride value_align element_limit key_type value_type compare allow_duplicates))
          end
      | (status, _) => mret (status, None)
      end
  | (status, _) => mret (status, None)
  end.

(** [free] of a node. *)
Definition free_node tree (a : Z) : M (rbtree_t K V) :=
  _ ← mfree; mret (with_nodes tree (delete a (rb_nodes tree))).

Fixpoint clear_loop (fuel : nat) tree (node : ptr) : M (rbtree_t K V) :=
  match fuel with
  | O => lift None
  | S fuel =>
      match node with
      | None => mret tree
      | Some a =>
          n ← lift (node_at tree node);
          _ ← rbtree_destroy_object (rb_key_type tree) (n_key n);
          _ ← rbtree_destroy_object (rb_value_type tree) (n_value n);
          tree ← free_node tree a;
          clear_loop fuel tree (n_next n)
      end
  end.

Definition rbtree_clear (tree : option (rbtree_t K V)) : M (option (rbtree_t K V)) :=
  match tree with
  | None => mret None
  | Some tree =>
      tree ← clear_loop (node_fuel tree) tree (rb_head tree);
      mret (Some (with_size (with_ends (with_root tree None) None None) 0))
  end.

Definition rbtree_destroy (tree : option (rbtree_t K V)) : M unit :=
  match tree with
  | None => mret tt
  | Some _ => _ ← rbtree_clear tree; mfree
  end.

(** ** Searching *)

Fixpoint find_node (fuel : nat) tree (key : K) (node : ptr) : option ptr :=
  match fuel with
  | O => None
  | S fuel =>
      match node with
      | None => Some None
      | Some _ =>
          n ← node_at tree node;
          k ← key_of n;
          comparison ← rbtree_compare_key tree key k;
          if comparison =? 0 then Some node else
          find_node fuel tree key (if comparison <? 0 then n_left n else n_right n)
      end
  end.

Definition rbtree_find (tree : option (rbtree_t K V)) (key : option K) : option ptr :=
  match tree, key with
  | Some tree, Some key => find_node (node_fuel tree) tree key (rb_root tree)
  | _, _ => Some None
  end.

(** The loops of the two bounds; [go_right] is the test of the comparison. *)
Fixpoint bound_node (go_right : Z → bool) (fuel : nat) tree (key : K) (node result : ptr) : option ptr :=
  match fuel with
  | O => None
  | S fuel =>
      match node with
      | None => Some result
      | Some _ =>
          n ← node_at tree node;
          k ← key_of n;
          comparison ← rbtree_compare_key tree k key;
          if go_right comparison then bound_node go_right fuel tree key (n_right n) result
          else bound_node go_right fuel tree key (n_left n) node
      end
  end.

Definition rbtree_lower_bound (tree : option (rbtree_t K V)) (key : option K) : option ptr :=
  match tree, key with
  | Some tree, Some key => bound_node (λ c, c <? 0) (node_fuel tree) tree key (rb_root tree) None
  | _, _ => Some None
  end.

Definition rbtree_upper_bound (tree : option (rbtree_t K V)) (key : option K) : option ptr :=
  match tree, key with
  | Some tree, Some key => bound_node (λ c, c <=? 0) (node_fuel tree) tree key (rb_root tree) None
  | _, _ => Some None
  end.

(** ** Putting *)

(** What the descent of [rbtree_put] finds: a node whose value is to be
    replaced, or the parent of the new node and the last comparison. *)
Inductive descent := Existing (node : ptr) | Vacant (parent : ptr) (comparison : Z).

Fixpoint put_descent (fuel : nat) tree (key : K) (node parent : ptr) (comparison : Z) : option descent :=
  match fuel with
  | O => None
  | S fuel =>
      match node with
      | None => Some (Vacant parent comparison)
      | Some _ =>
          n ← node_at tree node;
          k ← key_of n;
          comparison ← rbtree_compare_key tree key k;
          if (comparison =? 0) && negb (rb_allow_duplicates tree) then Some (Existing node) else
          put_descent fuel tree key (if comparison <? 0 then n_left n else n_right n) node comparison
      end
  end.

(** The new node in its place in the tree and in key order. *)
Definition link_node tree (node parent : ptr) (comparison : Z) : option (rbtree_t K V) :=
  tree ← update tree node (with_parent parent);
  if is_null parent then Some (with_ends (with_root tree node) node node) else
  if comparison <? 0 then
    tree ← update tree parent (with_left node);
    tree ← update tree node (with_next parent);
    pa ← node_at tree parent;
    tree ← update tree node (with_previous (n_previous pa));
    tree ← update tree parent (with_previous node);
    n ← node_at tree node;
    if is_null (n_previous n) then Some (with_ends tree node (rb_tail tree))
    else update tree (n_previous n) (with_next node)
  else
    tree ← update tree parent (with_right node);
    tree ← update tree node (with_previous parent);
    pa ← node_at tree parent;
    tree ← update tree node (with_next (n_next pa));
    tree ← update tree parent (with_next node);
    n ← node_at tree node;
    if is_null (n_next n) then Some (with_ends tree (rb_head tree) node)
    else update tree (n_next n) (with_previous node).

(** The value of a node is replaced by a copy. *)
Definition put_replace tree (node : ptr) (value : V) : M (stl_status * rbtree_t K V) :=
  '(status, replacement) ←
    rbtree_copy_object (rb_value_type tree) (rb_value_stride tree) (rb_value_align tree) (Some value);
  if negb (bool_decide (status = STL_OK)) then mret (status, tree) else
  n ← lift (node_at tree node);
  _ ← rbtree_destroy_object (rb_value_type tree) (n_value n);
  tree ← lift (update tree node (with_value replacement));
  mret (STL_OK, tree).

(** A new node. *)
Definition put_insert tree (key : K) (value : V) (parent : ptr) (comparison : Z) :
    M (stl_status * rbtree_t K V) :=
  '(status, node) ← rbtree_node_create tree (Some key) (Some value);
  match node with
  | None => mret (status, tree)
  | Some (a, n) =>
      tree ← lift (link_node (with_nodes tree (<[a := n]> (rb_nodes tree))) (Some a) parent comparison);
      tree ← lift (rbtree_insert_fix tree (Some a));
      mret (STL_OK, with_size tree (u64 (rb_size tree + 1)))
  end.

(** The status, the result (when there is one) and the tree. *)
Definition rbtree_put (tree : option (rbtree_t K V)) (key : option K) (value : option V) :
    M (stl_status * option rbtree_put_result * option (rbtree_t K V)) :=
  match tree, key, value with
  | Some t, Some key, Some value =>
      found ← lift (put_descent (node_fuel t) t key (rb_root t) None 0);
      match found with
      | Existing node =>
          '(status, t) ← put_replace t node value;
          mret (status, if bool_decide (status = STL_OK) then Some RBTREE_REPLACED else None, Some t)
      | Vacant parent comparison =>
          if rb_element_limit t <=? rb_size t then mret (STL_CAPACITY_EXCEEDED, None, tree) else
          '(status, t) ← put_insert t key value parent comparison;
          mret (status, if bool_decide (status = STL_OK) then Some RBTREE_INSERTED else None, Some t)
      end
  | _, _, _ => mret (STL_INVALID_ARGUMENT, None, tree)
  end.

(** ** Removal *)

Fixpoint minimum_loop (fuel : nat) tree (node : ptr) : option ptr :=
  match fuel with
  | O => None
  | S fuel =>
      match node with
      | None => Some None
      | Some _ =>
          n ← node_at tree node;
          if is_null (n_left n) then Some node else minimum_loop fuel tree (n_left n)
      end
  end.

Definition rbtree_minimum tree (node : ptr) : option ptr := minimum_loop (node_fuel tree) tree node.

Definition rbtree_transplant tree (removed replacement : ptr) : option (rbtree_t K V) :=
  r ← node_at tree removed;
  tree ← (if is_null (n_parent r) then Some (with_root tree replacement) else
    pa ← node_at tree (n_parent r);
    if bool_decide (removed = n_left pa) then update tree (n_parent r) (with_left replacement)
    else update tree (n_parent r) (with_right replacement));
  if is_null replacement then Some tree else
  r ← node_at tree removed;
  update tree replacement (with_parent (n_parent r)).

(** The two halves of the loop body; the tree, the next [node] and [parent]. *)
Definition delete_fix_left tree (parent : ptr) : option (rbtree_t K V * ptr * ptr) :=
  pa ← node_at tree parent;
  let sibling := n_right pa in
  sibling_red ← rbtree_is_red tree sibling;
  '(tree, sibling) ← (if (sibling_red : bool) then
    tree ← update tree sibling (with_red false);
    tree ← update tree parent (with_red true);
    tree ← rbtree_rotate_left tree parent;
    pa ← node_at tree parent;
    Some (tree, n_right pa)
    else Some (tree, sibling));
  if is_null sibling then
    pa ← node_at tree parent;
    Some (tree, parent, n_parent pa)
  else
    sb ← node_at tree sibling;
    left_black ← rbtree_is_black tree (n_left sb);
    right_black ← rbtree_is_black tree (n_right sb);
    if (left_black : bool) && (right_black : bool) then
      tree ← update tree sibling (with_red true);
      pa ← node_at tree parent;
      Some (tree, parent, n_parent pa)
    else
      '(tree, sibling) ← (if right_black then
        tree ← update_if tree (n_left sb) (with_red false);
        tree ← update tree sibling (with_red true);
        tree ← rbtree_rotate_right tree sibling;
        pa ← node_at tree parent;
        Some (tree, n_right pa)
        else Some (tree, sibling));
      pa ← node_at tree parent;
      tree ← update tree sibling (with_red (n_red pa));
      tree ← update tree parent (with_red false);
      sb ← node_at tree sibling;
      tree ← update_if tree (n_right sb) (with_red false);
      tree ← rbtree_rotate_left tree parent;
      Some (tree, rb_root tree, None).

Definition delete_fix_right tree (parent : ptr) : option (rbtree_t K V * ptr * ptr) :=
  pa ← node_at tree parent;
  let sibling := n_left pa in
  sibling_red ← rbtree_is_red tree sibling;
  '(tree, sibling) ← (if (sibling_red : bool) then
    tree ← update tree sibling (with_red false);
    tree ← update tree parent (with_red true);
    tree ← rbtree_rotate_right tree parent;
    pa ← node_at tree parent;
    Some (tree, n_left pa)
    else Some (tree, sibling));
  if is_null sibling then
    pa ← node_at tree parent;
    Some (tree, parent, n_parent pa)
  else
    sb ← node_at tree sibling;
    right_black ← rbtree_is_black tree (n_right sb);
    left_black ← rbtree_is_black tree (n_left sb);
    if (right_black : bool) && (left_black : bool) then
      tree ← update tree sibling (with_red true);
      pa ← node_at tree parent;
      Some (tree, parent, n_parent pa)
    else
      '(tree, sibling) ← (if left_black then
        tree ← update_if tree (n_right sb) (with_red false);
        tree ← update tree sibling (with_red true);
        tree ← rbtree_rotate_left tree sibling;
        pa ← node_at tree parent;
        Some (tree, n_left pa)
        else Some (tree, sibling));
      pa ← node_at tree parent;
      tree ← update tree sibling (with_red (n_red pa));
      tree ← update tree parent (with_red false);
      sb ← node_at tree sibling;
      tree ← update_if tree (n_left sb) (with_red false);
      tree ← rbtree_rotate_right tree parent;
      Some (tree, rb_root tree, None).

Fixpoint delete_fix_loop (fuel : nat) tree (node parent : ptr) : option (rbtree_t K V * ptr) :=
  match fuel with
  | O => None
  | S fuel =>
      if bool_decide (node = rb_root tree) then Some (tree, node) else
      black ← rbtree_is_black tree node;
      if negb black then Some (tree, node) else
      if is_null parent then Some (tree, node) else
      pa ← node_at tree parent;
      '(tree, node, parent) ← (if bool_decide (node = n_left pa) then delete_fix_left tree parent
        else delete_fix_right tree parent);
      delete_fix_loop fuel tree node parent
  end.

Definition rbtree_delete_fix tree (node parent : ptr) : option (rbtree_t K V) :=
  '(tree, node) ← delete_fix_loop (node_fuel tree) tree node parent;
  update_if tree node (with_red false).

(** A node with two children: its successor takes its place. *)
Definition replace_by_successor tree (node : ptr) : option (rbtree_t K V * bool * ptr * ptr) :=
  n ← node_at tree node;
  moved ← rbtree_minimum tree (n_right n);
  mv ← node_at tree moved;
  let moved_was_red := n_red mv in
  let fix_node := n_right mv in
  '(tree, fix_parent) ← (if bool_decide (n_parent mv = node) then
    tree ← update_if tree fix_node (with_parent moved);
    Some (tree, moved)
    else
      tree ← rbtree_transplant tree moved (n_right mv);
      n ← node_at tree node;
      tree ← update tree moved (with_right (n_right n));
      mv' ← node_at tree moved;
      tree ← update tree (n_right mv') (with_parent moved);
      Some (tree, n_parent mv));
  tree ← rbtree_transplant tree node moved;
  n ← node_at tree node;
  tree ← update tree moved (with_left (n_left n));
  mv' ← node_at tree moved;
  tree ← update tree (n_left mv') (with_parent moved);
  n ← node_at tree node;
  tree ← update tree moved (with_red (n_red n));
  Some (tree, moved_was_red, fix_node, fix_parent).

(** The node is taken out of the tree. *)
Definition unlink_node tree (node : ptr) : option (rbtree_t K V) :=
  n ← node_at tree node;
  '(tree, moved_was_red, fix_node, fix_parent) ← (if is_null (n_left n) then
    tree ← rbtree_transplant tree node (n_right n);
    Some (tree, n_red n, n_right n, n_parent n)
    else if is_null (n_right n) then
      tree ← rbtree_transplant tree node (n_left n);
      Some (tree, n_red n, n_left n, n_parent n)
    else replace_by_successor tree node);
  if negb moved_was_red then rbtree_delete_fix tree fix_node fix_parent else Some tree.

(** The node is taken out of the key order. *)
Definition unthread_node tree (node : ptr) : option (rbtree_t K V) :=
  n ← node_at tree node;
  tree ← (if is_null (n_previous n) then Some (with_ends tree (n_next n) (rb_tail tree))
    else update tree (n_previous n) (with_next (n_next n)));
  n ← node_at tree node;
  if is_null (n_next n) then Some (with_ends tree (rb_head tree) (n_previous n))
  else update tree (n_next n) (with_previous (n_previous n)).

(** What is left of a value, and what the caller gets. *)
Definition remove_value tree n (wanted : bool) : M (stl_status * option (slot V) * option (slot V)) :=
  let value := snd <$> n_value n in
  if wanted then sequence_move_destroy (rb_value_type tree) (Some None) value
  else '(status, value) ← sequence_destroy_value (rb_value_type tree) value; mret (status, None, value).

(** [wanted]: whether the caller passes memory for the value. The status,
    that memory and the tree. *)
Definition rbtree_remove_node (tree : option (rbtree_t K V)) (node : ptr) (wanted : bool) :
    M (stl_status * option V * option (rbtree_t K V)) :=
  match tree, node with
  | Some t, Some a =>
      n ← lift (node_at t node);
      '(status, out, value) ← remove_value t n wanted;
      if negb (bool_decide (status = STL_OK)) then mret (status, None, tree) else
      t ← lift (update t node (with_value (o ← n_value n; v ← value; Some (fst o, v))));
      t ← lift (unlink_node t node);
      t ← lift (unthread_node t node);
      n ← lift (node_at t node);
      _ ← rbtree_destroy_object (rb_key_type t) (n_key n);
      _ ← sequence_deallocate (fst <$> n_value n);
      t ← free_node t a;
      mret (STL_OK, v ← out; v, Some (with_size t (u64 (rb_size t - 1))))
  | _, _ => mret (STL_INVALID_ARGUMENT, None, tree)
  end.
End Tree.
