(* ===== verification/RbShape.v ===== *)
(** * The red-black tree ([cstl/src/rbtree.c]): the shape of the heap

    A heap of nodes represents a binary tree of addresses. A position in it is
    a subtree with its context, the path to the root; the pointer operations
    of the tree (rotation, recolouring, transplanting) are described at a
    position, once for both sides, and leave the rest of the heap alone. *)

From stdpp Require Import gmap.
From S2P Require Import Prelude World Sequence RbTree.
Local Open Scope Z_scope.

(** ** Trees of addresses *)

Inductive shape := Nil | Fork (red : bool) (l : shape) (a : Z) (r : shape).

Inductive side := LeftSide | RightSide.
Definition opp (d : side) : side := match d with LeftSide => RightSide | RightSide => LeftSide end.

(** The tree with [x] on side [d] and [y] on the other. *)
Definition fork (d : side) (red : bool) (x : shape) (a : Z) (y : shape) : shape :=
  match d with LeftSide => Fork red x a y | RightSide => Fork red y a x end.

(** A fork of either side is a fork, whatever its colour. *)
Lemma fork_shape d c x a y : ∃ l r, fork d c x a y = Fork c l a r ∧ ∀ c', fork d c' x a y = Fork c' l a r.
Proof. destruct d; eauto. Qed.

Definition top (t : shape) : ptr := match t with Nil => None | Fork _ _ a _ => Some a end.

Fixpoint inorder (t : shape) : list Z :=
  match t with Nil => [] | Fork _ l a r => inorder l ++ a :: inorder r end.

Lemma fork_opp d c x a y : fork (opp d) c x a y = fork d c y a x.
Proof. by destruct d. Qed.
Lemma opp_opp d : opp (opp d) = d.
Proof. by destruct d. Qed.
Lemma top_fork d c x a y : top (fork d c x a y) = Some a.
Proof. by destruct d. Qed.

Lemma perm_nodup (l l' : list Z) : l' ≡ₚ l → NoDup l → NoDup l'.
Proof. by intros ->. Qed.

(** A path to the root: the side the hole is on, and the colour, address and
    other child of the node above it. *)
Record frame := Frame { f_side : side; f_red : bool; f_addr : Z; f_sibling : shape }.

Definition plug (f : frame) (t : shape) : shape := fork (f_side f) (f_red f) t (f_addr f) (f_sibling f).
Fixpoint fill (k : list frame) (t : shape) : shape :=
  match k with [] => t | f :: k => fill k (plug f t) end.

Definition path_parent (k : list frame) : ptr := f_addr <$> head k.

(** The addresses that come before and after the hole. *)
Fixpoint before (k : list frame) : list Z :=
  match k with
  | [] => []
  | f :: k => before k ++ match f_side f with LeftSide => [] | RightSide => inorder (f_sibling f) ++ [f_addr f] end
  end.
Fixpoint after (k : list frame) : list Z :=
  match k with
  | [] => []
  | f :: k => match f_side f with LeftSide => f_addr f :: inorder (f_sibling f) | RightSide => [] end ++ after k
  end.

Lemma inorder_fill k : ∀ t, inorder (fill k t) = before k ++ inorder t ++ after k.
Proof.
  induction k as [|[[] c a s] k IH]; intros t; cbn; [by rewrite app_nil_r|..]; rewrite IH; cbn;
    by rewrite <- ?app_assoc.
Qed.

Lemma fill_app k1 k2 t : fill (k1 ++ k2) t = fill k2 (fill k1 t).
Proof. revert t. induction k1 as [|f k1 IH]; intros t; cbn; [done|apply IH]. Qed.

(** The addresses on the path and beside it. *)
Fixpoint path_addrs (k : list frame) : list Z :=
  match k with [] => [] | f :: k => f_addr f :: inorder (f_sibling f) ++ path_addrs k end.

Lemma inorder_fork d c x a y : inorder (fork d c x a y) ≡ₚ a :: inorder x ++ inorder y.
Proof. destruct d; cbn; [by rewrite Permutation_middle|]. rewrite <-Permutation_middle. by rewrite (Permutation_app_comm (inorder y)). Qed.

Lemma fill_perm k : ∀ t, inorder (fill k t) ≡ₚ path_addrs k ++ inorder t.
Proof.
  induction k as [|f k IH]; intros t; cbn; [done|]. rewrite IH. unfold plug. rewrite inorder_fork.
  rewrite <-app_assoc. rewrite Permutation_middle. solve_Permutation.
Qed.

Section Repr.
Context {K V : Type}.
Abbreviation heap := (gmap Z (rbtree_node K V)).
Implicit Types (n : rbtree_node K V) (h : heap) (tree : rbtree_t K V) (t : shape) (k : list frame).

Definition child (d : side) n : ptr := match d with LeftSide => n_left n | RightSide => n_right n end.
Definition with_child (d : side) (p : ptr) n : rbtree_node K V :=
  match d with LeftSide => with_left p n | RightSide => with_right p n end.

(** ** Representation *)

(** What a node says of its place. *)
Definition is_node n (par : ptr) (d : side) (c : bool) (x y : ptr) : Prop :=
  n_parent n = par ∧ child d n = x ∧ child (opp d) n = y ∧ n_red n = c.

Lemma is_node_opp n par d c x y : is_node n par (opp d) c x y ↔ is_node n par d c y x.
Proof. unfold is_node. rewrite opp_opp. tauto. Qed.

Fixpoint repr h (par : ptr) t : Prop :=
  match t with
  | Nil => True
  | Fork c l a r => (∃ n, h !! a = Some n ∧ is_node n par LeftSide c (top l) (top r)) ∧
      repr h (Some a) l ∧ repr h (Some a) r
  end.

Lemma repr_fork h par d c x a y :
  repr h par (fork d c x a y) ↔
  (∃ n, h !! a = Some n ∧ is_node n par d c (top x) (top y)) ∧ repr h (Some a) x ∧ repr h (Some a) y.
Proof.
  destruct d; cbn; [done|]. split; intros ((n & Hn & Hi) & H1 & H2); (split; [|done]); exists n;
    (split; [done|]); by apply (is_node_opp n par LeftSide).
Qed.

Fixpoint path_repr h (root : ptr) k (hole : ptr) : Prop :=
  match k with
  | [] => root = hole
  | Frame d c a s :: k =>
      (∃ n, h !! a = Some n ∧ is_node n (path_parent k) d c hole (top s)) ∧ repr h (Some a) s ∧
      path_repr h root k (Some a)
  end.

(** The tree of [tree] is [fill k t]. *)
Record located tree k t : Prop := {
  lo_path : path_repr (rb_nodes tree) (rb_root tree) k (top t);
  lo_repr : repr (rb_nodes tree) (path_parent k) t;
  lo_nodup : NoDup (path_addrs k ++ inorder t)
}.

(** Moving the position up or down the path. *)
Lemma located_up tree d c a s k t :
  located tree (Frame d c a s :: k) t ↔ located tree k (fork d c t a s).
Proof.
  assert (path_addrs (Frame d c a s :: k) ++ inorder t ≡ₚ path_addrs k ++ inorder (fork d c t a s)) as Hp
    by (cbn; rewrite inorder_fork; solve_Permutation).
  split; intros [Hk Hr Hd].
  - cbn in Hk, Hr. destruct Hk as (Hn & Hs & Hk). split; [by rewrite top_fork|by apply repr_fork|by rewrite <-Hp].
  - rewrite top_fork in Hk. apply repr_fork in Hr as (Hn & Ht & Hs). split; [by cbn|by cbn|by rewrite Hp].
Qed.

Lemma go_up tree d c a s k t : located tree (Frame d c a s :: k) t → located tree k (fork d c t a s).
Proof. apply located_up. Qed.
Lemma go_near tree d c a s k t : located tree k (fork d c t a s) → located tree (Frame d c a s :: k) t.
Proof. apply located_up. Qed.
Lemma go_far tree d c a s k t : located tree k (fork d c t a s) → located tree (Frame (opp d) c a t :: k) s.
Proof. intros H. apply located_up. by rewrite fork_opp. Qed.
Lemma go_up_far tree d c a s k t : located tree (Frame (opp d) c a t :: k) s → located tree k (fork d c t a s).
Proof. intros H. rewrite <-fork_opp. by apply located_up. Qed.

Lemma located_fill tree k t : located tree k t ↔ located tree [] (fill k t).
Proof. revert t. induction k as [|[d c a s] k IH]; intros t; [done|]. rewrite located_up, IH. done. Qed.

Lemma located_app tree k1 k2 t : located tree (k1 ++ k2) t ↔ located tree k2 (fill k1 t).
Proof. by rewrite located_fill, fill_app, <-located_fill. Qed.

(** ** Frames *)

(** What the shape of the heap depends on, and the rest of a node. *)
Definition links n : ptr * ptr * ptr * bool := (n_parent n, n_left n, n_right n, n_red n).
Definition payload n : ptr * ptr * object K * object V := (n_previous n, n_next n, n_key n, n_value n).

Lemma is_node_links n n' par d c x y : links n' = links n → is_node n par d c x y → is_node n' par d c x y.
Proof. unfold links, is_node. intros [= -> H1 H2 ->]. destruct d; cbn; by rewrite H1, H2. Qed.

Definition same_links_at h h' (a : Z) : Prop := links <$> h' !! a = links <$> h !! a.

Lemma same_links_node h h' a n : same_links_at h h' a → h !! a = Some n → ∃ n', h' !! a = Some n' ∧ links n' = links n.
Proof. unfold same_links_at. intros E Hn. rewrite Hn in E. by apply fmap_Some in E as (n' & -> & ?); exists n'. Qed.

Lemma repr_same h h' par t : (∀ a, a ∈ inorder t → same_links_at h h' a) → repr h par t → repr h' par t.
Proof.
  revert par. induction t as [|c l IHl a r IHr]; intros par Hs; cbn; [done|].
  cbn in Hs. intros ((n & Hn & Hi) & Hl & Hr). split_and!.
  - destruct (same_links_node h h' a n) as (n' & Hn' & E); [apply Hs; set_solver|done|].
    exists n'. split; [done|]. by eapply is_node_links.
  - apply IHl; [|done]. intros b Hb. apply Hs. set_solver.
  - apply IHr; [|done]. intros b Hb. apply Hs. set_solver.
Qed.

Lemma path_same h h' root k hole :
  (∀ a, a ∈ path_addrs k → same_links_at h h' a) → path_repr h root k hole → path_repr h' root k hole.
Proof.
  revert hole. induction k as [|[d c a s] k IH]; intros hole Hs; cbn; [done|]. cbn in Hs.
  intros ((n & Hn & Hi) & Hr & Hk). split_and!.
  - destruct (same_links_node h h' a n) as (n' & Hn' & E); [apply Hs; set_solver|done|].
    exists n'. split; [done|]. by eapply is_node_links.
  - eapply repr_same; [|done]. intros b Hb. apply Hs. set_solver.
  - apply IH; [|done]. intros b Hb. apply Hs. set_solver.
Qed.

(** The fields of the tree record other than the heap and the root. *)
Definition same_record tree tree' : Prop := tree' = with_root (with_nodes tree (rb_nodes tree')) (rb_root tree').

(** Everything but the shape is as before. *)
Definition same_rest tree tree' : Prop :=
  same_record tree tree' ∧ ∀ a, payload <$> rb_nodes tree' !! a = payload <$> rb_nodes tree !! a.

#[global] Instance same_rest_preorder : PreOrder same_rest.
Proof.
  split; [intros []; by split|]. intros t1 t2 t3 [E1 H1] [E2 H2]. unfold same_record in *. split.
  - by rewrite E2, E1.
  - intros a. by rewrite H2.
Qed.

Lemma same_rest_update tree p f tree' : (∀ n, payload (f n) = payload n) → update tree p f = Some tree' → same_rest tree tree'.
Proof.
  intros Hf. unfold update. destruct p as [a|]; cbn; [|done]. destruct (rb_nodes tree !! a) as [n|] eqn:E; cbn; [|done].
  intros [= <-]. split; [by destruct tree|]. intros b. cbn. destruct (decide (b = a)) as [->|];
    [rewrite lookup_insert_eq, E; cbn; by rewrite Hf|by rewrite lookup_insert_ne].
Qed.

(** ** Writing *)

Lemma update_run tree a n f : rb_nodes tree !! a = Some n →
  update tree (Some a) f = Some (with_nodes tree (<[a := f n]> (rb_nodes tree))).
Proof. intros Hn. unfold update. cbn. by rewrite Hn. Qed.

Lemma node_at_run tree a n : rb_nodes tree !! a = Some n → node_at tree (Some a) = Some n.
Proof. done. Qed.

(** [hread H]: a read of the node that [H] describes. *)
Ltac hread H := rewrite (node_at_run _ _ _ H); cbn [mbind option_bind].

(** The root of a subtree gets a new parent. *)
Lemma repr_reparent h h' par par' t :
  repr h par t → NoDup (inorder t) →
  (∀ a, a ∈ inorder t → top t ≠ Some a → same_links_at h h' a) →
  (∀ a n, top t = Some a → h !! a = Some n → ∃ n', h' !! a = Some n' ∧ links n' = links (with_parent par' n)) →
  repr h' par' t.
Proof.
  destruct t as [|c l a r]; cbn; [done|]. intros ((n & Hn & Hi) & Hl & Hr) Hd Hs Ht.
  apply NoDup_app in Hd as (Hd1 & Hd2 & [Hd3 Hd4]%NoDup_cons).
  split_and!.
  - destruct (Ht a n) as (n' & Hn' & E); [done|done|]. exists n'. split; [done|].
    eapply is_node_links; [exact E|]. destruct Hi as (_ & ? & ? & ?). done.
  - eapply repr_same; [|done]. intros b Hb. apply Hs; [set_solver|]. intros [= ->]. set_solver.
  - eapply repr_same; [|done]. intros b Hb. apply Hs; [set_solver|]. by intros [= ->].
Qed.

(** The pointer to a node from above, in its parent or in the tree record, is
    redirected; [d] is the side that the code tests first. *)
Definition relink (d : side) tree (par node new : ptr) : option (rbtree_t K V) :=
  if is_null par then Some (with_root tree new) else
  pa ← node_at tree par;
  if bool_decide (node = child d pa) then update tree par (with_child d new)
  else update tree par (with_child (opp d) new).

Lemma with_child_node d d' n par c x y new :
  is_node n par d c x y → (d' = d → is_node (with_child d' new n) par d c new y).
Proof. intros (? & ? & ? & ?) ->. by destruct d. Qed.

Lemma top_in t a : top t = Some a → a ∈ inorder t.
Proof. destruct t; cbn; [done|]. intros [= ->]. set_solver. Qed.

(** A change inside the path keeps the rest of it. *)
Lemma path_repr_head h h' root k hole hole' d c a s n' :
  path_repr h root (Frame d c a s :: k) hole → NoDup (a :: inorder s ++ path_addrs k) →
  (∀ b, b ≠ a → h' !! b = h !! b) → h' !! a = Some n' → is_node n' (path_parent k) d c hole' (top s) →
  path_repr h' root (Frame d c a s :: k) hole'.
Proof.
  cbn. intros (_ & Hs & Hk) [Ha Hd]%NoDup_cons Hout Hn' Hi. split; [by exists n'|]. split.
  - eapply repr_same; [|done]. intros b Hb. unfold same_links_at. rewrite Hout; [done|]. set_solver.
  - eapply path_same; [|done]. intros b Hb. unfold same_links_at. rewrite Hout; [done|]. set_solver.
Qed.

Lemma relink_ok d tree k x new :
  path_repr (rb_nodes tree) (rb_root tree) k (Some x) → NoDup (x :: path_addrs k) →
  ∃ tree', relink d tree (path_parent k) (Some x) new = Some tree' ∧
    path_repr (rb_nodes tree') (rb_root tree') k new ∧
    (∀ b, b ∉ path_addrs k → rb_nodes tree' !! b = rb_nodes tree !! b) ∧ same_rest tree tree'.
Proof.
  destruct k as [|[d' c a s] k]; intros Hk Hd; unfold relink.
  { eexists. split; [done|]. split; [done|]. split; [done|]. split; [by destruct tree|done]. }
  pose proof Hk as ((n & Hn & Hi) & Hs & Hk').
  cbn in Hd. apply NoDup_cons in Hd as [Hx Hd].
  change (path_parent (Frame d' c a s :: k)) with (Some a). cbn [is_null]. rewrite (node_at_run _ _ _ Hn). cbn [mbind option_bind].
  assert (∀ d1, d1 = d' → (update tree (Some a) (with_child d1 new)) =
    Some (with_nodes tree (<[a := with_child d1 new n]> (rb_nodes tree))) ∧
    path_repr (<[a := with_child d1 new n]> (rb_nodes tree)) (rb_root tree) (Frame d' c a s :: k) new ∧
    (∀ b, b ∉ a :: inorder s ++ path_addrs k → <[a := with_child d1 new n]> (rb_nodes tree) !! b = rb_nodes tree !! b))
    as Hup.
  { intros d1 Ed. split; [by apply update_run|]. split.
    - eapply path_repr_head; [exact Hk|done| | |]; [intros b Hb; by rewrite lookup_insert_ne|by rewrite lookup_insert_eq|].
      by eapply with_child_node.
    - intros b Hb. rewrite lookup_insert_ne; [done|]. set_solver. }
  destruct Hi as (Hi1 & Hi2 & Hi3 & Hi4).
  assert (∀ d1, (d1 = d' ↔ Some x = child d1 n)) as Hside.
  { intros d1. split; [by intros ->|]. destruct d1, d'; try done; cbn in *; intros E; rewrite Hi3 in E; symmetry in E;
      apply top_in in E; set_solver. }
  case_bool_decide as E.
  - apply Hside in E. destruct (Hup d E) as (E1 & E2 & E3). eexists. split; [exact E1|]. split; [done|]. split; [done|].
    eapply same_rest_update; [|exact E1]. by destruct d.
  - assert (opp d = d') as E' by (rewrite <-Hside in E; by destruct d, d').
    destruct (Hup _ E') as (E1 & E2 & E3). eexists. split; [exact E1|]. split; [done|]. split; [done|].
    eapply same_rest_update; [|exact E1]. by destruct d.
Qed.

(** The heap after a write at [a]. *)
Lemma update_at tree a f n :
  rb_nodes tree !! a = Some n →
  ∃ tree', update tree (Some a) f = Some tree' ∧ rb_root tree' = rb_root tree ∧
    rb_nodes tree' !! a = Some (f n) ∧ (∀ b, b ≠ a → rb_nodes tree' !! b = rb_nodes tree !! b) ∧
    ((∀ n, payload (f n) = payload n) → same_rest tree tree').
Proof.
  intros Hn. eexists. split; [by apply update_run|]. cbn. split; [done|]. rewrite lookup_insert_eq. split; [done|]. split.
  - intros b Hb. by rewrite lookup_insert_ne.
  - intros Hf. eapply same_rest_update; [exact Hf|by apply update_run].
Qed.

(** The same for the root of a subtree, if it has one. *)
Lemma update_top tree par t f :
  repr (rb_nodes tree) par t →
  ∃ tree', update_if tree (top t) f = Some tree' ∧ rb_root tree' = rb_root tree ∧
    (∀ a n, top t = Some a → rb_nodes tree !! a = Some n → rb_nodes tree' !! a = Some (f n)) ∧
    (∀ b, top t ≠ Some b → rb_nodes tree' !! b = rb_nodes tree !! b) ∧
    ((∀ n, payload (f n) = payload n) → same_rest tree tree').
Proof.
  intros Hr. unfold update_if. destruct t as [|c l a r]; cbn [top is_null].
  - exists tree. split; [done|]. split; [done|]. split; [done|]. split; [done|]. by intros _.
  - destruct Hr as ((n & Hn & _) & _). destruct (update_at tree a f n Hn) as (tree' & E & Hroot & Ha & Hb & Hs).
    exists tree'. split; [done|]. split; [done|]. split; [|split; [|done]].
    + intros a' n' [= <-] Hn'. congruence.
    + intros b Hne. apply Hb. congruence.
Qed.

(** ** Rotation *)

(** Both rotations: [node] goes down on side [d]. *)
Definition rb_rotate (d : side) tree (node : ptr) : option (rbtree_t K V) :=
  n ← node_at tree node;
  let pivot := child (opp d) n in
  pv ← node_at tree pivot;
  tree ← update tree node (with_child (opp d) (child d pv));
  tree ← update_if tree (child d pv) (with_parent node);
  n ← node_at tree node;
  tree ← update tree pivot (with_parent (n_parent n));
  tree ← relink d tree (n_parent n) node pivot;
  tree ← update tree pivot (with_child d node);
  update tree node (with_parent pivot).

Lemma rotate_left_eq tree node : rbtree_rotate_left tree node = rb_rotate LeftSide tree node.
Proof. done. Qed.
Lemma rotate_right_eq tree node : rbtree_rotate_right tree node = rb_rotate RightSide tree node.
Proof. done. Qed.

(** The addresses of five parts are apart. *)
Lemma apart (P : list Z) x y A B C :
  NoDup (P ++ x :: y :: inorder A ++ inorder B ++ inorder C) →
  x ≠ y ∧ x ∉ P ∧ y ∉ P ∧ NoDup P ∧ NoDup (inorder B) ∧
  (∀ b, b ∈ inorder A → b ≠ x ∧ b ≠ y ∧ top B ≠ Some b ∧ b ∉ P) ∧
  (∀ b, b ∈ inorder B → b ≠ x ∧ b ≠ y ∧ b ∉ P) ∧
  (∀ b, b ∈ inorder C → b ≠ x ∧ b ≠ y ∧ top B ≠ Some b ∧ b ∉ P).
Proof.
  rewrite !NoDup_app, !NoDup_cons, !NoDup_app. intros (HP & Hk & Hx & Hy & HA & HAB & HB & HBC & HC).
  setoid_rewrite elem_of_cons in Hk. setoid_rewrite elem_of_cons in Hk. setoid_rewrite elem_of_app in Hk.
  setoid_rewrite elem_of_app in Hk. rewrite elem_of_cons, !elem_of_app in Hx. rewrite !elem_of_app in Hy.
  setoid_rewrite elem_of_app in HAB. pose proof (top_in B) as HtB.
  split; [naive_solver|]. split; [naive_solver|]. split; [naive_solver|]. split; [done|]. split; [done|].
  split; [|split]; intros b Hb.
  - split; [intros ->; tauto|]. split; [intros ->; tauto|]. split; [|naive_solver].
    intros E%HtB. apply (HAB b Hb). tauto.
  - split; [intros ->; tauto|]. split; [intros ->; tauto|]. naive_solver.
  - split; [intros ->; tauto|]. split; [intros ->; tauto|]. split; [|naive_solver].
    intros E%HtB. by apply (HBC b E).
Qed.

Lemma rotate_ok d tree k c1 A x c2 B y C :
  located tree k (fork d c1 A x (fork d c2 B y C)) →
  ∃ tree', rb_rotate d tree (Some x) = Some tree' ∧
    located tree' k (fork d c2 (fork d c1 A x B) y C) ∧ same_rest tree tree'.
Proof.
  intros [Hk Hr Hd].
  assert (NoDup (path_addrs k ++ x :: y :: inorder A ++ inorder B ++ inorder C)) as Hd'.
  { rewrite !inorder_fork in Hd. eapply perm_nodup; [|exact Hd]. solve_Permutation. }
  apply repr_fork in Hr as ((nx & Hx & Ix) & HA & HyBC). rewrite top_fork in Hk, Ix.
  apply repr_fork in HyBC as ((ny & Hy & Iy) & HB & HC).
  apply apart in Hd' as (Nxy & Nxk & Nyk & Hdk & HdB & NA & NB & NC).
  unfold rb_rotate.
  destruct Ix as (Ix1 & Ix2 & Ix3 & Ix4), Iy as (Iy1 & Iy2 & Iy3 & Iy4).
  hread Hx. rewrite Ix3. hread Hy. rewrite Iy2.
  destruct (update_at tree x (with_child (opp d) (top B)) nx Hx) as (t1 & -> & R1 & X1 & O1 & S1). cbn [mbind option_bind].
  assert (repr (rb_nodes t1) (Some y) B) as HB1.
  { eapply repr_same; [|exact HB]. intros b Hb. unfold same_links_at. rewrite O1; [done|]. by apply NB. }
  destruct (update_top t1 _ B (with_parent (Some x)) HB1) as (t2 & -> & R2 & B2 & O2 & S2). cbn [mbind option_bind].
  assert (rb_nodes t2 !! x = Some (with_child (opp d) (top B) nx)) as X2.
  { rewrite O2; [done|]. intros E%top_in. by apply NB in E as []. }
  hread X2.
  assert (n_parent (with_child (opp d) (top B) nx) = path_parent k) as -> by (rewrite <-Ix1; by destruct d).
  assert (rb_nodes t2 !! y = Some ny) as Y2.
  { rewrite O2; [by rewrite O1|]. intros E%top_in. by apply NB in E as (_ & [] & _). }
  destruct (update_at t2 y (with_parent (path_parent k)) ny Y2) as (t3 & -> & R3 & Y3 & O3 & S3). cbn [mbind option_bind].
  assert (path_repr (rb_nodes t3) (rb_root t3) k (Some x)) as Hk3.
  { rewrite R3, R2, R1. eapply path_same; [|exact Hk]. intros b Hb. unfold same_links_at. rewrite O3, O2, O1; [done|..].
    - by intros ->.
    - intros E%top_in. by apply NB in E as (_ & _ & []).
    - by intros ->. }
  destruct (relink_ok d t3 k x (Some y) Hk3) as (t4 & -> & Hk4 & O4 & S4).
  { by apply NoDup_cons. }
  cbn [mbind option_bind].
  assert (rb_nodes t4 !! y = Some (with_parent (path_parent k) ny)) as Y4 by (rewrite O4; done).
  destruct (update_at t4 y (with_child d (Some x)) _ Y4) as (t5 & -> & R5 & Y5 & O5 & S5). cbn [mbind option_bind].
  assert (rb_nodes t5 !! x = Some (with_child (opp d) (top B) nx)) as X5 by (rewrite O5, O4, O3; done).
  destruct (update_at t5 x (with_parent (Some y)) _ X5) as (t6 & -> & R6 & X6 & O6 & S6).
  exists t6. split; [done|]. split; cycle 1.
  { etrans; [apply S1; intros; by destruct d|]. etrans; [by apply S2|]. etrans; [by apply S3|]. etrans; [exact S4|].
    etrans; [apply S5; intros; by destruct d|]. by apply S6. }
  assert (∀ b, b ≠ x → b ≠ y → top B ≠ Some b → b ∉ path_addrs k → rb_nodes t6 !! b = rb_nodes tree !! b) as Out.
  { intros b ? ? ? ?. by rewrite O6, O5, O4, O3, O2, O1. }
  split.
  - rewrite top_fork, R6, R5. eapply path_same; [|exact Hk4]. intros b Hb. unfold same_links_at. rewrite O6, O5; [done|..];
      by intros ->.
  - apply repr_fork. rewrite top_fork. split.
    { exists (with_child d (Some x) (with_parent (path_parent k) ny)). split; [by rewrite O6|]. by destruct d. }
    split; [apply repr_fork; split|].
    + eexists. split; [exact X6|]. by destruct d.
    + split.
      * eapply repr_same; [|exact HA]. intros b Hb. unfold same_links_at. destruct (NA b Hb) as (? & ? & ? & ?).
        by rewrite Out.
      * eapply repr_reparent; [exact HB|done|..].
        -- intros b Hb Hne. unfold same_links_at. destruct (NB b Hb) as (? & ? & ?). by rewrite Out.
        -- intros b nb Hb Hnb. destruct (NB b (top_in _ _ Hb)) as (? & ? & ?). exists (with_parent (Some x) nb). split; [|done].
           rewrite O6, O5, O4, O3 by done. apply B2; [done|]. by rewrite O1.
    + eapply repr_same; [|exact HC]. intros b Hb. unfold same_links_at. destruct (NC b Hb) as (? & ? & ? & ?).
      by rewrite Out.
  - eapply perm_nodup; [|exact Hd]. rewrite !inorder_fork. solve_Permutation.
Qed.

(** ** Reading and recolouring at a position *)

Lemma located_node tree k d c x a y :
  located tree k (fork d c x a y) →
  ∃ n, rb_nodes tree !! a = Some n ∧ is_node n (path_parent k) d c (top x) (top y).
Proof. intros [_ Hr _]. by apply repr_fork in Hr as (Hn & _). Qed.

Lemma recolour tree k d c c' x a y :
  located tree k (fork d c x a y) →
  ∃ tree', update tree (Some a) (with_red c') = Some tree' ∧ located tree' k (fork d c' x a y) ∧ same_rest tree tree'.
Proof.
  intros [Hk Hr Hd]. apply repr_fork in Hr as ((n & Hn & Hi) & Hx & Hy). rewrite top_fork in Hk.
  destruct (update_at tree a (with_red c') n Hn) as (tree' & E & R & Ha & O & S). exists tree'. split; [done|].
  split; [|by apply S].
  assert (a ∉ path_addrs k ∧ a ∉ inorder x ∧ a ∉ inorder y) as (Nk & Nx & Ny).
  { rewrite inorder_fork, <-Permutation_middle in Hd. apply NoDup_cons in Hd as [Hd _]. set_solver. }
  assert (∀ b, b ≠ a → same_links_at (rb_nodes tree) (rb_nodes tree') b) as O' by (intros b Hb; unfold same_links_at; by rewrite O).
  split.
  - rewrite top_fork, R. eapply path_same; [|exact Hk]. intros b Hb. apply O'. by intros ->.
  - apply repr_fork. split; [|split; (eapply repr_same; [|done]); intros b Hb; apply O'; by intros ->].
    eexists. split; [exact Ha|]. destruct Hi as (? & ? & ? & _). by destruct d.
  - eapply perm_nodup; [|exact Hd]. by rewrite !inorder_fork.
Qed.

Definition red_top (t : shape) : bool := match t with Nil => false | Fork c _ _ _ => c end.

Lemma red_top_fork d c x a y : red_top (fork d c x a y) = c.
Proof. by destruct d. Qed.

Lemma is_red_ok tree k t : located tree k t → rbtree_is_red tree (top t) = Some (red_top t).
Proof.
  destruct t as [|c l a r]; [done|]. intros (n & Hn & _ & _ & _ & Hc)%(located_node _ _ LeftSide). cbn [rbtree_is_red top].
  hread Hn. by rewrite Hc.
Qed.
Lemma is_black_ok tree k t : located tree k t → rbtree_is_black tree (top t) = Some (negb (red_top t)).
Proof.
  destruct t as [|c l a r]; [done|]. intros (n & Hn & _ & _ & _ & Hc)%(located_node _ _ LeftSide). cbn [rbtree_is_black top].
  hread Hn. by rewrite Hc.
Qed.
End Repr.

(** [hread H]: a read of the node that [H] describes. *)
Ltac hread H := rewrite (node_at_run _ _ _ H); cbn [mbind option_bind].

(** ** Colours *)

(** The red-black invariants: [n] black nodes on every path, and no red node
    below a red one; [red] says whether the parent is red. *)
Fixpoint rb (t : shape) (red : bool) (n : nat) : Prop :=
  match t with
  | Nil => n = O
  | Fork true l _ r => red = false ∧ rb l true n ∧ rb r true n
  | Fork false l _ r => ∃ m, n = S m ∧ rb l false m ∧ rb r false m
  end.

Lemma rb_fork d c x a y red n :
  rb (fork d c x a y) red n ↔
  if c then red = false ∧ rb x true n ∧ rb y true n else ∃ m, n = S m ∧ rb x false m ∧ rb y false m.
Proof. destruct d, c; cbn; naive_solver. Qed.

Lemma rb_weaken t red n : rb t true n → rb t red n.
Proof. destruct t as [|[] l a r]; cbn; [done| |done]. intros [? _]. done. Qed.
Lemma rb_false t n : rb t false n → rb t (red_top t) n → rb t true n.
Proof. destruct t as [|[] l a r]; cbn; naive_solver. Qed.
Lemma rb_black t red n : red_top t = false → rb t red n → rb t true n.
Proof. destruct t as [|[] l a r]; cbn; naive_solver. Qed.

(** Whether what is above the hole is red; nothing is above the root, which
    must be black as below a red node. *)
Definition parent_red (k : list frame) : bool := match k with [] => true | f :: _ => f_red f end.

(** A hole for a subtree with [n] black nodes on every path. *)
Fixpoint path_rb (k : list frame) (n : nat) : Prop :=
  match k with
  | [] => True
  | f :: k => if f_red f then rb (f_sibling f) true n ∧ parent_red k = false ∧ path_rb k n
              else rb (f_sibling f) false n ∧ path_rb k (S n)
  end.

Lemma fill_rb k : ∀ t n, path_rb k n → rb t (parent_red k) n → ∃ m, rb (fill k t) true m.
Proof.
  induction k as [|[d [] a s] k IH]; intros t n; cbn.
  - intros _ Ht. by exists n.
  - intros (Hs & Hp & Hk) Ht. apply (IH _ n Hk). by apply rb_fork.
  - intros (Hs & Hk) Ht. apply (IH _ (S n) Hk). apply rb_fork. by exists n.
Qed.

Lemma path_rb_fill k : ∀ t m, rb (fill k t) true m → ∃ n, path_rb k n ∧ rb t (parent_red k) n.
Proof.
  induction k as [|[d [] a s] k IH]; intros t m; cbn.
  - intros Ht. by exists m.
  - intros (n & Hk & Hf)%IH. apply rb_fork in Hf as (? & ? & ?). by exists n.
  - intros (n & Hk & Hf)%IH. apply rb_fork in Hf as (n' & -> & ? & ?). by exists n'.
Qed.

(** The order of the nodes on both sides of an equation. *)
Ltac flat_order := repeat (progress (cbn; rewrite <-?app_assoc)); done.

Lemma rotate_inorder d c1 A x c2 B y C c3 c4 :
  inorder (fork d c3 (fork d c4 A x B) y C) = inorder (fork d c1 A x (fork d c2 B y C)).
Proof. destruct d; cbn; by rewrite <-?app_assoc. Qed.

Lemma fork_inorder d c c' x x' a y y' :
  inorder x = inorder x' → inorder y = inorder y' → inorder (fork d c x a y) = inorder (fork d c' x' a y').
Proof. intros Hx Hy. destruct d; cbn; by rewrite Hx, Hy. Qed.

Lemma fill_inorder k t t' : inorder t = inorder t' → inorder (fill k t) = inorder (fill k t').
Proof. rewrite !inorder_fill. by intros ->. Qed.
