(* ===== verification/RbInsert.v ===== *)
(** * The red-black tree ([cstl/src/rbtree.c]): insertion

    [rbtree_insert_fix] restores the colours after a red leaf was hung into
    the tree: it never follows a null pointer, ends, keeps the order of the
    nodes and leaves everything but colours and links alone. *)

From stdpp Require Import gmap.
From S2P Require Import Prelude World Sequence RbTree RbShape.
Local Open Scope Z_scope.

Section Insert.
Context {K V : Type}.
Implicit Types (tree : rbtree_t K V) (t : shape) (k : list frame).

(** Both halves of the loop body: the parent is on side [d] of the
    grandparent. *)
Definition insert_fix_side (d : side) tree (node parent grandparent : ptr) : option (rbtree_t K V * ptr) :=
  gp ← node_at tree grandparent;
  let uncle := child (opp d) gp in
  uncle_red ← rbtree_is_red tree uncle;
  if (uncle_red : bool) then
    tree ← update tree parent (with_red false);
    tree ← update tree uncle (with_red false);
    tree ← update tree grandparent (with_red true);
    Some (tree, grandparent)
  else
    pa ← node_at tree parent;
    '(tree, node, parent, grandparent) ← (if bool_decide (node = child (opp d) pa) then
      tree ← rb_rotate d tree parent;
      n ← node_at tree parent;
      pa ← node_at tree (n_parent n);
      Some (tree, parent, n_parent n, n_parent pa)
      else Some (tree, node, parent, grandparent));
    tree ← update tree parent (with_red false);
    tree ← update tree grandparent (with_red true);
    tree ← rb_rotate (opp d) tree grandparent;
    Some (tree, node).

Lemma insert_fix_left_eq tree node parent grandparent :
  insert_fix_left tree node parent grandparent = insert_fix_side LeftSide tree node parent grandparent.
Proof. done. Qed.
Lemma insert_fix_right_eq tree node parent grandparent :
  insert_fix_right tree node parent grandparent = insert_fix_side RightSide tree node parent grandparent.
Proof. done. Qed.

(** A red uncle: the colours move up. *)
Lemma insert_red_uncle d d1 tree k t p s g ul ua ur :
  located tree (Frame d1 true p s :: Frame d false g (Fork true ul ua ur) :: k) t →
  ∃ tree', insert_fix_side d tree (top t) (Some p) (Some g) = Some (tree', Some g) ∧
    located tree' k (fork d true (fork d1 false t p s) g (Fork false ul ua ur)) ∧ same_rest tree tree'.
Proof.
  intros H1%go_up. pose proof (go_up _ _ _ _ _ _ _ H1) as H2.
  destruct (located_node _ _ _ _ _ _ _ H2) as (gp & Hg & _ & _ & Hu & _). unfold insert_fix_side. hread Hg. rewrite Hu.
  rewrite (is_red_ok _ _ _ (go_far _ _ _ _ _ _ _ H2)). cbn [mbind option_bind red_top].
  destruct (recolour _ _ _ _ false _ _ _ H1) as (t1 & -> & L1%go_up%go_far & S1). cbn [mbind option_bind].
  destruct (recolour t1 _ LeftSide true false ul ua ur L1) as (t2 & E2 & L2%go_up_far & S2). cbn [top]. rewrite E2. cbn [mbind option_bind].
  destruct (recolour _ _ _ _ true _ _ _ L2) as (t3 & -> & L3 & S3). cbn [mbind option_bind].
  exists t3. split; [done|]. split; [exact L3|]. by rewrite S1, S2.
Qed.

(** A black uncle and a node on the outer side: one rotation. *)
Lemma insert_rotate d tree k t p s g u :
  located tree k (fork d false (fork d true t p s) g u) →
  ∃ tree1 tree2 tree', update tree (Some p) (with_red false) = Some tree1 ∧
    update tree1 (Some g) (with_red true) = Some tree2 ∧ rb_rotate (opp d) tree2 (Some g) = Some tree' ∧
    located tree' k (fork d false t p (fork d true s g u)) ∧ same_rest tree tree'.
Proof.
  intros H%go_near. destruct (recolour _ _ _ _ false _ _ _ H) as (t1 & E1 & L1%go_up & S1).
  destruct (recolour _ _ _ _ true _ _ _ L1) as (t2 & E2 & L2 & S2).
  rewrite <-!(fork_opp d) in L2. destruct (rotate_ok _ _ _ _ _ _ _ _ _ _ L2) as (t3 & E3 & L3 & S3).
  exists t1, t2, t3. split; [done|]. split; [done|]. split; [done|]. rewrite !fork_opp in L3. split; [done|]. by rewrite S1, S2.
Qed.

(** The two children of a node are different. *)
Lemma children_differ tree k d c x a y b : located tree k (fork d c x a y) → top x = Some b → top y ≠ Some b.
Proof.
  intros H Hx Hy. apply lo_nodup in H. rewrite inorder_fork in H. apply NoDup_app in H as (_ & _ & H).
  apply NoDup_cons in H as [_ H]. apply NoDup_app in H as (_ & H & _). by apply (H b); apply top_in.
Qed.

Lemma insert_outer d tree k t p s g u a :
  located tree (Frame d true p s :: Frame d false g u :: k) t → top t = Some a → red_top u = false →
  ∃ tree', insert_fix_side d tree (Some a) (Some p) (Some g) = Some (tree', Some a) ∧
    located tree' k (fork d false t p (fork d true s g u)) ∧ same_rest tree tree'.
Proof.
  intros H1%go_up Ha Hu. pose proof (go_up _ _ _ _ _ _ _ H1) as H.
  destruct (located_node _ _ _ _ _ _ _ H) as (gp & Hg & _ & _ & Hgu & _). unfold insert_fix_side. hread Hg. rewrite Hgu.
  rewrite (is_red_ok _ _ _ (go_far _ _ _ _ _ _ _ H)), Hu. cbn [mbind option_bind].
  destruct (located_node _ _ _ _ _ _ _ H1) as (pa & Hp & _ & Hd & Hs & _). hread Hp. rewrite Hs.
  rewrite bool_decide_false by (intros E; by apply (children_differ _ _ _ _ _ _ _ a H1)).
  cbn [mbind option_bind]. destruct (insert_rotate _ _ _ _ _ _ _ _ H) as (t1 & t2 & t3 & -> & E2 & E3 & L3 & S3).
  cbn [mbind option_bind]. rewrite E2. cbn [mbind option_bind]. rewrite E3. cbn [mbind option_bind]. by exists t3.
Qed.

(** The node on the inner side: a rotation at the parent comes first. *)
Lemma insert_inner d tree k tl x tr p s g u :
  located tree (Frame (opp d) true p s :: Frame d false g u :: k) (fork d true tl x tr) → red_top u = false →
  ∃ tree', insert_fix_side d tree (Some x) (Some p) (Some g) = Some (tree', Some p) ∧
    located tree' k (fork d false (fork d true s p tl) x (fork d true tr g u)) ∧ same_rest tree tree'.
Proof.
  intros H1%go_up_far Hu. pose proof (go_up _ _ _ _ _ _ _ H1) as H.
  destruct (located_node _ _ _ _ _ _ _ H) as (gp & Hg & _ & _ & Hgu & _). unfold insert_fix_side. hread Hg. rewrite Hgu.
  rewrite (is_red_ok _ _ _ (go_far _ _ _ _ _ _ _ H)), Hu. cbn [mbind option_bind].
  destruct (located_node _ _ _ _ _ _ _ H1) as (pa & Hp & _ & _ & Hx & _). hread Hp.
  rewrite Hx, top_fork, bool_decide_true by done.
  destruct (rotate_ok _ _ _ _ _ _ _ _ _ _ H1) as (t1 & -> & L1 & S1). cbn [mbind option_bind].
  destruct (located_node _ _ _ _ _ _ _ (go_near _ _ _ _ _ _ _ L1)) as (np & Hnp & Hpp & _). hread Hnp. rewrite Hpp.
  destruct (located_node _ _ _ _ _ _ _ L1) as (nx & Hnx & Hxp & _).
  change (path_parent (Frame d true x tr :: Frame d false g u :: k)) with (Some x). hread Hnx. rewrite Hxp.
  change (path_parent (Frame d false g u :: k)) with (Some g).
  destruct (insert_rotate _ _ _ _ _ _ _ _ (go_up _ _ _ _ _ _ _ L1)) as (t2 & t3 & t4 & -> & E2 & E3 & L3 & S3).
  cbn [mbind option_bind]. rewrite E2. cbn [mbind option_bind]. rewrite E3. cbn [mbind option_bind].
  exists t4. split; [done|]. split; [done|]. by rewrite S1.
Qed.

(** ** The loop *)

(** The root as the last statement of [rbtree_insert_fix] leaves it. *)
Definition blacken (t : shape) : shape := match t with Nil => Nil | Fork _ l a r => Fork false l a r end.

Lemma blacken_rb t m : rb t true m → blacken t = t.
Proof. by destruct t as [|[] l a r]; cbn; [|intros [? _]|]. Qed.

(** What the loop reaches: the same nodes in the same order, in a tree that
    is balanced once its root is black. *)
Definition insert_fixed tree k t tree' : Prop :=
  ∃ t' m, located tree' [] t' ∧ inorder t' = inorder (fill k t) ∧ t' ≠ Nil ∧ rb (blacken t') true m ∧ same_rest tree tree'.

Lemma insert_fixed_trans tree k t tree1 k1 t1 tree' :
  insert_fixed tree1 k1 t1 tree' → inorder (fill k1 t1) = inorder (fill k t) → same_rest tree tree1 →
  insert_fixed tree k t tree'.
Proof. intros (t' & m & L & I & N & R & S) E S1. exists t', m. split; [done|]. split; [congruence|]. split_and!; try done; by rewrite S1. Qed.

(** The loop has nothing to do: the node is the root, or its parent black. *)
Lemma insert_done fuel tree k l x r n :
  located tree k (Fork true l x r) → rb l true n → rb r true n → path_rb k n →
  k = [] ∨ parent_red k = false →
  insert_fix_loop (S fuel) tree (Some x) = Some tree ∧ insert_fixed tree k (Fork true l x r) tree.
Proof.
  intros H Hl Hr Hk Hp. destruct (located_node _ _ LeftSide _ _ _ _ H) as (nx & Hx & Hxp & _).
  cbn [insert_fix_loop]. hread Hx. rewrite Hxp. split.
  - destruct k as [|[d c a s] k]; [done|]. destruct Hp as [?|Hc]; [done|]. cbn in Hc. subst c.
    apply located_up in H. destruct (located_node _ _ _ _ _ _ _ H) as (na & Ha & _ & _ & _ & Hred).
    change (path_parent (Frame d false a s :: k)) with (Some a). cbn [is_null]. hread Ha. by rewrite Hred.
  - apply located_fill in H. destruct Hp as [->|Hc].
    + exists (Fork true l x r), (S n). split; [done|]. split; [done|]. split; [done|]. split; [|done].
      cbn. exists n. split; [done|]. split; by apply rb_weaken.
    + destruct (fill_rb k (Fork true l x r) n Hk) as (m & Hm); [by rewrite Hc|].
      exists (fill k (Fork true l x r)), m. split; [done|]. split; [done|]. split; [|by rewrite (blacken_rb _ m)].
      intros E. apply (f_equal inorder) in E. rewrite inorder_fill in E. cbn in E.
      apply (f_equal length) in E. rewrite !length_app in E. cbn in E. lia.
Qed.

Lemma fork_cases d s a u n : rb s true n → rb u true n →
  ∃ l r, fork d true s a u = Fork true l a r ∧ rb l true n ∧ rb r true n.
Proof. intros Hs Hu. destruct d; [by exists s, u|by exists u, s]. Qed.

(** One round of the loop below a red parent, which has a black parent. *)
Lemma insert_round fuel d1 d tree k l x r n p s g u :
  located tree (Frame d1 true p s :: Frame d false g u :: k) (Fork true l x r) →
  rb l true n → rb r true n → rb s true n → rb u false n → path_rb k (S n) →
  ∃ tree1 l1 x1 r1 k1 n1,
    insert_fix_loop (S fuel) tree (Some x) = insert_fix_loop fuel tree1 (Some x1) ∧
    located tree1 k1 (Fork true l1 x1 r1) ∧ rb l1 true n1 ∧ rb r1 true n1 ∧ path_rb k1 n1 ∧
    inorder (fill k1 (Fork true l1 x1 r1)) = inorder (fill (Frame d1 true p s :: Frame d false g u :: k) (Fork true l x r)) ∧
    same_rest tree tree1 ∧ (k1 = k ∨ parent_red k1 = false).
Proof.
  intros H Hl Hr Hs Hu Hk. pose proof (go_up _ _ _ _ _ _ _ H) as H1. pose proof (go_up _ _ _ _ _ _ _ H1) as H2.
  destruct (located_node _ _ LeftSide _ _ _ _ H) as (nx & Hx & Hxp & _).
  destruct (located_node _ _ _ _ _ _ _ H1) as (np & Hp & Hpp & _ & _ & Hpr).
  destruct (located_node _ _ _ _ _ _ _ H2) as (ng & Hg & _ & Hgd & Hgu & _). rewrite top_fork in Hgd.
  cbn [insert_fix_loop]. hread Hx. rewrite Hxp. change (path_parent (Frame d1 true p s :: _)) with (Some p). cbn [is_null].
  hread Hp. rewrite Hpr, Hpp. cbn [negb]. change (path_parent (Frame d false g u :: k)) with (Some g). hread Hg.
  assert ((if bool_decide (Some p = n_left ng) then insert_fix_left tree (Some x) (Some p) (Some g)
           else insert_fix_right tree (Some x) (Some p) (Some g)) = insert_fix_side d tree (Some x) (Some p) (Some g)) as ->.
  { destruct d; cbn in Hgd, Hgu; [by rewrite Hgd, bool_decide_true|]. rewrite bool_decide_false; [done|].
    rewrite Hgu. intros E. symmetry in E. apply (children_differ _ _ _ _ _ _ _ p H2); [by rewrite top_fork|done]. }
  assert (path_rb (Frame d false g u :: k) n) as Hk1 by done.
  destruct (red_top u) eqn:Eu.
  - destruct u as [|[] ul ua ur]; try done. destruct Hu as (_ & Hul & Hur).
    destruct (insert_red_uncle _ _ _ _ _ _ _ _ _ _ _ H) as (tree1 & E1 & L1 & S1). cbn [top] in E1.
    rewrite E1. cbn [mbind option_bind].
    assert (rb (fork d1 false (Fork true l x r) p s) true (S n) ∧ rb (Fork false ul ua ur) true (S n)) as [Rp Ru].
    { rewrite rb_fork. cbn. split; (exists n; split; [done|]); split; try by apply rb_weaken. split; [done|]. done. }
    destruct (fork_cases d (fork d1 false (Fork true l x r) p s) g (Fork false ul ua ur) (S n) Rp Ru) as (l1 & r1 & E & Hl1 & Hr1).
    rewrite E in L1. exists tree1, l1, g, r1, k, (S n). split; [done|]. split; [done|]. split; [done|]. split; [done|]. split; [done|].
    split; [|split; [done|by left]]. rewrite <-E. cbn [fill plug f_side f_red f_addr f_sibling].
    apply fill_inorder, fork_inorder; [|done]. by apply fork_inorder.
  - apply (rb_black u) in Hu; [|done].
    assert (d1 = d ∨ d1 = opp d) as [->| ->] by (destruct d1, d; by auto).
    + destruct (insert_outer _ _ _ _ _ _ _ _ x H eq_refl Eu) as (tree1 & -> & L1 & S1). cbn [mbind option_bind].
      exists tree1, l, x, r, (Frame d false p (fork d true s g u) :: k), n. split; [done|]. split; [by apply go_near|].
      split_and!; try done; try by right.
      * cbn. split; [|done]. by apply rb_fork.
      * cbn [fill plug f_side f_red f_addr f_sibling]. apply fill_inorder. destruct d; flat_order.
    + assert (∃ tl tr, Fork true l x r = fork d true tl x tr ∧ rb tl true n ∧ rb tr true n) as (tl & tr & E & Htl & Htr).
      { destruct d; [by exists l, r|by exists r, l]. }
      rewrite E in H. destruct (insert_inner _ _ _ _ _ _ _ _ _ _ H Eu) as (tree1 & -> & L1 & S1). cbn [mbind option_bind].
      destruct (fork_cases d s p tl n Hs Htl) as (l1 & r1 & E1 & Hl1 & Hr1).
      rewrite E1 in L1. exists tree1, l1, p, r1, (Frame d false x (fork d true tr g u) :: k), n. split; [done|].
      split; [by apply go_near|]. split_and!; try done; try by right.
      * cbn. split; [|done]. by apply rb_fork.
      * rewrite E, <-E1. cbn [fill plug f_side f_red f_addr f_sibling]. apply fill_inorder.
        destruct d; flat_order.
Qed.

Lemma rb_insert_loop_ok fuel : ∀ tree k l x r n,
  (length k < fuel)%nat → located tree k (Fork true l x r) → rb l true n → rb r true n → path_rb k n →
  ∃ tree', insert_fix_loop fuel tree (Some x) = Some tree' ∧ insert_fixed tree k (Fork true l x r) tree'.
Proof.
  induction fuel as [|fuel IH]; intros tree k l x r n Hf H Hl Hr Hk; [lia|].
  destruct (parent_red k) eqn:Ep; cycle 1.
  { exists tree. eapply insert_done; [done..|]. by right. }
  destruct k as [|[d1 c p s] k]; [exists tree; eapply insert_done; [done..|]; by left|].
  cbn in Ep, Hk. subst c. destruct Hk as (Hs & Ep & Hk).
  destruct k as [|[d c g u] k]; [done|]. cbn in Ep. subst c. destruct Hk as (Hu & Hk).
  destruct (insert_round fuel _ _ _ _ _ _ _ _ _ _ _ _ H Hl Hr Hs Hu Hk)
    as (tree1 & l1 & x1 & r1 & k1 & n1 & -> & L1 & Hl1 & Hr1 & Hk1 & I1 & S1 & Hend).
  cbn in Hf. assert (∃ tree', insert_fix_loop fuel tree1 (Some x1) = Some tree' ∧ insert_fixed tree1 k1 (Fork true l1 x1 r1) tree')
    as (tree' & E & F).
  { destruct Hend as [->|Hb]; [eapply IH; [lia|done..]|]. destruct fuel; [lia|]. exists tree1. eapply insert_done; [done..|]. by right. }
  exists tree'. split; [done|]. by eapply insert_fixed_trans.
Qed.

(** Every node is reached from the root in fewer steps than there are nodes. *)
Lemma path_length k t : (length k + length (inorder t) <= length (inorder (fill k t)))%nat.
Proof.
  rewrite fill_perm, length_app. enough (length k <= length (path_addrs k))%nat by lia.
  induction k as [|f k IH]; cbn; [lia|]. rewrite length_app. lia.
Qed.

Lemma located_fuel tree k t :
  located tree k t → list_to_set (inorder (fill k t)) ⊆ dom (rb_nodes tree) →
  (length (inorder (fill k t)) < node_fuel tree)%nat.
Proof.
  intros H Hd. apply located_fill, lo_nodup in H. cbn in H. apply subseteq_size in Hd.
  rewrite size_list_to_set in Hd by done. rewrite size_dom in Hd. unfold node_fuel. lia.
Qed.

Lemma repr_dom (h : gmap Z (rbtree_node K V)) par t : repr h par t → list_to_set (inorder t) ⊆ dom h.
Proof.
  revert par. induction t as [|c l IHl a r IHr]; intros par; cbn; [set_solver|].
  intros ((n & Hn & _) & Hl%IHl & Hr%IHr). apply elem_of_dom_2 in Hn. set_solver.
Qed.

Lemma located_dom tree k t : located tree k t → list_to_set (inorder (fill k t)) ⊆ dom (rb_nodes tree).
Proof.
  intros H. apply located_fill in H. by eapply repr_dom, lo_repr.
Qed.

(** The fix after a new red node without children. *)
Lemma insert_fix_ok tree k x m :
  located tree k (Fork true Nil x Nil) → rb (fill k Nil) true m →
  ∃ tree' t' m', rbtree_insert_fix tree (Some x) = Some tree' ∧ located tree' [] t' ∧
    inorder t' = before k ++ x :: after k ∧ rb t' true m' ∧ same_rest tree tree'.
Proof.
  intros H (n & Hk & Hn)%path_rb_fill. cbn in Hn. subst n. unfold rbtree_insert_fix.
  pose proof (located_fuel _ _ _ H (located_dom _ _ _ H)) as Hf. pose proof (path_length k (Fork true Nil x Nil)).
  destruct (rb_insert_loop_ok (node_fuel tree) tree k Nil x Nil 0) as (tree1 & -> & t1 & m1 & L1 & I1 & N1 & R1 & S1);
    [cbn in *; lia|done..|]. cbn [mbind option_bind]. pose proof (lo_path _ _ _ L1) as Hroot. cbn in Hroot. rewrite Hroot.
  destruct t1 as [|c l a r]; [done|]. cbn [top]. destruct (recolour _ _ LeftSide _ false _ _ _ L1) as (tree2 & -> & L2 & S2).
  exists tree2, (Fork false l a r), m1. split; [done|]. split; [done|]. split; [|split; [done|by rewrite S1]].
  cbn in I1 |- *. rewrite I1, inorder_fill. done.
Qed.
End Insert.
