(* ===== verification/RbDelete.v ===== *)
(** * The red-black tree ([cstl/src/rbtree.c]): removal

    [rbtree_delete_fix] restores the number of black nodes on the paths
    through a position where one is missing, and [unlink_node] takes a node
    out of the tree; neither follows a null pointer, both end, keep the order
    of the other nodes and leave everything but colours and links alone. *)

From stdpp Require Import gmap.
From S2P Require Import Prelude World Sequence RbTree RbShape RbInsert.
Local Open Scope Z_scope.

Section Delete.
Context {K V : Type}.
Implicit Types (tree : rbtree_t K V) (t : shape) (k : list frame).

(** ** One round *)

(** The second half of the loop body: the sibling is black. *)
Definition delete_fix_black (d : side) tree (parent sibling : ptr) : option (rbtree_t K V * ptr * ptr) :=
  if is_null sibling then
    pa ← node_at tree parent;
    Some (tree, parent, n_parent pa)
  else
    sb ← node_at tree sibling;
    near_black ← rbtree_is_black tree (child d sb);
    far_black ← rbtree_is_black tree (child (opp d) sb);
    if (near_black : bool) && (far_black : bool) then
      tree ← update tree sibling (with_red true);
      pa ← node_at tree parent;
      Some (tree, parent, n_parent pa)
    else
      '(tree, sibling) ← (if far_black then
        tree ← update_if tree (child d sb) (with_red false);
        tree ← update tree sibling (with_red true);
        tree ← rb_rotate (opp d) tree sibling;
        pa ← node_at tree parent;
        Some (tree, child (opp d) pa)
        else Some (tree, sibling));
      pa ← node_at tree parent;
      tree ← update tree sibling (with_red (n_red pa));
      tree ← update tree parent (with_red false);
      sb ← node_at tree sibling;
      tree ← update_if tree (child (opp d) sb) (with_red false);
      tree ← rb_rotate d tree parent;
      Some (tree, rb_root tree, None).

(** Both halves of the loop body: the node is on side [d] of its parent. *)
Definition delete_fix_side (d : side) tree (parent : ptr) : option (rbtree_t K V * ptr * ptr) :=
  pa ← node_at tree parent;
  let sibling := child (opp d) pa in
  sibling_red ← rbtree_is_red tree sibling;
  '(tree, sibling) ← (if (sibling_red : bool) then
    tree ← update tree sibling (with_red false);
    tree ← update tree parent (with_red true);
    tree ← rb_rotate d tree parent;
    pa ← node_at tree parent;
    Some (tree, child (opp d) pa)
    else Some (tree, sibling));
  delete_fix_black d tree parent sibling.

Lemma delete_fix_left_eq tree parent : delete_fix_left tree parent = delete_fix_side LeftSide tree parent.
Proof. done. Qed.
Lemma delete_fix_right_eq tree parent : delete_fix_right tree parent = delete_fix_side RightSide tree parent.
Proof. done. Qed.

(** A red sibling becomes the grandparent. *)
Lemma delete_red_sibling d tree k t p sn q sf :
  located tree k (fork d false t p (fork d true sn q sf)) →
  ∃ tree', delete_fix_side d tree (Some p) = delete_fix_black d tree' (Some p) (top sn) ∧
    located tree' (Frame d true p sn :: Frame d false q sf :: k) t ∧ same_rest tree tree'.
Proof.
  intros H. destruct (located_node _ _ _ _ _ _ _ H) as (np & Hp & _ & _ & Hs & _). rewrite top_fork in Hs.
  unfold delete_fix_side. hread Hp. rewrite Hs. pose proof (go_far _ _ _ _ _ _ _ H) as H1.
  pose proof (is_red_ok _ _ _ H1) as Er. rewrite top_fork, red_top_fork in Er. rewrite Er. cbn [mbind option_bind].
  destruct (recolour _ _ _ _ false _ _ _ H1) as (t1 & -> & L1%go_up_far & S1). cbn [mbind option_bind].
  destruct (recolour _ _ _ _ true _ _ _ L1) as (t2 & -> & L2 & S2). cbn [mbind option_bind].
  destruct (rotate_ok _ _ _ _ _ _ _ _ _ _ L2) as (t3 & -> & L3%go_near & S3). cbn [mbind option_bind].
  destruct (located_node _ _ _ _ _ _ _ L3) as (np' & Hp' & _ & _ & Hs' & _). hread Hp'. rewrite Hs'.
  exists t3. split; [done|]. split; [by apply go_near|]. by rewrite S1, S2.
Qed.

Lemma delete_black_sibling d tree k c t p s :
  located tree k (fork d c t p s) → red_top s = false →
  delete_fix_side d tree (Some p) = delete_fix_black d tree (Some p) (top s).
Proof.
  intros H Hs. destruct (located_node _ _ _ _ _ _ _ H) as (np & Hp & _ & _ & Es & _). unfold delete_fix_side.
  hread Hp. rewrite Es, (is_red_ok _ _ _ (go_far _ _ _ _ _ _ _ H)), Hs. done.
Qed.

Section BlackSibling.
Context (d : side) (tree : rbtree_t K V) (k : list frame) (c : bool) (t : shape) (p : Z) (sn : shape) (q : Z) (sf : shape).
Context (H : located tree k (fork d c t p (fork d false sn q sf))).

(** Both nephews black: the sibling turns red and the problem moves up. *)
Lemma delete_black_nephews :
  red_top sn = false → red_top sf = false →
  ∃ tree', delete_fix_black d tree (Some p) (Some q) = Some (tree', Some p, path_parent k) ∧
    located tree' k (fork d c t p (fork d true sn q sf)) ∧ same_rest tree tree'.
Proof using H.
  intros Hn Hf. pose proof (go_far _ _ _ _ _ _ _ H) as H1.
  destruct (located_node _ _ _ _ _ _ _ H1) as (nq & Hq & _ & Cn & Cf & _). unfold delete_fix_black. cbn [is_null].
  hread Hq. rewrite Cn, Cf, (is_black_ok _ _ _ (go_near _ _ _ _ _ _ _ H1)), (is_black_ok _ _ _ (go_far _ _ _ _ _ _ _ H1)), Hn, Hf.
  cbn [mbind option_bind negb andb].
  destruct (recolour _ _ _ _ true _ _ _ H1) as (t1 & -> & L1%go_up_far & S1). cbn [mbind option_bind].
  destruct (located_node _ _ _ _ _ _ _ L1) as (np & Hp & Pp & _). hread Hp. rewrite Pp. by exists t1.
Qed.

(** The end of the body: the far nephew is red. *)
Lemma delete_rotate c' sn' q' f1 z f2 tree0 :
  located tree0 k (fork d c t p (fork d c' sn' q' (Fork true f1 z f2))) →
  ∃ np tree1 tree2 nq tree3 tree4, rb_nodes tree0 !! p = Some np ∧ update tree0 (Some q') (with_red (n_red np)) = Some tree1 ∧
    update tree1 (Some p) (with_red false) = Some tree2 ∧ node_at tree2 (Some q') = Some nq ∧
    update_if tree2 (child (opp d) nq) (with_red false) = Some tree3 ∧ rb_rotate d tree3 (Some p) = Some tree4 ∧
    located tree4 k (fork d c (fork d false t p sn') q' (Fork false f1 z f2)) ∧ same_rest tree0 tree4.
Proof using Type.
  intros H0. destruct (located_node _ _ _ _ _ _ _ H0) as (np & Hp & _ & _ & _ & Hc). exists np.
  pose proof (go_far _ _ _ _ _ _ _ H0) as H1.
  destruct (recolour _ _ _ _ c _ _ _ H1) as (t1 & E1 & L1%go_up_far & S1).
  destruct (recolour _ _ _ _ false _ _ _ L1) as (t2 & E2 & L2 & S2). pose proof (go_far _ _ _ _ _ _ _ L2) as L2'.
  destruct (located_node _ _ _ _ _ _ _ L2') as (nq & Hq & _ & _ & Cf & _). pose proof (go_far _ _ _ _ _ _ _ L2') as L2''.
  destruct (recolour _ _ LeftSide _ false _ _ _ L2'') as (t3 & E3 & L3%go_up_far%go_up_far & S3).
  destruct (rotate_ok _ _ _ _ _ _ _ _ _ _ L3) as (t4 & E4 & L4 & S4).
  exists t1, t2, nq, t3, t4. rewrite Hc, Cf. split; [done|]. split; [done|]. split; [done|]. split; [done|]. split; [done|].
  split; [done|]. split; [done|]. by rewrite S1, S2, S3.
Qed.

Lemma delete_far_red f1 z f2 :
  sf = Fork true f1 z f2 →
  ∃ tree', delete_fix_black d tree (Some p) (Some q) = Some (tree', rb_root tree', None) ∧
    located tree' k (fork d c (fork d false t p sn) q (Fork false f1 z f2)) ∧ same_rest tree tree'.
Proof using H.
  intros Esf. pose proof H as H0. rewrite Esf in H0. pose proof (go_far _ _ _ _ _ _ _ H0) as H1.
  destruct (located_node _ _ _ _ _ _ _ H1) as (nq & Hq & _ & Cn & Cf & _). unfold delete_fix_black. cbn [is_null].
  hread Hq. rewrite Cn, Cf, (is_black_ok _ _ _ (go_near _ _ _ _ _ _ _ H1)), (is_black_ok _ _ _ (go_far _ _ _ _ _ _ _ H1)).
  cbn [mbind option_bind red_top negb]. rewrite andb_false_r.
  destruct (delete_rotate _ _ _ _ _ _ _ H0) as (np & t1 & t2 & nq2 & t3 & t4 & Hp & E1 & E2 & Eq & E3 & E4 & L4 & S4).
  hread Hp. rewrite E1. cbn [mbind option_bind]. rewrite E2. cbn [mbind option_bind]. rewrite Eq. cbn [mbind option_bind].
  rewrite E3. cbn [mbind option_bind]. rewrite E4. cbn [mbind option_bind]. by exists t4.
Qed.

Lemma delete_near_red s1 z s2 :
  sn = fork d true s1 z s2 → red_top sf = false →
  ∃ tree', delete_fix_black d tree (Some p) (Some q) = Some (tree', rb_root tree', None) ∧
    located tree' k (fork d c (fork d false t p s1) z (fork d false s2 q sf)) ∧ same_rest tree tree'.
Proof using H.
  intros Esn Hf. pose proof H as H0. rewrite Esn in H0. pose proof (go_far _ _ _ _ _ _ _ H0) as H1.
  destruct (located_node _ _ _ _ _ _ _ H1) as (nq & Hq & _ & Cn & Cf & _). unfold delete_fix_black. cbn [is_null].
  hread Hq. rewrite Cn, Cf, (is_black_ok _ _ _ (go_near _ _ _ _ _ _ _ H1)), (is_black_ok _ _ _ (go_far _ _ _ _ _ _ _ H1)), Hf.
  rewrite red_top_fork, top_fork. cbn [mbind option_bind negb andb update_if is_null].
  destruct (recolour _ _ _ _ false _ _ _ (go_near _ _ _ _ _ _ _ H1)) as (t1 & -> & L1%go_up & S1). cbn [mbind option_bind].
  destruct (recolour _ _ _ _ true _ _ _ L1) as (t2 & -> & L2 & S2). cbn [mbind option_bind].
  rewrite <-!(fork_opp d) in L2. destruct (rotate_ok _ _ _ _ _ _ _ _ _ _ L2) as (t3 & -> & L3 & S3). cbn [mbind option_bind].
  rewrite !fork_opp in L3. apply go_up_far in L3.
  destruct (located_node _ _ _ _ _ _ _ L3) as (np & Hp & _ & _ & Cz & _). rewrite top_fork in Cz. hread Hp. rewrite Cz.
  destruct (fork_shape d true s2 q sf) as (f1 & f2 & Ef & Ef'). rewrite Ef in L3.
  destruct (delete_rotate _ _ _ _ _ _ _ L3) as (np' & t4 & t5 & nq2 & t6 & t7 & Hp' & E1 & E2 & Eq & E3 & E4 & L4 & S4).
  hread Hp. assert (np' = np) as -> by congruence. rewrite E1. cbn [mbind option_bind]. rewrite E2. cbn [mbind option_bind]. rewrite Eq.
  cbn [mbind option_bind]. rewrite E3. cbn [mbind option_bind]. rewrite E4. cbn [mbind option_bind].
  exists t7. split; [done|]. rewrite Ef'. split; [done|]. by rewrite S1, S2, S3.
Qed.
End BlackSibling.

(** ** The loop *)

(** The loop and the statement after it. *)
Definition delete_fix_fuel (fuel : nat) tree (node parent : ptr) : option (rbtree_t K V) :=
  '(tree, node) ← delete_fix_loop fuel tree node parent; update_if tree node (with_red false).

(** Only the root of the tree is what the tree record points to. *)
Lemma is_root tree k t : located tree k t → top t = rb_root tree ↔ k = [].
Proof.
  intros H. split; [|intros ->; symmetry; exact (lo_path _ _ _ H)]. intros E.
  destruct H as [Hk _ Hd]. destruct k as [|f k]; [done|]. exfalso.
  assert (∀ k hole, path_repr (rb_nodes tree) (rb_root tree) k hole → k ≠ [] → ∃ a, rb_root tree = Some a ∧ a ∈ path_addrs k) as Hr.
  { clear. induction k as [|[d c a s] k IH]; intros hole; cbn; [done|]. intros (_ & _ & Hk) _.
    destruct k as [|f k]; [exists a; split; [done|set_solver]|].
    destruct (IH _ Hk) as (b & Hb & Hin); [done|]. exists b. split; [done|]. set_solver. }
  destruct (Hr _ _ Hk) as (a & Ha & Hin); [done|]. rewrite Ha in E. apply top_in in E.
  apply NoDup_app in Hd as (_ & Hd & _). by apply (Hd a).
Qed.

Definition delete_fixed tree k t tree' : Prop :=
  ∃ t' m, located tree' [] t' ∧ inorder t' = inorder (fill k t) ∧ rb t' true m ∧ same_rest tree tree'.

Lemma delete_fixed_trans tree k t tree1 k1 t1 tree' :
  delete_fixed tree1 k1 t1 tree' → inorder (fill k1 t1) = inorder (fill k t) → same_rest tree tree1 →
  delete_fixed tree k t tree'.
Proof. intros (t' & m & L & I & R & S) E S1. exists t', m. split; [done|]. split; [congruence|]. split; [done|]. by rewrite S1. Qed.

(** A position where a black node is missing above a red node or at the
    root: the node turns black. *)
Lemma delete_done fuel tree k t n parent :
  located tree k t → path_rb k (S n) → (red_top t = true ∧ rb (blacken t) true (S n)) ∨ (k = [] ∧ rb t true n) →
  ∃ tree', delete_fix_fuel (S fuel) tree (top t) parent = Some tree' ∧ delete_fixed tree k t tree'.
Proof.
  intros H Hk Ht. unfold delete_fix_fuel. cbn [delete_fix_loop].
  assert (∃ tree', update_if tree (top t) (with_red false) = Some tree' ∧ delete_fixed tree k t tree') as (tree' & E & F).
  { destruct t as [|c l a r].
    - destruct Ht as [[? _]|[-> Hr]]; [done|]. exists tree. split; [done|]. by exists Nil, n.
    - destruct (recolour _ _ LeftSide _ false _ _ _ H) as (tree' & E & L & S1). exists tree'. split; [done|].
      assert (rb (Fork false l a r) (parent_red k) (S n) ∨ (k = [] ∧ rb (Fork false l a r) true n)) as Hr.
      { destruct Ht as [[_ Hr]|[-> Hr]]; [left; by apply rb_weaken|]. right. by destruct c; [destruct Hr|]. }
      apply located_fill in L. destruct Hr as [Hr|[-> Hr]].
      + destruct (fill_rb _ _ _ Hk Hr) as (m & Hm). exists (fill k (Fork false l a r)), m. split; [done|]. split; [|done].
        by apply fill_inorder.
      + by exists (Fork false l a r), n. }
  destruct Ht as [[Hred Hr]|[-> Hr]].
  - case_bool_decide; [by exists tree'|]. rewrite (is_black_ok _ _ _ H), Hred. by exists tree'.
  - rewrite bool_decide_true by (by apply (is_root _ _ _ H)). by exists tree'.
Qed.

(** The tree is whole again: the root is looked at once more. *)
Lemma delete_finish fuel tree k t n :
  located tree k t → path_rb k n → rb t (parent_red k) n →
  ∃ tree', delete_fix_fuel (S fuel) tree (rb_root tree) None = Some tree' ∧ delete_fixed tree k t tree'.
Proof.
  intros H Hk Hr. destruct (fill_rb _ _ _ Hk Hr) as (m & Hm). apply located_fill in H.
  destruct (delete_done fuel tree [] (fill k t) m None H I) as (tree' & E & F); [by right|].
  exists tree'. split; [|by eapply delete_fixed_trans]. rewrite <-E. f_equal. symmetry. by apply (is_root _ _ _ H).
Qed.

(** The side of the parent the node is on, as the code finds it. *)
Lemma delete_side fuel d tree k c t p s n parent :
  located tree (Frame d c p s :: k) t → rb t true n → rb s false (S n) → parent = Some p →
  delete_fix_fuel (S fuel) tree (top t) parent =
    ('(tree', node, parent') ← delete_fix_side d tree (Some p); delete_fix_fuel fuel tree' node parent').
Proof.
  intros H Ht Hs ->. unfold delete_fix_fuel. cbn [delete_fix_loop].
  rewrite bool_decide_false by (by intros E%(is_root _ _ _ H)). rewrite (is_black_ok _ _ _ H).
  assert (red_top t = false) as -> by (destruct t as [|[] l a r]; [done|by destruct Ht|done]). cbn [mbind option_bind negb is_null].
  apply go_up in H. destruct (located_node _ _ _ _ _ _ _ H) as (np & Hp & _ & Cd & Co & _). hread Hp.
  assert ((if bool_decide (top t = n_left np) then delete_fix_left tree (Some p) else delete_fix_right tree (Some p)) =
    delete_fix_side d tree (Some p)) as ->.
  { destruct d; cbn in Cd, Co; [by rewrite Cd, bool_decide_true|]. rewrite bool_decide_false; [done|]. rewrite Co.
    intros E. destruct s as [|sc sl sa sr]; [done|]. cbn in E. by apply (children_differ _ _ _ _ _ _ _ sa H). }
  destruct (delete_fix_side d tree (Some p)) as [[[tree' node] parent']|]; done.
Qed.

(** What a round with a black sibling leads to: the problem one step up, where
    it is solved at once when the parent was red, or a whole tree. *)
Definition rounded d tree k c t p s n tree1 (node parent : ptr) : Prop :=
  same_rest tree tree1 ∧ ∃ t1, located tree1 k t1 ∧ inorder t1 = inorder (fork d c t p s) ∧
  ((node = top t1 ∧ parent = path_parent k ∧
     if (c : bool) then red_top t1 = true ∧ rb (blacken t1) true (S n) ∧ path_rb k (S n)
     else rb t1 true (S n) ∧ path_rb k (S (S n))) ∨
   (node = rb_root tree1 ∧ parent = None ∧ ∃ m, path_rb k m ∧ rb t1 (parent_red k) m)).

Lemma delete_round d tree k c t p s n :
  located tree (Frame d c p s :: k) t → rb t true n → rb s true (S n) → path_rb (Frame d c p s :: k) (S n) →
  ∃ tree1 node parent, delete_fix_black d tree (Some p) (top s) = Some (tree1, node, parent) ∧
    rounded d tree k c t p s n tree1 node parent.
Proof.
  intros H%go_up Ht Hs Hk. destruct s as [|[] l q r]; [done|by destruct Hs|].
  assert (∃ sn sf, Fork false l q r = fork d false sn q sf ∧ rb sn false n ∧ rb sf false n) as (sn & sf & Es & Hsn & Hsf).
  { destruct Hs as (m & [= <-] & Hl & Hr). destruct d; [by exists l, r|by exists r, l]. }
  rewrite Es in H |- *. rewrite top_fork.
  assert (rb (fork d false t p sn) true (S n)) as Htp
    by (apply rb_fork; exists n; split; [done|]; split; [by apply rb_weaken|done]).
  assert (∀ c1 x a y, rb (fork d c1 x a y) (parent_red k) (if c1 then S n else S (S n)) → c1 = c →
    ∃ m, path_rb k m ∧ rb (fork d c1 x a y) (parent_red k) m) as Hwhole.
  { intros c1 x a y Hr <-. cbn in Hk. destruct c1; eexists; (split; [|exact Hr]); by apply Hk. }
  destruct (red_top sf) eqn:Ef; [|destruct (red_top sn) eqn:En].
  - destruct sf as [|[] f1 z f2]; try done. destruct Hsf as (_ & Hf1 & Hf2).
    destruct (delete_far_red _ _ _ _ _ _ _ _ _ H _ _ _ eq_refl) as (tree1 & E1 & L1 & S1).
    exists tree1, (rb_root tree1), None. split; [done|]. split; [done|]. eexists. split; [exact L1|].
    split; [destruct d; flat_order|]. right. split; [done|]. split; [done|]. apply Hwhole; [|done].
    assert (rb (Fork false f1 z f2) true (S n)) by (exists n; split; [done|]; split; by apply rb_weaken).
    apply rb_fork. destruct c; [split; [by apply Hk|done]|]. exists (S n). split; [done|]. split; by apply rb_weaken.
  - destruct sn as [|[] l1 z r1]; try done.
    assert (∃ s1 s2, Fork true l1 z r1 = fork d true s1 z s2 ∧ rb s1 true n ∧ rb s2 true n) as (s1 & s2 & Esn & Hs1 & Hs2).
    { destruct Hsn as (_ & Hl & Hr). destruct d; [by exists l1, r1|by exists r1, l1]. }
    destruct (delete_near_red _ _ _ _ _ _ _ _ _ H _ _ _ Esn Ef) as (tree1 & E1 & L1 & S1).
    exists tree1, (rb_root tree1), None. split; [done|]. split; [done|]. eexists. split; [exact L1|].
    split; [rewrite Esn; destruct d; flat_order|]. right. split; [done|]. split; [done|]. apply Hwhole; [|done].
    assert (rb (fork d false t p s1) true (S n) ∧ rb (fork d false s2 q sf) true (S n)) as [? ?].
    { rewrite !rb_fork. split; (exists n; split; [done|]; split; first [done|by apply rb_weaken]). }
    apply rb_fork. destruct c; [split; [by apply Hk|done]|]. exists (S n). split; [done|]. split; by apply rb_weaken.
  - destruct (delete_black_nephews _ _ _ _ _ _ _ _ _ H En Ef) as (tree1 & E1 & L1 & S1).
    exists tree1, (Some p), (path_parent k). split; [done|]. split; [done|]. eexists. split; [exact L1|].
    split; [by repeat apply fork_inorder|]. left. split; [by rewrite top_fork|]. split; [done|].
    assert (rb (fork d true sn q sf) false n) as Hq by (apply rb_fork; split; [done|]; split; by eapply rb_black).
    assert (rb (fork d false t p (fork d true sn q sf)) true (S n)) as Hr.
    { apply rb_fork. exists n. split; [done|]. split; [by apply rb_weaken|done]. }
    cbn in Hk. destruct c; [|split; [done|apply Hk]]. split; [by rewrite red_top_fork|]. split; [|apply Hk]. by destruct d.
Qed.

Lemma delete_loop_ok fuel : ∀ tree k t n,
  (length k < fuel)%nat → located tree k t → rb t true n → path_rb k (S n) →
  ∃ tree', delete_fix_fuel fuel tree (top t) (path_parent k) = Some tree' ∧ delete_fixed tree k t tree'.
Proof.
  induction fuel as [|fuel IH]; intros tree k t n Hf H Ht Hk; [lia|].
  destruct k as [|[d c p s] k]; [eapply delete_done; [done..|by right]|]. cbn in Hf. destruct fuel as [|fuel]; [lia|].
  assert (rb s false (S n)) as Hs by (cbn in Hk; destruct c; [apply rb_weaken|]; apply Hk).
  rewrite (delete_side _ _ _ _ _ _ _ _ _ _ H Ht Hs eq_refl).
  assert (∀ tree0 c0 s0 k0 tree1 node parent, rounded d tree0 k0 c0 t p s0 n tree1 node parent →
    (c0 = false → k0 = k) → same_rest tree tree0 →
    inorder (fill k0 (fork d c0 t p s0)) = inorder (fill (Frame d c p s :: k) t) →
    ∃ tree', delete_fix_fuel (S fuel) tree1 node parent = Some tree' ∧ delete_fixed tree (Frame d c p s :: k) t tree') as Hnext.
  { intros tree0 c0 s0 k0 tree1 node parent (S1 & t1 & L1 & I1 & Hcase) Hk0 S0 I0.
    assert (∃ tree', delete_fix_fuel (S fuel) tree1 node parent = Some tree' ∧ delete_fixed tree1 k0 t1 tree') as (tree' & E & F).
    { destruct Hcase as [(-> & -> & Hc)|(-> & -> & m & Hm & Hr)]; [|by eapply delete_finish].
      destruct c0; [eapply delete_done; [done|apply Hc|]; left; split; apply Hc|]. rewrite Hk0 in L1, Hc |- * by done.
      apply (IH tree1 k t1 (S n)); [lia|done|apply Hc|apply Hc]. }
    exists tree'. split; [done|]. eapply delete_fixed_trans; [exact F| |by rewrite S0].
    rewrite <-I0. by apply fill_inorder. }
  destruct (red_top s) eqn:Es.
  - destruct s as [|[] l q r]; try done. destruct c; [cbn in Hk; naive_solver|].
    assert (∃ sn sf, Fork true l q r = fork d true sn q sf ∧ rb sn true (S n) ∧ rb sf true (S n)) as (sn & sf & E & Hsn & Hsf).
    { destruct Hs as (_ & Hl & Hr). destruct d; [by exists l, r|by exists r, l]. }
    rewrite E in *. destruct (delete_red_sibling _ _ _ _ _ _ _ _ (go_up _ _ _ _ _ _ _ H)) as (tree0 & -> & L0 & S0).
    destruct (delete_round _ _ _ _ _ _ _ _ L0 Ht Hsn) as (tree1 & node & parent & -> & R1).
    { cbn. cbn in Hk. split; [done|]. split; [done|]. split; [by apply rb_weaken|]. apply Hk. }
    cbn [mbind option_bind]. eapply Hnext; [exact R1|done|done|]. cbn [fill plug f_side f_red f_addr f_sibling].
    apply fill_inorder. destruct d; flat_order.
  - rewrite (delete_black_sibling _ _ _ _ _ _ _ (go_up _ _ _ _ _ _ _ H) Es).
    destruct (delete_round _ _ _ _ _ _ _ _ H Ht (rb_black _ _ _ Es Hs) Hk) as (tree1 & node & parent & -> & R1).
    cbn [mbind option_bind]. by eapply Hnext.
Qed.

Lemma delete_fix_ok tree k t n :
  located tree k t → rb t false n → path_rb k (S n) →
  ∃ tree', rbtree_delete_fix tree (top t) (path_parent k) = Some tree' ∧ delete_fixed tree k t tree'.
Proof.
  intros H Ht Hk. change (rbtree_delete_fix tree (top t) (path_parent k)) with
    (delete_fix_fuel (node_fuel tree) tree (top t) (path_parent k)).
  pose proof (located_fuel _ _ _ H (located_dom _ _ _ H)). pose proof (path_length k t).
  destruct (red_top t) eqn:Et.
  - unfold node_fuel. eapply delete_done; [done..|]. left. split; [done|]. destruct t as [|[] l a r]; try done.
    destruct Ht as (_ & Hl & Hr). exists n. split; [done|]. split; by apply rb_weaken.
  - apply (delete_loop_ok _ _ _ _ n); [lia|done|by eapply rb_black|done].
Qed.

(** ** Taking a node out of the tree *)

Lemma transplant_eq tree removed replacement :
  rbtree_transplant tree removed replacement =
    (r ← node_at tree removed;
     tree ← relink LeftSide tree (n_parent r) removed replacement;
     if is_null replacement then Some tree else
     r ← node_at tree removed;
     update tree replacement (with_parent (n_parent r))).
Proof. done. Qed.

(** A subtree from elsewhere is hung into the place of [z], whose block stays
    as it is. *)
Lemma transplant_ok tree k z nz t par :
  path_repr (rb_nodes tree) (rb_root tree) k (Some z) → rb_nodes tree !! z = Some nz → n_parent nz = path_parent k →
  repr (rb_nodes tree) par t → NoDup (path_addrs k ++ z :: inorder t) →
  ∃ tree', rbtree_transplant tree (Some z) (top t) = Some tree' ∧ located tree' k t ∧
    (∀ b, b ∉ path_addrs k → top t ≠ Some b → rb_nodes tree' !! b = rb_nodes tree !! b) ∧ same_rest tree tree'.
Proof.
  intros Hk Hz Pz Ht Hd. rewrite transplant_eq. hread Hz. rewrite Pz.
  pose proof Hd as Hd'. rewrite NoDup_app, NoDup_cons in Hd'. destruct Hd' as (Dk & Dkz & Dz & Dt).
  assert (z ∉ path_addrs k) as Nz by (intros Hin; by apply (Dkz z Hin); left).
  destruct (relink_ok LeftSide tree k z (top t) Hk) as (tree1 & -> & K1 & O1 & S1); [by apply NoDup_cons|].
  cbn [mbind option_bind].
  assert (∀ b, b ∈ inorder t → b ∉ path_addrs k) as Ntk by (intros b Hb Hin; apply (Dkz b Hin); by right).
  assert (rb_nodes tree1 !! z = Some nz) as Hz1 by (by rewrite O1).
  assert (repr (rb_nodes tree1) par t) as Ht1.
  { eapply repr_same; [|exact Ht]. intros b Hb. unfold same_links_at. rewrite O1; [done|by apply Ntk]. }
  assert ((if is_null (top t) then Some tree1 else r ← node_at tree1 (Some z); update tree1 (top t) (with_parent (n_parent r))) =
    update_if tree1 (top t) (with_parent (path_parent k))) as ->.
  { unfold update_if. destruct (top t); [|done]. cbn [is_null]. hread Hz1. by rewrite Pz. }
  destruct (update_top tree1 par t (with_parent (path_parent k)) Ht1) as (tree2 & -> & R2 & T2 & O2 & S2).
  exists tree2. split; [done|]. split; [split|split].
  - rewrite R2. eapply path_same; [|exact K1]. intros b Hb. unfold same_links_at. rewrite O2; [done|].
    intros E%top_in. by apply (Ntk b).
  - eapply repr_reparent; [exact Ht1|done|..].
    + intros b Hb Hne. unfold same_links_at. by rewrite O2.
    + intros b n Hb Hn. rewrite (T2 b n Hb Hn). by eexists.
  - rewrite NoDup_app. split; [done|]. split; [|done]. intros b Hb Hin. by apply (Ntk b).
  - intros b Hb Hne. by rewrite O2, O1.
  - etrans; [exact S1|]. by apply S2.
Qed.

(** A node with at most one child: the child takes its place. *)
Lemma transplant_child d tree k c z t :
  located tree k (fork d c t z Nil) →
  ∃ tree', rbtree_transplant tree (Some z) (top t) = Some tree' ∧ located tree' k t ∧ same_rest tree tree' ∧
    rb_nodes tree' !! z = rb_nodes tree !! z.
Proof.
  intros H. destruct (located_node _ _ _ _ _ _ _ H) as (nz & Hz & Pz & _). destruct H as [Hk Hr Hd].
  rewrite top_fork in Hk. apply repr_fork in Hr as (_ & Ht & _). rewrite inorder_fork in Hd. cbn in Hd. rewrite app_nil_r in Hd.
  destruct (transplant_ok _ _ _ _ _ _ Hk Hz Pz Ht Hd) as (tree' & E & L & O & S). exists tree'.
  split; [done|]. split; [done|]. split; [done|]. apply NoDup_app in Hd as (_ & Hd & [Hz' _]%NoDup_cons).
  apply O; [intros Hin; by apply (Hd z Hin); left|]. by intros E'%top_in.
Qed.

(** The least node of a tree. *)
Lemma minimum_ok t : ∀ tree k fuel,
  located tree k t → t ≠ Nil → (length (inorder t) < fuel)%nat →
  ∃ k2 c y r, t = fill k2 (Fork c Nil y r) ∧ Forall (λ f, f_side f = LeftSide) k2 ∧
    minimum_loop fuel tree (top t) = Some (Some y).
Proof.
  induction t as [|c l IHl a r _]; intros tree k fuel H Ht Hf; [done|]. destruct fuel as [|fuel]; [lia|]. cbn [minimum_loop top].
  destruct (located_node _ _ LeftSide _ _ _ _ H) as (na & Ha & _ & Cl & _). cbn [child] in Cl. hread Ha. rewrite Cl.
  assert (l = Nil ∨ l ≠ Nil) as [->|Hl] by (destruct l; [by left|by right]).
  - exists [], c, a, r. split; [done|]. split; [done|]. done.
  - destruct (IHl tree (Frame LeftSide c a r :: k) fuel) as (k2 & c2 & y & r2 & El & Hk2 & E); [by apply (go_near _ LeftSide)|done| |].
    { cbn in Hf. rewrite length_app in Hf. cbn in Hf. lia. }
    exists (k2 ++ [Frame LeftSide c a r]), c2, y, r2. split; [rewrite fill_app, <-El; done|].
    split; [apply Forall_app; split; [done|by constructor]|]. rewrite E. by destruct l.
Qed.

(** The successor [y] is out of its place, with what will be its right
    subtree; the node [z] still has its left subtree. *)
Record lifted tree k (c : bool) (l : shape) (z : Z) (c' : bool) (y : Z) (r : shape) : Prop := {
  li_path : path_repr (rb_nodes tree) (rb_root tree) k (Some z);
  li_node : ∃ nz, rb_nodes tree !! z = Some nz ∧ n_parent nz = path_parent k ∧ n_left nz = top l ∧ n_red nz = c;
  li_left : repr (rb_nodes tree) (Some z) l;
  li_moved : ∃ par, repr (rb_nodes tree) par (Fork c' Nil y r);
  li_nodup : NoDup (path_addrs k ++ z :: inorder l ++ y :: inorder r)
}.

(** The successor takes the place of [z], its left subtree and its colour. *)
Definition settle tree (node moved : ptr) : option (rbtree_t K V) :=
  tree ← rbtree_transplant tree node moved;
  n ← node_at tree node;
  tree ← update tree moved (with_left (n_left n));
  mv' ← node_at tree moved;
  tree ← update tree (n_left mv') (with_parent moved);
  n ← node_at tree node;
  update tree moved (with_red (n_red n)).

Lemma rb_settle_ok tree k c l z c' y r :
  lifted tree k c l z c' y r → l ≠ Nil →
  ∃ tree', settle tree (Some z) (Some y) = Some tree' ∧ located tree' k (Fork c l y r) ∧ same_rest tree tree'.
Proof.
  intros [Hk (nz & Hz & Pz & Lz & Cz) Hl (par & Hy) Hd] Nl.
  assert (NoDup (path_addrs k ++ z :: inorder (Fork c' Nil y r)) ∧
    NoDup (path_addrs k ++ inorder l ++ y :: inorder r) ∧ NoDup (inorder l) ∧ z ∉ path_addrs k ∧ z ≠ y ∧ y ∉ inorder l ∧
    y ∉ inorder r ∧ y ∉ path_addrs k ∧
    (∀ b, b ∈ inorder l → b ≠ z ∧ b ∉ path_addrs k ∧ b ∉ inorder r)) as (D1 & D2 & D3 & D4 & D5 & D6 & D7 & D8 & D9).
  { clear -Hd. cbn. rewrite !NoDup_app, !NoDup_cons, !NoDup_app, !NoDup_cons in Hd |- *.
    destruct Hd as (H1 & H2 & H3 & H4 & H5 & H6 & H7). split_and!; try done; try set_solver.
    rewrite NoDup_app, NoDup_cons. done. }
  unfold settle. destruct (transplant_ok _ _ _ _ (Fork c' Nil y r) _ Hk Hz Pz Hy D1) as (tree1 & E1 & L1 & O1 & S1).
  cbn [top] in E1, O1. rewrite E1. cbn [mbind option_bind].
  assert (rb_nodes tree1 !! z = Some nz) as Hz1 by (rewrite O1; [done|done|congruence]). hread Hz1. rewrite Lz.
  destruct (located_node _ _ LeftSide _ _ _ _ L1) as (ny & Hy1 & Iy).
  destruct (update_at tree1 y (with_left (top l)) ny Hy1) as (tree2 & -> & R2 & Y2 & O2 & S2). cbn [mbind option_bind].
  hread Y2. change (n_left (with_left (top l) ny)) with (top l).
  assert (∀ b, b ∈ inorder l → rb_nodes tree2 !! b = rb_nodes tree !! b) as Ol.
  { intros b Hb. destruct (D9 b Hb) as (? & ? & ?). rewrite O2 by (by intros ->). rewrite O1; [done|done|congruence]. }
  assert (repr (rb_nodes tree2) (Some z) l) as Hl2.
  { eapply repr_same; [|exact Hl]. intros b Hb. unfold same_links_at. by rewrite Ol. }
  destruct (update_top tree2 _ l (with_parent (Some y)) Hl2) as (tree3 & E3 & R3 & T3 & O3 & S3).
  assert (update tree2 (top l) (with_parent (Some y)) = Some tree3) as -> by (rewrite <-E3; by destruct l). cbn [mbind option_bind].
  assert (rb_nodes tree3 !! z = Some nz) as Hz3.
  { rewrite O3 by (intros E%top_in; by apply D9 in E as []). by rewrite O2. }
  hread Hz3. rewrite Cz.
  assert (rb_nodes tree3 !! y = Some (with_left (top l) ny)) as Hy3 by (rewrite O3 by (by intros E%top_in); done).
  destruct (update_at tree3 y (with_red c) _ Hy3) as (tree4 & -> & R4 & Y4 & O4 & S4). exists tree4. split; [done|]. split; cycle 1.
  { etrans; [exact S1|]. etrans; [by apply S2|]. etrans; [by apply S3|]. by apply S4. }
  assert (∀ b, b ≠ y → top l ≠ Some b → same_links_at (rb_nodes tree1) (rb_nodes tree4) b) as Os.
  { intros b ? ?. unfold same_links_at. by rewrite O4, O3, O2. }
  destruct L1 as [K1 (_ & _ & Hr1) _]. split.
  - cbn [top] in *. rewrite R4, R3, R2. eapply path_same; [|exact K1]. intros b Hb. apply Os; [by intros ->|].
    intros E%top_in. by apply D9 in E as (_ & [] & _).
  - split_and!.
    + eexists. split; [exact Y4|]. destruct Iy as (? & _ & ? & _). done.
    + eapply repr_reparent; [exact Hl2|done|..].
      * intros b Hb Hne. unfold same_links_at. rewrite O4 by (by intros ->). by rewrite O3.
      * intros b n Hb Hn. exists (with_parent (Some y) n). split; [|done].
        rewrite O4 by (intros ->; by apply D6, top_in). by apply T3.
    + eapply repr_same; [|exact Hr1]. intros b Hb. apply Os; [by intros ->|]. intros E%top_in. by apply D9 in E as (_ & _ & []).
  - done.
Qed.

(** The paths above the successor: [z] is the last node on the way to it. *)
Lemma path_rb_readdress k2 d c z y l k n :
  path_rb (k2 ++ Frame d c z l :: k) n → path_rb (k2 ++ Frame d c y l :: k) n ∧
  parent_red (k2 ++ Frame d c y l :: k) = parent_red (k2 ++ Frame d c z l :: k).
Proof.
  revert n. induction k2 as [|[d2 [] a s] k2 IH]; intros n; cbn; [done|..].
  - intros (Hs & Hp & Hk). destruct (IH n Hk) as [Hk' Hp']. split; [|done]. by rewrite Hp'.
  - intros (Hs & Hk). destruct (IH _ Hk) as [Hk' _]. done.
Qed.

(** Lifting the successor out of its place, as [replace_by_successor] does:
    the tree and the parent of the position that may have to be fixed. *)
Definition lift_moved tree (node moved : ptr) (mv : rbtree_node K V) : option (rbtree_t K V * ptr) :=
  if bool_decide (n_parent mv = node) then
    tree ← update_if tree (n_right mv) (with_parent moved);
    Some (tree, moved)
  else
    tree ← rbtree_transplant tree moved (n_right mv);
    n ← node_at tree node;
    tree ← update tree moved (with_right (n_right n));
    mv' ← node_at tree moved;
    tree ← update tree (n_right mv') (with_parent moved);
    Some (tree, n_parent mv).

Lemma lift_addrs tree k c l z k2 c' y r :
  located tree k (Fork c l z (fill k2 (Fork c' Nil y r))) →
  NoDup (path_addrs k ++ z :: inorder l ++ y :: path_addrs k2 ++ inorder r) ∧
  NoDup (path_addrs k ++ z :: inorder l ++ y :: inorder (fill k2 r)).
Proof.
  intros H. assert (NoDup (path_addrs k ++ z :: inorder l ++ y :: path_addrs k2 ++ inorder r)) as Hd.
  { apply lo_nodup in H. eapply perm_nodup; [|exact H]. cbn. rewrite fill_perm. cbn. solve_Permutation. }
  split; [done|]. by rewrite fill_perm.
Qed.

(** The successor is the right child. *)
Lemma lift_near tree k c l z c' y r ny :
  located tree k (Fork c l z (Fork c' Nil y r)) → rb_nodes tree !! y = Some ny →
  ∃ tree', lift_moved tree (Some z) (Some y) ny = Some (tree', Some y) ∧ lifted tree' k c l z c' y r ∧ same_rest tree tree'.
Proof.
  intros H Hy. destruct (lift_addrs _ _ _ _ _ [] _ _ _ H) as [Hd Hd'].
  destruct (located_node _ _ LeftSide _ _ _ _ (go_far _ LeftSide _ _ _ _ _ H)) as (ny' & Hy' & Py & _ & Ry & _).
  assert (ny' = ny) as -> by congruence. cbn in Py, Ry.
  destruct (located_node _ _ LeftSide _ _ _ _ H) as (nz & Hz & Pz & Lz & _ & Cz). cbn in Lz. unfold lift_moved.
  destruct H as [Hk (_ & Hl & Hr) _]. cbn [top] in Hk. pose proof Hr as (_ & _ & Hr').
  destruct (update_top tree _ r (with_parent (Some y)) Hr') as (tree1 & E1 & R1 & T1 & O1 & S1). exists tree1.
  rewrite bool_decide_true by done. rewrite Ry, E1. split; [done|]. split; [|by apply S1].
  assert (∀ b, same_links_at (rb_nodes tree) (rb_nodes tree1) b) as Os.
  { intros b. unfold same_links_at. destruct r as [|cr rl ra rr]; [by rewrite O1|].
    destruct (decide (b = ra)) as [->|]; [|rewrite O1; [done|cbn; congruence]].
    destruct Hr' as ((nr & Hnr & Pr & _) & _). rewrite (T1 ra nr eq_refl Hnr), Hnr. cbn. unfold links. cbn. by rewrite Pr. }
  split.
  - rewrite R1. eapply path_same; [|exact Hk]. done.
  - exists nz. rewrite O1; [done|]. intros E%top_in. clear -Hd E. cbn in Hd.
    rewrite NoDup_app, NoDup_cons in Hd. set_solver.
  - eapply repr_same; [|exact Hl]. done.
  - exists (Some z). eapply (repr_same _ _ _ (Fork c' Nil y r)); [|exact Hr]. done.
  - exact Hd'.
Qed.

(** The successor is further down. *)
Lemma lift_far tree k c l z f k2 c' y r ny :
  located tree k (Fork c l z (fill (f :: k2) (Fork c' Nil y r))) → rb_nodes tree !! y = Some ny →
  ∃ tree', lift_moved tree (Some z) (Some y) ny = Some (tree', Some (f_addr f)) ∧
    lifted tree' k c l z c' y (fill (f :: k2) r) ∧ same_rest tree tree'.
Proof.
  intros H Hy. destruct (lift_addrs _ _ _ _ _ _ _ _ _ H) as [Hd Hd'].
  pose proof (go_far _ LeftSide _ _ _ _ _ H) as H1. cbn [opp] in H1. apply located_app in H1.
  destruct (located_node _ _ LeftSide _ _ _ _ H1) as (ny' & Hy' & Py & Ly & Ry & Cy). assert (ny' = ny) as -> by congruence. clear Hy'.
  cbn in Ry. cbn [app path_parent head] in Py. change (n_parent ny = Some (f_addr f)) in Py. unfold lift_moved.
  assert (n_parent ny ≠ Some z) as Npz.
  { rewrite Py. cbn. intros [= E]. clear -Hd E. cbn in Hd. rewrite E in Hd. rewrite NoDup_app, NoDup_cons in Hd. set_solver. }
  rewrite bool_decide_false by done. rewrite Ry.
  destruct (transplant_child RightSide _ _ _ _ r H1) as (tree1 & E1 & L1 & S1 & Hy1). rewrite Hy in Hy1.
  rewrite E1. cbn [mbind option_bind]. apply located_app in L1. pose proof (go_up_far _ LeftSide _ _ _ _ _ L1) as L1'.
  destruct (located_node _ _ LeftSide _ _ _ _ L1') as (nz1 & Hz1 & Pz1 & Lz1 & Rz1 & Cz1). cbn [child opp] in Rz1, Lz1. hread Hz1. rewrite Rz1.
  destruct (update_at tree1 y (with_right (top (fill (f :: k2) r))) ny Hy1) as (tree2 & -> & R2 & Y2 & O2 & S2). cbn [mbind option_bind].
  hread Y2. change (n_right (with_right (top (fill (f :: k2) r)) ny)) with (top (fill (f :: k2) r)).
  set (r' := fill (f :: k2) r) in *. destruct L1 as [Hk1 Hr1 _]. cbn in Hk1. destruct Hk1 as (_ & Hl1 & Hk1).
  assert (r' ≠ Nil) as Nr.
  { intros E. apply (f_equal (λ t, length (inorder t))) in E. unfold r' in E. rewrite fill_perm in E. cbn in E. lia. }
  assert (y ∉ inorder r' ∧ NoDup (inorder r') ∧ y ≠ z ∧ z ∉ inorder r' ∧ y ∉ inorder l ∧ y ∉ path_addrs k ∧
    (∀ b, b ∈ inorder r' → b ∉ inorder l ∧ b ∉ path_addrs k)) as (D1 & D2 & D3 & D4 & D5 & D6 & D7).
  { clear -Hd'. rewrite NoDup_app, NoDup_cons, NoDup_app, NoDup_cons in Hd'. destruct Hd' as (G1 & G2 & G3 & G4 & G5 & G6 & G7).
    split_and!; try done; set_solver. }
  assert (repr (rb_nodes tree2) (Some z) r') as Hr2.
  { eapply repr_same; [|exact Hr1]. intros b Hb. unfold same_links_at. rewrite O2; [done|]. by intros ->. }
  destruct (update_top tree2 _ r' (with_parent (Some y)) Hr2) as (tree3 & E3 & R3 & T3 & O3 & S3).
  assert (update tree2 (top r') (with_parent (Some y)) = Some tree3) as -> by (rewrite <-E3; by destruct r'). cbn [mbind option_bind].
  exists tree3. split; [by rewrite Py|]. split; cycle 1.
  { etrans; [exact S1|]. etrans; [by apply S2|]. by apply S3. }
  assert (∀ b, b ≠ y → b ∉ inorder r' → rb_nodes tree3 !! b = rb_nodes tree1 !! b) as Os.
  { intros b ? Hb. rewrite O3 by (by intros E%top_in). by apply O2. }
  split.
  - rewrite R3, R2. eapply path_same; [|exact Hk1]. intros b Hb. unfold same_links_at. rewrite Os; [done|by intros ->|].
    intros Hin. by destruct (D7 b Hin).
  - exists nz1. rewrite Os by done. done.
  - eapply repr_same; [|exact Hl1]. intros b Hb. unfold same_links_at. rewrite Os; [done|by intros ->|].
    intros Hin. by destruct (D7 b Hin).
  - exists (n_parent ny). split; [|split; [done|]].
    + exists (with_right (top r') ny). split; [rewrite O3; [done|by intros E%top_in]|done].
    + eapply repr_reparent; [exact Hr2|done|..].
      * intros b Hb Hne. unfold same_links_at. by rewrite O3.
      * intros b n Hb Hn. rewrite (T3 b n Hb Hn). by eexists.
  - exact Hd'.
Qed.

Lemma replace_by_successor_eq tree node :
  replace_by_successor tree node =
    (n ← node_at tree node;
     moved ← rbtree_minimum tree (n_right n);
     mv ← node_at tree moved;
     '(tree, fix_parent) ← lift_moved tree node moved mv;
     tree ← settle tree node moved;
     Some (tree, n_red mv, n_right mv, fix_parent)).
Proof.
  unfold replace_by_successor. destruct (node_at tree node) as [n|]; cbn [mbind option_bind]; [|done].
  destruct (rbtree_minimum tree (n_right n)) as [moved|]; cbn [mbind option_bind]; [|done].
  destruct (node_at tree moved) as [mv|]; cbn [mbind option_bind]; [|done]. unfold lift_moved, settle.
  match goal with |- (?m ≫= _) = _ => destruct m as [[tree1 fp]|] end; cbn [mbind option_bind]; [|done].
  repeat (match goal with |- (?m ≫= _) = ((?m ≫= _) ≫= _) => destruct m end; cbn [mbind option_bind]; [|done]). done.
Qed.

(** A node with two children is replaced by its successor. *)
Lemma rb_replace_ok tree k c l z r :
  located tree k (Fork c l z r) → l ≠ Nil → r ≠ Nil →
  ∃ tree' k2 c' y yr, replace_by_successor tree (Some z) =
      Some (tree', c', top yr, path_parent (k2 ++ Frame RightSide c y l :: k)) ∧
    r = fill k2 (Fork c' Nil y yr) ∧ Forall (λ f, f_side f = LeftSide) k2 ∧
    located tree' (k2 ++ Frame RightSide c y l :: k) yr ∧ same_rest tree tree'.
Proof.
  intros H Nl Nr. pose proof (go_far _ LeftSide _ _ _ _ _ H) as H1. cbn [opp] in H1.
  pose proof (located_fuel _ _ _ H1 (located_dom _ _ _ H1)). pose proof (path_length (Frame RightSide c z l :: k) r).
  destruct (minimum_ok r tree _ (node_fuel tree) H1 Nr) as (k2 & c' & y & yr & Er & Hk2 & Em); [lia|].
  rewrite replace_by_successor_eq. destruct (located_node _ _ LeftSide _ _ _ _ H) as (nz & Hz & _ & _ & Rz & _).
  cbn [child opp] in Rz. hread Hz. unfold rbtree_minimum. rewrite Rz, Em. cbn [mbind option_bind].
  rewrite Er in H, H1. apply located_app in H1.
  destruct (located_node _ _ LeftSide _ _ _ _ H1) as (ny & Hy & _ & _ & Ry & Cy). cbn [child opp] in Ry. hread Hy.
  assert (∃ tree1, lift_moved tree (Some z) (Some y) ny = Some (tree1, path_parent (k2 ++ Frame RightSide c y l :: k)) ∧
    lifted tree1 k c l z c' y (fill k2 yr) ∧ same_rest tree tree1) as (tree1 & -> & L1 & S1).
  { destruct k2 as [|f k2]; [by eapply lift_near|]. by eapply lift_far. }
  cbn [mbind option_bind]. destruct (rb_settle_ok _ _ _ _ _ _ _ _ L1 Nl) as (tree2 & -> & L2 & S2). cbn [mbind option_bind].
  exists tree2, k2, c', y, yr. rewrite Cy, Ry. split; [done|]. split; [done|]. split; [done|]. split; [|by rewrite S1].
  apply located_app. by apply (go_far _ LeftSide).
Qed.

(** Before a position on the left edge there is only what is before the edge. *)
Lemma left_edge k2 k : Forall (λ f, f_side f = LeftSide) k2 → before (k2 ++ k) = before k ∧ after (k2 ++ k) = after k2 ++ after k.
Proof.
  induction 1 as [|[d c a s] k2 Hf Hk IH]; [done|]. cbn in Hf. subst d. destruct IH as [IH1 IH2]. cbn. rewrite IH1, IH2.
  split; [apply app_nil_r|]. by rewrite app_assoc.
Qed.

(** Fixing what is left after a node of colour [c] is gone from a position. *)
Lemma unlink_fix tree k t n (c : bool) :
  located tree k t → path_rb k n → (if c then rb t true n else ∃ m, n = S m ∧ rb t false m) →
  ∃ tree', (if negb c then rbtree_delete_fix tree (top t) (path_parent k) else Some tree) = Some tree' ∧
    delete_fixed tree k t tree'.
Proof.
  intros H Hk Ht. destruct c; cbn [negb].
  - exists tree. split; [done|]. destruct (fill_rb k t n Hk) as (m & Hm); [by apply rb_weaken|].
    apply located_fill in H. by exists (fill k t), m.
  - destruct Ht as (m & -> & Ht). by eapply delete_fix_ok.
Qed.

Lemma unlink_ok tree k c l z r m :
  located tree k (Fork c l z r) → rb (fill k (Fork c l z r)) true m →
  ∃ tree' t' m', unlink_node tree (Some z) = Some tree' ∧ located tree' [] t' ∧
    inorder t' = before k ++ inorder l ++ inorder r ++ after k ∧ rb t' true m' ∧ same_rest tree tree'.
Proof.
  intros H Hm. destruct (located_node _ _ LeftSide _ _ _ _ H) as (nz & Hz & Pz & Lz & Rz & Cz). cbn [child opp] in Lz, Rz.
  unfold unlink_node. hread Hz. rewrite Lz, Rz, Cz, Pz.
  assert (∀ tree1 k1 t1 n c1, located tree1 k1 t1 → path_rb k1 n → (if c1 : bool then rb t1 true n else ∃ m, n = S m ∧ rb t1 false m) →
    inorder (fill k1 t1) = before k ++ inorder l ++ inorder r ++ after k → same_rest tree tree1 →
    ∃ tree' t' m', (if negb c1 then rbtree_delete_fix tree1 (top t1) (path_parent k1) else Some tree1) = Some tree' ∧
      located tree' [] t' ∧ inorder t' = before k ++ inorder l ++ inorder r ++ after k ∧ rb t' true m' ∧ same_rest tree tree') as Hfix.
  { intros tree1 k1 t1 n c1 L1 Hk1 Hc1 I1 S1. destruct (unlink_fix _ _ _ _ _ L1 Hk1 Hc1) as (tree' & E & t' & m' & L & I' & R & S').
    exists tree', t', m'. split; [done|]. split; [done|]. split; [congruence|]. split; [done|]. by rewrite S1. }
  destruct (path_rb_fill _ _ _ Hm) as (n & Hk & Hn).
  destruct (decide (is_null (top l) = true ∨ is_null (top r) = true)) as [Hone|Htwo].
  - assert (∃ t1, (t1 = r ∧ l = Nil) ∨ (t1 = l ∧ r = Nil ∧ l ≠ Nil)) as (t1 & Ht1).
    { destruct l; [by exists r; left|]. destruct r; [eexists; right; done|]. by destruct Hone. }
    assert (∃ d, Fork c l z r = fork d c t1 z Nil) as (d & Ed) by (destruct Ht1 as [[-> ->]|(-> & -> & _)]; [by exists RightSide|by exists LeftSide]).
    rewrite Ed in H, Hn. destruct (transplant_child _ _ _ _ _ _ H) as (tree1 & E1 & L1 & S1 & _).
    apply rb_fork in Hn. destruct (Hfix tree1 k t1 n c) as (tree' & t' & m' & E & F); try done.
    + destruct c; [by destruct Hn as (_ & ? & _)|]. destruct Hn as (m1 & -> & ? & _). by exists m1.
    + rewrite inorder_fill. destruct Ht1 as [[-> ->]|(-> & -> & _)]; done.
    + exists tree', t', m'. split; [|done]. rewrite <-E.
      destruct Ht1 as [[-> ->]|(-> & -> & Nl)]; [|destruct l; [done|]]; cbn [top is_null] in *; rewrite E1; done.
  - assert (l ≠ Nil ∧ r ≠ Nil) as [Nl Nr] by (split; intros ->; apply Htwo; cbn; by auto).
    destruct (rb_replace_ok _ _ _ _ _ _ H Nl Nr) as (tree1 & k2 & c' & y & yr & E1 & Er & Hk2 & L1 & S1).
    destruct (left_edge k2 (Frame RightSide c y l :: k) Hk2) as [EB EA]. destruct (left_edge k2 [] Hk2) as [EB2 EA2].
    rewrite app_nil_r in EB2, EA2.
    rewrite Er in Hm. change (Fork c l z (fill k2 (Fork c' Nil y yr))) with (plug (Frame RightSide c z l) (fill k2 (Fork c' Nil y yr))) in Hm.
    change (fill k (plug ?f ?t)) with (fill (f :: k) t) in Hm. rewrite <-fill_app in Hm.
    destruct (path_rb_fill _ _ _ Hm) as (n' & Hk' & Hn'). destruct (path_rb_readdress _ _ _ _ y _ _ _ Hk') as [Hk'' _].
    destruct (Hfix tree1 (k2 ++ Frame RightSide c y l :: k) yr n' c') as (tree' & t' & m' & E & F); try done.
    + destruct c'; [by destruct Hn' as (_ & _ & ?)|]. destruct Hn' as (m1 & -> & _ & ?). by exists m1.
    + rewrite inorder_fill, EB, EA, Er, inorder_fill, EB2. flat_order.
    + exists tree', t', m'. split; [|done]. destruct l; [done|]. destruct r; [done|]. cbn [top is_null] in *. rewrite E1. exact E.
Qed.
End Delete.
