(* ===== verification/RbOrder.v ===== *)
(** * The red-black tree ([cstl/src/rbtree.c]): order, searching and height

    The nodes of a tree in key order are chained by their [previous] and
    [next] pointers and hold the entries; the searches go down the tree by
    comparing keys, and take a number of steps logarithmic in its size. *)

From stdpp Require Import gmap.
From S2P Require Import Prelude World Sequence RbTree RbShape RbInsert.
Local Open Scope Z_scope.

(** What a comparison function must be: opposite signs for opposite
    arguments, and transitive. *)
Class KeyOrder {K} (cmp : K → K → Z) : Prop := {
  cmp_sgn a b : Z.sgn (cmp b a) = - Z.sgn (cmp a b);
  cmp_le_trans a b c : cmp a b <= 0 → cmp b c <= 0 → cmp a c <= 0
}.

Section KeyOrder.
Context {K : Type} (cmp : K → K → Z) `{!KeyOrder cmp}.

Lemma cmp_flip a b : (cmp b a < 0 ↔ 0 < cmp a b) ∧ (cmp b a = 0 ↔ cmp a b = 0) ∧ (cmp b a <= 0 ↔ 0 <= cmp a b).
Proof using All. pose proof (cmp_sgn a b). lia. Qed.
Lemma cmp_refl a : cmp a a = 0.
Proof using All. pose proof (cmp_sgn a a). lia. Qed.
Lemma cmp_lt_le a b c : cmp a b < 0 → cmp b c <= 0 → cmp a c < 0.
Proof using All.
  intros Hab Hbc. destruct (Z_lt_le_dec (cmp a c) 0) as [|Hac]; [done|]. exfalso.
  pose proof (cmp_le_trans b c a Hbc) as H. pose proof (cmp_flip a c). pose proof (cmp_flip a b). lia.
Qed.
Lemma cmp_le_lt a b c : cmp a b <= 0 → cmp b c < 0 → cmp a c < 0.
Proof using All.
  intros Hab Hbc. destruct (Z_lt_le_dec (cmp a c) 0) as [|Hac]; [done|]. exfalso.
  pose proof (cmp_le_trans c a b) as H. pose proof (cmp_flip a c). pose proof (cmp_flip b c). lia.
Qed.
End KeyOrder.

Section Order.
Context {K V : Type}.
Abbreviation heap := (gmap Z (rbtree_node K V)).
Implicit Types (n : rbtree_node K V) (h : heap) (tree : rbtree_t K V) (t : shape) (k : list frame) (l : list Z).

(** ** The chain of neighbours *)

Definition first l (next : ptr) : ptr := match l with [] => next | a :: _ => Some a end.
Definition final (prev : ptr) l : ptr := match last l with None => prev | Some a => Some a end.

Fixpoint chain h (prev : ptr) l (next : ptr) : Prop :=
  match l with
  | [] => True
  | a :: l => (∃ n, h !! a = Some n ∧ n_previous n = prev ∧ n_next n = first l next) ∧ chain h (Some a) l next
  end.

Lemma first_app l1 l2 next : first (l1 ++ l2) next = first l1 (first l2 next).
Proof. by destruct l1. Qed.
Lemma final_app prev l1 l2 : final prev (l1 ++ l2) = final (final prev l1) l2.
Proof. unfold final. rewrite last_app. by destruct (last l2). Qed.
Lemma final_cons prev a l : final prev (a :: l) = final (Some a) l.
Proof. unfold final. rewrite last_cons. by destruct (last l). Qed.

Lemma chain_app h prev l1 l2 next :
  chain h prev (l1 ++ l2) next ↔ chain h prev l1 (first l2 next) ∧ chain h (final prev l1) l2 next.
Proof.
  revert prev. induction l1 as [|a l1 IH]; intros prev; cbn [app chain]; [unfold final; cbn; tauto|].
  rewrite IH, first_app, final_cons. tauto.
Qed.

(** The chain reads only the neighbours. *)
Definition ends n : ptr * ptr := (n_previous n, n_next n).

Lemma chain_same h h' prev l next :
  (∀ a, a ∈ l → ends <$> h' !! a = ends <$> h !! a) → chain h prev l next → chain h' prev l next.
Proof.
  revert prev. induction l as [|a l IH]; intros prev Hs; cbn; [done|]. intros ((n & Hn & Hp & Hx) & Hl). split.
  - specialize (Hs a ltac:(by left)). rewrite Hn in Hs. apply fmap_Some in Hs as (n' & -> & E). injection E as E1 E2.
    exists n'. split; [done|]. split; congruence.
  - apply IH; [|done]. intros b Hb. apply Hs. by right.
Qed.

(** Another neighbour at one end. *)
Lemma chain_next h h' prev l next next' :
  chain h prev l next → NoDup l →
  (∀ a, a ∈ l → final None l ≠ Some a → ends <$> h' !! a = ends <$> h !! a) →
  (∀ a n, final None l = Some a → h !! a = Some n → ∃ n', h' !! a = Some n' ∧ ends n' = (n_previous n, next')) →
  chain h' prev l next'.
Proof.
  destruct l as [|a l _] using rev_ind; [done|]. rewrite !chain_app. intros [H1 H2] Hd Hs Hl. cbn in H2. destruct H2 as ((n & Hn & Hp & Hx) & _).
  assert (final None (l ++ [a]) = Some a) as Hf by (unfold final; by rewrite last_snoc). rewrite Hf in Hs.
  apply NoDup_app in Hd as (Hd1 & Hd2 & _). split.
  - eapply chain_same; [|exact H1]. intros b Hb. apply Hs; [set_solver|]. intros [= ->]. by apply (Hd2 b Hb); left.
  - cbn. destruct (Hl a n Hf Hn) as (n' & Hn' & E). injection E as E1 E2. split; [|done]. exists n'. split; [done|]. split; congruence.
Qed.

Lemma chain_prev h h' prev prev' l next :
  chain h prev l next → NoDup l →
  (∀ a, a ∈ l → first l None ≠ Some a → ends <$> h' !! a = ends <$> h !! a) →
  (∀ a n, first l None = Some a → h !! a = Some n → ∃ n', h' !! a = Some n' ∧ ends n' = (prev', n_next n)) →
  chain h' prev' l next.
Proof.
  destruct l as [|a l]; [done|]. cbn. intros ((n & Hn & Hp & Hx) & Hl) [Hd _]%NoDup_cons Hs Ha. split.
  - destruct (Ha a n eq_refl Hn) as (n' & Hn' & E). injection E as E1 E2. exists n'. split; [done|]. split; congruence.
  - eapply chain_same; [|exact Hl]. intros b Hb. apply Hs; [by right|]. by intros [= ->].
Qed.

(** ** Entries *)

Definition value_of n : option V := o ← n_value n; snd o.

Definition holds_entry h (a : Z) (e : K * V) : Prop :=
  ∃ n, h !! a = Some n ∧ key_of n = Some e.1 ∧ value_of n = Some e.2.
Definition contents h l (es : list (K * V)) : Prop := Forall2 (holds_entry h) l es.

Lemma contents_same h h' l es :
  (∀ a, a ∈ l → (λ n, (n_key n, n_value n)) <$> h' !! a = (λ n, (n_key n, n_value n)) <$> h !! a) →
  contents h l es → contents h' l es.
Proof.
  intros Hs H. induction H as [|a e l es (n & Hn & Hk & Hv) _ IH]; [by constructor|]. constructor.
  - specialize (Hs a ltac:(by left)). rewrite Hn in Hs. apply fmap_Some in Hs as (n' & Hn' & E). injection E as E1 E2.
    exists n'. split; [done|]. unfold key_of, value_of in *. by rewrite <-E1, <-E2.
  - apply IH. intros b Hb. apply Hs. by right.
Qed.

(** ** Height *)

Fixpoint height t : nat := match t with Nil => O | Fork _ l _ r => S (height l `max` height r) end.

Lemma height_length t : (height t <= length (inorder t))%nat.
Proof. induction t as [|c l IHl a r IHr]; cbn; [lia|]. rewrite length_app. cbn. lia. Qed.

Lemma rb_height t red m : rb t red m → (height t <= 2 * m + (if red then 0 else 1))%nat.
Proof.
  revert red m. induction t as [|[] l IHl a r IHr]; intros red m; cbn [rb height].
  - destruct red; lia.
  - intros (-> & Hl%IHl & Hr%IHr). cbn iota in *. lia.
  - intros (m' & -> & Hl%IHl & Hr%IHr). cbn iota in *. destruct red; lia.
Qed.

Lemma rb_length t red m : rb t red m → (2 ^ m <= S (length (inorder t)))%nat.
Proof.
  revert red m. induction t as [|[] l IHl a r IHr]; intros red m; cbn [rb inorder].
  - intros ->. cbn. lia.
  - intros (_ & Hl%IHl & Hr%IHr). rewrite length_app. cbn. lia.
  - intros (m' & -> & Hl%IHl & Hr%IHr). rewrite length_app. cbn [Nat.pow length]. lia.
Qed.

(** A balanced tree of [s] nodes is at most [2 log2 (s + 1)] high. *)
Lemma balanced_height t m : rb t true m → (height t <= 2 * Nat.log2 (S (length (inorder t))))%nat.
Proof.
  intros H. pose proof (rb_height _ _ _ H) as H1. cbn iota in H1. pose proof (rb_length _ _ _ H) as H2.
  apply Nat.log2_le_mono in H2. rewrite Nat.log2_pow2 in H2 by lia. lia.
Qed.

(** ** Searching *)

Section Search.
Context (cmp : K → K → Z) (tree : rbtree_t K V) (key : K).
Context (Hcmp : rbtree_compare_fn tree = Some cmp).

(** The key of the node at [a]. *)
Definition key_at (a : Z) (x : K) : Prop := ∃ n, rb_nodes tree !! a = Some n ∧ key_of n = Some x.
(** What comparing with the key of a node says. *)
Definition compares (P : Z → Prop) (a : Z) : Prop := ∃ x, key_at a x ∧ P (cmp key x).

Lemma compare_run a b : rbtree_compare_key tree a b = Some (cmp a b).
Proof using Hcmp. unfold rbtree_compare_key. by rewrite Hcmp. Qed.

Lemma compares_not (P Q : Z → Prop) a : compares P a → compares Q a → (∀ z, P z → Q z → False) → False.
Proof using Type.
  intros (x & (n & Hn & Hx) & HP) (y & (n' & Hn' & Hy) & HQ) H. assert (n' = n) as -> by congruence.
  assert (y = x) as -> by congruence. by apply (H (cmp key x)).
Qed.

(** A split of the nodes of a fork: the root is on one side. *)
Lemma split_fork P lA lB (l r : list Z) a :
  l ++ a :: r = lA ++ lB → Forall (compares P) lA → Forall (compares (λ z, ¬ P z)) lB →
  (compares P a → ∃ lA', lA = l ++ a :: lA' ∧ r = lA' ++ lB) ∧
  (compares (λ z, ¬ P z) a → ∃ lB', lB = lB' ++ a :: r ∧ l = lA ++ lB').
Proof using Type.
  intros E HA HB. rewrite Forall_forall in HA, HB. apply app_eq_inv in E as [(m & -> & ->)|(m & -> & E)].
  - split; intros Ha; [|by exists m]. exfalso. eapply (compares_not _ _ a Ha); [apply HB; first [by left|by apply elem_of_app; right; left]|done].
  - destruct m as [|b m].
    + cbn in E. subst lB. rewrite app_nil_r in *. split; intros Ha.
      * exfalso. eapply (compares_not _ _ a Ha); [apply HB; first [by left|by apply elem_of_app; right; left]|done].
      * exists []. by rewrite app_nil_r.
    + injection E as <- ->. split; intros Ha; [by exists m|]. exfalso.
      eapply (compares_not _ _ a); [apply HA; first [by left|by apply elem_of_app; right; left]|exact Ha|done].
Qed.

(** The node of a position, with its key. *)
Lemma located_key k d c x a y : located tree k (fork d c x a y) → (∀ b, b ∈ inorder (fork d c x a y) → ∃ z, key_at b z) →
  ∃ n z, rb_nodes tree !! a = Some n ∧ key_of n = Some z ∧ key_at a z ∧
    is_node n (path_parent k) d c (top x) (top y).
Proof using Type.
  intros H Hkeys. destruct (located_node _ _ _ _ _ _ _ H) as (n & Hn & Hi).
  destruct (Hkeys a) as (z & n' & Hn' & Hz); [by destruct d; cbn; apply elem_of_app; right; left|]. assert (n' = n) as -> by congruence.
  exists n, z. split; [done|]. split; [done|]. split; [by exists n|done].
Qed.

Definition has_keys t : Prop := ∀ b, b ∈ inorder t → ∃ z, key_at b z.

Lemma has_keys_fork c (l : shape) a (r : shape) : has_keys (Fork c l a r) → has_keys l ∧ has_keys r.
Proof using Type. intros H. split; intros b Hb; apply H; apply elem_of_app; [by left|by right; right]. Qed.

(** The nodes below the key, equal to it and above it. *)
Definition parted (lL lE lG : list Z) : Prop :=
  Forall (compares (λ z, 0 < z)) lL ∧ Forall (compares (λ z, z = 0)) lE ∧ Forall (compares (λ z, z < 0)) lG.

Lemma compares_impl (P Q : Z → Prop) l : (∀ z, P z → Q z) → Forall (compares P) l → Forall (compares Q) l.
Proof using Type. intros HPQ HF. eapply Forall_impl; [exact HF|]. intros a (x & Ha & HP). exists x. split; [done|by apply HPQ]. Qed.

Lemma parted_fork lL lE lG (l r : list Z) a :
  l ++ a :: r = lL ++ lE ++ lG → parted lL lE lG →
  (compares (λ z, 0 < z) a → ∃ lL', lL = l ++ a :: lL' ∧ r = lL' ++ lE ++ lG ∧ parted lL' lE lG) ∧
  (compares (λ z, z = 0) a → ∃ lE1 lE2, lE = lE1 ++ a :: lE2 ∧ l = lL ++ lE1 ∧ r = lE2 ++ lG ∧ parted [] lE2 lG) ∧
  (compares (λ z, z < 0) a → ∃ lG', lG = lG' ++ a :: r ∧ l = lL ++ lE ++ lG' ∧ parted lL lE lG').
Proof using Type.
  intros E (HL & HE & HG). pose proof E as E'. rewrite app_assoc in E'.
  destruct (split_fork (λ z, 0 < z) lL (lE ++ lG) l r a E HL) as [S1 S2].
  { apply Forall_app. split; [eapply compares_impl; [|exact HE]|eapply compares_impl; [|exact HG]]; cbn; lia. }
  destruct (split_fork (λ z, 0 <= z) (lL ++ lE) lG l r a E') as [S3 S4].
  { apply Forall_app. split; [eapply compares_impl; [|exact HL]|eapply compares_impl; [|exact HE]]; cbn; lia. }
  { eapply compares_impl; [|exact HG]. cbn. lia. }
  assert (∀ P Q : Z → Prop, (∀ z, P z → Q z) → compares P a → compares Q a) as Himp
    by (intros P Q HPQ (x & ? & ?); exists x; split; [done|by apply HPQ]).
  split_and!; intros Ha.
  - destruct (S1 Ha) as (lL' & -> & Er). exists lL'. apply Forall_app in HL as [_ [_ HL]%Forall_cons]. done.
  - destruct S2 as (lB & EB & El); [eapply Himp; [|exact Ha]; cbn; lia|]. destruct S3 as (lA & EA & Er); [eapply Himp; [|exact Ha]; cbn; lia|].
    rewrite El, <-app_assoc in EA. apply app_inv_head in EA. exists lB, lA. split; [done|]. split; [done|]. split; [done|].
    split; [done|]. rewrite EA in HE. apply Forall_app in HE as [_ [_ HE]%Forall_cons]. done.
  - destruct S4 as (lB & -> & El); [eapply Himp; [|exact Ha]; cbn; lia|]. exists lB. apply Forall_app in HG as [HG _].
    rewrite <-app_assoc in El. done.
Qed.

(** [find_node] returns a node with an equal key, if the tree has one. *)
Lemma find_node_ok t : ∀ k fuel lL lE lG,
  located tree k t → has_keys t → (height t < fuel)%nat → inorder t = lL ++ lE ++ lG → parted lL lE lG →
  ∃ p, find_node fuel tree key (top t) = Some p ∧ match p with None => lE = [] | Some a => a ∈ lE end.
Proof using Hcmp.
  induction t as [|c l IHl a r IHr]; intros k fuel lL lE lG H Hkeys Hf E HP; (destruct fuel as [|fuel]; [lia|]); cbn [find_node top].
  { exists None. split; [done|]. cbn in E. symmetry in E. by apply app_nil in E as [_ [? _]%app_nil]. }
  destruct (located_key _ LeftSide _ _ _ _ H Hkeys) as (n & x & Hn & Hx & Ha & _ & Cl & Cr & _). cbn in Cl, Cr.
  hread Hn. rewrite Hx. cbn [mbind option_bind]. rewrite compare_run. cbn [mbind option_bind]. rewrite Cl, Cr.
  destruct (has_keys_fork _ _ _ _ Hkeys) as [Kl Kr]. cbn [height] in Hf. cbn [inorder] in E.
  destruct (parted_fork _ _ _ _ _ _ E HP) as (PL & PE & PG). destruct (Z.eqb_spec (cmp key x) 0) as [Hz|Hz].
  - exists (Some a). split; [done|]. destruct PE as (lE1 & lE2 & -> & _); [by exists x|]. apply elem_of_app. right. by left.
  - destruct (Z.ltb_spec (cmp key x) 0) as [Hlt|Hge].
    + destruct PG as (lG' & _ & El & HP'); [by exists x|].
      apply (IHl (Frame LeftSide c a r :: k) fuel lL lE lG'); try done; [by apply (go_near _ LeftSide)|lia].
    + destruct PL as (lL' & _ & Er & HP'); [exists x; split; [done|lia]|].
      apply (IHr (Frame RightSide c a l :: k) fuel lL' lE lG); try done; [by apply (go_far _ LeftSide)|lia].
Qed.

(** The side of the last step. *)
Definition last_step k (comparison : Z) : Prop :=
  ∀ f, head k = Some f → f_side f = if comparison <? 0 then LeftSide else RightSide.

(** The descent of [rbtree_put]: behind the equal keys, unless one of them is
    to be replaced. *)
Lemma put_descent_ok t : ∀ k fuel comparison lL lE lG,
  located tree k t → has_keys t → (height t < fuel)%nat → inorder t = lL ++ lE ++ lG → parted lL lE lG → last_step k comparison →
  ∃ r, put_descent fuel tree key (top t) (path_parent k) comparison = Some r ∧
  match r with
  | Existing p => rb_allow_duplicates tree = false ∧ ∃ a, p = Some a ∧ a ∈ lE
  | Vacant parent' comparison' => ∃ k', parent' = path_parent k' ∧ fill k' Nil = fill k t ∧
      before k' = before k ++ lL ++ lE ∧ after k' = lG ++ after k ∧ last_step k' comparison' ∧
      (rb_allow_duplicates tree = false → lE = [])
  end.
Proof using Hcmp.
  induction t as [|c l IHl a r IHr]; intros k fuel comparison lL lE lG H Hkeys Hf E HP Hs; (destruct fuel as [|fuel]; [lia|]);
    cbn [put_descent top].
  { eexists. split; [done|]. cbn in E. symmetry in E. apply app_nil in E as [-> [-> ->]%app_nil]. exists k. by rewrite !app_nil_r. }
  destruct (located_key _ LeftSide _ _ _ _ H Hkeys) as (n & x & Hn & Hx & Ha & _ & Cl & Cr & _). cbn in Cl, Cr.
  hread Hn. rewrite Hx. cbn [mbind option_bind]. rewrite compare_run. cbn [mbind option_bind]. rewrite Cl, Cr.
  destruct (has_keys_fork _ _ _ _ Hkeys) as [Kl Kr]. cbn [height] in Hf. cbn [inorder] in E.
  destruct (parted_fork _ _ _ _ _ _ E HP) as (PL & PE & PG).
  destruct ((cmp key x =? 0) && negb (rb_allow_duplicates tree)) eqn:Hex.
  { apply andb_true_iff in Hex as [Hz Hd]. apply Z.eqb_eq in Hz. apply negb_true_iff in Hd. eexists. split; [done|]. split; [done|].
    exists a. split; [done|]. destruct PE as (lE1 & lE2 & -> & _); [by exists x|]. apply elem_of_app. right. by left. }
  destruct (Z.ltb_spec (cmp key x) 0) as [Hlt|Hge].
  - destruct PG as (lG' & -> & El & HP'); [by exists x|].
    destruct (IHl (Frame LeftSide c a r :: k) fuel (cmp key x) lL lE lG') as (res & Er & Hres); try done;
      [by apply (go_near _ LeftSide)|lia|intros f [= <-]; cbn; by rewrite (proj2 (Z.ltb_lt _ _))|].
    exists res. split; [exact Er|]. destruct res as [|par' cmp']; [done|]. destruct Hres as (k' & ? & Hfill & HB & HA & ? & ?).
    exists k'. split; [done|]. split; [done|]. rewrite HB, HA. cbn. rewrite app_nil_r, <-app_assoc. done.
  - assert (∃ lL' lE', r = r ∧ inorder r = lL' ++ lE' ++ lG ∧ parted lL' lE' lG ∧ lL ++ lE = inorder l ++ a :: lL' ++ lE' ∧
      (∀ b, b ∈ lE' → b ∈ lE) ∧ (rb_allow_duplicates tree = false → lE' = lE)) as (lL' & lE' & _ & Er & HP' & Eb & Hin & Hdup).
    { destruct (Z.eq_dec (cmp key x) 0) as [Hz|Hz].
      - destruct PE as (lE1 & lE2 & -> & El & Er & HP'); [by exists x|]. exists [], lE2. split; [done|]. split; [done|]. split; [done|].
        rewrite El, <-app_assoc. split; [done|]. split; [intros b Hb; apply elem_of_app; right; by right|].
        rewrite Hz in Hex. cbn in Hex. intros Hd. by rewrite Hd in Hex.
      - destruct PL as (lL' & -> & Er & HP'); [exists x; split; [done|lia]|]. exists lL', lE. rewrite <-app_assoc. done. }
    destruct (IHr (Frame RightSide c a l :: k) fuel (cmp key x) lL' lE' lG) as (res & Eres & Hres); try done;
      [by apply (go_far _ LeftSide)|lia|intros f [= <-]; cbn; by rewrite (proj2 (Z.ltb_ge _ _))|].
    exists res. split; [exact Eres|]. destruct res as [p|par' cmp'].
    + destruct Hres as (? & b & ? & ?). split; [done|]. exists b. split; [done|]. by apply Hin.
    + destruct Hres as (k' & ? & Hfill & HB & HA & ? & HE). exists k'. split; [done|]. split; [done|]. rewrite HB, HA, Eb. cbn.
      rewrite <-!app_assoc. split; [done|]. split; [done|]. split; [done|]. intros Hd. rewrite <-(Hdup Hd). by apply HE.
Qed.

(** The two bounds: the first node that the test does not pass over. *)
Lemma bound_node_ok (go_right : Z → bool) (P : Z → Prop) t :
  (∀ a b, go_right (cmp a b) = true ↔ P (cmp b a)) → ∀ k fuel lA lB,
  located tree k t → has_keys t → (height t < fuel)%nat → inorder t = lA ++ lB →
  Forall (compares P) lA → Forall (compares (λ z, ¬ P z)) lB →
  bound_node go_right fuel tree key (top t) (first (after k) None) = Some (first (lB ++ after k) None).
Proof using Hcmp.
  intros HP. induction t as [|c l IHl a r IHr]; intros k fuel lA lB H Hkeys Hf E HA HB; (destruct fuel as [|fuel]; [lia|]);
    cbn [bound_node top].
  { cbn in E. symmetry in E. by apply app_nil in E as [-> ->]. }
  destruct (located_key _ LeftSide _ _ _ _ H Hkeys) as (n & x & Hn & Hx & Ha & _ & Cl & Cr & _). cbn in Cl, Cr.
  hread Hn. rewrite Hx. cbn [mbind option_bind]. rewrite compare_run. cbn [mbind option_bind]. rewrite Cl, Cr.
  destruct (has_keys_fork _ _ _ _ Hkeys) as [Kl Kr]. cbn [height] in Hf. cbn [inorder] in E.
  destruct (split_fork P lA lB _ _ a E HA HB) as [SA SB]. destruct (go_right (cmp x key)) eqn:Hg.
  - apply HP in Hg. destruct SA as (lA' & -> & Er); [by exists x|]. apply Forall_app in HA as [_ [_ HA]%Forall_cons].
    apply (IHr (Frame RightSide c a l :: k) fuel lA' lB); try done; [by apply (go_far _ LeftSide)|lia].
  - assert (¬ P (cmp key x)) as Hn' by (rewrite <-HP; congruence). destruct SB as (lB' & -> & El); [by exists x|].
    apply Forall_app in HB as [HB _]. rewrite <-app_assoc.
    apply (IHl (Frame LeftSide c a r :: k) fuel lA lB'); try done; [by apply (go_near _ LeftSide)|lia].
Qed.
End Search.
End Order.
