(* ===== verification/RbChain.v ===== *)
(** * The red-black tree ([cstl/src/rbtree.c]): the chain of neighbours

    A new node is linked into the tree and into the chain of neighbours in key
    order ([link_node], the middle of [rbtree_put]), and a removed one is
    taken out of the chain ([unthread_node], the end of
    [rbtree_remove_node]). *)

From stdpp Require Import gmap.
From S2P Require Import Prelude World Sequence RbTree RbShape RbInsert RbDelete RbOrder.
Local Open Scope Z_scope.

(** ** Linking a new node *)

Section Link.
Context {K V : Type}.
Abbreviation heap := (gmap Z (rbtree_node K V)).
Implicit Types (n : rbtree_node K V) (h : heap) (tree : rbtree_t K V) (k : list frame) (l : list Z).

(** The neighbour on a side, and the end of the chain there. *)
Definition near (d : side) n : ptr := match d with LeftSide => n_previous n | RightSide => n_next n end.
Definition with_near (d : side) (p : ptr) n : rbtree_node K V :=
  match d with LeftSide => with_previous p n | RightSide => with_next p n end.
Definition with_end (d : side) tree (p : ptr) : rbtree_t K V :=
  match d with LeftSide => with_ends tree p (rb_tail tree) | RightSide => with_ends tree (rb_head tree) p end.

(** Both halves of [link_node]: the new node is on side [d] of its parent. *)
Definition link_side (d : side) tree (node parent : ptr) : option (rbtree_t K V) :=
  tree ← update tree parent (with_child d node);
  tree ← update tree node (with_near (opp d) parent);
  pa ← node_at tree parent;
  tree ← update tree node (with_near d (near d pa));
  tree ← update tree parent (with_near d node);
  n ← node_at tree node;
  if is_null (near d n) then Some (with_end d tree node)
  else update tree (near d n) (with_near (opp d) node).

Lemma link_node_eq tree node parent comparison :
  link_node tree node parent comparison =
    (tree ← update tree node (with_parent parent);
     if is_null parent then Some (with_ends (with_root tree node) node node) else
     link_side (if comparison <? 0 then LeftSide else RightSide) tree node parent).
Proof.
  unfold link_node. destruct (update tree node (with_parent parent)) as [tree1|]; [|done]. cbn [mbind option_bind].
  by destruct (is_null parent), (comparison <? 0).
Qed.

(** A node between two neighbours. *)
Lemma chain_insert h h' l1 a l2 :
  chain h None (l1 ++ l2) None → NoDup (l1 ++ l2) →
  (∀ b, b ∈ l1 ++ l2 → final None l1 ≠ Some b → first l2 None ≠ Some b → ends <$> h' !! b = ends <$> h !! b) →
  (∀ b n, final None l1 = Some b → h !! b = Some n → ∃ n', h' !! b = Some n' ∧ ends n' = (n_previous n, Some a)) →
  (∀ b n, first l2 None = Some b → h !! b = Some n → ∃ n', h' !! b = Some n' ∧ ends n' = (Some a, n_next n)) →
  (∃ n', h' !! a = Some n' ∧ ends n' = (final None l1, first l2 None)) →
  chain h' None (l1 ++ a :: l2) None.
Proof.
  intros [C1 C2]%chain_app Hd Hs Hl Hf (na & Ha & Ea). apply NoDup_app in Hd as (D1 & D12 & D2). apply chain_app. split; [|split].
  - eapply chain_next; [exact C1|done| |done]. intros b Hb Hne. apply Hs; [set_solver|done|].
    destruct l2 as [|c l2]; [done|]. cbn. intros [= ->]. by apply (D12 b Hb); left.
  - injection Ea as E1 E2. by exists na.
  - eapply chain_prev; [exact C2|done| |done]. intros b Hb Hne. apply Hs; [set_solver| |done].
    unfold final. destruct (last l1) as [c|] eqn:El; [|done]. intros [= ->].
    apply last_Some in El as [l' ->]. apply (D12 b); [set_solver|done].
Qed.

(** The chain after a node is gone. *)
Lemma chain_remove h h' l1 a l2 :
  chain h None (l1 ++ a :: l2) None → NoDup (l1 ++ a :: l2) →
  (∀ b, b ∈ l1 ++ l2 → final None l1 ≠ Some b → first l2 None ≠ Some b → ends <$> h' !! b = ends <$> h !! b) →
  (∀ b n, final None l1 = Some b → h !! b = Some n → ∃ n', h' !! b = Some n' ∧ ends n' = (n_previous n, first l2 None)) →
  (∀ b n, first l2 None = Some b → h !! b = Some n → ∃ n', h' !! b = Some n' ∧ ends n' = (final None l1, n_next n)) →
  chain h' None (l1 ++ l2) None.
Proof.
  intros [C1 [_ C2]]%chain_app Hd Hs Hl Hf. apply NoDup_app in Hd as (D1 & D12 & [Da D2]%NoDup_cons). apply chain_app. split.
  - eapply chain_next; [exact C1|done| |done]. intros b Hb Hne. apply Hs; [set_solver|done|].
    destruct l2 as [|c l2]; [done|]. cbn. intros [= ->]. apply (D12 b Hb). set_solver.
  - eapply chain_prev; [exact C2|done| |done]. intros b Hb Hne. apply Hs; [set_solver| |done].
    unfold final. destruct (last l1) as [c|] eqn:El; [|done]. intros [= ->].
    apply last_Some in El as [l' ->]. apply (D12 b); set_solver.
Qed.

(** The ends of the chain with a node more. *)
Lemma insert_ends l1 a l2 :
  first (l1 ++ a :: l2) None = (if is_null (final None l1) then Some a else first (l1 ++ l2) None) ∧
  final None (l1 ++ a :: l2) = (if is_null (first l2 None) then Some a else final None (l1 ++ l2)).
Proof.
  rewrite !first_app, !final_app, final_cons. split.
  - destruct l1 as [|b l1]; [done|]. unfold final. rewrite last_cons. by destruct (last l1).
  - destruct l2 as [|b l2]; [done|]. by rewrite !final_cons.
Qed.

(** What the neighbours in the chain say. *)
Lemma chain_node h l1 a l2 n : chain h None (l1 ++ a :: l2) None → h !! a = Some n → n_previous n = final None l1 ∧ n_next n = first l2 None.
Proof. intros [_ [(n' & Hn' & ? & ?) _]]%chain_app Hn. assert (n' = n) as -> by congruence. done. Qed.

Definition chained tree l : Prop := chain (rb_nodes tree) None l None ∧ rb_head tree = first l None ∧ rb_tail tree = final None l.

(** What linking a node changes besides the node. *)
Definition same_contents tree tree' (a : Z) : Prop :=
  ∀ b, b ≠ a → (λ n, (n_key n, n_value n)) <$> rb_nodes tree' !! b = (λ n, (n_key n, n_value n)) <$> rb_nodes tree !! b.

(** The record but for the heap, the root and the ends. *)
Definition same_settings tree tree' : Prop :=
  tree' = with_ends (with_root (with_nodes tree (rb_nodes tree')) (rb_root tree')) (rb_head tree') (rb_tail tree').

Record linked tree k (a : Z) n tree' : Prop := {
  lk_located : located tree' k (Fork true Nil a Nil);
  lk_chained : chained tree' (before k ++ a :: after k);
  lk_contents : same_contents tree tree' a;
  lk_node : ∃ n', rb_nodes tree' !! a = Some n' ∧ n_key n' = n_key n ∧ n_value n' = n_value n;
  lk_dom : dom (rb_nodes tree') = {[a]} ∪ dom (rb_nodes tree);
  lk_settings : same_settings tree tree'
}.

Lemma update_nodes tree h a n f :
  h !! a = Some n → update (with_nodes tree h) (Some a) f = Some (with_nodes tree (<[a := f n]> h)).
Proof. intros Hn. unfold update. cbn. by rewrite Hn. Qed.
Lemma node_at_nodes tree h a n : h !! a = Some n → node_at (with_nodes tree h) (Some a) = Some n.
Proof. done. Qed.

(** The heap after linking [a] below [p]. *)
Definition link_heap (d : side) h (a p : Z) (na np : rbtree_node K V) : heap :=
  let h := <[p := with_near d (Some a) (with_child d (Some a) np)]>
           (<[a := with_near d (near d np) (with_near (opp d) (Some p) na)]> h) in
  match near d np with
  | None => h
  | Some q => alter (with_near (opp d) (Some a)) q h
  end.

Lemma link_side_run d tree h a p na np :
  h !! a = Some na → h !! p = Some np → a ≠ p → near d np ≠ Some a → near d np ≠ Some p →
  (∀ q, near d np = Some q → is_Some (h !! q)) →
  link_side d (with_nodes tree h) (Some a) (Some p) =
    Some (let tree' := with_nodes tree (link_heap d h a p na np) in
          if is_null (near d np) then with_end d tree' (Some a) else tree').
Proof.
  intros Ha Hp Nap Nqa Nqp Hq. unfold link_side. rewrite (update_nodes _ _ _ _ _ Hp). cbn [mbind option_bind].
  assert (<[p:=with_child d (Some a) np]> h !! a = Some na) as Ha1 by (by rewrite lookup_insert_ne).
  rewrite (update_nodes _ _ _ _ _ Ha1). cbn [mbind option_bind].
  set (h2 := <[a := _]> _). assert (h2 !! p = Some (with_child d (Some a) np)) as Hp2
    by (unfold h2; rewrite lookup_insert_ne by done; by rewrite lookup_insert_eq).
  assert (h2 !! a = Some (with_near (opp d) (Some p) na)) as Ha2 by (unfold h2; by rewrite lookup_insert_eq).
  rewrite (node_at_nodes _ _ _ _ Hp2). cbn [mbind option_bind].
  assert (near d (with_child d (Some a) np) = near d np) as -> by (by destruct d).
  rewrite (update_nodes _ _ _ _ _ Ha2). cbn [mbind option_bind]. set (h3 := <[a := _]> h2).
  assert (h3 !! p = Some (with_child d (Some a) np)) as Hp3 by (unfold h3; by rewrite lookup_insert_ne).
  rewrite (update_nodes _ _ _ _ _ Hp3). cbn [mbind option_bind].
  assert (<[p:=with_near d (Some a) (with_child d (Some a) np)]> h3 =
    <[p := with_near d (Some a) (with_child d (Some a) np)]>
    (<[a := with_near d (near d np) (with_near (opp d) (Some p) na)]> h)) as ->.
  { unfold h3, h2. apply map_eq. intros b. destruct (decide (b = p)) as [->|]; [by rewrite !lookup_insert_eq|].
    rewrite !(lookup_insert_ne _ p) by done. destruct (decide (b = a)) as [->|]; [by rewrite !lookup_insert_eq|].
    rewrite !(lookup_insert_ne _ a) by done. by rewrite lookup_insert_ne. }
  rewrite (node_at_nodes _ _ a (with_near d (near d np) (with_near (opp d) (Some p) na)))
    by (rewrite lookup_insert_ne by done; by rewrite lookup_insert_eq).
  cbn [mbind option_bind]. assert (near d (with_near d (near d np) (with_near (opp d) (Some p) na)) = near d np) as -> by (by destruct d).
  unfold link_heap. destruct (near d np) as [q|] eqn:Eq; cbn [is_null]; [|done]. destruct (Hq q eq_refl) as [nq Hnq].
  assert (q ≠ a ∧ q ≠ p) as [? ?] by (split; congruence). erewrite update_nodes; [|rewrite !lookup_insert_ne by done; exact Hnq].
  do 2 f_equal. apply map_eq. intros b. destruct (decide (b = q)) as [->|].
  - rewrite lookup_insert_eq, lookup_alter_eq, !lookup_insert_ne by done. by rewrite Hnq.
  - by rewrite lookup_insert_ne, lookup_alter_ne by done.
Qed.

(** The same, address by address. *)
Lemma link_heap_lookup d h a p na np :
  a ≠ p → near d np ≠ Some a → near d np ≠ Some p →
  let h' := link_heap d h a p na np in
  h' !! a = Some (with_near d (near d np) (with_near (opp d) (Some p) na)) ∧
  h' !! p = Some (with_near d (Some a) (with_child d (Some a) np)) ∧
  (∀ q nq, near d np = Some q → h !! q = Some nq → h' !! q = Some (with_near (opp d) (Some a) nq)) ∧
  (∀ b, b ≠ a → b ≠ p → near d np ≠ Some b → h' !! b = h !! b).
Proof.
  intros Nap Nqa Nqp h'. unfold h', link_heap. destruct (near d np) as [q|] eqn:Eq.
  - assert (q ≠ a ∧ q ≠ p) as [? ?] by (split; congruence). split_and!.
    + rewrite lookup_alter_ne, lookup_insert_ne by done. by rewrite lookup_insert_eq.
    + rewrite lookup_alter_ne by done. by rewrite lookup_insert_eq.
    + intros q' nq [= <-] Hq. rewrite lookup_alter_eq, !lookup_insert_ne by done. by rewrite Hq.
    + intros b ? ? ?. rewrite lookup_alter_ne, !lookup_insert_ne by congruence. done.
  - split_and!; [rewrite lookup_insert_ne by done; by rewrite lookup_insert_eq|by rewrite lookup_insert_eq|done|].
    intros b ? ? _. by rewrite !lookup_insert_ne.
Qed.

Lemma located_order tree k t : located tree k t → NoDup (before k ++ inorder t ++ after k).
Proof. intros H%located_fill%lo_nodup. cbn in H. by rewrite inorder_fill in H. Qed.

Lemma chain_in h prev l next a : chain h prev l next → a ∈ l → is_Some (h !! a).
Proof.
  revert prev. induction l as [|b l IH]; intros prev; cbn; [set_solver|]. intros ((n & Hn & _) & Hl) [->|Hin]%elem_of_cons; [by exists n|].
  by eapply IH.
Qed.

Lemma final_in l a : final None l = Some a → a ∈ l.
Proof. unfold final. destruct (last l) as [b|] eqn:E; [|done]. intros [= ->]. apply last_Some in E as [l' ->]. set_solver. Qed.
Lemma first_in l a : first l None = Some a → a ∈ l.
Proof. destruct l; [done|]. intros [= ->]. by left. Qed.

(** The neighbours of the parent of a hole: on the side of the hole, the node
    that the hole is next to. *)
Lemma hole_neighbour tree d c p s k np :
  chain (rb_nodes tree) None (before (Frame d c p s :: k) ++ after (Frame d c p s :: k)) None → rb_nodes tree !! p = Some np →
  let k' := Frame d c p s :: k in
  match d with
  | LeftSide => n_previous np = final None (before k') ∧ first (after k') None = Some p
  | RightSide => n_next np = first (after k') None ∧ final None (before k') = Some p
  end.
Proof.
  intros Hc Hp. destruct d; cbn in *.
  - rewrite app_nil_r in *. by destruct (chain_node _ _ _ _ _ Hc Hp).
  - rewrite !app_assoc, <-(app_assoc _ [p]) in Hc. cbn in Hc. destruct (chain_node _ _ _ _ _ Hc Hp).
    split; [done|]. by rewrite app_assoc, final_app.
Qed.

(** The new node is a leaf below the parent of the hole. *)
Lemma link_located d c p s k tree tree' (a : Z) n' np np' :
  located tree (Frame d c p s :: k) Nil → rb_root tree' = rb_root tree → rb_nodes tree !! a = None → rb_nodes tree !! p = Some np →
  rb_nodes tree' !! a = Some n' → is_node n' (Some p) LeftSide true None None →
  rb_nodes tree' !! p = Some np' → links np' = links (with_child d (Some a) np) →
  (∀ b, b ≠ a → b ≠ p → same_links_at (rb_nodes tree) (rb_nodes tree') b) →
  located tree' (Frame d c p s :: k) (Fork true Nil a Nil).
Proof.
  intros H Hroot Ha Hp Ha' Hi Hp' Ep Os. destruct (located_node _ _ _ _ _ _ _ (go_up _ _ _ _ _ _ _ H)) as (np0 & Hp0 & Ip).
  assert (np0 = np) as -> by congruence. destruct H as [(_ & Hs & Hk) _ Hd].
  assert (∀ b, b ∈ p :: inorder s ++ path_addrs k → b ≠ a) as Na.
  { intros b Hb ->. assert (a ∈ dom (rb_nodes tree)) as Hin; [|by apply elem_of_dom in Hin as [? ?]; congruence].
    apply elem_of_cons in Hb as [->|[Hb|Hb]%elem_of_app]; [by apply elem_of_dom|..].
    - apply repr_dom in Hs. set_solver.
    - clear -Hk Hb. revert Hk Hb. generalize (Some p). induction k as [|[d' c' b s'] k IH]; intros hole; cbn; [set_solver|].
      intros ((n & Hn & _) & Hs & Hk) [->|[Hb|Hb]%elem_of_app]%elem_of_cons; [by apply elem_of_dom|..|by eapply IH].
      apply repr_dom in Hs. set_solver. }
  cbn in Hd. rewrite app_nil_r in Hd. pose proof Hd as [Np _]%NoDup_cons. split.
  - cbn. split; [exists np'; split; [done|]|split].
    + eapply is_node_links; [exact Ep|]. destruct Ip as (? & ? & ? & ?). by destruct d.
    + eapply repr_same; [|exact Hs]. intros b Hb. apply Os; [apply Na; set_solver|]. intros ->. set_solver.
    + rewrite Hroot. eapply path_same; [|exact Hk]. intros b Hb. apply Os; [apply Na; set_solver|]. intros ->. set_solver.
  - cbn. split; [|done]. exists n'. done.
  - change (NoDup ((p :: inorder s ++ path_addrs k) ++ [a])). rewrite <-Permutation_cons_append. apply NoDup_cons. split; [|done].
    intros Hin. by apply (Na a Hin).
Qed.

Lemma link_below tree d c p s k a n :
  let k' := Frame d c p s :: k in
  located tree k' Nil → chained tree (before k' ++ after k') → rb_nodes tree !! a = None →
  is_node n None LeftSide true None None →
  ∃ tree', link_side d (with_nodes tree (<[a := with_parent (Some p) n]> (rb_nodes tree))) (Some a) (Some p) = Some tree' ∧
    linked tree k' a n tree'.
Proof.
  intros k' H (Hc & Hhead & Htail) Ha Hi. destruct (located_node _ _ _ _ _ _ _ (go_up _ _ _ _ _ _ _ H)) as (np & Hp & _).
  pose proof (located_order _ _ _ H) as Hd. cbn [inorder app] in Hd. pose proof (hole_neighbour _ _ _ _ _ _ _ Hc Hp) as Hn.
  cbv zeta in Hn. fold k' in Hn.
  assert (a ≠ p) as Nap by congruence.
  assert (∀ b, b ∈ before k' ++ after k' → b ≠ a) as Na.
  { intros b Hb ->. destruct (chain_in _ _ _ _ _ Hc Hb). congruence. }
  assert (∀ q, near d np = Some q → q ∈ before k' ++ after k' ∧ q ≠ p) as Hq.
  { apply NoDup_app in Hd as (_ & Hd & _). intros q E. destruct d; cbn [near] in E; destruct Hn as [Hn1 Hn2].
    - rewrite Hn1 in E. apply final_in in E. apply first_in in Hn2. split; [set_solver|]. intros ->. by apply (Hd p).
    - rewrite Hn1 in E. apply first_in in E. apply final_in in Hn2. split; [set_solver|]. intros ->. by apply (Hd p). }
  assert (near d np ≠ Some a) as Nqa by (intros E; by apply Hq in E as [?%Na _]).
  assert (near d np ≠ Some p) as Nqp by (intros E; by apply Hq in E as [_ ?]).
  set (h := <[a := with_parent (Some p) n]> (rb_nodes tree)).
  assert (∀ b, b ≠ a → h !! b = rb_nodes tree !! b) as Oh by (intros b Hb; unfold h; by rewrite lookup_insert_ne).
  assert (h !! a = Some (with_parent (Some p) n)) as Hha by (unfold h; by rewrite lookup_insert_eq).
  rewrite (link_side_run d tree h a p (with_parent (Some p) n) np); try done; [|by rewrite Oh|].
  2:{ intros q [Hin _]%Hq. rewrite Oh by (by apply Na). by eapply chain_in. }
  destruct (link_heap_lookup d h a p (with_parent (Some p) n) np Nap Nqa Nqp) as (La & Lp & Lq & Lo).
  set (h' := link_heap d h a p (with_parent (Some p) n) np) in *.
  set (tree' := if is_null (near d np) then _ else _). exists tree'. split; [done|].
  assert (rb_nodes tree' = h' ∧ rb_root tree' = rb_root tree ∧ same_settings tree tree') as (Enodes & Eroot & Eset)
    by (unfold tree', same_settings; destruct (is_null (near d np)), d, tree; done).
  assert (∀ b, b ∈ before k' ++ after k' → b ≠ p → near d np ≠ Some b → h' !! b = rb_nodes tree !! b) as Lo'.
  { intros b Hb ? ?. rewrite Lo, Oh by (try done; by apply Na). done. }
  split.
  - eapply (link_located d c p s k tree tree' a _ np _ H Eroot Ha Hp); rewrite ?Enodes; [exact La| |exact Lp| |].
    + destruct Hi as (? & ? & ? & ?). by destruct d.
    + by destruct d.
    + intros b Hba Hbp. unfold same_links_at. destruct (decide (near d np = Some b)) as [E|].
      * destruct (chain_in _ _ _ _ b Hc) as [nb Hb]; [by apply Hq|]. rewrite (Lq b nb E); [|by rewrite Oh]. rewrite Hb. by destruct d.
      * by rewrite Lo, Oh.
  - unfold chained. rewrite Enodes. split.
    + apply (chain_insert (rb_nodes tree)); [done|done|..].
      * intros b Hb Hf1 Hf2. rewrite Lo'; [done|done|..]; destruct d, Hn as [Hn1 Hn2]; cbn [near]; congruence.
      * intros b nb Hb Hnb. destruct d, Hn as [Hn1 Hn2].
        -- rewrite <-Hn1 in Hb. rewrite (Lq b nb Hb); [by eexists|]. rewrite Oh; [done|]. intros ->. congruence.
        -- assert (b = p) as -> by congruence. assert (nb = np) as -> by congruence. rewrite Lp. by eexists.
      * intros b nb Hb Hnb. destruct d, Hn as [Hn1 Hn2].
        -- assert (b = p) as -> by congruence. assert (nb = np) as -> by congruence. rewrite Lp. by eexists.
        -- rewrite <-Hn1 in Hb. rewrite (Lq b nb Hb); [by eexists|]. rewrite Oh; [done|]. intros ->. congruence.
      * eexists. split; [exact La|]. destruct d, Hn as [Hn1 Hn2].
        -- trans (n_previous np, Some p); [done|congruence].
        -- trans (Some p, n_next np); [done|congruence].
    + destruct (insert_ends (before k') a (after k')) as [-> ->]. rewrite <-Hhead, <-Htail. unfold tree'.
      destruct d, Hn as [Hn1 Hn2]; cbn [near] in *; rewrite Hn1, Hn2;
        [by destruct (final None (before k'))|by destruct (first (after k') None)].
  - intros b Hb. rewrite Enodes. destruct (decide (b = p)) as [->|]; [rewrite Lp, Hp; cbn; by destruct d|].
    destruct (decide (near d np = Some b)) as [E|]; [|by rewrite Lo, Oh].
    destruct (chain_in _ _ _ _ b Hc) as [nb Hnb]; [by apply Hq|]. rewrite (Lq b nb E); [|by rewrite Oh]. rewrite Hnb. by destruct d.
  - rewrite Enodes. eexists. split; [exact La|]. by destruct d.
  - rewrite Enodes. unfold h', link_heap, h. destruct (near d np); rewrite ?dom_alter_L, !dom_insert_L;
      apply elem_of_dom_2 in Hp; set_solver.
  - done.
Qed.

Lemma link_ok tree k a n comparison :
  located tree k Nil → chained tree (before k ++ after k) → rb_nodes tree !! a = None →
  is_node n None LeftSide true None None → n_previous n = None → n_next n = None → last_step k comparison →
  ∃ tree', link_node (with_nodes tree (<[a := n]> (rb_nodes tree))) (Some a) (path_parent k) comparison = Some tree' ∧
    linked tree k a n tree'.
Proof.
  intros H Hc Ha Hi Hprev Hnext Hs. rewrite link_node_eq.
  rewrite (update_nodes tree _ a n) by (by rewrite lookup_insert_eq). cbn [mbind option_bind]. rewrite insert_insert_eq.
  destruct k as [|[d c p s] k]; cycle 1.
  { change (path_parent (Frame d c p s :: k)) with (Some p). cbn [is_null]. rewrite <-(Hs _ eq_refl). by apply link_below. }
  eexists. split; [done|]. destruct Hi as (Hi1 & Hi2 & Hi3 & Hi4). split.
  - split; [done| |by apply NoDup_singleton]. cbn. split; [|done]. exists (with_parent None n). rewrite lookup_insert_eq. done.
  - split; [|done]. cbn. split; [|done]. exists (with_parent None n). rewrite lookup_insert_eq. done.
  - intros b Hb. cbn. by rewrite lookup_insert_ne.
  - exists (with_parent None n). cbn. by rewrite lookup_insert_eq.
  - cbn. by rewrite dom_insert_L.
  - by destruct tree.
Qed.

(** ** Unlinking from the chain *)

Record unchained tree l1 (a : Z) l2 tree' : Prop := {
  uc_chain : chained (with_nodes tree' (delete a (rb_nodes tree'))) (l1 ++ l2);
  uc_links b : same_links_at (rb_nodes tree) (rb_nodes tree') b;
  uc_contents b : (λ n, (n_key n, n_value n)) <$> rb_nodes tree' !! b = (λ n, (n_key n, n_value n)) <$> rb_nodes tree !! b;
  uc_root : rb_root tree' = rb_root tree;
  uc_settings : same_settings tree tree'
}.

(** The heap with the two neighbours of a node joined. *)
Definition join_heap h (p x : ptr) : heap :=
  let h := match p with None => h | Some b => alter (with_next x) b h end in
  match x with None => h | Some b => alter (with_previous p) b h end.

Lemma unthread_run tree a n (p := n_previous n) (x := n_next n) :
  rb_nodes tree !! a = Some n → p ≠ Some a → x ≠ Some a → (∀ b, p = Some b → is_Some (rb_nodes tree !! b)) →
  (∀ b, x = Some b → is_Some (rb_nodes tree !! b)) →
  unthread_node tree (Some a) = Some (with_ends (with_nodes tree (join_heap (rb_nodes tree) p x))
    (if is_null p then x else rb_head tree) (if is_null x then p else rb_tail tree)).
Proof.
  intros Hn Np Nx Sp Sx. unfold unthread_node. rewrite (node_at_run _ _ _ Hn). cbn [mbind option_bind]. fold p x.
  assert (∀ h b nb f, h !! b = Some nb → <[b := f nb]> h = alter f b h) as Halter.
  { intros h b nb f Hb. apply map_eq. intros b'. destruct (decide (b' = b)) as [->|];
      [by rewrite lookup_insert_eq, lookup_alter_eq, Hb|by rewrite lookup_insert_ne, lookup_alter_ne]. }
  set (h1 := match p with None => rb_nodes tree | Some b => alter (with_next x) b (rb_nodes tree) end).
  assert ((if is_null p then Some (with_ends tree x (rb_tail tree)) else update tree p (with_next x)) =
    Some (with_ends (with_nodes tree h1) (if is_null p then x else rb_head tree) (rb_tail tree))) as ->.
  { unfold h1. destruct p as [b|]; cbn [is_null]; [|by destruct tree]. destruct (Sp b eq_refl) as [nb Hb].
    rewrite (update_run _ _ _ _ Hb), (Halter _ _ _ _ Hb). done. }
  cbn [mbind option_bind]. assert (h1 !! a = Some n) as Hn1 by (unfold h1; destruct p; [rewrite lookup_alter_ne by congruence|]; done).
  set (tree1 := with_ends _ _ _). change (node_at tree1 (Some a)) with (h1 !! a). rewrite Hn1. cbn [mbind option_bind]. fold p x.
  unfold join_heap. fold h1. destruct x as [b|] eqn:Ex; cbn [is_null]; [|by destruct tree].
  assert (is_Some (h1 !! b)) as [nb Hb].
  { destruct (Sx b eq_refl) as [nb Hb]. unfold h1. destruct p as [c|]; [|by exists nb]. destruct (decide (c = b)) as [->|].
    - rewrite lookup_alter_eq, Hb. by eexists.
    - rewrite lookup_alter_ne by done. by exists nb. }
  rewrite (update_run tree1 b nb) by exact Hb. do 2 f_equal. change (rb_nodes tree1) with h1. by rewrite (Halter _ _ _ _ Hb).
Qed.

Lemma remove_ends l1 (a : Z) l2 :
  first (l1 ++ l2) None = (if is_null (final None l1) then first l2 None else first (l1 ++ a :: l2) None) ∧
  final None (l1 ++ l2) = (if is_null (first l2 None) then final None l1 else final None (l1 ++ a :: l2)).
Proof.
  rewrite !first_app, !final_app, final_cons. split.
  - destruct l1 as [|b l1]; [done|]. unfold final. rewrite last_cons. by destruct (last l1).
  - destruct l2 as [|b l2]; [done|]. by rewrite !final_cons.
Qed.

Lemma join_heap_lookup h (p x : ptr) :
  (∀ b, p = Some b → x ≠ Some b) →
  (∀ b nb, p = Some b → h !! b = Some nb → join_heap h p x !! b = Some (with_next x nb)) ∧
  (∀ b nb, x = Some b → h !! b = Some nb → join_heap h p x !! b = Some (with_previous p nb)) ∧
  (∀ b, p ≠ Some b → x ≠ Some b → join_heap h p x !! b = h !! b).
Proof.
  intros Hne. unfold join_heap. split_and!.
  - intros b nb -> Hb. specialize (Hne b eq_refl).
    destruct x as [c|]; [rewrite lookup_alter_ne by congruence|]; by rewrite lookup_alter_eq, Hb.
  - intros b nb -> Hb. rewrite lookup_alter_eq. destruct p as [c|]; [|by rewrite Hb]. specialize (Hne c eq_refl).
    rewrite lookup_alter_ne by congruence. by rewrite Hb.
  - intros b Hp Hx. destruct x as [c|]; [rewrite lookup_alter_ne by congruence|]; (destruct p as [c'|]; [rewrite lookup_alter_ne by congruence|]); done.
Qed.

Lemma unthread_ok tree l1 a l2 :
  chained tree (l1 ++ a :: l2) → NoDup (l1 ++ a :: l2) → is_Some (rb_nodes tree !! a) →
  ∃ tree', unthread_node tree (Some a) = Some tree' ∧ unchained tree l1 a l2 tree'.
Proof.
  intros (Hc & Hhead & Htail) Hd [n Hn]. destruct (chain_node _ _ _ _ _ Hc Hn) as [Hp Hx].
  assert (∀ b, b ∈ l1 ++ l2 → b ≠ a ∧ is_Some (rb_nodes tree !! b)) as Hin.
  { intros b Hb. split; [|eapply chain_in; [exact Hc|]; set_solver]. intros ->. rewrite <-Permutation_middle in Hd.
    by apply NoDup_cons in Hd as [? _]. }
  assert (∀ b, final None l1 = Some b → b ∈ l1 ++ l2) as H1 by (intros b Hb%final_in; set_solver).
  assert (∀ b, first l2 None = Some b → b ∈ l1 ++ l2) as H2 by (intros b Hb%first_in; set_solver).
  rewrite (unthread_run tree a n Hn); rewrite ?Hp, ?Hx.
  2,3: intros E; by apply H1 in E as [? _]%Hin || (by apply H2 in E as [? _]%Hin).
  2,3: intros b E; by apply H1 in E as [_ ?]%Hin || (by apply H2 in E as [_ ?]%Hin).
  eexists. split; [done|].
  destruct (join_heap_lookup (rb_nodes tree) (final None l1) (first l2 None)) as (J1 & J2 & J3).
  { intros b Hb%final_in Hb'%first_in. apply NoDup_app in Hd as (_ & Hd & _). apply (Hd b Hb). by right. }
  set (h' := join_heap _ _ _) in *.
  assert (∀ b, ∃ f, h' !! b = f <$> rb_nodes tree !! b ∧ ∀ nb, links (f nb) = links nb ∧ (n_key (f nb), n_value (f nb)) = (n_key nb, n_value nb)) as Hf.
  { intros b. destruct (decide (final None l1 = Some b)) as [E|N1].
    - destruct (Hin b (H1 b E)) as [_ [nb Hb]]. exists (with_next (first l2 None)). by rewrite (J1 b nb E Hb), Hb.
    - destruct (decide (first l2 None = Some b)) as [E|N2].
      + destruct (Hin b (H2 b E)) as [_ [nb Hb]]. exists (with_previous (final None l1)). by rewrite (J2 b nb E Hb), Hb.
      + exists id. rewrite (J3 b N1 N2). by rewrite option_fmap_id. }
  split.
  - split; cbn [rb_nodes with_nodes with_ends rb_head rb_tail].
    + eapply (chain_remove (rb_nodes tree) _ l1 a l2); [done|done|..].
      * intros b Hb Hb1 Hb2. rewrite lookup_delete_ne by (by apply not_eq_sym, Hin). by rewrite J3.
      * intros b nb E Hb. rewrite lookup_delete_ne by (by apply not_eq_sym, Hin, H1). rewrite (J1 b nb E Hb). by eexists.
      * intros b nb E Hb. rewrite lookup_delete_ne by (by apply not_eq_sym, Hin, H2). rewrite (J2 b nb E Hb). by eexists.
    + rewrite Hhead, Htail. destruct (remove_ends l1 a l2) as [-> ->]. done.
  - intros b. unfold same_links_at. cbn. destruct (Hf b) as (f & -> & Hff). destruct (rb_nodes tree !! b); [|done]. cbn. by rewrite (proj1 (Hff _)).
  - intros b. cbn. destruct (Hf b) as (f & -> & Hff). destruct (rb_nodes tree !! b); [|done]. cbn. by rewrite (proj2 (Hff _)).
  - done.
  - by destruct tree.
Qed.
End Link.
