(* ===== verification/RbSpec.v ===== *)
(** * The red-black tree ([cstl/src/rbtree.c]): refinement

    A tree represents the list of its entries in key order. Putting,
    searching, removing and clearing are exactly the operations on that list;
    the red-black invariants, the chain of neighbours, the heap of nodes and
    the ledger of blocks and objects are kept. *)

From stdpp Require Import gmap.
From S2P Require Import Prelude World Sequence RbTree RbShape RbInsert RbDelete RbOrder RbChain.
Local Open Scope Z_scope.

(** ** Sorted lists of entries *)

Section Entries.
Context {K V : Type} (cmp : K → K → Z) `{!KeyOrder cmp}.
Implicit Types (es : list (K * V)) (key : K).

(** The entries below, at and above a key. *)
Definition lower key es : list (K * V) := filter (λ e, 0 < cmp key e.1) es.
Definition same key es : list (K * V) := filter (λ e, cmp key e.1 = 0) es.
Definition upper key es : list (K * V) := filter (λ e, cmp key e.1 < 0) es.

(** Sorted by key; without duplicates strictly so. *)
Definition precedes (dup : bool) (e1 e2 : K * V) : Prop := if dup then cmp e1.1 e2.1 <= 0 else cmp e1.1 e2.1 < 0.
Definition sorted (dup : bool) es : Prop := StronglySorted (precedes dup) es.

Lemma precedes_le dup e1 e2 : precedes dup e1 e2 → cmp e1.1 e2.1 <= 0.
Proof using KeyOrder0. unfold precedes. destruct dup; lia. Qed.

Lemma sorted_parts dup key es : sorted dup es → es = lower key es ++ same key es ++ upper key es.
Proof using KeyOrder0.
  unfold sorted, lower, same, upper. induction 1 as [|e es Hs IH Hall]; [done|].
  rewrite !filter_cons. assert (∀ e', e' ∈ es → cmp key e.1 < 0 → cmp key e'.1 < 0) as Hup.
  { intros e' He' Hlt. rewrite Forall_forall in Hall. apply Hall, precedes_le in He'. by eapply cmp_lt_le. }
  assert (∀ e', e' ∈ es → cmp key e.1 <= 0 → cmp key e'.1 <= 0) as Hle.
  { intros e' He' Hlt. rewrite Forall_forall in Hall. apply Hall, precedes_le in He'. by eapply cmp_le_trans. }
  destruct (Ztrichotomy (cmp key e.1) 0) as [Hlt|[Heq|Hgt]].
  - rewrite decide_False, decide_False, decide_True by lia.
    rewrite (filter_none (λ e, 0 < cmp key e.1)) by (intros e' He'; specialize (Hup e' He' Hlt); lia).
    rewrite (filter_none (λ e, cmp key e.1 = 0)) by (intros e' He'; specialize (Hup e' He' Hlt); lia).
    cbn. f_equal. symmetry. apply filter_all. intros e' He'. by apply Hup.
  - rewrite decide_False, decide_True, decide_False by lia.
    rewrite (filter_none (λ e, 0 < cmp key e.1)) in IH |- * by (intros e' He'; specialize (Hle e' He'); lia).
    cbn in *. by f_equal.
  - rewrite decide_True, decide_False, decide_False by lia. cbn. by f_equal.
Qed.

Lemma sorted_app dup es1 es2 :
  sorted dup (es1 ++ es2) ↔ sorted dup es1 ∧ sorted dup es2 ∧ ∀ e1 e2, e1 ∈ es1 → e2 ∈ es2 → precedes dup e1 e2.
Proof using KeyOrder0.
  unfold sorted. induction es1 as [|e es1 IH]; cbn.
  - split; [|by intros (_ & ? & _)]. intros H. split_and!; [constructor|done|set_solver].
  - split.
    + intros [H1 H2]%StronglySorted_inv. apply IH in H1 as (S1 & S2 & S3). rewrite Forall_app in H2. destruct H2 as [H2 H3].
      split_and!; [by constructor|done|]. intros e1 e2 [->|He1]%elem_of_cons He2; [|by apply S3].
      rewrite Forall_forall in H3. by apply H3.
    + intros ([S1 H1]%StronglySorted_inv & S2 & S3). constructor.
      * apply IH. split_and!; [done|done|]. intros e1 e2 He1. apply S3. set_solver.
      * apply Forall_app. split; [done|]. apply Forall_forall. intros e2 He2. apply S3; [set_solver|done].
Qed.

Lemma sorted_cons dup e es : sorted dup (e :: es) ↔ sorted dup es ∧ ∀ e', e' ∈ es → precedes dup e e'.
Proof using KeyOrder0.
  rewrite (sorted_app dup [e] es). split.
  - intros (_ & ? & H). split; [done|]. intros e' He'. apply H; [by left|done].
  - intros [? H]. split_and!; [repeat constructor|done|]. intros e1 e2 ->%list_elem_of_singleton. apply H.
Qed.

(** At most one entry has a key when there are no duplicates. *)
Lemma same_unique key es : sorted false es → same key es = [] ∨ ∃ e, same key es = [e].
Proof using KeyOrder0.
  intros Hs. rewrite (sorted_parts false key es Hs) in Hs. apply sorted_app in Hs as (_ & Hs & _).
  apply sorted_app in Hs as (Hs & _). destruct (same key es) as [|e [|e' l]] eqn:E; [by left|right; by exists e|].
  exfalso. apply sorted_cons in Hs as [_ Hs]. specialize (Hs e' ltac:(left)). cbn in Hs.
  assert (e ∈ same key es ∧ e' ∈ same key es) as [He He'] by (rewrite E; set_solver).
  apply list_elem_of_filter in He as [He _], He' as [He' _].
  pose proof (cmp_flip cmp key e.1). pose proof (cmp_le_trans e'.1 key e.1). pose proof (cmp_flip cmp key e'.1).
  pose proof (cmp_flip cmp e'.1 e.1). lia.
Qed.

(** The parts of a list around an entry that has the key. *)
Lemma parts_at key es1 e es2 :
  sorted false (es1 ++ e :: es2) → cmp key e.1 = 0 →
  lower key (es1 ++ e :: es2) = es1 ∧ same key (es1 ++ e :: es2) = [e] ∧ upper key (es1 ++ e :: es2) = es2.
Proof using KeyOrder0.
  intros (_ & [_ Hs2]%sorted_cons & Hs1)%sorted_app Hz. pose proof (cmp_flip cmp key e.1) as Hflip.
  assert (∀ e1, e1 ∈ es1 → 0 < cmp key e1.1) as H1.
  { intros e1 He1. specialize (Hs1 e1 e He1 ltac:(left)). cbn in Hs1.
    pose proof (cmp_lt_le cmp e1.1 e.1 key). pose proof (cmp_flip cmp key e1.1). lia. }
  assert (∀ e2, e2 ∈ es2 → cmp key e2.1 < 0) as H2.
  { intros e2 He2%Hs2. cbn in He2. pose proof (cmp_le_lt cmp key e.1 e2.1). lia. }
  unfold lower, same, upper. rewrite !filter_app, !filter_cons. rewrite decide_False, decide_True, decide_False by lia. split_and!.
  - rewrite (filter_all _ es1), (filter_none _ es2), app_nil_r; [done|..]; intros e' He'; [specialize (H2 e' He')|specialize (H1 e' He')]; lia.
  - rewrite (filter_none _ es1), (filter_none _ es2); [done|..]; intros e' He'; [specialize (H2 e' He')|specialize (H1 e' He')]; lia.
  - rewrite (filter_none _ es1), (filter_all _ es2); [done|..]; intros e' He'; [specialize (H2 e' He')|specialize (H1 e' He')]; lia.
Qed.

(** Putting an entry keeps the order. *)
Lemma sorted_insert dup key (v : V) es :
  sorted dup es → dup = true ∨ same key es = [] → sorted dup (lower key es ++ same key es ++ (key, v) :: upper key es).
Proof using KeyOrder0.
  intros Hs Hd. rewrite (sorted_parts dup key es Hs) in Hs.
  apply sorted_app in Hs as (S1 & S2 & S3). apply sorted_app in S2 as (S2 & S4 & S5).
  assert (∀ e, e ∈ upper key es → cmp key e.1 < 0) as HU by (intros e [? _]%list_elem_of_filter; done).
  assert (∀ e, e ∈ same key es → cmp key e.1 = 0) as HS by (intros e [? _]%list_elem_of_filter; done).
  assert (∀ e, e ∈ lower key es → 0 < cmp key e.1) as HL by (intros e [? _]%list_elem_of_filter; done).
  assert (∀ e, e ∈ upper key es → precedes dup (key, v) e) as HU' by (intros e He%HU; unfold precedes; cbn; destruct dup; lia).
  assert (∀ e, e ∈ lower key es → precedes dup e (key, v)) as HL'.
  { intros e He%HL. pose proof (cmp_flip cmp key e.1). unfold precedes; cbn; destruct dup; lia. }
  apply sorted_app. split; [done|]. split.
  - apply sorted_app. split; [done|]. split; [by apply sorted_cons|].
    intros e1 e2 H1 [->|H2]%elem_of_cons; [|by apply S5].
    destruct Hd as [->|Hd]; [|by rewrite Hd in H1; apply elem_of_nil in H1].
    cbn. pose proof (cmp_flip cmp key e1.1). apply HS in H1. lia.
  - intros e1 e2 H1 H2. apply elem_of_app in H2 as [H2|[->|H2]%elem_of_cons]; [apply S3; set_solver|by apply HL'|].
    apply S3; set_solver.
Qed.

(** Only the keys matter. *)
Lemma sorted_keys dup es es' : es.*1 = es'.*1 → sorted dup es → sorted dup es'.
Proof using KeyOrder0.
  revert es'. induction es as [|e es IH]; intros [|e' es'] E; try done. cbn in E. injection E as E1 E2. rewrite !sorted_cons.
  intros [Hs Ha]. split; [by eapply IH|]. intros e2 He2. apply (list_elem_of_fmap_2 fst) in He2. rewrite <-E2 in He2.
  apply list_elem_of_fmap in He2 as (e3 & E3 & He3). specialize (Ha e3 He3). unfold precedes in *. by rewrite <-E1, E3.
Qed.

Lemma sorted_delete dup es1 e es2 : sorted dup (es1 ++ e :: es2) → sorted dup (es1 ++ es2).
Proof using KeyOrder0.
  rewrite !sorted_app. intros (S1 & [S2 _]%sorted_cons & S3). split_and!; [done|done|]. intros e1 e2 H1 H2. apply S3; set_solver.
Qed.
End Entries.

(** ** Objects *)

Section Objects.
Context {A : Type} (type : option (cmeta_type_desc A)) (Hok : type_ok type).

Lemma copy_object_ok stride alignment x w :
  0 < stride <= SIZE_MAX → is_u64 alignment → sequence_alignment_valid alignment = true →
  ∃ st o w', rbtree_copy_object type stride alignment (Some x) w = Some ((st, o), w') ∧
    (st = STL_OK → (∃ p, o = Some (p, Some x)) ∧ w_blocks w' = w_blocks w + 1 ∧ w_objects w' = w_objects w + owned type) ∧
    (st ≠ STL_OK → o = None ∧ w_same w w') ∧
    (w_malloc w' = w_malloc w ∨ w_malloc w' = tail (w_malloc w)) ∧
    (∀ n, mallocs (S n) alignment w → stride + overhead alignment <= SIZE_MAX → copyable type x → st = STL_OK).
Proof using Hok.
  intros Hs Ha Hv. unfold rbtree_copy_object.
  destruct (allocate_cases 1 stride alignment w) as (st & p & w1 & E1 & Ho & Hb & Hen); [unfold_words; lia|done..|].
  pose proof (allocate_malloc _ _ _ _ _ _ _ E1) as Hmal. wstep E1. case_bool_decide as Hst; cbn [negb]; cycle 1.
  { destruct Hb as [-> Hb]. do 3 eexists. split; [done|]. split; [done|]. split; [done|]. split; [done|].
    intros n Hn Hr _. apply (Hen n); [done|lia]. }
  destruct Hb as [[a ->] Hb]. cbn [is_null]. destruct (copy_cases type Hok x w1) as (st2 & d & w2 & E2 & Hm2 & Hb2 & Hres & Hcp).
  wstep E2. case_bool_decide as Hst2; cbn [negb].
  - destruct Hres as [-> Ho2]. wrun. do 3 eexists. split; [done|]. split; [|split; [done|]; split; [by rewrite Hm2|done]].
    intros _. split; [by exists a|]. lia.
  - destruct Hres as [-> Ho2]. destruct (deallocate_run (Some a) w2) as (w3 & E3 & Hm3 & Ho3 & Hb3). cbn [is_null] in Hb3. wstep E3.
    do 3 eexists. split; [done|]. split; [done|]. split; [|split; [by rewrite Hm3, Hm2|]].
    + intros _. split; [done|]. split; lia.
    + intros n _ _ Hc. by destruct Hst2; apply Hcp.
Qed.

Lemma destroy_object_ok p x w :
  ∃ w', rbtree_destroy_object type (Some (p, Some x)) w = Some (tt, w') ∧ w_malloc w' = w_malloc w ∧
    w_blocks w' = w_blocks w - 1 ∧ w_objects w' = w_objects w - owned type.
Proof using Hok.
  unfold rbtree_destroy_object. destruct (destroy_ok type Hok x w) as (w1 & E1 & Hm1 & Hb1 & Ho1). wstep E1.
  destruct (deallocate_run (Some p) w1) as (w2 & E2 & Hm2 & Ho2 & Hb2). cbn [is_null] in Hb2. exists w2.
  split; [exact E2|]. split; [congruence|]. lia.
Qed.

(** A value leaves its memory, to the caller or to nowhere. *)
Lemma value_leaves (v : A) wanted w :
  ∃ out sl w', (if wanted : bool then sequence_move_destroy type (Some None) (Some (Some v))
      else '(status, value) ← sequence_destroy_value type (Some (Some v)); mret (status, None, value)) w =
      Some ((STL_OK, out, Some sl), w') ∧
    (x ← out; x) = (if wanted then Some v else None) ∧ w_malloc w' = w_malloc w ∧ w_blocks w' = w_blocks w ∧
    w_objects w' = w_objects w - (if wanted then 0 else owned type).
Proof using Hok.
  destruct wanted.
  - rewrite (move_ok _ Hok None v w). do 3 eexists. split; [done|]. split; [done|]. split; [done|]. split; [done|]. lia.
  - destruct (destroy_ok _ Hok v w) as (w1 & E1 & Hm & Hb & Ho). wstep E1. do 3 eexists. split; [done|]. by rewrite Ho.
Qed.
End Objects.

Section Tree.
Context {K V : Type} {AL : Allocator} (cmp : K → K → Z) `{!KeyOrder cmp}.
Implicit Types (tree : rbtree_t K V) (t : shape) (es : list (K * V)).

(** ** The invariant *)

Record rb_params tree : Prop := {
  rp_kstride : 0 < rb_key_stride tree <= SIZE_MAX;
  rp_kalign : is_u64 (rb_key_align tree) ∧ sequence_alignment_valid (rb_key_align tree) = true;
  rp_vstride : 0 < rb_value_stride tree <= SIZE_MAX;
  rp_valign : is_u64 (rb_value_align tree) ∧ sequence_alignment_valid (rb_value_align tree) = true;
  rp_limit : rb_element_limit tree <= SIZE_MAX;
  rp_ktype : type_ok (rb_key_type tree);
  rp_vtype : type_ok (rb_value_type tree);
  rp_cmp : rbtree_compare_fn tree = Some cmp
}.

(** The tree has the shape [t] and the entries [es]. *)
Record rb_ok tree t es : Prop := {
  ro_params : rb_params tree;
  ro_located : located tree [] t;
  ro_dom : dom (rb_nodes tree) = list_to_set (inorder t);
  ro_rb : ∃ m, rb t true m;
  ro_chained : chained tree (inorder t);
  ro_contents : contents (rb_nodes tree) (inorder t) es;
  ro_sorted : sorted cmp (rb_allow_duplicates tree) es;
  ro_size : rb_size tree = alen es;
  ro_limit : alen es <= rb_element_limit tree
}.

(** What no operation on a live tree changes. *)
Definition same_config tree tree' : Prop :=
  tree' = with_size (with_ends (with_root (with_nodes tree (rb_nodes tree')) (rb_root tree')) (rb_head tree') (rb_tail tree')) (rb_size tree').

#[global] Instance same_config_preorder : PreOrder same_config.
Proof. split; [by intros []|]. unfold same_config. intros t1 t2 t3 E1 E2. by rewrite E2, E1. Qed.

Lemma settings_config tree tree' : same_settings tree tree' → same_config tree tree'.
Proof using Type. unfold same_settings, same_config. intros ->. by destruct tree. Qed.
Lemma rest_config tree tree' : same_rest tree tree' → same_config tree tree'.
Proof using Type. intros [E _]. unfold same_record, same_config in *. rewrite E. by destruct tree. Qed.

Lemma config_params tree tree' : same_config tree tree' → rb_params tree → rb_params tree'.
Proof using Type. unfold same_config. intros ->. intros []. split; done. Qed.

(** Objects per entry; the blocks of an entry are its node, key and value. *)
Definition entry_objects tree : Z := owned (rb_key_type tree) + owned (rb_value_type tree).

Lemma config_objects tree tree' : same_config tree tree' → entry_objects tree' = entry_objects tree.
Proof using Type. unfold same_config. by intros ->. Qed.

(** Objects of the largest size can be asked for. *)
Definition rb_roomy tree : Prop :=
  rb_key_stride tree + overhead (rb_key_align tree) <= SIZE_MAX ∧
  rb_value_stride tree + overhead (rb_value_align tree) <= SIZE_MAX.
Definition rb_align tree : Z := rb_key_align tree `max` rb_value_align tree.

(** The nodes below, at and above a key. *)
Lemma parts_ok tree t es key :
  rb_ok tree t es → ∃ lL lE lG, inorder t = lL ++ lE ++ lG ∧ parted cmp tree key lL lE lG ∧
    contents (rb_nodes tree) lL (lower cmp key es) ∧ contents (rb_nodes tree) lE (same cmp key es) ∧
    contents (rb_nodes tree) lG (upper cmp key es).
Proof using KeyOrder0.
  intros H. pose proof (ro_contents _ _ _ H) as Hc. unfold contents in Hc.
  rewrite (sorted_parts cmp _ key es (ro_sorted _ _ _ H)) in Hc.
  apply Forall2_app_inv_r in Hc as (lL & l & HL & Hc & E). apply Forall2_app_inv_r in Hc as (lE & lG & HE & HG & ->).
  exists lL, lE, lG. split; [done|]. split; [|done].
  assert (∀ l es' (P : Z → Prop), Forall2 (holds_entry (rb_nodes tree)) l es' → (∀ e, e ∈ es' → P (cmp key e.1)) →
    Forall (compares cmp tree key P) l) as Hpart.
  { intros l es' P HF HP. induction HF as [|a e l es' (n & Hn & Hk & Hv) _ IH]; [done|]. constructor.
    - exists e.1. split; [by exists n|]. apply HP. by left.
    - apply IH. intros e' He'. apply HP. by right. }
  split_and!; (eapply Hpart; [done|]); intros e [? _]%list_elem_of_filter; done.
Qed.

Lemma keys_ok tree t es : rb_ok tree t es → has_keys tree t.
Proof using Type.
  intros H a Ha. apply list_elem_of_lookup_1 in Ha as [i Hi].
  destruct (Forall2_lookup_l _ _ _ _ _ (ro_contents _ _ _ H) Hi) as (e & _ & n & Hn & Hk & _). by exists e.1, n.
Qed.

Lemma fuel_ok tree t es : rb_ok tree t es → (height t < node_fuel tree)%nat.
Proof using Type.
  intros H. pose proof (ro_located _ _ _ H) as HL. pose proof (located_fuel _ _ _ HL (located_dom _ _ _ HL)) as Hf. cbn [fill] in Hf.
  pose proof (height_length t). lia.
Qed.

(** ** Searching *)

(** The node at [a] holds the entry [e] between the entries [es1] and [es2]. *)
Definition at_entry tree t es (a : Z) es1 (e : K * V) es2 : Prop :=
  es = es1 ++ e :: es2 ∧ ∃ l1 l2, inorder t = l1 ++ a :: l2 ∧ contents (rb_nodes tree) l1 es1 ∧
  holds_entry (rb_nodes tree) a e ∧ contents (rb_nodes tree) l2 es2.

Lemma find_node_mono tree key fuel : ∀ fuel' p q, (fuel <= fuel')%nat → find_node fuel tree key p = Some q → find_node fuel' tree key p = Some q.
Proof using Type.
  induction fuel as [|fuel IH]; intros fuel' p q Hf; [done|]. destruct fuel' as [|fuel']; [lia|]. cbn [find_node].
  destruct p as [a|]; [|done]. destruct (node_at tree (Some a)) as [n|]; [|done]. cbn [mbind option_bind].
  destruct (key_of n) as [x|]; [|done]. cbn [mbind option_bind]. destruct (rbtree_compare_key tree key x) as [c|]; [|done].
  cbn [mbind option_bind]. destruct (c =? 0); [done|]. apply IH. lia.
Qed.

Lemma bound_node_mono go_right tree key fuel : ∀ fuel' p r q,
  (fuel <= fuel')%nat → bound_node go_right fuel tree key p r = Some q → bound_node go_right fuel' tree key p r = Some q.
Proof using Type.
  induction fuel as [|fuel IH]; intros fuel' p r q Hf; [done|]. destruct fuel' as [|fuel']; [lia|]. cbn [bound_node].
  destruct p as [a|]; [|done]. destruct (node_at tree (Some a)) as [n|]; [|done]. cbn [mbind option_bind].
  destruct (key_of n) as [x|]; [|done]. cbn [mbind option_bind]. destruct (rbtree_compare_key tree x key) as [c|]; [|done].
  cbn [mbind option_bind]. destruct (go_right c); apply IH; lia.
Qed.

Lemma elem_contents h l es a : contents (V := V) (K := K) h l es → a ∈ l → ∃ l1 l2 es1 e es2,
  l = l1 ++ a :: l2 ∧ es = es1 ++ e :: es2 ∧ contents h l1 es1 ∧ holds_entry h a e ∧ contents h l2 es2.
Proof using Type.
  intros Hc (l1 & l2 & ->)%list_elem_of_split. unfold contents in Hc. apply Forall2_app_inv_l in Hc as (es1 & es' & H1 & H2 & ->).
  inversion H2 as [|? e ? es2 He H2']; subst. by exists l1, l2, es1, e, es2.
Qed.

(** [find_node] with enough fuel finds an entry with the key. *)
Lemma find_fuel_ok tree t es key fuel :
  rb_ok tree t es → (height t < fuel)%nat →
  ∃ p, find_node fuel tree key (rb_root tree) = Some p ∧
    match p with
    | None => same cmp key es = []
    | Some a => ∃ es1 e es2, at_entry tree t es a es1 e es2 ∧ cmp key e.1 = 0
    end.
Proof using KeyOrder0.
  intros H Hf. destruct (parts_ok _ _ _ key H) as (lL & lE & lG & El & HP & CL & CE & CG).
  destruct (find_node_ok cmp tree key (rp_cmp _ (ro_params _ _ _ H)) t [] fuel lL lE lG) as (p & E & Hp);
    [apply H|by eapply keys_ok|done|done|done|].
  exists p. pose proof (lo_path _ _ _ (ro_located _ _ _ H)) as Hr. cbn in Hr. rewrite Hr. split; [done|].
  destruct p as [a|]; [|subst lE; by apply Forall2_nil_inv_l in CE].
  destruct (elem_contents _ _ _ a CE Hp) as (l1 & l2 & es1 & e & es2 & -> & Es & C1 & He & C2).
  exists (lower cmp key es ++ es1), e, (es2 ++ upper cmp key es).
  assert (e ∈ same cmp key es) as [Hz _]%list_elem_of_filter by (rewrite Es; set_solver). split; [|done]. split.
  - rewrite (sorted_parts cmp _ key es (ro_sorted _ _ _ H)) at 1. rewrite Es, <-!app_assoc. done.
  - exists (lL ++ l1), (l2 ++ lG). rewrite El, <-!app_assoc. split; [done|]. split; [by apply Forall2_app|]. split; [done|by apply Forall2_app].
Qed.

Lemma find_ok tree t es key :
  rb_ok tree t es →
  ∃ p, rbtree_find (Some tree) (Some key) = Some p ∧
    match p with
    | None => same cmp key es = []
    | Some a => ∃ es1 e es2, at_entry tree t es a es1 e es2 ∧ cmp key e.1 = 0
    end.
Proof using KeyOrder0. intros H. apply find_fuel_ok; [done|]. by eapply fuel_ok. Qed.

(** The node of the first entry of a list; the null pointer if it has none. *)
Definition points_first tree t es (p : ptr) rest : Prop :=
  ∃ es1 l1 l2, es = es1 ++ rest ∧ inorder t = l1 ++ l2 ∧ contents (rb_nodes tree) l1 es1 ∧ contents (rb_nodes tree) l2 rest ∧
  p = first l2 None.

Lemma bound_fuel_ok go_right (P : Z → Prop) `{∀ z, Decision (P z)} tree t es key fuel :
  (∀ a b, go_right (cmp a b) = true ↔ P (cmp b a)) → (∀ z, P z ↔ if decide (P 0) then 0 <= z else 0 < z) →
  rb_ok tree t es → (height t < fuel)%nat →
  ∃ p, bound_node go_right fuel tree key (rb_root tree) None = Some p ∧
    points_first tree t es p (if decide (P 0) then upper cmp key es else same cmp key es ++ upper cmp key es).
Proof using KeyOrder0.
  intros Hg HP H0 Hf. destruct (parts_ok _ _ _ key H0) as (lL & lE & lG & El & (PL & PE & PG) & CL & CE & CG).
  pose proof (lo_path _ _ _ (ro_located _ _ _ H0)) as Hr. cbn in Hr. rewrite Hr.
  pose proof (sorted_parts cmp _ key es (ro_sorted _ _ _ H0)) as Es.
  assert (∀ lA lB, inorder t = lA ++ lB → Forall (compares cmp tree key P) lA → Forall (compares cmp tree key (λ z, ¬ P z)) lB →
    bound_node go_right fuel tree key (top t) None = Some (first lB None)) as Hb.
  { intros lA lB E HA HB. pose proof (bound_node_ok cmp tree key (rp_cmp _ (ro_params _ _ _ H0)) go_right P t Hg [] fuel lA lB) as Hb.
    cbn [after] in Hb. rewrite app_nil_r in Hb. apply Hb; try done; [apply H0|by eapply keys_ok]. }
  destruct (decide (P 0)) as [H0P|H0P].
  - exists (first lG None). split.
    + apply (Hb (lL ++ lE) lG); [by rewrite <-app_assoc|apply Forall_app; split|]; (eapply compares_impl; [|eassumption]); cbn;
        intros z; rewrite HP; lia.
    + exists (lower cmp key es ++ same cmp key es), (lL ++ lE), lG. rewrite <-!app_assoc. split; [done|]. split; [done|].
      split; [by apply Forall2_app|done].
  - exists (first (lE ++ lG) None). split.
    + apply (Hb lL (lE ++ lG)); [done| |apply Forall_app; split]; (eapply compares_impl; [|eassumption]); cbn; intros z; rewrite HP; lia.
    + exists (lower cmp key es), lL, (lE ++ lG). split; [done|]. split; [done|]. split; [done|]. split; [by apply Forall2_app|done].
Qed.

Lemma rb_lower_ok tree t es key fuel :
  rb_ok tree t es → (height t < fuel)%nat →
  ∃ p, bound_node (λ c, c <? 0) fuel tree key (rb_root tree) None = Some p ∧ points_first tree t es p (same cmp key es ++ upper cmp key es).
Proof using KeyOrder0.
  intros H Hf. destruct (bound_fuel_ok (λ c, c <? 0) (λ z, 0 < z) tree t es key fuel) as (p & E & Hp); try done.
  - intros a b. cbn. rewrite Z.ltb_lt. apply cmp_flip; done.
  - by exists p.
Qed.

Lemma rb_upper_ok tree t es key fuel :
  rb_ok tree t es → (height t < fuel)%nat →
  ∃ p, bound_node (λ c, c <=? 0) fuel tree key (rb_root tree) None = Some p ∧ points_first tree t es p (upper cmp key es).
Proof using KeyOrder0.
  intros H Hf. destruct (bound_fuel_ok (λ c, c <=? 0) (λ z, 0 <= z) tree t es key fuel) as (p & E & Hp); try done.
  - intros a b. cbn. rewrite Z.leb_le. apply cmp_flip; done.
  - by exists p.
Qed.

Lemma contents_length h l es : contents (K := K) (V := V) h l es → length l = length es.
Proof using Type. apply Forall2_length. Qed.

Lemma search_fuel tree t es fuel : rb_ok tree t es → (2 * Nat.log2 (S (length es)) < fuel)%nat → (height t < fuel)%nat.
Proof using Type.
  intros H Hf. destruct (ro_rb _ _ _ H) as [m Hm]. pose proof (balanced_height _ _ Hm) as Hh.
  rewrite (contents_length _ _ _ (ro_contents _ _ _ H)) in Hh. lia.
Qed.

(** C5. The searches of the tree answer from the list of entries in key
    order: [rbtree_find] returns a node with an equal key, or null exactly when
    there is none; [rbtree_lower_bound] the first entry not below the key and
    [rbtree_upper_bound] the first one above it. Each looks at no more than
    [2 log2 (n + 1)] of the [n] nodes. *)
Theorem rbtree_search_exact tree t es key fuel :
  rb_ok tree t es → (2 * Nat.log2 (S (length es)) < fuel)%nat →
  (∃ p, rbtree_find (Some tree) (Some key) = Some p ∧ find_node fuel tree key (rb_root tree) = Some p ∧
     match p with
     | None => same cmp key es = []
     | Some a => ∃ es1 e es2, at_entry tree t es a es1 e es2 ∧ cmp key e.1 = 0
     end) ∧
  (∃ p, rbtree_lower_bound (Some tree) (Some key) = Some p ∧
     bound_node (λ c, c <? 0) fuel tree key (rb_root tree) None = Some p ∧
     points_first tree t es p (same cmp key es ++ upper cmp key es)) ∧
  (∃ p, rbtree_upper_bound (Some tree) (Some key) = Some p ∧
     bound_node (λ c, c <=? 0) fuel tree key (rb_root tree) None = Some p ∧
     points_first tree t es p (upper cmp key es)).
Proof using KeyOrder0.
  intros H Hf. pose proof (search_fuel _ _ _ _ H Hf) as Hh. pose proof (fuel_ok _ _ _ H) as Hn. split_and!.
  - destruct (find_fuel_ok tree t es key (fuel `min` node_fuel tree) H) as (p & E & Hp); [lia|].
    exists p. split; [eapply find_node_mono; [|exact E]; lia|]. split; [eapply find_node_mono; [|exact E]; lia|done].
  - destruct (rb_lower_ok tree t es key (fuel `min` node_fuel tree) H) as (p & E & Hp); [lia|].
    exists p. split; [eapply bound_node_mono; [|exact E]; lia|]. split; [eapply bound_node_mono; [|exact E]; lia|done].
  - destruct (rb_upper_ok tree t es key (fuel `min` node_fuel tree) H) as (p & E & Hp); [lia|].
    exists p. split; [eapply bound_node_mono; [|exact E]; lia|]. split; [eapply bound_node_mono; [|exact E]; lia|done].
Qed.

(** ** Putting *)

(** The answer the list gives. *)
Definition put_spec (limit : Z) (dup : bool) (key : K) (v : V) es : stl_status * option rbtree_put_result * list (K * V) :=
  if negb dup && negb (bool_decide (same cmp key es = [])) then
    (STL_OK, Some RBTREE_REPLACED, lower cmp key es ++ ((λ e, (e.1, v)) <$> same cmp key es) ++ upper cmp key es)
  else if limit <=? alen es then (STL_CAPACITY_EXCEEDED, None, es)
  else (STL_OK, Some RBTREE_INSERTED, lower cmp key es ++ same cmp key es ++ (key, v) :: upper cmp key es).

(** What a call does to the tree and the world; [n] is the number of blocks a
    successful call may ask for. *)
Record put_post tree es key v (w : world) (st : stl_status) res tree' t' es' (w' : world) : Prop := {
  pp_ok : rb_ok tree' t' es';
  pp_config : same_config tree tree';
  pp_step : let spec := put_spec (rb_element_limit tree) (rb_allow_duplicates tree) key v es in
    (st, res, es') = spec ∨ (spec.1.1 = STL_OK ∧ st ≠ STL_OK ∧ res = None ∧ es' = es ∧ tree' = tree);
  pp_blocks : w_blocks w' - 3 * alen es' = w_blocks w - 3 * alen es;
  pp_objects : w_objects w' - entry_objects tree * alen es' = w_objects w - entry_objects tree * alen es;
  pp_enough : rb_roomy tree → mallocs 3 (rb_align tree) w → copyable (rb_key_type tree) key → copyable (rb_value_type tree) v →
    st = (put_spec (rb_element_limit tree) (rb_allow_duplicates tree) key v es).1.1;
  pp_mallocs n a : mallocs (3 + n) a w → mallocs n a w'
}.

(** A heap in which only payloads differ. *)
Lemma located_same tree tree' k t :
  rb_root tree' = rb_root tree → (∀ a, same_links_at (rb_nodes tree) (rb_nodes tree') a) → located tree k t → located tree' k t.
Proof using Type.
  intros Hr Hs [Hk Ht Hd]. split; [rewrite Hr; eapply path_same; [|exact Hk]; auto|eapply repr_same; [|exact Ht]; auto|done].
Qed.

(** Replacing the value of the node [a]. *)
Lemma replace_value_ok tree t es a es1 k0 v0 es2 p v :
  rb_ok tree t es → at_entry tree t es a es1 (k0, v0) es2 →
  ∃ tree' n, rb_nodes tree !! a = Some n ∧ update tree (Some a) (with_value (Some (p, Some v))) = Some tree' ∧
    value_of n = Some v0 ∧ rb_ok tree' t (es1 ++ (k0, v) :: es2) ∧ same_config tree tree'.
Proof using KeyOrder0.
  intros H (Es & l1 & l2 & El & C1 & (n & Hn & Hk & Hv) & C2).
  destruct (update_at tree a (with_value (Some (p, Some v))) n Hn) as (tree' & E & R & Ha & O & _). exists tree', n.
  assert (tree' = with_nodes tree (<[a := with_value (Some (p, Some v)) n]> (rb_nodes tree))) as ET
    by (rewrite (update_run _ _ _ _ Hn) in E; by injection E).
  assert (same_config tree tree') as Hcfg by (rewrite ET; by destruct tree).
  split; [done|]. split; [done|]. split; [done|]. split; [|done].
  assert (NoDup (l1 ++ a :: l2)) as Hd by (rewrite <-El; apply (lo_nodup _ _ _ (ro_located _ _ _ H))).
  assert (∀ b, b ∈ l1 ++ l2 → b ≠ a) as Hne.
  { intros b Hb ->. rewrite <-Permutation_middle in Hd. by apply NoDup_cons in Hd as [? _]. }
  destruct H as [Hp HL Hdom Hrb (Hc & Hh & Ht) Hcon Hs Hsz Hlim]. split; rewrite ?ET; cbn; try done.
  - rewrite <-ET. by eapply config_params.
  - eapply located_same; [|..|exact HL]; [done|]. intros b. unfold same_links_at. cbn. destruct (decide (b = a)) as [->|];
      [by rewrite lookup_insert_eq, Hn|by rewrite lookup_insert_ne].
  - rewrite dom_insert_L, Hdom. apply elem_of_dom_2 in Hn. rewrite Hdom in Hn. set_solver.
  - split; [|done]. cbn. eapply chain_same; [|exact Hc]. intros b Hb. destruct (decide (b = a)) as [->|];
      [by rewrite lookup_insert_eq, Hn|by rewrite lookup_insert_ne].
  - rewrite El. apply Forall2_app; [|constructor].
    + eapply contents_same; [|exact C1]. intros b Hb. rewrite lookup_insert_ne; [done|]. apply not_eq_sym, Hne. set_solver.
    + eexists. rewrite lookup_insert_eq. split; [done|]. done.
    + eapply contents_same; [|exact C2]. intros b Hb. rewrite lookup_insert_ne; [done|]. apply not_eq_sym, Hne. set_solver.
  - eapply (sorted_keys cmp); [|exact Hs]. rewrite Es, !fmap_app. done.
  - rewrite Hsz, Es. unfold alen. by rewrite !length_app.
  - rewrite Es in Hlim. unfold alen in *. rewrite length_app in *. done.
Qed.

(** A call that changes nothing. *)
Lemma put_failed tree t es key v w st w' :
  rb_ok tree t es → (put_spec (rb_element_limit tree) (rb_allow_duplicates tree) key v es).1.1 = STL_OK → st ≠ STL_OK → w_same w w' →
  (rb_roomy tree → mallocs 3 (rb_align tree) w → copyable (rb_key_type tree) key → copyable (rb_value_type tree) v → False) →
  (∀ n a, mallocs (3 + n) a w → mallocs n a w') →
  put_post tree es key v w st None tree t es w'.
Proof using Type.
  intros H Hs Hst [Hb Ho] Hen Hml. split; try done; [by right|lia|lia|]. intros Hr Hm Hck Hcv. by destruct (Hen Hr Hm Hck Hcv).
Qed.

Lemma put_replace_post tree t es key v a es1 e es2 w :
  rb_ok tree t es → rb_allow_duplicates tree = false → at_entry tree t es a es1 e es2 → cmp key e.1 = 0 →
  ∃ st tree' t' es' w', put_replace tree (Some a) v w = Some ((st, tree'), w') ∧
    put_post tree es key v w st (if bool_decide (st = STL_OK) then Some RBTREE_REPLACED else None) tree' t' es' w'.
Proof using KeyOrder0.
  intros H Hd Hat Hz. destruct e as [k0 v0]. cbn in Hz. pose proof (ro_params _ _ _ H) as Hp.
  destruct (replace_value_ok tree t es a es1 k0 v0 es2 0 v H Hat) as (_ & n & Hn & _ & Hv & _).
  pose proof (ro_sorted _ _ _ H) as Hs. pose proof Hat as [Es _]. rewrite Hd, Es in Hs.
  destruct (parts_at cmp key es1 (k0, v0) es2 Hs Hz) as (PL & PS & PU). rewrite <-Es in PL, PS, PU.
  assert (put_spec (rb_element_limit tree) (rb_allow_duplicates tree) key v es = (STL_OK, Some RBTREE_REPLACED, es1 ++ (k0, v) :: es2)) as Hspec
    by (unfold put_spec; by rewrite Hd, PL, PS, PU).
  unfold put_replace. destruct (rp_valign _ Hp) as [Va Vv].
  destruct (copy_object_ok (rb_value_type tree) (rp_vtype _ Hp) (rb_value_stride tree) (rb_value_align tree) v w (rp_vstride _ Hp) Va Vv)
    as (st & o & w1 & E1 & Hgood & Hbad & Hmal & Hen). wstep E1.
  assert (∀ n a, mallocs (3 + n) a w → mallocs n a w1) as Hml by (intros m b Hm; eapply mallocs_step; [exact Hmal|]; eapply mallocs_le; [|exact Hm]; lia).
  case_bool_decide as Hst; cbn [negb]; cycle 1.
  { do 5 eexists. split; [done|]. rewrite bool_decide_false by done. apply put_failed; try done; [by rewrite Hspec|by apply Hbad| ].
    intros [_ Hr] Hm _ Hc. destruct Hst. apply (Hen 2%nat); [|done|done].
    eapply mallocs_align; [|exact Hm]. unfold rb_align. lia. }
  destruct (Hgood Hst) as ((p & ->) & Hb1 & Ho1). rewrite (node_at_run _ _ _ Hn). wrun.
  destruct (n_value n) as [[pv sv]|] eqn:Env; [|unfold value_of in Hv; by rewrite Env in Hv].
  assert (sv = Some v0) as -> by (unfold value_of in Hv; rewrite Env in Hv; exact Hv).
  destruct (destroy_object_ok (rb_value_type tree) (rp_vtype _ Hp) pv v0 w1) as (w2 & E2 & Hm2 & Hb2 & Ho2). wstep E2.
  destruct (replace_value_ok tree t es a es1 k0 v0 es2 p v H Hat) as (tree' & n' & Hn' & Eu & _ & Hok & Hcfg).
  rewrite Eu. wrun. exists STL_OK, tree', t, (es1 ++ (k0, v) :: es2), w2. split; [done|]. rewrite bool_decide_true by done.
  assert (alen (es1 ++ (k0, v) :: es2) = alen es) as Hal by (destruct Hat as [-> _]; unfold alen; by rewrite !length_app).
  split; try done; [rewrite Hspec; by left|lia|rewrite Hal; lia|intros; by rewrite Hspec|]. intros m b Hm. eapply mallocs_eq; [exact Hm2|]. by apply Hml.
Qed.

Lemma malloc_supplied n a w : mallocs (S n) a w → ∃ p w', malloc w = Some (Some p, w') ∧ mallocs n a w' ∧ w_blocks w' = w_blocks w + 1 ∧ w_objects w' = w_objects w.
Proof using Type.
  intros (ps & l & Hw & Hl & HF). destruct ps as [|p ps]; [done|]. apply Forall_cons in HF as [_ HF]. unfold malloc. rewrite Hw. cbn.
  eexists p, _. split; [done|]. split; [|done]. exists ps, l. split; [done|]. split; [|done]. cbn in Hl. lia.
Qed.

Definition fresh_node (pk : Z) (key : K) (pv : Z) (v : V) : rbtree_node K V :=
  MkRbNode None None None None None (Some (pk, Some key)) (Some (pv, Some v)) true.

Lemma node_create_ok tree key v w :
  rb_params tree →
  ∃ st r w', rbtree_node_create tree (Some key) (Some v) w = Some ((st, r), w') ∧
    (st = STL_OK → (∃ pk pv, r = Some (next_block (dom (rb_nodes tree)), fresh_node pk key pv v)) ∧
       w_blocks w' = w_blocks w + 3 ∧ w_objects w' = w_objects w + entry_objects tree) ∧
    (st ≠ STL_OK → r = None ∧ w_same w w') ∧
    (rb_roomy tree → mallocs 3 (rb_align tree) w → copyable (rb_key_type tree) key → copyable (rb_value_type tree) v → st = STL_OK) ∧
    (∀ n a, mallocs (3 + n) a w → mallocs n a w').
Proof using Type.
  intros Hp. destruct (rp_valign _ Hp) as [Va Vv], (rp_kalign _ Hp) as [Ka Kv]. unfold rbtree_node_create.
  destruct (malloc_ok w) as (block & w0 & E0 & Hb0 & Ho0 & _). wstep E0.
  assert (∀ n a, mallocs (S n) a w → mallocs n a w0) as Hm0.
  { intros n a Hm. destruct (malloc_supplied _ _ _ Hm) as (p & w' & E & Hm' & _). congruence. }
  destruct block as [b|]; cycle 1.
  { do 3 eexists. split; [done|]. split; [done|]. split; [intros _; split; [done|]; split; cbn in Hb0; lia|]. split.
    - intros _ Hm _ _. destruct (malloc_supplied _ _ _ Hm) as (p & w' & E & _). congruence.
    - intros n a Hm. apply Hm0. eapply mallocs_le; [|exact Hm]. lia. }
  cbn [is_null] in Hb0.
  destruct (copy_object_ok (rb_key_type tree) (rp_ktype _ Hp) (rb_key_stride tree) (rb_key_align tree) key w0 (rp_kstride _ Hp) Ka Kv)
    as (st1 & ok & w1 & E1 & Hgood1 & Hbad1 & Hm1 & Hen1). wstep E1. case_bool_decide as Hst1; cycle 1.
  { destruct (Hbad1 Hst1) as [-> [Hb1 Ho1]]. wrun. rewrite bool_decide_false by done. cbn [negb rbtree_destroy_object]. wrun.
    do 3 eexists. split; [done|]. split; [done|]. split; [intros _; split; [done|]; split; cbn; lia|]. split.
    - intros [Hr _] Hm Hc _. destruct Hst1. apply (Hen1 1%nat); [|done|done]. apply Hm0.
      eapply mallocs_align; [|exact Hm]. unfold rb_align. lia.
    - intros n a Hm. eapply (mallocs_eq _ _ w1); [done|]. eapply mallocs_step; [exact Hm1|]. apply Hm0. eapply mallocs_le; [|exact Hm]. lia. }
  destruct (Hgood1 Hst1) as ((pk & ->) & Hb1 & Ho1).
  destruct (copy_object_ok (rb_value_type tree) (rp_vtype _ Hp) (rb_value_stride tree) (rb_value_align tree) v w1 (rp_vstride _ Hp) Va Vv)
    as (st2 & ov & w2 & E2 & Hgood2 & Hbad2 & Hm2 & Hen2). wstep E2.
  assert (∀ n a, mallocs (3 + n) a w → mallocs n a w2) as Hml2.
  { intros n a Hm. eapply mallocs_step; [exact Hm2|]. eapply mallocs_step; [exact Hm1|]. by apply Hm0. }
  case_bool_decide as Hst2; cbn [negb].
  - destruct (Hgood2 Hst2) as ((pv & ->) & Hb2 & Ho2). do 3 eexists. split; [done|]. split; [|done]. intros _.
    split; [by exists pk, pv|]. unfold entry_objects. lia.
  - destruct (Hbad2 Hst2) as [-> [Hb2 Ho2]].
    destruct (destroy_object_ok (rb_key_type tree) (rp_ktype _ Hp) pk key w2) as (w3 & E3 & Hm3 & Hb3 & Ho3). wstep E3.
    do 3 eexists. split; [done|]. split; [done|]. split; [intros _; split; [done|]; split; cbn; lia|].
    split; [|intros n a Hm; apply (mallocs_eq _ _ w2); [exact Hm3|]; by apply Hml2].
    intros [_ Hr] Hm _ Hc. destruct Hst2. apply (Hen2 0%nat); [|done|done]. eapply mallocs_step; [exact Hm1|]. apply Hm0.
    eapply mallocs_align; [|exact Hm]. unfold rb_align. lia.
Qed.

(** What a change of links and colours keeps. *)
Lemma rest_dom tree tree' : same_rest tree tree' → dom (rb_nodes tree') = dom (rb_nodes tree).
Proof using Type.
  intros [_ Hpay]. apply set_eq. intros b. rewrite !elem_of_dom. specialize (Hpay b).
  destruct (rb_nodes tree' !! b), (rb_nodes tree !! b); try done; split; by intros [].
Qed.
Lemma rest_chained tree tree' l : same_rest tree tree' → chained tree l → chained tree' l.
Proof using Type.
  intros [Hrec Hpay] (Hc & Hh & Ht). unfold same_record in Hrec. split; [|by rewrite Hrec].
  eapply chain_same; [|exact Hc]. intros b _. specialize (Hpay b).
  destruct (rb_nodes tree' !! b), (rb_nodes tree !! b); try done. cbn in *. injection Hpay as H1 H2 _ _. unfold ends. by rewrite H1, H2.
Qed.
Lemma rest_contents tree tree' l es : same_rest tree tree' → contents (rb_nodes tree) l es → contents (rb_nodes tree') l es.
Proof using Type.
  intros [_ Hpay]. apply contents_same. intros b _. specialize (Hpay b).
  destruct (rb_nodes tree' !! b), (rb_nodes tree !! b); try done. cbn in *. injection Hpay as _ _ H3 H4. by rewrite H3, H4.
Qed.

(** Linking the new node and restoring the colours. *)
Lemma insert_node_ok tree t es k comparison pk key pv v es1 es2 (a := next_block (dom (rb_nodes tree))) :
  rb_ok tree t es → fill k Nil = t → last_step k comparison → es = es1 ++ es2 →
  contents (rb_nodes tree) (before k) es1 → contents (rb_nodes tree) (after k) es2 →
  sorted cmp (rb_allow_duplicates tree) (es1 ++ (key, v) :: es2) → alen es < rb_element_limit tree →
  ∃ tree1 tree2 t', link_node (with_nodes tree (<[a := fresh_node pk key pv v]> (rb_nodes tree))) (Some a) (path_parent k) comparison = Some tree1 ∧
    rbtree_insert_fix tree1 (Some a) = Some tree2 ∧
    rb_ok (with_size tree2 (u64 (rb_size tree2 + 1))) t' (es1 ++ (key, v) :: es2) ∧ same_config tree (with_size tree2 (u64 (rb_size tree2 + 1))).
Proof using KeyOrder0.
  intros [Hp HL Hdom [m Hm] Hch Hcon Hs Hsz Hlim] Ht Hstep Es C1 C2 Hs' Hroom.
  assert (inorder t = before k ++ after k) as Eo by (rewrite <-Ht, inorder_fill; done).
  assert (rb_nodes tree !! a = None) as Ha by (apply not_elem_of_dom, next_block_fresh).
  assert (located tree k Nil) as HL0 by (apply located_fill; by rewrite Ht).
  rewrite Eo in Hch. destruct (link_ok tree k a (fresh_node pk key pv v) comparison HL0 Hch Ha) as (tree1 & E1 & HL1); try done.
  exists tree1. destruct (insert_fix_ok tree1 k a m (lk_located _ _ _ _ _ HL1)) as (tree2 & t2 & m2 & E2 & L2 & O2 & R2 & S2); [by rewrite Ht|].
  exists tree2, t2. split; [done|]. split; [done|].
  assert (same_config tree tree2) as Hcfg by (rewrite (settings_config _ _ (lk_settings _ _ _ _ _ HL1)); by apply rest_config).
  assert (rb_size tree2 = rb_size tree) as Esz.
  { destruct S2 as [S2 _]. pose proof (lk_settings _ _ _ _ _ HL1) as S1. unfold same_record, same_settings in *. by rewrite S2, S1. }
  assert (rb_size tree2 + 1 = alen (es1 ++ (key, v) :: es2)) as Ealen by (rewrite Esz, Hsz, Es; unfold alen; rewrite !length_app; cbn; lia).
  assert (u64 (rb_size tree2 + 1) = rb_size tree2 + 1) as Eu.
  { apply u64_id. pose proof (rp_limit _ Hp) as Hlm. rewrite Esz, Hsz. unfold is_u64, SIZE_MAX, alen in *. lia. }
  rewrite Eu. split; [|rewrite Hcfg; by destruct tree2].
  assert (∀ b, b ∈ before k ++ after k → b ≠ a) as Nb.
  { intros b Hb ->. rewrite <-Eo in Hb. assert (a ∈ dom (rb_nodes tree)) as Hin by (rewrite Hdom; by apply elem_of_list_to_set).
    by apply elem_of_dom in Hin as [? ?]; congruence. }
  split; cbn.
  - apply (config_params tree); [rewrite Hcfg; by destruct tree2|done].
  - destruct L2 as [L2a L2b L2c]. by split.
  - rewrite (rest_dom _ _ S2), (lk_dom _ _ _ _ _ HL1), Hdom, Eo, O2. set_solver.
  - by exists m2.
  - rewrite O2. exact (rest_chained _ _ _ S2 (lk_chained _ _ _ _ _ HL1)).
  - rewrite O2. apply (rest_contents _ _ _ _ S2). apply Forall2_app; [|constructor].
    + eapply contents_same; [|exact C1]. intros b Hb. apply (lk_contents _ _ _ _ _ HL1), Nb. set_solver.
    + destruct (lk_node _ _ _ _ _ HL1) as (n' & Hn' & Ek & Ev). exists n'. split; [done|]. unfold key_of, value_of. by rewrite Ek, Ev.
    + eapply contents_same; [|exact C2]. intros b Hb. apply (lk_contents _ _ _ _ _ HL1), Nb. set_solver.
  - assert (rb_allow_duplicates tree2 = rb_allow_duplicates tree) as -> by (by rewrite Hcfg). done.
  - done.
  - assert (rb_element_limit tree2 = rb_element_limit tree) as -> by (by rewrite Hcfg). rewrite <-Ealen, Esz, Hsz. lia.
Qed.

Lemma put_insert_post tree t es key v k comparison w :
  rb_ok tree t es → fill k Nil = t → last_step k comparison →
  contents (rb_nodes tree) (before k) (lower cmp key es ++ same cmp key es) → contents (rb_nodes tree) (after k) (upper cmp key es) →
  rb_allow_duplicates tree = true ∨ same cmp key es = [] → alen es < rb_element_limit tree →
  ∃ st tree' t' es' w', put_insert tree key v (path_parent k) comparison w = Some ((st, tree'), w') ∧
    put_post tree es key v w st (if bool_decide (st = STL_OK) then Some RBTREE_INSERTED else None) tree' t' es' w'.
Proof using KeyOrder0.
  intros H Ht Hstep C1 C2 Hdup Hroom. pose proof (ro_sorted _ _ _ H) as Hs. pose proof (sorted_parts cmp _ key es Hs) as Es.
  assert (put_spec (rb_element_limit tree) (rb_allow_duplicates tree) key v es =
    (STL_OK, Some RBTREE_INSERTED, (lower cmp key es ++ same cmp key es) ++ (key, v) :: upper cmp key es)) as Hspec.
  { unfold put_spec. rewrite (proj2 (Z.leb_gt _ _)) by done. rewrite <-app_assoc. destruct Hdup as [->| ->]; [done|].
    rewrite bool_decide_true by done. by rewrite andb_false_r. }
  unfold put_insert. destruct (node_create_ok tree key v w (ro_params _ _ _ H)) as (st & r & w1 & E1 & Hgood & Hbad & Hen & Hml). wstep E1.
  destruct (decide (st = STL_OK)) as [Hst|Hst]; cycle 1.
  { destruct (Hbad Hst) as [-> Hw]. do 5 eexists. split; [done|]. rewrite bool_decide_false by done. apply put_failed; try done; [by rewrite Hspec|].
    intros Hr Hm Hck Hcv. by destruct Hst; apply Hen. }
  destruct (Hgood Hst) as ((pk & pv & ->) & Hb1 & Ho1).
  destruct (insert_node_ok tree t es k comparison pk key pv v (lower cmp key es ++ same cmp key es) (upper cmp key es))
    as (tree1 & tree2 & t' & E2 & E3 & Hok & Hcfg); try done; [by rewrite <-app_assoc| |].
  { rewrite <-app_assoc. by apply sorted_insert. }
  rewrite E2. wrun. rewrite E3. wrun. do 5 eexists. split; [done|]. rewrite bool_decide_true by done.
  assert (alen ((lower cmp key es ++ same cmp key es) ++ (key, v) :: upper cmp key es) = alen es + 1) as Hal.
  { rewrite Es at 4. unfold alen. rewrite !length_app. cbn. lia. }
  split; [exact Hok|exact Hcfg|rewrite Hspec; by left|lia|rewrite Hal; lia| |done]. intros. by rewrite Hspec.
Qed.

Lemma put_ok tree t es key v w :
  rb_ok tree t es →
  ∃ st res tree' t' es' w', rbtree_put (Some tree) (Some key) (Some v) w = Some ((st, res, Some tree'), w') ∧
    put_post tree es key v w st res tree' t' es' w'.
Proof using KeyOrder0.
  intros H. destruct (parts_ok _ _ _ key H) as (lL & lE & lG & El & HP & CL & CE & CG).
  pose proof (lo_path _ _ _ (ro_located _ _ _ H)) as Hr. cbn in Hr.
  destruct (put_descent_ok cmp tree key (rp_cmp _ (ro_params _ _ _ H)) t [] (node_fuel tree) 0 lL lE lG) as (r & E & Hres);
    [apply H|by eapply keys_ok|by eapply fuel_ok|done|done|done|].
  unfold rbtree_put. rewrite Hr. change (path_parent []) with (@None Z) in E. rewrite E. wrun. destruct r as [p|parent comparison].
  - destruct Hres as (Hd & a & -> & Ha). pose proof CE as CE'.
    destruct (elem_contents _ _ _ a CE Ha) as (l1 & l2 & es1 & e & es2 & E1 & Es & C1 & He & C2).
    assert (e ∈ same cmp key es) as [Hz _]%list_elem_of_filter by (rewrite Es; set_solver).
    destruct (put_replace_post tree t es key v a (lower cmp key es ++ es1) e (es2 ++ upper cmp key es) w H Hd) as (st & tree' & t' & es' & w' & Ep & Hpost);
      [|done|].
    { split; [rewrite (sorted_parts cmp _ key es (ro_sorted _ _ _ H)) at 1; rewrite Es, <-!app_assoc; done|].
      exists (lL ++ l1), (l2 ++ lG). rewrite El, E1, <-!app_assoc. split; [done|]. split; [by apply Forall2_app|]. split; [done|by apply Forall2_app]. }
    wstep Ep. do 6 eexists. split; [done|]. exact Hpost.
  - destruct Hres as (k & -> & Hfill & HB & HA & Hstep & Hdup). cbn in HB, Hfill. rewrite app_nil_r in HA.
    rewrite (ro_size _ _ _ H). destruct (Z.leb_spec (rb_element_limit tree) (alen es)) as [Hfull|Hroom].
    + do 6 eexists. split; [done|]. assert (put_spec (rb_element_limit tree) (rb_allow_duplicates tree) key v es = (STL_CAPACITY_EXCEEDED, None, es)) as Hspec.
      { unfold put_spec. rewrite (proj2 (Z.leb_le _ _)) by done. destruct (rb_allow_duplicates tree); [done|].
        rewrite bool_decide_true; [done|]. rewrite (Hdup eq_refl) in CE. by apply Forall2_nil_inv_l in CE. }
      split; [exact H|done|rewrite Hspec; by left|lia|lia|intros; by rewrite Hspec|]. intros n a. apply mallocs_le. lia.
    + destruct (put_insert_post tree t es key v k comparison w H Hfill Hstep) as (st & tree' & t' & es' & w' & Ep & Hpost); try done.
      * rewrite HB. by apply Forall2_app.
      * by rewrite HA.
      * destruct (rb_allow_duplicates tree) eqn:Ed; [by left|right]. rewrite (Hdup eq_refl) in CE. by apply Forall2_nil_inv_l in CE.
      * wstep Ep. do 6 eexists. split; [done|]. exact Hpost.
Qed.

(** C3. [rbtree_put] puts an entry into the sorted list of entries: without
    duplicates it replaces the value of an equal key and keeps the stored key,
    otherwise it adds the entry behind the equal ones, unless the limit is
    reached. The result is a red-black tree with its nodes chained in key
    order; a call that runs out of memory changes nothing; blocks and objects
    are accounted for; nothing is undefined; with memory and copyable values
    the answer of the list is the one given. *)
Theorem rbtree_put_exact tree t es key v w :
  rb_ok tree t es →
  ∃ st res tree' t' es' w', rbtree_put (Some tree) (Some key) (Some v) w = Some ((st, res, Some tree'), w') ∧
    put_post tree es key v w st res tree' t' es' w'.
Proof using KeyOrder0. apply put_ok. Qed.

(** ** Removal *)

Lemma snoc_path k f : before (k ++ [f]) = before [f] ++ before k ∧ after (k ++ [f]) = after k ++ after [f].
Proof using Type.
  induction k as [|g k [IH1 IH2]]; [cbn; by rewrite app_nil_r|]. cbn [app before after]. rewrite IH1, IH2. by rewrite <-!app_assoc.
Qed.

(** Where an address is in the tree. *)
Lemma position t l1 (a : Z) l2 :
  inorder t = l1 ++ a :: l2 → ∃ k c l r, t = fill k (Fork c l a r) ∧ before k ++ inorder l = l1 ∧ inorder r ++ after k = l2.
Proof using Type.
  revert l1 l2. induction t as [|c l IHl b r IHr]; intros l1 l2 E; cbn in E; [by destruct l1|].
  apply app_eq_inv in E as [(m & El & E)|(m & -> & E)].
  - destruct m as [|x m]; cbn in E.
    + injection E as -> ->. exists [], c, l, r. rewrite El, !app_nil_r. done.
    + injection E as -> ->. destruct (IHl l1 m El) as (k & c' & l' & r' & -> & E1 & E2).
      exists (k ++ [Frame LeftSide c b r]), c', l', r'. rewrite fill_app. split; [done|].
      destruct (snoc_path k (Frame LeftSide c b r)) as [-> ->]. cbn. rewrite app_nil_r. split; [done|]. by rewrite app_assoc, E2.
  - destruct m as [|x m]; cbn in E.
    + injection E as -> <-. exists [], c, l, r. cbn. rewrite !app_nil_r. done.
    + injection E as -> E. destruct (IHr m l2 E) as (k & c' & l' & r' & -> & E1 & E2).
      exists (k ++ [Frame RightSide c x l]), c', l', r'. rewrite fill_app. split; [done|].
      destruct (snoc_path k (Frame RightSide c x l)) as [-> ->]. cbn. rewrite app_nil_r, <-E1, <-!app_assoc. done.
Qed.

(** The value leaves its node, which keeps its place. *)
Lemma remove_value_ok tree n pv v wanted w :
  rb_params tree → n_value n = Some (pv, Some v) →
  ∃ out sl w', remove_value tree n wanted w = Some ((STL_OK, out, Some sl), w') ∧
    (x ← out; x) = (if wanted then Some v else None) ∧ w_malloc w' = w_malloc w ∧ w_blocks w' = w_blocks w ∧
    w_objects w' = w_objects w - (if wanted then 0 else owned (rb_value_type tree)).
Proof using Type.
  intros Hp Hv. unfold remove_value. rewrite Hv. apply value_leaves, Hp.
Qed.

(** A subtree whose nodes are as they were. *)
Lemma located_on tree tree' t :
  rb_root tree' = rb_root tree → (∀ a, a ∈ inorder t → same_links_at (rb_nodes tree) (rb_nodes tree') a) → located tree [] t → located tree' [] t.
Proof using Type. intros Hr Hs [Hk Ht Hd]. split; [cbn in *; by rewrite Hr|by eapply repr_same|done]. Qed.

Lemma contents_dom (h h' : gmap Z (rbtree_node K V)) :
  (∀ b, (λ n, (n_key n, n_value n)) <$> h' !! b = (λ n, (n_key n, n_value n)) <$> h !! b) → dom h' = dom h.
Proof using Type.
  intros Hs. apply set_eq. intros b. rewrite !elem_of_dom. specialize (Hs b). destruct (h' !! b), (h !! b); try done; split; by intros [].
Qed.

(** What the tree holds after the node is unlinked and its block is free. *)
Record removed tree t (a : Z) es1 es2 tree' t' : Prop := {
  rd_ok : rb_ok tree' t' (es1 ++ es2);
  rd_config : same_config tree tree';
  rd_order : inorder t' = filter (λ b, b ≠ a) (inorder t)
}.

Lemma unlink_steps tree t es a es1 e es2 sl pv n :
  rb_ok tree t es → at_entry tree t es a es1 e es2 → rb_nodes tree !! a = Some n → n_value n = Some (pv, Some e.2) →
  ∃ tree1 tree2 tree3 n3 t', update tree (Some a) (with_value (Some (pv, sl))) = Some tree1 ∧ unlink_node tree1 (Some a) = Some tree2 ∧
    unthread_node tree2 (Some a) = Some tree3 ∧ rb_nodes tree3 !! a = Some n3 ∧ n_key n3 = n_key n ∧ n_value n3 = Some (pv, sl) ∧
    same_config tree tree3 ∧ rb_size tree3 = rb_size tree ∧
    removed tree t a es1 es2 (with_size (with_nodes tree3 (delete a (rb_nodes tree3))) (u64 (rb_size tree3 - 1))) t'.
Proof using KeyOrder0.
  intros [Hp HL Hdom [m Hm] Hch Hcon Hs Hsz Hlim] (Es & l1 & l2 & El & C1 & He & C2) Hn Hv.
  destruct (update_at tree a (with_value (Some (pv, sl))) n Hn) as (tree1 & E1 & R1 & A1 & O1 & _). exists tree1.
  assert (tree1 = with_nodes tree (<[a := with_value (Some (pv, sl)) n]> (rb_nodes tree))) as ET
    by (rewrite (update_run _ _ _ _ Hn) in E1; by injection E1).
  assert (same_config tree tree1) as Hcfg1 by (rewrite ET; by destruct tree).
  assert (∀ b, same_links_at (rb_nodes tree) (rb_nodes tree1) b) as Hl1.
  { intros b. unfold same_links_at. destruct (decide (b = a)) as [->|]; [by rewrite A1, Hn|by rewrite O1]. }
  assert (chained tree1 (l1 ++ a :: l2)) as Hch1.
  { rewrite <-El. destruct Hch as (Hc & Hh & Htl). split; [|by rewrite ET]. eapply chain_same; [|exact Hc]. intros b _.
    destruct (decide (b = a)) as [->|]; [by rewrite A1, Hn|by rewrite O1]. }
  destruct (position t l1 a l2 El) as (k & c & l & r & Et & Eb & Ea).
  assert (located tree1 k (Fork c l a r)) as HL1 by (apply located_fill; rewrite <-Et; by apply (located_same tree)).
  rewrite Et in Hm. destruct (unlink_ok tree1 k c l a r m HL1 Hm) as (tree2 & t2 & m2 & E2 & L2 & O2 & R2 & S2). exists tree2.
  rewrite (app_assoc (before k)), Eb, Ea in O2.
  assert (NoDup (l1 ++ a :: l2)) as Hd by (rewrite <-El; apply (lo_nodup _ _ _ HL)).
  pose proof (rest_dom _ _ S2) as D2.
  assert (dom (rb_nodes tree2) = {[a]} ∪ list_to_set (l1 ++ l2)) as D2'.
  { rewrite D2, ET. cbn. rewrite dom_insert_L, Hdom, El. set_solver. }
  destruct (unthread_ok tree2 l1 a l2) as (tree3 & E3 & U3); [by apply (rest_chained tree1)|done|apply elem_of_dom; rewrite D2'; set_solver|].
  exists tree3. destruct U3 as [U3c U3l U3k U3r U3s].
  assert (∃ n3, rb_nodes tree3 !! a = Some n3 ∧ n_key n3 = n_key n ∧ n_value n3 = Some (pv, sl)) as (n3 & Hn3 & Hk3 & Hv3).
  { specialize (U3k a). destruct S2 as [_ Hpay]. specialize (Hpay a). rewrite A1 in Hpay. apply fmap_Some in Hpay as (n2 & Hn2 & Ep).
    injection Ep as _ _ Ek Ev. rewrite Hn2 in U3k. apply fmap_Some in U3k as (n3 & Hn3 & E). cbn in E. injection E as E4 E5. exists n3. split; [done|].
    split; congruence. }
  exists n3, t2. split; [done|]. split; [done|]. split; [done|]. split; [done|]. split; [done|]. split; [done|].
  assert (same_config tree tree3) as Hcfg by (rewrite Hcfg1, (rest_config _ _ S2); by apply settings_config).
  assert (rb_size tree3 = rb_size tree) as Esz.
  { destruct S2 as [S2 _]. unfold same_record, same_settings in *. by rewrite U3s, S2, ET. }
  assert (∀ b, b ∈ l1 ++ l2 → b ≠ a) as Nb.
  { intros b Hb ->. rewrite <-Permutation_middle in Hd. by apply NoDup_cons in Hd as [? _]. }
  split; [done|]. split; [done|]. split; [|rewrite Hcfg; by destruct tree|]; cycle 1.
  { rewrite O2, El, filter_app, filter_cons, decide_False by tauto. rewrite !filter_all; [done|..]; intros b Hb; apply Nb; set_solver. }
  assert (rb_size tree3 - 1 = alen (es1 ++ es2)) as Ealen by (rewrite Esz, Hsz, Es; unfold alen; rewrite !length_app; cbn; lia).
  assert (∀ l' es', contents (rb_nodes tree) l' es' → (∀ b, b ∈ l' → b ∈ l1 ++ l2) → contents (delete a (rb_nodes tree3)) l' es') as Hkeep.
  { intros l' es' HC Hin. assert (contents (rb_nodes tree1) l' es') as HC1.
    { eapply contents_same; [|exact HC]. intros b Hb. rewrite O1; [done|]. by apply Nb, Hin. }
    apply (rest_contents _ _ _ _ S2) in HC1. eapply contents_same; [|exact HC1]. intros b Hb. rewrite lookup_delete_ne; [apply U3k|]. by apply not_eq_sym, Nb, Hin. }
  split; cbn.
  - apply (config_params tree); [rewrite Hcfg; by destruct tree|done].
  - eapply (located_on tree2); [done| |exact L2]. intros b Hb. rewrite O2 in Hb. cbn. unfold same_links_at. rewrite lookup_delete_ne; [apply U3l|].
    by apply not_eq_sym, Nb.
  - rewrite dom_delete_L, (contents_dom _ _ U3k), D2', O2. apply set_eq. intros b. rewrite elem_of_difference, elem_of_union, elem_of_singleton, elem_of_list_to_set.
    split; [tauto|]. intros Hb. split; [by right|by apply Nb].
  - by exists m2.
  - rewrite O2. exact U3c.
  - rewrite O2. apply Forall2_app; apply Hkeep; try done; set_solver.
  - assert (rb_allow_duplicates tree3 = rb_allow_duplicates tree) as -> by (by rewrite Hcfg). rewrite Es in Hs. by eapply sorted_delete.
  - rewrite Ealen. apply u64_id. pose proof (rp_limit _ Hp). rewrite Es in Hlim. unfold is_u64, SIZE_MAX, alen in *. rewrite !length_app in *. cbn in Hlim. lia.
  - assert (rb_element_limit tree3 = rb_element_limit tree) as -> by (by rewrite Hcfg). rewrite Es in Hlim. unfold alen in *. rewrite !length_app in *. cbn in Hlim. lia.
Qed.

Lemma remove_node_ok tree t es a es1 e es2 wanted w :
  rb_ok tree t es → at_entry tree t es a es1 e es2 →
  ∃ tree' t' w', rbtree_remove_node (Some tree) (Some a) wanted w =
      Some ((STL_OK, if wanted then Some e.2 else None, Some tree'), w') ∧
    removed tree t a es1 es2 tree' t' ∧ w_malloc w' = w_malloc w ∧ w_blocks w' = w_blocks w - 3 ∧
    w_objects w' = w_objects w - entry_objects tree + (if wanted then owned (rb_value_type tree) else 0).
Proof using KeyOrder0.
  intros H Hat. pose proof Hat as (Es & l1 & l2 & El & C1 & (n & Hn & Hk & Hv) & C2). pose proof (ro_params _ _ _ H) as Hp.
  unfold key_of in Hk. unfold value_of in Hv. destruct (n_key n) as [[pk sk]|] eqn:Ek; [|done]. destruct (n_value n) as [[pv sv]|] eqn:Ev; [|done].
  cbn in Hk, Hv. subst sk sv. unfold rbtree_remove_node. rewrite (node_at_run _ _ _ Hn). wrun.
  destruct (remove_value_ok tree n pv e.2 wanted w Hp Ev) as (out & sl & w1 & E1 & Hout & Hm1 & Hb1 & Ho1). wstep E1.
  rewrite bool_decide_true by done. cbn [negb]. rewrite Ev. cbn [mbind option_bind fst].
  destruct (unlink_steps tree t es a es1 e es2 sl pv n H Hat Hn Ev) as (tree1 & tree2 & tree3 & n3 & t' & -> & E2 & E3 & Hn3 & Hk3 & Hv3 & Hcfg & Esz & Hrem).
  wrun. rewrite E2. wrun. rewrite E3. wrun. rewrite (node_at_run _ _ _ Hn3). wrun.
  assert (rb_key_type tree3 = rb_key_type tree) as -> by (by rewrite Hcfg). rewrite Hk3, Ek, Hv3.
  destruct (destroy_object_ok _ (rp_ktype _ Hp) pk e.1 w1) as (w2 & E4 & Hm2 & Hb2 & Ho2). wstep E4.
  change (fst <$> Some (pv, sl)) with (Some pv).
  destruct (deallocate_run (Some pv) w2) as (w3 & E5 & Hm3 & Ho3 & Hb3). cbn [is_null] in Hb3. wstep E5.
  unfold free_node. do 3 eexists. split; [|split; [exact Hrem|]].
  { unfold mbind at 1, M_bind at 1. unfold mbind at 1, M_bind at 1. cbn [mfree]. unfold mret, M_ret. rewrite <-Hout. reflexivity. }
  cbn. unfold entry_objects. split; [congruence|]. destruct wanted; lia.
Qed.

(** C4. [rbtree_remove_node] takes the entry of its node out of the sorted
    list: it hands the value over if the caller wants it and destroys it
    otherwise, leaves a red-black tree with the remaining nodes chained in key
    order, gives back the three blocks and the objects of the entry, and cannot
    fail. The other nodes stay where they are. *)
Theorem rbtree_remove_exact tree t es a es1 e es2 wanted w :
  rb_ok tree t es → at_entry tree t es a es1 e es2 →
  ∃ tree' t' w', rbtree_remove_node (Some tree) (Some a) wanted w =
      Some ((STL_OK, if wanted then Some e.2 else None, Some tree'), w') ∧
    removed tree t a es1 es2 tree' t' ∧ w_malloc w' = w_malloc w ∧ w_blocks w' = w_blocks w - 3 ∧
    w_objects w' = w_objects w - entry_objects tree + (if wanted then owned (rb_value_type tree) else 0).
Proof using KeyOrder0. apply remove_node_ok. Qed.

(** ** Clearing *)

Lemma clear_loop_ok l : ∀ fuel tree prev es w,
  rb_params tree → chain (rb_nodes tree) prev l None → NoDup l → contents (rb_nodes tree) l es → (length l < fuel)%nat →
  ∃ h w', clear_loop fuel tree (first l None) w = Some (with_nodes tree h, w') ∧ dom h = dom (rb_nodes tree) ∖ list_to_set l ∧
    w_malloc w' = w_malloc w ∧ w_blocks w' = w_blocks w - 3 * alen es ∧ w_objects w' = w_objects w - entry_objects tree * alen es.
Proof using KeyOrder0.
  induction l as [|a l IH]; intros fuel tree prev es w Hp Hc Hd Hcon Hf; (destruct fuel as [|fuel]; [lia|]); cbn [clear_loop first].
  { apply Forall2_nil_inv_l in Hcon as ->. exists (rb_nodes tree), w. split; [by destruct tree|]. split; [set_solver|]. split; [done|]. unfold alen. cbn. lia. }
  destruct Hc as ((n & Hn & _ & Hx) & Hc). apply NoDup_cons in Hd as [Na Hd].
  apply Forall2_cons_inv_l in Hcon as (e & es' & (n' & Hn' & Hk & Hv) & Hcon & ->). assert (n' = n) as -> by congruence.
  unfold key_of in Hk. unfold value_of in Hv. destruct (n_key n) as [[pk sk]|] eqn:Ek; [|done]. destruct (n_value n) as [[pv sv]|] eqn:Ev; [|done].
  cbn in Hk, Hv. subst sk sv. rewrite (node_at_run _ _ _ Hn). wrun. rewrite Ek, Ev, Hx.
  destruct (destroy_object_ok _ (rp_ktype _ Hp) pk e.1 w) as (w1 & E1 & Hm1 & Hb1 & Ho1). wstep E1.
  destruct (destroy_object_ok _ (rp_vtype _ Hp) pv e.2 w1) as (w2 & E2 & Hm2 & Hb2 & Ho2). wstep E2.
  set (w3 := MkWorld (w_malloc w2) (w_blocks w2 - 1) (w_objects w2)).
  assert (free_node tree a w2 = Some (with_nodes tree (delete a (rb_nodes tree)), w3)) as E3 by done. wstep E3.
  assert (∀ b, b ∈ l → delete a (rb_nodes tree) !! b = rb_nodes tree !! b) as Hdel by (intros b Hb; rewrite lookup_delete_ne; [done|by intros ->]).
  destruct (IH fuel (with_nodes tree (delete a (rb_nodes tree))) (Some a) es' w3) as (h & w' & E & Hdom & Hm & Hb & Ho).
  - destruct Hp. by split.
  - cbn. eapply chain_same; [|exact Hc]. intros b Hb. by rewrite Hdel.
  - done.
  - cbn. eapply contents_same; [|exact Hcon]. intros b Hb. by rewrite Hdel.
  - cbn in Hf. lia.
  - exists h, w'. split; [exact E|]. cbn in Hdom. rewrite dom_delete_L in Hdom. split; [rewrite Hdom; cbn; set_solver|].
    unfold alen in *. cbn in *. unfold entry_objects in *. cbn in *. split; [congruence|]. lia.
Qed.

Definition cleared tree : rbtree_t K V := with_size (with_ends (with_root (with_nodes tree ∅) None) None None) 0.

Lemma clear_ok tree t es w :
  rb_ok tree t es →
  ∃ w', rbtree_clear (Some tree) w = Some (Some (cleared tree), w') ∧ rb_ok (cleared tree) Nil [] ∧ same_config tree (cleared tree) ∧
    w_malloc w' = w_malloc w ∧ w_blocks w' = w_blocks w - 3 * alen es ∧ w_objects w' = w_objects w - entry_objects tree * alen es.
Proof using KeyOrder0.
  intros [Hp HL Hdom Hm (Hc & Hh & Htl) Hcon Hs Hsz Hlim]. unfold rbtree_clear. rewrite Hh.
  pose proof (located_fuel _ _ _ HL (located_dom _ _ _ HL)) as Hf. cbn [fill] in Hf.
  destruct (clear_loop_ok (inorder t) (node_fuel tree) tree None es w Hp Hc (lo_nodup _ _ _ HL) Hcon Hf) as (h & w' & E & Hd & Hm' & Hb & Ho).
  wstep E. assert (h = ∅) as -> by (apply dom_empty_inv_L; rewrite Hd, Hdom; set_solver). exists w'. split; [done|]. split; [|by destruct tree].
  split; cbn; try done.
  - destruct Hp. by split.
  - split; cbn; [done|done|constructor].
  - by exists O.
  - constructor.
  - constructor.
  - unfold alen in *. cbn. lia.
Qed.

Lemma destroy_tree_ok tree t es w :
  rb_ok tree t es →
  ∃ w', rbtree_destroy (Some tree) w = Some (tt, w') ∧ w_malloc w' = w_malloc w ∧ w_blocks w' = w_blocks w - 3 * alen es - 1 ∧
    w_objects w' = w_objects w - entry_objects tree * alen es.
Proof using KeyOrder0.
  intros H. destruct (clear_ok tree t es w H) as (w1 & E & _ & _ & Hm & Hb & Ho). unfold rbtree_destroy. wstep E.
  eexists. split; [done|]. cbn. split; [done|]. lia.
Qed.

(** ** Creation *)

(** The comparison a tree is created with. *)
Definition compare_given (kt : option (cmeta_type_desc K)) (compare : option (K → K → Z)) : Prop :=
  match kt with
  | Some t => ∃ tr, ty_traits t = Some tr ∧ tr_compare tr = Some cmp
  | None => compare = Some cmp
  end.

(** A created tree is empty; a failed call allocates nothing. *)
Lemma rb_create_ok kt vt ks ka vs va limit compare dup w :
  is_u64 ks → is_u64 ka → is_u64 vs → is_u64 va → is_u64 limit → type_ok kt → type_ok vt → compare_given kt compare →
  ∃ st r w', rbtree_create true kt vt ks ka vs va limit compare dup w = Some ((st, r), w') ∧
    (if bool_decide (st = STL_OK) then
       ∃ tree, r = Some tree ∧ rb_ok tree Nil [] ∧ rb_element_limit tree = limit ∧ rb_allow_duplicates tree = dup ∧
         rb_key_type tree = kt ∧ rb_value_type tree = vt ∧ rb_key_align tree = ka ∧ rb_value_align tree = va ∧
         sequence_stride ks ka = (STL_OK, Some (rb_key_stride tree)) ∧ sequence_stride vs va = (STL_OK, Some (rb_value_stride tree)) ∧
         w_blocks w' = w_blocks w + 1 ∧ w_objects w' = w_objects w
     else r = None ∧ w_same w w') ∧
    (∀ n a, mallocs (S n) a w → mallocs n a w') ∧
    (∀ n a, (sequence_stride ks ka).1 = STL_OK → (sequence_stride vs va).1 = STL_OK → mallocs (S n) a w → st = STL_OK).
Proof using KeyOrder0.
  intros Hks Hka Hvs Hva Hlim Hkt Hvt Hcmp. unfold rbtree_create. destruct (_ || _) eqn:Hg.
  { do 3 eexists. split; [done|]. rewrite bool_decide_false by done. split; [done|]. split; [intros n a; apply mallocs_le; lia|].
    intros _ _ Hk Hv _. exfalso. apply orb_prop in Hg as [Hg|Hg]; apply andb_prop in Hg as [Hg1 Hg2].
    - apply Z.eqb_eq in Hg2 as ->. done.
    - destruct kt; [done|]. cbn in Hcmp. by subst compare. }
  destruct (sequence_stride ks ka) as [st1 o1] eqn:E1.
  destruct (stride_range _ _ _ _ Hks Hka E1) as [[-> (x & -> & Hx & Hk0 & Hkv)]|[Hn ->]]; cycle 1.
  { exists st1, None, w. rewrite bool_decide_false by done. split; [by destruct st1|]. split; [done|]. split; [intros n a; apply mallocs_le; lia|by intros]. }
  destruct (sequence_stride vs va) as [st2 o2] eqn:E2.
  destruct (stride_range _ _ _ _ Hvs Hva E2) as [[-> (y & -> & Hy & Hv0 & Hvv)]|[Hn ->]]; cycle 1.
  { exists st2, None, w. rewrite bool_decide_false by done. split; [by destruct st2|]. split; [done|]. split; [intros n a; apply mallocs_le; lia|by intros]. }
  destruct (malloc_ok w) as (block & w0 & E0 & Hb0 & Ho0 & _). wstep E0.
  assert (∀ n a, mallocs (S n) a w → mallocs n a w0 ∧ is_Some block) as Hm0.
  { intros n a Hm. destruct (malloc_supplied _ _ _ Hm) as (p & w' & E & Hm' & _). rewrite E0 in E. by simplify_eq. }
  destruct block as [b|]; cbn [is_null] in Hb0.
  - do 3 eexists. split; [done|]. split; [|split; [by intros n a [? _]%Hm0|done]]. rewrite bool_decide_true by done. eexists. split; [done|]. split; [|done].
    split; cbn; try done.
    + split; cbn; try done; [unfold is_u64, SIZE_MAX in *; lia|]. unfold rbtree_compare_fn. cbn.
      destruct kt as [kt|]; [|done]. destruct Hcmp as (tr & -> & Hc). exact Hc.
    + split; cbn; [done|done|constructor].
    + by exists O.
    + constructor.
    + constructor.
    + unfold is_u64, alen in *. cbn. lia.
  - do 3 eexists. split; [done|]. rewrite bool_decide_false by done. split; [split; [done|]; split; lia|].
    split; [by intros n a [? _]%Hm0|]. intros n a _ _ Hm. by destruct (Hm0 n a Hm) as [_ []].
Qed.
End Tree.
