(* ===== verification/OrdMap.v ===== *)
(** * The ordered maps ([cstl/src/map.c], [cstl/src/multimap.c])

    The handles, operations and iterators of the ordered map and multimap over
    the red-black tree, with the typed entry points of [map.h] and
    [multimap.h]. The two differ in whether the tree allows equal keys; what
    [multimap.c] repeats from [map.c] is defined once for both, with a flag. *)

From stdpp Require Import gmap.
From S2P Require Import Prelude World Sequence RbTree.
Local Open Scope Z_scope.

(** The handle of both: the container descriptor, the bound types, the tree
    and the generation. *)
Record map_t (K V : Type) := MkMap {
  mp_descriptor : option Z;
  mp_key_type : option (cmeta_type_desc K);
  mp_value_type : option (cmeta_type_desc V);
  mp_impl : option (rbtree_t K V);
  mp_generation : Z
}.
#[global] Arguments MkMap {K V} _ _ _ _ _.
#[global] Arguments mp_descriptor {K V} _.
#[global] Arguments mp_key_type {K V} _.
#[global] Arguments mp_value_type {K V} _.
#[global] Arguments mp_impl {K V} _.
#[global] Arguments mp_generation {K V} _.

Section Handle.
Context {K V : Type} {AL : Allocator}.
Implicit Types (m : map_t K V) (map : option (map_t K V)).

Definition map_tree map : option (rbtree_t K V) := m ← map; mp_impl m.

Definition with_impl m (tree : option (rbtree_t K V)) : map_t K V :=
  MkMap (mp_descriptor m) (mp_key_type m) (mp_value_type m) tree (mp_generation m).
(** [++map->generation]. *)
Definition map_bump m : map_t K V :=
  MkMap (mp_descriptor m) (mp_key_type m) (mp_value_type m) (mp_impl m) (u64 (mp_generation m + 1)).
(** [map_t temporary = {0}]. *)
Definition map_zero : map_t K V := MkMap None None None None 0.

(** ** Creation *)

(** [map_initialize] and [multimap_initialize]. *)
Definition map_initialize (dup : bool) map (key_type : option (cmeta_type_desc K)) (value_type : option (cmeta_type_desc V))
    (key_size key_align value_size value_align entry_limit : Z) (compare : option (K → K → Z)) :
    M (stl_status * option (map_t K V)) :=
  match map with
  | None => mret (STL_INVALID_ARGUMENT, map)
  | Some m =>
      if negb (is_null (mp_impl m)) then mret (STL_INVALID_ARGUMENT, map) else
      '(status, tree) ← rbtree_create true key_type value_type key_size key_align value_size value_align
        entry_limit compare dup;
      if negb (bool_decide (status = STL_OK)) then mret (status, map) else
      mret (STL_OK, Some (map_bump (with_impl m tree)))
  end.

Definition map_raw_init (dup : bool) map (key_type : option (cmeta_type_desc K)) (value_type : option (cmeta_type_desc V))
    (entry_limit : Z) : M (stl_status * option (map_t K V)) :=
  match map with
  | None => mret (STL_INVALID_ARGUMENT, map)
  | Some m =>
      if negb (is_null (mp_impl m)) then mret (STL_INVALID_ARGUMENT, map) else
      let status := sequence_require_type key_type true in
      if negb (bool_decide (status = STL_OK)) then mret (status, map) else
      let status := sequence_require_type value_type false in
      if negb (bool_decide (status = STL_OK)) then mret (status, map) else
      kt ← lift key_type; vt ← lift value_type;
      map_initialize dup map key_type value_type (ty_size kt) (ty_align kt) (ty_size vt) (ty_align vt) entry_limit None
  end.

Definition map_init_bytes (dup : bool) map (key_size key_align value_size value_align entry_limit : Z)
    (compare : option (K → K → Z)) : M (stl_status * option (map_t K V)) :=
  if is_null compare then mret (STL_INVALID_ARGUMENT, map) else
  map_initialize dup map None None key_size key_align value_size value_align entry_limit compare.

(** ** Operations *)

Definition map_raw_destroy_storage map : M (option (map_t K V)) :=
  match map with
  | None => mret None
  | Some m =>
      if is_null (mp_impl m) then mret map else
      _ ← rbtree_destroy (mp_impl m);
      mret (Some (map_bump (with_impl m None)))
  end.

Definition map_clear map : M (option (map_t K V)) :=
  match map with
  | None => mret None
  | Some m =>
      match mp_impl m with
      | None => mret map
      | Some tree =>
          if rb_size tree =? 0 then mret map else
          tree ← rbtree_clear (Some tree);
          mret (Some (map_bump (with_impl m tree)))
      end
  end.

Definition map_put map (key : option K) (value : option V) : M (stl_status * option (map_t K V)) :=
  match map with
  | None => mret (STL_INVALID_ARGUMENT, map)
  | Some m =>
      if is_null (mp_impl m) then mret (STL_INVALID_ARGUMENT, map) else
      '(status, _, tree) ← rbtree_put (mp_impl m) key value;
      let m := with_impl m tree in
      mret (status, Some (if bool_decide (status = STL_OK) then map_bump m else m))
  end.

(** The value of the node that is found: its address and memory. *)
Definition map_get map (key : option K) : option (object V) :=
  node ← rbtree_find (map_tree map) key;
  match node with
  | None => Some None
  | Some _ => tree ← map_tree map; n ← node_at tree node; Some (n_value n)
  end.

Definition map_get_const map (key : option K) : option (object V) := map_get map key.

Definition map_contains map (key : option K) : option bool :=
  node ← rbtree_find (map_tree map) key; Some (negb (is_null node)).

(** [wanted]: whether the caller passes memory for the value. *)
Definition map_remove map (key : option K) (wanted : bool) : M (stl_status * option V * option (map_t K V)) :=
  match map with
  | None => mret (STL_INVALID_ARGUMENT, None, map)
  | Some m =>
      if is_null (mp_impl m) || is_null key then mret (STL_INVALID_ARGUMENT, None, map) else
      node ← lift (rbtree_find (mp_impl m) key);
      if is_null node then mret (STL_NOT_FOUND, None, map) else
      '(status, out, tree) ← rbtree_remove_node (mp_impl m) node wanted;
      let m := with_impl m tree in
      mret (status, out, Some (if bool_decide (status = STL_OK) then map_bump m else m))
  end.

Definition map_size map : Z := match map_tree map with None => 0 | Some tree => rb_size tree end.
Definition map_entry_limit map : Z := match map_tree map with None => 0 | Some tree => rb_element_limit tree end.
Definition map_generation map : Z := match map with None => 0 | Some m => mp_generation m end.
Definition map_empty map : bool := map_size map =? 0.

(** ** Operations of the multimap alone *)

(** The steps from [node] to [end]. *)
Fixpoint count_loop (fuel : nat) (tree : rbtree_t K V) (node stop : ptr) (count : Z) : option Z :=
  match fuel with
  | O => None
  | S fuel =>
      if bool_decide (node = stop) then Some count else
      n ← node_at tree node;
      count_loop fuel tree (n_next n) stop (u64 (count + 1))
  end.

Definition multimap_count map (key : option K) : option Z :=
  match map_tree map, key with
  | Some tree, Some _ =>
      node ← rbtree_lower_bound (Some tree) key;
      stop ← rbtree_upper_bound (Some tree) key;
      count_loop (node_fuel tree) tree node stop 0
  | _, _ => Some 0
  end.

Definition multimap_remove map (key : option K) (wanted : bool) : M (bool * option V * option (map_t K V)) :=
  match map, map_tree map, key with
  | Some m, Some tree, Some _ =>
      first ← lift (rbtree_lower_bound (Some tree) key);
      stop ← lift (rbtree_upper_bound (Some tree) key);
      if bool_decide (first = stop) then mret (false, None, map) else
      node ← lift (match stop with None => Some (rb_tail tree) | Some _ => n ← node_at tree stop; Some (n_previous n) end);
      '(status, out, tree) ← rbtree_remove_node (Some tree) node wanted;
      if negb (bool_decide (status = STL_OK)) then mret (false, None, Some (with_impl m tree)) else
      mret (true, out, Some (map_bump (with_impl m tree)))
  | _, _, _ => mret (false, None, map)
  end.

Fixpoint erase_loop (fuel : nat) (tree : option (rbtree_t K V)) (node stop : ptr) (removed : Z) :
    M (option (rbtree_t K V) * Z) :=
  match fuel with
  | O => lift None
  | S fuel =>
      if bool_decide (node = stop) then mret (tree, removed) else
      t ← lift tree;
      n ← lift (node_at t node);
      '(status, _, tree) ← rbtree_remove_node tree node false;
      if negb (bool_decide (status = STL_OK)) then mret (tree, removed) else
      erase_loop fuel tree (n_next n) stop (u64 (removed + 1))
  end.

Definition multimap_erase map (key : option K) : M (Z * option (map_t K V)) :=
  match map, map_tree map, key with
  | Some m, Some tree, Some _ =>
      node ← lift (rbtree_lower_bound (Some tree) key);
      stop ← lift (rbtree_upper_bound (Some tree) key);
      '(tree, removed) ← erase_loop (node_fuel tree) (Some tree) node stop 0;
      let m := with_impl m tree in
      mret (removed, Some (if negb (removed =? 0) then map_bump m else m))
  | _, _, _ => mret (0, map)
  end.

(** ** Construction from arrays *)

(** Entries are put one by one; on a failure the tree is destroyed. *)
Fixpoint map_put_all (temporary : option (map_t K V)) (entries : list (K * V)) : M (stl_status * option (map_t K V)) :=
  match entries with
  | [] => mret (STL_OK, temporary)
  | (k, v) :: entries =>
      '(status, temporary) ← map_put temporary (Some k) (Some v);
      if negb (bool_decide (status = STL_OK)) then
        temporary ← map_raw_destroy_storage temporary; mret (status, temporary)
      else map_put_all temporary entries
  end.

(** The first [count] elements of the two arrays; reading past the end of one
    has no result. *)
Definition zip_arrays (keys : list K) (values : list V) (count : Z) : option (list (K * V)) :=
  if (alen keys <? count) || (alen values <? count) then None
  else Some (zip (take (Z.to_nat count) keys) (take (Z.to_nat count) values)).

(** [init]: the initialisation of [temporary] by type or by size. *)
Definition map_from_common map (keys : option (list K)) (values : option (list V)) (count key_size value_size : Z)
    (init : M (stl_status * option (map_t K V))) : M (stl_status * option (map_t K V)) :=
  match map with
  | None => mret (STL_INVALID_ARGUMENT, map)
  | Some m =>
      if negb (count =? 0) && (is_null keys || is_null values) then mret (STL_INVALID_ARGUMENT, map) else
      if negb (count =? 0) && ((SIZE_MAX / count <? key_size) || (SIZE_MAX / count <? value_size))
      then mret (STL_CAPACITY_EXCEEDED, map) else
      '(status, temporary) ← init;
      if negb (bool_decide (status = STL_OK)) then mret (status, map) else
      entries ← lift (zip_arrays (default [] keys) (default [] values) count);
      '(status, temporary) ← map_put_all temporary entries;
      if negb (bool_decide (status = STL_OK)) then mret (status, map) else
      temporary ← lift temporary;
      let generation := u64 (mp_generation m + 1) in
      _ ← (if negb (is_null (mp_impl m)) then rbtree_destroy (mp_impl m) else mret tt);
      mret (STL_OK, Some (MkMap (mp_descriptor temporary) (mp_key_type temporary) (mp_value_type temporary)
        (mp_impl temporary) generation))
  end.

Definition map_raw_from_arrays (dup : bool) map (keys : option (list K)) (values : option (list V)) (count : Z)
    (key_type : option (cmeta_type_desc K)) (value_type : option (cmeta_type_desc V)) (entry_limit : Z) :
    M (stl_status * option (map_t K V)) :=
  match key_type, value_type with
  | Some kt, Some vt =>
      map_from_common map keys values count (ty_size kt) (ty_size vt)
        (map_raw_init dup (Some map_zero) key_type value_type entry_limit)
  | _, _ => mret (STL_INVALID_ARGUMENT, map)
  end.

Definition map_from_arrays_bytes (dup : bool) map (keys : option (list K)) (values : option (list V))
    (count key_size key_align value_size value_align entry_limit : Z) (compare : option (K → K → Z)) :
    M (stl_status * option (map_t K V)) :=
  map_from_common map keys values count key_size value_size
    (map_init_bytes dup (Some map_zero) key_size key_align value_size value_align entry_limit compare).

(** ** The typed entry points ([map.h], [multimap.h]) *)

(** The bindings of a handle are restored after a call. *)
Definition rebind m (m' : map_t K V) : map_t K V :=
  MkMap (mp_descriptor m) (mp_key_type m) (mp_value_type m) (mp_impl m') (mp_generation m').

Definition map_init (dup : bool) map (entry_limit : Z) : M (stl_status * option (map_t K V)) :=
  match map with
  | None => mret (STL_INVALID_ARGUMENT, map)
  | Some m =>
      if is_null (mp_key_type m) || is_null (mp_value_type m) then mret (STL_INVALID_ARGUMENT, map) else
      '(status, map') ← map_raw_init dup map (mp_key_type m) (mp_value_type m) entry_limit;
      mret (status, rebind m <$> map')
  end.

Definition map_from_arrays (dup : bool) map (keys : option (list K)) (values : option (list V)) (count entry_limit : Z) :
    M (stl_status * option (map_t K V)) :=
  match map with
  | None => mret (STL_INVALID_ARGUMENT, map)
  | Some m =>
      if is_null (mp_key_type m) || is_null (mp_value_type m) then mret (STL_INVALID_ARGUMENT, map) else
      '(status, map') ← map_raw_from_arrays dup map keys values count (mp_key_type m) (mp_value_type m) entry_limit;
      mret (status, rebind m <$> map')
  end.

Definition map_destroy map : M (option (map_t K V)) :=
  match map with
  | None => mret map
  | Some m => map' ← map_raw_destroy_storage map; mret (rebind m <$> map')
  end.

(** ** Iterators *)

(** The handles in memory, by address: an iterator points to its owner. *)
Abbreviation memory := (gmap Z (map_t K V)).
Implicit Types (mem : memory).

Record map_iter_t := MkIter { it_owner : ptr; it_node : ptr }.

(** [map_tree_const] of a pointer to a handle. *)
Definition tree_at mem (p : ptr) : option (rbtree_t K V) := map_tree (a ← p; mem !! a).

Definition map_iterator (map node : ptr) : map_iter_t := MkIter map node.

Definition map_begin mem (map : ptr) : map_iter_t :=
  map_iterator map (match tree_at mem map with None => None | Some tree => rb_head tree end).

Definition map_end (map : ptr) : map_iter_t := map_iterator map None.

Definition map_lower_bound mem (map : ptr) (key : option K) : option map_iter_t :=
  node ← rbtree_lower_bound (tree_at mem map) key; Some (map_iterator map node).

Definition map_upper_bound mem (map : ptr) (key : option K) : option map_iter_t :=
  node ← rbtree_upper_bound (tree_at mem map) key; Some (map_iterator map node).

(** The status and the iterator. *)
Definition map_iter_next mem (iterator : option map_iter_t) : option (stl_status * option map_iter_t) :=
  match iterator with
  | None => Some (STL_NOT_FOUND, None)
  | Some it =>
      match tree_at mem (it_owner it), it_node it with
      | Some tree, Some _ => n ← node_at tree (it_node it); Some (STL_OK, Some (MkIter (it_owner it) (n_next n)))
      | _, _ => Some (STL_NOT_FOUND, iterator)
      end
  end.

Definition map_iter_prev mem (iterator : option map_iter_t) : option (stl_status * option map_iter_t) :=
  match iterator with
  | None => Some (STL_INVALID_ARGUMENT, None)
  | Some it =>
      match tree_at mem (it_owner it) with
      | None => Some (STL_INVALID_ARGUMENT, iterator)
      | Some tree =>
          if is_null (it_node it) then
            if is_null (rb_tail tree) then Some (STL_NOT_FOUND, iterator)
            else Some (STL_OK, Some (MkIter (it_owner it) (rb_tail tree)))
          else
            n ← node_at tree (it_node it);
            if is_null (n_previous n) then Some (STL_NOT_FOUND, iterator)
            else Some (STL_OK, Some (MkIter (it_owner it) (n_previous n)))
      end
  end.

Definition map_iter_equal (left right : map_iter_t) : bool :=
  bool_decide (it_owner left = it_owner right) && bool_decide (it_node left = it_node right).

(** The object the iterator stands at; a null pointer behind the last entry. *)
Definition map_iter_key_const mem (it : map_iter_t) : option (object K) :=
  match tree_at mem (it_owner it), it_node it with
  | Some tree, Some _ => n ← node_at tree (it_node it); Some (n_key n)
  | _, _ => Some None
  end.

Definition map_iter_value mem (it : map_iter_t) : option (object V) :=
  match tree_at mem (it_owner it), it_node it with
  | Some tree, Some _ => n ← node_at tree (it_node it); Some (n_value n)
  | _, _ => Some None
  end.

Definition map_iter_value_const mem (it : map_iter_t) : option (object V) := map_iter_value mem it.

(** The cursor of a range: [state[0]] is a node, [state[1]] the map. *)
Record cmeta_range_cursor := MkCursor { cu_node : ptr; cu_map : ptr }.

(** [None] inside: false. Otherwise the key, the value and the cursor. *)
Definition map_range_next mem (map : ptr) (cursor : cmeta_range_cursor) :
    option (option (object K * object V) * cmeta_range_cursor) :=
  match tree_at mem map with
  | None => Some (None, cursor)
  | Some tree =>
      if negb (is_null (cu_map cursor)) && negb (bool_decide (cu_map cursor = map)) then Some (None, cursor) else
      let node := if is_null (cu_map cursor) then rb_head tree else cu_node cursor in
      match node with
      | None => Some (None, MkCursor (cu_node cursor) map)
      | Some _ => n ← node_at tree node; Some (Some (n_key n, n_value n), MkCursor (n_next n) map)
      end
  end.

(** ** What [multimap.c] repeats for trees with equal keys *)

Definition multimap_t := map_t K V.
Definition multimap_tree := map_tree.
Definition multimap_initialize := map_initialize true.
Definition multimap_raw_init := map_raw_init true.
Definition multimap_init_bytes := map_init_bytes true.
Definition multimap_from_common := map_from_common.
Definition multimap_raw_from_arrays := map_raw_from_arrays true.
Definition multimap_from_arrays_bytes := map_from_arrays_bytes true.
Definition multimap_raw_destroy_storage := map_raw_destroy_storage.
Definition multimap_clear := map_clear.
Definition multimap_put := map_put.
Definition multimap_contains := map_contains.
Definition multimap_size := map_size.
Definition multimap_element_limit := map_entry_limit.
Definition multimap_generation := map_generation.
Definition multimap_empty := map_empty.
Definition multimap_init := map_init true.
Definition multimap_from_arrays := map_from_arrays true.
Definition multimap_destroy := map_destroy.
Definition multimap_iter_t := map_iter_t.
Definition multimap_iterator := map_iterator.
Definition multimap_begin := map_begin.
Definition multimap_end := map_end.
Definition multimap_lower_bound := map_lower_bound.
Definition multimap_upper_bound := map_upper_bound.
Definition multimap_iter_next := map_iter_next.
Definition multimap_iter_prev := map_iter_prev.
Definition multimap_iter_equal := map_iter_equal.
Definition multimap_iter_key_const := map_iter_key_const.
Definition multimap_iter_value := map_iter_value.
Definition multimap_iter_value_const := map_iter_value_const.
Definition multimap_range_next := map_range_next.
End Handle.
