(* ===== verification/OrdMapSpec.v ===== *)
(** * The ordered maps ([cstl/src/map.c], [cstl/src/multimap.c]): refinement

    Every operation of the ordered map and of the multimap is the operation on
    the sorted list of entries; iterators walk that list. *)

From stdpp Require Import gmap.
From S2P Require Import Prelude World Sequence RbTree RbShape RbInsert RbDelete RbOrder RbChain RbSpec OrdMap.
Local Open Scope Z_scope.

Section Spec.
Context {K V : Type} {AL : Allocator} (cmp : K → K → Z) `{!KeyOrder cmp}.
Implicit Types (m : map_t K V) (es : list (K * V)) (tree : rbtree_t K V).

(** A live handle with the entries [es]. *)
Definition map_holds (dup : bool) m es : Prop :=
  ∃ tree t, mp_impl m = Some tree ∧ rb_ok cmp tree t es ∧ rb_allow_duplicates tree = dup.

(** Blocks and objects a handle owns: the tree and its entries. *)
Definition map_blocks m es : Z := match mp_impl m with None => 0 | Some _ => 1 + 3 * alen es end.
Definition map_objects m es : Z := match mp_impl m with None => 0 | Some tree => entry_objects tree * alen es end.

(** The settings of the tree. *)
Definition same_tree m m' : Prop :=
  mp_descriptor m' = mp_descriptor m ∧ mp_key_type m' = mp_key_type m ∧ mp_value_type m' = mp_value_type m ∧
  ∃ tree tree', mp_impl m = Some tree ∧ mp_impl m' = Some tree' ∧ same_config tree tree'.

(** ** The operations of a map *)

Inductive map_op := MPut (k : K) (v : V) | MRemove (k : K) (wanted : bool) | MClear.

(** The call: its status, the value handed out, the map. *)
Definition map_exec (op : map_op) m : M (stl_status * option V * option (map_t K V)) :=
  match op with
  | MPut k v => '(st, map) ← map_put (Some m) (Some k) (Some v); mret (st, None, map)
  | MRemove k wanted => map_remove (Some m) (Some k) wanted
  | MClear => map ← map_clear (Some m); mret (STL_OK, None, map)
  end.

(** The same on a sorted list of entries. *)
Definition list_exec (limit : Z) (dup : bool) (op : map_op) es : stl_status * option V * list (K * V) :=
  match op with
  | MPut k v => let '(st, _, es') := put_spec cmp limit dup k v es in (st, None, es')
  | MRemove k wanted =>
      match same cmp k es with
      | [] => (STL_NOT_FOUND, None, es)
      | e :: _ => (STL_OK, if wanted then Some e.2 else None, lower cmp k es ++ upper cmp k es)
      end
  | MClear => (STL_OK, None, [])
  end.

(** Whether a call counts as a modification. *)
Definition modifies (op : map_op) (st : stl_status) es : bool :=
  match op with
  | MClear => negb (bool_decide (es = []))
  | _ => bool_decide (st = STL_OK)
  end.

Definition op_fits m (op : map_op) (w : world) : Prop :=
  match op with
  | MPut k v => ∀ tree, mp_impl m = Some tree → rb_roomy tree ∧ mallocs 3 (rb_align tree) w ∧
      copyable (rb_key_type tree) k ∧ copyable (rb_value_type tree) v
  | _ => True
  end.

Record map_post m es (op : map_op) (spec : stl_status * option V * list (K * V)) (dup : bool) (w : world)
    (st : stl_status) (out : option V) m' es' (w' : world) : Prop := {
  mpo_holds : map_holds dup m' es';
  mpo_same : same_tree m m';
  mpo_step : (st, out, es') = spec ∨ (spec.1.1 = STL_OK ∧ st ≠ STL_OK ∧ out = None ∧ es' = es);
  mpo_generation : mp_generation m' = if modifies op st es then u64 (mp_generation m + 1) else mp_generation m;
  mpo_blocks : w_blocks w' - map_blocks m' es' = w_blocks w - map_blocks m es;
  mpo_objects : w_objects w' - map_objects m' es' - (if is_null out then 0 else match mp_impl m with Some tree => owned (rb_value_type tree) | None => 0 end) =
    w_objects w - map_objects m es;
  mpo_enough : op_fits m op w → st = spec.1.1
}.

Lemma config_fields (tree tree' : rbtree_t K V) : same_config tree tree' →
  rb_allow_duplicates tree' = rb_allow_duplicates tree ∧ rb_element_limit tree' = rb_element_limit tree ∧
  rb_key_type tree' = rb_key_type tree ∧ rb_value_type tree' = rb_value_type tree.
Proof using Type. unfold same_config. by intros ->. Qed.

Lemma put_post_ok dup m es k v w :
  map_holds dup m es →
  ∃ st m' es' w', map_put (Some m) (Some k) (Some v) w = Some ((st, Some m'), w') ∧
    map_post m es (MPut k v) (list_exec (map_entry_limit (Some m)) dup (MPut k v) es) dup w st None m' es' w' ∧
    (∀ n a, mallocs (3 + n) a w → mallocs n a w').
Proof using KeyOrder0.
  intros (tree & t & Hm & H & Hd). unfold map_put. rewrite Hm. cbn [is_null].
  destruct (put_ok cmp tree t es k v w H) as (st & res & tree' & t' & es' & w' & E & [Pok Pcfg Pstep Pb Po Pen Pml]). wstep E.
  destruct (config_fields _ _ Pcfg) as (Cd & Cl & Ck & Cv).
  set (m' := if bool_decide (st = STL_OK) then _ else _). exists st, m', es', w'. split; [done|].
  assert (mp_impl m' = Some tree') as Hm' by (unfold m'; by case_bool_decide).
  assert (map_entry_limit (Some m) = rb_element_limit tree) as -> by (unfold map_entry_limit, map_tree; cbn; by rewrite Hm).
  cbn [list_exec]. rewrite <-Hd in *. destruct (put_spec cmp (rb_element_limit tree) (rb_allow_duplicates tree) k v es) as [[sst sres] ses] eqn:Es.
  split; [|done]. split.
  - exists tree', t'. split; [done|]. split; [done|]. congruence.
  - split; [unfold m'; by case_bool_decide|]. split; [unfold m'; by case_bool_decide|]. split; [unfold m'; by case_bool_decide|].
    by exists tree, tree'.
  - cbn in Pstep. destruct Pstep as [[= -> -> ->]|(? & ? & ? & ? & ?)]; [by left|by right].
  - cbn. unfold m'. by case_bool_decide.
  - unfold map_blocks. rewrite Hm, Hm'. lia.
  - unfold map_objects. rewrite Hm, Hm'. rewrite (config_objects _ _ Pcfg). cbn [is_null]. lia.
  - intros Hfit. destruct (Hfit tree Hm) as (? & ? & ? & ?). cbn in Pen |- *. by apply Pen.
Qed.

Lemma remove_post_ok m es k wanted w :
  map_holds false m es →
  ∃ st out m' es' w', map_remove (Some m) (Some k) wanted w = Some ((st, out, Some m'), w') ∧
    map_post m es (MRemove k wanted) (list_exec (map_entry_limit (Some m)) false (MRemove k wanted) es) false w st out m' es' w'.
Proof using KeyOrder0.
  intros (tree & t & Hm & H & Hd). unfold map_remove. rewrite Hm. cbn [is_null orb].
  destruct (find_ok cmp tree t es k H) as (p & -> & Hp). wrun. destruct p as [a|]; cbn [is_null]; cycle 1.
  { do 5 eexists. split; [done|]. cbn [list_exec]. rewrite Hp. split; try done.
    - by exists tree, t.
    - split; [done|]. split; [done|]. split; [done|]. by exists tree, tree.
    - by left.
    - cbn. lia. }
  destruct Hp as (es1 & e & es2 & Hat & Hz). pose proof Hat as [Es _]. pose proof (ro_sorted _ _ _ _ H) as Hs. rewrite Hd, Es in Hs.
  destruct (parts_at cmp k es1 e es2 Hs Hz) as (PL & PS & PU). rewrite <-Es in PL, PS, PU.
  destruct (remove_node_ok cmp tree t es a es1 e es2 wanted w H Hat) as (tree' & t' & w' & E & [Hok Hcfg _] & Hm' & Hb & Ho). wstep E.
  destruct (config_fields _ _ Hcfg) as (Cd & Cl & Ck & Cv). rewrite bool_decide_true by done.
  assert (alen es = alen (es1 ++ es2) + 1) as Hal by (rewrite Es; unfold alen; rewrite !length_app; cbn; lia).
  do 5 eexists. split; [done|]. cbn [list_exec]. rewrite PS, PL, PU. split.
  - exists tree', t'. split; [done|]. split; [done|]. congruence.
  - split; [done|]. split; [done|]. split; [done|]. by exists tree, tree'.
  - by left.
  - done.
  - unfold map_blocks. cbn. rewrite Hm. lia.
  - unfold map_objects. cbn. rewrite Hm, (config_objects _ _ Hcfg). destruct wanted; cbn [is_null]; lia.
  - done.
Qed.

Lemma clear_post_ok dup m es w :
  map_holds dup m es →
  ∃ m' es' w', map_clear (Some m) w = Some (Some m', w') ∧
    map_post m es MClear (list_exec (map_entry_limit (Some m)) dup MClear es) dup w STL_OK None m' es' w'.
Proof using KeyOrder0.
  intros (tree & t & Hm & H & Hd). unfold map_clear. rewrite Hm, (ro_size _ _ _ _ H). destruct (Z.eqb_spec (alen es) 0) as [Hz|Hz].
  - assert (es = []) as -> by (unfold alen in Hz; destruct es; [done|cbn in Hz; lia]).
    exists m, [], w. split; [done|]. split; try done.
    + by exists tree, t.
    + split; [done|]. split; [done|]. split; [done|]. by exists tree, tree.
    + by left.
    + cbn. lia.
  - destruct (clear_ok cmp tree t es w H) as (w' & E & Hok & Hcfg & _ & Hb & Ho). wstep E.
    exists (map_bump (with_impl m (Some (cleared tree)))), [], w'. split; [done|]. destruct (config_fields _ _ Hcfg) as (Cd & Cl & Ck & Cv). split.
    + exists (cleared tree), Nil. split; [done|]. split; [done|]. congruence.
    + split; [done|]. split; [done|]. split; [done|]. by exists tree, (cleared tree).
    + by left.
    + cbn. rewrite bool_decide_false by (intros ->; done). done.
    + unfold map_blocks. cbn. rewrite Hm. unfold alen in *. cbn. lia.
    + unfold map_objects. cbn. rewrite Hm, (config_objects _ _ Hcfg). unfold alen in *. cbn. lia.
    + done.
Qed.

(** C6. An ordered map behaves as a sorted list of entries with pairwise
    different keys: putting replaces the value of an equal key or adds an
    entry below the limit, removing hands the value out and takes the entry
    away, clearing empties it. Balancing, the node heap and the chain are
    invisible; a call that runs out of memory leaves the map as it was; the
    generation moves exactly when the map is modified; blocks and live objects
    are accounted for; nothing is undefined. With memory and copyable values
    the list's answer is the one given. *)
Theorem ordered_map_refines m es op w :
  map_holds false m es →
  ∃ st out m' es' w', map_exec op m w = Some ((st, out, Some m'), w') ∧
    map_post m es op (list_exec (map_entry_limit (Some m)) false op es) false w st out m' es' w'.
Proof using KeyOrder0.
  intros H. destruct op; cbn [map_exec].
  - destruct (put_post_ok false m es k v w H) as (st & m' & es' & w' & E & Hpost & _). wstep E. do 5 eexists. split; [done|]. exact Hpost.
  - destruct (remove_post_ok m es k wanted w H) as (st & out & m' & es' & w' & E & Hpost). do 5 eexists. split; [exact E|]. exact Hpost.
  - destruct (clear_post_ok false m es w H) as (m' & es' & w' & E & Hpost). wstep E. do 5 eexists. split; [done|]. exact Hpost.
Qed.

(** [map_get] and [map_contains] look the key up in the list. *)
Lemma map_get_ok m es k :
  map_holds false m es →
  (∃ o, map_get (Some m) (Some k) = Some o ∧ (x ← o; x.2) = (head (same cmp k es) ≫= λ e, Some e.2)) ∧
  map_contains (Some m) (Some k) = Some (negb (bool_decide (same cmp k es = []))).
Proof using KeyOrder0.
  intros (tree & t & Hm & H & Hd). unfold map_get, map_contains. change (map_tree (Some m)) with (mp_impl m). rewrite Hm.
  destruct (find_ok cmp tree t es k H) as (p & -> & Hp). cbn [mbind option_bind]. destruct p as [a|]; cycle 1.
  { split; [exists None; by rewrite Hp|]. by rewrite bool_decide_true. }
  destruct Hp as (es1 & e & es2 & (Es & l1 & l2 & El & C1 & (n & Hn & Hk & Hv) & C2) & Hz).
  pose proof (ro_sorted _ _ _ _ H) as Hs. rewrite Hd, Es in Hs. destruct (parts_at cmp k es1 e es2 Hs Hz) as (_ & PS & _). rewrite <-Es in PS.
  rewrite PS. split; [|by rewrite bool_decide_false]. rewrite (node_at_run _ _ _ Hn). cbn [mbind option_bind]. exists (n_value n). split; [done|]. exact Hv.
Qed.

(** ** The multimap *)

(** Both bounds of a key, in the order of the nodes. *)
Lemma bounds_ok tree t es key :
  rb_ok cmp tree t es →
  ∃ lL lE lG, inorder t = lL ++ lE ++ lG ∧ contents (rb_nodes tree) lL (lower cmp key es) ∧
    contents (rb_nodes tree) lE (same cmp key es) ∧ contents (rb_nodes tree) lG (upper cmp key es) ∧
    rbtree_lower_bound (Some tree) (Some key) = Some (first (lE ++ lG) None) ∧
    rbtree_upper_bound (Some tree) (Some key) = Some (first lG None).
Proof using KeyOrder0.
  intros H. destruct (parts_ok cmp tree t es key H) as (lL & lE & lG & El & _ & CL & CE & CG). exists lL, lE, lG.
  pose proof (fuel_ok cmp tree t es H) as Hf. destruct (rb_lower_ok cmp tree t es key _ H Hf) as (p & Ep & es1 & l1 & l2 & Es & Ei & C1 & C2 & ->).
  destruct (rb_upper_ok cmp tree t es key _ H Hf) as (q & Eq & es1' & l1' & l2' & Es' & Ei' & C1' & C2' & ->).
  assert (l2 = lE ++ lG) as ->.
  { rewrite El in Ei. symmetry in Ei. apply app_inj_2 in Ei as [_ ?]; [done|].
    rewrite (contents_length _ _ _ C2), !length_app, (contents_length _ _ _ CE), (contents_length _ _ _ CG). done. }
  assert (l2' = lG) as ->.
  { rewrite El, app_assoc in Ei'. symmetry in Ei'. apply app_inj_2 in Ei' as [_ ?]; [done|].
    by rewrite (contents_length _ _ _ C2'), (contents_length _ _ _ CG). }
  done.
Qed.

(** Walking along the chain. *)
Lemma chain_walk (h : gmap Z (rbtree_node K V)) l1 a l2 : chain h None (l1 ++ a :: l2) None → ∃ n, h !! a = Some n ∧ n_next n = first l2 None ∧ n_previous n = final None l1.
Proof using KeyOrder0.
  intros Hc. destruct (chain_in _ _ _ _ a Hc) as [n Hn]; [set_solver|]. destruct (chain_node _ _ _ _ _ Hc Hn). by exists n.
Qed.

Lemma first_differs (a : Z) lE lG : NoDup (a :: lE ++ lG) → Some a ≠ first lG None.
Proof using KeyOrder0. intros [Hn _]%NoDup_cons E. symmetry in E. apply first_in in E. set_solver. Qed.

Lemma count_loop_ok tree lE : ∀ fuel l1 lG c,
  chain (rb_nodes tree) None (l1 ++ lE ++ lG) None → NoDup (l1 ++ lE ++ lG) → (length lE < fuel)%nat → 0 <= c → c + alen lE <= SIZE_MAX →
  count_loop fuel tree (first (lE ++ lG) None) (first lG None) c = Some (c + alen lE).
Proof using KeyOrder0.
  induction lE as [|a lE IH]; intros fuel l1 lG c Hc Hd Hf Hc0 Hmax; (destruct fuel as [|fuel]; [lia|]); cbn [count_loop app].
  { rewrite bool_decide_true by done. unfold alen. cbn. f_equal. lia. }
  cbn [first]. rewrite bool_decide_false.
  2:{ apply NoDup_app in Hd as (_ & _ & Hd). by eapply first_differs. }
  destruct (chain_walk _ _ _ _ Hc) as (n & Hn & Hx & _). rewrite (node_at_run _ _ _ Hn). cbn [mbind option_bind]. rewrite Hx.
  assert (alen (a :: lE) = 1 + alen lE) as Hal by (unfold alen; cbn; lia). rewrite Hal in *.
  assert (0 <= alen lE) by (unfold alen; lia).
  rewrite u64_id by (unfold is_u64, SIZE_MAX in *; lia). rewrite (IH fuel (l1 ++ [a])); [f_equal; lia|..].
  - by rewrite <-app_assoc.
  - by rewrite <-app_assoc.
  - cbn in Hf. lia.
  - lia.
  - lia.
Qed.

Lemma entries_max tree t es : rb_ok cmp tree t es → alen es <= SIZE_MAX.
Proof using KeyOrder0. intros H. pose proof (ro_limit _ _ _ _ H). pose proof (rp_limit _ _ (ro_params _ _ _ _ H)). lia. Qed.

Lemma alen_contents h l es : contents (K := K) (V := V) h l es → alen l = alen es.
Proof using KeyOrder0. intros Hc. unfold alen. by rewrite (contents_length _ _ _ Hc). Qed.

Lemma part_lengths dup es k : sorted cmp dup es → alen es = alen (lower cmp k es) + alen (same cmp k es) + alen (upper cmp k es).
Proof using KeyOrder0. intros Hs. rewrite (sorted_parts cmp dup k es Hs) at 1. unfold alen. rewrite !length_app. lia. Qed.

Lemma multimap_count_ok m es k : map_holds true m es → multimap_count (Some m) (Some k) = Some (alen (same cmp k es)).
Proof using KeyOrder0.
  intros (tree & t & Hm & H & Hd). unfold multimap_count. change (map_tree (Some m)) with (mp_impl m). rewrite Hm.
  destruct (bounds_ok tree t es k H) as (lL & lE & lG & El & CL & CE & CG & -> & ->). cbn [mbind option_bind].
  destruct (ro_chained _ _ _ _ H) as (Hc & _). pose proof (lo_nodup _ _ _ (ro_located _ _ _ _ H)) as Hn. cbn in Hn. rewrite El in Hc, Hn.
  pose proof (located_fuel _ _ _ (ro_located _ _ _ _ H) (located_dom _ _ _ (ro_located _ _ _ _ H))) as Hf. cbn [fill] in Hf. rewrite El, !length_app in Hf.
  rewrite (count_loop_ok tree lE (node_fuel tree) lL lG 0 Hc Hn); [by rewrite (alen_contents _ _ _ CE)|lia|lia|].
  rewrite (alen_contents _ _ _ CE). pose proof (entries_max _ _ _ H). pose proof (part_lengths _ es k (ro_sorted _ _ _ _ H)). unfold alen in *. lia.
Qed.

(** The entry of the node between two lists of nodes. *)
Lemma at_split tree t es lA (a : Z) lB esA e esB :
  rb_ok cmp tree t es → inorder t = lA ++ a :: lB → es = esA ++ e :: esB → length lA = length esA →
  at_entry tree t es a esA e esB.
Proof using KeyOrder0.
  intros H El Es Hl. split; [done|]. exists lA, lB. split; [done|]. pose proof (ro_contents _ _ _ _ H) as Hc. rewrite El, Es in Hc.
  unfold contents in Hc. apply Forall2_app_inv in Hc as [C1 C2]; [|done]. by inversion C2; subst.
Qed.

(** [multimap_remove]: the last entry with the key, if there is one. *)
Definition multi_remove_spec (k : K) (wanted : bool) es : bool * option V * list (K * V) :=
  match last (same cmp k es) with
  | None => (false, None, es)
  | Some e => (true, if wanted then Some e.2 else None, lower cmp k es ++ removelast (same cmp k es) ++ upper cmp k es)
  end.

Lemma multi_remove_ok m es k wanted w :
  map_holds true m es →
  ∃ m' w', multimap_remove (Some m) (Some k) wanted w =
      Some (((multi_remove_spec k wanted es).1, Some m'), w') ∧
    let es' := (multi_remove_spec k wanted es).2 in
    map_holds true m' es' ∧ same_tree m m' ∧
    mp_generation m' = (if (multi_remove_spec k wanted es).1.1 then u64 (mp_generation m + 1) else mp_generation m) ∧
    w_blocks w' - map_blocks m' es' = w_blocks w - map_blocks m es ∧
    w_objects w' - map_objects m' es' - (if is_null (multi_remove_spec k wanted es).1.2 then 0
      else match mp_impl m with Some tree => owned (rb_value_type tree) | None => 0 end) = w_objects w - map_objects m es.
Proof using KeyOrder0.
  intros (tree & t & Hm & H & Hd). unfold multimap_remove. change (map_tree (Some m)) with (mp_impl m). rewrite Hm.
  destruct (bounds_ok tree t es k H) as (lL & lE & lG & El & CL & CE & CG & -> & ->). wrun.
  pose proof (sorted_parts cmp _ k es (ro_sorted _ _ _ _ H)) as Es.
  destruct (ro_chained _ _ _ _ H) as (Hc & _ & Htl). pose proof (lo_nodup _ _ _ (ro_located _ _ _ _ H)) as Hn. cbn in Hn. rewrite El in Hc, Hn, Htl.
  unfold multi_remove_spec. destruct lE as [|a lE _] using rev_ind.
  { apply Forall2_nil_inv_l in CE. rewrite CE. cbn [app last]. rewrite bool_decide_true by done. exists m, w. split; [done|]. cbn [fst snd is_null].
    split; [by exists tree, t|]. split; [|split; [done|lia]]. split; [done|]. split; [done|]. split; [done|]. by exists tree, tree. }
  apply Forall2_app_inv_l in CE as (esE & es1 & CE & C1 & EE). apply Forall2_cons_inv_l in C1 as (e & es0 & He & C0 & ->).
  apply Forall2_nil_inv_l in C0 as ->. rewrite EE in Es. rewrite EE, last_snoc, removelast_last. cbn [fst snd].
  rewrite bool_decide_false.
  2:{ intros E. destruct lG as [|g lG]; [by destruct lE|]. apply NoDup_app in Hn as (_ & _ & Hn). rewrite <-app_assoc in Hn, E.
      destruct lE as [|b lE]; cbn in E; injection E as <-; [apply NoDup_cons in Hn as [Hn _]|cbn in Hn; apply NoDup_cons in Hn as [Hn _]]; set_solver. }
  assert ((match first lG None with None => Some (rb_tail tree) | Some _ => n ← node_at tree (first lG None); Some (n_previous n) end) = Some (Some a)) as Hnode.
  { destruct lG as [|g lG]; cbn [first].
    - rewrite Htl, app_nil_r, app_assoc. unfold final. by rewrite last_snoc.
    - rewrite app_assoc in Hc. destruct (chain_walk _ _ _ _ Hc) as (n & Hng & _ & Hp). rewrite (node_at_run _ _ _ Hng). cbn [mbind option_bind].
      rewrite Hp, app_assoc. unfold final. by rewrite last_snoc. }
  assert (at_entry tree t es a (lower cmp k es ++ esE) e (upper cmp k es)) as Hat.
  { apply (at_split tree t es (lL ++ lE) a lG); [done|rewrite El, <-!app_assoc; done|rewrite Es at 1; by rewrite <-!app_assoc|].
    by rewrite !length_app, (contents_length _ _ _ CL), (contents_length _ _ _ CE). }
  destruct (remove_node_ok cmp tree t es a _ e _ wanted w H Hat) as (tree' & t' & w' & E & [Hok Hcfg _] & _ & Hb & Ho).
  assert (∀ A (f : option Z → M A), (lift (match first lG None with None => Some (rb_tail tree) | Some _ => n ← node_at tree (first lG None); Some (n_previous n) end) ≫= f) w = f (Some a) w) as Hl.
  { intros A f. by rewrite Hnode, run_lift_bind. }
  rewrite Hl. wstep E. rewrite bool_decide_true by done. cbn [negb]. destruct (config_fields _ _ Hcfg) as (Cd & Cl & Ck & Cv).
  eexists _, w'. split; [done|]. rewrite <-app_assoc in Hok.
  assert (alen es = alen (lower cmp k es ++ esE ++ upper cmp k es) + 1) as Hal by (rewrite Es at 1; unfold alen; rewrite !length_app; cbn; lia).
  split; [exists tree', t'; split; [done|]; split; [done|]; congruence|]. split; [|split; [done|]].
  - split; [done|]. split; [done|]. split; [done|]. by exists tree, tree'.
  - unfold map_blocks, map_objects. cbn. rewrite Hm, (config_objects _ _ Hcfg). split; [lia|]. destruct wanted; cbn [is_null]; lia.
Qed.

(** [multimap_erase]: all entries with the key, one node after the other. *)
Lemma filter_ne (l1 : list Z) a l2 : NoDup (l1 ++ a :: l2) → filter (λ b, b ≠ a) (l1 ++ a :: l2) = l1 ++ l2.
Proof using KeyOrder0.
  intros (_ & H1 & [H2 _]%NoDup_cons)%NoDup_app. rewrite filter_app, filter_cons, decide_False by (intros E; by apply E).
  rewrite !filter_all; [done|..]; intros b Hb ->; [done|]. by apply (H1 a Hb); left.
Qed.

Lemma erase_loop_ok lE : ∀ fuel tree t es lL lG esL esE esG c w,
  rb_ok cmp tree t es → inorder t = lL ++ lE ++ lG → es = esL ++ esE ++ esG → length lL = length esL → length lE = length esE →
  (length lE < fuel)%nat → 0 <= c → c + alen lE <= SIZE_MAX →
  ∃ tree' t' w', erase_loop fuel (Some tree) (first (lE ++ lG) None) (first lG None) c w = Some ((Some tree', c + alen lE), w') ∧
    rb_ok cmp tree' t' (esL ++ esG) ∧ same_config tree tree' ∧ w_blocks w' = w_blocks w - 3 * alen lE ∧
    w_objects w' = w_objects w - entry_objects tree * alen lE.
Proof using KeyOrder0.
  induction lE as [|a lE IH]; intros fuel tree t es lL lG esL esE esG c w H El Es HlL HlE Hf Hc Hmax; (destruct fuel as [|fuel]; [lia|]);
    cbn [erase_loop app].
  { destruct esE; [|done]. rewrite bool_decide_true by done. cbn in Es. subst es. exists tree, t, w. unfold alen. cbn. rewrite !Z.add_0_r.
    split; [done|]. split; [done|]. split; [done|]. lia. }
  destruct esE as [|e esE]; [done|]. pose proof (lo_nodup _ _ _ (ro_located _ _ _ _ H)) as Hn. cbn in Hn. rewrite El in Hn.
  cbn [first]. rewrite bool_decide_false by (apply NoDup_app in Hn as (_ & _ & Hn); by eapply first_differs).
  destruct (ro_chained _ _ _ _ H) as (Hch & _). rewrite El in Hch. destruct (chain_walk _ _ _ _ Hch) as (n & Hna & Hx & _).
  wrun. rewrite (node_at_run _ _ _ Hna). wrun. change (n_next n = first (lE ++ lG) None) in Hx. rewrite Hx.
  pose proof (at_split tree t es lL a (lE ++ lG) esL e (esE ++ esG) H El Es HlL) as Hat.
  destruct (remove_node_ok cmp tree t es a _ e _ false w H Hat) as (tree1 & t1 & w1 & E & [Hok Hcfg Hord] & _ & Hb & Ho). wstep E.
  rewrite bool_decide_true by done. cbn [negb].
  assert (alen (a :: lE) = 1 + alen lE) as Hal by (unfold alen; cbn; lia). rewrite Hal in *. assert (0 <= alen lE) by (unfold alen; lia).
  rewrite u64_id by (unfold is_u64, SIZE_MAX in *; lia). rewrite El in Hord. change ((a :: lE) ++ lG) with (a :: lE ++ lG) in Hord. rewrite filter_ne in Hord by done.
  destruct (IH fuel tree1 t1 (esL ++ esE ++ esG) lL lG esL esE esG (c + 1) w1 Hok Hord) as (tree2 & t2 & w2 & E2 & Hok2 & Hcfg2 & Hb2 & Ho2);
    [done|done|by injection HlE|cbn in Hf; lia|lia|lia|].
  exists tree2, t2, w2. rewrite E2. split; [by rewrite Z.add_assoc|]. split; [done|]. split; [by etrans|].
  rewrite (config_objects _ _ Hcfg) in Ho2. lia.
Qed.

(** ** The multimap as a sorted list with equal keys *)

Inductive multi_op := UPut (k : K) (v : V) | URemove (k : K) (wanted : bool) | UErase (k : K) | UCount (k : K) | UClear.
(** What a call answers. *)
Inductive multi_res := RStatus (st : stl_status) | RTaken (found : bool) (out : option V) | RCount (n : Z) | RDone.

Definition multi_exec (op : multi_op) m : M (multi_res * option (map_t K V)) :=
  match op with
  | UPut k v => '(st, map) ← multimap_put (Some m) (Some k) (Some v); mret (RStatus st, map)
  | URemove k wanted => '(found, out, map) ← multimap_remove (Some m) (Some k) wanted; mret (RTaken found out, map)
  | UErase k => '(n, map) ← multimap_erase (Some m) (Some k); mret (RCount n, map)
  | UCount k => n ← lift (multimap_count (Some m) (Some k)); mret (RCount n, Some m)
  | UClear => map ← multimap_clear (Some m); mret (RDone, map)
  end.

(** An entry is put behind its equals; the last of them is removed first. *)
Definition multi_list (limit : Z) (op : multi_op) es : multi_res * list (K * V) :=
  match op with
  | UPut k v => if limit <=? alen es then (RStatus STL_CAPACITY_EXCEEDED, es)
                else (RStatus STL_OK, lower cmp k es ++ same cmp k es ++ (k, v) :: upper cmp k es)
  | URemove k wanted =>
      match last (same cmp k es) with
      | None => (RTaken false None, es)
      | Some e => (RTaken true (if wanted then Some e.2 else None),
                   lower cmp k es ++ removelast (same cmp k es) ++ upper cmp k es)
      end
  | UErase k => (RCount (alen (same cmp k es)), lower cmp k es ++ upper cmp k es)
  | UCount k => (RCount (alen (same cmp k es)), es)
  | UClear => (RDone, [])
  end.

Definition multi_modifies (op : multi_op) (r : multi_res) es : bool :=
  match op, r with
  | UPut _ _, RStatus st => bool_decide (st = STL_OK)
  | URemove _ _, RTaken found _ => found
  | UErase _, RCount n => negb (n =? 0)
  | UClear, _ => negb (bool_decide (es = []))
  | _, _ => false
  end.

Definition handed_out (r : multi_res) : bool := match r with RTaken _ (Some _) => true | _ => false end.

Definition multi_fits m (op : multi_op) (w : world) : Prop :=
  match op with UPut k v => op_fits m (MPut k v) w | _ => True end.

Record multi_post m es (op : multi_op) (w : world) (r : multi_res) m' es' (w' : world) : Prop := {
  muo_holds : map_holds true m' es';
  muo_same : same_tree m m';
  muo_step : (r, es') = multi_list (map_entry_limit (Some m)) op es ∨
    ((multi_list (map_entry_limit (Some m)) op es).1 = RStatus STL_OK ∧ ∃ st, r = RStatus st ∧ st ≠ STL_OK ∧ es' = es);
  muo_generation : mp_generation m' = if multi_modifies op r es then u64 (mp_generation m + 1) else mp_generation m;
  muo_blocks : w_blocks w' - map_blocks m' es' = w_blocks w - map_blocks m es;
  muo_objects : w_objects w' - map_objects m' es' -
      (if handed_out r then match mp_impl m with Some tree => owned (rb_value_type tree) | None => 0 end else 0) = w_objects w - map_objects m es;
  muo_enough : multi_fits m op w → r = (multi_list (map_entry_limit (Some m)) op es).1
}.

Lemma erase_ok m es k w :
  map_holds true m es →
  ∃ m' w', multimap_erase (Some m) (Some k) w = Some ((alen (same cmp k es), Some m'), w') ∧
    multi_post m es (UErase k) w (RCount (alen (same cmp k es))) m' (lower cmp k es ++ upper cmp k es) w'.
Proof using KeyOrder0.
  intros (tree & t & Hm & H & Hd). unfold multimap_erase. change (map_tree (Some m)) with (mp_impl m). rewrite Hm.
  destruct (bounds_ok tree t es k H) as (lL & lE & lG & El & CL & CE & CG & -> & ->). wrun.
  pose proof (located_fuel _ _ _ (ro_located _ _ _ _ H) (located_dom _ _ _ (ro_located _ _ _ _ H))) as Hf. cbn [fill] in Hf. rewrite El, !length_app in Hf.
  pose proof (part_lengths _ es k (ro_sorted _ _ _ _ H)) as Hlen. pose proof (entries_max _ _ _ H) as Hmax. pose proof (alen_contents _ _ _ CE) as HE.
  destruct (erase_loop_ok lE (node_fuel tree) tree t es lL lG _ _ _ 0 w H El (sorted_parts cmp _ k es (ro_sorted _ _ _ _ H)))
    as (tree' & t' & w' & E & Hok & Hcfg & Hb & Ho).
  { exact (contents_length _ _ _ CL). }
  { exact (contents_length _ _ _ CE). }
  { lia. }
  { lia. }
  { rewrite HE. unfold alen in *. lia. }
  wstep E. rewrite HE in *. rewrite Z.add_0_l. set (m' := if negb _ then _ else _).
  assert (mp_impl m' = Some tree') as Hm' by (unfold m'; by destruct (negb _)).
  destruct (config_fields _ _ Hcfg) as (Cd & Cl & Ck & Cv).
  assert (alen (lower cmp k es ++ upper cmp k es) = alen es - alen (same cmp k es)) as Hal by (rewrite Hlen; unfold alen; rewrite length_app; lia).
  exists m', w'. split; [done|]. split.
  - exists tree', t'. split; [done|]. split; [done|]. congruence.
  - split; [unfold m'; by destruct (negb _)|]. split; [unfold m'; by destruct (negb _)|]. split; [unfold m'; by destruct (negb _)|]. by exists tree, tree'.
  - by left.
  - cbn. unfold m'. by destruct (negb _).
  - unfold map_blocks. rewrite Hm, Hm'. lia.
  - unfold map_objects. cbn [handed_out]. rewrite Hm, Hm', (config_objects _ _ Hcfg). nia.
  - done.
Qed.

(** C7. A multimap behaves as a list of entries sorted by key in which equal
    keys keep the order of their insertion: putting adds an entry behind its
    equals below the limit, removing takes the newest entry of a key, erasing
    takes all of them and answers their number, counting answers that number,
    clearing empties it. A call that runs out of memory leaves the multimap as
    it was; the generation moves exactly when it is modified; blocks and live
    objects are accounted for; nothing is undefined. *)
Theorem multimap_refines m es op w :
  map_holds true m es →
  ∃ r m' es' w', multi_exec op m w = Some ((r, Some m'), w') ∧ multi_post m es op w r m' es' w'.
Proof using KeyOrder0.
  intros H. destruct op; cbn [multi_exec]; unfold multimap_put, multimap_clear.
  - destruct (put_post_ok true m es k v w H) as (st & m' & es' & w' & E & [Hh Hsame Hstep Hg Hb Ho Hen] & _). wstep E.
    cbn [list_exec put_spec negb andb] in Hstep, Hen. unfold put_spec in Hstep, Hen. cbn [negb andb] in Hstep, Hen.
    exists (RStatus st), m', es', w'. split; [done|]. split; try done; cbn [multi_list].
    + destruct (_ <=? _); (destruct Hstep as [[= -> ->]|(? & ? & ? & ->)]; [by left|]); [done|]. right. split; [done|]. by exists st.
    + intros Hfit. rewrite Hen by done. by destruct (_ <=? _).
  - destruct (multi_remove_ok m es k wanted w H) as (m' & w' & E & Hh & Hsame & Hg & Hb & Ho). unfold multi_remove_spec in *.
    destruct (last (same cmp k es)) as [e|] eqn:El; cbn [fst snd] in *; wstep E; do 4 eexists; (split; [done|]).
    + split; try done; cbn [multi_list]; rewrite ?El; [by left|destruct wanted; exact Ho|done].
    + split; try done; cbn [multi_list]; rewrite ?El; [by left|done].
  - destruct (erase_ok m es k w H) as (m' & w' & E & Hpost). wstep E. do 4 eexists. split; [done|]. exact Hpost.
  - rewrite (multimap_count_ok m es k H). wrun. exists (RCount (alen (same cmp k es))), m, es, w. split; [done|]. split; try done.
    + destruct H as (tree & t & Hm & _). split; [done|]. split; [done|]. split; [done|]. by exists tree, tree.
    + by left.
    + cbn. lia.
  - destruct (clear_post_ok true m es w H) as (m' & es' & w' & E & [Hh Hsame Hstep Hg Hb Ho Hen]). wstep E.
    exists RDone, m', es', w'. split; [done|]. split; try done. cbn [list_exec] in Hstep. left. destruct Hstep as [[= ->]|(_ & ? & _)]; done.
Qed.
End Spec.
