(* ===== verification/OrdMapBuild.v ===== *)
(** * The ordered maps: construction from arrays and iteration

    Building a map from arrays is all or nothing and gives what putting the
    entries one by one gives; iterators and range cursors visit the sorted
    entries in order, forwards and backwards. *)

From stdpp Require Import gmap.
From S2P Require Import Prelude World Sequence RbTree RbShape RbInsert RbDelete RbOrder RbChain RbSpec OrdMap OrdMapSpec.
Local Open Scope Z_scope.

Section Build.
Context {K V : Type} {AL : Allocator} (cmp : K → K → Z) `{!KeyOrder cmp}.
Implicit Types (m : map_t K V) (es : list (K * V)) (tree : rbtree_t K V).

(** ** Handles that may be empty *)

(** An empty handle, or a live one with the entries [es]. *)
Definition handle_holds (dup : bool) m es : Prop := (mp_impl m = None ∧ es = []) ∨ map_holds cmp dup m es.

Lemma destroy_storage_ok' dup m es w :
  handle_holds dup m es →
  ∃ m' w', map_raw_destroy_storage (Some m) w = Some (Some m', w') ∧ mp_impl m' = None ∧
    w_blocks w' = w_blocks w - map_blocks m es ∧ w_objects w' = w_objects w - map_objects m es ∧ w_malloc w' = w_malloc w.
Proof using KeyOrder0.
  unfold map_raw_destroy_storage, map_blocks, map_objects. intros [[Hm ->]|(tree & t & -> & H & _)]; [rewrite Hm|]; cbn [is_null].
  { exists m, w. split; [done|]. split; [done|]. split; [lia|]. split; [lia|done]. }
  destruct (destroy_tree_ok cmp tree t es w H) as (w1 & E & Hm & Hb & Ho). wstep E. eexists _, w1. split; [done|]. split; [done|]. split; [lia|]. by split; [lia|].
Qed.

(** ** Putting many entries *)

(** On the list: stop at the first entry that is refused. *)
Fixpoint put_many (limit : Z) (dup : bool) (entries es : list (K * V)) : stl_status * list (K * V) :=
  match entries with
  | [] => (STL_OK, es)
  | (k, v) :: entries =>
      let '(st, _, es') := put_spec cmp limit dup k v es in
      if bool_decide (st = STL_OK) then put_many limit dup entries es' else (st, es)
  end.

Definition all_copyable tree (entries : list (K * V)) : Prop :=
  Forall (λ e, copyable (rb_key_type tree) e.1 ∧ copyable (rb_value_type tree) e.2) entries.

Lemma config_room (tree tree' : rbtree_t K V) : same_config tree tree' → rb_roomy tree → rb_roomy tree' ∧ rb_align tree' = rb_align tree.
Proof using Type. unfold same_config. by intros ->. Qed.

Lemma config_copyable (tree tree' : rbtree_t K V) entries : same_config tree tree' → all_copyable tree entries → all_copyable tree' entries.
Proof using Type. unfold same_config. by intros ->. Qed.

Lemma same_tree_trans m1 m2 m3 : same_tree m1 m2 → same_tree m2 m3 → same_tree m1 m3.
Proof using Type.
  intros (A1 & A2 & A3 & t1 & t2 & H1 & H2 & C1) (B1 & B2 & B3 & t2' & t3 & H2' & H3 & C2).
  split; [congruence|]. split; [congruence|]. split; [congruence|]. exists t1, t3. split; [done|]. split; [done|].
  etrans; [exact C1|]. by simplify_eq.
Qed.

Lemma same_tree_limit m m' : same_tree m m' → map_entry_limit (Some m') = map_entry_limit (Some m).
Proof using Type.
  intros (_ & _ & _ & t1 & t2 & H1 & H2 & C). unfold map_entry_limit. change (map_tree (Some m')) with (mp_impl m').
  change (map_tree (Some m)) with (mp_impl m). rewrite H1, H2. by destruct (config_fields _ _ C) as (_ & ? & _).
Qed.

Definition enough_for tree (entries : list (K * V)) (w : world) : Prop :=
  rb_roomy tree ∧ mallocs (3 * length entries) (rb_align tree) w ∧ all_copyable tree entries.

Lemma put_all_map_ok dup entries : ∀ m es w,
  map_holds cmp dup m es →
  ∃ st m' w', map_put_all (Some m) entries w = Some ((st, Some m'), w') ∧
    (if bool_decide (st = STL_OK) then
       ∃ es', put_many (map_entry_limit (Some m)) dup entries es = (STL_OK, es') ∧ map_holds cmp dup m' es' ∧ same_tree m m' ∧
         w_blocks w' - map_blocks m' es' = w_blocks w - map_blocks m es ∧
         w_objects w' - map_objects m' es' = w_objects w - map_objects m es
     else mp_impl m' = None ∧ w_blocks w' = w_blocks w - map_blocks m es ∧ w_objects w' = w_objects w - map_objects m es) ∧
    (∀ tree, mp_impl m = Some tree → enough_for tree entries w → st = (put_many (map_entry_limit (Some m)) dup entries es).1).
Proof using KeyOrder0.
  induction entries as [|[k v] entries IH]; intros m es w H; cbn [map_put_all put_many].
  { exists STL_OK, m, w. split; [done|]. rewrite bool_decide_true by done. split; [|done]. exists es. split; [done|]. split; [done|]. split; [|done].
    destruct H as (tree & t & Hm & _). split; [done|]. split; [done|]. split; [done|]. by exists tree, tree. }
  destruct (put_post_ok cmp dup m es k v w H) as (st1 & m1 & es1 & w1 & E1 & [Hh Hsame Hstep _ Hb Ho Hen] & Hml). wstep E1.
  cbn [list_exec is_null] in Hstep, Hen, Ho. destruct (put_spec cmp (map_entry_limit (Some m)) dup k v es) as [[sst sres] ses] eqn:Es.
  cbn [fst snd] in Hstep, Hen. case_bool_decide as Hst1; cbn [negb]; cycle 1.
  - destruct (destroy_storage_ok' dup m1 es1 w1 (or_intror Hh)) as (m2 & w2 & E2 & Hn & Hb2 & Ho2 & _). wstep E2.
    do 3 eexists. split; [done|]. rewrite bool_decide_false by done. split; [split; [done|]; lia|].
    intros tree Hm (Hr & Hmal & Hc). apply Forall_cons in Hc as [[Hck Hcv] _]. assert (op_fits m (MPut k v) w) as Hfit.
    { intros tree' ?. simplify_eq. split; [done|]. split; [eapply mallocs_le; [|exact Hmal]; cbn; lia|done]. }
    specialize (Hen Hfit). subst sst. by rewrite bool_decide_false.
  - destruct Hstep as [[= <- <-]|(_ & ? & _)]; [|done]. subst st1. rewrite bool_decide_true by done.
    destruct (IH m1 es1 w1 Hh) as (st & m' & w' & E & Hres & Hlive). rewrite (same_tree_limit _ _ Hsame) in Hres, Hlive.
    exists st, m', w'. split; [done|]. split.
    + case_bool_decide; [|destruct Hres as (? & ? & ?); split; [done|]; lia].
      destruct Hres as (es' & ? & ? & ? & ? & ?). exists es'. split; [done|]. split; [done|]. split; [by eapply same_tree_trans|]. lia.
    + intros tree Hm (Hr & Hmal & Hc). destruct Hsame as (_ & _ & _ & t0 & tree1 & ? & Hm1 & Hcfg). simplify_eq. apply (Hlive tree1 Hm1).
      apply Forall_cons in Hc as [_ Hc]. destruct (config_room _ _ Hcfg Hr) as [? Hal]. split; [done|]. split; [|by eapply config_copyable].
      rewrite Hal. apply Hml. eapply mallocs_le; [|exact Hmal]. cbn. lia.
Qed.

(** ** Initialisation *)

(** The size and the alignment of objects that can be allocated. *)
Definition fits (size align : Z) : Prop := ∃ x, sequence_stride size align = (STL_OK, Some x) ∧ x + overhead align <= SIZE_MAX.

(** A handle [m] was initialised, or nothing happened. *)
Definition started (dup : bool) m (kt : option (cmeta_type_desc K)) (vt : option (cmeta_type_desc V)) (ks ka vs va limit : Z)
    (w : world) (st : stl_status) (r : option (map_t K V)) (w' : world) : Prop :=
  (if bool_decide (st = STL_OK) then
     ∃ tree, r = Some (map_bump (with_impl m (Some tree))) ∧ rb_ok cmp tree Nil [] ∧ rb_allow_duplicates tree = dup ∧ rb_element_limit tree = limit ∧
       rb_key_type tree = kt ∧ rb_value_type tree = vt ∧ (fits ks ka → fits vs va → rb_roomy tree ∧ rb_align tree = ka `max` va) ∧
       w_blocks w' = w_blocks w + 1 ∧ w_objects w' = w_objects w
   else r = Some m ∧ w_same w w') ∧
  (∀ n a, mallocs (S n) a w → mallocs n a w') ∧
  (∀ n a, fits ks ka → fits vs va → mallocs (S n) a w → st = STL_OK).

Lemma initialize_map_ok dup m kt vt ks ka vs va limit compare w :
  mp_impl m = None → is_u64 ks → is_u64 ka → is_u64 vs → is_u64 va → is_u64 limit → type_ok kt → type_ok vt → compare_given cmp kt compare →
  ∃ st r w', map_initialize dup (Some m) kt vt ks ka vs va limit compare w = Some ((st, r), w') ∧
    started dup m kt vt ks ka vs va limit w st r w'.
Proof using KeyOrder0.
  intros Hm Hks Hka Hvs Hva Hlim Hkt Hvt Hc. unfold map_initialize. rewrite Hm. cbn [is_null negb].
  destruct (rb_create_ok cmp kt vt ks ka vs va limit compare dup w Hks Hka Hvs Hva Hlim Hkt Hvt Hc) as (st & r & w' & E & Hres & Hml & Hlive). wstep E.
  assert (∀ n a, fits ks ka → fits vs va → mallocs (S n) a w → st = STL_OK) as Hlive'
    by (intros n a (x & Ex & _) (y & Ey & _); apply Hlive; [by rewrite Ex|by rewrite Ey]).
  case_bool_decide as Hst; cbn [negb]; do 3 eexists; (split; [done|]); (split; [|split; [done|naive_solver]]).
  - destruct Hres as (tree & -> & Hok & El & Ed & Ek & Ev & Eka & Eva & Esk & Esv & Hb & Ho). rewrite bool_decide_true by done.
    exists tree. do 6 (split; [done|]). split; [|done].
    intros (x & Ex & Hx) (y & Ey & Hy). unfold rb_roomy, rb_align. rewrite Eka, Eva. split; [|done]. simplify_eq. split; congruence.
  - rewrite bool_decide_false by done. split; [done|]. apply Hres.
Qed.

(** ** Construction from arrays *)

(** The handle [m] with the entries [es] was replaced by one with the given
    entries put in order, or nothing happened. *)
Definition rebuilt (dup : bool) (limit : Z) (entries : list (K * V)) m es (w : world) (st : stl_status) (r : option (map_t K V)) (w' : world) : Prop :=
  if bool_decide (st = STL_OK) then
    ∃ m' es', r = Some m' ∧ put_many limit dup entries [] = (STL_OK, es') ∧ map_holds cmp dup m' es' ∧
      map_entry_limit r = limit ∧ mp_generation m' = u64 (mp_generation m + 1) ∧
      w_blocks w' - map_blocks m' es' = w_blocks w - map_blocks m es ∧ w_objects w' - map_objects m' es' = w_objects w - map_objects m es
  else r = Some m ∧ w_same w w'.

Lemma map_from_common_ok dup m es ks vs count ksize kalign vsize valign limit kt vt init w :
  handle_holds dup m es → 0 <= count <= alen ks → count <= alen vs →
  (∃ st r w', init w = Some ((st, r), w') ∧ started dup map_zero kt vt ksize kalign vsize valign limit w st r w') →
  let entries := zip (take (Z.to_nat count) ks) (take (Z.to_nat count) vs) in
  ∃ st r w', map_from_common (Some m) (Some ks) (Some vs) count ksize vsize init w = Some ((st, r), w') ∧
    rebuilt dup limit entries m es w st r w' ∧
    (fits ksize kalign → fits vsize valign → count * ksize <= SIZE_MAX → count * vsize <= SIZE_MAX →
     mallocs (1 + 3 * Z.to_nat count) (kalign `max` valign) w → Forall (λ e, copyable kt e.1 ∧ copyable vt e.2) entries →
     st = (put_many limit dup entries []).1).
Proof using KeyOrder0.
  intros H Hck Hcv (st0 & r0 & w0 & E0 & Hst & Hml0 & Hlive0) entries. unfold map_from_common. cbn [is_null orb]. rewrite andb_false_r.
  destruct (negb (count =? 0) && _) eqn:Hbig.
  { do 3 eexists. split; [done|]. unfold rebuilt. rewrite bool_decide_false by done. split; [done|]. intros _ _ Hk Hv. exfalso.
    apply andb_prop in Hbig as [Hz Hbig]. apply negb_true_iff, Z.eqb_neq in Hz.
    apply orb_prop in Hbig as [Hbig|Hbig]; apply Z.ltb_lt in Hbig.
    - pose proof (Z.div_le_lower_bound SIZE_MAX count ksize ltac:(lia) ltac:(lia)). lia.
    - pose proof (Z.div_le_lower_bound SIZE_MAX count vsize ltac:(lia) ltac:(lia)). lia. }
  wstep E0. case_bool_decide as Hst0; cbn [negb]; cycle 1.
  { do 3 eexists. split; [done|]. unfold rebuilt. rewrite bool_decide_false by done. destruct Hst as [_ Hw]. split; [done|].
    intros Hfk Hfv _ _ Hmal _. by destruct Hst0; eapply Hlive0. }
  destruct Hst as (tree & -> & Hok & Hdup & Hlim & Hkt & Hvt & Hroom & Hb0 & Ho0).
  change (default [] (Some ks)) with ks. change (default [] (Some vs)) with vs. unfold zip_arrays.
  rewrite (proj2 (Z.ltb_ge (alen ks) count)), (proj2 (Z.ltb_ge (alen vs) count)) by lia. cbn [orb]. wrun. fold entries.
  set (m0 := map_bump (with_impl map_zero (Some tree))).
  assert (map_holds cmp dup m0 []) as Hm0 by (by exists tree, Nil).
  assert (map_entry_limit (Some m0) = limit) as Hl0 by done.
  assert (length entries = Z.to_nat count) as Hlen by (unfold entries; rewrite length_zip_with_l, length_take; rewrite ?length_take; unfold alen in *; lia).
  destruct (put_all_map_ok dup entries m0 [] w0 Hm0) as (st & m1 & w1 & E1 & Hres & Hlive). wstep E1. rewrite Hl0 in Hres, Hlive.
  assert (map_blocks m0 [] = 1 ∧ map_objects m0 [] = 0) as [Hbm Hom] by (unfold map_blocks, map_objects, alen; cbn; lia).
  assert (fits ksize kalign → fits vsize valign → mallocs (1 + 3 * Z.to_nat count) (kalign `max` valign) w →
    Forall (λ e, copyable kt e.1 ∧ copyable vt e.2) entries → st = (put_many limit dup entries []).1) as Hl.
  { intros Hfk Hfv Hmal Hcp. destruct (Hroom Hfk Hfv) as [Hr Ha]. apply (Hlive tree eq_refl). split; [done|]. rewrite Ha, Hlen. split; [by apply Hml0|].
    unfold all_copyable. by rewrite Hkt, Hvt. }
  case_bool_decide as Hst; cbn [negb]; cycle 1.
  { do 3 eexists. split; [done|]. unfold rebuilt. rewrite bool_decide_false by done. destruct Hres as (_ & Hb & Ho).
    split; [split; [done|]; split; lia|]. naive_solver. }
  wrun. destruct Hres as (es' & Hmany & Hh & Hsame & Hb & Ho). set (m2 := MkMap _ _ _ _ _).
  assert (map_holds cmp dup m2 es' ∧ map_blocks m2 es' = map_blocks m1 es' ∧ map_objects m2 es' = map_objects m1 es') as (Hh2 & Hb2 & Ho2).
  { split; [|done]. destruct Hh as (t1 & sh & ? & ? & ?). by exists t1, sh. }
  assert (map_entry_limit (Some m2) = limit) as Hl2 by (rewrite <-Hl0, <-(same_tree_limit _ _ Hsame); done).
  assert (∃ w2, (if negb (is_null (mp_impl m)) then rbtree_destroy (mp_impl m) else mret tt) w1 = Some (tt, w2) ∧
    w_blocks w2 = w_blocks w1 - map_blocks m es ∧ w_objects w2 = w_objects w1 - map_objects m es) as (w2 & E2 & Hb3 & Ho3).
  { unfold map_blocks, map_objects. destruct H as [[-> ->]|(tr & t & -> & Hok' & _)]; cbn [is_null negb].
    - exists w1. split; [done|]. lia.
    - destruct (destroy_tree_ok cmp tr t es w1 Hok') as (w2 & E & _ & ? & ?). exists w2. split; [done|]. lia. }
  wstep E2. exists STL_OK, (Some m2), w2. split; [done|]. split; [|naive_solver]. unfold rebuilt. rewrite bool_decide_true by done.
  exists m2, es'. do 5 (split; [done|]). lia.
Qed.

(** C9. Building an ordered map or multimap from two arrays is all or
    nothing: on success the handle holds the sorted list that putting the
    entries one by one into an empty one gives, and what it held before is
    destroyed; on any failure the handle is as it was and what had been built
    is returned to the last block and object. With memory for the tree and
    three blocks per entry the answer is that of the list: success, or the
    limit is reached. *)
Theorem map_from_arrays_exact dup m es ks vs count ksize kalign vsize valign limit w :
  handle_holds dup m es → is_u64 ksize → is_u64 kalign → is_u64 vsize → is_u64 valign → is_u64 limit →
  0 <= count <= alen ks → count <= alen vs →
  let entries := zip (take (Z.to_nat count) ks) (take (Z.to_nat count) vs) in
  ∃ st r w', map_from_arrays_bytes dup (Some m) (Some ks) (Some vs) count ksize kalign vsize valign limit (Some cmp) w = Some ((st, r), w') ∧
    rebuilt dup limit entries m es w st r w' ∧
    (fits ksize kalign → fits vsize valign → count * ksize <= SIZE_MAX → count * vsize <= SIZE_MAX →
     mallocs (1 + 3 * Z.to_nat count) (kalign `max` valign) w → st = (put_many limit dup entries []).1).
Proof using KeyOrder0.
  intros H Hks Hka Hvs Hva Hlim Hck Hcv entries. unfold map_from_arrays_bytes.
  destruct (map_from_common_ok dup m es ks vs count ksize kalign vsize valign limit None None
    (map_init_bytes dup (Some map_zero) ksize kalign vsize valign limit (Some cmp)) w H Hck Hcv) as (st & r & w' & E & Hr & Hlive).
  { unfold map_init_bytes. cbn [is_null]. by apply initialize_map_ok. }
  exists st, r, w'. split; [done|]. split; [done|]. intros. apply Hlive; try done. by apply Forall_true.
Qed.
End Build.
