(* ===== verification/OrdMapIter.v ===== *)
(** * The ordered maps: iteration ([cstl/src/map.c], [cstl/src/multimap.c])

    An iterator over a map with [n] entries is a position from 0 to [n]; the
    operations on iterators are arithmetic on positions, and the keys and
    values they give are the entries of the sorted list. Range cursors visit
    the same positions. *)

From stdpp Require Import gmap.
From S2P Require Import Prelude World Sequence RbTree RbShape RbInsert RbDelete RbOrder RbChain RbSpec OrdMap OrdMapSpec.
Local Open Scope Z_scope.

Section Iter.
Context {K V : Type} {AL : Allocator} (cmp : K → K → Z) `{!KeyOrder cmp}.
Implicit Types (m : map_t K V) (es : list (K * V)) (tree : rbtree_t K V) (mem : gmap Z (map_t K V)) (l : list Z).

(** The position [i] of the map at the address [p] whose nodes are [l]. *)
Definition it_at (p : Z) l (i : nat) : map_iter_t := MkIter (Some p) (l !! i).
Definition cursor_at (p : Z) l (i : nat) : cmeta_range_cursor := MkCursor (l !! i) (Some p).

(** The object in the memory an object pointer points to. *)
Definition object_value {A} (o : object A) : option A := x ← o; x.2.

Lemma first_lookup l : first l None = l !! O.
Proof using Type. by destruct l. Qed.

Lemma final_lookup l : final None l = l !! pred (length l).
Proof using Type. unfold final. rewrite last_lookup. by destruct (l !! _). Qed.

Section At.
Context (tree : rbtree_t K V) (t : shape) (es : list (K * V)) (H : rb_ok cmp tree t es).

(** The node at a position, its entry and its neighbours. *)
Lemma node_position i e : es !! i = Some e → ∃ a n, inorder t !! i = Some a ∧ rb_nodes tree !! a = Some n ∧
  key_of n = Some e.1 ∧ value_of n = Some e.2 ∧ n_next n = inorder t !! S i ∧
  n_previous n = (if bool_decide (i = O) then None else inorder t !! pred i).
Proof using H.
  intros He. pose proof (ro_contents _ _ _ _ H) as Hc. destruct (Forall2_lookup_r _ _ _ _ _ Hc He) as (a & Ha & n & Hn & Hk & Hv).
  exists a, n. split; [done|]. split; [done|]. split; [done|]. split; [done|]. destruct (ro_chained _ _ _ _ H) as (Hch & _).
  pose proof (take_drop_middle _ _ _ Ha) as El. rewrite <-El in Hch. pose proof (lookup_lt_Some _ _ _ Ha) as Hlt.
  destruct (chain_node _ _ _ _ _ Hch Hn) as [-> ->]. split; [by rewrite first_lookup, lookup_drop, Nat.add_0_r|].
  rewrite final_lookup, length_take, Nat.min_l by lia. case_bool_decide as Hi; [by subst|]. by rewrite lookup_take_lt by lia.
Qed.

Lemma nodes_length : length (inorder t) = length es.
Proof using H. exact (contents_length _ _ _ (ro_contents _ _ _ _ H)). Qed.

Lemma past_nodes i : (length es <= i)%nat → inorder t !! i = None.
Proof using H. intros ?. apply lookup_ge_None. by rewrite nodes_length. Qed.

Lemma position_unique i j : (i <= length es)%nat → (j <= length es)%nat → inorder t !! i = inorder t !! j → i = j.
Proof using H.
  intros Hi Hj E. pose proof (lo_nodup _ _ _ (ro_located _ _ _ _ H)) as Hn. cbn in Hn. rewrite <-nodes_length in Hi, Hj.
  destruct (inorder t !! i) as [a|] eqn:Ea; [by eapply NoDup_lookup|].
  symmetry in E. apply lookup_ge_None in Ea, E. lia.
Qed.
End At.

(** The claims of the theorem below about one position. *)
Record position_ok mem (p : Z) l es (i : nat) : Prop := {
  po_next : map_iter_next mem (Some (it_at p l i)) =
    Some (if bool_decide (i < length es)%nat then (STL_OK, Some (it_at p l (S i))) else (STL_NOT_FOUND, Some (it_at p l i)));
  po_prev : map_iter_prev mem (Some (it_at p l i)) =
    Some (if bool_decide (i = O) then (STL_NOT_FOUND, Some (it_at p l i)) else (STL_OK, Some (it_at p l (pred i))));
  po_key : object_value <$> map_iter_key_const mem (it_at p l i) = Some (fst <$> es !! i);
  po_value : object_value <$> map_iter_value mem (it_at p l i) = Some (snd <$> es !! i);
  po_range : match map_range_next mem (Some p) (cursor_at p l i) with
    | None => False
    | Some (None, c) => es !! i = None ∧ c = cursor_at p l i
    | Some (Some (k, v), c) => ∃ e, es !! i = Some e ∧ object_value k = Some e.1 ∧ object_value v = Some e.2 ∧ c = cursor_at p l (S i)
    end
}.

(** Two steps of a range that end it or give the same entry and cursor. *)
Definition range_same (r1 r2 : option (option (object K * object V) * cmeta_range_cursor)) : Prop :=
  match r1, r2 with
  | Some (Some x, c1), Some (Some y, c2) => x = y ∧ c1 = c2
  | Some (None, _), Some (None, _) => True
  | _, _ => False
  end.

Lemma position_steps mem p m tree t es i :
  mem !! p = Some m → mp_impl m = Some tree → rb_ok cmp tree t es → (i <= length es)%nat → position_ok mem p (inorder t) es i.
Proof using Type.
  intros Hp Hm H Hi. assert (tree_at mem (Some p) = Some tree) as Ht by (unfold tree_at, map_tree; cbn [mbind option_bind]; rewrite Hp; exact Hm).
  destruct (es !! i) as [e|] eqn:Ee.
  - destruct (node_position tree t es H i e Ee) as (a & n & Ha & Hn & Hk & Hv & Hx & Hpv). pose proof (lookup_lt_Some _ _ _ Ee).
    pose proof (node_at_run _ _ _ Hn) as Hr.
    assert (is_null (n_previous n) = bool_decide (i = O)) as Hnull.
    { rewrite Hpv. case_bool_decide; [done|]. destruct (lookup_lt_is_Some_2 es (pred i)) as [e' He']; [lia|].
      destruct (node_position tree t es H _ e' He') as (a' & _ & -> & _). done. }
    split; unfold map_iter_next, map_iter_prev, map_iter_key_const, map_iter_value, map_range_next, it_at, cursor_at; cbn [it_owner it_node cu_map cu_node];
      rewrite Ht, ?Ha; cbn [is_null negb andb]; rewrite ?bool_decide_true by done; cbn [negb]; rewrite ?Hr; cbn [mbind option_bind fmap option_fmap option_map fst snd].
    + by rewrite Hx.
    + rewrite Hnull, Hpv. by case_bool_decide.
    + rewrite Ee. cbn. f_equal. exact Hk.
    + rewrite Ee. cbn. f_equal. exact Hv.
    + exists e. rewrite Hx. done.
  - pose proof (proj1 (lookup_ge_None _ _) Ee) as Hge. pose proof (past_nodes tree t es H i Hge) as Hn.
    destruct (ro_chained _ _ _ _ H) as (_ & _ & Htl). rewrite final_lookup, (nodes_length tree t es H) in Htl.
    split; unfold map_iter_next, map_iter_prev, map_iter_key_const, map_iter_value, map_range_next, it_at, cursor_at; cbn [it_owner it_node cu_map cu_node];
      rewrite Ht, ?Hn; cbn [is_null negb andb]; rewrite ?bool_decide_true by done; cbn [negb].
    + by rewrite bool_decide_false by lia.
    + assert (i = length es) as -> by lia. rewrite Htl. case_bool_decide as Hz; [by rewrite (past_nodes tree t es H) by lia|].
      destruct (lookup_lt_is_Some_2 es (pred (length es))) as [e' He']; [lia|].
      destruct (node_position tree t es H _ e' He') as (a' & _ & -> & _). done.
    + by rewrite Ee.
    + by rewrite Ee.
    + done.
Qed.

(** C10. The iterators of an ordered map or multimap are the positions of its
    sorted list of entries: [begin] is position 0 and [end] the position behind
    the last entry, [next] and [prev] move by one and refuse to leave the list,
    the key and the value at a position are those of the entry, the bounds of
    a key are the positions of its first entry and behind its last one, equality
    is equality of positions, and a range cursor visits the entries in order. *)
Theorem map_iteration_exact dup mem p m es :
  mem !! p = Some m → map_holds cmp dup m es →
  ∃ l, length l = length es ∧
    map_begin mem (Some p) = it_at p l 0 ∧ map_end (Some p) = it_at p l (length es) ∧
    (∀ k, map_lower_bound mem (Some p) (Some k) = Some (it_at p l (length (lower cmp k es)))) ∧
    (∀ k, map_upper_bound mem (Some p) (Some k) = Some (it_at p l (length (lower cmp k es) + length (same cmp k es)))) ∧
    (∀ i j, (i <= length es)%nat → (j <= length es)%nat → map_iter_equal (it_at p l i) (it_at p l j) = bool_decide (i = j)) ∧
    (∀ c, cu_map c = None → range_same (map_range_next mem (Some p) c) (map_range_next mem (Some p) (cursor_at p l 0))) ∧
    ∀ i, (i <= length es)%nat → position_ok mem p l es i.
Proof using KeyOrder0.
  intros Hp (tree & t & Hm & H & Hd). exists (inorder t).
  assert (tree_at mem (Some p) = Some tree) as Ht by (unfold tree_at, map_tree; cbn [mbind option_bind]; rewrite Hp; exact Hm).
  destruct (ro_chained _ _ _ _ H) as (_ & Hh & _). rewrite first_lookup in Hh. pose proof (nodes_length tree t es H) as Hlen.
  split; [done|]. split; [unfold map_begin, it_at; by rewrite Ht, Hh|]. split; [unfold map_end, it_at; by rewrite (past_nodes tree t es H) by done|].
  split; [|split; [|split; [|split]]].
  - intros k. unfold map_lower_bound. rewrite Ht. destruct (bounds_ok cmp tree t es k H) as (lL & lE & lG & El & CL & CE & CG & -> & _).
    cbn [mbind option_bind]. unfold it_at. by rewrite El, <-(contents_length _ _ _ CL), first_lookup, (lookup_app_r lL), Nat.sub_diag by done.
  - intros k. unfold map_upper_bound. rewrite Ht. destruct (bounds_ok cmp tree t es k H) as (lL & lE & lG & El & CL & CE & CG & _ & ->).
    cbn [mbind option_bind]. unfold it_at.
    rewrite El, <-(contents_length _ _ _ CL), <-(contents_length _ _ _ CE), first_lookup, app_assoc.
    rewrite lookup_app_r by (rewrite length_app; lia). by rewrite length_app, Nat.sub_diag.
  - intros i j Hi Hj. unfold map_iter_equal, it_at. cbn [it_owner it_node]. rewrite bool_decide_true by done. cbn [andb]. apply bool_decide_ext.
    split; [|by intros ->]. by apply (position_unique tree t es H).
  - intros c Hc. pose proof (po_range _ _ _ _ _ (position_steps mem p m tree t es 0 Hp Hm H ltac:(lia))) as Hr. revert Hr.
    unfold map_range_next. rewrite Ht, Hc. cbn [is_null negb andb cursor_at cu_map cu_node]. rewrite bool_decide_true, Hh by done. cbn [negb].
    destruct (inorder t !! 0%nat); [|done]. by destruct (node_at _ _).
  - intros i Hi. by eapply position_steps.
Qed.
End Iter.
