(* ===== verification/OrdSet.v ===== *)
(** * The ordered set ([cstl/src/set.c], [cstl/include/cstl/set.h])

    A set is an ordered map from its elements to a presence byte. The
    operations are those of [OrdMap], called through; the refinement carries
    over to a strictly sorted list of elements. *)

From stdpp Require Import gmap.
From S2P Require Import Prelude World Sequence HashSet RbTree RbShape RbInsert RbDelete RbOrder RbChain RbSpec OrdMap OrdMapSpec OrdMapBuild.
Local Open Scope Z_scope.

Record set_t (K : Type) := MkSet {
  st_descriptor : option Z;
  st_element_type : option (cmeta_type_desc K);
  st_map : map_t K Z
}.
#[global] Arguments MkSet {K} _ _ _.
#[global] Arguments st_descriptor {K} _.
#[global] Arguments st_element_type {K} _.
#[global] Arguments st_map {K} _.

Section OrdSet.
Context {K : Type} {AL : Allocator}.
Implicit Types (set : option (set_t K)) (s : set_t K).

(** The set whose map a call leaves behind. *)
Definition set_keep s (m : option (map_t K Z)) : option (set_t K) := MkSet (st_descriptor s) (st_element_type s) <$> m.
(** [set_t temporary = {0}]. *)
Definition set_empty_handle : set_t K := MkSet None None map_zero.

Definition set_raw_init set (key_type : option (cmeta_type_desc K)) (element_limit : Z) : M (stl_status * option (set_t K)) :=
  match set with
  | None => mret (STL_INVALID_ARGUMENT, None)
  | Some s =>
      '(status, m) ← map_raw_init false (Some (st_map s)) key_type (Some cmeta_type_bool) element_limit;
      mret (status, set_keep s m)
  end.

(** A presence byte has size and alignment 1. *)
Definition set_init_bytes set (key_size key_align element_limit : Z) (compare : option (K → K → Z)) :
    M (stl_status * option (set_t K)) :=
  match set with
  | None => mret (STL_INVALID_ARGUMENT, None)
  | Some s =>
      '(status, m) ← map_init_bytes false (Some (st_map s)) key_size key_align 1 1 element_limit compare;
      mret (status, set_keep s m)
  end.

Definition set_raw_destroy_storage set : M (option (set_t K)) :=
  match set with
  | None => mret None
  | Some s => m ← map_raw_destroy_storage (Some (st_map s)); mret (set_keep s m)
  end.

Definition set_clear set : M (option (set_t K)) :=
  match set with
  | None => mret None
  | Some s => m ← map_clear (Some (st_map s)); mret (set_keep s m)
  end.

Definition set_add set (key : option K) : M (stl_status * option (set_t K)) :=
  match set, key with
  | Some s, Some _ =>
      present ← lift (map_contains (Some (st_map s)) key);
      if present : bool then mret (STL_OK, set) else
      '(status, m) ← map_put (Some (st_map s)) key (Some 1);
      mret (status, set_keep s m)
  | _, _ => mret (STL_INVALID_ARGUMENT, set)
  end.

Definition set_contains set (key : option K) : option bool :=
  match set with
  | None => Some false
  | Some s => map_contains (Some (st_map s)) key
  end.

Definition set_remove set (key : option K) : M (stl_status * option (set_t K)) :=
  match set with
  | None => mret (STL_INVALID_ARGUMENT, None)
  | Some s => '(status, _, m) ← map_remove (Some (st_map s)) key false; mret (status, set_keep s m)
  end.

Definition set_size set : Z := match set with None => 0 | Some s => map_size (Some (st_map s)) end.
Definition set_element_limit set : Z := match set with None => 0 | Some s => map_entry_limit (Some (st_map s)) end.
Definition set_generation set : Z := match set with None => 0 | Some s => map_generation (Some (st_map s)) end.
Definition set_empty set : bool := set_size set =? 0.

(** ** Construction from an array *)

Fixpoint set_add_all (temporary : option (set_t K)) (keys : list K) : M (stl_status * option (set_t K)) :=
  match keys with
  | [] => mret (STL_OK, temporary)
  | k :: keys =>
      '(status, temporary) ← set_add temporary (Some k);
      if negb (bool_decide (status = STL_OK)) then
        temporary ← set_raw_destroy_storage temporary; mret (status, temporary)
      else set_add_all temporary keys
  end.

Definition set_from_common set (keys : option (list K)) (count : Z) (key_type : option (cmeta_type_desc K))
    (key_size key_align element_limit : Z) (compare : option (K → K → Z)) : M (stl_status * option (set_t K)) :=
  match set with
  | None => mret (STL_INVALID_ARGUMENT, set)
  | Some s =>
      if negb (count =? 0) && is_null keys then mret (STL_INVALID_ARGUMENT, set) else
      if negb (count =? 0) && (SIZE_MAX / count <? key_size) then mret (STL_CAPACITY_EXCEEDED, set) else
      '(status, temporary) ← (if negb (is_null key_type) then set_raw_init (Some set_empty_handle) key_type element_limit
        else set_init_bytes (Some set_empty_handle) key_size key_align element_limit compare);
      if negb (bool_decide (status = STL_OK)) then mret (status, set) else
      ks ← lift (if alen (default [] keys) <? count then None else Some (take (Z.to_nat count) (default [] keys)));
      '(status, temporary) ← set_add_all temporary ks;
      if negb (bool_decide (status = STL_OK)) then mret (status, set) else
      t ← lift temporary;
      let generation := u64 (set_generation set + 1) in
      _ ← set_raw_destroy_storage set;
      let m := st_map t in
      mret (STL_OK, Some (MkSet (st_descriptor t) (st_element_type t)
        (MkMap (mp_descriptor m) (mp_key_type m) (mp_value_type m) (mp_impl m) generation)))
  end.

Definition set_raw_from_array set (keys : option (list K)) (count : Z) (key_type : option (cmeta_type_desc K))
    (element_limit : Z) : M (stl_status * option (set_t K)) :=
  match key_type with
  | None => mret (STL_INVALID_ARGUMENT, set)
  | Some kt => set_from_common set keys count key_type (ty_size kt) (ty_align kt) element_limit None
  end.

Definition set_from_array_bytes set (keys : option (list K)) (count key_size key_align element_limit : Z)
    (compare : option (K → K → Z)) : M (stl_status * option (set_t K)) :=
  set_from_common set keys count None key_size key_align element_limit compare.

(** ** The handle that is bound to an element type ([set.h]) *)

Definition set_init set (element_limit : Z) : M (stl_status * option (set_t K)) :=
  match set with
  | None => mret (STL_INVALID_ARGUMENT, set)
  | Some s =>
      if is_null (st_element_type s) then mret (STL_INVALID_ARGUMENT, set)
      else set_raw_init set (st_element_type s) element_limit
  end.

Definition set_from_array set (keys : option (list K)) (count element_limit : Z) : M (stl_status * option (set_t K)) :=
  match set with
  | None => mret (STL_INVALID_ARGUMENT, set)
  | Some s =>
      if is_null (st_element_type s) then mret (STL_INVALID_ARGUMENT, set) else
      '(status, set) ← set_raw_from_array set keys count (st_element_type s) element_limit;
      mret (status, (λ s', MkSet (st_descriptor s) (st_element_type s) (st_map s')) <$> set)
  end.

Definition set_destroy set : M (option (set_t K)) :=
  match set with None => mret set | Some _ => set_raw_destroy_storage set end.

(** ** Iterators *)

(** The sets in memory, by address; [&set->map] is named by the same address. *)
Implicit Types (mem : gmap Z (set_t K)).
Definition maps_of mem : gmap Z (map_t K Z) := st_map <$> mem.

Record set_iter_t := MkSetIter { si_owner : ptr; si_node : ptr }.

Definition set_iterator (set : ptr) (iterator : map_iter_t) : set_iter_t := MkSetIter set (it_node iterator).
Definition set_begin mem (set : ptr) : set_iter_t := set_iterator set (map_begin (maps_of mem) set).
Definition set_end (set : ptr) : set_iter_t := set_iterator set (map_end set).
Definition set_lower_bound mem (set : ptr) (key : option K) : option set_iter_t :=
  it ← map_lower_bound (maps_of mem) set key; Some (set_iterator set it).
Definition set_upper_bound mem (set : ptr) (key : option K) : option set_iter_t :=
  it ← map_upper_bound (maps_of mem) set key; Some (set_iterator set it).

(** The step of the map's iterator at the same place. *)
Definition set_step (step : option map_iter_t → option (stl_status * option map_iter_t)) (iterator : option set_iter_t) :
    option (stl_status * option set_iter_t) :=
  match iterator with
  | None => Some (STL_INVALID_ARGUMENT, iterator)
  | Some it =>
      if is_null (si_owner it) then Some (STL_INVALID_ARGUMENT, iterator) else
      '(status, r) ← step (Some (MkIter (si_owner it) (si_node it)));
      match r with
      | Some r => Some (status, Some (if bool_decide (status = STL_OK) then MkSetIter (si_owner it) (it_node r) else it))
      | None => None
      end
  end.
Definition set_iter_next mem := set_step (map_iter_next (maps_of mem)).
Definition set_iter_prev mem := set_step (map_iter_prev (maps_of mem)).

Definition set_iter_equal (left right : set_iter_t) : bool :=
  bool_decide (si_owner left = si_owner right) && bool_decide (si_node left = si_node right).

Definition set_iter_value_const mem (it : set_iter_t) : option (object K) :=
  if is_null (si_owner it) then Some None else map_iter_key_const (maps_of mem) (MkIter (si_owner it) (si_node it)).

Definition set_range_next mem (set : ptr) (cursor : cmeta_range_cursor) : option (option (object K) * cmeta_range_cursor) :=
  if is_null set then Some (None, cursor) else
  match map_range_next (maps_of mem) set cursor with
  | Some (Some (key, _), c) => Some (Some key, c)
  | Some (None, c) => Some (None, c)
  | None => None
  end.
End OrdSet.

(** ** The set of elements *)

Section Spec.
Context {K : Type} {AL : Allocator} (cmp : K → K → Z) `{!KeyOrder cmp}.
Implicit Types (s : set_t K) (ks : list K).

(** The elements below, at and above one. *)
Definition below (k : K) ks : list K := filter (λ x, 0 < cmp k x) ks.
Definition equals (k : K) ks : list K := filter (λ x, cmp k x = 0) ks.
Definition above (k : K) ks : list K := filter (λ x, cmp k x < 0) ks.

Inductive oset_op := OAdd (k : K) | ORemove (k : K) | OClear.

Definition oset_exec (op : oset_op) s : M (stl_status * option (set_t K)) :=
  match op with
  | OAdd k => set_add (Some s) (Some k)
  | ORemove k => set_remove (Some s) (Some k)
  | OClear => s ← set_clear (Some s); mret (STL_OK, s)
  end.

(** The same on a strictly sorted list. *)
Definition keys_list (limit : Z) (op : oset_op) ks : stl_status * list K :=
  match op with
  | OAdd k =>
      if negb (bool_decide (equals k ks = [])) then (STL_OK, ks) else
      if limit <=? alen ks then (STL_CAPACITY_EXCEEDED, ks) else (STL_OK, below k ks ++ k :: above k ks)
  | ORemove k => if bool_decide (equals k ks = []) then (STL_NOT_FOUND, ks) else (STL_OK, below k ks ++ above k ks)
  | OClear => (STL_OK, [])
  end.

Definition bool_values (m : map_t K Z) : Prop :=
  ∃ tree, mp_impl m = Some tree ∧ (rb_value_type tree = None ∨ rb_value_type tree = Some cmeta_type_bool).

(** A live set with the elements [ks]; a typed one keeps [bool]s. *)
Definition set_holds s ks : Prop := ∃ es, map_holds cmp false (st_map s) es ∧ ks = es.*1 ∧ bool_values (st_map s).

(** Blocks and objects of [n] elements. *)
Definition set_blocks s (n : Z) : Z := match mp_impl (st_map s) with None => 0 | Some _ => 1 + 3 * n end.
Definition set_objects s (n : Z) : Z := match mp_impl (st_map s) with None => 0 | Some tree => entry_objects tree * n end.

Definition oset_fits s (op : oset_op) (w : world) : Prop :=
  match op with
  | OAdd k => ∀ tree, mp_impl (st_map s) = Some tree → rb_roomy tree ∧ mallocs 3 (rb_align tree) w ∧ copyable (rb_key_type tree) k
  | _ => True
  end.

Record oset_post s ks (op : oset_op) (w : world) (st : stl_status) s' ks' (w' : world) : Prop := {
  osp_holds : set_holds s' ks';
  osp_bound : st_descriptor s' = st_descriptor s ∧ st_element_type s' = st_element_type s;
  osp_step : (st, ks') = keys_list (set_element_limit (Some s)) op ks ∨
    ((keys_list (set_element_limit (Some s)) op ks).1 = STL_OK ∧ st ≠ STL_OK ∧ ks' = ks);
  osp_size : set_size (Some s') = alen ks' ∧ set_element_limit (Some s') = set_element_limit (Some s);
  osp_contains k : set_contains (Some s') (Some k) = Some (negb (bool_decide (equals k ks' = [])));
  osp_blocks : w_blocks w' - set_blocks s' (alen ks') = w_blocks w - set_blocks s (alen ks);
  osp_objects : w_objects w' - set_objects s' (alen ks') = w_objects w - set_objects s (alen ks);
  osp_enough : oset_fits s op w → st = (keys_list (set_element_limit (Some s)) op ks).1
}.

Lemma keys_filter (P : K → Prop) `{∀ x, Decision (P x)} (es : list (K * Z)) : (filter (λ e, P e.1) es).*1 = filter P es.*1.
Proof using Type.
  induction es as [|[k v] es IH]; [done|]. cbn [fmap list_fmap]. rewrite !filter_cons. cbn [fst]. case_decide; cbn; by rewrite IH.
Qed.

Lemma keys_same k (es : list (K * Z)) : (equals k es.*1 = []) ↔ same cmp k es = [].
Proof using Type.
  unfold equals. rewrite <-(keys_filter (λ x, cmp k x = 0)). fold (same cmp k es). destruct (same cmp k es); done.
Qed.

Lemma alen_keys (es : list (K * Z)) : alen es.*1 = alen es.
Proof using Type. unfold alen. by rewrite length_fmap. Qed.

Lemma set_contains_ok s ks k : set_holds s ks → map_contains (Some (st_map s)) (Some k) = Some (negb (bool_decide (equals k ks = []))).
Proof using KeyOrder0.
  intros (es & H & -> & _). destruct (map_get_ok cmp _ es k H) as [_ ->]. do 2 f_equal. apply bool_decide_ext. by rewrite keys_same.
Qed.

Lemma set_size_ok s ks : set_holds s ks → set_size (Some s) = alen ks.
Proof using KeyOrder0.
  intros (es & (tree & t & Hm & H & _) & -> & _). unfold set_size, map_size. change (map_tree (Some (st_map s))) with (mp_impl (st_map s)).
  rewrite Hm, alen_keys. apply (ro_size _ _ _ _ H).
Qed.

(** A map after a call, seen as a set. *)
Lemma oset_step s es op mop w st m' es' w' spec :
  map_holds cmp false (st_map s) es → bool_values (st_map s) →
  map_post cmp (st_map s) es mop spec false w st None m' es' w' →
  keys_list (set_element_limit (Some s)) op es.*1 = (spec.1.1, spec.2.*1) → (oset_fits s op w → op_fits (st_map s) mop w) →
  oset_post s es.*1 op w st (MkSet (st_descriptor s) (st_element_type s) m') es'.*1 w'.
Proof using KeyOrder0.
  intros H (tree & Hm & Hv) [Hh Hsame Hstep _ Hb Ho Hen] Hspec Hfit. cbn [is_null] in Ho.
  destruct Hsame as (_ & _ & _ & t0 & tree' & Hm0 & Hm' & Hcfg). simplify_eq. destruct (config_fields _ _ Hcfg) as (_ & El & _ & Ev).
  set (s' := MkSet _ _ _). assert (set_holds s' es'.*1) as Hs'.
  { exists es'. split; [done|]. split; [done|]. exists tree'. split; [done|]. by rewrite Ev. }
  split; rewrite ?Hspec; cbn [fst snd]; try done.
  - destruct Hstep as [<-|(? & ? & _ & ->)]; [by left|by right].
  - split; [by apply set_size_ok|]. unfold set_element_limit, map_entry_limit. cbn. by rewrite Hm, Hm'.
  - intros k. by apply set_contains_ok.
  - unfold set_blocks, map_blocks in *. cbn [st_map s']. by rewrite !alen_keys.
  - unfold set_objects, map_objects in *. cbn [st_map s']. rewrite !alen_keys. lia.
  - auto.
Qed.

Lemma bool_value_copyable (m : map_t K Z) tree : bool_values m → mp_impl m = Some tree → copyable (rb_value_type tree) 1.
Proof using Type. intros (tr & E1 & Hv) E2. simplify_eq. destruct Hv as [->| ->]; [done|]. exists cmeta_traits_bool, Some. do 2 (split; [done|]). by eexists. Qed.

(** C8. An ordered set behaves as a strictly sorted list of elements below a
    limit: adding an element that is there changes nothing, adding a new one
    puts it at its place, removing takes exactly the equal element away,
    clearing drops all; a call that runs out of memory leaves the set as it
    was. After each call [set_contains] and [set_size] answer from that list,
    and the memory is accounted for. *)
Theorem ordered_set_refines s ks op w :
  set_holds s ks →
  ∃ st s' ks' w', oset_exec op s w = Some ((st, Some s'), w') ∧ oset_post s ks op w st s' ks' w'.
Proof using KeyOrder0.
  intros Hs. pose proof Hs as (es & H & -> & Hv). destruct op as [k|k|]; cbn [oset_exec].
  - unfold set_add. rewrite (set_contains_ok s es.*1 k Hs). wrun. destruct (bool_decide (equals k es.*1 = [])) eqn:Hb; cbn [negb]; cycle 1.
    { exists STL_OK, s, es.*1, w. split; [done|]. split; try done; cbn [keys_list]; rewrite ?Hb; cbn [negb]; [by left|..].
      - by split; [apply set_size_ok|].
      - intros k'. by apply set_contains_ok.
      - done. }
    destruct (put_post_ok cmp false (st_map s) es k 1 w H) as (st & m' & es' & w' & E & Hpost & _). wstep E.
    exists st, (MkSet (st_descriptor s) (st_element_type s) m'), es'.*1, w'. split; [done|]. eapply oset_step; [done|done|exact Hpost|..].
    + cbn [keys_list list_exec]. unfold put_spec. rewrite Hb. apply bool_decide_eq_true, keys_same in Hb. rewrite bool_decide_true by done. cbn [negb andb].
      rewrite alen_keys. change (set_element_limit (Some s)) with (map_entry_limit (Some (st_map s))). destruct (_ <=? _); [done|]. cbn [fst snd].
      rewrite Hb. cbn [app]. rewrite fmap_app, fmap_cons. unfold below, above, lower, upper. by rewrite <-!keys_filter.
    + intros Hf tree Hm. destruct (Hf tree Hm) as (? & ? & ?). do 3 (split; [done|]). by eapply bool_value_copyable.
  - unfold set_remove. destruct (remove_post_ok cmp (st_map s) es k false w H) as (st & out & m' & es' & w' & E & Hpost).
    assert (out = None) as ->.
    { destruct (mpo_step _ _ _ _ _ _ _ _ _ _ _ _ Hpost) as [E'|(_ & _ & ? & _)]; [|done]. cbn [list_exec] in E'. by destruct (same cmp k es); simplify_eq. }
    wstep E. exists st, (MkSet (st_descriptor s) (st_element_type s) m'), es'.*1, w'. split; [done|]. eapply oset_step; [done|done|exact Hpost| |done].
    cbn [keys_list list_exec]. rewrite (bool_decide_ext _ _ (keys_same k es)). destruct (same cmp k es); [done|].
    rewrite bool_decide_false by done. cbn [fst snd]. rewrite fmap_app. unfold below, above, lower, upper. by rewrite <-!keys_filter.
  - unfold set_clear. destruct (clear_post_ok cmp false (st_map s) es w H) as (m' & es' & w' & E & Hpost).
    erewrite run_bind; [|by wstep E]. exists STL_OK, (MkSet (st_descriptor s) (st_element_type s) m'), es'.*1, w'. split; [done|]. by eapply oset_step.
Qed.
End Spec.
