(* ===== verification/OrdExample.v ===== *)
(** * The ordered containers: examples

    Integers ordered by their difference; a tree, a map and a set with three
    elements are built by the operations themselves, and the theorems applied
    to them. *)

From stdpp Require Import gmap.
From S2P Require Import Prelude World Sequence HashSet RbTree RbShape RbInsert RbDelete RbOrder RbChain RbSpec OrdMap OrdMapSpec OrdMapBuild OrdMapIter OrdSet.
Local Open Scope Z_scope.

Module ExampleTree.

#[export] Instance sub_order : KeyOrder Z.sub.
Proof. split; lia. Qed.

Definition memory (n : nat) : world := MkWorld (replicate n (Some 4096)) 0 0.

(** What a call leaves in the tree. *)
Definition tree_of {A} (r : option (A * option (rbtree_t Z Z) * world)) : option (rbtree_t Z Z) := '(_, tree, _) ← r; tree.
Definition put (k v : Z) (tree : option (rbtree_t Z Z)) : option (rbtree_t Z Z) := tree_of (rbtree_put tree (Some k) (Some v) (memory 3)).
Definition empty_tree (dup : bool) : option (rbtree_t Z Z) :=
  tree_of (rbtree_create true None None 8 8 8 8 100 (Some Z.sub) dup (memory 1)).

(** The keys 1, 2 and 3, put out of order; in the multimap 2 is there twice. *)
Definition three : option (rbtree_t Z Z) := put 2 20 (put 1 10 (put 3 30 (empty_tree false))).
Definition doubled : option (rbtree_t Z Z) := put 2 21 (put 1 10 (put 2 20 (empty_tree true))).

(** A tree of the example with the entries [es]. *)
Definition example_ok (dup : bool) (o : option (rbtree_t Z Z)) (es : list (Z * Z)) : Prop :=
  ∃ tree t, o = Some tree ∧ rb_ok Z.sub tree t es ∧ rb_allow_duplicates tree = dup ∧ rb_element_limit tree = 100 ∧ rb_roomy tree ∧
    rb_align tree = 8 ∧ rb_key_type tree = None ∧ rb_value_type tree = None.

Lemma ample n : mallocs n 8 (memory n).
Proof.
  exists (replicate n 4096), []. split; [unfold memory; cbn; by rewrite app_nil_r, fmap_replicate|]. split; [by rewrite length_replicate|].
  apply Forall_replicate. by vm_compute.
Qed.

Lemma empty_tree_ok dup : example_ok dup (empty_tree dup) [].
Proof.
  destruct (rb_create_ok (V := Z) Z.sub None None 8 8 8 8 100 (Some Z.sub) dup (memory 1)) as (st & r & w' & E & Hres & _ & Hlive); [by vm_compute..|done|done|done|].
  assert (st = STL_OK) as -> by (apply (Hlive O 8); [done|done|apply ample]).
  rewrite bool_decide_true in Hres by done. destruct Hres as (tree & -> & H & El & Ed & Ek & Ev & Eka & Eva & Esk & Esv & _). exists tree, Nil.
  unfold empty_tree. rewrite E. split; [done|]. split; [done|]. split; [done|]. split; [done|]. unfold rb_roomy, rb_align. rewrite Eka, Eva.
  change (sequence_stride 8 8) with (STL_OK, Some 8) in Esk, Esv. injection Esk as Esk. injection Esv as Esv. rewrite <-Esk, <-Esv.
  split; [by vm_compute|]. done.
Qed.

Lemma put_tree_ok dup k v o es es' :
  example_ok dup o es → put_spec Z.sub 100 dup k v es = (STL_OK, (put_spec Z.sub 100 dup k v es).1.2, es') → example_ok dup (put k v o) es'.
Proof.
  intros (tree & t & -> & H & Hd & Hl & Hr & Ha & Hk & Hv) Hok.
  destruct (put_ok Z.sub tree t es k v (memory 3) H) as (st & res & tree' & t' & es1 & w' & E & [Pok Pcfg Pstep _ _ Pen _]).
  rewrite Hd, Hl, Hk, Hv, Ha in *. cbn zeta in Pstep. rewrite Hok in Pstep, Pen. assert (st = STL_OK) as -> by (apply Pen; [done|apply ample|done|done]).
  destruct Pstep as [[= -> ->]|(_ & ? & _)]; [|done]. exists tree', t'. unfold put. rewrite E. cbn. split; [done|]. split; [done|].
  unfold same_config in Pcfg. rewrite Pcfg. done.
Qed.

Lemma three_ok : example_ok false three [(1, 10); (2, 20); (3, 30)].
Proof. eapply put_tree_ok; [eapply put_tree_ok; [eapply put_tree_ok; [apply empty_tree_ok|]|]|]; by vm_compute. Qed.

Lemma doubled_ok : example_ok true doubled [(1, 10); (2, 20); (2, 21)].
Proof. eapply put_tree_ok; [eapply put_tree_ok; [eapply put_tree_ok; [apply empty_tree_ok|]|]|]; by vm_compute. Qed.

(** Handles with these trees. *)
Definition map_with (tree : option (rbtree_t Z Z)) : map_t Z Z := MkMap None None None tree 7.
Definition set_three : set_t Z := MkSet None None (map_with three).

Lemma map_with_ok dup tree es : example_ok dup tree es → map_holds Z.sub dup (map_with tree) es.
Proof. intros (tr & t & -> & H & Hd & _). by exists tr, t. Qed.

Lemma set_three_ok : set_holds Z.sub set_three [1; 2; 3].
Proof.
  exists [(1, 10); (2, 20); (3, 30)]. split; [apply map_with_ok, three_ok|]. split; [done|].
  destruct three_ok as (tr & t & E & _ & _ & _ & _ & _ & _ & Hv). exists tr. cbn. split; [exact E|by left].
Qed.
End ExampleTree.
Import ExampleTree.

Lemma rbtree_put_exact_witness :
  ∃ tree t, three = Some tree ∧ ∃ st res tree' t' es' w', rbtree_put (Some tree) (Some 4) (Some 40) (memory 3) = Some ((st, res, Some tree'), w') ∧
    put_post Z.sub tree [(1, 10); (2, 20); (3, 30)] 4 40 (memory 3) st res tree' t' es' w' ∧ rb_ok Z.sub tree t [(1, 10); (2, 20); (3, 30)].
Proof.
  destruct three_ok as (tree & t & E & H & _). exists tree, t. split; [exact E|].
  destruct (rbtree_put_exact Z.sub tree t [(1, 10); (2, 20); (3, 30)] 4 40 (memory 3) H) as (st & res & tree' & t' & es' & w' & Er & Hp).
  exists st, res, tree', t', es', w'. split; [exact Er|]. split; [exact Hp|exact H].
Defined.

Lemma rbtree_remove_exact_witness :
  ∃ tree a out tree' w', three = Some tree ∧ rbtree_find (Some tree) (Some 2) = Some (Some a) ∧
    rbtree_remove_node (Some tree) (Some a) true (memory 0) = Some ((STL_OK, Some out, Some tree'), w').
Proof.
  destruct three_ok as (tree & t & E & H & _). destruct (find_ok Z.sub tree t _ 2 H) as (p & Ep & Hp). destruct p as [a|]; [|discriminate Hp].
  destruct Hp as (es1 & e & es2 & Hat & _).
  destruct (rbtree_remove_exact Z.sub tree t _ a es1 e es2 true (memory 0) H Hat) as (tree' & t' & w' & Er & _).
  exists tree, a, e.2, tree', w'. split; [exact E|]. split; [exact Ep|exact Er].
Defined.

Lemma rbtree_search_exact_witness :
  ∃ tree p, three = Some tree ∧ rbtree_find (Some tree) (Some 2) = Some p ∧ find_node 5 tree 2 (rb_root tree) = Some p.
Proof.
  destruct three_ok as (tree & t & E & H & _).
  destruct (rbtree_search_exact Z.sub tree t _ 2 5 H) as [(p & E1 & E2 & _) _]; [vm_compute; lia|].
  exists tree, p. split; [exact E|]. split; [exact E1|exact E2].
Defined.

Lemma ordered_map_refines_witness :
  ∃ st out m' es' w', map_exec (MRemove 2 true) (map_with three) (memory 0) = Some ((st, out, Some m'), w') ∧
    map_post Z.sub (map_with three) [(1, 10); (2, 20); (3, 30)] (MRemove 2 true) (STL_OK, Some 20, [(1, 10); (3, 30)]) false (memory 0) st out m' es' w'.
Proof.
  apply (ordered_map_refines Z.sub (map_with three) [(1, 10); (2, 20); (3, 30)] (MRemove 2 true) (memory 0)). apply map_with_ok, three_ok.
Defined.

Lemma multimap_refines_witness :
  ∃ r m' es' w', multi_exec (UErase 2) (map_with doubled) (memory 0) = Some ((r, Some m'), w') ∧
    multi_post Z.sub (map_with doubled) [(1, 10); (2, 20); (2, 21)] (UErase 2) (memory 0) r m' es' w'.
Proof. apply (multimap_refines Z.sub (map_with doubled) [(1, 10); (2, 20); (2, 21)] (UErase 2) (memory 0)). apply map_with_ok, doubled_ok. Defined.

Lemma map_from_arrays_exact_witness :
  ∃ st r w', map_from_arrays_bytes false (Some (map_with three)) (Some [5; 4; 5]) (Some [50; 40; 51]) 3 8 8 8 8 100 (Some Z.sub) (memory 10) =
      Some ((st, r), w') ∧ rebuilt Z.sub false 100 [(5, 50); (4, 40); (5, 51)] (map_with three) [(1, 10); (2, 20); (3, 30)] (memory 10) st r w' ∧
    st = (put_many Z.sub 100 false [(5, 50); (4, 40); (5, 51)] []).1.
Proof.
  destruct (map_from_arrays_exact Z.sub false (map_with three) [(1, 10); (2, 20); (3, 30)] [5; 4; 5] [50; 40; 51] 3 8 8 8 8 100 (memory 10))
    as (st & r & w' & E & Hr & Hl); [right; apply map_with_ok, three_ok|by vm_compute..|].
  assert (fits 8 8) as Hf by (exists 8; split; [reflexivity|]; by vm_compute).
  exists st, r, w'. split; [exact E|]. split; [exact Hr|]. refine (Hl Hf Hf _ _ (ample 10)); by vm_compute.
Defined.

Lemma map_iteration_exact_witness :
  ∃ l, length l = 3%nat ∧ map_begin {[ 64 := map_with three ]} (Some 64) = it_at 64 l 0 ∧
    map_lower_bound {[ 64 := map_with three ]} (Some 64) (Some 2) = Some (it_at 64 l 1).
Proof.
  destruct (map_iteration_exact Z.sub false {[ 64 := map_with three ]} 64 (map_with three) [(1, 10); (2, 20); (3, 30)])
    as (l & Hlen & Hb & _ & Hlow & _).
  - apply lookup_singleton_eq.
  - apply map_with_ok, three_ok.
  - exists l. split; [exact Hlen|]. split; [exact Hb|]. exact (Hlow 2).
Defined.

Lemma ordered_set_refines_witness :
  ∃ st s' ks' w', oset_exec (OAdd 4) set_three (memory 3) = Some ((st, Some s'), w') ∧ oset_post Z.sub set_three [1; 2; 3] (OAdd 4) (memory 3) st s' ks' w'.
Proof. apply (ordered_set_refines Z.sub set_three [1; 2; 3] (OAdd 4) (memory 3)). apply set_three_ok. Defined.
