(* ===== verification/StlList.v ===== *)
(** * The linked list ([cstl/src/list.c], [cstl/include/cstl/list.h])

    A doubly linked list on a heap of nodes, each with a value in memory of its
    own; iterators name a list and a node. *)

From stdpp Require Import gmap.
From S2P Require Import Prelude World Sequence RbTree OrdMap.
Local Open Scope Z_scope.

(** ** Data *)

Record list_node (V : Type) := MkListNode {
  ln_previous : ptr;
  ln_next : ptr;
  ln_value : object V
}.
#[global] Arguments MkListNode {V} _ _ _.
#[global] Arguments ln_previous {V} _.
#[global] Arguments ln_next {V} _.
#[global] Arguments ln_value {V} _.

(** [li_nodes]: the nodes that are allocated, by address. *)
Record list_impl_t (V : Type) := MkListImpl {
  li_nodes : gmap Z (list_node V);
  li_head : ptr;
  li_tail : ptr;
  li_size : Z;
  li_elem_size : Z;
  li_elem_stride : Z;
  li_elem_align : Z;
  li_element_limit : Z;
  li_element_type : option (cmeta_type_desc V)
}.
#[global] Arguments MkListImpl {V} _ _ _ _ _ _ _ _ _.
#[global] Arguments li_nodes {V} _.
#[global] Arguments li_head {V} _.
#[global] Arguments li_tail {V} _.
#[global] Arguments li_size {V} _.
#[global] Arguments li_elem_size {V} _.
#[global] Arguments li_elem_stride {V} _.
#[global] Arguments li_elem_align {V} _.
#[global] Arguments li_element_limit {V} _.
#[global] Arguments li_element_type {V} _.

Record list_t (V : Type) := MkList {
  ls_descriptor : option Z;
  ls_element_type : option (cmeta_type_desc V);
  ls_impl : option (list_impl_t V);
  ls_generation : Z
}.
#[global] Arguments MkList {V} _ _ _ _.
#[global] Arguments ls_descriptor {V} _.
#[global] Arguments ls_element_type {V} _.
#[global] Arguments ls_impl {V} _.
#[global] Arguments ls_generation {V} _.

Record list_iter_t := MkListIter { lit_owner : ptr; lit_node : ptr }.

(** A pointer to a list: its address and the handle there. *)
Abbreviation list_ptr V := (option (Z * list_t V)) (only parsing).

(** The elements of an array. *)
Abbreviation array V := (list V) (only parsing).

Section List.
Context {V : Type} {AL : Allocator}.
Implicit Types (n : list_node V) (impl : list_impl_t V) (s : list_t V) (list : list_ptr V) (h : gmap Z (list_node V)).

Definition set_ln_previous (p : ptr) n : list_node V := MkListNode p (ln_next n) (ln_value n).
Definition set_ln_next (p : ptr) n : list_node V := MkListNode (ln_previous n) p (ln_value n).
Definition set_ln_value (o : object V) n : list_node V := MkListNode (ln_previous n) (ln_next n) o.

Definition set_li_nodes impl h : list_impl_t V :=
  MkListImpl h (li_head impl) (li_tail impl) (li_size impl) (li_elem_size impl) (li_elem_stride impl)
    (li_elem_align impl) (li_element_limit impl) (li_element_type impl).
Definition set_li_ends impl (head tail : ptr) : list_impl_t V :=
  MkListImpl (li_nodes impl) head tail (li_size impl) (li_elem_size impl) (li_elem_stride impl)
    (li_elem_align impl) (li_element_limit impl) (li_element_type impl).
Definition set_li_size impl (size : Z) : list_impl_t V :=
  MkListImpl (li_nodes impl) (li_head impl) (li_tail impl) size (li_elem_size impl) (li_elem_stride impl)
    (li_elem_align impl) (li_element_limit impl) (li_element_type impl).

Definition set_ls_impl s (impl : option (list_impl_t V)) : list_t V :=
  MkList (ls_descriptor s) (ls_element_type s) impl (ls_generation s).
(** [++list->generation]. *)
Definition ls_bump s : list_t V := MkList (ls_descriptor s) (ls_element_type s) (ls_impl s) (u64 (ls_generation s + 1)).
(** [list_t temporary = {0}]. *)
Definition ls_zero : list_t V := MkList None None None 0.

(** Reading and writing through a pointer to a node. *)
Definition ln_at impl (p : ptr) : option (list_node V) := a ← p; li_nodes impl !! a.
Definition ln_update impl (p : ptr) (f : list_node V → list_node V) : option (list_impl_t V) :=
  a ← p; n ← li_nodes impl !! a; Some (set_li_nodes impl (<[a := f n]> (li_nodes impl))).

Definition list_impl list : option (list_impl_t V) := x ← list; ls_impl x.2.

Definition list_valid list : bool :=
  match list_impl list with None => false | Some impl => negb (li_elem_size impl =? 0) end.

(** [out]: whether the caller passes memory for an iterator. *)
Definition list_set_iterator (out : bool) (owner node : ptr) : option list_iter_t :=
  if out then Some (MkListIter owner node) else None.

(** ** Nodes *)

(** The status, the address and the node. *)
Definition list_node_new impl (elem : V) : M (stl_status * option (Z * list_node V)) :=
  block ← malloc;
  match block with
  | None => mret (STL_OUT_OF_MEMORY, None)
  | Some _ =>
      '(status, value) ← sequence_allocate 1 (li_elem_stride impl) (li_elem_align impl);
      '(status, copy) ← (if bool_decide (status = STL_OK) then
        sequence_copy (li_element_type impl) (if is_null value then None else Some None) (Some (Some elem))
        else mret (status, None));
      if negb (bool_decide (status = STL_OK)) then
        _ ← sequence_deallocate value;
        _ ← mfree;
        mret (status, None)
      else
        p ← lift value; x ← lift copy;
        mret (STL_OK, Some (next_block (dom (li_nodes impl)), MkListNode None None (Some (p, x))))
  end.

(** The node at an address is freed. *)
Definition list_node_free impl (node : ptr) : M (list_impl_t V) :=
  match node with
  | None => mret impl
  | Some a =>
      n ← lift (ln_at impl node);
      _ ← sequence_deallocate (fst <$> ln_value n);
      _ ← mfree;
      mret (set_li_nodes impl (delete a (li_nodes impl)))
  end.

(** ** Creation *)

Definition list_initialize list (element_type : option (cmeta_type_desc V)) (elem_size elem_align element_limit : Z) :
    M (stl_status * list_ptr V) :=
  match list with
  | None => mret (STL_INVALID_ARGUMENT, list)
  | Some (at_, s) =>
      if negb (is_null (ls_impl s)) then mret (STL_INVALID_ARGUMENT, list) else
      match sequence_stride elem_size elem_align with
      | (STL_OK, Some stride) =>
          block ← malloc;
          match block with
          | None => mret (STL_OUT_OF_MEMORY, list)
          | Some _ =>
              let impl := MkListImpl ∅ None None 0 elem_size stride elem_align element_limit element_type in
              mret (STL_OK, Some (at_, ls_bump (set_ls_impl s (Some impl))))
          end
      | (status, _) => mret (status, list)
      end
  end.

Definition list_init_bytes list (elem_size elem_align element_limit : Z) : M (stl_status * list_ptr V) :=
  list_initialize list None elem_size elem_align element_limit.

Definition list_raw_init list (element_type : option (cmeta_type_desc V)) (element_limit : Z) : M (stl_status * list_ptr V) :=
  match list with
  | None => mret (STL_INVALID_ARGUMENT, list)
  | Some (_, s) =>
      if negb (is_null (ls_impl s)) then mret (STL_INVALID_ARGUMENT, list) else
      let status := sequence_require_type element_type false in
      if negb (bool_decide (status = STL_OK)) then mret (status, list) else
      t ← lift element_type;
      list_initialize list element_type (ty_size t) (ty_align t) element_limit
  end.

(** ** Insertion *)

(** [if (previous != NULL) previous->next = node; else impl->head = node;] and
    its mirror image. *)
Definition list_link_previous impl (previous node : ptr) : option (list_impl_t V) :=
  if is_null previous then Some (set_li_ends impl node (li_tail impl)) else ln_update impl previous (set_ln_next node).
Definition list_link_next impl (next node : ptr) : option (list_impl_t V) :=
  if is_null next then Some (set_li_ends impl (li_head impl) node) else ln_update impl next (set_ln_previous node).

(** The status, what is written through [out_iterator], and the list. *)
Definition list_insert_between list (previous next : ptr) (elem : option V) (out : bool) :
    M (stl_status * option list_iter_t * list_ptr V) :=
  match list, list_impl list, elem with
  | Some (at_, s), Some impl, Some elem =>
      if li_element_limit impl <=? li_size impl then mret (STL_CAPACITY_EXCEEDED, None, list) else
      '(status, node) ← list_node_new impl elem;
      match node with
      | None => mret (status, None, list)
      | Some (a, n) =>
          let impl := set_li_nodes impl (<[a := set_ln_next next (set_ln_previous previous n)]> (li_nodes impl)) in
          impl ← lift (list_link_previous impl previous (Some a));
          impl ← lift (list_link_next impl next (Some a));
          let impl := set_li_size impl (u64 (li_size impl + 1)) in
          mret (STL_OK, list_set_iterator out (Some at_) (Some a), Some (at_, ls_bump (set_ls_impl s (Some impl))))
      end
  | _, _, _ => mret (STL_INVALID_ARGUMENT, None, list)
  end.

Definition list_push_front list (elem : option V) (out : bool) : M (stl_status * option list_iter_t * list_ptr V) :=
  match list_impl list with
  | None => mret (STL_INVALID_ARGUMENT, None, list)
  | Some impl => list_insert_between list None (li_head impl) elem out
  end.

Definition list_push_back list (elem : option V) (out : bool) : M (stl_status * option list_iter_t * list_ptr V) :=
  match list_impl list with
  | None => mret (STL_INVALID_ARGUMENT, None, list)
  | Some impl => list_insert_between list (li_tail impl) None elem out
  end.

Definition list_iterator_matches list (position : list_iter_t) : bool :=
  list_valid list && bool_decide (lit_owner position = fst <$> list) && negb (is_null (lit_node position)).

Definition list_insert_before list (position : list_iter_t) (elem : option V) (out : bool) :
    M (stl_status * option list_iter_t * list_ptr V) :=
  if negb (list_iterator_matches list position) then mret (STL_INVALID_ARGUMENT, None, list) else
  next ← lift (impl ← list_impl list; ln_at impl (lit_node position));
  list_insert_between list (ln_previous next) (lit_node position) elem out.

Definition list_insert_after list (position : list_iter_t) (elem : option V) (out : bool) :
    M (stl_status * option list_iter_t * list_ptr V) :=
  if negb (list_iterator_matches list position) then mret (STL_INVALID_ARGUMENT, None, list) else
  previous ← lift (impl ← list_impl list; ln_at impl (lit_node position));
  list_insert_between list (lit_node position) (ln_next previous) elem out.

(** ** Removal *)

(** [wanted]: whether the caller passes memory for the element. The status,
    that memory and the list. *)
Definition list_remove_node list (node : ptr) (wanted : bool) : M (stl_status * option V * list_ptr V) :=
  '(at_, s) ← lift list;
  impl ← lift (ls_impl s);
  n ← lift (ln_at impl node);
  let value := snd <$> ln_value n in
  '(status, out, value) ← (if wanted then sequence_move_destroy (li_element_type impl) (Some None) value
    else '(status, value) ← sequence_destroy_value (li_element_type impl) value; mret (status, None, value));
  if negb (bool_decide (status = STL_OK)) then mret (status, None, list) else
  impl ← lift (ln_update impl node (set_ln_value (o ← ln_value n; v ← value; Some (fst o, v))));
  impl ← lift (list_link_previous impl (ln_previous n) (ln_next n));
  n ← lift (ln_at impl node);
  impl ← lift (list_link_next impl (ln_next n) (ln_previous n));
  impl ← list_node_free impl node;
  let impl := set_li_size impl (u64 (li_size impl - 1)) in
  mret (STL_OK, v ← out; v, Some (at_, ls_bump (set_ls_impl s (Some impl)))).

Definition list_erase list (position : list_iter_t) (wanted : bool) : M (stl_status * option V * list_ptr V) :=
  if negb (list_iterator_matches list position) then mret (STL_INVALID_ARGUMENT, None, list) else
  list_remove_node list (lit_node position) wanted.

Definition list_pop_front list (wanted : bool) : M (stl_status * option V * list_ptr V) :=
  match list_impl list with
  | None => mret (STL_INVALID_ARGUMENT, None, list)
  | Some impl => if is_null (li_head impl) then mret (STL_EMPTY, None, list) else list_remove_node list (li_head impl) wanted
  end.

Definition list_pop_back list (wanted : bool) : M (stl_status * option V * list_ptr V) :=
  match list_impl list with
  | None => mret (STL_INVALID_ARGUMENT, None, list)
  | Some impl => if is_null (li_tail impl) then mret (STL_EMPTY, None, list) else list_remove_node list (li_tail impl) wanted
  end.

(** One step more than there are nodes. *)
Fixpoint release_loop (fuel : nat) impl (node : ptr) : M (list_impl_t V) :=
  match fuel with
  | O => lift None
  | S fuel =>
      match node with
      | None => mret impl
      | Some _ =>
          n ← lift (ln_at impl node);
          _ ← sequence_destroy_value (li_element_type impl) (snd <$> ln_value n);
          impl ← list_node_free impl node;
          release_loop fuel impl (ln_next n)
      end
  end.

Definition list_release_nodes impl : M (list_impl_t V) :=
  impl ← release_loop (S (size (li_nodes impl))) impl (li_head impl);
  mret (set_li_size (set_li_ends impl None None) 0).

Definition list_clear list : M (list_ptr V) :=
  match list, list_impl list with
  | Some (at_, s), Some impl =>
      if is_null (li_head impl) then mret list else
      impl ← list_release_nodes impl;
      mret (Some (at_, ls_bump (set_ls_impl s (Some impl))))
  | _, _ => mret list
  end.

Definition list_raw_destroy_storage list : M (list_ptr V) :=
  match list, list_impl list with
  | Some (at_, s), Some impl =>
      _ ← list_release_nodes impl;
      _ ← mfree;
      mret (Some (at_, ls_bump (set_ls_impl s None)))
  | _, _ => mret list
  end.

(** ** Construction from an array *)

Fixpoint list_push_all (temporary : list_ptr V) (elems : array V) : M (stl_status * list_ptr V) :=
  match elems with
  | [] => mret (STL_OK, temporary)
  | x :: elems =>
      '(status, _, temporary) ← list_push_back temporary (Some x) false;
      if negb (bool_decide (status = STL_OK)) then
        temporary ← list_raw_destroy_storage temporary; mret (status, temporary)
      else list_push_all temporary elems
  end.

(** [local]: where the temporary handle is. *)
Definition list_from_common (local : Z) list (elements : option (array V)) (count : Z)
    (element_type : option (cmeta_type_desc V)) (elem_size elem_align element_limit : Z) : M (stl_status * list_ptr V) :=
  match list with
  | None => mret (STL_INVALID_ARGUMENT, list)
  | Some (at_, s) =>
      if negb (is_null (ls_impl s)) then mret (STL_INVALID_ARGUMENT, list) else
      if element_limit <? count then mret (STL_CAPACITY_EXCEEDED, list) else
      if negb (count =? 0) && is_null elements then mret (STL_INVALID_ARGUMENT, list) else
      '(status, temporary) ← (if negb (is_null element_type) then list_raw_init (Some (local, ls_zero)) element_type element_limit
        else list_init_bytes (Some (local, ls_zero)) elem_size elem_align element_limit);
      if negb (bool_decide (status = STL_OK)) then mret (status, list) else
      xs ← lift (if alen (default [] elements) <? count then None else Some (take (Z.to_nat count) (default [] elements)));
      '(status, temporary) ← list_push_all temporary xs;
      if negb (bool_decide (status = STL_OK)) then mret (status, list) else
      '(_, t) ← lift temporary;
      mret (STL_OK, Some (at_, MkList (ls_descriptor t) (ls_element_type t) (ls_impl t) (u64 (ls_generation s + 1))))
  end.

Definition list_raw_from_array (local : Z) list (elements : option (array V)) (count : Z)
    (element_type : option (cmeta_type_desc V)) (element_limit : Z) : M (stl_status * list_ptr V) :=
  match element_type with
  | None => mret (STL_INVALID_ARGUMENT, list)
  | Some t => list_from_common local list elements count element_type (ty_size t) (ty_align t) element_limit
  end.

Definition list_from_array_bytes (local : Z) list (elements : option (array V)) (count elem_size elem_align element_limit : Z) :
    M (stl_status * list_ptr V) :=
  list_from_common local list elements count None elem_size elem_align element_limit.

(** ** The handle that is bound to an element type ([list.h]) *)

Definition list_rebind s (list : list_ptr V) : list_ptr V :=
  (λ x, (x.1, MkList (ls_descriptor s) (ls_element_type s) (ls_impl x.2) (ls_generation x.2))) <$> list.

Definition list_init list (element_limit : Z) : M (stl_status * list_ptr V) :=
  match list with
  | None => mret (STL_INVALID_ARGUMENT, list)
  | Some (_, s) =>
      if is_null (ls_element_type s) then mret (STL_INVALID_ARGUMENT, list) else
      '(status, list) ← list_raw_init list (ls_element_type s) element_limit;
      mret (status, list_rebind s list)
  end.

Definition list_from_array (local : Z) list (elements : option (array V)) (count element_limit : Z) : M (stl_status * list_ptr V) :=
  match list with
  | None => mret (STL_INVALID_ARGUMENT, list)
  | Some (_, s) =>
      if is_null (ls_element_type s) then mret (STL_INVALID_ARGUMENT, list) else
      '(status, list) ← list_raw_from_array local list elements count (ls_element_type s) element_limit;
      mret (status, list_rebind s list)
  end.

Definition list_destroy list : M (list_ptr V) :=
  match list with
  | None => mret list
  | Some (_, s) => list ← list_raw_destroy_storage list; mret (list_rebind s list)
  end.

(** ** Readers *)

(** The object a node points to. *)
Definition ln_object impl (node : ptr) : option (object V) := n ← ln_at impl node; Some (ln_value n).

Definition list_front list : option (object V) :=
  match list_impl list with
  | None => Some None
  | Some impl => if is_null (li_head impl) then Some None else ln_object impl (li_head impl)
  end.
Definition list_front_const list : option (object V) := list_front list.

Definition list_back list : option (object V) :=
  match list_impl list with
  | None => Some None
  | Some impl => if is_null (li_tail impl) then Some None else ln_object impl (li_tail impl)
  end.
Definition list_back_const list : option (object V) := list_back list.

Definition list_size list : Z := match list_impl list with None => 0 | Some impl => li_size impl end.
Definition list_generation list : Z := match list with None => 0 | Some (_, s) => ls_generation s end.
Definition list_empty list : bool := list_size list =? 0.

(** ** Iterators *)

(** The lists in memory, by address. *)
Implicit Types (mem : gmap Z (list_t V)).
Definition list_at mem (p : ptr) : list_ptr V := a ← p; s ← mem !! a; Some (a, s).

Definition list_begin mem (p : ptr) : list_iter_t :=
  MkListIter p (match list_impl (list_at mem p) with None => None | Some impl => li_head impl end).
Definition list_end (p : ptr) : list_iter_t := MkListIter p None.

Definition list_iter_next mem (iterator : option list_iter_t) : option (stl_status * option list_iter_t) :=
  match iterator with
  | None => Some (STL_NOT_FOUND, None)
  | Some it =>
      if negb (list_valid (list_at mem (lit_owner it))) || is_null (lit_node it) then Some (STL_NOT_FOUND, iterator) else
      impl ← list_impl (list_at mem (lit_owner it));
      n ← ln_at impl (lit_node it);
      Some (STL_OK, Some (MkListIter (lit_owner it) (ln_next n)))
  end.

Definition list_iter_prev mem (iterator : option list_iter_t) : option (stl_status * option list_iter_t) :=
  match iterator with
  | None => Some (STL_INVALID_ARGUMENT, None)
  | Some it =>
      if negb (list_valid (list_at mem (lit_owner it))) then Some (STL_INVALID_ARGUMENT, iterator) else
      impl ← list_impl (list_at mem (lit_owner it));
      if is_null (lit_node it) then
        if is_null (li_tail impl) then Some (STL_NOT_FOUND, iterator)
        else Some (STL_OK, Some (MkListIter (lit_owner it) (li_tail impl)))
      else
        n ← ln_at impl (lit_node it);
        if is_null (ln_previous n) then Some (STL_NOT_FOUND, iterator)
        else Some (STL_OK, Some (MkListIter (lit_owner it) (ln_previous n)))
  end.

Definition list_iter_equal (left right : list_iter_t) : bool :=
  bool_decide (lit_owner left = lit_owner right) && bool_decide (lit_node left = lit_node right).

Definition list_iter_value mem (it : list_iter_t) : option (object V) :=
  if negb (list_valid (list_at mem (lit_owner it))) || is_null (lit_node it) then Some None else
  impl ← list_impl (list_at mem (lit_owner it)); ln_object impl (lit_node it).
Definition list_iter_value_const mem (it : list_iter_t) : option (object V) := list_iter_value mem it.

Definition list_range_next mem (p : ptr) (cursor : cmeta_range_cursor) : option (option (object V) * cmeta_range_cursor) :=
  match list_impl (list_at mem p) with
  | None => Some (None, cursor)
  | Some impl =>
      if negb (is_null (cu_map cursor)) && negb (bool_decide (cu_map cursor = p)) then Some (None, cursor) else
      let node := if is_null (cu_map cursor) then li_head impl else cu_node cursor in
      match node with
      | None => Some (None, MkCursor (cu_node cursor) p)
      | Some _ => n ← ln_at impl node; Some (Some (ln_value n), MkCursor (ln_next n) p)
      end
  end.
End List.
