(* ===== verification/StlListSpec.v ===== *)
(** * The linked list ([cstl/src/list.c]): refinement

    The nodes reachable from the head form a doubly linked segment; a list
    stands for the sequence of its nodes with their values. Insertion and
    removal at a node change that sequence at its position only: the other
    nodes, and the iterators that stand at them, stay where they are. *)

From stdpp Require Import gmap.
From S2P Require Import Prelude World Sequence RbTree RbSpec OrdMap StlList.
Local Open Scope Z_scope.

Section Segments.
Context {V : Type}.
Implicit Types (n : list_node V) (h : gmap Z (list_node V)) (l : list (Z * V)).

Definition lfirst l (next : ptr) : ptr := match l with [] => next | (a, _) :: _ => Some a end.
Definition lfinal (prev : ptr) l : ptr := match last l with None => prev | Some (a, _) => Some a end.

(** Nodes with their values, linked both ways between two neighbours. *)
Fixpoint seg h (prev : ptr) l (next : ptr) : Prop :=
  match l with
  | [] => True
  | (a, v) :: l => (∃ p, h !! a = Some (MkListNode prev (lfirst l next) (Some (p, Some v)))) ∧ seg h (Some a) l next
  end.

Lemma lfirst_app l1 l2 next : lfirst (l1 ++ l2) next = lfirst l1 (lfirst l2 next).
Proof. by destruct l1 as [|[]]. Qed.
Lemma lfinal_cons prev a v l : lfinal prev ((a, v) :: l) = lfinal (Some a) l.
Proof. unfold lfinal. rewrite last_cons. by destruct (last l). Qed.
Lemma lfinal_snoc prev l a v : lfinal prev (l ++ [(a, v)]) = Some a.
Proof. unfold lfinal. by rewrite last_snoc. Qed.

Lemma seg_app h prev l1 l2 next : seg h prev (l1 ++ l2) next ↔ seg h prev l1 (lfirst l2 next) ∧ seg h (lfinal prev l1) l2 next.
Proof.
  revert prev. induction l1 as [|[a v] l1 IH]; intros prev; cbn [app seg]; [unfold lfinal; cbn; tauto|].
  rewrite IH, lfirst_app, lfinal_cons. tauto.
Qed.

Lemma seg_frame h h' prev l next : (∀ a, a ∈ l.*1 → h' !! a = h !! a) → seg h prev l next → seg h' prev l next.
Proof.
  revert prev. induction l as [|[a v] l IH]; intros prev Hs; cbn; [done|]. intros [(p & Hp) Hl]. split.
  - exists p. rewrite Hs; [done|]. by left.
  - apply IH; [|done]. intros b Hb. apply Hs. by right.
Qed.

Lemma seg_in h prev l next a : seg h prev l next → a ∈ l.*1 → is_Some (h !! a).
Proof.
  revert prev. induction l as [|[b v] l IH]; intros prev; cbn; [by intros _ ?%elem_of_nil|]. intros [(p & Hp) Hl] [->|Ha]%elem_of_cons; [by eexists|]. by eapply IH.
Qed.

Lemma lfinal_in prev l a : lfinal prev l = Some a → prev = Some a ∨ a ∈ l.*1.
Proof.
  destruct l as [|[b v] l _] using rev_ind; [by left|]. rewrite lfinal_snoc. intros [= ->]. right. rewrite fmap_app. set_solver.
Qed.
Lemma lfirst_in next l a : lfirst l next = Some a → next = Some a ∨ a ∈ l.*1.
Proof. destruct l as [|[b v] l]; [by left|]. intros [= ->]. right. by left. Qed.

(** A write through a pointer that may be null. *)
Definition write_at h (p : ptr) (f : list_node V → list_node V) : gmap Z (list_node V) :=
  match p with
  | None => h
  | Some a => match h !! a with Some n => <[a := f n]> h | None => h end
  end.

Lemma write_ne h (p : ptr) f a : p ≠ Some a → write_at h p f !! a = h !! a.
Proof.
  intros Hp. destruct p as [b|]; [|done]. cbn. destruct (h !! b); [|done]. rewrite lookup_insert_ne; [done|]. by intros ->.
Qed.
Lemma write_dom h (p : ptr) f : dom (write_at h p f) = dom h.
Proof. destruct p as [b|]; [|done]. cbn. destruct (h !! b) eqn:E; [|done]. rewrite dom_insert_L. apply elem_of_dom_2 in E. set_solver. Qed.

(** Another neighbour at one end. *)
Lemma seg_next h prev l next x : NoDup l.*1 → seg h prev l next → seg (write_at h (lfinal None l) (set_ln_next x)) prev l x.
Proof.
  destruct l as [|[a v] l _] using rev_ind; [done|]. rewrite fmap_app, lfinal_snoc. intros (_ & Hd & _)%NoDup_app. rewrite !seg_app. intros [H1 [(p & Hp) _]].
  split.
  - eapply seg_frame; [|exact H1]. intros b Hb. apply write_ne. intros [= ->]. apply (Hd b Hb). by left.
  - cbn [seg lfirst write_at]. rewrite Hp. split; [|done]. exists p. by rewrite lookup_insert_eq.
Qed.

Lemma seg_prev h prev l next x : NoDup l.*1 → seg h prev l next → seg (write_at h (lfirst l None) (set_ln_previous x)) x l next.
Proof.
  destruct l as [|[a v] l]; [done|]. intros [Hd _]%NoDup_cons [(p & Hp) Hl]. cbn [seg lfirst write_at]. rewrite Hp. split.
  - exists p. by rewrite lookup_insert_eq.
  - eapply seg_frame; [|exact Hl]. intros b Hb. rewrite lookup_insert_ne; [done|]. by intros ->.
Qed.

(** A node between two segments, and its removal. *)
Lemma seg_insert h l1 l2 (a p : Z) v :
  seg h None (l1 ++ l2) None → NoDup (l1 ++ l2).*1 → a ∉ (l1 ++ l2).*1 →
  let h0 := <[a := MkListNode (lfinal None l1) (lfirst l2 None) (Some (p, Some v))]> h in
  let h1 := write_at h0 (lfinal None l1) (set_ln_next (Some a)) in
  seg (write_at h1 (lfirst l2 None) (set_ln_previous (Some a))) None (l1 ++ (a, v) :: l2) None.
Proof.
  rewrite fmap_app. intros [S1 S2]%seg_app (N1 & N12 & N2)%NoDup_app [A1 A2]%not_elem_of_app h0 h1. apply seg_app. split; [|split].
  - eapply seg_frame; [|eapply seg_next; [done|eapply (seg_frame h); [|exact S1]]].
    + intros b Hb. apply write_ne. intros [E|E]%lfirst_in; [done|]. by apply (N12 b).
    + intros b Hb. apply lookup_insert_ne. by intros ->.
  - exists p. rewrite write_ne by (by intros [E|E]%lfirst_in). unfold h1. rewrite write_ne by (by intros [E|E]%lfinal_in).
    apply lookup_insert_eq.
  - eapply seg_prev; [done|]. eapply (seg_frame h); [|exact S2]. intros b Hb. unfold h1. rewrite write_ne.
    + apply lookup_insert_ne. by intros ->.
    + intros [E|E]%lfinal_in; [done|]. by apply (N12 b).
Qed.

Lemma seg_remove h l1 a v l2 f :
  seg h None (l1 ++ (a, v) :: l2) None → NoDup (l1 ++ (a, v) :: l2).*1 →
  let h1 := write_at (write_at h (Some a) f) (lfinal None l1) (set_ln_next (lfirst l2 None)) in
  seg (delete a (write_at h1 (lfirst l2 None) (set_ln_previous (lfinal None l1)))) None (l1 ++ l2) None.
Proof.
  rewrite fmap_app. intros [S1 [_ S2]]%seg_app (N1 & N12 & [A2 N2]%NoDup_cons)%NoDup_app h1.
  assert (a ∉ l1.*1) as A1 by (intros Ha; apply (N12 a Ha); by left). apply seg_app. split.
  - eapply seg_frame; [|eapply (seg_next (write_at h (Some a) f)); [done|eapply (seg_frame h); [|exact S1]]].
    + intros b Hb. rewrite lookup_delete_ne by (by intros ->). rewrite write_ne; [done|]. intros [E|E]%lfirst_in; [done|].
      apply (N12 b); [done|]. by right.
    + intros b Hb. apply write_ne. by intros [= ->].
  - eapply (seg_frame (write_at h1 (lfirst l2 None) (set_ln_previous (lfinal None l1)))).
    + intros b Hb. apply lookup_delete_ne. by intros ->.
    + eapply seg_prev; [done|]. eapply (seg_frame h); [|exact S2]. intros b Hb. unfold h1. rewrite write_ne.
      * apply write_ne. by intros [= ->].
      * intros [E|E]%lfinal_in; [done|]. apply (N12 b); [done|]. by right.
Qed.
End Segments.

Section Spec.
Context {V : Type} {AL : Allocator}.
Implicit Types (impl : list_impl_t V) (s : list_t V) (l : list (Z * V)).

(** ** The invariant *)

Record list_ok impl l : Prop := {
  lo_size : li_elem_size impl ≠ 0;
  lo_stride : 0 < li_elem_stride impl <= SIZE_MAX;
  lo_align : is_u64 (li_elem_align impl) ∧ sequence_alignment_valid (li_elem_align impl) = true;
  lo_limit : li_element_limit impl <= SIZE_MAX;
  lo_type : type_ok (li_element_type impl);
  lo_seg : seg (li_nodes impl) None l None;
  lo_nodes_nodup : NoDup l.*1;
  lo_dom : dom (li_nodes impl) = list_to_set l.*1;
  lo_head : li_head impl = lfirst l None;
  lo_tail : li_tail impl = lfinal None l;
  lo_count : li_size impl = alen l;
  lo_max : alen l <= li_element_limit impl
}.

(** A live handle with the nodes and values [l]. *)
Definition list_holds s l : Prop := ∃ impl, ls_impl s = Some impl ∧ list_ok impl l.

(** What no operation on a live list changes. *)
Definition same_impl impl impl' : Prop :=
  li_elem_size impl' = li_elem_size impl ∧ li_elem_stride impl' = li_elem_stride impl ∧ li_elem_align impl' = li_elem_align impl ∧
  li_element_limit impl' = li_element_limit impl ∧ li_element_type impl' = li_element_type impl.
Definition same_list s s' : Prop :=
  ls_descriptor s' = ls_descriptor s ∧ ls_element_type s' = ls_element_type s ∧
  ∃ impl impl', ls_impl s = Some impl ∧ ls_impl s' = Some impl' ∧ same_impl impl impl'.

(** Blocks and objects a handle owns: the list, a node and a value for each
    element. *)
Definition list_blocks s l : Z := match ls_impl s with None => 0 | Some _ => 1 + 2 * alen l end.
Definition list_objects s l : Z := match ls_impl s with None => 0 | Some impl => owned (li_element_type impl) * alen l end.

Lemma node_of impl l i a v :
  list_ok impl l → l !! i = Some (a, v) →
  ∃ p, li_nodes impl !! a = Some (MkListNode (lfinal None (take i l)) (lfirst (drop (S i) l) None) (Some (p, Some v))).
Proof using Type.
  intros H Hi. pose proof (lo_seg _ _ H) as Hs. rewrite <-(take_drop_middle _ _ _ Hi) in Hs. apply seg_app in Hs as [_ [Hn _]]. exact Hn.
Qed.

Lemma write_run impl (p : ptr) f :
  (∀ a, p = Some a → is_Some (li_nodes impl !! a)) → p ≠ None → ln_update impl p f = Some (set_li_nodes impl (write_at (li_nodes impl) p f)).
Proof using Type.
  intros Hp Hn. destruct p as [a|]; [|done]. destruct (Hp a eq_refl) as [n Hn']. unfold ln_update. cbn. by rewrite Hn'.
Qed.

Lemma ln_at_run impl a n : li_nodes impl !! a = Some n → ln_at impl (Some a) = Some n.
Proof using Type. intros H. exact H. Qed.

Lemma link_previous_run impl (p node : ptr) :
  (∀ a, p = Some a → is_Some (li_nodes impl !! a)) →
  list_link_previous impl p node = Some (set_li_ends (set_li_nodes impl (write_at (li_nodes impl) p (set_ln_next node)))
    (if is_null p then node else li_head impl) (li_tail impl)).
Proof using Type.
  intros Hp. unfold list_link_previous. destruct p as [a|]; cbn [is_null]; [|by destruct impl]. rewrite write_run by done. by destruct impl.
Qed.

Lemma link_next_run impl (p node : ptr) :
  (∀ a, p = Some a → is_Some (li_nodes impl !! a)) →
  list_link_next impl p node = Some (set_li_ends (set_li_nodes impl (write_at (li_nodes impl) p (set_ln_previous node)))
    (li_head impl) (if is_null p then node else li_tail impl)).
Proof using Type.
  intros Hp. unfold list_link_next. destruct p as [a|]; cbn [is_null]; [|by destruct impl]. rewrite write_run by done. by destruct impl.
Qed.

(** ** A new node *)

Definition list_fits impl (x : V) (w : world) : Prop :=
  li_elem_stride impl + overhead (li_elem_align impl) <= SIZE_MAX ∧ mallocs 2 (li_elem_align impl) w ∧ copyable (li_element_type impl) x.

Lemma node_new_ok impl l x w :
  list_ok impl l →
  ∃ st r w', list_node_new impl x w = Some ((st, r), w') ∧
    (st = STL_OK → (∃ p, r = Some (next_block (dom (li_nodes impl)), MkListNode None None (Some (p, Some x)))) ∧
       w_blocks w' = w_blocks w + 2 ∧ w_objects w' = w_objects w + owned (li_element_type impl)) ∧
    (st ≠ STL_OK → r = None ∧ w_same w w') ∧
    (list_fits impl x w → st = STL_OK) ∧
    (∀ n a, mallocs (2 + n) a w → mallocs n a w').
Proof using Type.
  intros H. destruct (lo_align _ _ H) as [Ha Hv]. unfold list_node_new.
  destruct (malloc_ok w) as (block & w0 & E0 & Hb0 & Ho0 & _). wstep E0.
  assert (∀ n a, mallocs (S n) a w → mallocs n a w0 ∧ is_Some block) as Hm0.
  { intros n a Hm. destruct (malloc_supplied _ _ _ Hm) as (p & w' & E & Hm' & _). rewrite E0 in E. by simplify_eq. }
  destruct block as [b|]; cbn [is_null] in Hb0; cycle 1.
  { do 3 eexists. split; [done|]. split; [done|]. split; [intros _; split; [done|]; split; lia|]. split.
    - intros (_ & Hm & _). by destruct (Hm0 1%nat _ Hm) as [_ []].
    - intros n a Hm. apply Hm0. eapply mallocs_le; [|exact Hm]. lia. }
  destruct (allocate_cases 1 (li_elem_stride impl) (li_elem_align impl) w0) as (st & p & w1 & E1 & Ho1 & Hb1 & Hen1);
    [unfold_words; lia|apply (lo_stride _ _ H)|done|done|].
  pose proof (allocate_malloc _ _ _ _ _ _ _ E1) as Hmal1. wstep E1.
  assert (∀ n a, mallocs (2 + n) a w → mallocs n a w1) as Hml by (intros n a Hm; eapply mallocs_step; [exact Hmal1|]; by apply Hm0).
  case_bool_decide as Hst; cycle 1.
  { destruct Hb1 as [-> Hb1]. wrun. rewrite bool_decide_false by done. cbn [negb sequence_deallocate]. wrun.
    do 3 eexists. split; [done|]. split; [done|]. split; [intros _; split; [done|]; split; cbn; lia|]. split; [|done].
    intros (Hr & Hm & _). exfalso. apply Hst. apply (Hen1 0%nat); [by apply Hm0|lia]. }
  destruct Hb1 as [[q ->] Hb1]. cbn [is_null]. destruct (copy_cases (li_element_type impl) (lo_type _ _ H) x w1) as (st2 & d & w2 & E2 & Hm2 & Hb2 & Hres & Hcp).
  wstep E2. case_bool_decide as Hst2; cbn [negb].
  - destruct Hres as [-> Ho2]. wrun. do 3 eexists. split; [done|]. split; [|split; [done|]].
    + intros _. split; [by exists q|]. lia.
    + split; [done|]. intros n a Hm. eapply mallocs_eq; [exact Hm2|]. by apply Hml.
  - destruct Hres as [-> Ho2]. destruct (deallocate_run (Some q) w2) as (w3 & E3 & Hm3 & Ho3 & Hb3). cbn [is_null] in Hb3. wstep E3.
    do 3 eexists. split; [done|]. split; [done|]. split; [intros _; split; [done|]; split; cbn; lia|]. split.
    + intros (_ & _ & Hc). by destruct Hst2; apply Hcp.
    + intros n a Hm. apply (mallocs_eq _ _ w1); [cbn; congruence|]. by apply Hml.
Qed.

(** ** Insertion *)

Definition inserted_impl impl l1 (a p : Z) (x : V) l2 : list_impl_t V :=
  let h0 := <[a := MkListNode (lfinal None l1) (lfirst l2 None) (Some (p, Some x))]> (li_nodes impl) in
  let h1 := write_at h0 (lfinal None l1) (set_ln_next (Some a)) in
  set_li_size (set_li_ends (set_li_nodes impl (write_at h1 (lfirst l2 None) (set_ln_previous (Some a))))
    (if is_null (lfinal None l1) then Some a else li_head impl) (if is_null (lfirst l2 None) then Some a else li_tail impl)) (li_size impl + 1).

Lemma inserted_ok impl l1 a p x l2 :
  list_ok impl (l1 ++ l2) → alen (l1 ++ l2) < li_element_limit impl → a ∉ dom (li_nodes impl) →
  list_ok (inserted_impl impl l1 a p x l2) (l1 ++ (a, x) :: l2).
Proof using Type.
  intros [Hes Hst Hal Hlim Hty Hs Hn Hd Hh Ht Hc Hm] Hroom Ha. rewrite Hd, elem_of_list_to_set in Ha. split; cbn; try done.
  - by apply seg_insert.
  - rewrite fmap_app in Hn, Ha |- *. cbn. apply NoDup_app in Hn as (N1 & N2 & N3). apply not_elem_of_app in Ha as [A1 A2].
    apply NoDup_app. split; [done|]. split; [|by constructor]. intros b Hb [->|Hb2]%elem_of_cons; [done|]. by apply (N2 b).
  - rewrite !write_dom, dom_insert_L, Hd, !fmap_app. cbn. rewrite !list_to_set_app_L. set_solver.
  - rewrite lfirst_app. destruct l1 as [|[b y] l1 _] using rev_ind; [done|]. rewrite lfinal_snoc. cbn [is_null]. rewrite Hh, !lfirst_app. by destruct l1 as [|[]].
  - destruct l2 as [|[b y] l2 _] using rev_ind; [by rewrite lfinal_snoc|]. rewrite app_comm_cons, !app_assoc, lfinal_snoc in *.
    rewrite Ht. by destruct l2 as [|[]].
  - rewrite Hc. unfold alen. rewrite !length_app. cbn. lia.
  - unfold alen in *. rewrite !length_app in *. cbn. lia.
Qed.

Lemma u64_count impl l : list_ok impl l → alen l < li_element_limit impl → u64 (li_size impl + 1) = li_size impl + 1.
Proof using Type. intros H Hr. rewrite (lo_count _ _ H). pose proof (lo_limit _ _ H). unfold alen in *. apply u64_id. unfold is_u64, SIZE_MAX in *. lia. Qed.

(** What inserting between two parts of a list does. *)
Record insert_post (at_ : Z) s impl l1 (x : V) l2 (out : bool) (w : world) (st : stl_status) (it : option list_iter_t) s' l' (w' : world) : Prop := {
  ip_holds : list_holds s' l';
  ip_same : same_list s s';
  ip_step : (st = STL_OK ∧ alen (l1 ++ l2) < li_element_limit impl ∧
       ∃ a, a ∉ (l1 ++ l2).*1 ∧ l' = l1 ++ (a, x) :: l2 ∧ it = list_set_iterator out (Some at_) (Some a)) ∨
    (st ≠ STL_OK ∧ (li_element_limit impl <= alen (l1 ++ l2) → st = STL_CAPACITY_EXCEEDED) ∧ l' = l1 ++ l2 ∧ it = None ∧ s' = s);
  ip_generation : ls_generation s' = if bool_decide (st = STL_OK) then u64 (ls_generation s + 1) else ls_generation s;
  ip_blocks : w_blocks w' - list_blocks s' l' = w_blocks w - list_blocks s (l1 ++ l2);
  ip_objects : w_objects w' - list_objects s' l' = w_objects w - list_objects s (l1 ++ l2);
  ip_enough : list_fits impl x w → alen (l1 ++ l2) < li_element_limit impl → st = STL_OK;
  ip_mallocs n a : mallocs (2 + n) a w → mallocs n a w'
}.

Lemma same_list_refl s impl : ls_impl s = Some impl → same_list s s.
Proof using Type. intros Hi. split; [done|]. split; [done|]. by exists impl, impl. Qed.

Lemma insert_between_ok at_ s impl l1 l2 x out w :
  ls_impl s = Some impl → list_ok impl (l1 ++ l2) →
  ∃ st it s' l' w', list_insert_between (Some (at_, s)) (lfinal None l1) (lfirst l2 None) (Some x) out w = Some ((st, it, Some (at_, s')), w') ∧
    insert_post at_ s impl l1 x l2 out w st it s' l' w'.
Proof using Type.
  intros Hi H. unfold list_insert_between. change (list_impl (Some (at_, s))) with (ls_impl s). rewrite Hi. rewrite (lo_count _ _ H).
  destruct (Z.leb_spec (li_element_limit impl) (alen (l1 ++ l2))) as [Hfull|Hroom].
  { do 5 eexists. split; [done|]. split; try done; [by exists impl|by eapply same_list_refl|by right|intros; lia|intros n a; apply mallocs_le; lia]. }
  destruct (node_new_ok impl _ x w H) as (st & r & w1 & E1 & Hgood & Hbad & Hen & Hml). wstep E1.
  destruct (decide (st = STL_OK)) as [->|Hst]; cycle 1.
  { destruct (Hbad Hst) as [-> [Hb Ho]]. do 5 eexists. split; [done|].
    split; try done; [by exists impl|by eapply same_list_refl|right; split; [done|]; split; [lia|done]|by rewrite bool_decide_false|lia|lia|by intros ?%Hen]. }
  destruct (Hgood eq_refl) as ((p & ->) & Hb & Ho). set (a := next_block _).
  pose proof (next_block_fresh (dom (li_nodes impl))) as Hfresh. fold a in Hfresh.
  assert (∀ b, b ∈ (l1 ++ l2).*1 → is_Some (li_nodes impl !! b) ∧ b ≠ a) as Hin.
  { intros b Hb'. split; [by eapply seg_in; [apply (lo_seg _ _ H)|]|]. intros ->. apply Hfresh. rewrite (lo_dom _ _ H). by apply elem_of_list_to_set. }
  unfold set_ln_next, set_ln_previous. cbn [ln_previous ln_next ln_value].
  rewrite link_previous_run.
  2:{ intros b [?|Hb']%lfinal_in; [done|]. destruct (Hin b) as [? ?]; [rewrite fmap_app; set_solver|]. cbn. by rewrite lookup_insert_ne. }
  wrun. rewrite link_next_run.
  2:{ intros b Hb'. cbn. destruct (decide (lfinal None l1 = Some b)) as [Hf|Hf].
      - apply elem_of_dom. rewrite write_dom, dom_insert_L. apply lfinal_in in Hf as [?|Hf]; [done|]. destruct (Hin b) as [?%elem_of_dom ?]; [rewrite fmap_app; set_solver|]. set_solver.
      - rewrite write_ne by done. apply lfirst_in in Hb' as [?|Hb']; [done|]. destruct (Hin b) as [? ?]; [rewrite fmap_app; set_solver|]. by rewrite lookup_insert_ne. }
  wrun. cbn [li_size set_li_ends set_li_nodes]. rewrite (u64_count impl _ H Hroom).
  pose proof (inserted_ok impl l1 a p x l2 H Hroom Hfresh) as Hok.
  exists STL_OK, (list_set_iterator out (Some at_) (Some a)), (ls_bump (set_ls_impl s (Some (inserted_impl impl l1 a p x l2)))), (l1 ++ (a, x) :: l2), w1.
  assert (alen (l1 ++ (a, x) :: l2) = alen (l1 ++ l2) + 1) as Hal by (unfold alen; rewrite !length_app; cbn; lia).
  split; [by destruct impl|]. split; try done.
  - by eexists.
  - split; [done|]. split; [done|]. eexists _, _. split; [done|]. split; [done|]. done.
  - left. split; [done|]. split; [done|]. exists a. split; [|done]. intros Ha. by apply (Hin a).
  - unfold list_blocks. cbn. rewrite Hi. lia.
  - unfold list_objects. cbn. rewrite Hi. lia.
Qed.

(** ** Removal *)

Lemma node_free_ok impl a n p sl w :
  li_nodes impl !! a = Some n → ln_value n = Some (p, sl) →
  ∃ w', list_node_free impl (Some a) w = Some (set_li_nodes impl (delete a (li_nodes impl)), w') ∧ w_malloc w' = w_malloc w ∧
    w_blocks w' = w_blocks w - 2 ∧ w_objects w' = w_objects w.
Proof using Type.
  intros Hn Hv. unfold list_node_free. rewrite (ln_at_run _ _ _ Hn). wrun. rewrite Hv. change (fst <$> Some (p, sl)) with (Some p).
  destruct (deallocate_run (Some p) w) as (w1 & E & Hm & Ho & Hb). cbn [is_null] in Hb. wstep E. eexists. split; [done|]. cbn. split; [done|]. lia.
Qed.

Definition removed_impl impl l1 (a : Z) f l2 : list_impl_t V :=
  let h1 := write_at (write_at (li_nodes impl) (Some a) f) (lfinal None l1) (set_ln_next (lfirst l2 None)) in
  set_li_size (set_li_ends (set_li_nodes impl (delete a (write_at h1 (lfirst l2 None) (set_ln_previous (lfinal None l1)))))
    (if is_null (lfinal None l1) then lfirst l2 None else li_head impl) (if is_null (lfirst l2 None) then lfinal None l1 else li_tail impl)) (li_size impl - 1).

Lemma removed_ok impl l1 a v f l2 : list_ok impl (l1 ++ (a, v) :: l2) → list_ok (removed_impl impl l1 a f l2) (l1 ++ l2).
Proof using Type.
  intros [Hes Hst Hal Hlim Hty Hs Hn Hd Hh Ht Hc Hm]. split; cbn [removed_impl set_li_size set_li_ends set_li_nodes li_nodes li_head li_tail li_size li_elem_size li_elem_stride li_elem_align li_element_limit li_element_type]; try done.
  - by eapply seg_remove.
  - rewrite fmap_app in Hn |- *. apply NoDup_app in Hn as (N1 & N2 & [_ N3]%NoDup_cons). apply NoDup_app. split; [done|]. split; [|done].
    intros b Hb Hb2. apply (N2 b Hb). by right.
  - rewrite dom_delete_L, !write_dom, Hd. rewrite fmap_app in Hn |- *. apply NoDup_app in Hn as (N1 & N2 & [N4 N3]%NoDup_cons).
    assert (a ∉ l1.*1) by (intros Ha; apply (N2 a Ha); by left). rewrite fmap_app. cbn. rewrite !list_to_set_app_L. cbn. set_solver.
  - rewrite lfirst_app. destruct l1 as [|[b y] l1 _] using rev_ind; [done|]. rewrite lfinal_snoc. cbn [is_null]. rewrite Hh, !lfirst_app. by destruct l1 as [|[]].
  - destruct l2 as [|[b y] l2 _] using rev_ind; [by rewrite app_nil_r|]. rewrite app_comm_cons, !app_assoc, !lfinal_snoc in *.
    rewrite Ht. by destruct l2 as [|[]].
  - rewrite Hc. unfold alen. rewrite !length_app. cbn. lia.
  - unfold alen in *. rewrite !length_app in *. cbn in *. lia.
Qed.

Lemma remove_list_node_ok at_ s impl l1 a v l2 wanted w :
  ls_impl s = Some impl → list_ok impl (l1 ++ (a, v) :: l2) →
  ∃ s' w', list_remove_node (Some (at_, s)) (Some a) wanted w = Some ((STL_OK, if wanted then Some v else None, Some (at_, s')), w') ∧
    list_holds s' (l1 ++ l2) ∧ same_list s s' ∧ ls_generation s' = u64 (ls_generation s + 1) ∧ w_malloc w' = w_malloc w ∧
    w_blocks w' - list_blocks s' (l1 ++ l2) = w_blocks w - list_blocks s (l1 ++ (a, v) :: l2) ∧
    w_objects w' - list_objects s' (l1 ++ l2) - (if wanted then owned (li_element_type impl) else 0) = w_objects w - list_objects s (l1 ++ (a, v) :: l2).
Proof using Type.
  intros Hi H. unfold list_remove_node. wrun. rewrite Hi. wrun.
  destruct (node_of impl _ (length l1) a v H) as (p & Hn); [by rewrite lookup_app_r, Nat.sub_diag by done|].
  rewrite take_app_length, <-Nat.add_1_r, <-drop_drop, drop_app_length in Hn. cbn [drop] in Hn. rewrite drop_0 in Hn.
  rewrite (ln_at_run _ _ _ Hn). wrun. cbn [ln_value fmap option_fmap option_map snd].
  destruct (value_leaves (li_element_type impl) (lo_type _ _ H) v wanted w) as (out & sl & w1 & E1 & Hout & Hm1 & Hb1 & Ho1). wstep E1. rewrite bool_decide_true by done. cbn [negb mbind option_bind fst].
  set (f := set_ln_value _).
  rewrite write_run by (try done; intros b [= <-]; by eexists). wrun.
  assert (∀ b, b ∈ (l1 ++ (a, v) :: l2).*1 → b ∈ dom (li_nodes impl)) as Hin by (intros b Hb; rewrite (lo_dom _ _ H); by apply elem_of_list_to_set).
  rewrite link_previous_run.
  2:{ cbn [li_nodes set_li_nodes set_li_ends]. intros b [?|Hb]%lfinal_in; [done|]. apply elem_of_dom. rewrite (write_dom _ (Some a)). apply Hin. rewrite fmap_app. set_solver. }
  wrun. cbn [ln_previous ln_next].
  pose proof (lo_nodes_nodup _ _ H) as Hnd. rewrite fmap_app in Hnd. apply NoDup_app in Hnd as (N1 & N2 & [N4 N3]%NoDup_cons).
  assert (lfinal None l1 ≠ Some a) as Hfa by (intros [?|Ha]%lfinal_in; [done|]; apply (N2 a Ha); by left).
  assert (lfirst l2 None ≠ Some a) as Hfi by (by intros [?|Ha]%lfirst_in).
  set (h1 := write_at (write_at (li_nodes impl) (Some a) f) (lfinal None l1) (set_ln_next (lfirst l2 None))).
  assert (h1 !! a = Some (MkListNode (lfinal None l1) (lfirst l2 None) (Some (p, sl)))) as Hna.
  { unfold h1. rewrite write_ne by done. cbn. rewrite Hn. by rewrite lookup_insert_eq. }
  erewrite ln_at_run by exact Hna. wrun. cbn [ln_previous ln_next].
  rewrite link_next_run.
  2:{ cbn [li_nodes set_li_nodes set_li_ends]. intros b [?|Hb]%lfirst_in; [done|]. apply elem_of_dom. unfold h1. rewrite write_dom, (write_dom _ (Some a)). apply Hin. rewrite fmap_app. set_solver. }
  wrun. set (i2 := set_li_ends _ _ (if is_null (lfirst l2 None) then _ else _)).
  destruct (node_free_ok i2 a (MkListNode (lfinal None l1) (lfirst l2 None) (Some (p, sl))) p sl w1) as (w2 & E2 & Hm2 & Hb2 & Ho2).
  { unfold i2. cbn [li_nodes set_li_nodes set_li_ends]. rewrite write_ne by done. exact Hna. }
  { done. }
  wstep E2.
  pose proof (removed_ok impl l1 a v f l2 H) as Hok.
  exists (ls_bump (set_ls_impl s (Some (removed_impl impl l1 a f l2)))), w2.
  assert (alen (l1 ++ (a, v) :: l2) = alen (l1 ++ l2) + 1) as Hal by (unfold alen; rewrite !length_app; cbn; lia).
  assert (u64 (li_size impl - 1) = li_size impl - 1) as Hu.
  { rewrite (lo_count _ _ H). pose proof (lo_limit _ _ H). pose proof (lo_max _ _ H). unfold alen in *. apply u64_id. unfold is_u64, SIZE_MAX in *. lia. }
  split; [cbn; rewrite Hu, Hout; by destruct impl|]. split; [by eexists|]. split.
  { split; [done|]. split; [done|]. eexists _, _. split; [exact Hi|]. split; [done|]. done. }
  split; [done|]. unfold list_blocks, list_objects. cbn. rewrite Hi, Hal. split; [congruence|]. split; [lia|]. destruct wanted; lia.
Qed.

(** ** Clearing *)

Lemma release_loop_ok l : ∀ fuel impl prev w,
  type_ok (li_element_type impl) → seg (li_nodes impl) prev l None → NoDup l.*1 → (length l < fuel)%nat →
  ∃ h w', release_loop fuel impl (lfirst l None) w = Some (set_li_nodes impl h, w') ∧ dom h = dom (li_nodes impl) ∖ list_to_set l.*1 ∧
    w_malloc w' = w_malloc w ∧ w_blocks w' = w_blocks w - 2 * alen l ∧ w_objects w' = w_objects w - owned (li_element_type impl) * alen l.
Proof using Type.
  induction l as [|[a v] l IH]; intros fuel impl prev w Hty Hs Hd Hf; (destruct fuel as [|fuel]; [lia|]); cbn [release_loop lfirst].
  { exists (li_nodes impl), w. split; [by destruct impl|]. split; [set_solver|]. split; [done|]. unfold alen. cbn. lia. }
  destruct Hs as [(p & Hn) Hs]. apply NoDup_cons in Hd as [Na Hd]. rewrite (ln_at_run _ _ _ Hn). wrun.
  cbn [ln_value ln_next fmap option_fmap option_map snd].
  destruct (destroy_ok (li_element_type impl) Hty v w) as (w1 & E1 & Hm1 & Hb1 & Ho1). wstep E1.
  destruct (node_free_ok impl a _ p (Some v) w1 Hn eq_refl) as (w2 & E2 & Hm2 & Hb2 & Ho2). wstep E2.
  destruct (IH fuel (set_li_nodes impl (delete a (li_nodes impl))) (Some a) w2 Hty) as (h & w' & E & Hdom & Hm & Hb & Ho).
  - cbn. eapply seg_frame; [|exact Hs]. intros b Hb. apply lookup_delete_ne. by intros ->.
  - done.
  - cbn in Hf. lia.
  - exists h, w'. split; [exact E|]. cbn in Hdom. rewrite dom_delete_L in Hdom. split; [rewrite Hdom; cbn; set_solver|].
    unfold alen in *. cbn in *. split; [congruence|]. lia.
Qed.

Definition emptied impl : list_impl_t V := set_li_size (set_li_ends (set_li_nodes impl ∅) None None) 0.

Lemma release_ok impl l w :
  list_ok impl l →
  ∃ w', list_release_nodes impl w = Some (emptied impl, w') ∧ list_ok (emptied impl) [] ∧ w_malloc w' = w_malloc w ∧
    w_blocks w' = w_blocks w - 2 * alen l ∧ w_objects w' = w_objects w - owned (li_element_type impl) * alen l.
Proof using Type.
  intros H. unfold list_release_nodes. rewrite (lo_head _ _ H).
  assert (length l < S (size (li_nodes impl)))%nat as Hf.
  { rewrite <-size_dom, (lo_dom _ _ H), size_list_to_set, length_fmap by apply (lo_nodes_nodup _ _ H). lia. }
  destruct (release_loop_ok l _ impl None w (lo_type _ _ H) (lo_seg _ _ H) (lo_nodes_nodup _ _ H) Hf) as (h & w' & E & Hd & Hm & Hb & Ho).
  wstep E. assert (h = ∅) as -> by (apply dom_empty_inv_L; rewrite Hd, (lo_dom _ _ H); set_solver).
  exists w'. split; [by destruct impl|]. split; [|done]. destruct H. split; cbn; try done; [constructor|]. unfold alen in *. cbn. lia.
Qed.

(** An empty handle, or a live one. *)
Definition list_handle s l : Prop := (ls_impl s = None ∧ l = []) ∨ list_holds s l.

Lemma destroy_list_ok at_ s l w :
  list_handle s l →
  ∃ s' w', list_raw_destroy_storage (Some (at_, s)) w = Some (Some (at_, s'), w') ∧ ls_impl s' = None ∧ w_malloc w' = w_malloc w ∧
    w_blocks w' = w_blocks w - list_blocks s l ∧ w_objects w' = w_objects w - list_objects s l.
Proof using Type.
  unfold list_raw_destroy_storage, list_blocks, list_objects. change (list_impl (Some (at_, s))) with (ls_impl s).
  intros [[Hi ->]|(impl & Hi & H)]; rewrite Hi.
  { exists s, w. split; [done|]. split; [done|]. split; [done|]. lia. }
  destruct (release_ok impl l w H) as (w1 & E & _ & Hm & Hb & Ho). wstep E. eexists _, _. split; [done|]. split; [done|]. cbn. split; [done|]. lia.
Qed.

(** ** The operations *)

Inductive list_op :=
  | LPushFront (x : V) | LPushBack (x : V) | LInsertBefore (i : nat) (x : V) | LInsertAfter (i : nat) (x : V)
  | LErase (i : nat) (wanted : bool) | LPopFront (wanted : bool) | LPopBack (wanted : bool) | LClear.

(** The iterator at a position. *)
Definition lit_at (at_ : Z) l (i : nat) : list_iter_t := MkListIter (Some at_) (l.*1 !! i).

(** A call on the list at [at_] with the nodes [l]: the status, the element
    handed out, the new iterator and the list. *)
Definition list_exec_op (at_ : Z) l (op : list_op) s : M (stl_status * option V * option list_iter_t * list_ptr V) :=
  let ins (m : M (stl_status * option list_iter_t * list_ptr V)) := '(st, it, r) ← m; mret (st, None, it, r) in
  let del (m : M (stl_status * option V * list_ptr V)) := '(st, out, r) ← m; mret (st, out, None, r) in
  match op with
  | LPushFront x => ins (list_push_front (Some (at_, s)) (Some x) true)
  | LPushBack x => ins (list_push_back (Some (at_, s)) (Some x) true)
  | LInsertBefore i x => ins (list_insert_before (Some (at_, s)) (lit_at at_ l i) (Some x) true)
  | LInsertAfter i x => ins (list_insert_after (Some (at_, s)) (lit_at at_ l i) (Some x) true)
  | LErase i wanted => del (list_erase (Some (at_, s)) (lit_at at_ l i) wanted)
  | LPopFront wanted => del (list_pop_front (Some (at_, s)) wanted)
  | LPopBack wanted => del (list_pop_back (Some (at_, s)) wanted)
  | LClear => r ← list_clear (Some (at_, s)); mret (STL_OK, None, None, r)
  end.

(** The same on the sequence of nodes and values; a new node is at [a]. *)
Definition seq_insert (limit : Z) (at_ a : Z) (k : nat) (x : V) l : stl_status * option V * option list_iter_t * list (Z * V) :=
  if limit <=? alen l then (STL_CAPACITY_EXCEEDED, None, None, l)
  else (STL_OK, None, Some (MkListIter (Some at_) (Some a)), take k l ++ (a, x) :: drop k l).
Definition seq_delete (none : stl_status) (k : nat) (wanted : bool) l : stl_status * option V * option list_iter_t * list (Z * V) :=
  match l !! k with
  | None => (none, None, None, l)
  | Some (_, v) => (STL_OK, if wanted then Some v else None, None, take k l ++ drop (S k) l)
  end.
Definition seq_exec (limit : Z) (at_ a : Z) (op : list_op) l : stl_status * option V * option list_iter_t * list (Z * V) :=
  match op with
  | LPushFront x => seq_insert limit at_ a 0 x l
  | LPushBack x => seq_insert limit at_ a (length l) x l
  | LInsertBefore i x => if bool_decide (i < length l)%nat then seq_insert limit at_ a i x l else (STL_INVALID_ARGUMENT, None, None, l)
  | LInsertAfter i x => if bool_decide (i < length l)%nat then seq_insert limit at_ a (S i) x l else (STL_INVALID_ARGUMENT, None, None, l)
  | LErase i wanted => seq_delete STL_INVALID_ARGUMENT i wanted l
  | LPopFront wanted => seq_delete STL_EMPTY 0 wanted l
  | LPopBack wanted => seq_delete STL_EMPTY (pred (length l)) wanted l
  | LClear => (STL_OK, None, None, [])
  end.

Definition list_modifies (op : list_op) (st : stl_status) l : bool :=
  match op with LClear => negb (bool_decide (l = [])) | _ => bool_decide (st = STL_OK) end.
Definition list_op_fits impl (op : list_op) (w : world) : Prop :=
  match op with
  | LPushFront x | LPushBack x | LInsertBefore _ x | LInsertAfter _ x => list_fits impl x w
  | _ => True
  end.

(** [a] is the address a new node gets. *)
Record list_post (at_ : Z) s impl l (op : list_op) (w : world) (st : stl_status) (out : option V) (it : option list_iter_t) s' l' (w' : world) : Prop := {
  lpo_holds : list_holds s' l';
  lpo_same : same_list s s';
  lpo_step : ∃ a, a ∉ l.*1 ∧ ((st, out, it, l') = seq_exec (li_element_limit impl) at_ a op l ∨
    ((seq_exec (li_element_limit impl) at_ a op l).1.1.1 = STL_OK ∧ st ≠ STL_OK ∧ out = None ∧ it = None ∧ s' = s ∧ l' = l));
  lpo_generation : ls_generation s' = if list_modifies op st l then u64 (ls_generation s + 1) else ls_generation s;
  lpo_blocks : w_blocks w' - list_blocks s' l' = w_blocks w - list_blocks s l;
  lpo_objects : w_objects w' - list_objects s' l' - (if is_null out then 0 else owned (li_element_type impl)) = w_objects w - list_objects s l;
  lpo_enough : list_op_fits impl op w → ∀ a, st = (seq_exec (li_element_limit impl) at_ a op l).1.1.1
}.

Lemma fresh_address l : ∃ a, a ∉ l.*1.
Proof using AL. exists (next_block (list_to_set l.*1)). intros Ha. apply (next_block_fresh (list_to_set l.*1)). by apply elem_of_list_to_set. Qed.

Lemma refused_post at_ s impl l op w st :
  ls_impl s = Some impl → list_ok impl l → (∀ a, seq_exec (li_element_limit impl) at_ a op l = (st, None, None, l)) → st ≠ STL_OK →
  (∀ st', list_modifies op st' l = bool_decide (st' = STL_OK)) → list_post at_ s impl l op w st None None s l w.
Proof using AL.
  intros Hi H Hspec Hst Hm. destruct (fresh_address l) as [a Ha]. split; try done; [by exists impl|by eapply same_list_refl|..].
  - exists a. split; [done|]. left. by rewrite Hspec.
  - by rewrite Hm, bool_decide_false.
  - cbn. lia.
  - intros _ b. by rewrite Hspec.
Qed.

Lemma inserted_post at_ s impl l op k x w st it s' l' w' :
  ls_impl s = Some impl → (∀ a, seq_exec (li_element_limit impl) at_ a op l = seq_insert (li_element_limit impl) at_ a k x l) →
  (∀ st', list_modifies op st' l = bool_decide (st' = STL_OK)) → (list_op_fits impl op w → list_fits impl x w) →
  insert_post at_ s impl (take k l) x (drop k l) true w st it s' l' w' → list_post at_ s impl l op w st None it s' l' w'.
Proof using AL.
  intros Hi Hspec Hm Hf [Hh Hsame Hstep Hg Hb Ho Hen _]. rewrite take_drop in *. split; try done.
  - destruct Hstep as [(-> & Hr & a & Ha & -> & ->)|(Hst & Hfull & -> & -> & ->)].
    + exists a. split; [done|]. left. rewrite Hspec. unfold seq_insert. by rewrite (proj2 (Z.leb_gt _ _)).
    + destruct (fresh_address l) as [a Ha]. exists a. split; [done|]. rewrite Hspec. unfold seq_insert.
      destruct (Z.leb_spec (li_element_limit impl) (alen l)) as [Hle|Hlt]; [left; by rewrite Hfull|right; done].
  - by rewrite Hm.
  - cbn. lia.
  - intros Hfit a. rewrite Hspec. unfold seq_insert. destruct (Z.leb_spec (li_element_limit impl) (alen l)) as [Hle|Hlt]; [|by apply Hen; [apply Hf|]].
    destruct Hstep as [(_ & ? & _)|(_ & Hfull & _)]; [lia|]. by apply Hfull.
Qed.

Lemma deleted_post at_ s impl l op none k a v wanted w s' w' :
  ls_impl s = Some impl → l !! k = Some (a, v) → (∀ b, seq_exec (li_element_limit impl) at_ b op l = seq_delete none k wanted l) →
  (∀ st', list_modifies op st' l = bool_decide (st' = STL_OK)) →
  list_holds s' (take k l ++ drop (S k) l) → same_list s s' → ls_generation s' = u64 (ls_generation s + 1) →
  w_blocks w' - list_blocks s' (take k l ++ drop (S k) l) = w_blocks w - list_blocks s l →
  w_objects w' - list_objects s' (take k l ++ drop (S k) l) - (if wanted then owned (li_element_type impl) else 0) = w_objects w - list_objects s l →
  list_post at_ s impl l op w STL_OK (if wanted then Some v else None) None s' (take k l ++ drop (S k) l) w'.
Proof using AL.
  intros Hi Hk Hspec Hm Hh Hsame Hg Hb Ho. assert (seq_delete none k wanted l = (STL_OK, if wanted then Some v else None, None, take k l ++ drop (S k) l)) as Hd
    by (unfold seq_delete; by rewrite Hk).
  split; try done.
  - destruct (fresh_address l) as [b Hb']. exists b. split; [done|]. left. by rewrite Hspec.
  - by rewrite Hm, bool_decide_true.
  - by destruct wanted.
  - intros _ b. by rewrite Hspec, Hd.
Qed.

(** The readers show the sequence. *)
Definition list_reads (at_ : Z) s l : Prop :=
  list_size (Some (at_, s)) = alen l ∧
  (∃ o, list_front (Some (at_, s)) = Some o ∧ (x ← o; x.2) = snd <$> head l) ∧
  (∃ o, list_back (Some (at_, s)) = Some o ∧ (x ← o; x.2) = snd <$> last l).

Lemma list_reads_ok at_ s l : list_holds s l → list_reads at_ s l.
Proof using Type.
  intros (impl & Hi & H). unfold list_reads, list_size, list_front, list_back. change (list_impl (Some (at_, s))) with (ls_impl s). rewrite Hi.
  split; [apply (lo_count _ _ H)|]. rewrite (lo_head _ _ H), (lo_tail _ _ H). split.
  - destruct l as [|[a v] l]; [by exists None|]. cbn [lfirst is_null]. destruct (node_of impl _ 0 a v H eq_refl) as (p & Hn).
    exists (Some (p, Some v)). split; [|done]. unfold ln_object. by rewrite (ln_at_run _ _ _ Hn).
  - destruct l as [|[a v] l _] using rev_ind; [by exists None|]. rewrite lfinal_snoc, last_snoc. cbn [is_null].
    destruct (node_of impl _ (length l) a v H) as (p & Hn); [by rewrite lookup_app_r, Nat.sub_diag by done|].
    exists (Some (p, Some v)). split; [|done]. unfold ln_object. by rewrite (ln_at_run _ _ _ Hn).
Qed.

Lemma matches_ok at_ s impl l i : ls_impl s = Some impl → list_ok impl l → list_iterator_matches (Some (at_, s)) (lit_at at_ l i) = bool_decide (i < length l)%nat.
Proof using Type.
  intros Hi H. unfold list_iterator_matches, list_valid. change (list_impl (Some (at_, s))) with (ls_impl s). rewrite Hi.
  rewrite (proj2 (Z.eqb_neq _ _) (lo_size _ _ H)). cbn [negb andb lit_owner lit_node lit_at]. rewrite bool_decide_true by done. cbn [andb].
  case_bool_decide as Hlt.
  - destruct (lookup_lt_is_Some_2 l.*1 i) as [a ->]; [by rewrite length_fmap|done].
  - rewrite lookup_ge_None_2; [done|]. rewrite length_fmap. lia.
Qed.

Lemma position_parts impl l i a v :
  list_ok impl l → l !! i = Some (a, v) →
  ∃ p, l.*1 !! i = Some a ∧ li_nodes impl !! a = Some (MkListNode (lfinal None (take i l)) (lfirst (drop (S i) l) None) (Some (p, Some v))) ∧
    lfirst (drop i l) None = Some a ∧ lfinal None (take (S i) l) = Some a.
Proof using Type.
  intros H Hi. destruct (node_of impl l i a v H Hi) as (p & Hn). exists p. rewrite list_lookup_fmap, Hi. split; [done|]. split; [done|]. split.
  - by rewrite (drop_S _ _ _ Hi).
  - by rewrite (take_S_r _ _ _ Hi), lfinal_snoc.
Qed.

Lemma erase_post at_ s impl l op none k wanted w :
  ls_impl s = Some impl → list_ok impl l → (∀ b, seq_exec (li_element_limit impl) at_ b op l = seq_delete none k wanted l) →
  (∀ st', list_modifies op st' l = bool_decide (st' = STL_OK)) → (k < length l)%nat →
  ∃ a out s' w', l.*1 !! k = Some a ∧ list_remove_node (Some (at_, s)) (Some a) wanted w = Some ((STL_OK, out, Some (at_, s')), w') ∧
    list_post at_ s impl l op w STL_OK out None s' (take k l ++ drop (S k) l) w'.
Proof using AL.
  intros Hi H Hspec Hm Hk. destruct (lookup_lt_is_Some_2 l k Hk) as [[a v] Hl]. pose proof H as H'. rewrite <-(take_drop_middle _ _ _ Hl) in H'.
  destruct (remove_list_node_ok at_ s impl (take k l) a v (drop (S k) l) wanted w Hi H') as (s' & w' & E & Hh & Hsame & Hg & _ & Hb & Ho).
  rewrite (take_drop_middle _ _ _ Hl) in Hb, Ho. exists a, (if wanted then Some v else None), s', w'.
  split; [by rewrite list_lookup_fmap, Hl|]. split; [exact E|]. by eapply deleted_post.
Qed.

(** The operations that insert. *)
Definition inserts (op : list_op) : bool :=
  match op with LPushFront _ | LPushBack _ | LInsertBefore _ _ | LInsertAfter _ _ => true | _ => false end.

Lemma insert_ops_ok at_ s impl l op w :
  ls_impl s = Some impl → list_ok impl l → inserts op = true →
  ∃ st out it s' l' w', list_exec_op at_ l op s w = Some ((st, out, it, Some (at_, s')), w') ∧ list_post at_ s impl l op w st out it s' l' w'.
Proof using AL.
  intros Hi H Hop.
  assert (∀ k x, ∃ st it s' l' w', list_insert_between (Some (at_, s)) (lfinal None (take k l)) (lfirst (drop k l) None) (Some x) true w =
      Some ((st, it, Some (at_, s')), w') ∧ insert_post at_ s impl (take k l) x (drop k l) true w st it s' l' w') as Hins.
  { intros k x. apply insert_between_ok; [done|]. by rewrite take_drop. }
  destruct op as [x|x|i x|i x|i wanted|wanted|wanted|]; try done; cbn [list_exec_op].
  - destruct (Hins O x) as (st & it & s' & l' & w' & E & Hpost). unfold list_push_front. change (list_impl (Some (at_, s))) with (ls_impl s). rewrite Hi, (lo_head _ _ H).
    wstep E. do 6 eexists. split; [done|]. by eapply (inserted_post _ _ _ _ _ O).
  - destruct (Hins (length l) x) as (st & it & s' & l' & w' & E & Hpost). rewrite firstn_all, drop_all in E. unfold list_push_back.
    change (list_impl (Some (at_, s))) with (ls_impl s). rewrite Hi, (lo_tail _ _ H). wstep E. do 6 eexists. split; [done|]. by eapply (inserted_post _ _ _ _ _ (length l)).
  - unfold list_insert_before. rewrite (matches_ok _ _ _ _ _ Hi H). case_bool_decide as Hlt; cbn [negb].
    2:{ wrun. do 6 eexists. split; [done|]. apply refused_post; try done. intros a. cbn. by rewrite bool_decide_false. }
    destruct (lookup_lt_is_Some_2 l i Hlt) as [[a v] Hl]. destruct (position_parts _ _ _ _ _ H Hl) as (p & Ha & Hn & Hf & _).
    change (list_impl (Some (at_, s))) with (ls_impl s). rewrite Hi. unfold lit_at. cbn [lit_node]. rewrite Ha.
    assert ((i ← Some impl; ln_at i (Some a)) = Some (MkListNode (lfinal None (take i l)) (lfirst (drop (S i) l) None) (Some (p, Some v)))) as -> by exact Hn. wrun. cbn [ln_previous]. rewrite <-Hf. destruct (Hins i x) as (st & it & s' & l' & w' & E & Hpost). wstep E.
    do 6 eexists. split; [done|]. eapply (inserted_post _ _ _ _ _ i); try done. intros b. cbn. by rewrite bool_decide_true.
  - unfold list_insert_after. rewrite (matches_ok _ _ _ _ _ Hi H). case_bool_decide as Hlt; cbn [negb].
    2:{ wrun. do 6 eexists. split; [done|]. apply refused_post; try done. intros a. cbn. by rewrite bool_decide_false. }
    destruct (lookup_lt_is_Some_2 l i Hlt) as [[a v] Hl]. destruct (position_parts _ _ _ _ _ H Hl) as (p & Ha & Hn & _ & Hf).
    change (list_impl (Some (at_, s))) with (ls_impl s). rewrite Hi. unfold lit_at. cbn [lit_node]. rewrite Ha.
    assert ((i ← Some impl; ln_at i (Some a)) = Some (MkListNode (lfinal None (take i l)) (lfirst (drop (S i) l) None) (Some (p, Some v)))) as -> by exact Hn. wrun. cbn [ln_next]. rewrite <-Hf. destruct (Hins (S i) x) as (st & it & s' & l' & w' & E & Hpost). wstep E.
    do 6 eexists. split; [done|]. eapply (inserted_post _ _ _ _ _ (S i)); try done. intros b. cbn. by rewrite bool_decide_true.
Qed.

Lemma delete_ops_ok at_ s impl l op w :
  ls_impl s = Some impl → list_ok impl l → inserts op = false →
  ∃ st out it s' l' w', list_exec_op at_ l op s w = Some ((st, out, it, Some (at_, s')), w') ∧ list_post at_ s impl l op w st out it s' l' w'.
Proof using AL.
  intros Hi H Hop. destruct op as [x|x|i x|i x|i wanted|wanted|wanted|]; try done; cbn [list_exec_op].
  - unfold list_erase. rewrite (matches_ok _ _ _ _ _ Hi H). case_bool_decide as Hlt; cbn [negb].
    2:{ wrun. do 6 eexists. split; [done|]. apply refused_post; try done. intros a. cbn. unfold seq_delete. by rewrite lookup_ge_None_2 by lia. }
    destruct (erase_post at_ s impl l (LErase i wanted) STL_INVALID_ARGUMENT i wanted w Hi H) as (a & out & s' & w' & Ha & E & Hpost); try done.
    unfold lit_at. cbn [lit_node]. rewrite Ha. wstep E. do 6 eexists. split; [done|]. exact Hpost.
  - unfold list_pop_front. change (list_impl (Some (at_, s))) with (ls_impl s). rewrite Hi, (lo_head _ _ H). destruct l as [|[a v] l]; cbn [lfirst is_null].
    { wrun. do 6 eexists. split; [done|]. by apply refused_post. }
    destruct (erase_post at_ s impl ((a, v) :: l) (LPopFront wanted) STL_EMPTY 0 wanted w Hi H) as (b & out & s' & w' & Ha & E & Hpost); try done; [cbn; lia|].
    injection Ha as <-. wstep E. do 6 eexists. split; [done|]. exact Hpost.
  - unfold list_pop_back. change (list_impl (Some (at_, s))) with (ls_impl s). rewrite Hi, (lo_tail _ _ H).
    destruct l as [|[a v] l _] using rev_ind; [|rewrite lfinal_snoc]; cbn [is_null].
    { wrun. do 6 eexists. split; [done|]. by apply refused_post. }
    destruct (erase_post at_ s impl (l ++ [(a, v)]) (LPopBack wanted) STL_EMPTY (pred (length (l ++ [(a, v)]))) wanted w Hi H) as (b & out & s' & w' & Ha & E & Hpost);
      try done; [rewrite length_app; cbn; lia|].
    assert (b = a) as ->. { rewrite length_app, fmap_app, lookup_app_r in Ha; rewrite ?length_fmap in *; cbn in *; [|lia]. by replace (pred (length l + 1) - length l)%nat with O in Ha by lia; injection Ha. }
    wstep E. do 6 eexists. split; [done|]. exact Hpost.
  - unfold list_clear. change (list_impl (Some (at_, s))) with (ls_impl s). rewrite Hi, (lo_head _ _ H). destruct (fresh_address l) as [b Hb'].
    destruct l as [|[a v] l]; cbn [lfirst is_null].
    { wrun. do 6 eexists. split; [done|]. split; try done; [by exists impl|by eapply same_list_refl|exists b; split; [done|]; by left|cbn; lia]. }
    destruct (release_ok impl _ w H) as (w1 & E & Hok & _ & Hb & Ho). erewrite run_bind; [|by wstep E]. do 6 eexists. split; [done|].
    split; try done; [by eexists| |exists b; split; [done|]; by left|..].
    + split; [done|]. split; [done|]. by eexists _, _.
    + unfold list_blocks. cbn. rewrite Hi. unfold alen in *. cbn in *. lia.
    + unfold list_objects. cbn. rewrite Hi. unfold alen in *. cbn in *. lia.
Qed.

(** C11. A linked list behaves as a sequence: elements are put at both ends and
    before or behind a position while there is room, taken out at a position
    or at the ends, and all dropped. Only the node at the position comes or
    goes: all other nodes keep their addresses, so iterators to them stay
    valid, and the new iterator names the new node. A call that runs out of
    memory changes nothing; the generation counts modifications; blocks and
    objects are accounted for; nothing is undefined. Afterwards size, front
    and back are those of the sequence. *)
Theorem list_refines at_ s impl l op w :
  ls_impl s = Some impl → list_ok impl l →
  ∃ st out it s' l' w', list_exec_op at_ l op s w = Some ((st, out, it, Some (at_, s')), w') ∧
    list_post at_ s impl l op w st out it s' l' w' ∧ list_reads at_ s' l'.
Proof using AL.
  intros Hi H. assert (∃ st out it s' l' w', list_exec_op at_ l op s w = Some ((st, out, it, Some (at_, s')), w') ∧ list_post at_ s impl l op w st out it s' l' w') as (st & out & it & s' & l' & w' & E & Hpost).
  { destruct (inserts op) eqn:Hop; [by apply insert_ops_ok|by apply delete_ops_ok]. }
  do 6 eexists. split; [exact E|]. split; [exact Hpost|]. apply list_reads_ok, Hpost.
Qed.
End Spec.
