(* ===== verification/StlListIter.v ===== *)
(** * The linked list: construction from an array and iteration

    Building a list from an array is all or nothing; iterators and range
    cursors are the positions of the sequence. *)

From stdpp Require Import gmap.
From S2P Require Import Prelude World Sequence RbTree RbSpec OrdMap StlList StlListSpec.
Local Open Scope Z_scope.

Section Build.
Context {V : Type} {AL : Allocator}.
Implicit Types (impl : list_impl_t V) (s : list_t V) (l : list (Z * V)).

(** Room for the elements that are still to come. *)
Definition list_enough impl (xs : list V) (w : world) : Prop :=
  li_elem_stride impl + overhead (li_elem_align impl) <= SIZE_MAX ∧ mallocs (2 * length xs) (li_elem_align impl) w ∧
  Forall (copyable (li_element_type impl)) xs.

Lemma same_list_trans s1 s2 s3 : same_list s1 s2 → same_list s2 s3 → same_list s1 s3.
Proof using Type.
  intros (A1 & A2 & i1 & i2 & H1 & H2 & C1) (B1 & B2 & i2' & i3 & H2' & H3 & C2). split; [congruence|]. split; [congruence|].
  exists i1, i3. split; [done|]. split; [done|]. assert (i2' = i2) as -> by congruence. unfold same_impl in *. intuition congruence.
Qed.

Lemma push_all_list_ok at_ xs : ∀ s impl l w,
  ls_impl s = Some impl → list_ok impl l → alen l + alen xs <= li_element_limit impl →
  ∃ st s' w', list_push_all (Some (at_, s)) xs w = Some ((st, Some (at_, s')), w') ∧
    (if bool_decide (st = STL_OK) then
       ∃ l', list_holds s' l' ∧ l'.*2 = l.*2 ++ xs ∧ same_list s s' ∧
         w_blocks w' - list_blocks s' l' = w_blocks w - list_blocks s l ∧ w_objects w' - list_objects s' l' = w_objects w - list_objects s l
     else ls_impl s' = None ∧ w_blocks w' = w_blocks w - list_blocks s l ∧ w_objects w' = w_objects w - list_objects s l) ∧
    (list_enough impl xs w → st = STL_OK).
Proof using AL.
  induction xs as [|x xs IH]; intros s impl l w Hi H Hmax; cbn [list_push_all].
  { exists STL_OK, s, w. split; [done|]. rewrite bool_decide_true by done. split; [|done]. exists l. rewrite app_nil_r.
    split; [by exists impl|]. split; [done|]. split; [by eapply same_list_refl|done]. }
  assert (alen (x :: xs) = 1 + alen xs) as Hx by (unfold alen; cbn; lia). rewrite Hx in Hmax.
  unfold list_push_back. change (list_impl (Some (at_, s))) with (ls_impl s). rewrite Hi, (lo_tail _ _ H).
  destruct (insert_between_ok at_ s impl l [] x false w Hi) as (st & it & s1 & l1 & w1 & E & [Hh Hsame Hstep _ Hb Ho Hen Hml]); [by rewrite app_nil_r|].
  cbn [lfirst] in E. wstep E. rewrite app_nil_r in *. case_bool_decide as Hst; cbn [negb].
  - destruct Hstep as [(_ & _ & a & Ha & -> & _)|(? & _)]; [|done]. destruct Hh as (impl1 & Hi1 & H1). pose proof Hsame as (_ & _ & i0 & i1 & E0 & E1 & Hsi).
    rewrite Hi in E0. injection E0 as <-. rewrite Hi1 in E1. injection E1 as <-. destruct Hsi as (_ & Ks & Ka & Kl & Kt).
    destruct (IH s1 impl1 (l ++ [(a, x)]) w1 Hi1 H1) as (st2 & s2 & w2 & E2 & Hres & Hlive).
    { rewrite Kl. unfold alen in *. rewrite length_app. cbn. unfold alen in *. lia. }
    exists st2, s2, w2. split; [done|]. split.
    + case_bool_decide; [|destruct Hres as (? & ? & ?); split; [done|]; lia]. destruct Hres as (l' & Hl' & El & Hs2 & Hb2 & Ho2). exists l'.
      split; [done|]. split; [rewrite El, fmap_app, <-app_assoc; done|]. split; [|lia].
      by eapply same_list_trans.
    + intros (Hr & Hm & Hc). apply Hlive. apply Forall_cons in Hc as [_ Hc]. unfold list_enough. rewrite Ks, Ka, Kt. split; [done|]. split; [|done].
      apply Hml. eapply mallocs_le; [|exact Hm]. cbn. lia.
  - destruct Hstep as [(? & _)|(_ & _ & -> & _ & ->)]; [done|].
    destruct (destroy_list_ok at_ s l w1) as (s2 & w2 & E2 & Hn & _ & Hb2 & Ho2); [right; by exists impl|]. wstep E2.
    do 3 eexists. split; [done|]. rewrite bool_decide_false by done. split; [split; [done|]; lia|].
    intros (Hr & Hm & Hc). apply Forall_cons in Hc as [Hc _]. destruct Hst. apply Hen; [|unfold alen in *; lia]. split; [done|]. split; [|done].
    eapply mallocs_le; [|exact Hm]. cbn. lia.
Qed.

(** A new handle, or nothing. *)
Lemma initialize_list_ok at_ s type esize ealign limit w :
  ls_impl s = None → is_u64 esize → is_u64 ealign → is_u64 limit → type_ok type →
  ∃ st s' w', list_initialize (Some (at_, s)) type esize ealign limit w = Some ((st, Some (at_, s')), w') ∧
    (if bool_decide (st = STL_OK) then
       ∃ impl, ls_impl s' = Some impl ∧ list_ok impl [] ∧ li_element_limit impl = limit ∧ li_element_type impl = type ∧ li_elem_align impl = ealign ∧
         sequence_stride esize ealign = (STL_OK, Some (li_elem_stride impl)) ∧ w_blocks w' = w_blocks w + 1 ∧ w_objects w' = w_objects w
     else s' = s ∧ w_same w w') ∧
    (∀ n a, (sequence_stride esize ealign).1 = STL_OK → mallocs (S n) a w → st = STL_OK ∧ mallocs n a w').
Proof using Type.
  intros Hi Hes Hea Hlim Hty. unfold list_initialize. rewrite Hi. cbn [is_null negb]. destruct (sequence_stride esize ealign) as [st o] eqn:Es.
  destruct (stride_range _ _ _ _ Hes Hea Es) as [[-> (x & -> & Hx & Hz & Hv)]|[Hn ->]]; cycle 1.
  { exists st, s, w. rewrite bool_decide_false by done. split; [by destruct st|]. split; [done|]. intros n a Hst. done. }
  destruct (malloc_ok w) as (block & w0 & E0 & Hb0 & Ho0 & _). wstep E0.
  assert (∀ n a, mallocs (S n) a w → mallocs n a w0 ∧ is_Some block) as Hm0.
  { intros n a Hm. destruct (malloc_supplied _ _ _ Hm) as (p & w' & E & Hm' & _). rewrite E0 in E. by simplify_eq. }
  destruct block as [b|]; cbn [is_null] in Hb0; do 3 eexists; (split; [done|]).
  - split; [|by intros n a _ [? _]%Hm0]. rewrite bool_decide_true by done. eexists. split; [done|]. split; [|done].
    split; cbn; try done; [unfold is_u64, SIZE_MAX in *; lia|constructor|]. unfold is_u64, alen in *. cbn. lia.
  - rewrite bool_decide_false by done. split; [split; [done|]; split; lia|]. intros n a _ Hm. by destruct (Hm0 n a Hm) as [_ []].
Qed.

(** Building a list from an array is all or nothing: on success it holds the
    elements of the array in order; otherwise the handle is as it was and
    nothing stays allocated. With memory it succeeds exactly when the elements
    are within the limit. *)
Theorem list_from_array_exact local at_ s xs esize ealign limit w :
  ls_impl s = None → is_u64 esize → is_u64 ealign → is_u64 limit →
  ∃ st s' w', list_from_array_bytes local (Some (at_, s)) (Some xs) (alen xs) esize ealign limit w = Some ((st, Some (at_, s')), w') ∧
    (if bool_decide (st = STL_OK) then
       ∃ l, list_holds s' l ∧ l.*2 = xs ∧ ls_generation s' = u64 (ls_generation s + 1) ∧
         w_blocks w' = w_blocks w + list_blocks s' l ∧ w_objects w' = w_objects w
     else s' = s ∧ w_same w w') ∧
    (limit < alen xs → st = STL_CAPACITY_EXCEEDED) ∧
    (∀ x, sequence_stride esize ealign = (STL_OK, Some x) → x + overhead ealign <= SIZE_MAX →
      mallocs (1 + 2 * length xs) ealign w → alen xs <= limit → st = STL_OK).
Proof using AL.
  intros Hi Hes Hea Hlim. unfold list_from_array_bytes, list_from_common. rewrite Hi. cbn [is_null negb].
  destruct (Z.ltb_spec limit (alen xs)) as [Hbig|Hfit].
  { do 3 eexists. split; [done|]. rewrite bool_decide_false by done. split; [done|]. split; [done|]. intros. lia. }
  rewrite andb_false_r. unfold list_init_bytes.
  destruct (initialize_list_ok local ls_zero None esize ealign limit w eq_refl Hes Hea Hlim I) as (st & t & w1 & E1 & Hres & Hlive). wstep E1.
  case_bool_decide as Hst; cbn [negb]; cycle 1.
  { do 3 eexists. split; [done|]. rewrite bool_decide_false by done. split; [by destruct Hres|]. split; [lia|].
    intros x Ex _ Hm _. destruct Hst. apply (Hlive (2 * length xs)%nat ealign); [by rewrite Ex|done]. }
  destruct Hres as (impl & Hit & Hok & Hl & Hty & Ha & Hsx & Hb & Ho).
  change (default [] (Some xs)) with xs. rewrite (proj2 (Z.ltb_ge (alen xs) (alen xs))) by lia.
  rewrite take_ge by (unfold alen; lia). wrun.
  destruct (push_all_list_ok local xs t impl [] w1 Hit Hok) as (st2 & t2 & w2 & E2 & Hres & Hlive2); [rewrite Hl; unfold alen in *; cbn; lia|]. wstep E2.
  assert (list_blocks t [] = 1 ∧ list_objects t [] = 0) as [Hbt Hot] by (unfold list_blocks, list_objects, alen; rewrite Hit; cbn; lia).
  assert (∀ x, sequence_stride esize ealign = (STL_OK, Some x) → x + overhead ealign <= SIZE_MAX →
      mallocs (1 + 2 * length xs) ealign w → alen xs <= limit → st2 = STL_OK) as Hen.
  { intros x Ex Hx Hm _. apply Hlive2. unfold list_enough. rewrite Hsx in Ex. injection Ex as ->. rewrite Ha, Hty. split; [done|]. split; [|by apply Forall_true].
    apply Hlive; [by rewrite Hsx|done]. }
  case_bool_decide as Hst2; cbn [negb].
  - destruct Hres as (l & Hh & El & Hsame & Hb2 & Ho2). wrun. do 3 eexists. split; [done|]. rewrite bool_decide_true by done. split; [|by split; [lia|]].
    exists l. assert (list_objects t2 l = 0) as Hzero.
    { destruct Hsame as (_ & _ & i1 & i2 & F1 & F2 & (_ & _ & _ & _ & Ft)). unfold list_objects. rewrite F2, Ft. assert (i1 = impl) as -> by congruence. by rewrite Hty. }
    destruct Hh as (i2 & F2 & Hok2). split; [by exists i2|]. split; [exact El|]. split; [done|].
    change (list_blocks (MkList _ _ (ls_impl t2) _) l) with (list_blocks t2 l). lia.
  - do 3 eexists. split; [done|]. rewrite bool_decide_false by done. destruct Hres as (_ & Hb2 & Ho2). split; [split; [done|]; split; lia|]. split; [lia|done].
Qed.
End Build.

(** ** Iteration *)

Section Iter.
Context {V : Type} {AL : Allocator}.
Implicit Types (s : list_t V) (l : list (Z * V)) (mem : gmap Z (list_t V)).

(** The cursor at a position. *)
Definition lcursor_at (at_ : Z) l (i : nat) : cmeta_range_cursor := MkCursor (l.*1 !! i) (Some at_).

Record lposition_ok mem (at_ : Z) l (i : nat) : Prop := {
  lp_next : list_iter_next mem (Some (lit_at at_ l i)) =
    Some (if bool_decide (i < length l)%nat then (STL_OK, Some (lit_at at_ l (S i))) else (STL_NOT_FOUND, Some (lit_at at_ l i)));
  lp_prev : list_iter_prev mem (Some (lit_at at_ l i)) =
    Some (if bool_decide (i = O) then (STL_NOT_FOUND, Some (lit_at at_ l i)) else (STL_OK, Some (lit_at at_ l (pred i))));
  lp_value : ∃ o, list_iter_value mem (lit_at at_ l i) = Some o ∧ (x ← o; x.2) = snd <$> l !! i;
  lp_range : ∃ o c, list_range_next mem (Some at_) (lcursor_at at_ l i) = Some (o, c) ∧
    (x ← o; y ← x; y.2) = snd <$> l !! i ∧ c = lcursor_at at_ l (if bool_decide (i < length l)%nat then S i else i)
}.

Lemma lfirst_lookup l : lfirst l None = l.*1 !! O.
Proof using Type. by destruct l as [|[]]. Qed.
Lemma lfinal_lookup l : lfinal None l = l.*1 !! pred (length l).
Proof using Type. unfold lfinal. rewrite last_lookup, list_lookup_fmap. by destruct (l !! _) as [[]|]. Qed.

Lemma lposition_steps mem at_ s l i : mem !! at_ = Some s → list_holds s l → (i <= length l)%nat → lposition_ok mem at_ l i.
Proof using Type.
  intros Hp (impl & Hi & H) Hle. assert (list_impl (list_at mem (Some at_)) = Some impl) as Hl.
  { unfold list_at. cbn [mbind option_bind]. rewrite Hp. exact Hi. }
  assert (list_valid (list_at mem (Some at_)) = true) as Hv by (unfold list_valid; rewrite Hl; by rewrite (proj2 (Z.eqb_neq _ _) (lo_size _ _ H))).
  destruct (l !! i) as [[a v]|] eqn:Ea.
  - destruct (position_parts impl l i a v H Ea) as (p & Ha & Hn & _ & _). pose proof (ln_at_run _ _ _ Hn) as Hr. pose proof (lookup_lt_Some _ _ _ Ea) as Hlt.
    assert (lfirst (drop (S i) l) None = l.*1 !! S i) as Hnx by (rewrite lfirst_lookup, fmap_drop, lookup_drop; f_equal; lia).
    assert (lfinal None (take i l) = if bool_decide (i = O) then None else l.*1 !! pred i) as Hpv.
    { rewrite lfinal_lookup, length_take, Nat.min_l by lia. case_bool_decide as Hz; [by subst|]. rewrite fmap_take, lookup_take_lt by lia. done. }
    assert (is_null (lfinal None (take i l)) = bool_decide (i = O)) as Hnull.
    { rewrite Hpv. case_bool_decide; [done|]. destruct (lookup_lt_is_Some_2 l.*1 (pred i)) as [b ->]; [rewrite length_fmap; lia|done]. }
    split; unfold list_iter_next, list_iter_prev, list_iter_value, list_range_next, lit_at, lcursor_at; cbn [lit_owner lit_node cu_map cu_node];
      rewrite ?Hv, Hl, Ha; cbn [is_null negb andb orb mbind option_bind]; unfold ln_object; rewrite ?Hr; cbn [mbind option_bind ln_next ln_previous ln_value].
    + by rewrite bool_decide_true, Hnx by done.
    + rewrite Hnull. by rewrite Hpv; case_bool_decide.
    + exists (Some (p, Some v)). split; [done|]. by rewrite Ea.
    + rewrite bool_decide_true by done. cbn [negb]. do 2 eexists. split; [done|].
      rewrite Ea. split; [done|]. by rewrite bool_decide_true, Hnx by done.
  - pose proof (proj1 (lookup_ge_None _ _) Ea) as Hge. assert (l.*1 !! i = None) as Hn by (by rewrite list_lookup_fmap, Ea).
    pose proof (lo_tail _ _ H) as Htl. rewrite lfinal_lookup in Htl.
    split; unfold list_iter_next, list_iter_prev, list_iter_value, list_range_next, lit_at, lcursor_at; cbn [lit_owner lit_node cu_map cu_node];
      rewrite ?Hv, ?Hl, ?Hn; cbn [is_null negb andb orb mbind option_bind].
    + by rewrite bool_decide_false by lia.
    + assert (i = length l) as -> by lia. rewrite Htl. case_bool_decide as Hz.
      * by rewrite lookup_ge_None_2 by (rewrite length_fmap; lia).
      * destruct (lookup_lt_is_Some_2 l.*1 (pred (length l))) as [b ->]; [rewrite length_fmap; lia|done].
    + exists None. by rewrite Ea.
    + rewrite bool_decide_true by done. cbn [negb]. do 2 eexists. split; [done|]. rewrite Ea. split; [done|]. by rewrite bool_decide_false, Hn by lia.
Qed.

(** The iterators of a linked list are the positions of its sequence:
    [begin] is position 0 and [end] the one behind the last element, [next]
    and [prev] move by one and refuse to leave the list, equality is equality
    of positions, the value at a position is the element there, and a range
    cursor visits the elements in order. *)
Theorem list_iteration_exact mem at_ s l :
  mem !! at_ = Some s → list_holds s l →
  list_begin mem (Some at_) = lit_at at_ l 0 ∧ list_end (Some at_) = lit_at at_ l (length l) ∧
  (∀ i j, (i <= length l)%nat → (j <= length l)%nat → list_iter_equal (lit_at at_ l i) (lit_at at_ l j) = bool_decide (i = j)) ∧
  ∀ i, (i <= length l)%nat → lposition_ok mem at_ l i.
Proof using AL.
  intros Hp Hh. pose proof Hh as (impl & Hi & H). split; [|split; [|split]].
  - assert (list_impl (list_at mem (Some at_)) = Some impl) as Hl by (unfold list_at; cbn [mbind option_bind]; rewrite Hp; exact Hi).
    unfold list_begin, lit_at. by rewrite Hl, (lo_head _ _ H), lfirst_lookup.
  - unfold list_end, lit_at. by rewrite lookup_ge_None_2 by (by rewrite length_fmap).
  - intros i j Hi' Hj. unfold list_iter_equal, lit_at. cbn [lit_owner lit_node]. rewrite bool_decide_true by done. cbn [andb]. apply bool_decide_ext.
    split; [|by intros ->]. intros E. rewrite <-(length_fmap fst) in Hi', Hj. destruct (l.*1 !! i) as [a|] eqn:Ea.
    + eapply NoDup_lookup; [apply (lo_nodes_nodup _ _ H)|exact Ea|done].
    + symmetry in E. apply lookup_ge_None in Ea, E. lia.
  - intros i Hle. by eapply lposition_steps.
Qed.
End Iter.

(** ** An example: three integers *)

Module ExampleList.

Definition memory (n : nat) : world := MkWorld (replicate n (Some 4096)) 0 0.
Definition three_list : option (list_t Z) :=
  match list_from_array_bytes 128 (Some (64, ls_zero)) (Some [10; 20; 30]) 3 8 8 100 (memory 7) with
  | Some ((_, Some (_, s)), _) => Some s
  | _ => None
  end.

Lemma three_list_ok : ∃ s l, three_list = Some s ∧ list_holds s l ∧ l.*2 = [10; 20; 30].
Proof.
  destruct (list_from_array_exact 128 64 ls_zero [10; 20; 30] 8 8 100 (memory 7)) as (st & s & w' & E & Hres & _ & Hl); [done|by vm_compute..|].
  assert (st = STL_OK) as ->.
  { apply (Hl 8); [reflexivity|by vm_compute| |by vm_compute]. exists (replicate 7 4096), []. split; [done|]. split; [done|]. by repeat constructor. }
  rewrite bool_decide_true in Hres by done. destruct Hres as (l & Hh & El & _). exists s, l. unfold three_list.
  change (alen [10; 20; 30]) with 3 in E. by rewrite E.
Qed.
End ExampleList.
Import ExampleList.

Lemma list_refines_witness :
  ∃ s impl l, three_list = Some s ∧ l.*2 = [10; 20; 30] ∧
    ∃ st out it s' l' w', list_exec_op 64 l (LInsertAfter 0 15) s (memory 2) = Some ((st, out, it, Some (64, s')), w') ∧
      list_post 64 s impl l (LInsertAfter 0 15) (memory 2) st out it s' l' w'.
Proof.
  destruct three_list_ok as (s & l & E & (impl & Hi & H) & El). exists s, impl, l. split; [exact E|]. split; [exact El|].
  destruct (list_refines 64 s impl l (LInsertAfter 0 15) (memory 2) Hi H) as (st & out & it & s' & l' & w' & Er & Hp & _).
  exists st, out, it, s', l', w'. split; [exact Er|exact Hp].
Defined.

Lemma list_iteration_exact_witness :
  ∃ s l, three_list = Some s ∧ l.*2 = [10; 20; 30] ∧
    list_iter_next {[ 64 := s ]} (Some (lit_at 64 l 1)) = Some (if bool_decide (1 < length l)%nat then (STL_OK, Some (lit_at 64 l 2)) else (STL_NOT_FOUND, Some (lit_at 64 l 1))).
Proof.
  destruct three_list_ok as (s & l & E & Hh & El). exists s, l. split; [exact E|]. split; [exact El|].
  destruct (list_iteration_exact {[ 64 := s ]} 64 s l (lookup_singleton_eq _ _) Hh) as (_ & _ & _ & Hpos). apply (Hpos 1%nat).
  rewrite <-(length_fmap snd), El. cbn. lia.
Defined.
