(* ===== verification/RingBuffer.v ===== *)
(** * The single-threaded ring buffer ([utils/src/ring_buffer.c])

    A bipartite buffer: regions for reading and writing are contiguous, and a
    region that does not fit behind the write position starts at the front
    again, leaving an unused gap. The functions hand out addresses into the
    storage; the bytes are read and written by the caller. *)

From S2P Require Import Prelude.
Local Open Scope Z_scope.

Record ring_data_type := MkRing {
  rd_size : Z;
  rd_data : option Z;
  rd_r : Z;
  rd_w : Z;
  rd_i : Z;
  rd_write_wrapped : bool;
  rd_read_wrapped : bool
}.

Definition set_write_wrapped (inst : ring_data_type) (b : bool) : ring_data_type :=
  MkRing (rd_size inst) (rd_data inst) (rd_r inst) (rd_w inst) (rd_i inst) b (rd_read_wrapped inst).
Definition set_read_wrapped (inst : ring_data_type) (b : bool) : ring_data_type :=
  MkRing (rd_size inst) (rd_data inst) (rd_r inst) (rd_w inst) (rd_i inst) (rd_write_wrapped inst) b.

(** An instance is a pointer and the structure behind it; a failed assertion
    has no result. *)
Definition ring_init (inst : option ring_data_type) (data_array : option Z) (size : Z) : option ring_data_type :=
  if is_null inst || is_null data_array || (size =? 0) then None else
  Some (MkRing size data_array 0 0 0 false false).

Definition calc_free (w r size : Z) : Z :=
  if w <? r then u64 (u64 (r - w) - 1) else u64 (u64 (size - u64 (w - r)) - 1).

(** The address, null when there is no room, and the instance. *)
Definition ring_write_acquire (inst : option ring_data_type) (free_required : Z) : option (option Z * ring_data_type) :=
  inst ← inst;
  data ← rd_data inst;
  let w := rd_w inst in
  let free := calc_free w (rd_r inst) (rd_size inst) in
  let linear_space := u64 (rd_size inst - w) in
  let linear_free := Z.min free linear_space in
  if free_required <=? linear_free then Some (Some (data + w), inst) else
  if free_required <=? u64 (free - linear_free) then Some (Some data, set_write_wrapped inst true) else
  Some (None, inst).

Definition ring_write_release (inst : option ring_data_type) (written : Z) : option ring_data_type :=
  inst ← inst;
  data ← rd_data inst;
  let '(w, i) := if rd_write_wrapped inst then (0, rd_w inst) else (rd_w inst, rd_i inst) in
  if rd_size inst <? u64 (w + written) then None else
  let w := u64 (w + written) in
  let i := if i <? w then w else i in
  let w := if w =? rd_size inst then 0 else w in
  Some (MkRing (rd_size inst) (Some data) (rd_r inst) w i false (rd_read_wrapped inst)).

(** The address, null when there is nothing to read, the number of bytes
    stored in [available] and the instance. *)
Definition ring_read_acquire (inst : option ring_data_type) (available : option Z) : option (option Z * Z * ring_data_type) :=
  inst ← inst;
  data ← rd_data inst;
  _ ← available;
  let r := rd_r inst in
  let w := rd_w inst in
  if r =? w then Some (None, 0, inst) else
  if r <? w then Some (Some (data + r), u64 (w - r), inst) else
  if r =? rd_i inst then Some (Some data, w, set_read_wrapped inst true) else
  Some (Some (data + r), u64 (rd_i inst - r), inst).

Definition ring_read_release (inst : option ring_data_type) (read : Z) : option ring_data_type :=
  inst ← inst;
  data ← rd_data inst;
  let r := if rd_read_wrapped inst then 0 else rd_r inst in
  let r := u64 (r + read) in
  let r := if r =? rd_size inst then 0 else r in
  Some (MkRing (rd_size inst) (Some data) r (rd_w inst) (rd_i inst) (rd_write_wrapped inst) false).

(** ** Refinement of a queue of bytes *)

(** Between operations: the bytes that are unread, in order. *)
Definition ring_view (d : ring_data_type) (bs : list Z) : option (list Z) :=
  if bool_decide (rd_r d <= rd_w d) then slice bs (rd_r d) (rd_w d - rd_r d) else
  s1 ← slice bs (rd_r d) (rd_i d - rd_r d); s2 ← slice bs 0 (rd_w d); Some (s1 ++ s2).

(** The ring [d] over the bytes [bs] at the address [a] holds the queue [q]. *)
Record ring_holds (a : Z) (d : ring_data_type) (bs q : list Z) : Prop := {
  rh_data : rd_data d = Some a;
  rh_size : 0 < rd_size d <= SIZE_MAX;
  rh_length : blen bs = rd_size d;
  rh_write : 0 <= rd_w d < rd_size d;
  rh_read : 0 <= rd_r d < rd_size d;
  rh_invalid : 0 <= rd_i d <= rd_size d;
  rh_order : rd_w d < rd_r d → rd_r d <= rd_i d;
  rh_flags : rd_write_wrapped d = false ∧ rd_read_wrapped d = false;
  rh_view : ring_view d bs = Some q
}.

(** The free bytes behind the write position and, when those do not suffice,
    at the front; one byte stays free to tell full from empty. *)
Definition gap_behind (d : ring_data_type) : Z :=
  if bool_decide (rd_w d < rd_r d) then rd_r d - rd_w d - 1 else
  if bool_decide (rd_r d = 0) then rd_size d - rd_w d - 1 else rd_size d - rd_w d.
Definition gap_front (d : ring_data_type) : Z :=
  if bool_decide (rd_w d < rd_r d) then 0 else Z.max 0 (rd_r d - 1).

Definition ring_place (a : Z) (d : ring_data_type) (n : Z) : option Z :=
  if bool_decide (n <= gap_behind d) then Some (a + rd_w d) else
  if bool_decide (n <= gap_front d) then Some a else None.

(** What acquiring and releasing for writing do. *)
Definition ring_writes (a : Z) (d : ring_data_type) (bs q : list Z) (n : Z) : Prop :=
  ∃ d1, ring_write_acquire (Some d) n = Some (ring_place a d n, d1) ∧ (ring_place a d n = None → d1 = d) ∧
    ∀ p src, ring_place a d n = Some p → blen src <= n →
      ∃ bs' d', blit bs (p - a) src = Some bs' ∧ ring_write_release (Some d1) (blen src) = Some d' ∧
        ring_holds a d bs' q ∧ ring_holds a d' bs' (q ++ src) ∧ rd_size d' = rd_size d.

(** What acquiring and releasing for reading do. *)
Definition ring_reads (a : Z) (d : ring_data_type) (bs q : list Z) : Prop :=
  ∃ p k d1, ring_read_acquire (Some d) (Some 0) = Some (p, k, d1) ∧ 0 <= k ∧ (q = [] → k = 0) ∧ (q ≠ [] → 0 < k ∧ is_Some p) ∧
    (p = None → d1 = d) ∧
    ∀ p', p = Some p' → slice bs (p' - a) k = Some (take (Z.to_nat k) q) ∧ k <= blen q ∧
      ∀ j, 0 <= j <= k → ∃ d', ring_read_release (Some d1) j = Some d' ∧ ring_holds a d' bs (drop (Z.to_nat j) q) ∧ rd_size d' = rd_size d.

Lemma calc_free_ok a d bs q : ring_holds a d bs q →
  Z.min (calc_free (rd_w d) (rd_r d) (rd_size d)) (u64 (rd_size d - rd_w d)) = gap_behind d ∧
  u64 (calc_free (rd_w d) (rd_r d) (rd_size d) - gap_behind d) = gap_front d.
Proof.
  intros [_ Hs _ Hw Hr _ _ _ _]. unfold calc_free, gap_behind, gap_front.
  repeat case_bool_decide; destruct (Z.ltb_spec (rd_w d) (rd_r d)); try lia; word_lia.
Qed.

Lemma view_straight d bs : rd_r d <= rd_w d → ring_view d bs = slice bs (rd_r d) (rd_w d - rd_r d).
Proof. intros. unfold ring_view. by rewrite bool_decide_true. Qed.
Lemma view_wrapped d bs q : rd_w d < rd_r d →
  ring_view d bs = Some q ↔ ∃ s1 s2, slice bs (rd_r d) (rd_i d - rd_r d) = Some s1 ∧ slice bs 0 (rd_w d) = Some s2 ∧ q = s1 ++ s2.
Proof.
  intros. unfold ring_view. rewrite bool_decide_false by lia.
  destruct (slice bs (rd_r d) (rd_i d - rd_r d)) as [s1|], (slice bs 0 (rd_w d)) as [s2|]; naive_solver.
Qed.

(** Bytes outside of what is unread may change. *)
Lemma view_frame a d bs q off src bs' :
  ring_holds a d bs q → blit bs off src = Some bs' →
  (if bool_decide (rd_r d <= rd_w d) then rd_w d <= off ∨ off + blen src <= rd_r d else rd_w d <= off ∧ off + blen src <= rd_r d) →
  ring_holds a d bs' q.
Proof.
  intros [Hd Hs Hl Hw Hr Hi Ho Hf Hv] Hb Hoff. split; try done.
  { by rewrite (blit_blen _ _ _ _ Hb). }
  case_bool_decide as Hrw.
  - rewrite view_straight in Hv |- * by done. rewrite <-Hv.
    destruct Hoff; [by apply (slice_blit_before _ _ _ _ _ _ Hb); lia|by apply (slice_blit_after _ _ _ _ _ _ Hb)].
  - apply view_wrapped in Hv as (s1 & s2 & H1 & H2 & ->); [|lia]. apply view_wrapped; [lia|]. exists s1, s2.
    by rewrite (slice_blit_after _ _ _ _ _ _ Hb), (slice_blit_before _ _ _ _ _ _ Hb) by lia.
Qed.

Lemma release_behind a d bs bs' q src :
  ring_holds a d bs q → blen src <= gap_behind d → blit bs (rd_w d) src = Some bs' →
  ∃ d', ring_write_release (Some d) (blen src) = Some d' ∧ ring_holds a d bs' q ∧ ring_holds a d' bs' (q ++ src) ∧ rd_size d' = rd_size d.
Proof.
  intros H Hk Hb. pose proof (blen_nonneg src) as Hk0. apply blit_Some in Hb as HB. destruct HB as (_ & HB & _).
  assert (H' : ring_holds a d bs' q).
  { eapply view_frame; [done..|]. unfold gap_behind in Hk. repeat case_bool_decide; lia. }
  clear H. destruct H' as [Hd Hs Hl Hw Hr Hi Ho [Hf1 Hf2] Hv]. pose proof (blit_blen _ _ _ _ Hb) as Hbl.
  unfold ring_write_release. cbn [mbind option_bind]. rewrite Hd. cbn [mbind option_bind]. rewrite Hf1.
  rewrite u64_id by word_lia. destruct (Z.ltb_spec (rd_size d) (rd_w d + blen src)); [lia|].
  eexists. split; [done|]. split; [by split|]. split; [|done].
  pose proof (slice_blit_same _ _ _ _ Hb) as Hnew. unfold gap_behind in Hk. split; cbn; try done; try lia.
  - destruct (Z.eqb_spec (rd_w d + blen src) (rd_size d)); lia.
  - destruct (Z.ltb_spec (rd_i d) (rd_w d + blen src)); lia.
  - destruct (Z.eqb_spec (rd_w d + blen src) (rd_size d)), (Z.ltb_spec (rd_i d) (rd_w d + blen src)); repeat case_bool_decide; lia.
  - destruct (decide (rd_w d < rd_r d)) as [Hrw|Hrw].
    + rewrite bool_decide_true in Hk by done. apply view_wrapped in Hv as (s1 & s2 & H1 & H2 & ->); [|done].
      destruct (Z.eqb_spec (rd_w d + blen src) (rd_size d)); [lia|]. destruct (Z.ltb_spec (rd_i d) (rd_w d + blen src)); [lia|].
      apply view_wrapped; cbn; [lia|]. exists s1, (s2 ++ src). rewrite (slice_join _ 0 (rd_w d) _ s2 src) by done. by rewrite app_assoc.
    + rewrite view_straight in Hv by lia. pose proof (slice_join bs' (rd_r d) (rd_w d - rd_r d) (blen src) q src) as HJ.
      replace (rd_r d + (rd_w d - rd_r d)) with (rd_w d) in HJ by lia. specialize (HJ Hv Hnew).
      rewrite bool_decide_false in Hk by lia. destruct (Z.eqb_spec (rd_w d + blen src) (rd_size d)) as [He|He].
      * case_bool_decide; [lia|]. apply view_wrapped; cbn; [lia|]. exists (q ++ src), []. rewrite app_nil_r, slice_nil by lia.
        destruct (Z.ltb_spec (rd_i d) (rd_w d + blen src)); [|replace (rd_i d) with (rd_w d + blen src) by lia];
          (replace (rd_w d + blen src - rd_r d) with (rd_w d - rd_r d + blen src) by lia; done).
      * rewrite view_straight; cbn; [|lia]. by replace (rd_w d + blen src - rd_r d) with (rd_w d - rd_r d + blen src) by lia.
Qed.

Lemma release_front a d bs bs' q src :
  ring_holds a d bs q → rd_r d <= rd_w d → blen src < rd_r d → blit bs 0 src = Some bs' →
  ∃ d', ring_write_release (Some (set_write_wrapped d true)) (blen src) = Some d' ∧ ring_holds a d bs' q ∧ ring_holds a d' bs' (q ++ src) ∧ rd_size d' = rd_size d.
Proof.
  intros H Hrw Hk Hb. pose proof (blen_nonneg src) as Hk0.
  assert (H' : ring_holds a d bs' q).
  { eapply view_frame; [done..|]. rewrite bool_decide_true by done. lia. }
  clear H. destruct H' as [Hd Hs Hl Hw Hr Hi Ho [Hf1 Hf2] Hv]. rewrite view_straight in Hv by done.
  unfold ring_write_release, set_write_wrapped. cbn -[blen Z.add]. rewrite Hd. cbn -[blen Z.add].
  rewrite u64_id, Z.add_0_l by word_lia. destruct (Z.ltb_spec (rd_size d) (blen src)); [lia|].
  destruct (Z.ltb_spec (rd_w d) (blen src)); [lia|]. destruct (Z.eqb_spec (blen src) (rd_size d)); [lia|].
  eexists. split; [done|]. split; [split; try done; by rewrite view_straight|]. split; [|done].
  split; cbn -[blen]; try done; try lia. apply view_wrapped; cbn -[blen]; [lia|]. exists q, src. split; [done|]. split; [|done].
  apply (slice_blit_same _ _ _ _ Hb).
Qed.

Lemma ring_writes_ok a d bs q n : ring_holds a d bs q → ring_writes a d bs q n.
Proof.
  intros H. pose proof (calc_free_ok _ _ _ _ H) as [E1 E2]. pose proof H as [Hd Hs Hl Hw Hr _ _ _ _].
  unfold ring_writes, ring_place, ring_write_acquire. cbn [mbind option_bind]. rewrite Hd. cbn [mbind option_bind]. rewrite E1, E2.
  destruct (Z.leb_spec n (gap_behind d)) as [Hn|Hn].
  { rewrite bool_decide_true by done. exists d. do 2 (split; [done|]). intros p src [= <-] Hk. replace (a + rd_w d - a) with (rd_w d) by lia.
    assert (is_Some (blit bs (rd_w d) src)) as [bs' Hb].
    { rewrite blit_in_bounds; [done|lia|]. unfold gap_behind in Hn. repeat case_bool_decide; lia. }
    destruct (release_behind a d bs bs' q src) as (d' & ? & ?); [done|lia|done|]. by exists bs', d'. }
  rewrite bool_decide_false by lia. destruct (Z.leb_spec n (gap_front d)) as [Hf|Hf].
  - rewrite bool_decide_true by done. eexists. split; [done|]. split; [done|]. intros p src [= <-] Hk. rewrite Z.sub_diag.
    assert (rd_r d <= rd_w d ∧ blen src < rd_r d) as [Hrw Hkr].
    { unfold gap_front, gap_behind in *. pose proof (blen_nonneg src). repeat case_bool_decide; lia. }
    rewrite blit_in_bounds by lia. eexists.
    destruct (release_front a d bs (take (Z.to_nat 0) bs ++ src ++ drop (Z.to_nat 0 + length src) bs) q src) as (d' & ? & ?); [done..| |].
    { by rewrite blit_in_bounds by lia. }
    by exists d'.
  - rewrite bool_decide_false by lia. by exists d.
Qed.

Lemma slice_take b off n s k : slice b off n = Some s → 0 <= k <= n → slice b off k = Some (take (Z.to_nat k) s).
Proof.
  intros (?&?&?&->)%slice_Some Hk. rewrite slice_in_bounds by lia. rewrite take_take. do 2 f_equal. lia.
Qed.
Lemma slice_rest b off n s k : slice b off n = Some s → 0 <= k <= n → slice b (off + k) (n - k) = Some (drop (Z.to_nat k) s).
Proof.
  intros (?&?&?&->)%slice_Some Hk. rewrite slice_in_bounds by lia.
  rewrite skipn_firstn_comm, drop_drop. do 2 f_equal; [lia|]. f_equal. lia.
Qed.
Lemma nil_blen (q : list Z) : q = [] ↔ blen q = 0.
Proof. destruct q; unfold blen; cbn; split; intros; done || lia. Qed.

(** A straight region is read from its start. *)
Lemma reads_straight a d bs q k :
  ring_holds a d bs q → 0 < k → rd_r d < rd_w d ∧ k = rd_w d - rd_r d ∨ rd_w d < rd_r d < rd_i d ∧ k = rd_i d - rd_r d →
  slice bs (rd_r d) k = Some (take (Z.to_nat k) q) ∧ k <= blen q ∧
  ∀ j, 0 <= j <= k → ∃ d', ring_read_release (Some d) j = Some d' ∧ ring_holds a d' bs (drop (Z.to_nat j) q) ∧ rd_size d' = rd_size d.
Proof.
  intros [Hd Hs Hl Hw Hr Hi Ho [Hf1 Hf2] Hv] Hk Hc. unfold ring_read_release. cbn [mbind option_bind]. rewrite Hd, Hf2. cbn [mbind option_bind].
  destruct Hc as [[Hrw ->]|[Hrw ->]].
  - rewrite view_straight in Hv by lia. pose proof (slice_blen _ _ _ _ Hv) as Hq. split; [|split; [lia|]].
    { rewrite Hv. f_equal. symmetry. apply take_ge. unfold blen in Hq. lia. }
    intros j Hj. rewrite u64_id by word_lia. eexists. split; [done|]. split; [|done]. destruct (Z.eqb_spec (rd_r d + j) (rd_size d)); [lia|].
    split; cbn; try done; try lia. rewrite view_straight by (cbn; lia). cbn.
    rewrite <-(slice_rest _ _ _ _ _ Hv) by lia. f_equal. lia.
  - apply view_wrapped in Hv as (s1 & s2 & H1 & H2 & ->); [|lia]. pose proof (slice_blen _ _ _ _ H1) as Hq. split; [|split].
    { rewrite take_app_le, take_ge by (unfold blen in Hq; lia). done. }
    { rewrite blen_app. pose proof (blen_nonneg s2). lia. }
    intros j Hj. rewrite u64_id by word_lia. eexists. split; [done|]. split; [|done]. destruct (Z.eqb_spec (rd_r d + j) (rd_size d)) as [He|He].
    + split; cbn; try done; try lia. rewrite view_straight by (cbn; lia). cbn. rewrite drop_app_ge by (unfold blen in Hq; lia).
      rewrite Z.sub_0_r, H2. f_equal. rewrite <-(drop_0 s2) at 1. f_equal. unfold blen in Hq. lia.
    + split; cbn; try done; try lia. apply view_wrapped; cbn; [lia|]. exists (drop (Z.to_nat j) s1), s2.
      rewrite drop_app_le by (unfold blen in Hq; lia). rewrite <-(slice_rest _ _ _ _ _ H1) by lia. split; [f_equal; lia|done].
Qed.

(** At the end of the straight region reading goes on at the front. *)
Lemma reads_wrapped a d bs q :
  ring_holds a d bs q → rd_w d < rd_r d → rd_r d = rd_i d →
  slice bs 0 (rd_w d) = Some (take (Z.to_nat (rd_w d)) q) ∧ rd_w d = blen q ∧
  ∀ j, 0 <= j <= rd_w d → ∃ d', ring_read_release (Some (set_read_wrapped d true)) j = Some d' ∧ ring_holds a d' bs (drop (Z.to_nat j) q) ∧ rd_size d' = rd_size d.
Proof.
  intros [Hd Hs Hl Hw Hr Hi Ho [Hf1 Hf2] Hv] Hrw He. unfold ring_read_release. cbn -[Z.add]. rewrite Hd. cbn -[Z.add].
  apply view_wrapped in Hv as (s1 & s2 & H1 & H2 & ->); [|lia]. rewrite <-He, Z.sub_diag, slice_nil in H1 by lia. injection H1 as <-.
  cbn [app]. pose proof (slice_blen _ _ _ _ H2) as Hq. split; [|split; [lia|]].
  { rewrite H2. f_equal. symmetry. apply take_ge. unfold blen in Hq. lia. }
  intros j Hj. rewrite u64_id, Z.add_0_l by word_lia. destruct (Z.eqb_spec j (rd_size d)); [lia|].
  eexists. split; [done|]. split; [|done]. split; cbn; try done; try lia. rewrite view_straight by (cbn; lia). cbn.
  rewrite <-(slice_rest _ _ _ _ _ H2) by lia. f_equal.
Qed.

Lemma ring_reads_ok a d bs q : ring_holds a d bs q → ring_reads a d bs q.
Proof.
  intros H. pose proof H as [Hd Hs Hl Hw Hr Hi Ho _ Hv].
  unfold ring_reads, ring_read_acquire. cbn [mbind option_bind]. rewrite Hd. cbn [mbind option_bind].
  destruct (Z.eqb_spec (rd_r d) (rd_w d)) as [He|He].
  { exists None, 0, d. rewrite view_straight, He, Z.sub_diag, slice_nil in Hv by lia. injection Hv as <-. done. }
  destruct (Z.ltb_spec (rd_r d) (rd_w d)) as [Hlt|Hge]; [|destruct (Z.eqb_spec (rd_r d) (rd_i d)) as [Hi'|Hi']].
  - rewrite u64_id by word_lia. destruct (reads_straight a d bs q (rd_w d - rd_r d)) as (A1 & A2 & A3); [done|lia|left; lia|].
    eexists _, _, d. split; [done|]. rewrite nil_blen. split; [lia|]. split; [lia|]. split; [intros; split; [lia|done]|]. split; [done|].
    intros p [= <-]. by replace (a + rd_r d - a) with (rd_r d) by lia.
  - destruct (reads_wrapped a d bs q) as (A1 & A2 & A3); [done|lia|done|].
    eexists _, _, _. split; [done|]. rewrite nil_blen. split; [lia|]. split; [lia|]. split; [intros; split; [lia|done]|]. split; [done|].
    intros p [= <-]. rewrite Z.sub_diag. by split; [|split; [lia|]].
  - rewrite u64_id by word_lia. destruct (reads_straight a d bs q (rd_i d - rd_r d)) as (A1 & A2 & A3); [done|lia|right; lia|].
    eexists _, _, d. split; [done|]. rewrite nil_blen. split; [lia|]. split; [lia|]. split; [intros; split; [lia|done]|]. split; [done|].
    intros p [= <-]. by replace (a + rd_r d - a) with (rd_r d) by lia.
Qed.

Lemma ring_init_ok inst a size bs :
  is_null inst = false → 0 < size <= SIZE_MAX → blen bs = size →
  ∃ d, ring_init inst (Some a) size = Some d ∧ ring_holds a d bs [] ∧ rd_size d = size.
Proof.
  intros Hi Hs Hl. unfold ring_init. rewrite Hi. cbn. destruct (Z.eqb_spec size 0); [lia|].
  eexists. split; [done|]. split; [|done]. split; cbn; try done; try lia. unfold ring_view. cbn. by rewrite slice_nil by lia.
Qed.

(** C27. A ring that holds a queue of bytes, from initialisation on, keeps doing so: acquiring
    for writing answers the free place behind the write position, else the one
    at the front, and null exactly when both are too small; whatever up to the
    acquired size is put there leaves the queue as it is until the release,
    which appends it. Acquiring for reading shows a non-empty prefix of a
    non-empty queue; the release drops what was read. No access leaves the
    storage and no assertion fails. *)
Theorem ring_buffer_refines a size storage :
  0 < size <= SIZE_MAX → blen storage = size →
  (∃ d, ring_init (Some (MkRing 0 None 0 0 0 false false)) (Some a) size = Some d ∧ ring_holds a d storage []) ∧
  ∀ d bs q, ring_holds a d bs q → (∀ n, ring_writes a d bs q n) ∧ ring_reads a d bs q.
Proof.
  intros Hs Hl. split.
  - destruct (ring_init_ok (Some (MkRing 0 None 0 0 0 false false)) a size storage) as (d & ? & ? & _); [done..|]. by exists d.
  - intros d bs q H. split; [intros n; by apply ring_writes_ok|by apply ring_reads_ok].
Qed.

(** A ring of eight bytes whose unread bytes go around its end. *)
Definition wrapped_ring : ring_data_type := MkRing 8 (Some 4096) 5 2 7 false false.
Definition wrapped_bytes : list Z := [30; 40; 0; 0; 0; 10; 20; 0].

Lemma ring_buffer_refines_witness :
  ring_holds 4096 wrapped_ring wrapped_bytes [10; 20; 30; 40] ∧
  (∃ d, ring_write_acquire (Some wrapped_ring) 2 = Some (Some 4098, d)) ∧ ring_place 4096 wrapped_ring 3 = None ∧
  (∀ n, ring_writes 4096 wrapped_ring wrapped_bytes [10; 20; 30; 40] n) ∧ ring_reads 4096 wrapped_ring wrapped_bytes [10; 20; 30; 40].
Proof.
  assert (ring_holds 4096 wrapped_ring wrapped_bytes [10; 20; 30; 40]) as H by (by split; cbn; try done; try lia).
  split; [done|]. split; [by eexists|]. split; [done|].
  destruct (ring_buffer_refines 4096 8 wrapped_bytes ltac:(done) ltac:(done)) as [_ HR]. by apply HR.
Defined.
