(* ===== verification/BucketQueue.v ===== *)
(** * The bucket priority queue ([utils/src/bucket_priority_queue.c])

    Four first-in-first-out buckets of machine words, one per priority, each in
    a ring buffer of bytes that grows by doubling, and a mask of the buckets
    that are not empty. *)

From S2P Require Import Prelude World RingBuffer.
Local Open Scope Z_scope.

(** ** Data *)

Definition BUCKET_PRIORITY_LOW : Z := 0.
Definition BUCKET_PRIORITY_COUNT : Z := 4.
Definition BUCKET_ENTRY_SIZE : Z := 8.
Definition BUCKET_MIN_CAPACITY : Z := 16.

(** A block of memory: its address and its bytes; a byte that was never
    written is no byte. *)
Definition block : Type := Z * list Z.
Definition UNSET : Z := -1.
Definition fresh (n : Z) : list Z := replicate (Z.to_nat n) UNSET.

Record bucket_priority_bucket_t := MkBucket {
  bk_ring : ring_data_type;
  bk_storage : option block;
  bk_storage_bytes : Z;
  bk_capacity_entries : Z;
  bk_count : Z
}.

Record bucket_priority_queue_t := MkBQueue {
  bq_buckets : list bucket_priority_bucket_t;
  bq_total_size : Z;
  bq_non_empty_mask : Z
}.

Definition zero_ring : ring_data_type := MkRing 0 None 0 0 0 false false.
Definition zero_bucket : bucket_priority_bucket_t := MkBucket zero_ring None 0 0 0.

(** [memcpy] from and to a block through an address. *)
Definition mem_read (m : option block) (p n : Z) : option (list Z) := '(a, bs) ← m; slice bs (p - a) n.
Definition mem_write (m : option block) (p : Z) (src : list Z) : option (option block) :=
  '(a, bs) ← m; bs ← blit bs (p - a) src; Some (Some (a, bs)).

(** The bytes of a [size_t] in memory, the lowest first, and the words that
    bytes make up; bytes that were never written make up none. *)
Fixpoint word_bytes (n : nat) (v : Z) : list Z :=
  match n with O => [] | S n => v mod 256 :: word_bytes n (v / 256) end.
Definition bytes_word (bs : list Z) : option Z :=
  if bool_decide (bytes_ok bs) then Some (foldr (λ b v, b + 256 * v) 0 bs) else None.
Definition value_bytes (v : Z) : list Z := word_bytes 8 v.
Fixpoint bytes_values (n : nat) (bs : list Z) : option (list Z) :=
  match n with
  | O => Some []
  | S n => v ← bytes_word (take 8 bs); vs ← bytes_values n (drop 8 bs); Some (v :: vs)
  end.

(** ** Operations *)

Definition bucket_priority_valid (priority : Z) : bool :=
  (BUCKET_PRIORITY_LOW <=? priority) && (priority <? BUCKET_PRIORITY_COUNT).

Definition bucket_priority_bit (priority : Z) : Z := u8 (Z.shiftl 1 (u8 priority)).

(** [31 - __builtin_clz(mask)] is the place of the highest bit. *)
Definition bucket_highest_non_empty_priority (mask : Z) : Z :=
  if mask =? 0 then -1 else 31 - (31 - Z.log2 mask).

(** The portable search for it. *)
Definition bucket_highest_portable (mask : Z) : Z :=
  if mask =? 0 then -1 else
  let '(bit, m) := if negb (Z.land mask 240 =? 0) then (4, Z.shiftr mask 4) else (0, mask) in
  let '(bit, m) := if negb (Z.land m 12 =? 0) then (bit + 2, Z.shiftr m 2) else (bit, m) in
  if negb (Z.land m 2 =? 0) then bit + 1 else bit.

Definition bucket_capacity_overflow (entries : Z) : bool :=
  if entries =? 0 then false else (SIZE_MAX - 1) / BUCKET_ENTRY_SIZE <? entries.

(** Every round copies at least a byte. *)
Fixpoint copy_loop (fuel : nat) (storage : option block) (cursor : ring_data_type) (used_bytes copied : Z) (dst : list Z) : option (bool * list Z) :=
  match fuel with
  | O => None
  | S fuel =>
      if copied <? used_bytes then
        '(read_ptr, available, cursor) ← ring_read_acquire (Some cursor) (Some 0);
        match read_ptr with
        | None => Some (false, dst)
        | Some p =>
            if available =? 0 then Some (false, dst) else
            let take := if u64 (used_bytes - copied) <? available then u64 (used_bytes - copied) else available in
            bs ← mem_read storage p take;
            dst ← blit dst copied bs;
            cursor ← ring_read_release (Some cursor) take;
            copy_loop fuel storage cursor used_bytes (u64 (copied + take)) dst
        end
      else Some (copied =? used_bytes, dst)
  end.

Definition bucket_copy_fifo_bytes (bucket : bucket_priority_bucket_t) (dst : list Z) (dst_bytes : Z) : option (bool * list Z) :=
  let used_bytes := u64 (bk_count bucket * BUCKET_ENTRY_SIZE) in
  if dst_bytes <? used_bytes then Some (false, dst) else
  if used_bytes =? 0 then Some (true, dst) else
  copy_loop (S (Z.to_nat used_bytes)) (bk_storage bucket) (bk_ring bucket) used_bytes 0 dst.

(** No capacity when doubling would wrap around. *)
Fixpoint double_loop (fuel : nat) (new_capacity min_entries : Z) : option (option Z) :=
  match fuel with
  | O => None
  | S fuel =>
      if new_capacity <? min_entries then
        if SIZE_MAX / 2 <? new_capacity then Some None else double_loop fuel (u64 (new_capacity * 2)) min_entries
      else Some (Some new_capacity)
  end.

Definition free_block (m : option block) : M unit := if is_null m then mret tt else mfree.

Definition bucket_reserve_entries (bucket : bucket_priority_bucket_t) (min_entries : Z) : M (bool * bucket_priority_bucket_t) :=
  if min_entries <=? bk_capacity_entries bucket then mret (true, bucket) else
  let new_capacity := if bk_capacity_entries bucket =? 0 then BUCKET_MIN_CAPACITY else bk_capacity_entries bucket in
  grown ← lift (double_loop 65 new_capacity min_entries);
  match grown with
  | None => mret (false, bucket)
  | Some new_capacity =>
      if bucket_capacity_overflow new_capacity then mret (false, bucket) else
      let new_bytes := u64 (u64 (new_capacity * BUCKET_ENTRY_SIZE) + 1) in
      new_storage ← malloc;
      match new_storage with
      | None => mret (false, bucket)
      | Some a =>
          new_ring ← lift (ring_init (Some zero_ring) (Some a) new_bytes);
          let used_bytes := u64 (bk_count bucket * BUCKET_ENTRY_SIZE) in
          '(copied, bytes) ← lift (bucket_copy_fifo_bytes bucket (fresh new_bytes) new_bytes);
          if negb copied then _ ← mfree; mret (false, bucket) else
          new_ring ← lift (if 0 <? used_bytes then ring_write_release (Some new_ring) used_bytes else Some new_ring);
          _ ← free_block (bk_storage bucket);
          mret (true, MkBucket new_ring (Some (a, bytes)) new_bytes new_capacity (bk_count bucket))
      end
  end.

(** The buckets in order, up to the first that cannot grow. *)
Fixpoint reserve_each (buckets : list bucket_priority_bucket_t) (capacity_per_bucket : Z) : M (bool * list bucket_priority_bucket_t) :=
  match buckets with
  | [] => mret (true, [])
  | bucket :: rest =>
      '(ok, bucket) ← bucket_reserve_entries bucket capacity_per_bucket;
      if negb ok then mret (false, bucket :: rest) else
      '(ok, rest) ← reserve_each rest capacity_per_bucket;
      mret (ok, bucket :: rest)
  end.

Fixpoint destroy_each (buckets : list bucket_priority_bucket_t) : M (list bucket_priority_bucket_t) :=
  match buckets with
  | [] => mret []
  | bucket :: rest => _ ← free_block (bk_storage bucket); rest ← destroy_each rest; mret (zero_bucket :: rest)
  end.

(** A queue is a pointer and the structure behind it. *)
Definition bucket_priority_queue_destroy (queue : option bucket_priority_queue_t) : M (option bucket_priority_queue_t) :=
  match queue with
  | None => mret None
  | Some q => buckets ← destroy_each (bq_buckets q); mret (Some (MkBQueue buckets 0 0))
  end.

Definition bucket_priority_queue_init (queue : option bucket_priority_queue_t) (capacity_per_bucket : Z) : M (bool * option bucket_priority_queue_t) :=
  match queue with
  | None => mret (false, None)
  | Some _ =>
      let buckets := replicate (Z.to_nat BUCKET_PRIORITY_COUNT) zero_bucket in
      if capacity_per_bucket =? 0 then mret (true, Some (MkBQueue buckets 0 0)) else
      '(ok, buckets) ← reserve_each buckets capacity_per_bucket;
      if negb ok then queue ← bucket_priority_queue_destroy (Some (MkBQueue buckets 0 0)); mret (false, queue)
      else mret (true, Some (MkBQueue buckets 0 0))
  end.

Definition clear_bucket (bucket : bucket_priority_bucket_t) : option bucket_priority_bucket_t :=
  ring ← match bk_storage bucket with
         | Some (a, _) =>
             if 0 <? bk_storage_bytes bucket then ring_init (Some (bk_ring bucket)) (Some a) (bk_storage_bytes bucket) else Some zero_ring
         | None => Some zero_ring
         end;
  Some (MkBucket ring (bk_storage bucket) (bk_storage_bytes bucket) (bk_capacity_entries bucket) 0).

Definition bucket_priority_queue_clear (queue : option bucket_priority_queue_t) : option (option bucket_priority_queue_t) :=
  match queue with
  | None => Some None
  | Some q => buckets ← mapM clear_bucket (bq_buckets q); Some (Some (MkBQueue buckets 0 0))
  end.

Definition bucket_priority_queue_reserve (queue : option bucket_priority_queue_t) (capacity_per_bucket : Z) : M (bool * option bucket_priority_queue_t) :=
  match queue with
  | None => mret (false, None)
  | Some q =>
      '(ok, buckets) ← reserve_each (bq_buckets q) capacity_per_bucket;
      mret (ok, Some (MkBQueue buckets (bq_total_size q) (bq_non_empty_mask q)))
  end.

(** Room for one more entry: its address, and the bucket. *)
Definition push_room (bucket : bucket_priority_bucket_t) : M (option Z * bucket_priority_bucket_t) :=
  let with_ring b ring := MkBucket ring (bk_storage b) (bk_storage_bytes b) (bk_capacity_entries b) (bk_count b) in
  '(ok, bucket) ← bucket_reserve_entries bucket (u64 (bk_count bucket + 1));
  if negb ok then mret (None, bucket) else
  '(write_ptr, ring) ← lift (ring_write_acquire (Some (bk_ring bucket)) BUCKET_ENTRY_SIZE);
  let bucket := with_ring bucket ring in
  match write_ptr with
  | Some p => mret (Some p, bucket)
  | None =>
      '(ok, bucket) ← bucket_reserve_entries bucket (u64 (bk_capacity_entries bucket + 1));
      if negb ok then mret (None, bucket) else
      '(write_ptr, ring) ← lift (ring_write_acquire (Some (bk_ring bucket)) BUCKET_ENTRY_SIZE);
      mret (write_ptr, with_ring bucket ring)
  end.

Definition bucket_priority_queue_push (queue : option bucket_priority_queue_t) (priority value : Z) : M (bool * option bucket_priority_queue_t) :=
  match queue with
  | None => mret (false, None)
  | Some q =>
      if negb (bucket_priority_valid priority) then mret (false, queue) else
      bucket ← lift (aget (bq_buckets q) priority);
      let was_empty := bk_count bucket =? 0 in
      '(write_ptr, bucket) ← push_room bucket;
      match write_ptr with
      | None =>
          buckets ← lift (aset (bq_buckets q) priority bucket);
          mret (false, Some (MkBQueue buckets (bq_total_size q) (bq_non_empty_mask q)))
      | Some p =>
          storage ← lift (mem_write (bk_storage bucket) p (value_bytes value));
          ring ← lift (ring_write_release (Some (bk_ring bucket)) BUCKET_ENTRY_SIZE);
          let bucket := MkBucket ring storage (bk_storage_bytes bucket) (bk_capacity_entries bucket) (u64 (bk_count bucket + 1)) in
          buckets ← lift (aset (bq_buckets q) priority bucket);
          mret (true, Some (MkBQueue buckets (u64 (bq_total_size q + 1))
            (if was_empty then Z.lor (bq_non_empty_mask q) (bucket_priority_bit priority) else bq_non_empty_mask q)))
      end
  end.

(** [out_value] is a pointer and the word behind it. *)
Definition bucket_pop_one (bucket : option bucket_priority_bucket_t) (out_value : option Z) : option (bool * option bucket_priority_bucket_t * option Z) :=
  match bucket, out_value with
  | Some b, Some _ =>
      if bk_count b =? 0 then Some (false, bucket, out_value) else
      '(read_ptr, available, ring) ← ring_read_acquire (Some (bk_ring b)) (Some 0);
      let b := MkBucket ring (bk_storage b) (bk_storage_bytes b) (bk_capacity_entries b) (bk_count b) in
      match read_ptr with
      | None => Some (false, Some b, out_value)
      | Some p =>
          if available <? BUCKET_ENTRY_SIZE then Some (false, Some b, out_value) else
          bs ← mem_read (bk_storage b) p BUCKET_ENTRY_SIZE;
          v ← bytes_word bs;
          ring ← ring_read_release (Some (bk_ring b)) BUCKET_ENTRY_SIZE;
          Some (true, Some (MkBucket ring (bk_storage b) (bk_storage_bytes b) (bk_capacity_entries b) (u64 (bk_count b - 1))), Some v)
      end
  | _, _ => Some (false, bucket, out_value)
  end.

Definition clear_bit (mask p : Z) : Z := Z.land mask (u8 (Z.lnot (bucket_priority_bit p))).

(** Every round that goes on takes a bit out of the mask. *)
Fixpoint pop_loop (fuel : nat) (q : bucket_priority_queue_t) (out_value : option Z) : option (bool * bucket_priority_queue_t * option Z) :=
  match fuel with
  | O => None
  | S fuel =>
      if bq_non_empty_mask q =? 0 then Some (false, q, out_value) else
      let p := bucket_highest_non_empty_priority (bq_non_empty_mask q) in
      if p <? 0 then Some (false, q, out_value) else
      bucket ← aget (bq_buckets q) p;
      if bk_count bucket =? 0 then pop_loop fuel (MkBQueue (bq_buckets q) (bq_total_size q) (clear_bit (bq_non_empty_mask q) p)) out_value else
      '(ok, bucket, out_value) ← bucket_pop_one (Some bucket) out_value;
      bucket ← bucket;
      buckets ← aset (bq_buckets q) p bucket;
      if negb ok then Some (false, MkBQueue buckets (bq_total_size q) (bq_non_empty_mask q), out_value) else
      Some (true, MkBQueue buckets (u64 (bq_total_size q - 1))
        (if bk_count bucket =? 0 then clear_bit (bq_non_empty_mask q) p else bq_non_empty_mask q), out_value)
  end.

Definition bucket_priority_queue_pop (queue : option bucket_priority_queue_t) (out_value : option Z) : option (bool * option bucket_priority_queue_t * option Z) :=
  match queue, out_value with
  | Some q, Some _ => '(ok, q, out_value) ← pop_loop 9 q out_value; Some (ok, Some q, out_value)
  | _, _ => Some (false, queue, out_value)
  end.

Definition bucket_peek_one (bucket : option bucket_priority_bucket_t) (out_value : option Z) : option (bool * option Z) :=
  match bucket, out_value with
  | Some b, Some _ =>
      if bk_count b =? 0 then Some (false, out_value) else
      '(read_ptr, available, cursor) ← ring_read_acquire (Some (bk_ring b)) (Some 0);
      match read_ptr with
      | None => Some (false, out_value)
      | Some p =>
          if available <? BUCKET_ENTRY_SIZE then Some (false, out_value) else
          bs ← mem_read (bk_storage b) p BUCKET_ENTRY_SIZE;
          v ← bytes_word bs;
          Some (true, Some v)
      end
  | _, _ => Some (false, out_value)
  end.

Fixpoint peek_loop (fuel : nat) (buckets : list bucket_priority_bucket_t) (mask : Z) (out_value : option Z) : option (bool * option Z) :=
  match fuel with
  | O => None
  | S fuel =>
      if mask =? 0 then Some (false, out_value) else
      let p := bucket_highest_non_empty_priority mask in
      if p <? 0 then Some (false, out_value) else
      bucket ← aget buckets p;
      if bk_count bucket =? 0 then peek_loop fuel buckets (clear_bit mask p) out_value else
      bucket_peek_one (Some bucket) out_value
  end.

Definition bucket_priority_queue_peek (queue : option bucket_priority_queue_t) (out_value : option Z) : option (bool * option Z) :=
  match queue, out_value with
  | Some q, Some _ => peek_loop 9 (bq_buckets q) (bq_non_empty_mask q) out_value
  | _, _ => Some (false, out_value)
  end.

(** What the two loops of a batch change: the bucket at hand, the size, the
    number of values so far and the array they go to. *)
Record batch := MkBatch { bt_bucket : bucket_priority_bucket_t; bt_total : Z; bt_popped : Z; bt_out : list Z }.

(** True when the whole function returns. Every round takes an entry. *)
Fixpoint batch_loop (fuel : nat) (max_items : Z) (s : batch) : option (bool * batch) :=
  match fuel with
  | O => None
  | S fuel =>
      let b := bt_bucket s in
      let popped := bt_popped s in
      if (0 <? bk_count b) && (popped <? max_items) then
        '(read_ptr, available, ring) ← ring_read_acquire (Some (bk_ring b)) (Some 0);
        let with_ring b ring count := MkBucket ring (bk_storage b) (bk_storage_bytes b) (bk_capacity_entries b) count in
        let stop := Some (true, MkBatch (with_ring b ring (bk_count b)) (bt_total s) popped (bt_out s)) in
        match read_ptr with
        | None => stop
        | Some p =>
            if available <? BUCKET_ENTRY_SIZE then stop else
            let remaining := u64 (max_items - popped) in
            let take := available / BUCKET_ENTRY_SIZE in
            let take := if remaining <? take then remaining else take in
            let take := if bk_count b <? take then bk_count b else take in
            if take =? 0 then stop else
            bs ← mem_read (bk_storage b) p (u64 (take * BUCKET_ENTRY_SIZE));
            vs ← bytes_values (Z.to_nat take) bs;
            out ← blit (bt_out s) popped vs;
            ring ← ring_read_release (Some ring) (u64 (take * BUCKET_ENTRY_SIZE));
            batch_loop fuel max_items
              (MkBatch (with_ring b ring (u64 (bk_count b - take))) (u64 (bt_total s - take)) (u64 (popped + take)) out)
        end
      else Some (false, s)
  end.

Fixpoint pop_batch_loop (fuel : nat) (max_items : Z) (q : bucket_priority_queue_t) (popped : Z) (out : list Z) : option (Z * bucket_priority_queue_t * list Z) :=
  match fuel with
  | O => None
  | S fuel =>
      if negb (bq_non_empty_mask q =? 0) && (popped <? max_items) then
        let p := bucket_highest_non_empty_priority (bq_non_empty_mask q) in
        if p <? 0 then Some (popped, q, out) else
        bucket ← aget (bq_buckets q) p;
        if bk_count bucket =? 0
        then pop_batch_loop fuel max_items (MkBQueue (bq_buckets q) (bq_total_size q) (clear_bit (bq_non_empty_mask q) p)) popped out else
        '(stopped, s) ← batch_loop (S (Z.to_nat (bk_count bucket))) max_items (MkBatch bucket (bq_total_size q) popped out);
        buckets ← aset (bq_buckets q) p (bt_bucket s);
        if (stopped : bool) then Some (bt_popped s, MkBQueue buckets (bt_total s) (bq_non_empty_mask q), bt_out s) else
        pop_batch_loop fuel max_items
          (MkBQueue buckets (bt_total s) (if bk_count (bt_bucket s) =? 0 then clear_bit (bq_non_empty_mask q) p else bq_non_empty_mask q))
          (bt_popped s) (bt_out s)
      else Some (popped, q, out)
  end.

(** [out_values] is an array. *)
Definition bucket_priority_queue_pop_batch (queue : option bucket_priority_queue_t) (max_items : Z) (out_values : option (list Z)) : option (Z * option bucket_priority_queue_t * option (list Z)) :=
  match queue, out_values with
  | Some q, Some out =>
      if max_items =? 0 then Some (0, queue, out_values) else
      '(popped, q, out) ← pop_batch_loop 9 max_items q 0 out; Some (popped, Some q, Some out)
  | _, _ => Some (0, queue, out_values)
  end.

Definition bucket_priority_queue_empty (queue : option bucket_priority_queue_t) : bool :=
  match queue with None => true | Some q => bq_total_size q =? 0 end.
Definition bucket_priority_queue_size (queue : option bucket_priority_queue_t) : Z :=
  match queue with None => 0 | Some q => bq_total_size q end.
Definition bucket_priority_queue_size_at (queue : option bucket_priority_queue_t) (priority : Z) : option Z :=
  match queue with
  | None => Some 0
  | Some q => if negb (bucket_priority_valid priority) then Some 0 else b ← aget (bq_buckets q) priority; Some (bk_count b)
  end.
Definition bucket_priority_queue_capacity_at (queue : option bucket_priority_queue_t) (priority : Z) : option Z :=
  match queue with
  | None => Some 0
  | Some q => if negb (bucket_priority_valid priority) then Some 0 else b ← aget (bq_buckets q) priority; Some (bk_capacity_entries b)
  end.
