(* ===== verification/BucketQueueSpec.v ===== *)
(** * The bucket priority queue: refinement

    A bucket stands for the list of its words, in the order they were pushed; the queue
    for four such lists. Popping takes from the highest list that is not
    empty. *)

From S2P Require Import Prelude World RingBuffer BucketQueue.
Local Open Scope Z_scope.

(** ** Words in memory *)

Definition flat (q : list Z) : list Z := q ≫= value_bytes.

Lemma word_bytes_length n v : length (word_bytes n v) = n.
Proof. revert v. induction n; intros v; cbn; [done|by f_equal]. Qed.
Lemma word_bytes_ok n v : bytes_ok (word_bytes n v).
Proof. revert v. induction n as [|n IH]; intros v; cbn; [constructor|]. constructor; [apply u8_range|apply IH]. Qed.
Lemma word_bytes_value n : ∀ v, 0 <= v < 256 ^ Z.of_nat n → foldr (λ b v, b + 256 * v) 0 (word_bytes n v) = v.
Proof.
  induction n as [|n IH]; intros v Hv; cbn [word_bytes foldr]; [cbn in Hv; lia|].
  rewrite IH; [pose proof (Z.div_mod v 256); lia|]. rewrite Nat2Z.inj_succ, Z.pow_succ_r in Hv by lia.
  split; [apply Z.div_pos; lia|]. apply Z.div_lt_upper_bound; lia.
Qed.
Lemma bytes_word_value v : is_u64 v → bytes_word (value_bytes v) = Some v.
Proof.
  intros Hv. unfold bytes_word. rewrite bool_decide_true by apply word_bytes_ok. f_equal. apply word_bytes_value.
  change (256 ^ Z.of_nat 8) with 18446744073709551616. word_lia.
Qed.

Lemma flat_cons v q : flat (v :: q) = value_bytes v ++ flat q.
Proof. done. Qed.
Lemma flat_app q1 q2 : flat (q1 ++ q2) = flat q1 ++ flat q2.
Proof. apply bind_app. Qed.
Lemma flat_length q : length (flat q) = (8 * length q)%nat.
Proof.
  induction q as [|v q IH]; [done|]. rewrite flat_cons, length_app, IH. unfold value_bytes. rewrite word_bytes_length. cbn. lia.
Qed.
Lemma flat_blen q : blen (flat q) = 8 * alen q.
Proof. unfold blen, alen. rewrite flat_length. lia. Qed.
Lemma flat_take n q : take (8 * n) (flat q) = flat (take n q).
Proof.
  revert q. induction n as [|n IH]; intros q; [done|]. destruct q as [|v q]; [done|].
  cbn [take]. rewrite !flat_cons. rewrite take_app_ge by (unfold value_bytes; rewrite word_bytes_length; lia).
  unfold value_bytes at 2. rewrite word_bytes_length. replace (8 * S n - 8)%nat with (8 * n)%nat by lia. by rewrite IH.
Qed.
Lemma flat_drop n q : drop (8 * n) (flat q) = flat (drop n q).
Proof.
  revert q. induction n as [|n IH]; intros q; [done|]. destruct q as [|v q]; [done|].
  cbn [drop]. rewrite flat_cons, drop_app_ge by (unfold value_bytes; rewrite word_bytes_length; lia).
  unfold value_bytes at 1. rewrite word_bytes_length. replace (8 * S n - 8)%nat with (8 * n)%nat by lia. apply IH.
Qed.
Lemma bytes_values_flat q : Forall is_u64 q → bytes_values (length q) (flat q) = Some q.
Proof.
  induction 1 as [|v q Hv _ IH]; [done|]. cbn [length bytes_values]. rewrite flat_cons.
  rewrite take_app_length', drop_app_length' by (unfold value_bytes; by rewrite word_bytes_length).
  rewrite bytes_word_value by done. cbn. by rewrite IH.
Qed.

(** ** Rings of words *)

(** The indices of a ring stand at whole words, and its size is one byte more
    than a number of words: an index never meets the end. *)
Record aligned (d : ring_data_type) : Prop := {
  al_size : rd_size d mod 8 = 1;
  al_r : rd_r d mod 8 = 0;
  al_w : rd_w d mod 8 = 0;
  al_i : rd_i d mod 8 = 0
}.

Lemma aligned_write_acquire d n p d1 : ring_write_acquire (Some d) n = Some (p, d1) → aligned d → aligned d1.
Proof.
  unfold ring_write_acquire. cbn [mbind option_bind]. destruct (rd_data d); cbn [mbind option_bind]; [|done].
  intros E [? ? ? ?]. repeat case_match; simplify_eq; by split.
Qed.
Lemma aligned_read_acquire d av p k d1 :
  ring_read_acquire (Some d) av = Some (p, k, d1) → aligned d → 0 <= rd_w d <= SIZE_MAX → 0 <= rd_r d <= SIZE_MAX → 0 <= rd_i d <= SIZE_MAX →
  aligned d1 ∧ k mod 8 = 0.
Proof.
  unfold ring_read_acquire. cbn [mbind option_bind]. destruct (rd_data d); cbn [mbind option_bind]; [|done]. destruct av; cbn [mbind option_bind]; [|done].
  intros E [? ? ? ?] ? ? ?. repeat case_match; simplify_eq; (split; [by split|word_lia]).
Qed.
Lemma aligned_write_release d k d' : ring_write_release (Some d) k = Some d' → aligned d → k mod 8 = 0 → aligned d'.
Proof.
  unfold ring_write_release. cbn [mbind option_bind]. destruct (rd_data d); cbn [mbind option_bind]; [|done].
  intros E [? ? ? ?] ?. repeat case_match; simplify_eq; split; cbn; word_lia.
Qed.
Lemma aligned_read_release d k d' : ring_read_release (Some d) k = Some d' → aligned d → k mod 8 = 0 → aligned d'.
Proof.
  unfold ring_read_release. cbn [mbind option_bind]. destruct (rd_data d); cbn [mbind option_bind]; [|done].
  intros E [? ? ? ?] ?. repeat case_match; simplify_eq; split; cbn; word_lia.
Qed.

(** What a bucket that has memory is. *)
Record filled (b : bucket_priority_bucket_t) (q : list Z) (a : Z) (bs : list Z) : Prop := {
  fl_storage : bk_storage b = Some (a, bs);
  fl_ring : ring_holds a (bk_ring b) bs (flat q);
  fl_aligned : aligned (bk_ring b);
  fl_capacity : 0 < bk_capacity_entries b <= (SIZE_MAX - 1) / 8;
  fl_bytes : bk_storage_bytes b = 8 * bk_capacity_entries b + 1;
  fl_size : rd_size (bk_ring b) = bk_storage_bytes b;
  fl_count : bk_count b = alen q;
  fl_words : Forall is_u64 q
}.
Definition bucket_holds (b : bucket_priority_bucket_t) (q : list Z) : Prop :=
  (b = zero_bucket ∧ q = []) ∨ ∃ a bs, filled b q a bs.

Lemma view_length a d bs q : ring_holds a d bs q → blen q < rd_size d.
Proof.
  intros [_ Hs Hl Hw Hr Hi Ho _ Hv]. destruct (decide (rd_r d <= rd_w d)).
  - rewrite view_straight in Hv by done. apply slice_blen in Hv. lia.
  - apply view_wrapped in Hv as (s1 & s2 & H1%slice_blen & H2%slice_blen & ->); [|lia]. rewrite blen_app. lia.
Qed.
Lemma filled_count b q a bs : filled b q a bs → alen q <= bk_capacity_entries b.
Proof.
  intros [_ Hr _ Hc Hb Hs _ _]. apply view_length in Hr. rewrite flat_blen in Hr. lia.
Qed.
Lemma bucket_count b q : bucket_holds b q →
  bk_count b = alen q ∧ alen q <= bk_capacity_entries b ∧ 0 <= bk_capacity_entries b <= (SIZE_MAX - 1) / 8.
Proof.
  intros [[-> ->]|(a & bs & H)]; [done|]. pose proof (filled_count _ _ _ _ H). destruct H. split; [done|]. lia.
Qed.

(** Reading the first [n] words that lie together. *)
Lemma words_read b q a bs :
  filled b q a bs → q ≠ [] →
  ∃ p k d1, ring_read_acquire (Some (bk_ring b)) (Some 0) = Some (Some p, 8 * k, d1) ∧ 0 < k <= alen q ∧
    ∀ n, 0 <= n <= k → mem_read (bk_storage b) p (8 * n) = Some (flat (take (Z.to_nat n) q)) ∧
      ∃ d', ring_read_release (Some d1) (8 * n) = Some d' ∧
        ∀ count, count = alen q - n →
          filled (MkBucket d' (bk_storage b) (bk_storage_bytes b) (bk_capacity_entries b) count) (drop (Z.to_nat n) q) a bs.
Proof.
  intros [Hst Hr Ha Hc Hb Hs Hn Hw] Hq. destruct (ring_reads_ok _ _ _ _ Hr) as (p & k & d1 & E & Hk0 & _ & Hne & _ & Hp).
  destruct Hne as [Hk [p' ->]]. { intros Hf. apply nil_blen in Hf. rewrite flat_blen in Hf. apply Hq, nil_length_inv. unfold alen in Hf. lia. }
  destruct (aligned_read_acquire _ _ _ _ _ E Ha) as [Ha1 Hmod]; [destruct Hr; lia..|].
  destruct (Hp _ eq_refl) as (Hsl & Hkl & Hrel). rewrite flat_blen in Hkl.
  exists p', (k / 8), d1. replace (8 * (k / 8)) with k by word_lia. split; [done|]. split; [word_lia|]. intros n Hn'.
  rewrite Hst. unfold mem_read. cbn [mbind option_bind]. split.
  { rewrite (slice_take _ _ _ _ (8 * n) Hsl) by word_lia. f_equal. rewrite take_take. replace (Z.to_nat (8 * n) `min` Z.to_nat k)%nat with (8 * Z.to_nat n)%nat by word_lia.
    apply flat_take. }
  destruct (Hrel (8 * n)) as (d' & Er & Hd' & Hsz); [word_lia|]. exists d'. split; [done|]. intros count ->.
  split; cbn; try done.
  - rewrite <-flat_drop. by replace (8 * Z.to_nat n)%nat with (Z.to_nat (8 * n)) by lia.
  - eapply aligned_read_release; [done..|word_lia].
  - congruence.
  - unfold alen in *. rewrite length_drop. word_lia.
  - by apply Forall_drop.
Qed.

(** ** Growing *)

Lemma copy_loop_ok a bs used dst' : ∀ fuel cursor rest copied dst,
  ring_holds a cursor bs rest → (Z.to_nat (blen rest) < fuel)%nat → 0 <= copied → used = copied + blen rest → used <= SIZE_MAX →
  blit dst copied rest = Some dst' → copy_loop fuel (Some (a, bs)) cursor used copied dst = Some (true, dst').
Proof.
  induction fuel as [|fuel IH]; intros cursor rest copied dst H Hf Hc Hu Hmax Hb; [lia|]. cbn [copy_loop].
  pose proof (blen_nonneg rest) as Hr0. destruct (Z.ltb_spec copied used) as [Hlt|Hge].
  - destruct (ring_reads_ok _ _ _ _ H) as (p & k & d1 & E & _ & _ & Hne & _ & Hp).
    destruct Hne as [Hk [p' ->]]; [intros ?%nil_blen; lia|]. destruct (Hp _ eq_refl) as (Hsl & Hkl & Hrel).
    rewrite E. cbn [mbind option_bind]. destruct (Z.eqb_spec k 0); [lia|]. rewrite (u64_id (used - copied)) by word_lia.
    destruct (Z.ltb_spec (used - copied) k); [lia|]. unfold mem_read. cbn [mbind option_bind]. rewrite Hsl. cbn [mbind option_bind].
    assert (blen (take (Z.to_nat k) rest) = k) as Hkt by (unfold blen in *; rewrite length_take; lia).
    pose proof (blit_blit dst copied (take (Z.to_nat k) rest) (drop (Z.to_nat k) rest) Hc) as HB. rewrite take_drop, Hb, Hkt in HB.
    destruct (blit dst copied (take (Z.to_nat k) rest)) as [dst1|]; [|done]. cbn [mbind option_bind] in HB |- *.
    destruct (Hrel k) as (d' & -> & Hd' & _); [lia|]. cbn [mbind option_bind]. rewrite u64_id by word_lia.
    assert (blen (drop (Z.to_nat k) rest) = blen rest - k) as Hkd by (unfold blen in *; rewrite length_drop; lia).
    eapply IH; [done|lia|lia|lia|done|done].
  - destruct (Z.eqb_spec copied used); [|lia]. assert (rest = []) as -> by (apply nil_blen; lia).
    rewrite blit_nil in Hb by (apply blit_Some in Hb; rewrite blen_nil in Hb; lia). by injection Hb as ->.
Qed.

Lemma fresh_blen n : 0 <= n → blen (fresh n) = n.
Proof. intros. unfold blen, fresh. rewrite length_replicate. lia. Qed.

Lemma bucket_copy_ok b q dst :
  bucket_holds b q → 8 * alen q <= blen dst <= SIZE_MAX → bucket_copy_fifo_bytes b dst (blen dst) = Some (true, flat q ++ drop (length (flat q)) dst).
Proof.
  intros H Hd. destruct (bucket_count _ _ H) as (Hc & Hq & Hcap). unfold bucket_copy_fifo_bytes, BUCKET_ENTRY_SIZE. rewrite Hc, u64_id by (unfold alen in *; word_lia).
  destruct (Z.ltb_spec (blen dst) (alen q * 8)); [lia|]. destruct (Z.eqb_spec (alen q * 8) 0) as [He|He].
  { assert (q = []) as -> by (apply nil_length_inv; unfold alen in *; lia). done. }
  destruct H as [[-> ->]|(a & bs & H)]; [done|]. rewrite (fl_storage _ _ _ _ H).
  eapply copy_loop_ok; [apply (fl_ring _ _ _ _ H)|..]; rewrite ?flat_blen; try lia.
  apply blit_0. rewrite flat_blen. lia.
Qed.

Lemma double_loop_ok lo : ∀ fuel c, 0 < c <= SIZE_MAX → lo <= c * 2 ^ Z.of_nat fuel →
  ∃ r, double_loop (S fuel) c lo = Some r ∧ (∀ c', r = Some c' → lo <= c' ∧ c <= c' <= Z.max c (2 * lo)) ∧ (r = None → SIZE_MAX / 2 < lo).
Proof.
  induction fuel as [|fuel IH]; intros c Hc Hf.
  - exists (Some c). cbn. destruct (Z.ltb_spec c lo); [cbn in Hf; lia|]. split; [done|]. split; [intros ? [= <-]; lia|done].
  - cbn [double_loop]. destruct (Z.ltb_spec c lo) as [Hlt|Hge].
    + destruct (Z.ltb_spec (SIZE_MAX / 2) c) as [Hb|Hb]; [exists None; split; [done|]; split; [done|lia]|].
      rewrite u64_id by word_lia. destruct (IH (c * 2)) as (r & E & H1 & H2); [word_lia| |].
      { rewrite Nat2Z.inj_succ, Z.pow_succ_r in Hf by lia. lia. }
      exists r. split; [done|]. split; [|done]. intros c' Hc'. specialize (H1 _ Hc'). lia.
    + exists (Some c). split; [done|]. split; [intros ? [= <-]; lia|done].
Qed.

Definition bucket_blocks (b : bucket_priority_bucket_t) : Z := if is_null (bk_storage b) then 0 else 1.

(** Memory and address space for a bucket of [n] entries. *)
Definition bucket_fits (n : Z) (k : nat) (w : world) : Prop := Z.max 16 (2 * n) <= (SIZE_MAX - 1) / 8 ∧ supply k w.

(** A bucket with new memory has its words at the front. *)
Lemma bucket_grown b q a c :
  bucket_holds b q → alen q <= c → 0 < c <= (SIZE_MAX - 1) / 8 →
  ∃ d d', ring_init (Some zero_ring) (Some a) (8 * c + 1) = Some d ∧
    (if 0 <? 8 * alen q then ring_write_release (Some d) (8 * alen q) else Some d) = Some d' ∧
    filled (MkBucket d' (Some (a, flat q ++ drop (length (flat q)) (fresh (8 * c + 1)))) (8 * c + 1) c (alen q)) q a (flat q ++ drop (length (flat q)) (fresh (8 * c + 1))) ∧
    rd_r d' = 0 ∧ rd_w d' = 8 * alen q.
Proof.
  intros H Hq Hc. assert (0 <= alen q) as Hq0 by (unfold alen; lia).
  assert (Forall is_u64 q) as Hw by (by destruct H as [[_ ->]|(? & ? & [])]).
  destruct (ring_init_ok (Some zero_ring) a (8 * c + 1) (fresh (8 * c + 1))) as (d & E & Hd & Hs); [done|word_lia|by rewrite fresh_blen by lia|].
  pose proof E as Ed. unfold ring_init in Ed. cbn in Ed. destruct (Z.eqb_spec (8 * c + 1) 0); [lia|]. injection Ed as <-.
  assert (aligned (MkRing (8 * c + 1) (Some a) 0 0 0 false false)) as Ha by (split; cbn -[Z.mul]; word_lia).
  destruct (decide (q = [])) as [->|Hne].
  { eexists _, _. split; [done|]. split; [done|]. split; [|done]. by split. }
  pose proof (release_behind a _ _ (flat q ++ drop (length (flat q)) (fresh (8 * c + 1))) [] (flat q) Hd) as HR. rewrite flat_blen in HR.
  destruct HR as (d' & Er & _ & Hd' & Hs').
  { unfold gap_behind. cbn [rd_w rd_r rd_size]. repeat case_bool_decide; lia. }
  { apply blit_0. rewrite flat_blen, fresh_blen by lia. lia. }
  assert (0 < alen q) as Hpos by (destruct q; [done|unfold alen; cbn; lia]). destruct (Z.ltb_spec 0 (8 * alen q)); [|lia].
  eexists _, d'. split; [done|]. split; [done|]. split.
  - split; cbn -[Z.mul]; try done. eapply aligned_write_release; [done..|word_lia].
  - unfold ring_write_release in Er. cbn -[Z.mul Z.add] in Er. rewrite Z.add_0_l, u64_id in Er by word_lia.
    destruct (Z.ltb_spec (8 * c + 1) (8 * alen q)); [done|]. injection Er as <-. cbn -[Z.mul].
    destruct (Z.eqb_spec (8 * alen q) (8 * c + 1)); [word_lia|done].
Qed.

Record reserved (b : bucket_priority_bucket_t) (q : list Z) (n : Z) (w : world) (ok : bool) (b' : bucket_priority_bucket_t) (w' : world) : Prop := {
  rs_holds : bucket_holds b' q;
  rs_failed : ok = false → b' = b;
  rs_capacity : bk_capacity_entries b <= bk_capacity_entries b' ∧ (ok = true → n <= bk_capacity_entries b');
  rs_room : ok = true → bk_capacity_entries b < n → rd_r (bk_ring b') = 0 ∧ rd_w (bk_ring b') = 8 * alen q;
  rs_kept : n <= bk_capacity_entries b → b' = b ∧ w' = w ∧ ok = true;
  rs_blocks : w_blocks w' - bucket_blocks b' = w_blocks w - bucket_blocks b ∧ w_objects w' = w_objects w;
  rs_fits : ∀ k, bucket_fits n (1 + k) w → ok = true ∧ supply k w'
}.

Lemma bucket_reserve_ok b q n w : bucket_holds b q → is_u64 n →
  ∃ ok b' w', bucket_reserve_entries b n w = Some ((ok, b'), w') ∧ reserved b q n w ok b' w'.
Proof.
  intros H Hn. destruct (bucket_count _ _ H) as (Hc & Hq & Hcap). unfold bucket_reserve_entries.
  destruct (Z.leb_spec n (bk_capacity_entries b)) as [Hle|Hgt].
  { exists true, b, w. split; [done|]. split; try done; try lia. intros k [_ Hk]. split; [done|]. eapply supply_weaken; [|done]. lia. }
  set (c0 := if bk_capacity_entries b =? 0 then BUCKET_MIN_CAPACITY else bk_capacity_entries b).
  assert (0 < c0 <= SIZE_MAX ∧ bk_capacity_entries b <= c0 ∧ c0 <= Z.max 16 n) as Hc0.
  { subst c0. unfold BUCKET_MIN_CAPACITY. destruct (Z.eqb_spec (bk_capacity_entries b) 0); word_lia. }
  destruct (double_loop_ok n 64 c0) as (r & -> & Hr & Hr'); [lia|change (2 ^ Z.of_nat 64) with 18446744073709551616; word_lia|]. wrun.
  assert (Hfail : ∀ w', w_blocks w' = w_blocks w → w_objects w' = w_objects w → (∀ k, ¬ bucket_fits n (1 + k) w) → reserved b q n w false b w').
  { intros w' Hb Ho Hf. split; try done; try lia. intros k Hk. by destruct (Hf k). }
  destruct r as [c|].
  2: { exists false, b, w. split; [done|]. apply Hfail; [done..|]. intros k [Hk _]. specialize (Hr' eq_refl). word_lia. }
  destruct (Hr _ eq_refl) as [Hnc Hcc]. unfold bucket_capacity_overflow, BUCKET_ENTRY_SIZE.
  destruct (Z.eqb_spec c 0); [lia|]. destruct (Z.ltb_spec ((SIZE_MAX - 1) / 8) c) as [Hbig|Hsmall].
  { exists false, b, w. split; [done|]. apply Hfail; [done..|]. intros k [Hk _]. lia. }
  destruct (malloc_ok w) as (a & w1 & E & Hb1 & Ho1 & Hs1). wstep E. destruct a as [a|].
  2: { exists false, b, w1. split; [done|]. apply Hfail; [cbn in Hb1; lia|done|]. intros k [_ Hk]. by destruct (Hs1 _ Hk). }
  rewrite (u64_id (c * 8)), (u64_id (c * 8 + 1)) by word_lia. replace (c * 8 + 1) with (8 * c + 1) by lia.
  destruct (bucket_grown b q a c H) as (d & d' & Ei & Er & Hfill & Hd0 & Hd1); [lia..|]. rewrite Ei. wrun.
  pose proof (bucket_copy_ok b q (fresh (8 * c + 1)) H) as Ec. rewrite fresh_blen in Ec by lia. rewrite Ec by word_lia. wrun. cbn [negb].
  rewrite Hc, (u64_id (alen q * 8)) by (unfold alen in *; word_lia). replace (alen q * 8) with (8 * alen q) by lia. rewrite Er. wrun.
  assert (∃ w2, free_block (bk_storage b) w1 = Some (tt, w2) ∧ w_malloc w2 = w_malloc w1 ∧ w_blocks w2 = w_blocks w1 - bucket_blocks b ∧ w_objects w2 = w_objects w1)
    as (w2 & Ef & Hm2 & Hb2 & Ho2).
  { unfold free_block, bucket_blocks. destruct (is_null (bk_storage b)); eexists; (split; [done|]); cbn; split; try done; lia. }
  wstep Ef. eexists _, _, _. split; [done|]. split; cbn -[Z.mul]; try done; try lia.
  - right. eauto.
  - cbn [is_null] in Hb1. split; [lia|congruence].
  - intros k [_ Hk]. destruct (Hs1 _ Hk). split; [done|]. by eapply supply_malloc.
Qed.

(** ** Pushing *)

Definition set_ring (b : bucket_priority_bucket_t) (ring : ring_data_type) : bucket_priority_bucket_t :=
  MkBucket ring (bk_storage b) (bk_storage_bytes b) (bk_capacity_entries b) (bk_count b).
Lemma set_ring_same b : set_ring b (bk_ring b) = b.
Proof. by destruct b. Qed.

(** The place [p] of a bucket takes one more word. *)
Definition takes_word (b : bucket_priority_bucket_t) (q : list Z) (p : Z) : Prop :=
  bk_count b = alen q ∧ ∀ v, is_u64 v →
    ∃ storage ring, mem_write (bk_storage b) p (value_bytes v) = Some storage ∧
      ring_write_release (Some (bk_ring b)) BUCKET_ENTRY_SIZE = Some ring ∧ is_null storage = is_null (bk_storage b) ∧
      bucket_holds (MkBucket ring storage (bk_storage_bytes b) (bk_capacity_entries b) (alen q + 1)) (q ++ [v]).

Lemma acquire_word b q a bs : filled b q a bs →
  ∃ d1, ring_write_acquire (Some (bk_ring b)) BUCKET_ENTRY_SIZE = Some (ring_place a (bk_ring b) 8, d1) ∧
    (ring_place a (bk_ring b) 8 = None → set_ring b d1 = b) ∧ ∀ p, ring_place a (bk_ring b) 8 = Some p → takes_word (set_ring b d1) q p.
Proof.
  intros [Hst Hr Ha Hc Hb Hs Hn Hw]. destruct (ring_writes_ok _ _ _ _ 8 Hr) as (d1 & E & Hd1 & Hp).
  exists d1. split; [done|]. split; [intros Hnone; rewrite (Hd1 Hnone); apply set_ring_same|].
  intros p Hpl. split; [done|]. intros v Hv. destruct (Hp p (value_bytes v) Hpl) as (bs' & d' & Eb & Er & _ & Hd' & Hsz).
  { unfold blen, value_bytes. by rewrite word_bytes_length. }
  replace (blen (value_bytes v)) with BUCKET_ENTRY_SIZE in Er by (unfold blen, value_bytes; by rewrite word_bytes_length).
  cbn [bk_storage bk_ring bk_storage_bytes bk_capacity_entries set_ring]. unfold mem_write. rewrite Hst. cbn [mbind option_bind]. rewrite Eb. cbn [mbind option_bind].
  eexists _, d'. split; [done|]. split; [done|]. split; [done|]. right. exists a, bs'. split; cbn; try done.
  - rewrite flat_app, (flat_cons v []). change (flat []) with (@nil Z). by rewrite app_nil_r.
  - eapply aligned_write_release; [done| |done]. by eapply aligned_write_acquire.
  - congruence.
  - unfold alen. rewrite length_app. cbn. lia.
  - apply Forall_app. split; [done|]. by constructor.
Qed.

Lemma front_place b q a bs :
  filled b q a bs → rd_r (bk_ring b) = 0 → rd_w (bk_ring b) = 8 * alen q → alen q < bk_capacity_entries b → is_Some (ring_place a (bk_ring b) 8).
Proof.
  intros [Hst Hr Ha Hc Hb Hs Hn Hw] H0 Hl Hcap. unfold ring_place, gap_behind. rewrite H0, Hl, Hs, Hb.
  assert (0 <= alen q) by (unfold alen; lia).
  rewrite bool_decide_true; [done|]. repeat case_bool_decide; lia.
Qed.

Record roomy (b : bucket_priority_bucket_t) (q : list Z) (w : world) (p : option Z) (b' : bucket_priority_bucket_t) (w' : world) : Prop := {
  rm_failed : p = None → b' = b;
  rm_takes : ∀ p', p = Some p' → takes_word b' q p';
  rm_capacity : bk_capacity_entries b <= bk_capacity_entries b';
  rm_blocks : w_blocks w' - bucket_blocks b' = w_blocks w - bucket_blocks b ∧ w_objects w' = w_objects w;
  rm_fits : bucket_fits (bk_capacity_entries b + 1) 1 w → is_Some p
}.

Lemma bucket_fits_mono n m k w : n <= m → bucket_fits m k w → bucket_fits n k w.
Proof. intros ? [? ?]. split; [lia|done]. Qed.

(** With new memory there is a place. *)
Lemma grown_room b q n w b1 w1 : reserved b q n w true b1 w1 → bk_capacity_entries b < n → alen q < n →
  ∃ p d1, ring_write_acquire (Some (bk_ring b1)) BUCKET_ENTRY_SIZE = Some (Some p, d1) ∧ takes_word (set_ring b1 d1) q p.
Proof.
  intros [Hh _ Hc Hr _ _ _] Hn Hq. destruct (Hr eq_refl Hn) as [H0 H1]. destruct Hc as [_ Hc]. specialize (Hc eq_refl).
  destruct Hh as [[-> ->]|(a & bs & Hf)]; [unfold alen in *; cbn in *; lia|].
  destruct (front_place _ _ _ _ Hf H0 H1) as [p Hp]; [lia|]. destruct (acquire_word _ _ _ _ Hf) as (d1 & E & _ & Ht).
  exists p, d1. rewrite Hp in E. split; [done|]. by apply Ht.
Qed.

Lemma set_ring_blocks b d : bucket_blocks (set_ring b d) = bucket_blocks b.
Proof. done. Qed.

Lemma push_room_ok b q w : bucket_holds b q → ∃ p b' w', push_room b w = Some ((p, b'), w') ∧ roomy b q w p b' w'.
Proof.
  intros H. destruct (bucket_count _ _ H) as (Hc & Hq & Hcap). unfold push_room. rewrite Hc, u64_id by (unfold alen in *; word_lia).
  destruct (bucket_reserve_ok b q (alen q + 1) w H) as (ok & b1 & w1 & E & R); [unfold alen in *; word_lia|]. wstep E.
  destruct ok; cbn [negb].
  2: { exists None, b1, w1. split; [done|]. destruct R as [_ Rf Rc _ _ Rb Rs]. rewrite (Rf eq_refl) in *. split; try done.
       intros Hf. destruct (Rs O) as [? _]; [|done]. eapply bucket_fits_mono; [|done]. lia. }
  destruct (decide (bk_capacity_entries b < alen q + 1)) as [Hfull|Hroom].
  { destruct (grown_room _ _ _ _ _ _ R) as (p & d1 & Ea & Ht); [lia..|]. rewrite Ea. wrun. eexists _, _, _. split; [done|].
    destruct R as [_ _ Rc _ _ Rb _]. split; try done; [by intros ? [= <-]|cbn; lia]. }
  destruct (rs_kept _ _ _ _ _ _ _ R) as (-> & -> & _); [lia|]. clear R E.
  destruct H as [[-> ->]|(a & bs & Hf)]; [unfold alen in Hroom; cbn in Hroom; lia|]. destruct (acquire_word _ _ _ _ Hf) as (d1 & Ea & Hnone & Ht).
  rewrite Ea. wrun. destruct (ring_place a (bk_ring b) 8) as [p|] eqn:Hp.
  { eexists _, _, _. split; [done|]. by split. }
  change (MkBucket d1 (bk_storage b) (bk_storage_bytes b) (bk_capacity_entries b) (bk_count b)) with (set_ring b d1). rewrite (Hnone eq_refl).
  rewrite u64_id by word_lia. assert (bucket_holds b q) as H by (right; eauto).
  destruct (bucket_reserve_ok b q (bk_capacity_entries b + 1) w H) as (ok & b2 & w2 & E & R); [word_lia|]. wstep E.
  destruct ok; cbn [negb].
  - destruct (grown_room _ _ _ _ _ _ R) as (p & d2 & Ea2 & Ht2); [lia..|]. rewrite Ea2. wrun. eexists _, _, _. split; [done|].
    destruct R as [_ _ Rc _ _ Rb _]. split; try done; [by intros ? [= <-]|cbn; lia].
  - exists None, b2, w2. split; [done|]. destruct R as [_ Rf Rc _ _ Rb Rs]. rewrite (Rf eq_refl) in *. split; try done.
    intros HF. by destruct (Rs O HF).
Qed.
