(* ===== verification/BucketQueueRefine.v ===== *)
(** * The bucket priority queue: the four levels

    The queue stands for four lists, lowest priority first. The operations do
    to them what they should, and the memory is accounted for. *)

From S2P Require Import Prelude World RingBuffer BucketQueue BucketQueueSpec.
Local Open Scope Z_scope.

(** ** Levels *)

Definition emptyb (l : list Z) : bool := match l with [] => true | _ => false end.
Definition mask_of (levels : list (list Z)) : Z := foldr (λ l m, (if emptyb l then 0 else 1) + 2 * m) 0 levels.

(** Up to [n] words, from the first list on. *)
Fixpoint take_front (n : nat) (ls : list (list Z)) : list Z * list (list Z) :=
  match ls with
  | [] => ([], [])
  | l :: ls => let '(got, rest) := take_front (n - length l) ls in (take n l ++ got, drop n l :: rest)
  end.
(** Up to [n] words, from the highest level on. *)
Definition pq_take (n : nat) (levels : list (list Z)) : list Z * list (list Z) :=
  let '(got, rest) := take_front n (reverse levels) in (got, reverse rest).

Lemma take_front_0 ls : take_front 0 ls = ([], ls).
Proof. induction ls as [|l ls IH]; cbn [take_front]; [done|]. by rewrite Nat.sub_0_l, IH. Qed.
Lemma take_front_order n ls : (take_front n ls).1 = take n (concat ls) ∧ concat (take_front n ls).2 = drop n (concat ls).
Proof.
  revert n. induction ls as [|l ls IH]; intros n; cbn; [by rewrite take_nil, drop_nil|].
  destruct (IH (n - length l)%nat) as [E1 E2]. destruct (take_front (n - length l) ls) as [got rest]. cbn in *. subst got.
  by rewrite E2, take_app, drop_app.
Qed.
Lemma take_front_add m n ls :
  take_front (m + n) ls = let '(g1, r1) := take_front m ls in let '(g2, r2) := take_front n r1 in (g1 ++ g2, r2).
Proof.
  revert m n. induction ls as [|l ls IH]; intros m n; cbn; [done|].
  destruct (decide (m <= length l)%nat) as [Hm|Hm].
  - replace (m - length l)%nat with O by lia. rewrite take_front_0. cbn. rewrite length_drop.
    replace (m + n - length l)%nat with (n - (length l - m))%nat by lia. destruct (take_front (n - (length l - m)) ls) as [g r].
    by rewrite app_nil_r, app_assoc, take_take_drop, drop_drop.
  - replace (m + n - length l)%nat with ((m - length l) + n)%nat by lia. rewrite IH. destruct (take_front (m - length l) ls) as [g1 r1]. cbn.
    rewrite length_drop. replace (n - (length l - m))%nat with n by lia. destruct (take_front n r1) as [g2 r2].
    rewrite !take_ge, !drop_ge by (rewrite ?length_drop; lia). by rewrite drop_nil, app_assoc.
Qed.
Lemma take_front_skip n ls rest : Forall (λ l, l = []) ls → take_front n (ls ++ rest) = let '(g, r) := take_front n rest in (g, ls ++ r).
Proof.
  induction 1 as [|l ls -> _ IH]; cbn; [by destruct (take_front n rest)|]. rewrite Nat.sub_0_r, IH. destruct (take_front n rest). by rewrite take_nil, drop_nil.
Qed.

Lemma pq_take_add m n levels :
  pq_take (m + n) levels = let '(g1, r1) := pq_take m levels in let '(g2, r2) := pq_take n r1 in (g1 ++ g2, r2).
Proof.
  unfold pq_take. rewrite take_front_add. destruct (take_front m (reverse levels)) as [g1 r1]. rewrite reverse_involutive.
  by destruct (take_front n r1).
Qed.
Lemma pq_take_top n low l high : Forall (λ l, l = []) high → (n <= length l)%nat → pq_take n (low ++ l :: high) = (take n l, low ++ drop n l :: high).
Proof.
  intros Hh Hn. unfold pq_take. rewrite reverse_app, reverse_cons, <-app_assoc. cbn [app].
  rewrite take_front_skip by (by apply Forall_reverse). cbn [take_front]. replace (n - length l)%nat with O by lia. rewrite take_front_0.
  rewrite app_nil_r, reverse_app, reverse_cons, !reverse_involutive, <-app_assoc. done.
Qed.
Lemma pq_take_none n levels : Forall (λ l, l = []) levels → pq_take n levels = ([], levels).
Proof.
  intros H. unfold pq_take. rewrite <-(app_nil_r (reverse levels)), take_front_skip by (by apply Forall_reverse). cbn.
  by rewrite app_nil_r, reverse_involutive.
Qed.

(** The order in which everything would be popped. *)
Lemma pq_take_order n levels : (pq_take n levels).1 = take n (concat (reverse levels)).
Proof. unfold pq_take. destruct (take_front_order n (reverse levels)) as [<- _]. by destruct (take_front n (reverse levels)). Qed.

(** ** The mask *)

Lemma highest_portable_ok mask : is_u8 mask → bucket_highest_portable mask = bucket_highest_non_empty_priority mask.
Proof. intros H. byte_cases mask H. Qed.

Lemma top_level levels : length levels = 4%nat → mask_of levels ≠ 0 →
  ∃ low l high, levels = low ++ l :: high ∧ l ≠ [] ∧ Forall (λ l, l = []) high ∧ bucket_highest_non_empty_priority (mask_of levels) = alen low.
Proof.
  intros H Hm. destruct levels as [|l0 [|l1 [|l2 [|l3 [|? ?]]]]]; try done. destruct l3 as [|x3 l3].
  2: { exists [l0; l1; l2], (x3 :: l3), []. split; [done|]. split; [done|]. split; [constructor|]. by destruct l0, l1, l2. }
  destruct l2 as [|x2 l2].
  2: { exists [l0; l1], (x2 :: l2), [[]]. split; [done|]. split; [done|]. split; [by repeat constructor|]. by destruct l0, l1. }
  destruct l1 as [|x1 l1].
  2: { exists [l0], (x1 :: l1), [[]; []]. split; [done|]. split; [done|]. split; [by repeat constructor|]. by destruct l0. }
  destruct l0 as [|x0 l0]; [done|]. exists [], (x0 :: l0), [[]; []; []]. split; [done|]. split; [done|]. split; [by repeat constructor|done].
Qed.
Lemma mask_cons l ls : mask_of (l :: ls) = (if emptyb l then 0 else 1) + 2 * mask_of ls.
Proof. done. Qed.
Lemma no_level levels : mask_of levels = 0 → Forall (λ l, l = []) levels.
Proof.
  assert (∀ ls, 0 <= mask_of ls) as Hpos. { induction ls as [|l ls IH]; [done|]. rewrite mask_cons. destruct (emptyb l); lia. }
  induction levels as [|l ls IH]; intros H; [constructor|]. rewrite mask_cons in H. specialize (Hpos ls). destruct l; cbn [emptyb] in H; [|lia].
  constructor; [done|]. apply IH. lia.
Qed.

Lemma mask_taken low l l' high : length (low ++ l :: high) = 4%nat → l ≠ [] →
  mask_of (low ++ l' :: high) = if emptyb l' then clear_bit (mask_of (low ++ l :: high)) (alen low) else mask_of (low ++ l :: high).
Proof.
  intros H Hl. destruct l as [|x l]; [done|]. clear Hl. rewrite length_app in H.
  destruct low as [|l0 [|l1 [|l2 [|? ?]]]], high as [|h0 [|h1 [|h2 [|? ?]]]]; cbn in H; try lia;
    cbn [app mask_of foldr emptyb]; repeat match goal with |- context [emptyb ?l] => destruct (emptyb l) end; reflexivity.
Qed.
Lemma mask_pushed low l v high : length (low ++ l :: high) = 4%nat →
  mask_of (low ++ (l ++ [v]) :: high) = if emptyb l then Z.lor (mask_of (low ++ l :: high)) (bucket_priority_bit (alen low)) else mask_of (low ++ l :: high).
Proof.
  intros H. rewrite length_app in H.
  destruct low as [|l0 [|l1 [|l2 [|? ?]]]], high as [|h0 [|h1 [|h2 [|? ?]]]]; cbn in H; try lia;
    destruct l; cbn [app mask_of foldr emptyb]; repeat match goal with |- context [emptyb ?l] => destruct (emptyb l) end; reflexivity.
Qed.

(** ** The queue *)

Record queue_holds (Q : bucket_priority_queue_t) (levels : list (list Z)) : Prop := {
  qh_four : length levels = 4%nat;
  qh_buckets : Forall2 bucket_holds (bq_buckets Q) levels;
  qh_total : bq_total_size Q = alen (concat levels);
  qh_mask : bq_non_empty_mask Q = mask_of levels
}.

Definition blocks_of (bs : list bucket_priority_bucket_t) : Z := foldr (λ b n, bucket_blocks b + n) 0 bs.
Definition queue_blocks (Q : bucket_priority_queue_t) : Z := blocks_of (bq_buckets Q).
Definition capacities (Q : bucket_priority_queue_t) : list Z := bk_capacity_entries <$> bq_buckets Q.
(** What reading leaves alone: the memory of the buckets. *)
Definition shape (b : bucket_priority_bucket_t) : option block * Z * Z := (bk_storage b, bk_storage_bytes b, bk_capacity_entries b).
Definition shapes (Q : bucket_priority_queue_t) := shape <$> bq_buckets Q.

Lemma total_split (low : list (list Z)) l high : alen (concat (low ++ l :: high)) = alen (concat low) + alen l + alen (concat high).
Proof. rewrite concat_app. cbn. rewrite !alen_app. lia. Qed.

Lemma total_bound Q levels : queue_holds Q levels → alen (concat levels) <= SIZE_MAX / 2.
Proof.
  intros [H4 Hb _ _]. assert (Forall (λ l, alen l <= (SIZE_MAX - 1) / 8) levels) as HF.
  { clear H4. induction Hb as [|b l bs ls Hbl _ IH]; constructor; [|done]. apply bucket_count in Hbl. lia. }
  destruct levels as [|l0 [|l1 [|l2 [|l3 [|? ?]]]]]; try done. cbn. rewrite !alen_app.
  rewrite !Forall_cons in HF. destruct HF as (? & ? & ? & ? & _).
  unfold alen in *. cbn. word_lia.
Qed.

(** The bucket of a level. *)
Lemma level_at Q low l high : queue_holds Q (low ++ l :: high) →
  ∃ bl b bh, bq_buckets Q = bl ++ b :: bh ∧ Forall2 bucket_holds bl low ∧ bucket_holds b l ∧ Forall2 bucket_holds bh high ∧
    aget (bq_buckets Q) (alen low) = Some b ∧ ∀ b', aset (bq_buckets Q) (alen low) b' = Some (bl ++ b' :: bh).
Proof.
  intros [_ Hb _ _]. apply Forall2_app_inv_r in Hb as (bl & bt & Hl & Ht & E). inversion Ht as [|b ? bh ? Hbl Hh]; subst.
  exists bl, b, bh. split; [done|]. do 3 (split; [done|]). rewrite E. pose proof (Forall2_length _ _ _ Hl) as Hlen.
  unfold aget, aset, alen. rewrite length_app. cbn. destruct (Z.ltb_spec (Z.of_nat (length low)) 0); [lia|].
  rewrite Nat2Z.id, <-Hlen. split; [by apply list_lookup_middle|]. intros b'.
  destruct (Z.leb_spec 0 (Z.of_nat (length bl))); [|lia]. destruct (Z.ltb_spec (Z.of_nat (length bl)) (Z.of_nat (length bl + S (length bh)))); [|lia]. cbn.
  by rewrite insert_app_r_alt, Nat.sub_diag by lia.
Qed.

Lemma level_set Q low l high l' bl b' bh total mask :
  queue_holds Q (low ++ l :: high) → Forall2 bucket_holds bl low → bucket_holds b' l' → Forall2 bucket_holds bh high →
  total = bq_total_size Q - alen l + alen l' → mask = mask_of (low ++ l' :: high) →
  queue_holds (MkBQueue (bl ++ b' :: bh) total mask) (low ++ l' :: high).
Proof.
  intros [H4 _ Ht _] Hl Hb Hh -> ->. split; cbn; [|by apply Forall2_app; [|constructor]| |done].
  - rewrite length_app in H4 |- *. done.
  - rewrite Ht, !total_split. lia.
Qed.

(** ** Popping and peeking *)

Lemma pop_one_ok b v q x : bucket_holds b (v :: q) →
  ∃ b', bucket_pop_one (Some b) (Some x) = Some (true, Some b', Some v) ∧ bucket_holds b' q ∧ shape b' = shape b ∧
    bucket_peek_one (Some b) (Some x) = Some (true, Some v).
Proof.
  intros H. destruct (bucket_count _ _ H) as (Hc & Hq & Hcap). destruct H as [[_ ?]|(a & bs & H)]; [done|].
  unfold bucket_pop_one, bucket_peek_one. assert (alen (v :: q) = 1 + alen q ∧ 0 <= alen q) as [Hl Hl0] by (unfold alen; cbn; lia).
  destruct (Z.eqb_spec (bk_count b) 0); [lia|]. destruct (words_read _ _ _ _ H) as (p & k & d1 & E & Hk & Hn); [done|].
  rewrite E. cbn [mbind option_bind]. unfold BUCKET_ENTRY_SIZE. destruct (Z.ltb_spec (8 * k) 8); [lia|].
  destruct (Hn 1) as (Hr & d' & Er & Hf); [lia|]. change (8 * 1) with 8 in *. cbn [bk_storage bk_ring]. rewrite Hr. cbn [mbind option_bind].
  replace (flat (take (Z.to_nat 1) (v :: q))) with (value_bytes v) by done.
  rewrite bytes_word_value by (pose proof (fl_words _ _ _ _ H) as HF; by apply Forall_cons in HF as [? _]). cbn [mbind option_bind]. rewrite Er. cbn [mbind option_bind].
  eexists. split; [done|]. split; [|by split]. right. exists a, bs. apply (Hf _). cbn [bk_count]. rewrite u64_id; [lia|word_lia].
Qed.

Lemma pop_ok Q levels x : queue_holds Q levels →
  ∃ Q', bucket_priority_queue_pop (Some Q) (Some x) = Some (match concat (reverse levels) with [] => (false, Some Q', Some x) | v :: _ => (true, Some Q', Some v) end) ∧
    queue_holds Q' (pq_take 1 levels).2 ∧ shapes Q' = shapes Q ∧
    bucket_priority_queue_peek (Some Q) (Some x) = Some (match concat (reverse levels) with [] => (false, Some x) | v :: _ => (true, Some v) end).
Proof.
  intros H. pose proof (pq_take_order 1 levels) as Hord. pose proof (total_bound _ _ H) as Htot.
  unfold bucket_priority_queue_pop, bucket_priority_queue_peek. generalize 8%nat. intros fuel. cbn [pop_loop peek_loop]. rewrite (qh_mask _ _ H).
  destruct (Z.eqb_spec (mask_of levels) 0) as [H0|H0].
  - rewrite (pq_take_none 1 levels (no_level _ H0)) in Hord |- *. destruct (concat (reverse levels)); [|done]. by exists Q.
  - destruct (top_level levels (qh_four _ _ H) H0) as (low & l & high & -> & Hl & Hh & ->). destruct l as [|v l]; [done|].
    rewrite (pq_take_top 1 low (v :: l) high) in Hord |- * by (done || cbn; lia). cbn in Hord. destruct (concat (reverse (low ++ (v :: l) :: high))) as [|v' ?]; [done|].
    cbn in Hord. injection Hord as <-. destruct (level_at _ _ _ _ H) as (bl & b & bh & Eb & Hbl & Hb & Hbh & Eg & Es).
    destruct (Z.ltb_spec (alen low) 0); [unfold alen in *; lia|]. rewrite Eg. cbn [mbind option_bind].
    destruct (bucket_count _ _ Hb) as (Hc & _ & _). rewrite Hc. destruct (Z.eqb_spec (alen (v :: l)) 0); [done|].
    destruct (pop_one_ok b v l x Hb) as (b' & -> & Hb' & Hsh & ->). cbn [mbind option_bind]. rewrite Es. cbn [mbind option_bind negb].
    eexists. split; [done|]. split; [|split; [|done]].
    + cbn [snd drop]. rewrite drop_0. eapply level_set; [done..| |].
      * rewrite total_split in Htot. rewrite (qh_total _ _ H), total_split. assert (alen (v :: l) = 1 + alen l) as Hv by (unfold alen; cbn; lia).
        rewrite Hv in *. pose proof (alen_nonneg (concat low)). pose proof (alen_nonneg (concat high)). pose proof (alen_nonneg l).
        rewrite u64_id; word_lia.
      * destruct (bucket_count _ _ Hb') as (-> & _). rewrite (mask_taken low (v :: l) l high (qh_four _ _ H)) by done. by destruct l.
    + unfold shapes. cbn [bq_buckets]. rewrite Eb, !fmap_app. cbn. by rewrite Hsh.
Qed.

(** ** Batches *)

Lemma batch_loop_ok max_items : ∀ fuel s q,
  bucket_holds (bt_bucket s) q → (length q < fuel)%nat → 0 <= bt_popped s <= max_items → max_items <= SIZE_MAX → max_items <= blen (bt_out s) →
  alen q <= bt_total s <= SIZE_MAX →
  ∃ m b' out', batch_loop fuel max_items s = Some (false, MkBatch b' (bt_total s - Z.of_nat m) (bt_popped s + Z.of_nat m) out') ∧
    m = (length q `min` Z.to_nat (max_items - bt_popped s))%nat ∧
    bucket_holds b' (drop m q) ∧ shape b' = shape (bt_bucket s) ∧ blit (bt_out s) (bt_popped s) (take m q) = Some out'.
Proof.
  induction fuel as [|fuel IH]; intros s q H Hf Hp Hmax Hout Ht; [lia|]. destruct (bucket_count _ _ H) as (Hc & Hq & Hcap). cbn [batch_loop]. rewrite Hc.
  destruct (Z.ltb_spec 0 (alen q)) as [Hq0|Hq0]; cbn [andb]; [destruct (Z.ltb_spec (bt_popped s) max_items) as [Hlt|Hge]|].
  2,3: exists O, (bt_bucket s), (bt_out s); rewrite Z.sub_0_r, Z.add_0_r, drop_0, take_0, blit_nil by lia;
       (split; [by destruct s|]); (split; [unfold alen in *; lia|done]).
  assert (q ≠ []) as Hne by (by intros ->). destruct H as [[_ ?]|(a & bs & H)]; [done|].
  destruct (words_read _ _ _ _ H Hne) as (p & k & d1 & -> & Hk & Hn). cbn [mbind option_bind]. unfold BUCKET_ENTRY_SIZE.
  destruct (Z.ltb_spec (8 * k) 8); [lia|]. rewrite (u64_id (max_items - bt_popped s)) by word_lia. rewrite (Z.mul_comm 8 k), Z.div_mul by lia.
  set (t := if max_items - bt_popped s <? k then max_items - bt_popped s else k).
  assert (t = Z.min k (max_items - bt_popped s)) as Ht' by (subst t; destruct (Z.ltb_spec (max_items - bt_popped s) k); lia).
  clearbody t. destruct (Z.ltb_spec (alen q) t); [lia|]. destruct (Z.eqb_spec t 0); [lia|].
  rewrite (u64_id (t * 8)), (Z.mul_comm t 8) by word_lia. destruct (Hn t) as (-> & d' & -> & Hfill); [lia|]. cbn [mbind option_bind].
  assert (length (take (Z.to_nat t) q) = Z.to_nat t) as Hlt' by (rewrite length_take; unfold alen in *; lia).
  pose proof (bytes_values_flat (take (Z.to_nat t) q)) as Hv. rewrite Hlt' in Hv. rewrite Hv by (apply Forall_take, (fl_words _ _ _ _ H)). cbn [mbind option_bind].
  assert (is_Some (blit (bt_out s) (bt_popped s) (take (Z.to_nat t) q))) as [out1 Eb] by (rewrite blit_in_bounds; [done|lia|unfold blen in *; lia]).
  rewrite Eb. cbn [mbind option_bind]. rewrite !u64_id by (unfold alen in *; word_lia).
  set (s1 := MkBatch _ _ _ _). destruct (IH s1 (drop (Z.to_nat t) q)) as (m & b' & out' & -> & -> & Hb' & Hsh & Eo).
  { right. exists a, bs. by apply Hfill. }
  { rewrite length_drop. unfold alen in *. lia. }
  1-2: cbn; lia.
  { cbn. by rewrite (blit_blen _ _ _ _ Eb). }
  { cbn. unfold alen in *. rewrite length_drop. lia. }
  cbn [s1 bt_total bt_popped bt_out bt_bucket] in *. rewrite length_drop in *. set (m := ((_ - _) `min` _)%nat) in *.
  exists (Z.to_nat t + m)%nat, b', out'. rewrite <-drop_drop. rewrite Nat2Z.inj_add, Z2Nat.id, Z.sub_add_distr, Z.add_assoc by lia. split; [done|]. split; [subst m; unfold alen in *; lia|]. split; [done|].
  split; [by rewrite Hsh|]. rewrite <-take_take_drop, <-blit_blit, Eb by lia. cbn. rewrite <-Eo. f_equal. unfold blen. lia.
Qed.

Lemma batch_full max_items fuel Q out : pop_batch_loop (S fuel) max_items Q max_items out = Some (max_items, Q, out).
Proof. cbn [pop_batch_loop]. by rewrite Z.ltb_irrefl, andb_false_r. Qed.

Definition occupied (levels : list (list Z)) : nat := length (filter (λ l, l ≠ []) levels).

Lemma pop_batch_loop_ok max_items : ∀ fuel Q levels popped out,
  queue_holds Q levels → (occupied levels < fuel)%nat → 0 <= popped <= max_items → max_items <= SIZE_MAX → max_items <= blen out →
  ∃ Q' out' got, pq_take (Z.to_nat (max_items - popped)) levels = (got, (pq_take (Z.to_nat (max_items - popped)) levels).2) ∧
    pop_batch_loop fuel max_items Q popped out = Some (popped + alen got, Q', out') ∧
    queue_holds Q' (pq_take (Z.to_nat (max_items - popped)) levels).2 ∧ shapes Q' = shapes Q ∧ blit out popped got = Some out'.
Proof.
  induction fuel as [|fuel IH]; intros Q levels popped out H Hf Hp Hmax Hout; [lia|]. cbn [pop_batch_loop]. rewrite (qh_mask _ _ H).
  pose proof (total_bound _ _ H) as Htot.
  destruct (Z.eqb_spec (mask_of levels) 0) as [Hm|Hm]; cbn [negb andb].
  { exists Q, out, []. rewrite (pq_take_none _ levels (no_level _ Hm)), Z.add_0_r, blit_nil by lia. done. }
  destruct (Z.ltb_spec popped max_items) as [Hlt|Hge].
  2: { exists Q, out, []. replace (Z.to_nat (max_items - popped)) with O by lia. unfold pq_take. rewrite take_front_0, reverse_involutive, Z.add_0_r, blit_nil by lia. done. }
  destruct (top_level levels (qh_four _ _ H) Hm) as (low & l & high & -> & Hl & Hh & ->).
  destruct (level_at _ _ _ _ H) as (bl & b & bh & Eb & Hbl & Hb & Hbh & Eg & Es).
  destruct (Z.ltb_spec (alen low) 0); [unfold alen in *; lia|]. rewrite Eg. cbn [mbind option_bind].
  destruct (bucket_count _ _ Hb) as (Hc & _ & _). rewrite Hc. destruct (Z.eqb_spec (alen l) 0); [by destruct l|].
  rewrite total_split in Htot. pose proof (alen_nonneg (concat low)). pose proof (alen_nonneg (concat high)).
  destruct (batch_loop_ok max_items (S (Z.to_nat (alen l))) (MkBatch b (bq_total_size Q) popped out) l) as (m & b' & out1 & -> & Em & Hb' & Hsh & Eo);
    cbn [bt_bucket bt_total bt_popped bt_out] in *; try done; [unfold alen; lia|rewrite (qh_total _ _ H), total_split; word_lia|].
  cbn [mbind option_bind]. rewrite Es. cbn [mbind option_bind bt_bucket bt_total bt_popped bt_out].
  destruct (bucket_count _ _ Hb') as (-> & _ & _).
  set (Q1 := MkBQueue _ _ _). assert (queue_holds Q1 (low ++ drop m l :: high)) as HQ1.
  { eapply level_set; [done..| |]; cbn.
    - unfold alen. rewrite length_drop. lia.
    - rewrite (mask_taken low l (drop m l) high (qh_four _ _ H) Hl). by destruct (drop m l). }
  assert (alen (take m l) = Z.of_nat m) as Hlen by (unfold alen; rewrite length_take; lia).
  assert (shapes Q1 = shapes Q) as Hsh1 by (unfold shapes; cbn [bq_buckets Q1]; rewrite Eb, !fmap_app; cbn; by rewrite Hsh).
  pose proof (pq_take_top m low l high Hh ltac:(lia)) as Htop.
  destruct (decide (drop m l = [])) as [Hd|Hd].
  - destruct (IH Q1 (low ++ drop m l :: high) (popped + Z.of_nat m) out1 HQ1) as (Q' & out' & got & Et & -> & HQ' & Hs' & Eo');
      [|lia|done|by rewrite (blit_blen _ _ _ _ Eo)|].
    { rewrite Hd. unfold occupied in *. rewrite !filter_app, !length_app in *. rewrite filter_cons_True in Hf by done.
      rewrite filter_cons_False by tauto. cbn in Hf. lia. }
    assert (pq_take (Z.to_nat (max_items - popped)) (low ++ l :: high) = (take m l ++ got, (pq_take (Z.to_nat (max_items - (popped + Z.of_nat m))) (low ++ drop m l :: high)).2)) as ET.
    { replace (Z.to_nat (max_items - popped)) with (m + Z.to_nat (max_items - (popped + Z.of_nat m)))%nat by lia. by rewrite pq_take_add, Htop, Et. }
    exists Q', out', (take m l ++ got). rewrite ET. cbn [snd]. split; [done|]. split; [by rewrite alen_app, Hlen, Z.add_assoc|]. split; [done|]. split; [congruence|].
    rewrite <-blit_blit, Eo by lia. cbn. rewrite <-Eo'. f_equal. unfold blen, alen in *. lia.
  - assert (m = Z.to_nat (max_items - popped)) as Emax.
    { destruct (decide (length l <= Z.to_nat (max_items - popped))%nat); [|lia]. destruct Hd. apply drop_ge. lia. }
    assert (popped + Z.of_nat m = max_items) as -> by lia. destruct fuel as [|fuel].
    { exfalso. unfold occupied in Hf. rewrite filter_app, length_app, filter_cons_True in Hf by done. cbn in Hf. lia. }
    rewrite batch_full. exists Q1, out1, (take m l). rewrite <-Emax, Htop. cbn [snd]. split; [done|]. split; [by replace (popped + alen (take m l)) with max_items by lia|]. done.
Qed.

(** ** The operations that allocate, and clearing *)

Lemma blocks_cons b bs : blocks_of (b :: bs) = bucket_blocks b + blocks_of bs.
Proof. done. Qed.
Lemma blocks_app bs1 bs2 : blocks_of (bs1 ++ bs2) = blocks_of bs1 + blocks_of bs2.
Proof. induction bs1 as [|b bs1 IH]; cbn [app]; [done|]. rewrite !blocks_cons. lia. Qed.
Lemma shapes_blocks bs bs' : shape <$> bs' = shape <$> bs → blocks_of bs' = blocks_of bs.
Proof.
  revert bs. induction bs' as [|b' bs' IH]; intros [|b bs] E; try done. rewrite !fmap_cons in E. injection E as E1 E2 E3 E4.
  rewrite !blocks_cons, (IH bs E4). unfold bucket_blocks. by rewrite E1.
Qed.
Lemma shapes_capacities Q Q' : shapes Q' = shapes Q → capacities Q' = capacities Q.
Proof.
  unfold shapes, capacities. intros E. change bk_capacity_entries with (snd ∘ shape). rewrite !list_fmap_compose. by rewrite E.
Qed.

Lemma reserve_each_ok n : is_u64 n → ∀ bs ls w, Forall2 bucket_holds bs ls →
  ∃ ok bs' w', reserve_each bs n w = Some ((ok, bs'), w') ∧ Forall2 bucket_holds bs' ls ∧
    Forall2 (λ b b', bk_capacity_entries b <= bk_capacity_entries b') bs bs' ∧ (ok = true → Forall (λ b, n <= bk_capacity_entries b) bs') ∧
    w_blocks w' - blocks_of bs' = w_blocks w - blocks_of bs ∧ w_objects w' = w_objects w ∧ (bucket_fits n (length bs) w → ok = true).
Proof.
  intros Hn bs ls w H. revert w. induction H as [|b l bs ls Hb Hbs IH]; intros w; cbn [reserve_each].
  { exists true, [], w. do 4 (split; [done|]). done. }
  destruct (bucket_reserve_ok b l n w Hb Hn) as (ok & b' & w1 & E & [R1 R2 R3 _ _ R5 R6]). wstep E. destruct ok; cbn [negb].
  - destruct (IH w1) as (ok & bs' & w2 & E2 & H1 & H2 & H3 & H4 & H5 & H6). wstep E2. exists ok, (b' :: bs'), w2. split; [done|].
    split; [by constructor|]. split; [by constructor; [lia|]|]. split; [intros Hok; constructor; [by apply R3|by apply H3]|].
    rewrite !blocks_cons. split; [lia|]. split; [lia|]. intros [Hf1 Hf2]. apply H6. destruct (R6 (length bs)); done.
  - exists false, (b' :: bs), w1. split; [done|]. split; [by constructor|]. rewrite (R2 eq_refl) in *. split; [constructor; [lia|]|].
    { clear. induction bs; constructor; [lia|done]. }
    split; [done|]. rewrite !blocks_cons. split; [lia|]. split; [lia|]. intros Hf. by destruct (R6 _ Hf).
Qed.

Lemma clear_bucket_ok b q : bucket_holds b q → ∃ b', clear_bucket b = Some b' ∧ bucket_holds b' [] ∧ shape b' = shape b.
Proof.
  intros [[-> ->]|(a & bs & [Hst Hr Ha Hc Hb Hs Hn Hw])]; [exists zero_bucket; split; [done|]; split; [by left|done]|].
  unfold clear_bucket. rewrite Hst. destruct (Z.ltb_spec 0 (bk_storage_bytes b)); [|lia].
  destruct (ring_init_ok (Some (bk_ring b)) a (bk_storage_bytes b) bs) as (d & E & Hd & Hsz); [done|word_lia|by rewrite (rh_length _ _ _ _ Hr)|].
  rewrite E. eexists. split; [done|]. split; [|by unfold shape; rewrite Hst]. right. exists a, bs.
  unfold ring_init in E. cbn in E. destruct (Z.eqb_spec (bk_storage_bytes b) 0); [lia|]. injection E as <-.
  split; cbn; try done. split; cbn; try done. rewrite Hb. word_lia.
Qed.
Lemma clear_all_ok bs ls : Forall2 bucket_holds bs ls →
  ∃ bs', mapM clear_bucket bs = Some bs' ∧ Forall2 bucket_holds bs' (replicate (length ls) []) ∧ shape <$> bs' = shape <$> bs.
Proof.
  induction 1 as [|b l bs ls Hb _ (bs' & E & H1 & H2)]; [by exists []|]. destruct (clear_bucket_ok b l Hb) as (b' & E' & Hb' & Hs).
  exists (b' :: bs'). cbn [mapM]. rewrite E'. cbn [mbind option_bind]. rewrite E. split; [done|]. split; [by constructor|]. rewrite !fmap_cons. by f_equal.
Qed.

Lemma queue_clear_ok Q levels : queue_holds Q levels →
  ∃ Q', bucket_priority_queue_clear (Some Q) = Some (Some Q') ∧ queue_holds Q' (replicate 4 []) ∧ shapes Q' = shapes Q.
Proof.
  intros H. destruct (clear_all_ok _ _ (qh_buckets _ _ H)) as (bs' & E & H1 & H2). rewrite (qh_four _ _ H) in H1.
  unfold bucket_priority_queue_clear. rewrite E. eexists. split; [done|]. by split.
Qed.

(** A valid priority names a level. *)
Lemma level_split p (levels : list (list Z)) : length levels = 4%nat → bucket_priority_valid p = true →
  ∃ low l high, levels = low ++ l :: high ∧ p = alen low ∧ levels !! Z.to_nat p = Some l.
Proof.
  intros H4 Hp. unfold bucket_priority_valid, BUCKET_PRIORITY_LOW, BUCKET_PRIORITY_COUNT in Hp.
  apply andb_true_iff in Hp as [?%Z.leb_le ?%Z.ltb_lt]. destruct (lookup_lt_is_Some_2 levels (Z.to_nat p)) as [l Hl]; [lia|].
  exists (take (Z.to_nat p) levels), l, (drop (S (Z.to_nat p)) levels). split; [symmetry; by apply take_drop_middle|]. split; [|done].
  unfold alen. rewrite length_take. lia.
Qed.

Lemma push_ok Q low l high v w : queue_holds Q (low ++ l :: high) → is_u64 v → bucket_priority_valid (alen low) = true →
  ∃ ok Q' w', bucket_priority_queue_push (Some Q) (alen low) v w = Some ((ok, Some Q'), w') ∧
    queue_holds Q' (low ++ (if ok : bool then l ++ [v] else l) :: high) ∧ Forall2 Z.le (capacities Q) (capacities Q') ∧
    w_blocks w' - queue_blocks Q' = w_blocks w - queue_blocks Q ∧ w_objects w' = w_objects w ∧
    (∀ c, capacities Q !! length low = Some c → bucket_fits (c + 1) 1 w → ok = true).
Proof.
  intros H Hv Hp. unfold bucket_priority_queue_push. rewrite Hp. cbn [negb].
  destruct (level_at _ _ _ _ H) as (bl & b & bh & Eb & Hbl & Hb & Hbh & Eg & Es). rewrite Eg. wrun.
  pose proof (total_bound _ _ H) as Htot. rewrite <-(qh_total _ _ H) in Htot. pose proof (alen_nonneg (concat (low ++ l :: high))) as Ht0. rewrite <-(qh_total _ _ H) in Ht0.
  destruct (bucket_count _ _ Hb) as (Hc & Hl & Hcap). destruct (push_room_ok b l w Hb) as (p & b' & w' & E & R). wstep E.
  assert (∀ c, capacities Q !! length low = Some c → c = bk_capacity_entries b) as Hcb.
  { intros c. unfold capacities. rewrite Eb, list_lookup_fmap, <-(Forall2_length _ _ _ Hbl), list_lookup_middle by done. by intros [= <-]. }
  assert (∀ b2, bk_capacity_entries b <= bk_capacity_entries b2 → Forall2 Z.le (capacities Q) (bk_capacity_entries <$> bl ++ b2 :: bh)) as Hcaps.
  { intros b2 Hb2. unfold capacities. rewrite Eb, !fmap_app. apply Forall2_app; [by apply Forall_Forall2_diag, Forall_true|].
    rewrite !fmap_cons. constructor; [done|]. by apply Forall_Forall2_diag, Forall_true. }
  assert (queue_blocks Q = blocks_of (bl ++ b :: bh)) as -> by (unfold queue_blocks; by rewrite Eb). unfold queue_blocks. destruct R as [Rf Rt Rc Rb Rs]. destruct p as [p|].
  - destruct (Rt _ eq_refl) as [Hcnt Htk]. destruct (Htk v Hv) as (storage & ring & -> & -> & Hnull & Hb2). wrun. rewrite Es. wrun. rewrite Hcnt, !u64_id by (unfold alen in *; word_lia).
    eexists true, _, w'. split; [done|]. split; [|split; [by apply Hcaps|]].
    + eapply level_set; [done|done|exact Hb2|done| |].
      * rewrite alen_app. unfold alen. cbn. lia.
      * rewrite mask_pushed, (qh_mask _ _ H), Hc by apply (qh_four _ _ H). by destruct l.
    + cbn [bq_buckets]. rewrite !blocks_app, !blocks_cons. unfold bucket_blocks at 1. cbn [bk_storage]. rewrite Hnull.
      change (if is_null (bk_storage b') then 0 else 1) with (bucket_blocks b'). split; [lia|]. split; [lia|done].
  - rewrite (Rf eq_refl) in *. rewrite Es. wrun. eexists false, _, w'. split; [done|]. split; [|split; [by apply Hcaps|]].
    + eapply level_set; [done..| |apply (qh_mask _ _ H)]. lia.
    + cbn [bq_buckets]. rewrite !blocks_app, !blocks_cons. split; [lia|]. split; [lia|].
      intros c Hc' Hf. rewrite (Hcb _ Hc') in Hf. by destruct (Rs Hf).
Qed.

(** ** Refinement *)

Inductive bq_op :=
  | BPush (priority value : Z)
  | BPop
  | BPeek
  | BBatch (max_items : Z)
  | BClear
  | BReserve (capacity_per_bucket : Z).

(** An operation: whether it succeeds, the values it hands out, the queue. *)
Definition bq_exec (op : bq_op) (Q : option bucket_priority_queue_t) : M (bool * list Z * option bucket_priority_queue_t) :=
  match op with
  | BPush p v => '(ok, Q) ← bucket_priority_queue_push Q p v; mret (ok, [], Q)
  | BPop => '(ok, Q, out) ← lift (bucket_priority_queue_pop Q (Some 0)); mret (ok, if ok : bool then option_list out else [], Q)
  | BPeek => '(ok, out) ← lift (bucket_priority_queue_peek Q (Some 0)); mret (ok, if ok : bool then option_list out else [], Q)
  | BBatch n => '(popped, Q, out) ← lift (bucket_priority_queue_pop_batch Q n (Some (zeros n))); mret (true, take (Z.to_nat popped) (default [] out), Q)
  | BClear => Q ← lift (bucket_priority_queue_clear Q); mret (true, [], Q)
  | BReserve n => '(ok, Q) ← bucket_priority_queue_reserve Q n; mret (ok, [], Q)
  end.

(** The same on four lists, when the operation answers [ok]. *)
Definition bq_spec (op : bq_op) (ok : bool) (levels : list (list Z)) : list Z * list (list Z) :=
  match op with
  | BPush p v => ([], if ok then alter (λ l, l ++ [v]) (Z.to_nat p) levels else levels)
  | BPop => pq_take 1 levels
  | BPeek => (take 1 (concat (reverse levels)), levels)
  | BBatch n => pq_take (Z.to_nat n) levels
  | BClear => ([], replicate 4 [])
  | BReserve _ => ([], levels)
  end.
Definition bq_answer (op : bq_op) (levels : list (list Z)) (ok : bool) : Prop :=
  match op with
  | BPush p _ => ok = true → bucket_priority_valid p = true
  | BPop | BPeek => ok = negb (emptyb (concat levels))
  | BBatch _ | BClear => ok = true
  | BReserve _ => True
  end.
(** Enough memory for an operation that allocates. *)
Definition bq_fits (Q : bucket_priority_queue_t) (op : bq_op) (w : world) : Prop :=
  match op with
  | BPush p _ => ∃ c, bucket_priority_valid p = true ∧ capacities Q !! Z.to_nat p = Some c ∧ bucket_fits (c + 1) 1 w
  | BReserve n => bucket_fits n 4 w
  | _ => False
  end.
Definition bq_words (op : bq_op) : Prop := match op with BPush _ v => is_u64 v | BBatch n | BReserve n => is_u64 n | _ => True end.

(** What the readers show. *)
Definition bq_reads (Q : bucket_priority_queue_t) (levels : list (list Z)) : Prop :=
  bucket_priority_queue_size (Some Q) = alen (concat levels) ∧ bucket_priority_queue_empty (Some Q) = emptyb (concat levels) ∧
  ∀ p, bucket_priority_queue_size_at (Some Q) p = Some (if bucket_priority_valid p then alen (default [] (levels !! Z.to_nat p)) else 0) ∧
    bucket_priority_queue_capacity_at (Some Q) p = Some (if bucket_priority_valid p then default 0 (capacities Q !! Z.to_nat p) else 0).

Record bq_post (Q : bucket_priority_queue_t) (levels : list (list Z)) (op : bq_op) (w : world) (ok : bool) (out : list Z) (Q' : bucket_priority_queue_t) (w' : world) : Prop := {
  bp_holds : queue_holds Q' (bq_spec op ok levels).2;
  bp_out : out = (bq_spec op ok levels).1;
  bp_answer : bq_answer op levels ok;
  bp_fits : bq_fits Q op w → ok = true;
  bp_capacities : Forall2 Z.le (capacities Q) (capacities Q');
  bp_reserved : ∀ n, op = BReserve n → ok = true → Forall (λ c, n <= c) (capacities Q');
  bp_reads : bq_reads Q' (bq_spec op ok levels).2;
  bp_blocks : w_blocks w' - queue_blocks Q' = w_blocks w - queue_blocks Q ∧ w_objects w' = w_objects w
}.

Lemma bq_reads_ok Q levels : queue_holds Q levels → bq_reads Q levels.
Proof.
  intros H. unfold bq_reads. cbn. rewrite (qh_total _ _ H). split; [done|]. split.
  { unfold alen. by destruct (concat levels). }
  intros p. destruct (bucket_priority_valid p) eqn:Hp; cbn [negb]; [|done].
  destruct (level_split p levels (qh_four _ _ H) Hp) as (low & l & high & -> & -> & Hl). rewrite Hl. cbn [default].
  destruct (level_at _ _ _ _ H) as (bl & b & bh & Eb & Hbl & Hb & Hbh & Eg & _). rewrite Eg. cbn [mbind option_bind].
  destruct (bucket_count _ _ Hb) as (-> & _). split; [done|]. unfold capacities. rewrite Eb, list_lookup_fmap. unfold alen.
  by rewrite Nat2Z.id, <-(Forall2_length _ _ _ Hbl), list_lookup_middle.
Qed.

Lemma le_refl_all (l : list Z) : Forall2 Z.le l l.
Proof. by apply Forall_Forall2_diag, Forall_true. Qed.

(** An operation that does not allocate. *)
Lemma kept_post Q levels op w ok out Q' : queue_holds Q' (bq_spec op ok levels).2 → out = (bq_spec op ok levels).1 → bq_answer op levels ok →
  (bq_fits Q op w → False) → shapes Q' = shapes Q → (∀ n, op ≠ BReserve n) → bq_post Q levels op w ok out Q' w.
Proof.
  intros H1 H2 H3 H4 H5 H6. split; try done.
  - rewrite (shapes_capacities _ _ H5). apply le_refl_all.
  - by intros n ?%H6.
  - by apply bq_reads_ok.
  - unfold queue_blocks. rewrite (shapes_blocks _ _ H5). done.
Qed.

Lemma order_empty (levels : list (list Z)) : emptyb (concat (reverse levels)) = emptyb (concat levels).
Proof.
  assert (∀ ls, emptyb (concat ls) = bool_decide (Forall (λ l, l = []) ls)) as He.
  { induction ls as [|l ls IH]; [done|]. cbn. destruct l as [|x l]; cbn.
    - rewrite IH. apply bool_decide_ext. rewrite Forall_cons. tauto.
    - done. }
  rewrite !He. apply bool_decide_ext. split; intros H%Forall_reverse; [by rewrite reverse_involutive in H|done].
Qed.

Lemma occupied_bound levels : length levels = 4%nat → (occupied levels < 9)%nat.
Proof. intros H. unfold occupied. pose proof (length_filter (λ l, l ≠ []) levels). lia. Qed.

Lemma batch_post Q levels n w : queue_holds Q levels → is_u64 n →
  ∃ out Q', bq_exec (BBatch n) (Some Q) w = Some ((true, out, Some Q'), w) ∧ bq_post Q levels (BBatch n) w true out Q' w.
Proof.
  intros H Hn. unfold bq_exec, bucket_priority_queue_pop_batch. destruct (Z.eqb_spec n 0) as [->|Hn0].
  { exists [], Q. split; [done|]. assert (pq_take 0 levels = ([], levels)) as E by (unfold pq_take; by rewrite take_front_0, reverse_involutive).
    apply kept_post; try done; unfold bq_spec; change (Z.to_nat 0) with O; by rewrite E. }
  assert (blen (zeros n) = n) as Hz by (unfold blen, zeros; rewrite length_replicate; word_lia).
  destruct (pop_batch_loop_ok n 9 Q levels 0 (zeros n) H) as (Q' & out & got & E1 & -> & HQ & Hs & Eb); [by apply occupied_bound, (qh_four _ _ H)|word_lia..|].
  rewrite Z.sub_0_r, Z.add_0_l in *. cbn [mbind option_bind]. wrun. cbn [default].
  apply blit_Some in Eb as (_ & _ & ->). exists got, Q'. unfold alen. rewrite Nat2Z.id. change (take (Z.to_nat 0) (zeros n)) with (@nil Z).
  unfold id. rewrite app_nil_l, take_app_length. split; [done|].
  apply kept_post; try done. unfold bq_spec. by rewrite E1.
Qed.

(** C26. Every operation of the bucket priority queue does to four first-in-first-out lists what
    it says: pushing appends to the list of its priority, popping and peeking take from the
    highest list that is not empty, a batch takes as many as asked in that order across the
    lists, clearing empties them, reserving only grows capacities. Pushing and reserving fail
    without memory only, and then the lists are unchanged; the sizes are those of the lists after
    every operation; the words come out as they went in; no access leaves its storage, no assertion fails and no block leaks. *)
Theorem bucket_queue_refines Q levels op w : queue_holds Q levels → bq_words op →
  ∃ ok out Q' w', bq_exec op (Some Q) w = Some ((ok, out, Some Q'), w') ∧ bq_post Q levels op w ok out Q' w'.
Proof.
  intros H Hw. pose proof (order_empty levels) as He. symmetry in He. destruct op as [p v| | |n| |n].
  - unfold bq_exec. destruct (bucket_priority_valid p) eqn:Hp.
    + destruct (level_split p levels (qh_four _ _ H) Hp) as (low & l & high & -> & -> & _).
      destruct (push_ok Q low l high v w H Hw Hp) as (ok & Q' & w' & E & H1 & H2 & H3 & H4 & H5). wstep E. eexists ok, _, Q', w'. split; [done|].
      assert ((bq_spec (BPush (alen low) v) ok (low ++ l :: high)).2 = low ++ (if ok then l ++ [v] else l) :: high) as ES.
      { cbn. destruct ok; [|done]. unfold alen. rewrite Nat2Z.id, alter_app_r_alt, Nat.sub_diag by done. done. }
      split; rewrite ?ES; try done.
      * by intros _.
      * intros (c & _ & Hc & Hf). unfold alen in Hc. rewrite Nat2Z.id in Hc. by eapply H5.
      * by apply bq_reads_ok.
    + unfold bucket_priority_queue_push. rewrite Hp. cbn [negb]. wrun. eexists false, [], Q, w. split; [done|]. apply kept_post; try done.
      intros (c & ? & _). congruence.
  - unfold bq_exec. destruct (pop_ok Q levels 0 H) as (Q' & -> & H1 & H2 & _). pose proof (pq_take_order 1 levels) as Ho.
    destruct (concat (reverse levels)) as [|v rest] eqn:Ec; cbn [emptyb] in He; wrun; (eexists _, _, Q', w; split; [done|]); apply kept_post; try done;
      unfold bq_spec, bq_answer; by rewrite ?Ho, ?He.
  - unfold bq_exec. destruct (pop_ok Q levels 0 H) as (_ & _ & _ & _ & ->).
    destruct (concat (reverse levels)) as [|v rest] eqn:Ec; cbn [emptyb] in He; wrun; (eexists _, _, Q, w; split; [done|]); apply kept_post; try done;
      unfold bq_spec, bq_answer; by rewrite ?Ec, ?He.
  - destruct (batch_post Q levels n w H Hw) as (out & Q' & E & HP). by exists true, out, Q', w.
  - unfold bq_exec. destruct (queue_clear_ok Q levels H) as (Q' & -> & H1 & H2). wrun. exists true, [], Q', w. split; [done|]. by apply kept_post.
  - unfold bq_exec, bucket_priority_queue_reserve. destruct (reserve_each_ok n Hw _ _ w (qh_buckets _ _ H)) as (ok & bs' & w' & E & H1 & H2 & H3 & H4 & H5 & H6).
    erewrite run_bind; [|by wstep E]. wrun. eexists ok, [], _, w'. split; [done|].
    assert (queue_holds (MkBQueue bs' (bq_total_size Q) (bq_non_empty_mask Q)) levels) as HQ by (destruct H; by split).
    split; try done.
    + cbn. intros Hf. apply H6. by rewrite (Forall2_length _ _ _ (qh_buckets _ _ H)), (qh_four _ _ H).
    + by apply Forall2_fmap.
    + intros ? [= <-] Hok. by apply Forall_fmap, H3.
    + by apply bq_reads_ok.
Qed.

(** ** Creation and destruction *)

Lemma destroy_each_ok bs : ∀ w,
  ∃ w', destroy_each bs w = Some (replicate (length bs) zero_bucket, w') ∧ w_blocks w' = w_blocks w - blocks_of bs ∧ w_objects w' = w_objects w.
Proof.
  induction bs as [|b bs IH]; intros w; cbn [destroy_each]; [exists w; split; [done|]; split; [cbn; lia|done]|].
  assert (∃ w1, free_block (bk_storage b) w = Some (tt, w1) ∧ w_blocks w1 = w_blocks w - bucket_blocks b ∧ w_objects w1 = w_objects w) as (w1 & E & Hb & Ho).
  { unfold free_block, bucket_blocks. destruct (is_null (bk_storage b)); eexists; (split; [done|]); cbn; split; try done; lia. }
  wstep E. destruct (IH w1) as (w2 & E2 & Hb2 & Ho2). wstep E2. exists w2. split; [done|]. rewrite blocks_cons. split; lia.
Qed.

Definition empty_bqueue : bucket_priority_queue_t := MkBQueue (replicate 4 zero_bucket) 0 0.
Lemma empty_bqueue_ok : queue_holds empty_bqueue (replicate 4 []).
Proof. split; try done. cbn. repeat constructor; by left. Qed.

(** Creating a queue gives four empty lists with the capacity asked for, or the
    zeroed structure and all memory back; destroying gives the zeroed structure
    and all memory back. *)
Theorem bucket_queue_life Q n w : is_u64 n →
  (∃ ok Q' w', bucket_priority_queue_init (Some Q) n w = Some ((ok, Some Q'), w') ∧ queue_holds Q' (replicate 4 []) ∧ w_blocks w' = w_blocks w + queue_blocks Q' ∧
     w_objects w' = w_objects w ∧ (if ok then Forall (λ c, n <= c) (capacities Q') else Q' = empty_bqueue) ∧ (bucket_fits n 4 w → ok = true)) ∧
  (∀ levels, queue_holds Q levels → ∃ w', bucket_priority_queue_destroy (Some Q) w = Some (Some empty_bqueue, w') ∧
     w_blocks w' = w_blocks w - queue_blocks Q ∧ w_objects w' = w_objects w).
Proof.
  intros Hn. assert (Hdestroy : ∀ bs t m w, length bs = 4%nat → ∃ w', bucket_priority_queue_destroy (Some (MkBQueue bs t m)) w = Some (Some empty_bqueue, w') ∧
    w_blocks w' = w_blocks w - blocks_of bs ∧ w_objects w' = w_objects w).
  { intros bs t m w1 Hl. destruct (destroy_each_ok bs w1) as (w2 & E & H). unfold bucket_priority_queue_destroy. cbn [bq_buckets]. wstep E. rewrite Hl. by exists w2. }
  split.
  - unfold bucket_priority_queue_init. destruct (Z.eqb_spec n 0) as [->|Hn0].
    { exists true, empty_bqueue, w. split; [done|]. split; [apply empty_bqueue_ok|]. split; [cbn; lia|]. split; [done|]. split; [|done]. by repeat constructor. }
    destruct (reserve_each_ok n Hn _ _ w (qh_buckets _ _ empty_bqueue_ok)) as (ok & bs & w1 & E & H1 & H2 & H3 & H4 & H5 & H6).
    change (replicate (Z.to_nat BUCKET_PRIORITY_COUNT) zero_bucket) with (bq_buckets empty_bqueue). wstep E.
    change (blocks_of (bq_buckets empty_bqueue)) with 0 in H4. destruct ok; cbn [negb].
    + eexists true, _, w1. split; [done|]. split; [by split|]. unfold queue_blocks. cbn [bq_buckets]. split; [lia|]. split; [done|]. split; [|done].
      by apply Forall_fmap, H3.
    + destruct (Hdestroy bs 0 0 w1) as (w2 & E2 & H7 & H8); [by rewrite (Forall2_length _ _ _ H1)|]. wstep E2.
      exists false, empty_bqueue, w2. split; [done|]. split; [apply empty_bqueue_ok|]. change (queue_blocks empty_bqueue) with 0.
      split; [lia|]. split; [lia|]. split; [done|exact H6].
  - intros levels H. destruct Q as [bs t m]. apply Hdestroy. pose proof (Forall2_length _ _ _ (qh_buckets _ _ H)) as Hl. by rewrite (qh_four _ _ H) in Hl.
Qed.

Definition memory (n : nat) : world := MkWorld (replicate n (Some 4096)) 0 0.

(** Words pushed one by one. *)
Fixpoint push_all (pushes : list (Z * Z)) (Q : option bucket_priority_queue_t) : M (option bucket_priority_queue_t) :=
  match pushes with [] => mret Q | (p, v) :: rest => '(_, Q) ← bucket_priority_queue_push Q p v; push_all rest Q end.
Definition three_words : option bucket_priority_queue_t :=
  Q ← push_all [(1, 11); (3, 33); (1, 12)] (Some empty_bqueue) (memory 2); Q.1.

Lemma push_all_holds pushes : ∀ Q levels w, queue_holds Q levels → Forall (λ pv, is_u64 pv.2) pushes →
  ∃ Q' levels' w', push_all pushes (Some Q) w = Some (Some Q', w') ∧ queue_holds Q' levels'.
Proof.
  induction pushes as [|[p v] rest IH]; intros Q levels w H Hp; cbn [push_all]; [by exists Q, levels, w|].
  apply Forall_cons in Hp as [Hv Hp]. destruct (bucket_priority_valid p) eqn:Hval.
  - destruct (level_split p levels (qh_four _ _ H) Hval) as (low & l & high & -> & -> & _).
    destruct (push_ok Q low l high v w H Hv Hval) as (ok & Q' & w' & E & H1 & _). wstep E. by eapply IH.
  - unfold bucket_priority_queue_push. rewrite Hval. cbn [negb]. wrun. by eapply IH.
Qed.

Lemma three_words_holds : ∃ Q levels, three_words = Some Q ∧ queue_holds Q levels.
Proof.
  destruct (push_all_holds [(1, 11); (3, 33); (1, 12)] empty_bqueue (replicate 4 []) (memory 2) empty_bqueue_ok) as (Q & levels & w & E & H); [by_eval|].
  exists Q, levels. split; [|done]. unfold three_words. rewrite E. reflexivity.
Qed.
Lemma three_words_size : three_words ≫= (λ Q, Some (bucket_priority_queue_size (Some Q))) = Some 3.
Proof. by_eval. Qed.
Definition batch_of (Q : bucket_priority_queue_t) : option (bool * list Z) := r ← bq_exec (BBatch 2) (Some Q) (memory 0); Some r.1.1.
Lemma three_words_batch : three_words ≫= batch_of = Some (true, [33; 11]).
Proof. vm_compute. reflexivity. Qed.
Lemma bind_at {A B} (o : option A) (f : A → option B) x y : o = Some x → o ≫= f = Some y → f x = Some y.
Proof. by intros ->. Qed.
Lemma batch_of_out Q ok out Q' w' : bq_exec (BBatch 2) (Some Q) (memory 0) = Some ((ok, out, Some Q'), w') → batch_of Q = Some (ok, out).
Proof. unfold batch_of. intros E. rewrite E. reflexivity. Qed.

Lemma bucket_queue_refines_witness :
  ∃ Q levels, three_words = Some Q ∧ queue_holds Q levels ∧ bucket_priority_queue_size (Some Q) = 3 ∧
    ∃ ok out Q' w', bq_exec (BBatch 2) (Some Q) (memory 0) = Some ((ok, out, Some Q'), w') ∧ out = [33; 11] ∧ bq_post Q levels (BBatch 2) (memory 0) ok out Q' w'.
Proof.
  destruct three_words_holds as (Q & levels & HQ & H). exists Q, levels. split; [exact HQ|]. split; [exact H|].
  split; [pose proof (bind_at _ _ _ _ HQ three_words_size) as Hs; by injection Hs|]. pose proof (bind_at _ _ _ _ HQ three_words_batch) as Hb.
  destruct (bucket_queue_refines Q levels (BBatch 2) (memory 0) H ltac:(done)) as (ok & out & Q' & w' & Eo & HP).
  exists ok, out, Q', w'. split; [exact Eo|]. split; [|exact HP]. apply batch_of_out in Eo. congruence.
Defined.

(** A bucket with room for sixteen entries holds fifteen after a pop at the
    front, and cannot take the next without new memory: the two free pieces, one
    at each end, are not one. *)
Lemma reserved_push_fails :
  ∃ Q Q', (Q ← push_all ((λ v, (0, v)) <$> seqZ 1 16) (Some empty_bqueue) (memory 1); '(_, Q, _) ← bucket_priority_queue_pop Q.1 (Some 0); Q) = Some Q ∧
    bucket_priority_queue_size_at (Some Q) 0 = Some 15 ∧ bucket_priority_queue_capacity_at (Some Q) 0 = Some 16 ∧
    bucket_priority_queue_push (Some Q) 0 17 (memory 0) = Some ((false, Some Q'), memory 0).
Proof. eexists _, _. do 3 (split; [vm_compute; reflexivity|]). vm_compute. reflexivity. Qed.
