(* ===== verification/Utf8.v ===== *)
(** * UTF-8 in string views ([utils/src/salts_vstr.c])

    Strict decoding of one code point and the functions on views that walk
    over code points: validation, counting, offsets, slices, iteration and
    searching, with the scan for plain characters sixteen bytes at a time. *)

From S2P Require Import Prelude.
Local Open Scope Z_scope.

(** ** Views *)

(** A pointer into a buffer: its address and the bytes from there on. *)
Notation pointer := (Z * list Z)%type.
Definition padd (p : pointer) (k : Z) : option pointer :=
  if bool_decide (0 <= k <= blen p.2) then Some (p.1 + k, drop (Z.to_nat k) p.2) else None.

Record vstr := MkVstr { vs_data : option pointer; vs_len : Z }.

Definition VSTR_NPOS : Z := SIZE_MAX.

Definition vstr_from_buf (s : option pointer) (n : Z) : vstr := MkVstr s (if is_null s then 0 else n).
Definition vstr_is_valid (v : vstr) : bool := negb (is_null (vs_data v)) || (vs_len v =? 0).

(** ** Plain characters *)

(** The mask of the highest bits of sixteen bytes, which the portable vector
    library computes: bit [k] is the highest bit of byte [k]. *)
Class Simd := {
  simde_mm_movemask_epi8 : list Z → Z;
  movemask_law bs : length bs = 16%nat → bytes_ok bs → simde_mm_movemask_epi8 bs = foldr (λ b m, b / 128 + 2 * m) 0 bs
}.
#[export] Instance simd_reference : Simd := {
  simde_mm_movemask_epi8 bs := foldr (λ b m, b / 128 + 2 * m) 0 bs;
  movemask_law bs _ _ := eq_refl
}.

Section Views.
Context {SI : Simd}.

(** [while (offset < len && data[offset] < 0x80) ++offset] *)
Fixpoint ascii_run (fuel : nat) (data : pointer) (offset len : Z) : option Z :=
  match fuel with
  | O => None
  | S fuel =>
      if offset <? len then
        c ← load data.2 offset;
        if c <? 128 then ascii_run fuel data (offset + 1) len else Some offset
      else Some offset
  end.

Definition tstr_utf8_ascii_prefix_scalar (data : pointer) (len : Z) : option Z :=
  ascii_run (S (Z.to_nat len)) data 0 len.

(** [while ((non_ascii & 1) == 0)]: at most sixteen bits are clear. *)
Fixpoint skip_clear_bits (fuel : nat) (offset non_ascii : Z) : option Z :=
  match fuel with
  | O => None
  | S fuel => if Z.land non_ascii 1 =? 0 then skip_clear_bits fuel (offset + 1) (Z.shiftr non_ascii 1) else Some offset
  end.

Fixpoint ascii_blocks (fuel : nat) (data : pointer) (offset len : Z) : option Z :=
  match fuel with
  | O => None
  | S fuel =>
      if 16 <=? u64 (len - offset) then
        bytes ← slice data.2 offset 16;
        let non_ascii := simde_mm_movemask_epi8 bytes in
        if non_ascii =? 0 then ascii_blocks fuel data (offset + 16) len
        else skip_clear_bits 17 offset non_ascii
      else
        rest ← padd data offset;
        n ← tstr_utf8_ascii_prefix_scalar rest (u64 (len - offset));
        Some (offset + n)
  end.

Definition tstr_utf8_ascii_prefix_simde (data : pointer) (len : Z) : option Z :=
  let first_block := if len <? 16 then len else 16 in
  offset ← ascii_run (S (Z.to_nat first_block)) data 0 first_block;
  if offset <? first_block then Some offset else
  ascii_blocks (S (Z.to_nat len)) data offset len.

(** ** One code point *)

Definition tstr_utf8_is_cont (c : Z) : bool := Z.land c 192 =? 128.

(** Three and four bytes, with what is asked of the second byte. *)
Definition decode_three (s : list Z) (len s0 : Z) (second : Z → bool) : option (option (Z * Z)) :=
  if len <? 3 then Some None else
  s1 ← load s 1;
  if negb (second s1) then Some None else
  s2 ← load s 2;
  if negb (tstr_utf8_is_cont s2) then Some None else
  Some (Some (Z.lor (Z.lor (Z.shiftl (Z.land s0 15) 12) (Z.shiftl (Z.land s1 63) 6)) (Z.land s2 63), 3)).
Definition decode_four (s : list Z) (len s0 : Z) (second : Z → bool) : option (option (Z * Z)) :=
  if len <? 4 then Some None else
  s1 ← load s 1;
  if negb (second s1) then Some None else
  s2 ← load s 2;
  if negb (tstr_utf8_is_cont s2) then Some None else
  s3 ← load s 3;
  if negb (tstr_utf8_is_cont s3) then Some None else
  Some (Some (Z.lor (Z.lor (Z.lor (Z.shiftl (Z.land s0 7) 18) (Z.shiftl (Z.land s1 63) 12)) (Z.shiftl (Z.land s2 63) 6)) (Z.land s3 63), 4)).
Definition within (lo hi c : Z) : bool := negb ((c <? lo) || (hi <? c)).

(** The code point and its width; none when the function returns 0. *)
Definition tstr_utf8_decode_one (data : option pointer) (len : Z) : option (option (Z * Z)) :=
  match data with
  | None => Some None
  | Some (_, s) =>
      if len =? 0 then Some None else
      s0 ← load s 0;
      if s0 <? 128 then Some (Some (s0, 1)) else
      if (194 <=? s0) && (s0 <=? 223) then
        if len <? 2 then Some None else
        s1 ← load s 1;
        if negb (tstr_utf8_is_cont s1) then Some None else
        Some (Some (Z.lor (Z.shiftl (Z.land s0 31) 6) (Z.land s1 63), 2)) else
      if s0 =? 224 then decode_three s len s0 (within 160 191) else
      if ((225 <=? s0) && (s0 <=? 236)) || ((238 <=? s0) && (s0 <=? 239)) then decode_three s len s0 tstr_utf8_is_cont else
      if s0 =? 237 then decode_three s len s0 (within 128 159) else
      if s0 =? 240 then decode_four s len s0 (within 144 191) else
      if (241 <=? s0) && (s0 <=? 243) then decode_four s len s0 tstr_utf8_is_cont else
      if s0 =? 244 then decode_four s len s0 (within 128 143) else
      Some None
  end.

Definition tstr_utf8_codepoint_size (codepoint : Z) : Z :=
  if (1114111 <? codepoint) || ((55296 <=? codepoint) && (codepoint <=? 57343)) then 0 else
  if codepoint <=? 127 then 1 else
  if codepoint <=? 2047 then 2 else
  if codepoint <=? 65535 then 3 else 4.

(** ** Walking over a view *)

(** [decode_at data len offset]: decode at an offset of a view. *)
Definition decode_at (data : pointer) (len offset : Z) : option (option (Z * Z)) :=
  p ← padd data offset; tstr_utf8_decode_one (Some p) (u64 (len - offset)).

(** The loop without vectors of [vstr_utf8_invalid_offset]. *)
Fixpoint invalid_plain (fuel : nat) (data : pointer) (len offset : Z) : option Z :=
  match fuel with
  | O => None
  | S fuel =>
      if offset <? len then
        d ← decode_at data len offset;
        match d with None => Some offset | Some (_, width) => invalid_plain fuel data len (u64 (offset + width)) end
      else Some VSTR_NPOS
  end.

Fixpoint invalid_loop (fuel : nat) (data : pointer) (len offset : Z) (use_simde : bool) : option Z :=
  match fuel with
  | O => None
  | S fuel =>
      if offset <? len then
        if negb use_simde then invalid_plain (S (Z.to_nat len)) data len offset else
        let remaining := u64 (len - offset) in
        p ← padd data offset;
        ascii ← tstr_utf8_ascii_prefix_simde p remaining;
        let use_simde := negb (ascii <? (if remaining <? 16 then remaining else 16)) in
        let offset := u64 (offset + ascii) in
        if offset =? len then Some VSTR_NPOS else
        d ← decode_at data len offset;
        match d with None => Some offset | Some (_, width) => invalid_loop fuel data len (u64 (offset + width)) use_simde end
      else Some VSTR_NPOS
  end.

Definition vstr_utf8_invalid_offset (s : vstr) : option Z :=
  if negb (vstr_is_valid s) then Some 0 else
  match vs_data s with
  | None => Some VSTR_NPOS
  | Some data => invalid_loop (S (Z.to_nat (vs_len s))) data (vs_len s) 0 true
  end.

Definition vstr_utf8_valid (s : vstr) : option bool :=
  offset ← vstr_utf8_invalid_offset s; Some (offset =? VSTR_NPOS).

Fixpoint nlen_plain (fuel : nat) (data : pointer) (limit offset count : Z) : option Z :=
  match fuel with
  | O => None
  | S fuel =>
      if offset <? limit then
        d ← decode_at data limit offset;
        match d with None => Some VSTR_NPOS | Some (_, width) => nlen_plain fuel data limit (u64 (offset + width)) (u64 (count + 1)) end
      else Some count
  end.

Fixpoint nlen_loop (fuel : nat) (data : pointer) (limit offset count : Z) (use_simde : bool) : option Z :=
  match fuel with
  | O => None
  | S fuel =>
      if offset <? limit then
        if negb use_simde then nlen_plain (S (Z.to_nat limit)) data limit offset count else
        let remaining := u64 (limit - offset) in
        p ← padd data offset;
        ascii ← tstr_utf8_ascii_prefix_simde p remaining;
        let use_simde := negb (ascii <? (if remaining <? 16 then remaining else 16)) in
        let offset := u64 (offset + ascii) in
        let count := u64 (count + ascii) in
        if offset =? limit then Some count else
        d ← decode_at data limit offset;
        match d with
        | None => Some VSTR_NPOS
        | Some (_, width) => nlen_loop fuel data limit (u64 (offset + width)) (u64 (count + 1)) use_simde
        end
      else Some count
  end.

Definition vstr_utf8_nlen (s : vstr) (n : Z) : option Z :=
  if negb (vstr_is_valid s) then Some VSTR_NPOS else
  let limit := if n <? vs_len s then n else vs_len s in
  match vs_data s with
  | None => Some 0
  | Some data => nlen_loop (S (Z.to_nat limit)) data limit 0 0 true
  end.

Definition vstr_utf8_len (s : vstr) : option Z := vstr_utf8_nlen s (vs_len s).

Definition vstr_utf8_size_lazy (s : vstr) : Z := if negb (vstr_is_valid s) then VSTR_NPOS else vs_len s.

Fixpoint byte_offset_loop (fuel : nat) (data : pointer) (len char_index offset count : Z) : option Z :=
  match fuel with
  | O => None
  | S fuel =>
      if offset <? len then
        p ← padd data offset;
        ascii ← tstr_utf8_ascii_prefix_simde p (u64 (len - offset));
        let remaining := u64 (char_index - count) in
        if remaining <=? ascii then Some (u64 (offset + remaining)) else
        let offset := u64 (offset + ascii) in
        let count := u64 (count + ascii) in
        d ← decode_at data len offset;
        match d with
        | None => Some VSTR_NPOS
        | Some (_, width) =>
            let offset := u64 (offset + width) in
            let count := u64 (count + 1) in
            if count =? char_index then Some offset else byte_offset_loop fuel data len char_index offset count
        end
      else Some VSTR_NPOS
  end.

Definition vstr_utf8_byte_offset (s : vstr) (char_index : Z) : option Z :=
  if negb (vstr_is_valid s) then Some VSTR_NPOS else
  if char_index =? 0 then Some 0 else
  match vs_data s with
  | None => Some VSTR_NPOS
  | Some data => byte_offset_loop (S (Z.to_nat (vs_len s))) data (vs_len s) char_index 0 0
  end.

Definition vstr_utf8_sub (s : vstr) (char_pos char_count : Z) : option vstr :=
  valid ← vstr_utf8_valid s;
  if negb valid then Some (vstr_from_buf None 0) else
  start ← vstr_utf8_byte_offset s char_pos;
  if (start =? VSTR_NPOS) || (vs_len s <=? start) || (char_count =? 0) then Some (vstr_from_buf None 0) else
  data ← vs_data s;
  p ← padd data start;
  let tail := vstr_from_buf (Some p) (u64 (vs_len s - start)) in
  if char_count =? SIZE_MAX then Some tail else
  stop ← vstr_utf8_byte_offset tail char_count;
  let stop := if stop =? VSTR_NPOS then vs_len tail else stop in
  Some (vstr_from_buf (vs_data tail) stop).

(** [rest] and [codepoint] are pointers and what is behind them. *)
Definition vstr_utf8_next (rest : option vstr) (codepoint : option Z) : option (bool * option vstr * option Z) :=
  match rest with
  | None => Some (false, rest, codepoint)
  | Some r =>
      if (vs_len r =? 0) || negb (vstr_is_valid r) then Some (false, rest, codepoint) else
      d ← tstr_utf8_decode_one (vs_data r) (vs_len r);
      match d with
      | None => Some (false, rest, codepoint)
      | Some (cp, width) =>
          data ← vs_data r;
          p ← padd data width;
          Some (true, Some (vstr_from_buf (Some p) (u64 (vs_len r - width))), match codepoint with None => None | Some _ => Some cp end)
      end
  end.

(** The first and the last place of a code point; [found] is the last so far. *)
Fixpoint find_cp_loop (fuel : nat) (data : pointer) (len codepoint offset : Z) : option Z :=
  match fuel with
  | O => None
  | S fuel =>
      if offset <? len then
        d ← decode_at data len offset;
        match d with
        | None => Some VSTR_NPOS
        | Some (cp, width) => if cp =? codepoint then Some offset else find_cp_loop fuel data len codepoint (u64 (offset + width))
        end
      else Some VSTR_NPOS
  end.

Definition vstr_utf8_find_cp (s : vstr) (codepoint : Z) : option Z :=
  if (tstr_utf8_codepoint_size codepoint =? 0) || negb (vstr_is_valid s) then Some VSTR_NPOS else
  match vs_data s with
  | None => Some VSTR_NPOS
  | Some data => find_cp_loop (S (Z.to_nat (vs_len s))) data (vs_len s) codepoint 0
  end.

Fixpoint rfind_cp_loop (fuel : nat) (data : pointer) (len codepoint offset found : Z) : option Z :=
  match fuel with
  | O => None
  | S fuel =>
      if offset <? len then
        d ← decode_at data len offset;
        match d with
        | None => Some VSTR_NPOS
        | Some (cp, width) => rfind_cp_loop fuel data len codepoint (u64 (offset + width)) (if cp =? codepoint then offset else found)
        end
      else Some found
  end.

Definition vstr_utf8_rfind_cp (s : vstr) (codepoint : Z) : option Z :=
  if (tstr_utf8_codepoint_size codepoint =? 0) || negb (vstr_is_valid s) then Some VSTR_NPOS else
  match vs_data s with
  | None => Some VSTR_NPOS
  | Some data => rfind_cp_loop (S (Z.to_nat (vs_len s))) data (vs_len s) codepoint 0 VSTR_NPOS
  end.

(** [memcmp(data + offset, other, n) == 0] *)
Definition same_bytes (data : pointer) (offset : Z) (other : pointer) (n : Z) : option bool :=
  x ← slice data.2 offset n; y ← slice other.2 0 n; Some (bool_decide (x = y)).

Fixpoint find_loop (fuel : nat) (haystack : pointer) (hlen : Z) (needle : pointer) (nlen offset : Z) : option Z :=
  match fuel with
  | O => None
  | S fuel =>
      if offset <=? u64 (hlen - nlen) then
        same ← same_bytes haystack offset needle nlen;
        if (same : bool) then Some offset else
        d ← decode_at haystack hlen offset;
        match d with None => Some VSTR_NPOS | Some (_, width) => find_loop fuel haystack hlen needle nlen (u64 (offset + width)) end
      else Some VSTR_NPOS
  end.

Definition vstr_utf8_find (haystack needle : vstr) : option Z :=
  hv ← vstr_utf8_valid haystack;
  if negb hv then Some VSTR_NPOS else
  nv ← vstr_utf8_valid needle;
  if negb nv then Some VSTR_NPOS else
  if vs_len needle =? 0 then Some 0 else
  if vs_len haystack <? vs_len needle then Some VSTR_NPOS else
  h ← vs_data haystack;
  n ← vs_data needle;
  find_loop (S (Z.to_nat (vs_len haystack))) h (vs_len haystack) n (vs_len needle) 0.
End Views.
