(* ===== verification/Utf8Spec.v ===== *)
(** * UTF-8 in string views: the code points of a view

    The reference is the encoding of a code point. Any bytes are in one way the
    encodings of code points followed by bytes that start with no encoding; the
    functions on views answer from that list of code points. *)

From S2P Require Import Prelude RingBuffer Utf8.
Local Open Scope Z_scope.

(** ** Encoding *)

Definition scalar (cp : Z) : Prop := 0 <= cp <= 1114111 ∧ ¬ (55296 <= cp <= 57343).

Definition encode (cp : Z) : list Z :=
  if cp <? 128 then [cp] else
  if cp <? 2048 then [192 + cp / 64; 128 + cp mod 64] else
  if cp <? 65536 then [224 + cp / 4096; 128 + (cp / 64) mod 64; 128 + cp mod 64] else
  [240 + cp / 262144; 128 + (cp / 4096) mod 64; 128 + (cp / 64) mod 64; 128 + cp mod 64].
Definition utf8 (cps : list Z) : list Z := cps ≫= encode.

(** No encoding starts these bytes. *)
Definition stuck (bs : list Z) : Prop := ∀ cp t, scalar cp → bs ≠ encode cp ++ t.

Lemma encode_length cp : 1 <= blen (encode cp) <= 4.
Proof. unfold encode, blen. repeat case_match; cbn; lia. Qed.
Lemma codepoint_size_ok cp : 0 <= cp → tstr_utf8_codepoint_size cp = (if bool_decide (scalar cp) then blen (encode cp) else 0).
Proof.
  intros H. unfold tstr_utf8_codepoint_size, encode, blen. case_bool_decide as Hs; unfold scalar in Hs.
  - destruct (Z.ltb_spec 1114111 cp); [lia|]. destruct (Z.leb_spec 55296 cp), (Z.leb_spec cp 57343); cbn [andb orb]; try lia;
      destruct (Z.leb_spec cp 127), (Z.ltb_spec cp 128); try lia; try done; destruct (Z.leb_spec cp 2047), (Z.ltb_spec cp 2048); try lia; try done;
      destruct (Z.leb_spec cp 65535), (Z.ltb_spec cp 65536); try lia; done.
  - destruct (Z.ltb_spec 1114111 cp); [done|]. destruct (Z.leb_spec 55296 cp), (Z.leb_spec cp 57343); cbn [andb orb]; try done; lia.
Qed.

Lemma is_cont_ok c : is_u8 c → tstr_utf8_is_cont c = ((128 <=? c) && (c <? 192)).
Proof. intros H. byte_cases c H. Qed.

Lemma low_bits x n : 0 <= n → Z.land x (2 ^ n - 1) = x mod 2 ^ n.
Proof. apply land_ones_mod. Qed.

Lemma fields_two a b : Z.lor (Z.shiftl (Z.land a 31) 6) (Z.land b 63) = (a mod 32) * 64 + b mod 64.
Proof.
  change 31 with (2 ^ 5 - 1). change 63 with (2 ^ 6 - 1). rewrite !low_bits by lia. change (2 ^ 5) with 32. change (2 ^ 6) with 64.
  rewrite lor_shiftl_add; [done|lia|]. pose proof (Z.mod_pos_bound b 64). lia.
Qed.
Lemma fields_three m a b c : m = 15 ∨ m = 7 → Z.lor (Z.lor (Z.shiftl (Z.land a m) 12) (Z.shiftl (Z.land b 63) 6)) (Z.land c 63) = (a mod (m + 1)) * 4096 + (b mod 64) * 64 + c mod 64.
Proof.
  intros Hm. assert (Z.land a m = a mod (m + 1)) as -> by (destruct Hm as [-> | ->]; [exact (low_bits a 4 ltac:(lia))|exact (low_bits a 3 ltac:(lia))]).
  change 63 with (2 ^ 6 - 1). rewrite !low_bits by lia. change (2 ^ 6) with 64. pose proof (Z.mod_pos_bound b 64). pose proof (Z.mod_pos_bound c 64).
  assert (Z.shiftl (b mod 64) 6 = b mod 64 * 64) as Eb by (rewrite Z.shiftl_mul_pow2 by lia; done).
  rewrite (lor_shiftl_add (a mod (m + 1))) by (rewrite ?Eb; lia). rewrite Eb.
  replace (a mod (m + 1) * 2 ^ 12 + b mod 64 * 64) with (Z.shiftl (a mod (m + 1) * 64 + b mod 64) 6) by (rewrite Z.shiftl_mul_pow2 by lia; lia).
  rewrite lor_shiftl_add by lia. lia.
Qed.
Lemma fields_four a b c d : Z.lor (Z.lor (Z.lor (Z.shiftl (Z.land a 7) 18) (Z.shiftl (Z.land b 63) 12)) (Z.shiftl (Z.land c 63) 6)) (Z.land d 63) =
  (a mod 8) * 262144 + (b mod 64) * 4096 + (c mod 64) * 64 + d mod 64.
Proof.
  change 7 with (2 ^ 3 - 1). change 63 with (2 ^ 6 - 1). rewrite !low_bits by lia. change (2 ^ 6) with 64. change (2 ^ 3) with 8.
  pose proof (Z.mod_pos_bound b 64). pose proof (Z.mod_pos_bound c 64). pose proof (Z.mod_pos_bound d 64).
  assert (∀ x n, 0 <= n → Z.shiftl x n = x * 2 ^ n) as Es by (intros; by apply Z.shiftl_mul_pow2).
  rewrite (lor_shiftl_add (a mod 8)) by (rewrite ?Es; lia). rewrite (Es (b mod 64)) by lia.
  replace (a mod 8 * 2 ^ 18 + b mod 64 * 2 ^ 12) with (Z.shiftl (a mod 8 * 64 + b mod 64) 12) by (rewrite Es; lia).
  rewrite lor_shiftl_add by (rewrite ?Es; lia). rewrite (Es (c mod 64)) by lia.
  replace ((a mod 8 * 64 + b mod 64) * 2 ^ 12 + c mod 64 * 2 ^ 6) with (Z.shiftl ((a mod 8 * 64 + b mod 64) * 64 + c mod 64) 6) by (rewrite Es; lia).
  rewrite lor_shiftl_add by lia. lia.
Qed.

(** ** One code point *)

(** [branch]: decide the next comparison, dropping a case that cannot be. *)
Ltac branch :=
  match goal with
  | |- context [?a <? ?b] => destruct (Z.ltb_spec a b); try (exfalso; word_lia)
  | |- context [?a <=? ?b] => destruct (Z.leb_spec a b); try (exfalso; word_lia)
  | |- context [?a =? ?b] => destruct (Z.eqb_spec a b); try (exfalso; word_lia)
  end; cbn [andb orb negb].

Lemma cont_byte x : tstr_utf8_is_cont (128 + x mod 64) = true.
Proof. rewrite is_cont_ok by word_lia. pose proof (Z.mod_pos_bound x 64). destruct (Z.leb_spec 128 (128 + x mod 64)), (Z.ltb_spec (128 + x mod 64) 192); done || lia. Qed.

Lemma load_S x l i : 0 <= i → load (x :: l) (1 + i) = load l i.
Proof. intros H. rewrite load_cons. destruct (Z.eqb_spec (1 + i) 0); [lia|]. destruct (Z.ltb_spec (1 + i) 0); [lia|]. f_equal. lia. Qed.
Lemma load_0 x l : load (x :: l) 0 = Some x.
Proof. done. Qed.
Lemma load_1 x y l : load (x :: y :: l) 1 = Some y.
Proof. done. Qed.
Lemma load_2 x y z l : load (x :: y :: z :: l) 2 = Some z.
Proof. done. Qed.
Lemma load_3 x y z u l : load (x :: y :: z :: u :: l) 3 = Some u.
Proof. done. Qed.

Lemma decode_three_ok s0 s1 s2 t len second : 3 <= len → second s1 = true → tstr_utf8_is_cont s2 = true →
  decode_three (s0 :: s1 :: s2 :: t) len s0 second = Some (Some ((s0 mod 16) * 4096 + (s1 mod 64) * 64 + s2 mod 64, 3)).
Proof.
  intros Hl H1 H2. unfold decode_three. destruct (Z.ltb_spec len 3); [lia|]. rewrite load_1. cbn [mbind option_bind]. rewrite H1. cbn [negb].
  rewrite load_2. cbn [mbind option_bind]. rewrite H2. cbn [negb]. by rewrite fields_three by tauto.
Qed.
Lemma decode_four_ok s0 s1 s2 s3 t len second : 4 <= len → second s1 = true → tstr_utf8_is_cont s2 = true → tstr_utf8_is_cont s3 = true →
  decode_four (s0 :: s1 :: s2 :: s3 :: t) len s0 second = Some (Some ((s0 mod 8) * 262144 + (s1 mod 64) * 4096 + (s2 mod 64) * 64 + s3 mod 64, 4)).
Proof.
  intros Hl H1 H2 H3. unfold decode_four. destruct (Z.ltb_spec len 4); [lia|]. rewrite load_1. cbn [mbind option_bind]. rewrite H1. cbn [negb].
  rewrite load_2. cbn [mbind option_bind]. rewrite H2. cbn [negb]. rewrite load_3. cbn [mbind option_bind]. rewrite H3. cbn [negb]. by rewrite fields_four.
Qed.

Lemma decode_encode a cp t len : scalar cp → blen (encode cp) <= len →
  tstr_utf8_decode_one (Some (a, encode cp ++ t)) len = Some (Some (cp, blen (encode cp))).
Proof.
  intros [Hcp Hsur] Hl. pose proof (encode_length cp). unfold tstr_utf8_decode_one. destruct (Z.eqb_spec len 0); [lia|]. unfold encode in *.
  destruct (Z.ltb_spec cp 128); [cbn [app]; rewrite load_0; cbn [mbind option_bind]; branch; done|].
  destruct (Z.ltb_spec cp 2048); [|destruct (Z.ltb_spec cp 65536)]; cbn [app]; rewrite load_0; cbn [mbind option_bind].
  - change (blen [192 + cp / 64; 128 + cp mod 64]) with 2 in *. do 4 branch. rewrite load_1. cbn [mbind option_bind]. rewrite cont_byte. cbn [negb].
    rewrite fields_two. do 3 f_equal. word_lia.
  - change (blen [224 + cp / 4096; 128 + (cp / 64) mod 64; 128 + cp mod 64]) with 3 in *.
    destruct (Z.ltb_spec (224 + cp / 4096) 128); [word_lia|]. destruct (Z.leb_spec 194 (224 + cp / 4096)); [|word_lia]. destruct (Z.leb_spec (224 + cp / 4096) 223); [word_lia|]. cbn [andb].
    assert (((224 + cp / 4096) mod 16) * 4096 + ((128 + (cp / 64) mod 64) mod 64) * 64 + (128 + cp mod 64) mod 64 = cp) as Ecp by word_lia.
    destruct (Z.eqb_spec (224 + cp / 4096) 224).
    { rewrite decode_three_ok; [by rewrite Ecp|lia| |apply cont_byte]. unfold within. branch. branch. done. }
    destruct (Z.eqb_spec (224 + cp / 4096) 237) as [E|E].
    { rewrite E. cbn [Z.leb Z.compare Z.eqb Pos.eqb Pos.compare Pos.compare_cont andb orb]. rewrite <-E.
      rewrite decode_three_ok; [by rewrite Ecp|lia| |apply cont_byte]. unfold within. branch. branch. done. }
    assert (((225 <=? 224 + cp / 4096) && (224 + cp / 4096 <=? 236)) || ((238 <=? 224 + cp / 4096) && (224 + cp / 4096 <=? 239)) = true) as ->.
    { destruct (Z.leb_spec 225 (224 + cp / 4096)), (Z.leb_spec (224 + cp / 4096) 236), (Z.leb_spec 238 (224 + cp / 4096)), (Z.leb_spec (224 + cp / 4096) 239); done || word_lia. }
    rewrite decode_three_ok; [by rewrite Ecp|lia|apply cont_byte|apply cont_byte].
  - change (blen [240 + cp / 262144; 128 + (cp / 4096) mod 64; 128 + (cp / 64) mod 64; 128 + cp mod 64]) with 4 in *.
    assert (((240 + cp / 262144) mod 8) * 262144 + ((128 + (cp / 4096) mod 64) mod 64) * 4096 + ((128 + (cp / 64) mod 64) mod 64) * 64 + (128 + cp mod 64) mod 64 = cp) as Ecp by word_lia.
    assert (240 <= 240 + cp / 262144 <= 244) as Hs0 by word_lia. set (s0 := 240 + cp / 262144) in *.
    destruct (Z.ltb_spec s0 128); [lia|]. destruct (Z.leb_spec s0 223); [lia|]. rewrite andb_false_r. destruct (Z.eqb_spec s0 224); [lia|].
    destruct (Z.leb_spec s0 236); [lia|]. destruct (Z.leb_spec s0 239); [lia|]. rewrite !andb_false_r. cbn [orb]. destruct (Z.eqb_spec s0 237); [lia|].
    destruct (Z.eqb_spec s0 240) as [E|E].
    { rewrite decode_four_ok; [by rewrite Ecp|lia| |apply cont_byte..]. unfold within. subst s0. branch. branch. done. }
    destruct (Z.leb_spec 241 s0); [|lia]. destruct (Z.leb_spec s0 243); cbn [andb].
    { rewrite decode_four_ok; [by rewrite Ecp|lia|apply cont_byte..]. }
    destruct (Z.eqb_spec s0 244); [|lia]. rewrite decode_four_ok; [by rewrite Ecp|lia| |apply cont_byte..]. unfold within. subst s0. branch. branch. done.
Qed.

(** Three and four bytes that are accepted are an encoding. *)
Lemma encode_three s0 s1 s2 : 224 <= s0 <= 239 → 128 <= s1 < 192 → 128 <= s2 < 192 → (s0 = 224 → 160 <= s1) → (s0 = 237 → s1 < 160) →
  let cp := (s0 mod 16) * 4096 + (s1 mod 64) * 64 + s2 mod 64 in scalar cp ∧ encode cp = [s0; s1; s2].
Proof.
  intros H0 H1 H2 H3 H4. assert (s0 mod 16 = s0 - 224) as -> by word_lia. assert (s1 mod 64 = s1 - 128) as -> by word_lia. assert (s2 mod 64 = s2 - 128) as -> by word_lia.
  intros cp. assert (cp = (s0 - 224) * 4096 + (s1 - 128) * 64 + (s2 - 128)) as Ecp by done. clearbody cp. split; [split; lia|].
  unfold encode. do 3 branch. repeat f_equal; word_lia.
Qed.
Lemma encode_four s0 s1 s2 s3 : 240 <= s0 <= 244 → 128 <= s1 < 192 → 128 <= s2 < 192 → 128 <= s3 < 192 → (s0 = 240 → 144 <= s1) → (s0 = 244 → s1 < 144) →
  let cp := (s0 mod 8) * 262144 + (s1 mod 64) * 4096 + (s2 mod 64) * 64 + s3 mod 64 in scalar cp ∧ encode cp = [s0; s1; s2; s3].
Proof.
  intros H0 H1 H2 H3 H4 H5. assert (s0 mod 8 = s0 - 240) as -> by word_lia. assert (s1 mod 64 = s1 - 128) as -> by word_lia. assert (s2 mod 64 = s2 - 128) as -> by word_lia.
  assert (s3 mod 64 = s3 - 128) as -> by word_lia. intros cp. assert (cp = (s0 - 240) * 262144 + (s1 - 128) * 4096 + (s2 - 128) * 64 + (s3 - 128)) as Ecp by done. clearbody cp.
  split; [split; lia|]. unfold encode. do 3 branch. repeat f_equal; word_lia.
Qed.

Lemma load_view s i : bytes_ok s → 0 <= i < blen s → ∃ x, load s i = Some x ∧ is_u8 x.
Proof. intros Hs Hi. destruct (load_in_bounds s i Hi) as [x Hx]. exists x. split; [done|]. by eapply load_byte. Qed.

(** What decoding may answer. *)
Definition decodes (s : list Z) (len : Z) (r : option (option (Z * Z))) : Prop :=
  ∃ d, r = Some d ∧ ∀ cp w, d = Some (cp, w) → scalar cp ∧ w = blen (encode cp) ∧ w <= len ∧ ∃ t, s = encode cp ++ t.
Lemma decodes_none s len : decodes s len (Some None).
Proof. by exists None. Qed.

Lemma cont_range c : is_u8 c → tstr_utf8_is_cont c = true → 128 <= c < 192.
Proof. intros H. rewrite is_cont_ok by done. destruct (Z.leb_spec 128 c), (Z.ltb_spec c 192); done || lia. Qed.

Lemma load_parts s k : 0 <= k → k <= blen s → ∃ h t, s = h ++ t ∧ blen h = k ∧ h = take (Z.to_nat k) s.
Proof. intros H0 H. exists (take (Z.to_nat k) s), (drop (Z.to_nat k) s). rewrite take_drop. split; [done|]. split; [|done]. unfold blen in *. rewrite length_take. lia. Qed.

Lemma decode_three_sound s len s0 second : bytes_ok s → len <= blen s → load s 0 = Some s0 → 224 <= s0 <= 239 →
  (∀ c, is_u8 c → second c = true → 128 <= c < 192 ∧ (s0 = 224 → 160 <= c) ∧ (s0 = 237 → c < 160)) → decodes s len (decode_three s len s0 second).
Proof.
  intros Hb Hl H0 Hs0 Hsec. unfold decode_three. destruct (Z.ltb_spec len 3); [apply decodes_none|].
  destruct s as [|x0 [|x1 [|x2 t]]]; try (unfold blen in Hl; cbn in Hl; lia). injection H0 as ->.
  apply Forall_cons in Hb as [_ [Hx1 [Hx2 _]%Forall_cons]%Forall_cons]. rewrite load_1. cbn [mbind option_bind].
  destruct (second x1) eqn:E1; cbn [negb]; [|apply decodes_none]. rewrite load_2. cbn [mbind option_bind].
  destruct (tstr_utf8_is_cont x2) eqn:E2; cbn [negb]; [|apply decodes_none]. rewrite fields_three by tauto. change (15 + 1) with 16. eexists. split; [done|]. intros cp w [= <- <-].
  destruct (Hsec x1 Hx1 E1) as (Hc & Ha & Hz). destruct (encode_three s0 x1 x2 Hs0 Hc (cont_range _ Hx2 E2) Ha Hz) as [Hsc ->].
  split; [done|]. split; [done|]. split; [lia|]. by exists t.
Qed.
Lemma decode_four_sound s len s0 second : bytes_ok s → len <= blen s → load s 0 = Some s0 → 240 <= s0 <= 244 →
  (∀ c, is_u8 c → second c = true → 128 <= c < 192 ∧ (s0 = 240 → 144 <= c) ∧ (s0 = 244 → c < 144)) → decodes s len (decode_four s len s0 second).
Proof.
  intros Hb Hl H0 Hs0 Hsec. unfold decode_four. destruct (Z.ltb_spec len 4); [apply decodes_none|].
  destruct s as [|x0 [|x1 [|x2 [|x3 t]]]]; try (unfold blen in Hl; cbn in Hl; lia). injection H0 as ->.
  apply Forall_cons in Hb as [_ [Hx1 [Hx2 [Hx3 _]%Forall_cons]%Forall_cons]%Forall_cons]. rewrite load_1. cbn [mbind option_bind].
  destruct (second x1) eqn:E1; cbn [negb]; [|apply decodes_none]. rewrite load_2. cbn [mbind option_bind].
  destruct (tstr_utf8_is_cont x2) eqn:E2; cbn [negb]; [|apply decodes_none]. rewrite load_3. cbn [mbind option_bind].
  destruct (tstr_utf8_is_cont x3) eqn:E3; cbn [negb]; [|apply decodes_none]. rewrite fields_four. eexists. split; [done|]. intros cp w [= <- <-].
  destruct (Hsec x1 Hx1 E1) as (Hc & Ha & Hz). destruct (encode_four s0 x1 x2 x3 Hs0 Hc (cont_range _ Hx2 E2) (cont_range _ Hx3 E3) Ha Hz) as [Hsc ->].
  split; [done|]. split; [done|]. split; [lia|]. by exists t.
Qed.

Lemma within_range lo hi c : within lo hi c = true → lo <= c <= hi.
Proof. unfold within. destruct (Z.ltb_spec c lo), (Z.ltb_spec hi c); cbn; done || lia. Qed.

Lemma decode_sound a s len : bytes_ok s → 0 <= len <= blen s → decodes s len (tstr_utf8_decode_one (Some (a, s)) len).
Proof.
  intros Hb Hl. unfold tstr_utf8_decode_one. destruct (Z.eqb_spec len 0); [apply decodes_none|].
  destruct (load_view s 0 Hb) as (s0 & H0 & Hs0); [lia|]. rewrite H0. cbn [mbind option_bind].
  destruct (Z.ltb_spec s0 128).
  { eexists. split; [done|]. intros cp w [= <- <-]. destruct s as [|x t]; [done|]. injection H0 as ->. unfold encode. destruct (Z.ltb_spec s0 128); [|lia].
    split; [split; word_lia|]. split; [done|]. split; [lia|]. by exists t. }
  destruct (Z.leb_spec 194 s0) as [H194|H194], (Z.leb_spec s0 223) as [H223|H223]; cbn [andb].
  { destruct (Z.ltb_spec len 2); [apply decodes_none|]. destruct s as [|x0 [|x1 t]]; try (unfold blen in Hl; cbn in Hl; lia). injection H0 as ->.
    apply Forall_cons in Hb as [_ [Hx1 _]%Forall_cons]. rewrite load_1. cbn [mbind option_bind].
    destruct (tstr_utf8_is_cont x1) eqn:E1; cbn [negb]; [|apply decodes_none]. apply cont_range in E1; [|done]. rewrite fields_two. eexists. split; [done|]. intros cp w [= <- <-].
    assert (s0 mod 32 = s0 - 192) as -> by word_lia. assert (x1 mod 64 = x1 - 128) as -> by word_lia.
    assert (encode ((s0 - 192) * 64 + (x1 - 128)) = [s0; x1]) as -> by (unfold encode; do 2 branch; repeat f_equal; word_lia).
    split; [split; lia|]. split; [done|]. split; [lia|]. by exists t. }
  3: lia.
  2: { repeat (branch; try apply decodes_none). }
  destruct (Z.eqb_spec s0 224); [apply decode_three_sound; try done; try lia; intros c Hc ?%within_range; split; lia|].
  destruct (((225 <=? s0) && (s0 <=? 236)) || ((238 <=? s0) && (s0 <=? 239))) eqn:Hmid.
  { assert (224 <= s0 <= 239 ∧ s0 ≠ 237) as [? ?] by (destruct (Z.leb_spec 225 s0), (Z.leb_spec s0 236), (Z.leb_spec 238 s0), (Z.leb_spec s0 239); done || lia).
    apply decode_three_sound; try done; try lia. intros c Hc ?%cont_range; [|done]. split; lia. }
  destruct (Z.eqb_spec s0 237); [apply decode_three_sound; try done; try lia; intros c Hc ?%within_range; split; lia|].
  destruct (Z.eqb_spec s0 240); [apply decode_four_sound; try done; try lia; intros c Hc ?%within_range; split; lia|].
  destruct ((241 <=? s0) && (s0 <=? 243)) eqn:Hfour.
  { assert (241 <= s0 <= 243) as ? by (destruct (Z.leb_spec 241 s0), (Z.leb_spec s0 243); done || lia).
    apply decode_four_sound; try done; try lia. intros c Hc ?%cont_range; [|done]. split; lia. }
  destruct (Z.eqb_spec s0 244); [apply decode_four_sound; try done; try lia; intros c Hc ?%within_range; split; lia|apply decodes_none].
Qed.

(** ** Positions in a view *)

(** From [offset] on, a view of [len] bytes shows [t]. *)
Record tail_at (data : pointer) (len offset : Z) (t : list Z) : Prop := {
  ta_offset : 0 <= offset <= len;
  ta_len : len <= blen data.2;
  ta_max : len <= SIZE_MAX;
  ta_bytes : bytes_ok data.2;
  ta_tail : take (Z.to_nat (len - offset)) (drop (Z.to_nat offset) data.2) = t
}.

Lemma tail_length data len offset t : tail_at data len offset t → blen t = len - offset.
Proof. intros [? ? ? ? <-]. unfold blen in *. rewrite length_take, length_drop. lia. Qed.
Lemma tail_step data len offset h t : tail_at data len offset (h ++ t) → tail_at data len (offset + blen h) t.
Proof.
  intros H. pose proof (tail_length _ _ _ _ H) as Hl. rewrite blen_app in Hl. pose proof (blen_nonneg h). pose proof (blen_nonneg t). destruct H as [? ? ? ? E]. split; try done; [lia|].
  replace (Z.to_nat (offset + blen h)) with (Z.to_nat offset + length h)%nat by (unfold blen; lia). rewrite <-drop_drop.
  replace (Z.to_nat (len - (offset + blen h))) with (Z.to_nat (len - offset) - length h)%nat by (unfold blen; lia).
  rewrite <-skipn_firstn_comm, E. by rewrite drop_app_length.
Qed.
Lemma tail_pointer data len offset t : tail_at data len offset t → padd data offset = Some (data.1 + offset, drop (Z.to_nat offset) data.2) ∧ u64 (len - offset) = len - offset ∧
  bytes_ok (drop (Z.to_nat offset) data.2) ∧ 0 <= len - offset <= blen (drop (Z.to_nat offset) data.2).
Proof.
  intros [? ? ? ? _]. unfold padd. rewrite bool_decide_true by lia. split; [done|]. split; [apply u64_id; word_lia|]. split; [by apply Forall_drop|].
  unfold blen in *. rewrite length_drop. lia.
Qed.

Lemma decode_cp data len offset cp t : tail_at data len offset (encode cp ++ t) → scalar cp → decode_at data len offset = Some (Some (cp, blen (encode cp))).
Proof.
  intros H Hs. destruct (tail_pointer _ _ _ _ H) as (E & Eu & _ & Hlen). pose proof (tail_length _ _ _ _ H) as Hl. rewrite blen_app in Hl. pose proof (blen_nonneg t).
  unfold decode_at. rewrite E, Eu. cbn [mbind option_bind]. destruct H as [? ? ? ? ET].
  rewrite <-(take_drop (Z.to_nat (len - offset)) (drop (Z.to_nat offset) data.2)), ET, <-app_assoc. apply decode_encode; [done|lia].
Qed.
Lemma decode_stuck data len offset t : tail_at data len offset t → stuck t → decode_at data len offset = Some None.
Proof.
  intros H Hs. destruct (tail_pointer _ _ _ _ H) as (E & Eu & Hb & Hlen). unfold decode_at. rewrite E, Eu. cbn [mbind option_bind].
  destruct (decode_sound (data.1 + offset) _ _ Hb Hlen) as (d & -> & Hd). destruct d as [[cp w]|]; [|done]. exfalso.
  destruct (Hd cp w eq_refl) as (Hsc & -> & Hw & t' & Et). apply (Hs cp (take (Z.to_nat (len - offset) - length (encode cp)) t') Hsc).
  destruct H as [? ? ? ? <-]. rewrite Et, take_app_ge; [done|]. unfold blen in Hw. lia.
Qed.

(** ** Any bytes are code points and a rest *)

Lemma encode_nonempty cp : encode cp ≠ [].
Proof. intros E. pose proof (encode_length cp) as H. rewrite E in H. unfold blen in H. cbn in H. lia. Qed.
Lemma stuck_nil : stuck [].
Proof. intros cp t _ E. symmetry in E. apply app_nil in E as [E _]. by apply encode_nonempty in E. Qed.

Lemma encode_inj cp cp' t t' : scalar cp → scalar cp' → encode cp ++ t = encode cp' ++ t' → cp = cp' ∧ t = t'.
Proof.
  intros H H' E. pose proof (decode_encode 0 cp t (4 + 4) H ltac:(pose proof (encode_length cp); lia)) as D.
  pose proof (decode_encode 0 cp' t' (4 + 4) H' ltac:(pose proof (encode_length cp'); lia)) as D'. rewrite E in D. rewrite D in D'. injection D' as -> _.
  split; [done|]. by apply app_inv_head in E.
Qed.

Lemma utf8_split bs : bytes_ok bs → ∃ cps rest, bs = utf8 cps ++ rest ∧ Forall scalar cps ∧ stuck rest.
Proof.
  remember (length bs) as n eqn:Hn. assert (length bs <= n)%nat as Hle by lia. clear Hn. revert bs Hle. induction n as [|n IH]; intros bs Hle Hb.
  { destruct bs; [|cbn in Hle; lia]. exists [], []. split; [done|]. split; [constructor|apply stuck_nil]. }
  destruct (decode_sound 0 bs (blen bs) Hb) as (d & E & Hd); [pose proof (blen_nonneg bs); lia|]. destruct d as [[cp w]|].
  - destruct (Hd cp w eq_refl) as (Hsc & _ & _ & t & ->). pose proof (encode_length cp) as He. apply Forall_app in Hb as [_ Hb]. rewrite length_app in Hle. unfold blen in He.
    destruct (IH t) as (cps & rest & -> & Hcps & Hrest); [lia|done|]. exists (cp :: cps), rest. split; [cbn; by rewrite app_assoc|]. split; [by constructor|done].
  - exists [], bs. split; [done|]. split; [constructor|]. intros cp t Hsc ->. rewrite decode_encode in E; [done|done|]. rewrite blen_app. pose proof (blen_nonneg t). lia.
Qed.
Lemma utf8_unique cps cps' rest rest' : Forall scalar cps → Forall scalar cps' → stuck rest → stuck rest' → utf8 cps ++ rest = utf8 cps' ++ rest' → cps = cps' ∧ rest = rest'.
Proof.
  intros H. revert cps'. induction H as [|cp cps Hc _ IH]; intros cps' H' Hs Hs' E; destruct H' as [|cp' cps' Hc' H']; cbn in E; rewrite <-?app_assoc in E.
  - done.
  - by apply Hs in E.
  - symmetry in E. by apply Hs' in E.
  - apply encode_inj in E as [-> E]; [|done..]. destruct (IH cps' H' Hs Hs' E) as [-> ->]. done.
Qed.

(** ** Plain characters *)

Fixpoint ascii_lead (t : list Z) : nat := match t with c :: t => if c <? 128 then S (ascii_lead t) else O | [] => O end.

Lemma ascii_lead_le t : (ascii_lead t <= length t)%nat.
Proof. induction t as [|c t IH]; cbn; [lia|]. destruct (c <? 128); lia. Qed.
Lemma ascii_lead_app t1 t2 : ascii_lead (t1 ++ t2) = if bool_decide (ascii_lead t1 = length t1) then (length t1 + ascii_lead t2)%nat else ascii_lead t1.
Proof.
  induction t1 as [|c t1 IH]; cbn; [done|]. destruct (c <? 128); [|done]. rewrite IH.
  repeat case_bool_decide; lia.
Qed.

Lemma ascii_run_ok data len : ∀ fuel offset t, tail_at data len offset t → (length t < fuel)%nat → ascii_run fuel data offset len = Some (offset + Z.of_nat (ascii_lead t)).
Proof.
  induction fuel as [|fuel IH]; intros offset t H Hf; [lia|]. cbn [ascii_run]. pose proof (tail_length _ _ _ _ H) as Hl.
  destruct (Z.ltb_spec offset len) as [Hlt|Hge].
  - destruct t as [|c t]; [unfold blen in Hl; cbn in Hl; lia|].
    assert (load data.2 offset = Some c) as ->.
    { destruct H as [? ? ? ? E]. unfold load. rewrite bool_decide_true by lia. assert (c :: t = [c] ++ t) as Ec by done. apply (f_equal (lookup O)) in E. rewrite lookup_take_lt, lookup_drop, Nat.add_0_r in E by lia. done. }
    cbn [mbind option_bind ascii_lead]. destruct (Z.ltb_spec c 128); [|f_equal; lia].
    rewrite (IH (offset + 1) t); [f_equal; lia|by apply (tail_step _ _ _ [c] t)|cbn in Hf; lia].
  - pose proof (ta_offset _ _ _ _ H). assert (t = []) as -> by (apply nil_blen; lia). f_equal. cbn. lia.
Qed.

(** The mask of sixteen bytes tells where the first that is not plain stands. *)
Definition top_bits (bs : list Z) : Z := foldr (λ b m, b / 128 + 2 * m) 0 bs.
Lemma top_bits_zero bs : bytes_ok bs → 0 <= top_bits bs ∧ (top_bits bs = 0 ↔ ascii_lead bs = length bs).
Proof.
  induction 1 as [|b bs Hb _ [IH1 IH2]]; [done|]. change (top_bits (b :: bs)) with (b / 128 + 2 * top_bits bs). cbn [ascii_lead length].
  assert (b / 128 = if b <? 128 then 0 else 1) as -> by (destruct (Z.ltb_spec b 128); word_lia). pose proof (ascii_lead_le bs).
  destruct (b <? 128); (split; [lia|]); split; intros H0; lia.
Qed.
Lemma skip_clear_ok bs : ∀ fuel offset, bytes_ok bs → (ascii_lead bs < length bs)%nat → (length bs < fuel)%nat →
  skip_clear_bits fuel offset (top_bits bs) = Some (offset + Z.of_nat (ascii_lead bs)).
Proof.
  induction bs as [|b bs IH]; intros fuel offset Hb Hl Hf; [cbn in Hl; lia|]. apply Forall_cons in Hb as [Hb Hbs].
  destruct fuel as [|fuel]; [lia|]. cbn [skip_clear_bits]. change (top_bits (b :: bs)) with (b / 128 + 2 * top_bits bs). cbn [ascii_lead length] in *.
  assert (b / 128 = if b <? 128 then 0 else 1) as -> by (destruct (Z.ltb_spec b 128); word_lia).
  change 1 with (2 ^ 1 - 1) at 2. rewrite low_bits by lia. change (2 ^ 1) with 2. destruct (b <? 128).
  - assert ((0 + 2 * top_bits bs) mod 2 = 0) as -> by word_lia. cbn [Z.eqb]. rewrite shiftr_div by lia. replace ((0 + 2 * top_bits bs) / 2 ^ 1) with (top_bits bs) by (change (2 ^ 1) with 2; word_lia).
    rewrite IH; [f_equal; lia|done|lia|lia].
  - assert ((1 + 2 * top_bits bs) mod 2 = 1) as -> by word_lia. cbn. f_equal. lia.
Qed.

Lemma tail_whole data len offset t : tail_at data len offset t →
  ∃ p, padd data offset = Some p ∧ tail_at p (len - offset) 0 t.
Proof.
  intros H. destruct (tail_pointer _ _ _ _ H) as (E & _ & Hb & Hl). eexists. split; [done|]. destruct H as [? ? ? ? Et]. split; cbn [snd]; try done; try lia.
  by rewrite Z.sub_0_r, drop_0.
Qed.
Lemma tail_take data len t n : tail_at data len 0 t → 0 <= n <= len → tail_at data n 0 (take (Z.to_nat n) t).
Proof.
  intros [? ? ? ? <-] Hn. split; try done; try lia. rewrite !Z.sub_0_r, drop_0, take_take. f_equal. lia.
Qed.
Lemma tail_slice data len offset t n : tail_at data len offset t → 0 <= n <= len - offset → slice data.2 offset n = Some (take (Z.to_nat n) t).
Proof.
  intros [? ? ? ? <-] Hn. rewrite slice_in_bounds by lia. rewrite take_take. do 2 f_equal. lia.
Qed.

Lemma scalar_prefix_ok data len t : tail_at data len 0 t → tstr_utf8_ascii_prefix_scalar data len = Some (Z.of_nat (ascii_lead t)).
Proof.
  intros H. pose proof (tail_length _ _ _ _ H) as Hl. unfold tstr_utf8_ascii_prefix_scalar.
  rewrite (ascii_run_ok data len _ 0 t H); [done|]. unfold blen in Hl. lia.
Qed.

Section Walk.
Context {SI : Simd}.

Lemma ascii_blocks_ok data len : ∀ fuel offset t, tail_at data len offset t → (length t < fuel)%nat → ascii_blocks fuel data offset len = Some (offset + Z.of_nat (ascii_lead t)).
Proof using Type.
  induction fuel as [|fuel IH]; intros offset t H Hf; [lia|]. cbn [ascii_blocks]. pose proof (tail_length _ _ _ _ H) as Hl.
  destruct (tail_pointer _ _ _ _ H) as (_ & Eu & _ & _). rewrite Eu. destruct (Z.leb_spec 16 (len - offset)) as [H16|H16].
  - rewrite (tail_slice _ _ _ _ 16 H) by lia. cbn [mbind option_bind]. change (Z.to_nat 16) with 16%nat.
    assert (length (take 16 t) = 16%nat) as Ht by (rewrite length_take; unfold blen in Hl; lia).
    assert (bytes_ok (take 16 t)) as Hb. { destruct H as [? ? ? Hb <-]. apply Forall_take, Forall_take, Forall_drop, Hb. }
    rewrite movemask_law by done. change (foldr _ 0 (take 16 t)) with (top_bits (take 16 t)). pose proof (top_bits_zero _ Hb) as [_ Hz].
    pose proof (ascii_lead_app (take 16 t) (drop 16 t)) as Happ. rewrite take_drop, Ht in Happ. rewrite Happ. rewrite <-(take_drop 16 t) in H. pose proof (ascii_lead_le (take 16 t)) as Hle.
    destruct (Z.eqb_spec (top_bits (take 16 t)) 0) as [E0|E0].
    + apply Hz in E0. rewrite Ht in E0. rewrite bool_decide_true by lia. rewrite (IH (offset + 16) (drop 16 t)); [f_equal; lia| |rewrite length_drop; rewrite length_take in Ht; lia].
      apply tail_step in H. unfold blen in H. by rewrite Ht in H.
    + assert (ascii_lead (take 16 t) ≠ 16%nat) as Hn by (intros E; apply E0, Hz; by rewrite Ht).
      rewrite bool_decide_false by done. apply skip_clear_ok; [done|lia|lia].
  - destruct (tail_whole _ _ _ _ H) as (p & -> & Hp). cbn [mbind option_bind]. by rewrite (scalar_prefix_ok _ _ _ Hp).
Qed.

Lemma simde_prefix_ok data len t : tail_at data len 0 t → tstr_utf8_ascii_prefix_simde data len = Some (Z.of_nat (ascii_lead t)).
Proof using Type.
  intros H. pose proof (tail_length _ _ _ _ H) as Hl. pose proof (ta_offset _ _ _ _ H). unfold tstr_utf8_ascii_prefix_simde. set (fb := if len <? 16 then len else 16).
  assert (0 <= fb <= len) as Hfb by (subst fb; destruct (Z.ltb_spec len 16); lia). clearbody fb.
  assert (blen (take (Z.to_nat fb) t) = fb) as Ht by (unfold blen in *; rewrite length_take; lia).
  rewrite (ascii_run_ok data fb _ 0 _ (tail_take _ _ _ fb H Hfb)) by (unfold blen in Ht; lia). cbn [mbind option_bind]. rewrite Z.add_0_l.
  pose proof (ascii_lead_le (take (Z.to_nat fb) t)) as Hle. pose proof (ascii_lead_app (take (Z.to_nat fb) t) (drop (Z.to_nat fb) t)) as Happ. rewrite take_drop in Happ.
  destruct (Z.ltb_spec (Z.of_nat (ascii_lead (take (Z.to_nat fb) t))) fb) as [Hlt|Hge].
  - rewrite bool_decide_false in Happ by (unfold blen in Ht; lia). by rewrite Happ.
  - assert (Z.of_nat (ascii_lead (take (Z.to_nat fb) t)) = fb) as -> by (unfold blen in Ht; lia).
    rewrite (ascii_blocks_ok data len _ fb (drop (Z.to_nat fb) t)).
    + rewrite Happ, bool_decide_true by (unfold blen in Ht; lia). f_equal. unfold blen in Ht. lia.
    + rewrite <-(take_drop (Z.to_nat fb) t) in H. apply tail_step in H. by rewrite Ht in H.
    + rewrite length_drop. unfold blen in Hl. lia.
Qed.

Lemma utf8_cons cp cps : utf8 (cp :: cps) = encode cp ++ utf8 cps.
Proof using Type. done. Qed.
Lemma utf8_app c1 c2 : utf8 (c1 ++ c2) = utf8 c1 ++ utf8 c2.
Proof using Type. apply bind_app. Qed.

Lemma utf8_plain c : Forall (λ x, x < 128) c → utf8 c = c.
Proof using Type.
  induction 1 as [|x c Hx _ IH]; [done|]. rewrite utf8_cons, IH. unfold encode. destruct (Z.ltb_spec x 128); [done|lia].
Qed.

(** The plain characters at the front are code points of one byte. *)
Lemma lead_cps cps rest : Forall scalar cps → stuck rest → bytes_ok rest →
  ∃ c1 c2, cps = c1 ++ c2 ∧ Forall (λ x, x < 128) c1 ∧ ascii_lead (utf8 cps ++ rest) = length c1.
Proof using Type.
  intros H Hs Hb. induction H as [|cp cps Hcp _ (c1 & c2 & -> & Ec & El)].
  - exists [], []. split; [done|]. split; [constructor|]. destruct rest as [|b t]; [done|]. cbn. destruct (Z.ltb_spec b 128) as [Hlt|]; [|done]. exfalso.
    apply Forall_cons in Hb as [Hb _]. apply (Hs b t); [split; word_lia|]. unfold encode. destruct (Z.ltb_spec b 128); [done|lia].
  - rewrite utf8_cons, <-app_assoc. destruct (Z.ltb_spec cp 128) as [Hlt|Hge].
    + exists (cp :: c1), c2. assert (encode cp = [cp]) as E by (unfold encode; destruct (Z.ltb_spec cp 128); [done|lia]). split; [done|]. split.
      * by constructor.
      * rewrite E. cbn [app ascii_lead length]. destruct (Z.ltb_spec cp 128); [by rewrite El|lia].
    + exists [], (cp :: c1 ++ c2). split; [done|]. split; [constructor|]. unfold encode. destruct Hcp as [Hcp _]. destruct (Z.ltb_spec cp 128); [lia|].
      destruct (Z.ltb_spec cp 2048); [|destruct (Z.ltb_spec cp 65536)]; cbn [app ascii_lead]; branch; done.
Qed.

(** What is left of a view: code points and a rest. *)
Record cps_at (data : pointer) (len offset : Z) (cps rest : list Z) : Prop := {
  ca_tail : tail_at data len offset (utf8 cps ++ rest);
  ca_cps : Forall scalar cps;
  ca_rest : stuck rest
}.
Lemma cps_length data len offset cps rest : cps_at data len offset cps rest → 0 <= offset ∧ blen (utf8 cps) + blen rest = len - offset ∧ len <= SIZE_MAX.
Proof using Type. intros [H _ _]. pose proof (tail_length _ _ _ _ H) as Hl. rewrite blen_app in Hl. destruct H. lia. Qed.

(** One code point, and the end. *)
Lemma step_cp data len offset cp cps rest : cps_at data len offset (cp :: cps) rest →
  decode_at data len offset = Some (Some (cp, blen (encode cp))) ∧ u64 (offset + blen (encode cp)) = offset + blen (encode cp) ∧
  cps_at data len (offset + blen (encode cp)) cps rest ∧ offset < len.
Proof using Type.
  intros H. pose proof (cps_length _ _ _ _ _ H) as Hl. rewrite utf8_cons, blen_app in Hl. pose proof (encode_length cp). pose proof (blen_nonneg (utf8 cps)). pose proof (blen_nonneg rest).
  destruct H as [Ht Hc Hr]. apply Forall_cons in Hc as [Hcp Hc]. rewrite utf8_cons, <-app_assoc in Ht. split; [by eapply decode_cp|]. split; [apply u64_id; word_lia|].
  split; [split; [by apply tail_step|done|done]|lia].
Qed.
Lemma step_end data len offset rest : cps_at data len offset [] rest → decode_at data len offset = Some None ∧ blen rest = len - offset.
Proof using Type. intros H. pose proof (cps_length _ _ _ _ _ H) as Hl. destruct H as [Ht _ Hr]. split; [by eapply decode_stuck|]. change (blen (utf8 [])) with 0 in Hl. lia. Qed.
(** The plain characters at once. *)
Lemma step_plain data len offset cps rest : cps_at data len offset cps rest →
  ∃ p c1 c2, padd data offset = Some p ∧ tstr_utf8_ascii_prefix_simde p (u64 (len - offset)) = Some (alen c1) ∧ cps = c1 ++ c2 ∧ blen (utf8 c1) = alen c1 ∧
    Forall (λ x, x < 128) c1 ∧ u64 (offset + alen c1) = offset + alen c1 ∧ cps_at data len (offset + alen c1) c2 rest.
Proof using Type.
  intros H. pose proof (cps_length _ _ _ _ _ H) as Hl. destruct H as [Ht Hc Hr]. destruct (tail_whole _ _ _ _ Ht) as (p & E & Hp). destruct (tail_pointer _ _ _ _ Ht) as (_ & -> & _ & _).
  destruct (lead_cps cps rest Hc Hr) as (c1 & c2 & -> & Hp1 & El).
  { destruct Ht as [_ _ _ Hb Et]. assert (bytes_ok (utf8 cps ++ rest)) as Hbb by (rewrite <-Et; by apply Forall_take, Forall_drop). by apply Forall_app in Hbb as [_ ?]. }
  pose proof (utf8_plain c1 Hp1) as Ec. exists p, c1, c2. split; [done|]. rewrite (simde_prefix_ok _ _ _ Hp), El. split; [done|]. split; [done|]. rewrite Ec. split; [done|]. split; [done|].
  rewrite utf8_app, blen_app, Ec in Hl. pose proof (blen_nonneg (utf8 c2)). pose proof (blen_nonneg rest). change (blen c1) with (alen c1) in Hl. pose proof (alen_nonneg c1).
  split; [apply u64_id; word_lia|]. apply Forall_app in Hc as [_ Hc]. split; [|done|done]. rewrite utf8_app, <-app_assoc in Ht. apply tail_step in Ht. by rewrite Ec in Ht.
Qed.

Definition first_invalid (offset : Z) (cps rest : list Z) : Z := if bool_decide (rest = []) then VSTR_NPOS else offset + blen (utf8 cps).

Lemma at_end data len offset cps rest : cps_at data len offset cps rest → len <= offset → cps = [] ∧ rest = [].
Proof using Type.
  intros H Hge. pose proof (cps_length _ _ _ _ _ H) as Hl. pose proof (blen_nonneg (utf8 cps)). pose proof (blen_nonneg rest). split; [|apply nil_blen; lia].
  destruct cps as [|cp cps]; [done|]. rewrite utf8_cons, blen_app in *. pose proof (encode_length cp). pose proof (blen_nonneg (utf8 cps)). lia.
Qed.
Lemma first_invalid_step offset cp cps rest : first_invalid (offset + blen (encode cp)) cps rest = first_invalid offset (cp :: cps) rest.
Proof using Type. unfold first_invalid. case_bool_decide; [done|]. rewrite utf8_cons, blen_app. lia. Qed.

Lemma invalid_plain_ok data len rest : ∀ fuel offset cps, cps_at data len offset cps rest → len - offset < Z.of_nat fuel →
  invalid_plain fuel data len offset = Some (first_invalid offset cps rest).
Proof using Type.
  induction fuel as [|fuel IH]; intros offset cps H Hf; [destruct (ca_tail _ _ _ _ _ H) as [? _ _ _ _]; lia|]. cbn [invalid_plain].
  destruct (Z.ltb_spec offset len) as [Hlt|Hge]; [|by destruct (at_end _ _ _ _ _ H Hge) as [-> ->]].
  destruct cps as [|cp cps].
  - destruct (step_end _ _ _ _ H) as [-> Hr]. cbn [mbind option_bind]. unfold first_invalid. rewrite bool_decide_false; [f_equal; unfold utf8, blen; cbn; lia|].
    intros ->. unfold blen in Hr. cbn in Hr. lia.
  - destruct (step_cp _ _ _ _ _ _ H) as (-> & Eu & H' & _). cbn [mbind option_bind]. pose proof (encode_length cp). rewrite Eu, (IH _ cps H') by lia. by rewrite first_invalid_step.
Qed.

Lemma invalid_loop_ok data len rest : ∀ fuel offset cps simd, cps_at data len offset cps rest → len - offset < Z.of_nat fuel →
  invalid_loop fuel data len offset simd = Some (first_invalid offset cps rest).
Proof using Type.
  induction fuel as [|fuel IH]; intros offset cps simd H Hf; [destruct (ca_tail _ _ _ _ _ H) as [? _ _ _ _]; lia|]. cbn [invalid_loop].
  destruct (Z.ltb_spec offset len) as [Hlt|Hge]; [|by destruct (at_end _ _ _ _ _ H Hge) as [-> ->]].
  destruct simd; cbn [negb]; [|apply invalid_plain_ok; [done|pose proof (cps_length _ _ _ _ _ H); lia]].
  destruct (step_plain _ _ _ _ _ H) as (p & c1 & c2 & -> & E & -> & Eb & Ec & Eu & H'). cbn [mbind option_bind]. rewrite E. cbn [mbind option_bind]. rewrite Eu.
  assert (first_invalid offset (c1 ++ c2) rest = first_invalid (offset + alen c1) c2 rest) as ->.
  { unfold first_invalid. case_bool_decide; [done|]. rewrite utf8_app, blen_app, Eb. lia. }
  pose proof (alen_nonneg c1). destruct (Z.eqb_spec (offset + alen c1) len) as [He|He]; [destruct (at_end _ _ _ _ _ H') as [-> ->]; [lia|done]|].
  destruct c2 as [|cp c2].
  - destruct (step_end _ _ _ _ H') as [-> Hr]. cbn [mbind option_bind]. unfold first_invalid. rewrite bool_decide_false; [f_equal; unfold utf8, blen; cbn; lia|].
    intros ->. unfold blen in Hr. cbn in Hr. lia.
  - destruct (step_cp _ _ _ _ _ _ H') as (-> & Eu2 & H2 & _). cbn [mbind option_bind]. pose proof (encode_length cp). rewrite Eu2, (IH _ c2 _ H2) by lia. by rewrite first_invalid_step.
Qed.
End Walk.
