(* ===== verification/Utf8View.v ===== *)
(** * UTF-8 in string views: the functions answer from the code points *)

From S2P Require Import Prelude RingBuffer Utf8 Utf8Spec.
Local Open Scope Z_scope.

Section Counting.
Context {SI : Simd}.

Definition counted (count : Z) (cps rest : list Z) : Z := if bool_decide (rest = []) then count + alen cps else VSTR_NPOS.

Lemma alen_cons x (l : list Z) : alen (x :: l) = 1 + alen l.
Proof using Type. unfold alen. cbn. lia. Qed.
Lemma alen_le_utf8 cps : alen cps <= blen (utf8 cps).
Proof using Type. induction cps as [|cp cps IH]; [done|]. rewrite utf8_cons, blen_app, alen_cons. pose proof (encode_length cp). lia. Qed.
Lemma rest_nonempty (rest : list Z) n : blen rest = n → 0 < n → bool_decide (rest = []) = false.
Proof using Type. intros H Hn. apply bool_decide_false. intros ->. unfold blen in H. cbn in H. lia. Qed.

Lemma counted_end count : counted count [] [] = count.
Proof using Type. unfold counted. rewrite bool_decide_true by done. unfold alen. cbn. lia. Qed.

Lemma nlen_plain_ok data len rest : ∀ fuel offset count cps, cps_at data len offset cps rest → len - offset < Z.of_nat fuel → 0 <= count <= offset →
  nlen_plain fuel data len offset count = Some (counted count cps rest).
Proof using Type.
  induction fuel as [|fuel IH]; intros offset count cps H Hf Hc; [destruct (ca_tail _ _ _ _ _ H) as [? _ _ _ _]; lia|]. cbn [nlen_plain].
  pose proof (cps_length _ _ _ _ _ H) as Hl. destruct (Z.ltb_spec offset len) as [Hlt|Hge]; [|destruct (at_end _ _ _ _ _ H Hge) as [-> ->]; by rewrite counted_end].
  destruct cps as [|cp cps].
  - destruct (step_end _ _ _ _ H) as [-> Hr]. cbn [mbind option_bind]. unfold counted. by rewrite (rest_nonempty rest _ Hr) by lia.
  - destruct (step_cp _ _ _ _ _ _ H) as (-> & Eu & H' & _). cbn [mbind option_bind]. pose proof (encode_length cp). rewrite Eu, (u64_id (count + 1)) by word_lia.
    rewrite (IH _ _ cps H') by lia. unfold counted. rewrite alen_cons. case_bool_decide; f_equal; lia.
Qed.

Lemma nlen_loop_ok data len rest : ∀ fuel offset count cps simd, cps_at data len offset cps rest → len - offset < Z.of_nat fuel → 0 <= count <= offset →
  nlen_loop fuel data len offset count simd = Some (counted count cps rest).
Proof using Type.
  induction fuel as [|fuel IH]; intros offset count cps simd H Hf Hc; [destruct (ca_tail _ _ _ _ _ H) as [? _ _ _ _]; lia|]. cbn [nlen_loop].
  pose proof (cps_length _ _ _ _ _ H) as Hl. destruct (Z.ltb_spec offset len) as [Hlt|Hge]; [|destruct (at_end _ _ _ _ _ H Hge) as [-> ->]; by rewrite counted_end].
  destruct simd; cbn [negb]; [|apply nlen_plain_ok; [done|lia|done]].
  destruct (step_plain _ _ _ _ _ H) as (p & c1 & c2 & -> & E & -> & Eb & Ec & Eu & H'). cbn [mbind option_bind]. rewrite E. cbn [mbind option_bind]. rewrite Eu.
  pose proof (alen_nonneg c1). pose proof (cps_length _ _ _ _ _ H') as Hl'. pose proof (blen_nonneg (utf8 c2)). pose proof (blen_nonneg rest). rewrite (u64_id (count + alen c1)) by word_lia.
  assert (counted count (c1 ++ c2) rest = counted (count + alen c1) c2 rest) as -> by (unfold counted; rewrite alen_app; case_bool_decide; lia).
  destruct (Z.eqb_spec (offset + alen c1) len) as [He|He].
  { destruct (at_end _ _ _ _ _ H') as [-> ->]; [lia|]. by rewrite counted_end. }
  destruct c2 as [|cp c2].
  - destruct (step_end _ _ _ _ H') as [-> Hr]. cbn [mbind option_bind]. unfold counted. by rewrite (rest_nonempty rest _ Hr) by lia.
  - destruct (step_cp _ _ _ _ _ _ H') as (-> & Eu2 & Hn & Hlt2). cbn [mbind option_bind]. pose proof (encode_length cp). rewrite Eu2, u64_id by word_lia.
    rewrite (IH _ _ c2 _ Hn) by lia. unfold counted. rewrite alen_cons. case_bool_decide; f_equal; lia.
Qed.

(** Where the [k]-th code point from [offset] starts. *)
Definition nth_offset (offset k : Z) (cps : list Z) : Z :=
  if bool_decide (k <= alen cps) then offset + blen (utf8 (take (Z.to_nat k) cps)) else VSTR_NPOS.

Lemma take_plain k c1 c2 : 0 <= k <= alen c1 → Forall (λ x, x < 128) c1 → blen (utf8 (take (Z.to_nat k) (c1 ++ c2))) = k.
Proof using Type.
  intros Hk Hc. rewrite take_app_le by (unfold alen in Hk; lia). rewrite utf8_plain by (by apply Forall_take). unfold blen, alen in *. rewrite length_take. lia.
Qed.
Lemma nth_offset_app offset k c1 c2 : alen c1 <= k → Forall (λ x, x < 128) c1 → nth_offset offset k (c1 ++ c2) = nth_offset (offset + alen c1) (k - alen c1) c2.
Proof using Type.
  intros Hk Hc. unfold nth_offset. rewrite alen_app. pose proof (alen_nonneg c1). repeat case_bool_decide; try lia.
  rewrite take_app_ge by (unfold alen in *; lia). rewrite utf8_app, blen_app, (utf8_plain c1) by done. replace (Z.to_nat k - length c1)%nat with (Z.to_nat (k - alen c1)) by (unfold alen; lia).
  change (blen c1) with (alen c1). lia.
Qed.
Lemma nth_offset_cons offset k cp cps : 1 <= k → nth_offset offset k (cp :: cps) = nth_offset (offset + blen (encode cp)) (k - 1) cps.
Proof using Type.
  intros Hk. unfold nth_offset. rewrite alen_cons. repeat case_bool_decide; try lia. replace (Z.to_nat k) with (S (Z.to_nat (k - 1))) by lia. cbn [take].
  rewrite utf8_cons, blen_app. lia.
Qed.

Lemma byte_offset_loop_ok data len rest index : is_u64 index → ∀ fuel offset count cps, cps_at data len offset cps rest → len - offset < Z.of_nat fuel → 0 <= count <= offset → count < index →
  byte_offset_loop fuel data len index offset count = Some (nth_offset offset (index - count) cps).
Proof using Type.
  intros Hi. induction fuel as [|fuel IH]; intros offset count cps H Hf Hc Hlti; [destruct (ca_tail _ _ _ _ _ H) as [? _ _ _ _]; lia|]. cbn [byte_offset_loop].
  pose proof (cps_length _ _ _ _ _ H) as Hl. destruct (Z.ltb_spec offset len) as [Hlt|Hge].
  2: { destruct (at_end _ _ _ _ _ H Hge) as [-> _]. unfold nth_offset. rewrite bool_decide_false; [done|]. unfold alen. cbn. lia. }
  destruct (step_plain _ _ _ _ _ H) as (p & c1 & c2 & -> & E & -> & Eb & Ec & Eu & H'). cbn [mbind option_bind]. rewrite E. cbn [mbind option_bind].
  pose proof (alen_nonneg c1). pose proof (cps_length _ _ _ _ _ H') as Hl'. pose proof (blen_nonneg (utf8 c2)). pose proof (blen_nonneg rest). rewrite (u64_id (index - count)) by word_lia.
  destruct (Z.leb_spec (index - count) (alen c1)) as [Hle|Hgt].
  { rewrite u64_id by word_lia. unfold nth_offset. rewrite bool_decide_true by (rewrite alen_app; pose proof (alen_nonneg c2); lia). by rewrite take_plain by (done || lia). }
  rewrite Eu, (u64_id (count + alen c1)) by word_lia. rewrite nth_offset_app by (done || lia). destruct c2 as [|cp c2].
  - destruct (step_end _ _ _ _ H') as [-> Hr]. cbn [mbind option_bind]. unfold nth_offset. rewrite bool_decide_false; [done|]. change (alen (@nil Z)) with 0. lia.
  - destruct (step_cp _ _ _ _ _ _ H') as (-> & Eu2 & Hn & Hlt2). cbn [mbind option_bind]. pose proof (encode_length cp). rewrite Eu2, u64_id by word_lia.
    rewrite nth_offset_cons by lia. destruct (Z.eqb_spec (count + alen c1 + 1) index) as [He|He].
    + replace (index - count - alen c1 - 1) with 0 by lia. unfold nth_offset. rewrite bool_decide_true by apply alen_nonneg. change (blen (utf8 (take (Z.to_nat 0) c2))) with 0. by rewrite Z.add_0_r.
    + rewrite (IH _ _ c2 Hn) by lia. do 2 f_equal. lia.
Qed.
End Counting.

(** ** Searching *)

Fixpoint index_of (cp : Z) (cps : list Z) : option nat :=
  match cps with [] => None | c :: cps => if c =? cp then Some O else S <$> index_of cp cps end.
Fixpoint last_index_of (cp : Z) (cps : list Z) : option nat :=
  match cps with
  | [] => None
  | c :: cps => match last_index_of cp cps with Some i => Some (S i) | None => if c =? cp then Some O else None end
  end.
(** The place of an index in the bytes. *)
Definition place (offset : Z) (cps : list Z) (i : option nat) (none : Z) : Z :=
  match i with None => none | Some i => offset + blen (utf8 (take i cps)) end.

Lemma place_here offset cps none : place offset cps (Some O) none = offset.
Proof. unfold place. change (blen (utf8 (take 0 cps))) with 0. lia. Qed.
Lemma place_step offset cp cps i none : place (offset + blen (encode cp)) cps i none = place offset (cp :: cps) (S <$> i) none.
Proof. destruct i; cbn [place fmap option_fmap option_map take]; [|done]. rewrite utf8_cons, blen_app. lia. Qed.

Lemma find_cp_loop_ok data len rest cp : ∀ fuel offset cps, cps_at data len offset cps rest → len - offset < Z.of_nat fuel →
  find_cp_loop fuel data len cp offset = Some (place offset cps (index_of cp cps) VSTR_NPOS).
Proof.
  induction fuel as [|fuel IH]; intros offset cps H Hf; [destruct (ca_tail _ _ _ _ _ H) as [? _ _ _ _]; lia|]. cbn [find_cp_loop].
  destruct (Z.ltb_spec offset len) as [Hlt|Hge]; [|by destruct (at_end _ _ _ _ _ H Hge) as [-> ->]]. destruct cps as [|c cps].
  - by destruct (step_end _ _ _ _ H) as [-> _].
  - destruct (step_cp _ _ _ _ _ _ H) as (-> & Eu & H' & _). cbn [mbind option_bind index_of]. pose proof (encode_length c).
    destruct (c =? cp); [by rewrite place_here|]. rewrite Eu, (IH _ cps H') by lia. by rewrite place_step.
Qed.

Lemma rfind_cp_loop_ok data len rest cp : ∀ fuel offset found cps, cps_at data len offset cps rest → len - offset < Z.of_nat fuel →
  rfind_cp_loop fuel data len cp offset found = Some (if bool_decide (rest = []) then place offset cps (last_index_of cp cps) found else VSTR_NPOS).
Proof.
  induction fuel as [|fuel IH]; intros offset found cps H Hf; [destruct (ca_tail _ _ _ _ _ H) as [? _ _ _ _]; lia|]. cbn [rfind_cp_loop].
  destruct (Z.ltb_spec offset len) as [Hlt|Hge]; [|by destruct (at_end _ _ _ _ _ H Hge) as [-> ->]]. destruct cps as [|c cps].
  - destruct (step_end _ _ _ _ H) as [-> Hr]. cbn [mbind option_bind]. by rewrite (rest_nonempty rest _ Hr) by lia.
  - destruct (step_cp _ _ _ _ _ _ H) as (-> & Eu & H' & _). cbn [mbind option_bind last_index_of]. pose proof (encode_length c). rewrite Eu, (IH _ _ cps H') by lia.
    case_bool_decide; [|done]. f_equal. destruct (last_index_of cp cps) as [i|]; [exact (place_step offset c cps (Some i) _)|]. destruct (c =? cp); [by rewrite place_here|done].
Qed.

Fixpoint sub_index (needle cps : list Z) : option nat :=
  if bool_decide (needle `prefix_of` cps) then Some O else match cps with [] => None | _ :: cps => S <$> sub_index needle cps end.

Lemma utf8_prefix n h : Forall scalar n → Forall scalar h → utf8 n `prefix_of` utf8 h ↔ n `prefix_of` h.
Proof.
  intros Hn. revert h. induction Hn as [|c n Hc _ IH]; intros h Hh; [split; intros _; apply prefix_nil|]. destruct Hh as [|c' h Hc' Hh].
  - split; [|by intros ?%prefix_nil_not]. intros [t E]. rewrite utf8_cons in E. symmetry in E. apply app_nil in E as [E _]. apply app_nil in E as [E _]. by apply encode_nonempty in E.
  - rewrite !utf8_cons. split.
    + intros [t E]. rewrite <-app_assoc in E. apply encode_inj in E as [-> E]; [|done..]. apply prefix_cons, IH; [done|]. by exists t.
    + intros H. pose proof (prefix_cons_inv_1 _ _ _ _ H) as ->. apply prefix_cons_inv_2 in H. apply prefix_app, IH; done.
Qed.

(** ** Views *)

(** A view of the bytes [bs] at the address [a]. *)
Record view_of (v : vstr) (a : Z) (bs : list Z) : Prop := {
  vo_data : vs_data v = Some (a, bs);
  vo_bytes : bytes_ok bs;
  vo_len : 0 <= vs_len v <= blen bs;
  vo_max : vs_len v <= SIZE_MAX
}.
Definition shown (v : vstr) (bs : list Z) : list Z := take (Z.to_nat (vs_len v)) bs.

(** What the functions answer on a view of [utf8 cps ++ rest]. *)
Record utf8_answers {SI : Simd} (v : vstr) (a : Z) (bs cps rest : list Z) : Prop := {
  ua_invalid : vstr_utf8_invalid_offset v = Some (first_invalid 0 cps rest);
  ua_valid : vstr_utf8_valid v = Some (bool_decide (rest = []));
  ua_len : vstr_utf8_len v = Some (counted 0 cps rest);
  ua_offset k : is_u64 k → vstr_utf8_byte_offset v k = Some (nth_offset 0 k cps);
  ua_sub pos count : is_u64 pos → is_u64 count → vstr_utf8_sub v pos count = Some (
    if bool_decide (rest = [] ∧ pos < alen cps ∧ count ≠ 0) then
      let start := blen (utf8 (take (Z.to_nat pos) cps)) in
      MkVstr (Some (a + start, drop (Z.to_nat start) bs)) (blen (utf8 (take (Z.to_nat count) (drop (Z.to_nat pos) cps))))
    else MkVstr None 0);
  ua_next x : vstr_utf8_next (Some v) (Some x) = Some (
    match cps with
    | [] => (false, Some v, Some x)
    | cp :: _ =>
        let w := blen (encode cp) in (true, Some (MkVstr (Some (a + w, drop (Z.to_nat w) bs)) (vs_len v - w)), Some cp)
    end);
  ua_find cp : vstr_utf8_find_cp v cp = Some (if tstr_utf8_codepoint_size cp =? 0 then VSTR_NPOS else place 0 cps (index_of cp cps) VSTR_NPOS);
  ua_rfind cp : vstr_utf8_rfind_cp v cp = Some (
    if tstr_utf8_codepoint_size cp =? 0 then VSTR_NPOS else if bool_decide (rest = []) then place 0 cps (last_index_of cp cps) VSTR_NPOS else VSTR_NPOS)
}.

Lemma view_cps v a bs cps rest : view_of v a bs → shown v bs = utf8 cps ++ rest → Forall scalar cps → stuck rest → cps_at (a, bs) (vs_len v) 0 cps rest.
Proof.
  intros [Hd Hb Hl Hm] E Hc Hs. split; [|done|done]. split; cbn [snd]; try done; try lia. by rewrite Z.sub_0_r, drop_0.
Qed.
Lemma view_valid v a bs : view_of v a bs → vstr_is_valid v = true.
Proof. intros [Hd _ _ _]. unfold vstr_is_valid. by rewrite Hd. Qed.

Section Views.
Context {SI : Simd}.

Lemma invalid_offset_ok v a bs cps rest : view_of v a bs → cps_at (a, bs) (vs_len v) 0 cps rest → vstr_utf8_invalid_offset v = Some (first_invalid 0 cps rest).
Proof using Type.
  intros Hv H. unfold vstr_utf8_invalid_offset. rewrite (view_valid _ _ _ Hv), (vo_data _ _ _ Hv). cbn [negb]. apply invalid_loop_ok; [done|]. destruct (vo_len _ _ _ Hv). lia.
Qed.
Lemma utf8_valid_ok v a bs cps rest : view_of v a bs → cps_at (a, bs) (vs_len v) 0 cps rest → vstr_utf8_valid v = Some (bool_decide (rest = [])).
Proof using Type.
  intros Hv H. unfold vstr_utf8_valid. rewrite (invalid_offset_ok _ _ _ _ _ Hv H). cbn [mbind option_bind]. f_equal. unfold first_invalid. case_bool_decide as Hr; [done|].
  destruct (cps_length _ _ _ _ _ H) as (_ & Hl & Hm). apply Z.eqb_neq. unfold VSTR_NPOS. pose proof (blen_nonneg rest). assert (blen rest ≠ 0) by (by rewrite <-nil_blen). lia.
Qed.
Lemma byte_offset_ok v a bs cps rest k : view_of v a bs → cps_at (a, bs) (vs_len v) 0 cps rest → is_u64 k → vstr_utf8_byte_offset v k = Some (nth_offset 0 k cps).
Proof using Type.
  intros Hv H Hk. unfold vstr_utf8_byte_offset. rewrite (view_valid _ _ _ Hv), (vo_data _ _ _ Hv). cbn [negb]. destruct (Z.eqb_spec k 0) as [->|Hk0].
  - unfold nth_offset. rewrite bool_decide_true by apply alen_nonneg. done.
  - rewrite (byte_offset_loop_ok _ _ rest k Hk _ 0 0 cps H); [by rewrite Z.sub_0_r|destruct (vo_len _ _ _ Hv); lia|lia|word_lia].
Qed.

(** The part of a view behind its first [pos] code points. *)
Lemma behind v a bs c1 c2 : view_of v a bs → cps_at (a, bs) (vs_len v) 0 (c1 ++ c2) [] →
  let start := blen (utf8 c1) in let v' := MkVstr (Some (a + start, drop (Z.to_nat start) bs)) (vs_len v - start) in
  padd (a, bs) start = Some (a + start, drop (Z.to_nat start) bs) ∧ u64 (vs_len v - start) = vs_len v - start ∧ view_of v' (a + start) (drop (Z.to_nat start) bs) ∧
  cps_at (a + start, drop (Z.to_nat start) bs) (vs_len v - start) 0 c2 [] ∧ vs_len v - start = blen (utf8 c2).
Proof using Type.
  intros Hv [Ht Hc Hr] start v'. apply Forall_app in Hc as [_ Hc]. rewrite utf8_app, <-app_assoc in Ht. apply tail_step in Ht. rewrite Z.add_0_l in Ht.
  destruct (tail_pointer _ _ _ _ Ht) as (E1 & E2 & E3 & E4). destruct (tail_whole _ _ _ _ Ht) as (p & E1' & Hp). rewrite E1 in E1'. injection E1' as <-.
  cbn [fst snd] in *. fold start in E1, E2, E3, E4, Hp, Ht. pose proof (tail_length _ _ _ _ Ht) as Hl. rewrite blen_app in Hl. change (blen (@nil Z)) with 0 in Hl.
  split; [done|]. split; [done|]. split; [|split; [by split|lia]]. destruct Hv as [? ? ? ?]. split; cbn; try done; try lia. pose proof (blen_nonneg (utf8 c1)). fold start in H. lia.
Qed.

Lemma sub_ok v a bs cps rest pos count : view_of v a bs → cps_at (a, bs) (vs_len v) 0 cps rest → is_u64 pos → is_u64 count → vstr_utf8_sub v pos count = Some (
    if bool_decide (rest = [] ∧ pos < alen cps ∧ count ≠ 0) then
      let start := blen (utf8 (take (Z.to_nat pos) cps)) in
      MkVstr (Some (a + start, drop (Z.to_nat start) bs)) (blen (utf8 (take (Z.to_nat count) (drop (Z.to_nat pos) cps))))
    else MkVstr None 0).
Proof using Type.
  intros Hv H Hpos Hcount. unfold vstr_utf8_sub. rewrite (utf8_valid_ok _ _ _ _ _ Hv H). cbn [mbind option_bind]. destruct (decide (rest = [])) as [->|Hr].
  2: { rewrite !bool_decide_false by tauto. done. }
  rewrite (bool_decide_true ([] = [])) by done. cbn [negb]. rewrite (byte_offset_ok _ _ _ _ _ pos Hv H Hpos). cbn [mbind option_bind].
  destruct (cps_length _ _ _ _ _ H) as (_ & Hl & Hm). rewrite Z.sub_0_r in Hl. change (blen (@nil Z)) with 0 in Hl.
  unfold nth_offset at 1. destruct (decide (pos <= alen cps)) as [Hle|Hle]; [|rewrite !bool_decide_false by lia; done].
  assert (nth_offset 0 pos cps = blen (utf8 (take (Z.to_nat pos) cps))) as -> by (unfold nth_offset; rewrite bool_decide_true by done; lia). rewrite (bool_decide_true (pos <= alen cps)), Z.add_0_l by done.
  set (c1 := take (Z.to_nat pos) cps). set (c2 := drop (Z.to_nat pos) cps). assert (cps = c1 ++ c2) as Ecps by (symmetry; apply take_drop).
  rewrite Ecps in H, Hl. rewrite utf8_app, blen_app in Hl. assert (alen c2 = alen cps - pos) as Hc2 by (subst c2; unfold alen in *; rewrite length_drop; word_lia).
  pose proof (alen_le_utf8 c2). pose proof (blen_nonneg (utf8 c1)). destruct (Z.eqb_spec (blen (utf8 c1)) VSTR_NPOS) as [En|En]; cbn [orb].
  { rewrite bool_decide_false; [done|]. unfold VSTR_NPOS in En. intros (_ & ? & _). pose proof (blen_nonneg (utf8 c2)). lia. }
  destruct (Z.leb_spec (vs_len v) (blen (utf8 c1))) as [Hend|Hin]; cbn [orb].
  { rewrite bool_decide_false; [done|]. intros (_ & ? & _). lia. }
  destruct (Z.eqb_spec count 0) as [->|Hc0]; [rewrite bool_decide_false by tauto; done|].
  rewrite bool_decide_true. 2: { split; [done|]. split; [|done]. destruct (decide (pos < alen cps)); [done|]. assert (c2 = []) as E by (apply drop_ge; unfold alen in *; word_lia). rewrite E in Hl. change (blen (utf8 [])) with 0 in Hl. lia. }
  rewrite (vo_data _ _ _ Hv). cbn [mbind option_bind]. 
  destruct (behind v a bs c1 c2 Hv H) as (-> & -> & Hv' & H' & Hlen). cbn [mbind option_bind vstr_from_buf is_null vs_data vs_len]. cbv zeta.
  assert (∀ k, alen c2 <= k → take (Z.to_nat k) c2 = c2) as Htk by (intros k Hk; apply take_ge; unfold alen in Hk; lia).
  assert (alen c2 <= SIZE_MAX) as Hsm by lia. destruct (Z.eqb_spec count SIZE_MAX) as [->|Hcm]; [rewrite Htk by done; by rewrite Hlen|].
  unfold vstr_from_buf. cbn [is_null]. rewrite (byte_offset_ok _ _ _ _ _ count Hv' H' Hcount). cbn [mbind option_bind vs_data vs_len is_null]. do 2 f_equal. unfold nth_offset.
  case_bool_decide as Hk; [rewrite Z.add_0_l|].
  - destruct (Z.eqb_spec (blen (utf8 (take (Z.to_nat count) c2))) VSTR_NPOS) as [E|E]; [|done]. rewrite Hlen. unfold VSTR_NPOS in E.
    assert (blen (utf8 c2) = blen (utf8 (take (Z.to_nat count) c2)) + blen (utf8 (drop (Z.to_nat count) c2))) as Hsp by (rewrite <-blen_app, <-utf8_app, take_drop; done).
    pose proof (blen_nonneg (utf8 (drop (Z.to_nat count) c2))). lia.
  - rewrite Z.eqb_refl, Hlen, Htk by lia. done.
Qed.

Lemma next_ok v a bs cps rest x : view_of v a bs → cps_at (a, bs) (vs_len v) 0 cps rest → vstr_utf8_next (Some v) (Some x) = Some (
    match cps with
    | [] => (false, Some v, Some x)
    | cp :: _ =>
        let w := blen (encode cp) in (true, Some (MkVstr (Some (a + w, drop (Z.to_nat w) bs)) (vs_len v - w)), Some cp)
    end).
Proof using Type.
  intros Hv H. pose proof (vo_len _ _ _ Hv) as Hlen. pose proof (vo_max _ _ _ Hv) as Hmax. unfold vstr_utf8_next. rewrite (view_valid _ _ _ Hv), (vo_data _ _ _ Hv). cbn [negb]. rewrite orb_false_r.
  assert (decode_at (a, bs) (vs_len v) 0 = tstr_utf8_decode_one (Some (a, bs)) (vs_len v)) as Ed.
  { unfold decode_at, padd. rewrite bool_decide_true by (cbn [snd]; pose proof (blen_nonneg bs); lia). cbn [mbind option_bind fst snd]. by rewrite Z.sub_0_r, Z.add_0_r, drop_0, u64_id by word_lia. }
  destruct (Z.eqb_spec (vs_len v) 0) as [H0|H0]; [destruct (at_end _ _ _ _ _ H) as [-> _]; [lia|done]|]. destruct cps as [|cp cps].
  - destruct (step_end _ _ _ _ H) as [E _]. rewrite Ed in E. by rewrite E.
  - destruct (step_cp _ _ _ _ _ _ H) as (E & _ & H' & _). rewrite Ed in E. rewrite E. cbn [mbind option_bind]. rewrite Z.add_0_l in H'. destruct (ca_tail _ _ _ _ _ H') as [Hw _ _ _ _].
    unfold padd. rewrite bool_decide_true by (cbn [snd]; lia). cbn [mbind option_bind fst snd vstr_from_buf is_null]. unfold vstr_from_buf. cbn [is_null].
    pose proof (encode_length cp). by rewrite u64_id by word_lia.
Qed.

(** ** Finding a view in a view *)

Lemma prefix_blen n h : n `prefix_of` h → blen (utf8 n) <= blen (utf8 h).
Proof using Type. intros [t ->]. rewrite utf8_app, blen_app. pose proof (blen_nonneg (utf8 t)). lia. Qed.
Lemma sub_index_short n cps : blen (utf8 cps) < blen (utf8 n) → sub_index n cps = None.
Proof using Type.
  induction cps as [|c cps IH]; intros H; cbn [sub_index]; (rewrite bool_decide_false; [|intros ?%prefix_blen; lia]); [done|].
  rewrite IH; [done|]. rewrite utf8_cons, blen_app in H. pose proof (encode_length c). lia.
Qed.

Lemma same_bytes_ok h hlen offset cps np nlen ncps : cps_at h hlen offset cps [] → cps_at np nlen 0 ncps [] → nlen <= hlen - offset → 0 <= nlen →
  same_bytes h offset np nlen = Some (bool_decide (ncps `prefix_of` cps)).
Proof using Type.
  intros [Hh Hhc _] [Hn Hnc _] Hle H0. unfold same_bytes. rewrite app_nil_r in Hh, Hn. pose proof (tail_length _ _ _ _ Hn) as Hl. rewrite Z.sub_0_r in Hl.
  rewrite (tail_slice _ _ _ _ nlen Hh) by lia. cbn [mbind option_bind]. rewrite (tail_slice _ _ _ _ nlen Hn) by lia. cbn [mbind option_bind]. f_equal. apply bool_decide_ext.
  rewrite <-(utf8_prefix ncps cps) by done. rewrite (take_ge (utf8 ncps)) by (unfold blen in Hl; lia). split.
  - intros <-. exists (drop (Z.to_nat nlen) (utf8 cps)). by rewrite take_drop.
  - intros [t ->]. rewrite take_app_length'; [done|]. unfold blen in Hl. lia.
Qed.

Lemma utf8_find_loop_ok h hlen np nlen ncps : cps_at np nlen 0 ncps [] → 0 < nlen <= hlen → ∀ fuel offset cps, cps_at h hlen offset cps [] → hlen - offset < Z.of_nat fuel →
  find_loop fuel h hlen np nlen offset = Some (place offset cps (sub_index ncps cps) VSTR_NPOS).
Proof using Type.
  intros Hn Hnl. pose proof (cps_length _ _ _ _ _ Hn) as HN. change (blen (@nil Z)) with 0 in HN.
  induction fuel as [|fuel IH]; intros offset cps H Hf; [destruct (ca_tail _ _ _ _ _ H) as [? _ _ _ _]; lia|]. cbn [find_loop].
  pose proof (cps_length _ _ _ _ _ H) as HH. change (blen (@nil Z)) with 0 in HH. rewrite u64_id by word_lia. destruct (Z.leb_spec offset (hlen - nlen)) as [Hle|Hgt].
  2: { rewrite sub_index_short by lia. done. }
  rewrite (same_bytes_ok _ _ _ _ _ _ _ H Hn) by lia. cbn [mbind option_bind]. destruct cps as [|c cps]; [change (blen (utf8 [])) with 0 in HH; lia|]. cbn [sub_index].
  case_bool_decide; [by rewrite place_here|]. destruct (step_cp _ _ _ _ _ _ H) as (-> & Eu & H' & _). cbn [mbind option_bind]. pose proof (encode_length c).
  rewrite Eu, (IH _ cps H') by lia. by rewrite place_step.
Qed.

(** A valid view is found in a valid view at the first of its code points from which on it
    has the code points of the other. *)
Theorem utf8_find_exact h a bs hcps n b ns ncps : view_of h a bs → view_of n b ns → shown h bs = utf8 hcps → shown n ns = utf8 ncps →
  Forall scalar hcps → Forall scalar ncps → vstr_utf8_find h n = Some (place 0 hcps (sub_index ncps hcps) VSTR_NPOS).
Proof using Type.
  intros Hh Hn Eh En Hhc Hnc. assert (cps_at (a, bs) (vs_len h) 0 hcps []) as Ch by (apply view_cps; [done|by rewrite app_nil_r|done|apply stuck_nil]).
  assert (cps_at (b, ns) (vs_len n) 0 ncps []) as Cn by (apply view_cps; [done|by rewrite app_nil_r|done|apply stuck_nil]).
  unfold vstr_utf8_find. rewrite (utf8_valid_ok _ _ _ _ _ Hh Ch), (utf8_valid_ok _ _ _ _ _ Hn Cn). cbn [mbind option_bind]. rewrite bool_decide_true by done. cbn [negb].
  pose proof (vo_len _ _ _ Hn). pose proof (vo_len _ _ _ Hh). destruct (Z.eqb_spec (vs_len n) 0) as [Hz|Hz].
  { destruct (at_end _ _ _ _ _ Cn) as [-> _]; [lia|]. destruct hcps; cbn [sub_index]; by rewrite bool_decide_true by apply prefix_nil. }
  pose proof (cps_length _ _ _ _ _ Ch) as LH. pose proof (cps_length _ _ _ _ _ Cn) as LN. change (blen (@nil Z)) with 0 in *.
  destruct (Z.ltb_spec (vs_len h) (vs_len n)); [rewrite sub_index_short by lia; done|]. rewrite (vo_data _ _ _ Hh), (vo_data _ _ _ Hn). cbn [mbind option_bind].
  apply utf8_find_loop_ok; [done|lia|done|lia].
Qed.

(** C29. The bytes of a view are in exactly one way encodings of Unicode scalar values followed by
    a rest that starts with no encoding, and the functions answer from that decomposition: the first
    invalid offset is where the rest starts, the view is valid when there is none; the
    length is the number of code points; the offset of a code point and the slice
    between two of them are those of the list; reading takes the first one off;
    searching finds the first and the last. The scan sixteen bytes at a time changes
    no answer and no read leaves the view. *)
Theorem utf8_view_exact v a bs : view_of v a bs →
  ∃ cps rest, shown v bs = utf8 cps ++ rest ∧ Forall scalar cps ∧ stuck rest ∧ utf8_answers v a bs cps rest ∧
    ∀ cps' rest', shown v bs = utf8 cps' ++ rest' → Forall scalar cps' → stuck rest' → cps' = cps ∧ rest' = rest.
Proof using Type.
  intros Hv. destruct (utf8_split (shown v bs)) as (cps & rest & E & Hc & Hs); [apply Forall_take, (vo_bytes _ _ _ Hv)|].
  exists cps, rest. do 3 (split; [done|]). pose proof (view_cps v a bs cps rest Hv E Hc Hs) as H. pose proof (vo_len _ _ _ Hv) as Hl. split.
  2: { intros cps' rest' E' Hc' Hs'. rewrite E in E'. destruct (utf8_unique _ _ _ _ Hc Hc' Hs Hs' E') as [-> ->]. done. }
  split.
  - by eapply invalid_offset_ok.
  - by eapply utf8_valid_ok.
  - unfold vstr_utf8_len, vstr_utf8_nlen. rewrite (view_valid _ _ _ Hv), (vo_data _ _ _ Hv), Z.ltb_irrefl. cbn [negb]. apply nlen_loop_ok; [done|lia|lia].
  - intros k Hk. by eapply byte_offset_ok.
  - intros pos count Hp Hk. by apply (sub_ok v a bs cps rest).
  - intros x. by eapply next_ok.
  - intros cp. unfold vstr_utf8_find_cp. rewrite (view_valid _ _ _ Hv), (vo_data _ _ _ Hv), orb_false_r. destruct (tstr_utf8_codepoint_size cp =? 0); [done|].
    rewrite (find_cp_loop_ok _ _ rest cp _ 0 cps H) by lia. done.
  - intros cp. unfold vstr_utf8_rfind_cp. rewrite (view_valid _ _ _ Hv), (vo_data _ _ _ Hv), orb_false_r. destruct (tstr_utf8_codepoint_size cp =? 0); [done|].
    rewrite (rfind_cp_loop_ok _ _ rest cp _ 0 _ cps H) by lia. done.
Qed.
End Views.

(** A view with code points of one to four bytes, cut inside of the last one. *)
Definition some_text : list Z := utf8 [97; 233; 8364; 128512; 33] ++ [240; 159].
Lemma utf8_view_exact_witness :
  view_of (MkVstr (Some (4096, some_text)) 13) 4096 some_text ∧
  (∃ cps rest, shown (MkVstr (Some (4096, some_text)) 13) some_text = utf8 cps ++ rest ∧ utf8_answers (MkVstr (Some (4096, some_text)) 13) 4096 some_text cps rest ∧
    cps = [97; 233; 8364; 128512; 33] ∧ rest = [240; 159]) ∧
  vstr_utf8_invalid_offset (MkVstr (Some (4096, some_text)) 13) = Some 11.
Proof.
  assert (view_of (MkVstr (Some (4096, some_text)) 13) 4096 some_text) as H by (split; [done|by_eval|by_eval|by_eval]). split; [done|].
  destruct (utf8_view_exact (MkVstr (Some (4096, some_text)) 13) 4096 some_text H) as (cps & rest & E & Hc & Hs & HA & HU). split; [|vm_compute; reflexivity].
  exists cps, rest. split; [done|]. split; [done|]. destruct (HU [97; 233; 8364; 128512; 33] [240; 159]) as [-> ->]; [vm_compute; reflexivity| | |done].
  - unfold scalar. repeat constructor; lia.
  - assert (tstr_utf8_decode_one (Some (0, [240; 159])) 2 = Some None) as Ed by (vm_compute; reflexivity). intros cp t Hcp E2.
    assert (blen (encode cp) <= 2) as Hl. { apply (f_equal blen) in E2. rewrite blen_app in E2. change (blen [240; 159]) with 2 in E2. pose proof (blen_nonneg t). lia. }
    rewrite E2, decode_encode in Ed by done. done.
Defined.
