(* ===== verification/Levenshtein.v ===== *)
(** * Approximate search ([utils/src/levenshtein_automaton.c])

    A pattern of bytes or of code points, kept in a vector, is searched in a
    text with a table of two rows: the distance of each prefix of the pattern to
    the nearest part of the text that ends here, and where that part starts. *)

From S2P Require Import Prelude World Sequence Vec H2Frame Utf8.
Local Open Scope Z_scope.

Definition SALTS_ENOMEM : Z := -4030.
Definition SALTS_ERANGE : Z := -4045.
Definition SALTS_EIO : Z := -4017.
Definition LEVENSHTEIN_INF : Z := SIZE_MAX / 4.

Definition salts_core_status_from_stl (status : stl_status) : Z :=
  match status with
  | STL_OK => SALTS_OK
  | STL_INVALID_ARGUMENT => SALTS_EINVAL
  | STL_OUT_OF_MEMORY => SALTS_ENOMEM
  | STL_CAPACITY_EXCEEDED => SALTS_ERANGE
  | _ => SALTS_EIO
  end.

(** The structures of both kinds have the same fields. *)
Record lev_automaton := MkLev { lv_pattern : vec_t Z; lv_max_distance : Z; lv_initialized : bool }.

Definition lev_zero : lev_automaton := MkLev (storage_zero 0) 0 false.

Definition lev_safe_add (lhs rhs : Z) : Z :=
  if (LEVENSHTEIN_INF <? lhs) || (u64 (LEVENSHTEIN_INF - lhs) <? rhs) then LEVENSHTEIN_INF else u64 (lhs + rhs).

(** Arrays of [size_t]; a place that was never written cannot be read. *)
Notation warray := (list (option Z)).

(** ** Setting up *)

(** The loop over the bytes: [n] are left, the next is at [i]. *)
Fixpoint push_bytes (n : nat) (data : pointer) (i : Z) (vec : option (vec_t Z)) : M (Z * option (vec_t Z)) :=
  match n with
  | O => mret (SALTS_OK, vec)
  | S n =>
      byte ← lift (load data.2 i);
      '(status, vec) ← vec_push vec (Some byte);
      if negb (bool_decide (status = STL_OK)) then vec ← vec_raw_destroy_storage vec; mret (salts_core_status_from_stl status, vec)
      else push_bytes n data (i + 1) vec
  end.

Section Automaton.
Context {SI : Simd}.

(** The loop over the code points: every round takes at least a byte. *)
Fixpoint push_codepoints (fuel : nat) (rest : vstr) (cp : Z) (vec : option (vec_t Z)) : M (Z * option (vec_t Z)) :=
  match fuel with
  | O => lift None
  | S fuel =>
      if 0 <? vs_len rest then
        '(ok, rest, cp) ← lift (vstr_utf8_next (Some rest) (Some cp));
        if negb ok then vec ← vec_raw_destroy_storage vec; mret (SALTS_EINVAL, vec) else
        rest ← lift rest;
        cp ← lift cp;
        '(status, vec) ← vec_push vec (Some cp);
        if negb (bool_decide (status = STL_OK)) then vec ← vec_raw_destroy_storage vec; mret (salts_core_status_from_stl status, vec)
        else push_codepoints fuel rest cp vec
      else mret (SALTS_OK, vec)
  end.

Definition lev_init_common (lev : option lev_automaton) (pattern : vstr) (max_distance : Z) (utf8_pattern : bool) : M (Z * option lev_automaton) :=
  match lev with
  | None => mret (SALTS_EINVAL, lev)
  | Some l =>
      if (is_null (vs_data pattern) && negb (vs_len pattern =? 0)) || (LEVENSHTEIN_INF <? max_distance) then mret (SALTS_EINVAL, lev) else
      if lv_initialized l then mret (SALTS_EINVAL, lev) else
      valid ← (if utf8_pattern then lift (vstr_utf8_valid pattern) else mret true);
      if negb valid then mret (SALTS_EINVAL, lev) else
      if vs_len pattern =? 0 then mret (SALTS_EINVAL, lev) else
      let width := if utf8_pattern then 4 else 1 in
      let '(status, vec) := vec_init_bytes (Some (lv_pattern l)) width width (vs_len pattern) in
      if negb (bool_decide (status = STL_OK)) then mret (salts_core_status_from_stl status, lev) else
      '(rc, vec) ←
        (if utf8_pattern then push_codepoints (S (Z.to_nat (vs_len pattern))) pattern 0 vec
         else data ← lift (vs_data pattern); push_bytes (Z.to_nat (vs_len pattern)) data 0 vec);
      v ← lift vec;
      if negb (rc =? SALTS_OK) then mret (rc, Some (MkLev v (lv_max_distance l) (lv_initialized l)))
      else mret (SALTS_OK, Some (MkLev v max_distance true))
  end.

Definition lev_automaton_init (lev : option lev_automaton) (pattern : vstr) (max_distance : Z) : M (Z * option lev_automaton) :=
  lev_init_common lev pattern max_distance false.
Definition lev_utf8_automaton_init (lev : option lev_automaton) (pattern : vstr) (max_distance : Z) : M (Z * option lev_automaton) :=
  lev_init_common lev pattern max_distance true.

Definition lev_automaton_create : M (option lev_automaton) :=
  p ← malloc; mret (if is_null p then None else Some lev_zero).

Definition lev_automaton_destroy (lev : option lev_automaton) : M (option lev_automaton) :=
  match lev with
  | None => mret lev
  | Some l => if negb (lv_initialized l) then mret lev else _ ← vec_raw_destroy_storage (Some (lv_pattern l)); mret (Some lev_zero)
  end.

Definition lev_automaton_free (lev : option lev_automaton) : M unit :=
  match lev with None => mret tt | Some _ => _ ← lev_automaton_destroy lev; mfree end.

(** The same for code points. *)
Definition lev_utf8_automaton_create : M (option lev_automaton) :=
  p ← malloc; mret (if is_null p then None else Some lev_zero).

Definition lev_utf8_automaton_destroy (lev : option lev_automaton) : M (option lev_automaton) :=
  match lev with
  | None => mret lev
  | Some l => if negb (lv_initialized l) then mret lev else _ ← vec_raw_destroy_storage (Some (lv_pattern l)); mret (Some lev_zero)
  end.

Definition lev_utf8_automaton_free (lev : option lev_automaton) : M unit :=
  match lev with None => mret tt | Some _ => _ ← lev_utf8_automaton_destroy lev; mfree end.

(** ** The search *)

Definition wget (a : warray) (i : Z) : option Z := mjoin (aget a i).
Definition wset (a : warray) (i v : Z) : option warray := aset a i (Some v).
Definition wfresh (entries : Z) : warray := replicate (Z.to_nat (u64 (entries * 8) / 8)) None.

(** The rows; [curr] is written while [prev] is read. *)
Record rows := MkRows { r_prev_dp : warray; r_curr_dp : warray; r_prev_start : warray; r_curr_start : warray }.

(** [for (j = 0; j <= pattern_len; ++j)]: [n] places are left. *)
Fixpoint first_row (n : nat) (j : Z) (r : rows) : option rows :=
  match n with
  | O => Some r
  | S n =>
      dp ← wset (r_prev_dp r) j j;
      start ← wset (r_prev_start r) j 0;
      first_row n (j + 1) (MkRows dp (r_curr_dp r) start (r_curr_start r))
  end.

Definition lev_cell (pattern : warray) (c j : Z) (r : rows) : option rows :=
  d ← wget (r_prev_dp r) j;
  i ← wget (r_curr_dp r) (j - 1);
  s ← wget (r_prev_dp r) (j - 1);
  pc ← wget pattern (j - 1);
  let del := lev_safe_add d 1 in
  let ins := lev_safe_add i 1 in
  let sub := lev_safe_add s (if pc =? c then 0 else 1) in
  del_start ← wget (r_prev_start r) j;
  ins_start ← wget (r_curr_start r) (j - 1);
  sub_start ← wget (r_prev_start r) (j - 1);
  let '(best, best_start) := (del, del_start) in
  let '(best, best_start) := if (ins <? best) || ((ins =? best) && (ins_start <? best_start)) then (ins, ins_start) else (best, best_start) in
  let '(best, best_start) := if (sub <? best) || ((sub =? best) && (sub_start <? best_start)) then (sub, sub_start) else (best, best_start) in
  dp ← wset (r_curr_dp r) j best;
  start ← wset (r_curr_start r) j best_start;
  Some (MkRows (r_prev_dp r) dp (r_prev_start r) start).

Fixpoint lev_row (n : nat) (pattern : warray) (c j : Z) (r : rows) : option rows :=
  match n with O => Some r | S n => r ← lev_cell pattern c j r; lev_row n pattern c (j + 1) r end.

Definition swap_rows (r : rows) : rows := MkRows (r_curr_dp r) (r_prev_dp r) (r_curr_start r) (r_prev_start r).

(** The callback takes start, end and distance and may stop the search. *)
Fixpoint lev_scan {U} (n : nat) (pattern : warray) (pattern_len max_distance : Z) (text_at : Z → option Z) (cb : Z → Z → Z → U → bool * U) (i : Z) (r : rows) (u : U) : option U :=
  match n with
  | O => Some u
  | S n =>
      c ← text_at i;
      dp ← wset (r_curr_dp r) 0 0;
      start ← wset (r_curr_start r) 0 (u64 (i + 1));
      r ← lev_row (Z.to_nat pattern_len) pattern c 1 (MkRows (r_prev_dp r) dp (r_prev_start r) start);
      d ← wget (r_curr_dp r) pattern_len;
      s ← wget (r_curr_start r) pattern_len;
      if (pattern_len <=? u64 (i + 1)) && (d <=? max_distance) && (s <=? u64 (i + 1)) then
        let '(go, u) := cb s (u64 (i + 1)) d u in
        if negb go then Some u else lev_scan n pattern pattern_len max_distance text_at cb (i + 1) (swap_rows r) u
      else lev_scan n pattern pattern_len max_distance text_at cb (i + 1) (swap_rows r) u
  end.

Definition free_unless_null (p : option Z) : M unit := if is_null p then mret tt else mfree.
Definition free_four (a b c d : option Z) : M unit :=
  _ ← free_unless_null a; _ ← free_unless_null b; _ ← free_unless_null c; free_unless_null d.

Definition lev_match_bytes {U} (pattern : warray) (pattern_len max_distance : Z) (text : vstr) (cb : Z → Z → Z → U → bool * U) (u : U) : M (Z * U) :=
  a ← malloc; b ← malloc; c ← malloc; d ← malloc;
  if is_null a || is_null b || is_null c || is_null d then _ ← free_four a b c d; mret (SALTS_ENOMEM, u) else
  let fresh := wfresh (u64 (pattern_len + 1)) in
  r ← lift (first_row (S (Z.to_nat pattern_len)) 0 (MkRows fresh fresh fresh fresh));
  u ← lift (lev_scan (Z.to_nat (vs_len text)) pattern pattern_len max_distance (λ i, data ← vs_data text; load data.2 i) cb 0 r u);
  _ ← free_four a b c d;
  mret (SALTS_OK, u).

(** The code points of the text, in an array that grows by one each round. *)
Fixpoint decode_text (fuel : nat) (rest : vstr) (cp : Z) (block : option Z) (cps : list Z) : M (option (option Z * list Z) * option Z) :=
  match fuel with
  | O => lift None
  | S fuel =>
      if 0 <? vs_len rest then
        '(ok, rest, cp) ← lift (vstr_utf8_next (Some rest) (Some cp));
        if negb ok then mret (None, Some SALTS_EINVAL) else
        rest ← lift rest;
        cp ← lift cp;
        grown ← realloc block;
        if is_null grown then _ ← free_unless_null block; mret (None, Some SALTS_ENOMEM) else
        decode_text fuel rest cp grown (cps ++ [cp])
      else mret (Some (block, cps), None)
  end.

Definition lev_match_utf8 {U} (pattern : warray) (pattern_len max_distance : Z) (text : vstr) (cb : Z → Z → Z → U → bool * U) (u : U) : M (Z * U) :=
  valid ← lift (vstr_utf8_valid text);
  if negb valid then mret (SALTS_EINVAL, u) else
  a ← malloc; b ← malloc; c ← malloc; d ← malloc;
  if is_null a || is_null b || is_null c || is_null d then _ ← free_four a b c d; mret (SALTS_ENOMEM, u) else
  '(text_cps, error) ← decode_text (S (Z.to_nat (vs_len text))) text 0 None [];
  match text_cps with
  | None => _ ← free_four a b c d; mret (default SALTS_EINVAL error, u)
  | Some (block, cps) =>
      let fresh := wfresh (u64 (pattern_len + 1)) in
      r ← lift (first_row (S (Z.to_nat pattern_len)) 0 (MkRows fresh fresh fresh fresh));
      u ← lift (lev_scan (length cps) pattern pattern_len max_distance (aget cps) cb 0 r u);
      _ ← free_four a b c d;
      _ ← free_unless_null block;
      mret (SALTS_OK, u)
  end.

(** The common start of both: the pattern of a usable automaton. *)
Definition lev_usable (lev : option lev_automaton) (text : vstr) : option (warray * Z * Z) :=
  match lev with
  | None => None
  | Some l =>
      if negb (lv_initialized l) || (is_null (vs_data text) && negb (vs_len text =? 0)) then None else
      let pattern_len := vec_size (Some (lv_pattern l)) in
      if is_null (vec_data (Some (lv_pattern l))) || (pattern_len =? 0) then None else
      Some (st_slots (lv_pattern l), pattern_len, lv_max_distance l)
  end.

Definition lev_automaton_match {U} (lev : option lev_automaton) (text : vstr) (cb : option (Z → Z → Z → U → bool * U)) (u : U) : M (Z * U) :=
  match lev_usable lev text, cb with
  | Some (pattern, pattern_len, max_distance), Some cb => lev_match_bytes pattern pattern_len max_distance text cb u
  | _, _ => mret (SALTS_EINVAL, u)
  end.
Definition lev_utf8_automaton_match {U} (lev : option lev_automaton) (text : vstr) (cb : option (Z → Z → Z → U → bool * U)) (u : U) : M (Z * U) :=
  match lev_usable lev text, cb with
  | Some (pattern, pattern_len, max_distance), Some cb => lev_match_utf8 pattern pattern_len max_distance text cb u
  | _, _ => mret (SALTS_EINVAL, u)
  end.
End Automaton.
