(* ===== verification/LevSpec.v ===== *)
(** * Approximate search: distances

    The reference is the least number of elements to leave out, to put in and to
    replace to turn the pattern into a part of the text. The table of the search
    holds, for every prefix of the pattern and every end in the text, that least
    number over all starts and the leftmost start that has it. *)

From S2P Require Import Prelude World Sequence Vec H2Frame Utf8 Levenshtein.
From stdpp Require Import sorting.
Local Open Scope Z_scope.

(** [align p t n]: [n] edits turn the pattern [p] into [t]. *)
Inductive align : list Z → list Z → nat → Prop :=
  | align_nil : align [] [] 0
  | align_skip p t x n : align p t n → align (p ++ [x]) t (S n)
  | align_extra p t y n : align p t n → align p (t ++ [y]) (S n)
  | align_both p t x y n : align p t n → align (p ++ [x]) (t ++ [y]) (n + (if (x =? y)%Z then 0 else 1)).

(** The part of [t] from [s] to [e]. *)
Definition part (t : list Z) (s e : nat) : list Z := drop s (take e t).

(** Among the parts of [t] that end at [e], the part from [s] has the least
    distance [n] from [p], and no part that starts before it has. *)
Definition best (p t : list Z) (e n s : nat) : Prop :=
  (s <= e)%nat ∧ align p (part t s e) n ∧
  ∀ s' n', (s' <= e)%nat → align p (part t s' e) n' → (n < n' ∨ n = n' ∧ s <= s')%nat.

Lemma align_nil_l t n : align [] t n → n = length t.
Proof.
  intros H. remember [] as p eqn:Hp. induction H as [|p t x n _ _|p t y n _ IH|p t x y n _ _]; try done.
  - by destruct p.
  - rewrite length_app. cbn. specialize (IH Hp). lia.
  - by destruct p.
Qed.
Lemma align_nil_r p n : align p [] n → n = length p.
Proof.
  intros H. remember [] as t eqn:Ht. induction H as [|p t x n _ IH|p t y n _ _|p t x y n _ _]; try done.
  - rewrite length_app. cbn. specialize (IH Ht). lia.
  - by destruct t.
  - by destruct t.
Qed.
Lemma align_extras t : align [] t (length t).
Proof.
  induction t as [|y t IH] using rev_ind; [constructor|]. rewrite length_app. cbn. rewrite Nat.add_1_r. by constructor.
Qed.
Lemma align_skips p : align p [] (length p).
Proof.
  induction p as [|x p IH] using rev_ind; [constructor|]. rewrite length_app. cbn. rewrite Nat.add_1_r. by constructor.
Qed.

Lemma part_nil t e : part t e e = [].
Proof. unfold part. apply drop_ge. rewrite length_take. lia. Qed.
Lemma part_snoc t s e y : (s <= e)%nat → t !! e = Some y → part t s (S e) = part t s e ++ [y].
Proof.
  intros Hs Hy. unfold part. rewrite (take_S_r _ _ _ Hy). apply drop_app_le. rewrite length_take. apply lookup_lt_Some in Hy. lia.
Qed.
Lemma part_length t s e : (e <= length t)%nat → length (part t s e) = (e - s)%nat.
Proof. intros. unfold part. rewrite length_drop, length_take. lia. Qed.

Lemma best_unique p t e n s n' s' : best p t e n s → best p t e n' s' → n = n' ∧ s = s'.
Proof. intros (H1 & H2 & H3) (H1' & H2' & H3'). specialize (H3 _ _ H1' H2'). specialize (H3' _ _ H1 H2). lia. Qed.
Lemma best_bound p t e n s : best p t e n s → (n <= length p)%nat.
Proof. intros (_ & _ & H). specialize (H e (length p) (le_n e)). rewrite part_nil in H. specialize (H (align_skips p)). lia. Qed.

Lemma best_empty t e : (e <= length t)%nat → best [] t e 0 e.
Proof.
  intros He. split; [done|]. rewrite part_nil. split; [constructor|]. intros s n Hs H%align_nil_l. rewrite part_length in H by done. lia.
Qed.
Lemma best_start p t : best p t 0 (length p) 0.
Proof.
  split; [done|]. rewrite part_nil. split; [apply align_skips|]. intros s n Hs H. assert (s = O) as -> by lia. rewrite part_nil in H. apply align_nil_r in H. lia.
Qed.

(** The last edit of an alignment. *)
Lemma align_last p x t n : align (p ++ [x]) t n →
  (∃ m, align p t m ∧ n = S m) ∨ (∃ u y m, t = u ++ [y] ∧ align (p ++ [x]) u m ∧ n = S m) ∨
  (∃ u y m, t = u ++ [y] ∧ align p u m ∧ n = (m + (if (x =? y)%Z then 0 else 1))%nat).
Proof.
  intros H. remember (p ++ [x]) as q eqn:Hq. destruct H as [|p' t x' n H|p' t y n H|p' t x' y n H].
  - by destruct p.
  - apply app_inj_tail in Hq as [-> ->]. left. eauto.
  - right. left. subst. eauto 6.
  - apply app_inj_tail in Hq as [-> ->]. right. right. eauto 6.
Qed.

(** The lesser of two candidates. *)
Definition lesser (a b : nat * nat) : nat * nat := if bool_decide (b.1 < a.1 ∨ b.1 = a.1 ∧ b.2 < a.2)%nat then b else a.

(** The three neighbours of a cell determine it. *)
Lemma best_step p x t e y nd sd ni si ns ss : t !! e = Some y → best (p ++ [x]) t e nd sd → best p t (S e) ni si → best p t e ns ss →
  let '(n, s) := lesser (lesser (S nd, sd) (S ni, si)) ((ns + (if (x =? y)%Z then 0 else 1))%nat, ss) in best (p ++ [x]) t (S e) n s.
Proof.
  intros Hy (Hd1 & Hd2 & Hd3) (Hi1 & Hi2 & Hi3) (Hs1 & Hs2 & Hs3). set (c := if (x =? y)%Z then 0%nat else 1%nat).
  assert (Hmin : ∀ s' n', (s' <= S e)%nat → align (p ++ [x]) (part t s' (S e)) n' →
    (S nd < n' ∨ S nd = n' ∧ sd <= s')%nat ∨ (S ni < n' ∨ S ni = n' ∧ si <= s')%nat ∨ (ns + c < n' ∨ ns + c = n' ∧ ss <= s')%nat).
  { intros s' n' Hs' HA. apply align_last in HA as [(m & Hm & ->)|HA]; [right; left; specialize (Hi3 _ _ Hs' Hm); lia|].
    assert (s' <= e)%nat as Hse. { destruct (decide (s' = S e)) as [->|]; [|lia]. rewrite part_nil in HA. destruct HA as [(u & ? & ? & E & _)|(u & ? & ? & E & _)]; by destruct u. }
    rewrite (part_snoc t s' e y Hse Hy) in HA. destruct HA as [(u & y' & m & E & Hm & ->)|(u & y' & m & E & Hm & ->)]; apply app_inj_tail in E as [<- <-].
    - left. specialize (Hd3 _ _ Hse Hm). lia.
    - right. right. specialize (Hs3 _ _ Hse Hm). subst c. lia. }
  assert (align (p ++ [x]) (part t sd (S e)) (S nd)) as Ad by (rewrite (part_snoc t sd e y) by done; by constructor).
  assert (align (p ++ [x]) (part t si (S e)) (S ni)) as Ai by (by constructor).
  assert (align (p ++ [x]) (part t ss (S e)) (ns + c)) as As by (rewrite (part_snoc t ss e y) by done; by constructor).
  unfold lesser. cbn [fst snd]. repeat case_bool_decide; cbn [fst snd] in *; (split; [lia|]; split; [done|]; intros s' n' Hs' HA; specialize (Hmin _ _ Hs' HA); lia).
Qed.

(** ** Cells and rows *)

Lemma safe_add_ok a b : 0 <= a → 0 <= b → a + b <= LEVENSHTEIN_INF → lev_safe_add a b = a + b.
Proof.
  intros Ha Hb H. unfold lev_safe_add. assert (LEVENSHTEIN_INF <= SIZE_MAX) by done. rewrite (u64_id (LEVENSHTEIN_INF - a)) by word_lia.
  destruct (Z.ltb_spec LEVENSHTEIN_INF a), (Z.ltb_spec (LEVENSHTEIN_INF - a) b); cbn [orb]; try lia. apply u64_id. word_lia.
Qed.

Definition holds_at (a : warray) (j n : nat) : Prop := a !! j = Some (Some (Z.of_nat n)).
Lemma aget_of_nat {A} (l : list A) j : aget l (Z.of_nat j) = l !! j.
Proof. unfold aget. destruct (Z.ltb_spec (Z.of_nat j) 0); [lia|]. by rewrite Nat2Z.id. Qed.
Lemma wget_ok a j n : holds_at a j n → wget a (Z.of_nat j) = Some (Z.of_nat n).
Proof. unfold holds_at, wget. intros H. by rewrite aget_of_nat, H. Qed.
Lemma wset_ok a j v : (j < length a)%nat → wset a (Z.of_nat j) v = Some (<[j := Some v]> a).
Proof.
  intros H. unfold wset, aset, alen. destruct (Z.leb_spec 0 (Z.of_nat j)); [|lia]. destruct (Z.ltb_spec (Z.of_nat j) (Z.of_nat (length a))); [|lia]. cbn. by rewrite Nat2Z.id.
Qed.

Section Rows.
Context (p t : list Z).

(** A row for the end [e], up to the prefix of length [m]. *)
Definition row_ok (e m : nat) (dp start : warray) : Prop :=
  ∀ j, (j <= m)%nat → ∃ n s, holds_at dp j n ∧ holds_at start j s ∧ best (take j p) t e n s.

Record rows_ok (e m : nat) (r : rows) : Prop := {
  ro_prev : row_ok e (length p) (r_prev_dp r) (r_prev_start r);
  ro_curr : row_ok (S e) m (r_curr_dp r) (r_curr_start r);
  ro_len1 : length (r_prev_dp r) = S (length p);
  ro_len2 : length (r_curr_dp r) = S (length p);
  ro_len3 : length (r_prev_start r) = S (length p);
  ro_len4 : length (r_curr_start r) = S (length p)
}.

Lemma lesser_run n s n' s' :
  (if (Z.of_nat n' <? Z.of_nat n) || ((Z.of_nat n' =? Z.of_nat n) && (Z.of_nat s' <? Z.of_nat s)) then (Z.of_nat n', Z.of_nat s') else (Z.of_nat n, Z.of_nat s)) =
  (Z.of_nat (lesser (n, s) (n', s')).1, Z.of_nat (lesser (n, s) (n', s')).2).
Proof using Type.
  unfold lesser. cbn [fst snd]. destruct (Z.ltb_spec (Z.of_nat n') (Z.of_nat n)), (Z.eqb_spec (Z.of_nat n') (Z.of_nat n)), (Z.ltb_spec (Z.of_nat s') (Z.of_nat s));
    cbn [andb orb]; case_bool_decide; try done; lia.
Qed.

Lemma row_extend e m dp start n s : row_ok e m dp start → (S m < length dp)%nat → (S m < length start)%nat → best (take (S m) p) t e n s →
  row_ok e (S m) (<[S m := Some (Z.of_nat n)]> dp) (<[S m := Some (Z.of_nat s)]> start).
Proof using Type.
  intros H Hd Hs Hb j Hj. unfold holds_at. destruct (decide (j = S m)) as [->|Hne].
  - exists n, s. by rewrite !list_lookup_insert_eq by done.
  - destruct (H j) as (n' & s' & H1 & H2 & H3); [lia|]. exists n', s'. by rewrite !list_lookup_insert_ne by done.
Qed.

(** The cell is computed from its neighbours and no sum saturates. *)
Lemma lev_cell_ok e m r c pattern x : 8 * (alen p + 1) <= SIZE_MAX → rows_ok e m r → t !! e = Some c → p !! m = Some x → pattern !! m = Some (Some x) →
  ∃ r', lev_cell pattern c (Z.of_nat (S m)) r = Some r' ∧ rows_ok e (S m) r'.
Proof using Type.
  intros Hlen [Hprev Hcurr L1 L2 L3 L4] Hc Hx Hpat. pose proof (lookup_lt_Some _ _ _ Hx) as Hm.
  destruct (Hprev (S m)) as (nd & sd & D1 & D2 & D3); [lia|]. destruct (Hprev m) as (ns & ss & S1 & S2 & S3); [lia|].
  destruct (Hcurr m) as (ni & si & I1 & I2 & I3); [lia|]. rewrite (take_S_r _ _ _ Hx) in D3.
  pose proof (best_bound _ _ _ _ _ D3) as Bd. pose proof (best_bound _ _ _ _ _ I3) as Bi. pose proof (best_bound _ _ _ _ _ S3) as Bs.
  rewrite length_app, length_take in Bd. rewrite length_take in Bi. rewrite length_take in Bs. cbn [length] in Bd.
  pose proof (best_step _ _ _ _ _ _ _ _ _ _ _ Hc D3 I3 S3) as HB.
  unfold lev_cell. replace (Z.of_nat (S m) - 1) with (Z.of_nat m) by lia.
  rewrite (wget_ok _ _ _ D1), (wget_ok _ _ _ I1), (wget_ok _ _ _ S1), (wget_ok _ _ _ D2), (wget_ok _ _ _ I2), (wget_ok _ _ _ S2).
  replace (wget pattern (Z.of_nat m)) with (Some x) by (unfold wget; rewrite aget_of_nat, Hpat; done). cbn [mbind option_bind].
  assert (alen p < LEVENSHTEIN_INF) as Hinf by (change LEVENSHTEIN_INF with 4611686018427387903; word_lia). unfold alen in Hinf.
  set (k := if (x =? c)%Z then 0%nat else 1%nat) in *. replace (if x =? c then 0 else 1) with (Z.of_nat k) by (subst k; by destruct (x =? c)).
  assert (k <= 1)%nat as Hk by (subst k; destruct (x =? c); lia).
  rewrite !safe_add_ok by lia. replace (Z.of_nat nd + 1) with (Z.of_nat (S nd)) by lia. replace (Z.of_nat ni + 1) with (Z.of_nat (S ni)) by lia. rewrite <-(Nat2Z.inj_add ns k).
  rewrite (lesser_run (S nd) sd (S ni) si). destruct (lesser (S nd, sd) (S ni, si)) as [n1 s1]. cbn [fst snd].
  rewrite (lesser_run n1 s1 (ns + k) ss). destruct (lesser (n1, s1) ((ns + k)%nat, ss)) as [n s]. cbn [fst snd].
  rewrite !wset_ok by lia. cbn [mbind option_bind]. eexists. split; [reflexivity|].
  split; cbn [r_prev_dp r_curr_dp r_prev_start r_curr_start]; rewrite ?length_insert; try done. apply row_extend; [done|lia|lia|]. by rewrite (take_S_r _ _ _ Hx).
Qed.

Definition pattern_at (pattern : warray) : Prop := ∀ j x, p !! j = Some x → pattern !! j = Some (Some x).

Lemma lev_row_ok e c pattern : 8 * (alen p + 1) <= SIZE_MAX → t !! e = Some c → pattern_at pattern → ∀ n m r, rows_ok e m r → (m + n = length p)%nat →
  ∃ r', lev_row n pattern c (Z.of_nat (S m)) r = Some r' ∧ rows_ok e (length p) r'.
Proof using Type.
  intros Hlen Hc Hpat n. induction n as [|n IH]; intros m r Hr Hm; cbn [lev_row].
  - exists r. replace (length p) with m by lia. done.
  - destruct (lookup_lt_is_Some_2 p m) as [x Hx]; [lia|]. destruct (lev_cell_ok e m r c pattern x Hlen Hr Hc Hx (Hpat _ _ Hx)) as (r' & -> & Hr'). cbn [mbind option_bind].
    replace (Z.of_nat (S m) + 1) with (Z.of_nat (S (S m))) by lia. apply IH; [done|lia].
Qed.

(** The rows between two elements of the text. *)
Record rows_ready (e : nat) (r : rows) : Prop := {
  rr_prev : row_ok e (length p) (r_prev_dp r) (r_prev_start r);
  rr_len1 : length (r_prev_dp r) = S (length p);
  rr_len2 : length (r_curr_dp r) = S (length p);
  rr_len3 : length (r_prev_start r) = S (length p);
  rr_len4 : length (r_curr_start r) = S (length p)
}.
Lemma rows_swap e r : rows_ok e (length p) r → rows_ready (S e) (swap_rows r).
Proof using Type. by intros []; split. Qed.

Lemma first_row_ok : ∀ n m r, (m + n = S (length p))%nat →
  length (r_prev_dp r) = S (length p) → length (r_curr_dp r) = S (length p) → length (r_prev_start r) = S (length p) → length (r_curr_start r) = S (length p) →
  (∀ j, (j < m)%nat → holds_at (r_prev_dp r) j j ∧ holds_at (r_prev_start r) j 0) →
  ∃ r', first_row n (Z.of_nat m) r = Some r' ∧ rows_ready 0 r'.
Proof using Type.
  induction n as [|n IH]; intros m r Hm L1 L2 L3 L4 H; cbn [first_row].
  - exists r. split; [done|]. split; try done. intros j Hj. destruct (H j) as [H1 H2]; [lia|]. exists j, 0%nat. split; [done|]. split; [done|].
    pose proof (best_start (take j p) t) as Hb. by rewrite length_take, Nat.min_l in Hb.
  - rewrite !wset_ok by lia. cbn [mbind option_bind]. replace (Z.of_nat m + 1) with (Z.of_nat (S m)) by lia.
    apply IH; cbn [r_prev_dp r_curr_dp r_prev_start r_curr_start]; rewrite ?length_insert; try done; [lia|].
    intros j Hj. unfold holds_at. destruct (decide (j = m)) as [->|]; [by rewrite !list_lookup_insert_eq by lia|]. rewrite !list_lookup_insert_ne by done. apply H. lia.
Qed.

Lemma wfresh_length n : 0 <= n → 8 * (n + 1) <= SIZE_MAX → length (wfresh (u64 (n + 1))) = S (Z.to_nat n).
Proof using Type.
  intros Hn H. unfold wfresh. rewrite length_replicate, (u64_id (n + 1)) by word_lia. rewrite u64_id by word_lia. rewrite Z.div_mul by done. lia.
Qed.
Lemma fresh_rows_ok : 8 * (alen p + 1) <= SIZE_MAX → ∃ r,
  (let fresh := wfresh (u64 (alen p + 1)) in first_row (S (Z.to_nat (alen p))) 0 (MkRows fresh fresh fresh fresh)) = Some r ∧ rows_ready 0 r.
Proof using Type.
  intros H. assert (length (wfresh (u64 (alen p + 1))) = S (length p)) as Hl by (rewrite wfresh_length by (unfold alen in *; lia); unfold alen; lia).
  apply (first_row_ok _ 0); cbn [r_prev_dp r_curr_dp r_prev_start r_curr_start]; try done; unfold alen; lia.
Qed.
End Rows.

(** ** The search *)

(** Start, end and distance of the parts of [t] that the search reports, in
    the order of their ends: for every end after [from] that is not before the
    length of the pattern, the best part if its distance is allowed. *)
Notation hit := (nat * nat * nat)%type.
Record matches (p t : list Z) (max_distance : Z) (from : nat) (hits : list hit) : Prop := {
  mt_sorted : StronglySorted (λ a b, a.1.2 < b.1.2)%nat hits;
  mt_hits s e n : (s, e, n) ∈ hits ↔ (from < e ∧ length p <= e <= length t)%nat ∧ best p t e n s ∧ Z.of_nat n <= max_distance
}.

(** The callback on each of them until it returns false. *)
Fixpoint visit {U} (cb : Z → Z → Z → U → bool * U) (hits : list hit) (u : U) : U :=
  match hits with
  | [] => u
  | (s, e, n) :: hits => let '(go, u) := cb (Z.of_nat s) (Z.of_nat e) (Z.of_nat n) u in if go then visit cb hits u else u
  end.

Lemma matches_end p t max_distance from : (length t <= from)%nat → matches p t max_distance from [].
Proof. intros H. split; [constructor|]. intros s e n. split; [by intros ?%elem_of_nil|lia]. Qed.
Lemma matches_skip p t max_distance from hits n s : matches p t max_distance (S from) hits → best p t (S from) n s →
  ¬ ((length p <= S from)%nat ∧ Z.of_nat n <= max_distance) → matches p t max_distance from hits.
Proof.
  intros [Hs Hm] Hb Hn. split; [done|]. intros s' e' n'. rewrite Hm. split; [intros (H1 & H2 & H3); split; [lia|done]|].
  intros (H1 & H2 & H3). split; [|done]. destruct (decide (e' = S from)) as [->|]; [|lia]. destruct (best_unique _ _ _ _ _ _ _ Hb H2) as [-> ->]. lia.
Qed.
Lemma matches_take p t max_distance from hits n s : matches p t max_distance (S from) hits → best p t (S from) n s →
  (length p <= S from <= length t)%nat → Z.of_nat n <= max_distance → matches p t max_distance from ((s, S from, n) :: hits).
Proof.
  intros [Hs Hm] Hb Hp Hn. split.
  - constructor; [done|]. apply Forall_forall. intros [[s' e'] n'] H%Hm. cbn. lia.
  - intros s' e' n'. rewrite elem_of_cons, Hm. split; [intros [E|(H1 & H2 & H3)]; [injection E as -> -> ->; split; [lia|done]|split; [lia|done]]|].
    intros (H1 & H2 & H3). destruct (decide (e' = S from)) as [->|]; [|right; split; [lia|done]]. left. by destruct (best_unique _ _ _ _ _ _ _ Hb H2) as [-> ->].
Qed.

Lemma sorted_nodup (hits : list hit) : StronglySorted (λ a b, a.1.2 < b.1.2)%nat hits → NoDup hits.
Proof.
  induction 1 as [|h hits _ IH Hh]; constructor; [|done]. intros Hin. rewrite Forall_forall in Hh. specialize (Hh _ Hin). lia.
Qed.
(** There is one such list. *)
Lemma matches_unique p t max_distance from l l' : matches p t max_distance from l → matches p t max_distance from l' → l = l'.
Proof.
  intros [Hs Hm] [Hs' Hm']. apply (StronglySorted_unique_strong (λ a b, a.1.2 < b.1.2)%nat); try done.
  - intros a b _ _. lia.
  - apply NoDup_Permutation; [by apply sorted_nodup..|]. intros [[s e] n]. by rewrite Hm, Hm'.
Qed.

Section Scan.
Context (p t : list Z) (pattern : warray) (max_distance : Z) (text_at : Z → option Z).
Context (Hlen : 8 * (alen p + 1) <= SIZE_MAX) (Hpat : pattern_at p pattern).
Context (Htext : ∀ e c, t !! e = Some c → text_at (Z.of_nat e) = Some c) (Hsize : alen t <= SIZE_MAX).

Lemma lev_scan_ok : ∀ n e r, rows_ready p t e r → (e + n = length t)%nat → ∃ hits, matches p t max_distance e hits ∧
  ∀ U (cb : Z → Z → Z → U → bool * U) u, lev_scan n pattern (alen p) max_distance text_at cb (Z.of_nat e) r u = Some (visit cb hits u).
Proof using All.
  induction n as [|n IH]; intros e r Hr He; cbn [lev_scan].
  { exists []. split; [apply matches_end; lia|done]. }
  destruct (lookup_lt_is_Some_2 t e) as [c Hc]; [lia|]. rewrite (Htext _ _ Hc). cbn [mbind option_bind]. destruct Hr as [Hprev L1 L2 L3 L4].
  replace (u64 (Z.of_nat e + 1)) with (Z.of_nat (S e)) by (rewrite u64_id; unfold alen in Hsize; word_lia).
  rewrite (wset_ok _ 0 0), (wset_ok _ 0 (Z.of_nat (S e))) by lia. cbn [mbind option_bind].
  destruct (lev_row_ok p t e c pattern Hlen Hc Hpat (length p) 0 (MkRows (r_prev_dp r) (<[0%nat := Some 0]> (r_curr_dp r)) (r_prev_start r) (<[0%nat := Some (Z.of_nat (S e))]> (r_curr_start r)))) as (r' & Er & Hr'); [|done|].
  { split; cbn [r_prev_dp r_curr_dp r_prev_start r_curr_start]; rewrite ?length_insert; try done.
    intros j Hj. assert (j = O) as -> by lia. exists 0%nat, (S e). unfold holds_at. rewrite !list_lookup_insert_eq by lia. split; [done|]. split; [done|]. apply best_empty. lia. }
  replace (Z.to_nat (alen p)) with (length p) by (unfold alen; lia). change (Z.of_nat 1) with 1 in Er. rewrite Er. cbn [mbind option_bind].
  destruct (ro_curr _ _ _ _ _ Hr' (length p) (le_n _)) as (m & s & Hd & Hs & Hb). rewrite take_ge in Hb by done.
  change (alen p) with (Z.of_nat (length p)). rewrite (wget_ok _ _ _ Hd), (wget_ok _ _ _ Hs). cbn [mbind option_bind].
  destruct (IH (S e) (swap_rows r') (rows_swap _ _ _ _ Hr')) as (hits & Hm & IHs); [lia|]. replace (Z.of_nat e + 1) with (Z.of_nat (S e)) by lia.
  replace (Z.of_nat s <=? Z.of_nat (S e)) with true by (symmetry; apply Z.leb_le; destruct Hb as (Hle & _); lia). rewrite andb_true_r.
  destruct (Z.leb_spec (Z.of_nat (length p)) (Z.of_nat (S e))) as [Hp|Hp], (Z.leb_spec (Z.of_nat m) max_distance) as [Hn|Hn]; cbn [andb].
  2-4: exists hits; split; [apply (matches_skip _ _ _ _ _ m s); [done|done|lia]|intros U cb u; apply IHs].
  exists ((s, S e, m) :: hits). split; [apply matches_take; try done; lia|]. intros U cb u. cbn [visit]. destruct (cb _ _ _ u) as [[] u']; cbn [negb]; [apply IHs|done].
Qed.
End Scan.
