(* ===== verification/LevMatch.v ===== *)
(** * Approximate search: automata

    The search functions allocate the rows, and for text in UTF-8 the code
    points, run the scan and give everything back; the pattern is kept in a
    vector. *)

From S2P Require Import Prelude World Sequence Vec H2Frame Utf8 Utf8Spec Utf8View Levenshtein LevSpec.
Local Open Scope Z_scope.

(** ** Memory *)

(** Blocks that a pointer stands for. *)
Definition block_of (p : option Z) : Z := if is_null p then 0 else 1.

Lemma free_unless_null_ok p w : ∃ w', free_unless_null p w = Some (tt, w') ∧ w_malloc w' = w_malloc w ∧ w_objects w' = w_objects w ∧ w_blocks w' = w_blocks w - block_of p.
Proof. unfold free_unless_null, block_of. destruct (is_null p); eexists; (split; [done|]); cbn; split; [done|split; [done|lia]|done|split; [done|lia]]. Qed.

Lemma free_four_ok a b c d w : ∃ w', free_four a b c d w = Some (tt, w') ∧ w_malloc w' = w_malloc w ∧ w_objects w' = w_objects w ∧
  w_blocks w' = w_blocks w - block_of a - block_of b - block_of c - block_of d.
Proof.
  unfold free_four. destruct (free_unless_null_ok a w) as (w1 & E1 & M1 & O1 & B1). destruct (free_unless_null_ok b w1) as (w2 & E2 & M2 & O2 & B2).
  destruct (free_unless_null_ok c w2) as (w3 & E3 & M3 & O3 & B3). destruct (free_unless_null_ok d w3) as (w4 & E4 & M4 & O4 & B4).
  wstep E1. wstep E2. wstep E3. exists w4. split; [done|]. split; [congruence|]. split; [congruence|lia].
Qed.

(** The rows: four blocks, or the search does not start. *)
Lemma malloc_four w : ∃ a b c d w', (∀ B (f : option Z → option Z → option Z → option Z → M B),
    (a ← malloc; b ← malloc; c ← malloc; d ← malloc; f a b c d) w = f a b c d w') ∧
  w_objects w' = w_objects w ∧ w_blocks w' = w_blocks w + block_of a + block_of b + block_of c + block_of d ∧
  ∀ j, supply (4 + j) w → is_null a || is_null b || is_null c || is_null d = false ∧ supply j w'.
Proof.
  destruct (malloc_ok w) as (a & w1 & E1 & B1 & O1 & S1). destruct (malloc_ok w1) as (b & w2 & E2 & B2 & O2 & S2).
  destruct (malloc_ok w2) as (c & w3 & E3 & B3 & O3 & S3). destruct (malloc_ok w3) as (d & w4 & E4 & B4 & O4 & S4).
  exists a, b, c, d, w4. split; [intros B f; wstep E1; wstep E2; wstep E3; by wstep E4|]. split; [congruence|]. split; [unfold block_of; lia|].
  intros j Hj. destruct (S1 (3 + j)%nat Hj) as [N1 H1]. destruct (S2 (2 + j)%nat H1) as [N2 H2]. destruct (S3 (1 + j)%nat H2) as [N3 H3]. destruct (S4 j H3) as [N4 H4].
  rewrite N1, N2, N3, N4. done.
Qed.

Lemma realloc_block_ok block w : ∃ r w', realloc block w = Some (r, w') ∧ w_objects w' = w_objects w ∧
  w_blocks w' = (if is_null r then w_blocks w else w_blocks w + 1 - block_of block) ∧ ∀ j, supply (1 + j) w → is_null r = false ∧ supply j w'.
Proof.
  unfold realloc, block_of. destruct (malloc_ok w) as (p & w1 & E1 & B1 & O1 & S1). wstep E1. destruct (is_null p) eqn:Hp.
  - exists None, w1. split; [done|]. split; [done|]. cbn [is_null]. split; [lia|]. intros j Hj. by destruct (S1 j Hj).
  - destruct (is_null block); wrun.
    + exists p, w1. rewrite Hp. split; [done|]. split; [done|]. split; [lia|done].
    + eexists p, _. split; [done|]. cbn. rewrite Hp. split; [done|]. split; [lia|]. intros j Hj. destruct (S1 j Hj) as [_ Hs]. by split; [|apply (supply_malloc j w1)].
Qed.

Section Search.
Context {SI : Simd}.

(** ** Text *)

(** A view shows the bytes [t]; an empty one may be a null pointer. *)
Definition text_of (v : vstr) (t : list Z) : Prop :=
  (vs_data v = None ∧ vs_len v = 0 ∧ t = []) ∨ ∃ a bs, view_of v a bs ∧ t = shown v bs.

Lemma text_len v t : text_of v t → vs_len v = blen t ∧ blen t <= SIZE_MAX ∧ bytes_ok t ∧ (is_null (vs_data v) = true → t = []).
Proof using Type.
  intros [(H1 & H2 & ->)|(a & bs & [H1 H2 H3 H4] & ->)].
  - rewrite H2. split; [done|]. split; [done|]. split; [constructor|done].
  - unfold shown, blen in *. rewrite length_take. rewrite H1. split; [lia|]. split; [lia|]. split; [by apply Forall_take|done].
Qed.
Lemma text_load v t e c : text_of v t → t !! e = Some c → (data ← vs_data v; load data.2 (Z.of_nat e)) = Some c.
Proof using Type.
  intros [(H1 & H2 & ->)|(a & bs & [H1 H2 H3 H4] & ->)] Hc; [done|]. unfold shown in Hc. apply lookup_take_Some in Hc as [Hc _]. rewrite H1. cbn [mbind option_bind snd].
  unfold load. rewrite bool_decide_true by lia. by rewrite Nat2Z.id.
Qed.

(** ** Text in UTF-8 *)

(** The view behind the first code point. *)
Lemma next_step v a bs cp cps x : view_of v a bs → cps_at (a, bs) (vs_len v) 0 (cp :: cps) [] → 0 < vs_len v ∧ ∃ v' a' bs',
  vstr_utf8_next (Some v) (Some x) = Some (true, Some v', Some cp) ∧ view_of v' a' bs' ∧ cps_at (a', bs') (vs_len v') 0 cps [].
Proof using Type.
  intros Hv H. destruct (cps_length _ _ _ _ _ H) as (_ & Hl & _). rewrite utf8_cons, blen_app in Hl. pose proof (encode_length cp). pose proof (blen_nonneg (utf8 cps)).
  change (blen (@nil Z)) with 0 in Hl. split; [lia|]. rewrite (next_ok v a bs (cp :: cps) [] x Hv H). cbv zeta. do 3 eexists. split; [reflexivity|].
  destruct (behind v a bs [cp] cps Hv H) as (_ & _ & Hv' & H' & _). rewrite utf8_cons in Hv', H'. cbn [utf8 mbind list_bind] in Hv', H'. rewrite app_nil_r in Hv', H'. split; [exact Hv'|done].
Qed.
Lemma next_done v a bs : cps_at (a, bs) (vs_len v) 0 [] [] → vs_len v = 0.
Proof using Type. intros H. destruct (cps_length _ _ _ _ _ H) as (_ & Hl & _). change (blen (utf8 [])) with 0 in Hl. change (blen (@nil Z)) with 0 in Hl. lia. Qed.

(** All code points are read; without memory the array is given back. *)
Lemma decode_text_ok : ∀ fuel v a bs cps x block acc w, view_of v a bs → cps_at (a, bs) (vs_len v) 0 cps [] → (length cps < fuel)%nat →
  ∃ r w', decode_text fuel v x block acc w = Some (r, w') ∧ w_objects w' = w_objects w ∧
    ((∃ block', r = (Some (block', acc ++ cps), None) ∧ w_blocks w' - block_of block' = w_blocks w - block_of block) ∨
     (r = (None, Some SALTS_ENOMEM) ∧ w_blocks w' = w_blocks w - block_of block ∧ ¬ supply (length cps) w)).
Proof using Type.
  induction fuel as [|fuel IH]; intros v a bs cps x block acc w Hv H Hf; [lia|]. cbn [decode_text]. destruct cps as [|cp cps].
  - rewrite (next_done v a bs H). do 2 eexists. split; [done|]. split; [done|]. left. exists block. by rewrite app_nil_r.
  - destruct (next_step v a bs cp cps x Hv H) as (Hpos & v' & a' & bs' & En & Hv' & H'). rewrite (proj2 (Z.ltb_lt _ _) Hpos), En. wrun. cbn [negb]. wrun.
    destruct (realloc_block_ok block w) as (r & w1 & E1 & O1 & B1 & S1). wstep E1. destruct (is_null r) eqn:Hr.
    + destruct (free_unless_null_ok block w1) as (w2 & E2 & _ & O2 & B2). wstep E2. wrun. do 2 eexists. split; [done|]. split; [congruence|]. right. split; [done|]. split; [lia|].
      intros Hs. by destruct (S1 (length cps) Hs).
    + destruct (IH v' a' bs' cps cp r (acc ++ [cp]) w1 Hv' H') as (q & w2 & E2 & O2 & Hq); [cbn in Hf; lia|]. do 2 eexists. split; [exact E2|]. split; [congruence|].
      assert (block_of r = 1) as Hbr by (unfold block_of; by rewrite Hr). destruct Hq as [(block' & -> & B2)|(-> & B2 & Hs)].
      * left. exists block'. rewrite <-app_assoc. split; [done|lia].
      * right. split; [done|]. split; [lia|]. intros Hs'. apply Hs. by destruct (S1 (length cps) Hs').
Qed.

Lemma text_valid v t cps rest : text_of v t → t = utf8 cps ++ rest → Forall scalar cps → stuck rest → vstr_utf8_valid v = Some (bool_decide (rest = [])).
Proof using Type.
  intros [(H1 & H2 & ->)|(a & bs & Hv & Et)] E Hc Hs.
  - symmetry in E. apply app_nil in E as [_ ->]. destruct v as [d n]. cbn in H1, H2. subst. done.
  - subst t. eapply utf8_valid_ok; [done|]. by eapply view_cps.
Qed.

(** ** Filling the pattern *)

(** The result of [push_all], with the status of this library. *)
Definition as_salts (run : option (stl_status * option (vec_t Z) * world)) : option (Z * option (vec_t Z) * world) :=
  match run with Some ((st, vec), w) => Some ((salts_core_status_from_stl st, vec), w) | None => None end.

(** A failed push gives the vector back: both loops are [push_all]. *)
Lemma push_step (x : Z) l vec w (next : option (vec_t Z) → M (Z * option (vec_t Z))) :
  (∀ vec w, next vec w = as_salts (push_all l vec w)) →
  ('(status, vec) ← vec_push vec (Some x);
   if negb (bool_decide (status = STL_OK)) then vec ← vec_raw_destroy_storage vec; mret (salts_core_status_from_stl status, vec) else next vec) w = as_salts (push_all (x :: l) vec w).
Proof using Type.
  intros Hn. cbn [push_all]. unfold mbind, M_bind. destruct (vec_push vec (Some x) w) as [[[st vec1] w1]|]; [|done].
  case_bool_decide; cbn [negb]; [apply Hn|]. by destruct (vec_raw_destroy_storage vec1 w1) as [[? ?]|].
Qed.

Lemma push_bytes_ok a bs : ∀ n i vec w, (i + n <= length bs)%nat → push_bytes n (a, bs) (Z.of_nat i) vec w = as_salts (push_all (take n (drop i bs)) vec w).
Proof using Type.
  induction n as [|n IH]; intros i vec w Hi; cbn [push_bytes]; [done|]. destruct (lookup_lt_is_Some_2 bs i) as [x Hx]; [lia|].
  unfold load. cbn [snd]. rewrite bool_decide_true, Nat2Z.id, Hx by lia. wrun. rewrite (drop_S _ _ _ Hx). cbn [take].
  apply push_step. intros vec' w'. replace (Z.of_nat i + 1) with (Z.of_nat (S i)) by lia. apply IH. lia.
Qed.
Lemma push_codepoints_ok : ∀ fuel v a bs cps x vec w, view_of v a bs → cps_at (a, bs) (vs_len v) 0 cps [] → (length cps < fuel)%nat →
  push_codepoints fuel v x vec w = as_salts (push_all cps vec w).
Proof using Type.
  induction fuel as [|fuel IH]; intros v a bs cps x vec w Hv H Hf; [lia|]. cbn [push_codepoints]. destruct cps as [|cp cps].
  - by rewrite (next_done v a bs H).
  - destruct (next_step v a bs cp cps x Hv H) as (Hpos & v' & a' & bs' & En & Hv' & H'). rewrite (proj2 (Z.ltb_lt _ _) Hpos), En. wrun. cbn [negb]. wrun.
    apply push_step. intros vec' w'. apply (IH v' a' bs'); [done|done|cbn in Hf; lia].
Qed.

(** With memory for two blocks each, all pushes succeed. *)
Lemma push_supply v xs (x : Z) w st vec w' n : storage_ok v → holds v xs → st_size v < element_limit v → roomy v → element_type v = None →
  vec_push (Some v) (Some x) w = Some ((st, vec), w') → mallocs (S (S n)) (elem_align v) w → st = STL_OK ∧ mallocs n (elem_align v) w'.
Proof using Type.
  intros Hs Hh Hlt Hroom Hty E Hm. destruct (prologue v xs x w Hs Hh Hlt) as (st1 & p & c & w1 & E1 & _ & Hok & Hen).
  destruct (Hen (S n) Hm Hroom) as [-> Hm1]; [by rewrite Hty|]. destruct (Hok eq_refl) as (-> & _ & _ & [q ->] & st2 & ch & v1 & w2 & E2 & Hg).
  destruct (gr_enough _ _ _ _ _ _ _ Hg n) as [-> Hm2]; [lia|done|done|]. unfold vec_push in E. rewrite vec_valid_ok in E by done. cbn [negb] in E. rewrite (proj2 (Z.leb_gt _ _) Hlt) in E.
  rewrite (run_bind _ _ _ _ _ E1) in E. rewrite (bool_decide_true (STL_OK = STL_OK)) in E by done. cbn [negb] in E. rewrite (run_bind _ _ _ _ _ E2) in E. rewrite (bool_decide_true (STL_OK = STL_OK)) in E by done. cbn [negb] in E.
  destruct (aget (st_slots v1) (st_size v1)) as [dst|]; [|done]. rewrite run_lift_bind in E. pose proof (gr_params _ _ _ _ _ _ _ Hg) as (_ & _ & _ & _ & Hty1 & _). rewrite Hty1, Hty in E.
  rewrite (run_bind _ _ _ _ _ (move_ok None I dst x w2)) in E. destruct (deallocate_run (Some q) w2) as (w3 & E3 & M3 & _). rewrite (run_bind _ _ _ _ _ E3) in E.
  rewrite (bool_decide_true (STL_OK = STL_OK)) in E by done. cbn [negb] in E. rewrite run_lift_bind in E. destruct (aset (st_slots v1) (st_size v1) (Some x)); [|done].
  rewrite run_lift_bind, run_ret in E. injection E as <- _ <-. split; [done|]. by apply (mallocs_eq _ _ w2).
Qed.
Lemma push_all_supply : ∀ l v (xs : list Z) w st vec w', storage_ok v → holds v xs → alen (xs ++ l) <= element_limit v → roomy v → element_type v = None →
  push_all l (Some v) w = Some ((st, vec), w') → mallocs (2 * length l) (elem_align v) w → st = STL_OK.
Proof using Type.
  induction l as [|x l IH]; intros v xs w st vec w' Hs Hh Hl Hroom Hty E Hm; cbn [push_all] in E; [by injection E as <- _ _|].
  rewrite alen_app in Hl. assert (alen (x :: l) = alen l + 1) as Hxl by (unfold alen; cbn; lia). pose proof (alen_nonneg l).
  destruct (vec_push_post x v xs x w Hs Hh) as (st1 & v1 & w1 & E1 & [Hs1 Hpar _ (ys & Hys & Hstep & _) _]). rewrite (run_bind _ _ _ _ _ E1) in E.
  replace (2 * length (x :: l))%nat with (S (S (2 * length l))) in Hm by (cbn; lia). destruct (Hh) as (Hsize & _).
  destruct (push_supply v xs x w st1 (Some v1) w1 (2 * length l) Hs Hh) as [-> Hm1]; [lia|done|done|done|done|]. rewrite bool_decide_true in E by done. cbn [negb] in E.
  cbn [list_exec] in Hstep. rewrite (proj2 (Z.leb_gt _ _)) in Hstep by lia. destruct Hstep as [[= ->]|(_ & Hne & _)]; [|done].
  destruct Hpar as (P1 & P2 & P3 & P4 & P5 & _). apply (IH v1 (xs ++ [x]) w1 st vec w'); try done.
  - rewrite !alen_app, P4. change (alen [x]) with 1. lia.
  - unfold roomy. by rewrite P2, P3, P4.
  - congruence.
  - by rewrite P3.
Qed.

(** ** Searching *)

(** The result of a search: the callback has seen the hits, or there was no
    memory and it has seen nothing. *)
Definition searched {U} (cb : Z → Z → Z → U → bool * U) (hits : list hit) (u : U) (needed : nat) (w : world) (run : option (Z * U * world)) : Prop :=
  ∃ st u' w', run = Some ((st, u'), w') ∧ w_same w w' ∧ (supply needed w → st = SALTS_OK) ∧
    (st = SALTS_OK ∧ u' = visit cb hits u ∨ st = SALTS_ENOMEM ∧ u' = u).

Section Pattern.
Context (p : list Z) (pattern : warray) (max_distance : Z).
Context (Hlen : 8 * (alen p + 1) <= SIZE_MAX) (Hpat : pattern_at p pattern).

(** The scan, with rows of the right size. *)
Lemma scan_all t text_at : (∀ e c, t !! e = Some c → text_at (Z.of_nat e) = Some c) → alen t <= SIZE_MAX → ∃ r hits,
  (let fresh := wfresh (u64 (alen p + 1)) in first_row (S (Z.to_nat (alen p))) 0 (MkRows fresh fresh fresh fresh)) = Some r ∧ matches p t max_distance 0 hits ∧
  ∀ U (cb : Z → Z → Z → U → bool * U) u, lev_scan (length t) pattern (alen p) max_distance text_at cb 0 r u = Some (visit cb hits u).
Proof using All.
  intros Ht Hs. destruct (fresh_rows_ok p t Hlen) as (r & Er & Hr).
  destruct (lev_scan_ok p t pattern max_distance text_at Hlen Hpat Ht Hs (length t) 0 r Hr) as (hits & Hm & Hsc); [lia|]. by exists r, hits.
Qed.

Lemma lev_match_bytes_ok text t : text_of text t → ∃ hits, matches p t max_distance 0 hits ∧
  ∀ U (cb : Z → Z → Z → U → bool * U) u w, searched cb hits u 4 w (lev_match_bytes pattern (alen p) max_distance text cb u w).
Proof using All.
  intros Ht. destruct (text_len _ _ Ht) as (Hl & Hmax & _).
  destruct (scan_all t (λ i, data ← vs_data text; load data.2 i)) as (r & hits & Er & Hm & Hsc); [by intros; apply (text_load text t)|exact Hmax|].
  exists hits. split; [done|]. intros U cb u w. unfold lev_match_bytes. destruct (malloc_four w) as (a & b & c & d & w1 & E1 & O1 & B1 & S1). rewrite E1.
  destruct (is_null a || is_null b || is_null c || is_null d) eqn:Hn.
  - destruct (free_four_ok a b c d w1) as (w2 & E2 & _ & O2 & B2). wstep E2. wrun. exists SALTS_ENOMEM, u, w2. split; [done|]. split; [split; [lia|congruence]|]. split; [|by right].
    intros Hs. by destruct (S1 0%nat Hs).
  - cbv zeta in Er. rewrite Er. wrun. replace (Z.to_nat (vs_len text)) with (length t) by (rewrite Hl; unfold blen; lia). rewrite Hsc. wrun.
    destruct (free_four_ok a b c d w1) as (w2 & E2 & _ & O2 & B2). wstep E2. wrun. exists SALTS_OK, (visit cb hits u), w2. split; [done|]. split; [split; [lia|congruence]|]. split; [done|by left].
Qed.
Lemma lev_match_utf8_ok text cps : text_of text (utf8 cps) → Forall scalar cps → ∃ hits, matches p cps max_distance 0 hits ∧
  ∀ U (cb : Z → Z → Z → U → bool * U) u w, searched cb hits u (4 + length cps) w (lev_match_utf8 pattern (alen p) max_distance text cb u w).
Proof using All.
  intros Ht Hc. destruct (text_len _ _ Ht) as (Hl & Hmax & _). pose proof (alen_le_utf8 cps) as Hle.
  destruct (scan_all cps (aget cps)) as (r & hits & Er & Hm & Hsc); [by intros e c ?; rewrite aget_of_nat|lia|].
  exists hits. split; [done|]. intros U cb u w. unfold lev_match_utf8.
  rewrite (text_valid text (utf8 cps) cps [] Ht) by (rewrite ?app_nil_r; done || apply stuck_nil). wrun. rewrite bool_decide_true by done. cbn [negb].
  destruct (malloc_four w) as (a & b & c & d & w1 & E1 & O1 & B1 & S1). rewrite E1.
  destruct (is_null a || is_null b || is_null c || is_null d) eqn:Hn.
  { destruct (free_four_ok a b c d w1) as (w2 & E2 & _ & O2 & B2). wstep E2. wrun. exists SALTS_ENOMEM, u, w2. split; [done|]. split; [split; [lia|congruence]|]. split; [|by right].
    intros Hs. by destruct (S1 (length cps) Hs). }
  assert (∃ q w2, decode_text (S (Z.to_nat (vs_len text))) text 0 None [] w1 = Some (q, w2) ∧ w_objects w2 = w_objects w1 ∧
    ((∃ block, q = (Some (block, cps), None) ∧ w_blocks w2 - block_of block = w_blocks w1) ∨ (q = (None, Some SALTS_ENOMEM) ∧ w_blocks w2 = w_blocks w1 ∧ ¬ supply (length cps) w1))) as (q & w2 & E2 & O2 & Hq).
  { destruct Ht as [(N1 & N2 & N3)|(a' & bs & Hv & Et)].
    - rewrite N2. exists (Some (None, []), None), w1. cbn [decode_text]. rewrite N2. split; [done|]. split; [done|]. left. exists None. destruct cps as [|cp cps]; [split; [done|cbn; lia]|].
      apply (f_equal blen) in N3. rewrite utf8_cons, blen_app in N3. pose proof (encode_length cp). pose proof (blen_nonneg (utf8 cps)). change (blen (@nil Z)) with 0 in N3. lia.
    - destruct (decode_text_ok (S (Z.to_nat (vs_len text))) text a' bs cps 0 None [] w1 Hv) as (q & w2 & E2 & O2 & Hq).
      + apply view_cps; [done|by rewrite app_nil_r|done|apply stuck_nil].
      + unfold alen in Hle. lia.
      + exists q, w2. split; [done|]. split; [done|]. cbn [block_of is_null app] in Hq. destruct Hq as [(block & -> & B2)|(-> & B2 & Hs)]; [left; exists block; split; [done|lia]|right; split; [done|]; split; [lia|done]]. }
  wstep E2. destruct Hq as [(block & -> & B2)|(-> & B2 & Hs)].
  - cbv zeta in Er. cbn beta iota. rewrite Er. wrun. rewrite Hsc. wrun.
    destruct (free_four_ok a b c d w2) as (w3 & E3 & _ & O3 & B3). wstep E3. destruct (free_unless_null_ok block w3) as (w4 & E4 & _ & O4 & B4). wstep E4. wrun.
    exists SALTS_OK, (visit cb hits u), w4. split; [done|]. split; [split; [lia|congruence]|]. split; [done|by left].
  - destruct (free_four_ok a b c d w2) as (w3 & E3 & _ & O3 & B3). wstep E3. wrun. exists SALTS_ENOMEM, u, w3. split; [done|]. split; [split; [lia|congruence]|]. split; [|by right].
    intros Hsup. destruct (S1 (length cps) Hsup) as [_ Hsup']. done.
Qed.
End Pattern.

(** ** Automata *)

(** The elements that bytes stand for: the bytes, or their code points. *)
Definition elements (utf8_text : bool) (bs p : list Z) : Prop := if utf8_text then bs = utf8 p ∧ Forall scalar p else p = bs.

Record automaton_ok (l : lev_automaton) (p : list Z) (max_distance : Z) : Prop := {
  au_init : lv_initialized l = true;
  au_store : storage_ok (lv_pattern l);
  au_holds : holds (lv_pattern l) p;
  au_type : element_type (lv_pattern l) = None;
  au_max : lv_max_distance l = max_distance;
  au_some : p ≠ []
}.

Lemma elements_len wide ps p : elements wide ps p → alen p <= blen ps ∧ (ps ≠ [] → p ≠ []).
Proof using Type.
  destruct wide; cbn.
  - intros [-> _]. split; [apply alen_le_utf8|]. by intros H ->.
  - intros ->. split; [reflexivity|done].
Qed.

Lemma fill_ok wide v ps p vec w : text_of v ps → elements wide ps p → ps ≠ [] →
  (if wide then push_codepoints (S (Z.to_nat (vs_len v))) v 0 vec else data ← lift (vs_data v); push_bytes (Z.to_nat (vs_len v)) data 0 vec) w = as_salts (push_all p vec w).
Proof using Type.
  intros [(_ & _ & ->)|(a & bs & Hv & ->)] He Hne; [done|]. pose proof (elements_len _ _ _ He) as [Hl _]. pose proof (vo_len _ _ _ Hv) as Hb. destruct wide; cbn in He.
  - destruct He as [Et Hc]. apply (push_codepoints_ok _ v a bs p); [done|apply view_cps; [done|by rewrite app_nil_r|done|apply stuck_nil]|].
    unfold shown, alen, blen in *. rewrite length_take in Hl. lia.
  - rewrite (vo_data _ _ _ Hv). wrun. rewrite (push_bytes_ok a bs _ 0); [|unfold blen in Hb; lia]. by rewrite He, drop_0.
Qed.

Lemma status_ok st : (salts_core_status_from_stl st =? SALTS_OK) = bool_decide (st = STL_OK).
Proof using Type. by destruct st. Qed.

(** Setting up is filling an empty vector of the pattern's size. *)
Lemma lev_init_start wide v ps p max_distance w : text_of v ps → elements wide ps p → ps ≠ [] → 8 * (blen ps + 2) <= SIZE_MAX → 0 <= max_distance <= LEVENSHTEIN_INF → ∃ vec : vec_t Z,
  storage_ok vec ∧ holds vec [] ∧ st_data vec = None ∧ element_limit vec = blen ps ∧ element_type vec = None ∧ roomy vec ∧ elem_align vec = (if wide then 4 else 1) ∧
  lev_init_common (Some lev_zero) v max_distance wide w = match push_all p (Some vec) w with
    | Some ((st, Some v'), w') => Some ((salts_core_status_from_stl st, Some (if bool_decide (st = STL_OK) then MkLev v' max_distance true else MkLev v' 0 false)), w')
    | _ => None
    end.
Proof using Type.
  intros Ht He Hne Hbound Hmax. destruct (text_len _ _ Ht) as (Hl & _ & _ & Hnull). assert (0 < blen ps) as Hpos by (destruct ps; [done|unfold blen; cbn; lia]). unfold lev_init_common.
  replace (is_null (vs_data v)) with false by (destruct (is_null (vs_data v)); [by rewrite Hnull in Hne|done]). cbn [andb orb lv_initialized lev_zero]. rewrite (proj2 (Z.ltb_ge _ _)) by lia.
  assert ((if wide then lift (vstr_utf8_valid v) else mret true) w = Some (true, w)) as Ev.
  { destruct wide; [|done]. destruct He as [-> Hc]. by rewrite (text_valid v _ p [] Ht) by (rewrite ?app_nil_r; done || apply stuck_nil). }
  wstep Ev. cbn [negb]. rewrite (proj2 (Z.eqb_neq _ _)) by lia.
  set (width := if wide then 4 else 1). destruct (vec_init_bytes (Some (lv_pattern lev_zero)) width width (vs_len v)) as [st0 vec0] eqn:Ei.
  assert (sequence_stride width width = (STL_OK, Some width)) as Es by (subst width; by destruct wide). pose proof Ei as Ei'. unfold vec_init_bytes, vec_initialize in Ei. cbn [lv_pattern lev_zero initialized storage_zero] in Ei. rewrite Es in Ei.
  injection Ei as <- <-. set (vec := MkStorage _ _ _ _ _ _ _ _ _ _ _) in *. unfold vec_init_bytes in Ei'. assert (is_u64 width ∧ 1 <= width <= 4) as [Hw Hw'] by (subst width; destruct wide; word_lia).
  pose proof (vec_initialize_ok _ None width width (vs_len v) STL_OK vec Hw Hw ltac:(word_lia) I Ei') as Hv. rewrite bool_decide_true in Hv by done. destruct Hv as (Hs & Hh & Hd & Hlim & Hty).
  exists vec. rewrite <-Hl. do 5 (split; [done|]). split; [unfold roomy, overhead, sizeof_ptr; cbn [vec element_limit elem_stride elem_align]; rewrite Hl; nia|]. split; [done|].
  rewrite bool_decide_true by done. cbn [negb]. unfold mbind at 1, M_bind at 1. rewrite (fill_ok wide v ps p (Some vec) w Ht He Hne).
  change (@Some (vec_t Z) vec) with (@Some (storage Z) vec). destruct (push_all p (Some vec) w) as [[[st [v'|]] w']|]; [|reflexivity|reflexivity]. cbn [as_salts]. wrun. rewrite status_ok. case_bool_decide as Hst; cbn [negb]; [by rewrite Hst|done].
Qed.

(** A new automaton that is set up for a pattern keeps it, in one block; or it
    is still not initialised and everything has been given back. *)
Lemma lev_init_ok wide v ps p max_distance w : text_of v ps → elements wide ps p → ps ≠ [] → 8 * (blen ps + 2) <= SIZE_MAX → 0 <= max_distance <= LEVENSHTEIN_INF →
  ∃ st l w', lev_init_common (Some lev_zero) v max_distance wide w = Some ((st, Some l), w') ∧
    (mallocs (2 * length p) (if wide then 4 else 1) w → st = SALTS_OK) ∧
    (st ≠ SALTS_OK → lv_initialized l = false ∧ w_same w w') ∧
    (st = SALTS_OK → automaton_ok l p max_distance ∧ w_blocks w' = w_blocks w + 1 ∧ w_objects w' = w_objects w).
Proof using Type.
  intros Ht He Hne Hbound Hmax. destruct (elements_len _ _ _ He) as [Hp Hpne]. specialize (Hpne Hne).
  destruct (lev_init_start wide v ps p max_distance w Ht He Hne Hbound Hmax) as (vec & Hs & Hh & Hd & Hlim & Hty & Hroom & Hal & ->).
  destruct (push_all_ok p vec [] w Hs Hh) as (st & v' & w' & E & Hres); [cbn [app]; lia|]. rewrite E. do 3 eexists. split; [reflexivity|].
  assert (blocks_of vec = 0) as Hb0 by (unfold blocks_of; by rewrite Hd). assert (owned (element_type vec) = 0) as Ho0 by (by rewrite Hty).
  split; [|split].
  - intros Hm. rewrite <-Hal in Hm. by rewrite (push_all_supply p vec [] w st (Some v') w' Hs Hh ltac:(cbn [app]; lia) Hroom Hty E Hm).
  - intros Hst. rewrite bool_decide_false in Hres |- * by (intros ->; done). split; [done|]. unfold w_same. destruct Hres as [H1 H2]. rewrite Hb0 in H1. rewrite Ho0 in H2. split; lia.
  - intros Hst. apply Z.eqb_eq in Hst. rewrite status_ok in Hst. apply bool_decide_eq_true in Hst. rewrite bool_decide_true in Hres |- * by done.
    destruct Hres as (Hs' & Hh' & (_ & _ & _ & _ & Hty' & _) & HB & HO). cbn [app] in Hh'. rewrite Hb0 in HB. rewrite Ho0 in HO.
    assert (blocks_of v' = 1) as Hb1.
    { unfold blocks_of. destruct (st_data v') eqn:Ed; [done|]. exfalso. apply (so_data _ Hs') in Ed. destruct (so_size _ Hs') as [_ Hsz]. destruct Hh' as [Hsize _]. rewrite Ed, Hsize in Hsz. destruct p; [done|]. unfold alen in Hsz. cbn in Hsz. lia. }
    split; [|split; lia]. split; cbn; try done. congruence.
Qed.

Lemma lev_usable_ok l p max_distance text t : automaton_ok l p max_distance → text_of text t →
  lev_usable (Some l) text = Some (st_slots (lv_pattern l), alen p, max_distance) ∧ pattern_at p (st_slots (lv_pattern l)).
Proof using Type.
  intros [Hi Hs Hh Hty Hm Hne] Ht. destruct (text_len _ _ Ht) as (Hl & _ & _ & Hnull). destruct Hh as (Hsize & tl & Hslots & _).
  assert (0 < alen p) as Hpos by (destruct p; [done|unfold alen; cbn; lia]). split.
  - unfold lev_usable, vec_size, vec_data. rewrite Hi, (vec_valid_ok _ Hs), Hsize, Hm. cbn [negb orb].
    replace (is_null (vs_data text) && negb (vs_len text =? 0)) with false by (destruct (is_null (vs_data text)); [by rewrite Hl, Hnull|done]).
    rewrite (proj2 (Z.eqb_neq _ _)) by lia. destruct (st_data (lv_pattern l)) eqn:Ed; [done|]. apply (so_data _ Hs) in Ed. destruct (so_size _ Hs) as [_ Hsz]. lia.
  - intros j x Hx. rewrite Hslots. apply lookup_app_l_Some. by rewrite list_lookup_fmap, Hx.
Qed.

Lemma lev_destroy_ok l p max_distance w : automaton_ok l p max_distance → ∃ w', lev_automaton_destroy (Some l) w = Some (Some lev_zero, w') ∧ w_blocks w' = w_blocks w - 1 ∧ w_objects w' = w_objects w.
Proof using Type.
  intros [Hi Hs Hh Hty Hm Hne]. unfold lev_automaton_destroy. rewrite Hi. cbn [negb]. destruct (vec_destroy_ok _ _ w Hs Hh) as (g & w' & E & B & O). wstep E. wrun. exists w'. split; [done|].
  assert (blocks_of (lv_pattern l) = 1) as Hb.
  { unfold blocks_of. destruct (st_data (lv_pattern l)) eqn:Ed; [done|]. exfalso. apply (so_data _ Hs) in Ed. destruct (so_size _ Hs) as [_ Hsz]. destruct Hh as [Hsize _]. rewrite Ed, Hsize in Hsz. destruct p; [done|]. unfold alen in Hsz. cbn in Hsz. lia. }
  rewrite Hty in O. cbn in O. split; lia.
Qed.

(** The search of either kind. *)
Definition lev_match {U} (utf8_text : bool) : option lev_automaton → vstr → option (Z → Z → Z → U → bool * U) → U → M (Z * U) :=
  if utf8_text then lev_utf8_automaton_match else lev_automaton_match.

Lemma lev_match_ok wide l p max_distance text ts t : automaton_ok l p max_distance → 8 * (alen p + 1) <= SIZE_MAX → text_of text ts → elements wide ts t →
  ∃ hits, matches p t max_distance 0 hits ∧ ∀ U (cb : Z → Z → Z → U → bool * U) u w, searched cb hits u (4 + length t) w (lev_match wide (Some l) text (Some cb) u w).
Proof using Type.
  intros Ha Hlen Ht He. destruct (lev_usable_ok l p max_distance text ts Ha Ht) as [Hu Hpat]. destruct wide; cbn in He.
  - destruct He as [-> Hc]. destruct (lev_match_utf8_ok p _ max_distance Hlen Hpat text t Ht Hc) as (hits & Hm & Hs). exists hits. split; [done|]. intros U cb u w.
    unfold lev_match, lev_utf8_automaton_match. rewrite Hu. apply Hs.
  - subst t. destruct (lev_match_bytes_ok p _ max_distance Hlen Hpat text ts Ht) as (hits & Hm & Hs). exists hits. split; [done|]. intros U cb u w.
    unfold lev_match, lev_automaton_match. rewrite Hu. destruct (Hs U cb u w) as (st & u' & w' & E & Hw & Hen & Hr). exists st, u', w'. split; [done|]. split; [done|]. split; [|done].
    intros Hsup. apply Hen. by apply (supply_weaken (4 + length ts)); [lia|].
Qed.
Lemma lev_match_invalid l p max_distance text ts : automaton_ok l p max_distance → text_of text ts → (¬ ∃ t, elements true ts t) →
  ∀ U (cb : Z → Z → Z → U → bool * U) u w, lev_match true (Some l) text (Some cb) u w = Some ((SALTS_EINVAL, u), w).
Proof using Type.
  intros Ha Ht Hno U cb u w. destruct (lev_usable_ok l p max_distance text ts Ha Ht) as [Hu _]. destruct (text_len _ _ Ht) as (_ & _ & Hb & _).
  destruct (utf8_split ts Hb) as (cps & rest & E & Hc & Hs). unfold lev_match, lev_utf8_automaton_match, lev_match_utf8. rewrite Hu, (text_valid text ts cps rest Ht E Hc Hs). wrun.
  rewrite bool_decide_false; [done|]. intros ->. apply Hno. exists cps. cbn. by rewrite E, app_nil_r.
Qed.

(** C28. Approximate search is exact. A new automaton that is set up for a
    pattern (bytes, or code points of valid UTF-8) keeps it in one block; with
    enough memory this succeeds, and a failure leaves it uninitialised and
    gives everything back. A search with it, of text of the same kind, calls
    the callback exactly on the best matches in the order of their ends, until
    the callback returns false: for each end in the text that is not before the
    pattern's length, the part of the text that ends there with the least
    number of edits, the leftmost of those, if this number is at most the
    allowed distance. It gives back all it allocates, and without memory the
    callback is not called at all; text that is not valid UTF-8 is refused.
    Destroying the automaton returns its block. *)
Theorem lev_search_exact wide pv ps p max_distance w : text_of pv ps → elements wide ps p → ps ≠ [] → 8 * (blen ps + 2) <= SIZE_MAX → 0 <= max_distance <= LEVENSHTEIN_INF →
  ∃ st l w', lev_init_common (Some lev_zero) pv max_distance wide w = Some ((st, Some l), w') ∧
    (mallocs (2 * length p) (if wide then 4 else 1) w → st = SALTS_OK) ∧ (st ≠ SALTS_OK → lv_initialized l = false ∧ w_same w w') ∧
    (st = SALTS_OK → w_blocks w' = w_blocks w + 1 ∧ w_objects w' = w_objects w ∧ ∀ text ts, text_of text ts →
      (∀ t, elements wide ts t → ∃ hits, matches p t max_distance 0 hits ∧ (∀ hits', matches p t max_distance 0 hits' → hits' = hits) ∧
         ∀ U (cb : Z → Z → Z → U → bool * U) u w2, searched cb hits u (4 + length t) w2 (lev_match wide (Some l) text (Some cb) u w2)) ∧
      ((¬ ∃ t, elements wide ts t) → ∀ U (cb : Z → Z → Z → U → bool * U) u w2, lev_match wide (Some l) text (Some cb) u w2 = Some ((SALTS_EINVAL, u), w2)) ∧
      ∀ w2, ∃ w3, lev_automaton_destroy (Some l) w2 = Some (Some lev_zero, w3) ∧ w_blocks w3 = w_blocks w2 - 1 ∧ w_objects w3 = w_objects w2).
Proof using Type.
  intros Ht He Hne Hb Hmax. destruct (lev_init_ok wide pv ps p max_distance w Ht He Hne Hb Hmax) as (st & l & w' & E & Hen & Hf & Hok). exists st, l, w'. do 3 (split; [done|]).
  intros Hst. destruct (Hok Hst) as (Ha & B & O). split; [done|]. split; [done|]. intros text ts Htext. destruct (elements_len _ _ _ He) as [Hlen _]. split; [|split].
  - intros t Hte. destruct (lev_match_ok wide l p max_distance text ts t Ha) as (hits & Hm & Hs); [lia|done|done|]. exists hits. split; [done|]. split; [|done].
    intros hits' Hm'. by apply (matches_unique p t max_distance 0).
  - intros Hno. destruct wide; [by apply (lev_match_invalid l p max_distance text ts)|]. exfalso. apply Hno. by exists ts.
  - intros w2. by apply (lev_destroy_ok l p max_distance).
Qed.
End Search.

(** The pattern 1 2 3 in the text 0 1 3 2 3 9, at most one edit. *)
Definition some_view (bs : list Z) : vstr := MkVstr (Some (4096, bs)) (blen bs).
Definition some_memory : world := MkWorld (Some <$> [64; 128; 192; 256; 320; 384; 448; 512; 576; 640; 704; 768]) 0 0.
Definition collect (s e n : Z) (u : list (Z * Z * Z)) : bool * list (Z * Z * Z) := (true, u ++ [(s, e, n)]).
Lemma some_view_text bs : bytes_ok bs → blen bs <= SIZE_MAX → text_of (some_view bs) bs.
Proof.
  intros Hb Hl. right. exists 4096, bs. pose proof (blen_nonneg bs). split; [split; cbn; done || lia|]. unfold shown. cbn. symmetry. apply take_ge. unfold blen. lia.
Qed.
Lemma some_search_hits : option_map fst ((l ← lev_automaton_init (Some lev_zero) (some_view [1; 2; 3]) 1; lev_automaton_match l.2 (some_view [0; 1; 3; 2; 3; 9]) (Some collect) []) some_memory) =
  Some (SALTS_OK, [(1, 3, 1); (1, 5, 1)]).
Proof. vm_compute. reflexivity. Qed.

Lemma lev_search_exact_witness :
  (∃ l w', lev_init_common (Some lev_zero) (some_view [1; 2; 3]) 1 false some_memory = Some ((SALTS_OK, Some l), w') ∧ w_blocks w' = 1 ∧
    ∃ hits, matches [1; 2; 3] [0; 1; 3; 2; 3; 9] 1 0 hits ∧
      ∀ w2, supply 10 w2 → ∃ w3, lev_automaton_match (Some l) (some_view [0; 1; 3; 2; 3; 9]) (Some collect) [] w2 = Some ((SALTS_OK, visit collect hits []), w3)) ∧
  option_map fst ((l ← lev_automaton_init (Some lev_zero) (some_view [1; 2; 3]) 1; lev_automaton_match l.2 (some_view [0; 1; 3; 2; 3; 9]) (Some collect) []) some_memory) =
    Some (SALTS_OK, [(1, 3, 1); (1, 5, 1)]).
Proof.
  split; [|exact some_search_hits].
  assert (text_of (some_view [1; 2; 3]) [1; 2; 3]) as Hp by (apply some_view_text; [by_eval|done]).
  assert (text_of (some_view [0; 1; 3; 2; 3; 9]) [0; 1; 3; 2; 3; 9]) as Ht by (apply some_view_text; [by_eval|done]).
  destruct (lev_search_exact false (some_view [1; 2; 3]) [1; 2; 3] [1; 2; 3] 1 some_memory Hp eq_refl ltac:(done) ltac:(done) ltac:(done)) as (st & l & w' & E & Hen & _ & Hok).
  assert (st = SALTS_OK) as ->.
  { apply Hen. exists [64; 128; 192; 256; 320; 384], (Some <$> [448; 512; 576; 640; 704; 768]). split; [done|]. split; [done|]. repeat constructor; done. }
  destruct (Hok eq_refl) as (B & _ & Hs). exists l, w'. split; [done|]. split; [exact B|].
  destruct (Hs _ _ Ht) as (Hm & _). destruct (Hm _ eq_refl) as (hits & Hh & _ & Hrun). exists hits. split; [done|].
  intros w2 Hw. destruct (Hrun _ collect [] w2) as (st & u' & w3 & Er & _ & Hsup & Hr). exists w3. specialize (Hsup Hw). destruct Hr as [[_ ->]|[Hst _]]; [by rewrite Hsup in Er|by rewrite Hst in Hsup].
Defined.
